(* ===== verification/_CoqProject ===== *)
-Q . S2P
Prelude.v
Float.v
AddWinsSet.v
OpLog.v
SyncEngine.v
Delta.v
Gossip.v
PersistentSyncEngine.v
Transport.v
Namespace.v
TupleStore.v
PermissionCheck.v
PersistentTupleStore.v
AclSync.v
ConnectorSync.v
Http.v
DocuSign.v
Tenant.v
PersistentTenant.v
AuditLog.v
PersistentAuditLog.v
ConceptGraph.v
Incremental.v
PersistentConceptGraph.v
Memory.v
MemoryPolicy.v
WorkingMemory.v
MemoryItems.v
ChannelMemory.v
DomainMemory.v
TenantMemory.v
UserMemory.v
Episodic.v
AgentContract.v
ExportPlane.v
Election.v
RateLimiter.v
Forgetting.v
ForgetScope.v
Wal.v
Replication.v
Failover.v
SynthesisWindow.v
SynthesisHierarchy.v
SynthesisStore.v
SynthesisRate.v
ServerSynthesis.v
SynthesisApply.v
SynthesisRuns.v
SynthesisRecovery.v
EvidenceTables.v
RingBuffer.v
BodyStore.v
BodyInvariant.v
BodyLife.v
ApprovedDocuments.v
DocumentShelf.v
