(* ===== verification/Prelude.v ===== *)
(** * A verification development for the knowledge substrate

    The repository is a Rust workspace ([crates/]) that stores what a team and
    its agents know: devices keep replicated sets of memories and synchronise
    them through an untrusted relay; a permission service decides who may see
    what; a tenant registry owns the encryption keys; an audit log records every
    sensitive call; a concept graph links memories; a memory manager promotes,
    archives and forgets them; connectors bring documents and their access rights
    in; synthesis runs have a language model write recaps of scopes, window by
    window; evidence is stored encrypted, equal bodies once; forgetting a scope
    destroys its keys; and a primary substrate ships its database to standbys.  This library translates the core logic of those crates
    into executable definitions and proves what makes each of them correct.
    Paths below are relative to [src/crates/].

    ** The parts and where they are modelled

    Synchronisation ([sync_engine], [sync_relay]), bottom up:
    - [AddWinsSet]: [crdt.rs], the observed-remove set with tags and tombstones.
    - [OpLog]: [op_log.rs] and [error.rs], the log of operations with its
      de-duplication index; [append], [merge_single], [merge], [compact],
      [replay], [from_disk]/[to_disk].
    - [SyncEngine]: [lib.rs], one replica: the log, the cache of the replayed
      state with its watermark, the compaction policies, snapshots, bootstrap.
    - [Delta]: [delta.rs], the envelopes replicas exchange and the epoch guard.
    - [Gossip]: the system those files make together.  It has no file of its
      own in the source: it is the step relation of a cluster whose members call
      the engine's mutators and send each other deltas over a network that may
      delay, reorder, duplicate and lose them.
    - [PersistentSyncEngine]: [persist.rs], the engine mirrored into SQLite.
    - [Transport]: [transport.rs] and the relay's [store.rs], the client with
      its cursors, the transport trait as a type class, and the two
      implementations of it, the process-local one and the relay's blob store.

    Permissions ([permission_service]):
    - [Namespace]: [tuple.rs], [namespace.rs], [error.rs]; relations and their
      inheritance closure.
    - [TupleStore]: [store.rs]; relation tuples and their derived index.
    - [PermissionCheck]: [check.rs]; the recursive search.
    - [PersistentTupleStore]: [persist.rs]; the store sealed into a table, with
      its key rotation.

    Connectors ([connector_framework], [connectors], [ffi]):
    - [AclSync]: [acl_sync.rs]; a source's grants and revocations turned into
      relation tuples of the tuple store.
    - [ConnectorSync]: [sync.rs]; the state machine of a connector and the
      watermark cursor with its string form.
    - [Http]: [http.rs], [http_helpers.rs]; requests, the retry loop, encoding.
    - [DocuSign]: [connectors/src/docusign.rs] with [ffi/src/connector.rs]; one
      connector from end to end, over [Http] and [ConnectorSync].

    Tenants and audit ([tenant_service], [audit_service]):
    - [Tenant]: the life cycle with key destruction, configuration checks and
      membership; [PersistentTenant]: its durable mirror ([persist.rs]).
    - [AuditLog]: [entry.rs], [log.rs], [error.rs], the log with its indexes and
      query planner; [PersistentAuditLog]: its append-only table.

    Knowledge ([concept_graph], [memory_manager], [agent_contract],
    [export_plane]):
    - [ConceptGraph]: [node.rs], [edge.rs], [graph.rs], [projection.rs];
      [Incremental]: [incremental.rs], what a change affects and how it is
      propagated; [PersistentConceptGraph]: [persist.rs], the sealed tables.
    - [Memory] ([object.rs], [state.rs], [transitions.rs], [retention.rs]) and
      [MemoryPolicy] ([policy.rs], [decay.rs], [purge.rs]): one object's life.
    - [WorkingMemory], [ChannelMemory], [DomainMemory], [TenantMemory],
      [UserMemory], [Episodic]: the memory planes, one file of the crate each,
      over the items of [MemoryItems].
    - [AgentContract]: [proposal.rs], [lifecycle.rs], [schema.rs] and the review
      policies; [ExportPlane]: profiles, the export policy, approvals and the
      simulator.

    Synthesis ([synthesis_pipeline], [synthesis_engine], [ffi]):
    - [Election] ([election.rs]) and [RateLimiter] ([rate_limiter.rs]).
    - [SynthesisWindow]: [window.rs]; windows, their life cycle, their manager.
    - [SynthesisHierarchy]: [object.rs], [hierarchy.rs]; synthesis objects and
      which inputs a run may consume.
    - [SynthesisStore]: memory blobs and archived versions of objects in
      [evidence_store/src/store.rs], statement by statement, and transactions.
    - [SynthesisRate]: [ffi/src/synthesis_rate.rs]; the token bucket.
    - [ServerSynthesis]: [ffi/src/synthesis.rs] and what [runtime.rs] and [lib.rs]
      do with its state; planning, applying, replaying, reading, forgetting,
      opening.  [SynthesisApply], [SynthesisRuns] and [SynthesisRecovery] prove one
      application, the interleaving of runs, and crashes.

    Evidence ([evidence_store], [ffi]):
    - [EvidenceTables]: [importance.rs], [routing.rs], the tables of [schema.rs],
      statements and transactions over them, and how [store.rs] seals what they
      hold; with the weakest preconditions the next files reason in.
    - [RingBuffer]: [store.rs]; the bounded buffer of noise.
    - [BodyStore]: [store.rs]; ingestion, reading, the bodies stored once per
      content with a wrapped key per scope, the payloads of approved documents,
      the purge of a forgotten scope.  [BodyInvariant] has the invariant of these
      tables and what each call does, [BodyLife] their sequences.
    - [ApprovedDocuments]: [ffi/src/synthesis.rs] and [runtime.rs]; the calls on
      the documents a tenant approves, and opening a store.  [DocumentShelf]
      refines them to a shelf of documents with payloads.

    Forgetting ([crypto], [evidence_store], [ffi]): [Forgetting]
    ([crypto/src/forgetting.rs]), the registry of scope and epoch keys with the
    epoch manager; [ForgetScope], the keys and tombstones on disk
    ([evidence_store/src/store.rs]), opening a store and the forget call
    ([ffi/src/runtime.rs], [lib.rs]).

    Replication ([substrate_server/src/replication]):
    - [Wal]: [mod.rs]; SQLite's write-ahead log with its checksums, the segments
      on the wire, the shipper that cuts them.
    - [Replication]: [primary.rs], [standby.rs], [memory.rs]; the shipping loop,
      the splicing of pages into the standby's file, the lag.
    - [Failover]: [failover.rs], [memory.rs], [nats.rs]; the modes, the lease, its
      two stores, the coordinator, and a cluster of coordinators.

    [Prelude] (this file) holds the vocabulary they share and [Float] the facts
    about binary64 that the scores need.

    ** How the parts meet

    A client is proved against what it uses of another part: [Gossip] runs
    engines over envelopes, the durable mirrors run the pure parts' operations
    and relate the tables to their state, [PermissionCheck] reads the index that
    [TupleStore] keeps, [AclSync] writes that store, [DocuSign] runs over
    [Http.execute], [Replication] ships what [Wal]'s shipper cuts, [Failover]
    switches between [Replication]'s loops, and [ServerSynthesis] moves windows of
    [SynthesisWindow] and memories of [DomainMemory] and [TenantMemory] through
    transactions of [SynthesisStore]; [EvidenceTables] puts the other tables beside
    that store's rows, under one tape of faults, and [ApprovedDocuments] writes the
    lists of [TenantMemory] to the former and the payloads to [BodyStore].  Where the source has a trait the
    model has a type class, with its laws in a second class when clients rely on
    them: [SyncTransport] and [Faithful], [TombstoneStore] and [TombstoneLaws],
    [WalBus] and [WalBusLaws], [LeaseStore] and [LeaseStoreLaws], [Item] (the
    planes' items).  Each has the source's in-process implementation as an
    instance that satisfies the laws; the compare-and-set lease store is a second
    instance of [LeaseStore].

    ** How the code is represented

    - A struct is a [Record] and an enum an [Inductive] with the source's names;
      a method is a definition with the method's name, prefixed where two
      structs of a file share it ([config_closure] and [closure]).
    - [fn f(&mut self, ..) -> Result<A, E>] is an [eff]: the state after the
      call is returned on the error path as well, because Rust keeps what was
      written before an early return.  [fn f(&self, ..) -> Result] is a
      [result].  [let? x := r in k] and [do? x := m in k] are the [?] operator.
    - A [HashMap] or [HashSet] is a [gmap] or [gset].  Where the code iterates
      one, the order is [hash_order], an arbitrary reordering ([HashOrder]) over
      which the theorems quantify.  A [BTreeSet] is listed in ascending order.
    - [u32] and [u64] are [N] with saturating or checked operations written out
      ([u64_saturating_add], [u64_max]); conversions to SQLite's [i64] are
      checked as in the source.  [usize] is [nat].  A UUID is its number, an
      instant or a duration a number of nanoseconds in [Z].
    - [f64] is the Standard Library's executable specification of IEEE 754
      binary64 ([SpecFloat]); decimal literals are [f64_lit].
    - A panic that the code could in principle reach (indexing, [expect]) is
      [None] in the model, and a theorem shows it is not reached.
    - What is not in the repository is a parameter: codecs ([Serde]), the AEAD
      cipher ([Aead], with decryption undoing encryption), the content hash and the
      bytes of a key ([ContentHashing], [KeyBytes]), key derivation ([Kdf],
      [Hkdf], [EpochKeySource]), UUID version 5 ([UuidV5]) and the text of UUIDs
      ([UuidText]), date parsing and printing ([Rfc3339], [NaiveParser],
      [UnixTime]), flags read from a JSON payload ([JsonFlags],
      [ObservationJson]), payload validation ([ValidatePayload]), the summarizer
      ([Summarizer]), the platform's exponential ([Libm]), the network (a function
      from requests to answers in [Http] and [DocuSign]) and the key-value bucket
      ([KeyValue], with the documented laws of conditional writes).  The clock
      and fresh identifiers are arguments.  What SQLite and the file system answer
      is an oracle passed to each durable operation: any statement, the BEGIN, the
      COMMIT and the ROLLBACK may fail, a file write may stop half way, and a
      theorem covers every combination unless its comment names an exception.

    ** What the theorems show

    Convergence.  [AddWinsSet.merge_semilattice] and [add_wins_exact] are the laws
    of the set; [OpLog.log_invariant], [replay_spec], [merge_logs_join] and
    [compact_correct] lift them to logs, under the hypothesis that equal operation
    keys mean equal operations ([coherent]).  [Gossip.gossip_keys_unique] shows
    that every reachable cluster satisfies it, so [Gossip.gossip_converges] has
    no such hypothesis.  The engine refines its log: [SyncEngine.cache_transparent],
    [mutators_spec], [growth_bounded], [snapshot_restore_roundtrip],
    [bootstrap_spec].  Deltas and transports carry it between devices:
    [Delta.delta_complete], [apply_delta_spec], [Transport.relay_delivers],
    [blob_store_spec], and [pull_hostile_relay] for a relay that lies.

    Durability.  For each durable mirror, memory and disk move together under
    every failure, and reopening gives the state back:
    [PersistentSyncEngine.persistent_call_in_sync] and [reopen_roundtrip],
    [PersistentTupleStore.persistent_store_refines] and [key_rotation_complete],
    [PersistentTenant.persistent_tenant_call] and [tenant_reopen],
    [PersistentAuditLog.persistent_append], [audit_open_complete] and
    [audit_reopen], [PersistentConceptGraph.graph_lockstep], [graph_reload],
    [page_exact] and [neighbors_from_disk_exact].

    Forgetting.  [ForgetScope.forgotten_is_final], [key_survives] and
    [forget_outcome] follow a scope's key through openings, writes, failing
    statements and restarts; [Forgetting.scope_destroyed] and
    [epochs_never_reused] are the registry's part.

    Evidence.  [BodyLife.bodies_exact]: through every sequence of calls of all
    scopes and every failure, what is read is what was stored, although equal
    bodies share a ciphertext; [forgetting_erases]: a purged scope has no wrap and
    a body lives as long as some other scope holds it; [storing_succeeds]: what
    alone can keep a scope from storing.  [RingBuffer.ring_insert_exact],
    [ring_window_exact] and [ring_never_exceeds] are the buffer.
    [DocumentShelf.documents_refine], [listing_exact] and [reopen_exact] are the
    approved documents, restarts included.

    Decisions.  [PermissionCheck.check_permission_decides] proves the search
    sound, complete and terminating against the inductive relation [granted];
    [Namespace.namespace_closure] and [TupleStore.tuple_store_spec] are its
    parts, and [AclSync.acl_mirrors_source] says what a source's changes leave in
    the store.  [Tenant.deleted_is_final] and [membership_spec], [AuditLog.append_only]
    and [query_exact], [ConceptGraph.traverse_exact], [graph_consistent] and
    [projection_exact], [Incremental.affected_exact] and [propagate_exact],
    [MemoryPolicy.policy_precedence], [policy_sweep_spec] and [time_sweeps_spec],
    [Memory.retention_score_bounds], [AgentContract.proposal_lifecycle] and
    [promotion_gate], [ExportPlane.export_decision_exact], [constraints_tighten],
    [simulate_exact] and [approval_spec], [Election.elect_spec],
    [RateLimiter.limiter_bound], and for the planes
    [WorkingMemory.working_memory_bounded], [ChannelMemory.channel_no_duplicates],
    [DomainMemory.domain_memory_spec], [TenantMemory.tenant_memory_typed],
    [UserMemory.user_memory_spec], [Episodic.detect_partitions] and [ingest_spec].

    Connectors.  [ConnectorSync.watermark_exact], [Http.execute_bounded],
    [percent_encode_exact] and [classify_failure_spec], and over them
    [DocuSign.docusign_sync_exact]: a run always returns, ingests exactly what is
    new, and never loses its place.

    Synthesis.  [SynthesisWindow.windows_refine] and [lifecycle_exact] are the
    manager; [SynthesisApply.apply_all_or_nothing], [versions_spec] and
    [retention_exact] one application under every failure; [SynthesisRuns] lets
    dispatches, replays, completions and forgetting interleave, with an arbitrary
    engine: [runs_exclusive], [runs_coherent], [gathered_admitted].
    [SynthesisRecovery.recovery_exact] adds crashes: whatever was applied is there
    when the store is opened again, as long as no statement of the opening fails.

    Replication.  [Wal.wal_exact], [segment_wire] and [ship_exact] are the formats
    and the shipper; [Replication.replica_exact] composes them with the standby:
    its file ends with the last committed image of every page no later commit cut off;
    [standby_mirrors] allows any replay of the log, of several primaries in turn,
    and [apply_heals] any failing file operation.  [Failover.lease_fencing] is
    the lease's specification, [nats_refines] the interleaved compare-and-set
    store against it, [coordinator_roles] one node, [leaders_exclusive] a cluster
    whose nodes are interleaved at every [await].

    Limits.  Some theorems and examples exhibit runs in which the code does not do
    what it means to: [Delta.stale_delta_resurrects],
    [Gossip.sequential_merge_diverges], [Transport.relay_cursor_skips_everything],
    [AclSync.read_grant_keeps_owner], [Failover.Concrete.two_primaries_one_epoch],
    [PersistentConceptGraph.Concrete.failed_rollback_loses_writes] and [readded_edge_lost],
    [PersistentSyncEngine.auto_compaction_loses_adds],
    [Transport.compacted_removal_never_sent], [MemoryPolicy.archived_deadlines_missed],
    [PersistentTenant.failed_delete_undone],
    [PersistentConceptGraph.Concrete.cross_scope_edge_unloadable],
    [ForgetScope.Concrete.failed_forget_is_not_made_up_for],
    [Replication.Concrete.failed_publish_lost] and [failed_apply_hidden],
    [SynthesisWindow.remove_windows_foreign], [SynthesisRuns.failed_replay_strands],
    [SynthesisRecovery.unreadable_windows_lose_objects],
    [DocumentShelf.unread_list_loses_payloads], [BodyLife.leftover_wrap_blocks].

    ** Loops, fuel and bounds

    Every loop over a vector is a fold or a structural recursion.  The others take
    fuel, each proved sufficient for all inputs: [Namespace.closure_loop] (each
    relation of a configuration is expanded once), [PermissionCheck.walk] (each
    level adds a pair of the index to the visited set: [S (size index)] levels),
    [ConceptGraph.traverse_loop] (each edge enqueues at most one node:
    [S (edge_count g)]), [Incremental.affected_loop] ([node_count g + 2]) and
    [scope_loop], [WorkingMemory.evict_while] (one item goes each time),
    [Http.execute_from] (as many turns as [max_retries] plus one),
    [DocuSign]'s paging (the code's own [MAX_LIST_PAGES]), [Http.digits_from]
    (one digit each), [RingBuffer.evict_fuel] (every turn but the last deletes a
    row), [BodyStore.chunks_fuel] (the length of the slice), and [Wal.parse_frames] and [decode_frames] (each frame takes
    bytes: the length of the buffer).  Clocks and epochs saturate at [u64_max] as
    in the code, and so do the versions of synthesis objects at [u32_max], which
    [SynthesisRuns.step] keeps below it; theorems that need a fresh sequence number either assume the
    clock is below it ([persistent_call_in_sync]) or, for a network, take it from
    the step's guard ([Gossip]).  The client's count of consumed blobs wraps as a
    [u64] does ([u64_wrapping_add]).  The shipper's frame and segment counters and
    the lease's epoch are unbounded.

    ** What is not modelled

    - Dates that overflow: adding a duration to a date panics outside the range
      of [chrono]; here instants are unbounded.
    - [DecayProfile::for_language] in [retention.rs], a table of language tags
      behind Unicode lower-casing; profiles are otherwise arbitrary.
    - Convenience builders over [AuditLog.append] ([audit_service/src/helpers.rs]),
      [Drop]/zeroize code, SQLCipher's key pragmas, tracing and metrics.
    - The concept graph's layout; privacy stripping of memories; OAuth, webhooks
      and content of the DocuSign connector, and the other connectors, which are
      written over the same parts.
    - In synthesis: the engines, which render prompts and call a language model
      (their answers are arbitrary); quality evaluation and publication.  What a run
      reads of approved documents is an argument of [ServerSynthesis] ([Env]); that
      it is what the tenant approved is [DocumentShelf.listing_exact].  The key of a
      scope is a field of [SynthesisStore]'s store; a transaction that does not
      commit is rolled back whole.  A crash loses what is in memory between two
      locked phases; SQLite's own recovery is its documented atomicity.
    - In [evidence_store]: the full-text and vector indexes (writing the former may
      fail) and the search over them, cross references, the rotation of the master
      key, vacuuming, and the lexicon that assigns an importance.  In [ForgetScope]
      what the secondary purges of a forget call delete is left out; [BodyLife] has
      the purge of body keys.  SQLite's limit on the parameters of one statement is
      an argument of [RingBuffer.ring_buffer_read_window].
    - In replication: JetStream itself, timers, tasks and channels, and what
      SQLite does in a checkpoint; node identifiers are assumed distinct.  A lease
      store serves a request in one instant ([Failover.nats_refines] takes its reads
      and writes apart); the clock a node read for it may differ from that instant by
      the skew.
    - The openings in the runs of [SynthesisRecovery] and [DocumentShelf] meet no
      failing statement; what a failing one costs is shown apart
      ([unreadable_windows_lose_objects], [unread_list_loses_payloads]).
    - In [Http.execute], the rate limiter that may delay a request before it is sent.
    - Cryptographic primitives ([crypto], thin wrappers over libraries), network
      services, model runtimes, text extraction and retrieval, the HTTP and
      foreign-function layers, and everything that is not Rust.

    ** Continuing the development

    In order: the connectors' rate limits and token vault; the synthesis batcher;
    the sync scheduler of [ffi]; the lexicon of [importance.rs]; the rotation of the
    master key; the deterministic parts of [reasoning_engine]. *)

From stdpp Require Export base gmap sets list strings fin_maps fin_sets.
From Stdlib Require Export NArith ZArith Lia Floats.SpecFloat.
#[export] Set Default Goal Selector "!".

(** ** Identifiers and machine integers *)

(** A UUID is the 128-bit number [Uuid::from_u128] is given. *)
Abbreviation uuid := N (only parsing).

(** Instants ([DateTime<Utc>]) and signed durations ([chrono::Duration])
    are integral nanoseconds. *)
Abbreviation instant := Z (only parsing).
Abbreviation duration := Z (only parsing).

Definition u64_max : N := 18446744073709551615.
Definition u32_max : N := 4294967295.
Definition i64_max : N := 9223372036854775807.

(** [u64::saturating_add] and [u32::saturating_add]. *)
Definition u64_saturating_add (a b : N) : N := N.min (a + b) u64_max.
Definition u32_saturating_add (a b : N) : N := N.min (a + b) u32_max.

(** [u64]'s [+] where overflow is not checked. *)
Definition u64_wrapping_add (a b : N) : N := ((a + b) mod 2 ^ 64)%N.

Lemma u64_wrapping_add_small a b : (a + b <= u64_max)%N -> u64_wrapping_add a b = (a + b)%N.
Proof. intros H. apply N.mod_small. unfold u64_max in H. lia. Qed.
Lemma u64_wrapping_add_bound a b : (u64_wrapping_add a b <= u64_max)%N /\ (u64_wrapping_add a b <= a + b)%N.
Proof.
  unfold u64_wrapping_add. split; [|by apply N.Div0.mod_le].
  pose proof (N.mod_upper_bound (a + b) (2 ^ 64) ltac:(done)). unfold u64_max. lia.
Qed.
Lemma u64_wrapping_add_assoc a b k : u64_wrapping_add (u64_wrapping_add a b) k = u64_wrapping_add a (b + k).
Proof. unfold u64_wrapping_add. by rewrite N.Div0.add_mod_idemp_l, N.add_assoc. Qed.

Lemma u64_saturating_add_small a b :
  (a + b <= u64_max)%N -> u64_saturating_add a b = (a + b)%N.
Proof. unfold u64_saturating_add. lia. Qed.

Lemma u64_saturating_add_bound a b : (u64_saturating_add a b <= u64_max)%N.
Proof. unfold u64_saturating_add. lia. Qed.

Lemma u64_saturating_add_mono a b :
  (a <= u64_max)%N -> (a <= u64_saturating_add a b)%N.
Proof. unfold u64_saturating_add. lia. Qed.

(** ** Results and fallible state transformers *)

(** [Result<A, E>]. *)
Inductive result (A E : Type) : Type :=
| Ok (a : A)
| Err (e : E).
Arguments Ok {A E} a.
Arguments Err {A E} e.

Definition is_ok {A E} (r : result A E) : bool :=
  match r with Ok _ => true | Err _ => false end.

Definition result_map {A B E} (f : A -> B) (r : result A E) : result B E :=
  match r with Ok a => Ok (f a) | Err e => Err e end.

Definition ok_or {A E} (o : option A) (e : E) : result A E :=
  match o with Some a => Ok a | None => Err e end.

(** [let x = r?; k]. *)
Definition try_result {A B E} (r : result A E) (k : A -> result B E) : result B E :=
  match r with Ok a => k a | Err e => Err e end.

Declare Scope rust_scope.
Delimit Scope rust_scope with rust.
Notation "'let?' x ':=' r 'in' k" := (try_result r (fun x => k))
  (at level 200, x pattern, r at level 100, k at level 200, right associativity) : rust_scope.
#[global] Open Scope rust_scope.

#[export] Instance result_eq_dec `{EqDecision A, EqDecision E} : EqDecision (result A E).
Proof. solve_decision. Defined.

(** A method [fn f(&mut self, ..) -> Result<A, E>]: the state after the call
    is returned on the error path too, because Rust keeps what was written
    before an early return. *)
Definition eff (S E A : Type) : Type := S -> S * result A E.

(** [let x = m?; k] for a method called on the same state. *)
Definition try_eff {S E A B} (m : eff S E A) (k : A -> eff S E B) : eff S E B := fun s =>
  match m s with
  | (s', Ok a) => k a s'
  | (s', Err e) => (s', Err e)
  end.
Notation "'do?' x ':=' m 'in' k" := (try_eff m (fun x => k))
  (at level 200, x pattern, m at level 100, k at level 200, right associativity) : rust_scope.

(** [return Err(e)], [Ok(a)], and [if !b { return Err(e) }]. *)
Definition throw {S E A} (e : E) : eff S E A := fun s => (s, Err e).
Definition ret {S E A} (a : A) : eff S E A := fun s => (s, Ok a).
Definition ensure {S E} (b : bool) (e : E) : eff S E unit :=
  fun s => (s, if b then Ok tt else Err e).

(** Case analysis on every [match]/[if] of the goal and hypotheses, closing
    the impossible branches. *)
Ltac break_match :=
  repeat (case_match; simplify_eq/=).

(** Turns boolean comparisons of hypotheses and goal into propositions. *)
Ltac bool_to_prop :=
  repeat match goal with
  | H : _ && _ = true |- _ => apply andb_true_iff in H as [? ?]
  | H : _ || _ = false |- _ => apply orb_false_iff in H as [? ?]
  | H : negb _ = true |- _ => apply negb_true_iff in H
  | H : negb _ = false |- _ => apply negb_false_iff in H
  | H : (_ <=? _)%N = true |- _ => apply N.leb_le in H
  | H : (_ <=? _)%N = false |- _ => apply N.leb_gt in H
  | H : (_ <? _)%N = true |- _ => apply N.ltb_lt in H
  | H : (_ <? _)%N = false |- _ => apply N.ltb_ge in H
  | H : (_ =? _)%N = true |- _ => apply N.eqb_eq in H
  | H : (_ =? _)%N = false |- _ => apply N.eqb_neq in H
  | H : (_ <=? _)%Z = true |- _ => apply Z.leb_le in H
  | H : (_ <=? _)%Z = false |- _ => apply Z.leb_gt in H
  | H : (_ <? _)%Z = true |- _ => apply Z.ltb_lt in H
  | H : (_ <? _)%Z = false |- _ => apply Z.ltb_ge in H
  | H : (_ =? _)%Z = true |- _ => apply Z.eqb_eq in H
  | H : (_ =? _)%Z = false |- _ => apply Z.eqb_neq in H
  | H : (_ <=? _)%nat = true |- _ => apply Nat.leb_le in H
  | H : (_ <=? _)%nat = false |- _ => apply Nat.leb_gt in H
  | H : (_ <? _)%nat = true |- _ => apply Nat.ltb_lt in H
  | H : (_ <? _)%nat = false |- _ => apply Nat.ltb_ge in H
  | H : (_ =? _)%nat = true |- _ => apply Nat.eqb_eq in H
  | H : (_ =? _)%nat = false |- _ => apply Nat.eqb_neq in H
  | H : bool_decide _ = true |- _ => apply bool_decide_eq_true in H
  | H : bool_decide _ = false |- _ => apply bool_decide_eq_false in H
  end.

(** ** Hash-table iteration order *)

(** [HashMap]/[HashSet] iterate in an unspecified order: the model lists the
    table's content in stdpp's canonical order and hands it to an arbitrary
    reordering, over which every theorem quantifies. *)
Class HashOrder := {
  hash_order : forall {A : Type}, list A -> list A;
  hash_order_perm : forall {A : Type} (l : list A), hash_order l ≡ₚ l
}.

Definition hash_order_id : HashOrder.
Proof. refine {| hash_order A l := l |}. reflexivity. Defined.

Definition hash_order_rev : HashOrder.
Proof. refine {| hash_order A l := rev l |}. intros A l. symmetry. apply Permutation_rev. Defined.

Lemma elem_of_hash_order `{HashOrder} {A} (x : A) (l : list A) :
  x ∈ hash_order l <-> x ∈ l.
Proof. by rewrite hash_order_perm. Qed.

Lemma NoDup_hash_order `{HashOrder} {A} (l : list A) : NoDup (hash_order l) <-> NoDup l.
Proof. by rewrite hash_order_perm. Qed.

Lemma length_hash_order `{HashOrder} {A} (l : list A) : length (hash_order l) = length l.
Proof. by rewrite hash_order_perm. Qed.
Create Rewrite HintDb hash_order.
#[export] Hint Rewrite @elem_of_hash_order @length_hash_order : hash_order.

(** ** Lists *)

Lemma foldl_ext {A B} (f g : A -> B -> A) (a : A) (l : list B) :
  (forall a b, f a b = g a b) -> foldl f a l = foldl g a l.
Proof.
  intros H. revert a. induction l as [|b l IH]; intros a; simpl; [done|].
  by rewrite H, IH.
Qed.

(** [for x in l.iter_mut()] with an accumulator: the updated elements and the
    accumulated value. *)
Fixpoint map_accum {A B} (f : B -> A -> B * A) (acc : B) (l : list A) : B * list A :=
  match l with
  | [] => (acc, [])
  | x :: l =>
      let '(acc, x') := f acc x in
      let '(acc, l') := map_accum f acc l in
      (acc, x' :: l')
  end.

(** When an element's update does not depend on the accumulator. *)
Lemma map_accum_fmap {A B} (f : B -> A -> B * A) (h : A -> A) (acc : B) (l : list A) :
  (forall acc x, (f acc x).2 = h x) -> (map_accum f acc l).2 = h <$> l.
Proof.
  intros Hh. revert acc. induction l as [|x l IH]; intros acc; cbn; [done|].
  pose proof (Hh acc x) as Hx. destruct (f acc x) as [acc1 x']. specialize (IH acc1).
  destruct (map_accum f acc1 l) as [acc2 l']. cbn in *. congruence.
Qed.

(** A counter of the accumulator that each step raises by [count] of the element
    ends raised by the sum. *)
Lemma map_accum_count {A B} (f : B -> A -> B * A) (counter : B -> nat) (count : A -> nat)
    (acc : B) (l : list A) :
  (forall acc x, counter (f acc x).1 = (counter acc + count x)%nat) ->
  counter (map_accum f acc l).1 = (counter acc + sum_list_with count l)%nat.
Proof.
  intros Hc. revert acc. induction l as [|x l IH]; intros acc; cbn; [lia|].
  pose proof (Hc acc x) as Hx. destruct (f acc x) as [acc1 x']. specialize (IH acc1).
  destruct (map_accum f acc1 l) as [acc2 l']. cbn in *. lia.
Qed.

(** ** Binary64 *)

(** [f64] values and the operations the sources use on them, as the Standard
    Library's specification of IEEE 754 binary64 (53-bit significand, maximal
    exponent 1024, round to nearest even). *)
Abbreviation f64 := spec_float (only parsing).
Definition f64_of_Z (z : Z) : f64 := binary_normalize 53 1024 z 0 false.
(** [n as f64] for an unsigned integer. *)
Definition f64_of_N (n : N) : f64 := f64_of_Z (Z.of_N n).
Definition f64_add : f64 -> f64 -> f64 := SFadd 53 1024.
Definition f64_sub : f64 -> f64 -> f64 := SFsub 53 1024.
Definition f64_mul : f64 -> f64 -> f64 := SFmul 53 1024.
Definition f64_div : f64 -> f64 -> f64 := SFdiv 53 1024.
(** [a < b], [a <= b], [a == b]: false on NaN. *)
Definition f64_ltb (a b : f64) : bool := SFltb a b.
Definition f64_leb (a b : f64) : bool := SFleb a b.
Definition f64_eqb (a b : f64) : bool := SFeqb a b.
Definition f64_opp : f64 -> f64 := SFopp.
Definition f64_is_nan (a : f64) : bool := match a with S754_nan => true | _ => false end.
(** [f64::min] and [f64::max] ignore a NaN operand. *)
Definition f64_min (a b : f64) : f64 :=
  if f64_is_nan a then b else if f64_is_nan b then a else if f64_ltb b a then b else a.
Definition f64_max (a b : f64) : f64 :=
  if f64_is_nan a then b else if f64_is_nan b then a else if f64_ltb a b then b else a.
(** [f64::clamp]. *)
Definition f64_clamp (a lo hi : f64) : f64 :=
  if f64_ltb a lo then lo else if f64_ltb hi a then hi else a.
(** The decimal literal [n / d]: the correctly rounded quotient. *)
Definition f64_lit (n d : Z) : f64 := f64_div (f64_of_Z n) (f64_of_Z d).

(** ** Serialisation *)

(** [serde_json] (or another codec) for one type: what encoding may produce
    and decoding may refuse.  [Bytes] is the type of the blobs. *)
Class Serde (Bytes A : Type) := {
  to_vec : A -> option Bytes;
  from_slice : Bytes -> option A
}.

(** The codec round-trips this value: whatever it encodes to decodes back. *)
Definition serde_roundtrips {Bytes A} `{Serde Bytes A} (a : A) : Prop :=
  forall b : Bytes, to_vec a = Some b -> from_slice b = Some a.

(** ** Text *)

(** [Uuid::to_string]. *)
Class UuidText := { uuid_to_string : uuid -> string }.

(** [Uuid::new_v5(&NAMESPACE, name)]. *)
Class UuidV5 := { uuid_v5 : uuid -> list N -> uuid }.

(** ** Sealing *)

(** [crypto::encrypt_aead] and [crypto::decrypt_aead] (XChaCha20-Poly1305 over
    byte strings): opening what was sealed under the same key, nonce and
    associated data gives the plaintext back. *)
Class Aead (Key Nonce Bytes : Type) := {
  encrypt_aead : Key -> Nonce -> Bytes -> list N -> option Bytes;
  decrypt_aead : Key -> Nonce -> Bytes -> list N -> option Bytes;
  decrypt_encrypt : forall k n pt aad ct,
    encrypt_aead k n pt aad = Some ct -> decrypt_aead k n ct aad = Some pt
}.

(** A cipher to run examples with: sealing writes the key in front of the text,
    opening checks it. *)
Definition keyed_aead (A : Type) : Aead N unit (list N * A).
Proof.
  refine {| encrypt_aead k _ pt _ := Some (k :: pt.1, pt.2);
            decrypt_aead k _ ct _ :=
              match ct.1 with k' :: l => if (k' =? k)%N then Some (l, ct.2) else None | [] => None end |}.
  intros k n [l t] aad ct [= <-]. cbn. by rewrite N.eqb_refl.
Defined.

Lemma elem_of_rev {A} (x : A) (l : list A) : x ∈ rev l <-> x ∈ l.
Proof. by rewrite !list_elem_of_In, <- in_rev. Qed.

Lemma foldl_preserves {A B} (P : A -> Prop) (f : A -> B -> A) (l : list B) (a : A) :
  (forall a b, P a -> P (f a b)) -> P a -> P (foldl f a l).
Proof. intros Hf. revert a. induction l as [|b l IH]; intros a Ha; simpl; auto. Qed.

(** An invariant of the steps is an invariant of the runs. *)
Lemma rtc_preserves {A} (R : relation A) (P : A -> Prop) x y :
  (forall x y, R x y -> P x -> P y) -> rtc R x y -> P x -> P y.
Proof. intros HR. induction 1 as [x|x y z Hxy _ IH]; intros HP; [done|]. eapply IH, HR; eassumption. Qed.

(** ** Byte strings *)

(** The [n] low bytes of [x], least significant first ([to_le_bytes]) and most
    significant first ([Uuid::as_bytes]). *)
Fixpoint le_bytes (n : nat) (x : N) : list N :=
  match n with O => [] | S n => (x mod 256)%N :: le_bytes n (x / 256)%N end.
Definition be_bytes (n : nat) (x : N) : list N := rev (le_bytes n x).

(** The bytes of an ASCII literal. *)
Fixpoint string_bytes (s : string) : list N :=
  match s with
  | EmptyString => []
  | String c s => Strings.Ascii.N_of_ascii c :: string_bytes s
  end.

(** [s.trim().is_empty()] on the UTF-8 bytes of [s]: every character has the
    Unicode property [White_Space]. *)
Fixpoint all_white_space (bytes : list N) : bool :=
  match bytes with
  | [] => true
  | 32 :: l | 9 :: l | 10 :: l | 11 :: l | 12 :: l | 13 :: l => all_white_space l
  | 194 :: 133 :: l | 194 :: 160 :: l => all_white_space l
  | 225 :: 154 :: 128 :: l | 226 :: 129 :: 159 :: l | 227 :: 128 :: 128 :: l => all_white_space l
  | 226 :: 128 :: b :: l =>
      (((128 <=? b) && (b <=? 138)) || (b =? 168) || (b =? 169) || (b =? 175))%N && all_white_space l
  | _ => false
  end%N.
Definition trim_is_empty (s : string) : bool := all_white_space (string_bytes s).

(** The length in bytes of the white-space character a text starts with, zero
    when it starts with another. *)
Definition white_len (l : list N) : nat :=
  match l with
  | 32 :: _ | 9 :: _ | 10 :: _ | 11 :: _ | 12 :: _ | 13 :: _ => 1%nat
  | 194 :: 133 :: _ | 194 :: 160 :: _ => 2%nat
  | 225 :: 154 :: 128 :: _ | 226 :: 129 :: 159 :: _ | 227 :: 128 :: 128 :: _ => 3%nat
  | 226 :: 128 :: b :: _ =>
      if (((128 <=? b) && (b <=? 138)) || (b =? 168) || (b =? 169) || (b =? 175))%N then 3%nat else 0%nat
  | _ => 0%nat
  end%N.

(** [str::trim] on UTF-8 bytes. *)
Fixpoint trim_start_from (skip : nat) (l : list N) : list N :=
  match l with
  | [] => []
  | _ :: rest =>
      match skip with
      | S skip => trim_start_from skip rest
      | O => match white_len l with O => l | S k => trim_start_from k rest end
      end
  end.
Fixpoint trim_end (l : list N) : list N :=
  if all_white_space l then [] else match l with [] => [] | b :: l => b :: trim_end l end.
Definition trim (l : list N) : list N := trim_end (trim_start_from 0 l).

(** Printable ASCII other than the space. *)
Definition visible (b : N) : Prop := (33 <= b <= 126)%N.

Lemma white_len_visible b l : visible b -> white_len (b :: l) = 0%nat.
Proof.
  intros Hb. unfold visible in Hb. unfold white_len.
  repeat match goal with |- context [match ?x with _ => _ end] => is_var x; destruct x; try lia; try reflexivity end.
Qed.

Lemma all_white_visible b l : visible b -> all_white_space (b :: l) = false.
Proof.
  intros Hb. unfold visible in Hb. cbn [all_white_space].
  repeat match goal with |- context [match ?x with _ => _ end] => is_var x; destruct x; try lia; try reflexivity end.
Qed.

Lemma trim_visible l : Forall visible l -> trim l = l.
Proof.
  intros Hl. unfold trim. replace (trim_start_from 0 l) with l.
  - induction Hl as [|b l Hb Hl IH]; [done|]. cbn [trim_end]. by rewrite all_white_visible, IH.
  - destruct Hl as [|b l Hb Hl]; [done|]. cbn [trim_start_from]. by rewrite white_len_visible.
Qed.

Lemma length_le_bytes n x : length (le_bytes n x) = n.
Proof. revert x. induction n as [|n IH]; intros x; simpl; [done|]. by rewrite IH. Qed.

Lemma length_be_bytes n x : length (be_bytes n x) = n.
Proof. unfold be_bytes. by rewrite length_rev, length_le_bytes. Qed.

Lemma le_bytes_inj n x y :
  (x < 256 ^ N.of_nat n)%N -> (y < 256 ^ N.of_nat n)%N -> le_bytes n x = le_bytes n y -> x = y.
Proof.
  revert x y. induction n as [|n IH]; intros x y Hx Hy; cbn [le_bytes].
  { rewrite N.pow_0_r in *. lia. }
  rewrite Nat2N.inj_succ, N.pow_succ_r' in *. intros [= Hm Hd].
  apply IH in Hd; [|apply N.Div0.div_lt_upper_bound; lia..].
  rewrite (N.div_mod x 256), (N.div_mod y 256) by done. congruence.
Qed.

Lemma be_bytes_inj n x y :
  (x < 256 ^ N.of_nat n)%N -> (y < 256 ^ N.of_nat n)%N -> be_bytes n x = be_bytes n y -> x = y.
Proof. intros Hx Hy H. apply (le_bytes_inj n); [done..|]. 
  unfold be_bytes in H. by rewrite <- (rev_involutive (le_bytes n x)), H, rev_involutive.
Qed.
