(* ===== verification/Float.v ===== *)
(** * Facts about binary64 arithmetic

    Signs, absence of NaN and the order of the [f64] operations of the
    prelude: what the retention scores need. *)

From S2P Require Import Prelude.

(** ** Signs *)

(** Not a NaN, and of the given sign unless zero. *)
Definition signed (s : bool) (x : f64) : Prop :=
  match x with
  | S754_nan => False
  | S754_zero _ => True
  | S754_infinity s' | S754_finite s' _ _ => s' = s
  end.

Lemma signed_not_nan s x : signed s x -> f64_is_nan x = false.
Proof. by destruct x. Qed.

Lemma iter_pos_shr_nonneg n (r : shr_record) :
  (0 <= shr_m r)%Z -> (0 <= shr_m (SpecFloat.iter_pos shr_1 n r))%Z.
Proof.
  revert r. assert (H1 : forall r, (0 <= shr_m r)%Z -> (0 <= shr_m (shr_1 r))%Z).
  { intros [[|[p|p|]|p] rr ss] H; cbn in *; lia. }
  induction n as [n IH|n IH|]; intros r Hr; cbn; auto.
Qed.

Lemma shr_fexp_nonneg m e l : (0 <= m)%Z -> (0 <= shr_m (shr_fexp 53 1024 m e l).1)%Z.
Proof.
  intros Hm. unfold shr_fexp, shr.
  assert (Hr : (0 <= shr_m (shr_record_of_loc m l))%Z) by (by destruct l as [|[]]).
  case_match; cbn; [done| |done]. by apply iter_pos_shr_nonneg.
Qed.

Lemma round_nonneg m l : (0 <= m)%Z -> (0 <= round_nearest_even m l)%Z.
Proof. intros Hm. destruct l as [|[]]; cbn; try case_match; lia. Qed.

(** Rounding a non-negative significand keeps the sign. *)
Lemma binary_round_aux_signed s m e l : (0 <= m)%Z -> signed s (binary_round_aux 53 1024 s m e l).
Proof.
  intros Hm. unfold binary_round_aux.
  pose proof (shr_fexp_nonneg m e l Hm) as H1. destruct (shr_fexp 53 1024 m e l) as [r1 e1].
  pose proof (shr_fexp_nonneg (round_nearest_even (shr_m r1) (loc_of_shr_record r1)) e1 loc_Exact
                (round_nonneg _ _ H1)) as H2.
  destruct (shr_fexp 53 1024 _ e1 loc_Exact) as [r2 e2]. cbn in H2.
  destruct (shr_m r2) as [|p|p]; cbn; [done| |lia]. by case_match.
Qed.

Lemma binary_normalize_signed m e z :
  (0 <= m)%Z -> signed false (binary_normalize 53 1024 m e z).
Proof.
  intros Hm. destruct m as [|p|p]; cbn; [done| |lia]. unfold binary_round.
  destruct (shl_align _ _ _). by apply binary_round_aux_signed.
Qed.

Lemma f64_of_Z_signed z : (0 <= z)%Z -> signed false (f64_of_Z z).
Proof. apply binary_normalize_signed. Qed.

Lemma f64_of_N_signed n : signed false (f64_of_N n).
Proof. apply f64_of_Z_signed. lia. Qed.

Lemma f64_opp_signed s x : signed s x -> signed (negb s) (f64_opp x).
Proof. destruct x; cbn; congruence. Qed.

(** Products and quotients by a finite number. *)
Lemma f64_mul_signed s t x m e :
  signed s x -> signed (xorb s t) (f64_mul x (S754_finite t m e)).
Proof.
  destruct x as [z|i| |i n f]; cbn -[binary_round_aux]; try done; [by intros ->|].
  intros ->. by apply binary_round_aux_signed.
Qed.

Lemma f64_mul_comm_signed s t x m e :
  signed s x -> signed (xorb t s) (f64_mul (S754_finite t m e) x).
Proof.
  destruct x as [z|i| |i n f]; cbn -[binary_round_aux]; try done; [by intros ->|].
  intros ->. by apply binary_round_aux_signed.
Qed.

Lemma f64_div_signed s t x m e :
  signed s x -> signed (xorb s t) (f64_div x (S754_finite t m e)).
Proof.
  destruct x as [z|i| |i n f]; cbn -[binary_round_aux SFdiv_core_binary]; try done; [by intros ->|].
  intros ->. unfold SFdiv_core_binary.
  set (m' := match _ with Z0 => _ | Zpos _ => _ | Zneg _ => _ end).
  assert (Hm' : (0 <= m')%Z) by (unfold m'; case_match; [lia|apply Z.shiftl_nonneg; lia|lia]).
  pose proof (Z.div_pos m' (Zpos m) Hm' ltac:(lia)) as Hq. unfold Z.div in Hq.
  destruct (Z.div_eucl m' (Zpos m)) as [q r]. by apply binary_round_aux_signed.
Qed.

(** Sums of non-negative numbers. *)
Lemma f64_add_signed x y : signed false x -> signed false y -> signed false (f64_add x y).
Proof.
  destruct x as [a|a| |a m e], y as [b|b| |b n f]; cbn -[binary_normalize shl_align]; try done;
    try (by intros -> ->); try (by intros ->); try (by intros _ ->).
  - by destruct a, b.
  - intros -> ->. apply binary_normalize_signed. cbn. lia.
Qed.

Lemma f64_min_signed s x y : signed s x -> signed s y -> signed s (f64_min x y).
Proof. intros Hx Hy. unfold f64_min. by repeat case_match. Qed.
Lemma f64_max_signed s x y : signed s x -> signed s y -> signed s (f64_max x y).
Proof. intros Hx Hy. unfold f64_max. by repeat case_match. Qed.

(** ** Order *)

Lemma SFcompare_antisym x y : SFcompare y x = (fun c => CompOpp c) <$> SFcompare x y.
Proof.
  destruct x as [[]|[]| |[] m e], y as [[]|[]| |[] n f]; try done; cbn; f_equal;
    rewrite (Z.compare_antisym f e); destruct (f ?= e)%Z; cbn; try done;
    change (Pos.compare_cont Eq) with Pos.compare; rewrite (Pos.compare_antisym n m);
    by destruct (n ?= m)%positive.
Qed.

(** Two numbers that are not NaN compare. *)
Lemma f64_not_ltb x y :
  f64_is_nan x = false -> f64_is_nan y = false -> f64_ltb x y = false -> f64_leb y x = true.
Proof.
  unfold f64_ltb, f64_leb, SFltb, SFleb. intros Hx Hy H. rewrite (SFcompare_antisym x y).
  assert (is_Some (SFcompare x y)) as [c Hc] by (destruct x, y; cbn in *; try done; by eexists).
  rewrite Hc in *. by destruct c.
Qed.

Definition f64_zero : f64 := f64_of_Z 0.
Definition f64_one : f64 := f64_of_Z 1.

(** In the unit interval. *)
Definition in_unit (x : f64) : Prop := f64_leb f64_zero x = true /\ f64_leb x f64_one = true.

Lemma in_unit_signed x : in_unit x -> signed false x.
Proof. destruct x as [s|[]| |[] m e]; intros [H1 H2]; cbn in *; done. Qed.

Lemma clamp_in_unit x : f64_is_nan x = false -> in_unit (f64_clamp x f64_zero f64_one).
Proof.
  intros Hx. unfold f64_clamp. destruct (f64_ltb x f64_zero) eqn:E0; [by split|].
  destruct (f64_ltb f64_one x) eqn:E1; [by split|].
  split; apply f64_not_ltb; done.
Qed.

Lemma min_one_in_unit x : signed false x -> in_unit (f64_min x f64_one).
Proof.
  intros Hx. unfold f64_min. destruct (f64_is_nan x) eqn:En; [by split|]. cbn [f64_is_nan f64_one].
  change (f64_is_nan f64_one) with false. cbn iota.
  destruct (f64_ltb f64_one x) eqn:E1; [by split|].
  split; [|by apply f64_not_ltb]. by destruct x as [s|[]| |[] m e].
Qed.

(** Clamping a number that is at least [y], itself in the unit interval, gives a
    number that is at least [y]. *)
Lemma clamp_max_lower x y :
  in_unit y -> f64_leb y (f64_clamp (f64_max x y) f64_zero f64_one) = true.
Proof.
  intros Hy. pose proof (in_unit_signed y Hy) as Hs. pose proof (signed_not_nan _ _ Hs) as Hn.
  assert (Hmax : f64_leb y (f64_max x y) = true /\ f64_is_nan (f64_max x y) = false).
  { unfold f64_max. destruct (f64_is_nan x) eqn:Ex; rewrite ?Hn.
    - split; [|done]. apply f64_not_ltb; [done..|].
      unfold f64_ltb, SFltb. pose proof (SFcompare_antisym y y) as H. destruct (SFcompare y y) as [[]|]; done.
    - destruct (f64_ltb x y) eqn:El; (split; [|done]); apply f64_not_ltb; try done.
      unfold f64_ltb, SFltb. pose proof (SFcompare_antisym y y) as H. destruct (SFcompare y y) as [[]|]; done. }
  destruct Hmax as [Hle Hnan]. unfold f64_clamp.
  destruct (f64_ltb (f64_max x y) f64_zero) eqn:E0.
  - exfalso. destruct (f64_max x y) as [s|[]| |[] m e]; cbn in E0, Hnan; try done;
      destruct y as [s'|[]| |[] n f]; cbn in Hle, Hs; done.
  - destruct (f64_ltb f64_one (f64_max x y)); [apply Hy|done].
Qed.
