(* ===== verification/AddWinsSet.v ===== *)
(** * The add-wins observed-remove set ([sync_engine/src/crdt.rs])

    The replicated set at the bottom of the sync engine: an element maps to
    the tags of its additions, a removal tombstones tags.  The file models
    every operation of [AddWinsSet<T>] over stdpp's finite maps and proves that
    [merge] is the join of a semilattice and that a concurrent add survives a
    remove. *)

From S2P Require Import Prelude.

Section AddWinsSet.
Context {T : Type} {EqT : EqDecision T} {CountT : Countable T}.

(** [struct AddWinsSet<T>]. *)
Record AddWinsSet : Type := mk_aws {
  aws_elements : gmap T (gset uuid);
  aws_tombstones : gset uuid
}.

(** ** Operations *)

(** [AddWinsSet::new]. *)
Definition new : AddWinsSet := {| aws_elements := ∅; aws_tombstones := ∅ |}.

(** [AddWinsSet::observed_len]. *)
Definition observed_len (s : AddWinsSet) : nat := size (aws_elements s).

(** [AddWinsSet::add_with_tag]: [entry(value).or_default().insert(tag)]. *)
Definition add_with_tag (s : AddWinsSet) (value : T) (tag : uuid) : AddWinsSet :=
  {| aws_elements := <[value := {[tag]} ∪ default ∅ (aws_elements s !! value)]> (aws_elements s);
     aws_tombstones := aws_tombstones s |}.

(** [AddWinsSet::add]; [fresh] is the [Uuid::new_v4()] the call draws. *)
Definition add (s : AddWinsSet) (value : T) (fresh : uuid) : AddWinsSet * uuid :=
  (add_with_tag s value fresh, fresh).

(** [AddWinsSet::remove]: tombstone every observed tag of [value]. *)
Definition remove (s : AddWinsSet) (value : T) : AddWinsSet :=
  match aws_elements s !! value with
  | Some tags => {| aws_elements := aws_elements s;
                    aws_tombstones := tags ∪ aws_tombstones s |}
  | None => s
  end.

(** [AddWinsSet::remove_tags]: tombstone exactly [tags], one by one. *)
Definition remove_tags (s : AddWinsSet) (_value : T) (tags : list uuid) : AddWinsSet :=
  {| aws_elements := aws_elements s;
     aws_tombstones := foldl (fun acc tag => {[tag]} ∪ acc) (aws_tombstones s) tags |}.

(** [tags.iter().any(|tag| !self.tombstones.contains(tag))]. *)
Definition has_live_tag (s : AddWinsSet) (tags : gset uuid) : bool :=
  existsb (fun tag => bool_decide (tag ∉ aws_tombstones s)) (base.elements tags).

(** [AddWinsSet::contains]. *)
Definition contains (s : AddWinsSet) (value : T) : bool :=
  match aws_elements s !! value with
  | Some tags => has_live_tag s tags
  | None => false
  end.

(** [AddWinsSet::elements]: the live elements, in table order. *)
Definition elements `{HashOrder} (s : AddWinsSet) : list T :=
  omap (fun '(elem, tags) => if has_live_tag s tags then Some elem else None)
       (hash_order (map_to_list (aws_elements s))).

(** [AddWinsSet::elements_count]. *)
Definition elements_count `{HashOrder} (s : AddWinsSet) : nat :=
  length (base.filter (fun p => has_live_tag s p.2 = true)
            (hash_order (map_to_list (aws_elements s)))).

(** [AddWinsSet::tags_for]: every tag ever observed for [value]. *)
Definition tags_for `{HashOrder} (s : AddWinsSet) (value : T) : list uuid :=
  match aws_elements s !! value with
  | Some tags => hash_order (base.elements tags)
  | None => []
  end.

(** The surviving tags of one entry, as [entries] collects them. *)
Definition live_tags `{HashOrder} (s : AddWinsSet) (tags : gset uuid) : list uuid :=
  base.filter (fun tag => tag ∉ aws_tombstones s) (hash_order (base.elements tags)).

(** [AddWinsSet::entries]: [(value, live_tags)] pairs, values with no live
    tag skipped. *)
Definition entries `{HashOrder} (s : AddWinsSet) : list (T * list uuid) :=
  omap (fun '(value, tags) =>
          match live_tags s tags with
          | [] => None
          | live => Some (value, live)
          end)
       (hash_order (map_to_list (aws_elements s))).

(** [AddWinsSet::tombstones]. *)
Definition tombstones (s : AddWinsSet) : gset uuid := aws_tombstones s.

(** [AddWinsSet::merge]: fold [other]'s entries into [self]. *)
Definition merge (self other : AddWinsSet) : AddWinsSet :=
  {| aws_elements :=
       map_fold (fun value tags acc => <[value := default ∅ (acc !! value) ∪ tags]> acc)
                (aws_elements self) (aws_elements other);
     aws_tombstones := aws_tombstones self ∪ aws_tombstones other |}.

(** ** The abstract view: which (value, tag) pairs were added, which tags
    were tombstoned *)

(** [tag] was recorded for [value]. *)
Definition tagged (s : AddWinsSet) (value : T) (tag : uuid) : Prop :=
  exists tags, aws_elements s !! value = Some tags /\ tag ∈ tags.

(** [tag] keeps [value] in the set. *)
Definition live (s : AddWinsSet) (value : T) (tag : uuid) : Prop :=
  tagged s value tag /\ tag ∉ aws_tombstones s.

(** No value is mapped to an empty tag set. *)
Definition aws_wf (s : AddWinsSet) : Prop :=
  forall value tags, aws_elements s !! value = Some tags -> tags ≠ ∅.

End AddWinsSet.
Arguments AddWinsSet T {_ _} : assert.

Create HintDb aws.

Section AddWinsSetFacts.
Context {T : Type} {EqT : EqDecision T} {CountT : Countable T}.
Implicit Types (s x y z : AddWinsSet T) (v : T) (t : uuid).

(** ** What each operation does to [tagged] and to the tombstones *)

Lemma tagged_alt s v t : tagged s v t <-> t ∈ default ∅ (aws_elements s !! v).
Proof.
  unfold tagged. destruct (aws_elements s !! v); simpl; [naive_solver|].
  split; [naive_solver|set_solver].
Qed.

Lemma tagged_new v t : ~ tagged new v t.
Proof. rewrite tagged_alt. unfold new; simpl. rewrite lookup_empty. set_solver. Qed.

Lemma tagged_add_with_tag s v t v' t' :
  tagged (add_with_tag s v t) v' t' <-> (v' = v /\ t' = t) \/ tagged s v' t'.
Proof.
  rewrite !tagged_alt. unfold add_with_tag; simpl. destruct (decide (v' = v)) as [->|Hne].
  - rewrite lookup_insert_eq. set_solver.
  - rewrite lookup_insert_ne by done. naive_solver.
Qed.

Lemma tagged_remove s v v' t' : tagged (remove s v) v' t' <-> tagged s v' t'.
Proof. unfold remove. by destruct (aws_elements s !! v). Qed.

Lemma tombstones_remove s v t :
  t ∈ aws_tombstones (remove s v) <-> tagged s v t \/ t ∈ aws_tombstones s.
Proof.
  unfold remove, tagged. destruct (aws_elements s !! v) eqn:E; simpl; [|naive_solver].
  set_solver.
Qed.

Lemma tagged_remove_tags s v tags v' t' :
  tagged (remove_tags s v tags) v' t' <-> tagged s v' t'.
Proof. done. Qed.

Lemma elem_of_foldl_insert (tags : list uuid) (acc : gset uuid) t :
  t ∈ foldl (fun acc tag => {[tag]} ∪ acc) acc tags <-> t ∈ tags \/ t ∈ acc.
Proof.
  revert acc. induction tags as [|u tags IH]; intros acc; simpl; [set_solver|].
  rewrite IH. set_solver.
Qed.

Lemma tombstones_remove_tags s v tags t :
  t ∈ aws_tombstones (remove_tags s v tags) <-> t ∈ tags \/ t ∈ aws_tombstones s.
Proof. apply elem_of_foldl_insert. Qed.

(** [merge]'s loop computes the pointwise union of the two element maps. *)
Lemma merge_elements x y :
  aws_elements (merge x y)
  = union_with (fun a b => Some (a ∪ b)) (aws_elements x) (aws_elements y).
Proof.
  unfold merge; simpl. generalize (aws_elements x) as m. intros m.
  induction (aws_elements y) as [|v tags my Hv Hfst IH] using map_first_key_ind.
  { rewrite map_fold_empty. by rewrite (right_id_L ∅ (union_with _)). }
  rewrite map_fold_insert_first_key by done. rewrite IH.
  apply map_eq. intros k. rewrite lookup_union_with.
  destruct (decide (k = v)) as [->|Hne].
  - rewrite !lookup_union_with, Hv, !lookup_insert_eq.
    by destruct (m !! v); simpl; rewrite ?(left_id_L ∅ (∪)).
  - rewrite !lookup_insert_ne, !lookup_union_with by done. by rewrite lookup_insert_ne.
Qed.

Lemma tagged_merge x y v t : tagged (merge x y) v t <-> tagged x v t \/ tagged y v t.
Proof.
  rewrite !tagged_alt, merge_elements, lookup_union_with.
  destruct (aws_elements x !! v), (aws_elements y !! v); set_solver.
Qed.

Lemma tombstones_merge x y t :
  t ∈ aws_tombstones (merge x y) <-> t ∈ aws_tombstones x \/ t ∈ aws_tombstones y.
Proof. unfold merge; simpl. set_solver. Qed.

(** [contains] decides the existence of a live tag. *)
Lemma contains_live s v : contains s v = true <-> exists t, live s v t.
Proof.
  unfold contains, live, tagged, has_live_tag.
  destruct (aws_elements s !! v) as [tags|].
  - rewrite existsb_exists. setoid_rewrite bool_decide_eq_true.
    setoid_rewrite <- list_elem_of_In. setoid_rewrite elem_of_elements. naive_solver.
  - naive_solver.
Qed.

Lemma contains_false s v : contains s v = false <-> forall t, ~ live s v t.
Proof. rewrite <- not_true_iff_false, contains_live. naive_solver. Qed.

(** ** Extensionality *)

(** Two sets are equivalent when they record the same additions and the same
    tombstones; on well-formed sets this is equality. *)
#[export] Instance aws_equiv : Equiv (AddWinsSet T) := fun x y =>
  (forall v t, tagged x v t <-> tagged y v t) /\ aws_tombstones x = aws_tombstones y.

#[export] Instance aws_equivalence : Equivalence (≡@{AddWinsSet T}).
Proof.
  split.
  - intros x. by split.
  - intros x y [H1 H2]. split; [|done]. intros v t. by rewrite H1.
  - intros x y z [H1 H2] [H3 H4]. split; [|congruence]. intros v t. by rewrite H1.
Qed.

#[export] Instance tagged_proper : Proper ((≡@{AddWinsSet T}) ==> (=) ==> (=) ==> iff) tagged.
Proof. intros x y [H _] v ? <- t ? <-. apply H. Qed.

#[export] Instance aws_tombstones_proper :
  Proper ((≡@{AddWinsSet T}) ==> (=)) aws_tombstones.
Proof. by intros x y [_ H]. Qed.

#[export] Instance merge_proper :
  Proper ((≡@{AddWinsSet T}) ==> (≡) ==> (≡)) merge.
Proof.
  intros x x' [H1 H2] y y' [H3 H4]. split.
  - intros v t. by rewrite !tagged_merge, H1, H3.
  - unfold merge; simpl. congruence.
Qed.

#[export] Instance contains_proper :
  Proper ((≡@{AddWinsSet T}) ==> (=) ==> (=)) contains.
Proof.
  intros x y Hxy v ? <-. apply eq_true_iff_eq. rewrite !contains_live. unfold live.
  setoid_rewrite Hxy. done.
Qed.

Lemma aws_equiv_eq x y : aws_wf x -> aws_wf y -> x ≡ y -> x = y.
Proof.
  intros Hx Hy [Htag Htomb]. destruct x as [ex tx], y as [ey ty]; simpl in *. f_equal; [|done].
  apply map_eq. intros v. specialize (Hx v). specialize (Hy v).
  assert (Hv : default ∅ (ex !! v) = default ∅ (ey !! v)).
  { apply set_eq. intros t. specialize (Htag v t). by rewrite !tagged_alt in Htag. }
  simpl in *. destruct (ex !! v), (ey !! v); naive_solver.
Qed.

Lemma aws_wf_new : aws_wf (T := T) new.
Proof. intros v tags. unfold new; simpl. by rewrite lookup_empty. Qed.

Lemma aws_wf_add_with_tag s v t : aws_wf s -> aws_wf (add_with_tag s v t).
Proof.
  intros Hs k tags. unfold add_with_tag; simpl. rewrite lookup_insert_Some.
  intros [[-> <-]|[_ H]]; [set_solver|eauto].
Qed.

Lemma aws_wf_remove_tags s v tags : aws_wf s -> aws_wf (remove_tags s v tags).
Proof. done. Qed.

Lemma aws_wf_remove s v : aws_wf s -> aws_wf (remove s v).
Proof. unfold aws_wf, remove. by destruct (aws_elements s !! v). Qed.

Lemma aws_wf_merge x y : aws_wf x -> aws_wf y -> aws_wf (merge x y).
Proof.
  intros Hx Hy k tags. rewrite merge_elements, lookup_union_with.
  specialize (Hx k). specialize (Hy k).
  destruct (aws_elements x !! k) as [a|], (aws_elements y !! k) as [b|]; simpl; try naive_solver.
  intros [= <-]. specialize (Hx a eq_refl). set_solver.
Qed.

(** ** [merge] is a join *)

Lemma merge_comm x y : merge x y = merge y x.
Proof.
  assert (He : aws_elements (merge x y) = aws_elements (merge y x)).
  { rewrite !merge_elements. apply map_eq. intros k. rewrite !lookup_union_with.
    destruct (aws_elements x !! k), (aws_elements y !! k); simpl; try done. f_equal. set_solver. }
  unfold merge in *; simpl in *. rewrite He. f_equal. set_solver.
Qed.

Lemma merge_idem x : merge x x = x.
Proof.
  assert (He : aws_elements (merge x x) = aws_elements x).
  { rewrite merge_elements. apply map_eq. intros k. rewrite lookup_union_with.
    destruct (aws_elements x !! k) eqn:E; simpl; [|done]. f_equal. set_solver. }
  unfold merge in *; simpl in *. rewrite He. destruct x; simpl. f_equal. set_solver.
Qed.

Lemma merge_assoc x y z : merge x (merge y z) = merge (merge x y) z.
Proof.
  assert (He : aws_elements (merge x (merge y z)) = aws_elements (merge (merge x y) z)).
  { rewrite !merge_elements. apply map_eq. intros k. rewrite !lookup_union_with.
    destruct (aws_elements x !! k), (aws_elements y !! k), (aws_elements z !! k); simpl;
      try done. f_equal. set_solver. }
  unfold merge in *; simpl in *. rewrite He. f_equal. set_solver.
Qed.

Lemma merge_new_r x : merge x new = x.
Proof.
  unfold merge, new; simpl. rewrite map_fold_empty.
  destruct x; simpl. f_equal. set_solver.
Qed.

Lemma merge_new_l x : merge new x = x.
Proof. by rewrite merge_comm, merge_new_r. Qed.

(** ** The read operations *)

Lemma has_live_tag_spec s tags :
  has_live_tag s tags = true <-> exists t, t ∈ tags /\ t ∉ aws_tombstones s.
Proof.
  unfold has_live_tag. rewrite existsb_exists. setoid_rewrite bool_decide_eq_true.
  setoid_rewrite <- list_elem_of_In. by setoid_rewrite elem_of_elements.
Qed.

Lemma elem_of_live_tags `{HashOrder} s tags t :
  t ∈ live_tags s tags <-> t ∈ tags /\ t ∉ aws_tombstones s.
Proof.
  unfold live_tags. rewrite list_elem_of_filter, elem_of_hash_order, elem_of_elements. tauto.
Qed.

Lemma NoDup_live_tags `{HashOrder} s tags : NoDup (live_tags s tags).
Proof. apply NoDup_filter, NoDup_hash_order, NoDup_elements. Qed.

Lemma elem_of_live_elements `{HashOrder} s v : v ∈ elements s <-> contains s v = true.
Proof.
  unfold elements, contains. rewrite list_elem_of_omap. split.
  - intros ([k tags] & Hin & Hm). apply elem_of_hash_order, elem_of_map_to_list in Hin.
    case_match; simplify_eq/=. by rewrite Hin.
  - destruct (aws_elements s !! v) as [tags|] eqn:E; [|done]. intros Hl.
    exists (v, tags). by rewrite elem_of_hash_order, elem_of_map_to_list, Hl.
Qed.

Lemma elem_of_entries `{HashOrder} s v ts :
  (v, ts) ∈ entries s ->
  ts ≠ [] /\ NoDup ts /\ forall t, t ∈ ts <-> live s v t.
Proof.
  unfold entries. rewrite list_elem_of_omap. intros ([k tags] & Hin & Hm).
  apply elem_of_hash_order, elem_of_map_to_list in Hin.
  destruct (live_tags s tags) as [|t0 l] eqn:E; simplify_eq/=.
  split; [done|]. rewrite <- E. split; [apply NoDup_live_tags|].
  intros t. rewrite elem_of_live_tags. unfold live, tagged. naive_solver.
Qed.

Lemma entries_complete `{HashOrder} s v t :
  live s v t -> exists ts, (v, ts) ∈ entries s /\ t ∈ ts.
Proof.
  intros [(tags & Hv & Ht) Htomb]. exists (live_tags s tags).
  assert (Hl : t ∈ live_tags s tags) by (by apply elem_of_live_tags).
  split; [|done]. unfold entries. rewrite list_elem_of_omap. exists (v, tags).
  rewrite elem_of_hash_order, elem_of_map_to_list. split; [done|].
  by destruct (live_tags s tags); [set_solver|].
Qed.

Lemma elements_count_length `{HashOrder} s : elements_count s = length (elements s).
Proof.
  unfold elements_count, elements. induction (hash_order _) as [|[v tags] l IH]; [done|].
  simpl. rewrite filter_cons. simpl. destruct (has_live_tag s tags) eqn:E.
  - rewrite decide_True by done. simpl. by rewrite IH.
  - rewrite decide_False by congruence. done.
Qed.

(** ** The claims *)

(** [merge] is the join of a semilattice with bottom [new]: commutative,
    associative and idempotent on the nose (the two hash tables are equal, not
    only observationally), and it never forgets an addition or a tombstone. *)
Theorem merge_semilattice :
  (forall x y, merge x y = merge y x) /\
  (forall x y z, merge x (merge y z) = merge (merge x y) z) /\
  (forall x, merge x x = x) /\
  (forall x, merge x new = x) /\
  (forall x y v t, tagged (merge x y) v t <-> tagged x v t \/ tagged y v t) /\
  (forall x y t, t ∈ tombstones (merge x y) <-> t ∈ tombstones x \/ t ∈ tombstones y).
Proof.
  eauto 10 using merge_comm, merge_assoc, merge_idem, merge_new_r, tagged_merge,
    tombstones_merge.
Qed.

(** C9: add wins, exactly.  After replica X removes [v] and merges replica Y,
    [v] is present if and only if Y holds a live tag for it that X had not
    observed and not tombstoned: every concurrent fresh add survives, and
    nothing else does. *)
Theorem add_wins_exact x y v :
  contains (merge (remove x v) y) v = true <->
  exists t, live y v t /\ ~ tagged x v t /\ t ∉ tombstones x.
Proof.
  rewrite contains_live. unfold live, tombstones.
  setoid_rewrite tagged_merge. setoid_rewrite tagged_remove.
  setoid_rewrite tombstones_merge. setoid_rewrite tombstones_remove. naive_solver.
Qed.

(** The read operations agree: [elements] enumerates exactly the values
    [contains] accepts, without repetition, [elements_count] counts them, and
    [entries] pairs each with exactly its live tags, whatever order the hash
    tables iterate in. *)
Theorem reads_agree `{HashOrder} s :
  NoDup (elements s) /\
  (forall v, v ∈ elements s <-> contains s v = true) /\
  elements_count s = length (elements s) /\
  (forall v, (exists ts, (v, ts) ∈ entries s) <-> contains s v = true) /\
  (forall v ts, (v, ts) ∈ entries s -> forall t, t ∈ ts <-> live s v t).
Proof.
  split_and!.
  - unfold elements.
    assert (Hnd : NoDup ((hash_order (map_to_list (aws_elements s))).*1)).
    { rewrite hash_order_perm. apply NoDup_fst_map_to_list. }
    induction (hash_order _) as [|[v tags] l IH]; [constructor|]. simpl in *.
    apply NoDup_cons in Hnd as [Hv Hnd]. specialize (IH Hnd).
    destruct (has_live_tag s tags); [|done]. constructor; [|done].
    rewrite list_elem_of_omap. intros ([k tg] & Hin & Hm). case_match; simplify_eq.
    apply Hv, list_elem_of_fmap. by exists (v, tg).
  - apply elem_of_live_elements.
  - apply elements_count_length.
  - intros v. rewrite contains_live. split.
    + intros [ts Hts]. apply elem_of_entries in Hts as (Hne & _ & Hl).
      destruct ts as [|t ts]; [done|]. exists t. apply Hl. set_solver.
    + intros [t Ht]. apply entries_complete in Ht as (ts & ? & _). eauto.
  - intros v ts Hts. apply elem_of_entries in Hts as (_ & _ & Hl). exact Hl.
Qed.
End AddWinsSetFacts.

#[export] Hint Resolve aws_wf_new aws_wf_add_with_tag aws_wf_remove_tags aws_wf_remove
  aws_wf_merge : aws.
