(* ===== verification/OpLog.v ===== *)
(** * The operation log ([sync_engine/src/op_log.rs], [sync_engine/src/error.rs])

    Every replica keeps an append-only log of its own operations and of those
    merged in from peers.  The file models the log, its de-duplication index,
    its compaction and its replay, and relates them to the set of recorded
    operations: replay depends on that set only, so merging logs is merging
    the replayed add-wins sets. *)

From S2P Require Import Prelude AddWinsSet.

(** [enum SyncError].  The payload of the [Sqlite] and [Crypto] variants, an
    error value of another crate, is kept as its message. *)
Inductive SyncError : Type :=
| NotYetImplemented (msg : string)
| UnknownElement (id : uuid)
| Serialisation (msg : string)
| DeltaDecode
| CompactionEpochBehind (local delta : N)
| Sqlite (msg : string)
| Crypto (msg : string)
| Persistence (msg : string).

#[export] Instance SyncError_eq_dec : EqDecision SyncError.
Proof. solve_decision. Defined.

Section OpLog.
Context {T : Type} {EqT : EqDecision T} {CountT : Countable T}.

(** [enum SyncOpKind<T>]. *)
Inductive SyncOpKind : Type :=
| Add (value : T) (tag : uuid)
| Remove (value : T) (observed_tags : list uuid)
| Supersede (value successor : T) (observed_tags : list uuid).

#[export] Instance SyncOpKind_eq_dec : EqDecision SyncOpKind.
Proof. solve_decision. Defined.

(** [struct SyncOp<T>]. *)
Record SyncOp : Type := mk_op {
  op_replica_id : uuid;
  op_seq : N;
  op_created_at : instant;
  op_kind : SyncOpKind
}.

#[export] Instance SyncOp_eq_dec : EqDecision SyncOp.
Proof. solve_decision. Defined.

(** [struct OpLog<T>]. *)
Record OpLog : Type := mk_log {
  replica_id : uuid;
  clock : N;
  compaction_epoch : N;
  ops : list SyncOp;
  seen : gset (uuid * N)
}.

(** [struct OpLogOnDisk<T>]: the serialised shape, without [seen]. *)
Record OpLogOnDisk : Type := mk_disk {
  disk_replica_id : uuid;
  disk_clock : N;
  disk_compaction_epoch : N;
  disk_ops : list SyncOp
}.

(** The de-duplication key [(entry.replica_id, entry.seq)]. *)
Definition key (entry : SyncOp) : uuid * N := (op_replica_id entry, op_seq entry).

(** ** Operations *)

(** [From<OpLogOnDisk<T>> for OpLog<T>]. *)
Definition from_disk (disk : OpLogOnDisk) : OpLog :=
  {| replica_id := disk_replica_id disk;
     clock := disk_clock disk;
     compaction_epoch := disk_compaction_epoch disk;
     ops := disk_ops disk;
     seen := foldl (fun acc op => {[key op]} ∪ acc) ∅ (disk_ops disk) |}.

(** [#[serde(skip)] seen]: what serialisation keeps of a log. *)
Definition to_disk (log : OpLog) : OpLogOnDisk :=
  {| disk_replica_id := replica_id log; disk_clock := clock log;
     disk_compaction_epoch := compaction_epoch log; disk_ops := ops log |}.

(** [OpLog::new]. *)
Definition new (replica : uuid) : OpLog :=
  {| replica_id := replica; clock := 0; compaction_epoch := 0; ops := []; seen := ∅ |}.

(** [OpLog::len], [OpLog::is_empty], [OpLog::compaction_epoch_value]. *)
Definition len (log : OpLog) : nat := length (ops log).
Definition is_empty (log : OpLog) : bool := match ops log with [] => true | _ => false end.
Definition compaction_epoch_value (log : OpLog) : N := compaction_epoch log.

(** [OpLog::append]; [now] is [Utc::now()]. *)
Definition append (log : OpLog) (now : instant) (op : SyncOpKind) : OpLog :=
  let clock' := u64_saturating_add (clock log) 1 in
  let entry := {| op_replica_id := replica_id log; op_seq := clock';
                  op_created_at := now; op_kind := op |} in
  {| replica_id := replica_id log;
     clock := clock';
     compaction_epoch := compaction_epoch log;
     ops := ops log ++ [entry];
     seen := {[key entry]} ∪ seen log |}.

(** [OpLog::record_add]; [tag] is the [Uuid::new_v4()] it draws. *)
Definition record_add (log : OpLog) (now : instant) (value : T) (tag : uuid) : OpLog * uuid :=
  (append log now (Add value tag), tag).

(** [OpLog::record_remove]. *)
Definition record_remove (log : OpLog) (now : instant) (value : T)
    (observed_tags : list uuid) : OpLog :=
  append log now (Remove value observed_tags).

(** [OpLog::record_supersede]. *)
Definition record_supersede (log : OpLog) (now : instant) (value successor : T)
    (observed_tags : list uuid) : OpLog :=
  append log now (Supersede value successor observed_tags).

(** [OpLog::merge_single]: [true] iff the entry was newly absorbed. *)
Definition merge_single (log : OpLog) (entry : SyncOp) : OpLog * bool :=
  if bool_decide (key entry ∈ seen log) then (log, false)
  else
    ({| replica_id := replica_id log;
        clock := if N.eqb (op_replica_id entry) (replica_id log)
                 then N.max (clock log) (op_seq entry) else clock log;
        compaction_epoch := compaction_epoch log;
        ops := ops log ++ [entry];
        seen := {[key entry]} ∪ seen log |}, true).

(** The body of [OpLog::merge]'s loop. *)
Definition merge_entry (log : OpLog) (entry : SyncOp) : OpLog :=
  let k := key entry in
  if bool_decide (k ∉ seen log) then
    {| replica_id := replica_id log;
       clock := if N.eqb (op_replica_id entry) (replica_id log)
                then N.max (clock log) (op_seq entry) else clock log;
       compaction_epoch := compaction_epoch log;
       ops := ops log ++ [entry];
       seen := {[k]} ∪ seen log |}
  else log.

(** [OpLog::merge]. *)
Definition merge (log other : OpLog) : OpLog :=
  let merged := foldl merge_entry log (ops other) in
  {| replica_id := replica_id merged;
     clock := clock merged;
     compaction_epoch := N.max (compaction_epoch merged) (compaction_epoch other);
     ops := ops merged;
     seen := seen merged |}.

(** [merge_logs]. *)
Definition merge_logs (a b : OpLog) : OpLog := merge a b.

(** One iteration of [OpLog::replay]. *)
Definition replay_step (acc : AddWinsSet T * list (T * T)) (op : SyncOpKind) :
    AddWinsSet T * list (T * T) :=
  let '(set, supersessions) := acc in
  match op with
  | Add value tag => (add_with_tag set value tag, supersessions)
  | Remove value observed_tags => (remove_tags set value observed_tags, supersessions)
  | Supersede value successor observed_tags =>
      (remove_tags set value observed_tags, supersessions ++ [(value, successor)])
  end.

(** [OpLog::replay]. *)
Definition replay (log : OpLog) : result (AddWinsSet T * list (T * T)) SyncError :=
  Ok (foldl (fun acc entry => replay_step acc (op_kind entry)) (AddWinsSet.new, []) (ops log)).

(** The locals [self.clock], [new_ops], [new_seen] of [OpLog::compact]. *)
Record CompactLocals : Type := mk_locals {
  c_clock : N;
  c_ops : list SyncOp;
  c_seen : gset (uuid * N)
}.

(** One re-emitted entry of [OpLog::compact]: the next clock value, the local
    replica id and the clock reading [stamp] gives for it. *)
Definition emit (replica : uuid) (stamp : N -> instant) (c : CompactLocals)
    (op : SyncOpKind) : CompactLocals :=
  let clock' := u64_saturating_add (c_clock c) 1 in
  let entry := {| op_replica_id := replica; op_seq := clock';
                  op_created_at := stamp clock'; op_kind := op |} in
  {| c_clock := clock';
     c_ops := c_ops c ++ [entry];
     c_seen := {[key entry]} ∪ c_seen c |}.

(** [OpLog::compact]. *)
Definition compact `{HashOrder} (stamp : N -> instant) : eff OpLog SyncError nat := fun log =>
  match replay log with
  | Err e => (log, Err e)
  | Ok (set, supersessions) =>
      let old_len := length (ops log) in
      let c0 := {| c_clock := clock log; c_ops := []; c_seen := ∅ |} in
      let c1 := foldl (fun c '(value, tags) =>
                         foldl (fun c tag => emit (replica_id log) stamp c (Add value tag)) c tags)
                      c0 (entries set) in
      let c2 := foldl (fun c '(value, successor) =>
                         emit (replica_id log) stamp c (Supersede value successor []))
                      c1 supersessions in
      ({| replica_id := replica_id log;
          clock := c_clock c2;
          compaction_epoch := u64_saturating_add (compaction_epoch log) 1;
          ops := c_ops c2;
          seen := c_seen c2 |},
       Ok (old_len - length (c_ops c2))%nat)
  end.

(** ** Specification: the recorded operations *)

(** The add-wins set and the supersession list a log replays to. *)
Definition view (log : OpLog) : AddWinsSet T :=
  match replay log with Ok (set, _) => set | Err _ => AddWinsSet.new end.
Definition supersessions (log : OpLog) : list (T * T) :=
  match replay log with Ok (_, sup) => sup | Err _ => [] end.

(** The tags an operation tombstones, the supersession it records. *)
Definition observed (op : SyncOpKind) : list uuid :=
  match op with Add _ _ => [] | Remove _ ts => ts | Supersede _ _ ts => ts end.
Definition superseded (op : SyncOpKind) : option (T * T) :=
  match op with Supersede v s _ => Some (v, s) | _ => None end.
Definition added (op : SyncOpKind) : option (T * uuid) :=
  match op with Add v t => Some (v, t) | _ => None end.

(** The index agrees with the list, keys are not repeated, and the local
    clock bounds the local sequence numbers. *)
Record log_wf (log : OpLog) : Prop := {
  wf_seen : forall k, k ∈ seen log <-> k ∈ key <$> ops log;
  wf_keys : NoDup (key <$> ops log);
  wf_clock : forall op, op ∈ ops log -> op_replica_id op = replica_id log ->
    (op_seq op <= clock log)%N
}.

(** An operation is identified by its key: what the uniqueness of replica ids
    and the monotonic per-replica clock give across replicas. *)
Definition coherent (l : list SyncOp) : Prop :=
  forall o o', o ∈ l -> o' ∈ l -> key o = key o' -> o = o'.

(** Does the operation produce a tombstone? *)
Definition is_tombstone_op (op : SyncOpKind) : bool :=
  match op with Add _ _ => false | Remove _ _ => true | Supersede _ _ _ => true end.

End OpLog.
Arguments SyncOpKind T : clear implicits.
Arguments SyncOp T : clear implicits.
Arguments OpLog T : clear implicits.
Arguments OpLogOnDisk T : clear implicits.
Arguments CompactLocals T : clear implicits.

Arguments view : simpl never.
Arguments supersessions : simpl never.
Arguments replay : simpl never.

Create HintDb oplog.

Section OpLogFacts.
Context {T : Type} {EqT : EqDecision T} {CountT : Countable T}.
Implicit Types (log a b : OpLog T) (o entry : SyncOp T) (op : SyncOpKind T) (l : list (SyncOp T)).

(** ** Replay computes the set of recorded additions and observations *)

(** The accumulator of replay over the operation kinds of a list. *)
Definition replay_kinds (acc : AddWinsSet T * list (T * T)) (kinds : list (SyncOpKind T)) :=
  foldl replay_step acc kinds.

Lemma replay_kinds_eq log :
  replay log = Ok (replay_kinds (AddWinsSet.new, []) (op_kind <$> ops log)).
Proof.
  unfold replay, replay_kinds. f_equal. generalize (@AddWinsSet.new T _ _, @nil (T * T)).
  induction (ops log) as [|o l IH]; intros acc; simpl; [done|]. apply IH.
Qed.

Lemma view_eq log : view log = (replay_kinds (AddWinsSet.new, []) (op_kind <$> ops log)).1.
Proof. unfold view. rewrite replay_kinds_eq. by destruct (replay_kinds _ _). Qed.

Lemma supersessions_eq log :
  supersessions log = (replay_kinds (AddWinsSet.new, []) (op_kind <$> ops log)).2.
Proof. unfold supersessions. rewrite replay_kinds_eq. by destruct (replay_kinds _ _). Qed.

Lemma replay_view log : replay log = Ok (view log, supersessions log).
Proof.
  rewrite view_eq, supersessions_eq, replay_kinds_eq. by destruct (replay_kinds _ _).
Qed.

Lemma replay_kinds_app acc k1 k2 :
  replay_kinds acc (k1 ++ k2) = replay_kinds (replay_kinds acc k1) k2.
Proof. apply foldl_app. Qed.

Lemma tagged_replay_step acc op v t :
  tagged (replay_step acc op).1 v t <-> added op = Some (v, t) \/ tagged acc.1 v t.
Proof.
  destruct acc as [set sup], op; simpl.
  - rewrite tagged_add_with_tag. naive_solver.
  - naive_solver.
  - naive_solver.
Qed.

Lemma tombstones_replay_step acc op t :
  t ∈ aws_tombstones (replay_step acc op).1 <-> t ∈ observed op \/ t ∈ aws_tombstones acc.1.
Proof.
  destruct acc as [set sup], op; unfold replay_step, observed, fst;
    rewrite ?tombstones_remove_tags; set_solver.
Qed.

Lemma tagged_replay_kinds acc kinds v t :
  tagged (replay_kinds acc kinds).1 v t <->
  Add v t ∈ kinds \/ tagged acc.1 v t.
Proof.
  revert acc. induction kinds as [|op kinds IH]; intros acc; simpl; [set_solver|].
  rewrite IH, tagged_replay_step, elem_of_cons.
  assert (added op = Some (v, t) <-> Add v t = op) as -> by (destruct op; naive_solver).
  tauto.
Qed.

Lemma tombstones_replay_kinds acc kinds t :
  t ∈ aws_tombstones (replay_kinds acc kinds).1 <->
  (exists op, op ∈ kinds /\ t ∈ observed op) \/ t ∈ aws_tombstones acc.1.
Proof.
  revert acc. induction kinds as [|op kinds IH]; intros acc; simpl; [set_solver|].
  rewrite IH, tombstones_replay_step. set_solver.
Qed.

Lemma supersessions_replay_kinds acc kinds :
  (replay_kinds acc kinds).2 = acc.2 ++ omap superseded kinds.
Proof.
  revert acc. induction kinds as [|op kinds IH]; intros acc; simpl.
  { by rewrite (right_id_L [] (++)). }
  rewrite IH. destruct acc as [set sup], op; simpl; rewrite <- ?(assoc_L (++)); done.
Qed.

Lemma aws_wf_replay_step acc op : aws_wf acc.1 -> aws_wf (replay_step acc op).1.
Proof. destruct acc as [set sup], op; simpl; auto with aws. Qed.

Lemma aws_wf_replay_kinds acc kinds : aws_wf acc.1 -> aws_wf (replay_kinds acc kinds).1.
Proof.
  revert acc. induction kinds as [|op kinds IH]; intros acc H; simpl; [done|].
  by apply IH, aws_wf_replay_step.
Qed.

Lemma aws_wf_view log : aws_wf (view log).
Proof. rewrite view_eq. apply aws_wf_replay_kinds, aws_wf_new. Qed.

Lemma tagged_view log v t : tagged (view log) v t <-> Add v t ∈ op_kind <$> ops log.
Proof.
  rewrite view_eq, tagged_replay_kinds. simpl.
  pose proof (tagged_new v t). tauto.
Qed.

Lemma tombstones_view log t :
  t ∈ aws_tombstones (view log) <-> exists op, op ∈ op_kind <$> ops log /\ t ∈ observed op.
Proof. rewrite view_eq, tombstones_replay_kinds. simpl. set_solver. Qed.

Lemma supersessions_spec log :
  supersessions log = omap superseded (op_kind <$> ops log).
Proof. by rewrite supersessions_eq, supersessions_replay_kinds. Qed.

(** Two logs that record the same operations replay to the same set, in
    whatever order they record them. *)
Lemma view_ext a b :
  (forall op, op ∈ op_kind <$> ops a <-> op ∈ op_kind <$> ops b) -> view a = view b.
Proof.
  intros H. apply aws_equiv_eq; [apply aws_wf_view..|]. split.
  - intros v t. rewrite !tagged_view. apply H.
  - apply set_eq. intros t. rewrite !tombstones_view. by setoid_rewrite H.
Qed.

(** ** Merging logs *)

Lemma merge_entry_single log entry : merge_entry log entry = (merge_single log entry).1.
Proof.
  unfold merge_entry, merge_single. destruct (decide (key entry ∈ seen log)) as [H|H].
  - rewrite bool_decide_eq_false_2 by tauto. by rewrite bool_decide_eq_true_2.
  - rewrite bool_decide_eq_true_2 by done. by rewrite bool_decide_eq_false_2.
Qed.

Lemma merge_entry_replica log entry : replica_id (merge_entry log entry) = replica_id log.
Proof. unfold merge_entry. by case_match. Qed.

Lemma merge_entry_epoch log entry :
  compaction_epoch (merge_entry log entry) = compaction_epoch log.
Proof. unfold merge_entry. by case_match. Qed.

Lemma foldl_merge_entry_replica log l : replica_id (foldl merge_entry log l) = replica_id log.
Proof.
  revert log. induction l as [|o l IH]; intros log; simpl; [done|].
  by rewrite IH, merge_entry_replica.
Qed.

Lemma foldl_merge_entry_epoch log l :
  compaction_epoch (foldl merge_entry log l) = compaction_epoch log.
Proof.
  revert log. induction l as [|o l IH]; intros log; simpl; [done|].
  by rewrite IH, merge_entry_epoch.
Qed.

Lemma log_wf_new replica : log_wf (new (T := T) replica).
Proof. split; simpl; [set_solver|constructor|set_solver]. Qed.

Lemma log_wf_merge_entry log entry : log_wf log -> log_wf (merge_entry log entry).
Proof.
  intros [Hs Hn Hc]. unfold merge_entry. case_bool_decide as Hk; [|by split].
  rewrite Hs in Hk. split; simpl.
  - intros k. rewrite fmap_app, elem_of_union, elem_of_app, Hs. simpl. set_solver.
  - rewrite fmap_app. apply NoDup_app. split_and!; [done| |apply NoDup_singleton].
    intros k Hin Hk'. apply list_elem_of_singleton in Hk' as ->. done.
  - intros o Ho Hr. apply elem_of_app in Ho as [Ho|Ho].
    + specialize (Hc o Ho Hr). case_match; lia.
    + apply list_elem_of_singleton in Ho as ->. rewrite Hr, N.eqb_refl. lia.
Qed.

Lemma log_wf_foldl_merge_entry log l : log_wf log -> log_wf (foldl merge_entry log l).
Proof.
  revert log. induction l as [|o l IH]; intros log H; simpl; [done|].
  by apply IH, log_wf_merge_entry.
Qed.

Lemma log_wf_merge a b : log_wf a -> log_wf (merge a b).
Proof.
  intros H. apply (log_wf_foldl_merge_entry _ (ops b)) in H. unfold merge. by destruct H.
Qed.

Lemma log_wf_append log now op :
  log_wf log -> (clock log < u64_max)%N -> log_wf (append log now op).
Proof.
  intros [Hs Hn Hc] Hlt. unfold append. rewrite u64_saturating_add_small by lia. split; simpl.
  - intros k. rewrite fmap_app, elem_of_union, elem_of_app, Hs. simpl. set_solver.
  - rewrite fmap_app. apply NoDup_app. split_and!; [done| |apply NoDup_singleton].
    intros k Hk Hin. apply list_elem_of_singleton in Hin as ->.
    apply list_elem_of_fmap in Hk as (o & Heq & Ho). unfold key in Heq; simpl in Heq.
    injection Heq as Hr Hq. specialize (Hc o Ho (eq_sym Hr)). lia.
  - intros o Ho Hr. apply elem_of_app in Ho as [Ho|Ho].
    + specialize (Hc o Ho Hr). lia.
    + apply list_elem_of_singleton in Ho as ->. simpl. lia.
Qed.

Lemma ops_merge_entry log entry :
  ops (merge_entry log entry)
  = if decide (key entry ∈ seen log) then ops log else ops log ++ [entry].
Proof. unfold merge_entry. case_bool_decide; by case_decide. Qed.

(** The operations after a merge loop: those of the log, then the entries
    whose key is new. *)
Lemma foldl_merge_entry_spec log l :
  log_wf log ->
  exists new_ops, ops (foldl merge_entry log l) = ops log ++ new_ops
    /\ new_ops `sublist_of` l
    /\ forall o, o ∈ l -> key o ∈ key <$> ops (foldl merge_entry log l).
Proof.
  revert log. induction l as [|e l IH]; intros log Hwf; simpl.
  { exists []. rewrite (right_id_L [] (++)). split_and!; [done|constructor|set_solver]. }
  pose proof (log_wf_merge_entry log e Hwf) as Hwf'.
  destruct (IH _ Hwf') as (nops & Ho & Hsub & Hall).
  rewrite Ho. rewrite ops_merge_entry. case_decide as Hk.
  - exists nops. split_and!; [done|by constructor|].
    intros o [->|Hin]%elem_of_cons.
    + rewrite fmap_app. apply elem_of_app; left. by apply (wf_seen _ Hwf).
    + specialize (Hall o Hin). rewrite Ho, ops_merge_entry, decide_True in Hall by done. done.
  - exists (e :: nops). rewrite <- (assoc_L (++)). split_and!; [done|by constructor|].
    intros o [->|Hin]%elem_of_cons.
    + rewrite !fmap_app. set_solver.
    + specialize (Hall o Hin).
      rewrite Ho, ops_merge_entry, decide_False, <- (assoc_L (++)) in Hall by done. done.
Qed.

(** Entries with pairwise distinct, new keys are all absorbed, in order. *)
Lemma foldl_merge_entry_fresh log l :
  log_wf log -> NoDup (key <$> (ops log ++ l)) ->
  ops (foldl merge_entry log l) = ops log ++ l.
Proof.
  revert log. induction l as [|o l IH]; intros log Hwf Hnd; simpl.
  { by rewrite (right_id_L [] (++)). }
  assert (Ho : ops (merge_entry log o) = ops log ++ [o]).
  { rewrite ops_merge_entry. rewrite decide_False; [done|]. rewrite (wf_seen _ Hwf).
    rewrite fmap_app in Hnd. apply NoDup_app in Hnd as (_ & Hd & _). intros Hin.
    apply (Hd _ Hin). simpl. set_solver. }
  rewrite IH; [|by apply log_wf_merge_entry|]; rewrite Ho, <- (assoc_L (++)); done.
Qed.

Lemma ops_merge a b : ops (merge a b) = ops (foldl merge_entry a (ops b)).
Proof. done. Qed.

Lemma elem_of_foldl_merge a l o :
  log_wf a -> coherent (ops a ++ l) ->
  o ∈ ops (foldl merge_entry a l) <-> o ∈ ops a \/ o ∈ l.
Proof.
  intros Hwf Hcoh.
  destruct (foldl_merge_entry_spec a l Hwf) as (nops & Ho & Hsub & Hall).
  split.
  - rewrite Ho, elem_of_app. intros [?|Hn]; [by left|right]. by eapply elem_of_sublist.
  - intros [H|H]; [rewrite Ho; set_solver|].
    specialize (Hall o H). apply list_elem_of_fmap in Hall as (o' & Hk & Ho').
    assert (o' ∈ ops a \/ o' ∈ l) as Hab.
    { rewrite Ho, elem_of_app in Ho'. destruct Ho' as [?|Hn]; [by left|right].
      by eapply elem_of_sublist. }
    rewrite (Hcoh o o'); [done|set_solver..|done].
Qed.

Lemma elem_of_merge a b o :
  log_wf a -> coherent (ops a ++ ops b) ->
  o ∈ ops (merge a b) <-> o ∈ ops a \/ o ∈ ops b.
Proof. intros. by apply elem_of_foldl_merge. Qed.

Lemma elem_of_kinds_merge a b op :
  log_wf a -> coherent (ops a ++ ops b) ->
  op ∈ op_kind <$> ops (merge a b) <->
  op ∈ op_kind <$> ops a \/ op ∈ op_kind <$> ops b.
Proof.
  intros Hwf Hcoh. rewrite !list_elem_of_fmap.
  setoid_rewrite (elem_of_merge a b _ Hwf Hcoh). naive_solver.
Qed.

(** Distinct keys identify the operations of one list. *)
Lemma NoDup_keys_coherent l : NoDup (key <$> l) -> coherent l.
Proof.
  intros Hnd o o' Ho Ho' Hk.
  apply list_elem_of_lookup in Ho as [i Hi], Ho' as [j Hj].
  assert (i = j); [|congruence].
  apply (NoDup_lookup _ i j (key o) Hnd); rewrite list_lookup_fmap, ?Hi, ?Hj; cbn; congruence.
Qed.

Lemma coherent_comm l1 l2 : coherent (l1 ++ l2) -> coherent (l2 ++ l1).
Proof. intros H o o' Ho Ho'. apply H; set_solver. Qed.

Lemma view_merge_logs a b :
  log_wf a -> coherent (ops a ++ ops b) ->
  view (merge_logs a b) = AddWinsSet.merge (view a) (view b).
Proof.
  intros Hwf Hcoh. apply aws_equiv_eq; [apply aws_wf_view| |].
  { apply aws_wf_merge; apply aws_wf_view. }
  unfold merge_logs. split.
  - intros v t. rewrite tagged_merge, !tagged_view. by apply elem_of_kinds_merge.
  - apply set_eq. intros t. rewrite tombstones_merge, !tombstones_view.
    setoid_rewrite (elem_of_kinds_merge a b _ Hwf Hcoh). naive_solver.
Qed.

Lemma merge_ops_perm a b :
  log_wf a -> log_wf b -> coherent (ops a ++ ops b) ->
  ops (merge a b) ≡ₚ ops (merge b a).
Proof.
  intros Ha Hb Hcoh.
  assert (Hnd : forall a b, log_wf a -> NoDup (ops (merge a b))).
  { intros x y Hx. apply (NoDup_fmap_1 key), (wf_keys _ (log_wf_merge x y Hx)). }
  apply NoDup_Permutation; [by apply Hnd..|]. intros o.
  rewrite (elem_of_merge a b o Ha Hcoh), (elem_of_merge b a o Hb (coherent_comm _ _ Hcoh)).
  tauto.
Qed.

(** Merging the same entries again changes nothing. *)
Lemma foldl_merge_entry_absorbed log l :
  (forall o, o ∈ l -> key o ∈ seen log) -> foldl merge_entry log l = log.
Proof.
  induction l as [|e l IH]; intros H; simpl; [done|].
  assert (merge_entry log e = log) as ->.
  { unfold merge_entry. rewrite bool_decide_eq_false_2; [done|]. set_solver. }
  apply IH. set_solver.
Qed.

Lemma merge_absorbed a b :
  log_wf a -> (forall o, o ∈ ops b -> key o ∈ key <$> ops a) ->
  (compaction_epoch b <= compaction_epoch a)%N -> merge a b = a.
Proof.
  intros Hwf Hall Hep. unfold merge.
  rewrite foldl_merge_entry_absorbed by (intros o Ho; apply (wf_seen _ Hwf); auto).
  rewrite N.max_l by done. by destruct a.
Qed.

Lemma merge_idempotent a b : log_wf a -> merge (merge a b) b = merge a b.
Proof.
  intros Hwf. apply merge_absorbed; [by apply log_wf_merge| |].
  - rewrite ops_merge. destruct (foldl_merge_entry_spec a (ops b) Hwf) as (? & ? & ? & Hall).
    exact Hall.
  - simpl. lia.
Qed.

(** ** Compaction *)

(** The operations [compact] re-emits, in order. *)
Definition compacted_kinds `{HashOrder} (set : AddWinsSet T) (sup : list (T * T)) :
    list (SyncOpKind T) :=
  flat_map (fun e => Add e.1 <$> e.2) (entries set)
  ++ ((fun p => Supersede p.1 p.2 []) <$> sup).

Lemma emit_kinds replica stamp c kinds :
  op_kind <$> c_ops (foldl (emit replica stamp) c kinds)
  = (op_kind <$> c_ops c) ++ kinds :> list (SyncOpKind T).
Proof.
  revert c. induction kinds as [|k kinds IH]; intros c; simpl.
  { by rewrite (right_id_L [] (++)). }
  rewrite IH. unfold emit; simpl. rewrite fmap_app, <- (assoc_L (++)). done.
Qed.

(** The nested loops of [compact] emit [compacted_kinds]. *)
Lemma compact_loops `{HashOrder} replica stamp (c : CompactLocals T) ents sup :
  foldl (fun c '(value, successor) => emit replica stamp c (Supersede value successor []))
    (foldl (fun c '(value, tags) =>
              foldl (fun c tag => emit replica stamp c (Add value tag)) c tags) c ents) sup
  = foldl (emit replica stamp) c
      (flat_map (fun e => Add e.1 <$> e.2) ents
       ++ ((fun p => Supersede p.1 p.2 []) <$> sup)).
Proof.
  rewrite foldl_app, foldl_fmap.
  rewrite (foldl_ext _ (fun x y => emit replica stamp x (Supersede y.1 y.2 [])))
    by (by intros ? []).
  f_equal. revert c. induction ents as [|[v tags] ents IH]; intros c; simpl; [done|].
  rewrite foldl_app, IH. f_equal. by rewrite foldl_fmap.
Qed.

(** The whole of [compact], as one pass of [emit]. *)
Lemma compact_eq `{HashOrder} stamp log :
  compact stamp log =
  let c := foldl (emit (replica_id log) stamp)
             {| c_clock := clock log; c_ops := []; c_seen := ∅ |}
             (compacted_kinds (view log) (supersessions log)) in
  ({| replica_id := replica_id log; clock := c_clock c;
      compaction_epoch := u64_saturating_add (compaction_epoch log) 1;
      ops := c_ops c; seen := c_seen c |},
   Ok (len log - length (c_ops c))%nat).
Proof. unfold compact. rewrite replay_view, compact_loops. done. Qed.

(** What holds of the locals while [compact] emits: the new operations are
    numbered above the old clock, and the index lists their keys. *)
Record emit_inv (replica : uuid) (lo : N) (c : CompactLocals T) : Prop := {
  ei_seen : forall k, k ∈ c_seen c <-> k ∈ key <$> c_ops c;
  ei_keys : NoDup (key <$> c_ops c);
  ei_op : forall o, o ∈ c_ops c ->
    op_replica_id o = replica /\ (lo < op_seq o <= c_clock c)%N;
  ei_clock : (lo <= c_clock c)%N
}.

Lemma emit_inv_step replica lo stamp c op :
  (c_clock c < u64_max)%N -> emit_inv replica lo c -> emit_inv replica lo (emit replica stamp c op).
Proof.
  intros Hlt [Hs Hk Ho Hc]. unfold emit. rewrite u64_saturating_add_small by lia.
  split; simpl; [| | |lia].
  - intros k. rewrite fmap_app, elem_of_union, elem_of_app, Hs. simpl. set_solver.
  - rewrite fmap_app. apply NoDup_app. split_and!; [done| |apply NoDup_singleton].
    intros k Hin Hk'. apply list_elem_of_singleton in Hk' as ->.
    apply list_elem_of_fmap in Hin as (o & Heq & Hin). unfold key in Heq; simpl in Heq.
    injection Heq as Hr Hq. specialize (Ho o Hin). lia.
  - intros o [Hin|Hin]%elem_of_app.
    + specialize (Ho o Hin). naive_solver lia.
    + apply list_elem_of_singleton in Hin as ->. simpl. split; [done|lia].
Qed.

Lemma emit_clock replica stamp c kinds :
  (c_clock c + N.of_nat (length kinds) <= u64_max)%N ->
  c_clock (foldl (emit replica stamp) c kinds)
  = (c_clock c + N.of_nat (length (kinds : list (SyncOpKind T))))%N.
Proof.
  revert c. induction kinds as [|k kinds IH]; intros c Hle; cbn [foldl length] in *; [lia|].
  rewrite IH; unfold emit; simpl; rewrite u64_saturating_add_small; lia.
Qed.

Lemma emit_inv_foldl replica lo stamp c kinds :
  (c_clock c + N.of_nat (length kinds) <= u64_max)%N ->
  emit_inv replica lo c -> emit_inv replica lo (foldl (emit replica stamp) c kinds).
Proof.
  revert c. induction kinds as [|k kinds IH]; intros c Hle Hinv; cbn [foldl length] in *; [done|].
  apply IH; [|apply emit_inv_step; [lia|done]].
  unfold emit; simpl. rewrite u64_saturating_add_small; lia.
Qed.

Lemma compact_kinds `{HashOrder} stamp log :
  op_kind <$> ops (compact stamp log).1 = compacted_kinds (view log) (supersessions log).
Proof. rewrite compact_eq. simpl. by rewrite emit_kinds. Qed.

Lemma elem_of_compacted_kinds_add `{HashOrder} (set : AddWinsSet T) sup v t :
  Add v t ∈ compacted_kinds set sup <-> live set v t.
Proof.
  unfold compacted_kinds. rewrite elem_of_app, list_elem_of_In, in_flat_map. split.
  - intros [([v' ts] & Hin & Ht)|Hs].
    + apply list_elem_of_In in Hin, Ht. simpl in Ht. apply elem_of_entries in Hin as (_ & _ & Hl).
      apply list_elem_of_fmap in Ht as (t' & [= -> ->] & Ht). by apply Hl.
    + apply list_elem_of_fmap in Hs as (? & ? & _). done.
  - intros Hl. left. destruct (entries_complete set v t Hl) as (ts & Hin & Ht).
    exists (v, ts). rewrite <- !list_elem_of_In. split; [done|]. simpl. set_solver.
Qed.

Lemma compacted_kinds_observed `{HashOrder} (set : AddWinsSet T) sup op :
  op ∈ compacted_kinds set sup -> observed op = [].
Proof.
  unfold compacted_kinds. rewrite elem_of_app, list_elem_of_In, in_flat_map.
  intros [([v ts] & _ & Hop)|Hs].
  - apply list_elem_of_In, list_elem_of_fmap in Hop as (? & -> & _). done.
  - apply list_elem_of_fmap in Hs as (? & -> & _). done.
Qed.

Lemma compacted_kinds_superseded `{HashOrder} (set : AddWinsSet T) sup :
  omap superseded (compacted_kinds set sup) = sup.
Proof.
  unfold compacted_kinds. rewrite omap_app.
  assert (omap superseded (flat_map (fun e => Add e.1 <$> e.2) (entries set)) = []) as ->.
  { induction (entries set) as [|[v ts] l IH]; [done|]. cbn [flat_map]. rewrite omap_app, IH.
    simpl. rewrite (right_id_L [] (++)). by induction ts. }
  rewrite (left_id_L [] (++)). induction sup as [|[v s] sup IH]; [done|]. csimpl. by rewrite IH.
Qed.

Lemma tagged_compact `{HashOrder} stamp log v t :
  tagged (view (compact stamp log).1) v t <-> live (view log) v t.
Proof. rewrite tagged_view, compact_kinds. apply elem_of_compacted_kinds_add. Qed.

Lemma tombstones_compact `{HashOrder} stamp log :
  aws_tombstones (view (compact stamp log).1) = ∅.
Proof.
  apply set_eq. intros t. rewrite tombstones_view, compact_kinds. split; [|set_solver].
  intros (op & Hop & Ht). rewrite (compacted_kinds_observed _ _ _ Hop) in Ht. set_solver.
Qed.

Lemma supersessions_compact `{HashOrder} stamp log :
  supersessions (compact stamp log).1 = supersessions log.
Proof. rewrite supersessions_spec, compact_kinds. apply compacted_kinds_superseded. Qed.

Lemma live_compact `{HashOrder} stamp log v t :
  live (view (compact stamp log).1) v t <-> live (view log) v t.
Proof. unfold live at 1. rewrite tagged_compact, tombstones_compact. set_solver. Qed.

Lemma contains_compact `{HashOrder} stamp log v :
  contains (view (compact stamp log).1) v = contains (view log) v.
Proof.
  apply eq_true_iff_eq. rewrite !contains_live. by setoid_rewrite live_compact.
Qed.

Lemma log_wf_compact `{HashOrder} stamp log :
  (clock log + N.of_nat (length (compacted_kinds (view log) (supersessions log))) <= u64_max)%N ->
  log_wf (compact stamp log).1.
Proof.
  intros Hle. rewrite compact_eq. simpl.
  destruct (emit_inv_foldl (replica_id log) (clock log) stamp
              {| c_clock := clock log; c_ops := []; c_seen := ∅ |}
              (compacted_kinds (view log) (supersessions log))) as [Hs Hk Ho Hc].
  { done. }
  { split; simpl; [set_solver|constructor|set_solver|lia]. }
  split; simpl; [done|done|]. intros o Hin _. apply Ho in Hin as [_ Hin]. lia.
Qed.

(** The (value, tag) pairs [entries] lists, without repetition. *)
Definition entry_pairs `{HashOrder} (set : AddWinsSet T) : list (T * uuid) :=
  flat_map (fun e => pair e.1 <$> e.2) (entries set).

Lemma elem_of_entry_pairs `{HashOrder} (set : AddWinsSet T) v t :
  (v, t) ∈ entry_pairs set <-> live set v t.
Proof.
  unfold entry_pairs. rewrite list_elem_of_In, in_flat_map. split.
  - intros ([v' ts] & Hin & Ht). apply list_elem_of_In in Hin, Ht. simpl in Ht.
    apply list_elem_of_fmap in Ht as (t' & [= -> ->] & Ht).
    apply elem_of_entries in Hin as (_ & _ & Hl). by apply Hl.
  - intros Hl. destruct (entries_complete set v t Hl) as (ts & Hin & Ht).
    exists (v, ts). rewrite <- !list_elem_of_In. split; [done|]. simpl. set_solver.
Qed.

Lemma NoDup_entry_pairs `{HashOrder} (set : AddWinsSet T) : NoDup (entry_pairs set).
Proof.
  unfold entry_pairs, entries.
  assert (Hnd : NoDup ((hash_order (map_to_list (aws_elements set))).*1)).
  { rewrite hash_order_perm. apply NoDup_fst_map_to_list. }
  induction (hash_order _) as [|[v tags] l IH]; [constructor|]. cbn [fmap list_fmap fst] in Hnd.
  apply NoDup_cons in Hnd as [Hv Hnd]. specialize (IH Hnd).
  assert (Hstep : omap (fun '(value, tags) =>
                     match live_tags set tags with [] => None | live => Some (value, live) end)
                    ((v, tags) :: l)
                  = match live_tags set tags with [] => [] | live => [(v, live)] end
                    ++ omap (fun '(value, tags) =>
                         match live_tags set tags with [] => None | live => Some (value, live) end) l).
  { simpl. by destruct (live_tags set tags). }
  rewrite Hstep, flat_map_app. apply NoDup_app. split_and!; [| |done].
  - pose proof (NoDup_live_tags set tags) as Hl. destruct (live_tags set tags) as [|t ts]; [constructor|].
    cbn [flat_map]. rewrite (right_id_L [] (++)). by apply (NoDup_fmap_2 (pair v)).
  - intros p Hin Hin'. apply Hv.
    assert (p.1 = v) as <- by (destruct (live_tags set tags); simpl in Hin; set_solver).
    apply list_elem_of_In, in_flat_map in Hin' as (e & He & Ht).
    apply list_elem_of_In in He, Ht. apply list_elem_of_fmap in Ht as (t & -> & _). simpl.
    apply list_elem_of_omap in He as ([v3 tg] & He & Hm).
    apply list_elem_of_fmap. exists (v3, tg). split; [|done]. by case_match; simplify_eq/=.
Qed.

Lemma length_flat_map_fmap {A B C : Type} (f : A -> B -> C) (l : list (A * list B)) :
  length (flat_map (fun e => f e.1 <$> e.2) l) = sum_list_with (fun e => length e.2) l.
Proof. induction l as [|e l IH]; simpl; [done|]. by rewrite length_app, length_fmap, IH. Qed.

Lemma length_compacted_kinds `{HashOrder} (set : AddWinsSet T) sup :
  length (compacted_kinds set sup) = (length (entry_pairs set) + length sup)%nat.
Proof.
  unfold compacted_kinds, entry_pairs. rewrite length_app, length_fmap.
  by rewrite !length_flat_map_fmap.
Qed.

(** Is the operation a [Remove]? *)
Definition is_remove (op : SyncOpKind T) : bool :=
  match op with Remove _ _ => true | _ => false end.

Lemma kinds_partition (kinds : list (SyncOpKind T)) :
  length kinds = (length (omap added kinds) + length (omap superseded kinds)
                  + length (base.filter (fun op => is_remove op = true) kinds))%nat.
Proof.
  induction kinds as [|op kinds IH]; [done|]. rewrite filter_cons. destruct op; csimpl; lia.
Qed.

Lemma length_compact_bound `{HashOrder} log :
  (length (compacted_kinds (view log) (supersessions log))
   + length (base.filter (fun op => is_remove op = true) (op_kind <$> ops log)) <= len log)%nat.
Proof.
  rewrite length_compacted_kinds, supersessions_spec. unfold len.
  pose proof (kinds_partition (op_kind <$> ops log)) as Hp. rewrite length_fmap in Hp.
  assert (Hle : (length (entry_pairs (view log)) <= length (omap added (op_kind <$> ops log)))%nat).
  { apply submseteq_length, NoDup_submseteq; [apply NoDup_entry_pairs|].
    intros [v t] Hvt. apply elem_of_entry_pairs in Hvt as [Ht _]. rewrite tagged_view in Ht.
    apply list_elem_of_omap. by exists (Add v t). }
  lia.
Qed.

Lemma log_wf_compact_small `{HashOrder} stamp log :
  (clock log + N.of_nat (len log) <= u64_max)%N -> log_wf (compact stamp log).1.
Proof.
  intros Hle. apply log_wf_compact. pose proof (length_compact_bound log). lia.
Qed.

(** No saturation happened if the final clock is below the maximum. *)
Lemma emit_clock_room replica stamp c (kinds : list (SyncOpKind T)) :
  (c_clock (foldl (emit replica stamp) c kinds) < u64_max)%N ->
  (c_clock c + N.of_nat (length kinds) < u64_max)%N.
Proof.
  revert c. induction kinds as [|k kinds IH]; intros c Hlt; cbn [foldl length] in *; [lia|].
  apply IH in Hlt. unfold emit in Hlt; cbn [c_clock] in Hlt.
  unfold u64_saturating_add in Hlt. lia.
Qed.

Lemma log_wf_compact_room `{HashOrder} stamp log :
  (clock (compact stamp log).1 < u64_max)%N -> log_wf (compact stamp log).1.
Proof.
  intros Hlt. apply log_wf_compact. rewrite compact_eq in Hlt. cbn [fst clock] in Hlt.
  apply emit_clock_room in Hlt. cbn [c_clock] in Hlt. lia.
Qed.

Lemma compact_clock_mono `{HashOrder} stamp log :
  (clock (compact stamp log).1 < u64_max)%N -> (clock log <= clock (compact stamp log).1)%N.
Proof.
  rewrite compact_eq. cbn [fst clock]. intros Hlt. pose proof (emit_clock_room _ _ _ _ Hlt) as Hr.
  cbn [c_clock] in Hr. rewrite emit_clock by (cbn [c_clock]; lia). cbn [c_clock]. lia.
Qed.

Lemma compact_op_seq `{HashOrder} stamp log o :
  (clock (compact stamp log).1 < u64_max)%N -> o ∈ ops (compact stamp log).1 ->
  op_replica_id o = replica_id log
  /\ (clock log < op_seq o <= clock (compact stamp log).1)%N.
Proof.
  rewrite compact_eq. cbn [fst clock ops]. intros Hlt Ho.
  pose proof (emit_clock_room _ _ _ _ Hlt) as Hr. cbn [c_clock] in Hr.
  destruct (emit_inv_foldl (replica_id log) (clock log) stamp
              {| c_clock := clock log; c_ops := []; c_seen := ∅ |}
              (compacted_kinds (view log) (supersessions log))) as [_ _ Hops _].
  { cbn [c_clock]. lia. }
  { split; simpl; [set_solver|constructor|set_solver|lia]. }
  by apply Hops.
Qed.

(** What an append does to the replayed state. *)
Lemma replay_append log now op :
  (view (append log now op), supersessions (append log now op))
  = replay_step (view log, supersessions log) op.
Proof.
  rewrite !view_eq, !supersessions_eq. unfold append; simpl. rewrite fmap_app, !replay_kinds_app.
  simpl. destruct (replay_kinds _ (op_kind <$> ops log)) as [set sup] eqn:E. simpl.
  by destruct op.
Qed.

Lemma elem_of_seen_foldl (l : list (SyncOp T)) (acc : gset (uuid * N)) k :
  k ∈ foldl (fun acc o => {[key o]} ∪ acc) acc l <-> k ∈ key <$> l \/ k ∈ acc.
Proof.
  revert acc. induction l as [|o l IH]; intros acc; simpl; [set_solver|].
  rewrite IH. set_solver.
Qed.

Lemma disk_roundtrip log : log_wf log -> from_disk (to_disk log) = log.
Proof.
  intros [Hs _ _]. destruct log as [r c e l sn]; unfold from_disk, to_disk; simpl in *. f_equal.
  apply set_eq. intros k. rewrite elem_of_seen_foldl, Hs. set_solver.
Qed.

(** ** The claims *)

(** [replay] never fails and computes the recorded operation set: a value
    carries a tag iff an [Add] records it, a tag is tombstoned iff some
    [Remove] or [Supersede] lists it as observed, and the supersessions are
    those recorded, in log order.  In particular logs with the same operations
    replay to the same set, whatever their order. *)
Theorem replay_spec log :
  replay log = Ok (view log, supersessions log) /\
  (forall v t, tagged (view log) v t <-> Add v t ∈ op_kind <$> ops log) /\
  (forall t, t ∈ tombstones (view log) <->
     exists op, op ∈ op_kind <$> ops log /\ t ∈ observed op) /\
  supersessions log = omap superseded (op_kind <$> ops log) /\
  (forall log', (forall op, op ∈ op_kind <$> ops log <-> op ∈ op_kind <$> ops log') ->
     view log = view log').
Proof.
  split_and!; [apply replay_view|apply tagged_view|apply tombstones_view
              |apply supersessions_spec|intros log' H; by apply view_ext].
Qed.

Lemma elem_of_supersessions log v w :
  (v, w) ∈ supersessions log <-> exists o obs, o ∈ ops log /\ op_kind o = Supersede v w obs.
Proof.
  rewrite supersessions_spec, list_elem_of_omap. setoid_rewrite list_elem_of_fmap. split.
  - intros (k & (o & -> & Ho) & E). destruct (op_kind o) as [| |v' w' obs] eqn:Ek; try done. injection E as -> ->. by exists o, obs.
  - intros (o & obs & Ho & Ek). exists (op_kind o). split; [by exists o|]. by rewrite Ek.
Qed.

(** C1: for two well-formed logs on which keys identify operations ([coherent]),
    [merge_logs] replays to the join of the two add-wins sets, whatever order the
    logs are merged in, keeps the higher compaction epoch and is idempotent; the
    supersessions it replays are those of the [Supersede] operations of either log,
    no more and no fewer, and one for each operation. *)
Theorem merge_logs_join a b :
  log_wf a -> log_wf b -> coherent (ops a ++ ops b) ->
  view (merge_logs a b) = AddWinsSet.merge (view a) (view b) /\
  view (merge_logs a b) = view (merge_logs b a) /\
  supersessions (merge_logs a b) ≡ₚ supersessions (merge_logs b a) /\
  (forall v w, (v, w) ∈ supersessions (merge_logs a b) <->
     exists o obs, (o ∈ ops a \/ o ∈ ops b) /\ op_kind o = Supersede v w obs) /\
  (forall v w, (v, w) ∈ supersessions (merge_logs a b) <-> (v, w) ∈ supersessions a \/ (v, w) ∈ supersessions b) /\
  compaction_epoch (merge_logs a b) = N.max (compaction_epoch a) (compaction_epoch b) /\
  merge_logs (merge_logs a b) b = merge_logs a b.
Proof.
  intros Ha Hb Hcoh. unfold merge_logs. pose proof (coherent_comm _ _ Hcoh) as Hcoh'.
  split_and!.
  - by apply view_merge_logs.
  - change (merge a b) with (merge_logs a b). change (merge b a) with (merge_logs b a).
    rewrite !view_merge_logs by done. apply merge_comm.
  - rewrite !supersessions_spec. by rewrite (merge_ops_perm a b Ha Hb Hcoh).
  - intros v w. rewrite elem_of_supersessions. by setoid_rewrite (elem_of_merge a b _ Ha Hcoh).
  - intros v w. rewrite !elem_of_supersessions. setoid_rewrite (elem_of_merge a b _ Ha Hcoh). naive_solver.
  - unfold merge; simpl. by rewrite foldl_merge_entry_epoch.
  - by apply merge_idempotent.
Qed.

(** The log's invariant (the de-duplication index is exactly the keys of
    the list, no key occurs twice, and the clock bounds the local sequence
    numbers) holds initially, is preserved by every operation while the 64-bit
    clock has room, and is what lets the index be left out of the serialised
    form and rebuilt on load. *)
Theorem log_invariant `{HashOrder} log :
  log_wf log ->
  log_wf (new (T := T) (replica_id log)) /\
  (forall now op, (clock log < u64_max)%N -> log_wf (append log now op)) /\
  (forall entry, log_wf (merge_single log entry).1) /\
  (forall other, log_wf (merge log other)) /\
  (forall stamp, (clock log + N.of_nat (len log) <= u64_max)%N -> log_wf (compact stamp log).1) /\
  from_disk (to_disk log) = log.
Proof.
  intros Hwf. split_and!.
  - apply log_wf_new.
  - intros. by apply log_wf_append.
  - intros entry. rewrite <- merge_entry_single. by apply log_wf_merge_entry.
  - intros. by apply log_wf_merge.
  - intros. by apply log_wf_compact_small.
  - by apply disk_roundtrip.
Qed.

(** C10: [compact] cannot fail and loses nothing that is visible: the live
    (value, tag) pairs, membership and the supersession history are unchanged,
    the epoch moves on by one, and every [Remove] (with every tombstone) is
    gone, so the reported number of removed operations is at least the number
    of [Remove]s and is exactly the drop in length. *)
Theorem compact_correct `{HashOrder} stamp log :
  exists log' removed,
    compact stamp log = (log', Ok removed) /\
    (forall v t, live (view log') v t <-> live (view log) v t) /\
    (forall v, contains (view log') v = contains (view log) v) /\
    supersessions log' = supersessions log /\
    tombstones (view log') = ∅ /\
    compaction_epoch log' = u64_saturating_add (compaction_epoch log) 1 /\
    (len log' + removed = len log)%nat /\
    (length (base.filter (fun op => is_remove op = true) (op_kind <$> ops log)) <= removed)%nat.
Proof.
  exists (compact stamp log).1, (len log - length (ops (compact stamp log).1))%nat.
  pose proof (length_compact_bound log) as Hb.
  rewrite <- (compact_kinds stamp log), length_fmap in Hb.
  split_and!.
  - by rewrite compact_eq.
  - apply live_compact.
  - apply contains_compact.
  - apply supersessions_compact.
  - apply tombstones_compact.
  - by rewrite compact_eq.
  - unfold len in *. lia.
  - unfold len in *. lia.
Qed.

End OpLogFacts.

#[export] Hint Resolve log_wf_new log_wf_append log_wf_merge_entry log_wf_merge : oplog.

(** ** Concrete logs *)

(** Replica 1 adds "a", replica 2 adds "b". *)
Definition log_one : OpLog string := (record_add (new 1) 10 "a" 100).1.
Definition log_two : OpLog string := (record_add (new 2) 20 "b" 200).1.

Lemma log_one_wf : log_wf log_one.
Proof. apply log_wf_append; [apply log_wf_new|vm_compute; reflexivity]. Defined.
Lemma log_two_wf : log_wf log_two.
Proof. apply log_wf_append; [apply log_wf_new|vm_compute; reflexivity]. Defined.

Lemma log_one_two_coherent : coherent (ops log_one ++ ops log_two).
Proof.
  intros o o' Ho Ho'. unfold log_one, log_two in *. simpl in *.
  apply elem_of_cons in Ho as [->|Ho%list_elem_of_singleton];
    apply elem_of_cons in Ho' as [->|Ho'%list_elem_of_singleton];
    subst; unfold key; simpl; congruence.
Qed.

Lemma merge_logs_join_witness :
  view (merge_logs log_one log_two) = view (merge_logs log_two log_one).
Proof.
  apply (merge_logs_join log_one log_two log_one_wf log_two_wf log_one_two_coherent).
Defined.

Lemma log_invariant_witness :
  log_wf log_one /\ from_disk (to_disk log_one) = log_one.
Proof.
  split; [apply log_one_wf|].
  apply (log_invariant (H := hash_order_id) log_one log_one_wf).
Defined.

(** The merged *log* does depend on the order of the arguments, although
    its view does not: the two logs above are well formed and coherent, and
    merging them both ways gives the same set and different logs. *)
Theorem merge_logs_order_matters :
  log_wf log_one /\ log_wf log_two /\ coherent (ops log_one ++ ops log_two) /\
  merge_logs log_one log_two <> merge_logs log_two log_one /\
  replica_id (merge_logs log_one log_two) <> replica_id (merge_logs log_two log_one) /\
  ops (merge_logs log_one log_two) <> ops (merge_logs log_two log_one) /\
  view (merge_logs log_one log_two) = view (merge_logs log_two log_one).
Proof.
  split_and!; [apply log_one_wf|apply log_two_wf|apply log_one_two_coherent| | | |];
    vm_compute; congruence.
Qed.
