(* ===== verification/SyncEngine.v ===== *)
(** * The sync engine ([sync_engine/src/lib.rs])

    One replica: its op log, a materialised-state cache with a watermark, and
    the automatic compaction policy.  The file models every operation of
    [SyncEngine<T>] and proves that the cache never changes what a caller
    sees, that compaction bounds the growth of the log and that snapshots
    restore the engine; replicas exchanging their logs are in [Gossip]. *)

From S2P Require Import Prelude AddWinsSet OpLog.

(** [DEFAULT_COMPACT_THRESHOLD] and the other tunables. *)
Definition DEFAULT_COMPACT_THRESHOLD : N := 10000.
Definition DEFAULT_TOMBSTONE_RATIO_THRESHOLD : f64 := f64_lit 3 10.
Definition DEFAULT_MAX_DELTA_BYTES : N := 4194304.
Definition MOBILE_MAX_DELTA_BYTES : N := 2097152.
Definition ESTIMATED_BYTES_PER_OP : N := 256.
Definition MIN_ADAPTIVE_GROWTH : N := DEFAULT_COMPACT_THRESHOLD.

(** [enum CompactionPolicy]. *)
Inductive CompactionPolicy : Type :=
| Fixed (threshold : N)
| Adaptive (tombstone_ratio_threshold : f64) (max_delta_bytes : N)
| Disabled.

(** [impl Default for CompactionPolicy]. *)
Definition default_policy : CompactionPolicy :=
  Adaptive DEFAULT_TOMBSTONE_RATIO_THRESHOLD DEFAULT_MAX_DELTA_BYTES.

(** [CompactionPolicy::mobile_default]. *)
Definition mobile_default : CompactionPolicy :=
  Adaptive DEFAULT_TOMBSTONE_RATIO_THRESHOLD MOBILE_MAX_DELTA_BYTES.

(** The derived [PartialEq] of [CompactionPolicy]. *)
Definition policy_eqb (p q : CompactionPolicy) : bool :=
  match p, q with
  | Fixed n, Fixed m => N.eqb n m
  | Adaptive r b, Adaptive r' b' => f64_eqb r r' && N.eqb b b'
  | Disabled, Disabled => true
  | _, _ => false
  end.

(** [enum CompactThresholdSetting]. *)
Inductive CompactThresholdSetting : Type :=
| SettingEnabled (value : N)
| SettingDisabled
| SettingAdaptive (tombstone_ratio_threshold : f64) (max_delta_bytes : N).

(** [CompactThresholdSetting::from_engine], [from_policy], [into_engine],
    [into_policy]. *)
Definition from_engine (value : option N) : CompactThresholdSetting :=
  match value with Some n => SettingEnabled n | None => SettingDisabled end.
Definition from_policy (policy : CompactionPolicy) : CompactThresholdSetting :=
  match policy with
  | Fixed n => SettingEnabled n
  | Disabled => SettingDisabled
  | Adaptive r b => SettingAdaptive r b
  end.
Definition into_engine (s : CompactThresholdSetting) : option N :=
  match s with SettingEnabled value => Some value | _ => None end.
Definition into_policy (s : CompactThresholdSetting) : CompactionPolicy :=
  match s with
  | SettingEnabled value => Fixed value
  | SettingDisabled => Disabled
  | SettingAdaptive r b => Adaptive r b
  end.

Section SyncEngine.
Context {T : Type} {EqT : EqDecision T} {CountT : Countable T}.

(** [struct SyncEngine<T>]. *)
Record SyncEngine : Type := mk_engine {
  se_replica_id : uuid;
  se_log : OpLog T;
  se_cached_state : option (AddWinsSet T * list (T * T));
  se_cache_watermark : nat;
  se_policy : CompactionPolicy;
  se_baseline : nat;
  se_tombstones : nat
}.

(** [struct DeltaEnvelope<T>] ([delta.rs]). *)
Record DeltaEnvelope : Type := mk_envelope {
  env_epoch : N;
  env_since_seq : N;
  env_ops : list (SyncOp T)
}.

(** [struct EngineSnapshot<T>], with its log as serialised (without the
    index, which the decoder rebuilds). *)
Record EngineSnapshot : Type := mk_snapshot {
  snap_replica_id : uuid;
  snap_log : OpLogOnDisk T;
  snap_set : AddWinsSet T;
  snap_supersessions : list (T * T);
  snap_compact_threshold : option CompactThresholdSetting
}.

Definition with_log (e : SyncEngine) (log : OpLog T) : SyncEngine :=
  {| se_replica_id := se_replica_id e; se_log := log; se_cached_state := se_cached_state e;
     se_cache_watermark := se_cache_watermark e; se_policy := se_policy e;
     se_baseline := se_baseline e; se_tombstones := se_tombstones e |}.
Definition with_cache (e : SyncEngine) (c : option (AddWinsSet T * list (T * T))) (wm : nat) :
    SyncEngine :=
  {| se_replica_id := se_replica_id e; se_log := se_log e; se_cached_state := c;
     se_cache_watermark := wm; se_policy := se_policy e;
     se_baseline := se_baseline e; se_tombstones := se_tombstones e |}.
Definition with_counters (e : SyncEngine) (baseline tombs : nat) : SyncEngine :=
  {| se_replica_id := se_replica_id e; se_log := se_log e; se_cached_state := se_cached_state e;
     se_cache_watermark := se_cache_watermark e; se_policy := se_policy e;
     se_baseline := baseline; se_tombstones := tombs |}.

(** ** Construction and configuration *)

(** [SyncEngine::from_log]. *)
Definition from_log (replica : uuid) (log : OpLog T) : SyncEngine :=
  {| se_replica_id := replica; se_log := log; se_cached_state := None;
     se_cache_watermark := 0; se_policy := default_policy;
     se_baseline := length (ops log); se_tombstones := 0 |}.

(** [SyncEngine::with_replica_id], and [SyncEngine::new] whose replica id is
    a fresh [Uuid::new_v4()]. *)
Definition with_replica_id (replica : uuid) : SyncEngine := from_log replica (OpLog.new replica).
Definition new (fresh : uuid) : SyncEngine := from_log fresh (OpLog.new fresh).

(** [SyncEngine::with_compaction_policy], [with_compact_threshold],
    [compact_threshold]. *)
Definition with_compaction_policy (e : SyncEngine) (p : CompactionPolicy) : SyncEngine :=
  {| se_replica_id := se_replica_id e; se_log := se_log e; se_cached_state := se_cached_state e;
     se_cache_watermark := se_cache_watermark e; se_policy := p;
     se_baseline := se_baseline e; se_tombstones := se_tombstones e |}.
Definition with_compact_threshold (e : SyncEngine) (threshold : option N) : SyncEngine :=
  with_compaction_policy e (match threshold with Some n => Fixed n | None => Disabled end).
Definition compact_threshold (e : SyncEngine) : option N :=
  match se_policy e with Fixed n => Some n | _ => None end.

(** [SyncEngine::invalidate_cache]. *)
Definition invalidate_cache (e : SyncEngine) : SyncEngine := with_cache e None 0.

(** [SyncEngine::op_log_mut]: the caller gets the log; [f] is what it does. *)
Definition op_log_mut (e : SyncEngine) (f : OpLog T -> OpLog T) : SyncEngine :=
  let e := invalidate_cache e in with_log e (f (se_log e)).

(** ** The materialised state *)

(** [apply_op_to]. *)
Definition apply_op_to (acc : AddWinsSet T * list (T * T)) (entry : SyncOp T) :
    AddWinsSet T * list (T * T) :=
  let '(set, supers) := acc in
  match op_kind entry with
  | Add value tag => (add_with_tag set value tag, supers)
  | Remove value observed_tags => (remove_tags set value observed_tags, supers)
  | Supersede value successor observed_tags =>
      (remove_tags set value observed_tags, supers ++ [(value, successor)])
  end.

(** [SyncEngine::materialise] (release build: the [debug_assert!] is no
    code). *)
Definition materialise : eff SyncEngine SyncError unit := fun e =>
  let len := length (ops (se_log e)) in
  let full_replay :=
    match replay (se_log e) with
    | Ok st => (with_cache e (Some st) len, Ok tt)
    | Err err => (e, Err err)
    end in
  match se_cached_state e with
  | Some st =>
      if (se_cache_watermark e <=? len)%nat then
        if (se_cache_watermark e =? len)%nat then (e, Ok tt)
        else (with_cache e (Some (foldl apply_op_to st (drop (se_cache_watermark e) (ops (se_log e)))))
                         len, Ok tt)
      else full_replay
  | None => full_replay
  end.

(** [SyncEngine::state]. *)
Definition state : eff SyncEngine SyncError (AddWinsSet T * list (T * T)) := fun e =>
  match materialise e with
  | (e', Err err) => (e', Err err)
  | (e', Ok _) =>
      (e', match se_cached_state e' with
           | Some st => Ok st
           | None => Err (Persistence "materialise() populates the cache on success")
           end)
  end.

(** The tags [remove] and [supersede] observe: those of [value] the cached
    state does not tombstone. *)
Definition observe `{HashOrder} (e : SyncEngine) (value : T) : list uuid :=
  match se_cached_state e with
  | Some (set, _) =>
      base.filter (fun tag => tag ∉ tombstones set) (tags_for set value)
  | None => []
  end.

(** ** Compaction *)

(** [SyncEngine::compact]. *)
Definition compact `{HashOrder} (stamp : N -> instant) : eff SyncEngine SyncError nat := fun e =>
  match OpLog.compact stamp (se_log e) with
  | (log', Err err) => (with_log e log', Err err)
  | (log', Ok removed) =>
      let e1 := invalidate_cache (with_log e log') in
      match materialise e1 with
      | (e2, Err err) => (e2, Err err)
      | (e2, Ok _) => (with_counters e2 (length (ops (se_log e2))) 0, Ok removed)
      end
  end.

(** The trigger of [SyncEngine::maybe_auto_compact]. *)
Definition should_compact (e : SyncEngine) : bool :=
  let growth := N.of_nat (length (ops (se_log e)) - se_baseline e) in
  match se_policy e with
  | Disabled => false
  | Fixed threshold => (threshold <? growth)%N
  | Adaptive tombstone_ratio_threshold max_delta_bytes =>
      if (growth <=? MIN_ADAPTIVE_GROWTH)%N then false
      else
        let ratio := f64_div (f64_of_N (N.of_nat (se_tombstones e))) (f64_of_N growth) in
        let estimated_bytes := N.min (growth * ESTIMATED_BYTES_PER_OP) u64_max in
        f64_ltb tombstone_ratio_threshold ratio || (max_delta_bytes <? estimated_bytes)%N
  end.

(** [SyncEngine::maybe_auto_compact]: an error of [compact] is logged and
    swallowed. *)
Definition maybe_auto_compact `{HashOrder} (stamp : N -> instant) (e : SyncEngine) : SyncEngine :=
  if should_compact e then (compact stamp e).1 else e.

(** ** Mutators.  [stamp s] is the wall-clock reading ([Utc::now()]) taken when
    the entry with sequence number [s] is written. *)

(** [SyncEngine::add]; [tag] is the [Uuid::new_v4()] the log draws. *)
Definition add `{HashOrder} (stamp : N -> instant) (e : SyncEngine) (value : T) (tag : uuid) :
    SyncEngine * uuid :=
  let '(log', tag) :=
    record_add (se_log e) (stamp (u64_saturating_add (clock (se_log e)) 1)) value tag in
  let e1 := with_log e log' in
  let e2 := match se_cached_state e1 with
            | Some (set, supers) =>
                with_cache e1 (Some (add_with_tag set value tag, supers)) (length (ops log'))
            | None => e1
            end in
  (maybe_auto_compact stamp e2, tag).

(** [SyncEngine::remove]. *)
Definition remove `{HashOrder} (stamp : N -> instant) (e : SyncEngine) (value : T) : SyncEngine :=
  match materialise e with
  | (e1, Err _) => e1
  | (e1, Ok _) =>
      let observed := observe e1 value in
      match observed with
      | [] => e1
      | _ =>
          let log' := record_remove (se_log e1)
                        (stamp (u64_saturating_add (clock (se_log e1)) 1)) value observed in
          let e2 := with_counters (with_log e1 log') (se_baseline e1) (S (se_tombstones e1)) in
          let e3 := match se_cached_state e2 with
                    | Some (set, supers) =>
                        with_cache e2 (Some (remove_tags set value observed, supers))
                          (length (ops log'))
                    | None => e2
                    end in
          maybe_auto_compact stamp e3
      end
  end.

(** [SyncEngine::supersede]. *)
Definition supersede `{HashOrder} (stamp : N -> instant) (e : SyncEngine) (value successor : T) :
    SyncEngine :=
  match materialise e with
  | (e1, Err _) => e1
  | (e1, Ok _) =>
      let observed := observe e1 value in
      let log' := record_supersede (se_log e1)
                    (stamp (u64_saturating_add (clock (se_log e1)) 1)) value successor observed in
      let e2 := with_counters (with_log e1 log') (se_baseline e1) (S (se_tombstones e1)) in
      let e3 := match se_cached_state e2 with
                | Some (set, supers) =>
                    with_cache e2 (Some (remove_tags set value observed, supers ++ [(value, successor)]))
                      (length (ops log'))
                | None => e2
                end in
      maybe_auto_compact stamp e3
  end.

(** The tail [merge] and [merge_delta_envelope] share: count the new
    tombstone operations, extend the cache, consider compacting. *)
Definition absorb_tail `{HashOrder} (stamp : N -> instant) (e : SyncEngine) (before : nat) :
    SyncEngine :=
  let after := length (ops (se_log e)) in
  let fresh := drop before (take after (ops (se_log e))) in
  let e1 := with_counters e (se_baseline e)
              (se_tombstones e
               + length (base.filter (fun o => is_tombstone_op (op_kind o) = true) fresh)) in
  let e2 := match se_cached_state e1 with
            | Some st => with_cache e1 (Some (foldl apply_op_to st fresh)) after
            | None => e1
            end in
  maybe_auto_compact stamp e2.

(** [SyncEngine::merge]. *)
Definition merge `{HashOrder} (stamp : N -> instant) (e other : SyncEngine) : SyncEngine :=
  let before := length (ops (se_log e)) in
  absorb_tail stamp (with_log e (OpLog.merge (se_log e) (se_log other))) before.

(** [SyncEngine::merge_delta_envelope]: returns how many operations were
    newly absorbed. *)
Definition merge_delta_envelope `{HashOrder} (stamp : N -> instant) (e : SyncEngine)
    (envelope : DeltaEnvelope) : SyncEngine * nat :=
  let before := length (ops (se_log e)) in
  let log1 := foldl (fun log op => (merge_single log op).1) (se_log e) (env_ops envelope) in
  let after := length (ops log1) in
  let log2 := {| replica_id := replica_id log1; clock := clock log1;
                 compaction_epoch := N.max (compaction_epoch log1) (env_epoch envelope);
                 ops := ops log1; seen := seen log1 |} in
  (absorb_tail stamp (with_log e log2) before, (after - before)%nat).

(** ** Snapshots *)

(** The [compact_threshold] field [snapshot] writes. *)
Definition snapshot_threshold (p : CompactionPolicy) : option CompactThresholdSetting :=
  match p with
  | Adaptive _ _ => if policy_eqb p default_policy then None else Some (from_policy p)
  | other => Some (from_policy other)
  end.

(** [SyncEngine::snapshot]. *)
Definition snapshot {Bytes : Type} `{Serde Bytes EngineSnapshot} : eff SyncEngine SyncError Bytes :=
  fun e =>
  match materialise e with
  | (e', Err err) => (e', Err err)
  | (e', Ok _) =>
      match se_cached_state e' with
      | None => (e', Err (Persistence "materialise() populates the cache on success"))
      | Some (set, supers) =>
          let snap := {| snap_replica_id := se_replica_id e';
                         snap_log := to_disk (se_log e');
                         snap_set := set;
                         snap_supersessions := supers;
                         snap_compact_threshold := snapshot_threshold (se_policy e') |} in
          (e', ok_or (to_vec snap) (Serialisation "could not serialise engine snapshot"))
      end
  end.

(** [SyncEngine::restore_snapshot]. *)
Definition restore_snapshot {Bytes : Type} `{Serde Bytes EngineSnapshot} (bytes : Bytes) :
    result SyncEngine SyncError :=
  match from_slice bytes with
  | None => Err (Serialisation "could not deserialise engine snapshot")
  | Some snap =>
      let log := from_disk (snap_log snap) in
      if N.eqb (replica_id log) (snap_replica_id snap) then
        let engine := from_log (snap_replica_id snap) log in
        let engine := match snap_compact_threshold snap with
                      | Some setting => with_compaction_policy engine (into_policy setting)
                      | None => engine
                      end in
        Ok (with_cache engine (Some (snap_set snap, snap_supersessions snap)) (length (ops log)))
      else Err (Serialisation "snapshot replica_id does not match log.replica_id")
  end.

(** [SyncEngine::bootstrap_from_snapshot_with_replica_id]. *)
Definition bootstrap_from_snapshot_with_replica_id {Bytes : Type} `{Serde Bytes EngineSnapshot}
    (bytes : Bytes) (new_replica_id : uuid) : result SyncEngine SyncError :=
  match from_slice bytes with
  | None => Err (Serialisation "could not deserialise engine snapshot")
  | Some snap =>
      let log := from_disk (snap_log snap) in
      if N.eqb (replica_id log) (snap_replica_id snap) then
        let merged := foldl (fun l op => (merge_single l op).1) (OpLog.new new_replica_id) (ops log) in
        let local_log := {| replica_id := replica_id merged; clock := clock merged;
                            compaction_epoch := compaction_epoch log;
                            ops := ops merged; seen := seen merged |} in
        let engine := from_log new_replica_id local_log in
        let engine := match snap_compact_threshold snap with
                      | Some setting => with_compaction_policy engine (into_policy setting)
                      | None => engine
                      end in
        Ok (with_cache engine (Some (snap_set snap, snap_supersessions snap))
              (length (ops (se_log engine))))
      else Err (Serialisation "snapshot replica_id does not match log.replica_id")
  end.

(** [SyncEngine::bootstrap_from_snapshot]; [fresh] is its [Uuid::new_v4()]. *)
Definition bootstrap_from_snapshot {Bytes : Type} `{Serde Bytes EngineSnapshot}
    (bytes : Bytes) (fresh : uuid) : result SyncEngine SyncError :=
  bootstrap_from_snapshot_with_replica_id bytes fresh.

(** ** Invariant *)

(** A populated cache covers the whole log and is what a replay would give;
    the log is well formed and belongs to the engine's replica. *)
Record engine_wf (e : SyncEngine) : Prop := {
  ew_replica : replica_id (se_log e) = se_replica_id e;
  ew_log : log_wf (se_log e);
  ew_cache : forall st, se_cached_state e = Some st ->
    se_cache_watermark e = length (ops (se_log e))
    /\ st = (view (se_log e), supersessions (se_log e))
}.

(** What a caller of [state] sees. *)
Definition visible (e : SyncEngine) : AddWinsSet T * list (T * T) :=
  (view (se_log e), supersessions (se_log e)).

End SyncEngine.
Arguments SyncEngine T {_ _} : assert.
Arguments DeltaEnvelope T : clear implicits.
Arguments EngineSnapshot T {_ _} : assert.

Create HintDb engine.

Section SyncEngineFacts.
Context {T : Type} {EqT : EqDecision T} {CountT : Countable T} {HO : HashOrder}.
Implicit Types (e : SyncEngine T) (log : OpLog T) (v : T) (t : uuid) (stamp : N -> instant).

(** ** The cache *)

Lemma apply_op_to_step acc (entry : SyncOp T) :
  apply_op_to acc entry = replay_step acc (op_kind entry).
Proof. destruct acc; unfold apply_op_to, replay_step. by destruct (op_kind entry). Qed.

Lemma foldl_apply_op_to acc (l : list (SyncOp T)) :
  foldl apply_op_to acc l = replay_kinds acc (op_kind <$> l).
Proof.
  revert acc. induction l as [|o l IH]; intros acc; simpl; [done|].
  by rewrite IH, apply_op_to_step.
Qed.

(** Extending a replayed state by a suffix of operations replays the longer
    log. *)
Lemma replay_extend log log' suffix :
  ops log' = ops log ++ suffix ->
  foldl apply_op_to (view log, supersessions log) suffix = (view log', supersessions log').
Proof.
  intros Ho. rewrite foldl_apply_op_to, !view_eq, !supersessions_eq, Ho, fmap_app, !replay_kinds_app.
  by rewrite <- !surjective_pairing.
Qed.

Lemma materialise_wf e :
  engine_wf e ->
  materialise e = (with_cache e (Some (visible e)) (length (ops (se_log e))), Ok tt).
Proof.
  intros [_ _ Hc]. unfold materialise. rewrite replay_view.
  destruct (se_cached_state e) as [st|] eqn:E; [|done].
  destruct (Hc st eq_refl) as [Hw ->]. rewrite Hw, Nat.leb_refl, Nat.eqb_refl.
  destruct e; unfold with_cache, visible; simpl in *. by rewrite E, Hw.
Qed.

Lemma materialise_none e :
  se_cached_state e = None ->
  materialise e = (with_cache e (Some (visible e)) (length (ops (se_log e))), Ok tt).
Proof. intros Hn. unfold materialise. by rewrite Hn, replay_view. Qed.

Lemma engine_wf_with_cache e :
  engine_wf e -> engine_wf (with_cache e (Some (visible e)) (length (ops (se_log e)))).
Proof. intros [Hr Hl _]. split; simpl; [done|done|]. by intros st [= <-]. Qed.

Lemma engine_wf_from_log replica log :
  replica_id log = replica -> log_wf log -> engine_wf (from_log replica log).
Proof. intros Hr Hl. by split. Qed.

Lemma engine_wf_policy e p : engine_wf e -> engine_wf (with_compaction_policy e p).
Proof. intros [Hr Hl Hc]. by split. Qed.

Lemma engine_wf_counters e b n : engine_wf e -> engine_wf (with_counters e b n).
Proof. intros [Hr Hl Hc]. by split. Qed.

(** [observe] reads the live tags of the value off the visible state. *)
Lemma elem_of_observe e v t :
  se_cached_state e = Some (visible e) -> t ∈ observe e v <-> live (view (se_log e)) v t.
Proof.
  intros Hc. unfold observe. rewrite Hc. unfold visible, live, tagged, tombstones, tags_for.
  rewrite list_elem_of_filter.
  destruct (aws_elements _ !! v) as [tags|].
  - rewrite elem_of_hash_order, elem_of_elements. naive_solver.
  - set_solver.
Qed.

(** ** Compaction *)

Lemma engine_compact_eq stamp e :
  compact stamp e =
  let log' := (OpLog.compact stamp (se_log e)).1 in
  (with_counters (with_cache (with_log e log') (Some (view log', supersessions log'))
                    (length (ops log'))) (length (ops log')) 0,
   (OpLog.compact stamp (se_log e)).2).
Proof.
  unfold compact. rewrite OpLog.compact_eq. cbn [fst snd].
  by rewrite materialise_none.
Qed.

Lemma engine_wf_compact stamp e :
  engine_wf e -> (clock (se_log (compact stamp e).1) < u64_max)%N ->
  engine_wf (compact stamp e).1.
Proof.
  intros [Hr Hl Hc] Hlt. rewrite engine_compact_eq in *. cbn [fst se_log with_counters with_cache with_log] in *.
  split; simpl.
  - by rewrite OpLog.compact_eq.
  - by apply log_wf_compact_room.
  - by intros st [= <-].
Qed.

(** [maybe_auto_compact] either does nothing or compacts. *)
Lemma maybe_auto_compact_cases stamp e :
  (should_compact e = false /\ maybe_auto_compact stamp e = e)
  \/ (should_compact e = true /\ maybe_auto_compact stamp e = (compact stamp e).1).
Proof. unfold maybe_auto_compact. destruct (should_compact e); [by right|by left]. Qed.

Lemma maybe_auto_compact_wf stamp e :
  engine_wf e -> (clock (se_log (maybe_auto_compact stamp e)) < u64_max)%N ->
  engine_wf (maybe_auto_compact stamp e).
Proof.
  intros Hwf. destruct (maybe_auto_compact_cases stamp e) as [[_ ->]|[_ ->]]; [done|].
  by apply engine_wf_compact.
Qed.

Lemma live_maybe_auto_compact stamp e v t :
  live (view (se_log (maybe_auto_compact stamp e))) v t <-> live (view (se_log e)) v t.
Proof.
  destruct (maybe_auto_compact_cases stamp e) as [[_ ->]|[_ ->]]; [done|].
  rewrite engine_compact_eq. cbn [fst se_log with_counters with_cache with_log]. apply live_compact.
Qed.

Lemma supersessions_maybe_auto_compact stamp e :
  supersessions (se_log (maybe_auto_compact stamp e)) = supersessions (se_log e).
Proof.
  destruct (maybe_auto_compact_cases stamp e) as [[_ ->]|[_ ->]]; [done|].
  rewrite engine_compact_eq. cbn [fst se_log with_counters with_cache with_log].
  apply supersessions_compact.
Qed.

Lemma maybe_auto_compact_clock stamp e :
  (clock (se_log (maybe_auto_compact stamp e)) < u64_max)%N ->
  (clock (se_log e) <= clock (se_log (maybe_auto_compact stamp e)))%N.
Proof.
  destruct (maybe_auto_compact_cases stamp e) as [[_ ->]|[_ ->]]; [lia|].
  rewrite engine_compact_eq. cbn [fst se_log with_counters with_cache with_log].
  apply compact_clock_mono.
Qed.

Lemma maybe_auto_compact_replica stamp e :
  se_replica_id (maybe_auto_compact stamp e) = se_replica_id e.
Proof.
  destruct (maybe_auto_compact_cases stamp e) as [[_ ->]|[_ ->]]; [done|].
  by rewrite engine_compact_eq.
Qed.

Lemma maybe_auto_compact_policy stamp e :
  se_policy (maybe_auto_compact stamp e) = se_policy e.
Proof.
  destruct (maybe_auto_compact_cases stamp e) as [[_ ->]|[_ ->]]; [done|].
  by rewrite engine_compact_eq.
Qed.

(** ** Mutators: each appends to the log, updates the cache by the same step
    and lets the compaction policy decide *)

Lemma append_room log now op :
  (clock (append log now op) < u64_max)%N -> (clock log < u64_max)%N.
Proof. unfold append; cbn [clock]. unfold u64_saturating_add. lia. Qed.

Lemma engine_wf_append e e2 now op :
  engine_wf e -> se_log e2 = append (se_log e) now op ->
  se_replica_id e2 = se_replica_id e ->
  (forall st, se_cached_state e2 = Some st ->
     se_cache_watermark e2 = length (ops (se_log e2)) /\ st = replay_step (visible e) op) ->
  (clock (se_log e2) < u64_max)%N -> engine_wf e2.
Proof.
  intros [Hr Hl Hc] Hlog Hrep Hst Hlt. split.
  - by rewrite Hlog, Hrep.
  - rewrite Hlog in *. apply log_wf_append; [done|]. by eapply append_room.
  - intros st Hs. destruct (Hst st Hs) as [Hw ->]. split; [done|].
    rewrite Hlog. symmetry. apply replay_append.
Qed.

(** The engine a mutator hands to the compaction policy. *)
Record appended (e e2 : SyncEngine T) (op : SyncOpKind T) : Prop := {
  ap_log : exists now, se_log e2 = append (se_log e) now op;
  ap_replica : se_replica_id e2 = se_replica_id e;
  ap_policy : se_policy e2 = se_policy e;
  ap_baseline : se_baseline e2 = se_baseline e;
  ap_wf : (clock (se_log e2) < u64_max)%N -> engine_wf e2
}.

Lemma add_appended stamp e v t :
  engine_wf e ->
  exists e2, add stamp e v t = (maybe_auto_compact stamp e2, t) /\ appended e e2 (Add v t).
Proof.
  intros Hwf. unfold add, record_add. eexists. split; [reflexivity|]. split.
  - destruct (se_cached_state _) as [[]|]; cbn; eauto.
  - by destruct (se_cached_state _) as [[]|].
  - by destruct (se_cached_state _) as [[]|].
  - by destruct (se_cached_state _) as [[]|].
  - apply (engine_wf_append e _ (stamp (u64_saturating_add (clock (se_log e)) 1)) (Add v t)); [done| | |].
    + by destruct (se_cached_state _) as [[]|].
    + by destruct (se_cached_state _) as [[]|].
    + destruct Hwf as [_ _ Hc]. cbn [se_cached_state with_log].
      destruct (se_cached_state e) as [[set sup]|] eqn:E; [|by cbn; rewrite E].
      destruct (Hc _ eq_refl) as [_ Hv]. cbn. intros st [= <-]. split; [done|].
      by injection Hv as -> ->.
Qed.

Lemma remove_appended stamp e v :
  engine_wf e ->
  exists e1, materialise e = (e1, Ok tt) /\ se_log e1 = se_log e /\ engine_wf e1 /\
    se_policy e1 = se_policy e /\ se_baseline e1 = se_baseline e /\
    se_replica_id e1 = se_replica_id e /\
    (forall t, t ∈ observe e1 v <-> live (view (se_log e)) v t) /\
    ((observe e1 v = [] /\ remove stamp e v = e1) \/
     (observe e1 v <> [] /\ exists e2, remove stamp e v = maybe_auto_compact stamp e2
        /\ appended e e2 (Remove v (observe e1 v)))).
Proof.
  intros Hwf. pose proof (materialise_wf e Hwf) as Hm. eexists. split; [exact Hm|].
  split_and!; [done|by apply engine_wf_with_cache|done..| |].
  { intros t. by rewrite elem_of_observe. }
  unfold remove. rewrite Hm. set (e1 := with_cache _ _ _).
  destruct (observe e1 v) as [|t0 obs] eqn:Eo; [by left|right]. split; [done|].
  eexists. split; [reflexivity|]. split; [eauto..|].
  apply (engine_wf_append e _ (stamp (u64_saturating_add (clock (se_log e)) 1)) (Remove v (t0 :: obs)));
    [done..|].
  cbn. by intros st [= <-].
Qed.

Lemma supersede_appended stamp e v s :
  engine_wf e ->
  exists e1 e2, materialise e = (e1, Ok tt) /\
    (forall t, t ∈ observe e1 v <-> live (view (se_log e)) v t) /\
    supersede stamp e v s = maybe_auto_compact stamp e2 /\
    appended e e2 (Supersede v s (observe e1 v)).
Proof.
  intros Hwf. pose proof (materialise_wf e Hwf) as Hm. eexists _, _. split; [exact Hm|].
  split; [intros t; by rewrite elem_of_observe|].
  unfold supersede. rewrite Hm. split; [reflexivity|]. split; [eauto..|].
  apply (engine_wf_append e _ (stamp (u64_saturating_add (clock (se_log e)) 1))
           (Supersede v s (observe (with_cache e (Some (visible e)) (length (ops (se_log e)))) v)));
    [done..|].
  cbn. by intros st [= <-].
Qed.

(** What an appended operation does to the live pairs. *)
Lemma live_append log now op v t :
  live (view (append log now op)) v t <->
  (op = Add v t \/ tagged (view log) v t)
  /\ t ∉ observed op /\ t ∉ aws_tombstones (view log).
Proof.
  assert (Hv : view (append log now op) = (replay_step (view log, supersessions log) op).1)
    by (by rewrite <- replay_append with (now := now)).
  rewrite Hv. unfold live. rewrite tagged_replay_step, tombstones_replay_step. simpl.
  assert (added op = Some (v, t) <-> op = Add v t) as -> by (destruct op; naive_solver). tauto.
Qed.

Lemma supersessions_append log now op :
  supersessions (append log now op)
  = supersessions log ++ match superseded op with Some p => [p] | None => [] end.
Proof.
  rewrite !supersessions_spec. unfold append; simpl. rewrite fmap_app, omap_app. simpl.
  by destruct op.
Qed.

(** ** Merging *)

Lemma absorb_tail_cases stamp e before :
  exists n, absorb_tail stamp e before =
    maybe_auto_compact stamp
      (let e1 := with_counters e (se_baseline e) n in
       match se_cached_state e with
       | Some st => with_cache e1 (Some (foldl apply_op_to st (drop before (ops (se_log e)))))
                      (length (ops (se_log e)))
       | None => e1
       end).
Proof.
  unfold absorb_tail. rewrite take_ge by done. eexists. reflexivity.
Qed.

(** The engine [merge] and [merge_delta_envelope] hand to the policy. *)
Record absorbed (e e2 : SyncEngine T) (log' : OpLog T) : Prop := {
  ab_log : se_log e2 = log';
  ab_replica : se_replica_id e2 = se_replica_id e;
  ab_policy : se_policy e2 = se_policy e;
  ab_baseline : se_baseline e2 = se_baseline e;
  ab_wf : engine_wf e2
}.

Lemma absorb_tail_absorbed stamp e log' suffix :
  engine_wf e -> log_wf log' -> replica_id log' = replica_id (se_log e) ->
  ops log' = ops (se_log e) ++ suffix ->
  exists e2, absorb_tail stamp (with_log e log') (length (ops (se_log e)))
             = maybe_auto_compact stamp e2 /\ absorbed e e2 log'.
Proof.
  intros [Hr Hl Hc] Hl' Hr' Ho.
  destruct (absorb_tail_cases stamp (with_log e log') (length (ops (se_log e)))) as [n ->].
  eexists. split; [reflexivity|]. cbn [se_cached_state with_log].
  destruct (se_cached_state e) as [st|] eqn:E.
  - split; [done..|]. split; cbn; [congruence|done|].
    intros st' [= <-]. split; [done|]. destruct (Hc st eq_refl) as [_ ->].
    rewrite Ho, drop_app_length. by apply replay_extend.
  - split; [done..|]. split; cbn; [congruence|done|]. by rewrite E.
Qed.

Lemma merge_absorbed_engine stamp e other :
  engine_wf e ->
  exists e2, merge stamp e other = maybe_auto_compact stamp e2
    /\ absorbed e e2 (OpLog.merge (se_log e) (se_log other)).
Proof.
  intros Hwf. pose proof (ew_log _ Hwf) as Hl. unfold merge.
  destruct (foldl_merge_entry_spec (se_log e) (ops (se_log other)) Hl) as (s & Ho & _).
  apply (absorb_tail_absorbed _ _ _ s); [done|by apply log_wf_merge| |done].
  unfold OpLog.merge; cbn. apply foldl_merge_entry_replica.
Qed.

(** The log of [merge_delta_envelope] before compaction. *)
Definition envelope_log (log : OpLog T) (env : DeltaEnvelope T) : OpLog T :=
  OpLog.merge log {| replica_id := 0; clock := 0; compaction_epoch := env_epoch env;
                     ops := env_ops env; seen := ∅ |}.

Lemma foldl_merge_single log (l : list (SyncOp T)) :
  foldl (fun log op => (merge_single log op).1) log l = foldl merge_entry log l.
Proof. apply foldl_ext. intros. by rewrite merge_entry_single. Qed.

Lemma merge_delta_envelope_absorbed stamp e env :
  engine_wf e ->
  exists e2, (merge_delta_envelope stamp e env).1 = maybe_auto_compact stamp e2
    /\ absorbed e e2 (envelope_log (se_log e) env)
    /\ ((merge_delta_envelope stamp e env).2
         = length (ops (envelope_log (se_log e) env)) - length (ops (se_log e)))%nat.
Proof.
  intros Hwf. pose proof (ew_log _ Hwf) as Hl. unfold merge_delta_envelope.
  rewrite foldl_merge_single. cbn [fst snd].
  destruct (foldl_merge_entry_spec (se_log e) (env_ops env) Hl) as (s & Ho & _).
  destruct (absorb_tail_absorbed stamp e (envelope_log (se_log e) env) s) as (e2 & He & Hab).
  - done.
  - by apply log_wf_merge.
  - unfold envelope_log, OpLog.merge; cbn. apply foldl_merge_entry_replica.
  - done.
  - exists e2. split_and!; [|done|done]. rewrite <- He. done.
Qed.

(** ** The calls of the public interface, as one function *)

Inductive engine_call : Type :=
| CallAdd (v : T) (tag : uuid)
| CallRemove (v : T)
| CallSupersede (v successor : T)
| CallMerge (other : SyncEngine T)
| CallDelta (env : DeltaEnvelope T)
| CallCompact
| CallState.

Definition run_call stamp e (c : engine_call) : SyncEngine T :=
  match c with
  | CallAdd v tag => (add stamp e v tag).1
  | CallRemove v => remove stamp e v
  | CallSupersede v s => supersede stamp e v s
  | CallMerge other => merge stamp e other
  | CallDelta env => (merge_delta_envelope stamp e env).1
  | CallCompact => (compact stamp e).1
  | CallState => (state e).1
  end.

(** Every call is: materialise at most, or hand an appended or absorbed log to
    the compaction policy, or compact. *)
Inductive call_shape stamp e : engine_call -> SyncEngine T -> Prop :=
| shape_idle c e' :
    se_log e' = se_log e -> se_policy e' = se_policy e -> se_baseline e' = se_baseline e ->
    se_replica_id e' = se_replica_id e -> engine_wf e' -> call_shape stamp e c e'
| shape_append c op e2 : appended e e2 op -> call_shape stamp e c (maybe_auto_compact stamp e2)
| shape_absorb c log' e2 (l : list (SyncOp T)) (ep : N) :
    absorbed e e2 log' ->
    log' = OpLog.merge (se_log e) {| replica_id := 0; clock := 0; compaction_epoch := ep;
                                     ops := l; seen := ∅ |} ->
    (match c with CallMerge other => l = ops (se_log other) | CallDelta env => l = env_ops env
     | _ => False end) ->
    call_shape stamp e c (maybe_auto_compact stamp e2)
| shape_compact : call_shape stamp e CallCompact (compact stamp e).1.

Lemma call_shape_complete stamp e c :
  engine_wf e -> call_shape stamp e c (run_call stamp e c).
Proof.
  intros Hwf. destruct c as [v t|v|v s|other|env| |]; unfold run_call.
  - destruct (add_appended stamp e v t Hwf) as (e2 & -> & Hap). by eapply shape_append.
  - destruct (remove_appended stamp e v Hwf)
      as (e1 & Hm & Hlog & Hwf1 & Hp & Hb & Hr & _ & [[_ ->]|(_ & e2 & -> & Hap)]).
    + by apply shape_idle.
    + by eapply shape_append.
  - destruct (supersede_appended stamp e v s Hwf) as (e1 & e2 & _ & _ & -> & Hap).
    by eapply shape_append.
  - destruct (merge_absorbed_engine stamp e other Hwf) as (e2 & -> & Hab).
    by eapply (shape_absorb stamp e _ _ e2 (ops (se_log other))).
  - destruct (merge_delta_envelope_absorbed stamp e env Hwf) as (e2 & -> & Hab & _).
    by eapply (shape_absorb stamp e _ _ e2 (env_ops env)).
  - apply shape_compact.
  - unfold state. rewrite (materialise_wf e Hwf). cbn.
    apply shape_idle; try done. by apply engine_wf_with_cache.
Qed.

Lemma run_call_wf stamp e c :
  engine_wf e -> (clock (se_log (run_call stamp e c)) < u64_max)%N ->
  engine_wf (run_call stamp e c).
Proof.
  intros Hwf. destruct (call_shape_complete stamp e c Hwf) as [c e'|c op e2 Hap|c log' e2 l ep Hab _ _|];
    intros Hlt; [done| | |by apply engine_wf_compact].
  - apply maybe_auto_compact_wf; [|done]. apply (ap_wf _ _ _ Hap).
    pose proof (maybe_auto_compact_clock stamp e2 Hlt). lia.
  - apply maybe_auto_compact_wf; [|done]. apply (ab_wf _ _ _ Hab).
Qed.

(** ** Growth *)

(** Operations accumulated since the last compaction, and the growth each
    policy tolerates. *)
Definition growth e : N := N.of_nat (length (ops (se_log e)) - se_baseline e).
Definition budget (p : CompactionPolicy) : option N :=
  match p with
  | Fixed n => Some n
  | Adaptive _ bytes =>
      if (bytes <? u64_max)%N then Some (N.max MIN_ADAPTIVE_GROWTH (bytes / ESTIMATED_BYTES_PER_OP))
      else None
  | Disabled => None
  end.
Definition within_budget e : Prop :=
  match budget (se_policy e) with Some b => (growth e <= b)%N | None => True end.

Lemma should_compact_false e : should_compact e = false -> within_budget e.
Proof.
  unfold should_compact, within_budget, budget. fold (growth e).
  destruct (se_policy e) as [n|r bytes|]; [intros H; apply N.ltb_ge in H; lia| |done].
  destruct (N.ltb_spec bytes u64_max) as [Hb|]; [|done].
  destruct (N.leb_spec (growth e) MIN_ADAPTIVE_GROWTH) as [Hg|Hg]; [lia|].
  intros [_ H]%orb_false_iff. apply N.ltb_ge in H.
  assert (growth e <= bytes / ESTIMATED_BYTES_PER_OP)%N; [|lia].
  apply N.div_le_lower_bound; [done|]. unfold ESTIMATED_BYTES_PER_OP in *. lia.
Qed.

Lemma within_budget_compact stamp e : within_budget (compact stamp e).1.
Proof.
  unfold within_budget, growth. rewrite engine_compact_eq. cbn [fst se_log se_baseline se_policy with_counters with_cache with_log].
  rewrite Nat.sub_diag. case_match; [|done]. lia.
Qed.

Lemma within_budget_auto stamp e : within_budget (maybe_auto_compact stamp e).
Proof.
  destruct (maybe_auto_compact_cases stamp e) as [[H ->]|[_ ->]].
  - by apply should_compact_false.
  - apply within_budget_compact.
Qed.

Lemma run_call_within_budget stamp e c :
  engine_wf e -> within_budget e -> within_budget (run_call stamp e c).
Proof.
  intros Hwf Hb. destruct (call_shape_complete stamp e c Hwf) as [c e' Hl Hp Hbl|c op e2 Hap|c log' e2 l ep Hab _ _|].
  - unfold within_budget, growth in *. by rewrite Hl, Hp, Hbl.
  - apply within_budget_auto.
  - apply within_budget_auto.
  - apply within_budget_compact.
Qed.

(** ** Runs of one engine *)

(** One call, taken while the 64-bit clock has room. *)
Inductive engine_step stamp : SyncEngine T -> SyncEngine T -> Prop :=
| step_call e c :
    (clock (se_log (run_call stamp e c)) < u64_max)%N ->
    engine_step stamp e (run_call stamp e c).

Lemma engine_run_inv stamp e e' :
  rtc (engine_step stamp) e e' -> engine_wf e -> within_budget e ->
  engine_wf e' /\ within_budget e'.
Proof.
  induction 1 as [e|e e1 e' Hs _ IH]; [done|]. intros Hwf Hb. destruct Hs as [e c Hlt].
  apply IH; [by apply run_call_wf|by apply run_call_within_budget].
Qed.

Lemma engine_wf_fresh replica p :
  engine_wf (with_compaction_policy (new (T := T) replica) p)
  /\ within_budget (with_compaction_policy (new (T := T) replica) p).
Proof.
  split.
  - apply engine_wf_policy, engine_wf_from_log; [done|apply log_wf_new].
  - unfold within_budget, growth, with_compaction_policy; cbn. case_match; [lia|done].
Qed.

(** ** Snapshots *)

Definition snapshot_of e : EngineSnapshot T :=
  {| snap_replica_id := se_replica_id e;
     snap_log := to_disk (se_log e);
     snap_set := view (se_log e);
     snap_supersessions := supersessions (se_log e);
     snap_compact_threshold := snapshot_threshold (se_policy e) |}.

Lemma snapshot_eq {Bytes} `{Serde Bytes (EngineSnapshot T)} e :
  engine_wf e ->
  snapshot e = (with_cache e (Some (visible e)) (length (ops (se_log e))),
                ok_or (to_vec (snapshot_of e)) (Serialisation "could not serialise engine snapshot")).
Proof. intros Hwf. unfold snapshot. by rewrite (materialise_wf e Hwf). Qed.

Lemma apply_setting e (o : option CompactThresholdSetting) :
  match o with Some s => with_compaction_policy e (into_policy s) | None => e end
  = with_compaction_policy e (match o with Some s => into_policy s | None => se_policy e end).
Proof. by destruct o, e. Qed.

(** The policy a restored engine gets. *)
Definition restored_policy (p : CompactionPolicy) : CompactionPolicy :=
  match snapshot_threshold p with Some s => into_policy s | None => default_policy end.

Lemma restored_policy_spec p :
  restored_policy p = p \/ (policy_eqb p default_policy = true /\ restored_policy p = default_policy).
Proof.
  unfold restored_policy, snapshot_threshold. destruct p; simpl; try by left.
  destruct (_ && _); [by right|by left].
Qed.

Lemma bootstrap_log_ops replica log :
  log_wf log -> ops (foldl merge_entry (OpLog.new replica) (ops log)) = ops log.
Proof.
  intros Hwf. rewrite foldl_merge_entry_fresh; [done|apply log_wf_new|].
  simpl. apply (wf_keys _ Hwf).
Qed.

(** ** The claims *)

(** C12: the materialised-state cache is invisible.  Whatever calls an engine
    has served since it was created (adds, removals, supersessions, merges,
    deltas, explicit and automatic compactions, reads), [state] succeeds and
    returns exactly the replay of its op log, and reading changes nothing. *)
Theorem cache_transparent stamp replica p e :
  rtc (engine_step stamp) (with_compaction_policy (new replica) p) e ->
  exists e', state e = (e', Ok (view (se_log e), supersessions (se_log e)))
    /\ se_log e' = se_log e /\ engine_wf e' /\ engine_wf e.
Proof.
  intros Hrun. destruct (engine_wf_fresh replica p) as [Hwf Hb].
  destruct (engine_run_inv _ _ _ Hrun Hwf Hb) as [He _].
  eexists. split_and!.
  - unfold state. by rewrite (materialise_wf e He).
  - done.
  - by apply engine_wf_with_cache.
  - done.
Qed.

(** What each call makes visible, on a well-formed engine and through any
    automatic compaction it triggers: [add] makes exactly its fresh pair live,
    [remove] and [supersede] retract exactly the pairs carrying a tag that was
    live for the value, [supersede] also records the pair, [compact] shows no
    change at all, and after [remove v] the engine does not contain [v]. *)
Theorem mutators_spec stamp e :
  engine_wf e ->
  (forall v t v' t', live (view (se_log (add stamp e v t).1)) v' t' <->
     (v' = v /\ t' = t /\ t ∉ tombstones (view (se_log e))) \/ live (view (se_log e)) v' t') /\
  (forall v v' t', live (view (se_log (remove stamp e v))) v' t' <->
     live (view (se_log e)) v' t' /\ ~ live (view (se_log e)) v t') /\
  (forall v, contains (view (se_log (remove stamp e v))) v = false) /\
  (forall v s v' t', live (view (se_log (supersede stamp e v s))) v' t' <->
     live (view (se_log e)) v' t' /\ ~ live (view (se_log e)) v t') /\
  (forall v s, supersessions (se_log (supersede stamp e v s)) = supersessions (se_log e) ++ [(v, s)]) /\
  (forall v t, live (view (se_log (compact stamp e).1)) v t <-> live (view (se_log e)) v t).
Proof.
  intros Hwf.
  assert (Hrem : forall v v' t', live (view (se_log (remove stamp e v))) v' t' <->
     live (view (se_log e)) v' t' /\ ~ live (view (se_log e)) v t').
  { intros v v' t'. destruct (remove_appended stamp e v Hwf)
      as (e1 & _ & Hlog & _ & _ & _ & _ & Hobs & [[Hnil ->]|(_ & e2 & -> & Hap)]).
    - rewrite Hlog. assert (~ live (view (se_log e)) v t'); [|tauto].
      rewrite <- Hobs, Hnil. set_solver.
    - rewrite live_maybe_auto_compact. destruct (ap_log _ _ _ Hap) as [now ->].
      rewrite live_append. simpl. rewrite Hobs. unfold live. naive_solver. }
  split_and!.
  - intros v t v' t'. destruct (add_appended stamp e v t Hwf) as (e2 & -> & Hap). cbn [fst].
    rewrite live_maybe_auto_compact. destruct (ap_log _ _ _ Hap) as [now ->].
    rewrite live_append. simpl. unfold live, tombstones. set_solver.
  - exact Hrem.
  - intros v. apply contains_false. intros t. rewrite Hrem. tauto.
  - intros v s v' t'. destruct (supersede_appended stamp e v s Hwf) as (e1 & e2 & _ & Hobs & -> & Hap).
    rewrite live_maybe_auto_compact. destruct (ap_log _ _ _ Hap) as [now ->].
    rewrite live_append. simpl. rewrite Hobs. unfold live. naive_solver.
  - intros v s. destruct (supersede_appended stamp e v s Hwf) as (e1 & e2 & _ & _ & -> & Hap).
    rewrite supersessions_maybe_auto_compact. destruct (ap_log _ _ _ Hap) as [now ->].
    by rewrite supersessions_append.
  - intros v t. rewrite engine_compact_eq. cbn [fst se_log with_counters with_cache with_log].
    apply live_compact.
Qed.

(** Automatic compaction bounds the log.  Through any run, the operations
    accumulated since the last compaction stay within the policy's budget:
    [n] for [Fixed(n)], the larger of 10 000 and [max_delta_bytes / 256] for
    [Adaptive]. *)
Theorem growth_bounded stamp replica p e :
  rtc (engine_step stamp) (with_compaction_policy (new replica) p) e -> within_budget e.
Proof.
  intros Hrun. destruct (engine_wf_fresh replica p) as [Hwf Hb].
  apply (engine_run_inv _ _ _ Hrun Hwf Hb).
Qed.

(** Snapshot and restore round-trip.  If the codec round-trips the
    snapshot, the restored engine has the same replica id, the same log
    (de-duplication index included), a cache that needs no replay and the same
    visible state; its policy is the authoring engine's, up to the float
    equality by which the default policy is recognised and omitted. *)
Theorem snapshot_restore_roundtrip {Bytes} `{Serde Bytes (EngineSnapshot T)} e bytes :
  engine_wf e -> (snapshot e).2 = Ok bytes -> serde_roundtrips (Bytes := Bytes) (snapshot_of e) ->
  exists r, restore_snapshot bytes = Ok r /\ engine_wf r /\
    se_replica_id r = se_replica_id e /\ se_log r = se_log e /\
    state r = (r, Ok (visible e)) /\
    (se_policy r = se_policy e
     \/ (policy_eqb (se_policy e) default_policy = true /\ se_policy r = default_policy)).
Proof.
  intros Hwf Hs Hrt. rewrite (snapshot_eq e Hwf) in Hs. cbn [snd] in Hs.
  destruct (to_vec (snapshot_of e)) as [b|] eqn:Ev; [|done]. injection Hs as ->.
  unfold restore_snapshot. rewrite (Hrt _ Ev). cbn [snap_log snapshot_of snap_replica_id].
  rewrite disk_roundtrip by apply Hwf. rewrite (ew_replica _ Hwf), N.eqb_refl.
  rewrite apply_setting. eexists. split; [reflexivity|]. split_and!.
  - split; [apply Hwf..|]. cbn. by intros st [= <-].
  - done.
  - done.
  - unfold state, materialise. cbn. by rewrite Nat.leb_refl, Nat.eqb_refl.
  - apply restored_policy_spec.
Qed.

(** Bootstrapping a new peer from a snapshot keeps the receiver's own
    replica id, copies every operation with its author's key, inherits the
    compaction epoch and shows the author's state. *)
Theorem bootstrap_spec {Bytes} `{Serde Bytes (EngineSnapshot T)} e bytes replica :
  engine_wf e -> (snapshot e).2 = Ok bytes -> serde_roundtrips (Bytes := Bytes) (snapshot_of e) ->
  exists r, bootstrap_from_snapshot_with_replica_id bytes replica = Ok r /\ engine_wf r /\
    se_replica_id r = replica /\ ops (se_log r) = ops (se_log e) /\
    compaction_epoch (se_log r) = compaction_epoch (se_log e) /\
    state r = (r, Ok (visible e)) /\
    ((forall o, o ∈ ops (se_log e) -> op_replica_id o <> replica) -> clock (se_log r) = 0%N).
Proof.
  intros Hwf Hs Hrt. rewrite (snapshot_eq e Hwf) in Hs. cbn [snd] in Hs.
  destruct (to_vec (snapshot_of e)) as [b|] eqn:Ev; [|done]. injection Hs as ->.
  unfold bootstrap_from_snapshot_with_replica_id. rewrite (Hrt _ Ev).
  cbn [snap_log snapshot_of snap_replica_id].
  rewrite disk_roundtrip by apply Hwf. rewrite (ew_replica _ Hwf), N.eqb_refl.
  rewrite foldl_merge_single. pose proof (bootstrap_log_ops replica _ (ew_log _ Hwf)) as Hops.
  pose proof (log_wf_foldl_merge_entry _ (ops (se_log e)) (log_wf_new replica)) as Hl.
  pose proof (foldl_merge_entry_replica (OpLog.new replica) (ops (se_log e))) as Hr.
  set (m := foldl merge_entry (OpLog.new replica) (ops (se_log e))) in *.
  set (lg := {| replica_id := replica_id m; clock := clock m;
                compaction_epoch := compaction_epoch (se_log e); ops := ops m; seen := seen m |}).
  assert (Hv : visible e = (view lg, supersessions lg)).
  { unfold visible. rewrite !view_eq, !supersessions_eq. unfold lg; cbn [ops]. by rewrite Hops. }
  rewrite apply_setting. eexists. split; [reflexivity|]. split_and!.
  - split; cbn; [done|by destruct Hl|]. by intros st [= <-].
  - done.
  - exact Hops.
  - done.
  - unfold state, materialise. cbn. by rewrite Nat.leb_refl, Nat.eqb_refl.
  - intros Hfor. assert (clock m = 0%N) as Hc.
    { unfold m. clear -Hfor. assert (Hgen : forall (l : list (SyncOp T)) acc, replica_id acc = replica ->
        (forall o, o ∈ l -> op_replica_id o <> replica) ->
        clock (foldl merge_entry acc l) = clock acc).
      { induction l as [|o l IH]; intros acc Ha Hn; simpl; [done|].
        rewrite IH; [|by rewrite merge_entry_replica|set_solver].
        unfold merge_entry. case_match; [|done]. cbn [clock]. rewrite Ha.
        assert (op_replica_id o <> replica) as Hne by (apply Hn; set_solver).
        by apply N.eqb_neq in Hne as ->. }
      by rewrite Hgen. }
    exact Hc.
Qed.

End SyncEngineFacts.
Arguments engine_call T {_ _} : assert.

#[export] Hint Resolve engine_wf_with_cache engine_wf_policy engine_wf_counters : engine.

(** ** A concrete run *)

Section Demo.
#[local] Existing Instance hash_order_id.

Definition demo_stamp (n : N) : instant := Z.of_N n.

(** Replica 1, compacting after two operations, adds and removes. *)
Definition demo_start : SyncEngine string := with_compaction_policy (new 1) (Fixed 2).
Definition demo_added : SyncEngine string := run_call demo_stamp demo_start (CallAdd "a" 100).
Definition demo_end : SyncEngine string := run_call demo_stamp demo_added (CallRemove "a").

Lemma demo_run : rtc (engine_step demo_stamp) demo_start demo_end.
Proof.
  eapply rtc_l; [apply (step_call demo_stamp demo_start (CallAdd "a" 100)); vm_compute; reflexivity|].
  eapply rtc_l; [apply (step_call demo_stamp demo_added (CallRemove "a")); vm_compute; reflexivity|].
  apply rtc_refl.
Defined.

Lemma demo_wf : engine_wf demo_added.
Proof.
  apply run_call_wf; [apply engine_wf_fresh|vm_compute; reflexivity].
Defined.

Lemma cache_transparent_witness :
  exists e', state demo_end = (e', Ok (view (se_log demo_end), supersessions (se_log demo_end))).
Proof.
  destruct (cache_transparent demo_stamp 1 (Fixed 2) demo_end demo_run) as (e' & H & _).
  exists e'. exact H.
Defined.

Lemma growth_bounded_witness : within_budget demo_end.
Proof. exact (growth_bounded demo_stamp 1 (Fixed 2) demo_end demo_run). Defined.

Lemma mutators_spec_witness :
  contains (view (se_log demo_added)) "a" = true
  /\ contains (view (se_log (remove demo_stamp demo_added "a"))) "a" = false.
Proof. split; [vm_compute; reflexivity|apply (mutators_spec demo_stamp demo_added demo_wf)]. Defined.

(** The identity codec: blobs are the snapshots themselves. *)
Definition identity_serde (A : Type) : Serde A A :=
  {| to_vec := Some; from_slice := Some |}.
#[local] Existing Instance identity_serde.

Lemma snapshot_restore_roundtrip_witness :
  exists r, restore_snapshot (snapshot_of demo_added) = Ok r /\ se_log r = se_log demo_added.
Proof.
  destruct (snapshot_restore_roundtrip demo_added (snapshot_of demo_added) demo_wf)
    as (r & H1 & _ & _ & H2 & _).
  - vm_compute. reflexivity.
  - intros b [= <-]. reflexivity.
  - exists r. split; [exact H1|exact H2].
Defined.

Lemma bootstrap_spec_witness :
  exists r, bootstrap_from_snapshot_with_replica_id (snapshot_of demo_added) 2 = Ok r
    /\ ops (se_log r) = ops (se_log demo_added).
Proof.
  destruct (bootstrap_spec demo_added (snapshot_of demo_added) 2 demo_wf)
    as (r & H1 & _ & _ & H2 & _).
  - vm_compute. reflexivity.
  - intros b [= <-]. reflexivity.
  - exists r. split; [exact H1|exact H2].
Defined.
End Demo.
