(* ===== verification/Delta.v ===== *)
(** * Delta exchange ([sync_engine/src/delta.rs])

    The wire form of incremental synchronisation: the sender encodes the
    operations past a watermark with its compaction epoch, the receiver
    refuses envelopes from a later epoch and merges the rest.  The codec
    ([serde_json]) is the class parameter [Serde]. *)

From S2P Require Import Prelude AddWinsSet OpLog SyncEngine.

Section Delta.
Context {T : Type} {EqT : EqDecision T} {CountT : Countable T} {HO : HashOrder}.
Context {Bytes : Type} {SerdeT : Serde Bytes (DeltaEnvelope T)}.
Implicit Types (e : SyncEngine T) (log : OpLog T).

(** The filter of [encode_delta_since]: foreign operations always, own ones
    past the watermark. *)
Definition wanted log (since_seq : N) (entry : SyncOp T) : bool :=
  negb (N.eqb (op_replica_id entry) (replica_id log)) || (since_seq <? op_seq entry)%N.

(** The filter of [encode_own_delta_since]. *)
Definition wanted_own log (since_seq : N) (entry : SyncOp T) : bool :=
  N.eqb (op_replica_id entry) (replica_id log) && (since_seq <? op_seq entry)%N.

(** The envelopes the two encoders build. *)
Definition delta_since log (since_seq : N) : DeltaEnvelope T :=
  {| env_epoch := compaction_epoch log; env_since_seq := since_seq;
     env_ops := base.filter (fun o => wanted log since_seq o = true) (ops log) |}.
Definition own_delta_since log (since_seq : N) : DeltaEnvelope T :=
  {| env_epoch := compaction_epoch log; env_since_seq := since_seq;
     env_ops := base.filter (fun o => wanted_own log since_seq o = true) (ops log) |}.

(** [encode_delta_since]. *)
Definition encode_delta_since log (since_seq : N) : result Bytes SyncError :=
  ok_or (to_vec (delta_since log since_seq)) (Serialisation "could not serialise delta envelope").

(** [encode_own_delta_since]. *)
Definition encode_own_delta_since log (since_seq : N) : result Bytes SyncError :=
  ok_or (to_vec (own_delta_since log since_seq))
        (Serialisation "could not serialise delta envelope").

(** [decode_delta]. *)
Definition decode_delta (bytes : Bytes) : result (DeltaEnvelope T) SyncError :=
  ok_or (from_slice bytes) DeltaDecode.

(** [apply_delta]. *)
Definition apply_delta (stamp : N -> instant) (delta : Bytes) : eff (SyncEngine T) SyncError nat :=
  fun e =>
  match decode_delta delta with
  | Err err => (e, Err err)
  | Ok envelope =>
      if (compaction_epoch (se_log e) <? env_epoch envelope)%N then
        (e, Err (CompactionEpochBehind (compaction_epoch (se_log e)) (env_epoch envelope)))
      else
        let '(e', absorbed) := merge_delta_envelope stamp e envelope in (e', Ok absorbed)
  end.

(** ** Lemmas *)

Lemma ops_envelope_log log (env : DeltaEnvelope T) :
  ops (envelope_log log env) = ops (foldl merge_entry log (env_ops env)).
Proof. done. Qed.

Lemma view_envelope_log log (env : DeltaEnvelope T) (other : OpLog T) :
  log_wf log -> coherent (ops log ++ ops other) ->
  (forall o, o ∈ env_ops env -> o ∈ ops other) ->
  (forall o, o ∈ ops other -> o ∈ env_ops env \/ o ∈ ops log) ->
  view (envelope_log log env) = AddWinsSet.merge (view log) (view other).
Proof.
  intros Hwf Hcoh Hsub Hall.
  rewrite <- view_merge_logs by done. apply view_ext. intros op.
  assert (Hcoh' : coherent (ops log ++ env_ops env)).
  { intros o o' Ho Ho'. apply Hcoh; set_solver. }
  rewrite !list_elem_of_fmap.
  assert (Heq : forall o, o ∈ ops (envelope_log log env) <-> o ∈ ops (merge_logs log other)).
  { intros o. rewrite ops_envelope_log, elem_of_foldl_merge by done.
    unfold merge_logs. rewrite elem_of_merge by done. naive_solver. }
  by setoid_rewrite Heq.
Qed.

Lemma apply_delta_accepted stamp e bytes (env : DeltaEnvelope T) :
  engine_wf e -> from_slice bytes = Some env ->
  (env_epoch env <= compaction_epoch (se_log e))%N ->
  exists e2, apply_delta stamp bytes e =
    (maybe_auto_compact stamp e2,
     Ok (length (ops (envelope_log (se_log e) env)) - length (ops (se_log e)))%nat)
    /\ absorbed e e2 (envelope_log (se_log e) env).
Proof.
  intros Hwf Hd Hep. unfold apply_delta, decode_delta. rewrite Hd. cbn [ok_or].
  assert ((compaction_epoch (se_log e) <? env_epoch env)%N = false) as -> by (apply N.ltb_ge; lia).
  destruct (merge_delta_envelope_absorbed stamp e env Hwf) as (e2 & He & Hab & Hn).
  destruct (merge_delta_envelope stamp e env) as [e' n]. cbn [fst snd] in *. subst.
  by exists e2.
Qed.

Lemma apply_delta_join stamp e (sender : OpLog T) bytes since (own : bool) :
  engine_wf e -> coherent (ops (se_log e) ++ ops sender) ->
  (if own then encode_own_delta_since sender since else encode_delta_since sender since) = Ok bytes ->
  serde_roundtrips (Bytes := Bytes) (if own then own_delta_since sender since else delta_since sender since) ->
  (forall o, o ∈ ops sender -> op_replica_id o = replica_id sender -> (op_seq o <= since)%N ->
     o ∈ ops (se_log e)) ->
  (own = true -> forall o, o ∈ ops sender -> op_replica_id o <> replica_id sender ->
     o ∈ ops (se_log e)) ->
  (compaction_epoch sender <= compaction_epoch (se_log e))%N ->
  exists e' n, apply_delta stamp bytes e = (e', Ok n) /\
    forall v t, live (view (se_log e')) v t <->
                live (AddWinsSet.merge (view (se_log e)) (view sender)) v t.
Proof.
  intros Hwf Hcoh Henc Hrt Hheld Hfor Hep.
  set (env := if own then own_delta_since sender since else delta_since sender since) in *.
  assert (Hd : from_slice bytes = Some env).
  { apply Hrt. unfold env, encode_own_delta_since, encode_delta_since in *.
    destruct own, (to_vec _) as [b|] eqn:E in *; cbn in Henc; congruence. }
  assert (Hepoch : env_epoch env = compaction_epoch sender) by (by destruct own).
  assert (Hsub : forall o, o ∈ env_ops env -> o ∈ ops sender).
  { intros o. unfold env. destruct own; cbn; rewrite list_elem_of_filter; tauto. }
  assert (Hall : forall o, o ∈ ops sender -> o ∈ env_ops env \/ o ∈ ops (se_log e)).
  { intros o Ho. specialize (Hheld o Ho). specialize (Hfor).
    destruct (N.eqb_spec (op_replica_id o) (replica_id sender)) as [Heq|Hne];
      destruct (N.ltb_spec since (op_seq o)) as [Hlt|Hle]; [left|right; auto|..];
      unfold env; destruct own; cbn; rewrite ?list_elem_of_filter; unfold wanted, wanted_own;
      rewrite ?Heq, ?N.eqb_refl; apply N.ltb_lt in Hlt || idtac; rewrite ?Hlt; cbn; auto;
      apply N.eqb_neq in Hne as Hne'; rewrite ?Hne'; cbn; auto. }
  destruct (apply_delta_accepted stamp e bytes env Hwf Hd) as (e2 & He & [Hl _ _ _ _]).
  { by rewrite Hepoch. }
  eexists _, _. split; [exact He|]. intros v t. rewrite live_maybe_auto_compact, Hl.
  by rewrite (view_envelope_log _ _ sender (ew_log _ Hwf) Hcoh Hsub Hall).
Qed.
(** ** The claims *)

(** [apply_delta] on every branch.  An undecodable blob and an envelope of
    a later compaction epoch leave the engine untouched and return the
    corresponding error with both epochs; any other envelope is merged, the
    count returned is the number of operations whose key was new, the epoch
    never moves backwards, and applying the same envelope again to an engine
    that has not compacted in between absorbs nothing. *)
Theorem apply_delta_spec stamp e bytes :
  engine_wf e ->
  (from_slice bytes = None -> apply_delta stamp bytes e = (e, Err DeltaDecode)) /\
  (forall env, from_slice bytes = Some env ->
     ((compaction_epoch (se_log e) < env_epoch env)%N ->
        apply_delta stamp bytes e =
          (e, Err (CompactionEpochBehind (compaction_epoch (se_log e)) (env_epoch env)))) /\
     ((env_epoch env <= compaction_epoch (se_log e))%N -> se_policy e = Disabled ->
        exists e' n, apply_delta stamp bytes e = (e', Ok n) /\ engine_wf e' /\
          (length (ops (se_log e')) = length (ops (se_log e)) + n)%nat /\
          compaction_epoch (se_log e') = compaction_epoch (se_log e) /\
          (forall o, o ∈ env_ops env -> key o ∈ key <$> ops (se_log e')) /\
          exists e'', apply_delta stamp bytes e' = (e'', Ok 0%nat) /\ se_log e'' = se_log e')).
Proof.
  intros Hwf. split.
  { intros Hd. unfold apply_delta, decode_delta. by rewrite Hd. }
  intros env Hd. split.
  { intros Hlt. unfold apply_delta, decode_delta. rewrite Hd. cbn [ok_or].
    by apply N.ltb_lt in Hlt as ->. }
  intros Hep Hpol.
  assert (Hidle : forall x : SyncEngine T, se_policy x = Disabled -> maybe_auto_compact stamp x = x).
  { intros x Hx. unfold maybe_auto_compact, should_compact. by rewrite Hx. }
  destruct (apply_delta_accepted stamp e bytes env Hwf Hd Hep) as (e2 & He & [Hl Hr Hp Hb Hwf2]).
  rewrite Hidle in He by congruence.
  destruct (foldl_merge_entry_spec (se_log e) (env_ops env) (ew_log _ Hwf)) as (s & Ho & _ & Hall).
  assert (Hepoch : compaction_epoch (se_log e2) = compaction_epoch (se_log e)).
  { rewrite Hl. unfold envelope_log, OpLog.merge; cbn. rewrite foldl_merge_entry_epoch. lia. }
  eexists _, _. split; [exact He|]. split_and!.
  - done.
  - rewrite Hl, ops_envelope_log, Ho, length_app. lia.
  - done.
  - intros o Hin. rewrite Hl. by apply Hall.
  - destruct (apply_delta_accepted stamp e2 bytes env Hwf2 Hd) as (e3 & He3 & [Hl3 _ Hp3 _ _]).
    { rewrite Hepoch. done. }
    rewrite Hidle in He3 by congruence. exists e3.
    assert (Habs : envelope_log (se_log e2) env = se_log e2).
    { unfold envelope_log. apply merge_absorbed; [apply Hwf2| |].
      - intros o Hin. rewrite Hl. by apply Hall.
      - cbn. rewrite Hepoch. done. }
    rewrite Habs in *. rewrite Nat.sub_diag in He3. done.
Qed.

(** A delta loses nothing.  If the receiver already holds the sender's own
    operations up to the watermark, applying the sender's delta shows exactly
    the pairs live in the join of both replicas' sets; the relay form, with the
    sender's own operations only, does the same for a receiver that holds the
    sender's foreign operations too. *)
Theorem delta_complete stamp e (sender : OpLog T) bytes since (own : bool) :
  engine_wf e -> coherent (ops (se_log e) ++ ops sender) ->
  (if own then encode_own_delta_since sender since else encode_delta_since sender since) = Ok bytes ->
  serde_roundtrips (Bytes := Bytes) (if own then own_delta_since sender since else delta_since sender since) ->
  (forall o, o ∈ ops sender -> op_replica_id o = replica_id sender -> (op_seq o <= since)%N ->
     o ∈ ops (se_log e)) ->
  (own = true -> forall o, o ∈ ops sender -> op_replica_id o <> replica_id sender ->
     o ∈ ops (se_log e)) ->
  (compaction_epoch sender <= compaction_epoch (se_log e))%N ->
  exists e' n, apply_delta stamp bytes e = (e', Ok n) /\
    forall v t, live (view (se_log e')) v t <->
                live (AddWinsSet.merge (view (se_log e)) (view sender)) v t.
Proof. apply apply_delta_join. Qed.
End Delta.

(** ** Concrete exchanges *)

Section Demo.
#[local] Existing Instance hash_order_id.
#[local] Existing Instance identity_serde.

Definition receiver : SyncEngine string := with_compaction_policy (new 2) Disabled.

Lemma receiver_wf : engine_wf receiver.
Proof. apply engine_wf_fresh. Defined.

Lemma apply_delta_spec_witness :
  exists e' n, apply_delta demo_stamp (delta_since (se_log demo_added) 0) receiver = (e', Ok n)
    /\ (length (ops (se_log e')) = length (ops (se_log receiver)) + n)%nat.
Proof.
  destruct (apply_delta_spec demo_stamp receiver (delta_since (se_log demo_added) 0) receiver_wf)
    as [_ H].
  destruct (H (delta_since (se_log demo_added) 0) eq_refl) as [_ H'].
  destruct H' as (e' & n & He & _ & Hn & _).
  - vm_compute. congruence.
  - reflexivity.
  - exists e', n. split; [exact He|exact Hn].
Defined.

Lemma delta_complete_witness :
  exists e' n, apply_delta demo_stamp (delta_since (se_log demo_added) 0) receiver = (e', Ok n)
    /\ forall v t, live (view (se_log e')) v t <->
         live (AddWinsSet.merge (view (se_log receiver)) (view (se_log demo_added))) v t.
Proof.
  apply (delta_complete demo_stamp receiver (se_log demo_added)
           (delta_since (se_log demo_added) 0) 0 false receiver_wf).
  - intros o o' Ho Ho' _. vm_compute in Ho, Ho'.
    apply list_elem_of_singleton in Ho as ->. by apply list_elem_of_singleton in Ho' as ->.
  - reflexivity.
  - intros b [= <-]. reflexivity.
  - intros o Ho _ Hseq. exfalso. vm_compute in Ho. apply list_elem_of_singleton in Ho as ->.
    vm_compute in Hseq. congruence.
  - discriminate.
  - vm_compute. congruence.
Defined.

(** Replica 1 adds "a" and sends a delta, then removes "a" and compacts;
    replica 3 bootstraps from the compacted snapshot.  The delta was authored
    before the compaction, at epoch 0. *)
Definition stale_delta : DeltaEnvelope string := delta_since (se_log demo_added) 0.
Definition author : SyncEngine string := (compact demo_stamp demo_end).1.
Definition newcomer : result (SyncEngine string) SyncError :=
  bootstrap_from_snapshot_with_replica_id (snapshot_of author) 3.

(** A delta authored before a compaction is accepted after it.  The
    author and a peer bootstrapped from its compacted snapshot are at epoch 1
    and do not contain "a"; both accept the epoch-0 delta that adds it, without
    an error, and the removed element is back on both. *)
Theorem stale_delta_resurrects :
  exists peer,
    newcomer = Ok peer /\
    compaction_epoch (se_log author) = 1%N /\ compaction_epoch (se_log peer) = 1%N /\
    env_epoch stale_delta = 0%N /\
    contains (view (se_log author)) "a" = false /\
    contains (view (se_log peer)) "a" = false /\
    (apply_delta demo_stamp stale_delta peer).2 = Ok 1%nat /\
    contains (view (se_log (apply_delta demo_stamp stale_delta peer).1)) "a" = true /\
    (apply_delta demo_stamp stale_delta author).2 = Ok 1%nat /\
    contains (view (se_log (apply_delta demo_stamp stale_delta author).1)) "a" = true.
Proof.
  eexists. split; [vm_compute; reflexivity|]. by split_and!; vm_compute.
Qed.
End Demo.
