(* ===== verification/Gossip.v ===== *)
(** * Replicas exchanging their logs

    The system the sync engine is written for: replicas with distinct ids that
    add, remove, supersede, compact and merge in any order, and deltas that the
    network may delay, reorder, duplicate or drop.  A step relation over the
    engines of [SyncEngine] and the envelopes of [Delta]; its invariant is the
    uniqueness of operation keys on which merging relies, and the theorem is
    convergence. *)

From S2P Require Import Prelude AddWinsSet OpLog SyncEngine Delta.

Section Gossip.
Context {T : Type} {EqT : EqDecision T} {CountT : Countable T} {HO : HashOrder}.
Variable stamp : N -> instant.

(** The engines by replica id, and the envelopes sent so far. *)
Record cluster : Type := mk_cluster {
  engines : gmap uuid (SyncEngine T);
  network : list (DeltaEnvelope T)
}.
Implicit Types (cl : cluster) (e : SyncEngine T) (o : SyncOp T).

(** The calls that involve the local replica only. *)
Definition is_local (c : engine_call T) : bool :=
  match c with CallMerge _ | CallDelta _ => false | _ => true end.

Definition set_engine cl (i : uuid) e : cluster :=
  {| engines := <[i := e]> (engines cl); network := network cl |}.

(** One step: a local call, the sending of a delta, the delivery of any
    envelope sent so far (as often as the network likes), or a direct merge.
    Engines step while their 64-bit clock has room. *)
Inductive gossip : cluster -> cluster -> Prop :=
| gossip_local cl i e c :
    engines cl !! i = Some e -> is_local c = true ->
    (clock (se_log (run_call stamp e c)) < u64_max)%N ->
    gossip cl (set_engine cl i (run_call stamp e c))
| gossip_send cl i e since :
    engines cl !! i = Some e ->
    gossip cl {| engines := engines cl; network := delta_since (se_log e) since :: network cl |}
| gossip_deliver cl i e env :
    engines cl !! i = Some e -> env ∈ network cl ->
    (env_epoch env <= compaction_epoch (se_log e))%N ->
    (clock (se_log (run_call stamp e (CallDelta env))) < u64_max)%N ->
    gossip cl (set_engine cl i (run_call stamp e (CallDelta env)))
| gossip_merge cl i j e other :
    engines cl !! i = Some e -> engines cl !! j = Some other ->
    (clock (se_log (run_call stamp e (CallMerge other))) < u64_max)%N ->
    gossip cl (set_engine cl i (run_call stamp e (CallMerge other))).

(** Fresh replicas with any policies, nothing sent. *)
Definition initial cl : Prop :=
  network cl = [] /\
  forall i e, engines cl !! i = Some e -> exists p, e = with_compaction_policy (new i) p.

(** An operation some replica or some envelope holds. *)
Definition known cl (o : SyncOp T) : Prop :=
  (exists i e, engines cl !! i = Some e /\ o ∈ ops (se_log e))
  \/ (exists env, env ∈ network cl /\ o ∈ env_ops env).

(** Engines are well formed and own their id; no two known operations share a
    key; and whoever authored a known operation has a clock at least at its
    number. *)
Record cluster_inv cl : Prop := {
  ci_wf : forall i e, engines cl !! i = Some e -> engine_wf e /\ se_replica_id e = i;
  ci_coh : forall o o', known cl o -> known cl o' -> key o = key o' -> o = o';
  ci_clock : forall o, known cl o -> exists e, engines cl !! op_replica_id o = Some e
    /\ (op_seq o <= clock (se_log e))%N
}.

Lemma initial_inv cl : initial cl -> cluster_inv cl.
Proof.
  intros [Hn Hi].
  assert (Hk : forall o, ~ known cl o).
  { intros o [(i & e & He & Ho)|(env & Hin & _)].
    - destruct (Hi i e He) as [p ->]. cbn in Ho. set_solver.
    - rewrite Hn in Hin. set_solver. }
  split; [|intros o o' H; by apply Hk in H|intros o H; by apply Hk in H].
  intros i e He. destruct (Hi i e He) as [p ->]. split; [|done]. apply engine_wf_fresh.
Qed.

(** The invariant survives replacing an engine by one whose operations are
    known already or numbered above its own former clock. *)
Lemma cluster_inv_update cl i e e' :
  cluster_inv cl -> engines cl !! i = Some e ->
  engine_wf e' -> se_replica_id e' = i -> (clock (se_log e) <= clock (se_log e'))%N ->
  (forall o, o ∈ ops (se_log e') ->
     known cl o \/ (op_replica_id o = i /\ (clock (se_log e) < op_seq o <= clock (se_log e'))%N)) ->
  cluster_inv (set_engine cl i e').
Proof.
  intros [Hwf Hcoh Hclk] Hi Hwf' Hid Hle Hnew.
  assert (Hk : forall o, known (set_engine cl i e') o -> known cl o \/
            (o ∈ ops (se_log e') /\ op_replica_id o = i
             /\ (clock (se_log e) < op_seq o <= clock (se_log e'))%N)).
  { intros o [(k & x & Hx & Ho)|Hnet]; [|left; by right].
    cbn in Hx. apply lookup_insert_Some in Hx as [[<- <-]|[Hne Hx]].
    - destruct (Hnew o Ho); [by left|by right].
    - left; left. by exists k, x. }
  assert (Hfresh : forall o o' : SyncOp T, known cl o -> op_replica_id o' = i ->
            (clock (se_log e) < op_seq o')%N -> key o = key o' -> False).
  { intros o o' Ho Hr Hs [= Hr' Hs']. destruct (Hclk o Ho) as (x & Hx & Hxs).
    rewrite Hr', Hr, Hi in Hx. simplify_eq. lia. }
  split.
  - intros k x Hx. cbn in Hx. apply lookup_insert_Some in Hx as [[<- <-]|[Hne Hx]]; auto.
  - intros o o' Ho Ho' Hkey.
    apply Hk in Ho as [Ho|(Hin & Hr & Hs)]; apply Hk in Ho' as [Ho'|(Hin' & Hr' & Hs')].
    + by apply Hcoh.
    + exfalso. apply (Hfresh o o'); [done..|lia|done].
    + exfalso. apply (Hfresh o' o); [done..|lia|done].
    + pose proof (wf_keys _ (ew_log _ Hwf')) as Hnd.
      apply list_elem_of_lookup in Hin as [a Ha], Hin' as [b Hb].
      assert (a = b); [|congruence].
      eapply (NoDup_lookup _ a b (key o) Hnd); rewrite list_lookup_fmap, ?Ha, ?Hb; cbn; congruence.
  - intros o Ho. apply Hk in Ho as [Ho|(Hin & Hr & Hs)].
    + destruct (Hclk o Ho) as (x & Hx & Hxs). cbn. destruct (decide (op_replica_id o = i)) as [Heq|Hne].
      * rewrite Heq in *. rewrite lookup_insert_eq. exists e'. split; [done|]. rewrite Hi in Hx. simplify_eq. lia.
      * rewrite lookup_insert_ne by done. by exists x.
    + cbn. rewrite Hr, lookup_insert_eq. exists e'. split; [done|lia].
Qed.

(** What a call may put into a log. *)
Lemma auto_compact_ops e e2 o :
  (clock (se_log (maybe_auto_compact stamp e2)) < u64_max)%N ->
  replica_id (se_log e2) = replica_id (se_log e) ->
  o ∈ ops (se_log (maybe_auto_compact stamp e2)) ->
  o ∈ ops (se_log e2) \/
  (op_replica_id o = replica_id (se_log e)
   /\ (clock (se_log e2) < op_seq o <= clock (se_log (maybe_auto_compact stamp e2)))%N).
Proof.
  intros Hlt Hr. destruct (maybe_auto_compact_cases stamp e2) as [[_ He]|[_ He]]; rewrite He in *.
  - by left.
  - rewrite engine_compact_eq in *. cbn [fst se_log with_counters with_cache with_log] in *.
    intros Ho. right. rewrite <- Hr. by apply compact_op_seq.
Qed.

Lemma merge_ops_known (log b : OpLog T) o : log_wf log ->
  o ∈ ops (OpLog.merge log b) -> o ∈ ops log \/ o ∈ ops b.
Proof.
  intros Hwf. rewrite ops_merge.
  destruct (foldl_merge_entry_spec log (ops b) Hwf) as (s & -> & Hs & _).
  rewrite elem_of_app. intros [?|?]; [by left|right]. by eapply elem_of_sublist.
Qed.

Lemma merge_clock_mono (log b : OpLog T) : (clock log <= clock (OpLog.merge log b))%N.
Proof.
  change (clock log <= clock (foldl merge_entry log (ops b)))%N.
  revert log. induction (ops b) as [|o l IH]; intros log; simpl; [lia|].
  specialize (IH (merge_entry log o)). etrans; [|exact IH].
  unfold merge_entry. case_match; cbn; [case_match; lia|lia].
Qed.

(** The operations a call may bring in from outside. *)
Definition imported (c : engine_call T) : list (SyncOp T) :=
  match c with CallMerge other => ops (se_log other) | CallDelta env => env_ops env | _ => [] end.

Lemma run_call_effect e c :
  engine_wf e -> (clock (se_log (run_call stamp e c)) < u64_max)%N ->
  se_replica_id (run_call stamp e c) = se_replica_id e /\
  (clock (se_log e) <= clock (se_log (run_call stamp e c)))%N /\
  forall o, o ∈ ops (se_log (run_call stamp e c)) ->
    o ∈ ops (se_log e) \/ o ∈ imported c \/
    (op_replica_id o = se_replica_id e
     /\ (clock (se_log e) < op_seq o <= clock (se_log (run_call stamp e c)))%N).
Proof.
  intros Hwf. pose proof (ew_replica _ Hwf) as Hrep.
  destruct (call_shape_complete stamp e c Hwf)
    as [c e' Hl _ _ Hr _|c op e2 [[now Hl] Hr _ _ _]|c log' e2 l ep [Hl Hr _ _ _] Hlog Himp|];
    intros Hlt.
  - rewrite Hl. split_and!; [done|done|auto].
  - pose proof (maybe_auto_compact_clock stamp e2 Hlt) as Hc.
    assert (Hclk : clock (se_log e2) = u64_saturating_add (clock (se_log e)) 1) by (by rewrite Hl).
    unfold u64_saturating_add in Hclk.
    split_and!; [by rewrite maybe_auto_compact_replica|lia|].
    intros o Ho. apply (auto_compact_ops e) in Ho as [Ho|[Ho1 Ho2]]; [|right; right; split; [congruence|lia]|done|by rewrite Hl].
    rewrite Hl in Ho. cbn in Ho. apply elem_of_app in Ho as [Ho|Ho]; [by left|].
    apply list_elem_of_singleton in Ho as ->. right; right. cbn [op_replica_id op_seq].
    unfold u64_saturating_add. split; [congruence|lia].
  - pose proof (maybe_auto_compact_clock stamp e2 Hlt) as Hc.
    pose proof (merge_clock_mono (se_log e) {| replica_id := 0; clock := 0; compaction_epoch := ep;
                                               ops := l; seen := ∅ |}) as Hm.
    rewrite <- Hlog, <- Hl in Hm.
    split_and!; [by rewrite maybe_auto_compact_replica|lia|].
    intros o Ho. apply (auto_compact_ops e) in Ho as [Ho|[Ho1 Ho2]].
    + rewrite Hl, Hlog in Ho. apply merge_ops_known in Ho as [Ho|Ho]; [by left| |apply Hwf].
      right; left. destruct c; by subst.
    + right; right. split; [congruence|lia].
    + done.
    + rewrite Hl, Hlog. apply foldl_merge_entry_replica.
  - rewrite engine_compact_eq in *. cbn [fst se_log se_replica_id with_counters with_cache with_log] in *.
    split_and!; [done|by apply compact_clock_mono|].
    intros o Ho. right; right. rewrite <- Hrep. by apply compact_op_seq.
Qed.

Lemma gossip_inv cl cl' : gossip cl cl' -> cluster_inv cl -> cluster_inv cl'.
Proof.
  intros Hs Hinv.
  assert (Hcall : forall i e c, engines cl !! i = Some e ->
            (forall o, o ∈ imported c -> known cl o) ->
            (clock (se_log (run_call stamp e c)) < u64_max)%N ->
            cluster_inv (set_engine cl i (run_call stamp e c))).
  { intros i e c He Himp Hlt. destruct (ci_wf _ Hinv i e He) as [Hwf <-].
    destruct (run_call_effect e c Hwf Hlt) as (Hr & Hc & Ho).
    apply (cluster_inv_update _ _ e); try done; [by apply run_call_wf|].
    intros o Hin. destruct (Ho o Hin) as [?|[?|?]]; [left; left; eauto|auto|auto]. }
  destruct Hs as [cl i e c He Hloc Hlt|cl i e since He|cl i e env He Henv Hep Hlt|cl i j e other He Hj Hlt].
  - apply Hcall; [done| |done]. destruct c; try done; set_solver.
  - assert (Hk : forall o, known {| engines := engines cl;
                network := delta_since (se_log e) since :: network cl |} o -> known cl o).
    { intros o [Hk|(env & [->|Hin]%elem_of_cons & Ho)]; [by left| |right; eauto].
      left. exists i, e. split; [done|]. cbn in Ho. apply list_elem_of_filter in Ho. tauto. }
    destruct Hinv as [Hwf Hcoh Hclk]. split; cbn; auto.
  - apply Hcall; [done| |done]. intros o Ho. right. by exists env.
  - apply Hcall; [done| |done]. intros o Ho. left. by exists j, other.
Qed.

Lemma gossip_reachable_inv cl0 cl : initial cl0 -> rtc gossip cl0 cl -> cluster_inv cl.
Proof.
  intros Hi Hr. apply initial_inv in Hi. revert Hi.
  induction Hr as [|x y z Hs _ IH]; [done|]. intros H. apply IH. by eapply gossip_inv.
Qed.

(** ** The claims *)

(** Keys identify operations.  Whatever the replicas have done and the
    network has delayed, duplicated or dropped, two operations held anywhere
    (in logs or in envelopes) with the same (replica, sequence number) are the
    same operation, and every log is well formed: the hypotheses under which
    merging logs is the join. *)
Theorem gossip_keys_unique cl0 cl :
  initial cl0 -> rtc gossip cl0 cl ->
  (forall o o', known cl o -> known cl o' -> key o = key o' -> o = o') /\
  (forall i e, engines cl !! i = Some e -> engine_wf e /\ se_replica_id e = i) /\
  (forall i j e e', engines cl !! i = Some e -> engines cl !! j = Some e' ->
     coherent (ops (se_log e) ++ ops (se_log e'))).
Proof.
  intros Hi Hr. destruct (gossip_reachable_inv _ _ Hi Hr) as [Hwf Hcoh _].
  split_and!; [done|done|]. intros i j e e' He He' o o' Ho Ho'.
  assert (Hk : forall x : SyncOp T, x ∈ ops (se_log e) ++ ops (se_log e') -> known cl x).
  { intros x [?|?]%elem_of_app; left; eauto. }
  apply Hcoh; auto.
Qed.

(** What an engine shows once it has merged a log, compacted or not. *)
Lemma merge_shows (a b : SyncEngine T) : engine_wf a -> coherent (ops (se_log a) ++ ops (se_log b)) ->
  (forall v t, live (view (se_log (merge stamp a b))) v t <->
     live (AddWinsSet.merge (view (se_log a)) (view (se_log b))) v t) /\
  supersessions (se_log (merge stamp a b)) = supersessions (OpLog.merge (se_log a) (se_log b)).
Proof.
  intros Ha Hab. destruct (merge_absorbed_engine stamp a b Ha) as (a2 & -> & [Hl _ _ _ _]). split.
  - intros v t. rewrite live_maybe_auto_compact, Hl.
    change (OpLog.merge (se_log a) (se_log b)) with (merge_logs (se_log a) (se_log b)).
    by rewrite (view_merge_logs _ _ (ew_log _ Ha) Hab).
  - by rewrite supersessions_maybe_auto_compact, Hl.
Qed.
Lemma merge_not_compacted (a b : SyncEngine T) : se_policy a = Disabled ->
  se_log (merge stamp a b) = OpLog.merge (se_log a) (se_log b).
Proof.
  intros Hp. unfold merge, absorb_tail, maybe_auto_compact, should_compact. cbn [se_policy with_cache with_counters with_log].
  by destruct (se_cached_state _); cbn [se_policy with_cache with_counters with_log]; rewrite Hp.
Qed.
(** Merging back a log that contains one's own. *)
Lemma merge_back (a b : OpLog T) : log_wf a -> log_wf b -> coherent (ops a ++ ops b) ->
  coherent (ops b ++ ops (OpLog.merge a b)) /\
  view (OpLog.merge b (OpLog.merge a b)) = view (OpLog.merge a b) /\
  supersessions (OpLog.merge b (OpLog.merge a b)) ≡ₚ supersessions (OpLog.merge a b).
Proof.
  intros Ha Hb Hab. assert (Hl := log_wf_merge a b Ha). assert (Hc : coherent (ops b ++ ops (OpLog.merge a b))).
  { intros o o' Ho Ho'. apply Hab; apply elem_of_app.
    - apply elem_of_app in Ho as [?|?]; [by right|]. by apply (elem_of_merge a b o Ha Hab).
    - apply elem_of_app in Ho' as [?|?]; [by right|]. by apply (elem_of_merge a b o' Ha Hab). }
  assert (Hc' := coherent_comm _ _ Hc). assert (Hi : OpLog.merge (OpLog.merge a b) b = OpLog.merge a b) by by apply merge_idempotent.
  split; [done|]. split.
  - change (OpLog.merge b (OpLog.merge a b)) with (merge_logs b (OpLog.merge a b)). rewrite view_merge_logs, merge_comm by done.
    rewrite <- view_merge_logs by done. by rewrite <- Hi at 2.
  - rewrite !supersessions_spec. rewrite (merge_ops_perm b (OpLog.merge a b)) by done. by rewrite Hi.
Qed.

(** C2: replicas converge.  In any reachable system, compactions included, let two
    replicas merge each other's logs as they stand.  Then they show the same live
    pairs, the same elements and the same supersessions (up to order): those of the
    join of what they showed before.  If the second merges only after the first has,
    what it merges is the first one's merged log, and the same holds as long as the
    first does not compact automatically; with automatic compaction it may not
    ([sequential_merge_diverges]). *)
Theorem gossip_converges cl0 cl i j e e' :
  initial cl0 -> rtc gossip cl0 cl ->
  engines cl !! i = Some e -> engines cl !! j = Some e' ->
  let x := merge stamp e e' in
  let y := merge stamp e' e in
  let z := merge stamp e' x in
  (forall v t, live (view (se_log x)) v t <-> live (view (se_log y)) v t) /\
  (forall v, contains (view (se_log x)) v = contains (view (se_log y)) v) /\
  supersessions (se_log x) ≡ₚ supersessions (se_log y) /\
  (forall v t, live (view (se_log x)) v t <->
     live (AddWinsSet.merge (view (se_log e)) (view (se_log e'))) v t) /\
  (se_policy e = Disabled ->
     (forall v t, live (view (se_log z)) v t <-> live (view (se_log x)) v t) /\
     (forall v, contains (view (se_log z)) v = contains (view (se_log x)) v) /\
     supersessions (se_log z) ≡ₚ supersessions (se_log x)).
Proof.
  intros Hi Hr He He'. pose proof (gossip_reachable_inv _ _ Hi Hr) as Hinv.
  destruct (ci_wf _ Hinv i e He) as [Hwf _]. destruct (ci_wf _ Hinv j e' He') as [Hwf' _].
  assert (Hcoh : coherent (ops (se_log e) ++ ops (se_log e'))).
  { intros o o' Ho Ho'. apply (ci_coh _ Hinv); left.
    - apply elem_of_app in Ho as [?|?]; eauto.
    - apply elem_of_app in Ho' as [?|?]; eauto. }
  pose proof (coherent_comm _ _ Hcoh) as Hcoh'.
  destruct (merge_shows e e' Hwf Hcoh) as [Hx Hxs]. destruct (merge_shows e' e Hwf' Hcoh') as [Hy Hys]. cbn zeta.
  assert (Hsame : forall l l' : OpLog T, (forall v t, live (view l) v t <-> live (view l') v t) ->
            forall v, contains (view l) v = contains (view l') v).
  { intros l l' Hl v. apply eq_true_iff_eq. rewrite !contains_live. by setoid_rewrite Hl. }
  assert (Hxy : forall v t, live (view (se_log (merge stamp e e'))) v t <->
                  live (view (se_log (merge stamp e' e))) v t).
  { intros v t. by rewrite Hx, Hy, merge_comm. }
  split_and!; [exact Hxy|by apply Hsame| |exact Hx|].
  - rewrite Hxs, Hys, !supersessions_spec.
    by rewrite (merge_ops_perm _ _ (ew_log _ Hwf) (ew_log _ Hwf') Hcoh).
  - intros Hp. assert (El := merge_not_compacted e e' Hp).
    destruct (merge_back _ _ (ew_log _ Hwf) (ew_log _ Hwf') Hcoh) as (Hc & Hv & Hs). rewrite <- El in Hc, Hv, Hs.
    destruct (merge_shows e' (merge stamp e e') Hwf' Hc) as [Hz Hzs].
    assert (Hzx : forall v t, live (view (se_log (merge stamp e' (merge stamp e e')))) v t <-> live (view (se_log (merge stamp e e'))) v t).
    { intros v t. rewrite Hz, <- view_merge_logs by (apply Hwf' || done). unfold merge_logs. by rewrite Hv. }
    split_and!; [exact Hzx|by apply Hsame|]. rewrite Hzs. exact Hs.
Qed.
End Gossip.

(** ** A concrete system of two replicas *)

Section Demo.
#[local] Existing Instance hash_order_id.

Definition two_start : cluster (T := string) :=
  {| engines := {[1%N := demo_start; 2%N := receiver]}; network := [] |}.
Definition two_end : cluster (T := string) := set_engine two_start 1 demo_added.

Lemma two_initial : initial two_start.
Proof.
  split; [reflexivity|]. intros i e. cbn [engines two_start]. rewrite lookup_insert_Some.
  intros [[<- <-]|[_ [<- <-]%lookup_singleton_Some]]; [by exists (Fixed 2)|by exists Disabled].
Defined.

Lemma two_run : rtc (gossip demo_stamp) two_start two_end.
Proof.
  apply rtc_once. apply (gossip_local demo_stamp two_start 1 demo_start (CallAdd "a" 100));
    vm_compute; reflexivity.
Defined.

Lemma gossip_keys_unique_witness :
  coherent (ops (se_log demo_added) ++ ops (se_log receiver)).
Proof.
  apply (gossip_keys_unique demo_stamp two_start two_end two_initial two_run) with (i := 1%N) (j := 2%N);
    vm_compute; reflexivity.
Defined.

Lemma gossip_converges_witness :
  contains (view (se_log (merge demo_stamp demo_added receiver))) "a"
  = contains (view (se_log (merge demo_stamp receiver demo_added))) "a".
Proof.
  destruct (gossip_converges demo_stamp two_start two_end 1 2 demo_added receiver two_initial two_run) as (_ & H & _);
    [vm_compute; reflexivity..|exact (H "a"%string)].
Defined.

(** The first replica removes "a", takes over "b" and then compacts by itself, which
    drops the removal from its log; the second, merging that log, still shows "a". *)
Definition other : SyncEngine string := run_call demo_stamp receiver (CallAdd "a" 200).
Definition remover : SyncEngine string := run_call demo_stamp (merge demo_stamp demo_start other) (CallRemove "a").
Definition other_b : SyncEngine string := run_call demo_stamp other (CallAdd "b" 201).
Example sequential_merge_diverges :
  contains (view (se_log (merge demo_stamp remover other_b))) "a" = false /\
  contains (view (se_log (merge demo_stamp other_b (merge demo_stamp remover other_b)))) "a" = true.
Proof. vm_compute. split; reflexivity. Qed.
End Demo.
