(* ===== verification/PersistentSyncEngine.v ===== *)
(** * The persistent sync engine ([sync_engine/src/persist.rs])

    A [SyncEngine] mirrored, scope by scope, into a SQLite table of sealed
    operations and a metadata row.  The tables are finite maps keyed by the
    schema's primary keys; a transaction works on a copy that replaces the
    database on COMMIT and is dropped on ROLLBACK; the outcomes SQLite and the
    random nonces give are an argument of every operation. *)

From stdpp Require Import sorting.
From S2P Require Import Prelude AddWinsSet OpLog SyncEngine.

Section Persist.
Context {T : Type} {EqT : EqDecision T} {CountT : Countable T} {HO : HashOrder}.
Context {Key Nonce Bytes : Type} {AE : Aead Key Nonce Bytes} {SO : Serde Bytes (SyncOp T)}.

(** One row of [sync_ops], less its primary key. *)
Record OpRow : Type := mk_row {
  row_created_at : Z;
  row_op_kind : string;
  row_nonce : Nonce;
  row_payload : Bytes
}.

(** The tables of [SCHEMA_SQL] and [PRAGMA user_version]. *)
Record Database : Type := mk_db {
  sync_ops : gmap (uuid * (uuid * N)) OpRow;
  sync_meta : gmap uuid (uuid * N * N);
  user_version : Z
}.

(** A database [SCHEMA_SQL] has just been run on. *)
Definition empty_db : Database := {| sync_ops := ∅; sync_meta := ∅; user_version := 0 |}.
Definition SCHEMA_VERSION : Z := 1.

(** What SQLite and the random generator answer during one call: [BEGIN],
    the [i]-th statement, [COMMIT] (an error message if it fails) and the
    [i]-th nonce. *)
Record Io : Type := mk_io {
  io_begin : option string;
  io_stmt : nat -> option string;
  io_commit : option string;
  io_nonce : nat -> Nonce
}.

(** [struct PersistentSyncEngine<T>]. *)
Record PersistentSyncEngine : Type := mk_persistent {
  ps_engine : SyncEngine T;
  ps_conn : Database;
  ps_scope : uuid;
  ps_scope_key : Key;
  ps_persisted_len : nat
}.

Definition with_engine (p : PersistentSyncEngine) (e : SyncEngine T) : PersistentSyncEngine :=
  {| ps_engine := e; ps_conn := ps_conn p; ps_scope := ps_scope p;
     ps_scope_key := ps_scope_key p; ps_persisted_len := ps_persisted_len p |}.
Definition with_conn (p : PersistentSyncEngine) (db : Database) (n : nat) : PersistentSyncEngine :=
  {| ps_engine := ps_engine p; ps_conn := db; ps_scope := ps_scope p;
     ps_scope_key := ps_scope_key p; ps_persisted_len := n |}.

(** ** Rows *)

(** [op_aad]. *)
Definition op_aad (scope replica : uuid) (seq : N) : list N :=
  string_bytes "sync_op:v1:" ++ be_bytes 16 scope ++ be_bytes 16 replica ++ le_bytes 8 seq.

(** [op_kind_tag]. *)
Definition op_kind_tag (op : SyncOpKind T) : string :=
  match op with
  | Add _ _ => "add"
  | Remove _ _ => "remove"
  | Supersede _ _ _ => "supersede"
  end.

(** [i64::try_from(n)] with the message of its [map_err]. *)
Definition i64_try_from (n : N) (msg : string) : result N SyncError :=
  if (n <=? i64_max)%N then Ok n else Err (Serialisation msg).

(** [conn.execute] of the [i]-th statement. *)
Definition execute (io : Io) (i : nat) (db : Database) : result Database SyncError :=
  match io_stmt io i with Some msg => Err (Sqlite msg) | None => Ok db end.

(** [insert_op_row] as the [i]-th statement. *)
Definition insert_op_row (io : Io) (i : nat) (scope : uuid) (k : Key) (db : Database)
    (op : SyncOp T) : result Database SyncError :=
  match to_vec op with
  | None => Err (Serialisation "could not serialise sync op for persistence")
  | Some payload =>
      let nonce := io_nonce io i in
      match encrypt_aead k nonce payload (op_aad scope (op_replica_id op) (op_seq op)) with
      | None => Err (Crypto "aead")
      | Some ct =>
          let? seq := i64_try_from (op_seq op) "op seq exceeds SQLite signed 64-bit range" in
          let? db := execute io i db in
          Ok {| sync_ops := <[(scope, (op_replica_id op, seq)) :=
                   {| row_created_at := op_created_at op / 1000000000;
                      row_op_kind := op_kind_tag (op_kind op);
                      row_nonce := nonce; row_payload := ct |}]> (sync_ops db);
                sync_meta := sync_meta db; user_version := user_version db |}
      end
  end.

(** [for op in ops { self.insert_op_row(op)? }], from statement [i] on. *)
Fixpoint insert_op_rows (io : Io) (i : nat) (scope : uuid) (k : Key) (db : Database)
    (l : list (SyncOp T)) : result Database SyncError :=
  match l with
  | [] => Ok db
  | op :: l => let? db := insert_op_row io i scope k db op in insert_op_rows io (S i) scope k db l
  end.

(** [upsert_meta_inner] as the [i]-th statement. *)
Definition upsert_meta_inner (io : Io) (i : nat) (p : PersistentSyncEngine) (db : Database) :
    result Database SyncError :=
  let log := se_log (ps_engine p) in
  let? c := i64_try_from (clock log) "sync clock exceeds SQLite signed 64-bit range" in
  let? ep := i64_try_from (compaction_epoch log) "compaction_epoch exceeds SQLite signed 64-bit range" in
  let? db := execute io i db in
  Ok {| sync_ops := sync_ops db;
        sync_meta := <[ps_scope p := (se_replica_id (ps_engine p), c, ep)]> (sync_meta db);
        user_version := user_version db |}.

(** ** Transactions *)

(** [BEGIN IMMEDIATE], a body, then COMMIT or ROLLBACK; [done_len] is the
    [persisted_len] a commit sets. *)
Definition transaction (io : Io) (body : Database -> result Database SyncError) (done_len : nat) :
    eff PersistentSyncEngine SyncError unit := fun p =>
  match io_begin io with
  | Some msg => (p, Err (Sqlite msg))
  | None =>
      match body (ps_conn p) with
      | Err err => (p, Err err)
      | Ok db =>
          match io_commit io with
          | Some msg => (p, Err (Sqlite msg))
          | None => (with_conn p db done_len, Ok tt)
          end
      end
  end.

(** [rewrite_all]. *)
Definition rewrite_all (io : Io) : eff PersistentSyncEngine SyncError unit := fun p =>
  let log := se_log (ps_engine p) in
  transaction io
    (fun db =>
       let? db := execute io 0 db in
       let db := {| sync_ops := base.filter (fun kr => kr.1.1 ≠ ps_scope p) (sync_ops db);
                    sync_meta := sync_meta db; user_version := user_version db |} in
       let? db := insert_op_rows io 1 (ps_scope p) (ps_scope_key p) db (ops log) in
       upsert_meta_inner io (S (length (ops log))) p db)
    (length (ops log)) p.

(** [flush_appended]. *)
Definition flush_appended (io : Io) : eff PersistentSyncEngine SyncError unit := fun p =>
  let target_len := length (ops (se_log (ps_engine p))) in
  if (target_len <? ps_persisted_len p)%nat then rewrite_all io p
  else
    let appended := drop (ps_persisted_len p) (take target_len (ops (se_log (ps_engine p)))) in
    transaction io
      (fun db =>
         let? db := insert_op_rows io 0 (ps_scope p) (ps_scope_key p) db appended in
         upsert_meta_inner io (length appended) p db)
      target_len p.

(** ** The public operations *)

(** [engine_mut]: what the caller does to the engine is [f]. *)
Definition engine_mut (f : SyncEngine T -> SyncEngine T) (p : PersistentSyncEngine) :
    PersistentSyncEngine :=
  with_engine p (f (ps_engine p)).

(** [add]. *)
Definition add (stamp : N -> instant) (io : Io) (value : T) (tag : uuid) :
    eff PersistentSyncEngine SyncError uuid := fun p =>
  let '(e, tag) := SyncEngine.add stamp (ps_engine p) value tag in
  match flush_appended io (with_engine p e) with
  | (p', Ok _) => (p', Ok tag)
  | (p', Err err) => (p', Err err)
  end.

(** [remove]. *)
Definition remove (stamp : N -> instant) (io : Io) (value : T) :
    eff PersistentSyncEngine SyncError unit := fun p =>
  let before := length (ops (se_log (ps_engine p))) in
  let p' := with_engine p (SyncEngine.remove stamp (ps_engine p) value) in
  if (length (ops (se_log (ps_engine p'))) =? before)%nat then (p', Ok tt)
  else flush_appended io p'.

(** [supersede]. *)
Definition supersede (stamp : N -> instant) (io : Io) (value successor : T) :
    eff PersistentSyncEngine SyncError unit := fun p =>
  let before := length (ops (se_log (ps_engine p))) in
  let p' := with_engine p (SyncEngine.supersede stamp (ps_engine p) value successor) in
  if (length (ops (se_log (ps_engine p'))) =? before)%nat then (p', Ok tt)
  else flush_appended io p'.

(** [merge]. *)
Definition merge (stamp : N -> instant) (io : Io) (other : SyncEngine T) :
    eff PersistentSyncEngine SyncError unit := fun p =>
  flush_appended io (with_engine p (SyncEngine.merge stamp (ps_engine p) other)).

(** [compact]. *)
Definition compact (stamp : N -> instant) (io : Io) : eff PersistentSyncEngine SyncError nat :=
  fun p =>
  match SyncEngine.compact stamp (ps_engine p) with
  | (e, Err err) => (with_engine p e, Err err)
  | (e, Ok removed) =>
      match rewrite_all io (with_engine p e) with
      | (p', Ok _) => (p', Ok removed)
      | (p', Err err) => (p', Err err)
      end
  end.

(** [save]. *)
Definition save (io : Io) : eff PersistentSyncEngine SyncError unit := rewrite_all io.

(** [persisted_len]: the count query over the scope's rows. *)
Definition persisted_len (p : PersistentSyncEngine) : nat :=
  size (base.filter (fun kr => kr.1.1 = ps_scope p) (sync_ops (ps_conn p))).

(** ** Opening *)

(** [ORDER BY replica_id ASC, seq ASC]. *)
Definition row_le (a b : (uuid * (uuid * N)) * OpRow) : Prop :=
  (a.1.2.1 < b.1.2.1)%N \/ (a.1.2.1 = b.1.2.1 /\ (a.1.2.2 <= b.1.2.2)%N).
#[export] Instance row_le_dec : RelDecision row_le.
Proof. intros a b. unfold row_le. apply _. Defined.

(** The [SELECT] of [load]. *)
Definition select_rows (db : Database) (scope : uuid) : list ((uuid * (uuid * N)) * OpRow) :=
  merge_sort row_le (map_to_list (base.filter (fun kr => kr.1.1 = scope) (sync_ops db))).

(** Decrypting and deserialising one row. *)
Definition open_row (scope : uuid) (k : Key) (row : (uuid * (uuid * N)) * OpRow) :
    result (SyncOp T) SyncError :=
  let '((_, (replica, seq)), r) := row in
  match decrypt_aead k (row_nonce r) (row_payload r) (op_aad scope replica seq) with
  | None => Err (Crypto "aead")
  | Some pt => ok_or (from_slice pt) (Serialisation "persisted sync op did not deserialise")
  end.

(** The loop of [load] over the raw rows. *)
Fixpoint load_rows (scope : uuid) (k : Key) (log : OpLog T)
    (rows : list ((uuid * (uuid * N)) * OpRow)) : result (OpLog T) SyncError :=
  match rows with
  | [] => Ok log
  | row :: rows =>
      let? op := open_row scope k row in
      load_rows scope k (merge_single log op).1 rows
  end.

(** [load]. *)
Definition load : eff PersistentSyncEngine SyncError unit := fun p =>
  let replica := se_replica_id (ps_engine p) in
  match load_rows (ps_scope p) (ps_scope_key p) (OpLog.new replica)
          (select_rows (ps_conn p) (ps_scope p)) with
  | Err err => (p, Err err)
  | Ok log =>
      let log := match sync_meta (ps_conn p) !! ps_scope p with
                 | Some (_, c, ep) =>
                     {| replica_id := replica_id log; clock := N.max (clock log) c;
                        compaction_epoch := N.max (compaction_epoch log) ep;
                        ops := ops log; seen := seen log |}
                 | None => log
                 end in
      let e := from_log replica log in
      ({| ps_engine := e; ps_conn := ps_conn p; ps_scope := ps_scope p;
          ps_scope_key := ps_scope_key p; ps_persisted_len := length (ops (se_log e)) |}, Ok tt)
  end.

(** [PersistentSyncEngine::open] on an unlocked database, with the scope key
    the key derivation returned. *)
Definition open (db : Database) (scope replica : uuid) (scope_key : result Key SyncError) :
    result PersistentSyncEngine SyncError :=
  if negb (user_version db =? 0)%Z && negb (user_version db =? SCHEMA_VERSION)%Z then
    Err (Persistence "schema version mismatch — refusing to open")
  else
    let db := {| sync_ops := sync_ops db; sync_meta := sync_meta db;
                 user_version := SCHEMA_VERSION |} in
    let? k := scope_key in
    let wrapper := {| ps_engine := from_log replica (OpLog.new replica); ps_conn := db;
                      ps_scope := scope; ps_scope_key := k; ps_persisted_len := 0 |} in
    match load wrapper with
    | (p, Ok _) => Ok p
    | (_, Err err) => Err err
    end.

(** ** Specification *)

(** The rows of [scope] are exactly the operations [l], each opening to its
    operation. *)
Definition mirrors (db : Database) (scope : uuid) (k : Key) (l : list (SyncOp T)) : Prop :=
  (forall r s row, sync_ops db !! (scope, (r, s)) = Some row ->
     exists op, op ∈ l /\ key op = (r, s) /\ open_row scope k ((scope, (r, s)), row) = Ok op) /\
  (forall op, op ∈ l -> exists row, sync_ops db !! (scope, key op) = Some row).

(** Disk and memory agree. *)
Definition in_sync (p : PersistentSyncEngine) : Prop :=
  let log := se_log (ps_engine p) in
  mirrors (ps_conn p) (ps_scope p) (ps_scope_key p) (ops log) /\
  sync_meta (ps_conn p) !! ps_scope p
    = Some (se_replica_id (ps_engine p), clock log, compaction_epoch log) /\
  ps_persisted_len p = length (ops log).

(** The disk holds the first [persisted_len] operations of the log. *)
Definition prefix_on_disk (p : PersistentSyncEngine) : Prop :=
  mirrors (ps_conn p) (ps_scope p) (ps_scope_key p)
    (take (ps_persisted_len p) (ops (se_log (ps_engine p)))) /\
  (ps_persisted_len p <= length (ops (se_log (ps_engine p))))%nat.

(** The operation codec round-trips every operation of a list. *)
Definition codec_ok (l : list (SyncOp T)) : Prop :=
  forall op, op ∈ l -> serde_roundtrips (Bytes := Bytes) op.

End Persist.
Arguments Io Nonce : clear implicits.
Arguments Database Nonce Bytes : clear implicits.

Section PersistFacts.
Context {T : Type} {EqT : EqDecision T} {CountT : Countable T} {HO : HashOrder}.
Context {Key Nonce Bytes : Type} {AE : Aead Key Nonce Bytes} {SO : Serde Bytes (SyncOp T)}.
Implicit Types (p : PersistentSyncEngine (T := T) (Key := Key) (Nonce := Nonce) (Bytes := Bytes))
  (io : Io Nonce) (db : Database Nonce Bytes) (l : list (SyncOp T)) (k : Key) (scope : uuid).

(** ** Writing rows *)

Lemma insert_op_row_ok io i scope k db op db' :
  insert_op_row io i scope k db op = Ok db' -> serde_roundtrips (Bytes := Bytes) op ->
  exists row, sync_ops db' = <[(scope, key op) := row]> (sync_ops db)
    /\ sync_meta db' = sync_meta db /\ user_version db' = user_version db
    /\ open_row scope k ((scope, key op), row) = Ok op.
Proof.
  unfold insert_op_row, i64_try_from, execute. intros Hi Hrt.
  destruct (to_vec op) as [pt|] eqn:Ev; [|done].
  destruct (encrypt_aead _ _ _ _) as [ct|] eqn:Ee; [|done].
  destruct (_ <=? _)%N; [|done]. destruct (io_stmt io i); [done|].
  injection Hi as <-. eexists. split_and!; [done..|].
  cbn [open_row key row_nonce row_payload].
  rewrite (decrypt_encrypt _ _ _ _ _ Ee). by rewrite (Hrt _ Ev).
Qed.

Lemma insert_op_rows_ok io i scope k db l db' :
  insert_op_rows io i scope k db l = Ok db' ->
  (forall op, op ∈ l -> serde_roundtrips (Bytes := Bytes) op) -> NoDup (key <$> l) ->
  sync_meta db' = sync_meta db /\ user_version db' = user_version db /\
  (forall sc kk, (sc = scope -> kk ∉ key <$> l) -> sync_ops db' !! (sc, kk) = sync_ops db !! (sc, kk)) /\
  (forall op, op ∈ l -> exists row, sync_ops db' !! (scope, key op) = Some row
     /\ open_row scope k ((scope, key op), row) = Ok op).
Proof.
  revert i db. induction l as [|o l IH]; intros i db Hi Hrt Hnd; cbn [insert_op_rows] in Hi.
  { injection Hi as <-. split_and!; [done..|]. intros op Hop. set_solver. }
  unfold try_result in Hi. destruct (insert_op_row io i scope k db o) as [db1|] eqn:E; [|done].
  apply insert_op_row_ok in E as (row & Hops & Hmeta & Hver & Hopen); [|set_solver].
  rewrite fmap_cons in Hnd. apply NoDup_cons in Hnd as [Hk Hnd].
  destruct (IH (S i) db1 Hi) as (Hm & Hv & Hother & Hrows); [set_solver|done|].
  split_and!; [congruence|congruence| |].
  - intros sc kk Hkk. rewrite Hother by set_solver. rewrite Hops.
    rewrite lookup_insert_ne; [done|]. intros [= <- <-]. set_solver.
  - intros op [->|Hop]%elem_of_cons; [|by apply Hrows].
    exists row. split; [|done]. rewrite Hother by (intros _; done). by rewrite Hops, lookup_insert_eq.
Qed.

Lemma mirrors_extend io i db db' scope k l1 l2 :
  mirrors db scope k l1 -> NoDup (key <$> (l1 ++ l2)) ->
  insert_op_rows io i scope k db l2 = Ok db' ->
  (forall op, op ∈ l2 -> serde_roundtrips (Bytes := Bytes) op) -> mirrors db' scope k (l1 ++ l2).
Proof.
  intros [Hm1 Hm2] Hnd Hi Hrt. rewrite fmap_app in Hnd.
  apply NoDup_app in Hnd as (Hnd1 & Hdisj & Hnd2).
  destruct (insert_op_rows_ok _ _ _ _ _ _ _ Hi Hrt Hnd2) as (_ & _ & Hother & Hrows). split.
  - intros r s row Hrow. destruct (decide ((r, s) ∈ key <$> l2)) as [Hin|Hin].
    + apply list_elem_of_fmap in Hin as (op & Hk & Hop). exists op.
      destruct (Hrows op Hop) as (row' & Hrow' & Hopen). rewrite <- Hk in Hrow'.
      assert (row' = row) as -> by congruence. rewrite <- Hk in Hopen. split_and!; set_solver.
    + rewrite Hother in Hrow by done. destruct (Hm1 r s row Hrow) as (op & ? & ? & ?).
      exists op. set_solver.
  - intros op [Hop|Hop]%elem_of_app.
    + rewrite Hother; [by apply Hm2|]. intros _ Hin. apply (Hdisj (key op)); [|done].
      apply list_elem_of_fmap. eauto.
    + destruct (Hrows op Hop) as (row & ? & _). eauto.
Qed.

Lemma mirrors_empty db scope k :
  mirrors {| sync_ops := base.filter (fun kr => kr.1.1 ≠ scope) (sync_ops db);
             sync_meta := sync_meta db; user_version := user_version db |} scope k [].
Proof.
  split; [|intros op Hop; set_solver]. intros r s row Hrow. cbn in Hrow.
  apply map_lookup_filter_Some in Hrow as [_ H]. done.
Qed.

Lemma upsert_meta_ok io i p db db' :
  upsert_meta_inner io i p db = Ok db' ->
  sync_ops db' = sync_ops db /\
  sync_meta db' !! ps_scope p = Some (se_replica_id (ps_engine p),
    clock (se_log (ps_engine p)), compaction_epoch (se_log (ps_engine p))).
Proof.
  unfold upsert_meta_inner, try_result, i64_try_from, execute.
  intros H. repeat (case_match; try done). simplify_eq/=. by rewrite lookup_insert_eq.
Qed.

Lemma mirrors_ops db db' scope k l :
  sync_ops db = sync_ops db' -> mirrors db scope k l -> mirrors db' scope k l.
Proof. intros He [H1 H2]. split; by rewrite <- He. Qed.

(** ** Transactions *)

Lemma transaction_cases io body n p :
  (exists err, transaction io body n p = (p, Err err)) \/
  (exists db, body (ps_conn p) = Ok db /\ transaction io body n p = (with_conn p db n, Ok tt)).
Proof.
  unfold transaction. destruct (io_begin io); [by left; eauto|].
  destruct (body (ps_conn p)) as [db|err] eqn:E; [|by left; eauto].
  destruct (io_commit io); [by left; eauto|]. right. eauto.
Qed.

Lemma rewrite_all_spec io p p' r :
  rewrite_all io p = (p', r) -> NoDup (key <$> ops (se_log (ps_engine p))) ->
  codec_ok (Bytes := Bytes) (ops (se_log (ps_engine p))) ->
  (r = Ok tt /\ in_sync p' /\ ps_engine p' = ps_engine p /\ ps_scope p' = ps_scope p
     /\ ps_scope_key p' = ps_scope_key p)
  \/ (is_ok r = false /\ p' = p).
Proof.
  unfold rewrite_all. intros Hr Hnd Hc.
  match type of Hr with transaction _ ?body ?n _ = _ =>
    destruct (transaction_cases io body n p) as [[err He]|(db & Hb & He)]
  end; rewrite He in Hr; simplify_eq; [by right|left].
  unfold try_result in Hb. destruct (execute io 0 (ps_conn p)) as [db0|] eqn:E0; [|done].
  destruct (insert_op_rows _ _ _ _ _ _) as [db1|] eqn:E1; [|done].
  apply upsert_meta_ok in Hb as [Hops Hmeta].
  pose proof (mirrors_extend _ _ _ _ _ _ [] _ (mirrors_empty db0 _ _) Hnd E1 Hc) as Hm.
  split_and!; [done| |done..]. split_and!; [|done|done].
  by eapply mirrors_ops.
Qed.

Lemma flush_appended_spec io p p' r :
  flush_appended io p = (p', r) -> prefix_on_disk p ->
  NoDup (key <$> ops (se_log (ps_engine p))) ->
  codec_ok (Bytes := Bytes) (ops (se_log (ps_engine p))) ->
  (r = Ok tt /\ in_sync p' /\ ps_engine p' = ps_engine p /\ ps_scope p' = ps_scope p
     /\ ps_scope_key p' = ps_scope_key p)
  \/ (is_ok r = false /\ p' = p).
Proof.
  unfold flush_appended. intros Hr [Hpre Hle] Hnd Hc.
  assert ((length (ops (se_log (ps_engine p))) <? ps_persisted_len p)%nat = false) as Hlt
    by (apply Nat.ltb_ge; lia).
  rewrite Hlt, take_ge in Hr by done.
  match type of Hr with transaction _ ?body ?n _ = _ =>
    destruct (transaction_cases io body n p) as [[err He]|(db & Hb & He)]
  end; rewrite He in Hr; simplify_eq; [by right|left].
  unfold try_result in Hb. destruct (insert_op_rows _ _ _ _ _ _) as [db1|] eqn:E1; [|done].
  apply upsert_meta_ok in Hb as [Hops Hmeta].
  rewrite <- (take_drop (ps_persisted_len p) (ops (se_log (ps_engine p)))) in Hnd.
  assert (Hm := mirrors_extend _ _ _ _ _ _ _ _ Hpre Hnd E1).
  rewrite take_drop in Hm. split_and!; [done| |done..]. split_and!; [|done|done].
  eapply mirrors_ops; [symmetry; exact Hops|]. apply Hm. intros op Hop. apply Hc.
  eapply elem_of_sublist; [exact Hop|apply sublist_drop].
Qed.

Lemma in_sync_prefix p : in_sync p -> prefix_on_disk p.
Proof. intros (Hm & _ & Hl). unfold prefix_on_disk. rewrite Hl, take_ge by done. by split. Qed.

(** ** Loading *)

Lemma elem_of_select_rows db scope x :
  x ∈ select_rows db scope <-> sync_ops db !! x.1 = Some x.2 /\ x.1.1 = scope.
Proof.
  unfold select_rows. rewrite merge_sort_Permutation. destruct x as [kk row].
  rewrite elem_of_map_to_list, map_lookup_filter_Some. done.
Qed.

Lemma NoDup_select_rows db scope : NoDup ((select_rows db scope).*1).
Proof.
  unfold select_rows. rewrite merge_sort_Permutation. apply NoDup_fst_map_to_list.
Qed.

(** The raw rows all open, to the mirrored operations in some order. *)
Lemma open_rows db scope k l :
  mirrors db scope k l -> NoDup (key <$> l) ->
  exists opened, Forall2 (fun row op => open_row scope k row = Ok op) (select_rows db scope) opened
    /\ opened ≡ₚ l.
Proof.
  intros [Hm1 Hm2] Hnd.
  assert (Hopen : forall x, x ∈ select_rows db scope ->
            exists op, op ∈ l /\ x.1 = (scope, key op) /\ open_row scope k x = Ok op).
  { intros [[sc [r s]] row] [Hx Hs]%elem_of_select_rows. simpl in *. subst.
    destruct (Hm1 r s row Hx) as (op & Hop & Hk & Ho). exists op. by rewrite Hk. }
  assert (Hex : forall rows, (forall x, x ∈ rows -> x ∈ select_rows db scope) -> NoDup (rows.*1) ->
    exists opened, Forall2 (fun row op => open_row scope k row = Ok op) rows opened
      /\ rows.*1 = (fun o => (scope, key o)) <$> opened /\ NoDup opened
      /\ forall o, o ∈ opened -> o ∈ l).
  { induction rows as [|x rows IH]; intros Hsub Hn.
    { exists []. split_and!; [constructor|done|constructor|set_solver]. }
    rewrite fmap_cons in Hn. apply NoDup_cons in Hn as [Hx Hn].
    destruct IH as (opened & HF & Hk & Hno & Hol); [set_solver|done|].
    destruct (Hopen x) as (op & Hop & Hkey & Ho); [set_solver|].
    exists (op :: opened). split_and!; [by constructor|by rewrite !fmap_cons, Hkey, Hk| |set_solver].
    constructor; [|done]. intros Hin. apply Hx. rewrite Hk, Hkey. apply list_elem_of_fmap. eauto. }
  destruct (Hex (select_rows db scope)) as (opened & HF & Hk & Hno & Hol); [done|apply NoDup_select_rows|].
  exists opened. split; [done|].
  apply NoDup_Permutation; [done|by eapply NoDup_fmap_1|]. intros o. split; [apply Hol|].
  intros Ho. destruct (Hm2 o Ho) as [row Hrow].
  assert (Hin : (scope, key o) ∈ (select_rows db scope).*1).
  { apply list_elem_of_fmap. exists ((scope, key o), row). by rewrite elem_of_select_rows. }
  rewrite Hk in Hin. apply list_elem_of_fmap in Hin as (o' & [= Hk' Hs'] & Ho').
  rewrite (NoDup_keys_coherent l Hnd o o'); auto. unfold key. congruence.
Qed.

Lemma load_rows_ok scope k log rows opened :
  Forall2 (fun row op => open_row scope k row = Ok op) rows opened ->
  load_rows scope k log rows = Ok (foldl merge_entry log opened).
Proof.
  intros HF. revert log. induction HF as [|row op rows opened Hop _ IH]; intros log; [done|].
  cbn [load_rows foldl]. rewrite Hop. cbn [try_result]. by rewrite IH, merge_entry_single.
Qed.

Lemma foldl_merge_entry_clock (log : OpLog T) l c :
  (clock log <= c)%N ->
  (forall o, o ∈ l -> op_replica_id o = replica_id log -> (op_seq o <= c)%N) ->
  (clock (foldl merge_entry log l) <= c)%N.
Proof.
  revert log. induction l as [|o l IH]; intros log Hc Hl; simpl; [done|].
  apply IH.
  - unfold merge_entry. case_match; [|done]. cbn [clock].
    destruct (N.eqb_spec (op_replica_id o) (replica_id log)) as [He|]; [|done].
    specialize (Hl o). assert (op_seq o <= c)%N by (apply Hl; set_solver). lia.
  - intros o' Ho'. rewrite merge_entry_replica. apply Hl. set_solver.
Qed.

(** ** The claims *)

(** The mutating calls of the wrapper. *)
Definition persistent_call stamp io (c : engine_call T) p :
    PersistentSyncEngine * result unit SyncError :=
  match c with
  | CallAdd v tag =>
      match add stamp io v tag p with (p', r) => (p', result_map (fun _ => tt) r) end
  | CallRemove v => remove stamp io v p
  | CallSupersede v s => supersede stamp io v s p
  | CallMerge other => merge stamp io other p
  | CallCompact =>
      match compact stamp io p with (p', r) => (p', result_map (fun _ => tt) r) end
  | _ => save io p
  end.

(** The engine after the call. *)
Definition call_engine stamp (c : engine_call T) p : SyncEngine T :=
  match c with
  | CallDelta _ | CallState => ps_engine p
  | c => run_call stamp (ps_engine p) c
  end.

Lemma run_call_prefix stamp (e : SyncEngine T) c :
  engine_wf e -> se_policy e = Disabled -> c <> CallCompact ->
  exists s, ops (se_log (run_call stamp e c)) = ops (se_log e) ++ s.
Proof.
  intros Hwf Hpol Hc.
  assert (Hidle : forall x : SyncEngine T, se_policy x = Disabled -> maybe_auto_compact stamp x = x).
  { intros x Hx. unfold maybe_auto_compact, should_compact. by rewrite Hx. }
  destruct (call_shape_complete stamp e c Hwf)
    as [c e' Hl _ _ _ _|c op e2 [[now Hl] _ Hp _ _]|c log' e2 l ep [Hl _ Hp _ _] Hlog _|].
  - exists []. by rewrite Hl, (right_id_L [] (++)).
  - rewrite Hidle by congruence. rewrite Hl. cbn. eauto.
  - rewrite Hidle by congruence. rewrite Hl, Hlog, ops_merge.
    destruct (foldl_merge_entry_spec (se_log e) l (ew_log _ Hwf)) as (s & Hs & _). eauto.
  - done.
Qed.

(** What a call reports: agreement, or an error that left the database alone. *)
Definition call_outcome p (e : SyncEngine T) p' (r : result unit SyncError) (strict : Prop) : Prop :=
  (r = Ok tt /\ in_sync p' /\ ps_engine p' = e)
  \/ (is_ok r = false /\ ps_conn p' = ps_conn p /\ ps_engine p' = e /\ (strict -> prefix_on_disk p')).

Lemma flush_call io p (e : SyncEngine T) s p' r strict :
  in_sync p -> engine_wf e -> ops (se_log e) = ops (se_log (ps_engine p)) ++ s ->
  codec_ok (Bytes := Bytes) (ops (se_log e)) ->
  flush_appended io (with_engine p e) = (p', r) -> call_outcome p e p' r strict.
Proof.
  intros (Hm & _ & Hlen) Hwf Hops Hcodec Hf.
  assert (Hpre : prefix_on_disk (with_engine p e)).
  { unfold prefix_on_disk. cbn [ps_persisted_len ps_engine with_engine ps_conn ps_scope ps_scope_key].
    rewrite Hops, Hlen, take_app_length, length_app. split; [done|lia]. }
  apply flush_appended_spec in Hf as [(-> & Hs & He & _)|[Hr ->]]; [by left| |done|apply (wf_keys _ (ew_log _ Hwf))|done].
  right. by split_and!.
Qed.

Lemma rewrite_call io p (e : SyncEngine T) p' r (strict : Prop) :
  (strict -> False) -> engine_wf e -> codec_ok (Bytes := Bytes) (ops (se_log e)) ->
  rewrite_all io (with_engine p e) = (p', r) -> call_outcome p e p' r strict.
Proof.
  intros Hst Hwf Hcodec Hf.
  apply rewrite_all_spec in Hf as [(-> & Hs & He & _)|[Hr ->]];
    [by left| |apply (wf_keys _ (ew_log _ Hwf))|done].
  right. split_and!; [done..|]. intros H. by apply Hst in H.
Qed.

Lemma run_call_appends stamp (e : SyncEngine T) c :
  engine_wf e -> se_policy e = Disabled -> c <> CallCompact ->
  length (ops (se_log (run_call stamp e c))) = length (ops (se_log e)) ->
  match c with CallRemove _ | CallSupersede _ _ => True | _ => False end ->
  se_log (run_call stamp e c) = se_log e.
Proof.
  intros Hwf Hpol Hc Hlen Hm.
  assert (Hidle : forall x : SyncEngine T, se_policy x = Disabled -> maybe_auto_compact stamp x = x).
  { intros x Hx. unfold maybe_auto_compact, should_compact. by rewrite Hx. }
  assert (Happ : forall e2 op, appended e e2 op -> length (ops (se_log (maybe_auto_compact stamp e2)))
                   <> length (ops (se_log e))).
  { intros e2 op [[now Hl] _ Hp _ _]. rewrite Hidle by congruence. rewrite Hl. cbn.
    rewrite length_app. cbn. lia. }
  destruct c as [|v|v s| | | |]; try done; unfold run_call in *.
  - destruct (remove_appended stamp e v Hwf)
      as (e1 & _ & Hlog & _ & _ & _ & _ & _ & [[_ He]|(_ & e2 & He & Hap)]); rewrite He in *; [done|].
    by destruct (Happ _ _ Hap).
  - destruct (supersede_appended stamp e v s Hwf) as (e1 & e2 & _ & _ & He & Hap).
    rewrite He in Hlen. by destruct (Happ _ _ Hap).
Qed.

(** An engine with the same log is as much in sync. *)
Lemma in_sync_same_log p (e : SyncEngine T) :
  in_sync p -> engine_wf (ps_engine p) -> engine_wf e -> se_log e = se_log (ps_engine p) ->
  in_sync (with_engine p e).
Proof.
  intros (Hm & Hmeta & Hl) Hwf Hwf' Hlog. unfold in_sync.
  cbn [ps_persisted_len ps_engine with_engine ps_conn ps_scope ps_scope_key].
  rewrite Hlog, <- (ew_replica _ Hwf'), Hlog, (ew_replica _ Hwf). done.
Qed.

Lemma save_call io p p' r strict :
  in_sync p -> engine_wf (ps_engine p) -> codec_ok (Bytes := Bytes) (ops (se_log (ps_engine p))) ->
  save io p = (p', r) -> call_outcome p (ps_engine p) p' r strict.
Proof.
  intros Hsync Hwf Hcodec Hs. apply rewrite_all_spec in Hs
    as [(-> & Hs & He' & _)|[Hr ->]]; [by left| |apply (wf_keys _ (ew_log _ Hwf))|done].
  right. split_and!; [done..|]. intros _. by apply in_sync_prefix.
Qed.

(** C11: while automatic compaction is off, the disk never lies.  Starting with
    disk and memory in agreement, any mutating call either succeeds and leaves
    them in agreement again (every operation of the log sealed under its key,
    every row opening to it, the metadata current), or reports an error and
    leaves the database untouched, holding a prefix of the log that the next
    successful write completes. *)
Theorem persistent_call_in_sync stamp io (c : engine_call T) p :
  engine_wf (ps_engine p) -> se_policy (ps_engine p) = Disabled -> in_sync p ->
  (clock (se_log (call_engine stamp c p)) < u64_max)%N ->
  codec_ok (Bytes := Bytes) (ops (se_log (call_engine stamp c p))) ->
  forall p' r, persistent_call stamp io c p = (p', r) ->
  (r = Ok tt /\ in_sync p' /\ ps_engine p' = call_engine stamp c p)
  \/ (is_ok r = false /\ ps_conn p' = ps_conn p /\ ps_engine p' = call_engine stamp c p
      /\ (c <> CallCompact -> prefix_on_disk p')).
Proof.
  intros Hwf Hpol Hsync Hroom Hcodec p' r Hcall.
  change (call_outcome p (call_engine stamp c p) p' r (c <> CallCompact)).
  assert (Hwf' : engine_wf (call_engine stamp c p)) by (destruct c; try done; by apply run_call_wf).
  assert (Hext : c <> CallCompact -> exists s, ops (se_log (call_engine stamp c p))
                   = ops (se_log (ps_engine p)) ++ s).
  { intros Hc. destruct c; try (by apply run_call_prefix); exists []; by rewrite (right_id_L [] (++)). }
  assert (Hflush : c <> CallCompact ->
            flush_appended io (with_engine p (call_engine stamp c p)) = (p', r) ->
            call_outcome p (call_engine stamp c p) p' r (c <> CallCompact)).
  { intros Hc Hf. destruct (Hext Hc) as [s Hs]. by eapply flush_call. }
  assert (Hskip : match c with CallRemove _ | CallSupersede _ _ => True | _ => False end ->
            length (ops (se_log (call_engine stamp c p))) = length (ops (se_log (ps_engine p))) ->
            in_sync (with_engine p (call_engine stamp c p))).
  { intros Hc Hlen. apply in_sync_same_log; [done..|]. destruct c; try done; by apply run_call_appends. }
  assert (Hsave : call_engine stamp c p = ps_engine p -> save io p = (p', r) ->
            call_outcome p (call_engine stamp c p) p' r (c <> CallCompact)).
  { intros He Hs. rewrite He in *. by eapply save_call. }
  destruct c as [v t|v|v s|other|env| |]; cbn [persistent_call] in Hcall.
  - unfold add in Hcall. cbn [call_engine run_call] in *.
    destruct (SyncEngine.add stamp (ps_engine p) v t) as [e tag]. cbn [fst] in *.
    destruct (flush_appended io (with_engine p e)) as [q [[]|err]] eqn:Ef; simplify_eq/=;
      by apply Hflush.
  - unfold remove in Hcall. cbn [call_engine run_call ps_engine with_engine] in *.
    destruct (Nat.eqb_spec (length (ops (se_log (SyncEngine.remove stamp (ps_engine p) v))))
                (length (ops (se_log (ps_engine p))))) as [Hlen|Hlen]; [|by apply Hflush].
    simplify_eq. left. split_and!; [done|by apply Hskip|done].
  - unfold supersede in Hcall. cbn [call_engine run_call ps_engine with_engine] in *.
    destruct (Nat.eqb_spec (length (ops (se_log (SyncEngine.supersede stamp (ps_engine p) v s))))
                (length (ops (se_log (ps_engine p))))) as [Hlen|Hlen]; [|by apply Hflush].
    simplify_eq. left. split_and!; [done|by apply Hskip|done].
  - by apply Hflush.
  - by apply Hsave.
  - unfold compact in Hcall. cbn [call_engine run_call] in *.
    assert (Hr : (SyncEngine.compact stamp (ps_engine p)).2
                 = (OpLog.compact stamp (se_log (ps_engine p))).2) by (by rewrite engine_compact_eq).
    rewrite OpLog.compact_eq in Hr. cbn [snd] in Hr.
    destruct (SyncEngine.compact stamp (ps_engine p)) as [e r0]. cbn [fst snd] in *. subst r0.
    destruct (rewrite_all io (with_engine p e)) as [q [[]|err]] eqn:Ef; simplify_eq/=;
      eapply rewrite_call in Ef; try done; by intros [].
  - by apply Hsave.
Qed.
(** The log [load] rebuilds from the opened rows, before the metadata row. *)
Definition reloaded (replica : uuid) (opened : list (SyncOp T)) : OpLog T :=
  foldl merge_entry (OpLog.new replica) opened.

Lemma reloaded_spec (L : OpLog T) opened :
  log_wf L -> opened ≡ₚ ops L ->
  let m := reloaded (replica_id L) opened in
  ops m = opened /\ log_wf m /\ (clock m <= clock L)%N /\ compaction_epoch m = 0%N /\
  replica_id m = replica_id L.
Proof.
  intros HL Hperm. cbn zeta. unfold reloaded. split_and!.
  - rewrite foldl_merge_entry_fresh; [done|apply log_wf_new|]. simpl. rewrite Hperm. apply (wf_keys _ HL).
  - apply log_wf_foldl_merge_entry, log_wf_new.
  - apply foldl_merge_entry_clock; [simpl; lia|]. intros o Ho Hr. apply (wf_clock _ HL).
    + by rewrite <- Hperm.
    + by simpl in Hr.
  - by rewrite foldl_merge_entry_epoch.
  - by rewrite foldl_merge_entry_replica.
Qed.

(** The wrapper [open] builds. *)
Definition opened_wrapper p (m : OpLog T) :
    PersistentSyncEngine (T := T) (Key := Key) (Nonce := Nonce) (Bytes := Bytes) :=
  let L := se_log (ps_engine p) in
  {| ps_engine := from_log (se_replica_id (ps_engine p))
       {| replica_id := replica_id m; clock := N.max (clock m) (clock L);
          compaction_epoch := N.max (compaction_epoch m) (compaction_epoch L);
          ops := ops m; seen := seen m |};
     ps_conn := {| sync_ops := sync_ops (ps_conn p); sync_meta := sync_meta (ps_conn p);
                   user_version := SCHEMA_VERSION |};
     ps_scope := ps_scope p; ps_scope_key := ps_scope_key p; ps_persisted_len := length (ops m) |}.

Lemma open_in_sync p opened :
  in_sync p -> user_version (ps_conn p) = 0%Z \/ user_version (ps_conn p) = SCHEMA_VERSION ->
  Forall2 (fun row op => open_row (ps_scope p) (ps_scope_key p) row = Ok op)
    (select_rows (ps_conn p) (ps_scope p)) opened ->
  open (ps_conn p) (ps_scope p) (se_replica_id (ps_engine p)) (Ok (ps_scope_key p))
  = Ok (opened_wrapper p (reloaded (se_replica_id (ps_engine p)) opened)).
Proof.
  intros (_ & Hmeta & _) Hver HF. unfold open.
  assert (negb (user_version (ps_conn p) =? 0)%Z && negb (user_version (ps_conn p) =? SCHEMA_VERSION)%Z
          = false) as -> by (by destruct Hver as [-> | ->]).
  cbn [try_result]. unfold load. cbn [ps_engine from_log se_replica_id ps_scope ps_scope_key ps_conn].
  change (select_rows _ (ps_scope p)) with (select_rows (ps_conn p) (ps_scope p)).
  rewrite (load_rows_ok _ _ _ _ _ HF). cbn [sync_meta]. by rewrite Hmeta.
Qed.

(** Reopening restores the engine.  From a database that agrees with the
    memory of a well-formed engine, [open] under the same scope and key
    succeeds, in agreement again, with the same operations (in primary-key
    order), the same replica, clock and epoch, and so the same visible set and,
    up to order, the same supersessions. *)
Theorem reopen_roundtrip p :
  engine_wf (ps_engine p) -> in_sync p ->
  user_version (ps_conn p) = 0%Z \/ user_version (ps_conn p) = SCHEMA_VERSION ->
  exists q, open (ps_conn p) (ps_scope p) (se_replica_id (ps_engine p)) (Ok (ps_scope_key p)) = Ok q
    /\ in_sync q /\ engine_wf (ps_engine q)
    /\ se_replica_id (ps_engine q) = se_replica_id (ps_engine p)
    /\ ops (se_log (ps_engine q)) ≡ₚ ops (se_log (ps_engine p))
    /\ clock (se_log (ps_engine q)) = clock (se_log (ps_engine p))
    /\ compaction_epoch (se_log (ps_engine q)) = compaction_epoch (se_log (ps_engine p))
    /\ view (se_log (ps_engine q)) = view (se_log (ps_engine p))
    /\ supersessions (se_log (ps_engine q)) ≡ₚ supersessions (se_log (ps_engine p)).
Proof.
  intros Hwf (Hm & Hmeta & Hlen) Hver.
  set (L := se_log (ps_engine p)) in *.
  pose proof (ew_log _ Hwf : log_wf L) as HL. pose proof (ew_replica _ Hwf : replica_id L = _) as Hrep.
  destruct (open_rows _ _ _ _ Hm (wf_keys _ HL)) as (opened & HF & Hperm).
  destruct (reloaded_spec L opened HL Hperm) as (Hops & Hm_wf & Hm_clock & Hm_ep & Hm_rep).
  rewrite (open_in_sync p opened) by (done || by split_and!).
  rewrite <- Hrep. set (m := reloaded (replica_id L) opened) in *.
  eexists. split; [reflexivity|]. unfold opened_wrapper. fold L.
  cbn [ps_engine ps_conn ps_scope ps_scope_key ps_persisted_len from_log se_log se_replica_id ops clock compaction_epoch].
  rewrite Hm_ep, N.max_r, N.max_r by lia.
  assert (Hkinds : forall op, op ∈ op_kind <$> ops m <-> op ∈ op_kind <$> ops L).
  { intros op. rewrite Hops. by rewrite Hperm. }
  split_and!; try done.
  - unfold in_sync. cbn. split_and!; [|done|done]. destruct Hm as [Hm1 Hm2]. split; cbn.
    + intros r s row Hrow. destruct (Hm1 r s row Hrow) as (op & Hop & Hrest). exists op.
      split; [|done]. by rewrite Hops, Hperm.
    + intros op Hop. apply Hm2. by rewrite <- Hperm, <- Hops.
  - apply engine_wf_from_log; [by rewrite <- Hrep|]. destruct Hm_wf as [H1 H2 H3]. split; [done|done|].
    cbn. intros o Ho Hr. specialize (H3 o Ho Hr). lia.
  - by rewrite Hops.
  - by apply view_ext.
  - rewrite !supersessions_spec. cbn [ops]. by rewrite Hops, Hperm.
Qed.

End PersistFacts.

(** ** A concrete database *)

Section Demo.
#[local] Existing Instance hash_order_id.
#[local] Existing Instance identity_serde.

(** Sealing that adds nothing: enough to run the code on. *)
Definition plain_aead (Bytes : Type) : Aead unit unit Bytes.
Proof.
  refine {| encrypt_aead _ _ pt _ := Some pt; decrypt_aead _ _ ct _ := Some ct |}.
  intros k n pt aad ct H. by symmetry.
Defined.
#[local] Existing Instance plain_aead.

Abbreviation wrapper := (PersistentSyncEngine (T := string) (Key := unit) (Nonce := unit)
                           (Bytes := SyncOp string)).

(** SQLite answering every statement. *)
Definition io_fine : Io unit :=
  {| io_begin := None; io_stmt _ := None; io_commit := None; io_nonce _ := tt |}.

(** A scope opened on an empty database, set to a policy through [engine_mut]
    and checkpointed. *)
Definition opened_with (policy : CompactionPolicy) : result wrapper SyncError :=
  match open empty_db 7 1 (Ok tt) with
  | Ok p => let p := engine_mut (fun e => with_compaction_policy e policy) p in
            match save io_fine p with (p, Ok _) => Ok p | (_, Err err) => Err err end
  | Err err => Err err
  end.
Definition start : wrapper :=
  {| ps_engine := with_compaction_policy (with_replica_id 1) Disabled;
     ps_conn := {| sync_ops := ∅; sync_meta := {[7%N := (1%N, 0%N, 0%N)]};
                   user_version := SCHEMA_VERSION |};
     ps_scope := 7; ps_scope_key := tt; ps_persisted_len := 0 |}.

Lemma start_opened : opened_with Disabled = Ok start.
Proof. vm_compute. reflexivity. Defined.

Lemma start_wf : engine_wf (ps_engine start).
Proof. apply engine_wf_fresh. Defined.

Lemma start_in_sync : in_sync start.
Proof.
  split_and!; [|reflexivity|reflexivity]. split.
  - intros r s row H. vm_compute in H. discriminate.
  - intros op Hop. vm_compute in Hop. by apply elem_of_nil in Hop.
Defined.

Lemma persistent_call_in_sync_witness :
  (persistent_call demo_stamp io_fine (CallAdd "a" 100) start).2 = Ok tt
  /\ in_sync (persistent_call demo_stamp io_fine (CallAdd "a" 100) start).1.
Proof.
  destruct (persistent_call_in_sync demo_stamp io_fine (CallAdd "a" 100) start start_wf eq_refl
              start_in_sync ltac:(vm_compute; reflexivity)
              ltac:(intros op ? b [= <-]; reflexivity)
              _ _ (surjective_pairing _)) as [(Hr & Hs & _)|(Hr & _)].
  - split; [exact Hr|exact Hs].
  - exfalso. vm_compute in Hr. discriminate.
Defined.

Lemma reopen_roundtrip_witness :
  exists q, open (ps_conn start) 7 1 (Ok tt) = Ok q /\ in_sync q.
Proof.
  destruct (reopen_roundtrip start start_wf start_in_sync (or_intror eq_refl))
    as (q & Hq & Hs & _).
  exists q. split; [exact Hq|exact Hs].
Defined.

(** Three adds under [Fixed(2)], the third of which compacts, and the database
    reopened afterwards. *)
Definition fixed_start : wrapper := engine_mut (fun e => with_compaction_policy e (Fixed 2)) start.
Definition add_three (p : wrapper) : wrapper * list (result uuid SyncError) :=
  let '(p, ra) := add demo_stamp io_fine "a" 100 p in
  let '(p, rb) := add demo_stamp io_fine "b" 200 p in
  let '(p, rc) := add demo_stamp io_fine "c" 300 p in
  (p, [ra; rb; rc]).
Definition after_three : wrapper := (add_three fixed_start).1.
Definition reopened : result wrapper SyncError := open (ps_conn after_three) 7 1 (Ok tt).
Definition shows (r : result wrapper SyncError) (v : string) : bool :=
  match r with Ok q => contains (view (se_log (ps_engine q))) v | Err _ => false end.

(** Automatic compaction loses data on disk.  With the policy [Fixed(2)]
    and no SQLite error, three adds are all acknowledged and the memory holds
    the three values; but the third add's compaction rewrote the log with new
    sequence numbers, the flush wrote only its last entry, and after reopening
    one acknowledged value is gone while the wrapper counts the whole log as
    persisted. *)
Theorem auto_compaction_loses_adds :
  opened_with (Fixed 2) = Ok fixed_start /\
  (add_three fixed_start).2 = [Ok 100%N; Ok 200%N; Ok 300%N] /\
  forallb (contains (view (se_log (ps_engine after_three)))) ["a"; "b"; "c"] = true /\
  ps_persisted_len after_three = len (se_log (ps_engine after_three)) /\
  is_ok reopened = true /\
  forallb (shows reopened) ["a"; "b"; "c"] = false.
Proof. by split_and!; vm_compute. Qed.
End Demo.
