(* ===== verification/Transport.v ===== *)
(** * Sync transport and relay store ([sync_engine/src/transport.rs],
    [sync_relay/src/store.rs])

    The client that ships sealed deltas through an untrusted buffer, the
    buffer's interface as a type class with the laws a faithful one obeys, and
    its two implementations: the process-local transport and the relay's
    in-memory blob store with its quotas. *)

From S2P Require Import Prelude AddWinsSet OpLog SyncEngine Delta PersistentSyncEngine.

(** ** Topic identifiers *)

(** [struct TopicId]: 32 bytes. *)
Definition TOPIC_ID_LEN : nat := 32.
Definition TopicId : Type := list N.

Definition topic_valid (t : TopicId) : Prop :=
  length t = TOPIC_ID_LEN /\ Forall (fun b => (b < 256)%N) t.

(** [HEX\[i\]] as a byte. *)
Definition hex_digit (i : N) : N := if (i <? 10)%N then (48 + i)%N else (87 + i)%N.

(** [TopicId::to_hex]: the rendered bytes of the string. *)
Definition to_hex (t : TopicId) : list N :=
  flat_map (fun b => [hex_digit (N.shiftr b 4); hex_digit (N.land b 15)]) t.

(** [hex_val]. *)
Definition hex_val (c : N) : result N SyncError :=
  if (48 <=? c)%N && (c <=? 57)%N then Ok (c - 48)%N
  else if (97 <=? c)%N && (c <=? 102)%N then Ok (c - 97 + 10)%N
  else if (65 <=? c)%N && (c <=? 70)%N then Ok (c - 65 + 10)%N
  else Err (Persistence "topic id hex has invalid digit").

(** The loop of [TopicId::from_hex] over [chunks_exact(2)]. *)
Fixpoint from_hex_chunks (s : list N) : result TopicId SyncError :=
  match s with
  | c0 :: c1 :: s =>
      let? hi := hex_val c0 in
      let? lo := hex_val c1 in
      let? rest := from_hex_chunks s in
      Ok (N.lor (N.shiftl hi 4) lo :: rest)
  | _ => Ok []
  end.

(** [TopicId::from_hex] on the bytes of the string. *)
Definition from_hex (s : list N) : result TopicId SyncError :=
  if negb (length s =? TOPIC_ID_LEN * 2)%nat then
    Err (Persistence "topic id hex has wrong length")
  else from_hex_chunks s.

(** [crypto::derive_key] (HKDF) and [Uuid]'s [Display], which the client
    calls. *)
Class Kdf (MasterKey : Type) := {
  derive_key : MasterKey -> string -> result (list N) string;
  uuid_display : uuid -> string
}.

(** ** The transport interface *)

Section Interface.
Context {Nonce Bytes : Type}.

(** [struct SealedDelta]. *)
Record SealedDelta : Type := mk_sealed { sd_nonce : Nonce; sd_ciphertext : Bytes }.

(** [struct PullPage]. *)
Record PullPage : Type := mk_page { next_cursor : N; page_blobs : list SealedDelta }.

(** [trait SyncTransport], with the buffer's state passed explicitly. *)
Class SyncTransport (St Er : Type) := {
  push : St -> TopicId -> list SealedDelta -> St * result N Er;
  pull : St -> TopicId -> N -> result PullPage Er
}.

(** The offset a store of that length reports:
    [u64::try_from(len).unwrap_or(u64::MAX)]. *)
Definition cursor_of (len : nat) : N := N.min (N.of_nat len) u64_max.

(** The contract of an honest buffer, over the blobs it stores per topic. *)
Class Faithful (St Er : Type) `{SyncTransport St Er} := {
  stored : St -> TopicId -> list SealedDelta;
  push_ok : forall st t bs st' c, push st t bs = (st', Ok c) ->
    stored st' t = stored st t ++ bs /\ c = cursor_of (length (stored st' t))
    /\ forall t', t' <> t -> stored st' t' = stored st t';
  push_err : forall st t bs st' e, push st t bs = (st', Err e) ->
    forall t', stored st' t' = stored st t';
  pull_ok : forall st t since page, pull st t since = Ok page ->
    page_blobs page = drop (N.to_nat since) (stored st t)
    /\ next_cursor page = cursor_of (length (stored st t))
}.

(** ** The process-local transport *)

(** [struct InMemoryTransport] and its methods. *)
Record InMemoryTransport : Type := mk_mem { mem_topics : gmap TopicId (list SealedDelta) }.

Definition new_transport : InMemoryTransport := {| mem_topics := ∅ |}.

Definition raw_blobs (st : InMemoryTransport) (topic : TopicId) : list SealedDelta :=
  default [] (mem_topics st !! topic).

(** [SyncTransport::push] of [InMemoryTransport]; its error is
    [Infallible]. *)
Definition mem_push (st : InMemoryTransport) (topic : TopicId) (blobs : list SealedDelta) :
    InMemoryTransport * result N Empty_set :=
  let entry := default [] (mem_topics st !! topic) ++ blobs in
  ({| mem_topics := <[topic := entry]> (mem_topics st) |}, Ok (cursor_of (length entry))).

(** The slice [v\[start..\]] with [start = min(since, len)]. *)
Definition since_slice (all : option (list SealedDelta)) (since : N) : PullPage :=
  let len := match all with Some v => length v | None => 0%nat end in
  let start := N.to_nat (N.min since (N.of_nat len)) in
  {| next_cursor := cursor_of len;
     page_blobs := match all with Some v => drop start v | None => [] end |}.

(** [SyncTransport::pull] of [InMemoryTransport]. *)
Definition mem_pull (st : InMemoryTransport) (topic : TopicId) (since : N) :
    result PullPage Empty_set :=
  Ok (since_slice (mem_topics st !! topic) since).

#[export] Instance mem_transport : SyncTransport InMemoryTransport Empty_set :=
  {| push := mem_push; pull := mem_pull |}.

(** ** The relay's blob store *)

(** [struct StoreLimits]. *)
Record StoreLimits : Type := mk_limits { max_blobs_per_topic : N; max_blob_bytes : N }.
Definition default_limits : StoreLimits :=
  {| max_blobs_per_topic := 1000000; max_blob_bytes := 8 * 1024 * 1024 |}.

(** The errors [RelayError] the store raises. *)
Inductive RelayError : Type :=
| BlobTooLarge (size limit : N)
| QuotaExceeded (limit : N).

(** [struct InMemoryBlobStore]; tenants are the strings of [TenantId]. *)
Record InMemoryBlobStore : Type := mk_store {
  store_limits : StoreLimits;
  store_topics : gmap (string * TopicId) (list SealedDelta)
}.

(** [Vec::len] of a ciphertext. *)
Variable byte_len : Bytes -> N.

Definition new_store (limits : StoreLimits) : InMemoryBlobStore :=
  {| store_limits := limits; store_topics := ∅ |}.

Definition blob_count (st : InMemoryBlobStore) (tenant : string) (topic : TopicId) : nat :=
  match store_topics st !! (tenant, topic) with Some v => length v | None => 0 end.

(** The size check of [append]: the first blob over the limit. *)
Fixpoint check_sizes (limit : N) (blobs : list SealedDelta) : result unit RelayError :=
  match blobs with
  | [] => Ok tt
  | blob :: blobs =>
      if (limit <? byte_len (sd_ciphertext blob))%N
      then Err (BlobTooLarge (byte_len (sd_ciphertext blob)) limit)
      else check_sizes limit blobs
  end.

(** [InMemoryBlobStore::append]: the entry is created before the quota is
    checked. *)
Definition append (st : InMemoryBlobStore) (tenant : string) (topic : TopicId)
    (blobs : list SealedDelta) : InMemoryBlobStore * result N RelayError :=
  match check_sizes (max_blob_bytes (store_limits st)) blobs with
  | Err e => (st, Err e)
  | Ok _ =>
      let entry := default [] (store_topics st !! (tenant, topic)) in
      let created := {| store_limits := store_limits st;
                        store_topics := <[(tenant, topic) := entry]> (store_topics st) |} in
      if (max_blobs_per_topic (store_limits st)
            <? N.min (N.of_nat (length entry) + N.of_nat (length blobs)) u64_max)%N
      then (created, Err (QuotaExceeded (max_blobs_per_topic (store_limits st))))
      else ({| store_limits := store_limits st;
               store_topics := <[(tenant, topic) := entry ++ blobs]> (store_topics st) |},
            Ok (cursor_of (length (entry ++ blobs))))
  end.

(** [InMemoryBlobStore::read_since]. *)
Definition read_since (st : InMemoryBlobStore) (tenant : string) (topic : TopicId) (since : N) :
    result PullPage RelayError :=
  Ok (since_slice (store_topics st !! (tenant, topic)) since).

(** The store seen by the devices of one tenant. *)
Definition relay_transport (tenant : string) : SyncTransport InMemoryBlobStore RelayError :=
  {| push st t bs := append st tenant t bs; pull st t since := read_since st tenant t since |}.

(** ** Both are faithful *)

Lemma since_slice_blobs all since :
  page_blobs (since_slice all since) = drop (N.to_nat since) (default [] all).
Proof.
  destruct all as [v|]; cbn; [|by rewrite drop_nil].
  destruct (N.le_ge_cases since (N.of_nat (length v))) as [H|H].
  - by rewrite N.min_l.
  - rewrite N.min_r, Nat2N.id by done. rewrite !drop_ge by lia. done.
Qed.

Lemma since_slice_cursor all since :
  next_cursor (since_slice all since) = cursor_of (length (default [] all)).
Proof. by destruct all. Qed.

#[export] Instance mem_faithful : Faithful InMemoryTransport Empty_set.
Proof.
  refine {| stored st t := default [] (mem_topics st !! t) |}.
  - intros st t bs st' c [= <- <-]. cbn. rewrite lookup_insert_eq. split_and!; [done|done|].
    intros t' Hne. by rewrite lookup_insert_ne by done.
  - intros st t bs st' [].
  - intros st t since page [= <-]. by rewrite since_slice_blobs, since_slice_cursor.
Defined.

#[export] Instance relay_faithful (tenant : string) :
  @Faithful InMemoryBlobStore RelayError (relay_transport tenant).
Proof.
  refine {| stored st t := default [] (store_topics st !! (tenant, t)) |}.
  - intros st t bs st' c. cbn. unfold append. destruct (check_sizes _ _); [|done].
    case_match; [done|]. intros [= <- <-]. cbn. rewrite lookup_insert_eq. split_and!; [done|done|].
    intros t' Hne. by rewrite lookup_insert_ne by congruence.
  - intros st t bs st' e. cbn. unfold append. destruct (check_sizes _ _); [|by intros [= <- <-]].
    case_match; [|done]. intros [= <- <-] t'. cbn.
    destruct (decide (t' = t)) as [->|Hne]; [by rewrite lookup_insert_eq|].
    by rewrite lookup_insert_ne by congruence.
  - intros st t since page [= <-]. by rewrite since_slice_blobs, since_slice_cursor.
Defined.
End Interface.
Arguments SealedDelta : clear implicits.
Arguments PullPage : clear implicits.
Arguments SyncTransport : clear implicits.

(** ** The client *)

Section Client.
Context {T : Type} {EqT : EqDecision T} {CountT : Countable T} {HO : HashOrder}.
Context {Nonce Bytes : Type} {SerdeT : Serde Bytes (DeltaEnvelope T)}
  {AE : Aead (list N) Nonce Bytes}.
Context {St Er : Type} {Tr : SyncTransport Nonce Bytes St Er}.

(** [struct SyncClient]. *)
Record SyncClient : Type := mk_client {
  cl_scope : uuid;
  cl_topic : TopicId;
  cl_seal_key : list N;
  own_push_watermark : N;
  pull_cursor : N
}.

(** [enum ClientSyncError]. *)
Inductive ClientSyncError : Type :=
| Sync (e : SyncError)
| TransportError (e : Er).

(** [struct PullReport], [struct SyncOutcome]. *)
Record PullReport : Type := mk_report { absorbed_ops : nat; skipped : nat; malformed : nat }.
Record SyncOutcome : Type := mk_outcome { out_pushed : nat; out_absorbed : nat }.

Definition crypto_err {A} (r : result A string) : result A SyncError :=
  match r with Ok a => Ok a | Err m => Err (Crypto m) end.

(** [TopicId::derive]. *)
Definition derive {MasterKey} `{Kdf MasterKey} (master_key : MasterKey) (scope : uuid) :
    result TopicId SyncError :=
  crypto_err (derive_key master_key
                (String.append "sync:relay:topic:" (String.append (uuid_display scope) ":v1"))).

(** [SyncClient::restore]. *)
Definition restore {MasterKey} `{Kdf MasterKey} (master_key : MasterKey) (scope : uuid)
    (push_watermark cursor : N) : result SyncClient SyncError :=
  let? topic := derive master_key scope in
  let? seal_key := crypto_err (derive_key master_key
        (String.append "sync:relay:seal:" (String.append (uuid_display scope) ":v1"))) in
  Ok {| cl_scope := scope; cl_topic := topic; cl_seal_key := seal_key;
        own_push_watermark := push_watermark; pull_cursor := cursor |}.

(** [SyncClient::new]. *)
Definition new_client {MasterKey} `{Kdf MasterKey} (master_key : MasterKey) (scope : uuid) :
    result SyncClient SyncError :=
  restore master_key scope 0 0.

Definition with_watermark (c : SyncClient) (w : N) : SyncClient :=
  {| cl_scope := cl_scope c; cl_topic := cl_topic c; cl_seal_key := cl_seal_key c;
     own_push_watermark := w; pull_cursor := pull_cursor c |}.
Definition with_cursor (c : SyncClient) (n : N) : SyncClient :=
  {| cl_scope := cl_scope c; cl_topic := cl_topic c; cl_seal_key := cl_seal_key c;
     own_push_watermark := own_push_watermark c; pull_cursor := n |}.

(** [SyncClient::seal] under the random [nonce]. *)
Definition seal (c : SyncClient) (nonce : Nonce) (plaintext : Bytes) :
    result (SealedDelta Nonce Bytes) SyncError :=
  match encrypt_aead (cl_seal_key c) nonce plaintext (cl_topic c) with
  | Some ct => Ok {| sd_nonce := nonce; sd_ciphertext := ct |}
  | None => Err (Crypto "aead")
  end.

(** [SyncClient::open]. *)
Definition open (c : SyncClient) (blob : SealedDelta Nonce Bytes) : result Bytes SyncError :=
  ok_or (decrypt_aead (cl_seal_key c) (sd_nonce blob) (sd_ciphertext blob) (cl_topic c))
        (Crypto "aead").

(** [SyncClient::push]. *)
Definition client_push (c : SyncClient) (engine : SyncEngine T) (st : St) (nonce : Nonce) :
    SyncClient * St * result nat ClientSyncError :=
  let log := se_log engine in
  if (clock log <=? own_push_watermark c)%N then (c, st, Ok 0%nat)
  else
    let own_ops := length (base.filter (fun o => wanted_own log (own_push_watermark c) o = true)
                             (ops log)) in
    if (own_ops =? 0)%nat then (with_watermark c (clock log), st, Ok 0%nat)
    else
      match encode_own_delta_since log (own_push_watermark c) with
      | Err e => (c, st, Err (Sync e))
      | Ok plaintext =>
          match seal c nonce plaintext with
          | Err e => (c, st, Err (Sync e))
          | Ok sealed =>
              match push st (cl_topic c) [sealed] with
              | (st', Err e) => (c, st', Err (TransportError e))
              | (st', Ok _) => (with_watermark c (clock log), st', Ok own_ops)
              end
          end
      end.

(** The loop of [pull_reporting]: the engine so far, the report so far and
    [consumed], a [u64] (a build with overflow checks panics where it wraps). *)
Fixpoint pull_blobs (stamp : N -> instant) (c : SyncClient) (e : SyncEngine T) (r : PullReport)
    (consumed : N) (blobs : list (SealedDelta Nonce Bytes)) :
    SyncEngine T * result (PullReport * N) ClientSyncError :=
  match blobs with
  | [] => (e, Ok (r, consumed))
  | blob :: blobs =>
      match open c blob with
      | Err (Crypto _) =>
          pull_blobs stamp c e
            {| absorbed_ops := absorbed_ops r; skipped := S (skipped r); malformed := malformed r |}
            (u64_wrapping_add consumed 1) blobs
      | Err other => (e, Err (Sync other))
      | Ok plaintext =>
          match apply_delta stamp plaintext e with
          | (e', Ok n) =>
              pull_blobs stamp c e'
                {| absorbed_ops := absorbed_ops r + n; skipped := skipped r;
                   malformed := malformed r |} (u64_wrapping_add consumed 1) blobs
          | (e', Err DeltaDecode) =>
              pull_blobs stamp c e'
                {| absorbed_ops := absorbed_ops r; skipped := skipped r;
                   malformed := S (malformed r) |} (u64_wrapping_add consumed 1) blobs
          | (e', Err other) => (e', Err (Sync other))
          end
      end
  end.

(** [SyncClient::pull_reporting]. *)
Definition pull_reporting (stamp : N -> instant) (c : SyncClient) (e : SyncEngine T) (st : St) :
    SyncClient * SyncEngine T * result PullReport ClientSyncError :=
  match pull st (cl_topic c) (pull_cursor c) with
  | Err err => (c, e, Err (TransportError err))
  | Ok page =>
      match pull_blobs stamp c e {| absorbed_ops := 0; skipped := 0; malformed := 0 |}
              (pull_cursor c) (page_blobs page) with
      | (e', Err err) => (c, e', Err err)
      | (e', Ok (r, consumed)) =>
          (with_cursor c (N.max (next_cursor page) consumed), e', Ok r)
      end
  end.

(** [SyncClient::pull]. *)
Definition client_pull (stamp : N -> instant) (c : SyncClient) (e : SyncEngine T) (st : St) :
    SyncClient * SyncEngine T * result nat ClientSyncError :=
  let '(c', e', r) := pull_reporting stamp c e st in (c', e', result_map absorbed_ops r).

(** [SyncClient::sync]. *)
Definition sync (stamp : N -> instant) (c : SyncClient) (e : SyncEngine T) (st : St)
    (nonce : Nonce) : SyncClient * SyncEngine T * St * result SyncOutcome ClientSyncError :=
  match client_push c e st nonce with
  | (c1, st1, Err err) => (c1, e, st1, Err err)
  | (c1, st1, Ok pushed) =>
      match client_pull stamp c1 e st1 with
      | (c2, e2, Err err) => (c2, e2, st1, Err err)
      | (c2, e2, Ok absorbed) =>
          (c2, e2, st1, Ok {| out_pushed := pushed; out_absorbed := absorbed |})
      end
  end.
End Client.
Arguments ClientSyncError Er : clear implicits.

(** ** Hexadecimal *)

(** A check of every value below a bound decides a property of all of them. *)
Lemma below_all (P : N -> bool) (n : nat) b :
  forallb P (N.of_nat <$> seq 0 n) = true -> (b < N.of_nat n)%N -> P b = true.
Proof.
  intros H Hb. rewrite forallb_forall in H. apply H, list_elem_of_In, list_elem_of_fmap.
  exists (N.to_nat b). rewrite N2Nat.id, elem_of_seq. split; [done|lia].
Qed.

Definition byte_roundtrips (b : N) : bool :=
  match hex_val (hex_digit (N.shiftr b 4)), hex_val (hex_digit (N.land b 15)) with
  | Ok hi, Ok lo => N.eqb (N.lor (N.shiftl hi 4) lo) b
  | _, _ => false
  end.

Lemma byte_hex b : (b < 256)%N ->
  exists hi lo, hex_val (hex_digit (N.shiftr b 4)) = Ok hi /\ hex_val (hex_digit (N.land b 15)) = Ok lo
    /\ N.lor (N.shiftl hi 4) lo = b.
Proof.
  intros Hb. assert (H : byte_roundtrips b = true).
  { apply (below_all _ 256); [vm_compute; reflexivity|lia]. }
  unfold byte_roundtrips in H. repeat (case_match; try done). apply N.eqb_eq in H. eauto.
Qed.

(** The lower-case form of a hexadecimal digit. *)
Definition lower (c : N) : N := if (65 <=? c)%N && (c <=? 70)%N then (c + 32)%N else c.

Definition digit_roundtrips (c : N) : bool :=
  match hex_val c with Ok v => N.eqb (hex_digit v) (lower c) && (v <? 16)%N | Err _ => true end.

Lemma hex_val_digit c v : hex_val c = Ok v -> hex_digit v = lower c /\ (v < 16)%N.
Proof.
  intros Hv. assert (Hc : (c < 103)%N).
  { unfold hex_val in Hv. repeat (case_match; try done); bool_to_prop; lia. }
  assert (H : digit_roundtrips c = true).
  { apply (below_all _ 103); [vm_compute; reflexivity|lia]. }
  unfold digit_roundtrips in H. rewrite Hv in H. apply andb_true_iff in H as [H1 H2].
  apply N.eqb_eq in H1. apply N.ltb_lt in H2. done.
Qed.

Definition nibbles_split (n : N) : bool :=
  let hi := (n / 16)%N in let lo := (n mod 16)%N in
  let b := N.lor (N.shiftl hi 4) lo in
  N.eqb (N.shiftr b 4) hi && N.eqb (N.land b 15) lo && (b <? 256)%N.

Lemma nibbles hi lo : (hi < 16)%N -> (lo < 16)%N ->
  let b := N.lor (N.shiftl hi 4) lo in
  N.shiftr b 4 = hi /\ N.land b 15 = lo /\ (b < 256)%N.
Proof.
  intros Hh Hl. assert (H : nibbles_split (16 * hi + lo) = true).
  { apply (below_all _ 256); [vm_compute; reflexivity|lia]. }
  unfold nibbles_split in H.
  rewrite <- (N.div_unique (16 * hi + lo) 16 hi lo), <- (N.mod_unique (16 * hi + lo) 16 hi lo) in H by lia.
  apply andb_true_iff in H as [H H3]. apply andb_true_iff in H as [H1 H2].
  apply N.eqb_eq in H1, H2. apply N.ltb_lt in H3. done.
Qed.

Lemma from_hex_chunks_to_hex t :
  Forall (fun b => (b < 256)%N) t -> from_hex_chunks (to_hex t) = Ok t.
Proof.
  induction 1 as [|b t Hb _ IH]; [done|].
  destruct (byte_hex b Hb) as (hi & lo & H1 & H2 & H3).
  cbn [to_hex flat_map app from_hex_chunks]. fold (to_hex t). rewrite H1, H2. cbn [try_result].
  rewrite IH. cbn [try_result]. by rewrite H3.
Qed.

Lemma length_to_hex t : length (to_hex t) = (length t * 2)%nat.
Proof. unfold to_hex. induction t as [|b t IH]; [done|]. cbn [flat_map app length]. lia. Qed.

Lemma from_hex_chunks_ok n s t :
  length s = (2 * n)%nat -> from_hex_chunks s = Ok t ->
  length t = n /\ Forall (fun b => (b < 256)%N) t /\ to_hex t = lower <$> s.
Proof.
  revert s t. induction n as [|n IH]; intros s t Hl Hf.
  { destruct s; [|done]. injection Hf as <-. done. }
  destruct s as [|c0 [|c1 s]]; cbn in Hl; [lia|lia|]. cbn [from_hex_chunks] in Hf.
  unfold try_result in Hf.
  destruct (hex_val c0) as [hi|] eqn:E0; [|done]. destruct (hex_val c1) as [lo|] eqn:E1; [|done].
  destruct (from_hex_chunks s) as [rest|] eqn:Er; [|done]. injection Hf as <-.
  apply hex_val_digit in E0 as [D0 B0], E1 as [D1 B1].
  destruct (IH s rest) as (Hlen & Hall & Hhex); [lia|done|].
  destruct (nibbles hi lo B0 B1) as (N1 & N2 & N3).
  split_and!; [cbn; lia|by constructor|].
  cbn [to_hex flat_map app]. fold (to_hex rest). by rewrite N1, N2, D0, D1, Hhex.
Qed.

(** Topic identifiers survive the trip through a URL, and nothing else is
    accepted.  Rendering 32 bytes and parsing them back gives the topic; a
    string parses only if it is 64 hexadecimal digits, to 32 bytes whose
    rendering is the string in lower case; every other string is an error. *)
Theorem topic_hex_roundtrip :
  (forall t, topic_valid t -> from_hex (to_hex t) = Ok t) /\
  (forall s t, from_hex s = Ok t -> topic_valid t /\ to_hex t = lower <$> s) /\
  (forall s, length s <> 64%nat -> from_hex s = Err (Persistence "topic id hex has wrong length")).
Proof.
  unfold from_hex, topic_valid, TOPIC_ID_LEN. split_and!.
  - intros t [Hl Hb]. rewrite length_to_hex, Hl, Nat.eqb_refl. by apply from_hex_chunks_to_hex.
  - intros s t Hf. destruct (Nat.eqb_spec (length s) (32 * 2)) as [Hl|]; [|done].
    destruct (from_hex_chunks_ok 32 s t) as (H1 & H2 & H3); [lia|done|]. done.
  - intros s Hl. destruct (Nat.eqb_spec (length s) (32 * 2)) as [H|]; [lia|done].
Qed.

(** ** The blob store *)

Section StoreFacts.
Context {Nonce Bytes : Type} (byte_len : Bytes -> N).
Implicit Types (st : InMemoryBlobStore (Nonce := Nonce) (Bytes := Bytes)) (blobs : list (SealedDelta Nonce Bytes)).

Lemma check_sizes_spec limit blobs :
  match check_sizes byte_len limit blobs with
  | Ok _ => Forall (fun b => (byte_len (sd_ciphertext b) <= limit)%N) blobs
  | Err e => exists b, b ∈ blobs /\ (limit < byte_len (sd_ciphertext b))%N
             /\ e = BlobTooLarge (byte_len (sd_ciphertext b)) limit
  end.
Proof.
  induction blobs as [|b blobs IH]; cbn [check_sizes]; [constructor|].
  destruct (N.ltb_spec limit (byte_len (sd_ciphertext b))) as [H|H].
  - exists b. set_solver.
  - destruct (check_sizes _ _ _); [by constructor|]. destruct IH as (b' & Hb & ?).
    exists b'. set_solver.
Qed.

(** Every topic is within the quota. *)
Definition store_wf st : Prop :=
  forall k v, store_topics st !! k = Some v ->
    (N.of_nat (length v) <= max_blobs_per_topic (store_limits st))%N
    /\ Forall (fun b => (byte_len (sd_ciphertext b) <= max_blob_bytes (store_limits st))%N) v.

(** The blobs of one tenant's topic. *)
Definition blobs_of st tenant topic : list (SealedDelta Nonce Bytes) :=
  default [] (store_topics st !! (tenant, topic)).

Definition quota_ok (limits : StoreLimits) (held : list (SealedDelta Nonce Bytes)) blobs : Prop :=
  (N.of_nat (length held + length blobs) <= max_blobs_per_topic limits)%N.

(** The relay store is an append-only, tenant-isolated log with quotas.
    An append is accepted exactly when every blob and the resulting count are
    within the limits (the quota being a 64-bit number), it then only extends
    the named topic of the named tenant and returns its length; a rejected one
    changes no topic's content and names the limit it hit; quotas hold of every
    topic throughout; and a read from a cursor within the log returns the rest
    of it, its next cursor being the cursor advanced by that many blobs. *)
Theorem blob_store_spec st tenant topic blobs :
  store_wf st -> (max_blobs_per_topic (store_limits st) < u64_max)%N ->
  let '(st', r) := append byte_len st tenant topic blobs in
  let held := blobs_of st tenant topic in
  (is_ok r = true <->
     Forall (fun b => (byte_len (sd_ciphertext b) <= max_blob_bytes (store_limits st))%N) blobs
     /\ quota_ok (store_limits st) held blobs) /\
  (is_ok r = true -> r = Ok (N.of_nat (length (held ++ blobs)))
     /\ blobs_of st' tenant topic = held ++ blobs) /\
  (is_ok r = false -> blobs_of st' tenant topic = held) /\
  (forall tenant' topic', (tenant', topic') <> (tenant, topic) ->
     blobs_of st' tenant' topic' = blobs_of st tenant' topic') /\
  store_wf st' /\ store_limits st' = store_limits st /\
  (forall since, (N.to_nat since <= length held)%nat ->
     exists page, read_since st tenant topic since = Ok page
       /\ page_blobs page = drop (N.to_nat since) held
       /\ next_cursor page = (since + N.of_nat (length (page_blobs page)))%N).
Proof.
  intros Hwf Hmax. unfold append, quota_ok.
  pose proof (check_sizes_spec (max_blob_bytes (store_limits st)) blobs) as Hsz.
  assert (Hheld : (N.of_nat (length (blobs_of st tenant topic)) <= max_blobs_per_topic (store_limits st))%N
    /\ Forall (fun b => (byte_len (sd_ciphertext b) <= max_blob_bytes (store_limits st))%N)
         (blobs_of st tenant topic)).
  { unfold blobs_of. destruct (store_topics st !! (tenant, topic)) as [v|] eqn:E; cbn.
    - by apply (Hwf (tenant, topic)).
    - split; [lia|constructor]. }
  destruct Hheld as [Hq Hheld].
  assert (Hread : forall since, (N.to_nat since <= length (blobs_of st tenant topic))%nat ->
     exists page, read_since st tenant topic since = Ok page
       /\ page_blobs page = drop (N.to_nat since) (blobs_of st tenant topic)
       /\ next_cursor page = (since + N.of_nat (length (page_blobs page)))%N).
  { intros since Hs. eexists. split; [reflexivity|]. rewrite since_slice_blobs, since_slice_cursor.
    fold (blobs_of st tenant topic). split; [done|]. rewrite length_drop. unfold cursor_of. lia. }
  destruct (check_sizes byte_len _ blobs) as [u|err] eqn:Ec.
  2: { destruct Hsz as (b & Hb & Hlt & _). cbn [is_ok]. split_and!; try done.
       split; [done|]. intros [Hall _]. rewrite Forall_forall in Hall.
       specialize (Hall b Hb). lia. }
  fold (blobs_of st tenant topic). set (held := blobs_of st tenant topic) in *.
  destruct (N.ltb_spec (max_blobs_per_topic (store_limits st))
              (N.min (N.of_nat (length held) + N.of_nat (length blobs)) u64_max)) as [Hlt|Hle];
    cbn [is_ok].
  - split_and!; try done.
    + split; [done|]. lia.
    + unfold blobs_of; cbn. by rewrite lookup_insert_eq.
    + intros t' tp' Hne. unfold blobs_of; cbn. by rewrite lookup_insert_ne by congruence.
    + intros k v. cbn. rewrite lookup_insert_Some. intros [[<- <-]|[_ Hv]]; [done|by apply (Hwf k)].
  - split_and!; try done.
    + split; [|done]. intros _. split; [done|]. lia.
    + intros _. rewrite length_app. unfold cursor_of. split; [f_equal; lia|].
      unfold blobs_of; cbn. by rewrite lookup_insert_eq.
    + intros t' tp' Hne. unfold blobs_of; cbn. by rewrite lookup_insert_ne by congruence.
    + intros k v. cbn. rewrite lookup_insert_Some. intros [[<- <-]|[_ Hv]]; [|by apply (Hwf k)].
      rewrite length_app. split; [lia|]. by apply Forall_app.
Qed.
End StoreFacts.

(** ** The client *)

Section ClientFacts.
Context {T : Type} {EqT : EqDecision T} {CountT : Countable T} {HO : HashOrder}.
Context {Nonce Bytes : Type} {SerdeT : Serde Bytes (DeltaEnvelope T)}
  {AE : Aead (list N) Nonce Bytes}.
Context {St Er : Type} {Tr : SyncTransport Nonce Bytes St Er}.
Implicit Types (c : SyncClient) (e : SyncEngine T) (stamp : N -> instant)
  (blobs : list (SealedDelta Nonce Bytes)).

(** Merging an envelope never moves the epoch backwards. *)
Lemma absorb_tail_epoch stamp e before :
  (compaction_epoch (se_log e) <= u64_max)%N ->
  (compaction_epoch (se_log e) <= compaction_epoch (se_log (absorb_tail stamp e before)) <= u64_max)%N.
Proof.
  intros Hb. destruct (absorb_tail_cases stamp e before) as [n ->]. cbn zeta.
  set (e2 := match se_cached_state e with Some st => _ | None => _ end).
  assert (He2 : se_log e2 = se_log e) by (unfold e2; by destruct (se_cached_state e)).
  rewrite <- He2 in *. clearbody e2.
  destruct (maybe_auto_compact_cases stamp e2) as [[_ ->]|[_ ->]]; [lia|].
  rewrite engine_compact_eq. cbn [fst se_log with_counters with_cache with_log].
  rewrite OpLog.compact_eq. cbn [fst compaction_epoch]. unfold u64_saturating_add. lia.
Qed.

Lemma merge_delta_epoch stamp e (env : DeltaEnvelope T) :
  (compaction_epoch (se_log e) <= u64_max)%N -> (env_epoch env <= compaction_epoch (se_log e))%N ->
  (compaction_epoch (se_log e)
   <= compaction_epoch (se_log (merge_delta_envelope stamp e env).1) <= u64_max)%N.
Proof.
  intros Hb Hle. unfold merge_delta_envelope. rewrite foldl_merge_single. cbn [fst].
  match goal with |- context [absorb_tail _ ?x ?n] => pose proof (absorb_tail_epoch stamp x n) as H end.
  cbn [se_log with_log compaction_epoch] in H.
  rewrite foldl_merge_entry_epoch in H |- *. rewrite N.max_l in H |- * by done. by apply H.
Qed.

(** [apply_delta] accepts, skips as malformed, or refuses as epoch-behind. *)
Lemma apply_delta_cases stamp e (pt : Bytes) :
  (exists env, from_slice pt = Some env /\ (env_epoch env <= compaction_epoch (se_log e))%N
     /\ apply_delta stamp pt e = ((merge_delta_envelope stamp e env).1,
                                  Ok (merge_delta_envelope stamp e env).2))
  \/ (from_slice pt = None /\ apply_delta stamp pt e = (e, Err DeltaDecode))
  \/ (exists env, from_slice pt = Some env /\ (compaction_epoch (se_log e) < env_epoch env)%N
     /\ apply_delta stamp pt e
        = (e, Err (CompactionEpochBehind (compaction_epoch (se_log e)) (env_epoch env)))).
Proof.
  unfold apply_delta, decode_delta. destruct (from_slice pt) as [env|]; cbn [ok_or]; [|auto].
  destruct (N.ltb_spec (compaction_epoch (se_log e)) (env_epoch env)) as [H|H].
  - right; right. eauto.
  - left. exists env. by destruct (merge_delta_envelope stamp e env).
Qed.

Lemma open_cases c (blob : SealedDelta Nonce Bytes) :
  (exists pt, open c blob = Ok pt) \/ open c blob = Err (Crypto "aead").
Proof. unfold open. destruct (decrypt_aead _ _ _ _); cbn; eauto. Qed.

(** What a blob is under the client's key: forged or damaged on the way, the
    work of a peer whose plaintext does not decode, or an envelope. *)
Definition opens c (blob : SealedDelta Nonce Bytes) : bool := is_ok (open c blob).
Definition envelope c (blob : SealedDelta Nonce Bytes) : option (DeltaEnvelope T) :=
  match open c blob with Ok pt => from_slice pt | Err _ => None end.
Definition undecodable c (blob : SealedDelta Nonce Bytes) : bool :=
  opens c blob && match envelope c blob with None => true | Some _ => false end.

(** Envelopes merged one after another, with the number of operations absorbed. *)
Definition merge_all stamp (e : SyncEngine T) (envs : list (DeltaEnvelope T)) : SyncEngine T * nat :=
  foldl (fun p env => ((merge_delta_envelope stamp p.1 env).1, (p.2 + (merge_delta_envelope stamp p.1 env).2)%nat)) (e, 0%nat) envs.

Lemma merge_all_from stamp e n envs :
  foldl (fun p env => ((merge_delta_envelope stamp p.1 env).1, (p.2 + (merge_delta_envelope stamp p.1 env).2)%nat)) (e, n) envs
  = ((merge_all stamp e envs).1, (n + (merge_all stamp e envs).2)%nat).
Proof.
  unfold merge_all. revert e n. induction envs as [|env envs IH]; intros e n; cbn [foldl fst snd]; [f_equal; lia|].
  rewrite (IH _ (n + _)%nat), (IH _ (0 + _)%nat). cbn [fst snd]. f_equal. lia.
Qed.
Lemma merge_all_cons stamp e env envs :
  merge_all stamp e (env :: envs)
  = ((merge_all stamp (merge_delta_envelope stamp e env).1 envs).1,
     ((merge_delta_envelope stamp e env).2 + (merge_all stamp (merge_delta_envelope stamp e env).1 envs).2)%nat).
Proof. unfold merge_all at 1. cbn [foldl fst snd]. by rewrite merge_all_from. Qed.

(** Each blob is one of the three. *)
Lemma blobs_sorted c blobs :
  length blobs = (length (omap (envelope c) blobs) + length (base.filter (fun b => opens c b = false) blobs)
                  + length (base.filter (fun b => undecodable c b = true) blobs))%nat.
Proof.
  induction blobs as [|b blobs IH]; [done|]. rewrite !filter_cons. cbn [omap list_omap length]. unfold undecodable, opens, envelope in *.
  destruct (open_cases c b) as [[pt Ho]|Ho]; rewrite Ho; cbn [is_ok andb]; [|repeat case_decide; cbn [length]; (done || lia)].
  destruct (from_slice pt); repeat case_decide; cbn [length]; (done || lia).
Qed.

(** The loop, blob by blob. *)
Definition pulled_ok stamp c e r consumed blobs (e' : SyncEngine T) (res : result (PullReport * N) (ClientSyncError Er)) : Prop :=
  match res with
  | Ok (r', consumed') =>
      e' = (merge_all stamp e (omap (envelope c) blobs)).1 /\
      absorbed_ops r' = (absorbed_ops r + (merge_all stamp e (omap (envelope c) blobs)).2)%nat /\
      skipped r' = (skipped r + length (base.filter (fun b => opens c b = false) blobs))%nat /\
      malformed r' = (malformed r + length (base.filter (fun b => undecodable c b = true) blobs))%nat /\
      consumed' = u64_wrapping_add consumed (N.of_nat (length blobs))
  | Err err =>
      exists before blob after env, blobs = before ++ blob :: after /\ envelope c blob = Some env /\
        e' = (merge_all stamp e (omap (envelope c) before)).1 /\ (compaction_epoch (se_log e') < env_epoch env)%N /\
        err = Sync (CompactionEpochBehind (compaction_epoch (se_log e')) (env_epoch env))
  end.

Lemma pulled_cons stamp c e r consumed blob blobs e1 n s m e' res :
  omap (envelope c) [blob] = [] /\ e1 = e /\ n = 0%nat \/
  (exists env, envelope c blob = Some env /\ e1 = (merge_delta_envelope stamp e env).1 /\ n = (merge_delta_envelope stamp e env).2) ->
  s = length (base.filter (fun b => opens c b = false) [blob]) -> m = length (base.filter (fun b => undecodable c b = true) [blob]) ->
  pulled_ok stamp c e1 (mk_report (absorbed_ops r + n) (skipped r + s) (malformed r + m)) (u64_wrapping_add consumed 1) blobs e' res ->
  pulled_ok stamp c e r consumed (blob :: blobs) e' res.
Proof.
  intros Hstep Hs Hm. unfold pulled_ok. destruct res as [[r' k]|err].
  - intros (He & Ha & Hsk & Hma & Hk). cbn [absorbed_ops skipped malformed] in *.
    rewrite u64_wrapping_add_assoc in Hk. rewrite Hsk, Hma, Hk, Hs, Hm.
    change (blob :: blobs) with ([blob] ++ blobs). rewrite omap_app, !filter_app, !length_app.
    split_and!; [| |lia|lia|f_equal; cbn [length]; lia].
    + rewrite He. destruct Hstep as [(-> & -> & _)|(env & Henv & -> & _)]; [done|]. cbn [omap list_omap app]. rewrite Henv. cbn [app].
      by rewrite merge_all_cons.
    + rewrite Ha. destruct Hstep as [(-> & -> & ->)|(env & Henv & -> & ->)]; [cbn [app]; lia|]. cbn [omap list_omap app]. rewrite Henv.
      cbn [app]. rewrite merge_all_cons. cbn [snd]. lia.
  - intros (before & b & after & env & -> & Henv & He & Hlt & ->). exists (blob :: before), b, after, env.
    split_and!; [done|done| |done|done]. change (blob :: before) with ([blob] ++ before). rewrite omap_app, He.
    destruct Hstep as [(-> & -> & _)|(env' & Henv' & -> & _)]; [done|]. cbn [omap list_omap app]. rewrite Henv'. cbn [app].
    by rewrite merge_all_cons.
Qed.

Lemma pull_blobs_exact stamp c e r consumed blobs :
  (consumed <= u64_max)%N ->
  pulled_ok stamp c e r consumed blobs (pull_blobs (Er := Er) stamp c e r consumed blobs).1 (pull_blobs (Er := Er) stamp c e r consumed blobs).2.
Proof.
  revert e r consumed. induction blobs as [|blob blobs IH]; intros e r consumed Hb; cbn [pull_blobs].
  { cbn. split_and!; [done|lia..|]. rewrite u64_wrapping_add_small; lia. }
  assert (Hw : (u64_wrapping_add consumed 1 <= u64_max)%N) by apply u64_wrapping_add_bound.
  destruct (open_cases c blob) as [[pt Ho]|Ho]; rewrite Ho.
  - destruct (apply_delta_cases stamp e pt) as [(env & Hd & Hle & Ha)|[[Hd Ha]|(env & Hd & Hlt & Ha)]]; rewrite Ha.
    + apply (pulled_cons _ _ _ _ _ _ _ (merge_delta_envelope stamp e env).1 (merge_delta_envelope stamp e env).2 0 0).
      * right. exists env. unfold envelope. by rewrite Ho.
      * rewrite filter_cons_False; [done|]. unfold opens. by rewrite Ho.
      * rewrite filter_cons_False; [done|]. unfold undecodable, envelope. by rewrite Ho, Hd, andb_false_r.
      * rewrite !Nat.add_0_r. by apply IH.
    + apply (pulled_cons _ _ _ _ _ _ _ e 0 0 1).
      * left. unfold envelope. cbn [omap list_omap]. by rewrite Ho, Hd.
      * rewrite filter_cons_False; [done|]. unfold opens. by rewrite Ho.
      * rewrite filter_cons_True; [done|]. unfold undecodable, opens, envelope. by rewrite Ho, Hd.
      * rewrite !Nat.add_0_r, Nat.add_1_r. by apply IH.
    + exists [], blob, blobs, env. unfold envelope. by rewrite Ho.
  - apply (pulled_cons _ _ _ _ _ _ _ e 0 1 0).
    + left. unfold envelope. cbn [omap list_omap]. by rewrite Ho.
    + rewrite filter_cons_True; [done|]. unfold opens. by rewrite Ho.
    + rewrite filter_cons_False; [done|]. unfold undecodable, opens. by rewrite Ho.
    + rewrite !Nat.add_0_r, Nat.add_1_r. by apply IH.
Qed.

(** The epoch never moves backwards. *)
Lemma merge_all_epoch stamp e ep envs :
  (ep <= compaction_epoch (se_log e) <= u64_max)%N -> (forall env, env ∈ envs -> (env_epoch env <= ep)%N) ->
  (ep <= compaction_epoch (se_log (merge_all stamp e envs).1))%N.
Proof.
  revert e. induction envs as [|env envs IH]; intros e [Hle Hb] Henvs; [done|]. rewrite merge_all_cons. cbn [fst].
  assert (He : (env_epoch env <= compaction_epoch (se_log e))%N) by (etransitivity; [apply Henvs; by left|done]).
  pose proof (merge_delta_epoch stamp e env Hb He). apply IH; [lia|]. intros env' Hin. apply Henvs. by right.
Qed.

(** C35: What an untrusted relay can do to a puller.  Whatever page the transport
    returns: a pull that fails leaves the client as it was, cursors included, so
    that the retry fetches the page again; it fails because the transport does,
    and then the engine is untouched, or because of the first delta from a later
    compaction epoch, those before it being merged.  A pull that succeeds has
    merged exactly the envelopes that open under the key and decode, in order,
    and counts each blob once: as absorbed with the operations its merge brought,
    as skipped when it does not open, as malformed when it opens and does not
    decode; its cursor is the larger of the relay's and the number of blobs
    consumed, a [u64].  However many blobs are forged or undecodable, a page
    without deltas of a later epoch succeeds.  (The relay's cursor is taken as it
    is: see [relay_cursor_skips_everything].) *)
Theorem pull_hostile_relay stamp c e (st : St) :
  (compaction_epoch (se_log e) <= u64_max)%N -> (pull_cursor c <= u64_max)%N ->
  forall c' e' r, pull_reporting stamp c e st = (c', e', r) ->
  match pull st (cl_topic c) (pull_cursor c) with
  | Err x => c' = c /\ e' = e /\ r = Err (TransportError x)
  | Ok page =>
      match r with
      | Ok rep =>
          c' = with_cursor c (N.max (next_cursor page) (u64_wrapping_add (pull_cursor c) (N.of_nat (length (page_blobs page))))) /\
          (e', absorbed_ops rep) = merge_all stamp e (omap (envelope c) (page_blobs page)) /\
          skipped rep = length (base.filter (fun b => opens c b = false) (page_blobs page)) /\
          malformed rep = length (base.filter (fun b => undecodable c b = true) (page_blobs page)) /\
          length (page_blobs page) = (length (omap (envelope c) (page_blobs page)) + skipped rep + malformed rep)%nat
      | Err err =>
          c' = c /\ exists before blob after env, page_blobs page = before ++ blob :: after /\ envelope c blob = Some env /\
            e' = (merge_all stamp e (omap (envelope c) before)).1 /\ (compaction_epoch (se_log e') < env_epoch env)%N /\
            err = Sync (CompactionEpochBehind (compaction_epoch (se_log e')) (env_epoch env))
      end /\
      ((forall blob env, blob ∈ page_blobs page -> envelope c blob = Some env -> (env_epoch env <= compaction_epoch (se_log e))%N) ->
       is_ok r = true)
  end.
Proof.
  intros Hb Hcur c' e' r. unfold pull_reporting. destruct (pull st (cl_topic c) (pull_cursor c)) as [page|x]; [|by intros [= <- <- <-]].
  pose proof (pull_blobs_exact stamp c e (mk_report 0 0 0) (pull_cursor c) (page_blobs page) Hcur) as Hs.
  destruct (pull_blobs stamp c e _ (pull_cursor c) (page_blobs page)) as [e1 [[r1 n1]|err]]; cbn [fst snd] in Hs; intros [= <- <- <-].
  - destruct Hs as (-> & Ha & Hsk & Hma & ->). cbn in Ha, Hsk, Hma. split; [|done]. split_and!; [done| |done|done|].
    + rewrite Ha. by destruct (merge_all _ _ _).
    + rewrite Hsk, Hma. apply blobs_sorted.
  - destruct Hs as (before & blob & after & env & Hp & Henv & He & Hlt & ->). split; [split; [done|]; by exists before, blob, after, env|].
    intros Hno. exfalso. rewrite Hp in Hno.
    assert (Hle : (compaction_epoch (se_log e) <= compaction_epoch (se_log e1))%N).
    { rewrite He. apply merge_all_epoch; [lia|]. intros env' (b & Hin & Hb')%list_elem_of_omap. apply (Hno b); [|done].
      apply elem_of_app. by left. }
    specialize (Hno blob env ltac:(apply elem_of_app; right; by left) Henv). lia.
Qed.

(** C36: what one device pushes, the next device's pull shows.  Through any
    faithful transport and a correct codec, a push that uploads operations,
    followed by the pull of a caught-up device holding the same key and topic,
    leaves the second device showing exactly the join of both replicas, and
    caught up again: its cursor is the offset a log of that length has. *)
Theorem relay_delivers `{!Faithful (Nonce := Nonce) (Bytes := Bytes) St Er} stamp cs cr es er
    (st st' : St) nonce cs' n cr' er' res :
  engine_wf er -> coherent (ops (se_log er) ++ ops (se_log es)) ->
  serde_roundtrips (Bytes := Bytes) (own_delta_since (se_log es) (own_push_watermark cs)) ->
  cl_topic cr = cl_topic cs -> cl_seal_key cr = cl_seal_key cs ->
  N.to_nat (pull_cursor cr) = length (stored st (cl_topic cs)) ->
  (forall o, o ∈ ops (se_log es) -> op_replica_id o = replica_id (se_log es) ->
     (op_seq o <= own_push_watermark cs)%N -> o ∈ ops (se_log er)) ->
  (forall o, o ∈ ops (se_log es) -> op_replica_id o <> replica_id (se_log es) ->
     o ∈ ops (se_log er)) ->
  (compaction_epoch (se_log es) <= compaction_epoch (se_log er))%N ->
  client_push cs es st nonce = (cs', st', Ok (S n)) ->
  forall page, pull st' (cl_topic cr) (pull_cursor cr) = Ok page ->
  pull_reporting stamp cr er st' = (cr', er', res) ->
  exists k, res = Ok {| absorbed_ops := k; skipped := 0; malformed := 0 |} /\
    (forall v t, live (view (se_log er')) v t <->
       live (AddWinsSet.merge (view (se_log er)) (view (se_log es))) v t) /\
    own_push_watermark cs' = clock (se_log es) /\
    pull_cursor cr' = cursor_of (length (stored st' (cl_topic cs))).
Proof.
  intros Hwf Hcoh Hrt Htopic Hkey Hcur Hheld Hfor Hep Hpush page Hpage Hpull.
  unfold client_push in Hpush. destruct (_ <=? _)%N; [done|]. destruct (_ =? _)%nat; [done|].
  destruct (encode_own_delta_since (se_log es) (own_push_watermark cs)) as [pt|] eqn:Eenc; [|done].
  unfold seal in Hpush. destruct (encrypt_aead _ nonce pt _) as [ct|] eqn:Eae; [|done].
  destruct (push st (cl_topic cs) _) as [st1 [cur|]] eqn:Epush; [|done].
  injection Hpush as <- <- _.
  destruct (push_ok _ _ _ _ _ Epush) as (Hst & _ & _).
  destruct (pull_ok _ _ _ _ Hpage) as [Hblobs Hnext].
  rewrite Htopic, Hst, Hcur, drop_app_length in Hblobs.
  unfold pull_reporting in Hpull. rewrite Hpage, Hblobs in Hpull. cbn [pull_blobs] in Hpull.
  unfold open in Hpull. cbn [sd_nonce sd_ciphertext] in Hpull.
  rewrite Hkey, Htopic, (decrypt_encrypt _ _ _ _ _ Eae) in Hpull. cbn [ok_or] in Hpull.
  destruct (apply_delta_join stamp er (se_log es) pt (own_push_watermark cs) true Hwf Hcoh Eenc Hrt
              Hheld (fun _ => Hfor) Hep) as (e' & k & Ha & Hlive).
  rewrite Ha in Hpull. cbn in Hpull. injection Hpull as <- <- <-.
  exists k. split_and!; [done|exact Hlive|done|]. cbn [pull_cursor with_cursor].
  rewrite Hnext, Htopic, Hst, length_app. cbn [length]. unfold cursor_of.
  destruct (u64_wrapping_add_bound (pull_cursor cr) 1). lia.
Qed.
End ClientFacts.

(** ** Two devices behind one transport *)

Section Demo.
#[local] Existing Instance hash_order_id.
#[local] Existing Instance identity_serde.

(** Sealing that adds nothing, under the key type of the client. *)
Definition open_aead (Bytes : Type) : Aead (list N) unit Bytes.
Proof.
  refine {| encrypt_aead _ _ pt _ := Some pt; decrypt_aead _ _ ct _ := Some ct |}.
  intros k n pt aad ct H. by symmetry.
Defined.
#[local] Existing Instance open_aead.

Abbreviation blob := (SealedDelta unit (DeltaEnvelope string)).
Definition device : SyncClient :=
  {| cl_scope := 7; cl_topic := repeat 5%N 32; cl_seal_key := repeat 9%N 32;
     own_push_watermark := 0; pull_cursor := 0 |}.
Definition relay0 : InMemoryTransport (Nonce := unit) (Bytes := DeltaEnvelope string) := new_transport.
Definition author1 : SyncEngine string := with_compaction_policy demo_added Disabled.

Lemma author1_wf : engine_wf author1.
Proof. apply engine_wf_policy, demo_wf. Defined.

Definition pushed := client_push device author1 relay0 tt.
Definition pulled := pull_reporting demo_stamp device receiver pushed.1.2.

Lemma coherent_demo : coherent (ops (se_log receiver) ++ ops (se_log author1)).
Proof.
  intros o o' Ho Ho' _. vm_compute in Ho, Ho'.
  apply list_elem_of_singleton in Ho as ->. by apply list_elem_of_singleton in Ho' as ->.
Defined.

Lemma relay_delivers_witness :
  exists k, pulled.2 = Ok {| absorbed_ops := k; skipped := 0; malformed := 0 |}
    /\ pull_cursor pulled.1.1 = 1%N.
Proof.
  destruct (relay_delivers demo_stamp device device author1 receiver relay0 pushed.1.2 tt
              pushed.1.1 0 pulled.1.1 pulled.1.2 pulled.2 receiver_wf coherent_demo)
    with (page := {| next_cursor := 1%N;
                     page_blobs := [{| sd_nonce := tt; sd_ciphertext := own_delta_since (se_log author1) 0 |}] |})
    as (k & H1 & _ & _ & H2); try (vm_compute; reflexivity).
  - intros b [= <-]. reflexivity.
  - intros o Ho _ Hseq. exfalso. vm_compute in Ho. apply list_elem_of_singleton in Ho as ->.
    vm_compute in Hseq. congruence.
  - intros o Ho Hne. exfalso. vm_compute in Ho. apply list_elem_of_singleton in Ho as ->.
    by apply Hne.
  - vm_compute. congruence.
  - exists k. split; [exact H1|exact H2].
Defined.

(** The page that holds the author's delta. *)
Lemma pull_hostile_relay_witness :
  pulled.1.1 = with_cursor device 1 /\ is_ok pulled.2 = true /\
  pulled.1.2 = (merge_all demo_stamp receiver [own_delta_since (se_log author1) 0]).1.
Proof.
  pose proof (pull_hostile_relay demo_stamp device receiver pushed.1.2 ltac:(by vm_compute) ltac:(by vm_compute)
    pulled.1.1 pulled.1.2 pulled.2 ltac:(reflexivity)) as H.
  assert (Hp : pull pushed.1.2 (cl_topic device) (pull_cursor device) = Ok {| next_cursor := 1%N;
     page_blobs := [{| sd_nonce := tt; sd_ciphertext := own_delta_since (se_log author1) 0 |}] |}) by (vm_compute; reflexivity).
  rewrite Hp in H. destruct H as [H _]. assert (Hok : is_ok pulled.2 = true) by (vm_compute; reflexivity).
  destruct pulled.2 as [rep|err]; [|discriminate Hok]. destruct H as (Hc & He & _). split; [|split; [reflexivity|]].
  - rewrite Hc. vm_compute. reflexivity.
  - apply (f_equal fst) in He. exact He.
Defined.

(** The relay's cursor is believed: after one empty page with the largest cursor
    the client asks any relay for what comes after it, for ever. *)
Definition lying_relay : SyncTransport unit (DeltaEnvelope string) (PullPage unit (DeltaEnvelope string)) Empty_set :=
  {| push st _ _ := (st, Ok 0%N); pull st _ _ := Ok st |}.
Definition misled : SyncClient := (pull_reporting (Tr := lying_relay) demo_stamp device receiver (mk_page u64_max [])).1.1.
Example relay_cursor_skips_everything :
  length (raw_blobs pushed.1.2 (cl_topic device)) = 1%nat /\
  pull_reporting demo_stamp misled receiver pushed.1.2 = (misled, receiver, Ok (mk_report 0 0 0)) /\
  pull_cursor misled = u64_max.
Proof. split_and!; vm_compute; reflexivity. Qed.

Definition small_store : InMemoryBlobStore (Nonce := unit) (Bytes := DeltaEnvelope string) :=
  new_store {| max_blobs_per_topic := 2; max_blob_bytes := 8 |}.

Lemma blob_store_spec_witness :
  let '(st', r) := append (fun _ => 1%N) small_store "t" [] [] in store_wf (fun _ => 1%N) st'.
Proof.
  pose proof (blob_store_spec (fun _ => 1%N) small_store "t" [] []) as H.
  destruct (append (fun _ => 1%N) small_store "t" [] []) as [st' r].
  apply H.
  - intros k v Hv. vm_compute in Hv. discriminate.
  - vm_compute. reflexivity.
Defined.

(** The author removes the value its peer has, and compacts: its log is empty
    and one epoch later. *)
Definition emptied : SyncEngine string :=
  (SyncEngine.compact demo_stamp (SyncEngine.remove demo_stamp author1 "a")).1.
Definition pushed_again := client_push pushed.1.1 emptied pushed.1.2 tt.
Definition pulled_again := pull_reporting demo_stamp pulled.1.1 pulled.1.2 pushed_again.1.2.

(** A removal can be lost for good.  The author's value has reached its
    peer through the relay; the author removes it and compacts to the empty
    log.  Its next push reports success without sending anything and advances
    the watermark past the removal, so the peer's next pull succeeds with
    nothing, learns neither the removal nor the later epoch, and the two
    devices, both caught up, show different sets. *)
Theorem compacted_removal_never_sent :
  pushed.2 = Ok 1%nat /\ is_ok pulled.2 = true /\
  compaction_epoch (se_log emptied) = 1%N /\ ops (se_log emptied) = [] /\
  pushed_again.2 = Ok 0%nat /\ pushed_again.1.2 = pushed.1.2 /\
  own_push_watermark pushed_again.1.1 = clock (se_log emptied) /\
  pulled_again.2 = Ok {| absorbed_ops := 0; skipped := 0; malformed := 0 |} /\
  contains (view (se_log emptied)) "a" = false /\
  contains (view (se_log pulled_again.1.2)) "a" = true /\
  compaction_epoch (se_log pulled_again.1.2) = 0%N.
Proof. by split_and!; vm_compute. Qed.
End Demo.
