(* ===== verification/Namespace.v ===== *)
(** * Relations and namespaces ([permission_service/src/tuple.rs],
    [namespace.rs], [error.rs])

    The vocabulary of relation tuples and the per-object-type inheritance of
    relations.  [closure] is the worklist loop of the source; it is proved to
    terminate and to compute reflexive-transitive reachability. *)

From S2P Require Import Prelude.

(** ** Tuples *)

(** [enum ObjectType], [enum Relation]. *)
Inductive ObjectType : Type :=
| Tenant | Domain | Channel | User | Group | Device | Concept | Summary | Workflow
| ExportProfile | Agent.
Abbreviation SubjectType := ObjectType (only parsing).

Inductive Relation : Type :=
| Owner | Admin | Editor | Member | Viewer | Synthesizer | Proposer.

#[export] Instance ObjectType_eq_dec : EqDecision ObjectType.
Proof. solve_decision. Defined.
#[export] Instance Relation_eq_dec : EqDecision Relation.
Proof. solve_decision. Defined.

(** The stable tags [as_str]. *)
Definition object_type_str (t : ObjectType) : string :=
  match t with
  | Tenant => "tenant" | Domain => "domain" | Channel => "channel" | User => "user"
  | Group => "group" | Device => "device" | Concept => "concept" | Summary => "summary"
  | Workflow => "workflow" | ExportProfile => "export_profile" | Agent => "agent"
  end.
Definition relation_str (r : Relation) : string :=
  match r with
  | Owner => "owner" | Admin => "admin" | Editor => "editor" | Member => "member"
  | Viewer => "viewer" | Synthesizer => "synthesizer" | Proposer => "proposer"
  end.

Definition all_object_types : list ObjectType :=
  [Tenant; Domain; Channel; User; Group; Device; Concept; Summary; Workflow; ExportProfile; Agent].
Definition all_relations : list Relation :=
  [Owner; Admin; Editor; Member; Viewer; Synthesizer; Proposer].

Lemma elem_of_all_object_types t : t ∈ all_object_types.
Proof. destruct t; unfold all_object_types; set_solver. Qed.
Lemma elem_of_all_relations r : r ∈ all_relations.
Proof. destruct r; unfold all_relations; set_solver. Qed.

(** The tags identify the constructors, so they can serve as codes. *)
Lemma find_object_type t :
  find (fun t' => String.eqb (object_type_str t') (object_type_str t)) all_object_types = Some t.
Proof. by destruct t. Qed.
Lemma find_relation r :
  find (fun r' => String.eqb (relation_str r') (relation_str r)) all_relations = Some r.
Proof. by destruct r. Qed.

#[export] Instance ObjectType_countable : Countable ObjectType :=
  inj_countable object_type_str
    (fun s => find (fun t' => String.eqb (object_type_str t') s) all_object_types) find_object_type.
#[export] Instance Relation_countable : Countable Relation :=
  inj_countable relation_str
    (fun s => find (fun r' => String.eqb (relation_str r') s) all_relations) find_relation.

(** [struct ObjectRef], [struct SubjectRef], [struct RelationTuple]. *)
Record ObjectRef : Type := mk_object { object_type : ObjectType; object_id : uuid }.
Record SubjectRef : Type := mk_subject {
  subject_type : SubjectType;
  subject_id : uuid;
  subject_relation : option Relation
}.
Record RelationTuple : Type := mk_tuple {
  tuple_object : ObjectRef;
  tuple_relation : Relation;
  tuple_subject : SubjectRef
}.

(** [SubjectRef::direct], [SubjectRef::via]. *)
Definition direct (t : SubjectType) (id : uuid) : SubjectRef := mk_subject t id None.
Definition via (t : SubjectType) (id : uuid) (r : Relation) : SubjectRef := mk_subject t id (Some r).

#[export] Instance ObjectRef_eq_dec : EqDecision ObjectRef.
Proof. solve_decision. Defined.
#[export] Instance SubjectRef_eq_dec : EqDecision SubjectRef.
Proof. solve_decision. Defined.
#[export] Instance RelationTuple_eq_dec : EqDecision RelationTuple.
Proof. solve_decision. Defined.
#[export] Instance ObjectRef_countable : Countable ObjectRef.
Proof.
  refine (inj_countable' (fun o => (object_type o, object_id o)) (fun p => mk_object p.1 p.2) _).
  by intros [].
Defined.
#[export] Instance SubjectRef_countable : Countable SubjectRef.
Proof.
  refine (inj_countable' (fun s => (subject_type s, subject_id s, subject_relation s))
            (fun p => mk_subject p.1.1 p.1.2 p.2) _).
  by intros [].
Defined.
#[export] Instance RelationTuple_countable : Countable RelationTuple.
Proof.
  refine (inj_countable' (fun t => (tuple_object t, tuple_relation t, tuple_subject t))
            (fun p => mk_tuple p.1.1 p.1.2 p.2) _).
  by intros [].
Defined.

(** [enum PermissionError]; driver errors are kept as their message. *)
Inductive PermissionError : Type :=
| DuplicateTuple
| NotFound
| NamespaceAlreadyRegistered (t : ObjectType)
| Persistence (msg : string)
| Sqlite (msg : string)
| Crypto (msg : string).

(** The hand-written [PartialEq]: driver errors are never equal. *)
Definition permission_error_eqb (a b : PermissionError) : bool :=
  match a, b with
  | DuplicateTuple, DuplicateTuple => true
  | NotFound, NotFound => true
  | NamespaceAlreadyRegistered s, NamespaceAlreadyRegistered t => bool_decide (s = t)
  | Persistence m, Persistence n => String.eqb m n
  | _, _ => false
  end.

(** ** Namespaces *)

(** [struct NamespaceConfig]. *)
Record NamespaceConfig : Type := mk_config {
  ns_object_type : ObjectType;
  ns_implies : gmap Relation (list Relation)
}.

(** [NamespaceConfig::new], [NamespaceConfig::imply]. *)
Definition new_config (t : ObjectType) : NamespaceConfig :=
  {| ns_object_type := t; ns_implies := ∅ |}.
Definition imply (cfg : NamespaceConfig) (parent : Relation) (children : list Relation) :
    NamespaceConfig :=
  {| ns_object_type := ns_object_type cfg;
     ns_implies := <[parent := default [] (ns_implies cfg !! parent) ++ children]> (ns_implies cfg) |}.

(** The children pushed when [r] is expanded. *)
Definition children (cfg : NamespaceConfig) (r : Relation) : list Relation :=
  default [] (ns_implies cfg !! r).

(** The loop of [NamespaceConfig::closure]: [stack]'s head is the vector's
    last element, [out] in order of discovery. *)
Fixpoint closure_loop (fuel : nat) (cfg : NamespaceConfig) (stack out : list Relation) :
    option (list Relation) :=
  match fuel with
  | O => None
  | S fuel =>
      match stack with
      | [] => Some out
      | r :: stack =>
          if bool_decide (r ∈ out) then closure_loop fuel cfg stack out
          else closure_loop fuel cfg (foldl (fun st c => c :: st) stack (children cfg r)) (out ++ [r])
      end
  end.

(** Iterations the loop may take: one per push and the final test. *)
Definition closure_fuel (cfg : NamespaceConfig) : nat :=
  2 + sum_list_with (fun r => length (children cfg r)) all_relations.

(** [NamespaceConfig::closure]. *)
Definition config_closure (cfg : NamespaceConfig) (from : Relation) : list Relation :=
  default [] (closure_loop (closure_fuel cfg) cfg [from] []).

(** [struct NamespaceRegistry]. *)
Definition NamespaceRegistry : Type := gmap ObjectType NamespaceConfig.

(** [NamespaceRegistry::register]. *)
Definition register (cfg : NamespaceConfig) : eff NamespaceRegistry PermissionError unit :=
  fun reg =>
  match reg !! ns_object_type cfg with
  | Some _ => (reg, Err (NamespaceAlreadyRegistered (ns_object_type cfg)))
  | None => (<[ns_object_type cfg := cfg]> reg, Ok tt)
  end.

(** The chain of [with_defaults] for one object type. *)
Definition default_config (t : ObjectType) : NamespaceConfig :=
  imply (imply (imply (imply (new_config t) Owner [Admin]) Admin [Editor]) Editor [Member])
        Member [Viewer].

(** [NamespaceRegistry::with_defaults]; the [expect] never fires (each type is
    registered once). *)
Definition with_defaults : NamespaceRegistry :=
  foldl (fun reg t => (register (default_config t) reg).1) ∅ [Tenant; Domain; Channel; User].

(** [NamespaceRegistry::closure], [NamespaceRegistry::implies]. *)
Definition closure (reg : NamespaceRegistry) (t : ObjectType) (from : Relation) : list Relation :=
  match reg !! t with
  | Some ns => config_closure ns from
  | None => [from]
  end.
Definition implies (reg : NamespaceRegistry) (t : ObjectType) (held wanted : Relation) : bool :=
  bool_decide (wanted ∈ closure reg t held).

(** ** Specification: reachability through the inheritance edges *)

(** [child] is listed under [parent] for that object type. *)
Definition edge (reg : NamespaceRegistry) (t : ObjectType) (parent child : Relation) : Prop :=
  exists cfg, reg !! t = Some cfg /\ child ∈ children cfg parent.

Section Closure.
Variable cfg : NamespaceConfig.

Lemma foldl_cons_rev {A} (stack l : list A) : foldl (fun st c => c :: st) stack l = rev l ++ stack.
Proof.
  revert stack. induction l as [|c l IH]; intros stack; simpl; [done|].
  by rewrite IH, <- (assoc_L (++)).
Qed.

(** Children of the relations not yet in [out]. *)
Definition pending (out : list Relation) : nat :=
  sum_list_with (fun r => if bool_decide (r ∈ out) then 0%nat else length (children cfg r)) all_relations.

Lemma pending_expand r out :
  r ∉ out -> (pending (out ++ [r]) + length (children cfg r) = pending out)%nat.
Proof.
  intros Hr. unfold pending.
  assert (Hgen : forall l, NoDup l -> (sum_list_with (fun x => if bool_decide (x ∈ out ++ [r]) then 0%nat
            else length (children cfg x)) l + (if bool_decide (r ∈ l) then length (children cfg r) else 0)
         = sum_list_with (fun x => if bool_decide (x ∈ out) then 0%nat else length (children cfg x)) l)%nat).
  { induction l as [|x l IH]; intros Hnd; [done|]. apply NoDup_cons in Hnd as [Hx Hnd].
    specialize (IH Hnd). cbn [sum_list_with].
    destruct (decide (x = r)) as [->|Hne].
    - rewrite (bool_decide_eq_true_2 (r ∈ out ++ [r])) by set_solver.
      rewrite (bool_decide_eq_false_2 (r ∈ out)) by done.
      rewrite (bool_decide_eq_true_2 (r ∈ r :: l)) by set_solver.
      rewrite (bool_decide_eq_false_2 (r ∈ l)) in IH by done. lia.
    - rewrite (bool_decide_ext (x ∈ out ++ [r]) (x ∈ out)) by set_solver.
      rewrite (bool_decide_ext (r ∈ x :: l) (r ∈ l)) by set_solver. lia. }
  rewrite <- (Hgen all_relations).
  - rewrite bool_decide_eq_true_2 by apply elem_of_all_relations. done.
  - apply (bool_decide_unpack _). by vm_compute.
Qed.

Lemma closure_loop_total fuel stack out :
  (length stack + pending out < fuel)%nat -> exists l, closure_loop fuel cfg stack out = Some l.
Proof.
  revert stack out. induction fuel as [|fuel IH]; intros stack out Hlt; [lia|].
  cbn [closure_loop]. destruct stack as [|r stack]; [eauto|]. cbn [length] in Hlt.
  case_bool_decide as Hr; apply IH; [lia|].
  rewrite foldl_cons_rev, length_app, length_rev. pose proof (pending_expand r out Hr). lia.
Qed.

Definition cfg_edge (p c : Relation) : Prop := c ∈ children cfg p.

Lemma rtc_closed (l : list Relation) a b :
  (forall p c, p ∈ l -> cfg_edge p c -> c ∈ l) -> rtc cfg_edge a b -> a ∈ l -> b ∈ l.
Proof. intros Hc. induction 1; eauto. Qed.

Lemma closure_loop_spec fuel from stack out l :
  closure_loop fuel cfg stack out = Some l ->
  (forall r, r ∈ out \/ r ∈ stack -> rtc cfg_edge from r) ->
  (forall p c, p ∈ out -> cfg_edge p c -> c ∈ out \/ c ∈ stack) ->
  (from ∈ out \/ from ∈ stack) ->
  forall r, r ∈ l <-> rtc cfg_edge from r.
Proof.
  revert stack out. induction fuel as [|fuel IH]; intros stack out Hl Hsound Hclosed Hfrom; [done|].
  cbn [closure_loop] in Hl. destruct stack as [|x stack].
  - injection Hl as ->. intros r. split; [auto|].
    intros Hr. apply (rtc_closed l from r); [|done|set_solver].
    intros p c Hp Hc. destruct (Hclosed p c Hp Hc); set_solver.
  - case_bool_decide as Hx.
    + apply (IH stack out); [done|set_solver|set_solver|set_solver].
    + apply (IH _ _ Hl); rewrite ?foldl_cons_rev.
      * intros r. rewrite !elem_of_app, elem_of_rev.
        intros [[Hr|Hr]|[Hr|Hr]]; [set_solver| | |set_solver].
        -- apply list_elem_of_singleton in Hr as ->. apply Hsound. set_solver.
        -- eapply rtc_r; [apply (Hsound x); set_solver|exact Hr].
      * intros p c. rewrite !elem_of_app, elem_of_rev.
        intros [Hp|Hp] Hc; [destruct (Hclosed p c Hp Hc); set_solver|].
        apply list_elem_of_singleton in Hp as ->. by right; left.
      * rewrite !elem_of_app. set_solver.
Qed.

Lemma config_closure_spec from r : r ∈ config_closure cfg from <-> rtc cfg_edge from r.
Proof.
  unfold config_closure.
  destruct (closure_loop_total (closure_fuel cfg) [from] []) as [l Hl].
  { unfold closure_fuel, pending. cbn [length].
    assert (forall l, sum_list_with (fun r => if bool_decide (r ∈ []) then 0%nat else length (children cfg r)) l
            = sum_list_with (fun r => length (children cfg r)) l) as ->; [|lia].
    intros l. induction l as [|x l IH]; [done|]. cbn [sum_list_with]. rewrite IH.
    by rewrite bool_decide_eq_false_2 by set_solver. }
  rewrite Hl. cbn [default].
  apply (closure_loop_spec _ _ _ _ _ Hl).
  - intros x [Hx|Hx]; [set_solver|]. apply list_elem_of_singleton in Hx as ->. apply rtc_refl.
  - set_solver.
  - set_solver.
Qed.
End Closure.

Lemma closure_spec reg t from r : r ∈ closure reg t from <-> rtc (edge reg t) from r.
Proof.
  unfold closure. destruct (reg !! t) as [cfg|] eqn:E.
  - rewrite config_closure_spec. split; apply rtc_subrel; clear from r; intros p c H.
    + exists cfg. done.
    + destruct H as (cfg' & H' & Hc). by simplify_eq.
  - rewrite list_elem_of_singleton. split; [intros ->; apply rtc_refl|].
    intros Hr. destruct Hr as [|a b c (cfg & H & _) _]; [done|congruence].
Qed.

Lemma implies_spec reg t held wanted :
  implies reg t held wanted = true <-> rtc (edge reg t) held wanted.
Proof. unfold implies. by rewrite bool_decide_eq_true, closure_spec. Qed.

(** The place of a relation in the chain Owner, Admin, Editor, Member,
    Viewer. *)
Definition rank (r : Relation) : option nat :=
  match r with
  | Owner => Some 0%nat | Admin => Some 1%nat | Editor => Some 2%nat | Member => Some 3%nat
  | Viewer => Some 4%nat | Synthesizer | Proposer => None
  end.
Definition scope_type (t : ObjectType) : bool :=
  match t with Tenant | Domain | Channel | User => true | _ => false end.
Definition chain_implies (t : ObjectType) (held wanted : Relation) : bool :=
  bool_decide (held = wanted)
  || scope_type t && match rank held, rank wanted with
                     | Some i, Some j => (i <=? j)%nat
                     | _, _ => false
                     end.

Lemma default_chain t held wanted : implies with_defaults t held wanted = chain_implies t held wanted.
Proof. by destruct t, held, wanted; vm_compute. Qed.

(** Relation inheritance.  The worklist loop of [closure] ends for every
    configuration, cyclic ones included, and yields exactly the relations
    reachable from the given one; registering a type twice is refused and
    leaves the registry alone; and the default registry implies exactly the
    chain Owner, Admin, Editor, Member, Viewer on the four scope types, every
    other relation and type implying itself only. *)
Theorem namespace_closure :
  (forall cfg from, exists l, closure_loop (closure_fuel cfg) cfg [from] [] = Some l) /\
  (forall reg t from r, r ∈ closure reg t from <-> rtc (edge reg t) from r) /\
  (forall reg cfg, match register cfg reg with
     | (reg', Ok _) => reg !! ns_object_type cfg = None /\ reg' = <[ns_object_type cfg := cfg]> reg
     | (reg', Err e) => is_Some (reg !! ns_object_type cfg) /\ reg' = reg
                        /\ e = NamespaceAlreadyRegistered (ns_object_type cfg)
     end) /\
  (forall t held wanted, implies with_defaults t held wanted = chain_implies t held wanted).
Proof.
  split_and!.
  - intros cfg from. apply closure_loop_total. unfold closure_fuel, pending. cbn [length].
    assert (forall l, (sum_list_with (fun r => if bool_decide (r ∈ []) then 0 else length (children cfg r)) l
            <= sum_list_with (fun r => length (children cfg r)) l)%nat) as H; [|specialize (H all_relations); lia].
    intros l. induction l as [|x l IH]; [done|]. cbn [sum_list_with]. case_bool_decide; lia.
  - apply closure_spec.
  - intros reg cfg. unfold register. destruct (reg !! ns_object_type cfg) eqn:E; [|done].
    split_and!; [by eexists|done|done].
  - apply default_chain.
Qed.
