(* ===== verification/TupleStore.v ===== *)
(** * The tuple store ([permission_service/src/store.rs])

    The authoritative set of relation tuples with its derived
    (object, relation) index.  The index lists exactly the stored tuples after
    every call, refused calls included, and is rebuilt by deserialisation. *)

From S2P Require Import Prelude Namespace.

(** ** The store *)

(** [struct TupleStore]. *)
Record TupleStore : Type := mk_store {
  tuples : gset RelationTuple;
  index : gmap (ObjectRef * Relation) (list RelationTuple)
}.

(** [TupleStore::new]. *)
Definition new : TupleStore := {| tuples := ∅; index := ∅ |}.

Definition tuple_key (t : RelationTuple) : ObjectRef * Relation := (tuple_object t, tuple_relation t).

(** [index_push]. *)
Definition index_push (ix : gmap (ObjectRef * Relation) (list RelationTuple)) (t : RelationTuple) :
    gmap (ObjectRef * Relation) (list RelationTuple) :=
  <[tuple_key t := default [] (ix !! tuple_key t) ++ [t]]> ix.

(** [Vec::swap_remove]: the last element takes the place of the removed
    one. *)
Definition swap_remove {A} (l : list A) (pos : nat) : list A :=
  match last l with
  | None => l
  | Some x => <[pos := x]> (take (length l - 1) l)
  end.

(** [bucket.iter().position(|t| t == tuple)]. *)
Fixpoint position (l : list RelationTuple) (t : RelationTuple) : option nat :=
  match l with
  | [] => None
  | x :: l => if bool_decide (x = t) then Some 0%nat else S <$> position l t
  end.

(** [index_remove]. *)
Definition index_remove (ix : gmap (ObjectRef * Relation) (list RelationTuple)) (t : RelationTuple) :
    gmap (ObjectRef * Relation) (list RelationTuple) :=
  match ix !! tuple_key t with
  | None => ix
  | Some bucket =>
      let bucket := match position bucket t with
                    | Some pos => swap_remove bucket pos
                    | None => bucket
                    end in
      match bucket with
      | [] => base.delete (tuple_key t) ix
      | _ => <[tuple_key t := bucket]> ix
      end
  end.

(** [TupleStore::insert], [upsert], [remove]. *)
Definition insert (t : RelationTuple) : eff TupleStore PermissionError unit := fun s =>
  if bool_decide (t ∈ tuples s) then (s, Err DuplicateTuple)
  else ({| tuples := {[t]} ∪ tuples s; index := index_push (index s) t |}, Ok tt).

Definition upsert (t : RelationTuple) (s : TupleStore) : TupleStore * bool :=
  if bool_decide (t ∈ tuples s) then (s, false)
  else ({| tuples := {[t]} ∪ tuples s; index := index_push (index s) t |}, true).

Definition remove (t : RelationTuple) : eff TupleStore PermissionError unit := fun s =>
  if bool_decide (t ∈ tuples s)
  then ({| tuples := tuples s ∖ {[t]}; index := index_remove (index s) t |}, Ok tt)
  else (s, Err NotFound).

(** [contains], [len], [is_empty], [iter_for_object_relation]. *)
Definition contains (s : TupleStore) (t : RelationTuple) : bool := bool_decide (t ∈ tuples s).
Definition len (s : TupleStore) : nat := size (tuples s).
Definition is_empty (s : TupleStore) : bool := (len s =? 0)%nat.
Definition iter_for_object_relation (s : TupleStore) (o : ObjectRef) (r : Relation) :
    list RelationTuple :=
  default [] (index s !! (o, r)).

(** [rebuild_index], and [Deserialize]: the wire carries the set only. *)
Definition rebuild_index `{HashOrder} (ts : gset RelationTuple) : TupleStore :=
  {| tuples := ts; index := foldl index_push ∅ (hash_order (elements ts)) |}.
Definition serialize (s : TupleStore) : gset RelationTuple := tuples s.
Definition deserialize `{HashOrder} (wire : gset RelationTuple) : TupleStore := rebuild_index wire.

(** The index lists, without repetition, the tuples of each key, and has no
    empty bucket. *)
Record store_wf (s : TupleStore) : Prop := {
  sw_bucket : forall k b, index s !! k = Some b ->
    b <> [] /\ NoDup b /\ forall t, t ∈ b <-> t ∈ tuples s /\ tuple_key t = k;
  sw_none : forall k, index s !! k = None -> forall t, t ∈ tuples s -> tuple_key t <> k
}.

Lemma elem_of_iter s o r t :
  store_wf s -> t ∈ iter_for_object_relation s o r <-> t ∈ tuples s /\ tuple_key t = (o, r).
Proof.
  intros [Hb Hn]. unfold iter_for_object_relation. destruct (index s !! (o, r)) as [b|] eqn:E; cbn.
  - by apply Hb.
  - split; [set_solver|]. intros [Ht Hk]. by destruct (Hn _ E t Ht).
Qed.

Lemma store_wf_new : store_wf new.
Proof. split; cbn; [by intros k b|set_solver]. Qed.

Lemma store_wf_push ts ix t :
  store_wf {| tuples := ts; index := ix |} -> t ∉ ts ->
  store_wf {| tuples := {[t]} ∪ ts; index := index_push ix t |}.
Proof.
  intros [Hb Hn] Ht. cbn in *. unfold index_push. split; cbn.
  - intros k b. rewrite lookup_insert_Some. intros [[<- <-]|[Hne Hk]].
    + destruct (ix !! tuple_key t) as [b|] eqn:E; cbn.
      * destruct (Hb _ _ E) as (_ & Hnd & Hm). split_and!; [by destruct b| |].
        -- apply NoDup_app. split_and!; [done| |apply NoDup_singleton].
           intros x Hx Hx'. apply list_elem_of_singleton in Hx' as ->. apply Hm in Hx. tauto.
        -- intros x. rewrite elem_of_app, Hm. set_solver.
      * split_and!; [done|apply NoDup_singleton|]. intros x. rewrite list_elem_of_singleton.
        specialize (Hn _ E x). set_solver.
    + destruct (Hb _ _ Hk) as (Hne' & Hnd & Hm). split_and!; [done|done|].
      intros x. rewrite Hm. set_solver.
  - intros k. rewrite lookup_insert_None. intros [Hk Hne] x Hx.
    apply elem_of_union in Hx as [->%elem_of_singleton|Hx]; [done|by apply Hn].
Qed.

Lemma position_spec l t :
  match position l t with
  | Some i => l !! i = Some t
  | None => t ∉ l
  end.
Proof.
  induction l as [|x l IH]; cbn [position]; [set_solver|]. case_bool_decide as Hx; [by subst|].
  destruct (position l t) as [i|]; cbn; [done|set_solver].
Qed.

Lemma swap_remove_perm {A} (l : list A) i x : l !! i = Some x -> l ≡ₚ x :: swap_remove l i.
Proof.
  intros Hi. unfold swap_remove. destruct (last l) as [y|] eqn:El.
  2: { apply last_None in El as ->. done. }
  apply last_Some in El as [l' ->]. rewrite length_app. cbn [length].
  replace (length l' + 1 - 1)%nat with (length l') by lia. rewrite take_app_length.
  destruct (decide (i < length l')%nat) as [Hlt|Hge].
  - rewrite lookup_app_l in Hi by done.
    rewrite <- (take_drop_middle l' i x Hi) at 1.
    rewrite insert_take_drop by done. rewrite Permutation_app_comm. cbn.
    rewrite <- !Permutation_middle. apply Permutation_swap.
  - rewrite lookup_app_r in Hi by lia.
    assert (i - length l' = 0)%nat as H0 by (apply lookup_lt_Some in Hi; cbn in Hi; lia).
    rewrite H0 in Hi. cbn in Hi. injection Hi as ->.
    rewrite list_insert_ge by lia. by rewrite Permutation_app_comm.
Qed.

Lemma store_wf_remove s t : store_wf s -> store_wf (remove t s).1.
Proof.
  intros [Hb Hn]. unfold remove. case_bool_decide as Ht; [|by split]. cbn.
  unfold index_remove. destruct (index s !! tuple_key t) as [b|] eqn:E.
  2: { by destruct (Hn _ E t Ht). }
  destruct (Hb _ _ E) as (_ & Hnd & Hm).
  pose proof (position_spec b t) as Hp. destruct (position b t) as [i|].
  2: { destruct Hp. by apply Hm. }
  pose proof (swap_remove_perm b i t Hp) as Hperm. rewrite Hperm in Hnd.
  apply NoDup_cons in Hnd as [Htb Hnd].
  assert (Hm' : forall x, x ∈ swap_remove b i <-> x ∈ tuples s ∖ {[t]} /\ tuple_key x = tuple_key t).
  { intros x. rewrite elem_of_difference, elem_of_singleton. specialize (Hm x). rewrite Hperm in Hm.
    rewrite elem_of_cons in Hm. clear Hb Hn. split.
    - intros Hx. destruct (proj1 Hm (or_intror Hx)) as [? ?]. split_and!; [done|by intros ->|done].
    - intros [[Hx Hne] Hk]. by destruct (proj2 Hm (conj Hx Hk)). }
  destruct (swap_remove b i) as [|y b'] eqn:Es; split; cbn.
  - intros k bk. rewrite lookup_delete_Some. intros [Hne Hk]. destruct (Hb _ _ Hk) as (? & ? & Hmk).
    split_and!; [done|done|]. intros x. rewrite Hmk. set_solver.
  - intros k. rewrite lookup_delete_None. intros [<-|Hk] x Hx Hxk.
    + assert (x ∈ []) by (by apply Hm'). set_solver.
    + apply (Hn k Hk x); set_solver.
  - intros k bk. rewrite lookup_insert_Some. intros [[<- <-]|[Hne Hk]].
    + split_and!; [done|done|exact Hm'].
    + destruct (Hb _ _ Hk) as (? & ? & Hmk). split_and!; [done|done|]. intros x. rewrite Hmk. set_solver.
  - intros k. rewrite lookup_insert_None. intros [Hk Hne] x Hx. apply (Hn k Hk x). set_solver.
Qed.

Lemma store_wf_insert s t : store_wf s -> store_wf (insert t s).1.
Proof.
  intros Hwf. unfold insert. case_bool_decide; [done|]. cbn. apply store_wf_push; [|done].
  by destruct s.
Qed.

Lemma store_wf_rebuild `{HashOrder} ts : store_wf (rebuild_index ts).
Proof.
  unfold rebuild_index.
  assert (Hgen : forall l done ix, store_wf {| tuples := done; index := ix |} -> NoDup l ->
            (forall t, t ∈ l -> t ∉ done) ->
            store_wf {| tuples := list_to_set l ∪ done; index := foldl index_push ix l |}).
  { induction l as [|t l IH]; intros dn ix Hwf Hnd Hdis; cbn [foldl list_to_set].
    - by rewrite (left_id_L ∅ (∪)).
    - apply NoDup_cons in Hnd as [Ht Hnd].
      replace (({[t]} ∪ list_to_set l) ∪ dn : gset RelationTuple)
        with (list_to_set l ∪ ({[t]} ∪ dn) : gset RelationTuple) by set_solver.
      apply IH; [apply store_wf_push; [done|set_solver]|done|]. set_solver. }
  specialize (Hgen (hash_order (elements ts)) ∅ ∅ store_wf_new).
  rewrite (right_id_L ∅ (∪)) in Hgen.
  assert (list_to_set (hash_order (elements ts)) = ts) as Hts.
  { apply set_eq. intros t. rewrite elem_of_list_to_set, elem_of_hash_order. apply elem_of_elements. }
  rewrite Hts in Hgen. apply Hgen; [apply NoDup_hash_order, NoDup_elements|set_solver].
Qed.

(** ** The claims *)

(** The store behaves as its set of tuples.  From the empty store on, the
    index always lists exactly the stored tuples of each (object, relation), once
    each and in no empty bucket; a duplicate insert or the removal of an absent
    tuple is refused without a trace; the others change exactly that tuple;
    and a store sent over the wire comes back with the same tuples and a
    consistent index, whatever order the hash set iterates in. *)
Theorem tuple_store_spec `{HashOrder} s t :
  store_wf s ->
  store_wf new /\
  (store_wf (insert t s).1 /\ store_wf (upsert t s).1 /\ store_wf (remove t s).1) /\
  (t ∈ tuples s -> insert t s = (s, Err DuplicateTuple) /\ upsert t s = (s, false)
     /\ (remove t s).2 = Ok tt /\ tuples (remove t s).1 = tuples s ∖ {[t]}) /\
  (t ∉ tuples s -> remove t s = (s, Err NotFound)
     /\ (insert t s).2 = Ok tt /\ tuples (insert t s).1 = {[t]} ∪ tuples s
     /\ upsert t s = ((insert t s).1, true)) /\
  (forall o r x, x ∈ iter_for_object_relation s o r <-> x ∈ tuples s /\ tuple_key x = (o, r)) /\
  (store_wf (deserialize (serialize s)) /\ tuples (deserialize (serialize s)) = tuples s).
Proof.
  intros Hwf.
  assert (Hup : (upsert t s).1 = (insert t s).1) by (unfold upsert, insert; by case_bool_decide).
  split_and!.
  - apply store_wf_new.
  - by apply store_wf_insert.
  - rewrite Hup. by apply store_wf_insert.
  - by apply store_wf_remove.
  - intros Ht. unfold insert, upsert, remove. by rewrite !bool_decide_eq_true_2.
  - intros Ht. unfold insert, upsert, remove. by rewrite !bool_decide_eq_false_2.
  - intros o r x. by apply elem_of_iter.
  - apply store_wf_rebuild.
  - done.
Qed.

(** ** A concrete store *)

Definition tenant_ref : ObjectRef := mk_object Tenant 1.
Definition group_ref : ObjectRef := mk_object Group 2.
Definition grant_group : RelationTuple := mk_tuple tenant_ref Admin (via Group 2 Member).
Definition join_group : RelationTuple := mk_tuple group_ref Member (direct User 3).
Definition demo_store : TupleStore := (insert join_group (insert grant_group new).1).1.

Lemma demo_store_wf : store_wf demo_store.
Proof. apply store_wf_insert, store_wf_insert, store_wf_new. Defined.

Lemma tuple_store_spec_witness :
  insert grant_group demo_store = (demo_store, Err DuplicateTuple).
Proof.
  apply (tuple_store_spec (H := hash_order_id) demo_store grant_group demo_store_wf).
  vm_compute. reflexivity.
Defined.
