(* ===== verification/PermissionCheck.v ===== *)
(** * The permission decision ([permission_service/src/check.rs])

    [walk] is the recursive search of the source, threading its visited set;
    the recursion is bounded by the number of index buckets, which is proved to
    be enough.  The specification is the inductive reachability relation
    [granted], and the check decides it. *)

From S2P Require Import Prelude Namespace TupleStore.

(** [struct PermissionDecision]. *)
Record PermissionDecision : Type := mk_decision { allowed : bool }.

(** [covering_relations]. *)
Definition covering_relations (ns : NamespaceRegistry) (t : ObjectType) (wanted : Relation) :
    list Relation :=
  base.filter (fun r => bool_decide (r = wanted) || implies ns t r wanted = true) all_relations.

Abbreviation visited_set := (gset (ObjectRef * Relation)).

(** The direct-hit test on a tuple's subject. *)
Definition direct_hit (t : RelationTuple) (target : SubjectRef) : bool :=
  bool_decide (subject_type (tuple_subject t) = subject_type target)
  && N.eqb (subject_id (tuple_subject t)) (subject_id target)
  && bool_decide (subject_relation (tuple_subject t) = None)
  && bool_decide (subject_relation target = None).

(** [ObjectRef::new(tuple.subject.subject_type, tuple.subject.subject_id)]. *)
Definition next_object (t : RelationTuple) : ObjectRef :=
  mk_object (subject_type (tuple_subject t)) (subject_id (tuple_subject t)).

(** The inner loop of [walk], over the tuples of one bucket; [rec] is the
    recursive call. *)
Fixpoint walk_tuples (rec : ObjectRef -> Relation -> visited_set -> option (bool * visited_set))
    (target : SubjectRef) (ts : list RelationTuple) (visited : visited_set) :
    option (bool * visited_set) :=
  match ts with
  | [] => Some (false, visited)
  | t :: ts =>
      if direct_hit t target then Some (true, visited)
      else
        match subject_relation (tuple_subject t) with
        | Some rel =>
            match rec (next_object t) rel visited with
            | None => None
            | Some (true, visited) => Some (true, visited)
            | Some (false, visited) => walk_tuples rec target ts visited
            end
        | None => walk_tuples rec target ts visited
        end
  end.

(** The outer loop of [walk], over the covering relations. *)
Fixpoint walk_covers (rec : ObjectRef -> Relation -> visited_set -> option (bool * visited_set))
    (store : TupleStore) (object : ObjectRef) (target : SubjectRef) (covers : list Relation)
    (visited : visited_set) : option (bool * visited_set) :=
  match covers with
  | [] => Some (false, visited)
  | cover :: covers =>
      if bool_decide ((object, cover) ∈ visited) then
        walk_covers rec store object target covers visited
      else
        match walk_tuples rec target (iter_for_object_relation store object cover)
                ({[(object, cover)]} ∪ visited) with
        | None => None
        | Some (true, visited) => Some (true, visited)
        | Some (false, visited) => walk_covers rec store object target covers visited
        end
  end.

(** [walk]; [None] is running out of fuel. *)
Fixpoint walk (fuel : nat) (store : TupleStore) (ns : NamespaceRegistry) (target : SubjectRef)
    (object : ObjectRef) (wanted : Relation) (visited : visited_set) :
    option (bool * visited_set) :=
  match fuel with
  | O => None
  | S fuel =>
      walk_covers (walk fuel store ns target) store object target
        (covering_relations ns (object_type object) wanted) visited
  end.

(** Recursion depth that always suffices: one more than the number of index
    buckets. *)
Definition walk_fuel (store : TupleStore) : nat := S (size (index store)).

(** [PermissionCheck::evaluate], [check_permission]. *)
Definition evaluate (store : TupleStore) (ns : NamespaceRegistry) (object : ObjectRef)
    (relation : Relation) (subject : SubjectRef) : PermissionDecision :=
  {| allowed := match walk (walk_fuel store) store ns subject object relation ∅ with
                | Some (b, _) => b
                | None => false
                end |}.
Definition check_permission (store : TupleStore) (ns : NamespaceRegistry) (object : ObjectRef)
    (relation : Relation) (subject : SubjectRef) : bool :=
  allowed (evaluate store ns object relation subject).

(** ** Specification *)

(** [subject] holds [wanted] on [object]: some relation implying it is granted
    by a stored tuple to the subject itself, or to a userset the subject is
    in. *)
Inductive granted (store : TupleStore) (ns : NamespaceRegistry) (target : SubjectRef) :
    ObjectRef -> Relation -> Prop :=
| granted_direct object wanted cover t :
    rtc (edge ns (object_type object)) cover wanted ->
    t ∈ tuples store -> tuple_object t = object -> tuple_relation t = cover ->
    tuple_subject t = target -> subject_relation target = None ->
    granted store ns target object wanted
| granted_userset object wanted cover t rel :
    rtc (edge ns (object_type object)) cover wanted ->
    t ∈ tuples store -> tuple_object t = object -> tuple_relation t = cover ->
    subject_relation (tuple_subject t) = Some rel ->
    granted store ns target (next_object t) rel ->
    granted store ns target object wanted.

Lemma elem_of_covering ns t wanted r :
  r ∈ covering_relations ns t wanted <-> rtc (edge ns t) r wanted.
Proof.
  unfold covering_relations. rewrite list_elem_of_filter, orb_true_iff, bool_decide_eq_true, implies_spec.
  split.
  - intros [[->|H] _]; [apply rtc_refl|done].
  - intros H. split; [by right|apply elem_of_all_relations].
Qed.

Lemma direct_hit_spec t target :
  direct_hit t target = true <-> tuple_subject t = target /\ subject_relation target = None.
Proof.
  unfold direct_hit. destruct t as [o r [st si sr]], target as [tt ti tr]; cbn.
  rewrite !andb_true_iff, !bool_decide_eq_true, N.eqb_eq. split.
  - intros [[[-> ->] ->] ->]. done.
  - by intros [[= -> -> ->] ->].
Qed.

Section Walk.
Context (store : TupleStore) (ns : NamespaceRegistry) (target : SubjectRef).
Hypothesis Hstore : store_wf store.

(** ** Soundness *)

Lemma walk_tuples_sound rec object cover wanted ts visited v' :
  (forall o r v v', rec o r v = Some (true, v') -> granted store ns target o r) ->
  rtc (edge ns (object_type object)) cover wanted ->
  (forall t, t ∈ ts -> t ∈ tuples store /\ tuple_key t = (object, cover)) ->
  walk_tuples rec target ts visited = Some (true, v') -> granted store ns target object wanted.
Proof.
  intros Hrec Hcov. revert visited. induction ts as [|t ts IH]; intros visited Hts Hw; [done|].
  cbn [walk_tuples] in Hw. destruct (Hts t) as [Ht [= Ho Hr]]; [set_solver|].
  destruct (direct_hit t target) eqn:Hd.
  - apply direct_hit_spec in Hd as [? ?]. by eapply granted_direct.
  - destruct (subject_relation (tuple_subject t)) as [rel|] eqn:Hs; [|apply (IH visited); set_solver].
    destruct (rec (next_object t) rel visited) as [[[] v1]|] eqn:Er; [| |done].
    + eapply granted_userset; eauto.
    + apply (IH v1); set_solver.
Qed.

Lemma walk_covers_sound rec object wanted covers visited v' :
  (forall o r v v', rec o r v = Some (true, v') -> granted store ns target o r) ->
  (forall c, c ∈ covers -> rtc (edge ns (object_type object)) c wanted) ->
  walk_covers rec store object target covers visited = Some (true, v') ->
  granted store ns target object wanted.
Proof.
  intros Hrec. revert visited. induction covers as [|c covers IH]; intros visited Hc Hw; [done|].
  cbn [walk_covers] in Hw. case_bool_decide as Hv; [apply (IH visited); set_solver|].
  destruct (walk_tuples rec target _ _) as [[[] v1]|] eqn:Et; [| |done].
  - eapply (walk_tuples_sound _ _ c); [exact Hrec|apply Hc; set_solver| |exact Et].
    intros t Ht. by apply elem_of_iter.
  - apply (IH v1); set_solver.
Qed.

Lemma walk_sound fuel object wanted visited v' :
  walk fuel store ns target object wanted visited = Some (true, v') ->
  granted store ns target object wanted.
Proof.
  revert object wanted visited v'. induction fuel as [|fuel IH]; intros object wanted visited v' Hw; [done|].
  eapply walk_covers_sound; [exact IH| |exact Hw]. intros c Hc. by apply elem_of_covering.
Qed.

Lemma granted_target object wanted :
  granted store ns target object wanted -> subject_relation target = None.
Proof. by induction 1. Qed.

(** ** Completeness: a failed search leaves a closed set without a hit *)

Abbreviation node := (ObjectRef * Relation)%type.

(** The relation is granted to the target by a tuple of this bucket. *)
Definition hit (n : node) : Prop :=
  exists t, t ∈ tuples store /\ tuple_key t = n /\ direct_hit t target = true.

(** Buckets a bucket's usersets lead to. *)
Definition succ (n m : node) : Prop :=
  exists t rel, t ∈ tuples store /\ tuple_key t = n
    /\ subject_relation (tuple_subject t) = Some rel
    /\ m.1 = next_object t /\ m.2 ∈ covering_relations ns (object_type m.1) rel.

(** What a search that answers [false] has done: every bucket it added was
    explored, found no hit, and has its successors visited. *)
Definition explored (v v' : visited_set) : Prop :=
  v ⊆ v' /\ forall n, n ∈ v' -> n ∉ v -> ~ hit n /\ forall m, succ n m -> m ∈ v'.

Lemma explored_refl v : explored v v.
Proof. split; [done|]. intros n H1 H2. by destruct H2. Qed.

Lemma explored_trans v1 v2 v3 : explored v1 v2 -> explored v2 v3 -> explored v1 v3.
Proof.
  intros [S1 E1] [S2 E2]. split; [set_solver|]. intros n Hn Hn1.
  destruct (decide (n ∈ v2)) as [H2|H2].
  - destruct (E1 n H2 Hn1) as [Hh Hs]. split; [done|]. intros m Hm. apply S2. by apply Hs.
  - by apply E2.
Qed.

(** What [rec] guarantees when it answers [false]. *)
Definition rec_complete (rec : ObjectRef -> Relation -> visited_set -> option (bool * visited_set)) :=
  forall o r v v', rec o r v = Some (false, v') ->
    explored v v' /\ forall c, c ∈ covering_relations ns (object_type o) r -> (o, c) ∈ v'.

Lemma walk_tuples_complete rec ts visited v' :
  rec_complete rec -> walk_tuples rec target ts visited = Some (false, v') ->
  explored visited v' /\
  forall t, t ∈ ts -> direct_hit t target = false /\
    forall rel c, subject_relation (tuple_subject t) = Some rel ->
      c ∈ covering_relations ns (object_type (next_object t)) rel -> (next_object t, c) ∈ v'.
Proof.
  intros Hrec. revert visited. induction ts as [|t ts IH]; intros visited Hw; cbn [walk_tuples] in Hw.
  { injection Hw as <-. split; [apply explored_refl|set_solver]. }
  destruct (direct_hit t target) eqn:Hd; [done|].
  destruct (subject_relation (tuple_subject t)) as [rel|] eqn:Hs.
  - destruct (rec (next_object t) rel visited) as [[[] v1]|] eqn:Er; [done| |done].
    destruct (Hrec _ _ _ _ Er) as [He Hc]. destruct (IH v1 Hw) as [He2 Hts].
    split; [by eapply explored_trans|]. intros x [->|Hx]%elem_of_cons; [|by apply Hts].
    split; [done|]. intros rel' c Hr Hin. rewrite Hs in Hr. injection Hr as <-.
    apply He2. by apply Hc.
  - destruct (IH visited Hw) as [He Hts]. split; [done|].
    intros x [->|Hx]%elem_of_cons; [|by apply Hts]. split; [done|]. intros rel' c Hr. congruence.
Qed.

Lemma walk_covers_complete rec object covers visited v' :
  rec_complete rec -> walk_covers rec store object target covers visited = Some (false, v') ->
  explored visited v' /\ forall c, c ∈ covers -> (object, c) ∈ v'.
Proof.
  intros Hrec. revert visited. induction covers as [|c covers IH]; intros visited Hw; cbn [walk_covers] in Hw.
  { injection Hw as <-. split; [apply explored_refl|set_solver]. }
  case_bool_decide as Hv.
  { destruct (IH visited Hw) as [He Hc]. split; [done|].
    intros x [->|Hx]%elem_of_cons; [by apply He|by apply Hc]. }
  destruct (walk_tuples rec target _ _) as [[[] v1]|] eqn:Et; [done| |done].
  destruct (walk_tuples_complete _ _ _ _ Hrec Et) as [He1 Hts]. destruct (IH v1 Hw) as [He2 Hc].
  assert (Hnode : explored visited v1).
  { destruct He1 as [Hsub Hex]. split; [set_solver|]. intros n Hn Hnv.
    destruct (decide (n = (object, c))) as [->|Hne]; [|apply Hex; set_solver]. split.
    - intros (t & Ht & Hk & Hd). destruct (Hts t) as [Hf _]; [by apply elem_of_iter|]. congruence.
    - intros [o' c'] (t & rel & Ht & Hk & Hr & Ho & Hcov). cbn in *. subst o'.
      destruct (Hts t) as [_ Hall]; [by apply elem_of_iter|]. by apply (Hall rel). }
  split; [by eapply explored_trans|].
  intros x [->|Hx]%elem_of_cons; [|by apply Hc]. apply He2. destruct He1 as [Hsub _]. set_solver.
Qed.

Lemma walk_complete fuel : rec_complete (walk fuel store ns target).
Proof.
  induction fuel as [|fuel IH]; intros o r v v' Hw; [done|].
  by eapply walk_covers_complete.
Qed.

(** A closed, hit-free set that contains the covering buckets refutes
    [granted]. *)
Lemma closed_refutes (v : visited_set) object wanted :
  (forall n, n ∈ v -> ~ hit n /\ forall m, succ n m -> m ∈ v) ->
  granted store ns target object wanted ->
  ~ (forall c, c ∈ covering_relations ns (object_type object) wanted -> (object, c) ∈ v).
Proof.
  intros Hcl. induction 1 as [object wanted cover t Hcov Ht Ho Hr Hs Hn|object wanted cover t rel Hcov Ht Ho Hr Hs Hg IH];
    intros Hstart.
  - specialize (Hstart cover). rewrite elem_of_covering in Hstart. specialize (Hstart Hcov).
    destruct (Hcl _ Hstart) as [Hh _]. apply Hh. exists t.
    split_and!; [done|unfold tuple_key; congruence|by apply direct_hit_spec].
  - specialize (Hstart cover). rewrite elem_of_covering in Hstart. specialize (Hstart Hcov).
    destruct (Hcl _ Hstart) as [_ Hsucc]. apply IH. intros c Hc. apply Hsucc.
    exists t, rel. split_and!; [done|unfold tuple_key; congruence|done|done|done].
Qed.

(** ** Termination: the recursion depth is below the fuel *)

(** Index buckets not visited yet. *)
Definition fresh (v : visited_set) : nat := size (dom (index store) ∖ v).

Lemma fresh_mono v v' : v ⊆ v' -> (fresh v' <= fresh v)%nat.
Proof. intros H. unfold fresh. apply subseteq_size. set_solver. Qed.

Lemma fresh_insert n v : n ∈ dom (index store) -> n ∉ v -> (fresh ({[n]} ∪ v) < fresh v)%nat.
Proof. intros Hd Hv. unfold fresh. apply subset_size. set_solver. Qed.

(** Answers only enlarge the visited set, and come back within the measure. *)
Definition rec_total (bound : nat)
    (rec : ObjectRef -> Relation -> visited_set -> option (bool * visited_set)) : Prop :=
  forall o r v, (fresh v < bound)%nat -> exists b v', rec o r v = Some (b, v') /\ v ⊆ v'.

Lemma walk_tuples_total bound rec ts visited :
  rec_total bound rec -> (ts <> [] -> (fresh visited < bound)%nat) ->
  exists b v', walk_tuples rec target ts visited = Some (b, v') /\ visited ⊆ v'.
Proof.
  intros Hrec. revert visited. induction ts as [|t ts IH]; intros visited Hb; cbn [walk_tuples]; [eauto|].
  destruct (direct_hit t target); [eauto|]. specialize (Hb ltac:(done)).
  destruct (subject_relation (tuple_subject t)) as [rel|]; [|by apply IH].
  destruct (Hrec (next_object t) rel visited Hb) as ([] & v1 & -> & Hsub); [by eauto|].
  destruct (IH v1) as (b & v' & Hw & Hsub'). { intros _. pose proof (fresh_mono _ _ Hsub). lia. }
  exists b, v'. split; [done|set_solver].
Qed.

Lemma walk_covers_total bound rec object covers visited :
  rec_total bound rec -> (fresh visited <= bound)%nat ->
  exists b v', walk_covers rec store object target covers visited = Some (b, v') /\ visited ⊆ v'.
Proof.
  intros Hrec. revert visited. induction covers as [|c covers IH]; intros visited Hb; cbn [walk_covers]; [eauto|].
  case_bool_decide as Hv; [by apply IH|].
  destruct (walk_tuples_total bound rec (iter_for_object_relation store object c)
              ({[(object, c)]} ∪ visited) Hrec) as ([] & v1 & -> & Hsub).
  - intros Hne. assert ((object, c) ∈ dom (index store)) as Hd.
    { apply elem_of_dom. unfold iter_for_object_relation in Hne.
      destruct (index store !! (object, c)); [eauto|done]. }
    pose proof (fresh_insert _ _ Hd Hv). lia.
  - exists true, v1. split; [done|set_solver].
  - destruct (IH v1) as (b & v' & Hw & Hsub').
    { pose proof (fresh_mono visited v1 ltac:(set_solver)). lia. }
    exists b, v'. split; [done|set_solver].
Qed.

Lemma walk_total fuel : rec_total fuel (walk fuel store ns target).
Proof.
  induction fuel as [|fuel IH]; intros o r v Hlt; [lia|].
  cbn [walk]. apply (walk_covers_total fuel); [done|lia].
Qed.

Lemma walk_result object wanted :
  exists b v', walk (walk_fuel store) store ns target object wanted ∅ = Some (b, v').
Proof.
  destruct (walk_total (walk_fuel store) object wanted ∅) as (b & v' & Hw & _); [|eauto].
  unfold walk_fuel, fresh. rewrite difference_empty_L, size_dom. lia.
Qed.

Lemma walk_decides object wanted b v' :
  walk (walk_fuel store) store ns target object wanted ∅ = Some (b, v') ->
  b = true <-> granted store ns target object wanted.
Proof.
  intros Hw. split.
  - intros ->. by eapply walk_sound.
  - intros Hg. destruct b; [done|]. exfalso.
    destruct (walk_complete _ _ _ _ _ Hw) as [[_ Hex] Hstart].
    apply (closed_refutes v' object wanted); [|done|done].
    intros n Hn. apply Hex; [done|set_solver].
Qed.
End Walk.

Lemma check_permission_granted store ns object relation subject :
  store_wf store ->
  check_permission store ns object relation subject = true <-> granted store ns subject object relation.
Proof.
  intros Hwf. destruct (walk_result store ns subject Hwf object relation) as (b & v & Hw).
  unfold check_permission, evaluate. rewrite Hw. by eapply walk_decides.
Qed.

(** C8: the permission check decides reachability.  On a store whose index is
    consistent, for every registry (cyclic ones included) the search comes back
    within its fuel, and its answer is [true] exactly when the subject is
    granted the relation through some chain of usersets and implied
    relations; a userset as the target is never granted anything. *)
Theorem check_permission_decides store ns object relation subject :
  store_wf store ->
  (exists b v, walk (walk_fuel store) store ns subject object relation ∅ = Some (b, v)) /\
  (check_permission store ns object relation subject = true <->
     granted store ns subject object relation) /\
  (subject_relation subject <> None -> check_permission store ns object relation subject = false).
Proof.
  intros Hwf. pose proof (check_permission_granted store ns object relation subject Hwf) as Hd.
  split_and!; [by apply walk_result|exact Hd|]. intros Hs. apply not_true_iff_false. rewrite Hd. intros Hg.
  apply Hs. by apply (granted_target store ns subject object relation).
Qed.

(** A member of the group the tenant's admin role is granted to may view the
    tenant. *)
Lemma check_permission_decides_witness :
  granted demo_store with_defaults (direct User 3) tenant_ref Viewer
  /\ check_permission demo_store with_defaults tenant_ref Viewer (direct User 4) = false.
Proof.
  split; [|vm_compute; reflexivity].
  apply (check_permission_decides demo_store with_defaults tenant_ref Viewer (direct User 3)
           demo_store_wf).
  vm_compute. reflexivity.
Defined.
