(* ===== verification/PersistentTupleStore.v ===== *)
(** * The persistent tuple store ([permission_service/src/persist.rs])

    A [TupleStore] mirrored into a SQLite table of sealed tuples, keyed by a
    content-addressed row id.  The specification is a set of tuples whose calls
    are atomic; the theorems show that the store, its disk and any restart
    between two calls refine it whatever fails on the way. *)

From stdpp Require Import sorting.
From S2P Require Import Prelude Namespace TupleStore.

(** ** Row identifiers *)

(** [push_len_prefixed] in [tuple_row_id]: [(len as u32).to_le_bytes()] before
    the field.  The conversion cannot overflow: see [tuple_fields_short]. *)
Definition push_len_prefixed (buf field : list N) : list N :=
  buf ++ le_bytes 4 (N.of_nat (length field)) ++ field.

Definition NS_PERMISSION_TUPLE : uuid := 0x6c1a9d377eea4f18a421904673e52182.

(** The fields of [tuple_row_id], in the order they are pushed. *)
Definition tuple_fields (t : RelationTuple) : list (list N) :=
  [string_bytes (object_type_str (object_type (tuple_object t)));
   be_bytes 16 (object_id (tuple_object t));
   string_bytes (relation_str (tuple_relation t));
   string_bytes (object_type_str (subject_type (tuple_subject t)));
   be_bytes 16 (subject_id (tuple_subject t));
   match subject_relation (tuple_subject t) with
   | Some rel => string_bytes (relation_str rel)
   | None => []
   end].
Definition tuple_name (t : RelationTuple) : list N := foldl push_len_prefixed [] (tuple_fields t).

(** [tuple_aad]. *)
Definition tuple_aad (id : uuid) : list N := string_bytes "permission_tuple:v1:" ++ be_bytes 16 id.

(** [ObjectType::from_tag], [Relation::from_tag]. *)
Definition object_type_from_tag (s : string) : option ObjectType :=
  if String.eqb s "tenant" then Some Tenant else if String.eqb s "domain" then Some Domain
  else if String.eqb s "channel" then Some Channel else if String.eqb s "user" then Some User
  else if String.eqb s "group" then Some Group else if String.eqb s "device" then Some Device
  else if String.eqb s "concept" then Some Concept else if String.eqb s "summary" then Some Summary
  else if String.eqb s "workflow" then Some Workflow
  else if String.eqb s "export_profile" then Some ExportProfile
  else if String.eqb s "agent" then Some Agent else None.
Definition relation_from_tag (s : string) : option Relation :=
  if String.eqb s "owner" then Some Owner else if String.eqb s "admin" then Some Admin
  else if String.eqb s "editor" then Some Editor else if String.eqb s "member" then Some Member
  else if String.eqb s "viewer" then Some Viewer
  else if String.eqb s "synthesizer" then Some Synthesizer
  else if String.eqb s "proposer" then Some Proposer else None.

(** [object_type_round_trip_check], [relation_round_trip_check]. *)
Definition object_type_round_trip_check (t : ObjectType) : bool :=
  bool_decide (object_type_from_tag (object_type_str t) = Some t).
Definition relation_round_trip_check (r : Relation) : bool :=
  bool_decide (relation_from_tag (relation_str r) = Some r).

Lemma tags_round_trip :
  (forall t, object_type_round_trip_check t = true) /\ (forall r, relation_round_trip_check r = true).
Proof. by split; intros []. Qed.

Section Persist.
Context {Key Nonce Bytes : Type} {AE : Aead Key Nonce Bytes} {SE : Serde Bytes RelationTuple}.
Context {V5 : UuidV5} {HO : HashOrder}.

(** [tuple_row_id]. *)
Definition tuple_row_id (t : RelationTuple) : uuid := uuid_v5 NS_PERMISSION_TUPLE (tuple_name t).

(** ** The table *)

(** One row of [relation_tuples], less its primary key. *)
Record TupleRow : Type := mk_row {
  row_object_type : string;
  row_object_id : list N;
  row_relation : string;
  row_subject_type : string;
  row_subject_id : list N;
  row_subject_relation : option string;
  row_created_at : Z;
  row_nonce : Nonce;
  row_payload : Bytes
}.
Record Database : Type := mk_db { relation_tuples : gmap uuid TupleRow; user_version : Z }.
Definition empty_db : Database := mk_db ∅ 0.
Definition SCHEMA_VERSION : Z := 1.
Definition with_rows (db : Database) (rows : gmap uuid TupleRow) : Database := mk_db rows (user_version db).

(** What one call gets from outside: the error of its SQL statement, a nonce
    and the clock. *)
Record Io : Type := mk_io { io_error : option string; io_nonce : Nonce; io_now : instant }.

(** [struct PersistentTupleStore]. *)
Record PersistentTupleStore : Type := mk_persistent {
  store : TupleStore;
  conn : Database;
  payload_key : Key
}.
Definition with_store (p : PersistentTupleStore) (s : TupleStore) : PersistentTupleStore :=
  mk_persistent s (conn p) (payload_key p).
Definition with_conn (p : PersistentTupleStore) (db : Database) : PersistentTupleStore :=
  mk_persistent (store p) db (payload_key p).

(** [persist]: [INSERT .. ON CONFLICT(id) DO UPDATE] of every column. *)
Definition persist (io : Io) (t : RelationTuple) : eff PersistentTupleStore PermissionError unit := fun p =>
  match to_vec t with
  | None => (p, Err (Persistence "tuple payload could not be serialised"))
  | Some payload =>
      let nonce := io_nonce io in
      let id := tuple_row_id t in
      let aad := tuple_aad id in
      match encrypt_aead (payload_key p) nonce payload aad with
      | None => (p, Err (Crypto "aead"))
      | Some ct =>
          let row := {| row_object_type := object_type_str (object_type (tuple_object t));
                        row_object_id := be_bytes 16 (object_id (tuple_object t));
                        row_relation := relation_str (tuple_relation t);
                        row_subject_type := object_type_str (subject_type (tuple_subject t));
                        row_subject_id := be_bytes 16 (subject_id (tuple_subject t));
                        row_subject_relation := relation_str <$> subject_relation (tuple_subject t);
                        row_created_at := io_now io / 1000000;
                        row_nonce := nonce; row_payload := ct |} in
          match io_error io with
          | Some msg => (p, Err (Sqlite msg))
          | None => (with_conn p (with_rows (conn p) (<[id := row]> (relation_tuples (conn p)))), Ok tt)
          end
      end
  end.

(** [delete]; [execute] answers the number of rows it deleted. *)
Definition delete (io : Io) (t : RelationTuple) : eff PersistentTupleStore PermissionError unit := fun p =>
  let id := tuple_row_id t in
  match io_error io with
  | Some msg => (p, Err (Sqlite msg))
  | None =>
      match relation_tuples (conn p) !! id with
      | None => (p, Err (Persistence "in-memory tuple had no matching on-disk row"))
      | Some _ => (with_conn p (with_rows (conn p) (base.delete id (relation_tuples (conn p)))), Ok tt)
      end
  end.

(** [store_mut]: the caller's function on the borrowed store. *)
Definition store_mut (f : TupleStore -> TupleStore) (p : PersistentTupleStore) : PersistentTupleStore :=
  with_store p (f (store p)).

(** [insert], [upsert], [remove]: memory first, rolled back when the disk
    refuses. *)
Definition insert (io : Io) (t : RelationTuple) : eff PersistentTupleStore PermissionError unit := fun p =>
  match TupleStore.insert t (store p) with
  | (s, Err e) => (with_store p s, Err e)
  | (s, Ok _) =>
      match persist io t (with_store p s) with
      | (p, Err e) => (with_store p (TupleStore.remove t (store p)).1, Err e)
      | (p, Ok _) => (p, Ok tt)
      end
  end.

Definition upsert (io : Io) (t : RelationTuple) : eff PersistentTupleStore PermissionError bool := fun p =>
  let '(s, newly_inserted) := TupleStore.upsert t (store p) in
  let p := with_store p s in
  if newly_inserted then
    match persist io t p with
    | (p, Err e) => (with_store p (TupleStore.remove t (store p)).1, Err e)
    | (p, Ok _) => (p, Ok newly_inserted)
    end
  else (p, Ok newly_inserted).

Definition remove (io : Io) (t : RelationTuple) : eff PersistentTupleStore PermissionError unit := fun p =>
  match TupleStore.remove t (store p) with
  | (s, Err e) => (with_store p s, Err e)
  | (s, Ok _) =>
      match delete io t (with_store p s) with
      | (p, Err e) => (with_store p (TupleStore.upsert t (store p)).1, Err e)
      | (p, Ok _) => (p, Ok tt)
      end
  end.

(** [persisted_count]; the conversion to [usize] cannot fail. *)
Definition persisted_count (io : Io) (p : PersistentTupleStore) : result nat PermissionError :=
  match io_error io with
  | Some msg => Err (Sqlite msg)
  | None => Ok (size (relation_tuples (conn p)))
  end.

(** ** Loading *)

(** [ORDER BY created_at ASC, id ASC]. *)
Definition row_le (a b : uuid * TupleRow) : Prop :=
  (row_created_at a.2 < row_created_at b.2)%Z \/
  (row_created_at a.2 = row_created_at b.2 /\ (a.1 <= b.1)%N).
#[export] Instance row_le_dec : RelDecision row_le.
Proof. intros a b. unfold row_le. apply _. Defined.
Definition select_rows (db : Database) : list (uuid * TupleRow) :=
  merge_sort row_le (map_to_list (relation_tuples db)).

(** Decrypting and decoding one row. *)
Definition open_row (k : Key) (row : uuid * TupleRow) : result RelationTuple PermissionError :=
  let '(id, r) := row in
  match decrypt_aead k (row_nonce r) (row_payload r) (tuple_aad id) with
  | None => Err (Crypto "aead")
  | Some pt => ok_or (from_slice pt) (Persistence "tuple payload is not valid JSON")
  end.

(** The loop of [load_all]; the store keeps what was loaded before an error. *)
Fixpoint load_rows (k : Key) (rows : list (uuid * TupleRow)) : eff TupleStore PermissionError unit := fun s =>
  match rows with
  | [] => (s, Ok tt)
  | row :: rows =>
      match open_row k row with
      | Err e => (s, Err e)
      | Ok t => load_rows k rows (TupleStore.upsert t s).1
      end
  end.

(** [load_all]. *)
Definition load_all (io : Io) : eff PersistentTupleStore PermissionError unit := fun p =>
  match io_error io with
  | Some msg => (p, Err (Sqlite msg))
  | None =>
      let '(s, r) := load_rows (payload_key p) (select_rows (conn p)) TupleStore.new in
      (with_store p s, r)
  end.

(** [open] on an unlocked database, with the key the derivation returned. *)
Definition open (io : Io) (db : Database) (key : result Key PermissionError) :
    result PersistentTupleStore PermissionError :=
  if negb (user_version db =? 0)%Z && negb (user_version db =? SCHEMA_VERSION)%Z then
    Err (Persistence "schema version mismatch — refusing to open")
  else
    let db := mk_db (relation_tuples db) SCHEMA_VERSION in
    let? k := key in
    match load_all io (mk_persistent TupleStore.new db k) with
    | (p, Ok _) => Ok p
    | (_, Err e) => Err e
    end.

(** ** Rotating the master key *)

(** The loop of [rotate_master_key]; the n-th [upsert] gets [ios n]. *)
Fixpoint rotate_loop (ios : nat -> Io) (ts : list RelationTuple) (dest : PersistentTupleStore) (written : nat) :
    result (PersistentTupleStore * nat) PermissionError :=
  match ts with
  | [] => Ok (dest, written)
  | t :: ts =>
      match upsert (ios written) t dest with
      | (_, Err e) => Err e
      | (_, Ok false) => Err (Persistence "rotation hit an unexpected duplicate tuple")
      | (dest, Ok true) => rotate_loop ios ts dest (S written)
      end
  end.

(** [rotate_master_key]: the number of tuples written, and the store the call
    leaves at [dest_path]. *)
Definition rotate_master_key (dest_exists : bool) (io_open io_dest io_self : Io) (ios : nat -> Io)
    (new_key : result Key PermissionError) (p : PersistentTupleStore) :
    result (PersistentTupleStore * nat) PermissionError :=
  if dest_exists then Err (Persistence "rotation destination path already exists")
  else
    let? dest := open io_open empty_db new_key in
    let? dw := rotate_loop ios (hash_order (elements (tuples (store p)))) dest 0%nat in
    let? n := persisted_count io_dest dw.1 in
    let? m := persisted_count io_self p in
    if negb (n =? m)%nat then Err (Persistence "rotated permission store tuple count mismatch")
    else Ok dw.

End Persist.

(** ** The specification *)

Inductive call : Type :=
| Insert (t : RelationTuple) | Upsert (t : RelationTuple) | Remove (t : RelationTuple) | Reload.
Definition call_tuple (c : call) : option RelationTuple :=
  match c with Insert t | Upsert t | Remove t => Some t | Reload => None end.

(** What a client observes: a call with its answer, or a restart of the
    process that opened the database again. *)
Inductive event : Type :=
| Called (c : call) (r : result bool PermissionError)
| Restarted.

(** Errors of the disk, the codec and the cipher. *)
Definition fault (e : PermissionError) : Prop :=
  match e with
  | Sqlite _ | Crypto _ => True
  | Persistence msg => msg <> "in-memory tuple had no matching on-disk row"
  | _ => False
  end.

(** A set of tuples whose calls happen entirely or, on a fault, not at all, and
    which survives restarts. *)
Inductive spec_step : gset RelationTuple -> event -> gset RelationTuple -> Prop :=
| spec_insert S t : t ∉ S -> spec_step S (Called (Insert t) (Ok true)) ({[t]} ∪ S)
| spec_duplicate S t : t ∈ S -> spec_step S (Called (Insert t) (Err DuplicateTuple)) S
| spec_upsert_new S t : t ∉ S -> spec_step S (Called (Upsert t) (Ok true)) ({[t]} ∪ S)
| spec_upsert_old S t : t ∈ S -> spec_step S (Called (Upsert t) (Ok false)) S
| spec_remove S t : t ∈ S -> spec_step S (Called (Remove t) (Ok true)) (S ∖ {[t]})
| spec_absent S t : t ∉ S -> spec_step S (Called (Remove t) (Err NotFound)) S
| spec_reload S : spec_step S (Called Reload (Ok true)) S
| spec_fault S c e : fault e -> spec_step S (Called c (Err e)) S
| spec_restart S : spec_step S Restarted S.

Inductive run {St : Type} (step : St -> event -> St -> Prop) : St -> list event -> St -> Prop :=
| run_nil s : run step s [] s
| run_cons s e s1 es s2 : step s e s1 -> run step s1 es s2 -> run step s (e :: es) s2.

(** ** Row identifiers *)

Lemma tuple_fields_short t : Forall (fun f => (length f <= 16)%nat) (tuple_fields t).
Proof.
  destruct t as [[ot oi] r [st si sr]]. unfold tuple_fields.
  rewrite !Forall_cons, Forall_nil. cbn [tuple_object tuple_relation tuple_subject object_type object_id
    subject_type subject_id subject_relation]. rewrite !length_be_bytes.
  split_and!; [by destruct ot; cbn; lia|lia|by destruct r; cbn; lia|by destruct st; cbn; lia|lia| |done].
  destruct sr as [sr|]; [destruct sr|]; cbn; lia.
Qed.

Definition framed (f : list N) : list N := le_bytes 4 (N.of_nat (length f)) ++ f.

Lemma foldl_framed buf fs : foldl push_len_prefixed buf fs = buf ++ concat (framed <$> fs).
Proof.
  revert buf. induction fs as [|f fs IH]; intros buf; cbn [foldl fmap list_fmap concat].
  - by rewrite (right_id_L [] (++)).
  - rewrite IH. unfold push_len_prefixed, framed. by rewrite <- !(assoc_L (++)).
Qed.

(** The length prefixes make the encoding of a fixed number of fields
    injective. *)
Lemma framed_inj fs gs :
  length fs = length gs ->
  Forall (fun f => (length f <= 16)%nat) fs -> Forall (fun f => (length f <= 16)%nat) gs ->
  concat (framed <$> fs) = concat (framed <$> gs) -> fs = gs.
Proof.
  revert gs. induction fs as [|f fs IH]; intros [|g gs] Hl Hf Hg; cbn [fmap list_fmap concat]; [done..|].
  apply Forall_cons in Hf as [Hf1 Hf]. apply Forall_cons in Hg as [Hg1 Hg]. injection Hl as Hl.
  unfold framed at 1 3. rewrite <- !(assoc_L (++)). intros H.
  apply app_inj_1 in H as [Hn H]; [|by rewrite !length_le_bytes].
  apply le_bytes_inj in Hn; [|change (256 ^ N.of_nat 4)%N with 4294967296%N; lia..].
  apply app_inj_1 in H as [-> H]; [|lia]. f_equal. by apply IH.
Qed.

Lemma object_type_bytes_inj a b : string_bytes (object_type_str a) = string_bytes (object_type_str b) -> a = b.
Proof. destruct a, b; done. Qed.
Lemma relation_bytes_inj a b : string_bytes (relation_str a) = string_bytes (relation_str b) -> a = b.
Proof. destruct a, b; done. Qed.

(** UUIDs of 128 bits. *)
Definition tuple_ids_ok (t : RelationTuple) : Prop :=
  (object_id (tuple_object t) < 2 ^ 128)%N /\ (subject_id (tuple_subject t) < 2 ^ 128)%N.

Lemma tuple_name_inj t u : tuple_ids_ok t -> tuple_ids_ok u -> tuple_name t = tuple_name u -> t = u.
Proof.
  intros [Ht1 Ht2] [Hu1 Hu2]. unfold tuple_name. rewrite !foldl_framed. cbn [app]. intros H.
  apply framed_inj in H; [|done|apply tuple_fields_short..].
  destruct t as [[ot oi] r [st si sr]], u as [[ot' oi'] r' [st' si' sr']].
  unfold tuple_fields in H. cbn [tuple_object tuple_relation tuple_subject object_type object_id
    subject_type subject_id subject_relation] in *.
  pose proof (fun i => f_equal (fun l => nth i l []) H) as Hn. clear H.
  pose proof (Hn 0%nat) as H1. pose proof (Hn 1%nat) as H2. pose proof (Hn 2%nat) as H3.
  pose proof (Hn 3%nat) as H4. pose proof (Hn 4%nat) as H5. pose proof (Hn 5%nat) as H6.
  cbn [nth] in H1, H2, H3, H4, H5, H6. clear Hn.
  apply object_type_bytes_inj in H1 as ->. apply object_type_bytes_inj in H4 as ->.
  apply relation_bytes_inj in H3 as ->.
  apply be_bytes_inj in H2 as ->; [|done..]. apply be_bytes_inj in H5 as ->; [|done..].
  do 2 f_equal. destruct sr as [a|], sr' as [b|]; [f_equal; by apply relation_bytes_inj|..|done].
  - by destruct a.
  - by destruct b.
Qed.

Section Refinement.
Context {Key Nonce Bytes : Type} {AE : Aead Key Nonce Bytes} {SE : Serde Bytes RelationTuple}.
Context {V5 : UuidV5}.
Implicit Types (p : PersistentTupleStore (Key := Key) (Nonce := Nonce) (Bytes := Bytes))
  (io : Io (Nonce := Nonce)) (db : Database (Nonce := Nonce) (Bytes := Bytes)) (k : Key)
  (t : RelationTuple) (S : gset RelationTuple).

(** The calls of the trait, with their answers as [result bool]. *)
Definition exec io (c : call) : eff (PersistentTupleStore (Key := Key) (Nonce := Nonce) (Bytes := Bytes))
    PermissionError bool := fun p =>
  match c with
  | Insert t => let '(p, r) := insert io t p in (p, result_map (fun _ => true) r)
  | Upsert t => upsert io t p
  | Remove t => let '(p, r) := remove io t p in (p, result_map (fun _ => true) r)
  | Reload => let '(p, r) := load_all io p in (p, result_map (fun _ => true) r)
  end.

Inductive step : PersistentTupleStore (Key := Key) (Nonce := Nonce) (Bytes := Bytes) -> event ->
    PersistentTupleStore (Key := Key) (Nonce := Nonce) (Bytes := Bytes) -> Prop :=
| step_call io c p p' r : exec io c p = (p', r) -> step p (Called c r) p'
| step_restart io p p' : open io (conn p) (Ok (payload_key p)) = Ok p' -> step p Restarted p'.

(** ** What the disk holds *)

(** The plaintext columns of a row are those of the tuple. *)
Definition columns_of (t : RelationTuple) (row : TupleRow (Nonce := Nonce) (Bytes := Bytes)) : Prop :=
  row_object_type row = object_type_str (object_type (tuple_object t)) /\
  row_object_id row = be_bytes 16 (object_id (tuple_object t)) /\
  row_relation row = relation_str (tuple_relation t) /\
  row_subject_type row = object_type_str (subject_type (tuple_subject t)) /\
  row_subject_id row = be_bytes 16 (subject_id (tuple_subject t)) /\
  row_subject_relation row = relation_str <$> subject_relation (tuple_subject t).

(** One row per tuple, under its id, that opens to it. *)
Record disk_holds db k S : Prop := {
  dh_row : forall t, t ∈ S -> exists row, relation_tuples db !! tuple_row_id t = Some row /\
    open_row k (tuple_row_id t, row) = Ok t /\ columns_of t row;
  dh_tuple : forall id row, relation_tuples db !! id = Some row -> exists t, t ∈ S /\ id = tuple_row_id t
}.

(** The tuples a deployment uses: their UUIDs have 128 bits, the JSON codec
    round-trips them, and the hash behind [Uuid::new_v5] does not collide on
    their encodings. *)
Record usable (U : RelationTuple -> Prop) : Prop := {
  us_ids : forall t, U t -> tuple_ids_ok t;
  us_codec : forall t, U t -> serde_roundtrips (Bytes := Bytes) t;
  us_hash : forall t u, U t -> U u -> tuple_row_id t = tuple_row_id u -> tuple_name t = tuple_name u
}.

Record represents (U : RelationTuple -> Prop) p S : Prop := {
  rp_wf : store_wf (store p);
  rp_tuples : tuples (store p) = S;
  rp_usable : forall t, t ∈ S -> U t;
  rp_disk : disk_holds (conn p) (payload_key p) S;
  rp_version : user_version (conn p) = SCHEMA_VERSION
}.

Section Usable.
Context (U : RelationTuple -> Prop) (HU : usable U).

Lemma row_id_inj t u : U t -> U u -> tuple_row_id t = tuple_row_id u -> t = u.
Proof using HU. intros Ht Hu H. apply tuple_name_inj; [by apply HU..|]. by apply HU. Qed.

(** [persist] refuses with a fault and changes nothing, or writes a row that
    opens to the tuple. *)
Lemma persist_tuple_cases io t p p' r :
  persist io t p = (p', r) -> U t ->
  (exists e, r = Err e /\ fault e /\ p' = p) \/
  (exists row, r = Ok tt /\ open_row (payload_key p) (tuple_row_id t, row) = Ok t /\ columns_of t row /\
     p' = with_conn p (with_rows (conn p) (<[tuple_row_id t := row]> (relation_tuples (conn p))))).
Proof using HU.
  unfold persist. intros H Ht.
  destruct (to_vec t) as [pt|] eqn:Ev; [|left; simplify_eq; eexists; split_and!; [reflexivity|cbn; discriminate|reflexivity]].
  destruct (encrypt_aead _ _ _ _) as [ct|] eqn:Ee; [|left; simplify_eq; eexists; split_and!; [reflexivity|exact I|reflexivity]].
  destruct (io_error io); [left; simplify_eq; eexists; split_and!; [reflexivity|exact I|reflexivity]|]. right.
  match type of H with context [<[_ := ?row]> _] => exists row end. simplify_eq.
  split_and!; [done| |by unfold columns_of|done].
  cbn [open_row row_nonce row_payload]. rewrite (decrypt_encrypt _ _ _ _ _ Ee). by rewrite (us_codec _ HU t Ht pt Ev).
Qed.

Lemma disk_holds_insert db k S t row :
  disk_holds db k S -> (forall u, u ∈ S -> U u) -> U t ->
  open_row k (tuple_row_id t, row) = Ok t -> columns_of t row ->
  disk_holds (with_rows db (<[tuple_row_id t := row]> (relation_tuples db))) k ({[t]} ∪ S).
Proof using HU.
  intros [Hrow Htup] HS Ht Hop Hcol. split; cbn.
  - intros u. rewrite elem_of_union, elem_of_singleton. intros [->|Hu].
    + exists row. by rewrite lookup_insert_eq.
    + destruct (decide (tuple_row_id u = tuple_row_id t)) as [Hid|Hid].
      * assert (u = t) as -> by (apply row_id_inj; auto). exists row. by rewrite lookup_insert_eq.
      * rewrite lookup_insert_ne by done. by apply Hrow.
  - intros id r. rewrite lookup_insert_Some. intros [[<- _]|[_ Hr]]; [exists t; set_solver|].
    destruct (Htup _ _ Hr) as (u & Hu & ->). exists u. set_solver.
Qed.

Lemma disk_holds_delete db k S t :
  disk_holds db k S -> (forall u, u ∈ S -> U u) -> U t ->
  disk_holds (with_rows db (base.delete (tuple_row_id t) (relation_tuples db))) k (S ∖ {[t]}).
Proof using HU.
  intros [Hrow Htup] HS Ht. split; cbn.
  - intros u. rewrite elem_of_difference, elem_of_singleton. intros [Hu Hne].
    rewrite lookup_delete_ne; [by apply Hrow|]. intros Hid. apply Hne, row_id_inj; auto.
  - intros id r. rewrite lookup_delete_Some. intros [Hne Hr].
    destruct (Htup _ _ Hr) as (u & Hu & ->). exists u. set_solver.
Qed.

Lemma disk_holds_size db k S :
  disk_holds db k S -> (forall u, u ∈ S -> U u) -> size (relation_tuples db) = size S.
Proof using HU.
  intros [Hrow Htup] HS. rewrite <- size_dom.
  assert (dom (relation_tuples db) = set_map (D := gset uuid) tuple_row_id S) as ->.
  { apply set_eq. intros id. rewrite elem_of_dom, elem_of_map. split.
    - intros [row Hr]. destruct (Htup _ _ Hr) as (t & Ht & ->). eauto.
    - intros (t & -> & Ht). destruct (Hrow t Ht) as (row & Hr & _). eauto. }
  assert (forall X : gset RelationTuple, X ⊆ S -> size (set_map (D := gset uuid) tuple_row_id X) = size X) as H.
  { induction X as [|t X Hni IH] using set_ind_L; intros HX; [by rewrite set_map_empty, !size_empty|].
    rewrite set_map_union_L, set_map_singleton_L, !size_union, !size_singleton, IH; [done|set_solver..|].
    intros id Hid1 Hid2. apply elem_of_singleton in Hid1 as ->. apply elem_of_map in Hid2 as (u & Hu & Hin).
    apply row_id_inj in Hu; [|apply HS; set_solver..]. by subst. }
  by apply H.
Qed.

(** ** Loading *)

Lemma tuples_upsert t s : tuples (TupleStore.upsert t s).1 = {[t]} ∪ tuples s.
Proof. unfold TupleStore.upsert. case_bool_decide; cbn; set_solver. Qed.
Lemma store_wf_upsert t s : store_wf s -> store_wf (TupleStore.upsert t s).1.
Proof.
  intros H. replace (TupleStore.upsert t s).1 with (TupleStore.insert t s).1; [by apply store_wf_insert|].
  unfold TupleStore.upsert, TupleStore.insert. by case_bool_decide.
Qed.

Lemma load_tuple_rows_ok k rows s :
  (forall r, r ∈ rows -> exists t, open_row k r = Ok t) -> store_wf s ->
  exists s', load_rows k rows s = (s', Ok tt) /\ store_wf s' /\
    forall t, t ∈ tuples s' <-> t ∈ tuples s \/ exists r, r ∈ rows /\ open_row k r = Ok t.
Proof.
  revert s. induction rows as [|r rows IH]; intros s Hrows Hwf; cbn [load_rows].
  { exists s. split_and!; [done|done|]. set_solver. }
  destruct (Hrows r ltac:(left)) as [t Ht]. rewrite Ht.
  destruct (IH (TupleStore.upsert t s).1) as (s' & Hl & Hwf' & Hs'); [set_solver|by apply store_wf_upsert|].
  exists s'. split_and!; [done|done|]. intros u. rewrite Hs', tuples_upsert. split.
  - intros [[->%elem_of_singleton|]%elem_of_union|(x & ? & ?)]; [right; exists r; split; [left|done]|by left|].
    right. exists x. split; [by right|done].
  - intros [Hu|(x & [->|Hx]%elem_of_cons & Ho)].
    + left. apply elem_of_union. by right.
    + rewrite Ht in Ho. injection Ho as ->. left. apply elem_of_union. left. by apply elem_of_singleton.
    + right. by exists x.
Qed.

Lemma load_rows_disk db k S :
  disk_holds db k S -> (forall t, t ∈ S -> U t) ->
  exists s, load_rows k (select_rows db) TupleStore.new = (s, Ok tt) /\ store_wf s /\ tuples s = S.
Proof using HU.
  intros [Hrow Htup] HS.
  assert (Hin : forall r, r ∈ select_rows db <-> relation_tuples db !! r.1 = Some r.2).
  { intros [id r]. unfold select_rows. by rewrite merge_sort_Permutation, elem_of_map_to_list. }
  assert (Hop : forall r, r ∈ select_rows db -> exists t, t ∈ S /\ open_row k r = Ok t).
  { intros [id r]. rewrite Hin. cbn. intros Hr. destruct (Htup _ _ Hr) as (t & Ht & ->).
    destruct (Hrow t Ht) as (r' & Hr' & Ho & _). rewrite Hr in Hr'. injection Hr' as <-. by exists t. }
  destruct (load_tuple_rows_ok k (select_rows db) TupleStore.new) as (s & Hl & Hwf & Hs).
  { intros r Hr. destruct (Hop r Hr) as (t & _ & ?). eauto. }
  { apply store_wf_new. }
  exists s. split_and!; [done|done|]. apply set_eq. intros t. rewrite Hs. cbn. split.
  - intros [?|(r & Hr & Ho)]; [set_solver|]. destruct (Hop r Hr) as (u & Hu & Ho'). congruence.
  - intros Ht. right. destruct (Hrow t Ht) as (row & Hr & Ho & _). exists (tuple_row_id t, row).
    by rewrite Hin.
Qed.

(** ** One step *)

Lemma represents_tuples p S t : represents U p S -> t ∈ tuples (store p) <-> t ∈ S.
Proof. intros H. by rewrite (rp_tuples _ _ _ H). Qed.

(** Putting back what a failed call changed in memory. *)
Lemma represents_restore p S s :
  represents U p S -> store_wf s -> tuples s = S -> represents U (with_store p s) S.
Proof. intros [_ _ HS Hd Hv] Hwf Ht. by split. Qed.

Lemma remove_undoes_insert s t :
  store_wf s -> t ∉ tuples s ->
  let s' := (TupleStore.insert t s).1 in
  store_wf (TupleStore.remove t s').1 /\ tuples (TupleStore.remove t s').1 = tuples s.
Proof.
  intros Hwf Ht s'. split; [by apply store_wf_remove, store_wf_insert|].
  subst s'. unfold TupleStore.insert. rewrite bool_decide_eq_false_2 by done. cbn.
  unfold TupleStore.remove. cbn. rewrite bool_decide_eq_true_2 by set_solver. cbn. set_solver.
Qed.

(** [insert] and [upsert] of a new tuple share this. *)
Lemma persist_new io t p p' r S :
  represents U p S -> U t -> t ∉ S ->
  persist io t (with_store p (TupleStore.insert t (store p)).1) = (p', r) ->
  (exists e, r = Err e /\ fault e /\
     represents U (with_store p' (TupleStore.remove t (store p')).1) S) \/
  (r = Ok tt /\ represents U p' ({[t]} ∪ S)).
Proof using HU.
  intros HR Ht Hnin Hp. assert (Hmem : t ∉ tuples (store p)) by (by rewrite (represents_tuples _ _ _ HR)).
  destruct (persist_tuple_cases _ _ _ _ _ Hp Ht) as [(e & -> & He & ->)|(row & -> & Hop & Hcol & ->)].
  - left. exists e. split_and!; [done|done|].
    destruct (remove_undoes_insert _ t (rp_wf _ _ _ HR) Hmem) as [Hwf Hts].
    apply (represents_restore _ _ _ HR Hwf). by rewrite Hts, (rp_tuples _ _ _ HR).
  - right. split; [done|]. destruct HR as [Hwf <- HS Hd Hv]. split; cbn.
    + by apply store_wf_insert.
    + unfold TupleStore.insert. by rewrite bool_decide_eq_false_2.
    + set_solver.
    + by apply disk_holds_insert.
    + done.
Qed.

Lemma insert_refines io t p p' r S :
  represents U p S -> U t -> exec io (Insert t) p = (p', r) ->
  exists S', spec_step S (Called (Insert t) r) S' /\ represents U p' S'.
Proof using HU.
  intros HR Ht. cbn. unfold insert.
  pose proof (represents_tuples _ _ t HR) as Hmem. destruct (decide (t ∈ S)) as [Hin|Hnin].
  - assert (TupleStore.insert t (store p) = (store p, Err DuplicateTuple)) as ->
      by (unfold TupleStore.insert; rewrite bool_decide_eq_true_2; tauto).
    intros [= <- <-]. exists S. split; [by constructor|]. by destruct p.
  - destruct (TupleStore.insert t (store p)) as [s ri] eqn:Ei.
    assert (ri = Ok tt) as -> by (unfold TupleStore.insert in Ei; rewrite bool_decide_eq_false_2 in Ei by tauto;
      by injection Ei).
    destruct (persist io t (with_store p s)) as [q rp] eqn:Ep.
    replace s with (TupleStore.insert t (store p)).1 in Ep by (by rewrite Ei).
    destruct (persist_new _ _ _ _ _ _ HR Ht Hnin Ep) as [(e & -> & He & HR')|[-> HR']]; intros [= <- <-].
    + exists S. split; [by constructor|done].
    + exists ({[t]} ∪ S). split; [by constructor|done].
Qed.

Lemma upsert_refines io t p p' r S :
  represents U p S -> U t -> exec io (Upsert t) p = (p', r) ->
  exists S', spec_step S (Called (Upsert t) r) S' /\ represents U p' S'.
Proof using HU.
  intros HR Ht. cbn. unfold upsert.
  pose proof (represents_tuples _ _ t HR) as Hmem. destruct (decide (t ∈ S)) as [Hin|Hnin].
  - assert (TupleStore.upsert t (store p) = (store p, false)) as ->
      by (unfold TupleStore.upsert; rewrite bool_decide_eq_true_2; tauto).
    intros [= <- <-]. exists S. split; [by constructor|]. by destruct p.
  - assert (TupleStore.upsert t (store p) = ((TupleStore.insert t (store p)).1, true)) as ->
      by (unfold TupleStore.upsert, TupleStore.insert; rewrite bool_decide_eq_false_2; tauto).
    destruct (persist io t _) as [q rp] eqn:Ep.
    destruct (persist_new _ _ _ _ _ _ HR Ht Hnin Ep) as [(e & -> & He & HR')|[-> HR']]; intros [= <- <-].
    + exists S. split; [by constructor|done].
    + exists ({[t]} ∪ S). split; [by constructor|done].
Qed.

Lemma remove_refines io t p p' r S :
  represents U p S -> U t -> exec io (Remove t) p = (p', r) ->
  exists S', spec_step S (Called (Remove t) r) S' /\ represents U p' S'.
Proof using HU.
  intros HR Ht. cbn. unfold remove.
  pose proof (represents_tuples _ _ t HR) as Hmem. destruct (decide (t ∈ S)) as [Hin|Hnin].
  2: { assert (TupleStore.remove t (store p) = (store p, Err NotFound)) as ->
         by (unfold TupleStore.remove; rewrite bool_decide_eq_false_2; tauto).
       intros [= <- <-]. exists S. split; [by constructor|]. by destruct p. }
  pose proof (store_wf_remove _ t (rp_wf _ _ _ HR)) as Hwf.
  destruct (TupleStore.remove t (store p)) as [s ri] eqn:Er.
  assert (ri = Ok tt /\ tuples s = S ∖ {[t]}) as [-> Hts].
  { unfold TupleStore.remove in Er. rewrite bool_decide_eq_true_2 in Er by tauto. injection Er as <- <-. cbn.
    by rewrite (rp_tuples _ _ _ HR). }
  cbn in Hwf. unfold delete. cbn [conn with_store].
  destruct (dh_row _ _ _ (rp_disk _ _ _ HR) t Hin) as (row & Hrow & _). rewrite Hrow.
  destruct (io_error io) as [msg|]; intros [= <- <-].
  - exists S. split; [by constructor|]. apply (represents_restore _ _ _ HR).
    + by apply store_wf_upsert.
    + cbn. rewrite tuples_upsert, Hts. apply set_eq. intros u.
      destruct (decide (u = t)) as [->|]; set_solver.
  - exists (S ∖ {[t]}). split; [by constructor|]. destruct HR as [_ Hp HS Hd Hv]. split; cbn.
    + done.
    + done.
    + set_solver.
    + by apply disk_holds_delete; auto.
    + done.
Qed.

Lemma load_all_represents io p S :
  represents U p S ->
  (exists msg, load_all io p = (p, Err (Sqlite msg))) \/
  (exists p', load_all io p = (p', Ok tt) /\ represents U p' S /\ payload_key p' = payload_key p).
Proof using HU.
  intros HR. unfold load_all. destruct (io_error io) as [msg|]; [left; by eauto|]. right.
  destruct (load_rows_disk _ _ _ (rp_disk _ _ _ HR) (rp_usable _ _ _ HR)) as (s & -> & Hwf & Hs).
  eexists. split; [reflexivity|]. split; [|done]. by apply represents_restore.
Qed.

Lemma open_represents io p p' S :
  represents U p S -> open io (conn p) (Ok (payload_key p)) = Ok p' -> represents U p' S.
Proof using HU.
  intros HR. unfold open. rewrite (rp_version _ _ _ HR). cbn [try_result negb andb].
  set (q := mk_persistent TupleStore.new (mk_db (relation_tuples (conn p)) SCHEMA_VERSION) (payload_key p)).
  assert (Hq : represents U (with_store q (store p)) S).
  { destruct HR as [Hwf Hp HS [Hd1 Hd2] Hv]. by split. }
  assert (Hl : load_all io q = load_all io (with_store q (store p)) \/ exists m, io_error io = Some m).
  { unfold load_all. destruct (io_error io); [right; by eauto|by left]. }
  destruct Hl as [->|[m Hm]].
  - destruct (load_all_represents io _ _ Hq) as [[msg ->]|(q' & -> & HR' & _)]; intros [= <-]. done.
  - unfold load_all. by rewrite Hm.
Qed.

Lemma step_refines p e p' S :
  represents U p S -> step p e p' ->
  (forall c r t, e = Called c r -> call_tuple c = Some t -> U t) ->
  exists S', spec_step S e S' /\ represents U p' S'.
Proof using HU.
  intros HR Hs HU'. destruct Hs as [io c p p' r Hx|io p p' Ho].
  - specialize (HU' c r). destruct c as [t|t|t|]; cbn [call_tuple] in HU'.
    + by apply (insert_refines io t p); [|apply HU'|].
    + by apply (upsert_refines io t p); [|apply HU'|].
    + by apply (remove_refines io t p); [|apply HU'|].
    + exists S. cbn in Hx. revert Hx.
      destruct (load_all_represents io p S HR) as [[msg ->]|(q & -> & HR' & _)]; intros [= <- <-];
        (split; [by constructor|done]).
  - exists S. split; [constructor|]. by eapply open_represents.
Qed.

Definition events_usable (es : list event) : Prop :=
  forall c r t, Called c r ∈ es -> call_tuple c = Some t -> U t.

Lemma persistent_store_empty io k p0 : open io empty_db (Ok k) = Ok p0 -> represents U p0 ∅.
Proof using HU.
  unfold open. cbn [user_version empty_db try_result].
  set (q := mk_persistent TupleStore.new _ _). change (negb _ && negb _) with false. cbn iota.
  assert (Hq : represents U q ∅).
  { split; [apply store_wf_new|done|set_solver| |done]. split; [set_solver|]. cbn. by intros id row. }
  destruct (load_all_represents io q ∅ Hq) as [[msg ->]|(q' & -> & HR & _)]; intros [= <-]. done.
Qed.

(** C3: the persistent tuple store refines an atomic set of tuples.  A store
    opened on a fresh database represents the empty set; from any store that
    represents a set, every run of calls, each with whatever disk faults, and of
    restarts of the process, is a run of the specification with the same answers,
    and ends with memory and disk that represent the resulting set.  In
    particular a failed call leaves no trace in memory or on disk, and a restart
    loses nothing. *)
Theorem persistent_store_refines io k p S es p' :
  (forall p0, open io empty_db (Ok k) = Ok p0 -> represents U p0 ∅) /\
  (represents U p S -> run step p es p' -> events_usable es ->
   exists S', run spec_step S es S' /\ represents U p' S').
Proof using HU.
  split.
  - intros p0. apply persistent_store_empty.
  - intros HR Hrun Hev. revert S HR. induction Hrun as [p|p e p1 es p2 Hs Hrun IH]; intros S HR.
    { exists S. split; [constructor|done]. }
    destruct (step_refines _ _ _ _ HR Hs) as (S1 & Hs1 & HR1).
    { intros c r t -> Hc. apply (Hev c r t); [left|done]. }
    destruct (IH) with (S := S1) as (S2 & Hs2 & HR2); [|done|].
    { intros c r t Hin Hc. apply (Hev c r t); [by right|done]. }
    exists S2. split; [by econstructor|done].
Qed.

(** ** Progress *)

(** Nothing the call asks of the disk, the codec and the cipher is refused. *)
Definition healthy io k : Prop :=
  io_error io = None /\
  forall t, U t -> exists pt ct, to_vec t = Some pt /\
    encrypt_aead k (io_nonce io) pt (tuple_aad (tuple_row_id t)) = Some ct.

Lemma persist_healthy io t p : healthy io (payload_key p) -> U t -> exists p', persist io t p = (p', Ok tt).
Proof.
  intros [Hio Hk] Ht. destruct (Hk t Ht) as (pt & ct & Hv & He).
  unfold persist. rewrite Hv. cbv zeta. rewrite He, Hio. by eexists.
Qed.

Lemma payload_key_persist io t p : payload_key (persist io t p).1 = payload_key p.
Proof. unfold persist. by repeat (case_match; cbn [fst]). Qed.

(** An [upsert] of a new tuple succeeds, or meets a fault; not the latter when
    nothing is refused. *)
Lemma upsert_new io t p S :
  represents U p S -> U t -> t ∉ S ->
  (exists p' e, upsert io t p = (p', Err e) /\ fault e /\ ~ healthy io (payload_key p)) \/
  (exists p', upsert io t p = (p', Ok true) /\ represents U p' ({[t]} ∪ S) /\ payload_key p' = payload_key p).
Proof using HU.
  intros HR Ht Hnin. pose proof (represents_tuples _ _ t HR) as Hmem.
  destruct (upsert io t p) as [p' r] eqn:Eu. pose proof Eu as Eu'.
  destruct (upsert_refines io t p p' r S HR Ht Eu') as (S' & Hs & HR').
  unfold upsert, TupleStore.upsert in Eu. rewrite bool_decide_eq_false_2 in Eu by tauto.
  match type of Eu with context [persist io t ?q] => pose proof (persist_healthy io t q) as Hp;
    pose proof (payload_key_persist io t q) as Hk; destruct (persist io t q) as [q' [[]|e]] end.
  - right. injection Eu as <- <-. exists q'. split; [done|]. split; [|done]. by inversion Hs; subst.
  - left. injection Eu as <- <-. eexists _, e. split; [done|]. split; [by inversion Hs; subst|].
    intros Hh. destruct (Hp Hh Ht) as [x Hx]. done.
Qed.

Lemma rotate_loop_cases ios ts dest S written :
  represents U dest S -> NoDup ts -> (forall t, t ∈ ts -> U t /\ t ∉ S) ->
  (exists e, rotate_loop ios ts dest written = Err e /\ ~ forall n, healthy (ios n) (payload_key dest)) \/
  (exists dest', rotate_loop ios ts dest written = Ok (dest', (written + length ts)%nat) /\
    represents U dest' (list_to_set ts ∪ S) /\ payload_key dest' = payload_key dest).
Proof using HU.
  revert dest S written. induction ts as [|t ts IH]; intros dest S written HR Hnd Hts; cbn [rotate_loop].
  { right. exists dest. rewrite Nat.add_0_r. cbn. by rewrite (left_id_L ∅ (∪)). }
  apply NoDup_cons in Hnd as [Hni Hnd]. destruct (Hts t) as [Ht Htn]; [left|].
  destruct (upsert_new (ios written) _ _ _ HR Ht Htn) as [(d & e & -> & _ & Hh)|(d & -> & HR' & Hk)].
  { left. exists e. split; [done|]. intros Hn. by apply Hh. }
  destruct (IH d ({[t]} ∪ S) (Datatypes.S written)) as [(e & -> & Hh)|(d' & -> & HR'' & Hk')].
  - done.
  - done.
  - intros u Hu. destruct (Hts u) as [? ?]; [by right|]. set_solver.
  - left. exists e. rewrite Hk in Hh. done.
  - right. exists d'. split_and!; [f_equal; f_equal; cbn; lia| |congruence].
    replace (list_to_set (t :: ts) ∪ S) with (list_to_set ts ∪ ({[t]} ∪ S) : gset RelationTuple); [done|].
    cbn. set_solver.
Qed.

(** Rotating the master key carries every tuple over.  Whatever faults
    occur, a rotation that answers [n] has left a store under the new key that
    represents exactly the tuples of the old one, [n] of them, and keeps doing so
    when it is reopened; it never runs onto an existing file; and when nothing is
    refused it does answer: neither the duplicate check nor the count check can
    fire. *)
Theorem key_rotation_complete {HO : HashOrder} dest_exists io_open io_dest io_self ios k' p S :
  represents U p S ->
  let out := rotate_master_key dest_exists io_open io_dest io_self ios (Ok k') p in
  (forall dest n, out = Ok (dest, n) ->
     dest_exists = false /\ n = size S /\ represents U dest S /\ payload_key dest = k' /\
     forall io q, open io (conn dest) (Ok k') = Ok q -> represents U q S) /\
  (dest_exists = false -> io_error io_open = None -> io_error io_dest = None -> io_error io_self = None ->
   (forall n, healthy (ios n) k') -> is_ok out = true).
Proof using HU.
  intros HR out. subst out. unfold rotate_master_key. destruct dest_exists; [by split|].
  destruct (open io_open empty_db (Ok k')) as [d0|e] eqn:Eo; cbn [try_result].
  2: { split; [done|]. intros _ Hio. exfalso. revert Eo. unfold open, load_all. cbn. by rewrite Hio. }
  assert (payload_key d0 = k') as Hk0.
  { revert Eo. unfold open, load_all. cbn. destruct (io_error io_open); [done|]. by intros [= <-]. }
  pose proof (persistent_store_empty io_open k' d0 Eo) as HR0.
  set (ts := hash_order (elements (tuples (store p)))).
  assert (Hin : forall t, t ∈ ts <-> t ∈ S).
  { intros t. unfold ts. rewrite elem_of_hash_order, elem_of_elements. by rewrite (rp_tuples _ _ _ HR). }
  assert (list_to_set ts ∪ ∅ = S) as Hset.
  { apply set_eq. intros t. rewrite elem_of_union, elem_of_list_to_set, Hin. set_solver. }
  assert (length ts = size S) as Hlen.
  { unfold ts. rewrite length_hash_order, (rp_tuples _ _ _ HR). done. }
  destruct (rotate_loop_cases ios ts d0 ∅ 0%nat HR0) as [(e & -> & Hh)|(d & -> & HR' & Hk)].
  { apply NoDup_hash_order, NoDup_elements. }
  { intros t Ht. split; [|set_solver]. apply (rp_usable _ _ _ HR). by apply Hin. }
  { cbn [try_result]. split; [done|]. intros _ _ _ _ Hn. exfalso. apply Hh. by rewrite Hk0. }
  rewrite Hset in HR'. cbn [try_result fst]. unfold persisted_count.
  rewrite (disk_holds_size _ _ _ (rp_disk _ _ _ HR') (rp_usable _ _ _ HR')).
  rewrite (disk_holds_size _ _ _ (rp_disk _ _ _ HR) (rp_usable _ _ _ HR)).
  destruct (io_error io_dest), (io_error io_self); cbn [try_result]; try done.
  rewrite Nat.eqb_refl. cbn [negb]. split; [|done]. intros dest n [= <- <-].
  split_and!; [done|by rewrite Hlen|done|congruence|]. intros io q Hq. rewrite <- Hk0, <- Hk in Hq.
  by eapply open_represents.
Qed.

End Usable.
End Refinement.

(** ** A concrete store *)

Section Demo.
#[local] Existing Instance keyed_aead.
#[local] Instance tuple_serde : Serde (list N * RelationTuple) RelationTuple :=
  {| to_vec t := Some ([], t); from_slice b := Some b.2 |}.
(** The name read as a number. *)
#[local] Instance number_v5 : UuidV5 := {| uuid_v5 _ name := foldl (fun n b => n * 256 + b)%N 1%N name |}.
#[local] Existing Instance hash_order_rev.

Definition io_fine : Io (Nonce := unit) := mk_io None tt 1000000.
Definition io_full : Io (Nonce := unit) := mk_io (Some "database or disk is full") tt 2000000.
Definition demo_usable (t : RelationTuple) : Prop := t = grant_group \/ t = join_group.

Lemma demo_usable_ok : usable (Bytes := list N * RelationTuple) demo_usable.
Proof.
  split.
  - intros t [-> | ->]; split; vm_compute; reflexivity.
  - intros t _ b [= <-]. reflexivity.
  - intros t u [-> | ->] [-> | ->]; try reflexivity; intros H; vm_compute in H; discriminate.
Defined.

Definition opened : PersistentTupleStore (Key := N) (Nonce := unit) (Bytes := list N * RelationTuple) :=
  match open io_fine empty_db (Ok 7%N) with Ok p => p | Err _ => mk_persistent TupleStore.new empty_db 7%N end.
Definition inserted := (exec io_fine (Insert grant_group) opened).1.
Definition refused := (exec io_full (Insert join_group) inserted).1.
Definition demo_events : list event :=
  [Called (Insert grant_group) (Ok true); Called (Insert join_group) (Err (Sqlite "database or disk is full"));
   Restarted].
Definition restarted : PersistentTupleStore (Key := N) (Nonce := unit) (Bytes := list N * RelationTuple) :=
  match open io_fine (conn refused) (Ok (payload_key refused)) with Ok p => p | Err _ => refused end.

Lemma demo_represents : represents demo_usable opened ∅.
Proof. apply (persistent_store_empty demo_usable demo_usable_ok io_fine 7%N). vm_compute. reflexivity. Defined.

Lemma demo_tuples_run : run step opened demo_events restarted.
Proof.
  eapply run_cons; [apply (step_call io_fine _ _ inserted); vm_compute; reflexivity|].
  eapply run_cons; [apply (step_call io_full _ _ refused); vm_compute; reflexivity|].
  eapply run_cons; [apply (step_restart io_fine); vm_compute; reflexivity|]. constructor.
Defined.

Lemma persistent_store_refines_witness :
  exists S, run spec_step ∅ demo_events S /\ represents demo_usable restarted S.
Proof.
  apply (persistent_store_refines demo_usable demo_usable_ok io_fine 7%N opened ∅ demo_events restarted).
  - exact demo_represents.
  - exact demo_tuples_run.
  - intros c r t Hin Ht. unfold demo_events in Hin.
    rewrite !elem_of_cons in Hin. destruct Hin as [H|[H|[H|H]]]; [..|by apply elem_of_nil in H];
      inversion H; subst; injection Ht as <-; [by left|by right].
Defined.

Lemma demo_inserted : represents demo_usable inserted {[grant_group]}.
Proof.
  destruct (insert_refines demo_usable demo_usable_ok io_fine grant_group opened inserted (Ok true) ∅
              demo_represents) as (S & Hs & HR); [by left|vm_compute; reflexivity|].
  inversion Hs; subst. by rewrite (right_id_L ∅ (∪)) in HR.
Defined.

Lemma key_rotation_complete_witness :
  exists dest, rotate_master_key false io_fine io_fine io_fine (fun _ => io_fine) (Ok 8%N) inserted = Ok (dest, 1%nat)
    /\ represents demo_usable dest {[grant_group]} /\ payload_key dest = 8%N.
Proof.
  pose proof (key_rotation_complete demo_usable demo_usable_ok false io_fine io_fine io_fine (fun _ => io_fine)
                8%N inserted {[grant_group]} demo_inserted) as [H _].
  destruct (rotate_master_key _ _ _ _ _ _ inserted) as [[dest n]|e] eqn:E; [|vm_compute in E; discriminate].
  destruct (H dest n eq_refl) as (_ & -> & HR & Hk & _).
  exists dest. split; [reflexivity|]. split; [exact HR|exact Hk].
Defined.

End Demo.
