(* ===== verification/AclSync.v ===== *)
(** * Access-control synchronisation ([connector_framework/src/acl_sync.rs])

    A connector reports who gained and who lost access to a document of the
    source system; the engine projects the reports onto the relation tuples of
    [TupleStore].  The specification is the source's last word on each pair of a
    document and a user, and [PermissionCheck] is shown to answer by it. *)

From S2P Require Import Prelude Namespace TupleStore PermissionCheck.

(** ** Source identifiers, levels and deltas *)

(** [SourceUserId] and [SourceDocumentId] of [event.rs]. *)
Abbreviation SourceUserId := string (only parsing).
Abbreviation SourceDocumentId := string (only parsing).

(** [enum SourcePermissionLevel] and [as_str]. *)
Inductive SourcePermissionLevel : Type := LRead | LWrite | LAdmin.
#[export] Instance SourcePermissionLevel_eq_dec : EqDecision SourcePermissionLevel.
Proof. solve_decision. Defined.
#[export] Instance SourcePermissionLevel_countable : Countable SourcePermissionLevel.
Proof.
  apply (inj_countable' (fun l => match l with LRead => 0 | LWrite => 1 | LAdmin => 2 end)%N
           (fun n => match n with 0 => LRead | 1 => LWrite | _ => LAdmin end)%N).
  by intros [].
Defined.
Definition level_str (l : SourcePermissionLevel) : string :=
  match l with LRead => "read" | LWrite => "write" | LAdmin => "admin" end.

(** [struct SourcePermission], [struct SourceRevocation], [enum PermissionDelta]. *)
Record SourcePermission : Type := mk_permission {
  source_user_id : SourceUserId;
  source_document_id : SourceDocumentId;
  level : SourcePermissionLevel
}.
Record SourceRevocation : Type := mk_revocation { rv_user_id : SourceUserId; rv_document_id : SourceDocumentId }.
Inductive PermissionDelta : Type :=
| Grant (g : SourcePermission)
| Revoke (r : SourceRevocation).

(** ** The mapping *)

(** [struct PermissionMapping] with [new], [with_relation_for], [map_user],
    [map_document], [resolve_user], [resolve_document], [relation_for]. *)
Record PermissionMapping : Type := mk_mapping {
  pm_object_type : ObjectType;
  pm_subject_type : SubjectType;
  user_resolver : gmap SourceUserId uuid;
  document_resolver : gmap SourceDocumentId uuid;
  level_to_relation : gmap SourcePermissionLevel Relation
}.
Definition new_mapping (o : ObjectType) (s : SubjectType) : PermissionMapping :=
  mk_mapping o s ∅ ∅ (<[LAdmin := Admin]> (<[LWrite := Editor]> (<[LRead := Viewer]> ∅))).
Definition with_relation_for (m : PermissionMapping) (l : SourcePermissionLevel) (r : Relation) : PermissionMapping :=
  mk_mapping (pm_object_type m) (pm_subject_type m) (user_resolver m) (document_resolver m)
    (<[l := r]> (level_to_relation m)).
Definition map_user (source : SourceUserId) (substrate : uuid) (m : PermissionMapping) : PermissionMapping :=
  mk_mapping (pm_object_type m) (pm_subject_type m) (<[source := substrate]> (user_resolver m))
    (document_resolver m) (level_to_relation m).
Definition map_document (source : SourceDocumentId) (substrate : uuid) (m : PermissionMapping) : PermissionMapping :=
  mk_mapping (pm_object_type m) (pm_subject_type m) (user_resolver m)
    (<[source := substrate]> (document_resolver m)) (level_to_relation m).
Definition resolve_user (m : PermissionMapping) (source : SourceUserId) : option uuid := user_resolver m !! source.
Definition resolve_document (m : PermissionMapping) (source : SourceDocumentId) : option uuid :=
  document_resolver m !! source.
Definition relation_for (m : PermissionMapping) (l : SourcePermissionLevel) : Relation :=
  default Viewer (level_to_relation m !! l).

(** ** The engine *)

(** [struct AclSyncReport]. *)
Record AclSyncReport : Type := mk_report {
  inserted : nat;
  updated : nat;
  removed : nat;
  unknown_users : list SourceUserId;
  unknown_documents : list SourceDocumentId
}.
Definition empty_report : AclSyncReport := mk_report 0 0 0 [] [].
Definition count_inserted (r : AclSyncReport) : AclSyncReport :=
  mk_report (S (inserted r)) (updated r) (removed r) (unknown_users r) (unknown_documents r).
Definition count_updated (r : AclSyncReport) : AclSyncReport :=
  mk_report (inserted r) (S (updated r)) (removed r) (unknown_users r) (unknown_documents r).
Definition count_removed (r : AclSyncReport) : AclSyncReport :=
  mk_report (inserted r) (updated r) (S (removed r)) (unknown_users r) (unknown_documents r).
Definition push_user (u : SourceUserId) (r : AclSyncReport) : AclSyncReport :=
  mk_report (inserted r) (updated r) (removed r) (unknown_users r ++ [u]) (unknown_documents r).
Definition push_document (d : SourceDocumentId) (r : AclSyncReport) : AclSyncReport :=
  mk_report (inserted r) (updated r) (removed r) (unknown_users r) (unknown_documents r ++ [d]).

Section Engine.
Context `{HashOrder}.

(** The tuples of the store that grant the subject directly on the object, in
    iteration order. *)
Definition is_pair (object : ObjectRef) (subject : SubjectRef) (t : RelationTuple) : bool :=
  bool_decide (tuple_object t = object)
  && bool_decide (subject_type (tuple_subject t) = subject_type subject)
  && (subject_id (tuple_subject t) =? subject_id subject)%N
  && bool_decide (subject_relation (tuple_subject t) = None).
Definition existing_for_pair (s : TupleStore) (object : ObjectRef) (subject : SubjectRef) : list RelationTuple :=
  List.filter (is_pair object subject) (hash_order (elements (tuples s))).

(** The removal loops; [None] is the [expect] that a listed tuple is there. *)
Fixpoint remove_all (ts : list RelationTuple) (s : TupleStore) (report : AclSyncReport) :
    option (TupleStore * AclSyncReport) :=
  match ts with
  | [] => Some (s, report)
  | t :: ts =>
      match remove t s with
      | (_, Err _) => None
      | (s, Ok _) => remove_all ts s (count_removed report)
      end
  end.

(** [apply_grant], [apply_revoke]. *)
Definition apply_grant (m : PermissionMapping) (g : SourcePermission) (s : TupleStore) (report : AclSyncReport) :
    option (TupleStore * AclSyncReport) :=
  match resolve_document m (source_document_id g) with
  | None => Some (s, push_document (source_document_id g) report)
  | Some object_id =>
      match resolve_user m (source_user_id g) with
      | None => Some (s, push_user (source_user_id g) report)
      | Some subject_id =>
          let object := mk_object (pm_object_type m) object_id in
          let subject := direct (pm_subject_type m) subject_id in
          let target := mk_tuple object (relation_for m (level g)) subject in
          if contains s target then Some (s, report)
          else
            match existing_for_pair s object subject with
            | [] =>
                match insert target s with
                | (_, Err _) => None
                | (s, Ok _) => Some (s, count_inserted report)
                end
            | existing =>
                match remove_all existing s report with
                | None => None
                | Some (s, report) =>
                    match insert target s with
                    | (_, Err _) => None
                    | (s, Ok _) => Some (s, count_updated report)
                    end
                end
            end
      end
  end.
Definition apply_revoke (m : PermissionMapping) (r : SourceRevocation) (s : TupleStore) (report : AclSyncReport) :
    option (TupleStore * AclSyncReport) :=
  match resolve_document m (rv_document_id r) with
  | None => Some (s, push_document (rv_document_id r) report)
  | Some object_id =>
      match resolve_user m (rv_user_id r) with
      | None => Some (s, push_user (rv_user_id r) report)
      | Some subject_id =>
          let object := mk_object (pm_object_type m) object_id in
          remove_all (existing_for_pair s object (direct (pm_subject_type m) subject_id)) s report
      end
  end.

(** [AclSyncEngine::sync]. *)
Definition apply_delta (m : PermissionMapping) (s : TupleStore) (report : AclSyncReport) (d : PermissionDelta) :
    option (TupleStore * AclSyncReport) :=
  match d with Grant g => apply_grant m g s report | Revoke r => apply_revoke m r s report end.
Fixpoint sync_loop (m : PermissionMapping) (s : TupleStore) (report : AclSyncReport) (deltas : list PermissionDelta) :
    option (TupleStore * AclSyncReport) :=
  match deltas with
  | [] => Some (s, report)
  | d :: deltas =>
      match apply_delta m s report d with
      | None => None
      | Some (s, report) => sync_loop m s report deltas
      end
  end.
Definition sync (m : PermissionMapping) (deltas : list PermissionDelta) (s : TupleStore) :
    option (TupleStore * AclSyncReport) :=
  sync_loop m s empty_report deltas.
End Engine.

(** ** Specification *)

(** The tuple that grants user [u] relation [r] on document [o]. *)
Definition grant_of (m : PermissionMapping) (o u : uuid) (r : Relation) : RelationTuple :=
  mk_tuple (mk_object (pm_object_type m) o) r (direct (pm_subject_type m) u).

(** What a delta says once both its identifiers resolve: the relation the user
    is to have on the document, or none. *)
Definition verdict (m : PermissionMapping) (d : PermissionDelta) : option (uuid * uuid * option Relation) :=
  let '(doc, user, v) := match d with
                         | Grant g => (source_document_id g, source_user_id g, Some (relation_for m (level g)))
                         | Revoke r => (rv_document_id r, rv_user_id r, None)
                         end in
  match resolve_document m doc, resolve_user m user with
  | Some o, Some u => Some (o, u, v)
  | _, _ => None
  end.

(** The verdicts on one pair, in order. *)
Definition verdicts (m : PermissionMapping) (o u : uuid) (ds : list PermissionDelta) : list (option Relation) :=
  omap (fun d => match verdict m d with
                 | Some (o', u', v) => if bool_decide (o' = o /\ u' = u) then Some v else None
                 | None => None
                 end) ds.

(** The user holds at most one relation on the document directly. *)
Definition sole (m : PermissionMapping) (o u : uuid) (S : gset RelationTuple) : Prop :=
  forall r r', grant_of m o u r ∈ S -> grant_of m o u r' ∈ S -> r = r'.

(** The effect of a delta on the set of tuples. *)
Definition without (m : PermissionMapping) (o u : uuid) (S : gset RelationTuple) : gset RelationTuple :=
  S ∖ list_to_set (grant_of m o u <$> all_relations).
Definition effect (m : PermissionMapping) (S : gset RelationTuple) (d : PermissionDelta) : gset RelationTuple :=
  match verdict m d with
  | None => S
  | Some (o, u, None) => without m o u S
  | Some (o, u, Some r) => if decide (grant_of m o u r ∈ S) then S else {[grant_of m o u r]} ∪ without m o u S
  end.

(** How many relations the user holds on the document directly. *)
Definition held (m : PermissionMapping) (o u : uuid) (S : gset RelationTuple) : nat := size (S ∖ without m o u S).

(** What a delta adds to the three counters: a grant to a user that holds nothing
    on the document, a grant of another relation than those held, and the tuples
    taken away. *)
Definition first_grant (m : PermissionMapping) (S : gset RelationTuple) (d : PermissionDelta) : nat :=
  match verdict m d with
  | Some (o, u, Some r) => if decide (grant_of m o u r ∈ S) then 0 else if decide (held m o u S = 0%nat) then 1 else 0
  | _ => 0
  end.
Definition changed_grant (m : PermissionMapping) (S : gset RelationTuple) (d : PermissionDelta) : nat :=
  match verdict m d with
  | Some (o, u, Some r) => if decide (grant_of m o u r ∈ S) then 0 else if decide (held m o u S = 0%nat) then 0 else 1
  | _ => 0
  end.
Definition taken_away (m : PermissionMapping) (S : gset RelationTuple) (d : PermissionDelta) : nat :=
  match verdict m d with
  | Some (o, u, Some r) => if decide (grant_of m o u r ∈ S) then 0 else held m o u S
  | Some (o, u, None) => held m o u S
  | None => 0
  end.
(** Summed over the deltas, each in the state it finds. *)
Fixpoint tally (m : PermissionMapping) (f : gset RelationTuple -> PermissionDelta -> nat) (S : gset RelationTuple)
    (ds : list PermissionDelta) : nat :=
  match ds with
  | [] => 0
  | d :: ds => f S d + tally m f (effect m S d) ds
  end.

Lemma grant_of_inj m o u r o' u' r' : grant_of m o u r = grant_of m o' u' r' -> o = o' /\ u = u' /\ r = r'.
Proof. unfold grant_of, direct. intros [= -> -> ->]. done. Qed.

Lemma elem_of_without m o u S t : t ∈ without m o u S <-> t ∈ S /\ forall r, t <> grant_of m o u r.
Proof.
  unfold without. rewrite elem_of_difference, elem_of_list_to_set, list_elem_of_fmap. split; intros [Ht Hn]; (split; [done|]).
  - intros r ->. apply Hn. exists r. split; [done|apply elem_of_all_relations].
  - intros (r & -> & _). by destruct (Hn r).
Qed.

Section Facts.
Context `{HashOrder} (m : PermissionMapping).
Implicit Types (S : gset RelationTuple) (s : TupleStore).

Lemma is_pair_spec o u t :
  is_pair (mk_object (pm_object_type m) o) (direct (pm_subject_type m) u) t = true <-> exists r, t = grant_of m o u r.
Proof.
  unfold is_pair, grant_of, direct. cbn [subject_type subject_id]. split.
  - intros Hp. bool_to_prop. destruct t as [ob r [ty i rel]]. cbn in *. subst. by exists r.
  - intros [r ->]. cbn. rewrite !bool_decide_eq_true_2, N.eqb_refl by done. done.
Qed.

Lemma elem_of_existing s o u t :
  t ∈ existing_for_pair s (mk_object (pm_object_type m) o) (direct (pm_subject_type m) u)
  <-> t ∈ tuples s /\ exists r, t = grant_of m o u r.
Proof.
  unfold existing_for_pair. rewrite list_elem_of_In, List.filter_In, <- list_elem_of_In, is_pair_spec.
  by rewrite elem_of_hash_order, elem_of_elements.
Qed.

Lemma NoDup_existing s object subject : NoDup (existing_for_pair s object subject).
Proof.
  unfold existing_for_pair. apply NoDup_ListNoDup, List.NoDup_filter, NoDup_ListNoDup, NoDup_hash_order, NoDup_elements.
Qed.

Lemma remove_all_spec ts s report :
  store_wf s -> NoDup ts -> (forall t, t ∈ ts -> t ∈ tuples s) ->
  exists s', remove_all ts s report = Some (s', Nat.iter (length ts) count_removed report) /\ store_wf s' /\
    tuples s' = tuples s ∖ list_to_set ts.
Proof.
  revert s report. induction ts as [|t ts IH]; intros s report Hwf Hnd Hin; cbn [remove_all].
  { exists s. split; [done|]. split; [done|]. cbn. set_solver. }
  apply NoDup_cons in Hnd as [Hnt Hnd]. assert (Ht : t ∈ tuples s) by (apply Hin; left).
  pose proof (store_wf_remove s t Hwf) as Hwf'. unfold remove in *. rewrite bool_decide_eq_true_2 in * by done.
  cbn [fst] in Hwf'. destruct (IH _ (count_removed report) Hwf' Hnd) as (s' & -> & Hs' & Hts).
  { intros x Hx. cbn. apply elem_of_difference. split; [apply Hin; by right|]. intros ->%elem_of_singleton. done. }
  exists s'. split; [|split; [done|]].
  - f_equal. f_equal. cbn [length Nat.iter]. by rewrite <- Nat.iter_succ_r.
  - rewrite Hts. cbn. set_solver.
Qed.

Lemma without_existing s o u :
  tuples s ∖ list_to_set (existing_for_pair s (mk_object (pm_object_type m) o) (direct (pm_subject_type m) u))
  = without m o u (tuples s).
Proof.
  apply set_eq. intros t. rewrite elem_of_without, elem_of_difference, elem_of_list_to_set, elem_of_existing.
  split; intros [Ht Hn]; (split; [done|]); [intros r ->; apply Hn; eauto|intros [_ [r ->]]; by destruct (Hn r)].
Qed.

(** The identifiers a delta fails to resolve; the document is looked up first. *)
Definition missing_document (d : PermissionDelta) : list SourceDocumentId :=
  let doc := match d with Grant g => source_document_id g | Revoke r => rv_document_id r end in
  match resolve_document m doc with None => [doc] | Some _ => [] end.
Definition missing_user (d : PermissionDelta) : list SourceUserId :=
  let '(doc, user) := match d with
                      | Grant g => (source_document_id g, source_user_id g)
                      | Revoke r => (rv_document_id r, rv_user_id r)
                      end in
  match resolve_document m doc, resolve_user m user with Some _, None => [user] | _, _ => [] end.

(** What a report adds up to. *)
Definition reports (S S' : gset RelationTuple) (rep rep' : AclSyncReport) (ds : list PermissionDelta) : Prop :=
  unknown_users rep' = unknown_users rep ++ (ds ≫= missing_user) /\
  unknown_documents rep' = unknown_documents rep ++ (ds ≫= missing_document) /\
  (size S' + removed rep' + (inserted rep + updated rep) = size S + removed rep + (inserted rep' + updated rep'))%nat /\
  inserted rep' = (inserted rep + tally m (first_grant m) S ds)%nat /\
  updated rep' = (updated rep + tally m (changed_grant m) S ds)%nat /\
  removed rep' = (removed rep + tally m (taken_away m) S ds)%nat.

Lemma removed_iter n rep :
  let rep' := Nat.iter n count_removed rep in
  removed rep' = (n + removed rep)%nat /\ inserted rep' = inserted rep /\ updated rep' = updated rep /\
  unknown_users rep' = unknown_users rep /\ unknown_documents rep' = unknown_documents rep.
Proof.
  induction n as [|n IH]; [done|]. rewrite Nat.iter_succ. cbn zeta in *. destruct IH as (H1 & H2 & H3 & H4 & H5).
  unfold count_removed at 1 3 5 7 9. cbn [removed inserted updated unknown_users unknown_documents].
  rewrite H1, H2, H3, H4, H5. split_and!; done || lia.
Qed.

Lemma insert_spec s t :
  store_wf s -> t ∉ tuples s ->
  exists s', insert t s = (s', Ok tt) /\ store_wf s' /\ tuples s' = {[t]} ∪ tuples s.
Proof.
  intros Hwf Ht. pose proof (store_wf_insert s t Hwf) as Hwf'. unfold insert in *.
  rewrite bool_decide_eq_false_2 in * by done. eexists. split; [done|]. by split.
Qed.

Lemma size_existing s o u :
  (size (without m o u (tuples s))
   + length (existing_for_pair s (mk_object (pm_object_type m) o) (direct (pm_subject_type m) u))
   = size (tuples s))%nat.
Proof.
  set (l := existing_for_pair _ _ _). rewrite <- without_existing. fold l.
  assert (Hl : list_to_set (C:=gset RelationTuple) l ⊆ tuples s).
  { intros t Ht. apply elem_of_list_to_set in Ht. by apply (elem_of_existing s o u) in Ht as [? _]. }
  rewrite size_difference by done. rewrite (size_list_to_set l) by apply NoDup_existing.
  pose proof (subseteq_size _ _ Hl) as Hle. rewrite (size_list_to_set l) in Hle by apply NoDup_existing. lia.
Qed.

Lemma held_existing s o u :
  held m o u (tuples s) = length (existing_for_pair s (mk_object (pm_object_type m) o) (direct (pm_subject_type m) u)).
Proof.
  unfold held. pose proof (size_existing s o u) as Hs. rewrite size_difference by (intros t; rewrite elem_of_without; tauto). lia.
Qed.

#[local] Ltac count_up := rewrite ?(right_id_L [] (++)); split_and!; done || lia.

Definition delta_ok s rep (d : PermissionDelta) (r : option (TupleStore * AclSyncReport)) : Prop :=
  exists s' rep', r = Some (s', rep') /\ store_wf s' /\ tuples s' = effect m (tuples s) d /\
    reports (tuples s) (tuples s') rep rep' [d].

Lemma apply_grant_resolved s rep g o u :
  store_wf s -> resolve_document m (source_document_id g) = Some o -> resolve_user m (source_user_id g) = Some u ->
  delta_ok s rep (Grant g) (apply_grant m g s rep).
Proof.
  intros Hwf Eo Eu. unfold delta_ok, reports. cbn [mbind list_bind].
  assert (missing_user (Grant g) = [] /\ missing_document (Grant g) = []) as [-> ->] by (unfold missing_user, missing_document; by rewrite Eo, Eu).
  unfold effect, tally, first_grant, changed_grant, taken_away, verdict, apply_grant. rewrite Eo, Eu. cbn [app]. fold (grant_of m o u (relation_for m (level g))). set (t := grant_of _ _ _ _).
  unfold contains. case_bool_decide as Ht.
  { rewrite !decide_True by done. eexists s, rep. split; [done|]. split; [done|]. split; [done|]. count_up. }
  rewrite !(decide_False (P := t ∈ tuples s)) by done. pose proof (size_existing s o u) as Hsz. rewrite held_existing.
  pose proof (remove_all_spec (existing_for_pair s (mk_object (pm_object_type m) o) (direct (pm_subject_type m) u)) s rep Hwf
    (NoDup_existing s _ _) (fun t Ht => proj1 (proj1 (elem_of_existing s o u t) Ht))) as (s1 & Hrem & Hwf1 & Hts).
  rewrite without_existing in Hts.
  assert (Ht1 : t ∉ tuples s1) by (rewrite Hts, elem_of_without; intros [? _]; done).
  destruct (existing_for_pair _ _ _) as [|x l] eqn:El.
  - rewrite !(decide_True (P := length [] = 0%nat)) by done. cbn in Hrem. injection Hrem as <-. destruct (insert_spec s t Hwf Ht) as (s' & -> & Hwf' & Hs').
    eexists s', _. split; [done|]. split; [done|]. split; [by rewrite Hs', <- Hts|].
    rewrite Hs', size_union, size_singleton by set_solver. cbn [count_inserted removed inserted updated unknown_users unknown_documents length]. count_up.
  - rewrite !(decide_False (P := length (x :: l) = 0%nat)) by done. rewrite Hrem. destruct (insert_spec s1 t Hwf1 Ht1) as (s' & -> & Hwf' & Hs').
    eexists s', _. split; [done|]. split; [done|]. split; [by rewrite Hs', Hts|].
    rewrite Hs', size_union, size_singleton by set_solver. rewrite Hts.
    destruct (removed_iter (length (x :: l)) rep) as (H1 & H2 & H3 & H4 & H5).
    cbn [count_updated removed inserted updated unknown_users unknown_documents].
    rewrite H1, H2, H3, H4, H5. count_up.
Qed.

Lemma apply_revoke_resolved s rep r o u :
  store_wf s -> resolve_document m (rv_document_id r) = Some o -> resolve_user m (rv_user_id r) = Some u ->
  delta_ok s rep (Revoke r) (apply_revoke m r s rep).
Proof.
  intros Hwf Eo Eu. unfold delta_ok, reports. cbn [mbind list_bind].
  assert (missing_user (Revoke r) = [] /\ missing_document (Revoke r) = []) as [-> ->] by (unfold missing_user, missing_document; by rewrite Eo, Eu).
  unfold effect, tally, first_grant, changed_grant, taken_away, verdict, apply_revoke. rewrite Eo, Eu, held_existing. cbn [app].
  destruct (remove_all_spec (existing_for_pair s (mk_object (pm_object_type m) o) (direct (pm_subject_type m) u)) s rep Hwf
    (NoDup_existing s _ _) (fun t Ht => proj1 (proj1 (elem_of_existing s o u t) Ht))) as (s1 & -> & Hwf1 & Hts).
  rewrite without_existing in Hts. pose proof (size_existing s o u) as Hsz.
  eexists s1, _. split; [done|]. split; [done|]. split; [done|]. rewrite Hts.
  destruct (removed_iter (length (existing_for_pair s (mk_object (pm_object_type m) o) (direct (pm_subject_type m) u))) rep)
    as (-> & -> & -> & -> & ->).
  count_up.
Qed.

(** An identifier that does not resolve: the store is left alone. *)
Lemma unknown_document s rep d x :
  store_wf s -> verdict m d = None -> missing_user d = [] -> missing_document d = [x] ->
  delta_ok s rep d (Some (s, push_document x rep)).
Proof.
  intros Hwf Hv Hu Hd. eexists s, _. split; [done|]. split; [done|]. split; [unfold effect; by rewrite Hv|].
  unfold reports, tally, first_grant, changed_grant, taken_away. cbn [mbind list_bind]. rewrite Hu, Hd, Hv. cbn. count_up.
Qed.

Lemma unknown_user s rep d x :
  store_wf s -> verdict m d = None -> missing_user d = [x] -> missing_document d = [] ->
  delta_ok s rep d (Some (s, push_user x rep)).
Proof.
  intros Hwf Hv Hu Hd. eexists s, _. split; [done|]. split; [done|]. split; [unfold effect; by rewrite Hv|].
  unfold reports, tally, first_grant, changed_grant, taken_away. cbn [mbind list_bind]. rewrite Hu, Hd, Hv. cbn. count_up.
Qed.

Lemma apply_delta_ok s rep d : store_wf s -> delta_ok s rep d (apply_delta m s rep d).
Proof.
  intros Hwf. destruct d as [g|r]; cbn [apply_delta].
  - destruct (resolve_document m (source_document_id g)) as [o|] eqn:Eo;
      [destruct (resolve_user m (source_user_id g)) as [u|] eqn:Eu; [by eapply apply_grant_resolved|]|];
      unfold apply_grant; rewrite Eo, ?Eu; (apply unknown_user || apply unknown_document); try done;
      unfold verdict, missing_user, missing_document; by rewrite Eo, ?Eu.
  - destruct (resolve_document m (rv_document_id r)) as [o|] eqn:Eo;
      [destruct (resolve_user m (rv_user_id r)) as [u|] eqn:Eu; [by eapply apply_revoke_resolved|]|];
      unfold apply_revoke; rewrite Eo, ?Eu; (apply unknown_user || apply unknown_document); try done;
      unfold verdict, missing_user, missing_document; by rewrite Eo, ?Eu.
Qed.

Lemma sync_loop_spec ds s rep :
  store_wf s ->
  exists s' rep', sync_loop m s rep ds = Some (s', rep') /\ store_wf s' /\
    tuples s' = foldl (effect m) (tuples s) ds /\ reports (tuples s) (tuples s') rep rep' ds.
Proof.
  revert s rep. induction ds as [|d ds IH]; intros s rep Hwf; cbn [sync_loop].
  { exists s, rep. unfold reports. cbn [foldl mbind list_bind]. split; [done|]. split; [done|]. split; [done|]. count_up. }
  destruct (apply_delta_ok s rep d Hwf) as (s1 & rep1 & -> & Hwf1 & Ht1 & Hu1 & Hd1 & Hs1 & Ci1 & Cu1 & Cr1).
  destruct (IH s1 rep1 Hwf1) as (s2 & rep2 & -> & Hwf2 & Ht2 & Hu2 & Hd2 & Hs2 & Ci2 & Cu2 & Cr2). cbn [tally] in *. rewrite Ht1 in Ci2, Cu2, Cr2.
  exists s2, rep2. split; [done|]. split; [done|]. split; [cbn; by rewrite <- Ht1|].
  unfold reports. cbn [mbind list_bind] in Hu1, Hd1 |- *. rewrite (right_id_L [] (++)) in Hu1, Hd1.
  rewrite Hu2, Hd2, Hu1, Hd1, <- !(assoc_L (++)). cbn [tally]. split_and!; [done|done|lia..].
Qed.

(** Effects, pair by pair. *)
Lemma effect_other S d t :
  (forall o u v, verdict m d = Some (o, u, v) -> forall r, t <> grant_of m o u r) ->
  t ∈ effect m S d <-> t ∈ S.
Proof.
  intros Hno. unfold effect. destruct (verdict m d) as [[[o u] [r|]]|]; [|..|done]; specialize (Hno o u _ eq_refl).
  - case_decide; [done|]. rewrite elem_of_union, elem_of_singleton, elem_of_without. specialize (Hno r) as Hr. tauto.
  - rewrite elem_of_without. tauto.
Qed.

Lemma effects_other S ds t :
  (forall d o u v, d ∈ ds -> verdict m d = Some (o, u, v) -> forall r, t <> grant_of m o u r) ->
  t ∈ foldl (effect m) S ds <-> t ∈ S.
Proof.
  revert S. induction ds as [|d ds IH]; intros S Hno; cbn [foldl]; [done|].
  rewrite IH by (intros; eapply Hno; [by right|done]). apply effect_other. intros o u v Hv. eapply Hno; [left|done].
Qed.

Lemma effect_pair S d o u r :
  grant_of m o u r ∈ effect m S d <->
  match verdict m d with
  | Some (o', u', v) =>
      if bool_decide (o' = o /\ u' = u) then
        match v with
        | None => False
        | Some r' => if decide (grant_of m o u r' ∈ S) then grant_of m o u r ∈ S else r = r'
        end
      else grant_of m o u r ∈ S
  | None => grant_of m o u r ∈ S
  end.
Proof.
  unfold effect. destruct (verdict m d) as [[[o' u'] v]|]; [|done]. case_bool_decide as Hp.
  - destruct Hp as [-> ->]. destruct v as [r'|].
    + case_decide; [done|]. rewrite elem_of_union, elem_of_singleton, elem_of_without. split.
      * intros [Heq|[_ Hn]]; [by apply grant_of_inj in Heq as (_ & _ & ->)|by destruct (Hn r)].
      * intros ->. by left.
    + rewrite elem_of_without. split; [|done]. intros [_ Hn]. by destruct (Hn r).
  - destruct v as [r'|].
    + case_decide; [done|]. rewrite elem_of_union, elem_of_singleton, elem_of_without. split.
      * intros [Heq|[? _]]; [|done]. apply grant_of_inj in Heq as (-> & -> & _). by destruct Hp.
      * intros Hin. right. split; [done|]. intros r2 Heq. apply grant_of_inj in Heq as (-> & -> & _). by destruct Hp.
    + rewrite elem_of_without. split; [tauto|]. intros Hin. split; [done|]. intros r2 Heq.
      apply grant_of_inj in Heq as (-> & -> & _). by destruct Hp.
Qed.

Lemma verdicts_snoc o u ds d :
  verdicts m o u (ds ++ [d]) = verdicts m o u ds ++
    match verdict m d with
    | Some (o', u', v) => if bool_decide (o' = o /\ u' = u) then [v] else []
    | None => []
    end.
Proof.
  unfold verdicts. rewrite omap_app. f_equal. cbn. destruct (verdict m d) as [[[o' u'] v]|]; [|done]. by case_bool_decide.
Qed.

(** The source has the last word on every pair. *)
Lemma effects_pair S ds o u :
  match last (verdicts m o u ds) with
  | None => forall r, grant_of m o u r ∈ foldl (effect m) S ds <-> grant_of m o u r ∈ S
  | Some None => forall r, grant_of m o u r ∉ foldl (effect m) S ds
  | Some (Some r) => grant_of m o u r ∈ foldl (effect m) S ds
  end /\ (sole m o u S -> sole m o u (foldl (effect m) S ds)).
Proof.
  induction ds as [|d ds IH] using rev_ind; [done|].
  rewrite foldl_app, verdicts_snoc. cbn [foldl]. destruct IH as [Hlast Hsole].
  set (S1 := foldl (effect m) S ds) in *. pose proof (effect_pair S1 d o u) as Hp.
  destruct (verdict m d) as [[[o' u'] v]|]; [case_bool_decide as Hou; [destruct v as [r'|]|]|].
  - rewrite last_snoc. split.
    + apply Hp. by case_decide.
    + intros Hs r1 r2. rewrite !Hp. specialize (Hsole Hs). case_decide; [apply Hsole|congruence].
  - rewrite last_snoc. split; [intros r Hr; by apply Hp in Hr|]. intros _ r1 r2 H1. by apply Hp in H1.
  - rewrite (right_id_L [] (++)). split; [|intros Hs r1 r2; rewrite !Hp; by apply Hsole].
    destruct (last (verdicts m o u ds)) as [[r|]|]; intros; rewrite ?Hp; auto.
  - rewrite (right_id_L [] (++)). split; [|intros Hs r1 r2; rewrite !Hp; by apply Hsole].
    destruct (last (verdicts m o u ds)) as [[r|]|]; intros; rewrite ?Hp; auto.
Qed.

(** On an object to which only direct grants point, the check reads them. *)
Lemma check_direct s ns o u wanted :
  store_wf s ->
  (forall t, t ∈ tuples s -> tuple_object t = mk_object (pm_object_type m) o -> subject_relation (tuple_subject t) = None) ->
  check_permission s ns (mk_object (pm_object_type m) o) wanted (direct (pm_subject_type m) u) = true
  <-> exists r, grant_of m o u r ∈ tuples s /\ rtc (edge ns (pm_object_type m)) r wanted.
Proof.
  intros Hwf Hdirect. rewrite check_permission_granted by done. split.
  - intros Hg. inversion Hg as [ob w cover t Hr Ht Ho Hrel Hs|ob w cover t rel Hr Ht Ho Hrel Hs]; subst.
    + exists (tuple_relation t). split; [|done]. destruct t as [? ? ?]. cbn in *. by subst.
    + rewrite (Hdirect t Ht Ho) in Hs. done.
  - intros (r & Ht & Hr). eapply granted_direct; [exact Hr|exact Ht|done..].
Qed.
End Facts.

(** C37: the source system has the last word.  From any consistent store, whatever
    the deltas, [sync] returns (none of its [expect]s fails) a consistent store.
    Only direct grants of pairs that resolve are touched.  For each pair of a
    document and a user the last delta that names it decides: after a revocation
    the user holds nothing on the document directly, after a grant the granted
    relation, and only that one if there was at most one before ([sole]: a grant
    of a relation that is held leaves others of the pair alone,
    [read_grant_keeps_owner]).  The report lists exactly the unresolved
    identifiers, and counts as inserted the grants to users that held nothing on
    the document, as updated the grants that replaced other relations, and as
    removed the tuples taken away, which add up to the change of the store's
    size.  On a document that only direct grants point at, the permission check
    answers by the source's last word for a user that had at most one relation. *)
Theorem acl_mirrors_source `{HashOrder} m ds s :
  store_wf s ->
  exists s' rep, sync m ds s = Some (s', rep) /\ store_wf s' /\
    (forall t, (forall d o u v, d ∈ ds -> verdict m d = Some (o, u, v) -> forall r, t <> grant_of m o u r) ->
       t ∈ tuples s' <-> t ∈ tuples s) /\
    (forall o u, match last (verdicts m o u ds) with
       | None => forall r, grant_of m o u r ∈ tuples s' <-> grant_of m o u r ∈ tuples s
       | Some None => forall r, grant_of m o u r ∉ tuples s'
       | Some (Some r) => grant_of m o u r ∈ tuples s' /\
           (sole m o u (tuples s) -> forall r', grant_of m o u r' ∈ tuples s' <-> r' = r)
       end) /\
    unknown_users rep = ds ≫= missing_user m /\ unknown_documents rep = ds ≫= missing_document m /\
    inserted rep = tally m (first_grant m) (tuples s) ds /\ updated rep = tally m (changed_grant m) (tuples s) ds /\
    removed rep = tally m (taken_away m) (tuples s) ds /\
    (size (tuples s') + removed rep = size (tuples s) + (inserted rep + updated rep))%nat /\
    (forall ns o u wanted v, last (verdicts m o u ds) = Some v -> sole m o u (tuples s) ->
       (forall t, t ∈ tuples s' -> tuple_object t = mk_object (pm_object_type m) o ->
          subject_relation (tuple_subject t) = None) ->
       check_permission s' ns (mk_object (pm_object_type m) o) wanted (direct (pm_subject_type m) u) = true
       <-> exists r, v = Some r /\ rtc (edge ns (pm_object_type m)) r wanted).
Proof.
  intros Hwf. destruct (sync_loop_spec m ds s empty_report Hwf) as (s' & rep & Hs & Hwf' & Ht & Hu & Hd & Hsz & Hci & Hcu & Hcr).
  assert (Hpair : forall o u r, last (verdicts m o u ds) = Some (Some r) -> sole m o u (tuples s) ->
            forall r', grant_of m o u r' ∈ tuples s' <-> r' = r).
  { intros o u r Hl Hsole r'. rewrite Ht. destruct (effects_pair m (tuples s) ds o u) as [Hp Hs']. rewrite Hl in Hp.
    split; [intros Hr'; by apply (Hs' Hsole)|by intros ->]. }
  exists s', rep. split; [exact Hs|]. split; [done|]. split; [|split; [|split; [exact Hu|split; [exact Hd|
    split; [exact Hci|split; [exact Hcu|split; [exact Hcr|split; [cbn in Hsz; lia|]]]]]]]].
  - intros t Hno. rewrite Ht. by apply effects_other.
  - intros o u. pose proof (proj1 (effects_pair m (tuples s) ds o u)) as Hp. rewrite <- Ht in Hp.
    destruct (last (verdicts m o u ds)) as [[r|]|] eqn:El; [|done..]. split; [done|]. intros Hsole. by apply (Hpair o u).
  - intros ns o u wanted v Hl Hsole Hdir. rewrite check_direct by done. destruct v as [r|].
    + setoid_rewrite (Hpair o u r Hl Hsole). split; [intros (r' & -> & ?); eauto|intros (r' & [= <-] & ?); eauto].
    + pose proof (proj1 (effects_pair m (tuples s) ds o u)) as Hp. rewrite Hl in Hp.
      split; [intros (r & Hr & _); rewrite Ht in Hr; by destruct (Hp r)|by intros (r & ? & _)].
Qed.

(** ** A concrete synchronisation *)

Section Demo.
#[local] Existing Instance hash_order_id.
Definition demo_mapping : PermissionMapping :=
  map_document "doc" 10 (map_user "ann" 1 (map_user "bob" 2 (new_mapping Concept User))).
Definition demo_deltas : list PermissionDelta :=
  [Grant (mk_permission "ann" "doc" LAdmin); Grant (mk_permission "bob" "doc" LWrite);
   Grant (mk_permission "eve" "doc" LRead); Grant (mk_permission "ann" "doc" LRead);
   Revoke (mk_revocation "bob" "doc")].

Lemma acl_mirrors_source_witness :
  exists s' rep, sync demo_mapping demo_deltas new = Some (s', rep) /\
    grant_of demo_mapping 10 1 Viewer ∈ tuples s' /\ (forall r, grant_of demo_mapping 10 2 r ∉ tuples s') /\
    unknown_users rep = ["eve"] /\ (inserted rep, updated rep, removed rep) = (2, 1, 2)%nat.
Proof.
  destruct (acl_mirrors_source demo_mapping demo_deltas new store_wf_new) as (s' & rep & Hs & _ & _ & Hp & Hu & _ & Hi & Hup & Hr & _).
  exists s', rep. split; [exact Hs|]. split; [exact (proj1 (Hp 10%N 1%N))|]. split; [exact (Hp 10%N 2%N)|]. split; [exact Hu|].
  rewrite Hi, Hup, Hr. vm_compute. reflexivity.
Defined.

(** A grant of a level the user already holds returns early: an owner's grant made
    in the substrate survives it, although a grant of any other level replaces
    both. *)
Definition owned_store : TupleStore :=
  (insert (grant_of demo_mapping 10 1 Owner) (insert (grant_of demo_mapping 10 1 Viewer) new).1).1.
Definition after (l : SourcePermissionLevel) : gset RelationTuple :=
  default ∅ (tuples ∘ fst <$> sync demo_mapping [Grant (mk_permission "ann" "doc" l)] owned_store).
Example read_grant_keeps_owner :
  bool_decide (after LRead = {[grant_of demo_mapping 10 1 Owner; grant_of demo_mapping 10 1 Viewer]})
  && bool_decide (after LWrite = {[grant_of demo_mapping 10 1 Editor]}) = true.
Proof. vm_compute. reflexivity. Qed.
End Demo.
