(* ===== verification/ConnectorSync.v ===== *)
(** * Synchronisation state of a connector ([connector_framework/src/sync.rs])

    The state a connector instance keeps between runs and the watermark cursor
    from which an incremental run resumes: its text form, which round-trips for
    every identifier, and the set of records it stands for. *)

From stdpp Require Import sorting.
From S2P Require Import Prelude.

(** Texts are lists of UTF-8 bytes. *)
Abbreviation text := (list N) (only parsing).

(** ** [SyncState] *)

(** [enum SyncMode] with [as_str], [enum SyncStatus], [struct SyncState]. *)
Inductive SyncMode : Type := Full | Incremental.
#[export] Instance SyncMode_eq_dec : EqDecision SyncMode.
Proof. solve_decision. Defined.
Definition sync_mode_str (m : SyncMode) : string := match m with Full => "full" | Incremental => "incremental" end.
Inductive SyncStatus : Type := NeverRun | InProgress | Succeeded | Failed.
#[export] Instance SyncStatus_eq_dec : EqDecision SyncStatus.
Proof. solve_decision. Defined.
Record SyncState : Type := mk_state {
  connector : uuid;
  mode : SyncMode;
  cursor : option text;
  last_synced_at : option instant;
  status : SyncStatus;
  last_error : option string
}.

(** [SyncState::new], [mark_in_progress], [mark_succeeded], [mark_failed],
    [can_run_incremental]. *)
Definition new_state (c : uuid) : SyncState := mk_state c Full None None NeverRun None.
Definition mark_in_progress (s : SyncState) : SyncState :=
  mk_state (connector s) (mode s) (cursor s) (last_synced_at s) InProgress None.
Definition mark_succeeded (new_cursor : option text) (at_ : instant) (s : SyncState) : SyncState :=
  mk_state (connector s) Incremental new_cursor (Some at_) Succeeded None.
Definition mark_failed (err : string) (s : SyncState) : SyncState :=
  mk_state (connector s) (mode s) (cursor s) (last_synced_at s) Failed (Some err).
Definition can_run_incremental (s : SyncState) : bool :=
  bool_decide (mode s = Incremental) && bool_decide (is_Some (cursor s)).

(** ** Text operations *)

(** [l] starts with [pat]. *)
Fixpoint starts (pat l : text) : bool :=
  match pat, l with
  | [], _ => true
  | p :: pat, b :: l => (p =? b)%N && starts pat l
  | _, [] => false
  end.
(** [str::replace] of a non-empty pattern; [skip] bytes of a match remain. *)
Fixpoint replace_from (pat by_ : text) (skip : nat) (l : text) : text :=
  match l with
  | [] => []
  | b :: rest =>
      match skip with
      | S skip => replace_from pat by_ skip rest
      | O => if starts pat l then by_ ++ replace_from pat by_ (length pat - 1) rest
             else b :: replace_from pat by_ 0 rest
      end
  end.
Definition replace (pat by_ : text) (l : text) : text := replace_from pat by_ 0 l.
(** [str::split] at a character, [slice::join] with it, [str::split_once]. *)
Fixpoint split_at (sep : N) (l : text) : list text :=
  match l with
  | [] => [[]]
  | b :: l =>
      if (b =? sep)%N then [] :: split_at sep l
      else match split_at sep l with w :: ws => (b :: w) :: ws | [] => [[b]] end
  end.
Fixpoint join_with (sep : N) (ws : list text) : text :=
  match ws with
  | [] => []
  | [w] => w
  | w :: ws => w ++ sep :: join_with sep ws
  end.
Fixpoint split_once (sep : N) (l : text) : option (text * text) :=
  match l with
  | [] => None
  | b :: l =>
      if (b =? sep)%N then Some ([], l)
      else match split_once sep l with Some (x, y) => Some (b :: x, y) | None => None end
  end.

Definition percent : N := 37.
Definition comma : N := 44.
Definition bar : N := 124.

(** [encode_id], [decode_id]: the escape character first when encoding, last when
    decoding. *)
Definition encode_id (id : text) : text :=
  replace [bar] [percent; 55; 67]%N (replace [comma] [percent; 50; 67]%N (replace [percent] [percent; 50; 53]%N id)).
Definition decode_id (s : text) : text :=
  replace [percent; 50; 53]%N [percent] (replace [percent; 50; 67]%N [comma] (replace [percent; 55; 67]%N [bar] s)).

(** ** [WatermarkCursor] *)

(** [DateTime::to_rfc3339] and [parse_from_rfc3339]: RFC 3339 has years of four
    digits; what is printed is printable ASCII without a bar. *)
Definition four_digit_year (t : instant) : Prop := (-62167219200000000000 <= t < 253402300800000000000)%Z.
Class Rfc3339 := {
  to_rfc3339 : instant -> text;
  parse_from_rfc3339 : text -> option instant;
  parse_to_rfc3339 : forall t, four_digit_year t -> parse_from_rfc3339 (to_rfc3339 t) = Some t;
  rfc3339_plain : forall t, Forall (fun b => visible b /\ b <> bar) (to_rfc3339 t)
}.

(** Texts in the order of [Ord for String]. *)
Fixpoint bytes_leb (a b : text) : bool :=
  match a, b with
  | [], _ => true
  | _ :: _, [] => false
  | x :: a, y :: b => (x <? y)%N || ((x =? y)%N && bytes_leb a b)
  end.
Definition bytes_le (a b : text) : Prop := bytes_leb a b = true.
#[export] Instance bytes_le_dec : RelDecision bytes_le.
Proof. intros a b. unfold bytes_le. apply _. Defined.

(** [struct WatermarkCursor]. *)
Record WatermarkCursor : Type := mk_cursor {
  watermark : option instant;
  boundary_ids : gset text
}.

(** [empty], [query_since], [should_emit], [observe]. *)
Definition empty_cursor : WatermarkCursor := mk_cursor None ∅.
Definition should_emit (c : WatermarkCursor) (updated : instant) (id : text) : bool :=
  match watermark c with
  | None => true
  | Some w => if (w <? updated)%Z then true
              else if (updated =? w)%Z then negb (bool_decide (id ∈ boundary_ids c)) else false
  end.
Definition observe (updated : instant) (id : text) (c : WatermarkCursor) : WatermarkCursor :=
  match watermark c with
  | None => mk_cursor (Some updated) {[id]}
  | Some w => if (updated <? w)%Z then c
              else if (updated =? w)%Z then mk_cursor (Some w) ({[id]} ∪ boundary_ids c)
              else mk_cursor (Some updated) {[id]}
  end.

Section Text.
Context `{Rfc3339}.
Definition query_since (c : WatermarkCursor) : option text := to_rfc3339 <$> watermark c.

(** [to_cursor_string], [parse]. *)
Definition to_cursor_string (c : WatermarkCursor) : option text :=
  match watermark c with
  | None => None
  | Some w =>
      let base := to_rfc3339 w in
      if bool_decide (boundary_ids c = ∅) then Some base
      else Some (base ++ bar :: join_with comma (encode_id <$> merge_sort bytes_le (elements (boundary_ids c))))
  end.
Definition parse (cursor : option text) : WatermarkCursor :=
  match cursor with
  | None => empty_cursor
  | Some raw =>
      let '(ts_part, ids_part) := match split_once bar raw with
                                  | Some (ts, ids) => (ts, Some ids)
                                  | None => (raw, None)
                                  end in
      let w := parse_from_rfc3339 (trim ts_part) in
      let ids := match w, ids_part with
                 | Some _, Some ids => list_to_set (decode_id <$> split_at comma ids)
                 | _, _ => ∅
                 end in
      mk_cursor w ids
  end.
End Text.

(** ** Facts *)

(** *** The escapes *)

Lemma replace_nil pat by_ : replace pat by_ [] = [].
Proof. done. Qed.

Lemma replace_char c by_ l : replace [c] by_ l = l ≫= (fun b => if (c =? b)%N then by_ else [b]).
Proof.
  unfold replace. induction l as [|b l IH]; [done|]. cbn [replace_from starts length Nat.sub mbind list_bind].
  rewrite andb_true_r, IH. by destruct (c =? b)%N.
Qed.

(** The encoding, byte by byte. *)
Definition encode_byte (b : N) : text :=
  if (b =? percent)%N then [percent; 50; 53]%N
  else if (b =? comma)%N then [percent; 50; 67]%N
  else if (b =? bar)%N then [percent; 55; 67]%N else [b].
Lemma bind_bind {A B C} (f : A -> list B) (g : B -> list C) l : (l ≫= f) ≫= g = l ≫= (fun x => f x ≫= g).
Proof. induction l as [|x l IH]; [done|]. cbn [mbind list_bind]. by rewrite bind_app, IH. Qed.

Lemma encode_id_bytes id : encode_id id = id ≫= encode_byte.
Proof.
  unfold encode_id. rewrite !replace_char, !bind_bind. apply list_bind_ext; [|done]. intros b.
  unfold encode_byte, percent, comma, bar. rewrite (N.eqb_sym b 37).
  destruct (N.eqb_spec 37 b) as [<-|H1]; [done|]. cbn [mbind list_bind app].
  rewrite (N.eqb_sym b 44). destruct (N.eqb_spec 44 b) as [<-|H2]; [done|]. cbn [mbind list_bind app].
  rewrite (N.eqb_sym b 124). by destruct (N.eqb_spec 124 b).
Qed.

(** *** Replacing escapes *)

(** A pattern that starts with the escape character matches token by token: here
    a token is an escape of three bytes or a byte other than [%]. *)
Definition token (w : text) : Prop :=
  (exists b, b <> percent /\ w = [b]) \/ (exists x y, x <> percent /\ y <> percent /\ w = [percent; x; y]).

Lemma replace_token x y by_ ws :
  Forall token ws ->
  replace [percent; x; y] by_ (concat ws)
  = concat ((fun w => if bool_decide (w = [percent; x; y]) then by_ else w) <$> ws).
Proof.
  unfold replace. induction 1 as [|w ws Hw _ IH]; [done|]. cbn [concat fmap list_fmap].
  destruct Hw as [(b & Hb & ->)|(a & b & Ha & Hb & ->)].
  - rewrite bool_decide_eq_false_2 by congruence. cbn [app replace_from starts].
    rewrite (proj2 (N.eqb_neq percent b)) by done. cbn [andb]. by rewrite IH.
  - cbn [app replace_from starts length Nat.sub]. rewrite N.eqb_refl. cbn [andb].
    rewrite andb_true_r. destruct (N.eqb_spec x a) as [->|Hx]; [destruct (N.eqb_spec y b) as [->|Hy]|]; cbn [andb].
    + rewrite bool_decide_eq_true_2 by done. by rewrite IH.
    + rewrite bool_decide_eq_false_2 by congruence. cbn [starts].
      rewrite !(proj2 (N.eqb_neq percent _)) by done. cbn [andb app]. by rewrite IH.
    + rewrite bool_decide_eq_false_2 by congruence. cbn [starts].
      rewrite !(proj2 (N.eqb_neq percent _)) by done. cbn [andb app]. by rewrite IH.
Qed.

(** Three replacements in a row, token by token. *)
Definition subst_token (x y : N) (by_ w : text) : text := if bool_decide (w = [percent; x; y]) then by_ else w.
Lemma token_subst x y b w : b <> percent -> token w -> token (subst_token x y [b] w).
Proof. intros Hb Hw. unfold subst_token. case_bool_decide; [left; eauto|done]. Qed.

Lemma encode_byte_cases b :
  b = percent \/ b = comma \/ b = bar \/ (b <> percent /\ encode_byte b = [b]).
Proof. unfold encode_byte. destruct (N.eqb_spec b percent), (N.eqb_spec b comma), (N.eqb_spec b bar); auto. Qed.

Lemma token_encode b : token (encode_byte b).
Proof.
  destruct (encode_byte_cases b) as [->|[->|[->|[Hb ->]]]]; [right..|left; eauto];
    eexists _, _; (split; [|split; [|reflexivity]]); discriminate.
Qed.

Lemma subst_encode b :
  subst_token 50 53 [percent] (subst_token 50 67 [comma] (subst_token 55 67 [bar] (encode_byte b))) = [b].
Proof.
  destruct (encode_byte_cases b) as [->|[->|[->|[Hb ->]]]]; [reflexivity..|].
  unfold subst_token. repeat case_bool_decide; congruence.
Qed.

Lemma decode_encode id : decode_id (encode_id id) = id.
Proof.
  rewrite encode_id_bytes. replace (id ≫= encode_byte) with (concat (encode_byte <$> id)) by
    (induction id as [|b id IH]; [done|]; cbn; by rewrite IH).
  assert (Htok : Forall token (encode_byte <$> id)) by (apply Forall_fmap, Forall_true, token_encode).
  assert (Hsub : forall x y b ws, b <> percent -> Forall token ws -> Forall token (subst_token x y [b] <$> ws)).
  { intros x y b ws Hb Hws. apply Forall_fmap. eapply Forall_impl; [exact Hws|]. intros w. by apply token_subst. }
  unfold decode_id. rewrite replace_token by done. rewrite replace_token by (by apply Hsub).
  rewrite replace_token by (apply Hsub; [done|by apply Hsub]). rewrite <- !list_fmap_compose.
  clear. induction id as [|b id IH]; [done|]. cbn [fmap list_fmap concat]. rewrite IH.
  change (subst_token 50 53 [percent] (subst_token 50 67 [comma] (subst_token 55 67 [bar] (encode_byte b))) ++ id = b :: id).
  by rewrite subst_encode.
Qed.

(** *** The text form *)

Lemma encode_id_plain id b : b ∈ encode_id id -> b <> comma /\ b <> bar.
Proof.
  rewrite encode_id_bytes, list_elem_of_bind. intros (x & Hb & _).
  destruct (encode_byte_cases x) as [->|[->|[->|[Hx He]]]].
  1-3: (cbn in Hb; rewrite !elem_of_cons, elem_of_nil in Hb;
       destruct Hb as [->|[->|[->|[]]]]; split; discriminate).
  revert He Hb. unfold encode_byte. destruct (N.eqb_spec x percent), (N.eqb_spec x comma), (N.eqb_spec x bar);
    try done. intros _ ->%list_elem_of_singleton. done.
Qed.

Lemma split_at_join sep ws :
  ws <> [] -> (forall w, w ∈ ws -> sep ∉ w) -> split_at sep (join_with sep ws) = ws.
Proof.
  intros Hne Hno.
  assert (Hone : forall w rest, sep ∉ w -> split_at sep (w ++ sep :: rest) = w :: split_at sep rest).
  { induction w as [|b w IH]; intros rest Hw; cbn [app split_at].
    - by rewrite N.eqb_refl.
    - apply not_elem_of_cons in Hw as [Hb Hw]. rewrite (proj2 (N.eqb_neq b sep)) by congruence. by rewrite IH. }
  assert (Hlast : forall w, sep ∉ w -> split_at sep w = [w]).
  { induction w as [|b w IH]; intros Hw; [done|]. apply not_elem_of_cons in Hw as [Hb Hw]. cbn [split_at].
    rewrite (proj2 (N.eqb_neq b sep)) by congruence. by rewrite IH. }
  induction ws as [|w ws IH]; [done|]. destruct ws as [|w' ws]; [apply Hlast, Hno; left|].
  cbn [join_with]. rewrite Hone by (apply Hno; left). f_equal. apply IH; [done|]. intros x Hx. apply Hno. by right.
Qed.

Lemma split_once_app sep a b : sep ∉ a -> split_once sep (a ++ sep :: b) = Some (a, b).
Proof.
  induction a as [|x a IH]; intros Ha; cbn [app split_once]; [by rewrite N.eqb_refl|].
  apply not_elem_of_cons in Ha as [Hx Ha]. by rewrite (proj2 (N.eqb_neq x sep)), IH by congruence.
Qed.

Lemma split_once_none sep a : sep ∉ a -> split_once sep a = None.
Proof.
  induction a as [|x a IH]; intros Ha; cbn [split_once]; [done|].
  apply not_elem_of_cons in Ha as [Hx Ha]. by rewrite (proj2 (N.eqb_neq x sep)), IH by congruence.
Qed.

Section RoundTrip.
Context `{Rfc3339}.

Lemma rfc3339_no_bar t : bar ∉ to_rfc3339 t.
Proof. intros Hb. pose proof (rfc3339_plain t) as Hp. rewrite Forall_forall in Hp. by apply Hp in Hb as []. Qed.
Lemma trim_rfc3339 t : trim (to_rfc3339 t) = to_rfc3339 t.
Proof. apply trim_visible. eapply Forall_impl; [apply rfc3339_plain|]. by intros b []. Qed.

(** A bare time stamp, as older versions wrote it. *)
Lemma parse_bare w : four_digit_year w -> parse (Some (to_rfc3339 w)) = mk_cursor (Some w) ∅.
Proof.
  intros Hw. unfold parse. rewrite split_once_none by apply rfc3339_no_bar. by rewrite trim_rfc3339, parse_to_rfc3339.
Qed.

Lemma parse_to_cursor_string c :
  (forall w, watermark c = Some w -> four_digit_year w) -> (watermark c = None -> boundary_ids c = ∅) ->
  parse (to_cursor_string c) = c.
Proof.
  destruct c as [[w|] ids]; cbn [watermark boundary_ids]; intros Hw Hn; unfold to_cursor_string; cbn [watermark boundary_ids].
  2: { by rewrite (Hn eq_refl). }
  specialize (Hw w eq_refl). case_bool_decide as Hids; [rewrite Hids; by apply parse_bare|].
  set (l := merge_sort bytes_le (elements ids)).
  assert (Hl : forall i, i ∈ l <-> i ∈ ids) by (intros i; unfold l; by rewrite merge_sort_Permutation, elem_of_elements).
  unfold parse. rewrite split_once_app by apply rfc3339_no_bar. rewrite trim_rfc3339, parse_to_rfc3339 by done.
  rewrite split_at_join.
  - rewrite <- list_fmap_compose. f_equal. apply set_eq. intros i. rewrite elem_of_list_to_set, list_elem_of_fmap. unfold compose.
    setoid_rewrite decode_encode. rewrite <- Hl. split; [by intros (? & -> & ?)|eauto].
  - intros Hnil%fmap_nil_inv. apply Hids, set_eq. intros i. rewrite <- Hl, Hnil. split; [by intros ?%elem_of_nil|done].
  - intros x (i & -> & _)%list_elem_of_fmap Hc. by apply encode_id_plain in Hc as [].
Qed.
End RoundTrip.

(** *** What a cursor stands for *)

(** The cursor after observing records in some order. *)
Definition cursor_of (l : list (instant * text)) : WatermarkCursor :=
  foldl (fun c r => observe r.1 r.2 c) empty_cursor l.

Definition stands_for (c : WatermarkCursor) (l : list (instant * text)) : Prop :=
  match watermark c with
  | None => l = [] /\ boundary_ids c = ∅
  | Some w => (exists i, (w, i) ∈ l) /\ (forall t i, (t, i) ∈ l -> (t <= w)%Z) /\
              forall i, i ∈ boundary_ids c <-> (w, i) ∈ l
  end.

Lemma cursor_of_snoc l t i : cursor_of (l ++ [(t, i)]) = observe t i (cursor_of l).
Proof. unfold cursor_of. by rewrite foldl_app. Qed.

Lemma cursor_of_spec l : stands_for (cursor_of l) l.
Proof.
  induction l as [|[t i] l IH] using rev_ind; [done|]. rewrite cursor_of_snoc. revert IH.
  unfold stands_for, observe. destruct (watermark (cursor_of l)) as [w|] eqn:Ew.
  - intros ([j Hj] & Hle & Hb). destruct (Z.ltb_spec t w); [|destruct (Z.eqb_spec t w) as [->|]]; cbn; rewrite ?Ew.
    + split; [exists j; apply elem_of_app; by left|]. setoid_rewrite elem_of_app. setoid_rewrite list_elem_of_singleton. split.
      * intros t' i' [Hin|[= -> ->]]; [by eapply Hle|lia].
      * intros i'. rewrite Hb. split; [auto|]. intros [?|[= -> _]]; [done|lia].
    + split; [exists j; apply elem_of_app; by left|]. setoid_rewrite elem_of_app. setoid_rewrite list_elem_of_singleton. split.
      * intros t' i' [Hin|[= -> ->]]; [by eapply Hle|lia].
      * intros i'. rewrite elem_of_union, elem_of_singleton, Hb. split; [intros [->|?]; auto|intros [?|[= ->]]; auto].
    + split; [exists i; apply elem_of_app; right; by left|]. setoid_rewrite elem_of_app. setoid_rewrite list_elem_of_singleton. split.
      * intros t' i' [Hin|[= -> ->]]; [|lia]. apply Hle in Hin. lia.
      * intros i'. rewrite elem_of_singleton. split; [intros ->; auto|intros [Hin|[= ->]]; [apply Hle in Hin; lia|done]].
  - intros [-> _]. cbn. split; [exists i; by left|]. setoid_rewrite list_elem_of_singleton. split.
    + intros t' i' [= -> ->]. lia.
    + intros i'. rewrite elem_of_singleton. split; [by intros ->|by intros [= ->]].
Qed.

Lemma should_emit_spec c l t i :
  stands_for c l ->
  should_emit c t i = true <-> forall t' i', (t', i') ∈ l -> (t' < t)%Z \/ (t' = t /\ i' <> i).
Proof.
  unfold stands_for, should_emit. destruct (watermark c) as [w|].
  - intros ([j Hj] & Hle & Hb). destruct (Z.ltb_spec w t); [|destruct (Z.eqb_spec t w) as [->|]].
    + split; [|done]. intros _ t' i' Hin%Hle. lia.
    + rewrite negb_true_iff, bool_decide_eq_false, Hb. split.
      * intros Hn t' i' Hin. pose proof (Hle t' i' Hin). destruct (decide (t' = w)) as [->|]; [|lia].
        right. split; [done|]. by intros ->.
      * intros Hall Hin. destruct (Hall w i Hin); [lia|tauto].
    + split; [done|]. intros Hall. destruct (Hall w j Hj); lia.
  - intros [-> _]. split; [|done]. by intros _ t' i' ?%elem_of_nil.
Qed.

Lemma stands_for_unique c c' l l' :
  (forall r, r ∈ l <-> r ∈ l') -> stands_for c l -> stands_for c' l' -> c = c'.
Proof.
  intros Hl. destruct c as [[w|] ids], c' as [[w'|] ids']; unfold stands_for; cbn.
  - intros ([j Hj] & Hle & Hb) ([j' Hj'] & Hle' & Hb').
    assert (w = w') as <- by (apply Hl, Hle' in Hj; apply Hl, Hle in Hj'; lia). f_equal.
    apply set_eq. intros i. by rewrite Hb, Hb', Hl.
  - intros ([j Hj] & _) [-> _]. by apply Hl, elem_of_nil in Hj.
  - intros [-> _] ([j Hj] & _). by apply Hl, elem_of_nil in Hj.
  - by intros [_ ->] [_ ->].
Qed.

(** The cursor is exactly the records observed.  Whatever records a run
    observes, in whatever order, the cursor it persists, read back, is the cursor
    itself, identifiers with commas, bars and percent signs included; it depends
    on the set of the records only; and it lets a record through exactly when every
    record observed is older, or of the same instant under another identifier: no
    observed record is emitted again, and a new record that shares the last instant
    is not lost. *)
Theorem watermark_exact `{Rfc3339} l :
  Forall (fun r => four_digit_year r.1) l ->
  parse (to_cursor_string (cursor_of l)) = cursor_of l /\
  (forall l', (forall r, r ∈ l <-> r ∈ l') -> cursor_of l' = cursor_of l) /\
  (forall t i, should_emit (parse (to_cursor_string (cursor_of l))) t i = true <->
     forall t' i', (t', i') ∈ l -> (t' < t)%Z \/ (t' = t /\ i' <> i)) /\
  (forall w, four_digit_year w -> parse (Some (to_rfc3339 w)) = mk_cursor (Some w) ∅).
Proof.
  intros Hl. pose proof (cursor_of_spec l) as Hc.
  assert (Hrt : parse (to_cursor_string (cursor_of l)) = cursor_of l).
  { unfold stands_for in Hc. apply parse_to_cursor_string.
    - intros w Hw. rewrite Hw in Hc. destruct Hc as ([i Hi] & _). rewrite Forall_forall in Hl. by apply (Hl (w, i)).
    - intros Hw. rewrite Hw in Hc. by destruct Hc. }
  split_and!; [done| | |apply parse_bare].
  - intros l' Hll. apply (stands_for_unique _ _ l' l); [by intros r; rewrite Hll|apply cursor_of_spec|done].
  - intros t i. rewrite Hrt. by apply should_emit_spec.
Qed.

(** ** A concrete notation for instants *)

(** Any injective notation will do to run the definitions: sign and binary
    digits, the least significant first. *)
Module Notation.
Fixpoint bits (p : positive) : text :=
  match p with xH => [46] | xO p => 48 :: bits p | xI p => 49 :: bits p end%N.
Fixpoint of_bits (l : text) : option positive :=
  match l with
  | 46 :: _ => Some xH
  | 48 :: l => xO <$> of_bits l
  | 49 :: l => xI <$> of_bits l
  | _ => None
  end%N.
Definition print (t : instant) : text :=
  match t with Z0 => [48] | Zpos p => 43 :: bits p | Zneg p => 45 :: bits p end%N.
Definition read (l : text) : option instant :=
  match l with
  | 48 :: _ => Some Z0
  | 43 :: l => Zpos <$> of_bits l
  | 45 :: l => Zneg <$> of_bits l
  | _ => None
  end%N.
Lemma of_bits_bits p : of_bits (bits p) = Some p.
Proof. induction p as [p IH|p IH|]; cbn; by rewrite ?IH. Qed.
Lemma bits_plain p : Forall (fun b => visible b /\ b <> bar) (bits p).
Proof. unfold visible, bar. induction p as [p IH|p IH|]; cbn; constructor; try done; lia. Qed.
Lemma read_print t : four_digit_year t -> read (print t) = Some t.
Proof. intros _. destruct t; cbn; by rewrite ?of_bits_bits. Qed.
Lemma print_plain t : Forall (fun b => visible b /\ b <> bar) (print t).
Proof. unfold visible, bar. destruct t; cbn; constructor; (lia || apply bits_plain || constructor). Qed.
#[export] Instance binary_rfc3339 : Rfc3339 := Build_Rfc3339 print read read_print print_plain.
End Notation.

(** An identifier made of the separators, and another of the same second. *)
Lemma watermark_exact_witness :
  let seen := [(5%Z, string_bytes "a|b,%7C"); (3%Z, string_bytes "c")] in
  let c := parse (H := Notation.binary_rfc3339) (to_cursor_string (H := Notation.binary_rfc3339) (cursor_of seen)) in
  c = cursor_of seen /\ should_emit c 5 (string_bytes "a|b,%7C") = false /\ should_emit c 5 (string_bytes "d") = true.
Proof.
  intros seen c.
  assert (Hseen : Forall (fun r => four_digit_year r.1) seen) by (repeat constructor; discriminate).
  destruct (watermark_exact (H := Notation.binary_rfc3339) seen Hseen) as (Hrt & _ & He & _).
  split; [exact Hrt|]. split.
  - apply not_true_iff_false. intros Hemit. apply He with (t' := 5%Z) (i' := string_bytes "a|b,%7C") in Hemit; [|by left].
    destruct Hemit as [Hlt|[_ Hne]]; [discriminate Hlt|by apply Hne].
  - unfold c. rewrite Hrt. vm_compute. reflexivity.
Defined.
