(* ===== verification/Http.v ===== *)
(** * The connectors' HTTP layer ([connector_framework/src/http.rs],
    [http_helpers.rs], [error.rs])

    Requests and responses, the retry policy and the transport's retry loop, the
    classification of failures and the percent encoding of URL components.  What
    the network answers to each attempt is an oracle; waiting is recorded in the
    list of sleeps. *)

From S2P Require Import Prelude.

Abbreviation text := (list N) (only parsing).

(** ** Errors ([error.rs]) *)

(** [enum ConnectorError]; the wrapped permission and JSON errors by their
    texts. *)
Inductive ConnectorError : Type :=
| Auth (msg : text)
| TokenRefresh (msg : text)
| TokenNotFound
| Sync (msg : text)
| Webhook (msg : text)
| DuplicateConnector
| ConnectorNotFound
| DuplicateAttachment
| AttachmentNotFound
| PermissionDenied
| UnsupportedObjectType
| Permission (err : text)
| Json (err : text)
| Transport (msg : text)
| Unimplemented (what : text).

(** ** Requests and responses ([http.rs]) *)

(** [enum HttpMethod], [struct HttpRequest] with [get], [post], [with_header],
    [with_bearer]. *)
Inductive HttpMethod : Type := Get | Post | Put | Patch | Delete.
Definition method_str (m : HttpMethod) : string :=
  match m with Get => "GET" | Post => "POST" | Put => "PUT" | Patch => "PATCH" | Delete => "DELETE" end.
Record HttpRequest : Type := mk_request {
  method : HttpMethod;
  url : text;
  headers : list (text * text);
  body : text
}.
Definition request_get (u : text) : HttpRequest := mk_request Get u [] [].
Definition request_post (u b : text) : HttpRequest := mk_request Post u [] b.
Definition with_header (name value : text) (r : HttpRequest) : HttpRequest :=
  mk_request (method r) (url r) (headers r ++ [(name, value)]) (body r).
Definition with_bearer (token : text) (r : HttpRequest) : HttpRequest :=
  with_header (string_bytes "Authorization") (string_bytes "Bearer " ++ token) r.

(** [to_ascii_lowercase]. *)
Definition ascii_lowercase (l : text) : text :=
  (fun b => if ((65 <=? b) && (b <=? 90))%N then (b + 32)%N else b) <$> l.

(** [struct HttpResponse] with [is_success], [is_transient], [header]. *)
Record HttpResponse : Type := mk_response {
  status : N;
  resp_headers : list (text * text);
  resp_body : text
}.
Definition is_success (r : HttpResponse) : bool := ((200 <=? status r) && (status r <? 300))%N.
Definition is_transient (r : HttpResponse) : bool :=
  bool_decide (status r ∈ [408; 429; 500; 502; 503; 504]%N).
Definition header (r : HttpResponse) (name : text) : option text :=
  let needle := ascii_lowercase name in
  snd <$> List.find (fun kv => bool_decide (kv.1 = needle)) (resp_headers r).

(** [str::parse::<u64>]: an optional plus sign, then decimal digits that fit. *)
Fixpoint parse_digits (acc : N) (l : text) : option N :=
  match l with
  | [] => Some acc
  | b :: l =>
      if ((48 <=? b) && (b <=? 57))%N then
        let acc := (acc * 10 + (b - 48))%N in
        if (acc <=? u64_max)%N then parse_digits acc l else None
      else None
  end.
Definition parse_u64 (l : text) : option N :=
  match l with
  | [] => None
  | 43%N :: [] => None
  | 43%N :: l => parse_digits 0 l
  | _ => parse_digits 0 l
  end.

(** [chrono]'s [NaiveDateTime::parse_from_str]. *)
Class NaiveParser := { parse_from_str : text -> string -> option instant }.

(** [parse_http_date]: the three formats in turn. *)
Definition parse_http_date `{NaiveParser} (s : text) : option instant :=
  match parse_from_str s "%a, %d %b %Y %H:%M:%S GMT" with
  | Some t => Some t
  | None =>
      match parse_from_str s "%A, %d-%b-%y %H:%M:%S GMT" with
      | Some t => Some t
      | None => parse_from_str s "%a %b %e %H:%M:%S %Y"
      end
  end.

(** [retry_after_seconds_at]; [num_seconds] rounds towards zero. *)
Definition num_seconds (d : duration) : Z := Z.quot d 1000000000.
Definition retry_after_seconds_at `{NaiveParser} (r : HttpResponse) (now : instant) : option N :=
  match header r (string_bytes "retry-after") with
  | None => None
  | Some raw =>
      let raw := trim raw in
      match parse_u64 raw with
      | Some secs => Some secs
      | None =>
          match parse_http_date raw with
          | None => None
          | Some when_ => Some (Z.to_N (Z.max (num_seconds (when_ - now)) 0))
          end
      end
  end.

(** ** The retry policy *)

(** [std::time::Duration] in nanoseconds, with its greatest value. *)
Definition duration_max : N := (18446744073709551616 * 1000000000 - 1)%N.
Definition from_secs (s : N) : N := (s * 1000000000)%N.
Definition from_millis (s : N) : N := (s * 1000000)%N.
Definition duration_saturating_mul (d k : N) : N := N.min (d * k) duration_max.
Definition u32_saturating_pow2 (e : N) : N := N.min (2 ^ e) u32_max.

Definition DEFAULT_MAX_RETRY_AFTER : N := from_secs 300.
(** [struct RetryPolicy] with [default], [no_retry], [with_max_retry_after],
    [backoff]. *)
Record RetryPolicy : Type := mk_policy {
  max_retries : N;
  initial_backoff : N;
  max_backoff : N;
  max_retry_after : N
}.
Definition default_policy : RetryPolicy := mk_policy 3 (from_millis 250) (from_secs 5) DEFAULT_MAX_RETRY_AFTER.
Definition no_retry : RetryPolicy := mk_policy 0 0 0 0.
Definition with_max_retry_after (cap : N) (p : RetryPolicy) : RetryPolicy :=
  mk_policy (max_retries p) (initial_backoff p) (max_backoff p) cap.
Definition backoff (p : RetryPolicy) (attempt : N) (retry_after : option N) : N :=
  let exp := duration_saturating_mul (initial_backoff p) (u32_saturating_pow2 (attempt - 1)) in
  let exp := N.min exp (max_backoff p) in
  match retry_after with
  | Some server => N.max (N.min server (max_retry_after p)) exp
  | None => exp
  end.

(** ** The transport ([BlockingHttpTransport::execute]) *)

(** [execute_once] is [send]: the answer to the n-th attempt and the time at which
    it arrives.  The list is what the loop sleeps.  [None] is the [unreachable!]
    after the loop. *)
Section Transport.
Context `{NaiveParser}.
Context (send : nat -> HttpRequest -> result HttpResponse ConnectorError) (clock : nat -> instant).

Fixpoint execute_from (p : RetryPolicy) (request : HttpRequest) (attempt tries : nat) (slept : list N) :
    list N * option (result HttpResponse ConnectorError) :=
  match tries with
  | O => (slept, None)
  | S tries =>
      let retry := (N.of_nat attempt <? max_retries p)%N in
      match send attempt request with
      | Ok resp =>
          if is_transient resp && retry then
            let hint := from_secs <$> retry_after_seconds_at resp (clock attempt) in
            execute_from p request (S attempt) tries (slept ++ [backoff p (N.of_nat attempt + 1) hint])
          else (slept, Some (Ok resp))
      | Err e =>
          if retry then execute_from p request (S attempt) tries (slept ++ [backoff p (N.of_nat attempt + 1) None])
          else (slept, Some (Err e))
      end
  end.
Definition execute (p : RetryPolicy) (request : HttpRequest) : list N * option (result HttpResponse ConnectorError) :=
  execute_from p request 0 (S (N.to_nat (max_retries p))) [].
End Transport.

(** ** Failures ([http_helpers.rs]) *)

(** [String::from_utf8_lossy]: the length of the character at the head, or of the
    invalid sequence that stands for one replacement character. *)
Definition cont (b : N) : bool := ((128 <=? b) && (b <=? 191))%N.
Definition char_len (l : text) : bool * nat :=
  let second lo hi k := match l with
                        | _ :: b :: rest => if ((lo <=? b) && (b <=? hi))%N then k rest else (false, 1%nat)
                        | _ => (false, 1%nat)
                        end in
  let third rest k := match rest with b :: rest => if cont b then k rest else (false, 2%nat) | [] => (false, 2%nat) end in
  let fourth rest := match rest with b :: _ => if cont b then (true, 4%nat) else (false, 3%nat) | [] => (false, 3%nat) end in
  match l with
  | [] => (true, 0%nat)
  | a :: _ =>
      if (a <? 128)%N then (true, 1%nat)
      else if ((194 <=? a) && (a <=? 223))%N then second 128%N 191%N (fun _ => (true, 2%nat))
      else if (a =? 224)%N then second 160%N 191%N (fun r => third r (fun _ => (true, 3%nat)))
      else if (a =? 237)%N then second 128%N 159%N (fun r => third r (fun _ => (true, 3%nat)))
      else if ((225 <=? a) && (a <=? 239))%N then second 128%N 191%N (fun r => third r (fun _ => (true, 3%nat)))
      else if (a =? 240)%N then second 144%N 191%N (fun r => third r fourth)
      else if ((241 <=? a) && (a <=? 243))%N then second 128%N 191%N (fun r => third r fourth)
      else if (a =? 244)%N then second 128%N 143%N (fun r => third r fourth)
      else (false, 1%nat)
  end.
(** The text decoded so far is copied, [skip] bytes of a valid character or of an
    invalid sequence remain. *)
Fixpoint lossy_from (copy : bool) (skip : nat) (l : text) : text :=
  match l with
  | [] => []
  | b :: rest =>
      match skip with
      | S skip => (if copy then [b] else []) ++ lossy_from copy skip rest
      | O =>
          let '(valid, n) := char_len l in
          (if valid then [b] else [239; 191; 189]%N) ++ lossy_from valid (n - 1) rest
      end
  end.
Definition from_utf8_lossy (l : text) : text := lossy_from true 0 l.

(** [str::is_char_boundary], and the walk back to one. *)
Definition is_char_boundary (l : text) (n : nat) : bool :=
  (n =? 0)%nat || match l !! n with Some b => negb (cont b) | None => (n =? length l)%nat end.
Fixpoint boundary_before (l : text) (n : nat) : nat :=
  if is_char_boundary l n then n else match n with O => O | S n => boundary_before l n end.

(** Decimal digits, as [format!] prints an integer. *)
Fixpoint digits_from (fuel : nat) (n : N) (acc : text) : text :=
  match fuel with
  | O => acc
  | S fuel => let acc := (48 + n mod 10)%N :: acc in
              if (n / 10 =? 0)%N then acc else digits_from fuel (n / 10) acc
  end.
Definition print_N (n : N) : text := digits_from (S (N.to_nat (N.log2 n))) n [].

(** [classify_failure]. *)
Definition classify_failure (provider endpoint : text) (resp : HttpResponse) : ConnectorError :=
  let trimmed := trim (from_utf8_lossy (resp_body resp)) in
  let detail := match trimmed with
                | [] => string_bytes "<empty body>"
                | _ => if (512 <? length trimmed)%nat
                       then take (boundary_before trimmed 512) trimmed ++ [226; 128; 166]%N
                       else trimmed
                end in
  let msg := provider ++ [32%N] ++ endpoint ++ string_bytes " returned status " ++ print_N (status resp)
             ++ string_bytes ": " ++ detail in
  if bool_decide (status resp ∈ [401; 403]%N) then Auth msg else Sync msg.

(** [bearer_get_json]; [transport] is [HttpTransport::execute], [from_slice] the
    JSON decoder with the text of its error. *)
Definition bearer_get_json {R} (transport : HttpRequest -> result HttpResponse ConnectorError)
    (from_slice : text -> result R text) (provider endpoint u token : text) (extra_headers : list (text * text)) :
    result R ConnectorError :=
  let req := with_header (string_bytes "Accept") (string_bytes "application/json") (with_bearer token (request_get u)) in
  let req := foldl (fun req kv => with_header kv.1 kv.2 req) req extra_headers in
  let? resp := transport req in
  if negb (is_success resp) then Err (classify_failure provider endpoint resp)
  else
    match from_slice (resp_body resp) with
    | Ok r => Ok r
    | Err e => Err (Sync (provider ++ [32%N] ++ endpoint ++ string_bytes " JSON parse failed: " ++ e
                          ++ string_bytes " (body prefix: "
                          ++ from_utf8_lossy (take (Nat.min (length (resp_body resp)) 256) (resp_body resp)) ++ [41%N]))
    end.

(** ** Percent encoding *)

(** [hex_nibble]; [None] is its [unreachable!]. *)
Definition hex_nibble (n : N) : option N :=
  if (n <=? 9)%N then Some (48 + n)%N else if (n <=? 15)%N then Some (65 + (n - 10))%N else None.
Definition unreserved (b : N) : bool :=
  (((65 <=? b) && (b <=? 90)) || ((97 <=? b) && (b <=? 122)) || ((48 <=? b) && (b <=? 57))
   || (b =? 45) || (b =? 95) || (b =? 46) || (b =? 126))%N.
Fixpoint encode_with_space (space_as_plus : bool) (s : text) : option text :=
  match s with
  | [] => Some []
  | b :: s =>
      match encode_with_space space_as_plus s with
      | None => None
      | Some out =>
          if unreserved b then Some (b :: out)
          else if (b =? 32)%N && space_as_plus then Some (43%N :: out)
          else
            match hex_nibble (N.shiftr b 4), hex_nibble (N.land b 15) with
            | Some h, Some l => Some (37%N :: h :: l :: out)
            | _, _ => None
            end
      end
  end.
Definition percent_encode_path_component (s : text) : option text := encode_with_space false s.
Definition percent_encode_form_component (s : text) : option text := encode_with_space true s.

(** ** Facts *)

(** *** The retry loop *)

Section Retry.
Context `{NaiveParser}.
Context (send : nat -> HttpRequest -> result HttpResponse ConnectorError) (clock : nat -> instant).
Context (p : RetryPolicy) (request : HttpRequest).

(** An attempt after which the loop tries again if it may. *)
Definition failed_attempt (n : nat) : Prop :=
  match send n request with Ok resp => is_transient resp = true | Err _ => True end.
(** What the server asked for with an answer. *)
Definition hint (n : nat) : option N :=
  match send n request with
  | Ok resp => from_secs <$> retry_after_seconds_at resp (clock n)
  | Err _ => None
  end.

Lemma execute_from_spec tries attempt slept :
  (attempt + tries = S (N.to_nat (max_retries p)))%nat -> (0 < tries)%nat ->
  exists k, (attempt + k <= N.to_nat (max_retries p))%nat /\
    execute_from send clock p request attempt tries slept
    = (slept ++ ((fun n => backoff p (N.of_nat n + 1) (hint n)) <$> seq attempt k), Some (send (attempt + k)%nat request)) /\
    (forall n, (attempt <= n < attempt + k)%nat -> failed_attempt n) /\
    ((attempt + k < N.to_nat (max_retries p))%nat -> ~ failed_attempt (attempt + k)).
Proof.
  revert attempt slept. induction tries as [|tries IH]; intros attempt slept Hsum Hpos; [lia|].
  assert (Hstop : ~ failed_attempt attempt \/ attempt = N.to_nat (max_retries p) ->
    exists k, (attempt + k <= N.to_nat (max_retries p))%nat /\
      (slept, Some (send attempt request))
      = (slept ++ ((fun n => backoff p (N.of_nat n + 1) (hint n)) <$> seq attempt k), Some (send (attempt + k)%nat request)) /\
      (forall n, (attempt <= n < attempt + k)%nat -> failed_attempt n) /\
      ((attempt + k < N.to_nat (max_retries p))%nat -> ~ failed_attempt (attempt + k))).
  { intros Hs. exists 0%nat. rewrite Nat.add_0_r. cbn. rewrite (right_id_L [] (++)). split_and!; [lia|done|lia|].
    intros Hlt. destruct Hs; [done|lia]. }
  assert (Hgo : failed_attempt attempt -> (attempt < N.to_nat (max_retries p))%nat ->
    exists k, (attempt + k <= N.to_nat (max_retries p))%nat /\
      execute_from send clock p request (S attempt) tries (slept ++ [backoff p (N.of_nat attempt + 1) (hint attempt)])
      = (slept ++ ((fun n => backoff p (N.of_nat n + 1) (hint n)) <$> seq attempt k), Some (send (attempt + k)%nat request)) /\
      (forall n, (attempt <= n < attempt + k)%nat -> failed_attempt n) /\
      ((attempt + k < N.to_nat (max_retries p))%nat -> ~ failed_attempt (attempt + k))).
  { intros Hfail Hlt. destruct (IH (S attempt) (slept ++ [backoff p (N.of_nat attempt + 1) (hint attempt)]))
      as (k & Hk & -> & Hall & Hend); [lia|lia|].
    exists (S k). rewrite Nat.add_succ_r. cbn [seq fmap list_fmap]. rewrite <- (assoc_L (++)). split_and!; [lia|done| |done].
    intros n Hn. destruct (decide (n = attempt)) as [->|]; [done|apply Hall; lia]. }
  cbn [execute_from]. unfold failed_attempt, hint in Hstop, Hgo.
  destruct (send attempt request) as [resp|e]; [destruct (is_transient resp)|]; cbn [andb];
    try destruct (N.ltb_spec (N.of_nat attempt) (max_retries p)); try (apply Hgo; [done|lia]);
    apply Hstop; auto; right; lia.
Qed.

Lemma backoff_le attempt h : (backoff p attempt h <= N.max (max_backoff p) (max_retry_after p))%N.
Proof. unfold backoff. destruct h; lia. Qed.
End Retry.

(** *** Digits *)

(** Reading an escaped text back. *)
Definition hex_value (b : N) : N := if (b <=? 57)%N then (b - 48)%N else (b - 55)%N.
Fixpoint percent_decode (plus_as_space : bool) (skip : nat) (l : text) : text :=
  match l with
  | [] => []
  | b :: rest =>
      match skip with
      | S skip => percent_decode plus_as_space skip rest
      | O =>
          match rest with
          | h :: x :: _ =>
              if (b =? 37)%N then (hex_value h * 16 + hex_value x)%N :: percent_decode plus_as_space 2 rest
              else (if (b =? 43)%N && plus_as_space then 32%N else b) :: percent_decode plus_as_space 0 rest
          | _ => (if (b =? 43)%N && plus_as_space then 32%N else b) :: percent_decode plus_as_space 0 rest
          end
      end
  end.

Lemma hex_nibble_spec n :
  (n < 16)%N -> exists h, hex_nibble n = Some h /\ hex_value h = n /\ unreserved h = true.
Proof.
  intros Hn. assert (Hall : Forall (fun n => exists h, hex_nibble n = Some h /\ hex_value h = n /\ unreserved h = true)
    (N.of_nat <$> seq 0 16)) by (cbn; repeat constructor; eexists; repeat split; reflexivity).
  rewrite Forall_forall in Hall. apply Hall, list_elem_of_fmap. exists (N.to_nat n). split; [lia|]. apply elem_of_seq. lia.
Qed.

(** What an escape is made of. *)
Lemma byte_nibbles b : (b < 256)%N ->
  (N.shiftr b 4 < 16)%N /\ (N.land b 15 < 16)%N /\ (N.shiftr b 4 * 16 + N.land b 15 = b)%N.
Proof.
  intros Hb. rewrite N.shiftr_div_pow2. change 15%N with (N.ones 4). rewrite N.land_ones. change (2 ^ 4)%N with 16%N.
  split_and!; [apply N.Div0.div_lt_upper_bound; lia|by apply N.mod_lt|].
  rewrite (N.div_mod b 16) at 3 by done. lia.
Qed.

Lemma unreserved_plain b : unreserved b = true -> b <> 37%N /\ b <> 43%N.
Proof. intros Hb. split; intros ->; discriminate Hb. Qed.

(** One byte is encoded as itself, as a plus sign or as an escape. *)
Definition chunk (plus : bool) (b : N) (w : text) : Prop :=
  (w = [b] /\ unreserved b = true) \/ (b = 32%N /\ plus = true /\ w = [43%N]) \/
  exists h x, w = [37; h; x]%N /\ (hex_value h * 16 + hex_value x = b)%N /\ unreserved h = true /\ unreserved x = true.

Lemma encode_chunks plus s :
  Forall (fun b => (b < 256)%N) s ->
  exists ws, encode_with_space plus s = Some (concat ws) /\ Forall2 (chunk plus) s ws.
Proof.
  induction 1 as [|b s Hb _ (ws & IH & Hws)]; cbn [encode_with_space]; [by exists []|]. rewrite IH.
  destruct (unreserved b) eqn:Eu.
  { exists ([b] :: ws). split; [done|]. constructor; [by left|done]. }
  destruct ((b =? 32)%N && plus) eqn:Es.
  { apply andb_true_iff in Es as [->%N.eqb_eq ->]. exists ([43%N] :: ws). split; [done|]. constructor; [right; by left|done]. }
  destruct (byte_nibbles b Hb) as (H1 & H2 & H3).
  destruct (hex_nibble_spec _ H1) as (h & -> & Hh & Hhu), (hex_nibble_spec _ H2) as (x & -> & Hx & Hxu).
  exists ([37; h; x]%N :: ws). split; [done|]. constructor; [|done]. do 2 right. exists h, x. by rewrite Hh, Hx.
Qed.

Lemma decode_chunks plus s ws :
  Forall2 (chunk plus) s ws -> percent_decode plus 0 (concat ws) = s.
Proof.
  induction 1 as [|b w s ws Hw Hs IH]; [done|]. cbn [concat].
  assert (Hplain : forall c, c <> 37%N ->
    percent_decode plus 0 (c :: concat ws) = (if (c =? 43)%N && plus then 32%N else c) :: percent_decode plus 0 (concat ws)).
  { intros c Hc. cbn [percent_decode]. destruct (concat ws) as [|h [|x l]]; [done..|]. by rewrite (proj2 (N.eqb_neq c 37)). }
  destruct Hw as [[-> Hu]|[(-> & -> & ->)|(h & x & -> & Hhx & _)]]; cbn [app].
  - apply unreserved_plain in Hu as [H1 H2]. by rewrite Hplain, (proj2 (N.eqb_neq b 43)), IH by done.
  - by rewrite Hplain, IH by done.
  - cbn [percent_decode]. rewrite Hhx, <- IH. done.
Qed.

(** The characters a component may contain: none that ends or splits it. *)
Lemma encoded_chars plus s ws b :
  Forall2 (chunk plus) s ws -> b ∈ concat ws -> unreserved b = true \/ b = 37%N \/ (plus = true /\ b = 43%N).
Proof.
  induction 1 as [|c w s ws Hw Hs IH]; cbn [concat]; [by intros ?%elem_of_nil|]. intros [Hb|Hb]%elem_of_app; [|by apply IH].
  destruct Hw as [[-> Hu]|[(-> & -> & ->)|(h & x & -> & _ & Hh & Hx)]]; rewrite ?elem_of_cons, elem_of_nil in Hb; naive_solver.
Qed.

(** *** The cap on the detail *)

Lemma boundary_before_spec l n :
  (boundary_before l n <= n)%nat /\ is_char_boundary l (boundary_before l n) = true.
Proof.
  induction n as [|n [IH1 IH2]]; cbn [boundary_before].
  - by destruct (is_char_boundary l 0).
  - destruct (is_char_boundary l (S n)) eqn:E; [split; [lia|done]|split; [lia|done]].
Qed.

(** ** Properties *)

(** C40: the retry loop always returns, soon.  For every server, every policy and
    every request [execute] answers (its [unreachable!] is not reached) with the
    answer to its last attempt: at most [max_retries + 1] attempts are made, every
    attempt but the last failed or was answered by a transient status, and the last
    one too only if the retries are used up.  Between attempts it sleeps what the
    policy says: at least the server's [Retry-After] as far as the policy's ceiling,
    and never longer than the greater of the two caps. *)
Theorem execute_bounded `{NaiveParser} send clock p request :
  exists k slept, execute send clock p request = (slept, Some (send k request)) /\
    (k <= N.to_nat (max_retries p))%nat /\ length slept = k /\
    (forall n, (n < k)%nat -> failed_attempt send request n) /\
    ((k < N.to_nat (max_retries p))%nat -> ~ failed_attempt send request k) /\
    (forall n d, slept !! n = Some d -> d = backoff p (N.of_nat n + 1) (hint send clock request n) /\
       (d <= N.max (max_backoff p) (max_retry_after p))%N /\
       forall h, hint send clock request n = Some h -> (N.min h (max_retry_after p) <= d)%N).
Proof.
  destruct (execute_from_spec send clock p request (S (N.to_nat (max_retries p))) 0 []) as (k & Hk & He & Hall & Hend); [lia|lia|].
  rewrite Nat.add_0_l in *. eexists k, _. split; [exact He|]. cbn [app]. split; [done|].
  split; [by rewrite length_fmap, length_seq|]. split; [intros; apply Hall; lia|]. split; [done|].
  intros n d Hd. rewrite list_lookup_fmap in Hd. apply fmap_Some in Hd as (m & [-> _]%lookup_seq & ->).
  split; [done|]. split; [apply backoff_le|]. cbn. intros h ->. unfold backoff. lia.
Qed.

(** Percent encoding is safe and loses nothing.  Every text is encoded (the
    [unreachable!] of [hex_nibble] is not reached); the result consists of
    unreserved characters and escapes, so no character of a component can end it or
    split it; decoding gives the text back, so that different texts have different
    encodings; and the form variant differs on spaces only. *)
Theorem percent_encode_exact s :
  Forall (fun b => (b < 256)%N) s ->
  (exists out, percent_encode_path_component s = Some out /\ percent_decode false 0 out = s /\
     forall b, b ∈ out -> unreserved b = true \/ b = 37%N) /\
  (exists out, percent_encode_form_component s = Some out /\ percent_decode true 0 out = s /\
     forall b, b ∈ out -> unreserved b = true \/ b = 37%N \/ b = 43%N) /\
  (32%N ∉ s -> percent_encode_form_component s = percent_encode_path_component s).
Proof.
  intros Hs. split; [|split].
  - destruct (encode_chunks false s Hs) as (ws & He & Hws). exists (concat ws). split; [exact He|].
    split; [by apply decode_chunks|]. intros b Hb. destruct (encoded_chars _ _ _ _ Hws Hb) as [?|[?|[? _]]]; auto. done.
  - destruct (encode_chunks true s Hs) as (ws & He & Hws). exists (concat ws). split; [exact He|].
    split; [by apply decode_chunks|]. intros b Hb. destruct (encoded_chars _ _ _ _ Hws Hb) as [?|[?|[_ ?]]]; auto.
  - clear Hs. unfold percent_encode_form_component, percent_encode_path_component.
    induction s as [|b s IH]; [done|]. rewrite not_elem_of_cons. intros [Hb Hs]. cbn [encode_with_space]. rewrite (IH Hs).
    by rewrite (proj2 (N.eqb_neq b 32)) by congruence.
Qed.

(** Spaces and delimiters of a query. *)
Lemma percent_encode_exact_witness :
  percent_decode false 0 (string_bytes "a%20b%2F%3Fc%3D%25") = string_bytes "a b/?c=%".
Proof.
  destruct (percent_encode_exact (string_bytes "a b/?c=%")) as ((out & Hout & Hd & _) & _).
  - repeat constructor; reflexivity.
  - assert (out = string_bytes "a%20b%2F%3Fc%3D%25") as <- by (vm_compute in Hout; by injection Hout as <-). exact Hd.
Defined.

(** A failure is an authentication error exactly on 401 and 403; the quoted part of
    the body is at most 512 bytes and ends at a character boundary. *)
Theorem classify_failure_spec provider endpoint resp :
  exists msg, classify_failure provider endpoint resp = (if decide (status resp = 401 \/ status resp = 403)%N then Auth msg else Sync msg) /\
  let trimmed := trim (from_utf8_lossy (resp_body resp)) in
  exists head detail, msg = head ++ detail /\
    (detail = trimmed /\ (length trimmed <= 512)%nat \/ trimmed = [] \/
     exists n, (n <= 512)%nat /\ is_char_boundary trimmed n = true /\ detail = take n trimmed ++ [226; 128; 166]%N).
Proof.
  unfold classify_failure. set (trimmed := trim _). set (detail := match trimmed with [] => _ | _ => _ end).
  eexists. split.
  - case_bool_decide as Hs; rewrite !elem_of_cons, elem_of_nil in Hs; case_decide; try reflexivity; exfalso; tauto.
  - cbn zeta. eexists (provider ++ [32%N] ++ endpoint ++ string_bytes " returned status " ++ print_N (status resp) ++ string_bytes ": "), detail.
    split; [by rewrite !(assoc_L (++))|]. subst detail. destruct trimmed as [|b l] eqn:Et; [auto|]. rewrite <- Et.
    destruct (Nat.ltb_spec 512 (length trimmed)); [|left; split; [done|lia]]. right. right.
    destruct (boundary_before_spec trimmed 512). eexists. split; [done|]. by split.
Qed.
