(* ===== verification/DocuSign.v ===== *)
(** * A connector from end to end ([connectors/src/docusign.rs], with the events of
    [connector_framework/src/event.rs] and the use [ffi/src/connector.rs] makes of
    the synchronisation state)

    The listing of envelopes page by page, the initial and the incremental
    synchronisation over it, and the runtime's choice between the two.  The
    provider is [HttpTransport::execute] of [Http] together with the JSON decoder;
    the fields read from the configuration's JSON are a function. *)

From S2P Require Import Prelude ConnectorSync Http.
From S2P Require AclSync.

(** ** Events ([event.rs]) *)

(** [enum ConnectorEvent]. *)
Inductive ConnectorEvent : Type :=
| DocumentCreated (document_id : text) (occurred_at : instant)
| DocumentUpdated (document_id : text) (occurred_at : instant)
| DocumentDeleted (document_id : text) (occurred_at : instant)
| PermissionChanged (document_id user_id : text) (new_level : option AclSync.SourcePermissionLevel) (occurred_at : instant).

(** [struct SyncRunResult]. *)
Record SyncRunResult : Type := mk_run { events : list ConnectorEvent; next_cursor : option text }.

(** ** The connector *)

Definition DEFAULT_API_BASE_URL : text := string_bytes "https://demo.docusign.net".
Definition DEFAULT_PAGE_SIZE : N := 100.
Definition INITIAL_FROM_DATE : text := string_bytes "2000-01-01T00:00:00Z".
Definition MAX_LIST_PAGES : nat := N.to_nat 10000.

(** [struct DocuSignEnvelope]. *)
Record DocuSignEnvelope : Type := mk_envelope {
  envelope_id : text;
  envelope_status : option text;
  email_subject : option text;
  created_date_time : option instant;
  status_changed_date_time : option instant
}.

(** [struct DocuSignConnector] with [with_api_base_url], [with_page_size]. *)
Record DocuSignConnector : Type := mk_connector { api_base_url : text; page_size : N }.
Definition new_connector : DocuSignConnector := mk_connector DEFAULT_API_BASE_URL DEFAULT_PAGE_SIZE.
Definition with_api_base_url (u : text) (c : DocuSignConnector) : DocuSignConnector := mk_connector u (page_size c).
Definition with_page_size (size : N) (c : DocuSignConnector) : DocuSignConnector :=
  mk_connector (api_base_url c) (N.min (N.max size 1) 1000).

(** [envelope_time], [envelope_to_event]; [now] is [Utc::now]. *)
Definition envelope_time (e : DocuSignEnvelope) : option instant :=
  match status_changed_date_time e with Some t => Some t | None => created_date_time e end.
Definition envelope_to_event (now : instant) (e : DocuSignEnvelope) (kind : string) : ConnectorEvent :=
  let occurred_at := default now (envelope_time e) in
  let id := envelope_id e in
  if String.eqb kind "create" then DocumentCreated id occurred_at
  else if String.eqb kind "delete" then DocumentDeleted id occurred_at
  else DocumentUpdated id occurred_at.

Section Connector.
Context `{Rfc3339}.
Context (transport : HttpRequest -> result HttpResponse ConnectorError).
Context (from_slice : text -> result (list DocuSignEnvelope) text).
(** [auth_config_json.get(key).and_then(as_str)] and the access token. *)
Context (auth_text : string -> option text) (token : text).
Context (c : DocuSignConnector).

(** [resolved_base_url], [account_id]. *)
Definition resolved_base_url : text := default (api_base_url c) (auth_text "api_base_url").
Definition account_id : result text ConnectorError :=
  ok_or (auth_text "account_id") (Http.Sync (string_bytes "docusign: auth_config_json.account_id is required")).

(** The URL of a page. *)
Definition page_url (base_url account_enc from_enc : text) (start_position : N) : text :=
  base_url ++ string_bytes "/restapi/v2.1/accounts/" ++ account_enc ++ string_bytes "/envelopes?from_date=" ++ from_enc
  ++ string_bytes "&count=" ++ print_N (page_size c) ++ string_bytes "&start_position=" ++ print_N start_position.
Definition get_page (url : text) : result (list DocuSignEnvelope) ConnectorError :=
  bearer_get_json transport from_slice (string_bytes "docusign")
    (string_bytes "/restapi/v2.1/accounts/{id}/envelopes") url token [].

(** [paginate_envelopes]; [None] is the [unreachable!] of the percent encoder. *)
Fixpoint pages_loop (tries : nat) (base_url account_enc from_enc : text) (out : list DocuSignEnvelope)
    (start_position : N) : result (list DocuSignEnvelope) ConnectorError :=
  match tries with
  | O => Err (Http.Sync (string_bytes "docusign envelopes exceeded 10000 pages"))
  | S tries =>
      let? envelopes := get_page (page_url base_url account_enc from_enc start_position) in
      let returned := length envelopes in
      let out := out ++ envelopes in
      if (N.of_nat returned <? page_size c)%N then Ok out
      else pages_loop tries base_url account_enc from_enc out
             (u32_saturating_add start_position (N.min (N.of_nat returned) u32_max))
  end.
Definition paginate_envelopes (base_url account_enc from_date : text) :
    option (result (list DocuSignEnvelope) ConnectorError) :=
  match percent_encode_path_component from_date with
  | None => None
  | Some from_enc => Some (pages_loop MAX_LIST_PAGES base_url account_enc from_enc [] 0)
  end.

(** The common beginning of both synchronisations. *)
Definition list_envelopes (from_date : text) : option (result (list DocuSignEnvelope) ConnectorError) :=
  match account_id with
  | Err e => Some (Err e)
  | Ok account =>
      match percent_encode_path_component account with
      | None => None
      | Some account_enc => paginate_envelopes resolved_base_url account_enc from_date
      end
  end.

(** [initial_sync]; [clock] is read for envelopes without a time. *)
Definition observe_envelope (cur : WatermarkCursor) (e : DocuSignEnvelope) : WatermarkCursor :=
  match envelope_time e with Some t => observe t (envelope_id e) cur | None => cur end.
Definition initial_sync (clock : nat -> instant) : option (result SyncRunResult ConnectorError) :=
  match list_envelopes INITIAL_FROM_DATE with
  | None => None
  | Some (Err e) => Some (Err e)
  | Some (Ok envelopes) =>
      Some (Ok (mk_run (imap (fun n e => envelope_to_event (clock n) e "create") envelopes)
                  (to_cursor_string (foldl observe_envelope empty_cursor envelopes))))
  end.

(** [incremental_sync]: the loop over the envelopes. *)
Definition sync_envelope (prior : WatermarkCursor) (acc : list ConnectorEvent * WatermarkCursor) (e : DocuSignEnvelope) :
    list ConnectorEvent * WatermarkCursor :=
  let '(evs, cur) := acc in
  match envelope_time e with
  | None => acc
  | Some t =>
      if negb (should_emit prior t (envelope_id e)) then acc
      else (evs ++ [envelope_to_event t e "update"], observe t (envelope_id e) cur)
  end.
Definition incremental_sync (state : SyncState) : option (result SyncRunResult ConnectorError) :=
  let prior := parse (cursor state) in
  let from_date := default INITIAL_FROM_DATE (query_since prior) in
  match list_envelopes from_date with
  | None => None
  | Some (Err e) => Some (Err e)
  | Some (Ok envelopes) =>
      let '(evs, cur) := foldl (sync_envelope prior) ([], prior) envelopes in
      Some (Ok (mk_run evs (to_cursor_string cur)))
  end.

End Connector.

(** ** The runtime's run ([sync_connector] of [ffi/src/connector.rs]) *)

(** [event_to_evidence_body]: the events that are ingested. *)
Definition has_evidence_body (e : ConnectorEvent) : bool :=
  match e with
  | DocumentCreated _ _ | DocumentUpdated _ _ => true
  | DocumentDeleted _ _ | PermissionChanged _ _ _ _ => false
  end.

(** What happens before the dispatch: the scope, the token and the connector are
    there and the token is fresh or refreshed; or the call is refused; or the
    refresh fails. *)
Inductive Pre : Type := Ready (token : text) | Refused | RefreshFailed (msg : string).
(** What happens after it: the events are ingested in order and the new state is
    written; either may fail, the first after [n] events. *)
Inductive Post : Type := Done | IngestFailed (n : nat) (msg : string) | PersistFailed (msg : string).

Section Runtime.
Context `{Rfc3339}.
Context (transport : HttpRequest -> result HttpResponse ConnectorError).
Context (from_slice : text -> result (list DocuSignEnvelope) text).
Context (auth_text : string -> option text) (c : DocuSignConnector).

(** The state afterwards, the events ingested and whether the call succeeded. *)
Definition sync_connector (clock : nat -> instant) (completed_at : instant) (pre : Pre) (post : Post)
    (describe : ConnectorError -> string) (state : SyncState) :
    option (SyncState * list ConnectorEvent * bool) :=
  if bool_decide (ConnectorSync.status state = InProgress) then Some (state, [], false)
  else
    let m := if can_run_incremental state then Incremental else Full in
    match pre with
    | Refused => Some (state, [], false)
    | RefreshFailed msg => Some (mark_failed msg (mark_in_progress state), [], false)
    | Ready token =>
        let running := mark_in_progress state in
        let dispatch_result :=
          match m with
          | Incremental => incremental_sync transport from_slice auth_text token c state
          | Full => initial_sync transport from_slice auth_text token c clock
          end in
        match dispatch_result with
        | None => None
        | Some (Err e) => Some (mark_failed (describe e) running, [], false)
        | Some (Ok r) =>
            let bodies := List.filter has_evidence_body (events r) in
            let advanced := mark_succeeded (next_cursor r) completed_at running in
            match post with
            | Done => Some (advanced, bodies, true)
            | IngestFailed n msg => Some (mark_failed msg running, take n bodies, false)
            | PersistFailed msg => Some (mark_failed msg advanced, bodies, false)
            end
        end
    end.
End Runtime.

(** ** Facts *)

(** What a cursor sees of an envelope, and the envelopes that are new to it. *)
Definition stamp (e : DocuSignEnvelope) : option (instant * text) :=
  match envelope_time e with Some t => Some (t, envelope_id e) | None => None end.
Definition stamps (es : list DocuSignEnvelope) : list (instant * text) := omap stamp es.

(** Nothing seen is newer than the envelope or the envelope itself. *)
Definition fresh (seen : list (instant * text)) (e : DocuSignEnvelope) : Prop :=
  match envelope_time e with
  | Some t => forall t' i', (t', i') ∈ seen -> (t' < t)%Z \/ (t' = t /\ i' <> envelope_id e)
  | None => False
  end.
Definition emits (prior : WatermarkCursor) (e : DocuSignEnvelope) : bool :=
  match envelope_time e with Some t => should_emit prior t (envelope_id e) | None => false end.
Definition update_event (e : DocuSignEnvelope) : ConnectorEvent :=
  envelope_to_event (default 0%Z (envelope_time e)) e "update".

Lemma emits_fresh seen e : emits (cursor_of seen) e = true <-> fresh seen e.
Proof.
  unfold emits, fresh. destruct (envelope_time e) as [t|]; [|done]. apply should_emit_spec, cursor_of_spec.
Qed.

Lemma observe_envelopes seen es : foldl observe_envelope (cursor_of seen) es = cursor_of (seen ++ stamps es).
Proof.
  revert seen. induction es as [|e es IH]; intros seen; [cbn; by rewrite (right_id_L [] (++))|].
  cbn [foldl]. unfold observe_envelope at 2, stamps. cbn [omap list_omap]. unfold stamp at 1.
  destruct (envelope_time e) as [t|]; [|apply IH].
  rewrite <- cursor_of_snoc, IH, <- (assoc_L (++)). done.
Qed.

Lemma sync_envelopes prior evs seen es :
  foldl (sync_envelope prior) (evs, cursor_of seen) es
  = (evs ++ (update_event <$> List.filter (emits prior) es),
     cursor_of (seen ++ stamps (List.filter (emits prior) es))).
Proof.
  revert evs seen. induction es as [|e es IH]; intros evs seen; [cbn; by rewrite !(right_id_L [] (++))|].
  cbn [foldl sync_envelope List.filter]. unfold emits at 1 4. destruct (envelope_time e) as [t|] eqn:Et; [|apply IH].
  destruct (should_emit prior t (envelope_id e)); cbn [negb]; [|apply IH].
  rewrite <- cursor_of_snoc, IH. cbn [fmap list_fmap]. unfold update_event at 2, stamps. cbn [omap list_omap].
  unfold stamp at 2. rewrite Et. cbn [default]. by rewrite <- !(assoc_L (++)).
Qed.

Section Sync.
Context `{Rfc3339}.
Context (transport : HttpRequest -> result HttpResponse ConnectorError).
Context (from_slice : text -> result (list DocuSignEnvelope) text).
Context (auth_text : string -> option text) (token : text).
Context (c : DocuSignConnector).
#[local] Abbreviation listing := (list_envelopes transport from_slice auth_text token c).
#[local] Abbreviation pages := (pages_loop transport from_slice token c).
#[local] Abbreviation page := (get_page transport from_slice token).

(** A provider that serves slices of a list is listed completely, unless it has
    more pages than the cap. *)
Lemma pages_complete base acc from (F : list DocuSignEnvelope) tries start :
  (0 < page_size c)%N -> (N.of_nat (length F) <= u32_max)%N -> (start <= length F)%nat ->
  (forall n, page (page_url c base acc from n) = Ok (take (N.to_nat (page_size c)) (drop (N.to_nat n) F))) ->
  (length F - start < tries * N.to_nat (page_size c))%nat ->
  pages tries base acc from (take start F) (N.of_nat start) = Ok F.
Proof.
  intros Hps Hmax. revert start. induction tries as [|tries IH]; intros start Hst Hserve Htries; [lia|].
  cbn [pages_loop]. rewrite Hserve, Nat2N.id. cbn [try_result].
  set (p := take _ (drop start F)). assert (Hp : length p = Nat.min (N.to_nat (page_size c)) (length F - start)).
  { unfold p. by rewrite length_take, length_drop. }
  assert (Hout : take start F ++ p = take (start + N.to_nat (page_size c)) F).
  { unfold p. rewrite take_take_drop. done. }
  rewrite Hout. destruct (N.ltb_spec (N.of_nat (length p)) (page_size c)).
  - f_equal. apply take_ge. lia.
  - assert (Hlen : length p = N.to_nat (page_size c)) by lia.
    replace (u32_saturating_add (N.of_nat start) (N.min (N.of_nat (length p)) u32_max))
      with (N.of_nat (start + N.to_nat (page_size c))) by (unfold u32_saturating_add; lia).
    apply IH; [lia|done|lia].
Qed.

(** What the loop returns: full pages, each asked for at the number of envelopes
    before it, and one that is not full. *)
Definition offset (start : N) (ps : list (list DocuSignEnvelope)) : N := N.min (start + N.of_nat (length (concat ps))) u32_max.
Definition paged (base acc from : text) (tries : nat) (start : N) (es : list DocuSignEnvelope) : Prop :=
  exists full rest, es = concat full ++ rest /\ (length full < tries)%nat /\
    (forall i p, full !! i = Some p ->
       page (page_url c base acc from (offset start (take i full))) = Ok p /\ (page_size c <= N.of_nat (length p))%N) /\
    page (page_url c base acc from (offset start full)) = Ok rest /\ (N.of_nat (length rest) < page_size c)%N.

Lemma offset_next start p ps :
  offset (u32_saturating_add start (N.min (N.of_nat (length p)) u32_max)) ps = offset start (p :: ps).
Proof. unfold offset, u32_saturating_add. cbn [concat]. rewrite length_app. lia. Qed.
Lemma pages_loop_ok base acc from tries out start es :
  (start <= u32_max)%N ->
  pages tries base acc from out start = Ok es <-> exists es', es = out ++ es' /\ paged base acc from tries start es'.
Proof.
  revert out start es. induction tries as [|tries IH]; intros out start es Hst; cbn [pages_loop].
  { split; [done|]. intros (es' & _ & full & rest & _ & ? & _). lia. }
  assert (H0 : offset start [] = start) by (unfold offset; cbn; lia).
  assert (Hnext : forall p : list DocuSignEnvelope, (u32_saturating_add start (N.min (N.of_nat (length p)) u32_max) <= u32_max)%N) by (intros p; unfold u32_saturating_add; lia).
  destruct (page (page_url c base acc from start)) as [p|e] eqn:Ep; cbn [try_result].
  2: { split; [done|]. intros (es' & _ & [|q full] & rest & _ & _ & Hf & Hr & _); [by rewrite H0, Ep in Hr|].
       destruct (Hf 0%nat q eq_refl) as [Hq _]. by rewrite take_0, H0, Ep in Hq. }
  destruct (N.ltb_spec (N.of_nat (length p)) (page_size c)) as [Hlt|Hge].
  - split.
    + intros [= <-]. exists p. split; [done|]. exists [], p. split_and!; [done|cbn; lia|done|by rewrite H0|done].
    + intros (es' & -> & [|q full] & rest & -> & _ & Hf & Hr & _); [by rewrite H0, Ep in Hr; injection Hr as ->|].
      destruct (Hf 0%nat q eq_refl) as [Hq Hl]. rewrite take_0, H0, Ep in Hq. injection Hq as ->. lia.
  - rewrite IH by done. split.
    + intros (es' & -> & full & rest & -> & Hn & Hf & Hr & Hl). exists (p ++ concat full ++ rest). split; [by rewrite <- !(assoc_L (++))|].
      exists (p :: full), rest. cbn [concat length]. split_and!; [by rewrite <- !(assoc_L (++))|lia| |by rewrite <- offset_next|done].
      intros [|i] q Hq; [injection Hq as <-; by rewrite take_0, H0|]. cbn [take]. rewrite <- offset_next. by apply Hf.
    + intros (es' & -> & [|q full] & rest & -> & Hn & Hf & Hr & Hl); [rewrite H0, Ep in Hr; injection Hr as ->; lia|].
      destruct (Hf 0%nat q eq_refl) as [Hq _]. rewrite take_0, H0, Ep in Hq. injection Hq as ->.
      exists (concat full ++ rest). cbn [concat length] in *. split; [by rewrite <- !(assoc_L (++))|].
      exists full, rest. split_and!; [done|lia| |by rewrite offset_next|done].
      intros i x Hx. rewrite offset_next. by apply (Hf (S i)).
Qed.

(** The listing: the account's envelopes from that date on, page by page. *)
Definition listed (from : text) (es : list DocuSignEnvelope) : Prop :=
  exists account account_enc from_enc, account_id auth_text = Ok account /\
    percent_encode_path_component account = Some account_enc /\ percent_encode_path_component from = Some from_enc /\
    paged (resolved_base_url auth_text c) account_enc from_enc MAX_LIST_PAGES 0 es.
Lemma listing_ok from es : listing from = Some (Ok es) <-> listed from es.
Proof.
  unfold list_envelopes, listed, paginate_envelopes. generalize MAX_LIST_PAGES as tries. destruct (account_id auth_text) as [account|e].
  2: { split; [done|]. by intros (? & ? & ? & ? & _). }
  destruct (percent_encode_path_component account) as [ae|] eqn:Ea.
  2: { split; [done|]. intros (? & ? & ? & [= <-] & Hae & _). congruence. }
  destruct (percent_encode_path_component from) as [fe|] eqn:Ef.
  2: { split; [done|]. intros (? & ? & ? & _ & _ & Hfe & _). congruence. }
  split.
  - intros [= Hp]. apply pages_loop_ok in Hp as (es' & -> & Hp); [|done]. exists account, ae, fe. by split_and!.
  - intros (? & ? & ? & [= <-] & Hae & [= <-] & Hp). rewrite Ea in Hae. injection Hae as <-. f_equal. apply pages_loop_ok; [done|]. by exists es.
Qed.

(** Nothing in the encoder fails on bytes. *)
Lemma listing_total from :
  Forall (fun b => (b < 256)%N) from ->
  (forall a, auth_text "account_id" = Some a -> Forall (fun b => (b < 256)%N) a) ->
  exists r, listing from = Some r.
Proof.
  intros Hf Ha. unfold list_envelopes, account_id, paginate_envelopes.
  destruct (auth_text "account_id") as [a|]; [|by eexists]. cbn [ok_or].
  destruct (encode_chunks false a (Ha a eq_refl)) as (ws & He & _). unfold percent_encode_path_component. rewrite He.
  destruct (encode_chunks false from Hf) as (ws' & He' & _). rewrite He'. by eexists.
Qed.
End Sync.

Section State.
Context `{Rfc3339}.
(** The state of an instance that has ingested the records [seen]. *)
Definition holds (seen : list (instant * text)) (s : SyncState) : Prop :=
  Forall (fun r => four_digit_year r.1) seen /\
  ((mode s = Full /\ cursor s = None /\ seen = []) \/
   (mode s = Incremental /\ cursor s = to_cursor_string (cursor_of seen))).

Lemma to_cursor_string_none seen : to_cursor_string (cursor_of seen) = None <-> seen = [].
Proof.
  pose proof (cursor_of_spec seen) as Hs. unfold stands_for in Hs. unfold to_cursor_string.
  destruct (watermark (cursor_of seen)) as [w|].
  - destruct Hs as ([i Hi] & _). split; [by case_bool_decide|]. intros ->. by apply elem_of_nil in Hi.
  - by destruct Hs.
Qed.

Lemma holds_can_run seen s : holds seen s -> can_run_incremental s = true <-> seen <> [].
Proof.
  unfold can_run_incremental. rewrite andb_true_iff, !bool_decide_eq_true. intros [_ [(-> & -> & ->)|(-> & ->)]].
  - split; [by intros [? _]|done].
  - rewrite <- not_eq_None_Some, to_cursor_string_none. tauto.
Qed.

Lemma holds_parse seen s : holds seen s -> parse (cursor s) = cursor_of seen.
Proof.
  intros [Hyear [(_ & -> & ->)|(_ & ->)]]; [done|]. pose proof (cursor_of_spec seen) as Hs. unfold stands_for in Hs.
  apply parse_to_cursor_string.
  - intros w Hw. rewrite Hw in Hs. destruct Hs as ([i Hi] & _). rewrite Forall_forall in Hyear. by apply (Hyear (w, i)).
  - intros Hw. rewrite Hw in Hs. by destruct Hs.
Qed.

Lemma holds_failed seen s msg : holds seen s -> holds seen (mark_failed msg s).
Proof. done. Qed.

Lemma rfc3339_bytes t : Forall (fun b => (b < 256)%N) (to_rfc3339 t).
Proof. eapply Forall_impl; [apply rfc3339_plain|]. unfold visible. intros b [? _]. lia. Qed.
End State.

(** The events of a run and the records it adds. *)
Definition run_events (clock : nat -> instant) (seen : list (instant * text)) (es : list DocuSignEnvelope) :
    list ConnectorEvent :=
  if decide (seen = []) then imap (fun n e => envelope_to_event (clock n) e "create") es
  else update_event <$> List.filter (emits (cursor_of seen)) es.
Definition run_records (seen : list (instant * text)) (es : list DocuSignEnvelope) : list (instant * text) :=
  if decide (seen = []) then stamps es else stamps (List.filter (emits (cursor_of seen)) es).
(** From where a run lists. *)
Definition run_from `{Rfc3339} (seen : list (instant * text)) : text :=
  default INITIAL_FROM_DATE (query_since (cursor_of seen)).

Lemma elem_of_stamps t i es : (t, i) ∈ stamps es <-> exists e, e ∈ es /\ envelope_time e = Some t /\ envelope_id e = i.
Proof.
  unfold stamps, stamp. rewrite list_elem_of_omap. split; intros (e & He & Hs); exists e; (split; [done|]).
  - destruct (envelope_time e); [|done]. by injection Hs as <- <-.
  - by destruct Hs as [-> <-].
Qed.

(** The records a run adds are those of the listing that are new. *)
Lemma run_records_spec seen es t i :
  (t, i) ∈ run_records seen es <->
  (t, i) ∈ stamps es /\ forall t' i', (t', i') ∈ seen -> (t' < t)%Z \/ (t' = t /\ i' <> i).
Proof.
  unfold run_records. case_decide as Hs.
  - subst. split; [|tauto]. intros Hin. split; [done|]. by intros t' i' ?%elem_of_nil.
  - rewrite !elem_of_stamps. setoid_rewrite list_elem_of_In. setoid_rewrite List.filter_In. setoid_rewrite <- list_elem_of_In.
    setoid_rewrite emits_fresh. unfold fresh. split.
    + intros (e & [He Hf] & Ht & <-). rewrite Ht in Hf. split; [by exists e|done].
    + intros [(e & He & Ht & <-) Hf]. exists e. rewrite Ht. by split_and!.
Qed.

(** One dispatch. *)
Lemma dispatch_spec `{Rfc3339} transport from_slice auth_text token c clock seen s :
  holds seen s ->
  (match (if can_run_incremental s then Incremental else Full) with
   | Incremental => incremental_sync transport from_slice auth_text token c s
   | Full => initial_sync transport from_slice auth_text token c clock
   end)
  = match list_envelopes transport from_slice auth_text token c (run_from seen) with
    | None => None
    | Some (Err e) => Some (Err e)
    | Some (Ok es) => Some (Ok (mk_run (run_events clock seen es)
                                  (to_cursor_string (cursor_of (seen ++ run_records seen es)))))
    end.
Proof.
  intros Hh. pose proof (holds_can_run seen s Hh) as Hcan. unfold run_from, run_events, run_records.
  destruct (can_run_incremental s) eqn:Ec.
  - unfold incremental_sync. rewrite (holds_parse seen s Hh).
    destruct (list_envelopes _ _ _ _ _ _) as [[es|e]|]; [|done..].
    rewrite !decide_False by (by apply Hcan). by rewrite (sync_envelopes (cursor_of seen) [] seen es).
  - assert (seen = []) as -> by (destruct seen; [done|]; by assert (false = true) by by apply Hcan).
    unfold initial_sync. change (default INITIAL_FROM_DATE (query_since (cursor_of []))) with INITIAL_FROM_DATE.
    destruct (list_envelopes _ _ _ _ _ _) as [[es|e]|]; [|done..].
    rewrite !decide_True by done. by rewrite <- (observe_envelopes [] es).
Qed.

(** The state after a successful run, and the bytes of the start of a run. *)
Lemma holds_advanced `{Rfc3339} seen es completed_at s :
  holds seen s -> Forall (fun r => four_digit_year r.1) (stamps es) ->
  holds (seen ++ run_records seen es)
    (mark_succeeded (to_cursor_string (cursor_of (seen ++ run_records seen es))) completed_at (mark_in_progress s)).
Proof.
  intros Hh Hyears. split; [|by right]. apply Forall_app. split; [by destruct Hh|].
  rewrite Forall_forall in Hyears |- *. intros [t i] [Hin _]%run_records_spec. by apply Hyears.
Qed.
Lemma run_from_bytes `{Rfc3339} seen : Forall (fun b => (b < 256)%N) (run_from seen).
Proof.
  unfold run_from, query_since. destruct (watermark (cursor_of seen)); cbn; [apply rfc3339_bytes|].
  apply (bool_decide_unpack _). vm_compute. reflexivity.
Qed.

(** ** Properties *)

Lemma run_events_have_body clock seen es :
  List.filter has_evidence_body (run_events clock seen es) = run_events clock seen es.
Proof.
  assert (Hall : forall evs, Forall (fun e => has_evidence_body e = true) evs -> List.filter has_evidence_body evs = evs).
  { induction 1 as [|e evs He _ IH]; [done|]. cbn. by rewrite He, IH. }
  apply Hall. unfold run_events. case_decide.
  - apply Forall_lookup. intros n e He. apply list_lookup_imap_Some in He as (x & _ & ->). done.
  - apply Forall_fmap, Forall_forall. done.
Qed.

(** C38: synchronisation neither repeats nor loses a record.  Take an instance whose
    cursor stands for the records [seen] it has ingested and which is not being
    synchronised, and one more synchronisation, whatever the provider answers,
    but that its times have years of four digits, and whatever fails before or
    after.  It returns; it lists from the last instant seen, page by page, each
    page asked for at the number of envelopes before it, up to the first page that
    is not full, and succeeds exactly when all of these are served within the cap
    on their number ([listed]); an error before the ingestion is complete leaves the cursor as it was, so
    that the same records are offered again; otherwise it ingests, in order, an event for
    exactly the envelopes of the listing that are new (on a first run all, those
    without a time included), and the cursor then stands for all of them.  New are
    the records no seen one is newer than or equal to.  While a synchronisation is
    running a second one changes nothing. *)
Theorem docusign_sync_exact `{Rfc3339} transport from_slice auth_text c clock completed_at pre post describe seen s :
  holds seen s ->
  (forall a, auth_text "account_id" = Some a -> Forall (fun b => (b < 256)%N) a) ->
  (forall token from es, listed transport from_slice auth_text token c from es -> Forall (fun r => four_digit_year r.1) (stamps es)) ->
  exists s' evs ok,
    sync_connector transport from_slice auth_text c clock completed_at pre post describe s = Some (s', evs, ok) /\
    (ConnectorSync.status s = InProgress -> s' = s /\ evs = [] /\ ok = false) /\
    (ConnectorSync.status s <> InProgress ->
     match pre with
     | Refused => s' = s /\ evs = [] /\ ok = false
     | RefreshFailed _ => holds seen s' /\ ConnectorSync.status s' = Failed /\ evs = [] /\ ok = false
     | Ready token =>
         exists r : result (list DocuSignEnvelope) ConnectorError, (forall es, r = Ok es <-> listed transport from_slice auth_text token c (run_from seen) es) /\
         match r, post with
         | Err _, _ => holds seen s' /\ ConnectorSync.status s' = Failed /\ evs = [] /\ ok = false
         | Ok es, Done => holds (seen ++ run_records seen es) s' /\ ConnectorSync.status s' = Succeeded /\
                          evs = run_events clock seen es /\ ok = true
         | Ok es, IngestFailed n _ => holds seen s' /\ ConnectorSync.status s' = Failed /\ evs = take n (run_events clock seen es) /\ ok = false
         | Ok es, PersistFailed _ => holds (seen ++ run_records seen es) s' /\ ConnectorSync.status s' = Failed /\
                                     evs = run_events clock seen es /\ ok = false
         end
     end) /\
    (forall es x, x ∈ run_records seen es <->
       x ∈ stamps es /\ forall y, y ∈ seen -> (y.1 < x.1)%Z \/ (y.1 = x.1 /\ y.2 <> x.2)).
Proof.
  intros Hh Hacc Hyears.
  assert (Hrest : forall es x, x ∈ run_records seen es <->
       x ∈ stamps es /\ forall y, y ∈ seen -> (y.1 < x.1)%Z \/ (y.1 = x.1 /\ y.2 <> x.2)).
  { intros es [t i]. rewrite run_records_spec. split; intros [Hin Hf]; (split; [done|]); [intros [t' i']; apply Hf|].
    intros t' i' Hy. by apply (Hf (t', i')). }
  unfold sync_connector. case_bool_decide as Hbusy; [by eexists _, _, _|].
  destruct pre as [token| |msg]; [|by eexists _, _, _|by eexists _, _, _].
  destruct (listing_total transport from_slice auth_text token c (run_from seen) (run_from_bytes seen) Hacc) as (r & Hr).
  rewrite (dispatch_spec _ _ _ _ _ _ seen s Hh), Hr.
  assert (Hadv : forall es, r = Ok es ->
    holds (seen ++ run_records seen es)
      (mark_succeeded (to_cursor_string (cursor_of (seen ++ run_records seen es))) completed_at (mark_in_progress s))).
  { intros es ->. apply holds_advanced; [done|by apply (Hyears _ _ _ (proj1 (listing_ok _ _ _ _ _ _ _) Hr))]. }
  assert (Hlisted : forall es, r = Ok es <-> listed transport from_slice auth_text token c (run_from seen) es).
  { intros es. rewrite <- listing_ok, Hr. split; [by intros ->|by intros [= ->]]. }
  destruct r as [es|e]; [destruct post|]; cbn [events next_cursor]; rewrite ?run_events_have_body;
    eexists _, _, _; (split; [reflexivity|]); (split; [done|]); (split; [|exact Hrest]);
    intros _; eexists; (split; [exact Hlisted|]); cbn; (split; [|done]).
  - by apply Hadv.
  - by apply holds_failed.
  - by apply holds_failed, Hadv.
  - by apply holds_failed.
Qed.

(** The provider repeats the last record seen, adds one of the same second and a
    newer one: the two new ones are ingested, once. *)
Lemma docusign_sync_exact_witness :
  let env id t := mk_envelope (string_bytes id) None None (Some t) None in
  let served := [env "a" 3%Z; env "b" 3%Z; env "c" 5%Z] in
  let transport := fun _ : HttpRequest => Ok (mk_response 200 [] []) in
  let auth_text := fun k => if String.eqb k "account_id" then Some (string_bytes "acc 1") else None in
  let seen := [(3%Z, string_bytes "a")] in
  let s := mark_succeeded (to_cursor_string (H := Notation.binary_rfc3339) (cursor_of seen)) 7%Z (new_state 1) in
  let after := seen ++ [(3%Z, string_bytes "b"); (5%Z, string_bytes "c")] in
  exists s', sync_connector (H := Notation.binary_rfc3339) transport (fun _ => Ok served) auth_text new_connector
               (fun _ => 0%Z) 9%Z (Ready []) Done (fun _ => "") s
             = Some (s', [DocumentUpdated (string_bytes "b") 3; DocumentUpdated (string_bytes "c") 5], true) /\
           holds (H := Notation.binary_rfc3339) after s'.
Proof.
  intros env served transport auth_text seen s after.
  destruct (docusign_sync_exact (H := Notation.binary_rfc3339) transport (fun _ => Ok served) auth_text
    new_connector (fun _ => 0%Z) 9%Z (Ready []) Done (fun _ => "") seen s) as (s' & evs & ok & Hs & _ & Hpost & _).
  - split; [repeat constructor; discriminate|]. right. by split.
  - intros a. cbn. intros [= <-]. apply (bool_decide_unpack _). vm_compute. reflexivity.
  - intros token from es Hl%listing_ok. unfold list_envelopes, paginate_envelopes in Hl.
    destruct (account_id _) as [a|]; [|done].
    destruct (percent_encode_path_component a) as [ae|]; [|done].
    destruct (percent_encode_path_component from) as [fe|]; [|done].
    assert (Hes : es = served) by (unfold MAX_LIST_PAGES in Hl; vm_compute in Hl; by injection Hl as <-).
    rewrite Hes. repeat constructor; discriminate.
  - destruct (Hpost ltac:(discriminate)) as (r & Hr & Hrun). clear Hpost.
    assert (Hserved : r = Ok served).
    { apply Hr, listing_ok. vm_compute. reflexivity. }
    rewrite Hserved in Hrun. destruct Hrun as (Hh & _ & -> & ->). exists s'. rewrite Hs. split; [|exact Hh].
    do 3 f_equal.
Defined.
