(* ===== verification/Tenant.v ===== *)
(** * The tenant registry ([tenant_service/src/tenant.rs], [lifecycle.rs],
    [member.rs], [config.rs], [error.rs])

    The tenant catalog: configuration checks, the lifecycle state machine with
    cryptographic forgetting, and membership rows.  Every public operation is a
    call on the registry; runs of calls are a step relation. *)

From S2P Require Import Prelude Namespace.

(** ** Data *)

(** [enum TenantStatus], [enum TenantMemberStatus]. *)
Inductive TenantStatus : Type := Active | Suspended | Deleted.
Inductive TenantMemberStatus : Type := MActive | MSuspended | MRemoved.

#[export] Instance TenantStatus_eq_dec : EqDecision TenantStatus.
Proof. solve_decision. Defined.
#[export] Instance TenantMemberStatus_eq_dec : EqDecision TenantMemberStatus.
Proof. solve_decision. Defined.

(** [enum TenantError]; driver errors are kept as their message. *)
Inductive TenantError : Type :=
| NotFound (id : uuid)
| InvalidLifecycleTransition (from to : TenantStatus)
| InvalidConfig (msg : string)
| AlreadyExists (id : uuid)
| MemberAlreadyProvisioned (id : uuid)
| MemberNotProvisioned (id : uuid)
| MemberAlreadyRemoved (id : uuid)
| Persistence (msg : string)
| Sqlite (msg : string)
| Crypto (msg : string).

(** The hand-written [PartialEq] of [TenantError]. *)
Definition tenant_error_eqb (a b : TenantError) : bool :=
  match a, b with
  | NotFound x, NotFound y | AlreadyExists x, AlreadyExists y
  | MemberAlreadyProvisioned x, MemberAlreadyProvisioned y
  | MemberNotProvisioned x, MemberNotProvisioned y
  | MemberAlreadyRemoved x, MemberAlreadyRemoved y => N.eqb x y
  | InvalidLifecycleTransition f t, InvalidLifecycleTransition f' t' =>
      bool_decide (f = f') && bool_decide (t = t')
  | InvalidConfig m, InvalidConfig n | Persistence m, Persistence n => String.eqb m n
  | _, _ => false
  end.

(** [TenantStatus::as_str], [is_terminal], [TenantMemberStatus::as_str]. *)
Definition status_str (s : TenantStatus) : string :=
  match s with Active => "active" | Suspended => "suspended" | Deleted => "deleted" end.
Definition is_terminal (s : TenantStatus) : bool :=
  match s with Deleted => true | _ => false end.
Definition member_status_str (s : TenantMemberStatus) : string :=
  match s with MActive => "active" | MSuspended => "suspended" | MRemoved => "removed" end.

(** [TenantStatus::validate_transition]. *)
Definition validate_transition (from to : TenantStatus) : result unit TenantError :=
  match from, to with
  | Active, Suspended | Active, Deleted | Suspended, Active | Suspended, Deleted => Ok tt
  | _, _ => Err (InvalidLifecycleTransition from to)
  end.

(** [struct TenantKeyRef] and its methods. *)
Record TenantKeyRef : Type := mk_key { handle : uuid; destroyed : bool }.
Definition new_key (fresh : uuid) : TenantKeyRef := {| handle := fresh; destroyed := false |}.
Definition destroy (k : TenantKeyRef) : TenantKeyRef := {| handle := handle k; destroyed := true |}.

(** [struct StorageConfig], [struct SynthesisConfig], [struct TenantConfig]. *)
Record StorageConfig : Type := mk_storage {
  soft_cap_bytes : option N;
  hard_cap_bytes : option N;
  server_cold_tier : bool
}.
Record SynthesisConfig : Type := mk_synthesis {
  tenant_synthesis_enabled : bool;
  tenant_window_secs : N;
  domain_window_secs : N;
  managed_endpoint : option string
}.
Record TenantConfig : Type := mk_config {
  root_key : TenantKeyRef;
  storage : StorageConfig;
  synthesis : SynthesisConfig
}.

Definition default_storage : StorageConfig := mk_storage None None false.
Definition default_synthesis : SynthesisConfig := mk_synthesis false 86400 3600 None.
Definition new_config (fresh : uuid) : TenantConfig :=
  {| root_key := new_key fresh; storage := default_storage; synthesis := default_synthesis |}.

(** [StorageConfig::validate], [SynthesisConfig::validate],
    [TenantConfig::validate]. *)
Definition validate_storage (c : StorageConfig) : result unit TenantError :=
  match soft_cap_bytes c, hard_cap_bytes c with
  | Some soft, Some hard =>
      if (hard <? soft)%N then Err (InvalidConfig "soft_cap_bytes must be <= hard_cap_bytes")
      else Ok tt
  | _, _ => Ok tt
  end.
Definition validate_synthesis (c : SynthesisConfig) : result unit TenantError :=
  if (tenant_window_secs c <? 60)%N || (domain_window_secs c <? 60)%N
  then Err (InvalidConfig "synthesis windows must be at least 60 seconds")
  else Ok tt.
Definition validate (c : TenantConfig) : result unit TenantError :=
  let? _ := validate_storage (storage c) in
  let? _ := validate_synthesis (synthesis c) in
  Ok tt.

(** [struct Tenant], [struct TenantMember]. *)
Record Tenant : Type := mk_tenant {
  tenant_id : uuid;
  tenant_name : string;
  tenant_status : TenantStatus;
  tenant_config : TenantConfig;
  tenant_created_at : instant;
  tenant_updated_at : instant
}.
Record TenantMember : Type := mk_member {
  m_tenant_id : uuid;
  m_user_id : uuid;
  m_role : Relation;
  m_status : TenantMemberStatus;
  m_provisioned_at : instant;
  m_updated_at : instant
}.

(** [Tenant::new], [TenantMember::new]; [fresh] and [now] are the
    [Uuid::new_v4()] and [Utc::now()] they draw. *)
Definition new_tenant (fresh : uuid) (now : instant) (name : string) (config : TenantConfig) : Tenant :=
  {| tenant_id := fresh; tenant_name := name; tenant_status := Active; tenant_config := config;
     tenant_created_at := now; tenant_updated_at := now |}.
Definition new_member (now : instant) (tenant user : uuid) (role : Relation) : TenantMember :=
  {| m_tenant_id := tenant; m_user_id := user; m_role := role; m_status := MActive;
     m_provisioned_at := now; m_updated_at := now |}.

(** [struct TenantRegistry]. *)
Record TenantRegistry : Type := mk_registry {
  tenants : gmap uuid Tenant;
  members : gmap (uuid * uuid) TenantMember
}.
Definition new : TenantRegistry := {| tenants := ∅; members := ∅ |}.
Definition len (r : TenantRegistry) : nat := size (tenants r).
Definition is_empty (r : TenantRegistry) : bool := (len r =? 0)%nat.

Definition with_tenant (r : TenantRegistry) (id : uuid) (t : Tenant) : TenantRegistry :=
  {| tenants := <[id := t]> (tenants r); members := members r |}.
Definition with_member (r : TenantRegistry) (k : uuid * uuid) (m : TenantMember) : TenantRegistry :=
  {| tenants := tenants r; members := <[k := m]> (members r) |}.
Definition with_status (t : Tenant) (c : TenantConfig) (s : TenantStatus) (now : instant) : Tenant :=
  {| tenant_id := tenant_id t; tenant_name := tenant_name t; tenant_status := s; tenant_config := c;
     tenant_created_at := tenant_created_at t; tenant_updated_at := now |}.

(** ** Operations *)

(** [TenantRegistry::create]. *)
Definition create (fresh : uuid) (now : instant) (name : string) (config : TenantConfig) :
    eff TenantRegistry TenantError uuid := fun r =>
  match validate config with
  | Err e => (r, Err e)
  | Ok _ =>
      let t := new_tenant fresh now name config in
      match tenants r !! tenant_id t with
      | Some _ => (r, Err (AlreadyExists (tenant_id t)))
      | None => (with_tenant r (tenant_id t) t, Ok (tenant_id t))
      end
  end.

(** [TenantRegistry::get]. *)
Definition get (r : TenantRegistry) (id : uuid) : result Tenant TenantError :=
  ok_or (tenants r !! id) (NotFound id).

(** [TenantRegistry::transition], [suspend], [activate]. *)
Definition transition (now : instant) (id : uuid) (to : TenantStatus) :
    eff TenantRegistry TenantError unit := fun r =>
  match tenants r !! id with
  | None => (r, Err (NotFound id))
  | Some t =>
      match validate_transition (tenant_status t) to with
      | Err e => (r, Err e)
      | Ok _ => (with_tenant r id (with_status t (tenant_config t) to now), Ok tt)
      end
  end.
Definition suspend (now : instant) (id : uuid) := transition now id Suspended.
Definition activate (now : instant) (id : uuid) := transition now id Active.

(** [TenantRegistry::delete]. *)
Definition delete (now : instant) (id : uuid) : eff TenantRegistry TenantError unit := fun r =>
  match tenants r !! id with
  | None => (r, Err (NotFound id))
  | Some t =>
      match validate_transition (tenant_status t) Deleted with
      | Err e => (r, Err e)
      | Ok _ =>
          let c := tenant_config t in
          let c := {| root_key := destroy (root_key c); storage := storage c; synthesis := synthesis c |} in
          (with_tenant r id (with_status t c Deleted now), Ok tt)
      end
  end.

(** [TenantRegistry::require_active]. *)
Definition require_active (r : TenantRegistry) (id : uuid) : result unit TenantError :=
  match tenants r !! id with
  | None => Err (NotFound id)
  | Some t =>
      if bool_decide (tenant_status t = Active) then Ok tt
      else Err (InvalidLifecycleTransition (tenant_status t) Active)
  end.

(** [TenantRegistry::add_member]. *)
Definition add_member (now : instant) (tenant user : uuid) (role : Relation) :
    eff TenantRegistry TenantError TenantMember := fun r =>
  match require_active r tenant with
  | Err e => (r, Err e)
  | Ok _ =>
      let insert_fresh :=
        let m := new_member now tenant user role in (with_member r (tenant, user) m, Ok m) in
      match members r !! (tenant, user) with
      | Some existing =>
          if bool_decide (m_status existing = MRemoved) then insert_fresh
          else (r, Err (MemberAlreadyProvisioned user))
      | None => insert_fresh
      end
  end.

(** The lookup and the removed check [remove_member] and [update_role]
    share, then the update. *)
Definition update_member (tenant user : uuid) (f : TenantMember -> TenantMember) :
    eff TenantRegistry TenantError unit := fun r =>
  match require_active r tenant with
  | Err e => (r, Err e)
  | Ok _ =>
      match members r !! (tenant, user) with
      | None => (r, Err (MemberNotProvisioned user))
      | Some m =>
          if bool_decide (m_status m = MRemoved) then (r, Err (MemberAlreadyRemoved user))
          else (with_member r (tenant, user) (f m), Ok tt)
      end
  end.

(** [TenantRegistry::remove_member]. *)
Definition remove_member (now : instant) (tenant user : uuid) :=
  update_member tenant user (fun m =>
    {| m_tenant_id := m_tenant_id m; m_user_id := m_user_id m; m_role := m_role m;
       m_status := MRemoved; m_provisioned_at := m_provisioned_at m; m_updated_at := now |}).

(** [TenantRegistry::update_role]. *)
Definition update_role (now : instant) (tenant user : uuid) (role : Relation) :=
  update_member tenant user (fun m =>
    {| m_tenant_id := m_tenant_id m; m_user_id := m_user_id m; m_role := role;
       m_status := m_status m; m_provisioned_at := m_provisioned_at m; m_updated_at := now |}).

(** [TenantRegistry::get_member], [list_members]. *)
Definition get_member (r : TenantRegistry) (tenant user : uuid) : result TenantMember TenantError :=
  ok_or (members r !! (tenant, user)) (MemberNotProvisioned user).
Definition list_members `{HashOrder} (r : TenantRegistry) (tenant : uuid) : list TenantMember :=
  omap (fun '((t, _), m) => if N.eqb t tenant then Some m else None)
       (hash_order (map_to_list (members r))).

(** [TenantRegistry::insert_persisted], [insert_persisted_member]. *)
Definition insert_persisted (t : Tenant) : eff TenantRegistry TenantError unit := fun r =>
  match tenants r !! tenant_id t with
  | Some _ => (r, Err (AlreadyExists (tenant_id t)))
  | None => (with_tenant r (tenant_id t) t, Ok tt)
  end.
Definition insert_persisted_member (m : TenantMember) : eff TenantRegistry TenantError unit := fun r =>
  match tenants r !! m_tenant_id m with
  | None => (r, Err (NotFound (m_tenant_id m)))
  | Some _ => (with_member r (m_tenant_id m, m_user_id m) m, Ok tt)
  end.

(** ** Runs *)

Inductive call : Type :=
| Create (fresh : uuid) (now : instant) (name : string) (config : TenantConfig)
| Transition (now : instant) (id : uuid) (to : TenantStatus)
| Delete (now : instant) (id : uuid)
| AddMember (now : instant) (tenant user : uuid) (role : Relation)
| RemoveMember (now : instant) (tenant user : uuid)
| UpdateRole (now : instant) (tenant user : uuid) (role : Relation).

(** [transition] is private: [suspend] and [activate] are its callers. *)
Definition public (c : call) : bool :=
  match c with Transition _ _ Deleted => false | _ => true end.

Definition run_call (c : call) (r : TenantRegistry) : TenantRegistry :=
  match c with
  | Create fresh now name config => (create fresh now name config r).1
  | Transition now id to => (transition now id to r).1
  | Delete now id => (delete now id r).1
  | AddMember now t u role => (add_member now t u role r).1
  | RemoveMember now t u => (remove_member now t u r).1
  | UpdateRole now t u role => (update_role now t u role r).1
  end.

Inductive step : TenantRegistry -> TenantRegistry -> Prop :=
| step_call c r : public c = true -> step r (run_call c r).

(** Every deleted tenant has lost its key, every row is filed under its own
    id, and membership rows belong to existing tenants. *)
Record registry_wf (r : TenantRegistry) : Prop := {
  rw_key : forall id t, tenants r !! id = Some t -> tenant_status t = Deleted ->
    destroyed (root_key (tenant_config t)) = true;
  rw_id : forall id t, tenants r !! id = Some t -> tenant_id t = id;
  rw_config : forall id t, tenants r !! id = Some t -> validate (tenant_config t) = Ok tt;
  rw_member : forall k m, members r !! k = Some m ->
    (m_tenant_id m, m_user_id m) = k /\ is_Some (tenants r !! k.1)
}.

Lemma registry_wf_new : registry_wf new.
Proof. split; unfold new; cbn; intros *; by rewrite lookup_empty. Qed.

Lemma registry_wf_with_tenant r id t :
  registry_wf r -> tenant_id t = id -> validate (tenant_config t) = Ok tt ->
  (tenant_status t = Deleted -> destroyed (root_key (tenant_config t)) = true) ->
  registry_wf (with_tenant r id t).
Proof.
  intros [H1 H2 H3 H4] Hid Hval Hdel. split; cbn.
  - intros i x. rewrite lookup_insert_Some. intros [[<- <-]|[_ Hx]]; eauto.
  - intros i x. rewrite lookup_insert_Some. intros [[<- <-]|[_ Hx]]; eauto.
  - intros i x. rewrite lookup_insert_Some. intros [[<- <-]|[_ Hx]]; eauto.
  - intros k m Hm. destruct (H4 k m Hm) as [? ?]. split; [done|].
    rewrite lookup_insert_is_Some'. by right.
Qed.

Lemma registry_wf_with_member r k m :
  registry_wf r -> (m_tenant_id m, m_user_id m) = k -> is_Some (tenants r !! k.1) ->
  registry_wf (with_member r k m).
Proof.
  intros [H1 H2 H3 H4] Hk Ht. split; cbn; [done..|].
  intros k' m'. rewrite lookup_insert_Some. intros [[<- <-]|[_ Hm]]; [done|by apply H4].
Qed.

Lemma require_active_ok r id :
  require_active r id = Ok tt <-> exists t, tenants r !! id = Some t /\ tenant_status t = Active.
Proof.
  unfold require_active. destruct (tenants r !! id) as [t|]; [|naive_solver].
  case_bool_decide; naive_solver.
Qed.

(** Membership mutators touch one row of one active tenant. *)
Lemma update_member_cases tenant user f r :
  (exists e, update_member tenant user f r = (r, Err e)) \/
  (exists m, members r !! (tenant, user) = Some m /\ m_status m <> MRemoved /\
     require_active r tenant = Ok tt /\
     update_member tenant user f r = (with_member r (tenant, user) (f m), Ok tt)).
Proof.
  unfold update_member. destruct (require_active r tenant) as [[]|]; [|by left; eauto].
  destruct (members r !! (tenant, user)) as [m|]; [|by left; eauto].
  case_bool_decide; [by left; eauto|]. right. eauto.
Qed.

Lemma registry_wf_update_member r tenant user f :
  registry_wf r -> (forall m, m_tenant_id (f m) = m_tenant_id m /\ m_user_id (f m) = m_user_id m) ->
  registry_wf (update_member tenant user f r).1.
Proof.
  intros Hwf Hf. destruct (update_member_cases tenant user f r) as [[e ->]|(m & Hm & _ & _ & ->)]; [done|].
  destruct (rw_member _ Hwf _ _ Hm) as [Hk Ht]. cbn. apply registry_wf_with_member; [done| |done].
  destruct (Hf m) as [-> ->]. done.
Qed.

Lemma registry_wf_step r r' : step r r' -> registry_wf r -> registry_wf r'.
Proof.
  intros [c q Hc] Hwf. destruct c as [fresh now name config|now id to|now id|now t u role|now t u|now t u role];
    cbn [run_call].
  - unfold create. destruct (validate config) as [[]|] eqn:Ev; [|done]. cbn.
    destruct (tenants q !! fresh) eqn:E; [done|]. by apply registry_wf_with_tenant.
  - unfold transition. destruct (tenants q !! id) as [t|] eqn:E; [|done].
    destruct (validate_transition (tenant_status t) to); [|done].
    apply registry_wf_with_tenant; [done|exact (rw_id _ Hwf id t E)|exact (rw_config _ Hwf id t E)|].
    cbn. intros ->. done.
  - unfold delete. destruct (tenants q !! id) as [t|] eqn:E; [|done].
    destruct (validate_transition (tenant_status t) Deleted); [|done].
    apply registry_wf_with_tenant; [done|exact (rw_id _ Hwf id t E)|exact (rw_config _ Hwf id t E)|done].
  - unfold add_member. destruct (require_active q t) as [[]|] eqn:Er; [|done].
    apply require_active_ok in Er as (x & Hx & _).
    destruct (members q !! (t, u)) as [m|]; [case_bool_decide; [|done]|]; cbn;
      apply registry_wf_with_member; cbn; eauto.
  - by apply registry_wf_update_member.
  - by apply registry_wf_update_member.
Qed.

Lemma run_call_deleted c r id t :
  public c = true -> tenants r !! id = Some t -> tenant_status t = Deleted ->
  tenants (run_call c r) !! id = Some t /\
  (forall user, members (run_call c r) !! (id, user) = members r !! (id, user)).
Proof.
  intros Hc Ht Hd.
  assert (Hmem : forall user f tenant, tenants (update_member tenant user f r).1 !! id = Some t /\
            (forall u, members (update_member tenant user f r).1 !! (id, u) = members r !! (id, u))).
  { intros user f tenant. destruct (update_member_cases tenant user f r) as [[e ->]|(m & Hm & _ & Hact & ->)]; [done|].
    cbn. split; [done|]. intros u. apply lookup_insert_ne. intros [= -> ->].
    apply require_active_ok in Hact as (x & Hx & Ha). congruence. }
  destruct c as [fresh now name config|now i to|now i|now tn u role|now tn u|now tn u role]; cbn [run_call].
  - unfold create. destruct (validate config); [|done]. cbn.
    destruct (tenants r !! fresh) eqn:E; [done|]. cbn. rewrite lookup_insert_ne by congruence. done.
  - unfold transition. destruct (tenants r !! i) as [x|] eqn:E; [|done].
    destruct (validate_transition (tenant_status x) to) eqn:Ev; [|done]. cbn. split; [|done].
    rewrite lookup_insert_ne; [done|]. intros ->. rewrite Ht in E. simplify_eq. rewrite Hd in Ev.
    by destruct to.
  - unfold delete. destruct (tenants r !! i) as [x|] eqn:E; [|done].
    destruct (validate_transition (tenant_status x) Deleted) eqn:Ev; [|done]. cbn. split; [|done].
    rewrite lookup_insert_ne; [done|]. intros ->. rewrite Ht in E. simplify_eq. by rewrite Hd in Ev.
  - unfold add_member. destruct (require_active r tn) as [[]|] eqn:Er; [|done].
    apply require_active_ok in Er as (x & Hx & Ha).
    assert (tn <> id) by congruence.
    destruct (members r !! (tn, u)) as [m|]; [case_bool_decide; [|done]|]; cbn;
      (split; [done|]; intros user; apply lookup_insert_ne; congruence).
  - apply Hmem.
  - apply Hmem.
Qed.

(** Deletion is final and forgets.  In every reachable registry a deleted
    tenant's root key is destroyed and every configuration passed validation;
    and from the moment a tenant is deleted, no later call changes its row or
    any of its membership rows, and every further transition, deletion or
    membership call on it is refused. *)
Theorem deleted_is_final r r' id t :
  rtc step new r -> rtc step r r' -> tenants r !! id = Some t -> tenant_status t = Deleted ->
  registry_wf r' /\
  tenants r' !! id = Some t /\ destroyed (root_key (tenant_config t)) = true /\
  (forall user, members r' !! (id, user) = members r !! (id, user)) /\
  (forall now to, transition now id to r' = (r', Err (InvalidLifecycleTransition Deleted to))) /\
  (forall now, delete now id r' = (r', Err (InvalidLifecycleTransition Deleted Deleted))) /\
  (forall now user role, add_member now id user role r'
                         = (r', Err (InvalidLifecycleTransition Deleted Active))) /\
  (forall now user, remove_member now id user r' = (r', Err (InvalidLifecycleTransition Deleted Active))).
Proof.
  intros Hr Hrun Ht Hd.
  assert (Hwf : registry_wf r).
  { clear -Hr. pose proof registry_wf_new as H. revert H. induction Hr; eauto using registry_wf_step. }
  assert (Hkey := rw_key _ Hwf id t Ht Hd).
  assert (Hfin : registry_wf r' /\ tenants r' !! id = Some t /\
            forall user, members r' !! (id, user) = members r !! (id, user)).
  { clear Hr. revert Hwf Ht. induction Hrun as [r|r r1 r2 Hs _ IH]; intros Hwf Ht; [done|].
    pose proof (registry_wf_step _ _ Hs Hwf) as Hwf1. destruct Hs as [c q Hc].
    destruct (run_call_deleted c q id t Hc Ht Hd) as [Ht1 Hm1].
    destruct (IH Hwf1 Ht1) as (? & ? & Hm2). split_and!; [done|done|].
    intros user. by rewrite Hm2, Hm1. }
  destruct Hfin as (Hwf' & Ht' & Hm').
  assert (Hna : require_active r' id = Err (InvalidLifecycleTransition Deleted Active)).
  { unfold require_active. rewrite Ht', Hd. done. }
  split_and!; [done|done|done|done| | | |].
  - intros now to. unfold transition. rewrite Ht', Hd. by destruct to.
  - intros now. unfold delete. by rewrite Ht', Hd.
  - intros now user role. unfold add_member. by rewrite Hna.
  - intros now user. unfold remove_member, update_member. by rewrite Hna.
Qed.

(** Membership rows.  On an active tenant: a member is provisioned unless
    a row that is not [Removed] exists, and the new row is active with the
    given role; removing keeps the row, marked removed with the time, and so a
    second removal or a role change is refused; a role change alters the role
    and the time only.  On any other tenant all three are refused; a refused
    call changes nothing, and no call touches another user's row. *)
Theorem membership_spec now r tenant user role :
  (require_active r tenant <> Ok tt ->
     exists e, require_active r tenant = Err e /\ add_member now tenant user role r = (r, Err e)
       /\ remove_member now tenant user r = (r, Err e) /\ update_role now tenant user role r = (r, Err e)) /\
  (require_active r tenant = Ok tt ->
     match members r !! (tenant, user) with
     | None =>
         (add_member now tenant user role r).2 = Ok (new_member now tenant user role) /\
         get_member (add_member now tenant user role r).1 tenant user = Ok (new_member now tenant user role) /\
         remove_member now tenant user r = (r, Err (MemberNotProvisioned user)) /\
         update_role now tenant user role r = (r, Err (MemberNotProvisioned user))
     | Some m =>
         if bool_decide (m_status m = MRemoved) then
           get_member (add_member now tenant user role r).1 tenant user = Ok (new_member now tenant user role) /\
           remove_member now tenant user r = (r, Err (MemberAlreadyRemoved user)) /\
           update_role now tenant user role r = (r, Err (MemberAlreadyRemoved user))
         else
           add_member now tenant user role r = (r, Err (MemberAlreadyProvisioned user)) /\
           get_member (remove_member now tenant user r).1 tenant user
             = Ok (mk_member (m_tenant_id m) (m_user_id m) (m_role m) MRemoved (m_provisioned_at m) now) /\
           remove_member now tenant user (remove_member now tenant user r).1
             = ((remove_member now tenant user r).1, Err (MemberAlreadyRemoved user)) /\
           get_member (update_role now tenant user role r).1 tenant user
             = Ok (mk_member (m_tenant_id m) (m_user_id m) role (m_status m) (m_provisioned_at m) now)
     end) /\
  (forall t' u', (t', u') <> (tenant, user) ->
     members (add_member now tenant user role r).1 !! (t', u') = members r !! (t', u') /\
     members (remove_member now tenant user r).1 !! (t', u') = members r !! (t', u') /\
     members (update_role now tenant user role r).1 !! (t', u') = members r !! (t', u')).
Proof.
  unfold add_member, remove_member, update_role, update_member, get_member.
  split_and!.
  - intros Hna. destruct (require_active r tenant) as [[]|e]; [done|]. by exists e.
  - intros Ha. rewrite Ha. destruct (members r !! (tenant, user)) as [m|] eqn:Em.
    + case_bool_decide as Hs.
      * split_and!; [|done|done]. cbn. by rewrite lookup_insert_eq.
      * split_and!; [done| | |]; cbn; rewrite ?lookup_insert_eq; [done| |done].
        assert (require_active (with_member r (tenant, user)
                  (mk_member (m_tenant_id m) (m_user_id m) (m_role m) MRemoved (m_provisioned_at m) now)) tenant
                = Ok tt) as -> by exact Ha.
        done.
    + split_and!; [done| |done|done]. cbn. by rewrite lookup_insert_eq.
  - intros t' u' Hne. destruct (require_active r tenant) as [[]|]; [|done].
    destruct (members r !! (tenant, user)) as [m|]; [case_bool_decide|]; split_and!; cbn;
      rewrite ?lookup_insert_ne by congruence; done.
Qed.

(** ** A concrete run *)

Definition after_delete : TenantRegistry :=
  run_call (Delete 2 10) (run_call (Create 10 1 "acme" (new_config 5)) new).

Lemma after_delete_run : rtc step new after_delete.
Proof.
  eapply rtc_l; [apply (step_call (Create 10 1 "acme" (new_config 5))); reflexivity|].
  eapply rtc_l; [apply (step_call (Delete 2 10)); reflexivity|]. apply rtc_refl.
Defined.

Lemma deleted_is_final_witness :
  exists t, tenants after_delete !! 10%N = Some t /\ destroyed (root_key (tenant_config t)) = true.
Proof.
  eexists. split; [vm_compute; reflexivity|].
  eapply (deleted_is_final after_delete after_delete 10 _ after_delete_run);
    [apply rtc_refl|vm_compute; reflexivity|reflexivity].
Defined.

Lemma membership_spec_witness :
  add_member 3 10 7 Member after_delete
  = (after_delete, Err (InvalidLifecycleTransition Deleted Active)).
Proof.
  destruct (membership_spec 3 after_delete 10 7 Member) as [H _].
  destruct H as (e & He & Ha & _); [vm_compute; discriminate|].
  rewrite Ha. vm_compute in He. congruence.
Defined.
