(* ===== verification/PersistentTenant.v ===== *)
(** * The persistent tenant registry ([tenant_service/src/persist.rs])

    A [TenantRegistry] mirrored into three SQLite tables: sealed tenants,
    plaintext membership rows and denormalised configuration.  Each call changes
    memory first and the disk second, so a fault leaves memory ahead: the
    theorems say by how much, and what a restart makes of it. *)

From stdpp Require Import sorting.
From S2P Require Import Prelude Namespace Tenant.

Section Persist.
Context {Key Nonce Bytes : Type} {AE : Aead Key Nonce Bytes} {ST : Serde Bytes Tenant}.
(** [serde_json::to_string] of the two halves of a configuration. *)
Context {SC : Serde string StorageConfig} {SY : Serde string SynthesisConfig}.
(** Which millisecond counts [DateTime::from_timestamp_millis] accepts. *)
Context {millis_in_range : Z -> bool}.
Context {HO : HashOrder}.

(** ** The tables of [SCHEMA_SQL], less their primary keys *)

Record TenantRow : Type := mk_tenant_row {
  tr_name : string;
  tr_status : string;
  tr_created_at : Z;
  tr_updated_at : Z;
  tr_deleted_at : option Z;
  tr_root_key_ref : list N;
  tr_nonce : Nonce;
  tr_payload : Bytes
}.
Record MemberRow : Type := mk_member_row {
  mr_role : string;
  mr_status : string;
  mr_created_at : Z;
  mr_updated_at : Z
}.
Record ConfigRow : Type := mk_config_row {
  cr_key_ref : list N;
  cr_storage : string;
  cr_synthesis : string
}.
Record Database : Type := mk_db {
  tenant_rows : gmap uuid TenantRow;
  member_rows : gmap (uuid * uuid) MemberRow;
  config_rows : gmap uuid ConfigRow;
  user_version : Z
}.
Definition empty_db : Database := mk_db ∅ ∅ ∅ 0.
Definition SCHEMA_VERSION : Z := 1.

(** What one call gets from outside: the error of its n-th SQL statement (BEGIN
    and COMMIT included), a nonce and the clock. *)
Record Io : Type := mk_io { io_error : nat -> option string; io_nonce : Nonce; io_now : instant }.

(** [struct PersistentTenantRegistry]. *)
Record PersistentTenantRegistry : Type := mk_persistent {
  registry : TenantRegistry;
  conn : Database;
  payload_key : Key
}.
Definition with_registry (p : PersistentTenantRegistry) (r : TenantRegistry) : PersistentTenantRegistry :=
  mk_persistent r (conn p) (payload_key p).
Definition with_conn (p : PersistentTenantRegistry) (db : Database) : PersistentTenantRegistry :=
  mk_persistent (registry p) db (payload_key p).

Definition timestamp_millis (t : instant) : Z := t / 1000000.

(** [tenant_aad]. *)
Definition tenant_aad (id : uuid) : list N := string_bytes "tenant_row:v1:" ++ be_bytes 16 id.

(** [persist_tenant_in]: on a conflict [created_at] and [deleted_at] keep
    their stored values. *)
Definition persist_tenant_in (err : option string) (nonce : Nonce) (k : Key) (t : Tenant) (db : Database) :
    result Database TenantError :=
  match to_vec t with
  | None => Err (Persistence "tenant payload could not be serialised")
  | Some payload =>
      let id := tenant_id t in
      match encrypt_aead k nonce payload (tenant_aad id) with
      | None => Err (Crypto "aead")
      | Some ct =>
          let root_key_bytes := be_bytes 16 (handle (root_key (tenant_config t))) in
          let row := {| tr_name := tenant_name t; tr_status := status_str (tenant_status t);
                        tr_created_at := match tenant_rows db !! id with
                                         | Some old => tr_created_at old
                                         | None => timestamp_millis (tenant_created_at t)
                                         end;
                        tr_updated_at := timestamp_millis (tenant_updated_at t);
                        tr_deleted_at := match tenant_rows db !! id with
                                         | Some old => tr_deleted_at old
                                         | None => None
                                         end;
                        tr_root_key_ref := root_key_bytes; tr_nonce := nonce; tr_payload := ct |} in
          match err with
          | Some msg => Err (Sqlite msg)
          | None => Ok (mk_db (<[id := row]> (tenant_rows db)) (member_rows db) (config_rows db) (user_version db))
          end
      end
  end.

(** [persist_config_in]. *)
Definition persist_config_in (err : option string) (id : uuid) (c : TenantConfig) (db : Database) :
    result Database TenantError :=
  match to_vec (Bytes := string) (storage c) with
  | None => Err (Persistence "storage config could not be serialised")
  | Some storage_json =>
      match to_vec (Bytes := string) (synthesis c) with
      | None => Err (Persistence "synthesis config could not be serialised")
      | Some synthesis_json =>
          let row := {| cr_key_ref := be_bytes 16 (handle (root_key c)); cr_storage := storage_json;
                        cr_synthesis := synthesis_json |} in
          match err with
          | Some msg => Err (Sqlite msg)
          | None => Ok (mk_db (tenant_rows db) (member_rows db) (<[id := row]> (config_rows db)) (user_version db))
          end
      end
  end.

(** [persist_tenant], [persist_config], [persist_member] on the connection; [n]
    is the statement's number in the call. *)
Definition persist_tenant (io : Io) (n : nat) (t : Tenant) : eff PersistentTenantRegistry TenantError unit := fun p =>
  match persist_tenant_in (io_error io n) (io_nonce io) (payload_key p) t (conn p) with
  | Err e => (p, Err e)
  | Ok db => (with_conn p db, Ok tt)
  end.
Definition persist_config (io : Io) (n : nat) (id : uuid) (c : TenantConfig) :
    eff PersistentTenantRegistry TenantError unit := fun p =>
  match persist_config_in (io_error io n) id c (conn p) with
  | Err e => (p, Err e)
  | Ok db => (with_conn p db, Ok tt)
  end.
Definition persist_member (io : Io) (n : nat) (m : TenantMember) :
    eff PersistentTenantRegistry TenantError unit := fun p =>
  let key := (m_tenant_id m, m_user_id m) in
  let row := {| mr_role := relation_str (m_role m); mr_status := member_status_str (m_status m);
                mr_created_at := match member_rows (conn p) !! key with
                                 | Some old => mr_created_at old
                                 | None => timestamp_millis (m_provisioned_at m)
                                 end;
                mr_updated_at := timestamp_millis (m_updated_at m) |} in
  match io_error io n with
  | Some msg => (p, Err (Sqlite msg))
  | None =>
      let db := conn p in
      (with_conn p (mk_db (tenant_rows db) (<[key := row]> (member_rows db)) (config_rows db) (user_version db)),
       Ok tt)
  end.

(** ** Operations *)

(** [create]; [fresh] and [now] are what [TenantRegistry::create] draws. *)
Definition create (io : Io) (fresh : uuid) (now : instant) (name : string) (config : TenantConfig) :
    eff PersistentTenantRegistry TenantError uuid := fun p =>
  match Tenant.create fresh now name config (registry p) with
  | (r, Err e) => (with_registry p r, Err e)
  | (r, Ok id) =>
      let p := with_registry p r in
      match get (registry p) id with
      | Err e => (p, Err e)
      | Ok tenant =>
          match persist_tenant io 0 tenant p with
          | (p, Err e) => (p, Err e)
          | (p, Ok _) =>
              match persist_config io 1 id (tenant_config tenant) p with
              | (p, Err e) => (p, Err e)
              | (p, Ok _) => (p, Ok id)
              end
          end
      end
  end.

(** [suspend] and [activate]: the registry's call, then the tenant's row. *)
Definition mirror_tenant (io : Io) (id : uuid) (m : eff TenantRegistry TenantError unit) :
    eff PersistentTenantRegistry TenantError unit := fun p =>
  match m (registry p) with
  | (r, Err e) => (with_registry p r, Err e)
  | (r, Ok _) =>
      let p := with_registry p r in
      match get (registry p) id with
      | Err e => (p, Err e)
      | Ok tenant => persist_tenant io 0 tenant p
      end
  end.
Definition suspend (io : Io) (now : instant) (id : uuid) := mirror_tenant io id (Tenant.suspend now id).
Definition activate (io : Io) (now : instant) (id : uuid) := mirror_tenant io id (Tenant.activate now id).

(** [UPDATE tenants SET deleted_at = ?1 WHERE id = ?2]. *)
Definition stamp_deleted_at (err : option string) (ms : Z) (id : uuid) (db : Database) :
    result Database TenantError :=
  match err with
  | Some msg => Err (Sqlite msg)
  | None =>
      let stamp row := {| tr_name := tr_name row; tr_status := tr_status row;
                          tr_created_at := tr_created_at row; tr_updated_at := tr_updated_at row;
                          tr_deleted_at := Some ms; tr_root_key_ref := tr_root_key_ref row;
                          tr_nonce := tr_nonce row; tr_payload := tr_payload row |} in
      Ok (mk_db (alter stamp id (tenant_rows db)) (member_rows db) (config_rows db) (user_version db))
  end.

(** The transaction of [delete]: dropping it before the COMMIT rolls back. *)
Definition delete_transaction (io : Io) (k : Key) (id : uuid) (t : Tenant) (db : Database) :
    result Database TenantError :=
  let sql n := match io_error io n with Some msg => Err (Sqlite msg) | None => Ok tt end in
  let? _ := sql 0%nat in
  let? db := persist_tenant_in (io_error io 1) (io_nonce io) k t db in
  let? db := persist_config_in (io_error io 2) id (tenant_config t) db in
  let? db := stamp_deleted_at (io_error io 3) (timestamp_millis (io_now io)) id db in
  let? _ := sql 4%nat in
  Ok db.

(** [delete]. *)
Definition delete (io : Io) (now : instant) (id : uuid) : eff PersistentTenantRegistry TenantError unit := fun p =>
  match Tenant.delete now id (registry p) with
  | (r, Err e) => (with_registry p r, Err e)
  | (r, Ok _) =>
      let p := with_registry p r in
      match get (registry p) id with
      | Err e => (p, Err e)
      | Ok tenant =>
          match delete_transaction io (payload_key p) id tenant (conn p) with
          | Err e => (p, Err e)
          | Ok db => (with_conn p db, Ok tt)
          end
      end
  end.

(** [add_member]. *)
Definition add_member (io : Io) (now : instant) (tenant user : uuid) (role : Relation) :
    eff PersistentTenantRegistry TenantError TenantMember := fun p =>
  match Tenant.add_member now tenant user role (registry p) with
  | (r, Err e) => (with_registry p r, Err e)
  | (r, Ok member) =>
      match persist_member io 0 member (with_registry p r) with
      | (p, Err e) => (p, Err e)
      | (p, Ok _) => (p, Ok member)
      end
  end.

(** [remove_member] and [update_role]: the registry's call, then the member's
    row. *)
Definition mirror_member (io : Io) (tenant user : uuid) (m : eff TenantRegistry TenantError unit) :
    eff PersistentTenantRegistry TenantError unit := fun p =>
  match m (registry p) with
  | (r, Err e) => (with_registry p r, Err e)
  | (r, Ok _) =>
      let p := with_registry p r in
      match get_member (registry p) tenant user with
      | Err e => (p, Err e)
      | Ok member => persist_member io 0 member p
      end
  end.
Definition remove_member (io : Io) (now : instant) (tenant user : uuid) :=
  mirror_member io tenant user (Tenant.remove_member now tenant user).
Definition update_role (io : Io) (now : instant) (tenant user : uuid) (role : Relation) :=
  mirror_member io tenant user (Tenant.update_role now tenant user role).

(** [persisted_tenant_count], [persisted_member_count]. *)
Definition persisted_tenant_count (io : Io) (p : PersistentTenantRegistry) : result nat TenantError :=
  match io_error io 0 with Some msg => Err (Sqlite msg) | None => Ok (size (tenant_rows (conn p))) end.
Definition persisted_member_count (io : Io) (p : PersistentTenantRegistry) : result nat TenantError :=
  match io_error io 0 with Some msg => Err (Sqlite msg) | None => Ok (size (member_rows (conn p))) end.

(** ** Loading *)

(** [ms_to_dt], [parse_relation], [parse_member_status]. *)
Definition ms_to_dt (ms : Z) : result instant TenantError :=
  if millis_in_range ms then Ok (ms * 1000000)%Z
  else Err (Persistence "timestamp column out of range for DateTime<Utc>").
Definition parse_relation (tag : string) : result Relation TenantError :=
  if String.eqb tag "owner" then Ok Owner else if String.eqb tag "admin" then Ok Admin
  else if String.eqb tag "editor" then Ok Editor else if String.eqb tag "member" then Ok Member
  else if String.eqb tag "viewer" then Ok Viewer
  else if String.eqb tag "synthesizer" then Ok Synthesizer
  else if String.eqb tag "proposer" then Ok Proposer
  else Err (Persistence "unknown relation tag on disk").
Definition parse_member_status (tag : string) : result TenantMemberStatus TenantError :=
  if String.eqb tag "active" then Ok MActive else if String.eqb tag "suspended" then Ok MSuspended
  else if String.eqb tag "removed" then Ok MRemoved
  else Err (Persistence "unknown member-status tag on disk").

(** Decrypting, decoding and checking one row of [tenants]. *)
Definition open_tenant (k : Key) (row : uuid * TenantRow) : result Tenant TenantError :=
  let '(id, r) := row in
  match decrypt_aead k (tr_nonce r) (tr_payload r) (tenant_aad id) with
  | None => Err (Crypto "aead")
  | Some pt =>
      match from_slice pt with
      | None => Err (Persistence "tenant payload is not valid JSON")
      | Some t =>
          if negb (tenant_id t =? id)%N then Err (Persistence "tenant id does not match its row") else Ok t
      end
  end.

(** One row of [tenant_members]. *)
Definition open_member (row : (uuid * uuid) * MemberRow) : result TenantMember TenantError :=
  let '((tenant, user), r) := row in
  let? role := parse_relation (mr_role r) in
  let? status := parse_member_status (mr_status r) in
  let? created_at := ms_to_dt (mr_created_at r) in
  let? updated_at := ms_to_dt (mr_updated_at r) in
  Ok {| m_tenant_id := tenant; m_user_id := user; m_role := role; m_status := status;
        m_provisioned_at := created_at; m_updated_at := updated_at |}.

(** [for x in rows { out.push(f(x)?) }]. *)
Fixpoint collect {A B} (f : A -> result B TenantError) (l : list A) : result (list B) TenantError :=
  match l with
  | [] => Ok []
  | x :: l => let? y := f x in let? ys := collect f l in Ok (y :: ys)
  end.

(** [ORDER BY created_at ASC] and [ORDER BY tenant_id ASC, created_at ASC];
    SQLite may return ties in any order. *)
Definition tenant_row_le (a b : uuid * TenantRow) : Prop := (tr_created_at a.2 <= tr_created_at b.2)%Z.
Definition member_row_le (a b : (uuid * uuid) * MemberRow) : Prop :=
  (a.1.1 < b.1.1)%N \/ (a.1.1 = b.1.1 /\ (mr_created_at a.2 <= mr_created_at b.2)%Z).
#[export] Instance tenant_row_le_dec : RelDecision tenant_row_le.
Proof. intros a b. unfold tenant_row_le. apply _. Defined.
#[export] Instance member_row_le_dec : RelDecision member_row_le.
Proof. intros a b. unfold member_row_le. apply _. Defined.

(** [load_tenants], [load_members]. *)
Definition load_tenants (io : Io) (p : PersistentTenantRegistry) : result (list Tenant) TenantError :=
  match io_error io 0 with
  | Some msg => Err (Sqlite msg)
  | None => collect (open_tenant (payload_key p))
              (merge_sort tenant_row_le (hash_order (map_to_list (tenant_rows (conn p)))))
  end.
Definition load_members (io : Io) (p : PersistentTenantRegistry) : result (list TenantMember) TenantError :=
  match io_error io 1 with
  | Some msg => Err (Sqlite msg)
  | None => collect open_member (merge_sort member_row_le (hash_order (map_to_list (member_rows (conn p)))))
  end.

(** The two insertion loops of [load_all]. *)
Fixpoint insert_all {A} (f : A -> eff TenantRegistry TenantError unit) (l : list A) :
    eff TenantRegistry TenantError unit := fun r =>
  match l with
  | [] => (r, Ok tt)
  | x :: l => match f x r with (r, Err e) => (r, Err e) | (r, Ok _) => insert_all f l r end
  end.

(** [load_all]. *)
Definition load_all (io : Io) : eff PersistentTenantRegistry TenantError unit := fun p =>
  match load_tenants io p with
  | Err e => (p, Err e)
  | Ok tenants =>
      match load_members io p with
      | Err e => (p, Err e)
      | Ok members =>
          match insert_all insert_persisted tenants Tenant.new with
          | (r, Err e) => (with_registry p r, Err e)
          | (r, Ok _) =>
              let '(r, res) := insert_all insert_persisted_member members r in (with_registry p r, res)
          end
      end
  end.

(** [open] on an unlocked database, with the key the derivation returned. *)
Definition open (io : Io) (db : Database) (key : result Key TenantError) :
    result PersistentTenantRegistry TenantError :=
  if negb (user_version db =? 0)%Z && negb (user_version db =? SCHEMA_VERSION)%Z then
    Err (Persistence "schema version mismatch — refusing to open")
  else
    let db := mk_db (tenant_rows db) (member_rows db) (config_rows db) SCHEMA_VERSION in
    let? k := key in
    match load_all io (mk_persistent Tenant.new db k) with
    | (p, Ok _) => Ok p
    | (_, Err e) => Err e
    end.

End Persist.

(** ** Specification *)

(** What the registry alone answers to a call. *)
Definition call_result (c : call) (r : TenantRegistry) : result unit TenantError :=
  match c with
  | Create fresh now name config => result_map (fun _ => tt) (Tenant.create fresh now name config r).2
  | Transition now id to => (transition now id to r).2
  | Delete now id => (Tenant.delete now id r).2
  | AddMember now t u role => result_map (fun _ => tt) (Tenant.add_member now t u role r).2
  | RemoveMember now t u => (Tenant.remove_member now t u r).2
  | UpdateRole now t u role => (Tenant.update_role now t u role r).2
  end.

(** Errors of the disk, the codec and the cipher. *)
Definition fault (e : TenantError) : Prop :=
  match e with Sqlite _ | Crypto _ | Persistence _ => True | _ => False end.

Section Mirror.
Context {Key Nonce Bytes : Type} {AE : Aead Key Nonce Bytes} {ST : Serde Bytes Tenant}.
Context {SC : Serde string StorageConfig} {SY : Serde string SynthesisConfig}.
Context {millis_in_range : Z -> bool}.
Let PTR : Type := PersistentTenantRegistry (Key := Key) (Nonce := Nonce) (Bytes := Bytes).
Let DB : Type := Database (Nonce := Nonce) (Bytes := Bytes).
Implicit Types (p : PTR) (io : Io (Nonce := Nonce)) (db : DB) (k : Key) (t : Tenant) (m : TenantMember).

Definition exec io (c : call) : eff PTR TenantError unit := fun p =>
  match c with
  | Create fresh now name config =>
      let '(p, r) := create io fresh now name config p in (p, result_map (fun _ => tt) r)
  | Transition now id Suspended => suspend io now id p
  | Transition now id Active => activate io now id p
  | Transition _ _ Deleted => (p, Ok tt)
  | Delete now id => delete io now id p
  | AddMember now t u role => let '(p, r) := add_member io now t u role p in (p, result_map (fun _ => tt) r)
  | RemoveMember now t u => remove_member io now t u p
  | UpdateRole now t u role => update_role io now t u role p
  end.

(** The instant the registry stamps. *)
Definition call_now (c : call) : instant :=
  match c with
  | Create _ now _ _ | Transition now _ _ | Delete now _ | AddMember now _ _ _ | RemoveMember now _ _
  | UpdateRole now _ _ _ => now
  end.

(** A tenant's row opens to it, and its columns repeat it. *)
Definition tenant_columns k (id : uuid) t (row : TenantRow (Nonce := Nonce) (Bytes := Bytes)) : Prop :=
  open_tenant k (id, row) = Ok t /\
  tr_name row = tenant_name t /\ tr_status row = status_str (tenant_status t) /\
  tr_updated_at row = timestamp_millis (tenant_updated_at t) /\
  tr_root_key_ref row = be_bytes 16 (handle (root_key (tenant_config t))).
Definition tenant_row_of k (id : uuid) t (row : TenantRow (Nonce := Nonce) (Bytes := Bytes)) : Prop :=
  tenant_columns k id t row /\ (is_Some (tr_deleted_at row) <-> tenant_status t = Deleted).

(** A member's row, up to the instant it was first provisioned. *)
Definition member_row_of (key : uuid * uuid) m (row : MemberRow) : Prop :=
  mr_role row = relation_str (m_role m) /\ mr_status row = member_status_str (m_status m) /\
  mr_updated_at row = timestamp_millis (m_updated_at m) /\
  millis_in_range (mr_created_at row) = true /\ millis_in_range (mr_updated_at row) = true.

(** The denormalised configuration of a tenant. *)
Definition config_row_of (id : uuid) t (row : ConfigRow) : Prop :=
  cr_key_ref row = be_bytes 16 (handle (root_key (tenant_config t))) /\
  to_vec (storage (tenant_config t)) = Some (cr_storage row) /\
  to_vec (synthesis (tenant_config t)) = Some (cr_synthesis row).

(** Disk and memory agree. *)
Record in_sync p : Prop := {
  sy_wf : registry_wf (registry p);
  sy_tenants : map_Forall2 (tenant_row_of (payload_key p)) (tenants (registry p)) (tenant_rows (conn p));
  sy_members : map_Forall2 member_row_of (members (registry p)) (member_rows (conn p));
  sy_configs : map_Forall2 config_row_of (tenants (registry p)) (config_rows (conn p));
  sy_version : user_version (conn p) = SCHEMA_VERSION
}.

(** ** The writes *)

Section Codec.
Context (Hcodec : forall t, serde_roundtrips (Bytes := Bytes) t).

(** [persist_tenant_in] writes one row that opens to the tenant and keeps the
    deletion stamp, or refuses with a fault. *)
Lemma persist_tenant_in_cases err nonce k t db :
  (exists e, persist_tenant_in err nonce k t db = Err e /\ fault e) \/
  (exists row, persist_tenant_in err nonce k t db
       = Ok (mk_db (<[tenant_id t := row]> (tenant_rows db)) (member_rows db) (config_rows db) (user_version db)) /\
     tr_deleted_at row = (match tenant_rows db !! tenant_id t with Some old => tr_deleted_at old | None => None end) /\
     tenant_columns k (tenant_id t) t row).
Proof using Hcodec.
  unfold persist_tenant_in. destruct (to_vec t) as [pt|] eqn:Ev; [|left; by eexists].
  cbv zeta. destruct (encrypt_aead _ _ _ _) as [ct|] eqn:Ee; [|left; by eexists].
  destruct err as [msg|]; [left; by eexists|]. right. eexists. split_and!; [reflexivity|reflexivity|].
  split; [|by split_and!]. cbn [open_tenant tr_nonce tr_payload].
  rewrite (decrypt_encrypt _ _ _ _ _ Ee), (Hcodec t pt Ev). by rewrite N.eqb_refl.
Qed.

Lemma persist_config_in_cases err id c db :
  (exists e, persist_config_in err id c db = Err e /\ fault e) \/
  (exists row, persist_config_in err id c db
       = Ok (mk_db (tenant_rows db) (member_rows db) (<[id := row]> (config_rows db)) (user_version db)) /\
     forall t, tenant_config t = c -> config_row_of id t row).
Proof.
  unfold persist_config_in. destruct (to_vec (storage c)) as [sc|] eqn:Es; [|left; by eexists].
  destruct (to_vec (synthesis c)) as [sy|] eqn:Ey; [|left; by eexists].
  destruct err as [msg|]; [left; by eexists|]. right. eexists. split; [reflexivity|].
  intros t <-. by unfold config_row_of.
Qed.

(** The transaction of [delete] commits all three writes or none. *)
Lemma delete_transaction_cases io k id t db :
  id = tenant_id t -> tenant_status t = Deleted ->
  (exists e, delete_transaction io k id t db = Err e /\ fault e) \/
  (exists trow crow, delete_transaction io k id t db
       = Ok (mk_db (<[id := trow]> (tenant_rows db)) (member_rows db) (<[id := crow]> (config_rows db))
                   (user_version db)) /\
     tenant_row_of k id t trow /\ config_row_of id t crow).
Proof using Hcodec.
  intros Hid Hdel. unfold delete_transaction.
  destruct (io_error io 0) as [m0|]; [left; by eexists|]. cbn [try_result].
  destruct (persist_tenant_in_cases (io_error io 1) (io_nonce io) k t db) as [(e & -> & He)|(row & -> & Hrd & Hrow)];
    [left; by eexists|]. cbn [try_result].
  match goal with |- context [persist_config_in ?err ?i ?c ?d] =>
    destruct (persist_config_in_cases err i c d) as [(e & -> & He)|(crow & -> & Hcrow)] end;
    [left; by eexists|]. cbn [try_result].
  unfold stamp_deleted_at. destruct (io_error io 3) as [m3|]; [left; by eexists|]. cbn [try_result].
  destruct (io_error io 4) as [m4|]; [left; by eexists|]. right. cbn [try_result tenant_rows].
  rewrite Hid, alter_insert_eq. eexists _, crow. split; [reflexivity|]. split; [|by apply Hcrow].
  split; [exact Hrow|]. split; [done|]. intros _. by eexists.
Qed.

(** ** The calls *)

Lemma in_sync_with_tenant p id t trow crow :
  in_sync p -> registry_wf (with_tenant (registry p) id t) ->
  tenant_row_of (payload_key p) id t trow -> config_row_of id t crow ->
  in_sync (mk_persistent (with_tenant (registry p) id t)
             (mk_db (<[id := trow]> (tenant_rows (conn p))) (member_rows (conn p))
                    (<[id := crow]> (config_rows (conn p))) (user_version (conn p))) (payload_key p)).
Proof.
  intros [Hwf Ht Hm Hc Hv] Hwf' Htr Hcr. split; cbn; [done| |done| |done].
  - by apply map_Forall2_insert_2.
  - by apply map_Forall2_insert_2.
Qed.

Lemma in_sync_row p id t :
  in_sync p -> tenants (registry p) !! id = Some t ->
  (exists row, tenant_rows (conn p) !! id = Some row /\ tenant_row_of (payload_key p) id t row) /\
  (exists row, config_rows (conn p) !! id = Some row /\ config_row_of id t row).
Proof.
  intros [_ Ht _ Hc _] Hid. split.
  - pose proof (Ht id) as H. rewrite Hid in H. inversion H; eauto.
  - pose proof (Hc id) as H. rewrite Hid in H. inversion H; eauto.
Qed.

(** A status flip keeps the configuration, whose row is already there. *)
Lemma in_sync_flip p id t t' trow :
  in_sync p -> tenants (registry p) !! id = Some t -> tenant_config t' = tenant_config t ->
  registry_wf (with_tenant (registry p) id t') -> tenant_row_of (payload_key p) id t' trow ->
  in_sync (mk_persistent (with_tenant (registry p) id t')
             (mk_db (<[id := trow]> (tenant_rows (conn p))) (member_rows (conn p)) (config_rows (conn p))
                    (user_version (conn p))) (payload_key p)).
Proof.
  intros Hs Hid Hcfg Hwf Hrow. destruct (in_sync_row _ _ _ Hs Hid) as [_ (crow & Hlk & Hcr)].
  rewrite <- (insert_id (config_rows (conn p)) id crow Hlk).
  apply in_sync_with_tenant; [done..|]. unfold config_row_of in *. by rewrite Hcfg.
Qed.

Lemma in_sync_with_member p key m :
  in_sync p -> registry_wf (with_member (registry p) key m) -> (m_tenant_id m, m_user_id m) = key ->
  (members (registry p) !! key = None -> millis_in_range (timestamp_millis (m_provisioned_at m)) = true) ->
  millis_in_range (timestamp_millis (m_updated_at m)) = true ->
  forall io n p' r, persist_member io n m (with_registry p (with_member (registry p) key m)) = (p', r) ->
  registry p' = with_member (registry p) key m /\ payload_key p' = payload_key p /\
  ((r = Ok tt /\ in_sync p') \/ (exists e, r = Err e /\ fault e /\ conn p' = conn p)).
Proof.
  intros [Hwf Ht Hm Hc Hv] Hwf' Hkey Hprov Hupd io n p' r. unfold persist_member. rewrite Hkey.
  destruct (io_error io n) as [msg|]; intros [= <- <-]; (split; [done|]; split; [done|]); [right; by eexists|].
  left. split; [done|]. split; cbn; [done|done| |done|done].
  apply map_Forall2_insert_2; [|done]. unfold member_row_of. cbn. split_and!; [done..| |done].
  pose proof (Hm key) as Hk. destruct (member_rows (conn p) !! key) as [old|].
  - inversion Hk as [x y Hxy|]; subst. apply Hxy.
  - inversion Hk. by apply Hprov.
Qed.

(** The outcomes of a call the registry accepted. *)
Definition half_created (c : call) p p' : Prop :=
  match c with
  | Create fresh _ _ _ => exists row t,
      conn p' = mk_db (<[fresh := row]> (tenant_rows (conn p))) (member_rows (conn p)) (config_rows (conn p))
                      (user_version (conn p)) /\
      tenants (registry p') !! fresh = Some t /\ tenant_columns (payload_key p) fresh t row
  | _ => False
  end.
Definition accepted (c : call) p p' (r : result unit TenantError) : Prop :=
  (r = Ok tt /\ in_sync p') \/
  (exists e, r = Err e /\ fault e /\ (conn p' = conn p \/ half_created c p p')).
Definition call_outcome (c : call) p p' (r : result unit TenantError) : Prop :=
  registry p' = run_call c (registry p) /\ payload_key p' = payload_key p /\
  match call_result c (registry p) with
  | Err e => r = Err e /\ p' = p
  | Ok _ => accepted c p p' r
  end.

Lemma with_registry_same p : with_registry p (registry p) = p.
Proof. by destruct p. Qed.

Lemma create_outcome io fresh now name config p p' r :
  in_sync p -> exec io (Create fresh now name config) p = (p', r) ->
  call_outcome (Create fresh now name config) p p' r.
Proof using Hcodec.
  intros Hs. pose proof (registry_wf_step _ _ (step_call (Create fresh now name config) (registry p) eq_refl)
    (sy_wf _ Hs)) as Hwf. unfold call_outcome. cbn [exec run_call call_result] in *. unfold create, Tenant.create in *.
  destruct (validate config) as [[]|e] eqn:Ev.
  2: { cbn. rewrite with_registry_same. by intros [= <- <-]. }
  cbn [tenant_id new_tenant] in *. destruct (tenants (registry p) !! fresh) as [old|] eqn:Eo.
  { cbn. rewrite with_registry_same. by intros [= <- <-]. }
  cbn [fst snd result_map] in *. unfold get. cbn [registry with_registry tenants with_tenant].
  rewrite lookup_insert_eq. cbn [ok_or]. set (t := new_tenant fresh now name config) in *.
  unfold persist_tenant, persist_config. cbn [payload_key conn with_registry].
  destruct (persist_tenant_in_cases (io_error io 0) (io_nonce io) (payload_key p) t (conn p))
    as [(e & -> & He)|(row & -> & Hrd & Hcol)].
  { intros [= <- <-]. split_and!; [done..|]. right. exists e. auto. }
  cbn [with_conn conn payload_key registry].
  destruct (persist_config_in_cases (io_error io 1) fresh (tenant_config t)
     (mk_db (<[fresh:=row]> (tenant_rows (conn p))) (member_rows (conn p)) (config_rows (conn p))
            (user_version (conn p)))) as [(e & Hx & He)|(crow & Hx & Hcrow)];
  change (tenant_id t) with fresh; rewrite Hx; cbn; intros [= <- <-]; (split; [done|]; split; [done|]).
  - right. exists e. split_and!; [done|done|]. right. exists row, t. split; [done|].
    split; [apply lookup_insert_eq|exact Hcol].
  - left. split; [done|]. apply (in_sync_with_tenant p fresh t row crow); [done|done| |by apply Hcrow].
    split; [exact Hcol|]. rewrite Hrd. change (tenant_id t) with fresh.
    assert (tenant_rows (conn p) !! fresh = None) as ->.
    { pose proof (sy_tenants _ Hs fresh) as H. rewrite Eo in H. by inversion H. }
    split; [intros [x Hx']; done|]. done.
Qed.

Lemma transition_ok now id to r r' :
  transition now id to r = (r', Ok tt) -> exists t, tenants r !! id = Some t /\
    validate_transition (tenant_status t) to = Ok tt /\
    r' = with_tenant r id (with_status t (tenant_config t) to now).
Proof.
  unfold transition. destruct (tenants r !! id) as [t|]; [|done].
  destruct (validate_transition (tenant_status t) to) as [[]|] eqn:Ev; [|done].
  intros [= <-]. by exists t.
Qed.

Lemma transition_refused now id to r r' e : transition now id to r = (r', Err e) -> r' = r.
Proof.
  unfold transition. destruct (tenants r !! id) as [t|]; [|congruence].
  destruct (validate_transition (tenant_status t) to); congruence.
Qed.

Lemma flip_outcome io now id to p p' r :
  to <> Deleted -> in_sync p ->
  mirror_tenant io id (transition now id to) p = (p', r) ->
  call_outcome (Transition now id to) p p' r.
Proof using Hcodec.
  intros Hto Hs. assert (public (Transition now id to) = true) as Hpub by (by destruct to).
  pose proof (registry_wf_step _ _ (step_call _ (registry p) Hpub) (sy_wf _ Hs)) as Hwf.
  unfold mirror_tenant, call_outcome. cbn [run_call call_result] in *.
  destruct (transition now id to (registry p)) as [r1 [[]|e]] eqn:Et; cbn [fst snd] in *.
  2: { apply transition_refused in Et as ->. rewrite with_registry_same. by intros [= <- <-]. }
  destruct (transition_ok _ _ _ _ _ Et) as (t & Hid & Hv & ->).
  unfold get. cbn [registry with_registry tenants with_tenant]. rewrite lookup_insert_eq. cbn [ok_or].
  set (t' := with_status t (tenant_config t) to now) in *. unfold persist_tenant. cbn [payload_key conn with_registry].
  pose proof (rw_id _ (sy_wf _ Hs) _ _ Hid) as Htid. assert (tenant_id t' = id) as Hid' by exact Htid.
  destruct (in_sync_row _ _ _ Hs Hid) as [(old & Hold & Hcols & Hdel) _].
  destruct (persist_tenant_in_cases (io_error io 0) (io_nonce io) (payload_key p) t' (conn p))
    as [(e & Hx & He)|(row & Hx & Hrd & Hcol)]; rewrite ?Hid' in *; rewrite Hx; cbn; intros [= <- <-];
    (split; [done|]; split; [done|]).
  - right. exists e. auto.
  - left. split; [done|]. apply (in_sync_flip p id t t' row); [done..|].
    split; [exact Hcol|]. rewrite Hrd, Hold, Hdel. cbn. split; [intros Hd|done].
    rewrite Hd in Hv. by destruct to.
Qed.

Lemma delete_outcome io now id p p' r :
  in_sync p -> exec io (Delete now id) p = (p', r) -> call_outcome (Delete now id) p p' r.
Proof using Hcodec.
  intros Hs. pose proof (registry_wf_step _ _ (step_call (Delete now id) (registry p) eq_refl)
    (sy_wf _ Hs)) as Hwf. unfold call_outcome. cbn [exec run_call call_result] in *. unfold delete, Tenant.delete in *.
  destruct (tenants (registry p) !! id) as [t|] eqn:Hid.
  2: { cbn. rewrite with_registry_same. by intros [= <- <-]. }
  destruct (validate_transition (tenant_status t) Deleted) as [[]|e] eqn:Hv.
  2: { cbn. rewrite with_registry_same. by intros [= <- <-]. }
  cbn [fst snd] in *. unfold get. cbn [registry with_registry tenants with_tenant].
  rewrite lookup_insert_eq. cbn [ok_or payload_key conn with_registry].
  match goal with |- context [delete_transaction _ _ _ ?t _] => set (t' := t) in * end.
  pose proof (rw_id _ (sy_wf _ Hs) _ _ Hid) as Htid.
  destruct (delete_transaction_cases io (payload_key p) id t' (conn p)) as [(e & -> & He)|(trow & crow & -> & Ht & Hc)];
    [done|done|intros [= <- <-]; (split; [done|]; split; [done|])..].
  - right. exists e. auto.
  - left. split; [done|]. by apply (in_sync_with_tenant p id t' trow crow).
Qed.

Lemma member_outcome c io tenant user f p p' r now :
  in_sync p -> public c = true -> millis_in_range (timestamp_millis now) = true ->
  run_call c (registry p) = (update_member tenant user f (registry p)).1 ->
  call_result c (registry p) = (update_member tenant user f (registry p)).2 ->
  (forall m, m_tenant_id (f m) = m_tenant_id m /\ m_user_id (f m) = m_user_id m /\ m_updated_at (f m) = now) ->
  mirror_member io tenant user (update_member tenant user f) p = (p', r) ->
  call_outcome c p p' r.
Proof using Type.
  intros Hs Hpub Hnow Hrun Hres Hf. unfold call_outcome. rewrite Hrun, Hres. unfold mirror_member.
  pose proof (registry_wf_update_member (registry p) tenant user f (sy_wf _ Hs)
    (fun m => conj (proj1 (Hf m)) (proj1 (proj2 (Hf m))))) as Hwf.
  destruct (update_member tenant user f (registry p)) as [r1 r2] eqn:Eu.
  destruct (update_member_cases tenant user f (registry p)) as [[e He]|(m & Hm & Hne & Ha & He)];
    rewrite He in Eu; injection Eu as <- <-; cbn [fst snd] in *.
  { rewrite with_registry_same. by intros [= <- <-]. }
  unfold get_member. cbn [registry with_registry members with_member]. rewrite lookup_insert_eq. cbn [ok_or].
  destruct (rw_member _ (sy_wf _ Hs) _ _ Hm) as [Hkey _]. destruct (Hf m) as (Hf1 & Hf2 & Hf3).
  intros Hp. assert (Hkey' : (m_tenant_id (f m), m_user_id (f m)) = (tenant, user)) by (by rewrite Hf1, Hf2).
  destruct (in_sync_with_member p (tenant, user) (f m) Hs Hwf Hkey') with (3 := Hp) as (-> & -> & Hcase);
    [by rewrite Hm|by rewrite Hf3|]. split; [done|]. split; [done|].
  destruct Hcase as [?|(e & ? & ? & ?)]; [by left|right; exists e; auto].
Qed.

Lemma add_member_outcome io now tenant user role p p' r :
  in_sync p -> millis_in_range (timestamp_millis now) = true ->
  exec io (AddMember now tenant user role) p = (p', r) -> call_outcome (AddMember now tenant user role) p p' r.
Proof using Type.
  intros Hs Hnow. pose proof (registry_wf_step _ _ (step_call (AddMember now tenant user role) (registry p) eq_refl)
    (sy_wf _ Hs)) as Hwf.
  assert (Hcases : (exists e, Tenant.add_member now tenant user role (registry p) = (registry p, Err e)) \/
    Tenant.add_member now tenant user role (registry p)
    = (with_member (registry p) (tenant, user) (new_member now tenant user role),
       Ok (new_member now tenant user role))).
  { unfold Tenant.add_member. destruct (require_active _ _); [|left; by eexists].
    destruct (members (registry p) !! (tenant, user)); [case_bool_decide; [by right|left; by eexists]|by right]. }
  unfold call_outcome. cbn [exec run_call call_result] in *. unfold add_member.
  destruct Hcases as [[e He]|He]; rewrite He in *; cbn [fst snd result_map] in *.
  { rewrite with_registry_same. by intros [= <- <-]. }
  destruct (persist_member io 0 _ _) as [q rq] eqn:Ep.
  destruct (in_sync_with_member p (tenant, user) (new_member now tenant user role) Hs Hwf eq_refl) with (3 := Ep)
    as (Hr & Hk & Hcase); [done|done|].
  destruct Hcase as [[-> Hq]|(e & -> & He' & Hq)]; intros [= <- <-]; (split; [done|]; split; [done|]).
  - by left.
  - right. exists e. auto.
Qed.

(** C13: what a call on the persistent registry does, whatever fails.  Memory
    always ends as the registry alone would leave it.  A call the registry
    refuses is refused with the same error and touches nothing.  A call it accepts
    either succeeds and leaves disk and memory in agreement, or reports a fault and
    leaves the disk as it was: a deletion, its destroyed key, its configuration
    row and its [deleted_at] stamp reach the disk together or not at all.  The one
    exception is a [create] whose second statement fails, which leaves the
    tenant's row without its configuration row. *)
Theorem persistent_tenant_call io c p p' r :
  in_sync p -> public c = true -> millis_in_range (timestamp_millis (call_now c)) = true ->
  exec io c p = (p', r) -> call_outcome c p p' r.
Proof using Hcodec.
  intros Hs Hpub Hnow Hx.
  destruct c as [fresh now name config|now id to|now id|now t u role|now t u|now t u role]; cbn [call_now] in Hnow.
  - by eapply create_outcome.
  - destruct to; [by eapply (flip_outcome io now id Active)|by eapply (flip_outcome io now id Suspended)|done].
  - by eapply delete_outcome.
  - by eapply add_member_outcome.
  - by eapply (member_outcome _ _ t u) with (now := now).
  - by eapply (member_outcome _ _ t u) with (now := now).
Qed.

(** ** Reopening *)

(** What a restart makes of a membership row: the last update to the
    millisecond, and the instant the member was first provisioned. *)
Definition member_reloaded m m' : Prop :=
  m_tenant_id m' = m_tenant_id m /\ m_user_id m' = m_user_id m /\ m_role m' = m_role m /\
  m_status m' = m_status m /\ m_updated_at m' = (timestamp_millis (m_updated_at m) * 1000000)%Z.

Lemma parse_relation_str r : parse_relation (relation_str r) = Ok r.
Proof. by destruct r. Qed.
Lemma parse_member_status_str s : parse_member_status (member_status_str s) = Ok s.
Proof. by destruct s. Qed.

Lemma open_member_ok key m row :
  member_row_of key m row -> (m_tenant_id m, m_user_id m) = key ->
  exists m', open_member (millis_in_range := millis_in_range) (key, row) = Ok m' /\ member_reloaded m m' /\
    (m_tenant_id m', m_user_id m') = key /\ member_row_of key m' row.
Proof using Type.
  intros (Hr & Hst & Hu & Hc & Hup) <-. unfold open_member, ms_to_dt. rewrite Hr, parse_relation_str.
  cbn [try_result]. rewrite Hst, parse_member_status_str, Hc, Hup. cbn [try_result].
  eexists. split; [reflexivity|]. unfold member_reloaded, member_row_of. cbn.
  rewrite Hr, Hst, Hu. split_and!; try done.
  - unfold timestamp_millis. by rewrite Z.div_mul.
  - by rewrite <- Hu.
Qed.

Lemma collect_ok {A B} (f : A -> result B TenantError) (P : A -> B -> Prop) l :
  (forall x, x ∈ l -> exists y, f x = Ok y /\ P x y) -> exists ys, collect f l = Ok ys /\ Forall2 P l ys.
Proof using Type.
  induction l as [|x l IH]; intros H; cbn [collect]; [by exists []|].
  destruct (H x ltac:(left)) as (y & -> & Hy). destruct IH as (ys & -> & HF); [intros z Hz; apply H; by right|].
  exists (y :: ys). split; [done|by constructor].
Qed.

(** The map of a list that was read off another map row by row. *)
Lemma reload_map {K A B} `{Countable K} (keyf : B -> K) (P : K * A -> B -> Prop) (M : gmap K A) l ys :
  l ≡ₚ map_to_list M -> Forall2 P l ys -> (forall x y, P x y -> keyf y = x.1) ->
  NoDup (keyf <$> ys) /\
  map_Forall2 (fun (i : K) a b => P (i, a) b) M (list_to_map ((fun y => (keyf y, y)) <$> ys) : gmap K B).
Proof using Type.
  intros Hperm HF Hkey.
  assert (Hkeys : keyf <$> ys = l.*1).
  { induction HF as [|x y l' ys' Hxy _ IH] in Hkey |- *; [done|]. cbn. by rewrite (Hkey _ _ Hxy), IH. }
  assert (Hnd : NoDup (keyf <$> ys)) by (rewrite Hkeys, Hperm; apply NoDup_fst_map_to_list).
  assert (Hfst : ((fun y => (keyf y, y)) <$> ys).*1 = keyf <$> ys) by (by rewrite <- list_fmap_compose).
  split; [done|]. intros i0. destruct (M !! i0) as [a|] eqn:Ek.
  - assert (Hin : (i0, a) ∈ l) by (by rewrite Hperm, elem_of_map_to_list).
    apply list_elem_of_lookup in Hin as [i Hi]. destruct (Forall2_lookup_l _ _ _ _ _ HF Hi) as (y & Hy & HP).
    pose proof (Hkey _ _ HP) as Hk. cbn in Hk. subst i0.
    rewrite (elem_of_list_to_map_1 _ (keyf y) y); [by constructor|by rewrite Hfst|].
    apply list_elem_of_fmap. exists y. split; [done|]. by eapply list_elem_of_lookup_2.
  - rewrite not_elem_of_list_to_map_1; [constructor|]. rewrite Hfst, Hkeys, Hperm.
    intros Hin. apply list_elem_of_fmap in Hin as ([i1 a] & -> & Hin).
    apply elem_of_map_to_list in Hin. cbn in Ek. congruence.
Qed.

Lemma insert_all_tenants ts r :
  NoDup (tenant_id <$> ts) -> (forall t, t ∈ ts -> tenants r !! tenant_id t = None) ->
  insert_all insert_persisted ts r
  = (mk_registry (list_to_map ((fun t => (tenant_id t, t)) <$> ts) ∪ tenants r) (members r), Ok tt).
Proof using Type.
  revert r. induction ts as [|t ts IH]; intros r Hnd Hfresh; cbn [insert_all].
  { cbn. rewrite (left_id_L ∅ (∪)). by destruct r. }
  apply NoDup_cons in Hnd as [Hni Hnd]. unfold insert_persisted at 1. rewrite (Hfresh t) by left.
  rewrite IH; [|done|].
  - cbn. do 2 f_equal. rewrite <- insert_union_l, <- insert_union_r; [done|].
    apply not_elem_of_list_to_map_1. rewrite <- list_fmap_compose. exact Hni.
  - intros u Hu. cbn. rewrite lookup_insert_ne; [by apply Hfresh; right|].
    intros Heq. apply Hni. rewrite Heq. by apply list_elem_of_fmap_2.
Qed.

Lemma insert_all_members ms r :
  NoDup ((fun m => (m_tenant_id m, m_user_id m)) <$> ms) ->
  (forall m, m ∈ ms -> members r !! (m_tenant_id m, m_user_id m) = None /\ is_Some (tenants r !! m_tenant_id m)) ->
  insert_all insert_persisted_member ms r
  = (mk_registry (tenants r) (list_to_map ((fun m => ((m_tenant_id m, m_user_id m), m)) <$> ms) ∪ members r), Ok tt).
Proof using Type.
  revert r. induction ms as [|m ms IH]; intros r Hnd Hok; cbn [insert_all].
  { cbn. rewrite (left_id_L ∅ (∪)). by destruct r. }
  apply NoDup_cons in Hnd as [Hni Hnd]. unfold insert_persisted_member at 1.
  destruct (Hok m ltac:(left)) as [Hf [t Ht]]. rewrite Ht. rewrite IH; [|done|].
  - cbn. do 2 f_equal. rewrite <- insert_union_l, <- insert_union_r; [done|].
    apply not_elem_of_list_to_map_1. rewrite <- list_fmap_compose. exact Hni.
  - intros u Hu. cbn. destruct (Hok u ltac:(by right)) as [? ?]. split; [|done].
    rewrite lookup_insert_ne; [done|]. intros Heq. apply Hni. rewrite Heq.
    by apply (list_elem_of_fmap_2 (fun m => (m_tenant_id m, m_user_id m))).
Qed.


Section Reopen.
Context {HO : HashOrder}.

Lemma load_tenants_ok io p :
  in_sync p -> io_error io 0 = None ->
  exists ts, load_tenants io p = Ok ts /\ NoDup (tenant_id <$> ts) /\
    list_to_map ((fun t => (tenant_id t, t)) <$> ts) = tenants (registry p).
Proof using Type.
  intros Hs Hio. unfold load_tenants. rewrite Hio.
  set (rows := merge_sort tenant_row_le (hash_order (map_to_list (tenant_rows (conn p))))).
  assert (Hperm : rows ≡ₚ map_to_list (tenant_rows (conn p)))
    by (unfold rows; by rewrite merge_sort_Permutation, hash_order_perm).
  set (P := fun (x : uuid * TenantRow (Nonce := Nonce) (Bytes := Bytes)) t => tenants (registry p) !! x.1 = Some t /\ tenant_id t = x.1).
  destruct (collect_ok (open_tenant (payload_key p)) P rows) as (ts & Hc & HF).
  { intros [id row] Hin. rewrite Hperm, elem_of_map_to_list in Hin.
    pose proof (sy_tenants _ Hs id) as H. rewrite Hin in H. inversion H as [t ? [[Ho _] _] Ht|].
    exists t. split; [exact Ho|]. split; [by cbn|]. by apply (rw_id _ (sy_wf _ Hs)). }
  exists ts. split; [done|].
  destruct (reload_map tenant_id P _ rows ts Hperm HF) as [Hnd HM]; [by intros x t []|].
  split; [done|]. apply map_eq. intros id. specialize (HM id). pose proof (sy_tenants _ Hs id) as H.
  inversion HM as [row t [Ht _] Hr Heq|Hr Heq]; subst; cbn in *.
  - by rewrite Ht.
  - rewrite <- Hr in H. inversion H. congruence.
Qed.

Lemma load_members_ok io p :
  in_sync p -> io_error io 1 = None ->
  exists ms, load_members (millis_in_range := millis_in_range) io p = Ok ms /\
    NoDup ((fun m => (m_tenant_id m, m_user_id m)) <$> ms) /\
    let M := list_to_map ((fun m => ((m_tenant_id m, m_user_id m), m)) <$> ms) : gmap (uuid * uuid) TenantMember in
    map_Forall2 (fun _ => member_reloaded) (members (registry p)) M /\
    map_Forall2 member_row_of M (member_rows (conn p)) /\
    (forall key m, M !! key = Some m -> (m_tenant_id m, m_user_id m) = key).
Proof using Type.
  intros Hs Hio. unfold load_members. rewrite Hio.
  set (rows := merge_sort member_row_le (hash_order (map_to_list (member_rows (conn p))))).
  assert (Hperm : rows ≡ₚ map_to_list (member_rows (conn p)))
    by (unfold rows; by rewrite merge_sort_Permutation, hash_order_perm).
  set (P := fun (x : (uuid * uuid) * MemberRow) m' => exists m, members (registry p) !! x.1 = Some m /\
    member_reloaded m m' /\ (m_tenant_id m', m_user_id m') = x.1 /\ member_row_of x.1 m' x.2).
  destruct (collect_ok (open_member (millis_in_range := millis_in_range)) P rows) as (ms & Hc & HF).
  { intros [key row] Hin. rewrite Hperm, elem_of_map_to_list in Hin.
    pose proof (sy_members _ Hs key) as H. rewrite Hin in H. inversion H as [m ? Hmr Hm|]. subst.
    destruct (open_member_ok key m row Hmr) as (m' & Ho & ? & ? & ?).
    { by destruct (rw_member _ (sy_wf _ Hs) key m (eq_sym Hm)). }
    exists m'. split; [done|]. by exists m. }
  exists ms. split; [done|].
  destruct (reload_map (fun m => (m_tenant_id m, m_user_id m)) P _ rows ms Hperm HF) as [Hnd HM];
    [by intros x m (? & ? & ? & ? & ?)|].
  split; [done|]. cbv zeta. split_and!; intros key.
  - specialize (HM key). pose proof (sy_members _ Hs key) as H.
    inversion HM as [row m' (m & Hm & Hrel & _) Hr Heq|Hr Heq]; cbn in *.
    + rewrite Hm. by constructor.
    + rewrite <- Hr in H. inversion H. constructor.
  - specialize (HM key). inversion HM as [row m' (m & Hm & Hrel & Hk & Hrow) Hr Heq|Hr Heq]; constructor. done.
  - intros m Hm. specialize (HM key). rewrite Hm in HM.
    inversion HM as [row m' (m0 & _ & _ & Hk & _) Hr Heq|]. by subst.
Qed.

(** Reopening.  When disk and memory agree, a restart whose two SELECTs
    succeed always opens, in whatever order SQLite returns equal timestamps; it
    finds every tenant unchanged, keys and life-cycle state included, and every
    membership with its role and status, the last change rounded down to the
    millisecond; and disk and memory agree again. *)
Theorem tenant_reopen io p :
  in_sync p -> io_error io 0 = None -> io_error io 1 = None ->
  exists q, open (millis_in_range := millis_in_range) io (conn p) (Ok (payload_key p)) = Ok q /\ in_sync q /\
    conn q = conn p /\ payload_key q = payload_key p /\ tenants (registry q) = tenants (registry p) /\
    map_Forall2 (fun _ => member_reloaded) (members (registry p)) (members (registry q)).
Proof using Type.
  intros Hs H0 H1. unfold open. rewrite (sy_version _ Hs). cbn [try_result negb andb].
  assert (Hdb : mk_db (tenant_rows (conn p)) (member_rows (conn p)) (config_rows (conn p)) SCHEMA_VERSION = conn p).
  { pose proof (sy_version _ Hs) as Hv. destruct (conn p). cbn in *. by rewrite Hv. }
  rewrite Hdb. change (negb (1 =? 0)%Z && negb (1 =? SCHEMA_VERSION)%Z) with false. cbn iota.
  set (q0 := mk_persistent Tenant.new (conn p) (payload_key p)).
  destruct (load_tenants_ok io p Hs H0) as (ts & Hts & Hndt & Hmapt).
  destruct (load_members_ok io p Hs H1) as (ms & Hms & Hndm & Hrel & Hrow & Hkeys).
  unfold load_all. change (load_tenants io q0) with (load_tenants io p).
  change (load_members (millis_in_range := millis_in_range) io q0) with
    (load_members (millis_in_range := millis_in_range) io p).
  rewrite Hts, Hms, insert_all_tenants; [|done|by intros t _; apply lookup_empty].
  assert (Htn : (list_to_map ((fun t => (tenant_id t, t)) <$> ts) ∪ tenants Tenant.new : gmap uuid Tenant)
                = tenants (registry p)) by (cbn; by rewrite (right_id_L ∅ (∪))).
  rewrite Htn. rewrite insert_all_members; [|done|].
  2: { intros m Hm. cbn. split; [apply lookup_empty|].
       assert (Hin : (list_to_map ((fun m => ((m_tenant_id m, m_user_id m), m)) <$> ms) : gmap _ _)
                 !! (m_tenant_id m, m_user_id m) = Some m).
       { apply elem_of_list_to_map_1; [by rewrite <- list_fmap_compose|]. apply list_elem_of_fmap. by exists m. }
       pose proof (Hrel (m_tenant_id m, m_user_id m)) as Hk. rewrite Hin in Hk.
       inversion Hk as [m0 ? _ Hm0|]. symmetry in Hm0.
       by destruct (rw_member _ (sy_wf _ Hs) _ _ Hm0). }
  cbn [tenants members]. eexists. split; [reflexivity|]. cbn [registry conn payload_key with_registry].
  change (members Tenant.new) with (∅ : gmap (uuid * uuid) TenantMember). rewrite (right_id_L ∅ (∪)).
  split_and!; [|done..]. destruct Hs as [[R1 R2 R3 R4] S2 S3 S4 S5]. split; cbn; [|done..].
  split; cbn; [done..|]. intros key m Hm. split; [by apply Hkeys|].
  specialize (Hrel key). rewrite Hm in Hrel. inversion Hrel as [m0 ? _ Hm0|]. symmetry in Hm0.
  by destruct (R4 _ _ Hm0).
Qed.

(** A deletion that fails is undone by the next restart, and cannot be
    repeated before it.  After a fault the tenant is deleted in memory, with its
    key destroyed, so every further [delete] of it is refused; but nothing reached
    the disk, and the next process that opens it has the tenant as it was before,
    its key not destroyed. *)
Theorem failed_delete_undone io now id p p' e t :
  in_sync p -> millis_in_range (timestamp_millis now) = true ->
  tenants (registry p) !! id = Some t ->
  exec io (Delete now id) p = (p', Err e) -> fault e ->
  (exists t', tenants (registry p') !! id = Some t' /\ tenant_status t' = Deleted /\
     destroyed (root_key (tenant_config t')) = true) /\
  (forall io2 now2, exec io2 (Delete now2 id) p' = (p', Err (InvalidLifecycleTransition Deleted Deleted))) /\
  (forall io2, io_error io2 0 = None -> io_error io2 1 = None ->
     exists q, open (millis_in_range := millis_in_range) io2 (conn p') (Ok (payload_key p')) = Ok q /\
       tenants (registry q) !! id = Some t).
Proof using Hcodec.
  intros Hs Hnow Hid Hx He. destruct (delete_outcome _ _ _ _ _ _ Hs Hx) as (Hreg & Hkey & Hout).
  cbn [run_call call_result] in *. unfold Tenant.delete in Hreg, Hout. rewrite Hid in Hreg, Hout.
  destruct (validate_transition (tenant_status t) Deleted) as [[]|e'] eqn:Hv; cbn [fst snd] in *.
  2: { destruct Hout as [[= <-] _]. by destruct (tenant_status t); cbn in Hv; simplify_eq. }
  assert (Hconn : conn p' = conn p).
  { destruct Hout as [[? _]|(e1 & _ & _ & [?|[]])]; done. }
  split_and!.
  - rewrite Hreg. cbn. rewrite lookup_insert_eq. by eexists.
  - intros io2 now2. unfold exec, delete, Tenant.delete. rewrite Hreg. cbn. rewrite lookup_insert_eq. cbn.
    rewrite <- Hreg. by rewrite with_registry_same.
  - intros io2 H0 H1. rewrite Hconn, Hkey. destruct (tenant_reopen io2 p Hs H0 H1) as (q & Hq & _ & _ & _ & Ht & _).
    exists q. split; [done|]. by rewrite Ht.
Qed.

End Reopen.
End Codec.
End Mirror.

(** ** A concrete registry *)

Section Demo.
#[local] Existing Instance keyed_aead.
#[local] Existing Instance hash_order_rev.
#[local] Instance tenant_serde : Serde (list N * Tenant) Tenant :=
  {| to_vec t := Some ([], t); from_slice b := Some b.2 |}.
#[local] Instance storage_serde : Serde string StorageConfig :=
  {| to_vec _ := Some "{}"; from_slice _ := None |}.
#[local] Instance synthesis_serde : Serde string SynthesisConfig :=
  {| to_vec _ := Some "{}"; from_slice _ := None |}.

Lemma demo_codec t : serde_roundtrips (Bytes := list N * Tenant) t.
Proof. intros b [= <-]. reflexivity. Defined.

Definition any_millis (ms : Z) : bool := true.
Definition io_fine : Io (Nonce := unit) := mk_io (fun _ => None) tt 5000000.
(** The COMMIT of [delete] fails. *)
Definition io_commit_fails : Io (Nonce := unit) :=
  mk_io (fun n => if (n =? 4)%nat then Some "disk I/O error" else None) tt 5000000.

Definition opened : PersistentTenantRegistry (Key := N) (Nonce := unit) (Bytes := list N * Tenant) :=
  mk_persistent Tenant.new (mk_db ∅ ∅ ∅ SCHEMA_VERSION) 7%N.
Definition created := (exec io_fine (Create 10 1000000 "acme" (new_config 5)) opened).1.
Definition staffed := (exec io_fine (AddMember 2345678 10 3 Admin) created).1.
Definition undeleted := (exec io_commit_fails (Delete 9000000 10) staffed).1.

Lemma opened_in_sync : in_sync (millis_in_range := any_millis) opened.
Proof. split; [apply registry_wf_new|apply map_Forall2_empty..|reflexivity]. Defined.

Lemma created_in_sync : in_sync (millis_in_range := any_millis) created.
Proof.
  destruct (create_outcome demo_codec io_fine 10 1000000 "acme" (new_config 5) opened created (Ok tt) opened_in_sync)
    as (_ & _ & Hout); [vm_compute; reflexivity|].
  destruct Hout as [[_ H]|(e & H & _)]; [exact H|discriminate].
Defined.

Lemma persistent_tenant_call_witness :
  in_sync (millis_in_range := any_millis) staffed /\
  registry staffed = run_call (AddMember 2345678 10 3 Admin) (registry created).
Proof.
  destruct (persistent_tenant_call demo_codec io_fine (AddMember 2345678 10 3 Admin) created staffed (Ok tt)
              created_in_sync) as (Hreg & _ & Hout); [reflexivity|reflexivity|vm_compute; reflexivity|].
  split; [|exact Hreg].
  replace (call_result (AddMember 2345678 10 3 Admin) (registry created)) with (Ok (E := TenantError) tt) in Hout
    by (vm_compute; reflexivity).
  destruct Hout as [[_ H]|(e & H & _)]; [exact H|discriminate].
Defined.

Lemma staffed_in_sync : in_sync (millis_in_range := any_millis) staffed.
Proof.
  destruct (add_member_outcome io_fine 2345678 10 3 Admin created staffed (Ok tt) created_in_sync)
    as (_ & _ & Hout); [reflexivity|vm_compute; reflexivity|].
  replace (call_result (AddMember 2345678 10 3 Admin) (registry created)) with (Ok (E := TenantError) tt) in Hout
    by (vm_compute; reflexivity).
  destruct Hout as [[_ H]|(e & H & _)]; [exact H|discriminate].
Defined.

Lemma tenant_reopen_witness :
  exists q, open (millis_in_range := any_millis) io_fine (conn staffed) (Ok (payload_key staffed)) = Ok q /\
    tenants (registry q) = tenants (registry staffed).
Proof.
  destruct (tenant_reopen io_fine staffed staffed_in_sync eq_refl eq_refl) as (q & Hq & _ & _ & _ & Ht & _).
  exists q. split; [exact Hq|exact Ht].
Defined.

Lemma failed_delete_undone_witness :
  exists q t, open (millis_in_range := any_millis) io_fine (conn undeleted) (Ok (payload_key undeleted)) = Ok q /\
    tenants (registry q) !! 10%N = Some t /\ destroyed (root_key (tenant_config t)) = false.
Proof.
  destruct (failed_delete_undone demo_codec io_commit_fails 9000000 10 staffed undeleted
              (Sqlite "disk I/O error") (new_tenant 10 1000000 "acme" (new_config 5)) staffed_in_sync)
    as (_ & _ & H); [reflexivity|vm_compute; reflexivity|vm_compute; reflexivity|exact I|].
  destruct (H io_fine eq_refl eq_refl) as (q & Hq & Ht).
  exists q, (new_tenant 10 1000000 "acme" (new_config 5)). split; [exact Hq|]. split; [exact Ht|reflexivity].
Defined.

(** A member provisioned a second time is back to its first instant after a
    restart: the upsert does not touch [created_at]. *)
Definition rehired :=
  (exec io_fine (AddMember 40000000 10 3 Admin) (exec io_fine (RemoveMember 30000000 10 3) staffed).1).1.
Example rehired_provisioned_at :
  (m_provisioned_at <$> members (registry rehired) !! (10%N, 3%N)) = Some 40000000%Z /\
  match open (millis_in_range := any_millis) io_fine (conn rehired) (Ok 7%N) with
  | Ok q => (m_provisioned_at <$> members (registry q) !! (10%N, 3%N)) = Some 2000000%Z
  | Err _ => False
  end.
Proof. vm_compute. split; reflexivity. Qed.

End Demo.
