(* ===== verification/AuditLog.v ===== *)
(** * The audit log ([audit_service/src/entry.rs], [log.rs], [error.rs])

    The append-only log, its entry builder, the four secondary indexes and the
    query planner that intersects them.  Indexing a vector out of bounds
    panics; the model returns [None] there, and [query_exact] shows it never
    happens. *)

From stdpp Require Import sorting.
From S2P Require Import Prelude.

(** ** Data *)

(** [enum AuditActionType]. *)
Inductive AuditActionType : Type :=
| CanonicalPromotion | Export | AgentProposal | PolicyChange | MemberProvisioned | MemberRemoved
| TenantLifecycle | KeyDestruction | ExportRendered | ExportSimulated | AgentProposalSubmitted
| AgentProposalPromoted | AgentProposalRejected.

(** [enum TargetType]. *)
Inductive TargetType : Type :=
| TTenant | TDomain | TChannel | TUser | TMemoryObject | TConcept | TSummary | TExportProfile
| TPolicy | TKey | TAgent.

(** [AuditActionType::as_str], [TargetType::as_str]. *)
Definition action_str (a : AuditActionType) : string :=
  match a with
  | CanonicalPromotion => "canonical_promotion"
  | Export => "export"
  | AgentProposal => "agent_proposal"
  | PolicyChange => "policy_change"
  | MemberProvisioned => "member_provisioned"
  | MemberRemoved => "member_removed"
  | TenantLifecycle => "tenant_lifecycle"
  | KeyDestruction => "key_destruction"
  | ExportRendered => "export_rendered"
  | ExportSimulated => "export_simulated"
  | AgentProposalSubmitted => "agent_proposal_submitted"
  | AgentProposalPromoted => "agent_proposal_promoted"
  | AgentProposalRejected => "agent_proposal_rejected"
  end.
Definition target_str (t : TargetType) : string :=
  match t with
  | TTenant => "tenant" | TDomain => "domain" | TChannel => "channel" | TUser => "user"
  | TMemoryObject => "memory_object" | TConcept => "concept" | TSummary => "summary"
  | TExportProfile => "export_profile" | TPolicy => "policy" | TKey => "key" | TAgent => "agent"
  end.

#[export] Instance AuditActionType_eq_dec : EqDecision AuditActionType.
Proof. solve_decision. Defined.
#[export] Instance TargetType_eq_dec : EqDecision TargetType.
Proof. solve_decision. Defined.

(** Hash keys: the derived [Hash] of the enum, here through its tag. *)
Definition all_actions : list AuditActionType :=
  [CanonicalPromotion; Export; AgentProposal; PolicyChange; MemberProvisioned; MemberRemoved;
   TenantLifecycle; KeyDestruction; ExportRendered; ExportSimulated; AgentProposalSubmitted;
   AgentProposalPromoted; AgentProposalRejected].
#[export] Program Instance AuditActionType_finite : finite.Finite AuditActionType :=
  {| finite.enum := all_actions |}.
Next Obligation. by apply (bool_decide_unpack _). Qed.
Next Obligation. intros []; by apply (bool_decide_unpack _). Qed.
#[export] Instance AuditActionType_countable : Countable AuditActionType := finite.finite_countable.

(** [struct TargetRef], [enum Actor]. *)
Record TargetRef : Type := mk_target { target_type : TargetType; target_id : uuid }.
Inductive Actor : Type := User (id : uuid) | Agent (id : uuid) | System.

#[export] Instance Actor_eq_dec : EqDecision Actor.
Proof. solve_decision. Defined.

(** [enum AuditError]; driver errors are kept as their message. *)
Inductive AuditError : Type :=
| EntryImmutable
| MissingField (field : string)
| Persistence (msg : string)
| Sqlite (msg : string)
| Crypto (msg : string).

(** The hand-written [PartialEq] of [AuditError]. *)
Definition audit_error_eqb (a b : AuditError) : bool :=
  match a, b with
  | EntryImmutable, EntryImmutable => true
  | MissingField x, MissingField y | Persistence x, Persistence y => String.eqb x y
  | _, _ => false
  end.

(** [HashMap<K, Vec<usize>>] indexes: [m.entry(k).or_default().push(pos)] and
    [m.get(k).map_or(&[], ..)]. *)
Section Index.
Context {K : Type} `{Countable K}.
Definition push_position (m : gmap K (list nat)) (k : K) (pos : nat) : gmap K (list nat) :=
  <[k := default [] (m !! k) ++ [pos]]> m.
Definition get_positions (m : gmap K (list nat)) (k : K) : list nat := default [] (m !! k).
End Index.

(** [BTreeSet<usize>::into_iter().collect()]: ascending. *)
Definition sorted_elements (s : gset nat) : list nat := merge_sort le (elements s).

Section Audit.
(** [serde_json::Value], opaque but for [JsonValue::Null]. *)
Context {Json : Type} {JsonNull : Inhabited Json}.

(** [struct AuditEntry], [struct AuditEntryBuilder]. *)
Record AuditEntry : Type := mk_entry {
  entry_id : uuid;
  sequence : N;
  timestamp : instant;
  actor : Actor;
  action_type : AuditActionType;
  target : TargetRef;
  scope_id : option uuid;
  details : Json
}.
Record AuditEntryBuilder : Type := mk_builder {
  b_actor : option Actor;
  b_action_type : option AuditActionType;
  b_target : option TargetRef;
  b_scope_id : option uuid;
  b_details : option Json;
  b_timestamp : option instant
}.
Definition new_builder : AuditEntryBuilder := mk_builder None None None None None None.

(** The setters of the builder. *)
Definition set_actor (b : AuditEntryBuilder) (x : Actor) : AuditEntryBuilder :=
  mk_builder (Some x) (b_action_type b) (b_target b) (b_scope_id b) (b_details b) (b_timestamp b).
Definition set_action (b : AuditEntryBuilder) (x : AuditActionType) : AuditEntryBuilder :=
  mk_builder (b_actor b) (Some x) (b_target b) (b_scope_id b) (b_details b) (b_timestamp b).
Definition set_target (b : AuditEntryBuilder) (x : TargetRef) : AuditEntryBuilder :=
  mk_builder (b_actor b) (b_action_type b) (Some x) (b_scope_id b) (b_details b) (b_timestamp b).
Definition set_scope (b : AuditEntryBuilder) (x : uuid) : AuditEntryBuilder :=
  mk_builder (b_actor b) (b_action_type b) (b_target b) (Some x) (b_details b) (b_timestamp b).
Definition set_details (b : AuditEntryBuilder) (x : Json) : AuditEntryBuilder :=
  mk_builder (b_actor b) (b_action_type b) (b_target b) (b_scope_id b) (Some x) (b_timestamp b).
Definition set_timestamp (b : AuditEntryBuilder) (x : instant) : AuditEntryBuilder :=
  mk_builder (b_actor b) (b_action_type b) (b_target b) (b_scope_id b) (b_details b) (Some x).

(** [AuditEntryBuilder::build], with the id and the time it draws. *)
Definition build (fresh : uuid) (now : instant) (b : AuditEntryBuilder) :
    result AuditEntry AuditError :=
  let? a := ok_or (b_actor b) (MissingField "actor") in
  let? t := ok_or (b_action_type b) (MissingField "action_type") in
  let? g := ok_or (b_target b) (MissingField "target") in
  Ok {| entry_id := fresh; sequence := 0; timestamp := default now (b_timestamp b); actor := a;
        action_type := t; target := g; scope_id := b_scope_id b;
        details := default inhabitant (b_details b) |}.

(** [struct AuditQuery] and its constructors. *)
Record AuditQuery : Type := mk_query {
  q_scope_id : option uuid;
  q_action_types : list AuditActionType;
  q_since : option instant;
  q_until : option instant;
  q_actor_id : option uuid
}.
Definition new_query : AuditQuery := mk_query None [] None None None.
Definition with_scope (q : AuditQuery) (s : uuid) : AuditQuery :=
  mk_query (Some s) (q_action_types q) (q_since q) (q_until q) (q_actor_id q).
Definition with_action (q : AuditQuery) (a : AuditActionType) : AuditQuery :=
  mk_query (q_scope_id q) (q_action_types q ++ [a]) (q_since q) (q_until q) (q_actor_id q).
Definition with_since (q : AuditQuery) (t : instant) : AuditQuery :=
  mk_query (q_scope_id q) (q_action_types q) (Some t) (q_until q) (q_actor_id q).
Definition with_until (q : AuditQuery) (t : instant) : AuditQuery :=
  mk_query (q_scope_id q) (q_action_types q) (q_since q) (Some t) (q_actor_id q).
Definition with_actor (q : AuditQuery) (a : uuid) : AuditQuery :=
  mk_query (q_scope_id q) (q_action_types q) (q_since q) (q_until q) (Some a).

(** [AuditQuery::matches]. *)
Definition matches (q : AuditQuery) (e : AuditEntry) : bool :=
  match q_scope_id q with
  | Some s => if negb (bool_decide (scope_id e = Some s)) then false else true
  | None => true
  end &&
  (if negb (bool_decide (q_action_types q = [])) && negb (bool_decide (action_type e ∈ q_action_types q))
   then false else true) &&
  match q_since q with Some t => if (timestamp e <? t)%Z then false else true | None => true end &&
  match q_until q with Some t => if (t <? timestamp e)%Z then false else true | None => true end &&
  match q_actor_id q with
  | Some a =>
      match actor e with
      | User id | Agent id => if negb (id =? a)%N then false else true
      | System => false
      end
  | None => true
  end.

(** ** The log *)

(** [struct AuditLog]. *)
Record AuditLog : Type := mk_log {
  entries : list AuditEntry;
  next_sequence : N;
  scope_index : gmap uuid (list nat);
  action_index : gmap AuditActionType (list nat);
  actor_index : gmap uuid (list nat);
  id_index : gmap uuid nat
}.
Definition new : AuditLog := mk_log [] 0 ∅ ∅ ∅ ∅.
Definition len (l : AuditLog) : nat := length (entries l).
Definition is_empty (l : AuditLog) : bool := (len l =? 0)%nat.

(** [index_entry_into], through the fields of the log. *)
Definition index_entry (l : AuditLog) (e : AuditEntry) (pos : nat) : AuditLog :=
  {| entries := entries l; next_sequence := next_sequence l;
     scope_index := match scope_id e with
                    | Some s => push_position (scope_index l) s pos
                    | None => scope_index l
                    end;
     action_index := push_position (action_index l) (action_type e) pos;
     actor_index := match actor e with
                    | User id | Agent id => push_position (actor_index l) id pos
                    | System => actor_index l
                    end;
     id_index := <[entry_id e := pos]> (id_index l) |}.

Definition with_sequence (e : AuditEntry) (n : N) : AuditEntry :=
  {| entry_id := entry_id e; sequence := n; timestamp := timestamp e; actor := actor e;
     action_type := action_type e; target := target e; scope_id := scope_id e; details := details e |}.
Definition with_next_sequence (l : AuditLog) (n : N) : AuditLog :=
  mk_log (entries l) n (scope_index l) (action_index l) (actor_index l) (id_index l).
Definition push_entry (l : AuditLog) (e : AuditEntry) : AuditLog :=
  mk_log (entries l ++ [e]) (next_sequence l) (scope_index l) (action_index l) (actor_index l)
    (id_index l).

(** [AuditLog::append]. *)
Definition append (l : AuditLog) (e : AuditEntry) : AuditLog * uuid :=
  let e := with_sequence e (next_sequence l) in
  let l := with_next_sequence l (u64_saturating_add (next_sequence l) 1) in
  let id := entry_id e in
  let pos := length (entries l) in
  (push_entry (index_entry l e pos) e, id).

(** [AuditLog::replay_persisted]. *)
Definition replay_persisted (e : AuditEntry) : eff AuditLog AuditError unit := fun l =>
  if negb (sequence e =? next_sequence l)%N then
    (l, Err (Persistence "replayed audit entry sequence is not contiguous with next_sequence"))
  else
    let l := with_next_sequence l (u64_saturating_add (next_sequence l) 1) in
    let pos := length (entries l) in
    (push_entry (index_entry l e pos) e, Ok tt).

(** [AuditLog::peek_next_sequence]. *)
Definition peek_next_sequence (l : AuditLog) : N := next_sequence l.

(** [AuditLog::get]; the outer [None] is the panic of [&self.entries[pos]]. *)
Definition get (l : AuditLog) (id : uuid) : option (option AuditEntry) :=
  match id_index l !! id with
  | None => Some None
  | Some pos => Some <$> entries l !! pos
  end.

(** [AuditLog::intersect_with]. *)
Fixpoint intersect_extra (acc : gset nat) (extra : list (list nat)) : option (gset nat) :=
  match extra with
  | [] => Some acc
  | set :: extra =>
      let acc := acc ∩ list_to_set set in
      if bool_decide (acc = ∅) then None else intersect_extra acc extra
  end.
Definition intersect_with (l : AuditLog) (seed : list nat) (extra : list (list nat))
    (actor_id : option uuid) : list nat :=
  match intersect_extra (list_to_set seed) extra with
  | None => []
  | Some acc =>
      match actor_id with
      | Some a =>
          match actor_index l !! a with
          | Some positions => sorted_elements (acc ∩ list_to_set positions)
          | None => []
          end
      | None => sorted_elements acc
      end
  end.

(** The union of the requested actions' positions. *)
Definition action_union (l : AuditLog) (actions : list AuditActionType) : gset nat :=
  foldl (fun (u : gset nat) a => match action_index l !! a with
                    | Some positions => u ∪ list_to_set positions
                    | None => u
                    end) ∅ actions.

(** The loop over the remaining candidate sets. *)
Fixpoint intersect_rest (acc : gset nat) (rest : list (list nat)) : gset nat :=
  match rest with
  | [] => acc
  | set :: rest =>
      let acc := acc ∩ list_to_set set in
      if bool_decide (acc = ∅) then acc else intersect_rest acc rest
  end.

Definition shorter (a b : list nat) : Prop := (length a <= length b)%nat.
#[export] Instance shorter_dec : RelDecision shorter := fun a b => decide (length a <= length b)%nat.

(** [AuditLog::candidate_positions]. *)
Definition candidate_positions (l : AuditLog) (q : AuditQuery) : option (list nat) :=
  let sets := match q_scope_id q with
              | Some s => [get_positions (scope_index l) s]
              | None => []
              end in
  if negb (bool_decide (q_action_types q = [])) then
    let owned := sorted_elements (action_union l (q_action_types q)) in
    Some (intersect_with l owned sets (q_actor_id q))
  else
    let sets := match q_actor_id q with
                | Some a => sets ++ [get_positions (actor_index l) a]
                | None => sets
                end in
    if bool_decide (sets = []) then None
    else
      match merge_sort shorter sets with
      | [] => None
      | smallest :: rest => Some (sorted_elements (intersect_rest (list_to_set smallest) rest))
      end.

(** [AuditLog::query], collected; [None] is a panicking index. *)
Definition query (l : AuditLog) (q : AuditQuery) : option (list AuditEntry) :=
  match candidate_positions l q with
  | Some positions => base.filter (matches q) <$> mapM (fun pos => entries l !! pos) positions
  | None => Some (base.filter (matches q) (entries l))
  end.

(** [AuditLog::rebuild_indexes]. *)
Fixpoint index_all (l : AuditLog) (pos : nat) (es : list AuditEntry) : AuditLog :=
  match es with
  | [] => l
  | e :: es => index_all (index_entry l e pos) (S pos) es
  end.
Definition rebuild_indexes (l : AuditLog) : AuditLog :=
  index_all (mk_log (entries l) (next_sequence l) ∅ ∅ ∅ ∅) 0 (entries l).

(** The wire form: the derived [Serialize] skips the indexes, [Deserialize]
    rebuilds them. *)
Definition serialize (l : AuditLog) : list AuditEntry * N := (entries l, next_sequence l).
Definition deserialize (w : list AuditEntry * N) : AuditLog :=
  rebuild_indexes (mk_log w.1 w.2 ∅ ∅ ∅ ∅).

End Audit.
Arguments AuditEntry Json : clear implicits.
Arguments AuditEntryBuilder Json : clear implicits.
Arguments AuditLog Json : clear implicits.

Section AuditFacts.
Context {Json : Type} {JsonNull : Inhabited Json}.
Implicit Types (l : AuditLog Json) (e : AuditEntry Json) (es : list (AuditEntry Json)) (q : AuditQuery).

(** ** Positions of the entries satisfying a predicate *)

Fixpoint positions_from (n : nat) (f : AuditEntry Json -> bool) es : list nat :=
  match es with
  | [] => []
  | e :: es => if f e then n :: positions_from (S n) f es else positions_from (S n) f es
  end.
Definition positions (f : AuditEntry Json -> bool) es : list nat := positions_from 0 f es.

Lemma positions_from_snoc n f es e :
  positions_from n f (es ++ [e]) = positions_from n f es ++ (if f e then [(n + length es)%nat] else []).
Proof.
  revert n. induction es as [|x es IH]; intros n; cbn.
  { rewrite Nat.add_0_r. by destruct (f e). }
  rewrite IH. replace (n + S (length es))%nat with (S n + length es)%nat by lia.
  by destruct (f x).
Qed.

Lemma positions_snoc f es e :
  positions f (es ++ [e]) = positions f es ++ (if f e then [length es] else []).
Proof. apply positions_from_snoc. Qed.

Lemma elem_of_positions_from n f es i :
  i ∈ positions_from n f es <-> (n <= i)%nat /\ exists e, es !! (i - n)%nat = Some e /\ f e = true.
Proof.
  revert n. induction es as [|x es IH]; intros n; cbn [positions_from].
  { rewrite elem_of_nil. split; [done|]. intros (_ & e & He & _). done. }
  assert (Hrec : i ∈ positions_from (S n) f es <->
            (n < i)%nat /\ exists e, (x :: es) !! (i - n)%nat = Some e /\ f e = true).
  { rewrite IH. split.
    - intros [Hle He]. split; [lia|]. by replace (i - n)%nat with (S (i - S n)) by lia.
    - intros [Hlt He]. split; [lia|]. by replace (i - n)%nat with (S (i - S n)) in He by lia. }
  destruct (f x) eqn:Ef; rewrite ?elem_of_cons, Hrec; split.
  - intros [->|[Hlt He]]; [|by split; [lia|]]. rewrite Nat.sub_diag. split; [lia|]. by exists x.
  - intros [Hle He]. destruct (decide (i = n)); [by left|right]. by split; [lia|].
  - intros [Hlt He]. by split; [lia|].
  - intros [Hle (e & He & Hf)]. destruct (decide (i = n)) as [->|]; [|by split; [lia|eauto]].
    rewrite Nat.sub_diag in He. injection He as <-. congruence.
Qed.

Lemma elem_of_positions f es i :
  i ∈ positions f es <-> exists e, es !! i = Some e /\ f e = true.
Proof.
  unfold positions. rewrite elem_of_positions_from, Nat.sub_0_r. split; [by intros [_ H]|].
  intros H. split; [lia|done].
Qed.

Lemma positions_from_sorted n f es : StronglySorted lt (positions_from n f es).
Proof.
  revert n. induction es as [|x es IH]; intros n; cbn; [constructor|].
  destruct (f x); [|apply IH]. constructor; [apply IH|].
  apply Forall_forall. intros i [Hi _]%elem_of_positions_from. lia.
Qed.

Lemma sorted_lt_NoDup (il : list nat) : StronglySorted lt il -> NoDup il.
Proof.
  induction 1 as [|i il _ IH Hall]; constructor; [|done].
  intros Hin. eapply (proj1 (Forall_forall _ _) Hall) in Hin. lia.
Qed.

Lemma sorted_elements_positions f es (s : gset nat) :
  s = list_to_set (positions f es) -> sorted_elements s = positions f es.
Proof.
  intros ->. pose proof (positions_from_sorted 0 f es) as Hs.
  apply (Sorted_unique le).
  - apply (Sorted_merge_sort le).
  - apply StronglySorted_Sorted. unfold positions. clear -Hs. induction Hs as [|i il _ IH Hall]; constructor; [done|].
    eapply Forall_impl; [exact Hall|]. intros; simpl in *; lia.
  - unfold sorted_elements. rewrite merge_sort_Permutation.
    apply elements_list_to_set. by apply sorted_lt_NoDup.
Qed.

Lemma positions_and f g es :
  list_to_set (C := gset nat) (positions f es) ∩ list_to_set (positions g es)
  = list_to_set (positions (fun e => f e && g e) es).
Proof.
  apply set_eq. intros i.
  rewrite elem_of_intersection, !elem_of_list_to_set, !elem_of_positions. split.
  - intros [(e & He & Hf) (e' & He' & Hg)]. assert (e' = e) as -> by congruence.
    exists e. by rewrite Hf, Hg.
  - intros (e & He & [Hf Hg]%andb_true_iff). split; eauto.
Qed.

Lemma lookup_positions_from pre f es :
  mapM (fun pos => (pre ++ es) !! pos) (positions_from (length pre) f es)
  = Some (base.filter f es).
Proof.
  revert pre. induction es as [|x es IH]; intros pre; [done|].
  specialize (IH (pre ++ [x])). rewrite length_app, <- app_assoc in IH. cbn in IH.
  rewrite Nat.add_comm in IH. cbn in IH. cbn [positions_from]. rewrite filter_cons.
  destruct (f x) eqn:Ef; cbn.
  - rewrite list_lookup_middle by done. cbn. by rewrite IH.
  - by rewrite IH.
Qed.

Lemma lookup_positions f es :
  mapM (fun pos => es !! pos) (positions f es) = Some (base.filter f es).
Proof. apply (lookup_positions_from []). Qed.

Lemma positions_ext f g es : (forall e, f e = g e) -> positions f es = positions g es.
Proof.
  intros H. unfold positions. generalize 0%nat. induction es as [|x es IH]; intros n; cbn; [done|].
  rewrite H. by rewrite !IH.
Qed.

Lemma last_positions f es :
  match last (positions f es) with None => Some None | Some pos => Some <$> es !! pos end
  = Some (last (base.filter f es)).
Proof.
  pose proof (lookup_positions f es) as Hl. revert Hl.
  generalize (base.filter f es). generalize (positions f es). intros il fs Hl.
  apply mapM_Some in Hl. destruct il as [|i il _] using rev_ind.
  { apply Forall2_nil_inv_l in Hl as ->. done. }
  apply Forall2_app_inv_l in Hl as (k1 & k2 & _ & H2 & ->).
  apply Forall2_cons_inv_l in H2 as (x & k3 & Hx & H3 & ->).
  apply Forall2_nil_inv_l in H3 as ->. rewrite !last_snoc. by rewrite Hx.
Qed.

(** ** The index invariant *)

Definition has_scope (s : uuid) e : bool := bool_decide (scope_id e = Some s).
Definition has_action (a : AuditActionType) e : bool := bool_decide (action_type e = a).
Definition has_actor (a : uuid) e : bool :=
  match actor e with User id | Agent id => (id =? a)%N | System => false end.
Definition has_id (i : uuid) e : bool := (entry_id e =? i)%N.

Record index_wf l : Prop := {
  iw_scope : forall s, get_positions (scope_index l) s = positions (has_scope s) (entries l);
  iw_action : forall a, get_positions (action_index l) a = positions (has_action a) (entries l);
  iw_actor : forall a, get_positions (actor_index l) a = positions (has_actor a) (entries l);
  iw_id : forall i, id_index l !! i = last (positions (has_id i) (entries l))
}.

Lemma get_push_position `{Countable K} (m : gmap K (list nat)) k k' pos :
  get_positions (push_position m k pos) k'
  = get_positions m k' ++ (if bool_decide (k = k') then [pos] else []).
Proof.
  unfold get_positions, push_position. case_bool_decide as Hk.
  - subst. by rewrite lookup_insert_eq.
  - rewrite lookup_insert_ne by done. by rewrite (right_id_L [] (++)).
Qed.

(** Indexing the next entry and pushing it keeps the invariant. *)
Lemma index_wf_push l l' e :
  index_wf l -> l' = push_entry (index_entry l e (length (entries l))) e -> index_wf l'.
Proof.
  intros [Hs Ha Hr Hi] ->. split; cbn.
  - intros s. rewrite positions_snoc, <- Hs. unfold has_scope.
    destruct (scope_id e) as [s'|] eqn:E.
    + rewrite get_push_position. by rewrite (bool_decide_ext (Some s' = Some s) (s' = s)) by naive_solver.
    + rewrite bool_decide_eq_false_2 by done. by rewrite (right_id_L [] (++)).
  - intros a. rewrite positions_snoc, <- Ha. by rewrite get_push_position.
  - intros a. rewrite positions_snoc, <- Hr. unfold has_actor.
    destruct (actor e) as [id|id|]; rewrite ?get_push_position, ?(right_id_L [] (++)); [| |done];
      (destruct (N.eqb_spec id a); [by rewrite bool_decide_eq_true_2|by rewrite bool_decide_eq_false_2]).
  - intros i. rewrite positions_snoc. unfold has_id.
    destruct (N.eqb_spec (entry_id e) i) as [->|Hne].
    + rewrite lookup_insert_eq. by rewrite last_snoc.
    + rewrite lookup_insert_ne by done. by rewrite (right_id_L [] (++)), Hi.
Qed.

Lemma index_wf_new : index_wf new.
Proof. split; intros *; [done..|]. unfold new; cbn. by rewrite lookup_empty. Qed.

Lemma index_wf_entries l n : index_wf l -> index_wf (with_next_sequence l n).
Proof. intros [H1 H2 H3 H4]. by split. Qed.

Lemma index_all_snoc l pos es e :
  index_all l pos (es ++ [e]) = index_entry (index_all l pos es) e (pos + length es).
Proof.
  revert l pos. induction es as [|x es IH]; intros l pos; cbn; [by rewrite Nat.add_0_r|].
  rewrite IH. f_equal. lia.
Qed.

(** Rebuilding the indexes of a list of entries, one entry at a time. *)
Definition rebuilt es (n : N) : AuditLog Json := rebuild_indexes (mk_log es n ∅ ∅ ∅ ∅).

Lemma index_all_entries l pos es :
  entries (index_all l pos es) = entries l /\ next_sequence (index_all l pos es) = next_sequence l.
Proof. revert l pos. induction es as [|x es IH]; intros l pos; cbn; [done|]. apply (IH (index_entry l x pos)). Qed.

Lemma index_all_fields l l' pos es :
  scope_index l = scope_index l' -> action_index l = action_index l' ->
  actor_index l = actor_index l' -> id_index l = id_index l' ->
  let r := index_all l pos es in let r' := index_all l' pos es in
  scope_index r = scope_index r' /\ action_index r = action_index r' /\
  actor_index r = actor_index r' /\ id_index r = id_index r'.
Proof.
  revert l l' pos. induction es as [|x es IH]; intros l l' pos H1 H2 H3 H4; cbn; [done|].
  apply IH; cbn; by rewrite ?H1, ?H2, ?H3, ?H4.
Qed.

Lemma rebuilt_snoc es e n m :
  rebuilt (es ++ [e]) n
  = push_entry (index_entry (with_next_sequence (rebuilt es m) n) e (length es)) e.
Proof.
  unfold rebuilt, rebuild_indexes. cbn [entries next_sequence]. rewrite index_all_snoc, Nat.add_0_l.
  destruct (index_all_entries (mk_log (es ++ [e]) n ∅ ∅ ∅ ∅) 0 es) as [He Hn].
  destruct (index_all_entries (mk_log es m ∅ ∅ ∅ ∅) 0 es) as [He' _].
  destruct (index_all_fields (mk_log (es ++ [e]) n ∅ ∅ ∅ ∅) (mk_log es m ∅ ∅ ∅ ∅) 0 es)
    as (H1 & H2 & H3 & H4); [done..|].
  unfold push_entry, index_entry, with_next_sequence. cbn in *.
  rewrite He, Hn, H1, H2, H3, H4, He'. done.
Qed.

Lemma entries_rebuilt es n : entries (rebuilt es n) = es /\ next_sequence (rebuilt es n) = n.
Proof. apply (index_all_entries (mk_log es n ∅ ∅ ∅ ∅)). Qed.

Lemma index_wf_rebuilt es n : index_wf (rebuilt es n).
Proof.
  revert n. induction es as [|e es IH] using rev_ind; intros n.
  { split; intros *; cbn; [done..|]. by rewrite lookup_empty. }
  rewrite (rebuilt_snoc es e n n).
  apply (index_wf_push (with_next_sequence (rebuilt es n) n) _ e); [apply index_wf_entries, IH|].
  change (entries (with_next_sequence (rebuilt es n) n)) with (entries (rebuilt es n)).
  by rewrite (proj1 (entries_rebuilt es n)).
Qed.

(** ** Runs *)

(** The public mutators: both only ever append. *)
Inductive step : AuditLog Json -> AuditLog Json -> Prop :=
| step_append l e : step l (append l e).1
| step_replay l e : step l (replay_persisted e l).1.

(** A log and what its indexes and sequence numbers say. *)
Record log_wf l : Prop := {
  lw_index : index_wf l;
  lw_rebuilt : l = rebuilt (entries l) (next_sequence l);
  lw_next : next_sequence l = N.min (N.of_nat (length (entries l))) u64_max;
  lw_sequence : forall i e, entries l !! i = Some e -> sequence e = N.min (N.of_nat i) u64_max
}.

Lemma audit_log_wf_new : log_wf new.
Proof. split; [apply index_wf_new|done|done|]. intros i e H. by destruct i. Qed.

(** Pushing an entry carrying the log's next sequence number. *)
Definition pushed l e : AuditLog Json :=
  push_entry (index_entry (with_next_sequence l (u64_saturating_add (next_sequence l) 1)) e
                (length (entries l))) e.

Lemma log_wf_pushed l e : log_wf l -> sequence e = next_sequence l -> log_wf (pushed l e).
Proof.
  intros [Hi Hr Hn Hs] He. split.
  - by eapply index_wf_push; [by apply (index_wf_entries l)|].
  - unfold pushed at 2 3. cbn [entries push_entry index_entry with_next_sequence next_sequence].
    rewrite (rebuilt_snoc _ _ _ (next_sequence l)). by rewrite <- Hr.
  - cbn. rewrite length_app, Hn. unfold u64_saturating_add. cbn. lia.
  - intros i x. cbn. rewrite lookup_app_Some. intros [H|[Hle H]]; [by eauto|].
    apply list_lookup_singleton_Some in H as [Hi0 <-]. rewrite He, Hn. do 2 f_equal. lia.
Qed.

Lemma append_pushed l e : append l e = (pushed l (with_sequence e (next_sequence l)), entry_id e).
Proof. done. Qed.

Lemma replay_pushed l e :
  replay_persisted e l =
  if (sequence e =? next_sequence l)%N then (pushed l e, Ok tt)
  else (l, Err (Persistence "replayed audit entry sequence is not contiguous with next_sequence")).
Proof. unfold replay_persisted. by destruct (_ =? _)%N. Qed.

Lemma log_wf_step l l' : step l l' -> log_wf l -> log_wf l' /\ exists s, entries l' = entries l ++ s.
Proof.
  intros [q e|q e] Hwf.
  - rewrite append_pushed. split; [by apply log_wf_pushed|]. by exists [with_sequence e (next_sequence q)].
  - rewrite replay_pushed. destruct (N.eqb_spec (sequence e) (next_sequence q)) as [He|He].
    + split; [by apply log_wf_pushed|]. by exists [e].
    + split; [done|]. exists []. by rewrite (right_id_L [] (++)).
Qed.

Lemma log_wf_run l l' :
  rtc step l l' -> log_wf l -> log_wf l' /\ entries l `prefix_of` entries l'.
Proof.
  induction 1 as [l|l l1 l2 Hs _ IH]; intros Hwf; [done|].
  destruct (log_wf_step _ _ Hs Hwf) as [Hwf1 [s Hpre]]. destruct (IH Hwf1) as [Hwf2 Hpre2].
  split; [done|]. etrans; [|exact Hpre2]. rewrite Hpre. by apply prefix_app_r.
Qed.

(** ** Queries *)

(** What the planner filters on before [matches]. *)
Definition planned q e : bool :=
  match q_scope_id q with Some s => has_scope s e | None => true end &&
  (bool_decide (q_action_types q = []) || bool_decide (action_type e ∈ q_action_types q)) &&
  match q_actor_id q with Some a => has_actor a e | None => true end.

Lemma matches_planned q e : matches q e = true -> planned q e = true.
Proof.
  unfold matches, planned, has_scope, has_actor. intros H. bool_to_prop.
  apply andb_true_intro; split; [apply andb_true_intro; split|].
  - destruct (q_scope_id q); [|done]. by destruct (bool_decide _).
  - by destruct (bool_decide (q_action_types q = [])), (bool_decide (action_type e ∈ q_action_types q)).
  - destruct (q_actor_id q); [|done]. destruct (actor e); [| |done]; by destruct (_ =? _)%N.
Qed.

Lemma action_union_positions l actions : index_wf l ->
  action_union l actions
  = list_to_set (positions (fun e => bool_decide (action_type e ∈ actions)) (entries l)).
Proof.
  intros Hwf. unfold action_union.
  induction actions as [|a actions IH] using rev_ind.
  { cbn. apply set_eq. intros i. rewrite elem_of_list_to_set, elem_of_positions.
    split; [done|]. intros (e & _ & H%bool_decide_eq_true). by apply elem_of_nil in H. }
  rewrite foldl_snoc, IH. pose proof (iw_action _ Hwf a) as Ha. unfold get_positions in Ha.
  apply set_eq. intros i. rewrite elem_of_list_to_set, elem_of_positions.
  assert (Hp : i ∈ default [] (action_index l !! a) <->
            exists e, entries l !! i = Some e /\ action_type e = a).
  { rewrite Ha, elem_of_positions. unfold has_action. by setoid_rewrite bool_decide_eq_true. }
  setoid_rewrite bool_decide_eq_true. setoid_rewrite elem_of_app. setoid_rewrite list_elem_of_singleton.
  destruct (action_index l !! a) as [ps|]; cbn in Hp.
  - rewrite elem_of_union, !elem_of_list_to_set, Hp, elem_of_positions.
    setoid_rewrite bool_decide_eq_true. naive_solver.
  - rewrite elem_of_list_to_set, elem_of_positions. setoid_rewrite bool_decide_eq_true.
    split; [naive_solver|]. intros (e & He & [Hin|Ht]); [by eauto|].
    exfalso. eapply not_elem_of_nil, Hp. eauto.
Qed.

Lemma intersect_extra_spec acc extra :
  default ∅ (intersect_extra acc extra)
  = foldl (fun (s : gset nat) set => s ∩ list_to_set set) acc extra.
Proof.
  revert acc. induction extra as [|x extra IH]; intros acc; cbn; [done|].
  case_bool_decide as He; [|apply IH]. cbn. symmetry. rewrite He. clear.
  induction extra as [|x extra IH]; cbn; [done|]. by rewrite (left_absorb_L ∅ (∩)).
Qed.

Lemma intersect_rest_spec acc rest :
  intersect_rest acc rest = foldl (fun (s : gset nat) set => s ∩ list_to_set set) acc rest.
Proof.
  revert acc. induction rest as [|x rest IH]; intros acc; cbn; [done|].
  case_bool_decide as He; [|apply IH]. rewrite He. clear.
  induction rest as [|x rest IH]; cbn; [done|]. by rewrite (left_absorb_L ∅ (∩)).
Qed.

Lemma sorted_elements_empty : sorted_elements ∅ = [].
Proof. done. Qed.

Lemma intersect_with_spec l seed extra a :
  intersect_with l seed extra a
  = sorted_elements
      (foldl (fun (s : gset nat) set => s ∩ list_to_set set) (list_to_set seed)
         (extra ++ match a with Some a => [get_positions (actor_index l) a] | None => [] end)).
Proof.
  unfold intersect_with. rewrite foldl_app, <- (intersect_extra_spec (list_to_set seed) extra).
  assert (Hnone : forall b, sorted_elements (foldl (fun (s : gset nat) set => s ∩ list_to_set set) ∅
            match b with Some b => [get_positions (actor_index l) b] | None => [] end) = []).
  { intros [b|]; cbn; [|done]. by rewrite (left_absorb_L ∅ (∩)). }
  destruct (intersect_extra (list_to_set seed) extra) as [acc|]; [|symmetry; apply Hnone].
  destruct a as [a|]; [|done]. unfold get_positions. cbn.
  destruct (actor_index l !! a); [done|]. cbn. by rewrite (right_absorb_L ∅ (∩)).
Qed.

(** The planner's candidates are the positions it means to select. *)
Lemma candidate_positions_spec l q : index_wf l ->
  match candidate_positions l q with
  | Some ps => ps = positions (planned q) (entries l)
  | None => True
  end.
Proof.
  intros Hwf. unfold candidate_positions.
  destruct (bool_decide (q_action_types q = [])) eqn:Ea; cbn [negb].
  - destruct (q_scope_id q) as [s|] eqn:Es, (q_actor_id q) as [a|] eqn:Er; cbn -[sorted_elements merge_sort].
    + destruct (Permutation_length_2_inv (symmetry (merge_sort_Permutation shorter
        [get_positions (scope_index l) s; get_positions (actor_index l) a]))) as [-> | ->];
        rewrite intersect_rest_spec; cbn -[sorted_elements];
        apply sorted_elements_positions; rewrite (iw_scope _ Hwf), (iw_actor _ Hwf), positions_and;
        f_equal; apply positions_ext; intros e; unfold planned; rewrite Es, Er, Ea; cbn;
        rewrite andb_true_r; [done|apply andb_comm].
    + apply sorted_elements_positions. cbn [intersect_rest]. rewrite (iw_scope _ Hwf). f_equal.
      apply positions_ext. intros e. unfold planned. rewrite Es, Er, Ea. cbn. by rewrite !andb_true_r.
    + apply sorted_elements_positions. cbn [intersect_rest]. rewrite (iw_actor _ Hwf). f_equal.
      apply positions_ext. intros e. unfold planned. by rewrite Es, Er, Ea.
    + done.
  - rewrite intersect_with_spec. apply sorted_elements_positions.
    rewrite (sorted_elements_positions _ (entries l) _ (action_union_positions l (q_action_types q) Hwf)).
    destruct (q_scope_id q) as [s|] eqn:Es, (q_actor_id q) as [a|] eqn:Er; cbn;
      rewrite ?(iw_scope _ Hwf), ?(iw_actor _ Hwf), ?positions_and; f_equal;
      apply positions_ext; intros e; unfold planned; rewrite Es, Er, Ea; cbn;
      rewrite ?andb_true_r; try done; [f_equal|]; apply andb_comm.
Qed.

Lemma query_wf l q : index_wf l -> query l q = Some (base.filter (matches q) (entries l)).
Proof.
  intros Hwf. pose proof (candidate_positions_spec l q Hwf) as Hc. unfold query.
  destruct (candidate_positions l q) as [ps|]; [|done]. subst ps.
  rewrite lookup_positions. cbn. f_equal.
  apply list_filter_filter_l. intros e. rewrite !Is_true_true. apply matches_planned.
Qed.

Lemma get_wf l id :
  index_wf l -> get l id = Some (last (base.filter (has_id id) (entries l))).
Proof.
  intros Hwf. unfold get. rewrite (iw_id _ Hwf), <- last_positions.
  by destruct (last (positions (has_id id) (entries l))).
Qed.

(** The indexed query is the linear scan.  On every log built by appends and
    replays, and on every log deserialised from the wire, [query] never indexes
    out of bounds and returns, in log order, exactly the entries the query
    matches, however the planner combined the scope, action and actor indexes;
    [get] returns the latest entry with the id. *)
Theorem query_exact l q id :
  rtc step new l \/ (exists w, l = deserialize w) ->
  query l q = Some (base.filter (matches q) (entries l)) /\
  get l id = Some (last (base.filter (has_id id) (entries l))).
Proof.
  intros Hl.
  assert (Hwf : index_wf l).
  { destruct Hl as [Hrun|[[es n] ->]]; [|apply index_wf_rebuilt].
    apply (lw_index _ (proj1 (log_wf_run _ _ Hrun audit_log_wf_new))). }
  split; [by apply query_wf|by apply get_wf].
Qed.

(** The log is append-only and numbered.  No mutator changes or drops an
    entry that is there; the [i]-th entry carries sequence number [i] (saturating
    at [u64::MAX]); [append] overwrites whatever sequence number its argument
    claims, while [replay_persisted] refuses any other than the next one and
    then changes nothing; and a log sent over the wire without its indexes comes
    back identical, indexes included. *)
Theorem append_only l l' e :
  rtc step new l -> rtc step l l' ->
  entries l `prefix_of` entries l' /\
  (forall i x, entries l' !! i = Some x -> sequence x = N.min (N.of_nat i) u64_max) /\
  entries (append l e).1 = entries l ++ [with_sequence e (peek_next_sequence l)] /\
  (append l e).2 = entry_id e /\
  (if (sequence e =? peek_next_sequence l)%N
   then replay_persisted e l = ((append l e).1, Ok tt)
   else exists msg, replay_persisted e l = (l, Err (Persistence msg))) /\
  deserialize (serialize l') = l'.
Proof.
  intros H1 H2. destruct (log_wf_run _ _ H1 audit_log_wf_new) as [Hwf _].
  destruct (log_wf_run _ _ H2 Hwf) as [Hwf' Hpre].
  split_and!; [done|apply (lw_sequence _ Hwf')|done|done| |].
  - rewrite replay_pushed, append_pushed. unfold peek_next_sequence.
    destruct (N.eqb_spec (sequence e) (next_sequence l)) as [He|_]; [|by eexists].
    rewrite <- He. by destruct e.
  - symmetry. apply (lw_rebuilt _ Hwf').
Qed.

End AuditFacts.

(** ** A concrete log *)

Section Demo.
#[local] Instance unit_null : Inhabited unit := populate tt.

Definition demo_entry (id : uuid) (who : Actor) (a : AuditActionType) (s : option uuid) :
    AuditEntry unit :=
  mk_entry id 77 100 who a (mk_target TConcept 1) s tt.
Definition demo_log : AuditLog unit :=
  (append (append (append new (demo_entry 10 (User 1) Export (Some 5%N))).1
     (demo_entry 11 System PolicyChange (Some 5%N))).1
     (demo_entry 12 (Agent 1) Export None)).1.

Lemma demo_log_run : rtc step new demo_log.
Proof. do 3 (eapply rtc_l; [apply step_append|]). apply rtc_refl. Defined.

Lemma query_exact_witness :
  query demo_log (with_scope (with_action (with_actor new_query 1) Export) 5)
  = Some [with_sequence (demo_entry 10 (User 1) Export (Some 5%N)) 0].
Proof. rewrite (proj1 (query_exact demo_log _ 0 (or_introl demo_log_run))). reflexivity. Defined.

Lemma append_only_witness : deserialize (serialize demo_log) = demo_log.
Proof. apply (append_only demo_log demo_log (demo_entry 10 System Export None) demo_log_run (rtc_refl _ _)). Defined.

End Demo.
