(* ===== verification/PersistentAuditLog.v ===== *)
(** * The persistent audit log ([audit_service/src/persist.rs])

    An [AuditLog] mirrored into an append-only SQLite table of sealed entries.
    The table is a finite map keyed by the primary key with the [UNIQUE]
    constraint on the sequence number checked at each insertion; what SQLite
    and the random generator answer is an argument of every operation. *)

From stdpp Require Import sorting.
From S2P Require Import Prelude AuditLog.

Section Persist.
Context {Json : Type} {JsonNull : Inhabited Json} {UT : UuidText}.
Context {Key Nonce Bytes : Type} {AE : Aead Key Nonce Bytes} {SE : Serde Bytes (AuditEntry Json)}.

(** One row of [audit_log], less its primary key. *)
Record AuditRow : Type := mk_row {
  row_sequence : Z;
  row_action_type : string;
  row_actor_type : string;
  row_actor_id : string;
  row_target_type : option string;
  row_target_id : option string;
  row_scope_id : option (list N);
  row_created_at : Z;
  row_nonce : Nonce;
  row_payload : Bytes
}.

(** The table of [SCHEMA_SQL] and [PRAGMA user_version]. *)
Record Database : Type := mk_db { audit_log : gmap uuid AuditRow; user_version : Z }.
Definition empty_db : Database := mk_db ∅ 0.
Definition SCHEMA_VERSION : Z := 1.

(** What one call gets from outside: a statement's error, and a nonce. *)
Record Io : Type := mk_io { io_error : option string; io_nonce : Nonce }.

(** [struct PersistentAuditLog]. *)
Record PersistentAuditLog : Type := mk_persistent {
  pl_log : AuditLog Json;
  pl_conn : Database;
  pl_payload_key : Key
}.
Definition with_log (p : PersistentAuditLog) (l : AuditLog Json) : PersistentAuditLog :=
  mk_persistent l (pl_conn p) (pl_payload_key p).

(** ** Helpers *)

(** [actor_tags]. *)
Definition actor_tags (a : Actor) : string * string :=
  match a with
  | User id => ("user", uuid_to_string id)
  | Agent id => ("agent", uuid_to_string id)
  | System => ("system", EmptyString)
  end.

(** [entry_aad]: [sequence.to_le_bytes()] is the two's complement. *)
Definition entry_aad (id : uuid) (sequence : Z) : list N :=
  string_bytes "audit_entry:v1:" ++ be_bytes 16 id
    ++ le_bytes 8 (Z.to_N (sequence mod 18446744073709551616)).

(** [seq_to_i64], [i64_to_seq]. *)
Definition seq_to_i64 (seq : N) : result Z AuditError :=
  if (seq <=? i64_max)%N then Ok (Z.of_N seq)
  else Err (Persistence "audit-log sequence overflows i64 — refusing to persist").
Definition i64_to_seq (seq : Z) : result N AuditError :=
  if (0 <=? seq)%Z then Ok (Z.to_N seq)
  else Err (Persistence "audit-log sequence column is negative — refusing to load").

(** [conn.execute("INSERT INTO audit_log ..")] with the two constraints of the
    schema. *)
Definition insert_row (io : Io) (id : uuid) (row : AuditRow) (db : Database) :
    result Database AuditError :=
  match io_error io with
  | Some msg => Err (Sqlite msg)
  | None =>
      if bool_decide (is_Some (audit_log db !! id)) then
        Err (Sqlite "UNIQUE constraint failed: audit_log.id")
      else if existsb (fun kr => (row_sequence kr.2 =? row_sequence row)%Z) (map_to_list (audit_log db))
      then Err (Sqlite "UNIQUE constraint failed: audit_log.sequence")
      else Ok {| audit_log := <[id := row]> (audit_log db); user_version := user_version db |}
  end.

(** [persist]. *)
Definition persist (io : Io) (e : AuditEntry Json) : eff PersistentAuditLog AuditError unit := fun p =>
  match to_vec e with
  | None => (p, Err (Persistence "audit entry payload could not be serialised"))
  | Some payload =>
      let nonce := io_nonce io in
      let id := entry_id e in
      match seq_to_i64 (sequence e) with
      | Err err => (p, Err err)
      | Ok sequence =>
          let aad := entry_aad id sequence in
          match encrypt_aead (pl_payload_key p) nonce payload aad with
          | None => (p, Err (Crypto "aead"))
          | Some ct =>
              let row := {| row_sequence := sequence;
                            row_action_type := action_str (action_type e);
                            row_actor_type := (actor_tags (actor e)).1;
                            row_actor_id := (actor_tags (actor e)).2;
                            row_target_type := Some (target_str (target_type (target e)));
                            row_target_id := Some (uuid_to_string (target_id (target e)));
                            row_scope_id := be_bytes 16 <$> scope_id e;
                            row_created_at := timestamp e / 1000000;
                            row_nonce := nonce; row_payload := ct |} in
              match insert_row io id row (pl_conn p) with
              | Err err => (p, Err err)
              | Ok db => (mk_persistent (pl_log p) db (pl_payload_key p), Ok tt)
              end
          end
      end
  end.

(** [append]: persist first, then commit to memory. *)
Definition append (io : Io) (e : AuditEntry Json) : eff PersistentAuditLog AuditError uuid := fun p =>
  let e := with_sequence e (peek_next_sequence (pl_log p)) in
  let id := entry_id e in
  match persist io e p with
  | (p, Err err) => (p, Err err)
  | (p, Ok _) =>
      match replay_persisted e (pl_log p) with
      | (l, Err err) => (with_log p l, Err err)
      | (l, Ok _) => (with_log p l, Ok id)
      end
  end.

(** [persisted_count]. *)
Definition persisted_count (p : PersistentAuditLog) : nat := size (audit_log (pl_conn p)).

(** ** Loading *)

(** [ORDER BY sequence ASC]. *)
Definition row_le (a b : uuid * AuditRow) : Prop := (row_sequence a.2 <= row_sequence b.2)%Z.
#[export] Instance row_le_dec : RelDecision row_le.
Proof. intros a b. unfold row_le. apply _. Defined.
Definition select_rows (db : Database) : list (uuid * AuditRow) :=
  merge_sort row_le (map_to_list (audit_log db)).

(** Decrypting, decoding and checking one row. *)
Definition open_row (k : Key) (row : uuid * AuditRow) : result (AuditEntry Json) AuditError :=
  let '(id, r) := row in
  match decrypt_aead k (row_nonce r) (row_payload r) (entry_aad id (row_sequence r)) with
  | None => Err (Crypto "aead")
  | Some pt =>
      match from_slice pt with
      | None => Err (Persistence "audit entry payload is not valid JSON")
      | Some e =>
          if negb (entry_id e =? id)%N then
            Err (Persistence "audit entry id/sequence does not match its row")
          else
            let? n := i64_to_seq (row_sequence r) in
            if negb (n =? sequence e)%N then
              Err (Persistence "audit entry id/sequence does not match its row")
            else Ok e
      end
  end.

(** The loop of [load_all]; the log keeps what was replayed before an error. *)
Fixpoint load_rows (k : Key) (l : AuditLog Json) (rows : list (uuid * AuditRow)) :
    AuditLog Json * result unit AuditError :=
  match rows with
  | [] => (l, Ok tt)
  | row :: rows =>
      match open_row k row with
      | Err err => (l, Err err)
      | Ok e =>
          match replay_persisted e l with
          | (l, Err err) => (l, Err err)
          | (l, Ok _) => load_rows k l rows
          end
      end
  end.

(** [load_all]; [io] is the outcome of the [SELECT]. *)
Definition load_all (io : Io) : eff PersistentAuditLog AuditError unit := fun p =>
  match io_error io with
  | Some msg => (p, Err (Sqlite msg))
  | None =>
      let '(l, r) := load_rows (pl_payload_key p) AuditLog.new (select_rows (pl_conn p)) in
      (with_log p l, r)
  end.

(** [open] on an unlocked database, with the key the derivation returned. *)
Definition open (io : Io) (db : Database) (payload_key : result Key AuditError) :
    result PersistentAuditLog AuditError :=
  if negb (user_version db =? 0)%Z && negb (user_version db =? SCHEMA_VERSION)%Z then
    Err (Persistence "schema version mismatch — refusing to open")
  else
    let db := {| audit_log := audit_log db; user_version := SCHEMA_VERSION |} in
    let? k := payload_key in
    match load_all io (mk_persistent AuditLog.new db k) with
    | (p, Ok _) => Ok p
    | (_, Err err) => Err err
    end.

(** ** Specification *)

(** The rows, in sequence order, open one for one to the entries. *)
Definition mirrors (db : Database) (k : Key) (es : list (AuditEntry Json)) : Prop :=
  exists rows, map_to_list (audit_log db) ≡ₚ rows /\ length rows = length es /\
    forall i r e, rows !! i = Some r -> es !! i = Some e ->
      r.1 = entry_id e /\ row_sequence r.2 = Z.of_nat i /\ open_row k r = Ok e.

(** Disk and memory agree. *)
Definition in_sync (p : PersistentAuditLog) : Prop :=
  log_wf (pl_log p) /\ mirrors (pl_conn p) (pl_payload_key p) (entries (pl_log p)) /\
  (N.of_nat (length (entries (pl_log p))) <= i64_max + 1)%N.

End Persist.
Arguments Database Nonce Bytes : clear implicits.
Arguments Io Nonce : clear implicits.

Section PersistFacts.
Context {Json : Type} {JsonNull : Inhabited Json} {UT : UuidText}.
Context {Key Nonce Bytes : Type} {AE : Aead Key Nonce Bytes} {SE : Serde Bytes (AuditEntry Json)}.
Implicit Types (p : PersistentAuditLog (Json := Json) (Key := Key) (Nonce := Nonce) (Bytes := Bytes))
  (io : Io Nonce) (db : Database Nonce Bytes) (e : AuditEntry Json) (k : Key).

(** ** Writing *)

Lemma insert_row_cases io id row db :
  (exists err, insert_row io id row db = Err err) \/
  (audit_log db !! id = None /\
   (forall id' row', audit_log db !! id' = Some row' -> row_sequence row' <> row_sequence row) /\
   insert_row io id row db
   = Ok {| audit_log := <[id := row]> (audit_log db); user_version := user_version db |}).
Proof.
  unfold insert_row. destruct (io_error io); [by left; eauto|].
  case_bool_decide as Hid; [by left; eauto|].
  destruct (existsb _ _) eqn:Ex; [by left; eauto|]. right. split_and!; [by apply eq_None_not_Some| |done].
  intros id' row' Hrow Hseq. apply not_true_iff_false in Ex. apply Ex.
  apply existsb_exists. exists (id', row'). split; [by apply list_elem_of_In, elem_of_map_to_list|].
  by apply Z.eqb_eq.
Qed.

(** [persist] either refuses and changes nothing, or adds one row that opens to
    the entry. *)
Lemma persist_cases io e p p' r :
  persist io e p = (p', r) -> serde_roundtrips (Bytes := Bytes) e ->
  (is_ok r = false /\ p' = p) \/
  (exists row, r = Ok tt /\ pl_log p' = pl_log p /\ pl_payload_key p' = pl_payload_key p /\
     audit_log (pl_conn p) !! entry_id e = None /\
     audit_log (pl_conn p') = <[entry_id e := row]> (audit_log (pl_conn p)) /\
     row_sequence row = Z.of_N (sequence e) /\ (sequence e <= i64_max)%N /\
     open_row (pl_payload_key p) (entry_id e, row) = Ok e).
Proof.
  unfold persist, seq_to_i64. intros Hp Hrt.
  destruct (to_vec e) as [pt|] eqn:Ev; [|left; by simplify_eq].
  destruct (N.leb_spec (sequence e) i64_max) as [Hle|_]; [|left; by simplify_eq].
  destruct (encrypt_aead _ _ _ _) as [ct|] eqn:Ee; [|left; by simplify_eq].
  match type of Hp with context [insert_row _ _ ?row _] => set (rw := row) in Hp;
    destruct (insert_row_cases io (entry_id e) rw (pl_conn p)) as [[err Hi]|(Hid & Hsq & Hi)] end;
    rewrite Hi in Hp; simplify_eq; [by left|right].
  exists rw. split_and!; try done. subst rw.
  cbn [open_row row_nonce row_payload row_sequence]. rewrite (decrypt_encrypt _ _ _ _ _ Ee), (Hrt _ Ev).
  rewrite N.eqb_refl. cbn. unfold i64_to_seq. rewrite (proj2 (Z.leb_le _ _)) by lia. cbn.
  by rewrite N2Z.id, N.eqb_refl.
Qed.

Lemma mirrors_snoc db db' k es e row :
  mirrors db k es -> audit_log db !! entry_id e = None ->
  audit_log db' = <[entry_id e := row]> (audit_log db) ->
  row_sequence row = Z.of_nat (length es) -> open_row k (entry_id e, row) = Ok e ->
  mirrors db' k (es ++ [e]).
Proof.
  intros (rows & Hperm & Hlen & Hrows) Hid Hdb Hseq Hopen.
  exists (rows ++ [(entry_id e, row)]). split_and!.
  - rewrite Hdb, map_to_list_insert, Hperm by done. apply Permutation_cons_append.
  - rewrite !length_app. cbn. lia.
  - intros i r x Hr Hx. apply lookup_app_Some in Hr as [Hr|[Hge Hr]].
    + rewrite lookup_app_l in Hx; [by eapply Hrows|]. apply lookup_lt_Some in Hr. lia.
    + apply list_lookup_singleton_Some in Hr as [Hi <-].
      rewrite lookup_app_r in Hx by lia. apply list_lookup_singleton_Some in Hx as [Hi' <-].
      split_and!; [done| |done]. cbn. rewrite Hseq. f_equal. lia.
Qed.

(** ** Loading *)

Let le_row := row_le (Nonce := Nonce) (Bytes := Bytes).

Lemma select_rows_mirrors db k es :
  mirrors db k es ->
  length (select_rows db) = length es /\
  forall i r e, select_rows db !! i = Some r -> es !! i = Some e ->
    r.1 = entry_id e /\ row_sequence r.2 = Z.of_nat i /\ open_row k r = Ok e.
Proof.
  intros (rows & Hperm & Hlen & Hrows).
  assert (Hsorted : forall i j r s, (i <= j)%nat -> rows !! i = Some r -> rows !! j = Some s -> row_le r s).
  { intros i j r s Hij Hr Hs.
    destruct (lookup_lt_is_Some_2 es i) as [e He]; [apply lookup_lt_Some in Hr; lia|].
    destruct (lookup_lt_is_Some_2 es j) as [x Hx]; [apply lookup_lt_Some in Hs; lia|].
    destruct (Hrows _ _ _ Hr He) as (_ & H1 & _). destruct (Hrows _ _ _ Hs Hx) as (_ & H2 & _).
    unfold row_le. lia. }
  assert (Heq : select_rows db = rows).
  { assert (Transitive le_row) by (intros a b c; unfold le_row, row_le; lia).
    assert (Total le_row) by (intros a b; unfold le_row, row_le; lia).
    apply (Sorted_unique_strong le_row).
    - intros r s Hr Hs H1 H2.
      assert (Hr' : r ∈ rows) by (by rewrite <- Hperm, <- (merge_sort_Permutation le_row)).
      apply list_elem_of_lookup in Hr' as [i Hi]. apply list_elem_of_lookup in Hs as [j Hj].
      destruct (lookup_lt_is_Some_2 es i) as [e He]; [apply lookup_lt_Some in Hi; lia|].
      destruct (lookup_lt_is_Some_2 es j) as [x Hx]; [apply lookup_lt_Some in Hj; lia|].
      destruct (Hrows _ _ _ Hi He) as (_ & Hsi & _). destruct (Hrows _ _ _ Hj Hx) as (_ & Hsj & _).
      unfold le_row, row_le in *. assert (i = j) by lia. congruence.
    - apply (Sorted_merge_sort le_row).
    - apply StronglySorted_Sorted. clear -Hsorted. induction rows as [|r rows IH]; constructor.
      + apply IH. intros i j a b Hij Ha Hb. apply (Hsorted (S i) (S j)); [lia|done..].
      + apply Forall_forall. intros s Hs. apply list_elem_of_lookup in Hs as [j Hj].
        apply (Hsorted 0%nat (S j)); [lia|done..].
    - unfold select_rows. by rewrite merge_sort_Permutation. }
  rewrite Heq. done.
Qed.

Lemma log_wf_unique (l l' : AuditLog Json) : log_wf l -> log_wf l' -> entries l = entries l' -> l = l'.
Proof.
  intros [_ H1 H2 _] [_ H1' H2' _] He. rewrite H1, H1', H2, H2'. by rewrite He.
Qed.

Lemma load_rows_mirrored k (l : AuditLog Json) rows es :
  log_wf l -> length rows = length es ->
  (forall i r e, rows !! i = Some r -> es !! i = Some e -> open_row k r = Ok e) ->
  (forall i e, es !! i = Some e ->
     sequence e = N.min (N.of_nat (length (entries l) + i)) u64_max) ->
  exists l', load_rows k l rows = (l', Ok tt) /\ log_wf l' /\ entries l' = entries l ++ es.
Proof.
  revert l es. induction rows as [|r rows IH]; intros l es Hwf Hlen Hopen Hseq.
  { destruct es; [|done]. exists l. by rewrite (right_id_L [] (++)). }
  destruct es as [|e es]; [done|]. cbn [load_rows].
  rewrite (Hopen 0%nat r e) by done. rewrite replay_pushed.
  assert (Hse : sequence e = next_sequence l).
  { rewrite (Hseq 0%nat e eq_refl), (lw_next _ Hwf). do 2 f_equal. lia. }
  rewrite Hse, N.eqb_refl.
  destruct (IH (pushed l e) es) as (l' & Hl & Hwf' & He).
  - by apply log_wf_pushed.
  - by injection Hlen.
  - intros i r' x Hr Hx. by apply (Hopen (S i)).
  - intros i x Hx. rewrite (Hseq (S i) x Hx). cbn. rewrite length_app. cbn. do 2 f_equal. lia.
  - exists l'. split_and!; [done|done|]. rewrite He. cbn. by rewrite <- app_assoc.
Qed.

Lemma audit_load_rows_ok k (l l' : AuditLog Json) rows :
  load_rows k l rows = (l', Ok tt) -> log_wf l ->
  log_wf l' /\ exists es, entries l' = entries l ++ es /\ Forall2 (fun r e => open_row k r = Ok e) rows es.
Proof.
  revert l. induction rows as [|r rows IH]; intros l Hl Hwf; cbn [load_rows] in Hl.
  { simplify_eq. split; [done|]. exists []. by rewrite (right_id_L [] (++)). }
  destruct (open_row k r) as [e|] eqn:Er; [|done]. rewrite replay_pushed in Hl.
  destruct (N.eqb_spec (sequence e) (next_sequence l)) as [Hse|]; [|done].
  destruct (IH _ Hl (log_wf_pushed _ _ Hwf Hse)) as (Hwf' & es & He & HF).
  split; [done|]. exists (e :: es). split; [|by constructor]. rewrite He. cbn. by rewrite <- app_assoc.
Qed.

Lemma open_row_ok k r e :
  open_row k r = Ok e -> entry_id e = r.1 /\ row_sequence r.2 = Z.of_N (sequence e).
Proof.
  destruct r as [id r]. cbn [open_row fst snd]. unfold i64_to_seq. intros H.
  repeat (case_match; simplify_eq/=). bool_to_prop. split; [done|]. lia.
Qed.

Lemma load_all_mirrored io p :
  in_sync p -> io_error io = None -> load_all io p = (p, Ok tt).
Proof.
  intros (Hwf & Hm & _) Hio. destruct (select_rows_mirrors _ _ _ Hm) as [Hlen Hrows].
  destruct (load_rows_mirrored (pl_payload_key p) AuditLog.new (select_rows (pl_conn p))
              (entries (pl_log p))) as (l' & Hl & Hwf' & He).
  - apply audit_log_wf_new.
  - done.
  - intros i r e Hr Hx. by apply (Hrows i r e).
  - intros i e He. rewrite (lw_sequence _ Hwf _ _ He). by cbn.
  - unfold load_all. rewrite Hio, Hl. f_equal. destruct p as [l c k]. unfold with_log. cbn in *.
    by rewrite (log_wf_unique l' l).
Qed.

Lemma mirrors_count db k es : mirrors db k es -> size (audit_log db) = length es.
Proof.
  intros (rows & Hp & Hlen & _). rewrite <- Hlen, <- Hp. by rewrite length_map_to_list.
Qed.

(** ** The claims *)

(** An acknowledged audit entry is on disk, and a refused one leaves no
    trace.  With disk and memory in agreement, [append] either succeeds, stamps
    the entry with the next sequence number, appends it to memory exactly as the
    in-memory log would and leaves disk and memory in agreement with one more
    row; or it reports an error, whatever failed, and neither disk nor memory
    nor the sequence counter has changed.  An entry whose id is already in the
    log is always refused. *)
Theorem persistent_append io e p p' r :
  in_sync p -> serde_roundtrips (Bytes := Bytes) (with_sequence e (peek_next_sequence (pl_log p))) ->
  append io e p = (p', r) ->
  ((r = Ok (entry_id e) /\ in_sync p' /\ pl_log p' = (AuditLog.append (pl_log p) e).1 /\
    persisted_count p' = S (persisted_count p))
   \/ (is_ok r = false /\ p' = p)) /\
  (entry_id e ∈ entry_id <$> entries (pl_log p) -> is_ok r = false).
Proof.
  intros (Hwf & Hm & Hroom) Hrt Ha. unfold append in Ha.
  destruct (persist io _ p) as [p1 r1] eqn:Ep.
  apply persist_cases in Ep as [[Hr ->]|(row & -> & Hlog & Hkey & Hid & Hdb & Hseq & Hle & Hopen)];
    [|destruct Hm as (rows & Hperm & Hlen & Hrows)|done].
  { destruct r1 as [|err]; [done|]. simplify_eq. split; [by right|done]. }
  rewrite Hlog, replay_pushed in Ha. cbn [with_sequence sequence] in *.
  unfold peek_next_sequence in *. rewrite N.eqb_refl in Ha. injection Ha as <- <-.
  assert (Hn := lw_next _ Hwf). unfold i64_max, u64_max in *.
  assert (Hm' : mirrors (pl_conn p1) (pl_payload_key p1)
                  (entries (pl_log p) ++ [with_sequence e (next_sequence (pl_log p))])).
  { eapply mirrors_snoc; [rewrite Hkey; by exists rows|exact Hid|exact Hdb| |by rewrite Hkey].
    rewrite Hseq. cbn. lia. }
  split.
  - left. split_and!; [done| |done|].
    + split_and!; [by apply log_wf_pushed|exact Hm'|]. cbn. rewrite length_app. cbn. unfold i64_max. lia.
    + unfold persisted_count. cbn. rewrite Hdb. by apply map_size_insert_None.
  - intros (x & Hx & Hin)%list_elem_of_fmap. exfalso.
    apply list_elem_of_lookup in Hin as [i Hi].
    destruct (lookup_lt_is_Some_2 rows i) as [rw Hrw]; [rewrite Hlen; by eapply lookup_lt_Some|].
    destruct (Hrows _ _ _ Hrw Hi) as (Hrid & _ & _).
    assert (Hel : rw ∈ map_to_list (audit_log (pl_conn p))).
    { rewrite Hperm. by eapply list_elem_of_lookup_2. }
    destruct rw as [id rw]. apply elem_of_map_to_list in Hel. cbn in *. congruence.
Qed.

(** Reopening restores the audit log.  From a database in agreement with
    memory, [open] under the same key succeeds with the identical log (entries,
    sequence counter and every index) and in agreement again; re-hydrating in
    place with [load_all] changes nothing; and the row count is the log's
    length. *)
Theorem audit_reopen io p :
  in_sync p -> io_error io = None -> user_version (pl_conn p) = 0%Z \/ user_version (pl_conn p) = SCHEMA_VERSION ->
  (exists q, open io (pl_conn p) (Ok (pl_payload_key p)) = Ok q /\ pl_log q = pl_log p /\ in_sync q) /\
  load_all io p = (p, Ok tt) /\ persisted_count p = AuditLog.len (pl_log p).
Proof.
  intros Hs Hio Hv. split_and!.
  - unfold open.
    assert (negb (user_version (pl_conn p) =? 0)%Z && negb (user_version (pl_conn p) =? SCHEMA_VERSION)%Z
            = false) as -> by (by destruct Hv as [-> | ->]).
    cbn [try_result].
    set (q := mk_persistent (pl_log p) (mk_db (audit_log (pl_conn p)) SCHEMA_VERSION) (pl_payload_key p)).
    assert (Hq : in_sync q) by exact Hs.
    pose proof (load_all_mirrored io q Hq Hio) as Hl. unfold load_all in *. rewrite Hio in *.
    change (pl_conn q) with (mk_db (audit_log (pl_conn p)) SCHEMA_VERSION) in Hl.
    cbn [pl_conn pl_payload_key] in *. change (pl_payload_key q) with (pl_payload_key p) in Hl.
    destruct (load_rows _ _ _) as [l r]. injection Hl as Hl ->. exists q. split_and!; [|done|done].
    subst l. done.
  - by apply load_all_mirrored.
  - destruct Hs as (_ & Hm & _). by apply (mirrors_count _ _ _ Hm).
Qed.

(** A gap is noticed.  Whatever is in the table, if [open] succeeds then
    every row was loaded: the log has one entry per row, each under its row's id
    and sequence number, and the sequence numbers are [0, 1, 2, ...] without a
    gap.  So a row that was deleted, renumbered or re-labelled makes [open] fail
    instead of shortening the audit trail. *)
Theorem audit_open_complete io db key q :
  open io db key = Ok q ->
  log_wf (pl_log q) /\ audit_log (pl_conn q) = audit_log db /\
  AuditLog.len (pl_log q) = persisted_count q /\
  Forall2 (fun r e => entry_id e = r.1 /\ row_sequence r.2 = Z.of_N (sequence e))
    (select_rows db) (entries (pl_log q)) /\
  (forall i e, entries (pl_log q) !! i = Some e -> sequence e = N.min (N.of_nat i) u64_max).
Proof.
  unfold open, load_all. intros H.
  destruct (negb _ && negb _); [done|]. destruct key as [k|]; [|done]. cbn [try_result] in H.
  destruct (io_error io); [done|]. cbn [pl_payload_key pl_conn] in H.
  destruct (load_rows k AuditLog.new _) as [l r] eqn:El. destruct r as [[]|]; [|done]. injection H as <-.
  destruct (audit_load_rows_ok _ _ _ _ El audit_log_wf_new) as (Hwf & es & He & HF). cbn in He |- *. subst es.
  split_and!; [done|done| | |apply (lw_sequence _ Hwf)].
  - unfold AuditLog.len, persisted_count. cbn. rewrite <- (Forall2_length _ _ _ HF).
    unfold select_rows. rewrite merge_sort_Permutation. by rewrite length_map_to_list.
  - eapply Forall2_impl; [exact HF|]. intros r e. apply open_row_ok.
Qed.

End PersistFacts.

(** ** A concrete database *)

Section Demo.
#[local] Instance unit_null : Inhabited unit := populate tt.
#[local] Instance no_text : UuidText := {| uuid_to_string _ := "-" |}.
#[local] Instance entry_serde : Serde (AuditEntry unit) (AuditEntry unit) :=
  {| to_vec e := Some e; from_slice e := Some e |}.

(** Sealing that adds nothing: enough to run the code on. *)
Definition plain_aead (Bytes : Type) : Aead unit unit Bytes.
Proof.
  refine {| encrypt_aead _ _ pt _ := Some pt; decrypt_aead _ _ ct _ := Some ct |}.
  intros k n pt aad ct H. by symmetry.
Defined.
#[local] Existing Instance plain_aead.

Definition io_fine : Io unit := mk_io None tt.
Definition start : PersistentAuditLog (Json := unit) (Key := unit) (Nonce := unit) (Bytes := AuditEntry unit) :=
  mk_persistent AuditLog.new empty_db tt.
Definition demo_entry : AuditEntry unit :=
  mk_entry 10 77 100 (User 1) Export (mk_target TConcept 1) None tt.
Definition one_entry := (append io_fine demo_entry start).1.

Lemma audit_start_in_sync : in_sync start.
Proof.
  split_and!; [apply audit_log_wf_new| |vm_compute; discriminate].
  exists []. split_and!; [done|done|]. intros i r e Hr. by destruct i.
Defined.

Lemma persistent_append_witness :
  (append io_fine demo_entry start).2 = Ok 10%N /\ in_sync one_entry.
Proof.
  destruct (persistent_append io_fine demo_entry start one_entry (append io_fine demo_entry start).2
    audit_start_in_sync ltac:(intros b [= <-]; reflexivity) (surjective_pairing _))
    as [[(Hr & Hs & _)|[Hr _]] _].
  - split; [exact Hr|exact Hs].
  - exfalso. vm_compute in Hr. discriminate.
Defined.

Lemma one_entry_in_sync : in_sync one_entry.
Proof.
  split_and!; [apply (log_wf_pushed AuditLog.new (with_sequence demo_entry 0) audit_log_wf_new eq_refl)| |
    vm_compute; discriminate].
  exists (map_to_list (audit_log (pl_conn one_entry))). split_and!; [done|vm_compute; reflexivity|].
  intros [|i] r e Hr He; [|by destruct i]. vm_compute in Hr, He. simplify_eq. by vm_compute.
Defined.

Lemma audit_reopen_witness :
  exists q, open io_fine (pl_conn one_entry) (Ok tt) = Ok q /\ pl_log q = pl_log one_entry.
Proof.
  destruct (audit_reopen io_fine one_entry one_entry_in_sync eq_refl (or_introl eq_refl))
    as ((q & Hq & Hl & _) & _).
  exists q. split; [exact Hq|exact Hl].
Defined.

Definition reopened := open io_fine (pl_conn one_entry) (Ok tt).

Lemma audit_open_complete_witness :
  exists q, reopened = Ok q /\ AuditLog.len (pl_log q) = persisted_count q.
Proof.
  destruct reopened as [q|] eqn:E; [|vm_compute in E; discriminate].
  exists q. split; [reflexivity|].
  unfold reopened in E. exact (proj1 (proj2 (proj2 (audit_open_complete _ _ _ _ E)))).
Defined.

End Demo.
