(* ===== verification/ConceptGraph.v ===== *)
(** * The concept graph ([concept_graph/src/node.rs], [edge.rs], [graph.rs],
    [projection.rs], [error.rs])

    The in-memory graph with its two adjacency indexes, its mutators, the typed
    breadth-first traversal and the projection of memory observations into a
    graph. *)

From stdpp Require Import sorting.
From S2P Require Import Prelude.

(** ** Data *)

(** [enum NodeState], [enum RelationType]. *)
Inductive NodeState : Type := Candidate | Canonical | Superseded | Contradicted | Deleted.
Inductive RelationType : Type :=
| IsA | PartOf | DecidedBy | Supersedes | Contradicts | DerivedFrom | AssignedTo.

#[export] Instance NodeState_eq_dec : EqDecision NodeState.
Proof. solve_decision. Defined.
#[export] Instance RelationType_eq_dec : EqDecision RelationType.
Proof. solve_decision. Defined.

(** [NodeState::as_str], [RelationType::as_str], [RelationType::parse_tag]. *)
Definition node_state_str (s : NodeState) : string :=
  match s with
  | Candidate => "candidate"
  | Canonical => "canonical"
  | Superseded => "superseded"
  | Contradicted => "contradicted"
  | Deleted => "deleted"
  end.
Definition relation_str (r : RelationType) : string :=
  match r with
  | IsA => "is_a"
  | PartOf => "part_of"
  | DecidedBy => "decided_by"
  | Supersedes => "supersedes"
  | Contradicts => "contradicts"
  | DerivedFrom => "derived_from"
  | AssignedTo => "assigned_to"
  end.
Definition parse_tag (s : string) : option RelationType :=
  if String.eqb s "is_a" then Some IsA
  else if String.eqb s "part_of" then Some PartOf
  else if String.eqb s "decided_by" then Some DecidedBy
  else if String.eqb s "supersedes" then Some Supersedes
  else if String.eqb s "contradicts" then Some Contradicts
  else if String.eqb s "derived_from" then Some DerivedFrom
  else if String.eqb s "assigned_to" then Some AssignedTo
  else None.

(** [enum GraphError]; driver errors are kept as their message. *)
Inductive GraphError : Type :=
| NodeNotFound (id : uuid)
| EdgeNotFound (id : uuid)
| DuplicateNode (id : uuid)
| DanglingEdge (id : uuid)
| SelfSupersession (id : uuid)
| SelfContradiction (id : uuid)
| Persistence (msg : string)
| Sqlite (msg : string)
| Crypto (msg : string).

(** The hand-written [PartialEq] of [GraphError]. *)
Definition graph_error_eqb (a b : GraphError) : bool :=
  match a, b with
  | NodeNotFound x, NodeNotFound y | EdgeNotFound x, EdgeNotFound y
  | DuplicateNode x, DuplicateNode y | DanglingEdge x, DanglingEdge y
  | SelfSupersession x, SelfSupersession y | SelfContradiction x, SelfContradiction y => N.eqb x y
  | Persistence x, Persistence y => String.eqb x y
  | _, _ => false
  end.

Section Graph.
(** [serde_json::Value], opaque but for [Null]. *)
Context {Json : Type} {JsonNull : Inhabited Json}.

(** [struct ConceptNode], [struct ConceptEdge]. *)
Record ConceptNode : Type := mk_node {
  node_id : uuid;
  node_label : string;
  node_definition : string;
  node_scope_id : uuid;
  node_state : NodeState;
  superseded_by : option uuid;
  node_created_at : instant;
  node_updated_at : instant;
  node_metadata : Json
}.
Record ConceptEdge : Type := mk_edge {
  edge_id : uuid;
  edge_from : uuid;
  edge_to : uuid;
  relation : RelationType;
  edge_scope_id : uuid;
  edge_created_at : instant;
  edge_metadata : Json
}.

(** [ConceptNode::new_candidate], [ConceptEdge::new]: the id and the time
    drawn are arguments. *)
Definition new_candidate (fresh : uuid) (now : instant) (label definition : string) (scope : uuid) :
    ConceptNode :=
  {| node_id := fresh; node_label := label; node_definition := definition; node_scope_id := scope;
     node_state := Candidate; superseded_by := None; node_created_at := now; node_updated_at := now;
     node_metadata := inhabitant |}.
Definition new_edge (fresh : uuid) (now : instant) (from to : uuid) (r : RelationType) (scope : uuid) :
    ConceptEdge :=
  {| edge_id := fresh; edge_from := from; edge_to := to; relation := r; edge_scope_id := scope;
     edge_created_at := now; edge_metadata := inhabitant |}.

Definition with_state (n : ConceptNode) (s : NodeState) (by_ : option uuid) (now : instant) : ConceptNode :=
  mk_node (node_id n) (node_label n) (node_definition n) (node_scope_id n) s by_
    (node_created_at n) now (node_metadata n).

(** [mark_canonical], [mark_superseded_by], [mark_contradicted_by]. *)
Definition mark_canonical (now : instant) (n : ConceptNode) : ConceptNode :=
  with_state n Canonical (superseded_by n) now.
Definition mark_superseded_by (now : instant) (successor : uuid) (n : ConceptNode) : ConceptNode :=
  with_state n Superseded (Some successor) now.
Definition mark_contradicted_by (now : instant) (other : uuid) (n : ConceptNode) : ConceptNode :=
  with_state n Contradicted (Some other) now.

(** [struct ConceptGraph]. *)
Record ConceptGraph : Type := mk_graph {
  nodes : gmap uuid ConceptNode;
  edges : gmap uuid ConceptEdge;
  outgoing : gmap uuid (list uuid);
  incoming : gmap uuid (list uuid)
}.
Definition new : ConceptGraph := mk_graph ∅ ∅ ∅ ∅.
Definition node_count (g : ConceptGraph) : nat := size (nodes g).
Definition edge_count (g : ConceptGraph) : nat := size (edges g).
Definition iter_nodes `{HashOrder} (g : ConceptGraph) : list ConceptNode :=
  (hash_order (map_to_list (nodes g))).*2.
Definition iter_edges `{HashOrder} (g : ConceptGraph) : list ConceptEdge :=
  (hash_order (map_to_list (edges g))).*2.
Definition get_node (g : ConceptGraph) (id : uuid) : option ConceptNode := nodes g !! id.

(** [map.entry(k).or_default()], then [.push(id)]; and
    [if let Some(v) = map.get_mut(&k) { v.retain(|e| *e != id) }]. *)
Definition or_default (m : gmap uuid (list uuid)) (k : uuid) : gmap uuid (list uuid) :=
  match m !! k with Some _ => m | None => <[k := []]> m end.
Definition push_id (m : gmap uuid (list uuid)) (k id : uuid) : gmap uuid (list uuid) :=
  <[k := default [] (m !! k) ++ [id]]> m.
Definition retain_ne (m : gmap uuid (list uuid)) (k id : uuid) : gmap uuid (list uuid) :=
  match m !! k with Some v => <[k := base.filter (fun e => e <> id) v]> m | None => m end.

(** ** Operations *)

(** [ConceptGraph::add_node]. *)
Definition add_node (n : ConceptNode) : eff ConceptGraph GraphError uuid := fun g =>
  match nodes g !! node_id n with
  | Some _ => (g, Err (DuplicateNode (node_id n)))
  | None =>
      let id := node_id n in
      ({| nodes := <[id := n]> (nodes g); edges := edges g;
          outgoing := or_default (outgoing g) id; incoming := or_default (incoming g) id |}, Ok id)
  end.

(** [ConceptGraph::add_edge]. *)
Definition add_edge (e : ConceptEdge) : eff ConceptGraph GraphError uuid := fun g =>
  match nodes g !! edge_from e with
  | None => (g, Err (DanglingEdge (edge_from e)))
  | Some _ =>
      match nodes g !! edge_to e with
      | None => (g, Err (DanglingEdge (edge_to e)))
      | Some _ =>
          let id := edge_id e in
          ({| nodes := nodes g; edges := <[id := e]> (edges g);
              outgoing := push_id (outgoing g) (edge_from e) id;
              incoming := push_id (incoming g) (edge_to e) id |}, Ok id)
      end
  end.

(** The removal of one edge id from [edges] and both indexes, which
    [remove_node]'s loop and [remove_edge] share. *)
Definition drop_edge (g : ConceptGraph) (id : uuid) : ConceptGraph :=
  match edges g !! id with
  | None => g
  | Some e =>
      {| nodes := nodes g; edges := base.delete id (edges g);
         outgoing := retain_ne (outgoing g) (edge_from e) id;
         incoming := retain_ne (incoming g) (edge_to e) id |}
  end.

(** [ConceptGraph::remove_node]. *)
Definition remove_node `{HashOrder} (id : uuid) : eff ConceptGraph GraphError ConceptNode := fun g =>
  match nodes g !! id with
  | None => (g, Err (NodeNotFound id))
  | Some n =>
      let out := default [] (outgoing g !! id) in
      let inc := default [] (incoming g !! id) in
      let g := {| nodes := base.delete id (nodes g); edges := edges g;
                  outgoing := base.delete id (outgoing g); incoming := base.delete id (incoming g) |} in
      let to_remove : gset uuid := list_to_set out ∪ list_to_set inc in
      (foldl drop_edge g (hash_order (elements to_remove)), Ok n)
  end.

(** [ConceptGraph::remove_edge]. *)
Definition remove_edge (id : uuid) : eff ConceptGraph GraphError ConceptEdge := fun g =>
  match edges g !! id with
  | None => (g, Err (EdgeNotFound id))
  | Some e => (drop_edge g id, Ok e)
  end.

(** [ConceptGraph::get_node_mut]: what the caller does to the node is [f]. *)
Definition get_node_mut (f : ConceptNode -> ConceptNode) (id : uuid) (g : ConceptGraph) : ConceptGraph :=
  {| nodes := alter f id (nodes g); edges := edges g; outgoing := outgoing g; incoming := incoming g |}.

(** [ConceptGraph::get_edges]. *)
Definition edges_of (g : ConceptGraph) (ids : list uuid) : list ConceptEdge :=
  omap (fun id => edges g !! id) ids.
Definition get_edges (g : ConceptGraph) (id : uuid) : list ConceptEdge :=
  edges_of g (default [] (outgoing g !! id)) ++ edges_of g (default [] (incoming g !! id)).

(** [ConceptGraph::neighbors]: the loop keeps the [seen] set and the output. *)
Definition neighbors_step (g : ConceptGraph) (r : option RelationType)
    (acc : gset uuid * list uuid) (id : uuid) : gset uuid * list uuid :=
  let '(seen, out) := acc in
  match edges g !! id with
  | None => acc
  | Some e =>
      if match r with Some r => negb (bool_decide (r = relation e)) | None => false end then acc
      else if bool_decide (edge_to e ∈ seen) then acc
      else ({[edge_to e]} ∪ seen, out ++ [edge_to e])
  end.
Definition neighbors (g : ConceptGraph) (id : uuid) (r : option RelationType) : list uuid :=
  match outgoing g !! id with
  | None => []
  | Some ids => (foldl (neighbors_step g r) (∅, []) ids).2
  end.

(** [ConceptGraph::supersede_node]. *)
Definition supersede_node (fresh : uuid) (now : instant) (predecessor successor : uuid) :
    eff ConceptGraph GraphError uuid := fun g =>
  if (predecessor =? successor)%N then (g, Err (SelfSupersession predecessor))
  else
    match nodes g !! successor with
    | None => (g, Err (NodeNotFound successor))
    | Some _ =>
        match nodes g !! predecessor with
        | None => (g, Err (NodeNotFound predecessor))
        | Some pred =>
            let g := get_node_mut (mark_superseded_by now successor) predecessor g in
            add_edge (new_edge fresh now predecessor successor Supersedes (node_scope_id pred)) g
        end
    end.

(** [ConceptGraph::mark_contradiction]. *)
Definition mark_contradiction (fresh1 fresh2 : uuid) (now : instant) (a b : uuid) :
    eff ConceptGraph GraphError (uuid * uuid) := fun g =>
  if (a =? b)%N then (g, Err (SelfContradiction a))
  else
    match nodes g !! a with
    | None => (g, Err (NodeNotFound a))
    | Some na =>
        match nodes g !! b with
        | None => (g, Err (NodeNotFound b))
        | Some nb =>
            let g := get_node_mut (mark_contradicted_by now b) a g in
            let g := get_node_mut (mark_contradicted_by now a) b g in
            (do? e1 := add_edge (new_edge fresh1 now a b Contradicts (node_scope_id na)) in
             do? e2 := add_edge (new_edge fresh2 now b a Contradicts (node_scope_id nb)) in
             ret (e1, e2)) g
        end
    end.

(** [ConceptGraph::traverse_typed]: the inner loop over the neighbours, and the
    queue loop with fuel. *)
Definition visit (depth : nat) (acc : gset uuid * list (uuid * nat) * list uuid) (n : uuid) :
    gset uuid * list (uuid * nat) * list uuid :=
  let '(visited, frontier, out) := acc in
  if bool_decide (n ∈ visited) then acc
  else ({[n]} ∪ visited, frontier ++ [(n, depth)], out ++ [n]).
Fixpoint traverse_loop (fuel : nat) (g : ConceptGraph) (r : RelationType) (max_depth : option nat)
    (visited : gset uuid) (frontier : list (uuid * nat)) (out : list uuid) : option (list uuid) :=
  match frontier with
  | [] => Some out
  | (node, depth) :: frontier =>
      match fuel with
      | O => None
      | S fuel =>
          if match max_depth with Some max => (max <=? depth)%nat | None => false end
          then traverse_loop fuel g r max_depth visited frontier out
          else
            let next_depth := S depth in
            let '(visited, frontier, out) :=
              foldl (visit next_depth) (visited, frontier, out) (neighbors g node (Some r)) in
            traverse_loop fuel g r max_depth visited frontier out
      end
  end.
(** Every iteration pops one entry, and each edge target is pushed once. *)
Definition traverse_fuel (g : ConceptGraph) : nat := S (edge_count g).
Definition traverse_typed (g : ConceptGraph) (start : uuid) (r : RelationType) (max_depth : option nat) :
    option (list uuid) :=
  traverse_loop (traverse_fuel g) g r max_depth {[start]} [(start, 0%nat)] [].

(** ** The projection *)

Definition SUPERSEDES_EDGE_NAMESPACE : uuid := 0x6b9c2d107a444f1e9c3b5e8d21a70f64.

(** [struct MemoryProjection] and [into_node]. *)
Record MemoryProjection : Type := mk_projection {
  pj_id : uuid;
  pj_scope_id : uuid;
  pj_label : string;
  pj_definition : string;
  pj_state : NodeState;
  pj_superseded_by : option uuid;
  pj_created_at : instant;
  pj_updated_at : instant;
  pj_metadata : Json
}.
Definition into_node (p : MemoryProjection) : ConceptNode :=
  mk_node (pj_id p) (pj_label p) (pj_definition p) (pj_scope_id p) (pj_state p) (pj_superseded_by p)
    (pj_created_at p) (pj_updated_at p) (pj_metadata p).

(** [supersedes_edge_id]. *)
Definition supersedes_edge_id `{UuidV5} (successor predecessor : uuid) : uuid :=
  uuid_v5 SUPERSEDES_EDGE_NAMESPACE (be_bytes 16 successor ++ be_bytes 16 predecessor).

(** The two loops of [project_memory_graph]; [now i] is the time the [i]-th
    edge draws. *)
Definition project_item (acc : ConceptGraph * list (uuid * uuid * uuid) * gset uuid) (p : MemoryProjection) :
    ConceptGraph * list (uuid * uuid * uuid) * gset uuid :=
  let '(g, pending, present) := acc in
  let id := pj_id p in
  let pending := match pj_superseded_by p with
                 | Some succ => if (succ =? id)%N then pending else pending ++ [(succ, id, pj_scope_id p)]
                 | None => pending
                 end in
  match add_node (into_node p) g with
  | (g, Ok _) => (g, pending, {[id]} ∪ present)
  | (g, Err _) => (g, pending, present)
  end.
Definition project_edge `{UuidV5} (now : instant) (present : gset uuid) (g : ConceptGraph)
    (x : uuid * uuid * uuid) : ConceptGraph :=
  let '(successor, predecessor, scope) := x in
  if bool_decide (successor ∉ present) || bool_decide (predecessor ∉ present) then g
  else (add_edge (new_edge (supersedes_edge_id successor predecessor) now successor predecessor
                    Supersedes scope) g).1.
Fixpoint project_edges `{UuidV5} (now : nat -> instant) (i : nat) (present : gset uuid)
    (g : ConceptGraph) (pending : list (uuid * uuid * uuid)) : ConceptGraph :=
  match pending with
  | [] => g
  | x :: pending => project_edges now (S i) present (project_edge (now i) present g x) pending
  end.
Definition project_memory_graph `{UuidV5} (now : nat -> instant) (items : list MemoryProjection) :
    ConceptGraph :=
  let '(g, pending, present) := foldl project_item (new, [], ∅) items in
  project_edges now 0 present g pending.

End Graph.
Arguments ConceptNode Json : clear implicits.
Arguments ConceptEdge Json : clear implicits.
Arguments ConceptGraph Json : clear implicits.
Arguments MemoryProjection Json : clear implicits.

Section GraphFacts.
Context {Json : Type} {JsonNull : Inhabited Json}.
Implicit Types (g : ConceptGraph Json) (n : ConceptNode Json) (e : ConceptEdge Json)
  (m : gmap uuid (list uuid)) (ns : gmap uuid (ConceptNode Json)) (es : gmap uuid (ConceptEdge Json)).

(** ** One adjacency index *)

(** [m] lists, for every node and in no other row, the edges whose [side]
    endpoint it is, once each. *)
Record index_ok ns es (side : ConceptEdge Json -> uuid) m : Prop := {
  io_dom : forall x, is_Some (m !! x) <-> is_Some (ns !! x);
  io_nodup : forall x, NoDup (default [] (m !! x));
  io_ids : forall x id, id ∈ default [] (m !! x) <-> exists e, es !! id = Some e /\ side e = x
}.

Lemma index_ok_add_node ns es side m n id :
  index_ok ns es side m -> ns !! id = None -> index_ok (<[id := n]> ns) es side (or_default m id).
Proof.
  intros [Hd Hn Hi] Hid.
  assert (Hm : m !! id = None).
  { apply eq_None_not_Some. rewrite Hd, Hid. by intros []. }
  assert (Hdef : forall x, default [] (<[id := []]> m !! x) = default [] (m !! x)).
  { intros x. destruct (decide (id = x)) as [<-|]; [|by rewrite lookup_insert_ne].
    by rewrite lookup_insert_eq, Hm. }
  unfold or_default. rewrite Hm. split.
  - intros x. rewrite !lookup_insert_is_Some, Hd. done.
  - intros x. by rewrite Hdef.
  - intros x i. by rewrite Hdef.
Qed.

Lemma index_ok_add_edge ns es side m e :
  index_ok ns es side m -> es !! edge_id e = None -> is_Some (ns !! side e) ->
  index_ok ns (<[edge_id e := e]> es) side (push_id m (side e) (edge_id e)).
Proof.
  intros [Hd Hn Hi] Hid Hs. unfold push_id. split.
  - intros x. rewrite lookup_insert_is_Some, Hd. split; [|destruct (decide (side e = x)); auto].
    intros [<-|[_ H]]; done.
  - intros x. destruct (decide (side e = x)) as [<-|]; [|by rewrite lookup_insert_ne].
    rewrite lookup_insert_eq. cbn. apply NoDup_app. split_and!; [done| |apply NoDup_singleton].
    intros i Hin ->%list_elem_of_singleton. apply Hi in Hin as (x & Hx & _). congruence.
  - intros x i. destruct (decide (side e = x)) as [Hx|Hx].
    + subst x. rewrite lookup_insert_eq. cbn. rewrite elem_of_app, Hi, list_elem_of_singleton.
      split.
      * intros [(y & Hy & Hsy)| ->]; [|exists e; by rewrite lookup_insert_eq].
        exists y. rewrite lookup_insert_ne by congruence. done.
      * intros (y & [[<- <-]|[_ Hy]]%lookup_insert_Some & Hsy); [by right|left; eauto].
    + rewrite lookup_insert_ne by done. rewrite Hi. split.
      * intros (y & Hy & Hsy). exists y. rewrite lookup_insert_ne by congruence. done.
      * intros (y & [[<- <-]|[_ Hy]]%lookup_insert_Some & Hsy); [done|eauto].
Qed.

Lemma index_ok_drop ns es side m id e :
  index_ok ns es side m -> es !! id = Some e ->
  index_ok ns (base.delete id es) side (retain_ne m (side e) id).
Proof.
  intros [Hd Hn Hi] He.
  assert (Hret : forall x, default [] (retain_ne m (side e) id !! x)
            = if decide (side e = x) then base.filter (fun i => i <> id) (default [] (m !! x))
              else default [] (m !! x)).
  { intros x. unfold retain_ne. destruct (m !! side e) as [v|] eqn:Ev.
    - destruct (decide (side e = x)) as [<-|]; [|by rewrite lookup_insert_ne].
      by rewrite lookup_insert_eq, Ev.
    - destruct (decide (side e = x)) as [<-|]; [|done]. by rewrite Ev. }
  split.
  - intros x. rewrite <- Hd. unfold retain_ne. destruct (m !! side e) as [v|] eqn:Ev; [|done].
    rewrite lookup_insert_is_Some. split; [|destruct (decide (side e = x)); auto].
    intros [<-|[_ H]]; [by rewrite Ev|done].
  - intros x. rewrite Hret. case_decide; [|done]. by apply NoDup_filter.
  - intros x i. rewrite Hret.
    assert (Hdel : (exists y, base.delete id es !! i = Some y /\ side y = x)
              <-> i <> id /\ exists y, es !! i = Some y /\ side y = x).
    { setoid_rewrite lookup_delete_Some. naive_solver. }
    rewrite Hdel. case_decide as Hx.
    + rewrite list_elem_of_filter, Hi. done.
    + rewrite Hi. split; [|by intros [_ H]]. intros (y & Hy & Hsy). split; [|eauto].
      intros ->. congruence.
Qed.

Lemma index_ok_nodes ns ns' es side m :
  (forall x, is_Some (ns !! x) <-> is_Some (ns' !! x)) -> index_ok ns es side m -> index_ok ns' es side m.
Proof. intros H [Hd Hn Hi]. split; [|done..]. intros x. by rewrite Hd. Qed.

Lemma index_ok_delete ns es side m id :
  index_ok ns es side m -> (forall i e, es !! i = Some e -> side e <> id) ->
  index_ok (base.delete id ns) es side (base.delete id m).
Proof.
  intros [Hd Hn Hi] Hno.
  split; intros x; (destruct (decide (id = x)) as [<-|Hne];
    [rewrite !lookup_delete_eq|rewrite !lookup_delete_ne by done]).
  - done.
  - apply Hd.
  - constructor.
  - apply Hn.
  - intros i. cbn. rewrite elem_of_nil. split; [done|]. intros (e & He & Hs). by apply (Hno i e).
  - apply Hi.
Qed.

(** ** The graph invariant *)

Record graph_wf g : Prop := {
  gw_id : forall id n, nodes g !! id = Some n -> node_id n = id;
  gw_edge : forall id e, edges g !! id = Some e ->
    edge_id e = id /\ is_Some (nodes g !! edge_from e) /\ is_Some (nodes g !! edge_to e);
  gw_out : index_ok (nodes g) (edges g) edge_from (outgoing g);
  gw_in : index_ok (nodes g) (edges g) edge_to (incoming g)
}.

Lemma graph_wf_new : graph_wf new.
Proof.
  assert (Hidx : forall side, index_ok (∅ : gmap uuid (ConceptNode Json)) ∅ side ∅).
  { intros side. split; intros x.
    - by rewrite !lookup_empty.
    - rewrite lookup_empty. constructor.
    - intros i. rewrite lookup_empty. cbn. rewrite elem_of_nil. split; [done|].
      intros (e & He & _). by rewrite lookup_empty in He. }
  unfold new. split; cbn; [intros *; by rewrite lookup_empty..|apply Hidx|apply Hidx].
Qed.

Lemma graph_wf_add_node n g : graph_wf g -> graph_wf (add_node n g).1.
Proof.
  intros Hwf. destruct Hwf as [Hid He Ho Hi] eqn:Ew. clear Ew. unfold add_node.
  destruct (nodes g !! node_id n) eqn:En; [by exact Hwf|]. split; cbn.
  - intros i x [[<- <-]|[_ Hx]]%lookup_insert_Some; eauto.
  - intros i e Hie. destruct (He i e Hie) as (? & ? & ?).
    rewrite !lookup_insert_is_Some. split_and!; [done|..];
      (destruct (decide (node_id n = edge_from e)), (decide (node_id n = edge_to e)); auto).
  - by apply index_ok_add_node.
  - by apply index_ok_add_node.
Qed.

(** Adding an edge under a new id between existing nodes. *)
Lemma graph_wf_add_edge e g :
  graph_wf g -> edges g !! edge_id e = None -> graph_wf (add_edge e g).1.
Proof.
  intros Hwf Hne. destruct Hwf as [Hid He Ho Hi] eqn:Ew. clear Ew. unfold add_edge.
  destruct (nodes g !! edge_from e) eqn:Ef; [|exact Hwf].
  destruct (nodes g !! edge_to e) eqn:Et; [|exact Hwf]. split; cbn.
  - done.
  - intros i x [[<- <-]|[_ Hx]]%lookup_insert_Some; [|by apply He]. rewrite Ef, Et. done.
  - apply index_ok_add_edge; [done|done|]. by rewrite Ef.
  - apply index_ok_add_edge; [done|done|]. by rewrite Et.
Qed.

Lemma graph_wf_drop_edge g id : graph_wf g -> graph_wf (drop_edge g id).
Proof.
  intros Hwf. destruct Hwf as [Hid He Ho Hi] eqn:Ew. clear Ew. unfold drop_edge.
  destruct (edges g !! id) as [e|] eqn:Ee; [|exact Hwf]. split; cbn.
  - done.
  - intros i x [_ Hx]%lookup_delete_Some. by apply He.
  - by apply index_ok_drop.
  - by apply index_ok_drop.
Qed.

Lemma graph_wf_get_node_mut f id g :
  graph_wf g -> (forall n, node_id (f n) = node_id n) -> graph_wf (get_node_mut f id g).
Proof.
  intros [Hid He Ho Hi] Hf.
  assert (Hdom : forall x, is_Some (nodes g !! x) <-> is_Some (alter f id (nodes g) !! x)).
  { intros x. by rewrite lookup_alter_is_Some. }
  split; cbn.
  - intros i n Hn. destruct (decide (id = i)) as [<-|Hne].
    + rewrite lookup_alter_eq in Hn. apply fmap_Some in Hn as (n' & Hn' & ->). rewrite Hf. by apply Hid.
    + rewrite lookup_alter_ne in Hn by done. by apply Hid.
  - intros i e Hie. rewrite <- !Hdom. by apply He.
  - by eapply index_ok_nodes.
  - by eapply index_ok_nodes.
Qed.

Lemma foldl_drop_edge_nodes g ids : nodes (foldl drop_edge g ids) = nodes g.
Proof.
  revert g. induction ids as [|id ids IH]; intros g; [done|]. cbn. rewrite IH.
  unfold drop_edge. by destruct (edges g !! id).
Qed.

Lemma lookup_drop_edge g id i :
  edges (drop_edge g id) !! i = if decide (i = id) then None else edges g !! i.
Proof.
  unfold drop_edge. destruct (edges g !! id) as [e|] eqn:Ee; cbn.
  - case_decide as Hi; [subst; by rewrite lookup_delete_eq|by rewrite lookup_delete_ne].
  - case_decide as Hi; [by subst|done].
Qed.

Lemma lookup_foldl_drop_edge g ids i :
  edges (foldl drop_edge g ids) !! i = if decide (i ∈ ids) then None else edges g !! i.
Proof.
  revert g. induction ids as [|id ids IH]; intros g; cbn.
  { rewrite decide_False; [done|]. by intros ?%elem_of_nil. }
  rewrite IH, lookup_drop_edge. repeat case_decide; set_solver.
Qed.

(** Deleting a node's row and dropping edges commute. *)
Definition drop_node g (id : uuid) : ConceptGraph Json :=
  mk_graph (base.delete id (nodes g)) (edges g) (base.delete id (outgoing g)) (base.delete id (incoming g)).

Lemma retain_ne_delete m k k' id :
  retain_ne (base.delete k m) k' id = base.delete k (retain_ne m k' id).
Proof.
  unfold retain_ne. destruct (decide (k = k')) as [<-|Hne].
  - rewrite lookup_delete_eq. destruct (m !! k); [|done]. by rewrite delete_insert_eq.
  - rewrite lookup_delete_ne by done. destruct (m !! k'); [|done]. by rewrite delete_insert_ne.
Qed.

Lemma foldl_drop_edge_drop_node g id ids :
  foldl drop_edge (drop_node g id) ids = drop_node (foldl drop_edge g ids) id.
Proof.
  revert g. induction ids as [|i ids IH]; intros g; [done|]. cbn. rewrite <- IH. f_equal.
  unfold drop_edge, drop_node. cbn. destruct (edges g !! i); [|done]. cbn. by rewrite !retain_ne_delete.
Qed.

Lemma remove_node_spec `{HashOrder} id n g :
  graph_wf g -> nodes g !! id = Some n ->
  (remove_node id g).2 = Ok n /\ graph_wf (remove_node id g).1 /\
  nodes (remove_node id g).1 = base.delete id (nodes g) /\
  forall i, edges (remove_node id g).1 !! i
            = match edges g !! i with
              | Some e => if (edge_from e =? id)%N || (edge_to e =? id)%N then None else Some e
              | None => None
              end.
Proof.
  intros Hwf Hn. unfold remove_node. rewrite Hn. cbn [fst snd].
  set (ids := hash_order _). change (mk_graph _ _ _ _) with (drop_node g id).
  rewrite foldl_drop_edge_drop_node.
  assert (Hids : forall i, i ∈ ids <-> exists e, edges g !! i = Some e /\ (edge_from e = id \/ edge_to e = id)).
  { intros i. unfold ids. rewrite elem_of_hash_order, elem_of_elements, elem_of_union, !elem_of_list_to_set.
    rewrite (io_ids _ _ _ _ (gw_out _ Hwf)), (io_ids _ _ _ _ (gw_in _ Hwf)). naive_solver. }
  set (g' := foldl drop_edge g ids).
  assert (Hwf' : graph_wf g') by (apply foldl_preserves; [intros; by apply graph_wf_drop_edge|done]).
  assert (Hedges : forall i, edges g' !! i
            = match edges g !! i with
              | Some e => if (edge_from e =? id)%N || (edge_to e =? id)%N then None else Some e
              | None => None
              end).
  { intros i. unfold g'. rewrite lookup_foldl_drop_edge. case_decide as Hi.
    - apply Hids in Hi as (e & He & Hor). rewrite He.
      destruct Hor as [->| ->]; by rewrite N.eqb_refl, ?orb_true_r.
    - destruct (edges g !! i) as [e|] eqn:Ee; [|done].
      destruct ((edge_from e =? id)%N || (edge_to e =? id)%N) eqn:Eb; [|done].
      exfalso. apply Hi, Hids. exists e. split; [done|].
      apply orb_true_iff in Eb as [Hf%N.eqb_eq|Ht%N.eqb_eq]; auto. }
  assert (Hno : forall i e, edges g' !! i = Some e -> edge_from e <> id /\ edge_to e <> id).
  { intros i e He. rewrite Hedges in He. destruct (edges g !! i); [|done].
    destruct ((_ =? _)%N || _) eqn:Eb; [done|]. simplify_eq. bool_to_prop. done. }
  split_and!; [done| |by cbn; unfold g'; rewrite foldl_drop_edge_nodes|done].
  destruct Hwf' as [H1 H2 H3 H4]. split; cbn.
  - intros i x [_ Hx]%lookup_delete_Some. by apply H1.
  - intros i e He. destruct (H2 i e He) as (? & ? & ?). destruct (Hno i e He).
    by rewrite !lookup_delete_ne.
  - apply index_ok_delete; [done|]. intros i e He. by apply (Hno i e).
  - apply index_ok_delete; [done|]. intros i e He. by apply (Hno i e).
Qed.

(** ** Neighbours *)

(** There is an edge of the given relation from [x] to [y]. *)
Definition linked g (r : option RelationType) (x y : uuid) : Prop :=
  exists id e, edges g !! id = Some e /\ edge_from e = x /\ edge_to e = y /\
    match r with Some r => relation e = r | None => True end.

Lemma neighbors_fold g r ids :
  let '(seen, out) := foldl (neighbors_step g r) (∅, []) ids in
  NoDup out /\ (forall y, y ∈ seen <-> y ∈ out) /\
  (forall y, y ∈ out <-> exists id e, id ∈ ids /\ edges g !! id = Some e /\ edge_to e = y /\
     match r with Some r => relation e = r | None => True end).
Proof.
  induction ids as [|id ids IH] using rev_ind; cbn.
  { split_and!; [constructor|set_solver|]. intros y. rewrite elem_of_nil. split; [done|].
    intros (i & e & Hi & _). by apply elem_of_nil in Hi. }
  rewrite foldl_snoc. destruct (foldl _ _ ids) as [seen out]. destruct IH as (Hnd & Hseen & Hout).
  assert (Hskip : (forall e, edges g !! id = Some e ->
              (match r with Some r => relation e = r | None => True end) -> edge_to e ∈ out) ->
            forall y, y ∈ out <-> exists i e, i ∈ ids ++ [id] /\ edges g !! i = Some e /\ edge_to e = y /\
              match r with Some r => relation e = r | None => True end).
  { intros Hin y. rewrite Hout. split.
    - intros (i & e & Hi & H). exists i, e. split; [|done]. apply elem_of_app. by left.
    - intros (i & e & [Hi| ->%list_elem_of_singleton]%elem_of_app & He & Ht & Hr); [by eauto 6|].
      rewrite <- Hout, <- Ht. by apply Hin. }
  unfold neighbors_step. destruct (edges g !! id) as [e|] eqn:Ee.
  2:{ split_and!; [done|done|]. apply Hskip. intros; congruence. }
  destruct (match r with Some r => negb (bool_decide (r = relation e)) | None => false end) eqn:Er.
  { split_and!; [done|done|]. apply Hskip. intros e' [= <-] Hr. destruct r as [r|]; [|done].
    bool_to_prop. congruence. }
  case_bool_decide as Hs.
  { split_and!; [done|done|]. apply Hskip. intros e' [= <-] _. by apply Hseen. }
  split_and!.
  - apply NoDup_app. split_and!; [done| |apply NoDup_singleton].
    intros y Hy ->%list_elem_of_singleton. by apply Hs, Hseen.
  - intros y. rewrite elem_of_union, elem_of_app, elem_of_singleton, list_elem_of_singleton, Hseen. tauto.
  - intros y. rewrite elem_of_app, Hout, list_elem_of_singleton. split.
    + intros [(i & e' & Hi & H)| ->].
      * exists i, e'. split; [|done]. apply elem_of_app. by left.
      * exists id, e. split_and!; [apply elem_of_app; right; by apply list_elem_of_singleton|done|done|].
        destruct r as [r|]; [|done]. bool_to_prop. done.
    + intros (i & e' & [Hi| ->%list_elem_of_singleton]%elem_of_app & He & Ht & Hr); [left; eauto 6|].
      right. congruence.
Qed.

Lemma neighbors_spec g x r :
  graph_wf g -> NoDup (neighbors g x r) /\ forall y, y ∈ neighbors g x r <-> linked g r x y.
Proof.
  intros Hwf. pose proof (io_ids _ _ _ _ (gw_out _ Hwf) x) as Hids. unfold neighbors, linked.
  destruct (outgoing g !! x) as [ids|]; cbn in Hids.
  - pose proof (neighbors_fold g r ids) as H. destruct (foldl _ _ ids) as [seen out].
    destruct H as (Hnd & _ & Hout). split; [done|]. intros y. cbn. rewrite Hout. split.
    + intros (id & e & Hi & He & Ht & Hr). apply Hids in Hi as (e' & He' & Hf).
      exists id, e. assert (e' = e) as -> by congruence. done.
    + intros (id & e & He & Hf & Ht & Hr). exists id, e. split_and!; [apply Hids; eauto|done..].
  - split; [constructor|]. intros y. split; [by intros ?%elem_of_nil|].
    intros (id & e & He & Hf & _). exfalso. eapply elem_of_nil, Hids. eauto.
Qed.

(** ** Breadth-first traversal *)

(** [x] is exactly [k] hops from [start]. *)
Definition distance g (r : RelationType) (start : uuid) (k : nat) (x : uuid) : Prop :=
  nsteps (linked g (Some r)) k start x /\
  forall j, (j < k)%nat -> ~ nsteps (linked g (Some r)) j start x.

Definition within (max_depth : option nat) (k : nat) : Prop :=
  match max_depth with Some m => (k <= m)%nat | None => True end.

Section Bfs.
Context (g : ConceptGraph Json) (r : RelationType) (start : uuid) (max_depth : option nat).
Hypothesis Hwf : graph_wf g.
Let dist := distance g r start.

Lemma dist_unique j k x : dist j x -> dist k x -> j = k.
Proof.
  intros [Hj Hnj] [Hk Hnk]. destruct (Nat.lt_trichotomy j k) as [H|[H|H]]; [|done|].
  - by destruct (Hnk j H).
  - by destruct (Hnj k H).
Qed.

Lemma dist_start : dist 0 start.
Proof. split; [constructor|]. intros j Hj. lia. Qed.

(** The nodes [k] hops away, with repetitions. *)
Fixpoint level (k : nat) : list uuid :=
  match k with O => [start] | S k => level k ≫= fun x => neighbors g x (Some r) end.

Lemma elem_of_level k x : x ∈ level k <-> nsteps (linked g (Some r)) k start x.
Proof.
  revert x. induction k as [|k IH]; intros x; cbn [level].
  - rewrite list_elem_of_singleton. split; [intros ->; constructor|]. by inversion 1.
  - rewrite list_elem_of_bind. split.
    + intros (y & Hx & Hy%IH). apply (neighbors_spec _ _ _ Hwf) in Hx. by eapply nsteps_r.
    + intros (y & Hy & Hx)%nsteps_inv_r. exists y. rewrite IH. split; [|done].
      by apply (neighbors_spec _ _ _ Hwf).
Qed.

Lemma nsteps_dist k x : nsteps (linked g (Some r)) k start x -> exists j, (j <= k)%nat /\ dist j x.
Proof.
  induction k as [k IH] using lt_wf_ind. intros Hk.
  destruct (decide (Exists (fun j => x ∈ level j) (seq 0 k))) as [He|Hn].
  - apply Exists_exists in He as (j & [_ Hj]%elem_of_seq & Hl%elem_of_level).
    destruct (IH j Hj Hl) as (i & Hi & Hd). exists i. split; [lia|done].
  - exists k. split; [lia|]. split; [done|]. intros j Hj Hs. apply Hn, Exists_exists.
    exists j. split; [apply elem_of_seq; lia|by apply elem_of_level].
Qed.

(** The predecessor on a shortest path. *)
Lemma dist_pred k x : dist (S k) x -> exists y, dist k y /\ linked g (Some r) y x.
Proof.
  intros [Hs Hn]. apply nsteps_inv_r in Hs as (y & Hy & Hl). exists y. split; [|done].
  split; [done|]. intros j Hj Hs. apply (Hn (S j)); [lia|]. by eapply nsteps_r.
Qed.

Lemma dist_succ k x y :
  dist k x -> linked g (Some r) x y -> exists j, (j <= S k)%nat /\ dist j y.
Proof. intros [Hs _] Hl. apply nsteps_dist. by eapply nsteps_r. Qed.

(** The loop's invariant while nodes at distance [d] are being expanded: [now]
    and [next] are the queue entries at distances [d] and [d + 1], [done_]
    tells which nodes have been expanded. *)
Record bfs_inv (d : nat) (now next : list uuid) (visited : gset uuid) (out : list uuid) : Prop := {
  bi_now : forall x, x ∈ now -> dist d x /\ x ∈ visited;
  bi_next : forall x, x ∈ next -> dist (S d) x /\ x ∈ visited /\ within max_depth (S d);
  bi_visited : forall x, x ∈ visited <-> x = start \/ x ∈ out;
  bi_out : NoDup out /\ start ∉ out;
  bi_known : forall x k, (k <= d)%nat -> within max_depth k -> dist k x -> x ∈ visited;
  bi_dist : forall x, x ∈ visited -> exists k, (k <= S d)%nat /\ within max_depth k /\ dist k x;
  bi_expanded : forall x k, x ∈ visited -> x ∉ now -> x ∉ next -> dist k x ->
    (k <= d)%nat /\ (within max_depth (S k) -> forall y, linked g (Some r) x y -> y ∈ visited);
  bi_sorted : exists ks, Forall2 dist ks out /\ StronglySorted le ks /\ Forall (fun k => k <= S d)%nat ks
}.

Lemma bfs_inv_start : bfs_inv 0 [start] [] {[start]} [].
Proof.
  split.
  - intros x ->%list_elem_of_singleton. split; [apply dist_start|set_solver].
  - intros x []%elem_of_nil.
  - intros x. set_solver.
  - split; [constructor|]. by intros ?%elem_of_nil.
  - intros x k Hk _ [Hs _]. assert (k = 0%nat) as -> by lia. inversion Hs; subst. set_solver.
  - intros x ->%elem_of_singleton. exists 0%nat. split_and!; [lia| |apply dist_start].
    destruct max_depth; cbn; [lia|done].
  - intros x k ->%elem_of_singleton Hx. set_solver.
  - exists []. split_and!; constructor.
Qed.

Lemma bfs_inv_level d next visited out :
  bfs_inv d [] next visited out -> bfs_inv (S d) next [] visited out.
Proof.
  intros [_ Hnext Hvis Hout Hknown Hdist Hexp (ks & HF & Hs & Hle)]. split.
  - intros x Hx. destruct (Hnext x Hx) as (? & ? & _). done.
  - intros x []%elem_of_nil.
  - done.
  - done.
  - intros x k Hk Hw Hx. destruct (decide (k = S d)) as [->|Hne]; [|apply (Hknown x k); [lia|done..]].
    destruct (dist_pred d x Hx) as (y & Hy & Hl).
    assert (Hwd : within max_depth d) by (destruct max_depth; cbn in *; [lia|done]).
    assert (Hyv : y ∈ visited) by (by apply (Hknown y d)).
    destruct (Hexp y d Hyv) as [_ H]; [by intros ?%elem_of_nil| |done|by apply H].
    intros Hin. destruct (Hnext y Hin) as [Hy' _]. by pose proof (dist_unique _ _ _ Hy Hy'); lia.
  - intros x Hx. destruct (Hdist x Hx) as (k & Hk & H). exists k. split; [lia|done].
  - intros x k Hx Hn _ Hk. destruct (Hexp x k Hx) as [? ?]; [by intros ?%elem_of_nil|done|done|].
    split; [lia|done].
  - exists ks. split_and!; [done|done|]. eapply Forall_impl; [exact Hle|]. cbn. lia.
Qed.

Definition at_depth (d : nat) (l : list uuid) : list (uuid * nat) := (fun x => (x, d)) <$> l.

(** What the inner loop adds. *)
Lemma visit_fold d l visited frontier out :
  exists news, foldl (visit d) (visited, frontier, out) l
    = (list_to_set news ∪ visited, frontier ++ at_depth d news, out ++ news) /\
  NoDup news /\ (forall x, x ∈ news <-> x ∈ l /\ x ∉ visited).
Proof.
  revert visited frontier out. induction l as [|n l IH]; intros visited frontier out; cbn [foldl].
  { exists []. split_and!; [|constructor|set_solver].
    f_equal; [f_equal|]; [set_solver|by unfold at_depth; cbn; rewrite (right_id_L [] (++))|by rewrite (right_id_L [] (++))]. }
  unfold visit at 2. case_bool_decide as Hn.
  - destruct (IH visited frontier out) as (news & -> & Hnd & Hin). exists news.
    split_and!; [done|done|]. intros x. rewrite Hin, elem_of_cons. naive_solver.
  - destruct (IH ({[n]} ∪ visited) (frontier ++ [(n, d)]) (out ++ [n])) as (news & -> & Hnd & Hin).
    exists (n :: news). split_and!.
    + rewrite <- !app_assoc. f_equal. f_equal. set_solver.
    + constructor; [|done]. rewrite Hin. set_solver.
    + intros x. rewrite !elem_of_cons, Hin. destruct (decide (x = n)) as [->|]; set_solver.
Qed.

(** Expanding the first node of the current level. *)
Lemma bfs_inv_expand d x now next visited out news :
  bfs_inv d (x :: now) next visited out -> within max_depth (S d) ->
  NoDup news -> (forall y, y ∈ news <-> y ∈ neighbors g x (Some r) /\ y ∉ visited) ->
  bfs_inv d now (next ++ news) (list_to_set news ∪ visited) (out ++ news).
Proof.
  intros [Hnow Hnext Hvis [Hnd Hst] Hknown Hdist Hexp (ks & HF & Hs & Hle)] Hw Hnn Hnews.
  destruct (Hnow x) as [Hx Hxv]; [set_solver|].
  assert (Hlink : forall y, y ∈ neighbors g x (Some r) <-> linked g (Some r) x y)
    by (by apply neighbors_spec).
  assert (Hnew : forall y, y ∈ news -> dist (S d) y).
  { intros y [Hy Hv]%Hnews. apply Hlink in Hy. destruct (dist_succ _ _ _ Hx Hy) as (j & Hj & Hd).
    destruct (decide (j = S d)) as [->|]; [done|]. exfalso. apply Hv, (Hknown y j); [lia| |done].
    destruct max_depth; cbn in *; [lia|done]. }
  split.
  - intros y Hy. destruct (Hnow y); [set_solver|]. split; [done|set_solver].
  - intros y [Hy|Hy]%elem_of_app.
    + destruct (Hnext y Hy) as (? & ? & ?). split_and!; [done|set_solver|done].
    + split_and!; [by apply Hnew|set_solver|done].
  - intros y. rewrite elem_of_union, elem_of_list_to_set, elem_of_app, Hvis. tauto.
  - split.
    + apply NoDup_app. split_and!; [done| |done]. intros y Hy [_ Hv]%Hnews. apply Hv, Hvis. by right.
    + rewrite elem_of_app. intros [H|[_ Hv]%Hnews]; [done|]. apply Hv, Hvis. by left.
  - intros y k Hk Hwk Hd. apply elem_of_union. right. by apply (Hknown y k).
  - intros y [Hy%elem_of_list_to_set|Hy]%elem_of_union; [|by apply Hdist].
    exists (S d). split_and!; [lia|done|by apply Hnew].
  - intros y k Hy Hyn Hyx Hk.
    assert (Hyold : y ∈ visited).
    { apply elem_of_union in Hy as [Hy%elem_of_list_to_set|]; [|done]. set_solver. }
    destruct (decide (y = x)) as [Heq|Hne].
    + subst y. rewrite (dist_unique _ _ _ Hk Hx). split; [lia|]. intros _ z Hz%Hlink.
      rewrite elem_of_union, elem_of_list_to_set, Hnews.
      destruct (decide (z ∈ visited)); [by right|by left].
    + destruct (Hexp y k Hyold) as [Hkd Hz]; [set_solver|set_solver|done|].
      split; [done|]. intros Hwk z Hl. apply elem_of_union. right. by apply Hz.
  - exists (ks ++ replicate (length news) (S d)). split_and!.
    + apply Forall2_app; [done|]. apply Forall2_same_length_lookup_2; [by rewrite length_replicate|].
      intros i k y Hk Hy. apply lookup_replicate in Hk as [-> _]. apply Hnew. by eapply list_elem_of_lookup_2.
    + clear -Hs Hle. induction Hs as [|k ks _ IH Hall]; cbn.
      * induction (length news) as [|m IH]; constructor; [done|]. by apply Forall_replicate.
      * inversion Hle as [|? ? Hk Hks]; subst. constructor; [by apply IH|]. apply Forall_app. split; [done|].
        by apply Forall_replicate.
    + apply Forall_app. split; [done|]. by apply Forall_replicate.
Qed.

(** At the depth limit a node counts as expanded without its neighbours. *)
Lemma bfs_inv_skip d x now next visited out :
  bfs_inv d (x :: now) next visited out -> ~ within max_depth (S d) ->
  bfs_inv d now next visited out.
Proof.
  intros [Hnow Hnext Hvis Hout Hknown Hdist Hexp Hs] Hw. split; try done.
  - intros y Hy. apply Hnow. set_solver.
  - intros y k Hy Hyn Hyx Hk. destruct (decide (y = x)) as [->|Hne].
    + destruct (Hnow x) as [Hx _]; [set_solver|]. rewrite (dist_unique _ _ _ Hk Hx). by split; [lia|].
    + apply Hexp; [done|set_solver|done|done].
Qed.

Lemma bfs_out_bound d now next visited out :
  bfs_inv d now next visited out -> (length out <= edge_count g)%nat.
Proof.
  intros [_ _ Hvis [Hnd Hst] _ Hdist _ _].
  set (targets := (fun ke : uuid * ConceptEdge Json => edge_to ke.2) <$> map_to_list (edges g)).
  replace (edge_count g) with (length targets).
  - apply submseteq_length, NoDup_submseteq; [done|]. intros x Hx.
    destruct (Hdist x) as (k & _ & _ & Hk); [apply Hvis; by right|].
    destruct k as [|k]; [destruct Hk as [H0 _]; inversion H0; by subst|].
    destruct (dist_pred k x Hk) as (y & _ & (id & e & He & _ & Ht & _)).
    apply list_elem_of_fmap. exists (id, e). split; [done|]. by apply elem_of_map_to_list.
  - unfold targets, edge_count. by rewrite length_fmap, length_map_to_list.
Qed.

(** With an empty queue every node within the depth limit has been visited. *)
Lemma bfs_inv_end d visited out :
  bfs_inv d [] [] visited out ->
  NoDup out /\ (forall x, x ∈ out <-> x <> start /\ exists k, within max_depth k /\ dist k x) /\
  exists ks, Forall2 dist ks out /\ StronglySorted le ks.
Proof.
  intros [_ _ Hvis [Hnd Hst] _ Hdist Hexp (ks & HF & Hs & _)].
  assert (Hall : forall k x, within max_depth k -> dist k x -> x ∈ visited).
  { induction k as [|k IH]; intros x Hw Hx.
    { destruct Hx as [H0 _]. inversion H0; subst. apply Hvis. by left. }
    destruct (dist_pred k x Hx) as (y & Hy & Hl).
    assert (Hwk : within max_depth k) by (destruct max_depth; cbn in *; [lia|done]).
    destruct (Hexp y k (IH y Hwk Hy)) as [_ H]; [by intros ?%elem_of_nil..|done|]. by apply H. }
  split_and!; [done| |eauto]. intros x. split.
  - intros Hx. split; [by intros ->|]. destruct (Hdist x) as (k & _ & Hw & Hk); [|eauto].
    apply Hvis. by right.
  - intros (Hne & k & Hw & Hk). destruct (proj1 (Hvis x) (Hall k x Hw Hk)); [done|done].
Qed.

Lemma traverse_loop_spec fuel d now next visited out :
  bfs_inv d now next visited out ->
  (length now + length next + (edge_count g - length out) <= fuel)%nat ->
  exists res d' visited', traverse_loop fuel g r max_depth visited (at_depth d now ++ at_depth (S d) next) out
    = Some res /\ bfs_inv d' [] [] visited' res.
Proof.
  revert d now next visited out.
  induction fuel as [|fuel IH]; intros d now next visited out Hinv Hfuel.
  { destruct now; [|cbn in Hfuel; lia]. destruct next; [|cbn in Hfuel; lia]. eauto. }
  assert (Hcons : forall d x now next, bfs_inv d (x :: now) next visited out ->
    (length (x :: now) + length next + (edge_count g - length out) <= S fuel)%nat ->
    exists res d' visited', traverse_loop (S fuel) g r max_depth visited
      (at_depth d (x :: now) ++ at_depth (S d) next) out = Some res /\ bfs_inv d' [] [] visited' res).
  { clear d now next Hinv Hfuel. intros d x now next Hinv Hfuel. cbn [length] in Hfuel.
    assert (Hstop : (match max_depth with Some max => (max <=? d)%nat | None => false end) = false
              <-> within max_depth (S d)).
    { destruct max_depth; cbn; [|done]. rewrite Nat.leb_gt. lia. }
    cbn [at_depth fmap list_fmap app traverse_loop].
    destruct (match max_depth with Some max => (max <=? d)%nat | None => false end).
    - apply (IH d now next); [|lia]. eapply bfs_inv_skip; [exact Hinv|]. by intros ?%Hstop.
    - destruct (visit_fold (S d) (neighbors g x (Some r)) visited (at_depth d now ++ at_depth (S d) next) out)
        as (news & Heq & Hnd & Hnews). unfold at_depth in *. rewrite Heq.
      rewrite <- app_assoc, <- fmap_app.
      assert (Hinv' := bfs_inv_expand d x now next visited out news Hinv (proj1 Hstop eq_refl) Hnd Hnews).
      apply (IH d now (next ++ news)); [exact Hinv'|].
      pose proof (bfs_out_bound _ _ _ _ _ Hinv') as Hb. rewrite length_app in Hb. rewrite !length_app. lia. }
  destruct now as [|x now]; [|by apply Hcons].
  destruct next as [|x next]; [eauto|].
  pose proof (bfs_inv_level _ _ _ _ Hinv) as Hinv'.
  destruct (Hcons (S d) x next [] Hinv') as (res & d' & v' & Heq & Hr); [cbn in *; lia|].
  exists res, d', v'. split; [|done].
  change (at_depth (S (S d)) []) with (@nil (uuid * nat)) in Heq. by rewrite (right_id_L [] (++)) in Heq.
Qed.
End Bfs.

(** ** Runs of the mutators *)

(** The public mutators; the edges they add carry ids not in the graph, as
    [Uuid::new_v4] promises. *)
Inductive step `{HashOrder} : ConceptGraph Json -> ConceptGraph Json -> Prop :=
| step_add_node n g : step g (add_node n g).1
| step_add_edge e g : edges g !! edge_id e = None -> step g (add_edge e g).1
| step_remove_node id g : step g (remove_node id g).1
| step_remove_edge id g : step g (remove_edge id g).1
| step_get_node_mut f id g : (forall n, node_id (f n) = node_id n) -> step g (get_node_mut f id g)
| step_supersede fresh now a b g : edges g !! fresh = None -> step g (supersede_node fresh now a b g).1
| step_contradict f1 f2 now a b g :
    edges g !! f1 = None -> edges g !! f2 = None -> f1 <> f2 ->
    step g (mark_contradiction f1 f2 now a b g).1.

Lemma graph_wf_step `{HashOrder} g g' : step g g' -> graph_wf g -> graph_wf g'.
Proof.
  intros [n q|e q Hf|id q|id q|f id q Hf|fresh now a b q Hf|f1 f2 now a b q H1 H2 H12] Hwf.
  - by apply graph_wf_add_node.
  - by apply graph_wf_add_edge.
  - destruct (nodes q !! id) as [n|] eqn:E; [by apply (remove_node_spec id n q)|].
    unfold remove_node. by rewrite E.
  - unfold remove_edge. destruct (edges q !! id); [by apply graph_wf_drop_edge|done].
  - by apply graph_wf_get_node_mut.
  - unfold supersede_node. destruct (_ =? _)%N; [done|]. destruct (nodes q !! b); [|done].
    destruct (nodes q !! a) as [pred|]; [|done]. apply graph_wf_add_edge; [|done].
    by apply graph_wf_get_node_mut.
  - unfold mark_contradiction. destruct (_ =? _)%N; [done|].
    destruct (nodes q !! a) as [na|] eqn:Ea; [|done]. destruct (nodes q !! b) as [nb|] eqn:Eb; [|done].
    set (g1 := get_node_mut _ b (get_node_mut _ a q)).
    assert (Hwf1 : graph_wf g1) by (by repeat apply graph_wf_get_node_mut).
    unfold try_eff. set (e1 := new_edge f1 _ _ _ _ _). set (e2 := new_edge f2 _ _ _ _ _).
    assert (Hwf2 : graph_wf (add_edge e1 g1).1) by (by apply graph_wf_add_edge).
    assert (He : edges (add_edge e1 g1).1 !! f2 = None).
    { unfold add_edge. destruct (nodes g1 !! edge_from e1); [|done].
      destruct (nodes g1 !! edge_to e1); [|done]. cbn. by rewrite lookup_insert_ne. }
    destruct (add_edge e1 g1) as [g2 [i|err]]; [|done]. cbn [fst] in *.
    pose proof (graph_wf_add_edge e2 g2 Hwf2 He). destruct (add_edge e2 g2) as [g3 [j|err]]; done.
Qed.

Lemma graph_wf_run `{HashOrder} g : rtc step new g -> graph_wf g.
Proof.
  intros Hrun. pose proof graph_wf_new as H0. revert H0.
  induction Hrun as [g|g1 g2 g3 Hs _ IH]; intros Hwf; [done|]. apply IH. by eapply graph_wf_step.
Qed.

(** ** The projection's loops *)

Lemma project_items_spec (items : list (MemoryProjection Json)) :
  let '(g, pending, present) := foldl project_item (new, [], ∅) items in
  (forall id, nodes g !! id = into_node <$> head (base.filter (fun p => pj_id p = id) items)) /\
  edges g = ∅ /\
  (forall id, id ∈ present <-> is_Some (nodes g !! id)) /\
  (forall s p, (exists sc, (s, p, sc) ∈ pending) <->
     s <> p /\ exists it, it ∈ items /\ pj_id it = p /\ pj_superseded_by it = Some s).
Proof.
  induction items as [|it items IH] using rev_ind; cbn.
  { unfold new; cbn. split_and!; [done|done| |].
    - intros id. rewrite lookup_empty. split; [set_solver|by intros []].
    - intros s p. split; [intros [sc []%elem_of_nil]|intros (_ & it & []%elem_of_nil & _)]. }
  rewrite foldl_snoc. destruct (foldl _ _ items) as [[g pending] present].
  destruct IH as (Hnodes & Hedges & Hpres & Hpend). unfold project_item.
  set (pending' := match pj_superseded_by it with Some _ => _ | None => _ end).
  assert (Hpend' : forall s p, (exists sc, (s, p, sc) ∈ pending') <->
     s <> p /\ exists x, x ∈ items ++ [it] /\ pj_id x = p /\ pj_superseded_by x = Some s).
  { intros s p. setoid_rewrite elem_of_app. setoid_rewrite list_elem_of_singleton.
    assert (Hold := Hpend s p). unfold pending'. destruct (pj_superseded_by it) as [succ|] eqn:Es.
    - destruct (N.eqb_spec succ (pj_id it)) as [Heq|Hne].
      + rewrite Hold. split; [naive_solver|]. intros (Hsp & x & [Hx| ->] & Hp & Hs); naive_solver.
      + setoid_rewrite elem_of_app. setoid_rewrite list_elem_of_singleton. split.
        * intros (sc & [Hin|[= -> -> ->]]); [|naive_solver].
          destruct (proj1 Hold (ex_intro _ sc Hin)) as (? & x & ? & ? & ?). split; [done|]. exists x. auto.
        * intros (Hsp & x & [Hx| ->] & Hp & Hs).
          -- destruct (proj2 Hold) as [sc Hsc]; [by eauto 6|]. exists sc. by left.
          -- exists (pj_scope_id it). right. congruence.
    - rewrite Hold. split; [naive_solver|]. intros (Hsp & x & [Hx| ->] & Hp & Hs); naive_solver. }
  assert (Hfirst : forall id, head (base.filter (fun p => pj_id p = id) (items ++ [it]))
            = match head (base.filter (fun p => pj_id p = id) items) with
              | Some x => Some x
              | None => if decide (pj_id it = id) then Some it else None
              end).
  { intros id. rewrite filter_app, filter_cons, filter_nil.
    destruct (base.filter _ items); cbn; [by case_decide|done]. }
  unfold add_node. cbn [node_id into_node].
  destruct (nodes g !! pj_id it) as [n|] eqn:En.
  - split_and!; [|done|done|exact Hpend']. intros id. rewrite Hfirst, Hnodes.
    destruct (head (base.filter (fun p => pj_id p = id) items)) eqn:Eh; [done|]. case_decide; [|done].
    subst id. rewrite Hnodes, Eh in En. done.
  - split_and!; [|done| |exact Hpend'].
    + intros id. rewrite Hfirst. cbn. destruct (decide (pj_id it = id)) as [<-|Hne].
      * rewrite lookup_insert_eq. rewrite Hnodes in En. destruct (head _); [done|]. done.
      * rewrite lookup_insert_ne by done. rewrite Hnodes. by destruct (head _).
    + intros id. cbn. rewrite elem_of_union, elem_of_singleton, Hpres, lookup_insert_is_Some.
      destruct (decide (pj_id it = id)); naive_solver.
Qed.

Lemma project_edges_spec `{UuidV5} now i (present : gset uuid) g (done_ pending : list (uuid * uuid * uuid)) :
  (forall id, id ∈ present -> is_Some (nodes g !! id)) ->
  (forall s p sc s' p' sc', (s, p, sc) ∈ done_ ++ pending -> (s', p', sc') ∈ done_ ++ pending ->
     supersedes_edge_id s p = supersedes_edge_id s' p' -> s = s' /\ p = p') ->
  (forall j e, edges g !! j = Some e -> relation e = Supersedes /\ j = supersedes_edge_id (edge_from e) (edge_to e)
     /\ edge_from e ∈ present /\ edge_to e ∈ present /\ exists sc, (edge_from e, edge_to e, sc) ∈ done_) ->
  (forall s p sc, (s, p, sc) ∈ done_ -> s ∈ present -> p ∈ present ->
     linked g (Some Supersedes) s p) ->
  let g' := project_edges now i present g pending in
  nodes g' = nodes g /\
  (forall j e, edges g' !! j = Some e -> relation e = Supersedes
     /\ edge_from e ∈ present /\ edge_to e ∈ present /\ exists sc, (edge_from e, edge_to e, sc) ∈ done_ ++ pending) /\
  (forall s p sc, (s, p, sc) ∈ done_ ++ pending -> s ∈ present -> p ∈ present ->
     linked g' (Some Supersedes) s p).
Proof.
  revert i g done_. induction pending as [|[[s p] sc] pending IH]; intros i g done_ Hpres Hinj Hsound Hcomp; cbn.
  { rewrite (right_id_L [] (++)). split_and!; [done| |done]. intros j e He.
    destruct (Hsound j e He) as (? & _ & ? & ? & ?). done. }
  assert (Happ : done_ ++ (s, p, sc) :: pending = (done_ ++ [(s, p, sc)]) ++ pending) by by rewrite <- app_assoc.
  assert (Hmono : forall a b, (exists c, (a, b, c) ∈ done_) -> exists c, (a, b, c) ∈ done_ ++ [(s, p, sc)]).
  { intros a b [c Hc]. exists c. apply elem_of_app. by left. }
  rewrite Happ in *. destruct (bool_decide (s ∉ present) || bool_decide (p ∉ present)) eqn:Eb.
  - apply IH; [done|done| |].
    + intros j e He. destruct (Hsound j e He) as (? & ? & ? & ? & ?). split_and!; auto.
    + intros a b c [Hin|Hin]%elem_of_app Ha Hb; [by eapply Hcomp|].
      apply list_elem_of_singleton in Hin. simplify_eq.
      rewrite !bool_decide_eq_false_2 in Eb; [done|by intros Hno; apply Hno..].
  - apply orb_false_iff in Eb as [Hs Hp]. apply bool_decide_eq_false, dec_stable in Hs, Hp.
    unfold add_edge. cbn [edge_from edge_to edge_id new_edge].
    destruct (Hpres s Hs) as [ns_ Ens], (Hpres p Hp) as [np Enp]. rewrite Ens, Enp. cbn [fst].
    set (g1 := mk_graph _ _ _ _). change (nodes g) with (nodes g1).
    assert (Hmem : forall x, x ∈ done_ \/ x = (s, p, sc) -> x ∈ (done_ ++ [(s, p, sc)]) ++ pending).
    { intros x Hx. rewrite !elem_of_app, list_elem_of_singleton. tauto. }
    assert (Hlk : forall a b, linked g (Some Supersedes) a b -> (exists c, (a, b, c) ∈ done_) ->
              linked g1 (Some Supersedes) a b).
    { intros a b (j & e & He & Hf & Ht & Hr) [c Hc].
      destruct (decide (j = supersedes_edge_id s p)) as [Hj|Hj].
      - destruct (Hsound j e He) as (_ & Hj' & _). rewrite Hf, Ht in Hj'.
        destruct (Hinj a b c s p sc) as [-> ->]; [by apply Hmem; left|by apply Hmem; right|congruence|].
        eexists _, _. split; [apply lookup_insert_eq|]. done.
      - exists j, e. split; [|done]. cbn. by rewrite lookup_insert_ne. }
    apply IH; [done|done| |].
    + intros j e He. cbn in He. apply lookup_insert_Some in He as [[<- <-]|[_ He]].
      * cbn. split_and!; [done|done|done|done|]. exists sc. apply elem_of_app. right. by apply list_elem_of_singleton.
      * destruct (Hsound j e He) as (? & ? & ? & ? & ?). split_and!; auto.
    + intros a b c [Hin|Hin]%elem_of_app Ha Hb; [apply Hlk; [by eapply Hcomp|by eauto]|].
      apply list_elem_of_singleton in Hin. simplify_eq.
      eexists _, _. split; [apply lookup_insert_eq|]. done.
Qed.

(** ** The claims *)

(** The graph stays consistent.  In every graph built by the public mutators
    no edge dangles, [neighbors] returns exactly the targets of the outgoing
    edges of the relation asked for, once each, [get_edges] exactly the incident
    edges, and [remove_node] removes the node with all its incident edges, in
    both directions, and nothing else. *)
Theorem graph_consistent `{HashOrder} g :
  rtc step new g ->
  (forall id e, edges g !! id = Some e ->
     edge_id e = id /\ is_Some (nodes g !! edge_from e) /\ is_Some (nodes g !! edge_to e)) /\
  (forall x r, NoDup (neighbors g x r) /\ forall y, y ∈ neighbors g x r <-> linked g r x y) /\
  (forall x e, e ∈ get_edges g x <->
     exists id, edges g !! id = Some e /\ (edge_from e = x \/ edge_to e = x)) /\
  (forall id,
     match nodes g !! id with
     | None => remove_node id g = (g, Err (NodeNotFound id))
     | Some n =>
         (remove_node id g).2 = Ok n /\
         nodes (remove_node id g).1 = base.delete id (nodes g) /\
         forall i, edges (remove_node id g).1 !! i
           = match edges g !! i with
             | Some e => if (edge_from e =? id)%N || (edge_to e =? id)%N then None else Some e
             | None => None
             end
     end).
Proof.
  intros Hrun. pose proof (graph_wf_run g Hrun) as Hwf. split_and!.
  - apply (gw_edge _ Hwf).
  - intros x r. by apply neighbors_spec.
  - intros x e. unfold get_edges, edges_of. rewrite elem_of_app, !list_elem_of_omap.
    setoid_rewrite (io_ids _ _ _ _ (gw_out _ Hwf)). setoid_rewrite (io_ids _ _ _ _ (gw_in _ Hwf)).
    naive_solver.
  - intros id. destruct (nodes g !! id) as [n|] eqn:E.
    + destruct (remove_node_spec id n g Hwf E) as (? & _ & ? & ?). done.
    + unfold remove_node. by rewrite E.
Qed.

(** C34: the typed traversal is breadth-first search.  On every such graph the
    queue loop ends within its fuel; it returns, once each, exactly the nodes
    other than the start that some path of edges of the relation reaches within
    the depth limit (without a limit: all reachable nodes, cycles included), in
    order of non-decreasing distance from the start. *)
Theorem traverse_exact `{HashOrder} g start r max_depth :
  rtc step new g ->
  exists out, traverse_typed g start r max_depth = Some out /\ NoDup out /\
    (forall x, x ∈ out <->
       x <> start /\ exists k, within max_depth k /\ nsteps (linked g (Some r)) k start x) /\
    exists ks, Forall2 (distance g r start) ks out /\ StronglySorted le ks.
Proof.
  intros Hrun. pose proof (graph_wf_run g Hrun) as Hwf.
  destruct (traverse_loop_spec g r start max_depth Hwf (traverse_fuel g) 0 [start] [] {[start]} [])
    as (out & d & visited & Hout & Hinv).
  - by apply bfs_inv_start.
  - unfold traverse_fuel. cbn [length]. lia.
  - destruct (bfs_inv_end _ _ _ _ _ _ _ Hinv) as (Hnd & Hin & Hord).
    exists out. split_and!; [exact Hout|done| |done]. intros x. rewrite Hin.
    split; intros [Hne (k & Hw & Hk)]; (split; [done|]).
    + exists k. split; [done|apply Hk].
    + destruct (nsteps_dist g r start Hwf k x Hk) as (j & Hj & Hd). exists j. split; [|done].
      destruct max_depth; cbn in *; [lia|done].
Qed.

(** The projection is exact.  The projected graph has one node per distinct
    id, made from its first item; and, provided the hashed edge ids of the
    pointers do not collide, it has a [Supersedes] edge from [s] to [p], and no
    other edge, exactly when some item with id [p] points at [s], the two differ
    and both are nodes: dangling pointers and self-loops are dropped. *)
Theorem projection_exact `{UuidV5} now (items : list (MemoryProjection Json)) :
  (forall x y s t, x ∈ items -> y ∈ items -> pj_superseded_by x = Some s -> pj_superseded_by y = Some t ->
     supersedes_edge_id s (pj_id x) = supersedes_edge_id t (pj_id y) -> s = t /\ pj_id x = pj_id y) ->
  let g := project_memory_graph now items in
  (forall id, nodes g !! id = into_node <$> head (base.filter (fun p => pj_id p = id) items)) /\
  (forall id e, edges g !! id = Some e -> relation e = Supersedes) /\
  (forall s p, linked g (Some Supersedes) s p <->
     s <> p /\ is_Some (nodes g !! s) /\ is_Some (nodes g !! p) /\
     exists it, it ∈ items /\ pj_id it = p /\ pj_superseded_by it = Some s).
Proof.
  intros Hinj. unfold project_memory_graph. pose proof (project_items_spec items) as Hitems.
  destruct (foldl project_item _ items) as [[g0 pending] present].
  destruct Hitems as (Hnodes & Hedges & Hpres & Hpend). cbn zeta.
  destruct (project_edges_spec now 0 present g0 [] pending) as (Hn & Hsound & Hcomp).
  - intros id. by apply Hpres.
  - intros s p sc s' p' sc' H1 H2 Heq. cbn in H1, H2.
    destruct (proj1 (Hpend s p) (ex_intro _ sc H1)) as (_ & x & Hx & <- & Hxs).
    destruct (proj1 (Hpend s' p') (ex_intro _ sc' H2)) as (_ & y & Hy & <- & Hys).
    by apply (Hinj x y).
  - intros j e He. by rewrite Hedges, lookup_empty in He.
  - intros s p sc []%elem_of_nil.
  - rewrite Hn. split_and!; [done|intros id e He; by apply (Hsound id e He)|].
    intros s p. rewrite <- !Hpres. split.
    + intros (j & e & He & Hf & Ht & _). destruct (Hsound j e He) as (_ & Hs & Hp & Hin).
      rewrite Hf, Ht in *. apply Hpend in Hin as (? & ?). done.
    + intros (Hne & Hs & Hp & Hit). destruct (proj2 (Hpend s p) (conj Hne Hit)) as [sc Hin].
      by apply (Hcomp s p sc).
Qed.

End GraphFacts.

(** ** Concrete graphs *)

Section Demo.
#[local] Existing Instance hash_order_id.
#[local] Instance unit_null : Inhabited unit := populate tt.

(** Reading the name as one big number: injective on the names used here. *)
#[local] Instance number_v5 : UuidV5 := {| uuid_v5 _ name := foldl (fun n b => n * 256 + b)%N 0%N name |}.

(** A cycle 1 -> 2 -> 3 -> 1 of [IsA] edges with a shortcut 1 -> 3 of another
    relation. *)
Definition demo_node (id : uuid) : ConceptNode unit := new_candidate id 0 "n" "d" 7.
Definition g3 : ConceptGraph unit :=
  (add_node (demo_node 3) (add_node (demo_node 2) (add_node (demo_node 1) new).1).1).1.
Definition demo_graph : ConceptGraph unit :=
  (add_edge (new_edge 13 0 1 3 PartOf 7) (add_edge (new_edge 12 0 3 1 IsA 7)
    (add_edge (new_edge 11 0 2 3 IsA 7) (add_edge (new_edge 10 0 1 2 IsA 7) g3).1).1).1).1.

Lemma demo_graph_run : rtc step new demo_graph.
Proof.
  unfold demo_graph, g3.
  do 4 (eapply rtc_r; [|apply step_add_edge; vm_compute; reflexivity]).
  do 3 (eapply rtc_r; [|apply step_add_node]). apply rtc_refl.
Defined.

Lemma graph_consistent_witness :
  NoDup (neighbors demo_graph 1 None) /\
  (remove_node 3 demo_graph).2 = Ok (demo_node 3).
Proof.
  destruct (graph_consistent demo_graph demo_graph_run) as (_ & Hn & _ & Hr).
  split; [apply (Hn 1%N None)|]. exact (proj1 (Hr 3%N)).
Defined.

Lemma traverse_exact_witness :
  traverse_typed demo_graph 1 IsA None = Some [2; 3]%N /\
  exists k, nsteps (linked demo_graph (Some IsA)) k 1%N 3%N.
Proof.
  destruct (traverse_exact demo_graph 1 IsA None demo_graph_run) as (out & Hout & _ & Hin & _).
  assert (out = [2; 3]%N) as -> by (vm_compute in Hout; congruence).
  split; [exact Hout|].
  destruct (proj1 (Hin 3%N)) as (_ & k & _ & Hk); [by apply (bool_decide_unpack _)|]. by exists k.
Defined.

(** Memories: 1 superseded by 2, twice over, and a duplicate row of 1 pointing
    at 3. *)
Definition memory (id : uuid) (by_ : option uuid) : MemoryProjection unit :=
  mk_projection id 7 "m" "d" Canonical by_ 0 0 tt.
Definition clean_items := [memory 1 (Some 2%N); memory 2 None; memory 3 (Some 9%N)].
Definition dirty_items := [memory 1 (Some 2%N); memory 2 None; memory 3 None;
                           memory 1 (Some 2%N); memory 1 (Some 3%N)].
Definition dirty_graph := project_memory_graph (fun _ => 0%Z) dirty_items.

Lemma projection_exact_witness :
  linked (project_memory_graph (fun _ => 0%Z) clean_items) (Some Supersedes) 2 1.
Proof.
  apply (projection_exact (fun _ => 0%Z) clean_items).
  - assert (Hcase : forall x s, x ∈ clean_items -> pj_superseded_by x = Some s ->
              (pj_id x = 1 /\ s = 2)%N \/ (pj_id x = 3 /\ s = 9)%N).
    { intros x s Hx Hs. unfold clean_items in Hx. rewrite !elem_of_cons, elem_of_nil in Hx.
      destruct Hx as [Hx|[Hx|[Hx|[]]]]; subst x; cbn in Hs; try discriminate Hs; injection Hs as <-;
        [left|right]; by split. }
    intros x y s t Hx Hy Hs Ht Heq.
    destruct (Hcase x s Hx Hs) as [[H1 H2]|[H1 H2]], (Hcase y t Hy Ht) as [[H3 H4]|[H3 H4]];
      rewrite H1, H2, H3, H4 in *; [split; reflexivity| | |split; reflexivity];
      exfalso; vm_compute in Heq; discriminate Heq.
  - split_and!; [discriminate|by eexists|by eexists|]. exists (memory 1 (Some 2%N)). split_and!; [left|reflexivity|reflexivity].
Defined.

(** A duplicate row is not skipped entirely.  The projection keeps the first
    row of a repeated id as the node, but still acts on the pointers of the rows
    it drops: here node 1 says it was superseded by 2, the graph also has
    3 supersedes 1, and because the repeated pointer 1 -> 2 is added under the
    same id again, [get_edges] lists that one edge twice. *)
Theorem projection_keeps_duplicate_edges :
  (superseded_by <$> nodes dirty_graph !! 1%N) = Some (Some 2%N) /\
  neighbors dirty_graph 3 (Some Supersedes) = [1]%N /\
  edge_count dirty_graph = 2%nat /\
  length (get_edges dirty_graph 2) = 2%nat /\
  (edge_id <$> get_edges dirty_graph 2) = [supersedes_edge_id 2 1; supersedes_edge_id 2 1].
Proof. vm_compute. done. Qed.

End Demo.
