(* ===== verification/Incremental.v ===== *)
(** * Incremental maintenance of the concept graph
    ([concept_graph/src/incremental.rs])

    What a change touches, what must be synthesised again because of it, and the
    call that applies the change and reports both.  Both searches are queues over
    hash sets; the theorems give the sets they compute. *)

From S2P Require Import Prelude ConceptGraph.

(** [enum ChangeEvent] and [anchors]. *)
Inductive ChangeEvent : Type :=
| NodePromoted (node : uuid)
| NodeSuperseded (predecessor successor : uuid)
| NodeContradicted (a b : uuid)
| EdgeAdded (edge : uuid)
| EdgeRemoved (edge : uuid).
Definition anchors (e : ChangeEvent) : list uuid :=
  match e with
  | NodePromoted node => [node]
  | NodeSuperseded predecessor successor => [predecessor; successor]
  | NodeContradicted a b => [a; b]
  | EdgeAdded _ | EdgeRemoved _ => []
  end.

(** [struct AffectedSubgraph] and its methods. *)
Record AffectedSubgraph : Type := mk_affected {
  a_nodes : gset uuid;
  a_edges : gset uuid;
  max_depth_reached : nat
}.
Definition no_affected : AffectedSubgraph := mk_affected ∅ ∅ 0.
Definition a_len (s : AffectedSubgraph) : nat := size (a_nodes s).
Definition a_is_empty (s : AffectedSubgraph) : bool := bool_decide (a_nodes s = ∅).
Definition contains_node (s : AffectedSubgraph) (n : uuid) : bool := bool_decide (n ∈ a_nodes s).
Definition contains_edge (s : AffectedSubgraph) (e : uuid) : bool := bool_decide (e ∈ a_edges s).
Definition with_edge (s : AffectedSubgraph) (e : uuid) : AffectedSubgraph :=
  mk_affected (a_nodes s) ({[e]} ∪ a_edges s) (max_depth_reached s).
Definition with_node (s : AffectedSubgraph) (n : uuid) : AffectedSubgraph :=
  mk_affected ({[n]} ∪ a_nodes s) (a_edges s) (max_depth_reached s).

(** [struct RecomputeScope]: its vector. *)
Definition scope_contains (s : list uuid) (n : uuid) : bool := bool_decide (n ∈ s).

(** [struct UpdatePropagation] and [is_noop]. *)
Record UpdatePropagation : Type := mk_propagation {
  event : option ChangeEvent;
  affected : AffectedSubgraph;
  recompute : list uuid;
  state_transitions : gmap uuid NodeState;
  removed_edges : list uuid
}.
Definition is_noop (u : UpdatePropagation) : bool :=
  bool_decide (state_transitions u = ∅) && bool_decide (removed_edges u = []) && bool_decide (recompute u = []).

Section Engine.
Context {Json : Type} {JsonNull : Inhabited Json}.
(** [struct IncrementalUpdateEngine]: its one field. *)
Context (max_propagation_depth : nat).

(** ** The affected subgraph *)

(** [for a in &anchors]. *)
Definition seed (g : ConceptGraph Json) (acc : AffectedSubgraph * list (uuid * nat)) (a : uuid) :
    AffectedSubgraph * list (uuid * nat) :=
  let '(s, frontier) := acc in
  match get_node g a with
  | Some _ => (with_node s a, frontier ++ [(a, 0%nat)])
  | None => acc
  end.

(** The body of [for e in graph.get_edges(id)]. *)
Definition expand_edge (id : uuid) (depth : nat) (acc : AffectedSubgraph * list (uuid * nat))
    (e : ConceptEdge Json) : AffectedSubgraph * list (uuid * nat) :=
  let '(s, frontier) := acc in
  let s := with_edge s (edge_id e) in
  let other := if (edge_from e =? id)%N then edge_to e else edge_from e in
  if (other =? id)%N then (s, frontier)
  else
    let is_provenance := bool_decide (relation e = DerivedFrom) in
    let in_provenance := is_provenance && (edge_to e =? id)%N in
    let direct_neighbour := (depth =? 0)%nat in
    if (direct_neighbour || in_provenance) && negb (bool_decide (other ∈ a_nodes s))
    then (with_node s other, frontier ++ [(other, S depth)])
    else (s, frontier).

(** One iteration of the [while] loop. *)
Definition expand (g : ConceptGraph Json) (id : uuid) (depth : nat) (s : AffectedSubgraph)
    (frontier : list (uuid * nat)) : AffectedSubgraph * list (uuid * nat) :=
  let s := if (max_depth_reached s <? depth)%nat then mk_affected (a_nodes s) (a_edges s) depth else s in
  if (max_propagation_depth <=? depth)%nat
  then (foldl (fun s e => with_edge s (edge_id e)) s (get_edges g id), frontier)
  else foldl (expand_edge id depth) (s, frontier) (get_edges g id).
Fixpoint affected_loop (fuel : nat) (g : ConceptGraph Json) (s : AffectedSubgraph) (frontier : list (uuid * nat)) :
    option AffectedSubgraph :=
  match frontier with
  | [] => Some s
  | (id, depth) :: frontier =>
      match fuel with
      | O => None
      | S fuel => let '(s, frontier) := expand g id depth s frontier in affected_loop fuel g s frontier
      end
  end.

(** [affected_subgraph].  Every node enters the queue once, an anchor named
    twice once more. *)
Definition affected_fuel (g : ConceptGraph Json) : nat := (node_count g + 2)%nat.
Definition affected_subgraph (g : ConceptGraph Json) (e : ChangeEvent) : option AffectedSubgraph :=
  match anchors e with
  | [] =>
      match e with
      | EdgeAdded edge | EdgeRemoved edge => Some (with_edge no_affected edge)
      | _ => Some no_affected
      end
  | l => let '(s, frontier) := foldl (seed g) (no_affected, []) l in affected_loop (affected_fuel g) g s frontier
  end.

(** ** The recompute scope *)

Definition seed_scope (g : ConceptGraph Json) (acc : gset uuid * list uuid) (a : uuid) : gset uuid * list uuid :=
  let '(seen, out) := acc in
  match get_node g a with
  | Some _ => if bool_decide (a ∈ seen) then acc else ({[a]} ∪ seen, out ++ [a])
  | None => acc
  end.
(** The body of the inner loop: the set seen, the vector and the queue. *)
Definition scope_edge (aff : AffectedSubgraph) (id : uuid) (acc : gset uuid * list uuid * list uuid)
    (e : ConceptEdge Json) : gset uuid * list uuid * list uuid :=
  let '(seen, out, frontier) := acc in
  if negb (bool_decide (relation e = DerivedFrom)) then acc
  else if negb (edge_to e =? id)%N then acc
  else
    let dependent := edge_from e in
    if negb (contains_node aff dependent) then acc
    else if bool_decide (dependent ∈ seen) then acc
    else ({[dependent]} ∪ seen, out ++ [dependent], frontier ++ [dependent]).
Fixpoint scope_loop (fuel : nat) (g : ConceptGraph Json) (aff : AffectedSubgraph) (seen : gset uuid)
    (out frontier : list uuid) : option (list uuid) :=
  match frontier with
  | [] => Some out
  | id :: frontier =>
      match fuel with
      | O => None
      | S fuel =>
          let '(seen, out, frontier) := foldl (scope_edge aff id) (seen, out, frontier) (get_edges g id) in
          scope_loop fuel g aff seen out frontier
      end
  end.

(** [recompute_scope]. *)
Definition recompute_scope (g : ConceptGraph Json) (e : ChangeEvent) (aff : AffectedSubgraph) : option (list uuid) :=
  let '(seen, out) := foldl (seed_scope g) (∅, []) (anchors e) in
  scope_loop (S (S (size (a_nodes aff)))) g aff seen out out.

(** ** Propagation *)

(** The [match] of [propagate]: the graph after the mutation, the transitions
    and the edges removed. *)
Definition apply_event (fresh1 fresh2 : uuid) (now : instant) (e : ChangeEvent) :
    eff (ConceptGraph Json) GraphError (gmap uuid NodeState * list uuid) := fun g =>
  match e with
  | NodePromoted node =>
      match get_node g node with
      | None => (g, Err (NodeNotFound node))
      | Some n =>
          if bool_decide (node_state n = Candidate)
          then (get_node_mut (mark_canonical now) node g, Ok ({[node := Canonical]}, []))
          else (g, Ok (∅, []))
      end
  | NodeSuperseded predecessor successor =>
      match supersede_node fresh1 now predecessor successor g with
      | (g, Err err) => (g, Err err)
      | (g, Ok _) => (g, Ok ({[predecessor := Superseded]}, []))
      end
  | NodeContradicted a b =>
      match mark_contradiction fresh1 fresh2 now a b g with
      | (g, Err err) => (g, Err err)
      | (g, Ok _) => (g, Ok (<[b := Contradicted]> {[a := Contradicted]}, []))
      end
  | EdgeAdded _ => (g, Ok (∅, []))
  | EdgeRemoved edge =>
      match remove_edge edge g with
      | (g, Ok _) => (g, Ok (∅, [edge]))
      | (g, Err _) => (g, Ok (∅, []))
      end
  end.

(** [propagate]; [None] would mean that a queue did not empty. *)
Definition propagate (fresh1 fresh2 : uuid) (now : instant) (e : ChangeEvent) (g : ConceptGraph Json) :
    option (ConceptGraph Json * result UpdatePropagation GraphError) :=
  match affected_subgraph g e with
  | None => None
  | Some aff =>
      match recompute_scope g e aff with
      | None => None
      | Some scope =>
          Some (match apply_event fresh1 fresh2 now e g with
                | (g, Err err) => (g, Err err)
                | (g, Ok (transitions, removed)) =>
                    (g, Ok (mk_propagation (Some e) aff scope transitions removed))
                end)
      end
  end.
End Engine.

Section Affected.
Context {Json : Type} {JsonNull : Inhabited Json}.
Implicit Types (g : ConceptGraph Json) (e : ConceptEdge Json) (s : AffectedSubgraph).

(** ** Neighbours *)

(** An edge of the graph has [x] as an endpoint. *)
Definition incident g (x : uuid) e : Prop :=
  (exists i, edges g !! i = Some e) /\ (edge_from e = x \/ edge_to e = x).

Lemma elem_of_edges_of g ids e :
  e ∈ edges_of g ids <-> exists i, i ∈ ids /\ edges g !! i = Some e.
Proof. unfold edges_of. rewrite list_elem_of_omap. done. Qed.

Lemma elem_of_get_edges g x e : graph_wf g -> e ∈ get_edges g x <-> incident g x e.
Proof.
  intros Hwf. unfold get_edges, incident. rewrite elem_of_app, !elem_of_edges_of.
  setoid_rewrite (io_ids _ _ _ _ (gw_out _ Hwf) x). setoid_rewrite (io_ids _ _ _ _ (gw_in _ Hwf) x).
  split.
  - intros [(i & (e' & He' & Hs) & He)|(i & (e' & He' & Hs) & He)];
      (rewrite He in He'; injection He' as <-; eauto).
  - intros [[i He] [H|H]]; [left|right]; exists i; eauto.
Qed.

(** The node an edge leads to from [id] at a depth, if the walk follows it: any
    neighbour of an anchor, and from there on what is derived from the node. *)
Definition touch (id : uuid) (depth : nat) e : option uuid :=
  let other := if (edge_from e =? id)%N then edge_to e else edge_from e in
  if (other =? id)%N then None
  else if (depth =? 0)%nat || (bool_decide (relation e = DerivedFrom) && (edge_to e =? id)%N) then Some other
  else None.
Definition succ g (depth : nat) (x : uuid) : list uuid := omap (touch x depth) (get_edges g x).

(** [y] is derived from [x]; [x] and [y] are joined by an edge. *)
Definition derived g (x y : uuid) : Prop :=
  y <> x /\ exists i e, edges g !! i = Some e /\ relation e = DerivedFrom /\ edge_from e = y /\ edge_to e = x.
Definition joined g (x y : uuid) : Prop :=
  y <> x /\ exists i e, edges g !! i = Some e /\
    (edge_from e = x /\ edge_to e = y \/ edge_from e = y /\ edge_to e = x).

Lemma elem_of_succ g depth x y :
  graph_wf g -> y ∈ succ g depth x <-> (depth = 0%nat /\ joined g x y) \/ derived g x y.
Proof.
  intros Hwf. unfold succ. rewrite list_elem_of_omap. setoid_rewrite (elem_of_get_edges g x _ Hwf).
  unfold incident, touch, derived, joined. split.
  - intros (e & ([i He] & Hinc) & Ht).
    destruct (N.eqb_spec (edge_from e) x) as [Hf|Hf], (N.eqb_spec (edge_to e) x) as [Hx|Hx];
      cbn in Ht; rewrite ?(proj2 (N.eqb_eq _ _) Hf), ?(proj2 (N.eqb_neq _ _) Hf),
        ?(proj2 (N.eqb_neq _ _) Hx) in Ht; cbn in Ht; try done; try tauto.
    + rewrite andb_false_r, orb_false_r in Ht. destruct (Nat.eqb_spec depth 0); [|done]. injection Ht as <-.
      left. split; [done|]. split; [done|]. eauto 10.
    + rewrite andb_true_r in Ht. destruct (Nat.eqb_spec depth 0) as [H0|H0]; cbn in Ht.
      * injection Ht as <-. left. split; [done|]. split; [done|]. eauto 10.
      * case_bool_decide as Hr; [|done]. injection Ht as <-. right. split; [done|]. eauto 10.
  - intros [(-> & Hne & i & e & He & Hends)|(Hne & i & e & He & Hr & <- & <-)]; exists e.
    + destruct Hends as [[<- <-]|[<- <-]].
      * split; [eauto 10|]. rewrite N.eqb_refl, (proj2 (N.eqb_neq _ _)) by done. done.
      * split; [eauto 10|]. rewrite (proj2 (N.eqb_neq (edge_from e) (edge_to e))) by done.
        rewrite (proj2 (N.eqb_neq (edge_from e) (edge_to e))) by done. done.
    + split; [eauto 10|]. rewrite (proj2 (N.eqb_neq (edge_from e) (edge_to e))) by done.
      rewrite (proj2 (N.eqb_neq (edge_from e) (edge_to e))) by done.
      rewrite bool_decide_eq_true_2, N.eqb_refl by done. cbn. by rewrite orb_true_r.
Qed.

Lemma expand_edge_touch id depth s frontier e :
  expand_edge id depth (s, frontier) e =
  match touch id depth e with
  | Some y => if bool_decide (y ∈ a_nodes s) then (with_edge s (edge_id e), frontier)
              else (with_node (with_edge s (edge_id e)) y, frontier ++ [(y, S depth)])
  | None => (with_edge s (edge_id e), frontier)
  end.
Proof.
  unfold expand_edge, touch. destruct (_ =? id)%N; [done|].
  destruct (_ || _); cbn; [|done]. by case_bool_decide.
Qed.

(** What the inner loop adds. *)
Lemma expand_fold id depth l s frontier :
  exists news s', foldl (expand_edge id depth) (s, frontier) l
      = (s', frontier ++ ((fun y => (y, S depth)) <$> news)) /\
    NoDup news /\ (forall y, y ∈ news <-> y ∈ omap (touch id depth) l /\ y ∉ a_nodes s) /\
    a_nodes s' = list_to_set news ∪ a_nodes s /\
    (forall i, i ∈ a_edges s' <-> i ∈ a_edges s \/ exists e, e ∈ l /\ edge_id e = i) /\
    max_depth_reached s' = max_depth_reached s.
Proof.
  revert s frontier. induction l as [|e l IH]; intros s frontier.
  { exists [], s. cbn. rewrite (right_id_L [] (++)). split_and!; [done|constructor|set_solver|set_solver| |done].
    intros i. set_solver. }
  cbn [foldl]. rewrite expand_edge_touch. cbn [omap list_omap].
  set (s1 := with_edge s (edge_id e)).
  assert (Hedges : forall s' i, (i ∈ a_edges s' <-> i ∈ a_edges s1 \/ exists x, x ∈ l /\ edge_id x = i) ->
            (i ∈ a_edges s' <-> i ∈ a_edges s \/ exists x, x ∈ e :: l /\ edge_id x = i)).
  { intros s' i ->. cbn. set_solver. }
  destruct (touch id depth e) as [y|] eqn:Et; [case_bool_decide as Hy|].
  - destruct (IH s1 frontier) as (news & s' & -> & Hnd & Hin & Hnodes & He & Hm).
    exists news, s'. split_and!; [done|done| |done| |done].
    + intros z. rewrite Hin, elem_of_cons. cbn. naive_solver.
    + intros i. apply Hedges, He.
  - destruct (IH (with_node s1 y) (frontier ++ [(y, S depth)])) as (news & s' & -> & Hnd & Hin & Hnodes & He & Hm).
    exists (y :: news), s'. split_and!.
    + by rewrite <- (assoc_L (++)).
    + constructor; [|done]. rewrite Hin. cbn. set_solver.
    + intros z. rewrite !elem_of_cons, Hin. cbn. destruct (decide (z = y)) as [->|]; set_solver.
    + rewrite Hnodes. cbn. set_solver.
    + intros i. apply Hedges, He.
    + exact Hm.
  - destruct (IH s1 frontier) as (news & s' & -> & Hnd & Hin & Hnodes & He & Hm).
    exists news, s'. split_and!; [done|done| |done| |done].
    + intros z. by rewrite Hin.
    + intros i. apply Hedges, He.
Qed.

Lemma edges_fold l s :
  let s' := foldl (fun s e => with_edge s (edge_id e)) s l in
  a_nodes s' = a_nodes s /\ max_depth_reached s' = max_depth_reached s /\
  forall i, i ∈ a_edges s' <-> i ∈ a_edges s \/ exists e, e ∈ l /\ edge_id e = i.
Proof.
  revert s. induction l as [|e l IH]; intros s; cbn [foldl].
  { split_and!; [done|done|]. intros i. set_solver. }
  destruct (IH (with_edge s (edge_id e))) as (H1 & H2 & H3). split_and!; [done|done|].
  intros i. rewrite H3. cbn. set_solver.
Qed.

(** ** The walk *)

Section Walk.
Context (g : ConceptGraph Json) (D : nat) (roots : list uuid).
Hypothesis Hwf : graph_wf g.

(** The nodes [k] steps from the roots: any edge for the first step, derivation
    for the others. *)
Fixpoint layer (k : nat) : list uuid :=
  match k with O => roots | S k => layer k ≫= succ g k end.
Definition reached (x : uuid) : Prop := exists k, (k <= D)%nat /\ x ∈ layer k.
(** [k] is the least number of steps. *)
Definition first_at (k : nat) (x : uuid) : Prop := x ∈ layer k /\ forall j, (j < k)%nat -> x ∉ layer j.

Lemma succ_mono j k x y : (j <= k)%nat -> y ∈ succ g k x -> y ∈ succ g j x.
Proof using Hwf.
  intros Hjk. rewrite !elem_of_succ by done. intros [[-> Hj]|Hd]; [|by right].
  left. split; [lia|done].
Qed.

Lemma elem_of_layer_S k y : y ∈ layer (S k) <-> exists x, x ∈ layer k /\ y ∈ succ g k x.
Proof. cbn [layer]. rewrite list_elem_of_bind. naive_solver. Qed.

Lemma first_at_exists k x : x ∈ layer k -> exists j, (j <= k)%nat /\ first_at j x.
Proof.
  induction k as [k IH] using lt_wf_ind. intros Hx.
  destruct (decide (Exists (fun j => x ∈ layer j) (seq 0 k))) as [He|Hn].
  - apply Exists_exists in He as (j & [_ Hj]%elem_of_seq & Hl).
    destruct (IH j Hj Hl) as (i & Hi & Hd). exists i. split; [lia|done].
  - exists k. split; [lia|]. split; [done|]. intros j Hj Hs. apply Hn, Exists_exists.
    exists j. split; [apply elem_of_seq; lia|done].
Qed.

(** The queue holds [now] at depth [d] and [next] at depth [d + 1]. *)
Record walk_inv (d : nat) (now next : list uuid) s : Prop := {
  wi_now : forall x, x ∈ now -> first_at d x /\ x ∈ a_nodes s;
  wi_next : forall x, x ∈ next -> first_at (S d) x /\ x ∈ a_nodes s /\ (S d <= D)%nat;
  wi_sound : forall x, x ∈ a_nodes s -> reached x;
  wi_known : forall k x, (k <= d)%nat -> (k <= D)%nat -> x ∈ layer k -> x ∈ a_nodes s;
  wi_done : forall x, x ∈ a_nodes s -> x ∉ now -> x ∉ next ->
    exists k, (k <= d)%nat /\ first_at k x /\ (k < D -> forall y, y ∈ succ g k x -> y ∈ a_nodes s)%nat /\
      forall e, incident g x e -> edge_id e ∈ a_edges s;
  wi_edges : forall i, i ∈ a_edges s -> exists x e, x ∈ a_nodes s /\ incident g x e /\ edge_id e = i;
  wi_depth : (max_depth_reached s <= D)%nat;
  wi_d : (d <= D)%nat
}.

(** Nothing new at a depth whose predecessors are all expanded. *)
Lemma walk_known_S d next s k x :
  walk_inv d [] next s -> k = S d -> (k <= D)%nat -> x ∈ layer k -> x ∈ a_nodes s.
Proof using Hwf.
  intros [_ Hnext _ Hknown Hdone _ _ _] -> Hk (y & Hy & Hxy)%elem_of_layer_S.
  assert (Hyn : y ∈ a_nodes s) by (apply (Hknown d y); [lia|lia|done]).
  destruct (Hdone y Hyn) as (j & Hj & Hf & Hs & _); [by intros ?%elem_of_nil| |].
  { intros Hin. destruct (Hnext y Hin) as ([_ Hmin] & _). by apply (Hmin d); [lia|]. }
  apply Hs; [lia|]. by eapply succ_mono.
Qed.

Lemma walk_inv_level d next s :
  walk_inv d [] next s -> next <> [] -> walk_inv (S d) next [] s.
Proof using Hwf.
  intros Hinv Hne. pose proof (walk_known_S d next s) as HS.
  destruct Hinv as [Hnow Hnext Hsound Hknown Hdone Hedges Hdepth Hd] eqn:E. split; try done.
  - intros x Hx. by destruct (Hnext x Hx) as (? & ? & _).
  - intros x []%elem_of_nil.
  - intros k x Hk Hkd Hx. destruct (decide (k = S d)) as [->|]; [by eapply HS|]. apply (Hknown k x); [lia|done..].
  - intros x Hx Hnx _. destruct (Hdone x Hx) as (k & Hk & ?); [by intros ?%elem_of_nil|done|]. exists k. split; [lia|done].
  - destruct next as [|x next]; [done|]. by destruct (Hnext x ltac:(left)) as (_ & _ & ?).
Qed.

Lemma walk_inv_end d s x : walk_inv d [] [] s -> x ∈ a_nodes s <-> reached x.
Proof using Hwf.
  intros [_ _ Hsound Hknown Hdone _ _ _]. split; [apply Hsound|].
  assert (Hall : forall k x, (k <= D)%nat -> x ∈ layer k -> x ∈ a_nodes s).
  { induction k as [|k IH]; intros y Hk Hy; [apply (Hknown 0%nat); [lia|lia|done]|].
    apply elem_of_layer_S in Hy as (z & Hz & Hyz).
    assert (Hzn : z ∈ a_nodes s) by (apply IH; [lia|done]).
    destruct (Hdone z Hzn) as (j & Hj & [_ Hmin] & Hs & _); [by intros ?%elem_of_nil..|].
    assert (j <= k)%nat by (destruct (decide (j <= k)%nat); [done|exfalso; by apply (Hmin k); [lia|]]).
    apply Hs; [lia|]. by eapply succ_mono. }
  intros (k & Hk & Hx). by apply (Hall k).
Qed.

(** What one iteration does, whether or not the node is expanded. *)
Lemma expand_spec d x s frontier :
  exists news s', expand D g x d s frontier = (s', frontier ++ ((fun y => (y, S d)) <$> news)) /\
    NoDup news /\ (forall y, y ∈ news <-> (d < D)%nat /\ y ∈ succ g d x /\ y ∉ a_nodes s) /\
    a_nodes s' = list_to_set news ∪ a_nodes s /\
    (forall i, i ∈ a_edges s' <-> i ∈ a_edges s \/ exists e, incident g x e /\ edge_id e = i) /\
    max_depth_reached s' = Nat.max (max_depth_reached s) d.
Proof using Hwf.
  unfold expand. set (s0 := if (_ <? _)%nat then _ else s).
  assert (Hs0 : a_nodes s0 = a_nodes s /\ a_edges s0 = a_edges s /\ max_depth_reached s0 = Nat.max (max_depth_reached s) d).
  { subst s0. destruct (Nat.ltb_spec (max_depth_reached s) d); cbn; split_and!; try done; lia. }
  destruct Hs0 as (Hn & He & Hm).
  assert (Hinc : forall i, (exists e, e ∈ get_edges g x /\ edge_id e = i) <-> (exists e, incident g x e /\ edge_id e = i)).
  { intros i. split; intros (e & H & <-); exists e; (split; [|done]); by apply (elem_of_get_edges g x e Hwf). }
  destruct (Nat.leb_spec D d).
  - destruct (edges_fold (get_edges g x) s0) as (H1 & H2 & H3). exists [], (foldl (fun s e => with_edge s (edge_id e)) s0 (get_edges g x)). split_and!.
    + cbn. by rewrite (right_id_L [] (++)).
    + constructor.
    + intros y. split; [by intros ?%elem_of_nil|lia].
    + rewrite H1, Hn. cbn. by rewrite (left_id_L ∅ (∪)).
    + intros i. by rewrite H3, He, Hinc.
    + by rewrite H2.
  - destruct (expand_fold x d (get_edges g x) s0 frontier) as (news & s' & -> & Hnd & Hin & Hnodes & Hed & Hmd).
    exists news, s'. split_and!; [done|done| | | |by rewrite Hmd].
    + intros y. rewrite Hin, Hn. unfold succ. tauto.
    + by rewrite Hnodes, Hn.
    + intros i. by rewrite Hed, He, Hinc.
Qed.

(** Expanding the first node of the queue. *)
Lemma walk_inv_expand d x now next s frontier :
  walk_inv d (x :: now) next s ->
  exists news s', expand D g x d s frontier = (s', frontier ++ ((fun y => (y, S d)) <$> news)) /\
    walk_inv d now (next ++ news) s' /\ a_nodes s' = list_to_set news ∪ a_nodes s /\
    NoDup news /\ forall y, y ∈ news -> y ∉ a_nodes s /\ y ∈ succ g d x.
Proof using Hwf.
  intros [Hnow Hnext Hsound Hknown Hdone Hedges Hdepth Hd].
  destruct (expand_spec d x s frontier) as (news & s' & -> & Hnd & Hin & Hnodes & Hed & Hmd).
  exists news, s'. split_and!; [done| |done|done|intros y Hy%Hin; tauto].
  destruct (Hnow x ltac:(left)) as [[Hxl Hxmin] Hxs].
  assert (Hlayer : forall y, y ∈ news -> y ∈ layer (S d)).
  { intros y Hy%Hin. apply elem_of_layer_S. exists x. tauto. }
  split.
  - intros y Hy. destruct (Hnow y) as [? ?]; [by right|]. rewrite Hnodes. set_solver.
  - intros y [Hy|Hy]%elem_of_app.
    + destruct (Hnext y Hy) as (? & ? & ?). rewrite Hnodes. set_solver.
    + pose proof (Hlayer y Hy) as Hl. pose proof (proj1 (Hin y) Hy) as (HdD & _ & Hns).
      split_and!; [|rewrite Hnodes; set_solver|lia]. split; [done|].
      intros j Hj Hjl. apply Hns, (Hknown j); [lia|lia|done].
  - intros y. rewrite Hnodes, elem_of_union, elem_of_list_to_set. intros [Hy|Hy]; [|by apply Hsound].
    exists (S d). pose proof (proj1 (Hin y) Hy) as (HdD & _). split; [lia|by apply Hlayer].
  - intros k y Hk HkD Hy. rewrite Hnodes. apply elem_of_union_r, (Hknown k); done.
  - intros y. rewrite Hnodes, elem_of_union, elem_of_list_to_set, elem_of_app. intros Hy Hyn Hyx.
    assert (Hys : y ∈ a_nodes s) by tauto. destruct (decide (y = x)) as [->|Hne].
    + exists d. split; [done|]. split; [done|]. split; [|intros e He; apply Hed; eauto].
      intros HdD z Hz. rewrite elem_of_union, elem_of_list_to_set, Hin.
      destruct (decide (z ∈ a_nodes s)); tauto.
    + destruct (Hdone y Hys) as (k & Hk & Hf & Hs & He); [by intros [?|?]%elem_of_cons|tauto|].
      exists k. split; [done|]. split; [done|]. split; [|intros e Hi; apply Hed; left; by apply He].
      intros HkD z Hz. apply elem_of_union_r. by apply Hs.
  - intros i [Hi|(e & He & <-)]%Hed.
    + destruct (Hedges i Hi) as (y & e & Hy & ? & ?). exists y, e. rewrite Hnodes. set_solver.
    + exists x, e. rewrite Hnodes. set_solver.
  - rewrite Hmd. lia.
  - exact Hd.
Qed.

(** The nodes of the graph the walk has not seen. *)
Definition unseen s : nat := size (dom (nodes g) ∖ a_nodes s).

Lemma succ_in_graph d x y : y ∈ succ g d x -> y ∈ dom (nodes g).
Proof using Hwf.
  rewrite elem_of_succ by done. intros Hs. apply elem_of_dom.
  assert (exists i e, edges g !! i = Some e /\ (edge_from e = y \/ edge_to e = y)) as (i & e & He & Hy).
  { destruct Hs as [(_ & _ & i & e & He & [[_ Ht]|[Hf _]])|(_ & i & e & He & _ & Hf & _)]; eauto. }
  destruct (gw_edge _ Hwf i e He) as (_ & Hfrom & Hto). by destruct Hy as [<-|<-].
Qed.

Lemma unseen_expand d x (news : list uuid) s s' :
  a_nodes s' = list_to_set news ∪ a_nodes s -> NoDup news ->
  (forall y, y ∈ news -> y ∉ a_nodes s /\ y ∈ succ g d x) ->
  (length news + unseen s' = unseen s)%nat.
Proof using Hwf.
  intros Hn Hnd Hin. unfold unseen. rewrite Hn, <- (size_list_to_set (C:=gset uuid) news Hnd), <- size_union.
  - f_equal. apply set_eq. intros y. rewrite elem_of_union, !elem_of_difference, elem_of_union, elem_of_list_to_set.
    split.
    + intros [Hy|[Hd Hy]]; [|tauto]. destruct (Hin y Hy). split; [by eapply succ_in_graph|done].
    + intros [Hd Hy]. destruct (decide (y ∈ news)); tauto.
  - set_solver.
Qed.

Definition queue (d : nat) (now next : list uuid) : list (uuid * nat) :=
  ((fun y => (y, d)) <$> now) ++ ((fun y => (y, S d)) <$> next).

(** The loop empties its queue with the fuel it has. *)
Lemma affected_loop_spec fuel d now next s :
  walk_inv d now next s -> (length now + length next + unseen s <= fuel)%nat ->
  exists s' d', affected_loop D fuel g s (queue d now next) = Some s' /\ walk_inv d' [] [] s'.
Proof using Hwf.
  revert d now next s. induction fuel as [|fuel IH]; intros d now next s Hinv Hf.
  { destruct now, next; cbn in Hf; try lia. by exists s, d. }
  assert (Hstep : forall d x now next s, walk_inv d (x :: now) next s ->
            (length (x :: now) + length next + unseen s <= S fuel)%nat ->
            exists s' d', affected_loop D (S fuel) g s (queue d (x :: now) next) = Some s' /\ walk_inv d' [] [] s').
  { clear d now next s Hinv Hf. intros d x now next s Hinv Hf. cbn [queue fmap list_fmap app affected_loop].
    destruct (walk_inv_expand d x now next s (queue d now next) Hinv) as (news & s' & He & Hinv' & Hn & Hnd & Hin).
    unfold queue in *. cbn [fmap list_fmap app]. rewrite He, <- (assoc_L (++)), <- fmap_app.
    apply (IH d now (next ++ news) s' Hinv'). pose proof (unseen_expand d x news s s' Hn Hnd Hin).
    cbn in Hf. rewrite length_app. lia. }
  destruct now as [|x now]; [|by apply Hstep].
  destruct next as [|x next]; [by exists s, d|].
  specialize (Hstep (S d) x next [] s). unfold queue in Hstep |- *. cbn [fmap list_fmap app] in Hstep |- *.
  rewrite (right_id_L [] (++)) in Hstep. apply Hstep.
  - by apply walk_inv_level.
  - cbn in Hf |- *. lia.
Qed.

Lemma walk_inv_seed (s : AffectedSubgraph) :
  a_nodes s = list_to_set roots -> a_edges s = ∅ -> max_depth_reached s = 0%nat -> walk_inv 0 roots [] s.
Proof using Type.
  intros Hn He Hm. split.
  - intros x Hx. split; [|rewrite Hn; by apply elem_of_list_to_set]. split; [done|lia].
  - by intros x ?%elem_of_nil.
  - intros x. rewrite Hn, elem_of_list_to_set. exists 0%nat. split; [lia|done].
  - intros k x Hk _ Hx. assert (k = 0%nat) as -> by lia. rewrite Hn. by apply elem_of_list_to_set.
  - intros x. rewrite Hn, elem_of_list_to_set. done.
  - intros i. rewrite He. by intros ?%elem_of_empty.
  - rewrite Hm. lia.
  - lia.
Qed.

(** The edges reported are those that touch a reported node. *)
Lemma walk_inv_edges d s i :
  walk_inv d [] [] s -> i ∈ a_edges s <-> exists x e, x ∈ a_nodes s /\ incident g x e /\ edge_id e = i.
Proof using Type.
  intros [_ _ _ _ Hdone Hedges _ _]. split; [apply Hedges|].
  intros (x & e & Hx & Hi & <-).
  destruct (Hdone x Hx) as (_ & _ & _ & _ & He); [by intros ?%elem_of_nil..|]. by apply He.
Qed.

(** Layers as paths. *)
Lemma layer_path k x :
  x ∈ layer (S k) <-> exists r y, r ∈ roots /\ joined g r y /\ nsteps (derived g) k y x.
Proof using Hwf.
  assert (Hdj : forall r y, derived g r y -> joined g r y).
  { intros r y (Hne & i & e & He & _ & Hf & Ht). split; [done|]. eauto 10. }
  revert x. induction k as [|k IH]; intros x; rewrite elem_of_layer_S.
  - setoid_rewrite elem_of_succ; [|done]. split.
    + intros (r & Hr & [[_ Hj]|Hd]); exists r, x; (split; [done|]); (split; [|apply nsteps_O]); auto.
    + intros (r & y & Hr & Hj & Hn). inversion Hn; subst. exists r. split; [done|]. by left.
  - setoid_rewrite IH. setoid_rewrite elem_of_succ; [|done]. split.
    + intros (z & (r & y & Hr & Hj & Hn) & [[? _]|Hd]); [done|].
      exists r, y. split; [done|]. split; [done|]. by eapply nsteps_r.
    + intros (r & y & Hr & Hj & (z & Hn & Hd)%nsteps_inv_r). exists z. split; [eauto|by right].
Qed.
End Walk.

(** ** The scope *)

Section Scope.
Context (g : ConceptGraph Json) (aff : AffectedSubgraph) (roots : list uuid).
Hypothesis Hwf : graph_wf g.

(** [y] is derived from [x] and touched. *)
Definition needs (x y : uuid) : Prop := derived g x y /\ y ∈ a_nodes aff.

Record scope_inv (seen : gset uuid) (out frontier : list uuid) : Prop := {
  si_seen : forall x, x ∈ seen <-> x ∈ out;
  si_nodup : NoDup out;
  si_frontier : forall x, x ∈ frontier -> x ∈ out;
  si_roots : forall x, x ∈ roots -> x ∈ out;
  si_sound : forall x, x ∈ out -> exists r, r ∈ roots /\ rtc needs r x;
  si_closed : forall x y, x ∈ out -> x ∉ frontier -> needs x y -> y ∈ out
}.

(** The inner loop on some of the edges of [id], itself in the scope. *)
Lemma scope_fold id l seen out frontier :
  (forall x, x ∈ seen <-> x ∈ out) -> NoDup out -> id ∈ out -> (forall e, e ∈ l -> e ∈ get_edges g id) ->
  exists news, foldl (scope_edge aff id) (seen, out, frontier) l
      = (list_to_set news ∪ seen, out ++ news, frontier ++ news) /\
    NoDup (out ++ news) /\ (forall y, y ∈ news -> needs id y) /\
    forall e, e ∈ l -> relation e = DerivedFrom -> edge_to e = id -> edge_from e ∈ a_nodes aff ->
      edge_from e ∈ out ++ news.
Proof using Hwf.
  revert seen out frontier. induction l as [|e l IH]; intros seen out frontier Hseen Hnd Hid Hl.
  { exists []. cbn. rewrite (left_id_L ∅ (∪)), !(right_id_L [] (++)). split_and!; [done|done|..]; by intros ? ?%elem_of_nil. }
  assert (Hskip : (relation e = DerivedFrom -> edge_to e = id -> edge_from e ∈ a_nodes aff -> edge_from e ∈ out) ->
            exists news, foldl (scope_edge aff id) (seen, out, frontier) l
              = (list_to_set news ∪ seen, out ++ news, frontier ++ news) /\
            NoDup (out ++ news) /\ (forall y, y ∈ news -> needs id y) /\
            forall e', e' ∈ e :: l -> relation e' = DerivedFrom -> edge_to e' = id -> edge_from e' ∈ a_nodes aff ->
              edge_from e' ∈ out ++ news).
  { intros Hk. destruct (IH seen out frontier) as (news & ? & ? & ? & Hall); [done..|intros; apply Hl; by right|].
    exists news. split_and!; [done..|]. intros e' [->|He']%elem_of_cons; [|by apply Hall].
    intros Hre Hte Hae. apply elem_of_app. left. by apply Hk. }
  cbn [foldl scope_edge]. case_bool_decide as Hr; cbn [negb]; [|apply Hskip; done].
  destruct (N.eqb_spec (edge_to e) id) as [Ht|Ht]; cbn [negb]; [|apply Hskip; done].
  unfold contains_node. case_bool_decide as Ha; cbn [negb]; [|apply Hskip; done].
  case_bool_decide as Hs; [apply Hskip; intros; by apply Hseen|].
  assert (Hno : edge_from e ∉ out) by (by rewrite <- Hseen).
  destruct (IH ({[edge_from e]} ∪ seen) (out ++ [edge_from e]) (frontier ++ [edge_from e]))
    as (news & -> & Hnd' & Hneeds & Hall).
  - intros x. rewrite elem_of_union, elem_of_singleton, elem_of_app, list_elem_of_singleton, Hseen. tauto.
  - apply NoDup_app. split; [done|]. split; [|apply NoDup_singleton]. intros x Hx ->%list_elem_of_singleton. done.
  - apply elem_of_app. by left.
  - intros; apply Hl; by right.
  - exists (edge_from e :: news). rewrite <- !(assoc_L (++)) in *. cbn [app] in *. split_and!; [|done| |].
    + f_equal. f_equal. cbn. set_solver.
    + intros y [->|Hy]%elem_of_cons; [|by apply Hneeds]. split; [|done].
      split; [intros Heq; apply Hno; by rewrite Heq|].
      destruct (proj1 (elem_of_get_edges g id e Hwf) (Hl e ltac:(left))) as ([i Hi] & _). eauto 10.
    + intros e' [->|He']%elem_of_cons; [|by apply Hall]. intros _ _ _. apply elem_of_app. right. left.
Qed.

(** The loop empties its queue; what it returns is closed. *)
Lemma scope_loop_spec fuel seen out frontier :
  scope_inv seen out frontier -> NoDup frontier ->
  (length frontier + size (a_nodes aff ∖ seen) <= fuel)%nat ->
  exists out' seen', scope_loop fuel g aff seen out frontier = Some out' /\ scope_inv seen' out' [].
Proof using Hwf.
  revert seen out frontier. induction fuel as [|fuel IH]; intros seen out frontier Hinv Hfnd Hf;
    (destruct frontier as [|id frontier]; [by exists out, seen|]); [cbn in Hf; lia|].
  destruct Hinv as [Hseen Hnd Hfr Hro Hso Hcl]. cbn [scope_loop].
  assert (Hid : id ∈ out) by (apply Hfr; left).
  destruct (scope_fold id (get_edges g id) seen out frontier) as (news & -> & Hnd' & Hneeds & Hall); [done..|].
  pose proof Hnd' as Hsplit. apply NoDup_app in Hsplit as (_ & Hfresh & Hnn). apply NoDup_cons in Hfnd as [Hidf Hfnd].
  assert (Hnew : forall y, y ∈ news -> y ∈ a_nodes aff /\ y ∉ seen).
  { intros y Hy. split; [by apply Hneeds|]. rewrite Hseen. intros Ho. by apply (Hfresh y). }
  apply IH.
  - split.
    + intros x. rewrite elem_of_union, elem_of_list_to_set, elem_of_app, Hseen. tauto.
    + done.
    + intros x [Hx|Hx]%elem_of_app; apply elem_of_app; [left; apply Hfr; by right|by right].
    + intros x Hx. apply elem_of_app. left. by apply Hro.
    + intros x [Hx|Hx]%elem_of_app; [by apply Hso|]. destruct (Hso id Hid) as (r & Hr & Hp).
      exists r. split; [done|]. eapply rtc_r; [exact Hp|by apply Hneeds].
    + intros x y Hx Hxf Hxy. destruct (decide (x = id)) as [->|Hne].
      * destruct Hxy as [(_ & i & e & He & Hr & <- & Ht) Hy]. apply Hall; try done.
        apply (elem_of_get_edges g id e Hwf). split; [eauto|by right].
      * rewrite elem_of_app in Hx, Hxf. destruct Hx as [Hx|Hx]; [|tauto].
        apply elem_of_app. left. apply (Hcl x y Hx); [|done]. rewrite elem_of_cons. tauto.
  - apply NoDup_app. split; [done|]. split; [|done]. intros x Hx Hxn. apply (Hfresh x); [|done]. apply Hfr. by right.
  - assert (Hsz : (length news + size (a_nodes aff ∖ (list_to_set news ∪ seen)) = size (a_nodes aff ∖ seen))%nat).
    { rewrite <- (size_list_to_set (C:=gset uuid) news Hnn), <- size_union by set_solver. f_equal.
      apply set_eq. intros y. rewrite elem_of_union, !elem_of_difference, elem_of_union, elem_of_list_to_set.
      split; [intros [Hy|?]; [by apply Hnew|tauto]|]. intros [Hy1 Hy2]. destruct (decide (y ∈ news)); tauto. }
    cbn [length] in Hf. rewrite length_app. lia.
Qed.

(** What is in the scope. *)
Lemma scope_inv_end seen out x :
  scope_inv seen out [] -> x ∈ out <-> exists r, r ∈ roots /\ rtc needs r x.
Proof using Type.
  intros [_ _ _ Hro Hso Hcl]. split; [apply Hso|]. intros (r & Hr%Hro & Hp).
  revert Hr. induction Hp as [y|y z w Hyz _ IH]; [done|]. intros Hy. apply IH, (Hcl y); [done|by intros ?%elem_of_nil|done].
Qed.
End Scope.

(** ** The public calls *)

(** The anchors that are in the graph, as often as the event names them. *)
Definition present g (l : list uuid) : list uuid := base.filter (fun a => is_Some (get_node g a)) l.

Lemma seed_fold g l s frontier :
  exists s', foldl (seed g) (s, frontier) l = (s', frontier ++ ((fun y => (y, 0%nat)) <$> present g l)) /\
    a_nodes s' = list_to_set (present g l) ∪ a_nodes s /\ a_edges s' = a_edges s /\
    max_depth_reached s' = max_depth_reached s.
Proof.
  revert s frontier. induction l as [|a l IH]; intros s frontier; cbn [foldl].
  { exists s. cbn. by rewrite (right_id_L [] (++)), (left_id_L ∅ (∪)). }
  cbn [seed]. unfold present. destruct (get_node g a) as [n|] eqn:Ea.
  - rewrite filter_cons_True by (by rewrite Ea). destruct (IH (with_node s a) (frontier ++ [(a, 0%nat)])) as (s' & -> & Hn & He & Hm).
    exists s'. split; [by rewrite <- (assoc_L (++))|]. split; [|done]. rewrite Hn. cbn. unfold present. set_solver.
  - rewrite filter_cons_False by (rewrite Ea; by intros [? [=]]). apply IH.
Qed.

Lemma seed_scope_fold g l seen out :
  (forall x, x ∈ seen <-> x ∈ out) -> NoDup out ->
  exists seen' out', foldl (seed_scope g) (seen, out) l = (seen', out') /\
    (forall x, x ∈ seen' <-> x ∈ out') /\ NoDup out' /\ forall x, x ∈ out' <-> x ∈ out \/ x ∈ present g l.
Proof.
  revert seen out. induction l as [|a l IH]; intros seen out Hseen Hnd; cbn [foldl].
  { exists seen, out. split_and!; [done..|]. intros x. cbn. set_solver. }
  cbn [seed_scope]. unfold present. destruct (get_node g a) as [n|] eqn:Ea.
  - rewrite filter_cons_True by (by rewrite Ea). case_bool_decide as Ha.
    + destruct (IH seen out Hseen Hnd) as (seen' & out' & -> & ? & ? & Hin). exists seen', out'. split_and!; [done..|].
      intros x. rewrite Hin, elem_of_cons. apply Hseen in Ha. naive_solver.
    + destruct (IH ({[a]} ∪ seen) (out ++ [a])) as (seen' & out' & -> & ? & ? & Hin).
      * intros x. rewrite elem_of_union, elem_of_singleton, elem_of_app, list_elem_of_singleton, Hseen. tauto.
      * apply NoDup_app. split; [done|]. split; [|apply NoDup_singleton].
        intros x Hx ->%list_elem_of_singleton. apply Ha. by apply Hseen.
      * exists seen', out'. split_and!; [done..|]. intros x. rewrite Hin, elem_of_app, list_elem_of_singleton, elem_of_cons. tauto.
  - rewrite filter_cons_False by (rewrite Ea; by intros [? [=]]). by apply IH.
Qed.

(** [x] is an anchor of [e] in the graph, or reached from one by a first edge of
    any kind and [D - 1] derivations at most. *)
Definition touched g (D : nat) (ev : ChangeEvent) (x : uuid) : Prop :=
  exists r, r ∈ present g (anchors ev) /\
    (x = r \/ exists y k, (S k <= D)%nat /\ joined g r y /\ nsteps (derived g) k y x).

Lemma reached_touched g D ev x : graph_wf g -> reached g D (present g (anchors ev)) x <-> touched g D ev x.
Proof.
  intros Hwf. unfold reached, touched. split.
  - intros ([|k] & Hk & Hx); [by exists x; auto|]. apply layer_path in Hx as (r & y & Hr & Hj & Hn); [|done].
    exists r. split; [done|]. right. eauto.
  - intros (r & Hr & [->|(y & k & Hk & Hj & Hn)]).
    + exists 0%nat. split; [lia|done].
    + exists (S k). split; [done|]. apply layer_path; eauto.
Qed.

(** Derivation paths from an anchor stay within what is touched. *)
Lemma derived_touched g D ev r k x :
  r ∈ present g (anchors ev) -> (k <= D)%nat -> nsteps (derived g) k r x -> touched g D ev x.
Proof.
  intros Hr Hk Hn. exists r. split; [done|]. destruct k as [|k]; inversion Hn as [|? ? y ? Hd Hrest]; subst; [by left|].
  right. exists y, k. split; [done|]. split; [|done]. destruct Hd as (Hne & i & e & He & _ & Hf & Ht).
  split; [done|]. eauto 10.
Qed.

Lemma anchors_le ev : (length (anchors ev) <= 2)%nat.
Proof. destruct ev; cbn; lia. Qed.

(** What the walk should report. *)
Definition affected_is g (D : nat) (ev : ChangeEvent) s : Prop :=
  (forall x, x ∈ a_nodes s <-> touched g D ev x) /\
  (forall i, i ∈ a_edges s <-> ev = EdgeAdded i \/ ev = EdgeRemoved i \/
     exists x e, x ∈ a_nodes s /\ incident g x e /\ edge_id e = i) /\
  (max_depth_reached s <= D)%nat.

Lemma affected_is_edge g D ev i :
  anchors ev = [] -> ev = EdgeAdded i \/ ev = EdgeRemoved i -> affected_is g D ev (with_edge no_affected i).
Proof.
  intros Ha Hev. split; [|split; [|cbn; lia]].
  - intros x. unfold touched. rewrite Ha. split; [by intros ?%elem_of_empty|by intros (r & ?%elem_of_nil & _)].
  - intros j. cbn. rewrite elem_of_union, elem_of_singleton. split.
    + intros [->|?%elem_of_empty]; [tauto|done].
    + intros [H|[H|(x & e & ?%elem_of_empty & _)]]; [| |done]; left; destruct Hev as [->| ->]; congruence.
Qed.

Lemma affected_is_walk g D ev :
  graph_wf g -> (forall i, ev <> EdgeAdded i) -> (forall i, ev <> EdgeRemoved i) ->
  exists s, (let '(s, frontier) := foldl (seed g) (no_affected, []) (anchors ev) in
             affected_loop D (affected_fuel g) g s frontier) = Some s /\ affected_is g D ev s.
Proof.
  intros Hwf Ha Hr. destruct (seed_fold g (anchors ev) no_affected []) as (s0 & -> & Hn & He & Hm).
  set (roots := present g (anchors ev)) in *. cbn [app no_affected a_nodes] in *. rewrite (right_id_L ∅ (∪)) in Hn.
  destruct (affected_loop_spec g D roots Hwf (affected_fuel g) 0 roots [] s0) as (s & d & Hs & Hinv).
  - by apply walk_inv_seed.
  - unfold affected_fuel, node_count, unseen. rewrite <- size_dom.
    assert (length roots <= 2)%nat by (etrans; [apply length_filter|apply anchors_le]).
    pose proof (subseteq_size (dom (nodes g) ∖ a_nodes s0) (dom (nodes g)) ltac:(set_solver)). cbn [length]. lia.
  - unfold queue in Hs. rewrite fmap_nil, (right_id_L [] (++)) in Hs. exists s. split; [exact Hs|].
    split; [|split].
    + intros x. rewrite <- (reached_touched g D ev x Hwf). by eapply walk_inv_end.
    + intros i. rewrite (walk_inv_edges g D roots d s i Hinv). split; [auto|].
      intros [H|[H|?]]; [by destruct (Ha i)|by destruct (Hr i)|done].
    + by eapply wi_depth.
Qed.

Lemma affected_subgraph_spec g D ev :
  graph_wf g -> exists s, affected_subgraph D g ev = Some s /\ affected_is g D ev s.
Proof.
  intros Hwf. destruct ev as [n|a b|a b|i|i].
  4, 5: eexists; split; [reflexivity|]; apply affected_is_edge; auto.
  - by apply (affected_is_walk g D (NodePromoted n)).
  - by apply (affected_is_walk g D (NodeSuperseded a b)).
  - by apply (affected_is_walk g D (NodeContradicted a b)).
Qed.

Lemma recompute_scope_spec g ev aff :
  graph_wf g ->
  exists scope, recompute_scope g ev aff = Some scope /\ NoDup scope /\
    forall x, x ∈ scope <-> exists r, r ∈ present g (anchors ev) /\ rtc (needs g aff) r x.
Proof.
  intros Hwf. unfold recompute_scope.
  destruct (seed_scope_fold g (anchors ev) ∅ []) as (seen & out & -> & Hseen & Hnd & Hin); [|constructor|].
  { intros x. split; [by intros ?%elem_of_empty|by intros ?%elem_of_nil]. }
  assert (Hout : forall x, x ∈ out <-> x ∈ present g (anchors ev)).
  { intros x. rewrite Hin. split; [by intros [?%elem_of_nil|?]|auto]. }
  destruct (scope_loop_spec g aff (present g (anchors ev)) Hwf (S (S (size (a_nodes aff)))) seen out out)
    as (scope & seen' & Hs & Hinv).
  - split; [done|done|done|intros x; apply Hout| |done]. intros x Hx. exists x. split; [by apply Hout|apply rtc_refl].
  - done.
  - assert (length out <= 2)%nat.
    { etrans; [|apply (anchors_le ev)]. apply submseteq_length, NoDup_submseteq; [done|].
      intros x Hx%Hout. unfold present in Hx. by apply list_elem_of_filter in Hx as [_ ?]. }
    pose proof (subseteq_size (a_nodes aff ∖ seen) (a_nodes aff) ltac:(set_solver)). lia.
  - exists scope. split; [exact Hs|]. split; [by eapply si_nodup|]. intros x. by eapply scope_inv_end.
Qed.

(** What a change touches, and what must be synthesised again.  On any graph
    built by the public mutators both searches of the incremental engine
    terminate.  The affected subgraph is exact: its nodes are the event's anchors
    that exist, their neighbours along any edge, and what is derived from those
    within the propagation depth; its edges are those incident to its nodes (for
    an edge event, the edge alone); and it reports no depth beyond the limit.
    The recompute scope is a duplicate-free part of it: the anchors and what is
    derived from them through touched nodes, which includes every dependent
    within the depth limit. *)
Theorem affected_exact `{HashOrder} g D ev :
  rtc step new g ->
  exists s scope, affected_subgraph D g ev = Some s /\ affected_is g D ev s /\
    recompute_scope g ev s = Some scope /\ NoDup scope /\
    (forall x, x ∈ scope <-> exists r, r ∈ present g (anchors ev) /\ rtc (needs g s) r x) /\
    (forall x, x ∈ scope -> x ∈ a_nodes s) /\
    (forall r k x, r ∈ present g (anchors ev) -> (k <= D)%nat -> nsteps (derived g) k r x -> x ∈ scope).
Proof.
  intros Hrun. pose proof (graph_wf_run g Hrun) as Hwf.
  destruct (affected_subgraph_spec g D ev Hwf) as (s & Hs & Haff). pose proof Haff as [Hnodes _].
  destruct (recompute_scope_spec g ev s Hwf) as (scope & Hsc & Hnd & Hin).
  exists s, scope. split; [done|]. split; [done|]. split_and!; [done|done|done| |].
  - intros x (r & Hr & Hp)%Hin. apply rtc_inv_r in Hp as [<-|(y & _ & _ & Hx)]; [|done].
    apply Hnodes. exists r. auto.
  - intros r k x Hr Hk Hn. apply Hin. exists r. split; [done|]. revert x Hk Hn.
    induction k as [|k IH]; intros x Hk Hn; [inversion Hn; subst; apply rtc_refl|].
    apply nsteps_inv_r in Hn as Hlast. destruct Hlast as (z & Hz & Hd). eapply rtc_r; [apply (IH z); [lia|done]|].
    split; [done|]. apply Hnodes. by eapply derived_touched.
Qed.


(** ** Propagation *)

(** What a propagation did to the graph is what it reports. *)
Definition reported g g' (transitions : gmap uuid NodeState) (removed : list uuid) : Prop :=
  (forall id, node_state <$> nodes g' !! id
            = (fun n => default (node_state n) (transitions !! id)) <$> nodes g !! id) /\
  (forall i, i ∈ removed <-> is_Some (edges g !! i) /\ edges g' !! i = None).

Lemma reported_nothing g : reported g g ∅ [].
Proof.
  split.
  - intros id. destruct (nodes g !! id) eqn:E; cbn; rewrite ?E; [by rewrite lookup_empty|done].
  - intros i. split; [by intros ?%elem_of_nil|]. intros [[e He] Hn]. congruence.
Qed.

(** Setting one node's state. *)
Lemma reported_node f id st g g' tr :
  (forall n, node_state (f n) = st) -> reported g g' tr [] ->
  reported g (get_node_mut f id g') (if bool_decide (is_Some (nodes g !! id)) then <[id := st]> tr else tr) [].
Proof.
  intros Hf [Hn He]. split; [|exact He]. intros x. specialize (Hn x). unfold get_node_mut. cbn [nodes].
  destruct (decide (x = id)) as [->|Hne].
  - rewrite lookup_alter_eq. case_bool_decide as Hd.
    + destruct Hd as [n Hd]. rewrite Hd in *. destruct (nodes g' !! id); [|done]. cbn in *.
      by rewrite lookup_insert_eq, Hf.
    + rewrite <- eq_None_not_Some in Hd. rewrite Hd in *. by destruct (nodes g' !! id).
  - rewrite lookup_alter_ne by done. case_bool_decide; [by rewrite lookup_insert_ne|done].
Qed.

(** Adding an edge between nodes of the graph. *)
Lemma reported_add_edge ed g g' tr :
  reported g g' tr [] -> is_Some (nodes g !! edge_from ed) -> is_Some (nodes g !! edge_to ed) ->
  exists g'', add_edge ed g' = (g'', Ok (edge_id ed)) /\ reported g g'' tr [].
Proof.
  intros [Hn He] [nf Hf] [nt Ht]. unfold add_edge.
  pose proof (Hn (edge_from ed)) as H1. pose proof (Hn (edge_to ed)) as H2. rewrite Hf in H1. rewrite Ht in H2.
  destruct (nodes g' !! edge_from ed); [|done]. destruct (nodes g' !! edge_to ed); [|done].
  eexists. split; [done|]. split; [done|]. intros i. cbn [edges]. split; [by intros ?%elem_of_nil|].
  intros [Hs [Hi _]%lookup_insert_None]. by apply He.
Qed.

Lemma apply_event_spec f1 f2 now ev g :
  match apply_event f1 f2 now ev g with
  | (g', Err _) => g' = g
  | (g', Ok (transitions, removed)) => reported g g' transitions removed
  end.
Proof.
  destruct ev as [n|a b|a b|i|i]; cbn [apply_event].
  - unfold get_node. destruct (nodes g !! n) as [nd|] eqn:En; [|done]. case_bool_decide; [|apply reported_nothing].
    pose proof (reported_node (mark_canonical now) n Canonical g g ∅ (fun _ => eq_refl) (reported_nothing g)) as Hr.
    rewrite bool_decide_eq_true_2 in Hr by (by rewrite En). exact Hr.
  - unfold supersede_node. destruct (_ =? _)%N; [done|]. destruct (nodes g !! b) eqn:Eb; [|done].
    destruct (nodes g !! a) as [pred|] eqn:Ea; [|done].
    pose proof (reported_node (mark_superseded_by now b) a Superseded g g ∅ (fun _ => eq_refl) (reported_nothing g)) as Hr.
    rewrite bool_decide_eq_true_2 in Hr by (by rewrite Ea).
    edestruct (reported_add_edge (new_edge f1 now a b Supersedes (node_scope_id pred)) g _ _ Hr)
      as (g' & -> & Hg'); [by eexists..|]. exact Hg'.
  - unfold mark_contradiction. destruct (N.eqb_spec a b) as [|Hab]; [done|]. destruct (nodes g !! a) as [na|] eqn:Ea; [|done].
    destruct (nodes g !! b) as [nb|] eqn:Eb; [|done]. unfold try_eff.
    pose proof (reported_node (mark_contradicted_by now b) a Contradicted g g ∅ (fun _ => eq_refl) (reported_nothing g)) as Hr.
    rewrite bool_decide_eq_true_2 in Hr by (by rewrite Ea).
    apply (reported_node (mark_contradicted_by now a) b Contradicted) in Hr; [|done].
    rewrite bool_decide_eq_true_2 in Hr by (by rewrite Eb).
    edestruct (reported_add_edge (new_edge f1 now a b Contradicts (node_scope_id na)) g _ _ Hr)
      as (g1 & -> & Hg1); [by eexists..|].
    edestruct (reported_add_edge (new_edge f2 now b a Contradicts (node_scope_id nb)) g _ _ Hg1)
      as (g2 & -> & Hg2); [by eexists..|]. exact Hg2.
  - apply reported_nothing.
  - unfold remove_edge. destruct (edges g !! i) as [ed|] eqn:Ei; [|apply reported_nothing]. split.
    + intros id. unfold drop_edge. rewrite Ei. apply (proj1 (reported_nothing g)).
    + intros j. unfold drop_edge. rewrite Ei. cbn. rewrite list_elem_of_singleton. split.
      * intros ->. split; [by eexists|]. apply lookup_delete_eq.
      * intros [[x Hx] Hj]. apply lookup_delete_None in Hj as [|Hj]; [done|]. congruence.
Qed.

Lemma apply_event_steps `{HashOrder} f1 f2 now ev g :
  edges g !! f1 = None -> edges g !! f2 = None -> f1 <> f2 ->
  rtc step g (apply_event f1 f2 now ev g).1.
Proof.
  intros H1 H2 H12. destruct ev as [n|a b|a b|i|i]; cbn [apply_event].
  - destruct (get_node g n); [|apply rtc_refl]. case_bool_decide; [|apply rtc_refl].
    apply rtc_once. by apply step_get_node_mut.
  - pose proof (step_supersede f1 now a b g H1) as Hs. destruct (supersede_node f1 now a b g) as [g' []]; by apply rtc_once.
  - pose proof (step_contradict f1 f2 now a b g H1 H2 H12) as Hs.
    destruct (mark_contradiction f1 f2 now a b g) as [g' []]; by apply rtc_once.
  - apply rtc_refl.
  - pose proof (step_remove_edge i g) as Hs. destruct (remove_edge i g) as [g' []] eqn:E; [by apply rtc_once|].
    unfold remove_edge in E. destruct (edges g !! i); [done|]. injection E as <- _. apply rtc_refl.
Qed.

(** A propagation reports what it did.  On a graph built by the public
    mutators, with fresh edge ids, [propagate] returns; the graph it leaves is
    again one built by the mutators; an error leaves the graph as it was; and
    otherwise the report carries the event, the affected subgraph and the scope
    of the graph before the change, its transitions are exactly the states the
    nodes have now where they differ from before, and its removed edges exactly
    the edges that are gone. *)
Theorem propagate_exact `{HashOrder} D f1 f2 now ev g :
  rtc step new g -> edges g !! f1 = None -> edges g !! f2 = None -> f1 <> f2 ->
  exists s scope g' r, affected_subgraph D g ev = Some s /\ recompute_scope g ev s = Some scope /\
    propagate D f1 f2 now ev g = Some (g', r) /\ rtc step new g' /\
    match r with
    | Err _ => g' = g
    | Ok u => event u = Some ev /\ affected u = s /\ recompute u = scope /\
              reported g g' (state_transitions u) (removed_edges u)
    end.
Proof.
  intros Hrun H1 H2 H12. pose proof (graph_wf_run g Hrun) as Hwf.
  destruct (affected_subgraph_spec g D ev Hwf) as (s & Hs & _).
  destruct (recompute_scope_spec g ev s Hwf) as (scope & Hsc & _).
  pose proof (apply_event_steps f1 f2 now ev g H1 H2 H12) as Hst. pose proof (apply_event_spec f1 f2 now ev g) as Hsp.
  unfold propagate. rewrite Hs, Hsc.
  destruct (apply_event f1 f2 now ev g) as [g' [[tr rm]|err]]; eexists s, scope, g', _;
    (split; [done|]); (split; [done|]); (split; [reflexivity|]);
    (split; [etrans; [exact Hrun|exact Hst]|]); [by split_and!|done].
Qed.
End Affected.

(** ** A concrete change *)

Section Demo.
#[local] Existing Instance hash_order_id.
#[local] Instance unit_null : Inhabited unit := populate tt.

(** 2 is derived from 1 and 3 from 2; 4 is a part of 1, and 5 is derived from 4. *)
Definition lineage : ConceptGraph unit :=
  (add_edge (new_edge 13 0 5 4 DerivedFrom 7) (add_edge (new_edge 12 0 4 1 PartOf 7)
    (add_edge (new_edge 11 0 3 2 DerivedFrom 7) (add_edge (new_edge 10 0 2 1 DerivedFrom 7)
      (foldr (fun id g => (add_node (new_candidate id 0 "n" "d" 7) g).1) new [1; 2; 3; 4; 5]%N)).1).1).1).1.

Lemma lineage_run : rtc step new lineage.
Proof.
  unfold lineage. do 4 (eapply rtc_r; [|apply step_add_edge; vm_compute; reflexivity]).
  cbn [foldr]. do 5 (eapply rtc_r; [|apply step_add_node]). apply rtc_refl.
Defined.

(** Promoting 1 touches all but, within two hops, nothing is out of reach; only
    1, 2 and 3 are to be synthesised again. *)
Lemma affected_exact_witness :
  touched lineage 2 (NodePromoted 1) 5 /\
  exists s, affected_subgraph 2 lineage (NodePromoted 1) = Some s /\
    recompute_scope lineage (NodePromoted 1) s = Some [1; 2; 3]%N.
Proof.
  destruct (affected_exact lineage 2 (NodePromoted 1) lineage_run) as (s & scope & Hs & Haff & Hsc & _).
  split.
  - apply (proj1 Haff). assert (Hb : bool_decide (5%N ∈ a_nodes s) = true); [|exact (bool_decide_eq_true_1 _ Hb)].
    vm_compute in Hs. injection Hs as <-. vm_compute. reflexivity.
  - exists s. split; [exact Hs|]. rewrite Hsc. vm_compute in Hs. injection Hs as <-.
    vm_compute in Hsc. symmetry. exact Hsc.
Defined.

Lemma propagate_exact_witness :
  exists g' u, propagate 2 20 21 9 (NodeContradicted 2 4) lineage = Some (g', Ok u) /\ rtc step new g' /\
    state_transitions u !! 4%N = Some Contradicted.
Proof.
  destruct (propagate_exact 2 20 21 9 (NodeContradicted 2 4) lineage lineage_run) as (s & sc & g' & r & _ & _ & Hp & Hr & _);
    [vm_compute; reflexivity..|discriminate|].
  destruct r as [u|err]; [|exfalso; vm_compute in Hp; discriminate Hp].
  exists g', u. split; [exact Hp|]. split; [exact Hr|]. vm_compute in Hp. injection Hp as _ <-. vm_compute. reflexivity.
Defined.
End Demo.
