(* ===== verification/PersistentConceptGraph.v ===== *)
(** * The durable concept graph ([concept_graph/src/persist.rs])

    A [ConceptGraph] mirrored into two SQLite tables whose payloads are sealed
    under a key per scope.  The connection keeps what is committed apart from the
    transaction that may be open, so a COMMIT or a ROLLBACK that fails is
    visible.  The theorems say that memory and disk move together, and what
    loading a scope, a page of it or a neighbourhood gives back. *)

From stdpp Require Import sorting.
From S2P Require Import Prelude ConceptGraph.

Section Store.
Context {Json : Type} {JsonNull : Inhabited Json} {Key Nonce Bytes : Type} {AE : Aead Key Nonce Bytes}.
Context {SN : Serde Bytes (ConceptNode Json)} {SE : Serde Bytes (ConceptEdge Json)} {UT : UuidText}.
(** [crypto::derive_key]. *)
Context {derive_key : Key -> list N -> result Key string}.
Context {HO : HashOrder}.

(** ** The tables of [SCHEMA_SQL], less their primary keys *)

Record NodeRow : Type := mk_node_row {
  nr_scope_id : uuid;
  nr_state : string;
  nr_superseded_by : option uuid;
  nr_created_at : Z;
  nr_updated_at : Z;
  nr_nonce : Nonce;
  nr_payload : Bytes
}.
Record EdgeRow : Type := mk_edge_row {
  er_scope_id : uuid;
  er_from_node : uuid;
  er_to_node : uuid;
  er_relation : string;
  er_created_at : Z;
  er_nonce : Nonce;
  er_payload : Bytes
}.
Record Database : Type := mk_db {
  node_rows : gmap uuid NodeRow;
  edge_rows : gmap uuid EdgeRow;
  user_version : Z
}.
Definition empty_db : Database := mk_db ∅ ∅ 0.
Definition SCHEMA_VERSION : Z := 1.

(** ** The connection *)

(** What is committed, and what an open transaction would commit. *)
Record Connection : Type := mk_conn { committed : Database; open_tx : option Database }.
Definition view (c : Connection) : Database := default (committed c) (open_tx c).
Definition write (c : Connection) (db : Database) : Connection :=
  match open_tx c with
  | Some _ => mk_conn (committed c) (Some db)
  | None => mk_conn db None
  end.

(** A statement that fails; on some errors SQLite rolls the transaction back by
    itself. *)
Record SqlError : Type := mk_sql_error { sql_message : string; rolls_back : bool }.
Definition failed (f : SqlError) (c : Connection) : Connection :=
  if rolls_back f then mk_conn (committed c) None else c.

(** What one call gets from outside: the failure of its n-th SQL statement
    (BEGIN, COMMIT and ROLLBACK included) and the nonce of that statement. *)
Record Io : Type := mk_io { io_error : nat -> option SqlError; io_nonce : nat -> Nonce }.

Definition begin_immediate (err : option SqlError) (c : Connection) : Connection * result unit GraphError :=
  match err with
  | Some f => (failed f c, Err (Sqlite (sql_message f)))
  | None =>
      match open_tx c with
      | Some _ => (c, Err (Sqlite "cannot start a transaction within a transaction"))
      | None => (mk_conn (committed c) (Some (committed c)), Ok tt)
      end
  end.
Definition commit (err : option SqlError) (c : Connection) : Connection * result unit GraphError :=
  match err with
  | Some f => (failed f c, Err (Sqlite (sql_message f)))
  | None =>
      match open_tx c with
      | Some db => (mk_conn db None, Ok tt)
      | None => (c, Err (Sqlite "cannot commit - no transaction is active"))
      end
  end.
(** [let _ = conn.execute_batch("ROLLBACK")]. *)
Definition rollback (err : option SqlError) (c : Connection) : Connection :=
  match err with Some f => failed f c | None => mk_conn (committed c) None end.

(** [struct PersistentConceptGraph]. *)
Record PersistentConceptGraph : Type := mk_persistent {
  graph : ConceptGraph Json;
  conn : Connection;
  scope_keys : gmap uuid Key;
  master_key : Key
}.
Definition with_graph (p : PersistentConceptGraph) (g : ConceptGraph Json) : PersistentConceptGraph :=
  mk_persistent g (conn p) (scope_keys p) (master_key p).
Definition with_conn (p : PersistentConceptGraph) (c : Connection) : PersistentConceptGraph :=
  mk_persistent (graph p) c (scope_keys p) (master_key p).

Definition timestamp (t : instant) : Z := t / 1000000000.

(** [node_aad], [edge_aad] and the label of [scope_key]. *)
Definition node_aad (scope id : uuid) : list N :=
  string_bytes "concept_node:v1:" ++ be_bytes 16 scope ++ be_bytes 16 id.
Definition edge_aad (scope id : uuid) : list N :=
  string_bytes "concept_edge:v1:" ++ be_bytes 16 scope ++ be_bytes 16 id.
Definition scope_label (scope : uuid) : list N :=
  string_bytes (String.append "scope:" (String.append (uuid_to_string scope) ":concept:v1")).

Definition scope_key (scope : uuid) : eff PersistentConceptGraph GraphError Key := fun p =>
  match scope_keys p !! scope with
  | Some k => (p, Ok k)
  | None =>
      match derive_key (master_key p) (scope_label scope) with
      | Err msg => (p, Err (Crypto msg))
      | Ok key => (mk_persistent (graph p) (conn p) (<[scope := key]> (scope_keys p)) (master_key p), Ok key)
      end
  end.

(** ** Writing *)

(** [persist_node]: on a conflict [created_at] keeps its stored value. *)
Definition persist_node (io : Io) (n : nat) (node : ConceptNode Json) :
    eff PersistentConceptGraph GraphError unit := fun p =>
  match to_vec node with
  | None => (p, Err (Persistence "node payload could not be serialised"))
  | Some payload =>
      let nonce := io_nonce io n in
      (do? key := scope_key (node_scope_id node) in
       match encrypt_aead key nonce payload (node_aad (node_scope_id node) (node_id node)) with
       | None => throw (Crypto "aead")
       | Some ct => fun p =>
           match io_error io n with
           | Some f => (with_conn p (failed f (conn p)), Err (Sqlite (sql_message f)))
           | None =>
               let db := view (conn p) in
               let row := {| nr_scope_id := node_scope_id node; nr_state := node_state_str (node_state node);
                             nr_superseded_by := superseded_by node;
                             nr_created_at := match node_rows db !! node_id node with
                                              | Some old => nr_created_at old
                                              | None => timestamp (node_created_at node)
                                              end;
                             nr_updated_at := timestamp (node_updated_at node);
                             nr_nonce := nonce; nr_payload := ct |} in
               (with_conn p (write (conn p)
                  (mk_db (<[node_id node := row]> (node_rows db)) (edge_rows db) (user_version db))), Ok tt)
           end
       end) p
  end.

(** [persist_edge]. *)
Definition persist_edge (io : Io) (n : nat) (edge : ConceptEdge Json) :
    eff PersistentConceptGraph GraphError unit := fun p =>
  match to_vec edge with
  | None => (p, Err (Persistence "edge payload could not be serialised"))
  | Some payload =>
      let nonce := io_nonce io n in
      (do? key := scope_key (edge_scope_id edge) in
       match encrypt_aead key nonce payload (edge_aad (edge_scope_id edge) (edge_id edge)) with
       | None => throw (Crypto "aead")
       | Some ct => fun p =>
           match io_error io n with
           | Some f => (with_conn p (failed f (conn p)), Err (Sqlite (sql_message f)))
           | None =>
               let db := view (conn p) in
               let row := {| er_scope_id := edge_scope_id edge; er_from_node := edge_from edge;
                             er_to_node := edge_to edge; er_relation := relation_str (relation edge);
                             er_created_at := match edge_rows db !! edge_id edge with
                                              | Some old => er_created_at old
                                              | None => timestamp (edge_created_at edge)
                                              end;
                             er_nonce := nonce; er_payload := ct |} in
               (with_conn p (write (conn p)
                  (mk_db (node_rows db) (<[edge_id edge := row]> (edge_rows db)) (user_version db))), Ok tt)
           end
       end) p
  end.

(** [persist_pair_in_tx]: the statements are BEGIN, the node, the edge, COMMIT
    and ROLLBACK, in this order. *)
Definition persist_pair_in_tx (io : Io) (node : ConceptNode Json) (edge : ConceptEdge Json) :
    eff PersistentConceptGraph GraphError unit := fun p =>
  let '(c, r) := begin_immediate (io_error io 0) (conn p) in
  let p := with_conn p c in
  match r with
  | Err e => (p, Err e)
  | Ok _ =>
      match (do? _ := persist_node io 1 node in persist_edge io 2 edge) p with
      | (p, Ok _) =>
          match commit (io_error io 3) (conn p) with
          | (c, Err e) => (with_conn p (rollback (io_error io 4) c), Err e)
          | (c, Ok _) => (with_conn p c, Ok tt)
          end
      | (p, Err e) => (with_conn p (rollback (io_error io 4) (conn p)), Err e)
      end
  end.

(** ** The mirrored mutators *)

(** [add_node]. *)
Definition add_node (io : Io) (node : ConceptNode Json) : eff PersistentConceptGraph GraphError uuid := fun p =>
  match ConceptGraph.add_node node (graph p) with
  | (g, Err e) => (with_graph p g, Err e)
  | (g, Ok id) =>
      match persist_node io 0 node (with_graph p g) with
      | (p, Err e) => (with_graph p (remove_node id (graph p)).1, Err e)
      | (p, Ok _) => (p, Ok id)
      end
  end.

(** [add_edge]. *)
Definition add_edge (io : Io) (edge : ConceptEdge Json) : eff PersistentConceptGraph GraphError uuid := fun p =>
  match ConceptGraph.add_edge edge (graph p) with
  | (g, Err e) => (with_graph p g, Err e)
  | (g, Ok id) =>
      match persist_edge io 0 edge (with_graph p g) with
      | (p, Err e) => (with_graph p (remove_edge id (graph p)).1, Err e)
      | (p, Ok _) => (p, Ok id)
      end
  end.

(** [supersede_node]; [fresh] and [now] are what the graph's call draws. *)
Definition supersede_node (io : Io) (fresh : uuid) (now : instant) (predecessor successor : uuid) :
    eff PersistentConceptGraph GraphError uuid := fun p =>
  match get_node (graph p) predecessor with
  | None => (p, Err (NodeNotFound predecessor))
  | Some pred_before =>
      match ConceptGraph.supersede_node fresh now predecessor successor (graph p) with
      | (g, Err e) => (with_graph p g, Err e)
      | (g, Ok id) =>
          let p := with_graph p g in
          match get_node (graph p) predecessor with
          | None => (p, Err (NodeNotFound predecessor))
          | Some pred_after =>
              match List.find (fun e => edge_id e =? id)%N (get_edges (graph p) predecessor) with
              | None => (p, Err (Persistence "expected supersedes edge to be present"))
              | Some edge =>
                  match persist_pair_in_tx io pred_after edge p with
                  | (p, Ok _) => (p, Ok id)
                  | (p, Err e) =>
                      let g := (remove_edge id (graph p)).1 in
                      (with_graph p (get_node_mut (fun _ => pred_before) predecessor g), Err e)
                  end
              end
          end
      end
  end.

(** [save_node]. *)
Definition save_node (io : Io) (id : uuid) : eff PersistentConceptGraph GraphError unit := fun p =>
  match get_node (graph p) id with
  | None => (p, Err (NodeNotFound id))
  | Some node => persist_node io 0 node p
  end.

(** ** Reading *)

(** Decrypting and decoding one row. *)
Definition open_node (key : Key) (scope id : uuid) (row : NodeRow) : result (ConceptNode Json) GraphError :=
  match decrypt_aead key (nr_nonce row) (nr_payload row) (node_aad scope id) with
  | None => Err (Crypto "aead")
  | Some pt => ok_or (from_slice pt) (Persistence "node payload is not valid JSON")
  end.
Definition open_edge (key : Key) (scope id : uuid) (row : EdgeRow) : result (ConceptEdge Json) GraphError :=
  match decrypt_aead key (er_nonce row) (er_payload row) (edge_aad scope id) with
  | None => Err (Crypto "aead")
  | Some pt => ok_or (from_slice pt) (Persistence "edge payload is not valid JSON")
  end.

(** [ORDER BY created_at ASC], where ties come in any order, and
    [ORDER BY created_at ASC, id ASC]. *)
Definition created_le {R} (created : R -> Z) (a b : uuid * R) : Prop := (created a.2 <= created b.2)%Z.
Definition created_id_le {R} (created : R -> Z) (a b : uuid * R) : Prop :=
  (created a.2 < created b.2)%Z \/ (created a.2 = created b.2 /\ (a.1 <= b.1)%N).
#[export] Instance created_le_dec {R} (created : R -> Z) : RelDecision (created_le created).
Proof. intros a b. unfold created_le. apply _. Defined.
#[export] Instance created_id_le_dec {R} (created : R -> Z) : RelDecision (created_id_le created).
Proof. intros a b. unfold created_id_le. apply _. Defined.

(** [i64_from_usize]. *)
Definition i64_from_usize (n : N) : nat := N.to_nat (N.min n i64_max).

(** The result sets of the queries. *)
Definition scope_nodes (db : Database) (scope : uuid) : list (uuid * NodeRow) :=
  hash_order (base.filter (fun x => nr_scope_id x.2 = scope) (map_to_list (node_rows db))).
Definition scope_edges (db : Database) (scope : uuid) : list (uuid * EdgeRow) :=
  hash_order (base.filter (fun x => er_scope_id x.2 = scope) (map_to_list (edge_rows db))).
Definition page {R} (created : R -> Z) (limit offset : N) (rows : list (uuid * R)) : list (uuid * R) :=
  take (i64_from_usize limit) (drop (i64_from_usize offset) (merge_sort (created_id_le created) rows)).

Definition query {A} (io : Io) (n : nat) (rows : Database -> A) : eff PersistentConceptGraph GraphError A := fun p =>
  match io_error io n with
  | Some f => (with_conn p (failed f (conn p)), Err (Sqlite (sql_message f)))
  | None => (p, Ok (rows (view (conn p))))
  end.

(** The loops over the rows read. *)
Fixpoint load_nodes (key : Key) (scope : uuid) (rows : list (uuid * NodeRow)) (node_count : nat) :
    eff PersistentConceptGraph GraphError nat := fun p =>
  match rows with
  | [] => (p, Ok node_count)
  | (id, row) :: rows =>
      match open_node key scope id row with
      | Err e => (p, Err e)
      | Ok node =>
          match ConceptGraph.add_node node (graph p) with
          | (g, Err e) => (with_graph p g, Err e)
          | (g, Ok _) => load_nodes key scope rows (S node_count) (with_graph p g)
          end
      end
  end.
Fixpoint load_edges (key : Key) (scope : uuid) (rows : list (uuid * EdgeRow)) (edge_count : nat) :
    eff PersistentConceptGraph GraphError nat := fun p =>
  match rows with
  | [] => (p, Ok edge_count)
  | (id, row) :: rows =>
      match open_edge key scope id row with
      | Err e => (p, Err e)
      | Ok edge =>
          match ConceptGraph.add_edge edge (graph p) with
          | (g, Err e) => (with_graph p g, Err e)
          | (g, Ok _) => load_edges key scope rows (S edge_count) (with_graph p g)
          end
      end
  end.
Fixpoint load_window_edges (key : Key) (scope : uuid) (rows : list (uuid * EdgeRow)) (edge_count : nat) :
    eff PersistentConceptGraph GraphError nat := fun p =>
  match rows with
  | [] => (p, Ok edge_count)
  | (id, row) :: rows =>
      match open_edge key scope id row with
      | Err e => (p, Err e)
      | Ok edge =>
          match get_node (graph p) (edge_from edge), get_node (graph p) (edge_to edge) with
          | Some _, Some _ =>
              match ConceptGraph.add_edge edge (graph p) with
              | (g, Err e) => (with_graph p g, Err e)
              | (g, Ok _) => load_window_edges key scope rows (S edge_count) (with_graph p g)
              end
          | _, _ => load_window_edges key scope rows edge_count p
          end
      end
  end.

(** [self.graph = ConceptGraph::new()]. *)
Definition reset_graph : eff PersistentConceptGraph GraphError unit := fun p => (with_graph p ConceptGraph.new, Ok tt).

(** [load_scope]. *)
Definition load_scope (io : Io) (scope : uuid) : eff PersistentConceptGraph GraphError (nat * nat) :=
  do? _ := reset_graph in
  do? key := scope_key scope in
  do? node_rows := query io 0 (fun db => merge_sort (created_le nr_created_at) (scope_nodes db scope)) in
  do? node_count := load_nodes key scope node_rows 0 in
  do? edge_rows := query io 1 (fun db => merge_sort (created_le er_created_at) (scope_edges db scope)) in
  do? edge_count := load_edges key scope edge_rows 0 in
  ret (node_count, edge_count).

(** [load_scope_paginated]. *)
Definition load_scope_paginated (io : Io) (scope : uuid) (limit offset : N) :
    eff PersistentConceptGraph GraphError (nat * nat) :=
  do? _ := reset_graph in
  do? key := scope_key scope in
  do? node_rows := query io 0 (fun db => page nr_created_at limit offset (scope_nodes db scope)) in
  do? node_count := load_nodes key scope node_rows 0 in
  do? edge_rows := query io 1 (fun db => page er_created_at limit offset (scope_edges db scope)) in
  do? edge_count := load_window_edges key scope edge_rows 0 in
  ret (node_count, edge_count).

(** [query_neighbors_from_disk] and its loop. *)
Fixpoint decrypt_once (key : Key) (scope : uuid) (rows : list (uuid * EdgeRow)) (seen : gset uuid)
    (out : list (ConceptEdge Json)) : result (list (ConceptEdge Json)) GraphError :=
  match rows with
  | [] => Ok out
  | (id, row) :: rows =>
      if bool_decide (id ∈ seen) then decrypt_once key scope rows seen out
      else
        let? edge := open_edge key scope id row in
        decrypt_once key scope rows ({[id]} ∪ seen) (out ++ [edge])
  end.
Definition incident_rows (node : uuid) (rows : list (uuid * EdgeRow)) : list (uuid * EdgeRow) :=
  merge_sort (created_id_le er_created_at)
    (base.filter (fun x => er_from_node x.2 = node \/ er_to_node x.2 = node) rows).
Definition query_neighbors_from_disk (io : Io) (scope node : uuid) :
    eff PersistentConceptGraph GraphError (list (ConceptEdge Json)) :=
  do? key := scope_key scope in
  do? rows_buf := query io 0 (fun db => incident_rows node (scope_edges db scope)) in
  fun p => (p, decrypt_once key scope rows_buf ∅ []).

(** [persisted_node_count], [persisted_edge_count]. *)
Definition persisted_node_count (io : Io) (scope : uuid) : eff PersistentConceptGraph GraphError nat :=
  query io 0 (fun db => length (scope_nodes db scope)).
Definition persisted_edge_count (io : Io) (scope : uuid) : eff PersistentConceptGraph GraphError nat :=
  query io 0 (fun db => length (scope_edges db scope)).

(** [open] on an unlocked database. *)
Definition open (db : Database) (master : Key) : result PersistentConceptGraph GraphError :=
  if negb (user_version db =? 0)%Z && negb (user_version db =? SCHEMA_VERSION)%Z then
    Err (Persistence "schema version mismatch — refusing to open")
  else
    Ok (mk_persistent ConceptGraph.new
          (mk_conn (mk_db (node_rows db) (edge_rows db) SCHEMA_VERSION) None) ∅ master).

(** [snapshot_to]: the file VACUUM INTO writes. *)
Definition snapshot_to (io : Io) (dest_exists dest_is_utf8 : bool) (p : PersistentConceptGraph) :
    result Database GraphError :=
  if dest_exists then Err (Persistence "snapshot destination path already exists")
  else if negb dest_is_utf8 then Err (Persistence "snapshot destination path is not valid UTF-8")
  else
    match io_error io 0 with
    | Some f => Err (Sqlite (sql_message f))
    | None =>
        match open_tx (conn p) with
        | Some _ => Err (Sqlite "cannot VACUUM from within a transaction")
        | None => Ok (committed (conn p))
        end
    end.

(** [NodeState::from_tag]. *)
Definition node_state_from_tag (s : string) : option NodeState :=
  if String.eqb s "candidate" then Some Candidate
  else if String.eqb s "canonical" then Some Canonical
  else if String.eqb s "superseded" then Some Superseded
  else if String.eqb s "contradicted" then Some Contradicted
  else if String.eqb s "deleted" then Some Deleted
  else None.

(** ** What the disk says *)

(** A row read back under the key of the scope it names. *)
Definition read_node (mk : Key) (id : uuid) (row : NodeRow) : option (ConceptNode Json) :=
  match derive_key mk (scope_label (nr_scope_id row)) with
  | Ok k => match open_node k (nr_scope_id row) id row with Ok n => Some n | Err _ => None end
  | Err _ => None
  end.
Definition read_edge (mk : Key) (id : uuid) (row : EdgeRow) : option (ConceptEdge Json) :=
  match derive_key mk (scope_label (er_scope_id row)) with
  | Ok k => match open_edge k (er_scope_id row) id row with Ok e => Some e | Err _ => None end
  | Err _ => None
  end.
Definition disk_nodes (mk : Key) (db : Database) : gmap uuid (ConceptNode Json) :=
  map_imap (read_node mk) (node_rows db).
Definition disk_edges (mk : Key) (db : Database) : gmap uuid (ConceptEdge Json) :=
  map_imap (read_edge mk) (edge_rows db).

(** A row that reads back to a node or an edge and whose columns repeat it. *)
Definition node_row_of (mk : Key) (n : ConceptNode Json) (row : NodeRow) : Prop :=
  read_node mk (node_id n) row = Some n /\ nr_scope_id row = node_scope_id n.
Definition edge_row_of (mk : Key) (e : ConceptEdge Json) (row : EdgeRow) : Prop :=
  read_edge mk (edge_id e) row = Some e /\ er_scope_id row = edge_scope_id e /\
  er_from_node row = edge_from e /\ er_to_node row = edge_to e.
Record tables_ok (mk : Key) (db : Database) : Prop := {
  to_nodes : forall id row, node_rows db !! id = Some row -> exists n, node_id n = id /\ node_row_of mk n row;
  to_edges : forall id row, edge_rows db !! id = Some row -> exists e, edge_id e = id /\ edge_row_of mk e row
}.

(** The cache of scope keys holds what the derivation returns. *)
Definition keys_ok (p : PersistentConceptGraph) : Prop :=
  forall scope k, scope_keys p !! scope = Some k -> derive_key (master_key p) (scope_label scope) = Ok k.

(** No transaction is open, every row reads back, and the graph is consistent. *)
Record stored (p : PersistentConceptGraph) : Prop := {
  st_keys : keys_ok p;
  st_tables : tables_ok (master_key p) (committed (conn p));
  st_tx : open_tx (conn p) = None;
  st_graph : graph_wf (graph p)
}.
Definition stored_nodes (p : PersistentConceptGraph) := disk_nodes (master_key p) (committed (conn p)).
Definition stored_edges (p : PersistentConceptGraph) := disk_edges (master_key p) (committed (conn p)).

(** The graph and the database stay in lockstep: all of the graph is on disk. *)
Definition lockstep (p : PersistentConceptGraph) : Prop :=
  nodes (graph p) ⊆ stored_nodes p /\ edges (graph p) ⊆ stored_edges p.

(** ** Calls *)

Inductive call : Type :=
| AddNode (n : ConceptNode Json)
| AddEdge (e : ConceptEdge Json)
| Supersede (fresh : uuid) (now : instant) (predecessor successor : uuid)
| SaveNode (id : uuid).
Definition exec (io : Io) (c : call) : eff PersistentConceptGraph GraphError unit :=
  match c with
  | AddNode n => do? _ := add_node io n in ret tt
  | AddEdge e => do? _ := add_edge io e in ret tt
  | Supersede fresh now a b => do? _ := supersede_node io fresh now a b in ret tt
  | SaveNode id => save_node io id
  end.

(** The same call on the graph alone. *)
Definition in_memory (c : call) : eff (ConceptGraph Json) GraphError unit :=
  match c with
  | AddNode n => do? _ := ConceptGraph.add_node n in ret tt
  | AddEdge e => do? _ := ConceptGraph.add_edge e in ret tt
  | Supersede fresh now a b => do? _ := ConceptGraph.supersede_node fresh now a b in ret tt
  | SaveNode id => fun g => (g, match nodes g !! id with Some _ => Ok tt | None => Err (NodeNotFound id) end)
  end.
Definition touched_nodes (c : call) : gset uuid :=
  match c with AddNode n => {[node_id n]} | AddEdge _ => ∅ | Supersede _ _ a _ => {[a]} | SaveNode id => {[id]} end.
Definition touched_edges (c : call) : gset uuid :=
  match c with AddEdge e => {[edge_id e]} | Supersede fresh _ _ _ => {[fresh]} | _ => ∅ end.

(** The edge a call adds carries an id of its own, as [Uuid::new_v4] promises. *)
Definition fresh_edge (c : call) (g : ConceptGraph Json) : Prop :=
  match c with
  | AddEdge e => edges g !! edge_id e = None
  | Supersede fresh _ _ _ => edges g !! fresh = None
  | _ => True
  end.

(** A ROLLBACK that is needed ends the transaction. *)
Definition rollback_ok (io : Io) : Prop :=
  match io_error io 4 with Some f => rolls_back f = true | None => True end.

(** Errors of the disk, the codec and the cipher. *)
Definition fault (e : GraphError) : Prop :=
  match e with Sqlite _ | Crypto _ | Persistence _ => True | _ => False end.

(** ** Writing rows *)

Lemma failed_idle f c : open_tx c = None -> failed f c = c.
Proof. unfold failed. destruct c; cbn. intros ->. by destruct (rolls_back f). Qed.

Lemma with_conn_self p : with_conn p (conn p) = p.
Proof. by destruct p. Qed.

Lemma scope_key_spec scope p p' r :
  keys_ok p -> scope_key scope p = (p', r) ->
  graph p' = graph p /\ conn p' = conn p /\ master_key p' = master_key p /\ keys_ok p' /\
  r = match derive_key (master_key p) (scope_label scope) with Ok k => Ok k | Err m => Err (Crypto m) end.
Proof.
  intros Hk. unfold scope_key. destruct (scope_keys p !! scope) as [k|] eqn:Ek.
  { intros [= <- <-]. by rewrite (Hk _ _ Ek). }
  destruct (derive_key _ _) as [k|m] eqn:Ed; intros [= <- <-]; [|done]. split_and!; [done..| |done].
  intros s k'. cbn. intros [[<- <-]|[_ H]]%lookup_insert_Some; [done|by apply Hk].
Qed.

Section Codec.
Context (Hnode : forall n : ConceptNode Json, serde_roundtrips (Bytes := Bytes) n).
Context (Hedge : forall e : ConceptEdge Json, serde_roundtrips (Bytes := Bytes) e).

(** What a write leaves: the graph and the keys as they were, and the
    connection either with the new rows [rows] or with the statement's failure. *)
Definition wrote (rows : Database -> Database -> Prop) (p p' : PersistentConceptGraph) (r : result unit GraphError) : Prop :=
  graph p' = graph p /\ master_key p' = master_key p /\ keys_ok p' /\
  match r with
  | Ok _ => exists db, conn p' = write (conn p) db /\ rows (view (conn p)) db
  | Err e => fault e /\ (conn p' = conn p \/ exists f, conn p' = failed f (conn p))
  end.
Definition node_written (mk : Key) (n : ConceptNode Json) (db db' : Database) : Prop :=
  exists row, db' = mk_db (<[node_id n := row]> (node_rows db)) (edge_rows db) (user_version db) /\ node_row_of mk n row.
Definition edge_written (mk : Key) (e : ConceptEdge Json) (db db' : Database) : Prop :=
  exists row, db' = mk_db (node_rows db) (<[edge_id e := row]> (edge_rows db)) (user_version db) /\ edge_row_of mk e row.

Lemma persist_node_spec io n node p p' r :
  keys_ok p -> persist_node io n node p = (p', r) -> wrote (node_written (master_key p) node) p p' r.
Proof using Hnode.
  intros Hk. unfold persist_node, wrote. destruct (to_vec node) as [pt|] eqn:Ev.
  2:{ intros [= <- <-]. split_and!; cbn; auto. }
  unfold try_eff. destruct (scope_key _ p) as [p1 [k|e]] eqn:Es;
    destruct (scope_key_spec _ _ _ _ Hk Es) as (Hg & Hc & Hm & Hk1 & Hr);
    destruct (derive_key _ _) as [k'|m] eqn:Ed; simplify_eq.
  2:{ intros [= <- <-]. split_and!; cbn; auto. }
  destruct (encrypt_aead _ _ _ _) as [ct|] eqn:Ee; [|intros [= <- <-]; split_and!; cbn; auto].
  destruct (io_error io n) as [f|]; intros [= <- <-]; cbn [graph conn master_key with_conn fault]; rewrite ?Hc; (do 3 (split; [done|])); eauto.
  eexists. split; [reflexivity|]. eexists. split; [reflexivity|]. unfold node_row_of, read_node, open_node.
  cbn [nr_scope_id nr_nonce nr_payload].
  rewrite Ed. cbv beta iota. by rewrite (decrypt_encrypt _ _ _ _ _ Ee), (Hnode node pt Ev).
Qed.

Lemma persist_edge_spec io n edge p p' r :
  keys_ok p -> persist_edge io n edge p = (p', r) -> wrote (edge_written (master_key p) edge) p p' r.
Proof using Hedge.
  intros Hk. unfold persist_edge, wrote. destruct (to_vec edge) as [pt|] eqn:Ev.
  2:{ intros [= <- <-]. split_and!; cbn; auto. }
  unfold try_eff. destruct (scope_key _ p) as [p1 [k|e]] eqn:Es;
    destruct (scope_key_spec _ _ _ _ Hk Es) as (Hg & Hc & Hm & Hk1 & Hr);
    destruct (derive_key _ _) as [k'|m] eqn:Ed; simplify_eq.
  2:{ intros [= <- <-]. split_and!; cbn; auto. }
  destruct (encrypt_aead _ _ _ _) as [ct|] eqn:Ee; [|intros [= <- <-]; split_and!; cbn; auto].
  destruct (io_error io n) as [f|]; intros [= <- <-]; cbn [graph conn master_key with_conn fault]; rewrite ?Hc; (do 3 (split; [done|])); eauto.
  eexists. split; [reflexivity|]. eexists. split; [reflexivity|]. unfold edge_row_of, read_edge, open_edge.
  cbn [er_scope_id er_from_node er_to_node er_nonce er_payload].
  rewrite Ed. cbv beta iota. by rewrite (decrypt_encrypt _ _ _ _ _ Ee), (Hedge edge pt Ev).
Qed.

Lemma failed_in_tx f db tx : failed f (mk_conn db tx) = mk_conn db tx \/ failed f (mk_conn db tx) = mk_conn db None.
Proof. unfold failed. destruct (rolls_back f); auto. Qed.

Lemma rollback_ends io db tx : rollback_ok io -> rollback (io_error io 4) (mk_conn db tx) = mk_conn db None.
Proof. unfold rollback_ok, rollback, failed. destruct (io_error io 4) as [f|]; [|done]. by intros ->. Qed.

Lemma persist_pair_spec io node edge p p' r :
  keys_ok p -> open_tx (conn p) = None -> rollback_ok io -> persist_pair_in_tx io node edge p = (p', r) ->
  graph p' = graph p /\ master_key p' = master_key p /\ keys_ok p' /\
  match r with
  | Ok _ => exists db1 db2, conn p' = mk_conn db2 None /\
      node_written (master_key p) node (committed (conn p)) db1 /\ edge_written (master_key p) edge db1 db2
  | Err e => fault e /\ conn p' = conn p
  end.
Proof using Hnode Hedge.
  intros Hk Htx Hroll. unfold persist_pair_in_tx, begin_immediate.
  destruct (io_error io 0) as [f|]; cbv beta iota zeta.
  { rewrite (failed_idle f _ Htx), with_conn_self. intros [= <- <-]. by split_and!. }
  destruct (conn p) as [db tx] eqn:Ec. cbn in Htx. subst tx. cbn [open_tx committed].
  set (p0 := with_conn p _). assert (Hk0 : keys_ok p0) by exact Hk. unfold try_eff.
  destruct (persist_node io 1 node p0) as [p1 r1] eqn:E1.
  destruct (persist_node_spec _ _ _ _ _ _ Hk0 E1) as (Hg1 & Hm1 & Hk1 & H1).
  assert (Hend : forall p2 tx, conn p2 = mk_conn db tx -> graph p2 = graph p1 -> master_key p2 = master_key p1 ->
            keys_ok p2 -> forall e, fault e ->
            let q := with_conn p2 (rollback (io_error io 4) (conn p2)) in
            graph q = graph p /\ master_key q = master_key p /\ keys_ok q /\ fault e /\ conn q = mk_conn db None).
  { intros p2 tx -> Hg Hm Hk2 e He. rewrite (rollback_ends _ _ _ Hroll).
    split_and!; [by cbn; rewrite Hg, Hg1|by cbn; rewrite Hm, Hm1|exact Hk2|done|done]. }
  destruct r1 as [u|e1].
  2:{ intros [= <- <-]. destruct H1 as [He [Hc|(f & Hc)]].
      - exact (Hend p1 _ Hc eq_refl eq_refl Hk1 _ He).
      - cbn in Hc. destruct (failed_in_tx f db (Some db)) as [Hf|Hf]; rewrite Hf in Hc;
          exact (Hend p1 _ Hc eq_refl eq_refl Hk1 _ He). }
  destruct H1 as (db1 & Hc1 & Hw1). cbn in Hc1, Hw1.
  destruct (persist_edge io 2 edge p1) as [p2 r2] eqn:E2.
  destruct (persist_edge_spec _ _ _ _ _ _ Hk1 E2) as (Hg2 & Hm2 & Hk2 & H2). rewrite Hc1 in H2.
  destruct r2 as [[]|e2].
  2:{ intros [= <- <-]. destruct H2 as [He [Hc|(f & Hc)]].
      - exact (Hend p2 _ Hc Hg2 Hm2 Hk2 _ He).
      - destruct (failed_in_tx f db (Some db1)) as [Hf|Hf]; rewrite Hf in Hc;
          exact (Hend p2 _ Hc Hg2 Hm2 Hk2 _ He). }
  destruct H2 as (db2 & Hc2 & Hw2). cbn in Hc2, Hw2. rewrite Hm1 in Hw2. unfold commit. rewrite Hc2.
  destruct (io_error io 3) as [f|]; cbv beta iota zeta; intros [= <- <-].
  - destruct (failed_in_tx f db (Some db2)) as [-> | ->]; rewrite (rollback_ends _ _ _ Hroll);
      (split_and!; [by cbn; rewrite Hg2, Hg1|by cbn; rewrite Hm2, Hm1|exact Hk2|done|done]).
  - cbn [open_tx]. split_and!; [by cbn; rewrite Hg2, Hg1|by cbn; rewrite Hm2, Hm1|exact Hk2|]. eauto.
Qed.

(** ** Undoing a change of the graph *)

Lemma undo_add_node n (g : ConceptGraph Json) :
  graph_wf g -> nodes g !! node_id n = None ->
  (remove_node (node_id n) (ConceptGraph.add_node n g).1).1 = g.
Proof.
  intros Hwf Hn. unfold ConceptGraph.add_node. rewrite Hn. unfold remove_node. cbn [fst nodes outgoing incoming edges].
  rewrite lookup_insert_eq.
  assert (Hrow : forall side m, index_ok (nodes g) (edges g) side m -> m !! node_id n = None).
  { intros side m Hi. apply eq_None_not_Some. rewrite (io_dom _ _ _ _ Hi), Hn. by intros []. }
  pose proof (Hrow _ _ (gw_out _ Hwf)) as Ho. pose proof (Hrow _ _ (gw_in _ Hwf)) as Hi.
  unfold or_default. rewrite Ho, Hi, !lookup_insert_eq, !delete_insert_id by done.
  assert (Hnil : hash_order (elements (list_to_set (default [] (Some ([] : list uuid)))
            ∪ list_to_set (default [] (Some ([] : list uuid))) : gset uuid)) = []).
  { apply Permutation_nil_r. rewrite hash_order_perm. cbn. by rewrite (left_id_L ∅ (∪)), elements_empty. }
  cbn [fst]. rewrite Hnil. by destruct g.
Qed.

Lemma undo_push (m : gmap uuid (list uuid)) k id :
  id ∉ default [] (m !! k) -> is_Some (m !! k) -> retain_ne (push_id m k id) k id = m.
Proof.
  intros Hid [l Hl]. unfold retain_ne, push_id. rewrite lookup_insert_eq, insert_insert_eq, filter_app, filter_cons, filter_nil.
  rewrite decide_False, (right_id_L [] (++)) by (intros H; by apply H). rewrite Hl in *. cbn in Hid |- *.
  apply insert_id. rewrite Hl. f_equal. clear Hl. induction l as [|x l IH]; [done|]. apply not_elem_of_cons in Hid as [Hx Hid].
  cbn. rewrite decide_True by done. f_equal. by apply IH.
Qed.

Lemma undo_add_edge e (g : ConceptGraph Json) g' id :
  graph_wf g -> edges g !! edge_id e = None -> ConceptGraph.add_edge e g = (g', Ok id) ->
  id = edge_id e /\ (remove_edge id g').1 = g /\ nodes g' = nodes g /\ edges g' = <[edge_id e := e]> (edges g).
Proof.
  intros Hwf He. unfold ConceptGraph.add_edge.
  destruct (nodes g !! edge_from e) eqn:Ef; [|done]. destruct (nodes g !! edge_to e) eqn:Et; [|done].
  intros [= <- <-]. split_and!; [done| |done|done]. unfold remove_edge, drop_edge. cbn [edges nodes outgoing incoming].
  rewrite lookup_insert_eq. cbn [fst].
  assert (Hside : forall side m x, index_ok (nodes g) (edges g) side m -> is_Some (nodes g !! x) ->
            retain_ne (push_id m x (edge_id e)) x (edge_id e) = m).
  { intros side m x [Hd _ Hi] Hx. apply undo_push; [|by apply Hd]. rewrite Hi. intros (y & Hy & _). congruence. }
  rewrite (Hside _ _ _ (gw_out _ Hwf)), (Hside _ _ _ (gw_in _ Hwf)) by by eexists.
  rewrite delete_insert_id by done. by destruct g.
Qed.

(** A freshly added edge is the one its endpoint lists under its id. *)
Lemma find_added e (g : ConceptGraph Json) g' id :
  graph_wf g -> edges g !! edge_id e = None -> ConceptGraph.add_edge e g = (g', Ok id) ->
  List.find (fun x => edge_id x =? edge_id e)%N (get_edges g' (edge_from e)) = Some e.
Proof.
  intros Hwf He Ha. pose proof (graph_wf_add_edge e g Hwf He) as Hwf'. rewrite Ha in Hwf'. cbn in Hwf'.
  destruct (undo_add_edge _ _ _ _ Hwf He Ha) as (_ & _ & _ & Hes).
  assert (Hin : forall x, x ∈ get_edges g' (edge_from e) -> exists i, edges g' !! i = Some x).
  { intros x. unfold get_edges, edges_of. rewrite elem_of_app, !list_elem_of_omap. naive_solver. }
  destruct (List.find _ _) as [x|] eqn:Ex.
  - apply find_some in Ex as [Hx Hid%N.eqb_eq]. apply list_elem_of_In, Hin in Hx as (i & Hi).
    destruct (gw_edge _ Hwf' _ _ Hi) as (Hii & _). rewrite Hes in Hi. apply lookup_insert_Some in Hi.
    destruct Hi as [[_ ->]|[Hne _]]; [done|]. congruence.
  - apply (find_none _ _) with (x := e) in Ex; [by rewrite N.eqb_refl in Ex|].
    apply list_elem_of_In. unfold get_edges, edges_of. rewrite elem_of_app. left.
    apply list_elem_of_omap. exists (edge_id e). rewrite Hes, lookup_insert_eq. split; [|done].
    apply (io_ids _ _ _ _ (gw_out _ Hwf')). exists e. by rewrite Hes, lookup_insert_eq.
Qed.

(** ** The calls *)

Lemma disk_after_node mk n db db' :
  tables_ok mk db -> node_written mk n db db' ->
  tables_ok mk db' /\ disk_nodes mk db' = <[node_id n := n]> (disk_nodes mk db) /\
  disk_edges mk db' = disk_edges mk db.
Proof.
  intros [Hn He] (row & -> & Hrow). split_and!; [|by apply map_imap_insert_Some, Hrow|done]. split; cbn; [|done].
  intros id r [[<- <-]|[_ Hr]]%lookup_insert_Some; [by exists n|by apply Hn].
Qed.
Lemma disk_after_edge mk e db db' :
  tables_ok mk db -> edge_written mk e db db' ->
  tables_ok mk db' /\ disk_edges mk db' = <[edge_id e := e]> (disk_edges mk db) /\
  disk_nodes mk db' = disk_nodes mk db.
Proof.
  intros [Hn He] (row & -> & Hrow). split_and!; [|by apply map_imap_insert_Some, Hrow|done]. split; cbn; [done|].
  intros id r [[<- <-]|[_ Hr]]%lookup_insert_Some; [by exists e|by apply He].
Qed.

(** What a call may leave: on success the graph's own answer, with the rows of
    what it touched; on an error the graph and the database as they were. *)
Definition follows (c : call) (p p' : PersistentConceptGraph) (r : result unit GraphError) : Prop :=
  match r with
  | Ok _ => in_memory c (graph p) = (graph p', Ok tt) /\
      (forall id, stored_nodes p' !! id
         = if decide (id ∈ touched_nodes c) then nodes (graph p') !! id else stored_nodes p !! id) /\
      (forall id, stored_edges p' !! id
         = if decide (id ∈ touched_edges c) then edges (graph p') !! id else stored_edges p !! id)
  | Err e => graph p' = graph p /\ conn p' = conn p /\ (fault e \/ is_ok (in_memory c (graph p)).2 = false)
  end.
Definition outcome (c : call) (p p' : PersistentConceptGraph) (r : result unit GraphError) : Prop :=
  master_key p' = master_key p /\ stored p' /\ follows c p p' r.

Lemma outcome_err c p p' e :
  stored p -> graph p' = graph p -> conn p' = conn p -> master_key p' = master_key p -> keys_ok p' ->
  fault e \/ is_ok (in_memory c (graph p)).2 = false -> outcome c p p' (Err e).
Proof. intros [] Hg Hc Hm Hk He. split_and!; [done| |done]. by split; rewrite ?Hm, ?Hc, ?Hg. Qed.

Lemma same_idle p p1 e : open_tx (conn p) = None ->
  fault e /\ (conn p1 = conn p \/ exists f, conn p1 = failed f (conn p)) -> fault e /\ conn p1 = conn p.
Proof. intros Htx [He [Hc|[f Hc]]]; (split; [done|]); [done|]. by rewrite Hc, failed_idle. Qed.

Lemma write_idle c db : open_tx c = None -> write c db = mk_conn db None /\ view c = committed c.
Proof. unfold write, view. by intros ->. Qed.

Lemma stored_node_row p n db : stored p -> node_written (master_key p) n (committed (conn p)) db ->
  tables_ok (master_key p) db /\ disk_nodes (master_key p) db = <[node_id n := n]> (stored_nodes p) /\
  disk_edges (master_key p) db = stored_edges p.
Proof. intros [_ Ht _ _] Hw. by apply disk_after_node. Qed.
Lemma stored_edge_row p e db : stored p -> edge_written (master_key p) e (committed (conn p)) db ->
  tables_ok (master_key p) db /\ disk_edges (master_key p) db = <[edge_id e := e]> (stored_edges p) /\
  disk_nodes (master_key p) db = stored_nodes p.
Proof. intros [_ Ht _ _] Hw. by apply disk_after_edge. Qed.

(** The formula of [follows] for one row. *)
Lemma lookup_touched {A} (m m' : gmap uuid A) (k : uuid) (a : A) (g : gmap uuid A) :
  m' = <[k := a]> m -> g !! k = Some a ->
  forall id, m' !! id = if decide (id ∈ ({[k]} : gset uuid)) then g !! id else m !! id.
Proof.
  clear Hnode Hedge. intros -> Hg id. case_decide as Hid.
  - apply elem_of_singleton in Hid as ->. by rewrite lookup_insert_eq.
  - rewrite lookup_insert_ne; [done|]. set_solver.
Qed.
Lemma lookup_untouched {A} (m m' g : gmap uuid A) :
  m' = m -> forall id, m' !! id = if decide (id ∈ (∅ : gset uuid)) then g !! id else m !! id.
Proof. clear Hnode Hedge. intros -> id. by rewrite decide_False by set_solver. Qed.

Lemma add_node_outcome io n p p' r :
  stored p -> exec io (AddNode n) p = (p', r) -> outcome (AddNode n) p p' r.
Proof using Hnode.
  clear Hedge. intros Hst. pose proof (st_graph _ Hst) as Hwf. pose proof (st_tx _ Hst) as Htx.
  cbn [exec]. unfold try_eff at 1, add_node.
  destruct (ConceptGraph.add_node n (graph p)) as [g [id|e]] eqn:Ea.
  2:{ assert (g = graph p) as -> by (unfold ConceptGraph.add_node in Ea; destruct (nodes _ !! _); by simplify_eq).
      intros [= <- <-]. apply outcome_err; [done..|apply (st_keys _ Hst)|]. right. cbn. unfold try_eff. by rewrite Ea. }
  pose proof Ea as Ha. unfold ConceptGraph.add_node in Ha. destruct (nodes (graph p) !! node_id n) eqn:Hn; [done|].
  injection Ha as Hg <-. set (p0 := with_graph p g).
  destruct (persist_node io 0 n p0) as [p1 r1] eqn:E1.
  destruct (persist_node_spec _ _ _ _ _ _ (st_keys _ Hst : keys_ok p0) E1) as (Hg1 & Hm1 & Hk1 & H1).
  destruct r1 as [u|e1]; intros [= <- <-].
  - destruct H1 as (db & Hc & Hw). cbn in Hc, Hw, Hm1, Hg1. destruct (write_idle (conn p) db Htx) as [Hwr Hv].
    rewrite Hwr in Hc. rewrite Hv in Hw. destruct (stored_node_row _ _ _ Hst Hw) as (Ht & Hdn & Hde).
    split_and!; [done| |split_and!].
    + split; rewrite ?Hm1, ?Hc; [done..|]. rewrite Hg1. pose proof (graph_wf_add_node n _ Hwf) as H. by rewrite Ea in H.
    + cbn. unfold try_eff. by rewrite Ea, Hg1.
    + apply (lookup_touched _ _ (node_id n) n); unfold stored_nodes; rewrite ?Hm1, ?Hc; [done|].
      rewrite Hg1, <- Hg. apply lookup_insert_eq.
    + apply (lookup_untouched _ _ (edges (graph p1))). unfold stored_edges. by rewrite Hm1, Hc.
  - apply (same_idle p) in H1 as [He Hc]; [|done].
    apply outcome_err; [done| |done|done|exact Hk1|by left]. cbn. rewrite Hg1. cbn.
    pose proof (undo_add_node n (graph p) Hwf Hn) as Hu. by rewrite Ea in Hu.
Qed.

Lemma add_edge_outcome io e p p' r :
  stored p -> fresh_edge (AddEdge e) (graph p) -> exec io (AddEdge e) p = (p', r) -> outcome (AddEdge e) p p' r.
Proof using Hedge.
  clear Hnode. intros Hst Hfresh. pose proof (st_graph _ Hst) as Hwf. pose proof (st_tx _ Hst) as Htx.
  cbn [exec]. unfold try_eff at 1, add_edge.
  destruct (ConceptGraph.add_edge e (graph p)) as [g [id|err]] eqn:Ea.
  2:{ assert (g = graph p) as ->.
      { unfold ConceptGraph.add_edge in Ea. destruct (nodes _ !! edge_from e); [destruct (nodes (graph p) !! edge_to e)|]; by simplify_eq. }
      intros [= <- <-]. apply outcome_err; [done..|apply (st_keys _ Hst)|]. right. cbn. unfold try_eff. by rewrite Ea. }
  destruct (undo_add_edge _ _ _ _ Hwf Hfresh Ea) as (-> & Hundo & Hns & Hes). set (p0 := with_graph p g).
  destruct (persist_edge io 0 e p0) as [p1 r1] eqn:E1.
  destruct (persist_edge_spec _ _ _ _ _ _ (st_keys _ Hst : keys_ok p0) E1) as (Hg1 & Hm1 & Hk1 & H1).
  destruct r1 as [u|e1]; intros [= <- <-].
  - destruct H1 as (db & Hc & Hw). cbn in Hc, Hw, Hm1, Hg1. destruct (write_idle (conn p) db Htx) as [Hwr Hv].
    rewrite Hwr in Hc. rewrite Hv in Hw. destruct (stored_edge_row _ _ _ Hst Hw) as (Ht & Hde & Hdn).
    split_and!; [done| |split_and!].
    + split; rewrite ?Hm1, ?Hc; [done..|]. rewrite Hg1. pose proof (graph_wf_add_edge e _ Hwf Hfresh) as H. by rewrite Ea in H.
    + cbn. unfold try_eff. by rewrite Ea, Hg1.
    + apply (lookup_untouched _ _ (nodes (graph p1))). unfold stored_nodes. by rewrite Hm1, Hc.
    + apply (lookup_touched _ _ (edge_id e) e); unfold stored_edges; rewrite ?Hm1, ?Hc; [done|].
      rewrite Hg1, Hes. apply lookup_insert_eq.
  - apply (same_idle p) in H1 as [He Hc]; [|done].
    apply outcome_err; [done| |done|done|exact Hk1|by left]. cbn. by rewrite Hg1.
Qed.

Lemma save_node_outcome io id p p' r :
  stored p -> exec io (SaveNode id) p = (p', r) -> outcome (SaveNode id) p p' r.
Proof using Hnode.
  clear Hedge. intros Hst. pose proof (st_graph _ Hst) as Hwf. pose proof (st_tx _ Hst) as Htx.
  cbn [exec]. unfold save_node, get_node. destruct (nodes (graph p) !! id) as [n|] eqn:En.
  2:{ intros [= <- <-]. apply outcome_err; [done..|apply (st_keys _ Hst)|]. right. cbn. by rewrite En. }
  intros E1. pose proof (gw_id _ Hwf _ _ En) as Hid.
  destruct (persist_node_spec _ _ _ _ _ _ (st_keys _ Hst) E1) as (Hg1 & Hm1 & Hk1 & H1).
  destruct r as [u|e1].
  - destruct H1 as (db & Hc & Hw). destruct (write_idle (conn p) db Htx) as [Hwr Hv].
    rewrite Hwr in Hc. rewrite Hv in Hw. destruct (stored_node_row _ _ _ Hst Hw) as (Ht & Hdn & Hde).
    split_and!; [done| |split_and!].
    + split; rewrite ?Hm1, ?Hc, ?Hg1; done.
    + cbn. by rewrite En, Hg1.
    + apply (lookup_touched _ _ id n); unfold stored_nodes; rewrite ?Hm1, ?Hc, ?Hg1; [by rewrite <- Hid|done].
    + apply (lookup_untouched _ _ (edges (graph p'))). unfold stored_edges. by rewrite Hm1, Hc.
  - apply (same_idle p) in H1 as [He Hc]; [|done]. apply outcome_err; auto.
Qed.

(** The graph's [supersede_node] when it succeeds. *)
Lemma supersede_cases fresh now a b (g : ConceptGraph Json) n :
  nodes g !! a = Some n ->
  (exists e, ConceptGraph.supersede_node fresh now a b g = (g, Err e)) \/
  let edge := new_edge fresh now a b Supersedes (node_scope_id n) in
  let g1 := get_node_mut (mark_superseded_by now b) a g in
  exists g2, ConceptGraph.supersede_node fresh now a b g = (g2, Ok fresh) /\
    ConceptGraph.add_edge edge g1 = (g2, Ok fresh).
Proof.
  clear Hnode Hedge. intros Hn. unfold ConceptGraph.supersede_node. destruct (_ =? _)%N; [left; by eexists|].
  destruct (nodes g !! b) as [m|] eqn:Hb; [|left; by eexists]. rewrite Hn. right. cbv zeta.
  set (g1 := get_node_mut _ _ _). unfold ConceptGraph.add_edge. cbn [edge_from edge_to new_edge].
  assert (Ha1 : is_Some (nodes g1 !! a)) by (apply lookup_alter_is_Some; by eexists).
  assert (Hb1 : is_Some (nodes g1 !! b)) by (apply lookup_alter_is_Some; by eexists).
  destruct Ha1 as [? ->], Hb1 as [? ->]. cbn [edge_id new_edge]. eauto.
Qed.

Lemma restore_node (f : ConceptNode Json -> ConceptNode Json) a (g : ConceptGraph Json) n :
  nodes g !! a = Some n -> get_node_mut (fun _ => n) a (get_node_mut f a g) = g.
Proof.
  clear Hnode Hedge. intros Hn. unfold get_node_mut. cbn.
  replace (alter _ a (alter f a (nodes g))) with (nodes g); [by destruct g|].
  apply map_eq. intros i. destruct (decide (a = i)) as [<-|Hne]; [|by rewrite !lookup_alter_ne].
  by rewrite !lookup_alter_eq, Hn.
Qed.

Lemma supersede_outcome io fresh now a b p p' r :
  stored p -> fresh_edge (Supersede fresh now a b) (graph p) -> rollback_ok io ->
  exec io (Supersede fresh now a b) p = (p', r) -> outcome (Supersede fresh now a b) p p' r.
Proof using Hnode Hedge.
  intros Hst Hfresh Hroll. pose proof (st_graph _ Hst) as Hwf. cbn in Hfresh.
  cbn [exec]. unfold try_eff at 1, supersede_node, get_node.
  destruct (nodes (graph p) !! a) as [n|] eqn:En.
  2:{ intros [= <- <-]. apply outcome_err; [done..|apply (st_keys _ Hst)|]. right. cbn. unfold try_eff, ConceptGraph.supersede_node.
      destruct (_ =? _)%N; [done|]. destruct (nodes (graph p) !! b); [|done]. by rewrite En. }
  destruct (supersede_cases fresh now a b _ _ En) as [[e Es]|(g2 & Es & Ea)]; rewrite Es.
  { intros [= <- <-]. apply outcome_err; [done..|apply (st_keys _ Hst)|]. right. cbn. unfold try_eff. by rewrite Es. }
  revert Ea. set (edge := new_edge _ _ _ _ _ _). set (g1 := get_node_mut _ a (graph p)). intros Ea.
  assert (Hwf1 : graph_wf g1) by by apply graph_wf_get_node_mut.
  destruct (undo_add_edge edge g1 g2 fresh Hwf1 Hfresh Ea) as (_ & Hundo & Hns & Hes).
  assert (Hna : nodes g2 !! a = Some (mark_superseded_by now b n)).
  { rewrite Hns. unfold g1. cbn. by rewrite lookup_alter_eq, En. }
  set (p0 := with_graph p g2). cbn [graph p0 with_graph]. rewrite Hna.
  pose proof (find_added edge g1 g2 fresh Hwf1 Hfresh Ea) as Hfind. cbn [edge_id edge_from edge new_edge] in Hfind.
  rewrite Hfind. destruct (persist_pair_in_tx io _ edge p0) as [p1 r1] eqn:E1.
  destruct (persist_pair_spec _ _ _ p0 _ _ (st_keys _ Hst) (st_tx _ Hst) Hroll E1) as (Hg1 & Hm1 & Hk1 & H1).
  cbn in Hg1, Hm1. destruct r1 as [u|e1]; intros [= <- <-].
  - destruct H1 as (db1 & db2 & Hc & Hw1 & Hw2). cbn [master_key conn p0 with_graph committed] in Hw1, Hw2.
    destruct (stored_node_row _ _ _ Hst Hw1) as (Ht1 & Hdn1 & Hde1).
    destruct (disk_after_edge _ _ _ _ Ht1 Hw2) as (Ht2 & Hde2 & Hdn2). rewrite Hdn1 in Hdn2. rewrite Hde1 in Hde2.
    split_and!; [done| |split_and!].
    + split; rewrite ?Hm1, ?Hc; [done..|]. rewrite Hg1. pose proof (graph_wf_add_edge edge _ Hwf1 Hfresh) as H. by rewrite Ea in H.
    + cbn. unfold try_eff. by rewrite Es, Hg1.
    + apply (lookup_touched _ _ a (mark_superseded_by now b n)); unfold stored_nodes; rewrite ?Hm1, ?Hc, ?Hg1; [|done].
      cbn [committed]. rewrite Hdn2. f_equal. cbn. by apply (gw_id _ Hwf).
    + apply (lookup_touched _ _ fresh edge); unfold stored_edges; rewrite ?Hm1, ?Hc, ?Hg1; [done|].
      rewrite Hes. apply lookup_insert_eq.
  - destruct H1 as [He Hc]. apply outcome_err; [done| |done|done|exact Hk1|by left].
    cbn. rewrite Hg1, Hundo. by apply restore_node.
Qed.

Lemma exec_outcome io c p p' r :
  stored p -> fresh_edge c (graph p) -> rollback_ok io -> exec io c p = (p', r) -> outcome c p p' r.
Proof using Hnode Hedge.
  destruct c; [eauto using add_node_outcome|eauto using add_edge_outcome|eauto using supersede_outcome|eauto using save_node_outcome].
Qed.

(** The graph's calls change only what they touch. *)
Lemma in_memory_touches c g g' :
  in_memory c g = (g', Ok tt) ->
  (forall id, id ∉ touched_nodes c -> nodes g' !! id = nodes g !! id) /\
  (forall id, id ∉ touched_edges c -> edges g' !! id = edges g !! id).
Proof.
  clear Hnode Hedge. unfold in_memory, try_eff, ConceptGraph.add_node, ConceptGraph.supersede_node, ConceptGraph.add_edge, ret.
  destruct c as [n|e|fresh now a b|id]; [destruct (nodes g !! node_id n)|destruct (nodes g !! edge_from e);
    [destruct (nodes g !! edge_to e)|]|destruct (_ =? _)%N; [|destruct (nodes g !! b); [destruct (nodes g !! a)|]]|
    destruct (nodes g !! id)]; try done; repeat case_match; intros ?; simplify_eq; split; intros i Hi; cbn in Hi |- *;
    rewrite ?lookup_insert_ne, ?lookup_alter_ne by set_solver; done.
Qed.

Lemma follows_lockstep c p p' r : follows c p p' r -> master_key p' = master_key p -> lockstep p -> lockstep p'.
Proof.
  clear Hnode Hedge. unfold follows, lockstep. intros Hf Hm [Hn He]. destruct r as [u|e].
  - destruct Hf as (Hmem & Hsn & Hse). destruct (in_memory_touches _ _ _ Hmem) as [Htn Hte].
    split; apply map_subseteq_spec; intros id x Hx.
    + rewrite Hsn. case_decide as Hid; [done|]. rewrite Htn in Hx by done. by eapply lookup_weaken.
    + rewrite Hse. case_decide as Hid; [done|]. rewrite Hte in Hx by done. by eapply lookup_weaken.
  - destruct Hf as (Hg & Hc & _). unfold stored_nodes, stored_edges. by rewrite Hg, Hc, Hm.
Qed.
End Codec.

(** ** Loading *)

Lemma load_nodes_ok key scope rows count p :
  graph_wf (graph p) -> NoDup rows.*1 ->
  (forall id row, (id, row) ∈ rows -> exists n, node_id n = id /\ open_node key scope id row = Ok n) ->
  (forall id, id ∈ rows.*1 -> nodes (graph p) !! id = None) ->
  exists g, load_nodes key scope rows count p = (with_graph p g, Ok (count + length rows)%nat) /\
    graph_wf g /\ edges g = edges (graph p) /\
    (forall id n, nodes g !! id = Some n <->
       nodes (graph p) !! id = Some n \/ exists row, (id, row) ∈ rows /\ open_node key scope id row = Ok n).
Proof.
  revert count p. induction rows as [|[id row] rows IH]; intros count p Hwf Hnd Hopen Hnew; cbn [load_nodes].
  { exists (graph p). split_and!; [destruct p; cbn; do 2 f_equal; lia|done|done|].
    intros i n. split; [by left|]. by intros [H|(row & []%elem_of_nil & _)]. }
  cbn in Hnd. apply NoDup_cons in Hnd as [Hid Hnd].
  destruct (Hopen id row) as (n & Hn & Ho); [by left|]. rewrite Ho.
  pose proof (Hnew id (list_elem_of_here _ _)) as Hnone. pose proof (graph_wf_add_node n _ Hwf) as Hwf'.
  unfold ConceptGraph.add_node in *. rewrite Hn, Hnone in *. cbn [fst] in Hwf'.
  match goal with |- context [with_graph p ?x] => set (g1 := x) in * end.
  destruct (IH (S count) (with_graph p g1)) as (g & Hl & Hwfg & He & Hns); [done|done| | |].
  - intros i r Hi. apply Hopen. by right.
  - intros i Hi. cbn. rewrite lookup_insert_ne; [apply Hnew; by right|]. by intros ->.
  - exists g. rewrite Hl. split_and!; [cbn; do 2 f_equal; lia|done|done|]. intros i m. rewrite Hns.
    unfold g1. cbn [graph with_graph nodes]. rewrite lookup_insert_Some. setoid_rewrite elem_of_cons.
    split; [intros [[[<- <-]|[_ H]]|(r & Hr & Hm)]; eauto|].
    intros [H|(r & [[= -> ->]|Hr] & Hm)]; [| |eauto].
    + left. right. split; [|done]. intros ->. congruence.
    + left. left. split; [done|]. congruence.
Qed.

(** Both endpoints of an edge are nodes of the graph. *)
Definition connected (g : ConceptGraph Json) (e : ConceptEdge Json) : Prop :=
  is_Some (nodes g !! edge_from e) /\ is_Some (nodes g !! edge_to e).
#[local] Instance connected_dec g e : Decision (connected g e).
Proof. unfold connected. apply _. Defined.

Lemma add_connected e (g : ConceptGraph Json) :
  graph_wf g -> edges g !! edge_id e = None ->
  if decide (connected g e) then
    exists g', ConceptGraph.add_edge e g = (g', Ok (edge_id e)) /\ graph_wf g' /\ nodes g' = nodes g /\
      edges g' = <[edge_id e := e]> (edges g)
  else exists d, ConceptGraph.add_edge e g = (g, Err (DanglingEdge d)).
Proof.
  intros Hwf He. pose proof (graph_wf_add_edge e g Hwf He) as Hwf'. unfold ConceptGraph.add_edge in *.
  destruct (decide (connected g e)) as [[[x Ef] [y Et]]|Hn].
  - rewrite Ef, Et in *. eexists. by split_and!.
  - destruct (nodes g !! edge_from e) eqn:Ef; [|by eexists]. destruct (nodes g !! edge_to e) eqn:Et; [|by eexists].
    exfalso. apply Hn. by split; eexists.
Qed.

Lemma connected_same g g' e : nodes g' = nodes g -> connected g' e <-> connected g e.
Proof. unfold connected. by intros ->. Qed.

(** The two edge loops: with [window] a dangling edge is skipped, otherwise it
    stops the loop. *)
Definition edge_loop (window : bool) :=
  if window then load_window_edges else load_edges.
Lemma edge_loop_cons window key scope id row rows count p e :
  open_edge key scope id row = Ok e -> graph_wf (graph p) -> edges (graph p) !! edge_id e = None ->
  edge_loop window key scope ((id, row) :: rows) count p
  = if decide (connected (graph p) e) then
      edge_loop window key scope rows (S count) (with_graph p (ConceptGraph.add_edge e (graph p)).1)
    else if window then edge_loop window key scope rows count p
    else (p, Err (DanglingEdge (if nodes (graph p) !! edge_from e then edge_to e else edge_from e))).
Proof.
  intros Ho Hwf He. pose proof (add_connected e _ Hwf He) as Hadd.
  destruct window; cbn [edge_loop load_window_edges load_edges]; rewrite Ho; unfold get_node.
  - destruct (decide (connected (graph p) e)) as [[[? Ef] [? Et]]|Hn].
    + destruct Hadd as (g' & -> & _). by rewrite Ef, Et.
    + destruct (nodes (graph p) !! edge_from e) eqn:Ef; [|done].
      destruct (nodes (graph p) !! edge_to e) eqn:Et; [|done]. exfalso. apply Hn. by split; eexists.
  - destruct (decide (connected (graph p) e)) as [[[? Ef] [? Et]]|Hn]; [by destruct Hadd as (g' & -> & _)|].
    unfold ConceptGraph.add_edge. destruct (nodes (graph p) !! edge_from e) eqn:Ef; [|by destruct p].
    destruct (nodes (graph p) !! edge_to e) eqn:Et; [|by destruct p]. exfalso. apply Hn. by split; eexists.
Qed.

Lemma edge_loop_spec window key scope rows count p :
  graph_wf (graph p) -> NoDup rows.*1 ->
  (forall id row, (id, row) ∈ rows -> exists e, edge_id e = id /\ open_edge key scope id row = Ok e) ->
  (forall id, id ∈ rows.*1 -> edges (graph p) !! id = None) ->
  exists g r, edge_loop window key scope rows count p = (with_graph p g, r) /\
    graph_wf g /\ nodes g = nodes (graph p) /\
    (forall id e, edges g !! id = Some e ->
       edges (graph p) !! id = Some e \/ exists row, (id, row) ∈ rows /\ open_edge key scope id row = Ok e) /\
    match r with
    | Ok m => (m + size (edges (graph p)) = count + size (edges g))%nat /\
        (forall id e, edges (graph p) !! id = Some e -> edges g !! id = Some e) /\
        (forall id row e, (id, row) ∈ rows -> open_edge key scope id row = Ok e ->
           if decide (connected (graph p) e) then edges g !! id = Some e else window = true)
    | Err x => (exists d, x = DanglingEdge d) /\ window = false /\
        exists id row e, (id, row) ∈ rows /\ open_edge key scope id row = Ok e /\ ~ connected (graph p) e
    end.
Proof.
  revert count p. induction rows as [|[id row] rows IH]; intros count p Hwf Hnd Hopen Hnew.
  { exists (graph p), (Ok count). split_and!; [by destruct window, p|done|done|by left|done|done|].
    by intros ? ? ? []%elem_of_nil. }
  cbn in Hnd. apply NoDup_cons in Hnd as [Hid Hnd].
  destruct (Hopen id row) as (e & He & Ho); [by left|].
  pose proof (Hnew id (list_elem_of_here _ _)) as Hnone. rewrite <- He in Hnone.
  rewrite (edge_loop_cons _ _ _ _ _ _ _ _ _ Ho Hwf Hnone).
  assert (Hopen' : forall i r, (i, r) ∈ rows -> exists e, edge_id e = i /\ open_edge key scope i r = Ok e)
    by (intros i r Hi; apply Hopen; by right).
  pose proof (add_connected e _ Hwf Hnone) as Hadd. destruct (decide (connected (graph p) e)) as [Hc|Hc].
  - destruct Hadd as (g1 & Ha & Hwf1 & Hn1 & He1). rewrite Ha, He in *. cbn [fst].
    destruct (IH (S count) (with_graph p g1)) as (g & r & Hl & Hwfg & Hn & Hsub & Hr); [done|done|done| |].
    { intros i Hi. cbn. rewrite He1, lookup_insert_ne; [apply Hnew; by right|]. by intros ->. }
    cbn [graph with_graph] in *. exists g, r. split_and!; [exact Hl|done|congruence| |].
    + intros i x Hx. destruct (Hsub i x Hx) as [H|(rw & Hrw & Hox)]; [|right; exists rw; split; [by right|done]].
      rewrite He1 in H. apply lookup_insert_Some in H as [[<- <-]|[_ H]]; [right|by left]. exists row. split; [by left|done].
    + destruct r as [m|x].
      * destruct Hr as (Hm & Hmono & Hall). rewrite He1, map_size_insert_None in Hm by done. split_and!; [lia| |].
        { intros i x Hx. apply Hmono. rewrite He1, lookup_insert_ne; [done|]. intros ->. congruence. }
        intros i rw x [[= -> ->]|Hin]%elem_of_cons Hox.
        { assert (x = e) as -> by congruence. rewrite decide_True by done. apply Hmono. by rewrite He1, lookup_insert_eq. }
        specialize (Hall i rw x Hin Hox). do 2 case_decide; unfold connected in *; rewrite Hn1 in *; tauto.
      * destruct Hr as (Hd & -> & i & rw & x' & Hin & Hox & Hnc). split_and!; [done..|].
        exists i, rw, x'. split_and!; [by right|done|]. by rewrite <- (connected_same _ _ _ Hn1).
  - destruct window.
    + destruct (IH count p) as (g & r & Hl & Hwfg & Hn & Hsub & Hr); [done..| |].
      { intros i Hi. apply Hnew. by right. }
      exists g, r. split_and!; [done..| |].
      * intros i x Hx. destruct (Hsub i x Hx) as [H|(rw & Hrw & Hox)]; [by left|]. right. exists rw. split; [by right|done].
      * destruct r as [m|x]; [|by destruct Hr as (_ & ? & _)]. destruct Hr as (Hm & Hmono & Hall). split_and!; [done..|].
        intros i rw x [[= -> ->]|Hin]%elem_of_cons Hox; [|by apply (Hall i rw)].
        assert (x = e) as -> by congruence. by rewrite decide_False.
    + eexists (graph p), _. split_and!; [by destruct p|done|done|by left|]. split; [by eexists|]. split; [done|].
      exists id, row, e. split_and!; [by left|done|done].
Qed.

(** The rows of a scope and what they read back to. *)
Lemma node_row_iff mk db s k id n :
  tables_ok mk db -> derive_key mk (scope_label s) = Ok k ->
  (exists row, node_rows db !! id = Some row /\ nr_scope_id row = s /\ open_node k s id row = Ok n) <->
  disk_nodes mk db !! id = Some n /\ node_scope_id n = s.
Proof.
  intros [Hn _] Hk. unfold disk_nodes. rewrite map_lookup_imap. split.
  - intros (row & Hrow & Hs & Ho). destruct (Hn _ _ Hrow) as (n' & Hid & Hr & Hsc). rewrite Hrow. cbn.
    rewrite Hid in Hr. assert (n' = n) as ->; [|by rewrite Hr, <- Hsc].
    unfold read_node in Hr. rewrite Hs, Hk, Ho in Hr. congruence.
  - intros [Hl Hs]. destruct (node_rows db !! id) as [row|] eqn:Hrow; [|done]. cbn in Hl. exists row.
    destruct (Hn _ _ Hrow) as (n' & Hid & Hr & Hsc). rewrite Hid, Hl in Hr. injection Hr as <-.
    split_and!; [done|congruence|]. unfold read_node in Hl. rewrite Hsc, Hs, Hk in Hl. destruct (open_node _ _ _ _); congruence.
Qed.
Lemma edge_row_iff mk db s k id e :
  tables_ok mk db -> derive_key mk (scope_label s) = Ok k ->
  (exists row, edge_rows db !! id = Some row /\ er_scope_id row = s /\ open_edge k s id row = Ok e) <->
  disk_edges mk db !! id = Some e /\ edge_scope_id e = s.
Proof.
  intros [_ He] Hk. unfold disk_edges. rewrite map_lookup_imap. split.
  - intros (row & Hrow & Hs & Ho). destruct (He _ _ Hrow) as (e' & Hid & Hr & Hsc & _). rewrite Hrow. cbn.
    rewrite Hid in Hr. assert (e' = e) as ->; [|by rewrite Hr, <- Hsc].
    unfold read_edge in Hr. rewrite Hs, Hk, Ho in Hr. congruence.
  - intros [Hl Hs]. destruct (edge_rows db !! id) as [row|] eqn:Hrow; [|done]. cbn in Hl. exists row.
    destruct (He _ _ Hrow) as (e' & Hid & Hr & Hsc & _). rewrite Hid, Hl in Hr. injection Hr as <-.
    split_and!; [done|congruence|]. unfold read_edge in Hl. rewrite Hsc, Hs, Hk in Hl. destruct (open_edge _ _ _ _); congruence.
Qed.

(** Some of the rows of a table, each once. *)
Definition some_rows {R} (table : gmap uuid R) (scope : R -> uuid) (s : uuid) (rows : list (uuid * R)) : Prop :=
  NoDup rows.*1 /\ forall id row, (id, row) ∈ rows -> table !! id = Some row /\ scope row = s.

Lemma hash_filter_rows {R} (table : gmap uuid R) (scope : R -> uuid) s :
  let rows := hash_order (base.filter (fun x => scope x.2 = s) (map_to_list table)) in
  some_rows table scope s rows /\ forall id row, (id, row) ∈ rows <-> table !! id = Some row /\ scope row = s.
Proof.
  cbv zeta.
  assert (Hin : forall id row, (id, row) ∈ hash_order (base.filter (fun x => scope x.2 = s) (map_to_list table))
            <-> table !! id = Some row /\ scope row = s).
  { intros id row. rewrite elem_of_hash_order, list_elem_of_filter, elem_of_map_to_list. cbn. tauto. }
  split; [split|exact Hin]; [|intros id row; apply Hin].
  rewrite hash_order_perm. apply (sublist_NoDup _ (map_to_list table).*1); [apply NoDup_fst_map_to_list|].
  apply fmap_sublist, sublist_filter.
Qed.

Lemma some_rows_perm {R} (table : gmap uuid R) scope s l l' : l' ≡ₚ l -> some_rows table scope s l -> some_rows table scope s l'.
Proof. intros Hp [Hnd Hin]. split; [by rewrite Hp|]. intros id row. rewrite Hp. apply Hin. Qed.
Lemma some_rows_sublist {R} (table : gmap uuid R) scope s l l' :
  l' `sublist_of` l -> some_rows table scope s l -> some_rows table scope s l'.
Proof.
  intros Hs [Hnd Hin]. split; [eapply sublist_NoDup; [done|by apply fmap_sublist]|].
  intros id row Hi. apply Hin. by eapply elem_of_sublist.
Qed.

(** The two loads are one procedure, up to the rows they select and to what they
    do with a dangling edge. *)
Definition load_with (window : bool) (fn : Database -> list (uuid * NodeRow)) (fe : Database -> list (uuid * EdgeRow))
    (io : Io) (scope : uuid) : eff PersistentConceptGraph GraphError (nat * nat) :=
  do? _ := reset_graph in
  do? key := scope_key scope in
  do? node_rows := query io 0 fn in
  do? node_count := load_nodes key scope node_rows 0 in
  do? edge_rows := query io 1 fe in
  do? edge_count := edge_loop window key scope edge_rows 0 in
  ret (node_count, edge_count).

(** The rows of a scope, as what they read back to. *)
Lemma some_nodes_iff mk db s k rows :
  tables_ok mk db -> derive_key mk (scope_label s) = Ok k -> some_rows (node_rows db) nr_scope_id s rows ->
  (forall id n, (exists row, (id, row) ∈ rows /\ open_node k s id row = Ok n) <->
     disk_nodes mk db !! id = Some n /\ node_scope_id n = s /\ id ∈ rows.*1) /\
  (forall id row, (id, row) ∈ rows -> exists n, node_id n = id /\ open_node k s id row = Ok n).
Proof.
  intros Ht Hd [Hnd Hin]. split.
  - intros id n. pose proof (node_row_iff _ _ s k id n Ht Hd) as Hiff. split.
    + intros (row & Hi & Ho). destruct (Hin _ _ Hi). destruct (proj1 Hiff) as [? ?]; [by eauto|].
      split_and!; [done..|]. apply list_elem_of_fmap. by exists (id, row).
    + intros (Hl & Hs & ([i row] & -> & Hi)%list_elem_of_fmap). cbn in *. destruct (Hin _ _ Hi) as [Hrow _].
      destruct (proj2 Hiff (conj Hl Hs)) as (row' & Hr' & _ & Ho). exists row. split; [done|]. congruence.
  - intros id row Hi. destruct (Hin _ _ Hi) as [Hrw Hsc]. destruct (to_nodes _ _ Ht _ _ Hrw) as (n & Hid & Hro & _).
    exists n. split; [done|]. unfold read_node in Hro. rewrite Hsc, Hd, Hid in Hro. destruct (open_node _ _ _ _); congruence.
Qed.
Lemma some_edges_iff mk db s k rows :
  tables_ok mk db -> derive_key mk (scope_label s) = Ok k -> some_rows (edge_rows db) er_scope_id s rows ->
  (forall id e, (exists row, (id, row) ∈ rows /\ open_edge k s id row = Ok e) <->
     disk_edges mk db !! id = Some e /\ edge_scope_id e = s /\ id ∈ rows.*1) /\
  (forall id row, (id, row) ∈ rows -> exists e, edge_id e = id /\ open_edge k s id row = Ok e).
Proof.
  intros Ht Hd [Hnd Hin]. split.
  - intros id e. pose proof (edge_row_iff _ _ s k id e Ht Hd) as Hiff. split.
    + intros (row & Hi & Ho). destruct (Hin _ _ Hi). destruct (proj1 Hiff) as [? ?]; [by eauto|].
      split_and!; [done..|]. apply list_elem_of_fmap. by exists (id, row).
    + intros (Hl & Hs & ([i row] & -> & Hi)%list_elem_of_fmap). cbn in *. destruct (Hin _ _ Hi) as [Hrow _].
      destruct (proj2 Hiff (conj Hl Hs)) as (row' & Hr' & _ & Ho). exists row. split; [done|]. congruence.
  - intros id row Hi. destruct (Hin _ _ Hi) as [Hrw Hsc]. destruct (to_edges _ _ Ht _ _ Hrw) as (e & Hid & Hro & _).
    exists e. split; [done|]. unfold read_edge in Hro. rewrite Hsc, Hd, Hid in Hro. destruct (open_edge _ _ _ _); congruence.
Qed.

Lemma load_nodes_stored mk db s k rows p :
  tables_ok mk db -> derive_key mk (scope_label s) = Ok k -> some_rows (node_rows db) nr_scope_id s rows ->
  graph p = ConceptGraph.new ->
  exists g, load_nodes k s rows 0 p = (with_graph p g, Ok (size (nodes g))) /\ graph_wf g /\ edges g = ∅ /\
    forall id n, nodes g !! id = Some n <-> disk_nodes mk db !! id = Some n /\ node_scope_id n = s /\ id ∈ rows.*1.
Proof.
  intros Ht Hd Hrows Hg. pose proof Hrows as [Hnd _]. destruct (some_nodes_iff _ _ _ _ _ Ht Hd Hrows) as [Hiff Hopen].
  destruct (load_nodes_ok k s rows 0 p) as (g & Hl & Hwf & Hes & Hns); rewrite ?Hg; [apply graph_wf_new|done|done|done|].
  rewrite Hg in Hes, Hns. change (nodes ConceptGraph.new) with (∅ : gmap uuid (ConceptNode Json)) in Hns.
  assert (Hns' : forall id n, nodes g !! id = Some n <-> exists row, (id, row) ∈ rows /\ open_node k s id row = Ok n).
  { intros id n. rewrite Hns. split; [intros [H|H]; [by rewrite lookup_empty in H|done]|by right]. }
  exists g. split_and!; [|done|done|by intros id n; rewrite Hns', Hiff]. rewrite Hl. do 2 f_equal. cbn.
  assert (Hdom : dom (nodes g) = list_to_set (C := gset uuid) rows.*1).
  { apply set_eq. intros id. rewrite elem_of_dom, elem_of_list_to_set, list_elem_of_fmap. split.
    - intros [n Hn]. apply Hns' in Hn as (row & Hi & _). by exists (id, row).
    - intros ([i row] & -> & Hi). destruct (Hopen _ _ Hi) as (n & _ & Ho). exists n. apply Hns'. by exists row. }
  by rewrite <- size_dom, Hdom, size_list_to_set, length_fmap.
Qed.

Lemma edge_loop_stored window mk db s k rows p :
  tables_ok mk db -> derive_key mk (scope_label s) = Ok k -> some_rows (edge_rows db) er_scope_id s rows ->
  graph_wf (graph p) -> edges (graph p) = ∅ ->
  let wanted id e := disk_edges mk db !! id = Some e /\ edge_scope_id e = s /\ id ∈ rows.*1 in
  exists g r, edge_loop window k s rows 0 p = (with_graph p g, r) /\ graph_wf g /\ nodes g = nodes (graph p) /\
    (forall id e, edges g !! id = Some e -> wanted id e) /\
    match r with
    | Ok m => m = size (edges g) /\
        forall id e, wanted id e -> if decide (connected g e) then edges g !! id = Some e else window = true
    | Err x => (exists d, x = DanglingEdge d) /\ window = false /\ exists id e, wanted id e /\ ~ connected g e
    end.
Proof.
  intros Ht Hd Hrows Hwf Hempty wanted. pose proof Hrows as [Hnd _].
  destruct (some_edges_iff _ _ _ _ _ Ht Hd Hrows) as [Hiff Hopen].
  destruct (edge_loop_spec window k s rows 0 p) as (g & r & Hl & Hwf' & Hns & Hsub & Hr); [done..| |].
  { intros id _. by rewrite Hempty. }
  exists g, r. split_and!; [done|done|done| |].
  - intros id e He. apply Hiff. destruct (Hsub _ _ He) as [H|H]; [by rewrite Hempty, lookup_empty in H|done].
  - destruct r as [m|x].
    + destruct Hr as (Hm & _ & Hall). rewrite Hempty, map_size_empty in Hm. split; [lia|].
      intros id e (row & Hi & Ho)%Hiff. specialize (Hall id row e Hi Ho).
      do 2 case_decide; unfold connected in *; rewrite Hns in *; tauto.
    + destruct Hr as (Hdx & -> & id & row & e & Hi & Ho & Hc). split_and!; [done..|]. exists id, e.
      split; [apply Hiff; eauto|]. by rewrite (connected_same _ _ _ Hns).
Qed.

Lemma load_with_spec window fn fe io s k p p' r :
  stored p -> derive_key (master_key p) (scope_label s) = Ok k -> io_error io 0 = None -> io_error io 1 = None ->
  some_rows (node_rows (committed (conn p))) nr_scope_id s (fn (committed (conn p))) ->
  some_rows (edge_rows (committed (conn p))) er_scope_id s (fe (committed (conn p))) ->
  load_with window fn fe io s p = (p', r) ->
  conn p' = conn p /\ master_key p' = master_key p /\ stored p' /\
  (forall id n, nodes (graph p') !! id = Some n <->
     stored_nodes p !! id = Some n /\ node_scope_id n = s /\ id ∈ (fn (committed (conn p))).*1) /\
  (forall id e, edges (graph p') !! id = Some e -> stored_edges p !! id = Some e /\ edge_scope_id e = s
     /\ id ∈ (fe (committed (conn p))).*1) /\
  let wanted id e := stored_edges p !! id = Some e /\ edge_scope_id e = s /\ id ∈ (fe (committed (conn p))).*1 in
  match r with
  | Ok (n, m) => n = size (nodes (graph p')) /\ m = size (edges (graph p')) /\
      forall id e, wanted id e -> if decide (connected (graph p') e) then edges (graph p') !! id = Some e else window = true
  | Err x => (exists d, x = DanglingEdge d) /\ window = false /\
      exists id e, wanted id e /\ ~ connected (graph p') e
  end.
Proof.
  intros Hst Hd H0 H1 Hrn Hre. pose proof (st_tables _ Hst) as Ht. pose proof (st_tx _ Hst) as Htx.
  unfold load_with, try_eff, reset_graph. cbv beta iota.
  destruct (scope_key s (with_graph p ConceptGraph.new)) as [p1 [k'|x]] eqn:Es;
    destruct (scope_key_spec _ (with_graph p ConceptGraph.new) _ _ (st_keys _ Hst) Es) as (Hg1 & Hc1 & Hm1 & Hk1 & Hr);
    cbn in Hg1, Hc1, Hm1, Hr; rewrite Hd in Hr; [injection Hr as ->|done].
  unfold query. rewrite H0, H1. cbv beta iota. rewrite Hc1. unfold view at 1. rewrite Htx. cbn [default from_option].
  set (db := committed (conn p)) in *.
  destruct (load_nodes_stored _ _ _ _ _ p1 Ht Hd Hrn Hg1) as (g & Hl & Hwf & Hes & Hns).
  rewrite Hl. cbv beta iota. cbn [conn with_graph]. rewrite Hc1. unfold view. rewrite Htx. cbn [default from_option]. fold db.
  destruct (edge_loop_stored window _ _ _ _ _ (with_graph p1 g) Ht Hd Hre Hwf Hes) as (g' & r' & Hloop & Hwf' & Hns' & Hsub & Hr').
  rewrite Hloop. cbn [graph with_graph] in Hns'.
  assert (Hst' : stored (with_graph (with_graph p1 g) g')).
  { split; cbn; rewrite ?Hm1, ?Hc1; [exact Hk1|done..]. }
  destruct r' as [m|x]; intros [= <- <-]; (split; [done|]); (split; [done|]); (split; [done|]);
    (split; [by cbn; rewrite Hns'|]); (split; [exact Hsub|]); [|exact Hr'].
  cbn [graph with_graph]. rewrite Hns'. by split_and!; [|apply Hr'..].
Qed.

(** A database the wrapper opens, and a session on a database of its own. *)
Lemma stored_open master p : open empty_db master = Ok p -> stored p /\ graph p = ConceptGraph.new /\
  node_rows (committed (conn p)) = ∅ /\ edge_rows (committed (conn p)) = ∅.
Proof. intros [= <-]. split_and!; [|done..]. split; cbn; [by intros ? ?|by split; intros ? ?|done|apply graph_wf_new]. Qed.

Inductive session (master : Key) : PersistentConceptGraph -> Prop :=
| session_open p : open empty_db master = Ok p -> session master p
| session_call io c p p' r :
    session master p -> fresh_edge c (graph p) -> rollback_ok io -> exec io c p = (p', r) -> session master p'.

(** Memory holds exactly what the disk holds. *)
Definition mirrors (p : PersistentConceptGraph) : Prop :=
  nodes (graph p) = stored_nodes p /\ edges (graph p) = stored_edges p.

Lemma follows_mirrors c p p' r : follows c p p' r -> master_key p' = master_key p -> mirrors p -> mirrors p'.
Proof.
  unfold follows, mirrors. intros Hf Hm [Hn He]. destruct r as [u|e].
  - destruct Hf as (Hmem & Hsn & Hse). destruct (in_memory_touches _ _ _ Hmem) as [Htn Hte].
    split; apply map_eq; intros id; [rewrite Hsn, <- Hn|rewrite Hse, <- He]; case_decide as Hid; auto.
  - destruct Hf as (Hg & Hc & _). unfold stored_nodes, stored_edges. by rewrite Hg, Hc, Hm.
Qed.

Lemma session_mirrors master p :
  (forall n : ConceptNode Json, serde_roundtrips (Bytes := Bytes) n) ->
  (forall e : ConceptEdge Json, serde_roundtrips (Bytes := Bytes) e) ->
  session master p -> stored p /\ mirrors p /\ master_key p = master.
Proof.
  intros Hn He. induction 1 as [p Hopen|io c p p' r _ (Hst & Hmir & Hmk) Hf Hr Hx].
  - destruct (stored_open _ _ Hopen) as (Hst & Hg & Hnr & Her). split_and!; [done| |by injection Hopen as <-].
    unfold mirrors, stored_nodes, stored_edges, disk_nodes, disk_edges. by rewrite Hg, Hnr, Her.
  - destruct (exec_outcome Hn He _ _ _ _ _ Hst Hf Hr Hx) as (Hm & Hst' & Hfol).
    split_and!; [done|by eapply follows_mirrors|congruence].
Qed.

(** Opening what was committed again. *)
Lemma stored_reopen p q : stored p -> open (committed (conn p)) (master_key p) = Ok q ->
  stored q /\ graph q = ConceptGraph.new /\ master_key q = master_key p /\
  stored_nodes q = stored_nodes p /\ stored_edges q = stored_edges p.
Proof.
  intros Hst. unfold open. destruct (_ && _); [done|]. intros [= <-].
  split_and!; [|done..]. split; cbn; [by intros ? ?| |done|apply graph_wf_new].
  destruct (st_tables _ Hst) as [H1 H2]. by split.
Qed.

Lemma load_scope_with io s : load_scope io s = load_with false
  (fun db => merge_sort (created_le nr_created_at) (scope_nodes db s))
  (fun db => merge_sort (created_le er_created_at) (scope_edges db s)) io s.
Proof. done. Qed.
Lemma load_page_with io s limit offset : load_scope_paginated io s limit offset = load_with true
  (fun db => page nr_created_at limit offset (scope_nodes db s))
  (fun db => page er_created_at limit offset (scope_edges db s)) io s.
Proof. done. Qed.

Lemma scope_rows_fst {R} (table : gmap uuid R) (scope : R -> uuid) s rows id row :
  (forall id row, (id, row) ∈ rows <-> table !! id = Some row /\ scope row = s) ->
  table !! id = Some row -> scope row = s -> id ∈ rows.*1.
Proof. intros Hin Hl Hs. apply list_elem_of_fmap. exists (id, row). split; [done|]. by apply Hin. Qed.

(** A stored record of scope [s] has its row among those of [s]. *)
Lemma stored_node_in p s id n rows :
  stored p -> (forall id row, (id, row) ∈ rows <-> node_rows (committed (conn p)) !! id = Some row /\ nr_scope_id row = s) ->
  stored_nodes p !! id = Some n -> node_scope_id n = s -> id ∈ rows.*1.
Proof.
  intros Hst Hin Hl Hs. unfold stored_nodes, disk_nodes in Hl. rewrite map_lookup_imap in Hl.
  destruct (node_rows _ !! id) as [row|] eqn:Hrow; [|done]. cbn in Hl.
  destruct (to_nodes _ _ (st_tables _ Hst) _ _ Hrow) as (n' & Hid & Hr & Hsc). rewrite Hid, Hl in Hr.
  eapply scope_rows_fst; [done|done|]. congruence.
Qed.
Lemma stored_edge_in p s id e rows :
  stored p -> (forall id row, (id, row) ∈ rows <-> edge_rows (committed (conn p)) !! id = Some row /\ er_scope_id row = s) ->
  stored_edges p !! id = Some e -> edge_scope_id e = s -> id ∈ rows.*1.
Proof.
  intros Hst Hin Hl Hs. unfold stored_edges, disk_edges in Hl. rewrite map_lookup_imap in Hl.
  destruct (edge_rows _ !! id) as [row|] eqn:Hrow; [|done]. cbn in Hl.
  destruct (to_edges _ _ (st_tables _ Hst) _ _ Hrow) as (e' & Hid & Hr & Hsc & _). rewrite Hid, Hl in Hr.
  eapply scope_rows_fst; [done|done|]. congruence.
Qed.

(** What [load_scope] gives: the scope's nodes, and its edges when none leaves
    the scope. *)
Lemma load_scope_spec io s k p p' r :
  stored p -> derive_key (master_key p) (scope_label s) = Ok k -> io_error io 0 = None -> io_error io 1 = None ->
  load_scope io s p = (p', r) ->
  conn p' = conn p /\ master_key p' = master_key p /\ stored p' /\ lockstep p' /\
  nodes (graph p') = filter (fun x => node_scope_id x.2 = s) (stored_nodes p) /\
  let es := filter (fun x => edge_scope_id x.2 = s) (stored_edges p) in
  match r with
  | Ok (n, m) => edges (graph p') = es /\ n = size (nodes (graph p')) /\ m = size es /\
      forall id e, es !! id = Some e -> connected (graph p') e
  | Err x => (exists d, x = DanglingEdge d) /\ exists id e, es !! id = Some e /\ ~ connected (graph p') e
  end.
Proof.
  intros Hst Hd H0 H1 Hload. rewrite load_scope_with in Hload.
  destruct (hash_filter_rows (node_rows (committed (conn p))) nr_scope_id s) as [Hsn Hin].
  destruct (hash_filter_rows (edge_rows (committed (conn p))) er_scope_id s) as [Hse Hie].
  pose proof (merge_sort_Permutation (created_le nr_created_at) (scope_nodes (committed (conn p)) s)) as Hpn.
  pose proof (merge_sort_Permutation (created_le er_created_at) (scope_edges (committed (conn p)) s)) as Hpe.
  destruct (load_with_spec _ _ _ _ _ _ _ _ _ Hst Hd H0 H1 (some_rows_perm _ _ _ _ _ Hpn Hsn)
    (some_rows_perm _ _ _ _ _ Hpe Hse) Hload) as (Hc & Hm & Hst' & Hns & Hes & Hr).
  cbv beta zeta in Hns, Hes, Hr. setoid_rewrite Hpn in Hns. setoid_rewrite Hpe in Hes.
  assert (Hsame : stored_nodes p' = stored_nodes p /\ stored_edges p' = stored_edges p)
    by (unfold stored_nodes, stored_edges; by rewrite Hc, Hm).
  destruct Hsame as [Hsn' Hse'].
  assert (Hnodes : nodes (graph p') = filter (fun x => node_scope_id x.2 = s) (stored_nodes p)).
  { apply map_eq_iff. intros id. apply option_eq. intros n. rewrite Hns, map_lookup_filter_Some. cbn.
    split; [tauto|]. intros [Hl Hs]. split_and!; [done..|]. by apply (stored_node_in p s id n). }
  assert (Hw : forall id e, filter (fun x => edge_scope_id x.2 = s) (stored_edges p) !! id = Some e <->
            stored_edges p !! id = Some e /\ edge_scope_id e = s /\ id ∈ (scope_edges (committed (conn p)) s).*1).
  { intros id e. rewrite map_lookup_filter_Some. cbn. split; [|tauto]. intros [Hl Hs].
    split_and!; [done..|]. by apply (stored_edge_in p s id e). }
  split_and!; [done..| |done|].
  { unfold lockstep. rewrite Hsn', Hse', Hnodes. split; [apply map_filter_subseteq|].
    apply map_subseteq_spec. intros id e He. by apply Hes. }
  cbv zeta. destruct r as [[n m]|x].
  - setoid_rewrite Hpe in Hr. destruct Hr as (-> & -> & Hall).
    assert (Hcon : forall id e, filter (fun x => edge_scope_id x.2 = s) (stored_edges p) !! id = Some e ->
              connected (graph p') e /\ edges (graph p') !! id = Some e).
    { intros id e He. apply Hw in He. specialize (Hall id e He). by case_decide. }
    assert (Heq : edges (graph p') = filter (fun x => edge_scope_id x.2 = s) (stored_edges p)).
    { apply map_eq_iff. intros id. apply option_eq. intros e. split; [|apply Hcon]. intros He. by apply Hw, Hes. }
    rewrite Heq. split_and!; [done..|]. intros id e He. by apply (Hcon id e).
  - setoid_rewrite Hpe in Hr. destruct Hr as (Hx & _ & id & e & He & Hnc). split; [done|]. exists id, e. split; [by apply Hw|done].
Qed.

Lemma decrypt_once_ok key s rows seen out :
  NoDup rows.*1 -> (forall id, id ∈ rows.*1 -> id ∉ seen) ->
  (forall id row, (id, row) ∈ rows -> exists e, edge_id e = id /\ open_edge key s id row = Ok e) ->
  exists es, decrypt_once key s rows seen out = Ok (out ++ es) /\
    Forall2 (fun x e => open_edge key s x.1 x.2 = Ok e /\ edge_id e = x.1) rows es.
Proof.
  revert seen out. induction rows as [|[id row] rows IH]; intros seen out Hnd Hnew Hopen; cbn [decrypt_once].
  { exists []. by rewrite (right_id_L [] (++)). }
  cbn in Hnd. apply NoDup_cons in Hnd as [Hid Hnd]. destruct (Hopen id row) as (e & He & Ho); [by left|].
  rewrite bool_decide_eq_false_2 by (apply Hnew; by left). rewrite Ho. cbn [try_result].
  destruct (IH ({[id]} ∪ seen) (out ++ [e])) as (es & Hl & HF); [done| | |].
  - intros i Hi. pose proof (Hnew i ltac:(by right)). set_solver.
  - intros i r Hi. apply Hopen. by right.
  - exists (e :: es). rewrite Hl, <- (assoc_L (++)). split; [done|]. by constructor.
Qed.

#[local] Instance created_id_le_trans {R} (created : R -> Z) : Transitive (created_id_le created).
Proof. intros a b c. unfold created_id_le. lia. Qed.
#[local] Instance created_id_le_total {R} (created : R -> Z) : Total (created_id_le created).
Proof. intros a b. unfold created_id_le. lia. Qed.

(** A page is a window of the scope's rows in the order of creation. *)
Lemma page_window {R} (created : R -> Z) limit offset (rows : list (uuid * R)) :
  exists ordered, ordered ≡ₚ rows /\ StronglySorted (created_id_le created) ordered /\
    page created limit offset rows = take (i64_from_usize limit) (drop (i64_from_usize offset) ordered).
Proof.
  exists (merge_sort (created_id_le created) rows). split_and!; [apply merge_sort_Permutation| |done].
  apply StronglySorted_merge_sort; apply _.
Qed.

(** ** The claims *)

(** C32: The graph and the database stay in lockstep.  Take any call but the
    addition of an edge under an id the graph already has ([readded_edge_lost]),
    with a codec that reads back what it writes, and let whatever SQL statements,
    encodings or encryptions of the call fail (BEGIN and COMMIT included, and
    however SQLite ends the transaction, unless the final ROLLBACK fails and
    leaves it open, [failed_rollback_loses_writes]): a call that returns an error leaves both as they were, the
    graph's adjacency lists and the superseded node's old contents included, and
    fails only for a fault or because the graph alone refuses it; a call that
    succeeds does to the graph what the graph alone would do, and to the disk the
    same change of the same rows and no other. *)
Theorem graph_lockstep io c p p' r :
  (forall n : ConceptNode Json, serde_roundtrips (Bytes := Bytes) n) ->
  (forall e : ConceptEdge Json, serde_roundtrips (Bytes := Bytes) e) ->
  stored p -> fresh_edge c (graph p) -> rollback_ok io -> exec io c p = (p', r) ->
  stored p' /\ (lockstep p -> lockstep p') /\
  match r with
  | Ok _ => in_memory c (graph p) = (graph p', Ok tt) /\
      (forall id, stored_nodes p' !! id
         = if decide (id ∈ touched_nodes c) then nodes (graph p') !! id else stored_nodes p !! id) /\
      (forall id, stored_edges p' !! id
         = if decide (id ∈ touched_edges c) then edges (graph p') !! id else stored_edges p !! id)
  | Err e => graph p' = graph p /\ conn p' = conn p /\ (fault e \/ is_ok (in_memory c (graph p)).2 = false)
  end.
Proof.
  intros Hn He Hst Hf Hr Hx. destruct (exec_outcome Hn He _ _ _ _ _ Hst Hf Hr Hx) as (Hm & Hst' & Hfol).
  split_and!; [done| |exact Hfol]. intros Hl. by eapply follows_lockstep.
Qed.

(** C33: What a session wrote comes back.  After any sequence of calls on a
    database of its own, failures included (but no failing ROLLBACK that leaves
    its transaction open and no edge added again under an id the graph has, and
    with a codec that reads back what it writes), reopening the database and loading a
    scope gives exactly the scope's nodes of the graph before, and, when no edge
    of the scope leaves it, exactly its edges with the right counts.  When one
    does, the load fails with [DanglingEdge], whatever the graph held. *)
Theorem graph_reload master io s k p q q' r :
  (forall n : ConceptNode Json, serde_roundtrips (Bytes := Bytes) n) ->
  (forall e : ConceptEdge Json, serde_roundtrips (Bytes := Bytes) e) ->
  session master p -> open (committed (conn p)) master = Ok q ->
  derive_key master (scope_label s) = Ok k -> io_error io 0 = None -> io_error io 1 = None ->
  load_scope io s q = (q', r) ->
  let es := filter (fun x => edge_scope_id x.2 = s) (edges (graph p)) in
  nodes (graph q') = filter (fun x => node_scope_id x.2 = s) (nodes (graph p)) /\
  match r with
  | Ok (n, m) => edges (graph q') = es /\ n = size (nodes (graph q')) /\ m = size es /\
      forall id e, es !! id = Some e -> connected (graph q') e
  | Err x => (exists d, x = DanglingEdge d) /\ exists id e, es !! id = Some e /\ ~ connected (graph q') e
  end.
Proof.
  intros Hn He Hs Ho Hd H0 H1 Hl. destruct (session_mirrors _ _ Hn He Hs) as (Hst & [Hmn Hme] & Hmk).
  rewrite <- Hmk in *. destruct (stored_reopen _ _ Hst Ho) as (Hq & Hg & Hm & Hsn & Hse). rewrite <- Hm in Hd.
  destruct (load_scope_spec _ _ _ _ _ _ Hq Hd H0 H1 Hl) as (_ & _ & _ & _ & Hnodes & Hr).
  rewrite Hsn, <- Hmn in Hnodes. rewrite Hse, <- Hme in Hr. by split.
Qed.

(** A page never fails, and shows what the window holds.  Loading a page
    of a scope gives the nodes of a window of the scope's rows in the order of
    their creation, and those edges of the corresponding window of edges whose
    endpoints are both among the nodes, with the right counts; the page before it
    is dropped from memory and the disk is not touched. *)
Theorem page_exact io s k limit offset p p' r :
  stored p -> derive_key (master_key p) (scope_label s) = Ok k -> io_error io 0 = None -> io_error io 1 = None ->
  load_scope_paginated io s limit offset p = (p', r) ->
  exists ns es, ns ≡ₚ scope_nodes (committed (conn p)) s /\ StronglySorted (created_id_le nr_created_at) ns /\
    es ≡ₚ scope_edges (committed (conn p)) s /\ StronglySorted (created_id_le er_created_at) es /\
    let window {R} (l : list (uuid * R)) := (take (i64_from_usize limit) (drop (i64_from_usize offset) l)).*1 in
    (forall id n, nodes (graph p') !! id = Some n <->
       stored_nodes p !! id = Some n /\ node_scope_id n = s /\ id ∈ window ns) /\
    (forall id e, edges (graph p') !! id = Some e <->
       stored_edges p !! id = Some e /\ edge_scope_id e = s /\ id ∈ window es /\ connected (graph p') e) /\
    r = Ok (size (nodes (graph p')), size (edges (graph p'))) /\ conn p' = conn p /\ stored p'.
Proof.
  intros Hst Hd H0 H1 Hload. rewrite load_page_with in Hload.
  destruct (hash_filter_rows (node_rows (committed (conn p))) nr_scope_id s) as [Hsn _].
  destruct (hash_filter_rows (edge_rows (committed (conn p))) er_scope_id s) as [Hse _].
  destruct (page_window nr_created_at limit offset (scope_nodes (committed (conn p)) s)) as (ns & Hpn & Hon & Hwn).
  destruct (page_window er_created_at limit offset (scope_edges (committed (conn p)) s)) as (es & Hpe & Hoe & Hwe).
  exists ns, es. split_and!; [done..|]. cbv zeta.
  assert (Hsub : forall {R} (l : list (uuid * R)) a b, take a (drop b l) `sublist_of` l).
  { intros R l a b. etransitivity; [apply sublist_take|apply sublist_drop]. }
  assert (Hrn : some_rows (node_rows (committed (conn p))) nr_scope_id s
      (page nr_created_at limit offset (scope_nodes (committed (conn p)) s))).
  { rewrite Hwn. eapply some_rows_sublist; [apply Hsub|by eapply some_rows_perm]. }
  assert (Hre : some_rows (edge_rows (committed (conn p))) er_scope_id s
      (page er_created_at limit offset (scope_edges (committed (conn p)) s))).
  { rewrite Hwe. eapply some_rows_sublist; [apply Hsub|by eapply some_rows_perm]. }
  destruct (load_with_spec _ _ _ _ _ _ _ _ _ Hst Hd H0 H1 Hrn Hre Hload)
    as (Hc & Hm & Hst' & Hns & Hes & Hr).
  cbv beta zeta in *. rewrite Hwn in Hns. rewrite Hwe in Hes, Hr. split; [exact Hns|].
  destruct r as [[n m]|x]; [|by destruct Hr as (_ & ? & _)]. destruct Hr as (-> & -> & Hall).
  split_and!; [|done..]. intros id e. split.
  - intros He. destruct (Hes id e He) as (? & ? & ?). split_and!; [done..|].
    by destruct (gw_edge _ (st_graph _ Hst') _ _ He) as (_ & ? & ?).
  - intros (Hl & Hs & Hw & Hcon). specialize (Hall id e (conj Hl (conj Hs Hw))). by rewrite decide_True in Hall.
Qed.

(** Neighbours are found without the graph.  [query_neighbors_from_disk]
    returns each edge of the scope that starts or ends in the node, once, and
    nothing else, whatever is loaded; it changes neither the graph nor the disk. *)
Theorem neighbors_from_disk_exact io s k x p p' r :
  stored p -> derive_key (master_key p) (scope_label s) = Ok k -> io_error io 0 = None ->
  query_neighbors_from_disk io s x p = (p', r) ->
  graph p' = graph p /\ conn p' = conn p /\
  exists l, r = Ok l /\ NoDup (edge_id <$> l) /\
    forall e, e ∈ l <-> stored_edges p !! edge_id e = Some e /\ edge_scope_id e = s /\ (edge_from e = x \/ edge_to e = x).
Proof.
  intros Hst Hd H0 Hq. pose proof (st_tables _ Hst) as Ht. unfold query_neighbors_from_disk, try_eff in Hq.
  destruct (scope_key s p) as [p1 [k'|?]] eqn:Es; destruct (scope_key_spec _ _ _ _ (st_keys _ Hst) Es) as (Hg & Hc & _ & _ & Hr);
    rewrite Hd in Hr; [injection Hr as ->|done].
  unfold query in Hq. rewrite H0, Hc in Hq. unfold view in Hq. rewrite (st_tx _ Hst) in Hq. injection Hq as <- <-.
  cbn [default from_option]. split_and!; [done..|].
  destruct (hash_filter_rows (edge_rows (committed (conn p))) er_scope_id s) as [Hse Hin].
  set (rows := incident_rows x _). assert (Hrows : some_rows (edge_rows (committed (conn p))) er_scope_id s rows).
  { eapply some_rows_perm; [apply merge_sort_Permutation|]. eapply some_rows_sublist; [apply sublist_filter|done]. }
  destruct (some_edges_iff _ _ _ _ _ Ht Hd Hrows) as [Hiff Hopen].
  destruct (decrypt_once_ok k s rows ∅ []) as (l & Hl & HF); [apply Hrows|set_solver|done|].
  unfold id. rewrite Hl. exists l. split; [done|].
  assert (Hids : edge_id <$> l = rows.*1) by (clear -HF; induction HF as [|? ? ? ? [_ ?]]; cbn; congruence).
  split; [rewrite Hids; apply Hrows|]. intros e.
  assert (Hmem : e ∈ l <-> exists row, (edge_id e, row) ∈ rows /\ open_edge k s (edge_id e) row = Ok e).
  { split.
    - intros (i & He)%list_elem_of_lookup. destruct (Forall2_lookup_r _ _ _ _ _ HF He) as ([id row] & Hrow & Ho & Hid).
      cbn in *. subst id. exists row. split; [by eapply list_elem_of_lookup_2|done].
    - intros (row & (i & Hrow)%list_elem_of_lookup & Ho). destruct (Forall2_lookup_l _ _ _ _ _ HF Hrow) as (e' & He' & Ho' & _).
      cbn in Ho'. rewrite Ho in Ho'. injection Ho' as ->. by eapply list_elem_of_lookup_2. }
  rewrite Hmem. unfold rows, incident_rows. setoid_rewrite merge_sort_Permutation.
  setoid_rewrite list_elem_of_filter. cbn [snd]. pose proof (edge_row_iff _ _ s k (edge_id e) e Ht Hd) as Hrow.
  assert (Hcols : forall row, edge_rows (committed (conn p)) !! edge_id e = Some row -> open_edge k s (edge_id e) row = Ok e ->
            er_scope_id row = s -> er_from_node row = edge_from e /\ er_to_node row = edge_to e).
  { intros row Hl' Ho Hs. destruct (to_edges _ _ Ht _ _ Hl') as (e' & Hid & Hr' & Hsc & Hf & Hto).
    rewrite Hid in Hr'. unfold read_edge in Hr'. rewrite Hs, Hd, Ho in Hr'. by injection Hr' as ->. }
  split.
  - intros (row & [Hinc Hi%Hin] & Ho). destruct Hi as [Hlk Hs]. destruct (Hcols row Hlk Ho Hs) as [<- <-].
    split_and!; [by apply Hrow; eauto|by apply Hrow; eauto|done].
  - intros (Hlk & Hs & Hinc). destruct (proj2 Hrow (conj Hlk Hs)) as (row & Hr' & Hsr & Ho).
    destruct (Hcols row Hr' Ho Hsr) as [Hf Hto]. exists row. rewrite Hf, Hto. split; [|done]. split; [done|]. by apply Hin.
Qed.
End Store.
Arguments PersistentConceptGraph Json Key Nonce Bytes : clear implicits.

(** ** Concrete runs *)

Module Concrete.
(** Keys are numbers, blobs a list of marks with the record; the cipher marks
    with the key. *)
Definition Blob : Type := list N * (ConceptNode unit + ConceptEdge unit).
#[export] Instance marking : Aead N unit Blob := keyed_aead _.
#[export] Instance node_codec : Serde Blob (ConceptNode unit) :=
  {| to_vec n := Some ([], inl n); from_slice b := match b.2 with inl n => Some n | inr _ => None end |}.
#[export] Instance edge_codec : Serde Blob (ConceptEdge unit) :=
  {| to_vec e := Some ([], inr e); from_slice b := match b.2 with inr e => Some e | inl _ => None end |}.
#[export] Instance letter_uuid : UuidText := { uuid_to_string u := String (Ascii.ascii_of_N u) EmptyString }.
#[export] Existing Instance hash_order_id.

(** The label's number for the scope, above the master key. *)
Definition kdf (master : N) (label : list N) : result N string := Ok (master + nth 6 label 0)%N.
Lemma node_codec_ok (n : ConceptNode unit) : serde_roundtrips (Bytes := Blob) n.
Proof. by intros b [= <-]. Qed.
Lemma edge_codec_ok (e : ConceptEdge unit) : serde_roundtrips (Bytes := Blob) e.
Proof. by intros b [= <-]. Qed.

Definition PCG : Type := PersistentConceptGraph unit N unit Blob.
Definition quiet : Io (Nonce := unit) := mk_io (fun _ => None) (fun _ => tt).
(** The statements listed fail, without ending the transaction. *)
Definition failing (l : list nat) : Io (Nonce := unit) :=
  mk_io (fun n => if decide (n ∈ l) then Some (mk_sql_error "disk I/O error" false) else None) (fun _ => tt).
Definition run (l : list (Io (Nonce := unit) * call (Json := unit))) (p : PCG) : PCG :=
  foldl (fun p x => (exec (derive_key := kdf) x.1 x.2 p).1) p l.
Definition closed : PCG := mk_persistent new (mk_conn empty_db None) ∅ 7%N.
Definition opened : PCG := match open empty_db 7%N with Ok p => p | Err _ => closed end.
Definition reopened (p : PCG) : PCG := match open (committed (conn p)) (master_key p) with Ok q => q | Err _ => closed end.

(** Two concepts of scope 1 and one of scope 2. *)
Definition rust : ConceptNode unit := new_candidate 11 0 "Rust" "a language" 1.
Definition ocaml : ConceptNode unit := new_candidate 12 1000000000 "OCaml" "a language" 1.
Definition tool : ConceptNode unit := new_candidate 21 0 "Rocq" "a prover" 2.
Definition written : PCG :=
  run [(quiet, AddNode rust); (quiet, AddNode ocaml); (quiet, AddNode tool); (failing [2%nat], Supersede 31 5 11 12);
       (quiet, Supersede 31 5 11 12); (quiet, AddEdge (new_edge 32 6 12 11 DerivedFrom 1))] opened.

Lemma session_exec io c (p : PCG) :
  session (derive_key := kdf) 7%N p -> fresh_edge c (graph p) -> rollback_ok io ->
  session (derive_key := kdf) 7%N (exec (derive_key := kdf) io c p).1.
Proof. intros Hs Hf Hr. eapply session_call; [exact Hs|exact Hf|exact Hr|apply surjective_pairing]. Qed.
Lemma written_session : session (derive_key := kdf) 7%N written.
Proof.
  unfold written, run. cbn [foldl fst snd].
  do 6 (apply session_exec; [|by vm_compute..]).
  by apply session_open.
Qed.
Lemma written_stored : stored (derive_key := kdf) written.
Proof. apply (session_mirrors (derive_key := kdf) 7%N written node_codec_ok edge_codec_ok written_session). Qed.

(** A superseding whose ROLLBACK is needed and works leaves nothing. *)
Lemma graph_lockstep_witness :
  let '(p, r) := exec (derive_key := kdf) (failing [3%nat]) (Supersede 33 9 12 11) written in
  (is_ok r = false) /\ graph p = graph written /\ conn p = conn written.
Proof.
  pose proof (graph_lockstep (derive_key := kdf) (failing [3%nat]) (Supersede 33 9 12 11) written _ _
    node_codec_ok edge_codec_ok written_stored ltac:(by vm_compute) ltac:(by vm_compute) (surjective_pairing _)) as H.
  assert (Hr : is_ok (exec (derive_key := kdf) (failing [3%nat]) (Supersede 33 9 12 11) written).2 = false) by by vm_compute.
  destruct (exec _ _ written) as [p [u|e]]; [done|]. cbn [fst snd] in H. destruct H as (_ & _ & Hg & Hc & _).
  exact (conj Hr (conj Hg Hc)).
Defined.

Lemma graph_reload_witness :
  let '(q, r) := load_scope (derive_key := kdf) quiet 1 (reopened written) in
  r = Ok (2%nat, 2%nat) /\ nodes (graph q) = filter (fun x => node_scope_id x.2 = 1%N) (nodes (graph written)).
Proof.
  pose proof (graph_reload (derive_key := kdf) 7%N quiet 1%N 8%N written (reopened written) _ _ node_codec_ok edge_codec_ok
    written_session ltac:(by vm_compute) ltac:(by vm_compute) eq_refl eq_refl (surjective_pairing _)) as H.
  assert (Hr : (load_scope (derive_key := kdf) quiet 1 (reopened written)).2 = Ok (2%nat, 2%nat)) by by vm_compute.
  destruct (load_scope _ _ _) as [q r]. cbn [fst snd] in *. subst r. split; [done|]. apply H.
Defined.

Lemma page_exact_witness :
  let '(q, r) := load_scope_paginated (derive_key := kdf) quiet 1 1 1 written in
  r = Ok (1%nat, 0%nat) /\ exists ns, ns ≡ₚ scope_nodes (committed (conn written)) 1 /\
    forall id n, nodes (graph q) !! id = Some n <->
      stored_nodes (derive_key := kdf) written !! id = Some n /\ node_scope_id n = 1%N /\ id ∈ (take 1 (drop 1 ns)).*1.
Proof.
  pose proof (page_exact (derive_key := kdf) quiet 1%N 8%N 1%N 1%N written _ _ written_stored
    ltac:(by vm_compute) eq_refl eq_refl (surjective_pairing _)) as H.
  assert (Hr : (load_scope_paginated (derive_key := kdf) quiet 1 1 1 written).2 = Ok (1%nat, 0%nat)) by by vm_compute.
  destruct (load_scope_paginated _ _ _ _ _) as [q r]. cbn [fst snd] in *. subst r. split; [exact eq_refl|].
  destruct H as (ns & es & Hp & _ & _ & _ & Hns & _). exists ns. split; [exact Hp|exact Hns].
Defined.

Lemma neighbors_from_disk_exact_witness :
  let '(q, r) := query_neighbors_from_disk (derive_key := kdf) quiet 1 11 (reopened written) in
  exists l, r = Ok l /\ edge_id <$> l = [31; 32]%N /\
    forall e, e ∈ l <-> stored_edges (derive_key := kdf) (reopened written) !! edge_id e = Some e /\
      edge_scope_id e = 1%N /\ (edge_from e = 11%N \/ edge_to e = 11%N).
Proof.
  assert (Hq : stored (derive_key := kdf) (reopened written)).
  { apply (stored_reopen (derive_key := kdf) written _ written_stored). by vm_compute. }
  pose proof (neighbors_from_disk_exact (derive_key := kdf) quiet 1%N 8%N 11%N (reopened written) _ _ Hq
    ltac:(by vm_compute) eq_refl (surjective_pairing _)) as H.
  assert (Hr : result_map (fmap edge_id) (query_neighbors_from_disk (derive_key := kdf) quiet 1 11 (reopened written)).2
    = Ok [31; 32]%N) by by vm_compute.
  destruct (query_neighbors_from_disk _ _ _ _) as [q r]. cbn [fst snd] in *.
  destruct H as (_ & _ & l & -> & _ & Hl). exists l. split; [exact eq_refl|]. split; [|exact Hl]. by injection Hr.
Defined.

(** [edge.rs] keeps the scope on an edge so that edges across scopes are
    explicit, and [add_edge] accepts one; but no restart can load its scope
    afterwards, because [load_scope] loads one scope's nodes and refuses an edge
    that leaves them.  The page of the same rows skips it. *)
Example cross_scope_edge_unloadable :
  let p := run [(quiet, AddEdge (new_edge 40 7 11 21 DerivedFrom 1))] written in
  (edge_id <$> edges (graph p)) !! 40%N = Some 40%N /\
  (load_scope (derive_key := kdf) quiet 1 (reopened p)).2 = Err (DanglingEdge 21) /\
  (load_scope_paginated (derive_key := kdf) quiet 1 100 0 (reopened p)).2 = Ok (2%nat, 2%nat).
Proof. by vm_compute. Qed.

(** When COMMIT and the ROLLBACK after it both fail the transaction stays open:
    the next write is accepted, and lost with it. *)
Example failed_rollback_loses_writes :
  let p := run [(failing [3; 4]%nat, Supersede 33 9 12 11);
                (quiet, AddNode (new_candidate 13 3 "Coq" "a prover" 1))] written in
  (node_label <$> nodes (graph p)) !! 13%N = Some "Coq" /\
  stored_nodes (derive_key := kdf) (reopened p) !! 13%N = None /\
  (exec (derive_key := kdf) quiet (Supersede 34 10 12 11) p).2
    = Err (Sqlite "cannot start a transaction within a transaction").
Proof. by vm_compute. Qed.

(** Adding an edge again under the id it has (a new confidence, say) replaces it;
    when that write fails, the undoing removes the edge that was there before:
    memory has lost what the disk still holds. *)
Example readded_edge_lost :
  let e := new_edge 32 6 12 11 DerivedFrom 1 in
  let '(p, r) := exec (derive_key := kdf) (failing [0%nat]) (AddEdge e) written in
  is_ok r = false /\ (edge_id <$> edges (graph written)) !! 32%N = Some 32%N /\
  (edge_id <$> edges (graph p)) !! 32%N = None /\ (edge_id <$> stored_edges (derive_key := kdf) p) !! 32%N = Some 32%N.
Proof. by vm_compute. Qed.

(** The tags of the [state] column read back. *)
Example node_state_tags s : node_state_from_tag (node_state_str s) = Some s.
Proof. by destruct s. Qed.
End Concrete.
