(* ===== verification/Memory.v ===== *)
(** * The memory lifecycle ([memory_manager/src/object.rs], [state.rs],
    [transitions.rs], [retention.rs], [error.rs])

    Memory objects, the decay state machine and the retention score in
    binary64.  The exponential is the platform's [exp], a parameter; adding a
    duration to a date never leaves the range of dates (the code panics
    there). *)

From S2P Require Import Prelude Float.

(** ** Data *)

(** [enum MemoryState], [enum SensitivityClass], [enum MemoryError]. *)
Inductive MemoryState : Type :=
| Candidate | Reinforced | Consolidated | Canonical | Superseded | Archived | Deleted.
Inductive SensitivityClass : Type := Critical | Important | Useful | Noise.
Inductive MemoryError : Type :=
| InvalidTransition (from to : MemoryState)
| NotFound (id : uuid)
| NonFiniteRetentionScore
| Validation (msg : string).

#[export] Instance MemoryState_eq_dec : EqDecision MemoryState.
Proof. solve_decision. Defined.
#[export] Instance SensitivityClass_eq_dec : EqDecision SensitivityClass.
Proof. solve_decision. Defined.

(** [MemoryState::as_str], [parse_tag] (also [from_str]), [SensitivityClass::as_str]. *)
Definition state_str (s : MemoryState) : string :=
  match s with
  | Candidate => "candidate"
  | Reinforced => "reinforced"
  | Consolidated => "consolidated"
  | Canonical => "canonical"
  | Superseded => "superseded"
  | Archived => "archived"
  | Deleted => "deleted"
  end.
Definition parse_tag (s : string) : option MemoryState :=
  if String.eqb s "candidate" then Some Candidate
  else if String.eqb s "reinforced" then Some Reinforced
  else if String.eqb s "consolidated" then Some Consolidated
  else if String.eqb s "canonical" then Some Canonical
  else if String.eqb s "superseded" then Some Superseded
  else if String.eqb s "archived" then Some Archived
  else if String.eqb s "deleted" then Some Deleted
  else None.
Definition class_str (c : SensitivityClass) : string :=
  match c with
  | Critical => "critical"
  | Important => "important"
  | Useful => "useful"
  | Noise => "noise"
  end.

(** What the code asks of [serde_json::Value]: [Null], and
    [v.get(key).and_then(as_bool)]. *)
Class JsonFlags (Json : Type) := {
  json_null : Json;
  json_flag : Json -> string -> option bool
}.

(** [f64::exp]. *)
Class Libm := { f64_exp : f64 -> f64 }.

(** [Duration::days]; [Duration::num_seconds] truncates toward zero. *)
Definition days (n : Z) : duration := (n * 86400000000000)%Z.
Definition num_seconds (d : duration) : Z := Z.quot d 1000000000.

Section Memory.
Context {Json : Type} {JF : JsonFlags Json}.

(** [struct MemoryObject]. *)
Record MemoryObject : Type := mk_object {
  id : uuid;
  scope_id : uuid;
  state : MemoryState;
  sensitivity_class : SensitivityClass;
  retention_score : f64;
  created_at : instant;
  last_accessed_at : instant;
  consolidated_at : option instant;
  retrieval_count : N;
  pin_count : N;
  corroboration_count : N;
  source_refs : list uuid;
  corroboration_sources : list string;
  superseded_by : option uuid;
  metadata : Json
}.

(** Field updates. *)
Definition with_state (o : MemoryObject) (s : MemoryState) : MemoryObject :=
  mk_object (id o) (scope_id o) s (sensitivity_class o) (retention_score o) (created_at o)
    (last_accessed_at o) (consolidated_at o) (retrieval_count o) (pin_count o) (corroboration_count o)
    (source_refs o) (corroboration_sources o) (superseded_by o) (metadata o).
Definition with_score (o : MemoryObject) (x : f64) : MemoryObject :=
  mk_object (id o) (scope_id o) (state o) (sensitivity_class o) x (created_at o)
    (last_accessed_at o) (consolidated_at o) (retrieval_count o) (pin_count o) (corroboration_count o)
    (source_refs o) (corroboration_sources o) (superseded_by o) (metadata o).
Definition with_access (o : MemoryObject) (t : instant) : MemoryObject :=
  mk_object (id o) (scope_id o) (state o) (sensitivity_class o) (retention_score o) (created_at o)
    t (consolidated_at o) (retrieval_count o) (pin_count o) (corroboration_count o)
    (source_refs o) (corroboration_sources o) (superseded_by o) (metadata o).
Definition with_consolidated (o : MemoryObject) (t : option instant) : MemoryObject :=
  mk_object (id o) (scope_id o) (state o) (sensitivity_class o) (retention_score o) (created_at o)
    (last_accessed_at o) t (retrieval_count o) (pin_count o) (corroboration_count o)
    (source_refs o) (corroboration_sources o) (superseded_by o) (metadata o).
Definition with_superseded_by (o : MemoryObject) (s : option uuid) : MemoryObject :=
  mk_object (id o) (scope_id o) (state o) (sensitivity_class o) (retention_score o) (created_at o)
    (last_accessed_at o) (consolidated_at o) (retrieval_count o) (pin_count o) (corroboration_count o)
    (source_refs o) (corroboration_sources o) s (metadata o).
Definition with_counts (o : MemoryObject) (retrievals corroborations : N) (sources : list string) :
    MemoryObject :=
  mk_object (id o) (scope_id o) (state o) (sensitivity_class o) (retention_score o) (created_at o)
    (last_accessed_at o) (consolidated_at o) retrievals (pin_count o) corroborations
    (source_refs o) sources (superseded_by o) (metadata o).

(** [MemoryObject::new_candidate] with the id and the time it draws. *)
Definition new_candidate (fresh : uuid) (now : instant) (scope : uuid) (c : SensitivityClass) : MemoryObject :=
  mk_object fresh scope Candidate c (f64_of_Z 0) now now None 0 0 0 [] [] None json_null.

(** [record_retrieval], [record_corroboration],
    [record_corroboration_from_source]. *)
Definition record_retrieval (now : instant) (o : MemoryObject) : MemoryObject :=
  with_access (with_counts o (u32_saturating_add (retrieval_count o) 1) (corroboration_count o)
                 (corroboration_sources o)) now.
Definition record_corroboration (now : instant) (o : MemoryObject) : MemoryObject :=
  with_access (with_counts o (retrieval_count o) (u32_saturating_add (corroboration_count o) 1)
                 (corroboration_sources o)) now.
Definition record_corroboration_from_source (fingerprint : string) (now : instant) (o : MemoryObject) :
    MemoryObject * bool :=
  if existsb (fun s => String.eqb s fingerprint) (corroboration_sources o) then (with_access o now, false)
  else
    (with_access (with_counts o (retrieval_count o) (u32_saturating_add (corroboration_count o) 1)
                    (corroboration_sources o ++ [fingerprint])) now, true).

(** ** The state machine *)

(** [MemoryStateMachine::expect]. *)
Definition expect (allowed_from : list MemoryState) (to : MemoryState) :
    eff MemoryObject MemoryError MemoryState := fun o =>
  if negb (bool_decide (state o ∈ allowed_from)) then (o, Err (InvalidTransition (state o) to))
  else (with_state o to, Ok to).

Definition reinforce : eff MemoryObject MemoryError MemoryState := expect [Candidate] Reinforced.
Definition archive_candidate : eff MemoryObject MemoryError MemoryState := expect [Candidate] Archived.
Definition consolidate (now : instant) : eff MemoryObject MemoryError MemoryState := fun o =>
  match expect [Reinforced] Consolidated o with
  | (o, Ok s) => (with_consolidated o (Some now), Ok s)
  | (o, Err e) => (o, Err e)
  end.
Definition canonicalize : eff MemoryObject MemoryError MemoryState := expect [Consolidated] Canonical.
Definition supersede (by_ : uuid) (now : instant) : eff MemoryObject MemoryError MemoryState := fun o =>
  match expect [Canonical] Superseded o with
  | (o, Ok s) => (with_access (with_superseded_by o (Some by_)) now, Ok s)
  | (o, Err e) => (o, Err e)
  end.
Definition delete_canonical : eff MemoryObject MemoryError MemoryState := expect [Canonical] Deleted.
Definition archive_superseded : eff MemoryObject MemoryError MemoryState := expect [Superseded] Archived.
Definition delete_archived : eff MemoryObject MemoryError MemoryState := expect [Archived] Deleted.
Definition archive : eff MemoryObject MemoryError MemoryState :=
  expect [Candidate; Reinforced; Consolidated; Canonical; Superseded] Archived.
Definition delete : eff MemoryObject MemoryError MemoryState :=
  expect [Candidate; Reinforced; Consolidated; Canonical; Superseded; Archived] Deleted.
Definition resurrect (now : instant) : eff MemoryObject MemoryError MemoryState := fun o =>
  match expect [Archived] Reinforced o with
  | (o, Ok s) => (with_access (with_superseded_by o None) now, Ok s)
  | (o, Err e) => (o, Err e)
  end.

(** ** The retention score *)

(** [struct RetentionScore], [struct RetentionWeights]. *)
Record RetentionScore : Type := mk_score {
  total : f64;
  s_pinning : f64;
  s_retrieval_frequency : f64;
  s_corroboration : f64;
  s_contradiction : f64;
  s_age : f64;
  s_non_use : f64
}.
Record RetentionWeights : Type := mk_weights {
  w_pinning : f64;
  w_retrieval_frequency : f64;
  w_corroboration : f64;
  w_contradiction : f64;
  w_age : f64;
  w_non_use : f64
}.
Definition default_weights : RetentionWeights :=
  mk_weights (f64_lit 1 2) (f64_lit 15 100) (f64_lit 10 100) (f64_lit 5 100) (f64_lit 10 100)
    (f64_lit 10 100).

(** [struct DecayProfile] and its constructors, [half_life_seconds],
    [non_use_half_life_seconds]. *)
Record DecayProfile : Type := mk_profile {
  critical_half_life_days : f64;
  important_half_life_days : f64;
  useful_half_life_days : f64;
  noise_half_life_days : f64;
  non_use_half_life_days : f64
}.
Definition default_profile : DecayProfile :=
  mk_profile (f64_of_Z 36500) (f64_mul (f64_of_Z 365) (f64_of_Z 2)) (f64_of_Z 30) (f64_of_Z 1)
    (f64_of_Z 14).
Definition high_context : DecayProfile :=
  mk_profile (f64_of_Z 36500) (f64_mul (f64_of_Z 365) (f64_of_Z 3)) (f64_of_Z 60) (f64_of_Z 3)
    (f64_of_Z 21).
Definition low_context : DecayProfile :=
  mk_profile (f64_of_Z 36500) (f64_mul (f64_of_Z 365) (f64_lit 3 2)) (f64_of_Z 21) (f64_lit 1 2)
    (f64_of_Z 10).
Definition half_life_seconds (p : DecayProfile) (c : SensitivityClass) : f64 :=
  let d := match c with
           | Critical => critical_half_life_days p
           | Important => important_half_life_days p
           | Useful => useful_half_life_days p
           | Noise => noise_half_life_days p
           end in
  f64_mul d (f64_of_Z 86400).
Definition non_use_half_life_seconds (p : DecayProfile) : f64 :=
  f64_mul (non_use_half_life_days p) (f64_of_Z 86400).

(** [half_life_seconds_for_class]. *)
Definition half_life_seconds_for_class (o : MemoryObject) : f64 :=
  let d := match sensitivity_class o with
           | Critical => f64_of_Z 36500
           | Important => f64_mul (f64_of_Z 365) (f64_of_Z 2)
           | Useful => f64_of_Z 30
           | Noise => f64_of_Z 1
           end in
  f64_mul d (f64_of_Z 86400).

(** [std::f64::consts::LN_2], bit pattern 0x3FE62E42FEFA39EF. *)
Definition LN_2 : f64 := S754_finite false 6243314768165359 (-53).

Context {LM : Libm}.

(** [decay]. *)
Definition decay (elapsed_seconds half_life : f64) : f64 :=
  if f64_leb half_life (f64_of_Z 0) then f64_of_Z 0
  else
    f64_clamp (f64_exp (f64_mul (f64_div (f64_opp elapsed_seconds) half_life) LN_2))
      (f64_of_Z 0) (f64_of_Z 1).

(** The body [compute_with_weights] and [compute_with_weights_and_profile]
    share, given the two half-lives. *)
Definition score_with (o : MemoryObject) (now : instant) (w : RetentionWeights)
    (age_half_life non_use_half_life : f64) : RetentionScore :=
  let one := f64_of_Z 1 in
  let zero := f64_of_Z 0 in
  let pinning := if (0 <? pin_count o)%N then one else zero in
  let retrieval_frequency := f64_min (f64_div (f64_of_N (retrieval_count o)) (f64_of_Z 5)) one in
  let corroboration := f64_min (f64_div (f64_of_N (corroboration_count o)) (f64_of_Z 3)) one in
  let contradiction :=
    if bool_decide (json_flag (metadata o) "contradicted" = Some true) then zero else one in
  let age_seconds := f64_of_Z (Z.max (num_seconds (now - created_at o)) 0) in
  let age := decay age_seconds age_half_life in
  let non_use_seconds := f64_of_Z (Z.max (num_seconds (now - last_accessed_at o)) 0) in
  let non_use := decay non_use_seconds non_use_half_life in
  let weighted :=
    f64_add (f64_add (f64_add (f64_add (f64_add
      (f64_mul (w_pinning w) pinning)
      (f64_mul (w_retrieval_frequency w) retrieval_frequency))
      (f64_mul (w_corroboration w) corroboration))
      (f64_mul (w_contradiction w) contradiction))
      (f64_mul (w_age w) age))
      (f64_mul (w_non_use w) non_use) in
  let total := if (0 <? pin_count o)%N then f64_clamp (f64_max weighted (f64_lit 9 10)) zero one
               else f64_clamp weighted zero one in
  mk_score total pinning retrieval_frequency corroboration contradiction age non_use.

(** [compute_with_weights], [compute_retention_score],
    [compute_with_weights_and_profile], [compute_with_profile]. *)
Definition compute_with_weights (o : MemoryObject) (now : instant) (w : RetentionWeights) : RetentionScore :=
  score_with o now w (half_life_seconds_for_class o) (f64_of_Z (num_seconds (days 14))).
Definition compute_retention_score (o : MemoryObject) (now : instant) : RetentionScore :=
  compute_with_weights o now default_weights.
Definition compute_with_weights_and_profile (o : MemoryObject) (now : instant) (w : RetentionWeights)
    (p : DecayProfile) : RetentionScore :=
  score_with o now w (half_life_seconds p (sensitivity_class o)) (non_use_half_life_seconds p).
Definition compute_with_profile (o : MemoryObject) (now : instant) (p : DecayProfile) : RetentionScore :=
  compute_with_weights_and_profile o now default_weights p.

End Memory.
Arguments MemoryObject Json : clear implicits.

Section MemoryFacts.
Context {Json : Type} {JF : JsonFlags Json} {LM : Libm}.
Implicit Types (o : MemoryObject Json).

(** ** The score stays in the unit interval *)

(** What is documented of [exp]: a NaN result only on a NaN argument. *)
Definition exp_total : Prop := forall x, f64_is_nan x = false -> f64_is_nan (f64_exp x) = false.

Lemma decay_in_unit elapsed m e :
  exp_total -> signed false elapsed -> in_unit (decay elapsed (S754_finite false m e)).
Proof.
  intros Hexp He. unfold decay. case_match; [by split|]. apply clamp_in_unit, Hexp.
  apply f64_opp_signed in He. apply (f64_div_signed _ false _ m e) in He.
  unfold LN_2. eapply signed_not_nan, f64_mul_signed, He.
Qed.

(** A weighted component: a positive weight times a number in the unit interval. *)
Lemma weighted_signed m e x : in_unit x -> signed false (f64_mul (S754_finite false m e) x).
Proof. intros Hx. apply (f64_mul_comm_signed false false), in_unit_signed, Hx. Qed.

Definition positive_float (x : f64) : Prop := exists m e, x = S754_finite false m e.

Lemma score_components o now w age_hl non_use_hl :
  exp_total -> positive_float age_hl -> positive_float non_use_hl ->
  let s := score_with o now w age_hl non_use_hl in
  in_unit (s_pinning s) /\ in_unit (s_retrieval_frequency s) /\ in_unit (s_corroboration s) /\
  in_unit (s_contradiction s) /\ in_unit (s_age s) /\ in_unit (s_non_use s).
Proof.
  intros Hexp (m1 & e1 & ->) (m2 & e2 & ->). cbn.
  split_and!.
  - by case_match.
  - apply min_one_in_unit, (f64_div_signed false false), f64_of_N_signed.
  - apply min_one_in_unit, (f64_div_signed false false), f64_of_N_signed.
  - by case_match.
  - apply decay_in_unit; [done|apply f64_of_Z_signed; lia].
  - apply decay_in_unit; [done|apply f64_of_Z_signed; lia].
Qed.

Lemma score_total_in_unit o now w age_hl non_use_hl :
  exp_total -> positive_float age_hl -> positive_float non_use_hl ->
  positive_float (w_pinning w) -> positive_float (w_retrieval_frequency w) ->
  positive_float (w_corroboration w) -> positive_float (w_contradiction w) ->
  positive_float (w_age w) -> positive_float (w_non_use w) ->
  let t := total (score_with o now w age_hl non_use_hl) in
  in_unit t /\ ((0 < pin_count o)%N -> f64_leb (f64_lit 9 10) t = true).
Proof.
  intros Hexp Ha Hn (m1 & e1 & H1) (m2 & e2 & H2) (m3 & e3 & H3) (m4 & e4 & H4) (m5 & e5 & H5) (m6 & e6 & H6).
  destruct (score_components o now w _ _ Hexp Ha Hn) as (C1 & C2 & C3 & C4 & C5 & C6).
  unfold score_with in *. cbn [total s_pinning s_retrieval_frequency s_corroboration s_contradiction s_age
    s_non_use] in *. rewrite H1, H2, H3, H4, H5, H6.
  match goal with |- context [f64_max ?w _] => set (wt := w) end.
  assert (Hw : signed false wt).
  { unfold wt. repeat apply f64_add_signed; by apply weighted_signed. }
  clearbody wt. assert (H9 : in_unit (f64_lit 9 10)) by (by split).
  destruct (N.ltb_spec 0 (pin_count o)) as [Hp|Hp].
  - split; [|intros _; by apply clamp_max_lower].
    eapply clamp_in_unit, signed_not_nan, f64_max_signed; [exact Hw|by apply in_unit_signed].
  - split; [|lia]. by eapply clamp_in_unit, signed_not_nan.
Qed.

(** Scores are scores.  For any object and any time, whatever [exp] rounds to
    as long as it is not NaN, the retention score and each of its six components
    lie between 0 and 1 and are not NaN; and a pinned object scores at least 0.9
    however old or unused it is.  The same holds under every built-in decay
    profile. *)
Theorem retention_score_bounds o now :
  exp_total ->
  forall s, s ∈ [compute_retention_score o now; compute_with_profile o now default_profile;
                 compute_with_profile o now high_context; compute_with_profile o now low_context] ->
  in_unit (total s) /\ ((0 < pin_count o)%N -> f64_leb (f64_lit 9 10) (total s) = true) /\
  in_unit (s_pinning s) /\ in_unit (s_retrieval_frequency s) /\ in_unit (s_corroboration s) /\
  in_unit (s_contradiction s) /\ in_unit (s_age s) /\ in_unit (s_non_use s).
Proof.
  intros Hexp s Hs.
  assert (Hex : exists a n, positive_float a /\ positive_float n /\ s = score_with o now default_weights a n).
  { rewrite !elem_of_cons, elem_of_nil in Hs.
    destruct Hs as [->|[->|[->|[->|[]]]]]; eexists _, _; (split_and!; [| |reflexivity]);
      try (unfold half_life_seconds_for_class; destruct (sensitivity_class o));
      try (unfold half_life_seconds; destruct (sensitivity_class o));
      vm_compute; eexists _, _; reflexivity. }
  destruct Hex as (a & n & Ha & Hn & ->).
  destruct (score_total_in_unit o now default_weights a n Hexp Ha Hn) as [Ht Hp];
    [vm_compute; by eexists _, _..|].
  split; [exact Ht|]. split; [exact Hp|]. by apply score_components.
Qed.

End MemoryFacts.

(** ** A concrete object *)

Section Demo.
#[local] Instance unit_flags : JsonFlags unit := {| json_null := tt; json_flag _ _ := None |}.
#[local] Instance unit_exp : Libm := {| f64_exp _ := f64_of_Z 1 |}.

Definition pinned_object : MemoryObject unit :=
  mk_object 1 7 Candidate Noise (f64_of_Z 0) 0 0 None 0 1 0 [] [] None tt.

Lemma retention_score_bounds_witness :
  f64_leb (f64_lit 9 10) (total (compute_retention_score pinned_object (days 3650))) = true.
Proof.
  refine (proj1 (proj2 (retention_score_bounds pinned_object (days 3650) _
            (compute_retention_score pinned_object (days 3650)) _)) _).
  - intros x _. reflexivity.
  - left.
  - reflexivity.
Defined.
End Demo.
