(* ===== verification/MemoryPolicy.v ===== *)
(** * Retention policies and sweeps ([memory_manager/src/policy.rs],
    [decay.rs], [purge.rs])

    The policy engine, its decision for one object, and the three passes that
    apply decisions to a slice of objects: the plain decay sweep, the
    policy-driven sweep and the purge of archived objects. *)

From S2P Require Import Prelude Memory.

(** ** Data *)

(** [enum PolicyScope], [enum PolicyDecision]. *)
Inductive PolicyScope : Type := Global | PTenant | PScope | PUser.
Inductive PolicyDecision : Type :=
| Keep | Archive | Delete | Resurrect | PromoteToReinforced | PromoteToConsolidated | PromoteToCanonical.
#[export] Instance PolicyDecision_eq_dec : EqDecision PolicyDecision.
Proof. solve_decision. Defined.

(** [struct RetentionPolicy]. *)
Record RetentionPolicy : Type := mk_policy {
  policy_id : uuid;
  policy_name : string;
  policy_scope : PolicyScope;
  target_id : option uuid;
  priority : N;
  candidate_archive_threshold : f64;
  superseded_archive_after : duration;
  canonical_min_retention : duration;
  archived_max_retention : option duration;
  promote_to_reinforced_after_retrievals : N;
  promote_to_consolidated_after_sources : N;
  promote_to_canonical_after_stable : option duration;
  legal_hold : bool;
  legal_hold_until : option instant;
  minimum_retention_until : option instant;
  maximum_retention_until : option instant;
  allow_resurrection : bool;
  resurrection_retrieval_threshold : N;
  archive_on_events : list string;
  delete_on_events : list string;
  preserve_on_events : list string
}.

(** The three built-in policies; [fresh] is the id [Uuid::new_v4] draws. *)
Definition global_default : RetentionPolicy :=
  mk_policy 0x00010000000000000000000000000001 "global-default" Global None 0
    (f64_lit 15 100) (days 90) (days 365) None 3 2 (Some (days 7))
    false None None None true 1 [] [] [].
Definition b2b_default (fresh : uuid) : RetentionPolicy :=
  mk_policy fresh "b2b-default" PTenant None 100
    (f64_lit 10 100) (days 365) (days (365 * 7)) (Some (days (365 * 10))) 5 3 None
    false None None None true 1 ["project_closed"%string] [] ["litigation_hold"%string].
Definition b2c_default (fresh : uuid) : RetentionPolicy :=
  mk_policy fresh "b2c-default" PTenant None 100
    (f64_lit 20 100) (days 30) (days 365) (Some (days (365 * 3))) 2 2 (Some (days 1))
    false None None None true 1 ["account_closed"%string] ["user_requested_deletion"%string] [].

(** A hold and its optional end, as [RetentionPolicy::legal_hold_active] and
    [ScopeRetentionState::legal_hold_active] both read them. *)
Definition hold_active (hold : bool) (until : option instant) (now : instant) : bool :=
  if negb hold then false
  else match until with Some t => (now <? t)%Z | None => true end.
Definition legal_hold_active (p : RetentionPolicy) (now : instant) : bool :=
  hold_active (legal_hold p) (legal_hold_until p) now.

(** [minimum_retention_until_for], [in_minimum_retention],
    [in_explicit_minimum_retention], [past_maximum_retention]. *)
Definition minimum_retention_until_for (p : RetentionPolicy) (created : instant) : option instant :=
  match minimum_retention_until p with
  | Some t => Some t
  | None => Some (created + canonical_min_retention p)%Z
  end.
Definition in_explicit_minimum_retention (p : RetentionPolicy) (now : instant) : bool :=
  match minimum_retention_until p with Some t => (now <? t)%Z | None => false end.
Definition past_maximum_retention (p : RetentionPolicy) (now : instant) : bool :=
  match maximum_retention_until p with Some t => (t <=? now)%Z | None => false end.

(** [struct ScopeRetentionState] and its default. *)
Record ScopeRetentionState : Type := mk_scope_state {
  ss_scope_id : uuid;
  ss_policy_id : option uuid;
  ss_legal_hold : bool;
  ss_legal_hold_until : option instant;
  active_events : list string;
  event_timestamps : gmap string instant
}.
Definition default_scope_state : ScopeRetentionState := mk_scope_state 0 None false None [] ∅.
Definition scope_hold_active (s : ScopeRetentionState) (now : instant) : bool :=
  hold_active (ss_legal_hold s) (ss_legal_hold_until s) now.

(** [struct PolicyEngine]. *)
Record PolicyEngine : Type := mk_engine {
  policies : gmap uuid RetentionPolicy;
  scope_states : gmap uuid ScopeRetentionState;
  tenant_policies : gmap uuid uuid;
  default_policy : RetentionPolicy
}.
Definition new : PolicyEngine :=
  mk_engine {[policy_id global_default := global_default]} ∅ ∅ global_default.

(** ** The engine *)

(** [register_policy]. *)
Definition register_policy (p : RetentionPolicy) (g : PolicyEngine) : PolicyEngine :=
  mk_engine (<[policy_id p := p]> (policies g)) (scope_states g) (tenant_policies g) (default_policy g).

(** [self.scope_state.entry(scope).or_insert_with(default)], then [f] on it
    with its [scope_id] set. *)
Definition on_scope (scope : uuid) (f : ScopeRetentionState -> ScopeRetentionState) (g : PolicyEngine) :
    PolicyEngine :=
  let s := default default_scope_state (scope_states g !! scope) in
  let s := mk_scope_state scope (ss_policy_id s) (ss_legal_hold s) (ss_legal_hold_until s)
             (active_events s) (event_timestamps s) in
  mk_engine (policies g) (<[scope := f s]> (scope_states g)) (tenant_policies g) (default_policy g).

Section Engine.
Context {UT : UuidText}.

Definition not_registered (id : uuid) : string :=
  String.append "policy " (String.append (uuid_to_string id) " not registered").

(** [set_tenant_policy], [set_scope_policy]. *)
Definition set_tenant_policy (tenant policy : uuid) : eff PolicyEngine string unit := fun g =>
  match policies g !! policy with
  | None => (g, Err (not_registered policy))
  | Some _ =>
      (mk_engine (policies g) (scope_states g) (<[tenant := policy]> (tenant_policies g))
         (default_policy g), Ok tt)
  end.
Definition set_scope_policy (scope policy : uuid) : eff PolicyEngine string unit := fun g =>
  match policies g !! policy with
  | None => (g, Err (not_registered policy))
  | Some _ =>
      (on_scope scope (fun s => mk_scope_state (ss_scope_id s) (Some policy) (ss_legal_hold s)
         (ss_legal_hold_until s) (active_events s) (event_timestamps s)) g, Ok tt)
  end.
End Engine.

(** [set_legal_hold], [add_event], [clear_event]. *)
Definition set_legal_hold (scope : uuid) (hold : bool) (until : option instant) (g : PolicyEngine) :
    PolicyEngine :=
  on_scope scope (fun s => mk_scope_state (ss_scope_id s) (ss_policy_id s) hold until
    (active_events s) (event_timestamps s)) g.
Definition add_event (scope : uuid) (event : string) (at_ : instant) (g : PolicyEngine) : PolicyEngine :=
  on_scope scope (fun s => mk_scope_state (ss_scope_id s) (ss_policy_id s) (ss_legal_hold s)
    (ss_legal_hold_until s)
    (if existsb (fun e => String.eqb e event) (active_events s) then active_events s
     else active_events s ++ [event])
    (<[event := at_]> (event_timestamps s))) g.
Definition clear_event (scope : uuid) (event : string) (g : PolicyEngine) : PolicyEngine :=
  match scope_states g !! scope with
  | None => g
  | Some s =>
      let s := mk_scope_state (ss_scope_id s) (ss_policy_id s) (ss_legal_hold s) (ss_legal_hold_until s)
                 (base.filter (fun e => e <> event) (active_events s))
                 (base.delete event (event_timestamps s)) in
      mk_engine (policies g) (<[scope := s]> (scope_states g)) (tenant_policies g) (default_policy g)
  end.

(** [resolve_policy]. *)
Definition resolve_policy (g : PolicyEngine) (scope : uuid) (tenant : option uuid) : RetentionPolicy :=
  let from_scope := s ← scope_states g !! scope; pid ← ss_policy_id s; policies g !! pid in
  let from_tenant := tid ← tenant; pid ← tenant_policies g !! (tid : uuid); policies g !! pid in
  match from_scope with
  | Some p => p
  | None => match from_tenant with Some p => p | None => default_policy g end
  end.

(** [active_events.iter().any(|e| events.contains(e))]. *)
Definition any_event (s : option ScopeRetentionState) (events : list string) : bool :=
  match s with
  | Some s => existsb (fun e => bool_decide (e ∈ events)) (active_events s)
  | None => false
  end.

Section Evaluate.
Context {Json : Type} {JF : JsonFlags Json} {LM : Libm}.

Definition in_minimum_retention (p : RetentionPolicy) (o : MemoryObject Json) (now : instant) : bool :=
  match minimum_retention_until_for p (created_at o) with Some t => (now <? t)%Z | None => false end.

(** The legal-hold and preserve-event test that opens [evaluate]. *)
Definition held (g : PolicyEngine) (o : MemoryObject Json) (tenant : option uuid) (now : instant) : bool :=
  let p := resolve_policy g (scope_id o) tenant in
  let s := scope_states g !! scope_id o in
  legal_hold_active p now
  || match s with Some s => scope_hold_active s now | None => false end
  || any_event s (preserve_on_events p).

(** The [match obj.state] of the promotion rules: [None] falls through. *)
Definition promotion (p : RetentionPolicy) (o : MemoryObject Json) (now : instant) (score : RetentionScore) :
    option PolicyDecision :=
  match state o with
  | Candidate =>
      if (promote_to_reinforced_after_retrievals p <=? retrieval_count o)%N
      then if f64_leb (f64_lit 4 10) (total score) then Some PromoteToReinforced else None
      else None
  | Reinforced =>
      if (promote_to_consolidated_after_sources p <=? corroboration_count o)%N
      then Some PromoteToConsolidated else None
  | Consolidated =>
      match promote_to_canonical_after_stable p with
      | Some stable =>
          let since := default (created_at o) (consolidated_at o) in
          if (since + stable <=? now)%Z then Some PromoteToCanonical else None
      | None => None
      end
  | _ => None
  end.

(** The [match obj.state] of the archive rules. *)
Definition archive_rule (p : RetentionPolicy) (o : MemoryObject Json) (now : instant) (score : RetentionScore) :
    PolicyDecision :=
  match state o with
  | Candidate =>
      if in_minimum_retention p o now then Keep
      else if f64_ltb (total score) (candidate_archive_threshold p) then Archive else Keep
  | Superseded =>
      if in_minimum_retention p o now then Keep
      else if (last_accessed_at o + superseded_archive_after p <=? now)%Z then Archive else Keep
  | Archived =>
      match archived_max_retention p with
      | Some max_age => if (created_at o + max_age <=? now)%Z then Delete else Keep
      | None => Keep
      end
  | _ => Keep
  end.

(** [PolicyEngine::evaluate]. *)
Definition evaluate (g : PolicyEngine) (o : MemoryObject Json) (tenant : option uuid) (now : instant)
    (score : RetentionScore) : PolicyDecision :=
  let p := resolve_policy g (scope_id o) tenant in
  let s := scope_states g !! scope_id o in
  if held g o tenant now then Keep
  else if past_maximum_retention p now then Delete
  else if any_event s (delete_on_events p) then Delete
  else if any_event s (archive_on_events p) && negb (in_explicit_minimum_retention p now) then Archive
  else if bool_decide (state o = Archived) && allow_resurrection p
          && (resurrection_retrieval_threshold p <=? retrieval_count o)%N then Resurrect
  else match promotion p o now score with
       | Some d => d
       | None => archive_rule p o now score
       end.

(** ** Sweeps *)

(** [struct DecaySweepReport]. *)
Record DecaySweepReport : Type := mk_report {
  scored : nat;
  candidates_archived : nat;
  superseded_archived : nat;
  archived_resurrected : nat;
  promoted_to_reinforced : nat;
  promoted_to_consolidated : nat;
  promoted_to_canonical : nat;
  deleted_by_policy : nat
}.
Definition default_report : DecaySweepReport := mk_report 0 0 0 0 0 0 0 0.

(** [report.x += 1] of the fields with a flag set, after [scored += 1]. *)
Definition tick (r : DecaySweepReport) (cand sup res p1 p2 p3 del : bool) : DecaySweepReport :=
  let b (n : nat) (x : bool) := if x then S n else n in
  mk_report (S (scored r)) (b (candidates_archived r) cand) (b (superseded_archived r) sup)
    (b (archived_resurrected r) res) (b (promoted_to_reinforced r) p1) (b (promoted_to_consolidated r) p2)
    (b (promoted_to_canonical r) p3) (b (deleted_by_policy r) del).

(** The body of [decay_sweep_with]'s loop. *)
Definition decay_one (now : instant) (threshold : f64) (ttl : duration) (r : DecaySweepReport)
    (o : MemoryObject Json) : DecaySweepReport * MemoryObject Json :=
  let score := compute_retention_score o now in
  let o := with_score o (total score) in
  let is_critical := bool_decide (sensitivity_class o = Critical) in
  match state o with
  | Candidate =>
      if negb is_critical && f64_ltb (total score) threshold then
        match archive_candidate o with
        | (o, Ok _) => (tick r true false false false false false false, o)
        | (o, Err _) => (tick r false false false false false false false, o)
        end
      else (tick r false false false false false false false, o)
  | Superseded =>
      if negb is_critical && (ttl <=? now - last_accessed_at o)%Z then
        match archive_superseded o with
        | (o, Ok _) => (tick r false true false false false false false, o)
        | (o, Err _) => (tick r false false false false false false false, o)
        end
      else (tick r false false false false false false false, o)
  | _ => (tick r false false false false false false false, o)
  end.

Definition DEFAULT_CANDIDATE_ARCHIVE_THRESHOLD : f64 := f64_lit 15 100.
Definition DEFAULT_SUPERSEDED_TTL_DAYS : Z := 90.

(** [decay_sweep_with], [decay_sweep]. *)
Definition decay_sweep_with (now : instant) (threshold : f64) (ttl : duration)
    (objects : list (MemoryObject Json)) : DecaySweepReport * list (MemoryObject Json) :=
  map_accum (decay_one now threshold ttl) default_report objects.
Definition decay_sweep (now : instant) (objects : list (MemoryObject Json)) :
    DecaySweepReport * list (MemoryObject Json) :=
  decay_sweep_with now DEFAULT_CANDIDATE_ARCHIVE_THRESHOLD (days DEFAULT_SUPERSEDED_TTL_DAYS) objects.

(** The body of [decay_sweep_with_policy]'s loop. *)
Definition policy_one (g : PolicyEngine) (tenant : option uuid) (now : instant) (r : DecaySweepReport)
    (o : MemoryObject Json) : DecaySweepReport * MemoryObject Json :=
  let score := compute_retention_score o now in
  let o := with_score o (total score) in
  let none := tick r false false false false false false false in
  match evaluate g o tenant now score with
  | Keep => (none, o)
  | Archive =>
      let from := state o in
      match archive o with
      | (o, Ok _) => (tick r (bool_decide (from = Candidate)) (bool_decide (from = Superseded))
                        false false false false false, o)
      | (o, Err _) => (none, o)
      end
  | Delete =>
      match delete o with
      | (o, Ok _) => (tick r false false false false false false true, o)
      | (o, Err _) => (none, o)
      end
  | Resurrect =>
      match resurrect now o with
      | (o, Ok _) => (tick r false false true false false false false, o)
      | (o, Err _) => (none, o)
      end
  | PromoteToReinforced =>
      if bool_decide (state o = Candidate) then
        match reinforce o with
        | (o, Ok _) => (tick r false false false true false false false, o)
        | (o, Err _) => (none, o)
        end
      else (none, o)
  | PromoteToConsolidated =>
      if bool_decide (state o = Reinforced) then
        match consolidate now o with
        | (o, Ok _) => (tick r false false false false true false false, o)
        | (o, Err _) => (none, o)
        end
      else (none, o)
  | PromoteToCanonical =>
      if bool_decide (state o = Consolidated) then
        match canonicalize o with
        | (o, Ok _) => (tick r false false false false false true false, o)
        | (o, Err _) => (none, o)
        end
      else (none, o)
  end.

(** [decay_sweep_with_policy]. *)
Definition decay_sweep_with_policy (g : PolicyEngine) (tenant : option uuid) (now : instant)
    (objects : list (MemoryObject Json)) : DecaySweepReport * list (MemoryObject Json) :=
  map_accum (policy_one g tenant now) default_report objects.

(** ** Purge *)

Definition DEFAULT_ARCHIVED_RETENTION_DAYS : Z := 365.

(** [struct PurgeConfig], its constructors, [struct PurgeReport]. *)
Record PurgeConfig : Type := mk_purge_config { retention : duration; purge_pinned : bool }.
Definition default_purge_config : PurgeConfig := mk_purge_config (days DEFAULT_ARCHIVED_RETENTION_DAYS) false.
Definition with_retention_days (n : Z) : PurgeConfig := mk_purge_config (days n) false.
Definition set_purge_pinned (c : PurgeConfig) (b : bool) : PurgeConfig := mk_purge_config (retention c) b.
Record PurgeReport : Type := mk_purge_report {
  examined : nat;
  purged : nat;
  skipped_pinned : nat;
  skipped_within_ttl : nat
}.

(** The body of [purge_archived]'s loop. *)
Definition purge_one (now : instant) (c : PurgeConfig) (r : PurgeReport) (o : MemoryObject Json) :
    PurgeReport * MemoryObject Json :=
  if negb (bool_decide (state o = Archived)) then (r, o)
  else
    let r := mk_purge_report (S (examined r)) (purged r) (skipped_pinned r) (skipped_within_ttl r) in
    if (0 <? pin_count o)%N && negb (purge_pinned c) then
      (mk_purge_report (examined r) (purged r) (S (skipped_pinned r)) (skipped_within_ttl r), o)
    else if (now - last_accessed_at o <? retention c)%Z then
      (mk_purge_report (examined r) (purged r) (skipped_pinned r) (S (skipped_within_ttl r)), o)
    else
      match delete_archived o with
      | (o, Ok _) => (mk_purge_report (examined r) (S (purged r)) (skipped_pinned r) (skipped_within_ttl r), o)
      | (o, Err _) => (r, o)
      end.

(** [purge_archived], [purge_archived_default]. *)
Definition purge_archived (now : instant) (c : PurgeConfig) (objects : list (MemoryObject Json)) :
    PurgeReport * list (MemoryObject Json) :=
  map_accum (purge_one now c) (mk_purge_report 0 0 0 0) objects.
Definition purge_archived_default (now : instant) (objects : list (MemoryObject Json)) :
    PurgeReport * list (MemoryObject Json) :=
  purge_archived now default_purge_config objects.

End Evaluate.

Section PolicyFacts.
Context {Json : Type} {JF : JsonFlags Json} {LM : Libm}.
Implicit Types (o : MemoryObject Json) (g : PolicyEngine).

(** ** Decisions *)

Lemma scope_state_set_legal_hold scope hold until g :
  exists s, scope_states (set_legal_hold scope hold until g) !! scope = Some s /\
    ss_legal_hold s = hold /\ ss_legal_hold_until s = until.
Proof. unfold set_legal_hold, on_scope. cbn. rewrite lookup_insert_eq. by eexists. Qed.

#[local] Arguments f64_lit : simpl never.
#[local] Arguments f64_leb : simpl never.
#[local] Arguments f64_ltb : simpl never.

Lemma promotion_sound p o now score d :
  promotion p o now score = Some d ->
  match d with
  | PromoteToReinforced => state o = Candidate /\
      (promote_to_reinforced_after_retrievals p <= retrieval_count o)%N /\
      f64_leb (f64_lit 4 10) (total score) = true
  | PromoteToConsolidated => state o = Reinforced /\
      (promote_to_consolidated_after_sources p <= corroboration_count o)%N
  | PromoteToCanonical => state o = Consolidated /\
      exists stable, promote_to_canonical_after_stable p = Some stable /\
        (default (created_at o) (consolidated_at o) + stable <= now)%Z
  | _ => False
  end.
Proof.
  unfold promotion. destruct (state o); try discriminate.
  - destruct (_ <=? _)%N eqn:En; [|discriminate]. destruct (f64_leb _ _) eqn:Ef; [|discriminate].
    intros [= <-]. by apply N.leb_le in En.
  - destruct (_ <=? _)%N eqn:En; [|discriminate]. intros [= <-]. by apply N.leb_le in En.
  - destruct (promote_to_canonical_after_stable p) as [st|]; [|discriminate].
    destruct (_ <=? _)%Z eqn:En; [|discriminate]. intros [= <-]. apply Z.leb_le in En. eauto.
Qed.

Lemma archive_rule_sound p o now score :
  match archive_rule p o now score with
  | Keep => True
  | Archive => in_minimum_retention p o now = false /\
      ((state o = Candidate /\ f64_ltb (total score) (candidate_archive_threshold p) = true) \/
       (state o = Superseded /\ (last_accessed_at o + superseded_archive_after p <= now)%Z))
  | Delete => state o = Archived /\
      exists m, archived_max_retention p = Some m /\ (created_at o + m <= now)%Z
  | _ => False
  end.
Proof.
  unfold archive_rule. destruct (state o); try exact I.
  - destruct (in_minimum_retention p o now); [exact I|].
    destruct (f64_ltb _ _) eqn:Ef; [|exact I]. split; [done|by left].
  - destruct (in_minimum_retention p o now); [exact I|].
    destruct (_ <=? _)%Z eqn:En; [|exact I]. apply Z.leb_le in En. split; [done|by right].
  - destruct (archived_max_retention p) as [m|]; [|exact I].
    destruct (_ <=? _)%Z eqn:En; [|exact I]. apply Z.leb_le in En. eauto.
Qed.

(** What each decision rests on. *)
Lemma evaluate_sound g o tenant now score :
  let p := resolve_policy g (scope_id o) tenant in
  let s := scope_states g !! scope_id o in
  match evaluate g o tenant now score with
  | Keep => True
  | Delete => held g o tenant now = false /\
      (past_maximum_retention p now = true \/ any_event s (delete_on_events p) = true \/
       (state o = Archived /\ exists m, archived_max_retention p = Some m /\ (created_at o + m <= now)%Z))
  | Archive => held g o tenant now = false /\
      ((any_event s (archive_on_events p) = true /\ in_explicit_minimum_retention p now = false) \/
       (in_minimum_retention p o now = false /\
        ((state o = Candidate /\ f64_ltb (total score) (candidate_archive_threshold p) = true) \/
         (state o = Superseded /\ (last_accessed_at o + superseded_archive_after p <= now)%Z))))
  | Resurrect => held g o tenant now = false /\
      state o = Archived /\ allow_resurrection p = true /\
      (resurrection_retrieval_threshold p <= retrieval_count o)%N
  | PromoteToReinforced => held g o tenant now = false /\ state o = Candidate /\
      (promote_to_reinforced_after_retrievals p <= retrieval_count o)%N /\
      f64_leb (f64_lit 4 10) (total score) = true
  | PromoteToConsolidated => held g o tenant now = false /\ state o = Reinforced /\
      (promote_to_consolidated_after_sources p <= corroboration_count o)%N
  | PromoteToCanonical => held g o tenant now = false /\ state o = Consolidated /\
      exists stable, promote_to_canonical_after_stable p = Some stable /\
        (default (created_at o) (consolidated_at o) + stable <= now)%Z
  end.
Proof.
  cbn zeta. unfold evaluate. cbn zeta. set (p := resolve_policy g (scope_id o) tenant).
  destruct (held g o tenant now); [exact I|].
  destruct (past_maximum_retention p now); [by split; [|left]|].
  destruct (any_event _ (delete_on_events p)); [by split; [|right; left]|].
  destruct (any_event _ (archive_on_events p) && _) eqn:Ea.
  { apply andb_true_iff in Ea as [Ea Em%negb_true_iff]. split; [done|by left]. }
  destruct (bool_decide (state o = Archived) && _ && _) eqn:Er.
  { apply andb_true_iff in Er as [[Es%bool_decide_eq_true Ew]%andb_true_iff En%N.leb_le]. done. }
  destruct (promotion p o now score) as [d|] eqn:Ep.
  - apply promotion_sound in Ep. destruct d; try (by destruct Ep); split; done.
  - pose proof (archive_rule_sound p o now score) as Hr.
    destruct (archive_rule p o now score); try (by destruct Hr); split; [done|by right|done|].
    right. by right.
Qed.

#[local] Ltac decision_sound :=
  match goal with
  | |- evaluate ?g ?o ?t ?n ?s = _ -> _ =>
      let H := fresh in let Hd := fresh in
      intros H; pose proof (evaluate_sound g o t n s) as Hd; rewrite H in Hd; apply Hd
  end.

(** When the policy engine may destroy.  A legal hold of the policy or of
    the scope, or a preserve event, keeps the object whatever else applies (and
    [set_legal_hold] without an end establishes one); otherwise a passed maximum
    retention deletes it.  A [Delete] needs a passed maximum retention, a delete
    event or an archived object past its policy's age limit; an [Archive] needs
    an archive event outside an explicit minimum retention, a low-scoring
    candidate or an expired superseded object outside its minimum retention; a
    [Resurrect] an archived object with enough retrievals; and each promotion
    starts from the state below it and meets its threshold. *)
Theorem policy_precedence g o tenant now score :
  let p := resolve_policy g (scope_id o) tenant in
  let s := scope_states g !! scope_id o in
  let d := evaluate g o tenant now score in
  (held g o tenant now = true -> d = Keep) /\
  (forall score', evaluate (set_legal_hold (scope_id o) true None g) o tenant now score' = Keep) /\
  (held g o tenant now = false -> past_maximum_retention p now = true -> d = Delete) /\
  (d <> Keep -> held g o tenant now = false) /\
  (d = Delete ->
     past_maximum_retention p now = true \/ any_event s (delete_on_events p) = true \/
     (state o = Archived /\ exists m, archived_max_retention p = Some m /\ (created_at o + m <= now)%Z)) /\
  (d = Archive ->
     (any_event s (archive_on_events p) = true /\ in_explicit_minimum_retention p now = false) \/
     (in_minimum_retention p o now = false /\
        ((state o = Candidate /\ f64_ltb (total score) (candidate_archive_threshold p) = true) \/
         (state o = Superseded /\ (last_accessed_at o + superseded_archive_after p <= now)%Z)))) /\
  (d = Resurrect -> state o = Archived /\ allow_resurrection p = true /\
     (resurrection_retrieval_threshold p <= retrieval_count o)%N) /\
  (d = PromoteToReinforced -> state o = Candidate /\
     (promote_to_reinforced_after_retrievals p <= retrieval_count o)%N /\
     f64_leb (f64_lit 4 10) (total score) = true) /\
  (d = PromoteToConsolidated -> state o = Reinforced /\
     (promote_to_consolidated_after_sources p <= corroboration_count o)%N) /\
  (d = PromoteToCanonical -> state o = Consolidated /\
     exists stable, promote_to_canonical_after_stable p = Some stable /\
       (default (created_at o) (consolidated_at o) + stable <= now)%Z).
Proof.
  cbn zeta. split_and!.
  - intros Hh. unfold evaluate. by rewrite Hh.
  - intros score'. unfold evaluate.
    assert (held (set_legal_hold (scope_id o) true None g) o tenant now = true) as ->; [|done].
    unfold held. destruct (scope_state_set_legal_hold (scope_id o) true None g) as (s & -> & Hs & Hu).
    unfold scope_hold_active, hold_active. rewrite Hs, Hu. cbn. by rewrite orb_true_r.
  - intros Hh Hp. unfold evaluate. by rewrite Hh, Hp.
  - unfold evaluate. by destruct (held g o tenant now).
  - decision_sound.
  - decision_sound.
  - decision_sound.
  - decision_sound.
  - decision_sound.
  - decision_sound.
Qed.

(** ** Sweeps *)

(** What the policy sweep does to a re-scored object. *)
Definition apply_decision (d : PolicyDecision) (now : instant) o : MemoryObject Json :=
  match d with
  | Keep => o
  | Archive => if bool_decide (state o ∈ [Archived; Deleted]) then o else with_state o Archived
  | Delete => with_state o Deleted
  | Resurrect => with_access (with_superseded_by (with_state o Reinforced) None) now
  | PromoteToReinforced => with_state o Reinforced
  | PromoteToConsolidated => with_consolidated (with_state o Consolidated) (Some now)
  | PromoteToCanonical => with_state o Canonical
  end.

(** The object as re-scored, and the decision the sweep takes on it. *)
Definition rescored (now : instant) o : MemoryObject Json := with_score o (total (compute_retention_score o now)).
Definition decision g tenant (now : instant) o : PolicyDecision :=
  evaluate g (rescored now o) tenant now (compute_retention_score o now).

Lemma expect_in l to o : state o ∈ l -> expect l to o = (with_state o to, Ok to).
Proof. intros H. unfold expect. by rewrite bool_decide_eq_true_2. Qed.
Lemma expect_not_in l to o : state o ∉ l -> expect l to o = (o, Err (InvalidTransition (state o) to)).
Proof. intros H. unfold expect. by rewrite bool_decide_eq_false_2. Qed.

Lemma with_state_same o : with_state o (state o) = o.
Proof. by destruct o. Qed.

Definition b2n (b : bool) : nat := if b then 1%nat else 0%nat.
Definition is_state (s : MemoryState) o : bool := bool_decide (state o = s).
Definition decides (d : PolicyDecision) g tenant now o : bool := bool_decide (decision g tenant now o = d).

(** One step of the policy sweep: the object, and the report. *)
Lemma policy_one_spec g tenant now r o :
  policy_one g tenant now r o
  = (tick r (decides Archive g tenant now o && is_state Candidate o)
       (decides Archive g tenant now o && is_state Superseded o)
       (decides Resurrect g tenant now o) (decides PromoteToReinforced g tenant now o)
       (decides PromoteToConsolidated g tenant now o) (decides PromoteToCanonical g tenant now o)
       (decides Delete g tenant now o && negb (is_state Deleted o)),
     apply_decision (decision g tenant now o) now (rescored now o)).
Proof.
  pose proof (evaluate_sound g (rescored now o) tenant now (compute_retention_score o now)) as Hs.
  cbn zeta in Hs. unfold policy_one, decides, decision, rescored, is_state in *.
  generalize dependent (compute_retention_score o now). intros sc Hs.
  change (state (with_score o (total sc))) with (state o) in *.
  set (o1 := with_score o _) in *. assert (Hst : state o1 = state o) by reflexivity. clearbody o1.
  destruct (evaluate g o1 tenant now sc); clear -Hs Hst; cbn -[f64_leb f64_ltb f64_lit tick] in *;
    unfold archive, delete, resurrect, reinforce, consolidate, canonicalize, apply_decision.
  - done.
  - rewrite Hst. destruct (state o) eqn:Es;
      (rewrite expect_in by (rewrite Hst; set_solver)) || (rewrite expect_not_in by (rewrite Hst; set_solver));
      reflexivity.
  - destruct (state o) eqn:Es;
      (rewrite expect_in by (rewrite Hst; set_solver)) || (rewrite expect_not_in by (rewrite Hst; set_solver));
      try reflexivity. pose proof (with_state_same o1) as Hw. rewrite Hst in Hw. by rewrite Hw.
  - destruct Hs as (_ & Ha & _). rewrite expect_in by (rewrite Hst, Ha; left). done.
  - destruct Hs as (_ & Ha & _). rewrite expect_in by (rewrite Hst, Ha; left). rewrite bool_decide_eq_true_2 by congruence. done.
  - destruct Hs as (_ & Ha & _). rewrite expect_in by (rewrite Hst, Ha; left). rewrite bool_decide_eq_true_2 by congruence. done.
  - destruct Hs as (_ & Ha & _). rewrite expect_in by (rewrite Hst, Ha; left). rewrite bool_decide_eq_true_2 by congruence. done.
Qed.

Definition count (f : MemoryObject Json -> bool) (l : list (MemoryObject Json)) : nat :=
  sum_list_with (fun o => b2n (f o)) l.

Lemma tick_b2n (n : nat) (b : bool) : (if b then S n else n) = (n + b2n b)%nat.
Proof. destruct b; cbn; lia. Qed.

Lemma policy_sweep_counter g tenant now objects (counter : DecaySweepReport -> nat) f :
  (forall r o, counter (policy_one g tenant now r o).1 = (counter r + b2n (f o))%nat) ->
  counter (decay_sweep_with_policy g tenant now objects).1 = (counter default_report + count f objects)%nat.
Proof. intros H. by apply (map_accum_count _ _ (fun o => b2n (f o))). Qed.

Lemma sum_list_one (l : list (MemoryObject Json)) : count (fun _ => true) l = length l.
Proof. unfold count. induction l as [|o l IH]; [done|]. cbn in IH |- *. lia. Qed.

(** The policy sweep carries out the decisions, no more and no less.  Every
    object is re-scored and changed exactly as its decision says: no decision is
    ever rejected by the state machine, except that archiving an archived or
    deleted object leaves it alone.  In particular a deleted object stays
    deleted and an object under a hold changes nothing but its score.  Each
    counter of the report is the number of objects with that decision. *)
Theorem policy_sweep_spec g tenant now objects :
  let '(r, objects') := decay_sweep_with_policy g tenant now objects in
  objects' = (fun o => apply_decision (decision g tenant now o) now (rescored now o)) <$> objects /\
  (forall i o o', objects !! i = Some o -> objects' !! i = Some o' ->
     (state o = Deleted -> state o' = Deleted) /\
     (held g o tenant now = true -> o' = rescored now o)) /\
  scored r = length objects /\
  candidates_archived r = count (fun o => decides Archive g tenant now o && is_state Candidate o) objects /\
  superseded_archived r = count (fun o => decides Archive g tenant now o && is_state Superseded o) objects /\
  archived_resurrected r = count (decides Resurrect g tenant now) objects /\
  promoted_to_reinforced r = count (decides PromoteToReinforced g tenant now) objects /\
  promoted_to_consolidated r = count (decides PromoteToConsolidated g tenant now) objects /\
  promoted_to_canonical r = count (decides PromoteToCanonical g tenant now) objects /\
  deleted_by_policy r = count (fun o => decides Delete g tenant now o && negb (is_state Deleted o)) objects.
Proof.
  assert (Hobjs : (decay_sweep_with_policy g tenant now objects).2
            = (fun o => apply_decision (decision g tenant now o) now (rescored now o)) <$> objects).
  { apply map_accum_fmap. intros r o. by rewrite policy_one_spec. }
  assert (Hc := policy_sweep_counter g tenant now objects).
  destruct (decay_sweep_with_policy g tenant now objects) as [r objects'] eqn:E. cbn [fst snd] in *.
  split; [exact Hobjs|]. split.
  - intros i o o' Ho Ho'. rewrite Hobjs, list_lookup_fmap, Ho in Ho'. injection Ho' as <-. split.
    + intros Hdel. pose proof (evaluate_sound g (rescored now o) tenant now (compute_retention_score o now)) as Hs.
      unfold decision. cbn zeta in Hs.
      assert (Hst : state (rescored now o) = Deleted) by exact Hdel.
      destruct (evaluate g (rescored now o) tenant now _); cbn [apply_decision].
      * exact Hdel.
      * rewrite bool_decide_eq_true_2; [exact Hdel|rewrite Hst; right; left].
      * reflexivity.
      * destruct Hs as (_ & Ha & _). congruence.
      * destruct Hs as (_ & Ha & _). congruence.
      * destruct Hs as (_ & Ha & _). congruence.
      * destruct Hs as (_ & Ha & _). congruence.
    + intros Hh. unfold decision, evaluate.
      assert (held g (rescored now o) tenant now = true) as -> by exact Hh. reflexivity.
  - rewrite <- (sum_list_one objects).
    split_and!; [apply (Hc scored)|apply (Hc candidates_archived)|apply (Hc superseded_archived)
      |apply (Hc archived_resurrected)|apply (Hc promoted_to_reinforced)|apply (Hc promoted_to_consolidated)
      |apply (Hc promoted_to_canonical)|apply (Hc deleted_by_policy)];
      intros q o; rewrite policy_one_spec; unfold tick; cbn [fst scored candidates_archived superseded_archived
        archived_resurrected promoted_to_reinforced promoted_to_consolidated promoted_to_canonical
        deleted_by_policy]; rewrite ?tick_b2n; cbn [b2n]; lia.
Qed.

(** The objects the plain sweep archives, and those the purge deletes. *)
Definition expires (now : instant) (threshold : f64) (ttl : duration) o : bool :=
  negb (bool_decide (sensitivity_class o = Critical)) &&
  (is_state Candidate o && f64_ltb (total (compute_retention_score o now)) threshold
   || is_state Superseded o && (ttl <=? now - last_accessed_at o)%Z).
Definition purgeable (now : instant) (c : PurgeConfig) o : bool :=
  is_state Archived o && negb ((0 <? pin_count o)%N && negb (purge_pinned c)) &&
  negb (now - last_accessed_at o <? retention c)%Z.

Lemma decay_one_spec now threshold ttl r o :
  decay_one now threshold ttl r o
  = (tick r (expires now threshold ttl o && is_state Candidate o)
       (expires now threshold ttl o && is_state Superseded o) false false false false false,
     if expires now threshold ttl o then with_state (rescored now o) Archived else rescored now o).
Proof.
  unfold decay_one, expires, rescored, is_state, archive_candidate, archive_superseded.
  generalize (compute_retention_score o now). intros sc.
  change (sensitivity_class (with_score o (total sc))) with (sensitivity_class o).
  change (last_accessed_at (with_score o (total sc))) with (last_accessed_at o).
  change (state (with_score o (total sc))) with (state o).
  set (o1 := with_score o (total sc)). assert (Hst : state o1 = state o) by reflexivity. clearbody o1.
  generalize (f64_ltb (total sc) threshold), (ttl <=? now - last_accessed_at o)%Z,
    (bool_decide (sensitivity_class o = Critical)). intros low old crit.
  destruct (state o); destruct crit, low, old; try reflexivity;
    cbn [andb orb negb]; (rewrite expect_in by (rewrite Hst; left)); reflexivity.
Qed.

Lemma purge_one_spec now c r o :
  purge_one now c r o
  = (mk_purge_report (examined r + b2n (is_state Archived o))
       (purged r + b2n (purgeable now c o))
       (skipped_pinned r + b2n (is_state Archived o && ((0 <? pin_count o)%N && negb (purge_pinned c))))
       (skipped_within_ttl r + b2n (is_state Archived o && negb ((0 <? pin_count o)%N && negb (purge_pinned c))
                                      && (now - last_accessed_at o <? retention c)%Z)),
     if purgeable now c o then with_state o Deleted else o).
Proof.
  unfold purge_one, purgeable, is_state, delete_archived.
  destruct (bool_decide (state o = Archived)) eqn:Es; cbn [negb andb b2n].
  - apply bool_decide_eq_true in Es.
    destruct ((0 <? pin_count o)%N && negb (purge_pinned c)), (now - last_accessed_at o <? retention c)%Z;
      cbn [negb andb b2n examined purged skipped_pinned skipped_within_ttl];
      try (rewrite expect_in by (rewrite Es; left); cbn iota beta);
      (apply pair_equal_spec; split; [f_equal; lia|reflexivity]).
  - destruct r. cbn. by rewrite !Nat.add_0_r.
Qed.

(** The time-driven passes.  [decay_sweep_with] re-scores every object and
    archives exactly the non-critical ones that are low-scoring candidates or
    superseded and unread for the time to live; critical objects never move.
    [purge_archived] deletes exactly the archived objects last accessed at least
    the retention period ago, pinned ones only on request, and touches nothing
    else.  Both reports count exactly that, and what the purge examines is
    purged, skipped as pinned or skipped as recent. *)
Theorem time_sweeps_spec now threshold ttl c objects :
  (let '(r, objects') := decay_sweep_with now threshold ttl objects in
   objects' = (fun o => if expires now threshold ttl o then with_state (rescored now o) Archived
                        else rescored now o) <$> objects /\
   scored r = length objects /\
   candidates_archived r = count (fun o => expires now threshold ttl o && is_state Candidate o) objects /\
   superseded_archived r = count (fun o => expires now threshold ttl o && is_state Superseded o) objects) /\
  (let '(r, objects') := purge_archived now c objects in
   objects' = (fun o => if purgeable now c o then with_state o Deleted else o) <$> objects /\
   examined r = count (is_state Archived) objects /\
   purged r = count (purgeable now c) objects /\
   examined r = (purged r + skipped_pinned r + skipped_within_ttl r)%nat).
Proof.
  split.
  - assert (Hobjs : (decay_sweep_with now threshold ttl objects).2 = (fun o =>
        if expires now threshold ttl o then with_state (rescored now o) Archived else rescored now o) <$> objects).
    { apply map_accum_fmap. intros r o. by rewrite decay_one_spec. }
    assert (Hc : forall counter f,
      (forall r o, counter (decay_one now threshold ttl r o).1 = (counter r + b2n (f o))%nat) ->
      counter (decay_sweep_with now threshold ttl objects).1 = (counter default_report + count f objects)%nat).
    { intros counter f H. by apply (map_accum_count _ _ (fun o => b2n (f o))). }
    destruct (decay_sweep_with now threshold ttl objects) as [r objects']. cbn [fst snd] in *.
    rewrite <- (sum_list_one objects).
    split_and!; [done|apply (Hc scored)|apply (Hc candidates_archived)|apply (Hc superseded_archived)];
      intros q o; rewrite decay_one_spec; unfold tick;
      cbn [fst scored candidates_archived superseded_archived]; rewrite ?tick_b2n; cbn [b2n]; lia.
  - assert (Hobjs : (purge_archived now c objects).2
        = (fun o => if purgeable now c o then with_state o Deleted else o) <$> objects).
    { apply map_accum_fmap. intros r o. by rewrite purge_one_spec. }
    assert (Hc : forall counter f,
      (forall r o, counter (purge_one now c r o).1 = (counter r + b2n (f o))%nat) ->
      counter (purge_archived now c objects).1 = (counter (mk_purge_report 0 0 0 0) + count f objects)%nat).
    { intros counter f H. by apply (map_accum_count _ _ (fun o => b2n (f o))). }
    assert (Hsum : examined (purge_archived now c objects).1
              = (purged (purge_archived now c objects).1 + skipped_pinned (purge_archived now c objects).1
                 + skipped_within_ttl (purge_archived now c objects).1)%nat).
    { rewrite (Hc examined (is_state Archived)) by (intros; by rewrite purge_one_spec).
      rewrite (Hc purged (purgeable now c)) by (intros; by rewrite purge_one_spec).
      rewrite (Hc skipped_pinned (fun o => is_state Archived o && ((0 <? pin_count o)%N && negb (purge_pinned c))))
        by (intros; by rewrite purge_one_spec).
      rewrite (Hc skipped_within_ttl (fun o => is_state Archived o
         && negb ((0 <? pin_count o)%N && negb (purge_pinned c)) && (now - last_accessed_at o <? retention c)%Z))
        by (intros; by rewrite purge_one_spec).
      cbn [examined purged skipped_pinned skipped_within_ttl]. clear. unfold count, purgeable.
      induction objects as [|o l IH]; cbn [sum_list_with]; [done|].
      destruct (is_state Archived o), ((0 <? pin_count o)%N && negb (purge_pinned c)),
        (now - last_accessed_at o <? retention c)%Z; cbn [andb negb b2n] in *; lia. }
    destruct (purge_archived now c objects) as [r objects']. cbn [fst snd] in *.
    split_and!; [done|apply (Hc examined)|apply (Hc purged)|done]; intros q o; by rewrite purge_one_spec.
Qed.

End PolicyFacts.

(** ** Deadlines that are missed *)

Section Demo.
#[local] Instance unit_flags : JsonFlags unit := {| json_null := tt; json_flag _ _ := None |}.
#[local] Instance unit_exp : Libm := {| f64_exp _ := f64_of_Z 1 |}.
#[local] Instance no_text : UuidText := {| uuid_to_string _ := "-" |}.

(** The consumer policy on scope 7: archived objects are kept three years at
    most. *)
Definition consumer_engine : PolicyEngine :=
  (set_scope_policy 7 5 (register_policy (b2c_default 5) new)).1.
Definition old_object (s : MemoryState) (accessed : instant) (retrievals : N) : MemoryObject unit :=
  mk_object 1 7 s Useful (f64_of_Z 0) 0 accessed None retrievals 0 0 [] [] None tt.
Definition states (x : DecaySweepReport * list (MemoryObject unit)) : list MemoryState := state <$> x.2.
Definition year (n : Z) : Z := days (365 * n).

(** An archived object, ten years old, retrieved once in its life. *)
Definition forgotten := [old_object Archived (year 5) 1].
Definition swept := decay_sweep_with_policy consumer_engine None (year 10) forgotten.
(** A superseded object last read 400 days ago. *)
Definition stale := [old_object Superseded 0 0].
Definition archived_now := decay_sweep (days 400) stale.

(** Two lifetimes of archived objects are not what they are said to be.
    First, under a policy with a three-year limit on archived objects, an
    archived object that was retrieved once, years ago, is resurrected seven
    years past the deadline instead of deleted, and forty years later it is
    still there.  Second, archiving does not stamp [last_accessed_at], so a purge
    with the default one-year retention deletes an object in the very instant
    the decay sweep archived it. *)
Theorem archived_deadlines_missed :
  archived_max_retention (resolve_policy consumer_engine 7 None) = Some (year 3) /\
  states swept = [Reinforced] /\
  states (decay_sweep_with_policy consumer_engine None (year 50) swept.2) = [Reinforced] /\
  states archived_now = [Archived] /\
  state <$> (purge_archived_default (days 400) archived_now.2).2 = [Deleted].
Proof. vm_compute. done. Qed.

End Demo.
