(* ===== verification/WorkingMemory.v ===== *)
(** * Working memory ([memory_manager/src/working_memory.rs])

    A bounded window of entries with a time to live.  A push sweeps the expired
    entries and then, while the window is full, drops the entry of lowest
    relevance, oldest first; the scores are compared by [f64::total_cmp]. *)

From S2P Require Import Prelude.

(** ** [f64::total_cmp] *)

(** The bits of the magnitude, and the integer the code orders by: [total_cmp]
    flips the low 63 bits of negative numbers and compares as [i64].  The only
    NaN of the model is the quiet positive one. *)
Definition magnitude_bits (x : f64) : Z :=
  match x with
  | S754_zero _ => 0
  | S754_infinity _ => 2047 * 2 ^ 52
  | S754_nan => 2047 * 2 ^ 52 + 2 ^ 51
  | S754_finite _ m e => (e + 1074) * 2 ^ 52 + Z.pos m
  end.
Definition sign_bit (x : f64) : bool :=
  match x with
  | S754_zero s | S754_infinity s | S754_finite s _ _ => s
  | S754_nan => false
  end.
Definition total_key (x : f64) : Z :=
  if sign_bit x then - magnitude_bits x - 1 else magnitude_bits x.
Definition total_cmp (x y : f64) : comparison := Z.compare (total_key x) (total_key y).

(** ** The window *)

(** [struct WorkingMemoryEntry], [is_live]. *)
Record WorkingMemoryEntry : Type := mk_entry {
  id : uuid;
  content : string;
  scope_id : uuid;
  inserted_at : instant;
  ttl : duration;
  relevance_score : f64
}.
Definition is_live (now : instant) (e : WorkingMemoryEntry) : bool := (now <? inserted_at e + ttl e)%Z.

(** [WorkingMemoryEntry::new] with the id and the time it draws. *)
Definition new_entry (fresh : uuid) (now : instant) (scope : uuid) (text : string) (t : duration) (score : f64) :
    WorkingMemoryEntry := mk_entry fresh text scope now t score.

(** [struct WorkingMemory]. *)
Record WorkingMemory : Type := mk_working {
  entries : list WorkingMemoryEntry;
  max_entries : nat;
  default_ttl : duration
}.
Definition with_entries (w : WorkingMemory) (l : list WorkingMemoryEntry) : WorkingMemory :=
  mk_working l (max_entries w) (default_ttl w).

(** [new], [len], [is_empty], [clear]. *)
Definition new (max : nat) (t : duration) : WorkingMemory := mk_working [] (Nat.max max 1) t.
Definition len (w : WorkingMemory) : nat := length (entries w).
Definition is_empty (w : WorkingMemory) : bool := bool_decide (entries w = []).
Definition clear (w : WorkingMemory) : WorkingMemory := with_entries w [].

(** [Vec::retain] with [is_live], and the number dropped. *)
Definition live (now : instant) (l : list WorkingMemoryEntry) : list WorkingMemoryEntry :=
  List.filter (is_live now) l.
Definition evict_expired_at (now : instant) (w : WorkingMemory) : WorkingMemory * nat :=
  let before := len w in
  let w := with_entries w (live now (entries w)) in
  (w, (before - len w)%nat).
Definition evict_expired (now : instant) (w : WorkingMemory) : WorkingMemory * nat := evict_expired_at now w.

(** [get_context]. *)
Definition get_context (now : instant) (w : WorkingMemory) : list WorkingMemoryEntry := live now (entries w).

(** [preferred] in [evict_one]. *)
Definition preferred (cand cur : WorkingMemoryEntry) : bool :=
  match total_cmp (relevance_score cand) (relevance_score cur) with
  | Lt => true
  | Eq => (inserted_at cand <? inserted_at cur)%Z
  | Gt => false
  end.

(** The scan of [evict_one]; an index out of range would panic: see
    [victim_lt]. *)
Definition scan_step (l : list WorkingMemoryEntry) (idx i : nat) : nat :=
  match l !! idx, l !! i with
  | Some cur, Some cand => if preferred cand cur then i else idx
  | _, _ => idx
  end.
Definition victim (l : list WorkingMemoryEntry) : nat := foldl (scan_step l) 0%nat (seq 1 (length l - 1)).

(** [evict_one]. *)
Definition evict_one (w : WorkingMemory) : WorkingMemory :=
  match entries w with
  | [] => w
  | l => with_entries w (base.delete (victim l) l)
  end.

(** [while self.entries.len() >= self.max_entries { self.evict_one(); }]; the
    number of entries is fuel enough, since the cap is at least one. *)
Fixpoint evict_while (fuel : nat) (w : WorkingMemory) : WorkingMemory :=
  match fuel with
  | O => w
  | S fuel => if (max_entries w <=? len w)%nat then evict_while fuel (evict_one w) else w
  end.

(** [push], [push_with_default_ttl]. *)
Definition push (now : instant) (e : WorkingMemoryEntry) (w : WorkingMemory) : WorkingMemory :=
  let '(w, _) := evict_expired_at now w in
  let w := evict_while (len w) w in
  with_entries w (entries w ++ [e]).
Definition push_with_default_ttl (fresh : uuid) (now now' : instant) (scope : uuid) (text : string) (score : f64)
    (w : WorkingMemory) : WorkingMemory * uuid :=
  let entry := new_entry fresh now scope text (default_ttl w) score in
  let i := id entry in
  (push now' entry w, i).

(** ** Runs *)

Inductive call : Type :=
| Push (now : instant) (e : WorkingMemoryEntry)
| PushDefault (fresh : uuid) (now now' : instant) (scope : uuid) (text : string) (score : f64)
| Evict (now : instant)
| Clear.
Definition run_call (c : call) (w : WorkingMemory) : WorkingMemory :=
  match c with
  | Push now e => push now e w
  | PushDefault fresh now now' scope text score => (push_with_default_ttl fresh now now' scope text score w).1
  | Evict now => (evict_expired now w).1
  | Clear => clear w
  end.
Inductive step : WorkingMemory -> WorkingMemory -> Prop :=
| step_call c w : step w (run_call c w).

(** [a] goes before [b] when the window is full: lower score, then older. *)
Definition evict_le (a b : WorkingMemoryEntry) : Prop :=
  (total_key (relevance_score a) < total_key (relevance_score b))%Z \/
  (total_key (relevance_score a) = total_key (relevance_score b) /\ (inserted_at a <= inserted_at b)%Z).

Definition window_ok (w : WorkingMemory) : Prop := (len w <= max_entries w)%nat /\ (1 <= max_entries w)%nat.

(** ** The scan *)

Lemma preferred_spec a b : preferred a b = false <-> evict_le b a.
Proof.
  unfold preferred, total_cmp, evict_le. destruct (Z.compare_spec (total_key (relevance_score a)) (total_key (relevance_score b))).
  - rewrite Z.ltb_ge. split; [intros; right; lia|intros [|[]]; lia].
  - split; [done|]. intros [|[]]; lia.
  - split; [intros _; left; lia|done].
Qed.

Lemma preferred_true a b : preferred a b = true -> evict_le a b.
Proof.
  unfold preferred, total_cmp, evict_le. destruct (Z.compare_spec (total_key (relevance_score a)) (total_key (relevance_score b)));
    rewrite ?Z.ltb_lt; [intros; right; lia|intros; left; lia|done].
Qed.

Lemma evict_le_trans a b c : evict_le a b -> evict_le b c -> evict_le a c.
Proof. unfold evict_le. lia. Qed.
Lemma evict_le_refl a : evict_le a a.
Proof. unfold evict_le. lia. Qed.

(** After the scan of the first [S n] positions, the index points to the first
    entry that goes before all of them. *)
Lemma scan_spec l n :
  (S n <= length l)%nat ->
  exists i x, foldl (scan_step l) 0%nat (seq 1 n) = i /\ (i <= n)%nat /\ l !! i = Some x /\
    (forall j y, (j <= n)%nat -> l !! j = Some y -> evict_le x y) /\
    (forall j y, (j < i)%nat -> l !! j = Some y -> ~ evict_le y x).
Proof.
  induction n as [|n IH]; intros Hn.
  { destruct (lookup_lt_is_Some_2 l 0) as [x Hx]; [lia|]. exists 0%nat, x. split_and!; [done|done|done| |lia].
    intros [|j] y Hj Hy; [|lia]. rewrite Hx in Hy. injection Hy as <-. apply evict_le_refl. }
  destruct IH as (i & x & Hf & Hi & Hx & Hmin & Hfirst); [lia|].
  rewrite seq_S, foldl_app, Hf. cbn. destruct (lookup_lt_is_Some_2 l (S n)) as [y Hy]; [lia|].
  unfold scan_step. rewrite Hx, Hy. destruct (preferred y x) eqn:Hp.
  - exists (S n), y. split_and!; [done|done|done| |].
    + intros j z Hj Hz. destruct (decide (j = S n)) as [->|]; [rewrite Hy in Hz; injection Hz as <-; apply evict_le_refl|].
      eapply evict_le_trans; [by apply preferred_true|]. apply (Hmin j); [lia|done].
    + intros j z Hj Hz Hle. assert (evict_le x z) as Hxz by (apply (Hmin j); [lia|done]).
      assert (evict_le x y) as Hxy by (by eapply evict_le_trans). apply preferred_spec in Hxy. congruence.
  - exists i, x. split_and!; [done|lia|done| |done].
    intros j z Hj Hz. destruct (decide (j = S n)) as [->|]; [rewrite Hy in Hz; injection Hz as <-; by apply preferred_spec|].
    apply (Hmin j); [lia|done].
Qed.

Lemma victim_spec l :
  l <> [] -> exists x, l !! victim l = Some x /\ (forall y, y ∈ l -> evict_le x y) /\
    (forall j y, (j < victim l)%nat -> l !! j = Some y -> ~ evict_le y x).
Proof.
  intros Hl. assert (length l <> 0)%nat by (by destruct l).
  destruct (scan_spec l (length l - 1)) as (i & x & Hf & Hi & Hx & Hmin & Hfirst); [lia|].
  exists x. unfold victim. rewrite Hf. split_and!; [done| |done].
  intros y [j Hj]%list_elem_of_lookup. apply (Hmin j); [|done]. apply lookup_lt_Some in Hj. lia.
Qed.

(** The indexing of the scan is in range. *)
Lemma victim_lt l : l <> [] -> (victim l < length l)%nat.
Proof. intros Hl. destruct (victim_spec l Hl) as (x & Hx & _). by apply lookup_lt_Some in Hx. Qed.

Lemma len_evict_one w : entries w <> [] -> len (evict_one w) = (len w - 1)%nat.
Proof.
  intros Hl. unfold evict_one, len. pose proof (victim_lt _ Hl). destruct (entries w) as [|e l] eqn:E; [done|].
  cbn [with_entries entries]. rewrite length_delete; [lia|]. by apply lookup_lt_is_Some.
Qed.

Lemma max_evict_one w : max_entries (evict_one w) = max_entries w.
Proof. unfold evict_one. by destruct (entries w). Qed.

(** The loop ends below the cap, for any window. *)
Lemma evict_while_len fuel w :
  (1 <= max_entries w)%nat -> (len w <= fuel)%nat ->
  (len (evict_while fuel w) < max_entries w)%nat /\ max_entries (evict_while fuel w) = max_entries w.
Proof.
  revert w. induction fuel as [|fuel IH]; intros w Hm Hf; cbn [evict_while]; [lia|].
  destruct (Nat.leb_spec (max_entries w) (len w)) as [Hle|Hlt]; [|done].
  assert (entries w <> []) as Hne by (unfold len in *; destruct (entries w); cbn in *; [lia|done]).
  destruct (IH (evict_one w)) as [H1 H2]; [by rewrite max_evict_one|rewrite len_evict_one by done; lia|].
  by rewrite max_evict_one in *.
Qed.

Lemma length_live now l : (length (live now l) <= length l)%nat.
Proof. apply List.filter_length_le. Qed.

Lemma push_shape now e w :
  (1 <= max_entries w)%nat ->
  let l := live now (entries w) in
  max_entries (push now e w) = max_entries w /\ (len (push now e w) <= max_entries w)%nat /\
  ((length l < max_entries w)%nat -> entries (push now e w) = l ++ [e]) /\
  (length l = max_entries w -> entries (push now e w) = base.delete (victim l) l ++ [e]).
Proof.
  intros Hm l. unfold push, evict_expired_at. set (w1 := with_entries w (live now (entries w))).
  destruct (evict_while_len (len w1) w1 Hm (le_n _)) as [Hlen Hmax].
  split_and!.
  - exact Hmax.
  - cbn [len with_entries entries]. unfold len in Hlen |- *. cbn. rewrite length_app. cbn. cbn in Hlen. lia.
  - intros Hlt. subst l. destruct (len w1) as [|n] eqn:El; cbn [evict_while]; [done|].
    rewrite El. destruct (Nat.leb_spec (max_entries w1) (S n)) as [Hle|_]; [|done].
    unfold len in El. cbn in *. lia.
  - intros Heq. subst l. assert (len w1 = max_entries w) as El by done.
    rewrite El. destruct (max_entries w) as [|m] eqn:Em; [lia|]. cbn [evict_while].
    assert (max_entries w1 = S m) as -> by done. rewrite El, Nat.leb_refl.
    assert (entries w1 <> []) as Hne by (unfold len in El; destruct (entries w1); done).
    assert (len (evict_one w1) = m) as Hl1 by (rewrite len_evict_one; [lia|done]).
    assert (evict_while m (evict_one w1) = evict_one w1) as ->.
    { destruct m as [|m]; cbn [evict_while]; [done|]. rewrite Hl1, max_evict_one.
      destruct (Nat.leb_spec (max_entries w1) (S m)) as [Hle|_]; [cbn in Hle; lia|done]. }
    unfold evict_one. destruct (entries w1) eqn:Ew; [done|]. cbn in Ew. by rewrite Ew.
Qed.

Lemma window_ok_step w w' : step w w' -> window_ok w -> window_ok w'.
Proof.
  intros [c v] [Hl Hm]. destruct c as [now e|fresh now now' scope text score|now|]; cbn [run_call].
  - destruct (push_shape now e v Hm) as (H1 & H2 & _). split; lia.
  - cbn [fst push_with_default_ttl].
    match goal with |- context [push now' ?e v] => destruct (push_shape now' e v Hm) as (H1 & H2 & _) end. split; lia.
  - split; [|done]. unfold evict_expired, evict_expired_at, len in *. cbn.
    pose proof (length_live now (entries v)). lia.
  - split; [cbn; lia|done].
Qed.

(** The window is bounded and drops the right entry.  In every window
    reached from [new] there are at most [max_entries] entries, and never is the
    cap zero.  A push keeps the unexpired entries in their order and appends the
    new one; only when they fill the window does it drop one of them, the first
    that is of lowest score under the total order of [total_cmp] (NaN included)
    and oldest among equals; and the context handed out consists of the live
    entries in insertion order. *)
Theorem working_memory_bounded max t w now e :
  rtc step (new max t) w ->
  let l := live now (entries w) in
  let w' := push now e w in
  (len w <= max_entries w)%nat /\ max_entries w = Nat.max max 1 /\ (len w' <= max_entries w)%nat /\
  ((length l < max_entries w)%nat -> entries w' = l ++ [e]) /\
  ((max_entries w <= length l)%nat -> exists x, l !! victim l = Some x /\
     entries w' = base.delete (victim l) l ++ [e] /\
     (forall y, y ∈ l -> evict_le x y) /\
     (forall j y, (j < victim l)%nat -> l !! j = Some y -> ~ evict_le y x)) /\
  (forall now' x, x ∈ get_context now' w' <-> x ∈ entries w' /\ is_live now' x = true).
Proof.
  intros Hrun l w'.
  assert (Hok : window_ok w /\ max_entries w = Nat.max max 1).
  { apply (rtc_preserves step (fun w => window_ok w /\ max_entries w = Nat.max max 1) _ _) in Hrun; [done| |].
    - intros x y Hs [Hx Hmx]. split; [by eapply window_ok_step|]. destruct Hs as [c v].
      destruct c as [n0 e0|fresh n0 n1 scope text score|n0|]; cbn [run_call]; [| |done..];
        rewrite <- Hmx; apply push_shape, Hx.
    - split; [|done]. split; unfold len; cbn; lia. }
  destruct Hok as [[Hl Hm] Hmax]. destruct (push_shape now e w Hm) as (H1 & H2 & H3 & H4).
  split_and!; [done|done|done|done| |].
  - intros Hfull. pose proof (length_live now (entries w)) as Hle. unfold len in Hl.
    assert (length l = max_entries w) as Heq by (subst l; lia).
    destruct (victim_spec l) as (x & Hx & Hmin & Hfirst); [destruct l; cbn in *; [lia|done]|].
    exists x. auto.
  - intros now' x. unfold get_context, live. rewrite !list_elem_of_In, List.filter_In. done.
Qed.

(** ** A concrete window *)

Definition entry (i : uuid) (at_ : instant) (score : f64) : WorkingMemoryEntry := new_entry i at_ 1 "note" 100 score.
Definition full_window : WorkingMemory :=
  foldl (fun w c => run_call c w) (new 3 100)
    [Push 1 (entry 1 1 (f64_lit 1 2)); Push 2 (entry 2 2 S754_nan); Push 3 (entry 3 3 (f64_lit 1 4))].

Lemma full_window_run : rtc step (new 3 100) full_window.
Proof. unfold full_window. cbn [foldl]. do 3 (eapply rtc_l; [apply step_call|]). apply rtc_refl. Defined.

Lemma working_memory_bounded_witness :
  map id (entries (push 4 (entry 4 4 (f64_lit 1 8)) full_window)) = [1; 2; 4]%N /\
  exists x, live 4 (entries full_window) !! victim (live 4 (entries full_window)) = Some x /\
    forall y, y ∈ live 4 (entries full_window) -> evict_le x y.
Proof.
  destruct (working_memory_bounded 3 100 full_window 4 (entry 4 4 (f64_lit 1 8)) full_window_run)
    as (_ & _ & _ & _ & H & _).
  split; [vm_compute; reflexivity|].
  destruct H as (x & Hx & _ & Hmin & _); [vm_compute; lia|]. exists x. split; [exact Hx|exact Hmin].
Defined.
