(* ===== verification/MemoryItems.v ===== *)
(** * Items of the shared memory planes

    What [memory_manager/src/channel_memory.rs], [domain_memory.rs] and
    [tenant_memory.rs] do alike: vectors of records that wrap a [MemoryObject],
    are looked up by its id, closed once and archived after a time to live; and
    the canonical form in which synthesised texts are compared. *)

From S2P Require Import Prelude Float Memory.

Section Items.
Context {Json : Type} {JF : JsonFlags Json}.

(** A record with a [memory] field and an optional instant at which it was
    completed, resolved or deprecated. *)
Class Item (A : Type) := {
  memory : A -> MemoryObject Json;
  with_memory : A -> MemoryObject Json -> A;
  closed_at : A -> option instant;
  with_closed_at : A -> option instant -> A;
  memory_with_memory : forall a m, memory (with_memory a m) = m;
  memory_with_closed_at : forall a t, memory (with_closed_at a t) = memory a;
  closed_at_with_memory : forall a m, closed_at (with_memory a m) = closed_at a;
  closed_at_with_closed_at : forall a t, closed_at (with_closed_at a t) = t
}.

Context {A : Type} {IA : Item A}.

(** [is_complete], [is_resolved], [is_deprecated], and the [list_*] filters of
    the open items. *)
Definition is_closed (a : A) : bool := bool_decide (is_Some (closed_at a)).
Definition list_open (l : list A) : list A := List.filter (fun a => negb (is_closed a)) l.

(** [l.iter_mut().find(|a| a.memory.id == id)], then an update of what it
    found. *)
Fixpoint update_first (i : uuid) (f : A -> A) (l : list A) : option (list A) :=
  match l with
  | [] => None
  | a :: l => if (id (memory a) =? i)%N then Some (f a :: l) else cons a <$> update_first i f l
  end.

(** Closing an item stamps it and touches its memory object. *)
Definition close_item (t1 t2 : instant) (a : A) : A :=
  let a := with_closed_at a (Some t1) in
  with_memory a (with_access (memory a) t2).

(** [matches!(closed_at, Some(at) if (now - at) >= ttl) && state != Archived]. *)
Definition expired (now : instant) (ttl : duration) (a : A) : bool :=
  match closed_at a with
  | Some at_ => (ttl <=? now - at_)%Z && negb (bool_decide (state (memory a) = Archived))
  | None => false
  end.

(** What the sweep does to an item it archives, before dropping it. *)
Definition archive_item (a : A) : A :=
  if bool_decide (state (memory a) = Candidate) then with_memory a (archive_candidate (memory a)).1
  else with_memory a (with_state (memory a) Archived).

(** The loop of the sweeps over one vector: the items kept and the items
    archived. *)
Fixpoint sweep_items (now : instant) (ttl : duration) (l : list A) : list A * list A :=
  match l with
  | [] => ([], [])
  | a :: l =>
      let '(keep, gone) := sweep_items now ttl l in
      if expired now ttl a then (keep, archive_item a :: gone) else (a :: keep, gone)
  end.

(** ** Facts *)

Lemma sweep_items_spec now ttl l :
  (sweep_items now ttl l).1 = List.filter (fun a => negb (expired now ttl a)) l /\
  (sweep_items now ttl l).2 = archive_item <$> List.filter (expired now ttl) l.
Proof.
  induction l as [|a l [IH1 IH2]]; cbn [sweep_items List.filter]; [done|].
  destruct (sweep_items now ttl l) as [keep gone]; cbn in *.
  destruct (expired now ttl a); cbn; by rewrite IH1, IH2.
Qed.

Lemma archive_item_state a : state (memory (archive_item a)) = Archived.
Proof.
  unfold archive_item. case_bool_decide as Hs; rewrite memory_with_memory; [|done].
  unfold archive_candidate, expect. by rewrite Hs.
Qed.

Lemma update_first_spec i f l :
  match update_first i f l with
  | None => forall a, a ∈ l -> id (memory a) <> i
  | Some l' => exists l1 a l2, l = l1 ++ a :: l2 /\ l' = l1 ++ f a :: l2 /\ id (memory a) = i /\
      forall b, b ∈ l1 -> id (memory b) <> i
  end.
Proof.
  induction l as [|a l IH]; cbn [update_first]; [set_solver|].
  destruct (N.eqb_spec (id (memory a)) i) as [Hi|Hi].
  { exists [], a, l. split_and!; [done..|set_solver]. }
  destruct (update_first i f l) as [l'|]; cbn.
  - destruct IH as (l1 & b & l2 & -> & -> & Hb & Hl1). exists (a :: l1), b, l2.
    split_and!; [done..|]. intros c [->|]%elem_of_cons; auto.
  - intros b [->|]%elem_of_cons; auto.
Qed.

Lemma memory_close_item t1 t2 a : memory (close_item t1 t2 a) = with_access (memory a) t2.
Proof. unfold close_item. by rewrite memory_with_memory, memory_with_closed_at. Qed.
Lemma closed_at_close_item t1 t2 a : closed_at (close_item t1 t2 a) = Some t1.
Proof. unfold close_item. by rewrite closed_at_with_memory, closed_at_with_closed_at. Qed.

(** An update that keeps [g] of every item keeps the list of the [g]s. *)
Lemma update_first_fmap {B} (g : A -> B) i f l l' :
  (forall a, g (f a) = g a) -> update_first i f l = Some l' -> g <$> l' = g <$> l.
Proof.
  intros Hg. revert l'. induction l as [|a l IH]; intros l'; cbn [update_first]; [done|].
  destruct (_ =? _)%N; [intros [= <-]; cbn; by rewrite Hg|].
  destruct (update_first i f l) as [x|]; [|done]. intros [= <-]. cbn. by rewrite (IH x).
Qed.

(** An item with another id is left alone. *)
Lemma update_first_keeps i f l l' a :
  update_first i f l = Some l' -> a ∈ l -> id (memory a) <> i -> a ∈ l'.
Proof.
  intros Hu Ha Hi. pose proof (update_first_spec i f l) as H. rewrite Hu in H.
  destruct H as (l1 & b & l2 & -> & -> & Hb & _). rewrite !elem_of_app, !elem_of_cons in *.
  destruct Ha as [?|[->|?]]; [by left|done|by right; right].
Qed.

Lemma elem_of_list_open a l : a ∈ list_open l <-> a ∈ l /\ closed_at a = None.
Proof.
  unfold list_open, is_closed. rewrite !list_elem_of_In, List.filter_In, negb_true_iff, bool_decide_eq_false.
  by rewrite <- eq_None_not_Some.
Qed.

End Items.
#[export] Hint Rewrite @memory_close_item @closed_at_close_item @memory_with_memory @memory_with_closed_at : items.

(** ** Surface texts *)

(** [str::split_whitespace] on UTF-8 bytes: [skip] bytes of a white-space
    character remain to be passed, [cur] is the word so far. *)
Fixpoint split_words (skip : nat) (cur : list N) (l : list N) : list (list N) :=
  let flush := match cur with [] => [] | _ => [cur] end in
  match l with
  | [] => flush
  | b :: rest =>
      match skip with
      | S skip => split_words skip cur rest
      | O =>
          match white_len l with
          | O => split_words 0 (cur ++ [b]) rest
          | S k => flush ++ split_words k [] rest
          end
      end
  end.
Definition split_whitespace (l : list N) : list (list N) := split_words 0 [] l.

(** [.join(" ")]. *)
Fixpoint join_space (ws : list (list N)) : list N :=
  match ws with
  | [] => []
  | [w] => w
  | w :: ws => w ++ 32%N :: join_space ws
  end.

(** [to_ascii_lowercase]. *)
Definition ascii_lower (b : N) : N := if ((65 <=? b) && (b <=? 90))%N then (b + 32)%N else b.

(** [normalise_surface_text], on the bytes of the text. *)
Definition normalise_surface_text (s : string) : list N :=
  ascii_lower <$> join_space (split_whitespace (string_bytes s)).

Example normalise_example :
  normalise_surface_text "  Approved   POLICY v3 " = string_bytes "approved policy v3".
Proof. vm_compute. reflexivity. Qed.
