(* ===== verification/ChannelMemory.v ===== *)
(** * Channel memory ([memory_manager/src/channel_memory.rs])

    The recap, decisions, open questions and active tasks that synthesis keeps
    per channel.  Synthesis runs on overlapping windows, so the same item comes
    back with other spacing and case: the inserts that de-duplicate, and the sweep
    that archives closed items. *)

From S2P Require Import Prelude Float Memory MemoryItems.

Definition DEFAULT_COMPLETED_TASK_TTL_DAYS : Z := 30.
Definition DEFAULT_RESOLVED_QUESTION_TTL_DAYS : Z := 30.

Section Channel.
Context {Json : Type} {JF : JsonFlags Json}.

(** ** Items *)

(** [struct Decision], [struct OpenQuestion], [struct ActiveTask]. *)
Record Decision : Type := mk_decision { d_memory : MemoryObject Json; d_text : string }.
Record OpenQuestion : Type := mk_question {
  q_memory : MemoryObject Json;
  q_text : string;
  resolved_at : option instant
}.
Record ActiveTask : Type := mk_task {
  t_memory : MemoryObject Json;
  t_text : string;
  assignee : option string;
  completed_at : option instant
}.

(** [new] of the three, and [with_assignee]. *)
Definition new_decision (fresh : uuid) (now : instant) (scope : uuid) (text : string) : Decision :=
  mk_decision (new_candidate fresh now scope Important) text.
Definition new_question (fresh : uuid) (now : instant) (scope : uuid) (text : string) : OpenQuestion :=
  mk_question (new_candidate fresh now scope Useful) text None.
Definition new_task (fresh : uuid) (now : instant) (scope : uuid) (text : string) : ActiveTask :=
  mk_task (new_candidate fresh now scope Useful) text None None.
Definition with_assignee (t : ActiveTask) (a : string) : ActiveTask :=
  mk_task (t_memory t) (t_text t) (Some a) (completed_at t).

#[export] Program Instance question_item : Item OpenQuestion := {|
  memory := q_memory;
  with_memory q m := mk_question m (q_text q) (resolved_at q);
  closed_at := resolved_at;
  with_closed_at q t := mk_question (q_memory q) (q_text q) t
|}.
Solve All Obligations with done.
#[export] Program Instance task_item : Item ActiveTask := {|
  memory := t_memory;
  with_memory t m := mk_task m (t_text t) (assignee t) (completed_at t);
  closed_at := completed_at;
  with_closed_at t c := mk_task (t_memory t) (t_text t) (assignee t) c
|}.
Solve All Obligations with done.

(** ** The channel *)

(** [struct ChannelMemoryObject], [struct ChannelDecayReport]. *)
Record ChannelMemoryObject : Type := mk_channel {
  cm_id : uuid;
  cm_scope_id : uuid;
  recap : string;
  decisions : list Decision;
  open_questions : list OpenQuestion;
  active_tasks : list ActiveTask;
  last_synthesis_window : option uuid;
  cm_created_at : instant;
  updated_at : instant
}.
Record ChannelDecayReport : Type := mk_channel_report { tasks_archived : nat; questions_archived : nat }.

Definition with_decisions (c : ChannelMemoryObject) (l : list Decision) (now : instant) : ChannelMemoryObject :=
  mk_channel (cm_id c) (cm_scope_id c) (recap c) l (open_questions c) (active_tasks c)
    (last_synthesis_window c) (cm_created_at c) now.
Definition with_questions (c : ChannelMemoryObject) (l : list OpenQuestion) (now : instant) : ChannelMemoryObject :=
  mk_channel (cm_id c) (cm_scope_id c) (recap c) (decisions c) l (active_tasks c)
    (last_synthesis_window c) (cm_created_at c) now.
Definition with_tasks (c : ChannelMemoryObject) (l : list ActiveTask) (now : instant) : ChannelMemoryObject :=
  mk_channel (cm_id c) (cm_scope_id c) (recap c) (decisions c) (open_questions c) l
    (last_synthesis_window c) (cm_created_at c) now.

(** [ChannelMemoryObject::new], [update_recap]. *)
Definition new (fresh : uuid) (now : instant) (scope : uuid) : ChannelMemoryObject :=
  mk_channel fresh scope EmptyString [] [] [] None now now.
Definition update_recap (now : instant) (text : string) (window : option uuid) (c : ChannelMemoryObject) :
    ChannelMemoryObject :=
  mk_channel (cm_id c) (cm_scope_id c) text (decisions c) (open_questions c) (active_tasks c) window
    (cm_created_at c) now.

(** [add_decision], [add_task], [add_open_question]. *)
Definition add_decision (now : instant) (d : Decision) (c : ChannelMemoryObject) : ChannelMemoryObject * uuid :=
  (with_decisions c (decisions c ++ [d]) now, id (d_memory d)).
Definition add_task (now : instant) (t : ActiveTask) (c : ChannelMemoryObject) : ChannelMemoryObject * uuid :=
  (with_tasks c (active_tasks c ++ [t]) now, id (t_memory t)).
Definition add_open_question (now : instant) (q : OpenQuestion) (c : ChannelMemoryObject) :
    ChannelMemoryObject * uuid :=
  (with_questions c (open_questions c ++ [q]) now, id (q_memory q)).

(** What the de-duplicating inserts compare: [unwrap_or_default] makes a missing
    assignee the empty text. *)
Definition decision_key (d : Decision) : list N := normalise_surface_text (d_text d).
Definition question_key (q : OpenQuestion) : list N := normalise_surface_text (q_text q).
Definition task_key (t : ActiveTask) : list N * list N :=
  (normalise_surface_text (t_text t), default [] (normalise_surface_text <$> assignee t)).

(** [add_decision_dedup], [add_task_dedup], [add_open_question_dedup]. *)
Definition add_decision_dedup (now : instant) (d : Decision) (c : ChannelMemoryObject) :
    ChannelMemoryObject * option uuid :=
  let key := decision_key d in
  if existsb (fun x => bool_decide (decision_key x = key)) (decisions c) then (c, None)
  else let '(c, i) := add_decision now d c in (c, Some i).
Definition add_task_dedup (now : instant) (t : ActiveTask) (c : ChannelMemoryObject) :
    ChannelMemoryObject * option uuid :=
  let '(key, assignee_key) := task_key t in
  if existsb (fun x => bool_decide ((task_key x).1 = key) && bool_decide ((task_key x).2 = assignee_key))
       (active_tasks c) then (c, None)
  else let '(c, i) := add_task now t c in (c, Some i).
Definition add_open_question_dedup (now : instant) (q : OpenQuestion) (c : ChannelMemoryObject) :
    ChannelMemoryObject * option uuid :=
  let key := question_key q in
  if existsb (fun x => bool_decide (question_key x = key)) (open_questions c) then (c, None)
  else let '(c, i) := add_open_question now q c in (c, Some i).

(** [resolve_question], [complete_task]; the clock is read three times. *)
Definition resolve_question (t1 t2 t3 : instant) (i : uuid) : eff ChannelMemoryObject MemoryError unit := fun c =>
  match update_first i (close_item t1 t2) (open_questions c) with
  | None => (c, Err (NotFound i))
  | Some l => (with_questions c l t3, Ok tt)
  end.
Definition complete_task (t1 t2 t3 : instant) (i : uuid) : eff ChannelMemoryObject MemoryError unit := fun c =>
  match update_first i (close_item t1 t2) (active_tasks c) with
  | None => (c, Err (NotFound i))
  | Some l => (with_tasks c l t3, Ok tt)
  end.

(** [list_active_tasks], [list_open_questions]. *)
Definition list_active_tasks (c : ChannelMemoryObject) : list ActiveTask := list_open (active_tasks c).
Definition list_open_questions (c : ChannelMemoryObject) : list OpenQuestion := list_open (open_questions c).

(** [decay_sweep_with], [decay_sweep]: the archived items go out of scope. *)
Definition decay_sweep_with (now : instant) (completed_task_ttl resolved_question_ttl : duration)
    (c : ChannelMemoryObject) : ChannelMemoryObject * ChannelDecayReport :=
  let '(keep_tasks, gone_tasks) := sweep_items now completed_task_ttl (active_tasks c) in
  let '(keep_questions, gone_questions) := sweep_items now resolved_question_ttl (open_questions c) in
  let report := mk_channel_report (length gone_tasks) (length gone_questions) in
  let now' := if ((0 <? tasks_archived report) || (0 <? questions_archived report))%nat then now
              else updated_at c in
  (with_questions (with_tasks c keep_tasks now') keep_questions now', report).
Definition decay_sweep (now : instant) (c : ChannelMemoryObject) : ChannelMemoryObject * ChannelDecayReport :=
  decay_sweep_with now (days DEFAULT_COMPLETED_TASK_TTL_DAYS) (days DEFAULT_RESOLVED_QUESTION_TTL_DAYS) c.

(** ** Runs *)

(** What the synthesis pipeline and the user do to a channel. *)
Inductive call : Type :=
| Recap (now : instant) (text : string) (window : option uuid)
| AddDecision (now : instant) (d : Decision)
| AddTask (now : instant) (t : ActiveTask)
| AddQuestion (now : instant) (q : OpenQuestion)
| Resolve (t1 t2 t3 : instant) (i : uuid)
| Complete (t1 t2 t3 : instant) (i : uuid)
| Sweep (now : instant) (task_ttl question_ttl : duration).
Definition run_call (k : call) (c : ChannelMemoryObject) : ChannelMemoryObject :=
  match k with
  | Recap now text window => update_recap now text window c
  | AddDecision now d => (add_decision_dedup now d c).1
  | AddTask now t => (add_task_dedup now t c).1
  | AddQuestion now q => (add_open_question_dedup now q c).1
  | Resolve t1 t2 t3 i => (resolve_question t1 t2 t3 i c).1
  | Complete t1 t2 t3 i => (complete_task t1 t2 t3 i c).1
  | Sweep now t q => (decay_sweep_with now t q c).1
  end.
Inductive step : ChannelMemoryObject -> ChannelMemoryObject -> Prop :=
| step_call k c : step c (run_call k c).

(** No two items of a list have the same canonical form. *)
Record no_duplicates (c : ChannelMemoryObject) : Prop := {
  nd_decisions : NoDup (decision_key <$> decisions c);
  nd_tasks : NoDup (task_key <$> active_tasks c);
  nd_questions : NoDup (question_key <$> open_questions c)
}.

(** ** Facts *)

Lemma existsb_key {A K} `{EqDecision K} (key : A -> K) (k : K) (l : list A) :
  existsb (fun x => bool_decide (key x = k)) l = true <-> k ∈ key <$> l.
Proof.
  rewrite existsb_exists, list_elem_of_fmap. split; intros (x & H1 & H2); exists x.
  - apply bool_decide_eq_true in H2. by rewrite list_elem_of_In.
  - rewrite <- list_elem_of_In. by rewrite bool_decide_eq_true.
Qed.

Lemma existsb_task_key (t : ActiveTask) (l : list ActiveTask) :
  existsb (fun x => bool_decide ((task_key x).1 = (task_key t).1) && bool_decide ((task_key x).2 = (task_key t).2)) l
  = existsb (fun x => bool_decide (task_key x = task_key t)) l.
Proof.
  induction l as [|x l IH]; cbn [existsb]; [done|]. rewrite IH. f_equal.
  destruct (task_key x) as [a b], (task_key t) as [a' b']; cbn.
  repeat case_bool_decide; naive_solver.
Qed.

Lemma NoDup_fmap_filter {A K} (key : A -> K) (f : A -> bool) (l : list A) :
  NoDup (key <$> l) -> NoDup (key <$> List.filter f l).
Proof.
  induction l as [|x l IH]; cbn; [done|]. intros [Hx Hl]%NoDup_cons. destruct (f x); cbn; [|by apply IH].
  apply NoDup_cons. split; [|by apply IH]. intros (y & Hy & Hin)%list_elem_of_fmap. apply Hx.
  apply list_elem_of_fmap. exists y. split; [done|].
  rewrite list_elem_of_In in Hin |- *. by apply filter_In in Hin as [? _].
Qed.

(** The three inserts. *)
Lemma add_decision_dedup_spec now d c :
  (decision_key d ∈ decision_key <$> decisions c -> add_decision_dedup now d c = (c, None)) /\
  (decision_key d ∉ decision_key <$> decisions c ->
     add_decision_dedup now d c = (with_decisions c (decisions c ++ [d]) now, Some (id (d_memory d)))).
Proof.
  unfold add_decision_dedup. rewrite <- existsb_key.
  destruct (existsb _ _); (split; [intros H|intros H]); try done.
Qed.
Lemma add_open_question_dedup_spec now q c :
  (question_key q ∈ question_key <$> open_questions c -> add_open_question_dedup now q c = (c, None)) /\
  (question_key q ∉ question_key <$> open_questions c ->
     add_open_question_dedup now q c = (with_questions c (open_questions c ++ [q]) now, Some (id (q_memory q)))).
Proof.
  unfold add_open_question_dedup. rewrite <- existsb_key.
  destruct (existsb _ _); (split; [intros H|intros H]); try done.
Qed.
Lemma add_task_dedup_spec now t c :
  (task_key t ∈ task_key <$> active_tasks c -> add_task_dedup now t c = (c, None)) /\
  (task_key t ∉ task_key <$> active_tasks c ->
     add_task_dedup now t c = (with_tasks c (active_tasks c ++ [t]) now, Some (id (t_memory t)))).
Proof.
  unfold add_task_dedup. rewrite <- existsb_key.
  destruct (task_key t) as [k a] eqn:Ek. pose proof (existsb_task_key t (active_tasks c)) as He.
  rewrite Ek in He. cbn [fst snd] in He. rewrite He. clear He.
  destruct (existsb _ _); (split; [intros H|intros H]); try done.
Qed.

Lemma question_key_close t1 t2 q : question_key (close_item t1 t2 q) = question_key q.
Proof. reflexivity. Qed.
Lemma task_key_close t1 t2 t : task_key (close_item t1 t2 t) = task_key t.
Proof. reflexivity. Qed.

Lemma NoDup_snoc {K} (k : K) (l : list K) : NoDup l -> k ∉ l -> NoDup (l ++ [k]).
Proof. intros Hl Hk. apply NoDup_app. split_and!; [done|set_solver|apply NoDup_singleton]. Qed.

Lemma no_duplicates_step c c' : step c c' -> no_duplicates c -> no_duplicates c'.
Proof.
  intros [k v] [Hd Ht Hq]. destruct k as [now text w|now d|now t|now q|t1 t2 t3 i|t1 t2 t3 i|now tt qt]; cbn [run_call].
  - by split.
  - destruct (add_decision_dedup_spec now d v) as [H1 H2].
    destruct (decide (decision_key d ∈ decision_key <$> decisions v)) as [Hin|Hni]; [rewrite H1 by done; by split|].
    rewrite H2 by done. split; cbn; [|done|done]. rewrite fmap_app. by apply NoDup_snoc.
  - destruct (add_task_dedup_spec now t v) as [H1 H2].
    destruct (decide (task_key t ∈ task_key <$> active_tasks v)) as [Hin|Hni]; [rewrite H1 by done; by split|].
    rewrite H2 by done. split; cbn; [done| |done]. rewrite fmap_app. by apply NoDup_snoc.
  - destruct (add_open_question_dedup_spec now q v) as [H1 H2].
    destruct (decide (question_key q ∈ question_key <$> open_questions v)) as [Hin|Hni]; [rewrite H1 by done; by split|].
    rewrite H2 by done. split; cbn; [done|done|]. rewrite fmap_app. by apply NoDup_snoc.
  - unfold resolve_question. destruct (update_first i _ (open_questions v)) as [l|] eqn:El; [|by split].
    split; cbn; [done|done|]. by rewrite (update_first_fmap question_key i _ _ _ (question_key_close t1 t2) El).
  - unfold complete_task. destruct (update_first i _ (active_tasks v)) as [l|] eqn:El; [|by split].
    split; cbn; [done| |done]. by rewrite (update_first_fmap task_key i _ _ _ (task_key_close t1 t2) El).
  - unfold decay_sweep_with. destruct (sweep_items_spec now tt (active_tasks v)) as [Hk _].
    destruct (sweep_items_spec now qt (open_questions v)) as [Hkq _].
    destruct (sweep_items now tt (active_tasks v)) as [kt gt], (sweep_items now qt (open_questions v)) as [kq gq].
    cbn in Hk, Hkq. subst kt kq. split; cbn; [done|by apply NoDup_fmap_filter..].
Qed.

(** A channel never lists the same thing twice.  However synthesis, the
    user and the sweeps interleave, the decisions, the tasks with their assignees
    and the questions of a channel differ pairwise in canonical form.  An insert
    of an item already listed, closed or not, answers [None] and changes nothing;
    any other is appended and answers its id.  Completing or resolving stamps the
    first item with the id, or refuses without a trace.  A sweep removes exactly
    the items closed for at least their time to live and not archived before,
    marks them archived, counts them, and touches [updated_at] only then. *)
Theorem channel_no_duplicates fresh t0 scope c now d t q i t1 t2 t3 task_ttl question_ttl :
  rtc step (new fresh t0 scope) c ->
  no_duplicates c /\
  add_decision_dedup now d c
    = (if bool_decide (decision_key d ∈ decision_key <$> decisions c) then (c, None)
       else (with_decisions c (decisions c ++ [d]) now, Some (id (d_memory d)))) /\
  add_task_dedup now t c
    = (if bool_decide (task_key t ∈ task_key <$> active_tasks c) then (c, None)
       else (with_tasks c (active_tasks c ++ [t]) now, Some (id (t_memory t)))) /\
  add_open_question_dedup now q c
    = (if bool_decide (question_key q ∈ question_key <$> open_questions c) then (c, None)
       else (with_questions c (open_questions c ++ [q]) now, Some (id (q_memory q)))) /\
  ((exists l1 x l2, active_tasks c = l1 ++ x :: l2 /\ id (memory x) = i /\ (forall y, y ∈ l1 -> id (memory y) <> i) /\
      complete_task t1 t2 t3 i c = (with_tasks c (l1 ++ close_item t1 t2 x :: l2) t3, Ok tt)) \/
   ((forall x, x ∈ active_tasks c -> id (memory x) <> i) /\ complete_task t1 t2 t3 i c = (c, Err (NotFound i)))) /\
  (let '(c', report) := decay_sweep_with now task_ttl question_ttl c in
   active_tasks c' = List.filter (fun x => negb (expired now task_ttl x)) (active_tasks c) /\
   open_questions c' = List.filter (fun x => negb (expired now question_ttl x)) (open_questions c) /\
   tasks_archived report = length (List.filter (expired now task_ttl) (active_tasks c)) /\
   questions_archived report = length (List.filter (expired now question_ttl) (open_questions c)) /\
   decisions c' = decisions c /\ recap c' = recap c).
Proof.
  intros Hrun.
  assert (Hnd : no_duplicates c).
  { apply (rtc_preserves step no_duplicates _ _ no_duplicates_step Hrun). split; apply NoDup_nil_2. }
  split; [done|]. split_and!.
  - destruct (add_decision_dedup_spec now d c) as [H1 H2]. case_bool_decide; auto.
  - destruct (add_task_dedup_spec now t c) as [H1 H2]. case_bool_decide; auto.
  - destruct (add_open_question_dedup_spec now q c) as [H1 H2]. case_bool_decide; auto.
  - unfold complete_task. pose proof (update_first_spec i (close_item t1 t2) (active_tasks c)) as Hs.
    destruct (update_first i _ (active_tasks c)) as [l|].
    + left. destruct Hs as (l1 & x & l2 & H1 & -> & H3 & H4). exists l1, x, l2. auto.
    + right. auto.
  - unfold decay_sweep_with. destruct (sweep_items_spec now task_ttl (active_tasks c)) as [Hk Hg].
    destruct (sweep_items_spec now question_ttl (open_questions c)) as [Hkq Hgq].
    destruct (sweep_items now task_ttl (active_tasks c)) as [kt gt],
      (sweep_items now question_ttl (open_questions c)) as [kq gq]. cbn in *. subst.
    by rewrite !length_fmap.
Qed.

End Channel.

(** ** A concrete channel *)

Section Demo.
#[local] Instance no_flags : JsonFlags unit := {| json_null := tt; json_flag _ _ := None |}.

Definition task (i : uuid) (text who : string) : ActiveTask := with_assignee (new_task i 0 1 text) who.
Definition demo_channel : ChannelMemoryObject :=
  run_call (AddTask 1 (task 10 "Draft the RFC" "@Sara")) (new 5 0 1).

Lemma demo_channel_run : rtc step (new 5 0 1) demo_channel.
Proof. unfold demo_channel. eapply rtc_l; [apply step_call|]. apply rtc_refl. Defined.

Lemma channel_no_duplicates_witness :
  add_task_dedup 2 (task 11 "  draft  the rfc" "@SARA ") demo_channel = (demo_channel, None).
Proof.
  destruct (channel_no_duplicates 5 0 1 demo_channel 2 (new_decision 1 0 1 "x") (task 11 "  draft  the rfc" "@SARA ")
              (new_question 1 0 1 "y") 1 0 0 0 0 0 demo_channel_run) as (_ & _ & H & _).
  rewrite H. vm_compute. reflexivity.
Defined.

(** The text with the assignee inside is another key than the text with the
    assignee beside it. *)
Example inline_assignee_is_not_collapsed :
  (add_task_dedup 2 (new_task 12 0 1 "@Sara draft the RFC") demo_channel).2 = Some 12%N.
Proof. vm_compute. reflexivity. Qed.
End Demo.
