(* ===== verification/DomainMemory.v ===== *)
(** * Domain memory ([memory_manager/src/domain_memory.rs])

    What synthesis keeps per domain: workstreams, dependencies and risks, which
    a sweep archives some time after they are closed, and procedures, which leave
    the active list only when they are deprecated. *)

From S2P Require Import Prelude Float Memory MemoryItems.

Definition DEFAULT_COMPLETED_WORKSTREAM_TTL_DAYS : Z := 60.
Definition DEFAULT_RESOLVED_RISK_TTL_DAYS : Z := 60.

Section Domain.
Context {Json : Type} {JF : JsonFlags Json}.

(** ** Items *)

(** [struct Workstream], [struct Dependency], [struct Risk], [struct Procedure]. *)
Record Workstream : Type := mk_workstream {
  w_memory : MemoryObject Json;
  w_text : string;
  owner : option string;
  completed_at : option instant
}.
Record Dependency : Type := mk_dependency {
  dep_memory : MemoryObject Json;
  dep_text : string;
  dep_resolved_at : option instant
}.
Record Risk : Type := mk_risk {
  r_memory : MemoryObject Json;
  r_text : string;
  r_resolved_at : option instant
}.
Record Procedure : Type := mk_procedure {
  p_memory : MemoryObject Json;
  p_text : string;
  deprecated_at : option instant
}.

(** [new] of the four, and [with_owner]. *)
Definition new_workstream (fresh : uuid) (now : instant) (scope : uuid) (text : string) : Workstream :=
  mk_workstream (new_candidate fresh now scope Important) text None None.
Definition with_owner (w : Workstream) (o : string) : Workstream :=
  mk_workstream (w_memory w) (w_text w) (Some o) (completed_at w).
Definition new_dependency (fresh : uuid) (now : instant) (scope : uuid) (text : string) : Dependency :=
  mk_dependency (new_candidate fresh now scope Important) text None.
Definition new_risk (fresh : uuid) (now : instant) (scope : uuid) (text : string) : Risk :=
  mk_risk (new_candidate fresh now scope Important) text None.
Definition new_procedure (fresh : uuid) (now : instant) (scope : uuid) (text : string) : Procedure :=
  mk_procedure (new_candidate fresh now scope Critical) text None.

#[export] Program Instance workstream_item : Item Workstream := {|
  memory := w_memory;
  with_memory w m := mk_workstream m (w_text w) (owner w) (completed_at w);
  closed_at := completed_at;
  with_closed_at w t := mk_workstream (w_memory w) (w_text w) (owner w) t
|}.
Solve All Obligations with done.
#[export] Program Instance dependency_item : Item Dependency := {|
  memory := dep_memory;
  with_memory d m := mk_dependency m (dep_text d) (dep_resolved_at d);
  closed_at := dep_resolved_at;
  with_closed_at d t := mk_dependency (dep_memory d) (dep_text d) t
|}.
Solve All Obligations with done.
#[export] Program Instance risk_item : Item Risk := {|
  memory := r_memory;
  with_memory r m := mk_risk m (r_text r) (r_resolved_at r);
  closed_at := r_resolved_at;
  with_closed_at r t := mk_risk (r_memory r) (r_text r) t
|}.
Solve All Obligations with done.
#[export] Program Instance procedure_item : Item Procedure := {|
  memory := p_memory;
  with_memory p m := mk_procedure m (p_text p) (deprecated_at p);
  closed_at := deprecated_at;
  with_closed_at p t := mk_procedure (p_memory p) (p_text p) t
|}.
Solve All Obligations with done.

(** ** The domain *)

(** [struct DomainMemoryObject], [struct DomainDecayReport]. *)
Record DomainMemoryObject : Type := mk_domain {
  dm_id : uuid;
  dm_scope_id : uuid;
  recap : string;
  workstreams : list Workstream;
  dependencies : list Dependency;
  risks : list Risk;
  procedures : list Procedure;
  channel_scopes : list uuid;
  last_synthesis_window : option uuid;
  dm_created_at : instant;
  updated_at : instant
}.
Record DomainDecayReport : Type := mk_domain_report {
  workstreams_archived : nat;
  risks_archived : nat;
  dependencies_archived : nat
}.

(** The vectors replaced, and [updated_at] stamped. *)
Definition with_items (m : DomainMemoryObject) (ws : list Workstream) (ds : list Dependency) (rs : list Risk)
    (ps : list Procedure) (now : instant) : DomainMemoryObject :=
  mk_domain (dm_id m) (dm_scope_id m) (recap m) ws ds rs ps (channel_scopes m) (last_synthesis_window m)
    (dm_created_at m) now.

(** [DomainMemoryObject::new], [update_recap], [attach_channel_scope]. *)
Definition new (fresh : uuid) (now : instant) (scope : uuid) : DomainMemoryObject :=
  mk_domain fresh scope EmptyString [] [] [] [] [] None now now.
Definition update_recap (now : instant) (text : string) (window : option uuid) (m : DomainMemoryObject) :
    DomainMemoryObject :=
  mk_domain (dm_id m) (dm_scope_id m) text (workstreams m) (dependencies m) (risks m) (procedures m)
    (channel_scopes m) window (dm_created_at m) now.
Definition attach_channel_scope (now : instant) (channel : uuid) (m : DomainMemoryObject) : DomainMemoryObject :=
  if negb (bool_decide (channel ∈ channel_scopes m)) then
    mk_domain (dm_id m) (dm_scope_id m) (recap m) (workstreams m) (dependencies m) (risks m) (procedures m)
      (channel_scopes m ++ [channel]) (last_synthesis_window m) (dm_created_at m) now
  else m.

(** [add_workstream], [add_dependency], [add_risk], [add_procedure]. *)
Definition add_workstream (now : instant) (w : Workstream) (m : DomainMemoryObject) : DomainMemoryObject * uuid :=
  (with_items m (workstreams m ++ [w]) (dependencies m) (risks m) (procedures m) now, id (w_memory w)).
Definition add_dependency (now : instant) (d : Dependency) (m : DomainMemoryObject) : DomainMemoryObject * uuid :=
  (with_items m (workstreams m) (dependencies m ++ [d]) (risks m) (procedures m) now, id (dep_memory d)).
Definition add_risk (now : instant) (r : Risk) (m : DomainMemoryObject) : DomainMemoryObject * uuid :=
  (with_items m (workstreams m) (dependencies m) (risks m ++ [r]) (procedures m) now, id (r_memory r)).
Definition add_procedure (now : instant) (p : Procedure) (m : DomainMemoryObject) : DomainMemoryObject * uuid :=
  (with_items m (workstreams m) (dependencies m) (risks m) (procedures m ++ [p]) now, id (p_memory p)).

(** [complete_workstream], [resolve_dependency], [resolve_risk],
    [deprecate_procedure]; the clock is read three times. *)
Definition complete_workstream (t1 t2 t3 : instant) (i : uuid) : eff DomainMemoryObject MemoryError unit := fun m =>
  match update_first i (close_item t1 t2) (workstreams m) with
  | None => (m, Err (NotFound i))
  | Some l => (with_items m l (dependencies m) (risks m) (procedures m) t3, Ok tt)
  end.
Definition resolve_dependency (t1 t2 t3 : instant) (i : uuid) : eff DomainMemoryObject MemoryError unit := fun m =>
  match update_first i (close_item t1 t2) (dependencies m) with
  | None => (m, Err (NotFound i))
  | Some l => (with_items m (workstreams m) l (risks m) (procedures m) t3, Ok tt)
  end.
Definition resolve_risk (t1 t2 t3 : instant) (i : uuid) : eff DomainMemoryObject MemoryError unit := fun m =>
  match update_first i (close_item t1 t2) (risks m) with
  | None => (m, Err (NotFound i))
  | Some l => (with_items m (workstreams m) (dependencies m) l (procedures m) t3, Ok tt)
  end.
Definition deprecate_procedure (t1 t2 t3 : instant) (i : uuid) : eff DomainMemoryObject MemoryError unit := fun m =>
  match update_first i (close_item t1 t2) (procedures m) with
  | None => (m, Err (NotFound i))
  | Some l => (with_items m (workstreams m) (dependencies m) (risks m) l t3, Ok tt)
  end.

(** [list_active_workstreams], [list_open_dependencies], [list_open_risks],
    [list_active_procedures]. *)
Definition list_active_workstreams (m : DomainMemoryObject) : list Workstream := list_open (workstreams m).
Definition list_open_dependencies (m : DomainMemoryObject) : list Dependency := list_open (dependencies m).
Definition list_open_risks (m : DomainMemoryObject) : list Risk := list_open (risks m).
Definition list_active_procedures (m : DomainMemoryObject) : list Procedure := list_open (procedures m).

(** [decay_sweep_with], [decay_sweep]. *)
Definition decay_sweep_with (now : instant) (completed_workstream_ttl resolved_risk_ttl resolved_dependency_ttl : duration)
    (m : DomainMemoryObject) : DomainMemoryObject * DomainDecayReport :=
  let '(keep_workstreams, gone_w) := sweep_items now completed_workstream_ttl (workstreams m) in
  let '(keep_risks, gone_r) := sweep_items now resolved_risk_ttl (risks m) in
  let '(keep_dependencies, gone_d) := sweep_items now resolved_dependency_ttl (dependencies m) in
  let report := mk_domain_report (length gone_w) (length gone_r) (length gone_d) in
  let now' := if ((0 <? workstreams_archived report) || (0 <? risks_archived report)
                  || (0 <? dependencies_archived report))%nat then now else updated_at m in
  (with_items m keep_workstreams keep_dependencies keep_risks (procedures m) now', report).
Definition decay_sweep (now : instant) (m : DomainMemoryObject) : DomainMemoryObject * DomainDecayReport :=
  decay_sweep_with now (days DEFAULT_COMPLETED_WORKSTREAM_TTL_DAYS) (days DEFAULT_RESOLVED_RISK_TTL_DAYS)
    (days DEFAULT_RESOLVED_RISK_TTL_DAYS) m.

(** ** Runs *)

Inductive call : Type :=
| Recap (now : instant) (text : string) (window : option uuid)
| Attach (now : instant) (channel : uuid)
| AddWorkstream (now : instant) (w : Workstream)
| AddDependency (now : instant) (d : Dependency)
| AddRisk (now : instant) (r : Risk)
| AddProcedure (now : instant) (p : Procedure)
| CompleteWorkstream (t1 t2 t3 : instant) (i : uuid)
| ResolveDependency (t1 t2 t3 : instant) (i : uuid)
| ResolveRisk (t1 t2 t3 : instant) (i : uuid)
| DeprecateProcedure (t1 t2 t3 : instant) (i : uuid)
| Sweep (now : instant) (w r d : duration).
Definition run_call (m : DomainMemoryObject) (k : call) : DomainMemoryObject :=
  match k with
  | Recap now text window => update_recap now text window m
  | Attach now channel => attach_channel_scope now channel m
  | AddWorkstream now w => (add_workstream now w m).1
  | AddDependency now d => (add_dependency now d m).1
  | AddRisk now r => (add_risk now r m).1
  | AddProcedure now p => (add_procedure now p m).1
  | CompleteWorkstream t1 t2 t3 i => (complete_workstream t1 t2 t3 i m).1
  | ResolveDependency t1 t2 t3 i => (resolve_dependency t1 t2 t3 i m).1
  | ResolveRisk t1 t2 t3 i => (resolve_risk t1 t2 t3 i m).1
  | DeprecateProcedure t1 t2 t3 i => (deprecate_procedure t1 t2 t3 i m).1
  | Sweep now w r d => (decay_sweep_with now w r d m).1
  end.
Definition run (ks : list call) (m : DomainMemoryObject) : DomainMemoryObject := foldl run_call m ks.

(** ** Facts *)

Lemma procedures_sweep now w r d m : procedures (decay_sweep_with now w r d m).1 = procedures m.
Proof. unfold decay_sweep_with. by destruct (sweep_items _ _ _), (sweep_items _ _ _), (sweep_items _ _ _). Qed.

Lemma scopes_sweep now w r d m : channel_scopes (decay_sweep_with now w r d m).1 = channel_scopes m.
Proof. unfold decay_sweep_with. by destruct (sweep_items _ _ _), (sweep_items _ _ _), (sweep_items _ _ _). Qed.

Lemma procedure_step k m p :
  p ∈ procedures m -> (forall t1 t2 t3, k <> DeprecateProcedure t1 t2 t3 (id (p_memory p))) ->
  p ∈ procedures (run_call m k).
Proof.
  intros Hp Hk. destruct k as [| |now w|now d|now r|now q|t1 t2 t3 i|t1 t2 t3 i|t1 t2 t3 i|t1 t2 t3 i|now w r d];
    cbn [run_call]; try done.
  - unfold attach_channel_scope. by case_bool_decide.
  - cbn. apply elem_of_app. by left.
  - unfold complete_workstream. by destruct (update_first _ _ _).
  - unfold resolve_dependency. by destruct (update_first _ _ _).
  - unfold resolve_risk. by destruct (update_first _ _ _).
  - unfold deprecate_procedure. destruct (update_first _ _ _) as [l|] eqn:El; [|done]. cbn.
    apply (update_first_keeps _ _ _ _ _ El Hp). cbn. intros Hi. apply (Hk t1 t2 t3). by rewrite Hi.
  - by rewrite procedures_sweep.
Qed.

Lemma scopes_step k m : NoDup (channel_scopes m) -> NoDup (channel_scopes (run_call m k)).
Proof.
  intros Hm. destruct k as [|now c|now w|now d|now r|now q|t1 t2 t3 i|t1 t2 t3 i|t1 t2 t3 i|t1 t2 t3 i|now w r d];
    cbn [run_call]; try done.
  - unfold attach_channel_scope. case_bool_decide as Hc; [done|]. cbn.
    apply NoDup_app. split_and!; [done|set_solver|apply NoDup_singleton].
  - unfold complete_workstream. by destruct (update_first _ _ _).
  - unfold resolve_dependency. by destruct (update_first _ _ _).
  - unfold resolve_risk. by destruct (update_first _ _ _).
  - unfold deprecate_procedure. by destruct (update_first _ _ _).
  - by rewrite scopes_sweep.
Qed.

(** Procedures do not decay, the other items do on time.  Whatever is done
    to a domain, sweeps included, an active procedure stays active, unchanged,
    until a call deprecates its id; the registered channels are listed once each;
    and a sweep removes exactly the workstreams, risks and dependencies closed for
    at least their time to live and not archived before, counts them, and touches
    nothing else. *)
Theorem domain_memory_spec fresh t0 scope ks ks' p now wt rt dt :
  let m := run ks (new fresh t0 scope) in
  (p ∈ list_active_procedures m ->
   (forall t1 t2 t3, DeprecateProcedure t1 t2 t3 (id (p_memory p)) ∉ ks') ->
   p ∈ list_active_procedures (run ks' m)) /\
  NoDup (channel_scopes m) /\
  (let '(m', report) := decay_sweep_with now wt rt dt m in
   workstreams m' = List.filter (fun x => negb (expired now wt x)) (workstreams m) /\
   risks m' = List.filter (fun x => negb (expired now rt x)) (risks m) /\
   dependencies m' = List.filter (fun x => negb (expired now dt x)) (dependencies m) /\
   procedures m' = procedures m /\ channel_scopes m' = channel_scopes m /\ recap m' = recap m /\
   workstreams_archived report = length (List.filter (expired now wt) (workstreams m)) /\
   risks_archived report = length (List.filter (expired now rt) (risks m)) /\
   dependencies_archived report = length (List.filter (expired now dt) (dependencies m))).
Proof.
  intros m. split_and!.
  - unfold list_active_procedures. rewrite !elem_of_list_open. intros [Hp Hopen] Hks. split; [|done].
    unfold run. generalize dependent m. clear ks. induction ks' as [|k ks' IH]; intros m Hp; [done|].
    cbn [foldl]. apply IH.
    + intros t1 t2 t3 Hin. apply (Hks t1 t2 t3). by right.
    + apply procedure_step; [done|]. intros t1 t2 t3 ->. apply (Hks t1 t2 t3). by left.
  - subst m. unfold run. apply (foldl_preserves (fun m => NoDup (channel_scopes m))); [|apply NoDup_nil_2].
    intros m k. apply scopes_step.
  - unfold decay_sweep_with.
    destruct (sweep_items_spec now wt (workstreams m)) as [H1 H2], (sweep_items_spec now rt (risks m)) as [H3 H4],
      (sweep_items_spec now dt (dependencies m)) as [H5 H6].
    destruct (sweep_items now wt _), (sweep_items now rt _), (sweep_items now dt _). cbn in *. subst.
    by rewrite !length_fmap.
Qed.

End Domain.

(** ** A concrete domain *)

Section Demo.
#[local] Instance no_flags : JsonFlags unit := {| json_null := tt; json_flag _ _ := None |}.
Definition demo_procedure : Procedure := new_procedure 7 0 1 "deploy on green CI".

Lemma domain_memory_spec_witness :
  demo_procedure ∈ list_active_procedures
    (run [Sweep (days 9000) 0 0 0; DeprecateProcedure 1 1 1 8] (run [AddProcedure 0 demo_procedure] (new 5 0 1))).
Proof.
  apply (domain_memory_spec 5 0 1 [AddProcedure 0 demo_procedure] [Sweep (days 9000) 0 0 0; DeprecateProcedure 1 1 1 8]
           demo_procedure 0 0 0 0).
  - vm_compute. left.
  - intros t1 t2 t3 Hin. apply elem_of_cons in Hin as [H|Hin]; [discriminate|].
    apply elem_of_cons in Hin as [H|Hin]; [injection H; discriminate|]. by apply elem_of_nil in Hin.
Defined.
End Demo.
