(* ===== verification/TenantMemory.v ===== *)
(** * Tenant memory ([memory_manager/src/tenant_memory.rs])

    The institutional memory of a tenant: canonical policies, product taxonomy
    and stable facts, all of [Critical] sensitivity.  Nothing here decays: an item
    leaves the active lists only when it is deprecated by name, and no sweep of
    [decay.rs] moves it. *)

From S2P Require Import Prelude Float Memory MemoryItems MemoryPolicy.

(** [enum TenantMemoryError]. *)
Inductive TenantMemoryError : Type :=
| NotFound (i : uuid)
| NotCritical (c : SensitivityClass)
| PassiveDecayForbidden.

Section TenantMemory.
Context {Json : Type} {JF : JsonFlags Json} {LM : Libm}.

(** ** Items *)

(** [struct CanonicalPolicy], [struct ProductTaxonomyEntry],
    [struct StableOrgKnowledge], [struct ApprovedDocumentRef]. *)
Record CanonicalPolicy : Type := mk_policy {
  cp_memory : MemoryObject Json;
  cp_text : string;
  cp_deprecated_at : option instant;
  cp_superseded_by : option uuid
}.
Record ProductTaxonomyEntry : Type := mk_taxonomy {
  te_memory : MemoryObject Json;
  label : string;
  parent : option uuid;
  te_deprecated_at : option instant
}.
Record StableOrgKnowledge : Type := mk_fact {
  sf_memory : MemoryObject Json;
  sf_text : string;
  sf_deprecated_at : option instant;
  sf_superseded_by : option uuid
}.
Record ApprovedDocumentRef : Type := mk_document {
  doc_id : uuid;
  doc_label : string;
  approved_at : instant;
  approver : string
}.

(** [new] of the four, and [with_parent]. *)
Definition new_policy (fresh : uuid) (now : instant) (scope : uuid) (text : string) : CanonicalPolicy :=
  mk_policy (new_candidate fresh now scope Critical) text None None.
Definition new_taxonomy (fresh : uuid) (now : instant) (scope : uuid) (text : string) : ProductTaxonomyEntry :=
  mk_taxonomy (new_candidate fresh now scope Critical) text None None.
Definition with_parent (e : ProductTaxonomyEntry) (p : uuid) : ProductTaxonomyEntry :=
  mk_taxonomy (te_memory e) (label e) (Some p) (te_deprecated_at e).
Definition new_fact (fresh : uuid) (now : instant) (scope : uuid) (text : string) : StableOrgKnowledge :=
  mk_fact (new_candidate fresh now scope Critical) text None None.
Definition new_document (fresh : uuid) (now : instant) (text who : string) : ApprovedDocumentRef :=
  mk_document fresh text now who.

#[export] Program Instance policy_item : Item CanonicalPolicy := {|
  memory := cp_memory;
  with_memory p m := mk_policy m (cp_text p) (cp_deprecated_at p) (cp_superseded_by p);
  closed_at := cp_deprecated_at;
  with_closed_at p t := mk_policy (cp_memory p) (cp_text p) t (cp_superseded_by p)
|}.
Solve All Obligations with done.
#[export] Program Instance taxonomy_item : Item ProductTaxonomyEntry := {|
  memory := te_memory;
  with_memory e m := mk_taxonomy m (label e) (parent e) (te_deprecated_at e);
  closed_at := te_deprecated_at;
  with_closed_at e t := mk_taxonomy (te_memory e) (label e) (parent e) t
|}.
Solve All Obligations with done.
#[export] Program Instance fact_item : Item StableOrgKnowledge := {|
  memory := sf_memory;
  with_memory f m := mk_fact m (sf_text f) (sf_deprecated_at f) (sf_superseded_by f);
  closed_at := sf_deprecated_at;
  with_closed_at f t := mk_fact (sf_memory f) (sf_text f) t (sf_superseded_by f)
|}.
Solve All Obligations with done.

(** ** The tenant *)

(** [struct TenantMemoryObject]. *)
Record TenantMemoryObject : Type := mk_tenant_memory {
  tm_id : uuid;
  tm_scope_id : uuid;
  summary : string;
  policies : list CanonicalPolicy;
  taxonomy : list ProductTaxonomyEntry;
  stable_facts : list StableOrgKnowledge;
  domain_scopes : list uuid;
  approved_documents : list ApprovedDocumentRef;
  last_synthesis_window : option uuid;
  tm_created_at : instant;
  updated_at : instant
}.
Definition with_items (m : TenantMemoryObject) (ps : list CanonicalPolicy) (ts : list ProductTaxonomyEntry)
    (fs : list StableOrgKnowledge) (now : instant) : TenantMemoryObject :=
  mk_tenant_memory (tm_id m) (tm_scope_id m) (summary m) ps ts fs (domain_scopes m) (approved_documents m)
    (last_synthesis_window m) (tm_created_at m) now.
Definition with_sources (m : TenantMemoryObject) (ds : list uuid) (docs : list ApprovedDocumentRef) (now : instant) :
    TenantMemoryObject :=
  mk_tenant_memory (tm_id m) (tm_scope_id m) (summary m) (policies m) (taxonomy m) (stable_facts m) ds docs
    (last_synthesis_window m) (tm_created_at m) now.

(** [TenantMemoryObject::new], [update_summary]. *)
Definition new (fresh : uuid) (now : instant) (scope : uuid) : TenantMemoryObject :=
  mk_tenant_memory fresh scope EmptyString [] [] [] [] [] None now now.
Definition update_summary (now : instant) (text : string) (window : option uuid) (m : TenantMemoryObject) :
    TenantMemoryObject :=
  mk_tenant_memory (tm_id m) (tm_scope_id m) text (policies m) (taxonomy m) (stable_facts m) (domain_scopes m)
    (approved_documents m) window (tm_created_at m) now.

(** [attach_domain_scope], [admit_approved_document],
    [revoke_approved_document]. *)
Definition attach_domain_scope (now : instant) (domain : uuid) (m : TenantMemoryObject) : TenantMemoryObject :=
  if negb (bool_decide (domain ∈ domain_scopes m))
  then with_sources m (domain_scopes m ++ [domain]) (approved_documents m) now else m.
Definition admit_approved_document (now : instant) (doc : ApprovedDocumentRef) (m : TenantMemoryObject) :
    TenantMemoryObject :=
  if negb (existsb (fun d => (doc_id d =? doc_id doc)%N) (approved_documents m))
  then with_sources m (domain_scopes m) (approved_documents m ++ [doc]) now else m.
Definition revoke_approved_document (now : instant) (i : uuid) : eff TenantMemoryObject TenantMemoryError unit := fun m =>
  let before := length (approved_documents m) in
  let kept := List.filter (fun d => negb (doc_id d =? i)%N) (approved_documents m) in
  if (length kept =? before)%nat
  then (with_sources m (domain_scopes m) kept (updated_at m), Err (NotFound i))
  else (with_sources m (domain_scopes m) kept now, Ok tt).

(** [require_critical]. *)
Definition require_critical (o : MemoryObject Json) : result unit TenantMemoryError :=
  if negb (bool_decide (sensitivity_class o = Critical)) then Err (NotCritical (sensitivity_class o)) else Ok tt.

(** [add_policy], [add_taxonomy_entry], [add_stable_fact]. *)
Definition add_policy (now : instant) (p : CanonicalPolicy) : eff TenantMemoryObject TenantMemoryError uuid := fun m =>
  match require_critical (cp_memory p) with
  | Err e => (m, Err e)
  | Ok _ => (with_items m (policies m ++ [p]) (taxonomy m) (stable_facts m) now, Ok (id (cp_memory p)))
  end.
Definition add_taxonomy_entry (now : instant) (e : ProductTaxonomyEntry) :
    eff TenantMemoryObject TenantMemoryError uuid := fun m =>
  match require_critical (te_memory e) with
  | Err err => (m, Err err)
  | Ok _ => (with_items m (policies m) (taxonomy m ++ [e]) (stable_facts m) now, Ok (id (te_memory e)))
  end.
Definition add_stable_fact (now : instant) (f : StableOrgKnowledge) :
    eff TenantMemoryObject TenantMemoryError uuid := fun m =>
  match require_critical (sf_memory f) with
  | Err e => (m, Err e)
  | Ok _ => (with_items m (policies m) (taxonomy m) (stable_facts m ++ [f]) now, Ok (id (sf_memory f)))
  end.

(** [if let Some(s) = superseded_by { memory.superseded_by = Some(s) }]. *)
Definition point_to (by_ : option uuid) (o : MemoryObject Json) : MemoryObject Json :=
  match by_ with Some s => with_superseded_by o (Some s) | None => o end.

(** [deprecate_policy], [deprecate_taxonomy_entry], [deprecate_stable_fact]. *)
Definition deprecate_policy (t1 t2 t3 : instant) (i : uuid) (by_ : option uuid) :
    eff TenantMemoryObject TenantMemoryError unit := fun m =>
  let f p := let p := close_item t1 t2 p in
             mk_policy (point_to by_ (cp_memory p)) (cp_text p) (cp_deprecated_at p) by_ in
  match update_first i f (policies m) with
  | None => (m, Err (NotFound i))
  | Some l => (with_items m l (taxonomy m) (stable_facts m) t3, Ok tt)
  end.
Definition deprecate_taxonomy_entry (t1 t2 t3 : instant) (i : uuid) :
    eff TenantMemoryObject TenantMemoryError unit := fun m =>
  match update_first i (close_item t1 t2) (taxonomy m) with
  | None => (m, Err (NotFound i))
  | Some l => (with_items m (policies m) l (stable_facts m) t3, Ok tt)
  end.
Definition deprecate_stable_fact (t1 t2 t3 : instant) (i : uuid) (by_ : option uuid) :
    eff TenantMemoryObject TenantMemoryError unit := fun m =>
  let f x := let x := close_item t1 t2 x in
             mk_fact (point_to by_ (sf_memory x)) (sf_text x) (sf_deprecated_at x) by_ in
  match update_first i f (stable_facts m) with
  | None => (m, Err (NotFound i))
  | Some l => (with_items m (policies m) (taxonomy m) l t3, Ok tt)
  end.

(** [list_active_policies], [list_active_taxonomy], [list_active_stable_facts],
    [try_passive_decay]. *)
Definition list_active_policies (m : TenantMemoryObject) : list CanonicalPolicy := list_open (policies m).
Definition list_active_taxonomy (m : TenantMemoryObject) : list ProductTaxonomyEntry := list_open (taxonomy m).
Definition list_active_stable_facts (m : TenantMemoryObject) : list StableOrgKnowledge := list_open (stable_facts m).
Definition try_passive_decay (m : TenantMemoryObject) : result unit TenantMemoryError := Err PassiveDecayForbidden.

(** ** Runs *)

Inductive call : Type :=
| Summary (now : instant) (text : string) (window : option uuid)
| Attach (now : instant) (domain : uuid)
| Admit (now : instant) (doc : ApprovedDocumentRef)
| Revoke (now : instant) (i : uuid)
| AddPolicy (now : instant) (p : CanonicalPolicy)
| AddTaxonomy (now : instant) (e : ProductTaxonomyEntry)
| AddFact (now : instant) (f : StableOrgKnowledge)
| DeprecatePolicy (t1 t2 t3 : instant) (i : uuid) (by_ : option uuid)
| DeprecateTaxonomy (t1 t2 t3 : instant) (i : uuid)
| DeprecateFact (t1 t2 t3 : instant) (i : uuid) (by_ : option uuid).
Definition run_call (m : TenantMemoryObject) (k : call) : TenantMemoryObject :=
  match k with
  | Summary now text window => update_summary now text window m
  | Attach now domain => attach_domain_scope now domain m
  | Admit now doc => admit_approved_document now doc m
  | Revoke now i => (revoke_approved_document now i m).1
  | AddPolicy now p => (add_policy now p m).1
  | AddTaxonomy now e => (add_taxonomy_entry now e m).1
  | AddFact now f => (add_stable_fact now f m).1
  | DeprecatePolicy t1 t2 t3 i b => (deprecate_policy t1 t2 t3 i b m).1
  | DeprecateTaxonomy t1 t2 t3 i => (deprecate_taxonomy_entry t1 t2 t3 i m).1
  | DeprecateFact t1 t2 t3 i b => (deprecate_stable_fact t1 t2 t3 i b m).1
  end.
Definition run (ks : list call) (m : TenantMemoryObject) : TenantMemoryObject := foldl run_call m ks.

(** The memory objects of every item. *)
Definition objects (m : TenantMemoryObject) : list (MemoryObject Json) :=
  (cp_memory <$> policies m) ++ (te_memory <$> taxonomy m) ++ (sf_memory <$> stable_facts m).
(** The typing rule: every item is [Critical], and documents are admitted once. *)
Definition well_typed (m : TenantMemoryObject) : Prop :=
  Forall (fun o => sensitivity_class o = Critical) (objects m) /\
  NoDup (doc_id <$> approved_documents m) /\ NoDup (domain_scopes m).

(** ** Facts *)

Lemma require_critical_spec o :
  require_critical o = (if bool_decide (sensitivity_class o = Critical) then Ok tt else Err (NotCritical (sensitivity_class o))).
Proof. unfold require_critical. by case_bool_decide. Qed.

Lemma Forall_objects (P : MemoryObject Json -> Prop) m :
  Forall P (objects m) <->
  Forall (fun p => P (cp_memory p)) (policies m) /\ Forall (fun e => P (te_memory e)) (taxonomy m) /\
  Forall (fun f => P (sf_memory f)) (stable_facts m).
Proof. unfold objects. by rewrite !Forall_app, !Forall_fmap. Qed.

Lemma Forall_update_first {A} `{Item Json A} (P : A -> Prop) i f l l' :
  (forall a, P a -> P (f a)) -> update_first i f l = Some l' -> Forall P l -> Forall P l'.
Proof.
  intros Hf Hu Hl. pose proof (update_first_spec i f l) as Hs. rewrite Hu in Hs.
  destruct Hs as (l1 & a & l2 & -> & -> & _ & _). rewrite !Forall_app, !Forall_cons in *. naive_solver.
Qed.

Lemma class_point_to by_ o : sensitivity_class (point_to by_ o) = sensitivity_class o.
Proof. by destruct by_. Qed.

Lemma class_step m k :
  Forall (fun o => sensitivity_class o = Critical) (objects m) ->
  Forall (fun o => sensitivity_class o = Critical) (objects (run_call m k)).
Proof.
  rewrite !Forall_objects. intros (Hp & Ht & Hf).
  destruct k as [|now d|now doc|now i|now p|now e|now f|t1 t2 t3 i b|t1 t2 t3 i|t1 t2 t3 i b]; cbn [run_call]; [done|..].
  - unfold attach_domain_scope. by case_bool_decide.
  - unfold admit_approved_document. by destruct (existsb _ _).
  - unfold revoke_approved_document. by destruct (_ =? _)%nat.
  - unfold add_policy. rewrite require_critical_spec. case_bool_decide; [|done]. cbn.
    split_and!; [apply Forall_app; split; [done|by repeat constructor]|done..].
  - unfold add_taxonomy_entry. rewrite require_critical_spec. case_bool_decide; [|done]. cbn.
    split_and!; [done|apply Forall_app; split; [done|by repeat constructor]|done].
  - unfold add_stable_fact. rewrite require_critical_spec. case_bool_decide; [|done]. cbn.
    split_and!; [done|done|apply Forall_app; split; [done|by repeat constructor]].
  - unfold deprecate_policy. destruct (update_first _ _ _) as [l|] eqn:El; [|done]. cbn. split_and!; [|done..].
    eapply Forall_update_first; [|exact El|exact Hp]. intros a Ha. cbn. by rewrite class_point_to.
  - unfold deprecate_taxonomy_entry. destruct (update_first _ _ _) as [l|] eqn:El; [|done]. cbn. split_and!; [done| |done].
    eapply Forall_update_first; [|exact El|exact Ht]. done.
  - unfold deprecate_stable_fact. destruct (update_first _ _ _) as [l|] eqn:El; [|done]. cbn. split_and!; [done|done|].
    eapply Forall_update_first; [|exact El|exact Hf]. intros a Ha. cbn. by rewrite class_point_to.
Qed.

Lemma existsb_doc i l : existsb (fun d => (doc_id d =? i)%N) l = true <-> i ∈ doc_id <$> l.
Proof.
  rewrite existsb_exists, list_elem_of_fmap. split; intros (x & H1 & H2); exists x.
  - apply N.eqb_eq in H2. by rewrite list_elem_of_In.
  - rewrite <- list_elem_of_In. by rewrite H1, N.eqb_refl.
Qed.

Lemma NoDup_filter_doc (f : ApprovedDocumentRef -> bool) l : NoDup (doc_id <$> l) -> NoDup (doc_id <$> List.filter f l).
Proof.
  induction l as [|d l IH]; cbn; [done|]. intros [Hd Hl]%NoDup_cons. destruct (f d); cbn; [|by apply IH].
  apply NoDup_cons. split; [|by apply IH]. intros (y & Hy & Hin)%list_elem_of_fmap. apply Hd.
  apply list_elem_of_fmap. exists y. split; [done|].
  rewrite list_elem_of_In in Hin |- *. by apply filter_In in Hin as [? _].
Qed.

Lemma sources_step m k :
  NoDup (doc_id <$> approved_documents m) -> NoDup (domain_scopes m) ->
  NoDup (doc_id <$> approved_documents (run_call m k)) /\ NoDup (domain_scopes (run_call m k)).
Proof.
  intros Hd Hs.
  destruct k as [|now d|now doc|now i|now p|now e|now f|t1 t2 t3 i b|t1 t2 t3 i|t1 t2 t3 i b]; cbn [run_call]; [done|..].
  - unfold attach_domain_scope. case_bool_decide as Hin; [done|]. cbn. split; [done|].
    apply NoDup_app. split_and!; [done|set_solver|apply NoDup_singleton].
  - unfold admit_approved_document. pose proof (existsb_doc (doc_id doc) (approved_documents m)) as He.
    destruct (existsb _ _); [done|]. cbn. split; [|done]. rewrite fmap_app. apply NoDup_app.
    split_and!; [done| |apply NoDup_singleton]. intros x Hx Hx'. apply list_elem_of_singleton in Hx' as ->.
    by apply He in Hx.
  - unfold revoke_approved_document. destruct (_ =? _)%nat; cbn; (split; [by apply NoDup_filter_doc|done]).
  - unfold add_policy. by destruct (require_critical _).
  - unfold add_taxonomy_entry. by destruct (require_critical _).
  - unfold add_stable_fact. by destruct (require_critical _).
  - unfold deprecate_policy. by destruct (update_first _ _ _).
  - unfold deprecate_taxonomy_entry. by destruct (update_first _ _ _).
  - unfold deprecate_stable_fact. by destruct (update_first _ _ _).
Qed.

Lemma well_typed_run ks m : well_typed m -> well_typed (run ks m).
Proof.
  apply (foldl_preserves well_typed). intros x k (Hc & Hd & Hs). split; [by apply class_step|by apply sources_step].
Qed.

Lemma policy_step m k p :
  p ∈ policies m -> (forall t1 t2 t3 b, k <> DeprecatePolicy t1 t2 t3 (id (cp_memory p)) b) ->
  p ∈ policies (run_call m k).
Proof.
  intros Hp Hk.
  destruct k as [|now d|now doc|now i|now q|now e|now f|t1 t2 t3 i b|t1 t2 t3 i|t1 t2 t3 i b]; cbn [run_call]; [done|..].
  - unfold attach_domain_scope. by case_bool_decide.
  - unfold admit_approved_document. by destruct (existsb _ _).
  - unfold revoke_approved_document. by destruct (_ =? _)%nat.
  - unfold add_policy. destruct (require_critical _); [|done]. cbn. apply elem_of_app. by left.
  - unfold add_taxonomy_entry. by destruct (require_critical _).
  - unfold add_stable_fact. by destruct (require_critical _).
  - unfold deprecate_policy. destruct (update_first _ _ _) as [l|] eqn:El; [|done]. cbn.
    apply (update_first_keeps _ _ _ _ _ El Hp). cbn. intros Hi. apply (Hk t1 t2 t3 b). by rewrite Hi.
  - unfold deprecate_taxonomy_entry. by destruct (update_first _ _ _).
  - unfold deprecate_stable_fact. by destruct (update_first _ _ _).
Qed.

Lemma decay_one_critical now threshold ttl r (o : MemoryObject Json) :
  sensitivity_class o = Critical -> state (decay_one now threshold ttl r o).2 = state o.
Proof. intros Hc. unfold decay_one. cbn. rewrite Hc. by destruct (state o) eqn:E. Qed.

(** C39: tenant memory holds critical items only, and they do not decay.
    Whatever calls are made, every policy, taxonomy entry and fact is [Critical];
    an item of any of the three kinds that is not is refused without a trace;
    documents and domain scopes are listed once each.  An active policy stays active, unchanged, until a call
    deprecates its id; [try_passive_decay] always refuses; and the sweep of
    [decay.rs] over all the items moves none of them, at any time and with any
    threshold. *)
Theorem tenant_memory_typed fresh t0 scope ks ks' p now threshold ttl q :
  let m := run ks (new fresh t0 scope) in
  well_typed m /\
  (sensitivity_class (cp_memory q) <> Critical ->
     add_policy now q m = (m, Err (NotCritical (sensitivity_class (cp_memory q))))) /\
  (forall e, sensitivity_class (te_memory e) <> Critical ->
     add_taxonomy_entry now e m = (m, Err (NotCritical (sensitivity_class (te_memory e))))) /\
  (forall f, sensitivity_class (sf_memory f) <> Critical ->
     add_stable_fact now f m = (m, Err (NotCritical (sensitivity_class (sf_memory f))))) /\
  (p ∈ list_active_policies m ->
   (forall t1 t2 t3 b, DeprecatePolicy t1 t2 t3 (id (cp_memory p)) b ∉ ks') ->
   p ∈ list_active_policies (run ks' m)) /\
  try_passive_decay m = Err PassiveDecayForbidden /\
  state <$> (decay_sweep_with now threshold ttl (objects m)).2 = state <$> objects m.
Proof.
  intros m.
  assert (Hwt : well_typed m).
  { apply well_typed_run. split_and!; [apply Forall_nil_2|apply NoDup_nil_2|apply NoDup_nil_2]. }
  split_and!.
  - done.
  - intros Hq. unfold add_policy. rewrite require_critical_spec. by rewrite bool_decide_eq_false_2.
  - intros e He. unfold add_taxonomy_entry. rewrite require_critical_spec. by rewrite bool_decide_eq_false_2.
  - intros f Hf. unfold add_stable_fact. rewrite require_critical_spec. by rewrite bool_decide_eq_false_2.
  - unfold list_active_policies. rewrite !elem_of_list_open. intros [Hp Hopen] Hks. split; [|done].
    clear Hwt. unfold run. generalize dependent m. clear ks. induction ks' as [|k ks' IH]; intros m Hp; [done|].
    cbn [foldl]. apply IH.
    + intros t1 t2 t3 b Hin. apply (Hks t1 t2 t3 b). by right.
    + apply policy_step; [done|]. intros t1 t2 t3 b ->. apply (Hks t1 t2 t3 b). by left.
  - done.
  - destruct Hwt as (Hc & _ & _). unfold decay_sweep_with. generalize default_report.
    induction Hc as [|o l Ho _ IH]; intros r; [done|]. cbn [map_accum].
    pose proof (decay_one_critical now threshold ttl r o Ho) as Hs.
    destruct (decay_one now threshold ttl r o) as [r' o']. specialize (IH r').
    destruct (map_accum _ r' l) as [r'' l']. cbn in *. by rewrite Hs, IH.
Qed.

End TenantMemory.

(** ** A concrete tenant *)

Section Demo.
#[local] Instance no_flags : JsonFlags unit := {| json_null := tt; json_flag _ _ := None |}.
#[local] Instance no_exp : Libm := {| f64_exp x := x |}.
Definition pii : CanonicalPolicy := new_policy 7 0 1 "PII never leaves jurisdiction".

Lemma tenant_memory_typed_witness :
  pii ∈ list_active_policies (run [DeprecatePolicy 1 1 1 8 None] (run [AddPolicy 0 pii] (new 5 0 1))) /\
  add_policy 2 (mk_policy (new_candidate 9 0 1 Noise) "gossip" None None) (run [AddPolicy 0 pii] (new 5 0 1))
  = (run [AddPolicy 0 pii] (new 5 0 1), Err (NotCritical Noise)).
Proof.
  destruct (tenant_memory_typed 5 0 1 [AddPolicy 0 pii] [DeprecatePolicy 1 1 1 8 None] pii 2 (f64_of_Z 0) 0
              (mk_policy (new_candidate 9 0 1 Noise) "gossip" None None)) as (_ & H1 & _ & _ & H2 & _).
  split; [|apply H1; discriminate]. apply H2.
  - vm_compute. left.
  - intros t1 t2 t3 b Hin. apply elem_of_cons in Hin as [H|Hin]; [injection H; discriminate|]. by apply elem_of_nil in Hin.
Defined.
End Demo.
