(* ===== verification/UserMemory.v ===== *)
(** * User memory ([memory_manager/src/user_memory.rs])

    A user's personal objects: reading, pinning, forgetting and listing.  The
    lifecycle rules are those of [transitions.rs]. *)

From S2P Require Import Prelude Float Memory MemoryPolicy.

(** What the code asks of an object's JSON metadata. *)
Class ObservationJson (Json : Type) := {
  observation_type_of : Json -> option string;
  observation_json : string -> string -> Json;
  observation_type_of_json : forall t c, observation_type_of (observation_json t c) = Some t
}.

Section UserMemory.
Context {Json : Type} {JF : JsonFlags Json} {OJ : ObservationJson Json} {LM : Libm}.

(** [struct MemoryFilter] and its builders. *)
Record MemoryFilter : Type := mk_filter {
  f_states : list MemoryState;
  f_scope_id : option uuid;
  f_observation_type : option string
}.
Definition any : MemoryFilter := mk_filter [] None None.
Definition with_state (f : MemoryFilter) (s : MemoryState) : MemoryFilter :=
  mk_filter (f_states f ++ [s]) (f_scope_id f) (f_observation_type f).
Definition with_scope (f : MemoryFilter) (s : uuid) : MemoryFilter :=
  mk_filter (f_states f) (Some s) (f_observation_type f).
Definition with_observation_type (f : MemoryFilter) (t : string) : MemoryFilter :=
  mk_filter (f_states f) (f_scope_id f) (Some t).

(** [MemoryFilter::matches]. *)
Definition matches (f : MemoryFilter) (o : MemoryObject Json) : bool :=
  if negb (bool_decide (f_states f = [])) && negb (bool_decide (state o ∈ f_states f)) then false
  else if match f_scope_id f with Some s => negb (scope_id o =? s)%N | None => false end then false
  else match f_observation_type f with
       | Some t => bool_decide (observation_type_of (metadata o) = Some t)
       | None => true
       end.

(** [struct UserMemoryObject]. *)
Record UserMemoryObject : Type := mk_user { user_id : uuid; um_scope_id : uuid; objects : list (MemoryObject Json) }.
Definition with_objects (u : UserMemoryObject) (l : list (MemoryObject Json)) : UserMemoryObject :=
  mk_user (user_id u) (um_scope_id u) l.
Definition new (user scope : uuid) : UserMemoryObject := mk_user user scope [].

(** [iter().position(|o| o.id == id)]. *)
Fixpoint position (i : uuid) (l : list (MemoryObject Json)) : option nat :=
  match l with
  | [] => None
  | o :: l => if (id o =? i)%N then Some 0%nat else S <$> position i l
  end.

(** [read], [insert]. *)
Definition read (u : UserMemoryObject) (i : uuid) : option (MemoryObject Json) :=
  List.find (fun o => (id o =? i)%N) (objects u).
Definition insert (o : MemoryObject Json) (u : UserMemoryObject) : UserMemoryObject :=
  with_objects u (objects u ++ [o]).

(** [find_mut] and the update of what it finds. *)
Definition on_object (i : uuid) (f : MemoryObject Json -> MemoryObject Json * result unit MemoryError) :
    eff UserMemoryObject MemoryError unit := fun u =>
  match position i (objects u) with
  | None => (u, Err (NotFound i))
  | Some pos =>
      match objects u !! pos with
      | None => (u, Err (NotFound i))
      | Some o => let '(o, r) := f o in (with_objects u (<[pos := o]> (objects u)), r)
      end
  end.

Definition with_pins (o : MemoryObject Json) (n : N) : MemoryObject Json :=
  mk_object (id o) (scope_id o) (state o) (sensitivity_class o) (retention_score o) (created_at o)
    (last_accessed_at o) (consolidated_at o) (retrieval_count o) n (corroboration_count o)
    (source_refs o) (corroboration_sources o) (superseded_by o) (metadata o).

(** [pin]. *)
Definition pin (now : instant) (i : uuid) : eff UserMemoryObject MemoryError unit :=
  on_object i (fun o =>
    let o := with_access (with_pins o (u32_saturating_add (pin_count o) 1)) now in
    let '(o, r) := if bool_decide (state o = Candidate) then reinforce o else (o, Ok (state o)) in
    match r with
    | Err e => (o, Err e)
    | Ok _ => (with_score o (total (compute_retention_score o now)), Ok tt)
    end).

(** [unpin]. *)
Definition unpin (now : instant) (i : uuid) : eff UserMemoryObject MemoryError unit :=
  on_object i (fun o =>
    let o := with_access (with_pins o (pin_count o - 1)%N) now in
    (with_score o (total (compute_retention_score o now)), Ok tt)).

(** [forget]. *)
Definition forget (i : uuid) : eff UserMemoryObject MemoryError unit := fun u =>
  match position i (objects u) with
  | None => (u, Err (NotFound i))
  | Some pos =>
      match objects u !! pos with
      | None => (u, Err (NotFound i))
      | Some o =>
          if bool_decide (state o = Canonical) then
            match delete_canonical o with
            | (o, Ok _) => (with_objects u (<[pos := o]> (objects u)), Ok tt)
            | (o, Err e) => (with_objects u (<[pos := o]> (objects u)), Err e)
            end
          else (with_objects u (base.delete pos (objects u)), Ok tt)
      end
  end.

(** [list], [add_observation]. *)
Definition list_matching (u : UserMemoryObject) (f : MemoryFilter) : list (MemoryObject Json) :=
  List.filter (matches f) (objects u).
Definition with_metadata (o : MemoryObject Json) (j : Json) : MemoryObject Json :=
  mk_object (id o) (scope_id o) (state o) (sensitivity_class o) (retention_score o) (created_at o)
    (last_accessed_at o) (consolidated_at o) (retrieval_count o) (pin_count o) (corroboration_count o)
    (source_refs o) (corroboration_sources o) (superseded_by o) j.
Definition add_observation (fresh : uuid) (now : instant) (observation_type content : string) (c : SensitivityClass)
    (u : UserMemoryObject) : UserMemoryObject * uuid :=
  let o := with_metadata (new_candidate fresh now (um_scope_id u) c) (observation_json observation_type content) in
  (with_objects u (objects u ++ [o]), id o).

(** [decay_sweep], [decay_sweep_with_policy]. *)
Definition decay_sweep (now : instant) (u : UserMemoryObject) : UserMemoryObject * DecaySweepReport :=
  let '(report, l) := MemoryPolicy.decay_sweep now (objects u) in (with_objects u l, report).
Definition decay_sweep_with_policy (now : instant) (g : PolicyEngine) (tenant : option uuid) (u : UserMemoryObject) :
    UserMemoryObject * DecaySweepReport :=
  let '(report, l) := MemoryPolicy.decay_sweep_with_policy g tenant now (objects u) in (with_objects u l, report).

(** ** Facts *)

Lemma position_first i l :
  match position i l with
  | None => forall o, o ∈ l -> id o <> i
  | Some pos => exists l1 o l2, l = l1 ++ o :: l2 /\ pos = length l1 /\ id o = i /\ (forall x, x ∈ l1 -> id x <> i)
  end.
Proof.
  induction l as [|o l IH]; cbn [position]; [set_solver|].
  destruct (N.eqb_spec (id o) i) as [Hi|Hi]; [exists [], o, l; split_and!; [done..|set_solver]|].
  destruct (position i l) as [pos|]; cbn.
  - destruct IH as (l1 & x & l2 & -> & -> & Hx & Hl1). exists (o :: l1), x, l2. split_and!; [done..|].
    intros y [->|]%elem_of_cons; auto.
  - intros x [->|]%elem_of_cons; auto.
Qed.

Lemma read_first u i l1 o l2 :
  objects u = l1 ++ o :: l2 -> id o = i -> (forall x, x ∈ l1 -> id x <> i) -> read u i = Some o.
Proof.
  intros Hu Hi Hl1. unfold read. rewrite Hu. clear Hu. induction l1 as [|x l1 IH]; cbn.
  - by rewrite Hi, N.eqb_refl.
  - rewrite (proj2 (N.eqb_neq _ _)) by (apply Hl1; left). apply IH. intros y Hy. apply Hl1. by right.
Qed.

Lemma read_none u i : (forall o, o ∈ objects u -> id o <> i) -> read u i = None.
Proof.
  unfold read. induction (objects u) as [|o l IH]; intros H; cbn; [done|].
  rewrite (proj2 (N.eqb_neq _ _)) by (apply H; left). apply IH. intros x Hx. apply H. by right.
Qed.

Lemma matches_spec f o :
  matches f o = true <->
  (f_states f = [] \/ state o ∈ f_states f) /\ (forall s, f_scope_id f = Some s -> scope_id o = s) /\
  (forall t, f_observation_type f = Some t -> observation_type_of (metadata o) = Some t).
Proof.
  unfold matches. destruct (f_scope_id f) as [s|], (f_observation_type f) as [t|];
    try destruct (N.eqb_spec (scope_id o) s); repeat case_bool_decide; cbn; naive_solver.
Qed.

(** The calls on a user's memory.  [read] finds the first object with the
    id.  [pin] and [unpin] change that object only: the pin count by one, within
    the 32 bits, and the access time; a pinned candidate becomes reinforced, any
    other state is kept, and the stored score is the one computed for the new
    object.  [forget] moves a canonical object to [Deleted] in place and drops any
    other; on an unknown id all three are refused without a trace; and the listing
    is the subsequence that meets every restriction of the filter. *)
Theorem user_memory_spec u i now f :
  ((forall o, o ∈ objects u -> id o <> i) /\ read u i = None /\
     pin now i u = (u, Err (NotFound i)) /\ unpin now i u = (u, Err (NotFound i)) /\
     forget i u = (u, Err (NotFound i)) \/
   exists l1 o l2, objects u = l1 ++ o :: l2 /\ (forall x, x ∈ l1 -> id x <> i) /\ read u i = Some o /\
     (exists o', pin now i u = (with_objects u (l1 ++ o' :: l2), Ok tt) /\
        pin_count o' = N.min (pin_count o + 1) u32_max /\ last_accessed_at o' = now /\
        state o' = (if bool_decide (state o = Candidate) then Reinforced else state o) /\
        retention_score o' = total (compute_retention_score o' now) /\ id o' = id o /\ metadata o' = metadata o) /\
     (exists o', unpin now i u = (with_objects u (l1 ++ o' :: l2), Ok tt) /\
        pin_count o' = (pin_count o - 1)%N /\ last_accessed_at o' = now /\ state o' = state o /\
        retention_score o' = total (compute_retention_score o' now) /\ id o' = id o /\ metadata o' = metadata o) /\
     forget i u = (if bool_decide (state o = Canonical)
                   then (with_objects u (l1 ++ Memory.with_state o Deleted :: l2), Ok tt)
                   else (with_objects u (l1 ++ l2), Ok tt))) /\
  (forall o, o ∈ list_matching u f <->
     o ∈ objects u /\ (f_states f = [] \/ state o ∈ f_states f) /\
     (forall s, f_scope_id f = Some s -> scope_id o = s) /\
     (forall t, f_observation_type f = Some t -> observation_type_of (metadata o) = Some t)).
Proof.
  split.
  - pose proof (position_first i (objects u)) as Hp. unfold pin, unpin, forget, on_object.
    destruct (position i (objects u)) as [pos|].
    2: { left. split_and!; [done|by apply read_none|done..]. }
    destruct Hp as (l1 & o & l2 & Hu & -> & Hi & Hl1). right. exists l1, o, l2.
    rewrite Hu, list_lookup_middle by done. split_and!; [done|done|by eapply read_first| | |].
    + case_bool_decide as Hs.
      * unfold reinforce, expect. cbn in Hs. cbn [with_access with_pins state]. rewrite Hs.
        rewrite bool_decide_eq_true_2 by set_solver. cbn [negb]. eexists. split.
        { rewrite insert_app_r_alt, Nat.sub_diag by done. cbn. reflexivity. }
        rewrite (bool_decide_eq_true_2 (Candidate = Candidate)) by done. split_and!; reflexivity.
      * eexists. split; [rewrite insert_app_r_alt, Nat.sub_diag by done; cbn; reflexivity|].
        cbn in Hs. rewrite (bool_decide_eq_false_2 (state o = Candidate)) by done. split_and!; reflexivity.
    + eexists. split; [rewrite insert_app_r_alt, Nat.sub_diag by done; cbn; reflexivity|]. split_and!; reflexivity.
    + case_bool_decide as Hs.
      * unfold delete_canonical, expect. rewrite Hs. rewrite bool_decide_eq_true_2 by set_solver. cbn [negb].
        by rewrite insert_app_r_alt, Nat.sub_diag by done.
      * by rewrite delete_middle.
  - intros o. unfold list_matching. rewrite !(list_elem_of_In _ o), List.filter_In, matches_spec. done.
Qed.

End UserMemory.
