(* ===== verification/Episodic.v ===== *)
(** * Episodic memory ([memory_manager/src/episodic.rs])

    Observations are cut into sessions, each session long enough is summarised,
    and the summaries are kept in a table by id.  The summariser is an interface;
    the stub that concatenates bodies is one implementation of it. *)

From stdpp Require Import sorting.
From S2P Require Import Prelude Float Memory MemoryItems.

(** [Duration::minutes]. *)
Definition minutes (n : Z) : duration := (n * 60000000000)%Z.
Definition DEFAULT_SESSION_GAP : duration := minutes 30.
Definition DEFAULT_MIN_OBSERVATIONS : nat := 2.

(** ** Data *)

(** [struct Observation], [enum SessionBoundary], [struct Session],
    [struct EpisodicSummary]. *)
Record Observation : Type := mk_observation {
  evidence_id : uuid;
  o_scope_id : uuid;
  occurred_at : instant;
  body : string
}.
Inductive SessionBoundary : Type := TimeGap | ExplicitAction | TopicShift.
Definition boundary_str (b : SessionBoundary) : string :=
  match b with TimeGap => "time_gap" | ExplicitAction => "explicit_action" | TopicShift => "topic_shift" end.
Record Session : Type := mk_session {
  s_id : uuid;
  s_scope_id : uuid;
  started_at : instant;
  ended_at : instant;
  boundary : SessionBoundary;
  observations : list Observation
}.
Definition is_summarisable (s : Session) : bool := (DEFAULT_MIN_OBSERVATIONS <=? length (observations s))%nat.
Record EpisodicSummary : Type := mk_summary {
  e_id : uuid;
  e_scope_id : uuid;
  session_id : uuid;
  summary_text : string;
  key_observations : list uuid;
  time_range_start : instant;
  time_range_end : instant;
  e_created_at : instant;
  e_state : MemoryState;
  e_retention_score : f64;
  e_sensitivity_class : SensitivityClass
}.

(** [EpisodicSummary::new_candidate] with the id and the time it draws. *)
Definition new_candidate (fresh : uuid) (now : instant) (scope session : uuid) (text : string) (keys : list uuid)
    (start stop : instant) : EpisodicSummary :=
  mk_summary fresh scope session text keys start stop now Candidate (f64_of_Z 0) Useful.

(** [EpisodicSummary::record_retrieval]. *)
Definition record_retrieval (s : EpisodicSummary) : EpisodicSummary :=
  let st := if bool_decide (e_state s = Candidate) then Reinforced else e_state s in
  let score := f64_min (f64_add (e_retention_score s) (f64_lit 1 10)) (f64_of_Z 1) in
  mk_summary (e_id s) (e_scope_id s) (session_id s) (summary_text s) (key_observations s)
    (time_range_start s) (time_range_end s) (e_created_at s) st score (e_sensitivity_class s).

(** ** Detecting sessions *)

(** [struct SessionDetector] and its default. *)
Record SessionDetector : Type := mk_detector { gap : duration; explicit_markers : list string }.
Definition default_detector : SessionDetector :=
  mk_detector DEFAULT_SESSION_GAP ["/end"; "/wrap"; "session ended"; "let's wrap up"; "ttyl"].

(** [haystack.contains(needle)] on bytes. *)
Fixpoint starts_with (needle l : list N) : bool :=
  match needle, l with
  | [], _ => true
  | _, [] => false
  | a :: needle, b :: l => (a =? b)%N && starts_with needle l
  end.
Fixpoint contains (l needle : list N) : bool :=
  starts_with needle l || match l with [] => false | _ :: l => contains l needle end.
(** [explicit_markers.iter().any(|m| body.to_ascii_lowercase().contains(m))]. *)
Definition has_marker (d : SessionDetector) (text : string) : bool :=
  existsb (fun m => contains (ascii_lower <$> string_bytes text) (string_bytes m)) (explicit_markers d).

(** [close]; the fallbacks of an empty buffer are drawn from [now] and
    [fresh_scope]. *)
Definition close (fresh fresh_scope : uuid) (now : instant) (buf : list Observation) (b : SessionBoundary) : Session :=
  let started := match head buf with Some o => occurred_at o | None => now end in
  let ended := match last buf with Some o => occurred_at o | None => started end in
  let scope := match head buf with Some o => o_scope_id o | None => fresh_scope end in
  mk_session fresh scope started ended b buf.

Section Detect.
(** The identifiers and the times drawn by the n-th [close] of a call. *)
Context (ids scopes : nat -> uuid) (clock : nat -> instant).

(** The locals of [detect]: the sessions closed, the buffer and [last_time]. *)
Record DetectState : Type := mk_detect {
  sessions : list Session;
  current : list Observation;
  last_time : instant
}.
Definition close_current (st : DetectState) (b : SessionBoundary) : list Session :=
  let n := length (sessions st) in sessions st ++ [close (ids n) (scopes n) (clock n) (current st) b].

(** The body of the loop. *)
Definition detect_step (d : SessionDetector) (st : DetectState) (obs : Observation) : DetectState :=
  let scope_changed := match head (current st) with
                       | Some o => negb (o_scope_id obs =? o_scope_id o)%N
                       | None => false
                       end in
  let gap_too_big := (gap d <=? occurred_at obs - last_time st)%Z in
  let explicit := has_marker d (match last (current st) with Some o => body o | None => EmptyString end) in
  if scope_changed || gap_too_big || explicit then
    let b := if explicit then ExplicitAction else if scope_changed then TopicShift else TimeGap in
    mk_detect (close_current st b) [obs] (occurred_at obs)
  else mk_detect (sessions st) (current st ++ [obs]) (occurred_at obs).

(** [detect]. *)
Definition detect (d : SessionDetector) (l : list Observation) : list Session :=
  match l with
  | [] => []
  | o :: l =>
      let st := foldl (detect_step d) (mk_detect [] [o] (occurred_at o)) l in
      close_current st TimeGap
  end.

(** ** Specification of the cuts *)

(** Why a session ends between two neighbouring observations, if it does. *)
Definition cut (d : SessionDetector) (a b : Observation) : option SessionBoundary :=
  if has_marker d (body a) then Some ExplicitAction
  else if negb (o_scope_id b =? o_scope_id a)%N then Some TopicShift
  else if (gap d <=? occurred_at b - occurred_at a)%Z then Some TimeGap
  else None.

(** No cut between neighbours. *)
Fixpoint unbroken (d : SessionDetector) (l : list Observation) : Prop :=
  match l with
  | a :: (b :: _) as l' => cut d a b = None /\ unbroken d l'
  | _ => True
  end.
(** A session covers a maximal stretch without a cut. *)
Definition session_ok (d : SessionDetector) (s : Session) : Prop :=
  exists a l z, observations s = a :: l /\ last (a :: l) = Some z /\ unbroken d (a :: l) /\
    s_scope_id s = o_scope_id a /\ (forall o, o ∈ a :: l -> o_scope_id o = o_scope_id a) /\
    started_at s = occurred_at a /\ ended_at s = occurred_at z.
(** Neighbouring sessions are separated by a cut, which names the boundary. *)
Fixpoint separated (d : SessionDetector) (l : list Session) : Prop :=
  match l with
  | s :: (t :: _) as l' =>
      (exists z a, last (observations s) = Some z /\ head (observations t) = Some a /\ cut d z a = Some (boundary s)) /\
      separated d l'
  | _ => True
  end.
End Detect.

(** ** The loop computes the cuts *)

Section DetectFacts.
Context (ids scopes : nat -> uuid) (clock : nat -> instant) (d : SessionDetector).

Lemma unbroken_snoc l a b : unbroken d (l ++ [a]) -> cut d a b = None -> unbroken d (l ++ [a; b]).
Proof.
  induction l as [|x l IH]; intros Hl Hc; [done|]. destruct l as [|y l]; cbn in *; [tauto|].
  destruct Hl as [? ?]. split; [done|]. by apply IH.
Qed.

Lemma separated_snoc l s t z a :
  separated d (l ++ [s]) -> last (observations s) = Some z -> head (observations t) = Some a ->
  cut d z a = Some (boundary s) -> separated d (l ++ [s; t]).
Proof.
  intros Hl Hz Ha Hc. induction l as [|x l IH]; [cbn; eauto 10|]. destruct l as [|y l]; cbn in *.
  - destruct Hl as [? _]. split; [done|]. eauto 10.
  - destruct Hl as [? ?]. split; [done|]. by apply IH.
Qed.

Lemma unbroken_scope a l o : unbroken d (a :: l) -> o ∈ a :: l -> o_scope_id o = o_scope_id a.
Proof.
  revert a. induction l as [|b l IH]; intros a Hu Ho.
  - by apply list_elem_of_singleton in Ho as ->.
  - destruct Hu as [Hc Hu]. apply elem_of_cons in Ho as [->|Ho]; [done|]. rewrite (IH b Hu Ho).
    unfold cut in Hc. destruct (has_marker d (body a)); [done|].
    destruct (N.eqb_spec (o_scope_id b) (o_scope_id a)); [done|]. done.
Qed.

(** The state of the loop after the observations [seen]. *)
Record detected (seen : list Observation) (st : DetectState) : Prop := {
  de_concat : concat (observations <$> sessions st) ++ current st = seen;
  de_last : exists l z, current st = l ++ [z] /\ last_time st = occurred_at z;
  de_unbroken : unbroken d (current st);
  de_ok : Forall (session_ok d) (sessions st);
  de_separated : forall fresh sc now b, separated d (sessions st ++ [close fresh sc now (current st) b])
}.

Lemma close_ok fresh sc now b l z :
  unbroken d (l ++ [z]) -> session_ok d (close fresh sc now (l ++ [z]) b).
Proof.
  intros Hu. assert (exists a k, l ++ [z] = a :: k) as (a & k & Hl) by (destruct l; eauto).
  exists a, k, z. unfold close. cbn. rewrite last_snoc, Hl. cbn [head observations].
  assert (last (a :: k) = Some z) as Hlast by (by rewrite <- Hl, last_snoc).
  rewrite Hl in Hu. split_and!; try done. intros o Ho. by eapply unbroken_scope.
Qed.

(** The body of the loop, in terms of [cut]. *)
Lemma detect_step_cut st obs l z :
  current st = l ++ [z] -> last_time st = occurred_at z -> unbroken d (l ++ [z]) ->
  detect_step ids scopes clock d st obs =
    match cut d z obs with
    | Some b => mk_detect (close_current ids scopes clock st b) [obs] (occurred_at obs)
    | None => mk_detect (sessions st) (current st ++ [obs]) (occurred_at obs)
    end.
Proof.
  intros Hc Hl Hu. unfold detect_step, cut. rewrite Hl, Hc, last_snoc.
  assert (exists a, head (l ++ [z]) = Some a /\ o_scope_id a = o_scope_id z) as (a & -> & Ha).
  { destruct l as [|a l]; [by exists z|]. exists a. split; [done|]. symmetry.
    apply (unbroken_scope a (l ++ [z])); [exact Hu|]. apply elem_of_cons. right. apply elem_of_app. right. by left. }
  rewrite Ha. destruct (has_marker d (body z)), (N.eqb_spec (o_scope_id obs) (o_scope_id z)),
    (Z.leb_spec (gap d) (occurred_at obs - occurred_at z)); reflexivity.
Qed.

Lemma detected_step seen st obs :
  detected seen st -> detected (seen ++ [obs]) (detect_step ids scopes clock d st obs).
Proof.
  intros [Hcat (l & z & Hcur & Hlast) Hu Hok Hsep].
  rewrite (detect_step_cut st obs l z) by (by rewrite <- ?Hcur). destruct (cut d z obs) as [b|] eqn:Hcut.
  - split; cbn.
    + unfold close_current. rewrite fmap_app, concat_app. cbn. rewrite (right_id_L [] (++)).
      unfold close. cbn [observations]. by rewrite Hcat.
    + by exists [], obs.
    + done.
    + apply Forall_app. split; [done|]. constructor; [|constructor]. rewrite Hcur in Hu |- *. by apply close_ok.
    + intros fresh sc now b'. unfold close_current. rewrite <- (assoc_L (++)). cbn [app].
      apply (separated_snoc _ _ _ z obs); [apply Hsep| |done|done]. cbn. by rewrite Hcur, last_snoc.
  - split; cbn.
    + by rewrite (assoc_L (++)), Hcat.
    + by exists (current st), obs.
    + rewrite Hcur in Hu |- *. rewrite <- (assoc_L (++)). by apply unbroken_snoc.
    + done.
    + intros fresh sc now b'. revert Hsep. generalize (sessions st) as ss. intros ss Hsep.
      specialize (Hsep fresh sc now b'). clear -Hsep Hcur. induction ss as [|s ss IH]; [done|].
      destruct ss as [|t ss]; cbn in *.
      * destruct Hsep as [(z' & a & H1 & H2 & H3) _]. split; [|done]. exists z', a. split_and!; [done| |done].
        rewrite Hcur in H2 |- *. by destruct l.
      * destruct Hsep as [? ?]. split; [done|]. by apply IH.
Qed.

Lemma detected_foldl seen st l :
  detected seen st -> detected (seen ++ l) (foldl (detect_step ids scopes clock d) st l).
Proof.
  revert seen st. induction l as [|o l IH]; intros seen st H; cbn [foldl].
  - by rewrite (right_id_L [] (++)).
  - replace (seen ++ o :: l) with ((seen ++ [o]) ++ l) by (by rewrite <- (assoc_L (++))).
    by apply IH, detected_step.
Qed.

(** The sessions are the maximal stretches between cuts.  For any list of
    observations the detector's sessions, put end to end, give the list back; none
    is empty; each lies in one scope, starts and ends at the times of its first
    and last observation and has no cut inside; between two sessions there is a
    cut, and the earlier one's boundary names its reason, an explicit marker
    before a change of scope before a gap; and the last session, which nothing
    ended, is closed as a time gap. *)
Theorem detect_partitions l :
  let ss := detect ids scopes clock d l in
  concat (observations <$> ss) = l /\
  Forall (session_ok d) ss /\
  separated d ss /\
  (forall s, last ss = Some s -> boundary s = TimeGap) /\
  s_id <$> ss = ids <$> seq 0 (length ss).
Proof.
  unfold detect. destruct l as [|o l]; [split_and!; try done; by intros s|].
  assert (H0 : detected [o] (mk_detect [] [o] (occurred_at o))).
  { split; cbn; [done|by exists [], o|done|done|done]. }
  pose proof (detected_foldl [o] _ l H0) as H.
  set (st := foldl _ _ l) in *. destruct H as [Hcat (k & z & Hcur & Hlast) Hu Hok Hsep]. cbn in Hcat.
  unfold close_current. split_and!.
  - rewrite fmap_app, concat_app. cbn. by rewrite (right_id_L [] (++)).
  - apply Forall_app. split; [done|]. constructor; [|constructor]. rewrite Hcur in Hu |- *. by apply close_ok.
  - apply Hsep.
  - intros s. rewrite last_snoc. by intros [= <-].
  - rewrite length_app. cbn. rewrite seq_app, !fmap_app. cbn. f_equal.
    clear -ids. subst st.
    assert (Hids : forall l st, s_id <$> sessions st = ids <$> seq 0 (length (sessions st)) ->
      let st' := foldl (detect_step ids scopes clock d) st l in
      s_id <$> sessions st' = ids <$> seq 0 (length (sessions st'))).
    { clear. induction l as [|x l IH]; intros st Hst; [done|]. cbn [foldl]. apply IH. unfold detect_step.
      destruct (_ || _ || _); [|done]. cbn. unfold close_current. rewrite length_app, fmap_app, Hst. cbn.
      by rewrite seq_app, fmap_app. }
    apply Hids. done.
Qed.
End DetectFacts.

(** ** Summaries *)

(** [trait Summarizer]. *)
Class Summarizer := { summarize : Session -> result string MemoryError }.

(** [parts.join(" / ")]. *)
Fixpoint join_slash (parts : list string) : string :=
  match parts with
  | [] => EmptyString
  | [p] => p
  | p :: parts => String.append p (String.append " / " (join_slash parts))
  end.

(** [StubSummarizer]. *)
Definition stub_summarizer : Summarizer := {|
  summarize s :=
    match observations s with
    | [] => Err (Validation "cannot summarise an empty session")
    | l => Ok (join_slash (body <$> l))
    end
|}.

(** [struct EpisodicStore] and its methods. *)
Record EpisodicStore : Type := mk_store { by_id : gmap uuid EpisodicSummary }.
Definition new_store : EpisodicStore := mk_store ∅.
Definition len (s : EpisodicStore) : nat := size (by_id s).
Definition is_empty (s : EpisodicStore) : bool := (len s =? 0)%nat.
Definition insert (e : EpisodicSummary) (s : EpisodicStore) : EpisodicStore * uuid :=
  (mk_store (<[e_id e := e]> (by_id s)), e_id e).
Definition get (s : EpisodicStore) (i : uuid) : option EpisodicSummary := by_id s !! i.
Definition retrieve (i : uuid) : eff EpisodicStore MemoryError unit := fun s =>
  match by_id s !! i with
  | None => (s, Err (NotFound i))
  | Some e => (mk_store (<[i := record_retrieval e]> (by_id s)), Ok tt)
  end.
Definition forget (i : uuid) : eff EpisodicStore MemoryError unit := fun s =>
  match by_id s !! i with
  | None => (s, Err (NotFound i))
  | Some _ => (mk_store (base.delete i (by_id s)), Ok tt)
  end.

(** [list_by_scope]: the values in hash order, sorted by [Reverse(time_range_end)]
    with a stable sort. *)
Definition newer_first (a b : EpisodicSummary) : Prop := (time_range_end b <= time_range_end a)%Z.
#[export] Instance newer_first_dec : RelDecision newer_first.
Proof. intros a b. unfold newer_first. apply _. Defined.
Definition list_by_scope `{HashOrder} (s : EpisodicStore) (scope : uuid) : list EpisodicSummary :=
  merge_sort newer_first
    (List.filter (fun e => (e_scope_id e =? scope)%N) (hash_order (snd <$> map_to_list (by_id s)))).

(** ** The facade *)

Section Ingest.
Context {SM : Summarizer}.

(** [struct EpisodicMemory]; the summariser is the instance. *)
Record EpisodicMemory : Type := mk_memory { detector : SessionDetector; store : EpisodicStore }.

(** What one [ingest] draws: the identifiers and times of [detect]'s sessions
    and of the summaries it creates. *)
Record Draws : Type := mk_draws {
  dr_session : nat -> uuid;
  dr_scope : nat -> uuid;
  dr_close : nat -> instant;
  dr_summary : nat -> uuid;
  dr_created : nat -> instant
}.

Definition summary_of (dr : Draws) (n : nat) (s : Session) (text : string) : EpisodicSummary :=
  new_candidate (dr_summary dr n) (dr_created dr n) (s_scope_id s) (s_id s) text
    (evidence_id <$> observations s) (started_at s) (ended_at s).

(** The loop of [ingest]: [out] is the vector it returns. *)
Fixpoint ingest_loop (dr : Draws) (ss : list Session) (m : EpisodicMemory) (out : list EpisodicSummary) :
    EpisodicMemory * result (list EpisodicSummary) MemoryError :=
  match ss with
  | [] => (m, Ok out)
  | s :: ss =>
      if negb (is_summarisable s) then ingest_loop dr ss m out
      else match summarize s with
           | Err e => (m, Err e)
           | Ok text =>
               let e := summary_of dr (length out) s text in
               ingest_loop dr ss (mk_memory (detector m) (insert e (store m)).1) (out ++ [e])
           end
  end.
Definition ingest (dr : Draws) (l : list Observation) (m : EpisodicMemory) :
    EpisodicMemory * result (list EpisodicSummary) MemoryError :=
  ingest_loop dr (detect (dr_session dr) (dr_scope dr) (dr_close dr) (detector m) l) m [].

(** The store after a list of insertions. *)
Definition insert_all (es : list EpisodicSummary) (s : EpisodicStore) : EpisodicStore :=
  foldl (fun s e => (insert e s).1) s es.

(** The summaries of the sessions, numbered from [n], when all succeed. *)
Fixpoint summaries (dr : Draws) (n : nat) (ss : list Session) : list EpisodicSummary :=
  match ss with
  | [] => []
  | s :: ss =>
      match summarize s with
      | Ok text => summary_of dr n s text :: summaries dr (S n) ss
      | Err _ => []
      end
  end.

Lemma ingest_loop_spec dr ss m out m' r :
  ingest_loop dr ss m out = (m', r) ->
  exists done rest, List.filter is_summarisable ss = done ++ rest /\
    Forall (fun s => is_ok (summarize s) = true) done /\
    let new := summaries dr (length out) done in
    length new = length done /\
    store m' = insert_all new (store m) /\ detector m' = detector m /\
    ((rest = [] /\ r = Ok (out ++ new)) \/
     (exists s rest' e, rest = s :: rest' /\ summarize s = Err e /\ r = Err e)).
Proof.
  revert m out. induction ss as [|s ss IH]; intros m out; cbn [ingest_loop List.filter].
  - intros [= <- <-]. exists [], []. split_and!; [done|constructor|done|done|done|]. left.
    split; [done|]. cbn. by rewrite app_nil_r.
  - destruct (is_summarisable s); cbn [negb]; [|apply IH].
    destruct (summarize s) as [text|e] eqn:Es.
    + intros H. apply IH in H as (dn & rest & Hf & Hok & Hlen & Hst & Hdet & Hr).
      exists (s :: dn), rest. rewrite Hf. split; [done|]. split; [constructor; [by rewrite Es|done]|].
      cbn [summaries]. rewrite Es. cbv zeta. rewrite length_app in *. cbn [length] in *.
      rewrite Nat.add_1_r in *. split_and!; [by rewrite Hlen|done|done|].
      destruct Hr as [[-> ->]|Hr]; [left|by right]. split; [done|]. by rewrite <- (assoc_L (++)).
    + intros [= <- <-]. exists [], (s :: List.filter is_summarisable ss).
      split_and!; [done|constructor|done|done|done|]. right. by eexists _, _, _.
Qed.

(** What an ingestion does, and what a failing one leaves.  The sessions of
    two observations or more are taken in order; each that the summariser accepts
    gives a candidate summary of that session, its scope, its time range and the
    evidence of all its observations, stored under a fresh id; the call answers the
    new summaries, in order, exactly when all are accepted; at the first that is
    refused it answers the error, and the summaries made before it remain
    stored. *)
Theorem ingest_spec dr l m m' r :
  ingest dr l m = (m', r) ->
  let ss := List.filter is_summarisable (detect (dr_session dr) (dr_scope dr) (dr_close dr) (detector m) l) in
  exists done rest, ss = done ++ rest /\
    let new := summaries dr 0 done in
    Forall2 (fun s e => session_id e = s_id s /\ e_scope_id e = s_scope_id s /\ e_state e = Candidate /\
               key_observations e = evidence_id <$> observations s /\
               time_range_start e = started_at s /\ time_range_end e = ended_at s /\
               summarize s = Ok (summary_text e)) done new /\
    e_id <$> new = dr_summary dr <$> seq 0 (length done) /\
    store m' = insert_all new (store m) /\ detector m' = detector m /\
    ((rest = [] /\ r = Ok new) \/ (exists s rest' e, rest = s :: rest' /\ summarize s = Err e /\ r = Err e)).
Proof.
  intros H ss. apply ingest_loop_spec in H as (dn & rest & Hf & Hok & Hlen & Hst & Hdet & Hr).
  exists dn, rest. split; [done|]. cbv zeta. cbn [length] in *.
  split_and!; [| |done|done|exact Hr].
  - clear -Hok. generalize 0%nat as n. induction Hok as [|s dn Hs Hok IH]; intros n; cbn; [constructor|].
    destruct (summarize s) as [text|] eqn:Es; [|done]. constructor; [|apply IH]. by rewrite Es.
  - clear -Hok. generalize 0%nat as n. induction Hok as [|s dn Hs Hok IH]; intros n; cbn; [done|].
    destruct (summarize s) as [text|] eqn:Es; [|done]. cbn. by rewrite IH.
Qed.
End Ingest.

(** The stub accepts every session the detector makes, so an ingestion with it
    never fails. *)
Lemma stub_ingest_ok dr l m : is_ok (ingest (SM := stub_summarizer) dr l m).2 = true.
Proof.
  destruct (ingest (SM := stub_summarizer) dr l m) as [m' r] eqn:E. pose proof E as E'.
  apply ingest_loop_spec in E as (dn & rest & Hf & _ & _ & _ & _ & Hr). cbn.
  destruct Hr as [[_ ->]|(s & rest' & e & -> & Hs & ->)]; [done|]. exfalso.
  assert (Hin : s ∈ List.filter is_summarisable
            (detect (dr_session dr) (dr_scope dr) (dr_close dr) (detector m) l)).
  { rewrite Hf. apply elem_of_app. right. left. }
  rewrite list_elem_of_In in Hin. apply filter_In in Hin as [_ Hl].
  cbn in Hs. destruct (observations s) as [|o k] eqn:Eo; [|done].
  unfold is_summarisable in Hl. by rewrite Eo in Hl.
Qed.

(** Listing a scope: its summaries, most recent first. *)
Lemma list_by_scope_spec `{HashOrder} s scope :
  StronglySorted newer_first (list_by_scope s scope) /\
  forall e, e ∈ list_by_scope s scope <-> e_scope_id e = scope /\ exists i, get s i = Some e.
Proof.
  assert (Htr : Transitive newer_first) by (intros a b c; unfold newer_first; lia).
  assert (Htot : Total newer_first) by (intros a b; unfold newer_first; lia).
  split.
  - apply Sorted_StronglySorted; [done|]. apply (Sorted_merge_sort newer_first).
  - intros e. unfold list_by_scope. rewrite merge_sort_Permutation, list_elem_of_In, List.filter_In, <- list_elem_of_In.
    rewrite elem_of_hash_order, list_elem_of_fmap, N.eqb_eq. unfold get. split.
    + intros [([i x] & -> & Hx) Hs]. apply elem_of_map_to_list in Hx. eauto.
    + intros [Hs [i Hi]]. split; [|done]. exists (i, e). by rewrite elem_of_map_to_list.
Qed.

(** ** A concrete stream *)

Definition say (i : uuid) (at_ : Z) (text : string) : Observation := mk_observation i 1 (minutes at_) text.
Definition stream : list Observation :=
  [say 1 0 "shall we ship"; say 2 5 "yes, TTYL"; say 3 6 "morning"; say 4 7 "the build broke"; say 5 40 "fixed"].
Definition demo_draws : Draws :=
  mk_draws (fun n => N.of_nat n) (fun _ => 0%N) (fun _ => 0%Z) (fun n => (100 + N.of_nat n)%N) (fun _ => 0%Z).

Example stream_sessions :
  (fun s => (boundary s, evidence_id <$> observations s)) <$>
    detect (dr_session demo_draws) (dr_scope demo_draws) (dr_close demo_draws) default_detector stream
  = [(ExplicitAction, [1; 2]%N); (TimeGap, [3; 4]%N); (TimeGap, [5]%N)].
Proof. vm_compute. reflexivity. Qed.

Lemma ingest_spec_witness :
  exists m', ingest (SM := stub_summarizer) demo_draws stream (mk_memory default_detector new_store)
             = (m', Ok (summaries (SM := stub_summarizer) demo_draws 0
                 (List.filter is_summarisable
                    (detect (dr_session demo_draws) (dr_scope demo_draws) (dr_close demo_draws) default_detector stream)))).
Proof.
  destruct (ingest (SM := stub_summarizer) demo_draws stream (mk_memory default_detector new_store)) as [m' r] eqn:E.
  exists m'. destruct (ingest_spec (SM := stub_summarizer) demo_draws stream _ m' r E)
    as (dn & rest & Hss & _ & _ & _ & _ & Hr).
  destruct Hr as [[-> ->]|(s & rest' & e & _ & _ & ->)].
  - rewrite app_nil_r in Hss. cbn [detector] in Hss. rewrite Hss. reflexivity.
  - exfalso. vm_compute in E. discriminate.
Defined.
