(* ===== verification/AgentContract.v ===== *)
(** * Agent proposals ([agent_contract/src/proposal.rs], [schema.rs],
    [lifecycle.rs])

    What an agent may write: typed proposals in an envelope, their validation,
    and the store whose state machine decides which of them become canonical.
    Identifiers drawn and the time read are arguments of the operations that
    draw or read them. *)

From S2P Require Import Prelude Float Memory ConceptGraph.

(** ** Proposals *)

(** [struct AgentIdentity], with [new], [with_skill] and [with_recipe]. *)
Record AgentIdentity : Type := mk_identity {
  agent_id : uuid;
  agent_name : string;
  model_name : string;
  model_version : string;
  skill_id : option string;
  recipe_id : option string
}.
Definition new_identity (agent : uuid) (name model version : string) : AgentIdentity :=
  mk_identity agent name model version None None.
Definition with_skill (a : AgentIdentity) (skill : string) : AgentIdentity :=
  mk_identity (agent_id a) (agent_name a) (model_name a) (model_version a) (Some skill) (recipe_id a).
Definition with_recipe (a : AgentIdentity) (recipe : string) : AgentIdentity :=
  mk_identity (agent_id a) (agent_name a) (model_name a) (model_version a) (skill_id a) (Some recipe).

(** [enum ProposalKind] with its tag. *)
Inductive ProposalKind : Type := KindObservation | KindConcept | KindRelation | KindSummary.
Definition kind_str (k : ProposalKind) : string :=
  match k with
  | KindObservation => "observation"
  | KindConcept => "concept"
  | KindRelation => "relation"
  | KindSummary => "summary"
  end.

(** The payloads; a relation tag is a transparent wrapper of its label. *)
Record ObservationProposal : Type := mk_observation { claim : string; observation_type : string }.
Record ConceptProposal : Type := mk_concept { label : string; definition : string }.
Record RelationProposal : Type := mk_relation { src : uuid; dst : uuid; relation_label : string }.
Record SummaryProposal : Type := mk_summary { text : string; summary_type : string }.

(** [struct AgentProposal<T>]: evidence references are transparent wrappers of
    UUIDs, the TTL is a non-negative duration. *)
Record AgentProposal (T : Type) : Type := mk_proposal {
  prop_id : uuid;
  prop_kind : ProposalKind;
  prop_scope_id : uuid;
  payload : T;
  evidence_refs : list uuid;
  confidence : f64;
  prop_sensitivity : SensitivityClass;
  ttl : option duration;
  supersedes_link : option uuid;
  contradicts_link : option uuid;
  agent_identity : AgentIdentity;
  prop_created_at : instant
}.
Arguments mk_proposal {T}.
Arguments prop_id {T}.
Arguments prop_kind {T}.
Arguments prop_scope_id {T}.
Arguments payload {T}.
Arguments evidence_refs {T}.
Arguments confidence {T}.
Arguments prop_sensitivity {T}.
Arguments ttl {T}.
Arguments supersedes_link {T}.
Arguments contradicts_link {T}.
Arguments agent_identity {T}.
Arguments prop_created_at {T}.

(** [AgentProposal::new], [with_ttl], [supersedes], [contradicts],
    [map_payload]. *)
Definition new_proposal {T} (fresh : uuid) (now : instant) (kind : ProposalKind) (scope : uuid)
    (pl : T) (evidence : list uuid) (conf : f64) (class : SensitivityClass) (a : AgentIdentity) :
    AgentProposal T :=
  mk_proposal fresh kind scope pl evidence conf class None None None a now.
Definition with_ttl {T} (p : AgentProposal T) (t : duration) : AgentProposal T :=
  mk_proposal (prop_id p) (prop_kind p) (prop_scope_id p) (payload p) (evidence_refs p) (confidence p)
    (prop_sensitivity p) (Some t) (supersedes_link p) (contradicts_link p) (agent_identity p)
    (prop_created_at p).
Definition supersedes {T} (p : AgentProposal T) (target : uuid) : AgentProposal T :=
  mk_proposal (prop_id p) (prop_kind p) (prop_scope_id p) (payload p) (evidence_refs p) (confidence p)
    (prop_sensitivity p) (ttl p) (Some target) (contradicts_link p) (agent_identity p)
    (prop_created_at p).
Definition contradicts {T} (p : AgentProposal T) (target : uuid) : AgentProposal T :=
  mk_proposal (prop_id p) (prop_kind p) (prop_scope_id p) (payload p) (evidence_refs p) (confidence p)
    (prop_sensitivity p) (ttl p) (supersedes_link p) (Some target) (agent_identity p)
    (prop_created_at p).
Definition map_payload {T U} (p : AgentProposal T) (f : T -> U) : AgentProposal U :=
  mk_proposal (prop_id p) (prop_kind p) (prop_scope_id p) (f (payload p)) (evidence_refs p)
    (confidence p) (prop_sensitivity p) (ttl p) (supersedes_link p) (contradicts_link p)
    (agent_identity p) (prop_created_at p).

(** ** Validation *)

(** [enum ProposalValidationError]. *)
Inductive ProposalValidationError : Type :=
| ConfidenceOutOfRange (c : f64)
| ConfidenceNaN
| NoEvidence
| NilScope
| NilAgentId
| EmptyAgentName
| EmptyModelName
| EmptyModelVersion
| EmptySkillId
| EmptyRecipeId
| ZeroTtl
| EmptyPayloadField (field : string)
| SelfRelation
| NilRelationEndpoint.

(** [Uuid::is_nil]. *)
Definition is_nil (u : uuid) : bool := (u =? 0)%N.

(** [if cond { return Err(e) }]. *)
Definition refuse {E} (cond : bool) (e : E) : result unit E := if cond then Err e else Ok tt.

(** [trait ValidatePayload] and its four implementations. *)
Class ValidatePayload (T : Type) := validate : T -> result unit ProposalValidationError.

#[export] Instance validate_observation : ValidatePayload ObservationProposal := fun o =>
  let? _ := refuse (trim_is_empty (claim o)) (EmptyPayloadField "claim") in
  refuse (trim_is_empty (observation_type o)) (EmptyPayloadField "observation_type").
#[export] Instance validate_concept : ValidatePayload ConceptProposal := fun c =>
  let? _ := refuse (trim_is_empty (label c)) (EmptyPayloadField "label") in
  refuse (trim_is_empty (definition c)) (EmptyPayloadField "definition").
#[export] Instance validate_relation : ValidatePayload RelationProposal := fun r =>
  let? _ := refuse (is_nil (src r) || is_nil (dst r)) NilRelationEndpoint in
  let? _ := refuse (src r =? dst r)%N SelfRelation in
  refuse (trim_is_empty (relation_label r)) (EmptyPayloadField "relation").
#[export] Instance validate_summary : ValidatePayload SummaryProposal := fun s =>
  let? _ := refuse (trim_is_empty (text s)) (EmptyPayloadField "text") in
  refuse (trim_is_empty (summary_type s)) (EmptyPayloadField "summary_type").

(** [if let Some(s) = &o { if s.trim().is_empty() { .. } }]. *)
Definition present_but_empty (o : option string) : bool :=
  match o with Some s => trim_is_empty s | None => false end.

(** [(0.0..=1.0).contains(&c)]. *)
Definition in_unit_interval (c : f64) : bool := f64_leb (f64_of_Z 0) c && f64_leb c (f64_of_Z 1).

(** [validate_proposal]. *)
Definition validate_proposal {T} `{ValidatePayload T} (p : AgentProposal T) :
    result unit ProposalValidationError :=
  let? _ := refuse (f64_is_nan (confidence p)) ConfidenceNaN in
  let? _ := refuse (negb (in_unit_interval (confidence p))) (ConfidenceOutOfRange (confidence p)) in
  let? _ := refuse (match evidence_refs p with [] => true | _ => false end) NoEvidence in
  let? _ := refuse (is_nil (prop_scope_id p)) NilScope in
  let? _ := refuse (is_nil (agent_id (agent_identity p))) NilAgentId in
  let? _ := refuse (trim_is_empty (agent_name (agent_identity p))) EmptyAgentName in
  let? _ := refuse (trim_is_empty (model_name (agent_identity p))) EmptyModelName in
  let? _ := refuse (trim_is_empty (model_version (agent_identity p))) EmptyModelVersion in
  let? _ := refuse (present_but_empty (skill_id (agent_identity p))) EmptySkillId in
  let? _ := refuse (present_but_empty (recipe_id (agent_identity p))) EmptyRecipeId in
  let? _ := refuse (match ttl p with Some t => (t =? 0)%Z | None => false end) ZeroTtl in
  validate (payload p).

(** ** The store *)

(** [enum ProposalState] with its tag and [is_terminal]. *)
Inductive ProposalState : Type := Proposed | UnderReview | Promoted | Rejected.
#[export] Instance ProposalState_eq_dec : EqDecision ProposalState.
Proof. solve_decision. Defined.
Definition proposal_state_str (s : ProposalState) : string :=
  match s with
  | Proposed => "proposed"
  | UnderReview => "under_review"
  | Promoted => "promoted"
  | Rejected => "rejected"
  end.
Definition is_terminal (s : ProposalState) : bool :=
  match s with Promoted | Rejected => true | _ => false end.

(** [struct AutoPromotionPolicy]. *)
Record AutoPromotionPolicy : Type := mk_policy {
  min_confidence : f64;
  min_corroboration : N;
  max_sensitivity : SensitivityClass;
  require_human_for_critical : bool
}.

(** [f64::MAX], the default policy, [AutoPromotionPolicy::rank], [matches]. *)
Definition f64_MAX : f64 := S754_finite false 9007199254740991 971.
Definition default_auto_promotion : AutoPromotionPolicy := mk_policy f64_MAX u32_max Noise true.
Definition rank (c : SensitivityClass) : N :=
  match c with Noise => 0 | Useful => 1 | Important => 2 | Critical => 3 end%N.
Definition policy_matches (p : AutoPromotionPolicy) (conf : f64) (corroboration : N)
    (class : SensitivityClass) : bool :=
  if f64_ltb conf (min_confidence p) then false
  else if (corroboration <? min_corroboration p)%N then false
  else if (rank (max_sensitivity p) <? rank class)%N then false
  else if require_human_for_critical p && bool_decide (class = Critical) then false
  else true.

(** [enum ProposalDecision], [enum LifecycleError]. *)
Inductive ProposalDecision : Type := NeedsHumanReview | AutoPromoted.
Inductive LifecycleError : Type :=
| LNotFound (id : uuid)
| LInvalidTransition (id : uuid) (from to : string)
| LValidation (e : ProposalValidationError)
| LExpired (id : uuid)
| LDuplicateProposal (id : uuid).

(** [enum AnyPayload] and its kind. *)
Inductive AnyPayload : Type :=
| PayloadObservation (o : ObservationProposal)
| PayloadConcept (c : ConceptProposal)
| PayloadRelation (r : RelationProposal)
| PayloadSummary (s : SummaryProposal).
Definition payload_kind (p : AnyPayload) : ProposalKind :=
  match p with
  | PayloadObservation _ => KindObservation
  | PayloadConcept _ => KindConcept
  | PayloadRelation _ => KindRelation
  | PayloadSummary _ => KindSummary
  end.

(** [struct StoredProposal]. *)
Record StoredProposal : Type := mk_stored {
  st_id : uuid;
  st_state : ProposalState;
  st_scope_id : uuid;
  st_payload : AnyPayload;
  st_evidence_refs : list uuid;
  st_confidence : f64;
  st_sensitivity : SensitivityClass;
  corroboration_count : N;
  st_ttl : option duration;
  st_supersedes : option uuid;
  st_contradicts : option uuid;
  st_agent_identity : AgentIdentity;
  submitted_at : instant;
  st_updated_at : instant;
  rejection_reason : option string
}.

(** Assignments to [state] with [updated_at], to [rejection_reason] and to
    [corroboration_count]. *)
Definition set_state (p : StoredProposal) (s : ProposalState) (now : instant) : StoredProposal :=
  mk_stored (st_id p) s (st_scope_id p) (st_payload p) (st_evidence_refs p) (st_confidence p)
    (st_sensitivity p) (corroboration_count p) (st_ttl p) (st_supersedes p) (st_contradicts p)
    (st_agent_identity p) (submitted_at p) now (rejection_reason p).
Definition set_reason (p : StoredProposal) (why : string) : StoredProposal :=
  mk_stored (st_id p) (st_state p) (st_scope_id p) (st_payload p) (st_evidence_refs p)
    (st_confidence p) (st_sensitivity p) (corroboration_count p) (st_ttl p) (st_supersedes p)
    (st_contradicts p) (st_agent_identity p) (submitted_at p) (st_updated_at p) (Some why).
Definition set_corroboration (p : StoredProposal) (n : N) (now : instant) : StoredProposal :=
  mk_stored (st_id p) (st_state p) (st_scope_id p) (st_payload p) (st_evidence_refs p)
    (st_confidence p) (st_sensitivity p) n (st_ttl p) (st_supersedes p)
    (st_contradicts p) (st_agent_identity p) (submitted_at p) now (rejection_reason p).

(** [StoredProposal::is_expired]: a clock before the submission never expires. *)
Definition is_expired (p : StoredProposal) (now : instant) : bool :=
  match st_ttl p with
  | None => false
  | Some t =>
      let elapsed := (now - submitted_at p)%Z in
      if (elapsed <? 0)%Z then false else (t <=? elapsed)%Z
  end.

(** [stored_from_envelope]. *)
Definition stored_from_envelope {T} (p : AgentProposal T) (wrap : T -> AnyPayload) : StoredProposal :=
  mk_stored (prop_id p) Proposed (prop_scope_id p) (wrap (payload p)) (evidence_refs p) (confidence p)
    (prop_sensitivity p) 0 (ttl p) (supersedes_link p) (contradicts_link p) (agent_identity p)
    (prop_created_at p) (prop_created_at p) None.

(** [struct ProposalStore] with [new], [len], [is_empty], [get], [ids]. *)
Definition ProposalStore : Type := gmap uuid StoredProposal.
Definition store_new : ProposalStore := ∅.
Definition store_len (s : ProposalStore) : nat := size s.
Definition store_is_empty (s : ProposalStore) : bool := (store_len s =? 0)%nat.
Definition store_get (s : ProposalStore) (i : uuid) : option StoredProposal := s !! i.
Definition store_ids `{HashOrder} (s : ProposalStore) : list uuid :=
  hash_order (fst <$> map_to_list s).

(** The body the four [submit_*] methods share, and the methods. *)
Definition submit {T} `{ValidatePayload T} (wrap : T -> AnyPayload) (p : AgentProposal T) :
    eff ProposalStore LifecycleError uuid := fun s =>
  match validate_proposal p with
  | Err e => (s, Err (LValidation e))
  | Ok _ =>
      let i := prop_id p in
      if bool_decide (is_Some (s !! i)) then (s, Err (LDuplicateProposal i))
      else (<[i := stored_from_envelope p wrap]> s, Ok i)
  end.
Definition submit_observation (p : AgentProposal ObservationProposal) := submit PayloadObservation p.
Definition submit_concept (p : AgentProposal ConceptProposal) := submit PayloadConcept p.
Definition submit_relation (p : AgentProposal RelationProposal) := submit PayloadRelation p.
Definition submit_summary (p : AgentProposal SummaryProposal) := submit PayloadSummary p.

(** The assignments both [record_corroboration] and [review] make to a
    proposal whose TTL has elapsed. *)
Definition expire (p : StoredProposal) (now : instant) : StoredProposal :=
  set_reason (set_state p Rejected now) "ttl_expired".

(** [ProposalStore::record_corroboration]. *)
Definition record_corroboration (now : instant) (i : uuid) : eff ProposalStore LifecycleError unit :=
  fun s =>
  match s !! i with
  | None => (s, Err (LNotFound i))
  | Some p =>
      if is_terminal (st_state p) then
        (s, Err (LInvalidTransition i (proposal_state_str (st_state p)) "corroborated"))
      else if is_expired p now then (<[i := expire p now]> s, Err (LExpired i))
      else (<[i := set_corroboration p (u32_saturating_add (corroboration_count p) 1) now]> s, Ok tt)
  end.

(** [ProposalStore::review]. *)
Definition review (now : instant) (i : uuid) (policy : AutoPromotionPolicy) :
    eff ProposalStore LifecycleError ProposalDecision := fun s =>
  match s !! i with
  | None => (s, Err (LNotFound i))
  | Some p =>
      if is_terminal (st_state p) then
        (s, Err (LInvalidTransition i (proposal_state_str (st_state p)) (proposal_state_str UnderReview)))
      else if is_expired p now then (<[i := expire p now]> s, Err (LExpired i))
      else if negb (bool_decide (st_state p = Proposed)) then
        (s, Err (LInvalidTransition i (proposal_state_str (st_state p)) (proposal_state_str UnderReview)))
      else
        let p := set_state p UnderReview now in
        if policy_matches policy (st_confidence p) (corroboration_count p) (st_sensitivity p) then
          (<[i := set_state p Promoted now]> s, Ok AutoPromoted)
        else (<[i := p]> s, Ok NeedsHumanReview)
  end.

(** [ProposalStore::promote], [ProposalStore::reject]. *)
Definition promote (now : instant) (i : uuid) : eff ProposalStore LifecycleError unit := fun s =>
  match s !! i with
  | None => (s, Err (LNotFound i))
  | Some p =>
      if negb (bool_decide (st_state p = UnderReview)) then
        (s, Err (LInvalidTransition i (proposal_state_str (st_state p)) (proposal_state_str Promoted)))
      else (<[i := set_state p Promoted now]> s, Ok tt)
  end.
Definition reject (now : instant) (i : uuid) (reason : string) : eff ProposalStore LifecycleError unit :=
  fun s =>
  match s !! i with
  | None => (s, Err (LNotFound i))
  | Some p =>
      if is_terminal (st_state p) then
        (s, Err (LInvalidTransition i (proposal_state_str (st_state p)) (proposal_state_str Rejected)))
      else (<[i := set_reason (set_state p Rejected now) reason]> s, Ok tt)
  end.

(** ** Canonical artifacts *)

Record CanonicalObservation : Type := mk_canonical_observation {
  co_id : uuid; co_scope_id : uuid; co_proposal_id : uuid; co_claim : string;
  co_observation_type : string; co_sensitivity : SensitivityClass; co_evidence_refs : list uuid
}.
Record CanonicalConcept : Type := mk_canonical_concept {
  cc_id : uuid; cc_scope_id : uuid; cc_proposal_id : uuid; cc_label : string;
  cc_definition : string; cc_sensitivity : SensitivityClass
}.
Record CanonicalRelation : Type := mk_canonical_relation {
  cr_id : uuid; cr_scope_id : uuid; cr_proposal_id : uuid; cr_src : uuid; cr_dst : uuid;
  cr_relation : string
}.
Record CanonicalSummary : Type := mk_canonical_summary {
  cs_id : uuid; cs_scope_id : uuid; cs_proposal_id : uuid; cs_text : string;
  cs_summary_type : string; cs_sensitivity : SensitivityClass
}.

(** [enum CanonicalArtifact] with [kind] and [id]. *)
Inductive CanonicalArtifact : Type :=
| ArtifactObservation (o : CanonicalObservation)
| ArtifactConcept (c : CanonicalConcept)
| ArtifactRelation (r : CanonicalRelation)
| ArtifactSummary (s : CanonicalSummary).
Definition artifact_kind (a : CanonicalArtifact) : ProposalKind :=
  match a with
  | ArtifactObservation _ => KindObservation
  | ArtifactConcept _ => KindConcept
  | ArtifactRelation _ => KindRelation
  | ArtifactSummary _ => KindSummary
  end.
Definition artifact_id (a : CanonicalArtifact) : uuid :=
  match a with
  | ArtifactObservation o => co_id o
  | ArtifactConcept c => cc_id c
  | ArtifactRelation r => cr_id r
  | ArtifactSummary s => cs_id s
  end.

(** The namespaces, [canonical_namespace], [derive_canonical_id]. *)
Definition NAMESPACE_OBSERVATION : uuid := 0x6f6273657276356e8000000000000001%N.
Definition NAMESPACE_CONCEPT : uuid := 0x636f6e63657035748000000000000002%N.
Definition NAMESPACE_RELATION : uuid := 0x72656c6174696f6e8000000000000003%N.
Definition NAMESPACE_SUMMARY : uuid := 0x73756d6d617235798000000000000004%N.
Definition canonical_namespace (k : ProposalKind) : uuid :=
  match k with
  | KindObservation => NAMESPACE_OBSERVATION
  | KindConcept => NAMESPACE_CONCEPT
  | KindRelation => NAMESPACE_RELATION
  | KindSummary => NAMESPACE_SUMMARY
  end.
Definition derive_canonical_id `{UuidV5} (k : ProposalKind) (proposal : uuid) : uuid :=
  uuid_v5 (canonical_namespace k) (be_bytes 16 proposal).

(** The artifact of a promoted proposal, and [ProposalStore::promote_to_canonical]. *)
Definition render_artifact `{UuidV5} (p : StoredProposal) : CanonicalArtifact :=
  match st_payload p with
  | PayloadObservation o =>
      ArtifactObservation (mk_canonical_observation (derive_canonical_id KindObservation (st_id p))
        (st_scope_id p) (st_id p) (claim o) (observation_type o) (st_sensitivity p) (st_evidence_refs p))
  | PayloadConcept c =>
      ArtifactConcept (mk_canonical_concept (derive_canonical_id KindConcept (st_id p))
        (st_scope_id p) (st_id p) (label c) (definition c) (st_sensitivity p))
  | PayloadRelation r =>
      ArtifactRelation (mk_canonical_relation (derive_canonical_id KindRelation (st_id p))
        (st_scope_id p) (st_id p) (src r) (dst r) (relation_label r))
  | PayloadSummary s =>
      ArtifactSummary (mk_canonical_summary (derive_canonical_id KindSummary (st_id p))
        (st_scope_id p) (st_id p) (text s) (summary_type s) (st_sensitivity p))
  end.
Definition promote_to_canonical `{UuidV5} (s : ProposalStore) (i : uuid) :
    result CanonicalArtifact LifecycleError :=
  match s !! i with
  | None => Err (LNotFound i)
  | Some p =>
      if negb (bool_decide (st_state p = Promoted)) then
        Err (LInvalidTransition i (proposal_state_str (st_state p)) "canonical")
      else Ok (render_artifact p)
  end.

(** ** Runs of the store *)

(** Every call that may change the store, at any reading of the clock. *)
Inductive call : Type :=
| CallObservation (p : AgentProposal ObservationProposal)
| CallConcept (p : AgentProposal ConceptProposal)
| CallRelation (p : AgentProposal RelationProposal)
| CallSummary (p : AgentProposal SummaryProposal)
| CallCorroborate (now : instant) (i : uuid)
| CallReview (now : instant) (i : uuid) (policy : AutoPromotionPolicy)
| CallPromote (now : instant) (i : uuid)
| CallReject (now : instant) (i : uuid) (reason : string).
Definition run (c : call) (s : ProposalStore) : ProposalStore :=
  match c with
  | CallObservation p => (submit_observation p s).1
  | CallConcept p => (submit_concept p s).1
  | CallRelation p => (submit_relation p s).1
  | CallSummary p => (submit_summary p s).1
  | CallCorroborate now i => (record_corroboration now i s).1
  | CallReview now i policy => (review now i policy s).1
  | CallPromote now i => (promote now i s).1
  | CallReject now i reason => (reject now i reason s).1
  end.
Inductive step : ProposalStore -> ProposalStore -> Prop :=
| step_call c s : step s (run c s).

(** The id a call names, and the record a submission makes. *)
Definition target (c : call) : uuid :=
  match c with
  | CallObservation p => prop_id p
  | CallConcept p => prop_id p
  | CallRelation p => prop_id p
  | CallSummary p => prop_id p
  | CallCorroborate _ i | CallReview _ i _ | CallPromote _ i | CallReject _ i _ => i
  end.
Definition submitted (c : call) : option StoredProposal :=
  match c with
  | CallObservation p => Some (stored_from_envelope p PayloadObservation)
  | CallConcept p => Some (stored_from_envelope p PayloadConcept)
  | CallRelation p => Some (stored_from_envelope p PayloadRelation)
  | CallSummary p => Some (stored_from_envelope p PayloadSummary)
  | _ => None
  end.

(** The fields of a record no call changes. *)
Definition same_claim (p q : StoredProposal) : Prop :=
  st_id q = st_id p /\ st_scope_id q = st_scope_id p /\ st_payload q = st_payload p /\
  st_evidence_refs q = st_evidence_refs p /\ st_confidence q = st_confidence p /\
  st_sensitivity q = st_sensitivity p /\ st_ttl q = st_ttl p /\ st_supersedes q = st_supersedes p /\
  st_contradicts q = st_contradicts p /\ st_agent_identity q = st_agent_identity p /\
  submitted_at q = submitted_at p.

(** One move of a stored record: what a call may do to the entry at its id. *)
Inductive moves (c : call) : option StoredProposal -> option StoredProposal -> Prop :=
| moves_same o : moves c o o
| moves_submitted q : submitted c = Some q -> st_state q = Proposed -> rejection_reason q = None ->
    corroboration_count q = 0%N -> moves c None (Some q)
| moves_corroborated now p q : c = CallCorroborate now (st_id p) -> same_claim p q ->
    is_terminal (st_state p) = false -> st_state q = st_state p ->
    rejection_reason q = rejection_reason p ->
    corroboration_count q = u32_saturating_add (corroboration_count p) 1 ->
    moves c (Some p) (Some q)
| moves_reviewed now policy p q : c = CallReview now (st_id p) policy -> same_claim p q ->
    st_state p = Proposed -> is_expired p now = false ->
    st_state q = (if policy_matches policy (st_confidence p) (corroboration_count p) (st_sensitivity p)
                  then Promoted else UnderReview) ->
    rejection_reason q = rejection_reason p -> corroboration_count q = corroboration_count p ->
    moves c (Some p) (Some q)
| moves_promoted now p q : c = CallPromote now (st_id p) -> same_claim p q ->
    st_state p = UnderReview -> st_state q = Promoted ->
    rejection_reason q = rejection_reason p -> corroboration_count q = corroboration_count p ->
    moves c (Some p) (Some q)
| moves_rejected now reason p q : c = CallReject now (st_id p) reason -> same_claim p q ->
    is_terminal (st_state p) = false -> st_state q = Rejected ->
    rejection_reason q = Some reason -> corroboration_count q = corroboration_count p ->
    moves c (Some p) (Some q)
| moves_expired now p q : (c = CallCorroborate now (st_id p) \/ exists policy, c = CallReview now (st_id p) policy) ->
    is_expired p now = true -> same_claim p q -> is_terminal (st_state p) = false -> st_state q = Rejected ->
    rejection_reason q = Some "ttl_expired"%string -> corroboration_count q = corroboration_count p ->
    moves c (Some p) (Some q).

(** The invariant of a record: what validation established, and a reason
    exactly on rejected proposals. *)
Definition payload_valid (p : AnyPayload) : Prop :=
  match p with
  | PayloadObservation o => validate o = Ok tt
  | PayloadConcept c => validate c = Ok tt
  | PayloadRelation r => validate r = Ok tt
  | PayloadSummary s => validate s = Ok tt
  end.
Definition record_ok (i : uuid) (p : StoredProposal) : Prop :=
  st_id p = i /\ in_unit_interval (st_confidence p) = true /\ f64_is_nan (st_confidence p) = false /\
  st_evidence_refs p <> [] /\ is_nil (st_scope_id p) = false /\ st_ttl p <> Some 0%Z /\
  payload_valid (st_payload p) /\ (st_state p = Rejected <-> is_Some (rejection_reason p)).
Definition store_ok (s : ProposalStore) : Prop := map_Forall record_ok s.

(** ** Lemmas *)

Lemma try_ok {A B E} (r : result A E) (k : A -> result B E) b :
  try_result r k = Ok b <-> exists a, r = Ok a /\ k a = Ok b.
Proof. destruct r; cbn; naive_solver. Qed.

Lemma refuse_ok {E} cond (e : E) u : refuse cond e = Ok u <-> cond = false.
Proof. destruct cond, u; cbn; naive_solver. Qed.

(** [validate_proposal] accepts exactly the envelopes that meet every rule. *)
Lemma validate_proposal_ok {T} `{ValidatePayload T} (p : AgentProposal T) u :
  validate_proposal p = Ok u <->
  f64_is_nan (confidence p) = false /\ in_unit_interval (confidence p) = true /\
  evidence_refs p <> [] /\ is_nil (prop_scope_id p) = false /\
  is_nil (agent_id (agent_identity p)) = false /\
  trim_is_empty (agent_name (agent_identity p)) = false /\
  trim_is_empty (model_name (agent_identity p)) = false /\
  trim_is_empty (model_version (agent_identity p)) = false /\
  present_but_empty (skill_id (agent_identity p)) = false /\
  present_but_empty (recipe_id (agent_identity p)) = false /\
  ttl p <> Some 0%Z /\ validate (payload p) = Ok tt.
Proof.
  destruct u. unfold validate_proposal. repeat setoid_rewrite try_ok. repeat setoid_rewrite refuse_ok.
  split.
  - intros H0. repeat (let Hc := fresh "Hc" in destruct H0 as ([] & Hc & H0)).
    rewrite negb_false_iff in *. repeat split; try done.
    + by destruct (evidence_refs p).
    + destruct (ttl p) as [t|]; [|done]. cbn in *. bool_to_prop. congruence.
  - intros H0. destruct_and!. repeat (exists tt; split); try done.
    + by apply negb_false_iff.
    + by destruct (evidence_refs p).
    + destruct (ttl p) as [t|]; [|done]. apply Z.eqb_neq. congruence.
Qed.

Lemma is_expired_spec p now :
  is_expired p now = true <-> exists t, st_ttl p = Some t /\ (submitted_at p <= now)%Z
    /\ (submitted_at p + t <= now)%Z.
Proof.
  unfold is_expired. destruct (st_ttl p) as [t|]; [|naive_solver].
  destruct (Z.ltb_spec (now - submitted_at p) 0); [split; [done|]; intros (? & [= <-] & ? & ?); lia|].
  rewrite Z.leb_le. split; [intros; exists t; repeat split; lia|].
  intros (? & [= <-] & ? & ?). lia.
Qed.

(** Each call moves the record at one id and leaves the others alone. *)
Lemma submit_moves {T} `{ValidatePayload T} wrap (p : AgentProposal T) c s j :
  submitted c = Some (stored_from_envelope p wrap) -> moves c (s !! j) ((submit wrap p s).1 !! j).
Proof.
  intros Hc. unfold submit, ProposalStore in *. case_match; [|apply moves_same]. case_bool_decide as Hi; cbn [fst]; [apply moves_same|].
  destruct (decide (prop_id p = j)) as [<-|Hj].
  - rewrite lookup_insert_eq. apply eq_None_not_Some in Hi as ->. by apply moves_submitted.
  - rewrite lookup_insert_ne by done. apply moves_same.
Qed.

(** An insertion at the id of a record moves as the record does. *)
Lemma insert_moves c (s : ProposalStore) i p q j :
  s !! i = Some p -> moves c (Some p) (Some q) -> moves c (s !! j) (<[i := q]> s !! j).
Proof.
  unfold ProposalStore in *. intros Hi Hm. destruct (decide (i = j)) as [<-|Hj].
  - by rewrite lookup_insert_eq, Hi.
  - rewrite lookup_insert_ne by done. apply moves_same.
Qed.

Lemma same_claim_refl p : same_claim p p.
Proof. by repeat split. Qed.

Ltac solve_move :=
  first [ by apply moves_same
        | eapply insert_moves; [eassumption|];
          first [ eapply moves_corroborated; [by f_equal|by repeat split|done..]
                | eapply moves_promoted; [by f_equal|by repeat split|done..]
                | eapply moves_reviewed;
                    [by f_equal|by repeat split|done|done|cbn in *; by case_match|done..]
                | eapply moves_rejected; [by f_equal|by repeat split|done..]
                | eapply moves_expired; [first [left; by f_equal|right; eexists; by f_equal]|eassumption|by repeat split|done..] ] ].

Lemma run_elsewhere c s i : i <> target c -> run c s !! i = s !! i.
Proof.
  intros Hi. unfold ProposalStore in *. destruct c as [p|p|p|p|now j|now j policy|now j|now j reason]; cbn [run target] in *;
    unfold submit_observation, submit_concept, submit_relation, submit_summary, submit, record_corroboration, review, promote, reject;
    repeat case_match; cbn [fst]; try done; apply lookup_insert_ne; congruence.
Qed.
Lemma run_moves c s j : store_ok s -> moves c (s !! j) (run c s !! j).
Proof.
  intros Hs. destruct c as [p|p|p|p|now i|now i policy|now i|now i reason]; cbn [run];
    try by apply submit_moves.
  - unfold record_corroboration. destruct (s !! i) as [p|] eqn:Hi; [|apply moves_same].
    pose proof (proj1 (Hs i p Hi)) as <-. repeat case_match; cbn [fst]; solve_move.
  - unfold review. destruct (s !! i) as [p|] eqn:Hi; [|apply moves_same].
    pose proof (proj1 (Hs i p Hi)) as <-.
    destruct (is_terminal (st_state p)) eqn:Ht; [apply moves_same|].
    destruct (is_expired p now) eqn:He; [cbn [fst]; solve_move|].
    destruct (decide (st_state p = Proposed)) as [Hp|Hp];
      [rewrite bool_decide_eq_true_2 by done|rewrite bool_decide_eq_false_2 by done; apply moves_same].
    cbn [negb]. destruct (policy_matches _ _ _ _) eqn:Hm; cbn [fst]; solve_move.
  - unfold promote. destruct (s !! i) as [p|] eqn:Hi; [|apply moves_same].
    pose proof (proj1 (Hs i p Hi)) as <-. case_bool_decide; cbn [negb fst]; solve_move.
  - unfold reject. destruct (s !! i) as [p|] eqn:Hi; [|apply moves_same].
    pose proof (proj1 (Hs i p Hi)) as <-. destruct (is_terminal (st_state p)) eqn:Ht; cbn [fst]; solve_move.
Qed.

Lemma submit_ok {T} `{ValidatePayload T} wrap (p : AgentProposal T) s :
  (forall x, payload_valid (wrap x) <-> validate x = Ok tt) -> store_ok s -> store_ok (submit wrap p s).1.
Proof.
  intros Hw Hs. unfold submit. destruct (validate_proposal p) as [u|] eqn:Hv; [|done].
  case_bool_decide; [done|]. apply validate_proposal_ok in Hv.
  refine (map_Forall_insert_2 record_ok s _ _ _ Hs). destruct_and!. repeat split; cbn; try done; by apply Hw.
Qed.

Lemma moves_ok c i p q : record_ok i p -> moves c (Some p) (Some q) -> record_ok i q.
Proof.
  intros (Hi & H1 & H2 & H3 & H4 & H5 & H6 & H7) Hm. destruct p as [], q as [].
  inversion Hm; subst; [by split_and!|..]; unfold same_claim, record_ok in *; cbn in *;
    destruct_and!; subst; split_and!; try done;
    repeat match goal with H : context [policy_matches ?a ?b ?d ?e] |- _ =>
      destruct (policy_matches a b d e) end; cbn in *; subst; try done; naive_solver.
Qed.

Lemma proposals_run_ok c s : store_ok s -> store_ok (run c s).
Proof.
  intros Hs.
  assert (forall i q, s !! i <> None -> run c s !! i = Some q -> record_ok i q) as Hupd.
  { intros i q Hi Hq. pose proof (run_moves c s i Hs) as Hm. rewrite Hq in Hm.
    destruct (s !! i) as [p|] eqn:Hp; [|done]. eapply moves_ok; [|done]. by apply Hs. }
  destruct c as [p|p|p|p|now k|now k policy|now k|now k why]; try (by apply submit_ok; [|done]);
    intros i q Hq; (destruct (s !! i) eqn:Hi; [eapply Hupd; [congruence|done]|]); exfalso;
    revert Hq; cbn [run]; unfold record_corroboration, review, promote, reject;
    (match goal with |- context [s !! ?j] => destruct (s !! j) eqn:Hj; [|cbn [fst]; congruence] end);
    unfold ProposalStore in *; repeat case_match; cbn [fst]; try congruence; rewrite lookup_insert_ne; congruence.
Qed.

Lemma proposals_ok s : rtc step store_new s -> store_ok s.
Proof.
  intros H. eapply rtc_preserves; [|exact H|apply map_Forall_empty].
  intros x y [c]. apply proposals_run_ok.
Qed.

(** Terminal records are frozen. *)
Lemma moves_terminal c p o :
  is_terminal (st_state p) = true -> moves c (Some p) o -> o = Some p.
Proof. intros Ht Hm. inversion Hm; subst; try done; destruct (st_state p); done. Qed.

Lemma terminal_frozen s s' i p :
  rtc step s s' -> store_ok s -> s !! i = Some p -> is_terminal (st_state p) = true ->
  s' !! i = Some p.
Proof.
  intros Hr Hs Hi Ht.
  apply (rtc_preserves step (fun x => store_ok x /\ x !! i = Some p) s s'); [|done..].
  intros x y [c x'] [Hx Hl]. split; [by apply proposals_run_ok|].
  apply (moves_terminal c); [done|]. rewrite <- Hl. by apply run_moves.
Qed.

Lemma promote_to_canonical_ok `{UuidV5} s i a :
  promote_to_canonical s i = Ok a <->
  exists p, s !! i = Some p /\ st_state p = Promoted /\ a = render_artifact p.
Proof.
  unfold promote_to_canonical. destruct (s !! i) as [p|]; [|naive_solver].
  case_bool_decide; cbn; naive_solver.
Qed.

Lemma f64_of_Z_0 : f64_of_Z 0 = S754_zero false.
Proof. reflexivity. Qed.
Lemma f64_of_Z_1 : f64_of_Z 1 = S754_finite false 4503599627370496 (-52).
Proof. vm_compute. reflexivity. Qed.

(** No finite value in the unit interval reaches [f64::MAX]. *)
Lemma unit_below_MAX x : in_unit_interval x = true -> f64_ltb x f64_MAX = true.
Proof.
  unfold in_unit_interval. rewrite f64_of_Z_0, f64_of_Z_1, andb_true_iff. unfold f64_MAX.
  destruct x as [[]|[]| |[] m e]; intros [H0 H1]; try discriminate; try reflexivity.
  revert H1. unfold f64_leb, SFleb, f64_ltb, SFltb. cbn [SFcompare].
  destruct (Z.compare_spec e (-52)) as [->|He|He]; [reflexivity| |discriminate].
  rewrite (proj2 (Z.compare_lt_iff e 971)) by lia. reflexivity.
Qed.

Lemma default_denies c n k : in_unit_interval c = true ->
  policy_matches default_auto_promotion c n k = false.
Proof. intros Hc. unfold policy_matches. by rewrite unit_below_MAX. Qed.

(** A call that makes a record [Promoted]. *)
Lemma moves_to_promoted c p q :
  moves c (Some p) (Some q) -> st_state p <> Promoted -> st_state q = Promoted ->
  (exists now, c = CallPromote now (st_id p) /\ st_state p = UnderReview) \/
  (exists now policy, c = CallReview now (st_id p) policy /\ st_state p = Proposed /\
     is_expired p now = false /\
     policy_matches policy (st_confidence p) (corroboration_count p) (st_sensitivity p) = true).
Proof.
  intros Hm Hp Hq. inversion Hm; subst; try congruence; [|left; by eauto].
  right. exists now, policy. repeat split; try done. by case_match; [|congruence].
Qed.

(** The four criteria of a policy, AND-ed. *)
Lemma policy_matches_spec policy c n k :
  policy_matches policy c n k = true <->
  f64_ltb c (min_confidence policy) = false /\ (min_corroboration policy <= n)%N /\
  (rank k <= rank (max_sensitivity policy))%N /\
  ~ (require_human_for_critical policy = true /\ k = Critical).
Proof.
  unfold policy_matches. destruct (f64_ltb c (min_confidence policy)); [naive_solver|].
  destruct (N.ltb_spec n (min_corroboration policy)); [split; [done|]; intros (? & ? & ?); lia|].
  destruct (N.ltb_spec (rank (max_sensitivity policy)) (rank k)); [split; [done|]; intros (? & ? & ? & ?); lia|].
  destruct (require_human_for_critical policy); case_bool_decide; cbn; naive_solver.
Qed.

(** ** Properties *)

(** C14: In every reachable store each record sits under its own id, satisfies
    what validation established and carries a rejection reason exactly when it
    is rejected.  A call leaves every record but the one it names as it is; that
    one it moves, if at all, along Proposed -> UnderReview -> Promoted or from a
    non-terminal state to Rejected, as the call and the deadline say, and never
    touches the claim; a promoted or rejected record is the
    same record in every later store, and so is the canonical artifact of a
    promoted one, which is the only kind of record that has an artifact. *)
Theorem proposal_lifecycle `{UuidV5} s :
  rtc step store_new s ->
  map_Forall record_ok s /\
  (forall c i, moves c (s !! i) (run c s !! i)) /\
  (forall i p s', s !! i = Some p -> is_terminal (st_state p) = true -> rtc step s s' ->
     s' !! i = Some p) /\
  (forall i a, promote_to_canonical s i = Ok a <->
     exists p, s !! i = Some p /\ st_state p = Promoted /\ a = render_artifact p) /\
  (forall c i, i <> target c -> run c s !! i = s !! i) /\
  (forall i a s', promote_to_canonical s i = Ok a -> rtc step s s' -> promote_to_canonical s' i = Ok a).
Proof.
  intros Hs%proposals_ok. split_and!.
  - exact Hs.
  - intros c i. by apply run_moves.
  - intros i p s' Hi Ht Hr. by eapply terminal_frozen.
  - intros i a. apply promote_to_canonical_ok.
  - intros c i. apply run_elsewhere.
  - intros i a s' (p & Hi & Hp & ->)%promote_to_canonical_ok Hr. apply promote_to_canonical_ok.
    exists p. split; [|done]. apply (terminal_frozen s); [done..|]. by rewrite Hp.
Qed.

(** A record becomes canonical only through [promote] on a record under
    review or through [review] of a fresh, unexpired record that the policy
    admits; the policy admits a record exactly within its confidence,
    corroboration and sensitivity bounds, the default policy admits no validated
    record, and [promote], unlike [review] and [record_corroboration], does not
    look at the TTL. *)
Theorem promotion_gate s i p :
  rtc step store_new s -> s !! i = Some p ->
  (forall c q, run c s !! i = Some q -> st_state p <> Promoted -> st_state q = Promoted ->
     (exists now, c = CallPromote now i /\ st_state p = UnderReview) \/
     (exists now policy, c = CallReview now i policy /\ st_state p = Proposed /\
        is_expired p now = false /\
        policy_matches policy (st_confidence p) (corroboration_count p) (st_sensitivity p) = true)) /\
  (forall policy, policy_matches policy (st_confidence p) (corroboration_count p) (st_sensitivity p) = true <->
     f64_ltb (st_confidence p) (min_confidence policy) = false /\
     (min_corroboration policy <= corroboration_count p)%N /\
     (rank (st_sensitivity p) <= rank (max_sensitivity policy))%N /\
     ~ (require_human_for_critical policy = true /\ st_sensitivity p = Critical)) /\
  (forall now, (review now i default_auto_promotion s).2 <> Ok AutoPromoted) /\
  (forall now, is_terminal (st_state p) = false -> is_expired p now = true ->
     (forall policy, review now i policy s = (<[i := expire p now]> s, Err (LExpired i))) /\
     record_corroboration now i s = (<[i := expire p now]> s, Err (LExpired i))) /\
  (forall now, st_state p = UnderReview -> promote now i s = (<[i := set_state p Promoted now]> s, Ok tt)).
Proof.
  intros Hs%proposals_ok Hi. pose proof (Hs i p Hi) as (Hid & Hc & _). split_and!.
  - intros c q Hq Hp Hq'. pose proof (run_moves c s i Hs) as Hm. rewrite Hi, Hq in Hm.
    rewrite <- Hid. by eapply moves_to_promoted.
  - intros policy. apply policy_matches_spec.
  - intros now. unfold review. rewrite Hi. repeat case_match; try done.
    rewrite default_denies in *; done.
  - intros now Ht He. unfold review, record_corroboration. rewrite Hi, Ht, He. done.
  - intros now Hu. unfold promote. rewrite Hi. by rewrite bool_decide_eq_true_2.
Qed.

(** A run in which an observation is admitted, reviewed and promoted after its
    TTL has elapsed. *)
Definition demo_agent : AgentIdentity := new_identity 7 "connector" "model" "v1".
Definition demo_observation : AgentProposal ObservationProposal :=
  with_ttl (new_proposal 1 100 KindObservation 5 (mk_observation "Atlas launches" "fact") [9%N]
              (f64_lit 9 10) Useful demo_agent) 10.
Definition demo_submitted : ProposalStore := (submit_observation demo_observation store_new).1.
Definition demo_reviewed : ProposalStore := (review 105 1 default_auto_promotion demo_submitted).1.
Definition demo_promoted : ProposalStore := (promote 200 1 demo_reviewed).1.
Definition demo_record : StoredProposal :=
  set_state (set_state (stored_from_envelope demo_observation PayloadObservation) UnderReview 105) Promoted 200.
Definition uuid_v5_sum : UuidV5 := {| uuid_v5 := fun ns name => (ns + foldl N.add 0 name)%N |}.

Lemma demo_proposals_run : rtc step store_new demo_promoted.
Proof.
  apply (rtc_r _ demo_reviewed); [|exact (step_call (CallPromote 200 1) demo_reviewed)].
  apply (rtc_r _ demo_submitted); [|exact (step_call (CallReview 105 1 default_auto_promotion) demo_submitted)].
  apply rtc_once. exact (step_call (CallObservation demo_observation) store_new).
Qed.

Lemma demo_lookup : demo_promoted !! 1%N = Some demo_record.
Proof. vm_compute. reflexivity. Qed.

Lemma proposal_lifecycle_witness :
  (run (CallReject 300 1 "late") demo_promoted) !! 1%N = Some demo_record.
Proof.
  apply (proj1 (proj2 (proj2 (@proposal_lifecycle uuid_v5_sum demo_promoted demo_proposals_run))) 1%N demo_record).
  - exact demo_lookup.
  - reflexivity.
  - apply rtc_once. constructor.
Defined.

Lemma promotion_gate_witness :
  is_expired demo_record 200 = true /\
  (review 200 1 default_auto_promotion demo_promoted).2 <> Ok AutoPromoted.
Proof.
  split; [vm_compute; reflexivity|].
  apply (proj1 (proj2 (proj2 (promotion_gate demo_promoted 1 demo_record demo_proposals_run demo_lookup)))).
Defined.
