(* ===== verification/ExportPlane.v ===== *)
(** * The export plane ([export_plane/src/profile.rs], [policy.rs],
    [controls.rs], [approval.rs], [simulator.rs], with the provenance records of
    [crypto/src/provenance.rs])

    What may leave the substrate: approved concepts, the policy that filters
    them, the deny-by-default registry of export controls, the approval
    workflow over the concept graph and the simulator that previews an export.
    Identifiers drawn and times read are arguments. *)

From stdpp Require Import sorting pretty.
From S2P Require Import Prelude Memory.
From S2P Require ConceptGraph.
#[local] Existing Instance ConceptGraph.NodeState_eq_dec.

(** ** Provenance *)

(** [enum AgentKind], [struct SynthesisActivity], [struct ProvenanceAgent],
    [struct ProvenanceBundle] with their constructors. *)
Inductive AgentKind : Type := Human | Software.
Definition agent_kind_str (k : AgentKind) : string :=
  match k with Human => "human" | Software => "software" end.
Record SynthesisActivity : Type := mk_activity {
  activity_agent_identity : string;
  activity_model_version : string;
  prompt_id : string;
  run_id : uuid
}.
Record ProvenanceAgent : Type := mk_agent { agent_kind : AgentKind; identity : string }.
Definition human (who : string) : ProvenanceAgent := mk_agent Human who.
Definition software (who : string) : ProvenanceAgent := mk_agent Software who.
Record ProvenanceBundle : Type := mk_bundle {
  entity_id : uuid;
  activity : SynthesisActivity;
  agent : ProvenanceAgent;
  derivations : list uuid;
  bundle_created_at : instant
}.
Definition new_bundle (now : instant) (entity : uuid) (a : SynthesisActivity) (g : ProvenanceAgent)
    (ds : list uuid) : ProvenanceBundle := mk_bundle entity a g ds now.

(** ** Profiles ([profile.rs]) *)

(** [struct ApprovedConcept] with [new], [with_expiry], [is_expired]. *)
Record ApprovedConcept : Type := mk_approved {
  concept_id : uuid;
  ac_label : string;
  ac_definition : string;
  ac_scope_id : uuid;
  provenance : ProvenanceBundle;
  ac_sensitivity : SensitivityClass;
  approved_at : instant;
  ac_expires_at : option instant
}.
Definition new_approved (now : instant) (i : uuid) (l d : string) (scope : uuid)
    (b : ProvenanceBundle) (class : SensitivityClass) : ApprovedConcept :=
  mk_approved i l d scope b class now None.
Definition with_expiry (c : ApprovedConcept) (t : instant) : ApprovedConcept :=
  mk_approved (concept_id c) (ac_label c) (ac_definition c) (ac_scope_id c) (provenance c)
    (ac_sensitivity c) (approved_at c) (Some t).
(** [o.is_some_and(|t| now >= t)]. *)
Definition expired_at (o : option instant) (now : instant) : bool :=
  match o with Some t => (t <=? now)%Z | None => false end.
Definition is_expired (c : ApprovedConcept) (now : instant) : bool := expired_at (ac_expires_at c) now.

(** [struct ReasoningRef], [enum ExportConstraint], [struct PortableConceptProfile]. *)
Record ReasoningRef : Type := mk_reasoning { trace_id : uuid; tag : string }.
Inductive ExportConstraint : Type :=
| MaxConcepts (n : N)
| MaxAge (d : duration)
| ScopeRestriction (scopes : list uuid)
| SensitivityCeiling (class : SensitivityClass).
Record PortableConceptProfile : Type := mk_profile {
  profile_id : uuid;
  profile_name : string;
  description : string;
  target_tool : string;
  profile_concepts : list ApprovedConcept;
  constraints : list ExportConstraint;
  reasoning_traces : list ReasoningRef;
  profile_created_at : instant;
  profile_expires_at : option instant;
  profile_scope_id : uuid
}.
Definition new_profile (fresh : uuid) (now : instant) (name desc tool : string) (scope : uuid) :
    PortableConceptProfile := mk_profile fresh name desc tool [] [] [] now None scope.
Definition profile_with_expiry (p : PortableConceptProfile) (t : instant) : PortableConceptProfile :=
  mk_profile (profile_id p) (profile_name p) (description p) (target_tool p) (profile_concepts p)
    (constraints p) (reasoning_traces p) (profile_created_at p) (Some t) (profile_scope_id p).
Definition push_concept (p : PortableConceptProfile) (c : ApprovedConcept) : PortableConceptProfile :=
  mk_profile (profile_id p) (profile_name p) (description p) (target_tool p) (profile_concepts p ++ [c])
    (constraints p) (reasoning_traces p) (profile_created_at p) (profile_expires_at p) (profile_scope_id p).
Definition push_constraint (p : PortableConceptProfile) (c : ExportConstraint) : PortableConceptProfile :=
  mk_profile (profile_id p) (profile_name p) (description p) (target_tool p) (profile_concepts p)
    (constraints p ++ [c]) (reasoning_traces p) (profile_created_at p) (profile_expires_at p)
    (profile_scope_id p).
Definition push_trace (p : PortableConceptProfile) (t : ReasoningRef) : PortableConceptProfile :=
  mk_profile (profile_id p) (profile_name p) (description p) (target_tool p) (profile_concepts p)
    (constraints p) (reasoning_traces p ++ [t]) (profile_created_at p) (profile_expires_at p)
    (profile_scope_id p).
Definition profile_is_expired (p : PortableConceptProfile) (now : instant) : bool :=
  expired_at (profile_expires_at p) now.

(** [struct EvidencePack], [struct ApprovedSummary], [enum ExportViewContent]
    with its accessors, [struct ExportView] with [new]. *)
Record EvidencePack : Type := mk_pack { pack_evidence_refs : list uuid; pack_concept_ids : list uuid }.
Record ApprovedSummary : Type := mk_approved_summary {
  as_summary_id : uuid; as_scope_id : uuid; body : string
}.
Inductive ExportViewContent : Type :=
| ConceptsOnly (concepts : list ApprovedConcept)
| WithSummaries (concepts : list ApprovedConcept) (summaries : list ApprovedSummary)
| WithEvidencePack (concepts : list ApprovedConcept) (summaries : list ApprovedSummary)
    (pack : EvidencePack).
Definition content_concepts (c : ExportViewContent) : list ApprovedConcept :=
  match c with ConceptsOnly l | WithSummaries l _ | WithEvidencePack l _ _ => l end.
Definition content_summaries (c : ExportViewContent) : list ApprovedSummary :=
  match c with ConceptsOnly _ => [] | WithSummaries _ s | WithEvidencePack _ s _ => s end.
Definition content_evidence_pack (c : ExportViewContent) : option EvidencePack :=
  match c with WithEvidencePack _ _ p => Some p | _ => None end.
Record ExportView : Type := mk_view {
  view_id : uuid;
  view_profile_id : uuid;
  rendered_at : instant;
  content : ExportViewContent;
  view_scope_id : uuid
}.
Definition new_view (fresh : uuid) (now : instant) (profile scope : uuid) (c : ExportViewContent) :
    ExportView := mk_view fresh profile now c scope.

(** ** The policy engine ([policy.rs]) *)

(** [enum ExportRejectionReason], [struct ExportRejection],
    [struct ExportDecision], [struct ExportPolicy]. *)
Inductive ExportRejectionReason : Type :=
| SensitivityExceeded (sensitivity ceiling : SensitivityClass)
| ScopeNotWhitelisted (scope : uuid)
| MissingProvenance
| Expired
| OutsideTimeWindow
| MaxConceptsReached.
Record ExportRejection : Type := mk_rejection { rejected_id : uuid; reason : ExportRejectionReason }.
Record ExportDecision : Type := mk_decision {
  approved : list ApprovedConcept;
  rejected : list ExportRejection;
  warnings : list string;
  decision_raw_evidence : bool
}.
Record ExportPolicy : Type := mk_policy {
  allow_raw_evidence : bool;
  max_concepts : N;
  max_summaries : N;
  sensitivity_ceiling : SensitivityClass;
  scope_whitelist : option (list uuid);
  time_window : option duration;
  require_provenance : bool
}.
(** The default policy and [ExportPolicy::permissive]; [usize::MAX]. *)
Definition default_policy : ExportPolicy := mk_policy false 100 25 Useful None None true.
Definition permissive (ceiling : SensitivityClass) : ExportPolicy :=
  mk_policy false u64_max u64_max ceiling None None true.

(** [rank]: a higher number is more sensitive. *)
Definition rank (c : SensitivityClass) : N :=
  match c with Noise => 0 | Useful => 1 | Important => 2 | Critical => 3 end%N.

(** One constraint folded into the policy, and [ExportPolicy::with_constraints]. *)
Definition with_constraint (p : ExportPolicy) (c : ExportConstraint) : ExportPolicy :=
  match c with
  | MaxConcepts n =>
      mk_policy (allow_raw_evidence p) (N.min (max_concepts p) n) (max_summaries p)
        (sensitivity_ceiling p) (scope_whitelist p) (time_window p) (require_provenance p)
  | MaxAge d =>
      mk_policy (allow_raw_evidence p) (max_concepts p) (max_summaries p) (sensitivity_ceiling p)
        (scope_whitelist p)
        (Some match time_window p with Some existing => Z.min existing d | None => d end)
        (require_provenance p)
  | ScopeRestriction scopes =>
      mk_policy (allow_raw_evidence p) (max_concepts p) (max_summaries p) (sensitivity_ceiling p)
        (Some match scope_whitelist p with
              | Some existing => base.filter (fun s => s ∈ scopes) existing
              | None => scopes
              end)
        (time_window p) (require_provenance p)
  | SensitivityCeiling class =>
      mk_policy (allow_raw_evidence p) (max_concepts p) (max_summaries p)
        (if (rank class <? rank (sensitivity_ceiling p))%N then class else sensitivity_ceiling p)
        (scope_whitelist p) (time_window p) (require_provenance p)
  end.
Definition with_constraints (p : ExportPolicy) (cs : list ExportConstraint) : ExportPolicy :=
  foldl with_constraint p cs.

(** [is_provenance_populated], [approved_within]. *)
Definition is_provenance_populated (b : ProvenanceBundle) : bool :=
  negb (entity_id b =? 0)%N
  && negb (String.eqb (activity_agent_identity (activity b)) "")
  && negb (String.eqb (activity_model_version (activity b)) "").
Definition approved_within (at_time : instant) (window : duration) (now : instant) : bool :=
  let elapsed := (now - at_time)%Z in
  if (elapsed <? 0)%Z then true else (elapsed <=? window)%Z.

(** The checks of the loop that precede the cap: the reason of the first one
    that fails. *)
Definition first_failure (p : ExportPolicy) (now : instant) (c : ApprovedConcept) :
    option ExportRejectionReason :=
  if is_expired c now then Some Expired
  else if (rank (sensitivity_ceiling p) <? rank (ac_sensitivity c))%N then
    Some (SensitivityExceeded (ac_sensitivity c) (sensitivity_ceiling p))
  else if match scope_whitelist p with
          | Some whitelist => negb (bool_decide (ac_scope_id c ∈ whitelist))
          | None => false
          end then Some (ScopeNotWhitelisted (ac_scope_id c))
  else if require_provenance p && negb (is_provenance_populated (provenance c)) then
    Some MissingProvenance
  else if match time_window p with
          | Some window => negb (approved_within (approved_at c) window now)
          | None => false
          end then Some OutsideTimeWindow
  else None.

(** The loop body of [PolicyEngine::evaluate], and the method. *)
Definition evaluate_step (p : ExportPolicy) (now : instant)
    (acc : list ApprovedConcept * list ExportRejection) (c : ApprovedConcept) :
    list ApprovedConcept * list ExportRejection :=
  let '(ok, refused) := acc in
  match first_failure p now c with
  | Some why => (ok, refused ++ [mk_rejection (concept_id c) why])
  | None =>
      if (max_concepts p <=? N.of_nat (length ok))%N then
        (ok, refused ++ [mk_rejection (concept_id c) MaxConceptsReached])
      else (ok ++ [c], refused)
  end.
Definition is_critical (c : ApprovedConcept) : bool :=
  match ac_sensitivity c with Critical => true | _ => false end.
Definition evaluate (now : instant) (p : ExportPolicy) (candidates : list ApprovedConcept) :
    ExportDecision :=
  let '(ok, refused) := foldl (evaluate_step p now) ([], []) candidates in
  let any_critical := existsb is_critical ok in
  mk_decision ok refused
    (if allow_raw_evidence p && any_critical then
       ["raw evidence requested but suppressed because the approved set contains a Critical concept"]
     else [])
    (allow_raw_evidence p && negb any_critical).

(** [enum ExportViewRequest], [enum ExportViewError], [ExportView::from_decision]. *)
Inductive ExportViewRequest : Type :=
| RequestConceptsOnly
| RequestSummaries (summaries : list ApprovedSummary)
| RequestEvidencePack (summaries : list ApprovedSummary) (pack : EvidencePack).
Inductive ExportViewError : Type := RawEvidenceNotAuthorised.
Definition from_decision (fresh : uuid) (now : instant) (d : ExportDecision) (profile scope : uuid)
    (request : ExportViewRequest) : result ExportView ExportViewError :=
  let concepts := approved d in
  let? c := match request with
            | RequestConceptsOnly => Ok (ConceptsOnly concepts)
            | RequestSummaries s => Ok (WithSummaries concepts s)
            | RequestEvidencePack s pack =>
                if negb (decision_raw_evidence d) then Err RawEvidenceNotAuthorised
                else Ok (WithEvidencePack concepts s pack)
            end in
  Ok (new_view fresh now profile scope c).

(** ** Export controls ([controls.rs]) *)

(** [struct ConceptExportControl] with its methods. *)
Record ConceptExportControl : Type := mk_concept_control {
  cc_concept_id : uuid;
  cc_exportable : bool;
  allowed_profiles : list uuid;
  time_bound : option duration;
  scope_bound : list uuid;
  cc_created_at : instant
}.
Definition new_concept_control (now : instant) (i : uuid) : ConceptExportControl :=
  mk_concept_control i true [] None [] now.
Definition is_active (c : ConceptExportControl) (now : instant) : bool :=
  if negb (cc_exportable c) then false
  else match time_bound c with
       | None => true
       | Some bound =>
           let elapsed := (now - cc_created_at c)%Z in
           if (elapsed <? 0)%Z then true else (elapsed <? bound)%Z
       end.
(** [l.is_empty() || l.contains(&x)]. *)
Definition empty_or_contains (l : list uuid) (x : uuid) : bool :=
  match l with [] => true | _ => bool_decide (x ∈ l) end.
Definition allows_profile (c : ConceptExportControl) (p : uuid) : bool :=
  empty_or_contains (allowed_profiles c) p.
Definition allows_scope (c : ConceptExportControl) (s : uuid) : bool := empty_or_contains (scope_bound c) s.

(** [enum RedactionLevel], [struct SummaryExportControl],
    [struct WorkflowExportControl] with their methods. *)
Inductive RedactionLevel : Type := RedactNone | RedactPartial | RedactFull.
Record SummaryExportControl : Type := mk_summary_control {
  sc_summary_id : uuid;
  sc_scope_id : uuid;
  sc_exportable : bool;
  redaction_level : RedactionLevel
}.
Definition new_summary_control (i scope : uuid) (r : RedactionLevel) : SummaryExportControl :=
  mk_summary_control i scope true r.
Record WorkflowExportControl : Type := mk_workflow_control {
  wc_workflow_id : uuid;
  wc_exportable : bool;
  allowed_agents : list uuid
}.
Definition new_workflow_control (i : uuid) : WorkflowExportControl := mk_workflow_control i true [].
Definition allows_agent (c : WorkflowExportControl) (a : uuid) : bool :=
  empty_or_contains (allowed_agents c) a.

(** [enum ExportControlError], [struct ExportControlRegistry] with [new]. *)
Inductive ExportControlError : Type := ControlNotFound (i : uuid) | ControlDuplicate (i : uuid).
Record ExportControlRegistry : Type := mk_registry {
  reg_concepts : gmap uuid ConceptExportControl;
  reg_summaries : gmap uuid SummaryExportControl;
  reg_workflows : gmap uuid WorkflowExportControl
}.
Definition registry_new : ExportControlRegistry := mk_registry ∅ ∅ ∅.

(** The concept rows. *)
Definition upsert_concept (c : ConceptExportControl) (r : ExportControlRegistry) : ExportControlRegistry :=
  mk_registry (<[cc_concept_id c := c]> (reg_concepts r)) (reg_summaries r) (reg_workflows r).
Definition insert_concept (c : ConceptExportControl) :
    eff ExportControlRegistry ExportControlError unit := fun r =>
  if bool_decide (is_Some (reg_concepts r !! cc_concept_id c)) then
    (r, Err (ControlDuplicate (cc_concept_id c)))
  else (upsert_concept c r, Ok tt).
Definition get_concept (r : ExportControlRegistry) (i : uuid) : option ConceptExportControl :=
  reg_concepts r !! i.
Definition remove_concept (i : uuid) : eff ExportControlRegistry ExportControlError unit := fun r =>
  match reg_concepts r !! i with
  | None => (r, Err (ControlNotFound i))
  | Some _ => (mk_registry (base.delete i (reg_concepts r)) (reg_summaries r) (reg_workflows r), Ok tt)
  end.
Definition concepts `{HashOrder} (r : ExportControlRegistry) : list ConceptExportControl :=
  hash_order (snd <$> map_to_list (reg_concepts r)).
Definition allows_concept (r : ExportControlRegistry) (i profile scope : uuid) (now : instant) : bool :=
  match reg_concepts r !! i with
  | None => false
  | Some c =>
      if negb (is_active c now) then false
      else if negb (allows_profile c profile) then false
      else if negb (allows_scope c scope) then false
      else true
  end.

(** The summary rows. *)
Definition upsert_summary (c : SummaryExportControl) (r : ExportControlRegistry) : ExportControlRegistry :=
  mk_registry (reg_concepts r) (<[sc_summary_id c := c]> (reg_summaries r)) (reg_workflows r).
Definition insert_summary (c : SummaryExportControl) :
    eff ExportControlRegistry ExportControlError unit := fun r =>
  if bool_decide (is_Some (reg_summaries r !! sc_summary_id c)) then
    (r, Err (ControlDuplicate (sc_summary_id c)))
  else (upsert_summary c r, Ok tt).
Definition get_summary (r : ExportControlRegistry) (i : uuid) : option SummaryExportControl :=
  reg_summaries r !! i.
Definition remove_summary (i : uuid) : eff ExportControlRegistry ExportControlError unit := fun r =>
  match reg_summaries r !! i with
  | None => (r, Err (ControlNotFound i))
  | Some _ => (mk_registry (reg_concepts r) (base.delete i (reg_summaries r)) (reg_workflows r), Ok tt)
  end.
Definition summaries `{HashOrder} (r : ExportControlRegistry) : list SummaryExportControl :=
  hash_order (snd <$> map_to_list (reg_summaries r)).
Definition allows_summary (r : ExportControlRegistry) (i : uuid) : bool :=
  match reg_summaries r !! i with Some c => sc_exportable c | None => false end.

(** The workflow rows. *)
Definition upsert_workflow (c : WorkflowExportControl) (r : ExportControlRegistry) : ExportControlRegistry :=
  mk_registry (reg_concepts r) (reg_summaries r) (<[wc_workflow_id c := c]> (reg_workflows r)).
Definition insert_workflow (c : WorkflowExportControl) :
    eff ExportControlRegistry ExportControlError unit := fun r =>
  if bool_decide (is_Some (reg_workflows r !! wc_workflow_id c)) then
    (r, Err (ControlDuplicate (wc_workflow_id c)))
  else (upsert_workflow c r, Ok tt).
Definition get_workflow (r : ExportControlRegistry) (i : uuid) : option WorkflowExportControl :=
  reg_workflows r !! i.
Definition remove_workflow (i : uuid) : eff ExportControlRegistry ExportControlError unit := fun r =>
  match reg_workflows r !! i with
  | None => (r, Err (ControlNotFound i))
  | Some _ => (mk_registry (reg_concepts r) (reg_summaries r) (base.delete i (reg_workflows r)), Ok tt)
  end.
Definition workflows `{HashOrder} (r : ExportControlRegistry) : list WorkflowExportControl :=
  hash_order (snd <$> map_to_list (reg_workflows r)).
Definition allows_workflow (r : ExportControlRegistry) (i a : uuid) : bool :=
  match reg_workflows r !! i with
  | None => false
  | Some c => wc_exportable c && allows_agent c a
  end.

(** ** The approval workflow ([approval.rs]) *)

Section Approval.
Context {Json : Type} {JsonNull : Inhabited Json}.

(** [enum ApprovalError], [struct ConceptApprovalWorkflow] with [new], [get]. *)
Inductive ApprovalError : Type :=
| ANotFound (i : uuid)
| NotCanonical (i : uuid)
| NotExportable (i : uuid)
| AlreadyApproved (i : uuid)
| NotApproved (i : uuid).
Definition ConceptApprovalWorkflow : Type := gmap uuid ApprovedConcept.
Definition workflow_new : ConceptApprovalWorkflow := ∅.
Definition workflow_get (w : ConceptApprovalWorkflow) (i : uuid) : option ApprovedConcept := w !! i.

(** [approve_for_export], [revoke_approval], [list_approved], [list_all]; the
    clock is read for the control check, by the bundle and by the record. *)
Definition approve_for_export (run : uuid) (t1 t2 t3 : instant) (i scope profile : uuid)
    (class : SensitivityClass) (graph : ConceptGraph.ConceptGraph Json) (controls : ExportControlRegistry) :
    eff ConceptApprovalWorkflow ApprovalError ApprovedConcept := fun w =>
  match ConceptGraph.get_node graph i with
  | None => (w, Err (ANotFound i))
  | Some node =>
      if negb (bool_decide (ConceptGraph.node_state node = ConceptGraph.Canonical)) then
        (w, Err (NotCanonical i))
      else if negb (allows_concept controls i profile scope t1) then (w, Err (NotExportable i))
      else if bool_decide (is_Some (w !! i)) then (w, Err (AlreadyApproved i))
      else
        let b := new_bundle t2 i
                   (mk_activity "export_plane:approval_workflow" "export_plane@v1" "concept.approve.v1" run)
                   (software "export_plane:approval_workflow") [] in
        let a := new_approved t3 i (ConceptGraph.node_label node) (ConceptGraph.node_definition node)
                   scope b class in
        (<[i := a]> w, Ok a)
  end.
Definition revoke_approval (i : uuid) : eff ConceptApprovalWorkflow ApprovalError unit := fun w =>
  match w !! i with
  | None => (w, Err (NotApproved i))
  | Some _ => (base.delete i w, Ok tt)
  end.
Definition list_all `{HashOrder} (w : ConceptApprovalWorkflow) : list ApprovedConcept :=
  hash_order (snd <$> map_to_list w).
Definition list_approved `{HashOrder} (w : ConceptApprovalWorkflow) (scope : uuid) : list ApprovedConcept :=
  base.filter (fun c => ac_scope_id c = scope) (hash_order (snd <$> map_to_list w)).
End Approval.

(** ** The simulator ([simulator.rs]) *)

(** [struct SimulatedExclusion], [struct SimulationResult]. *)
Record SimulatedExclusion : Type := mk_exclusion { excluded_id : uuid; excluded_why : string }.
Record SimulationResult : Type := mk_simulation {
  included_concepts : list uuid;
  excluded_concepts : list SimulatedExclusion;
  included_summaries : list uuid;
  excluded_summaries : list SimulatedExclusion;
  would_include_evidence : bool;
  total_export_size_estimate : N;
  sim_warnings : list string
}.

(** [{class:?}], [rejection_reason_label]. *)
Definition class_debug (c : SensitivityClass) : string :=
  match c with Critical => "Critical" | Important => "Important" | Useful => "Useful" | Noise => "Noise" end.
Definition rejection_reason_label `{UuidText} (r : ExportRejectionReason) : string :=
  match r with
  | SensitivityExceeded s ceiling =>
      ("sensitivity " +:+ class_debug s +:+ " exceeds policy ceiling " +:+ class_debug ceiling)%string
  | ScopeNotWhitelisted scope => ("scope " +:+ uuid_to_string scope +:+ " not in policy whitelist")%string
  | MissingProvenance => "concept lacks provenance bundle"
  | Expired => "concept approval has expired"
  | OutsideTimeWindow => "concept older than policy time window"
  | MaxConceptsReached => "policy max_concepts cap reached"
  end.

(** [estimate_size]; [String::len] counts bytes. *)
Definition str_len (s : string) : N := N.of_nat (String.length s).
Definition estimate_size (p : PortableConceptProfile) (included : list uuid) : N :=
  foldl (fun sum c =>
           if bool_decide (concept_id c ∈ included)
           then (sum + (str_len (ac_label c) + str_len (ac_definition c)) + 64)%N else sum)
    (str_len (profile_name p) + str_len (description p) + str_len (target_tool p))%N
    (profile_concepts p).

(** [sort_by_key(|c| c.summary_id)]: stable. *)
Definition summary_le (a b : SummaryExportControl) : Prop := (sc_summary_id a <= sc_summary_id b)%N.
#[export] Instance summary_le_dec : RelDecision summary_le := fun a b => decide (_ <= _)%N.
Definition sort_by_summary_id (l : list SummaryExportControl) : list SummaryExportControl :=
  merge_sort summary_le l.

(** The three buckets of summary controls. *)
Definition cross_scope `{HashOrder} (r : ExportControlRegistry) (scope : uuid) : list SummaryExportControl :=
  sort_by_summary_id (base.filter (fun c => sc_scope_id c <> scope) (summaries r)).
Definition exportable `{HashOrder} (r : ExportControlRegistry) (scope : uuid) : list SummaryExportControl :=
  sort_by_summary_id (base.filter (fun c => sc_scope_id c = scope /\ sc_exportable c = true) (summaries r)).
Definition blocked `{HashOrder} (r : ExportControlRegistry) (scope : uuid) : list SummaryExportControl :=
  sort_by_summary_id (base.filter (fun c => sc_scope_id c = scope /\ sc_exportable c = false) (summaries r)).

(** [for c in &l { excluded.push(..) }]. *)
Definition exclude_concepts (why : string) (l : list ApprovedConcept) : list SimulatedExclusion :=
  (fun c => mk_exclusion (concept_id c) why) <$> l.
Definition exclude_summaries (why : string) (l : list SummaryExportControl) : list SimulatedExclusion :=
  (fun c => mk_exclusion (sc_summary_id c) why) <$> l.

(** The capped loop over the exportable summaries: included, excluded, the
    number capped. *)
Definition summary_step (cap : N) (acc : list uuid * list SimulatedExclusion * N)
    (c : SummaryExportControl) : list uuid * list SimulatedExclusion * N :=
  let '(ok, refused, capped) := acc in
  if (N.of_nat (length ok) <? cap)%N then (ok ++ [sc_summary_id c], refused, capped)
  else (ok, refused ++ [mk_exclusion (sc_summary_id c) "policy max_summaries cap reached"],
        (capped + 1)%N).

(** The registry pre-filter: a concept it denies is excluded, the others are
    candidates. *)
Definition prefilter_step (r : ExportControlRegistry) (profile : uuid) (now : instant)
    (acc : list SimulatedExclusion * list ApprovedConcept) (c : ApprovedConcept) :
    list SimulatedExclusion * list ApprovedConcept :=
  let '(refused, candidates) := acc in
  if negb (allows_concept r (concept_id c) profile (ac_scope_id c) now) then
    (refused ++ [mk_exclusion (concept_id c)
                   "deny-by-default: concept not authorised by export control registry"], candidates)
  else (refused, candidates ++ [c]).

(** [PolicySimulator::simulate]: [now] is its own reading of the clock, [now']
    the engine's. *)
Definition simulate `{HashOrder} `{UuidText} (now now' : instant) (policy : ExportPolicy)
    (controls : ExportControlRegistry) (profile : PortableConceptProfile) : SimulationResult :=
  if profile_is_expired profile now then
    mk_simulation [] (exclude_concepts "profile expired" (profile_concepts profile)) [] [] false 0
      ["profile expired — simulator returning empty preview"]
  else
    let effective := with_constraints policy (constraints profile) in
    let '(denied, candidates) :=
      foldl (prefilter_step controls (profile_id profile) now) ([], []) (profile_concepts profile) in
    let decision := evaluate now' effective candidates in
    let included := concept_id <$> approved decision in
    let excluded := denied ++ ((fun r => mk_exclusion (rejected_id r) (rejection_reason_label (reason r)))
                                 <$> rejected decision) in
    let scope := profile_scope_id profile in
    let refused :=
      exclude_summaries "summary scope does not match profile scope" (cross_scope controls scope) ++
      exclude_summaries "summary control marked non-exportable" (blocked controls scope) in
    let '(inc_summaries, exc_summaries, capped) :=
      foldl (summary_step (max_summaries effective)) ([], refused, 0%N) (exportable controls scope) in
    mk_simulation included excluded inc_summaries exc_summaries (decision_raw_evidence decision)
      (estimate_size profile included)
      (warnings decision ++
       (if (0 <? capped)%N then
          ["policy max_summaries cap reached: " +:+ pretty capped +:+ " summary/-ies dropped from preview"]
        else [])%string).

(** ** Specifications *)

(** What a policy admits, as the conjunction the prose of the policy gives. *)
Definition admits (p : ExportPolicy) (now : instant) (c : ApprovedConcept) : Prop :=
  is_expired c now = false /\
  (rank (ac_sensitivity c) <= rank (sensitivity_ceiling p))%N /\
  (forall whitelist, scope_whitelist p = Some whitelist -> ac_scope_id c ∈ whitelist) /\
  (require_provenance p = true -> is_provenance_populated (provenance c) = true) /\
  (forall window, time_window p = Some window -> approved_within (approved_at c) window now = true).
Definition admitted (p : ExportPolicy) (now : instant) (c : ApprovedConcept) : bool :=
  match first_failure p now c with None => true | Some _ => false end.

(** What one constraint asks of a concept. *)
Definition satisfies (now : instant) (c : ApprovedConcept) (k : ExportConstraint) : Prop :=
  match k with
  | MaxConcepts _ => True
  | MaxAge d => approved_within (approved_at c) d now = true
  | ScopeRestriction scopes => ac_scope_id c ∈ scopes
  | SensitivityCeiling class => (rank (ac_sensitivity c) <= rank class)%N
  end.

(** Runs of the control registry; its rows sit under their own ids. *)
Inductive registry_call : Type :=
| RInsertConcept (c : ConceptExportControl) | RUpsertConcept (c : ConceptExportControl)
| RRemoveConcept (i : uuid)
| RInsertSummary (c : SummaryExportControl) | RUpsertSummary (c : SummaryExportControl)
| RRemoveSummary (i : uuid)
| RInsertWorkflow (c : WorkflowExportControl) | RUpsertWorkflow (c : WorkflowExportControl)
| RRemoveWorkflow (i : uuid).
Definition run_registry (k : registry_call) (r : ExportControlRegistry) : ExportControlRegistry :=
  match k with
  | RInsertConcept c => (insert_concept c r).1
  | RUpsertConcept c => upsert_concept c r
  | RRemoveConcept i => (remove_concept i r).1
  | RInsertSummary c => (insert_summary c r).1
  | RUpsertSummary c => upsert_summary c r
  | RRemoveSummary i => (remove_summary i r).1
  | RInsertWorkflow c => (insert_workflow c r).1
  | RUpsertWorkflow c => upsert_workflow c r
  | RRemoveWorkflow i => (remove_workflow i r).1
  end.
Inductive registry_step : ExportControlRegistry -> ExportControlRegistry -> Prop :=
| registry_step_call k r : registry_step r (run_registry k r).
Definition summaries_keyed (r : ExportControlRegistry) : Prop :=
  map_Forall (fun i c => sc_summary_id c = i) (reg_summaries r).

(** ** Lemmas on the policy engine *)

Lemma admitted_spec p now c : admitted p now c = true <-> admits p now c.
Proof.
  unfold admitted, first_failure, admits.
  destruct (is_expired c now); [naive_solver|].
  destruct (N.ltb_spec (rank (sensitivity_ceiling p)) (rank (ac_sensitivity c)));
    [split; [done|]; intros (_ & ? & _); lia|].
  destruct (scope_whitelist p) as [wl|]; [case_bool_decide; cbn; [|naive_solver]|];
    (destruct (require_provenance p), (is_provenance_populated (provenance c)); cbn; try naive_solver);
    (destruct (time_window p) as [w|]; [destruct (approved_within _ _ _) eqn:?; cbn|]; naive_solver).
Qed.

Lemma first_failure_admitted p now c : first_failure p now c = None <-> admitted p now c = true.
Proof. unfold admitted. destruct (first_failure p now c); naive_solver. Qed.

(** The three invariants of the loop. *)
Lemma evaluate_approved p now l :
  (foldl (evaluate_step p now) ([], []) l).1
  = take (N.to_nat (max_concepts p)) (base.filter (fun c => admitted p now c = true) l).
Proof.
  induction l as [|c l IH] using rev_ind; [by destruct (N.to_nat (max_concepts p))|].
  rewrite foldl_app, filter_app. cbn [foldl]. destruct (foldl _ _ l) as [ok refused]. cbn [fst] in IH.
  set (adm := base.filter _ l) in *. unfold evaluate_step.
  destruct (first_failure p now c) as [why|] eqn:Hf.
  - rewrite (filter_cons_False (fun c => admitted p now c = true)), app_nil_r; [done|].
    rewrite <- first_failure_admitted. congruence.
  - rewrite (filter_cons_True (fun c => admitted p now c = true)) by by apply first_failure_admitted.
    subst ok. rewrite length_take.
    destruct (N.leb_spec (max_concepts p) (N.of_nat (N.to_nat (max_concepts p) `min` length adm))); cbn.
    + by rewrite take_app_le by lia.
    + rewrite (take_ge adm), take_ge by (rewrite ?length_app; cbn; lia). done.
Qed.

Definition outcome_ids (acc : list ApprovedConcept * list ExportRejection) : list uuid :=
  (concept_id <$> acc.1) ++ (rejected_id <$> acc.2).

Lemma evaluate_partition p now l :
  outcome_ids (foldl (evaluate_step p now) ([], []) l) ≡ₚ concept_id <$> l.
Proof.
  induction l as [|c l IH] using rev_ind; [done|].
  rewrite foldl_app, fmap_app, <- IH. cbn [foldl]. destruct (foldl _ _ l) as [ok refused].
  unfold outcome_ids, evaluate_step. repeat case_match; simplify_eq; cbn [fst snd];
    rewrite !fmap_app; cbn; solve_Permutation.
Qed.

Definition refusal_of (p : ExportPolicy) (now : instant) (full : Prop) (c : ApprovedConcept)
    (r : ExportRejection) : Prop :=
  rejected_id r = concept_id c /\
  (first_failure p now c = Some (reason r) \/
   (admitted p now c = true /\ reason r = MaxConceptsReached /\ full)).

Lemma evaluate_reasons p now l r :
  let acc := foldl (evaluate_step p now) ([], []) l in
  r ∈ acc.2 ->
  exists c, c ∈ l /\ refusal_of p now (max_concepts p <= N.of_nat (length acc.1))%N c r.
Proof.
  cbn zeta. revert r. induction l as [|c l IH] using rev_ind; intros r; [by intros ?%elem_of_nil|].
  rewrite foldl_app. cbn [foldl]. destruct (foldl _ _ l) as [ok refused]. cbn [fst snd] in IH.
  assert (Hold : forall n, (length ok <= n)%nat -> r ∈ refused ->
    exists c', c' ∈ l ++ [c] /\ refusal_of p now (max_concepts p <= N.of_nat n)%N c' r).
  { intros n Hn Hr. destruct (IH r Hr) as (x & Hx & Hi & Hw). exists x. split; [set_solver|].
    split; [done|]. destruct Hw as [?|(? & ? & ?)]; [by left|right]. split_and!; [done..|lia]. }
  unfold evaluate_step. destruct (first_failure p now c) as [why|] eqn:Hf; [|destruct (N.leb_spec
    (max_concepts p) (N.of_nat (length ok)))]; cbn [fst snd].
  - intros [Hr| ->%list_elem_of_singleton]%elem_of_app; [by apply Hold|].
    exists c. split; [set_solver|]. split; [done|by left].
  - intros [Hr| ->%list_elem_of_singleton]%elem_of_app; [by apply Hold|].
    exists c. split; [set_solver|]. split; [done|right]. split_and!; [by apply first_failure_admitted|done..].
  - intros Hr. apply Hold; [|done]. rewrite length_app. lia.
Qed.

(** ** Lemmas on constraints *)

Lemma approved_within_min t a b now :
  approved_within t (Z.min a b) now = approved_within t a now && approved_within t b now.
Proof.
  unfold approved_within. destruct (_ <? 0)%Z; [done|]. apply eq_true_iff_eq.
  rewrite andb_true_iff, !Z.leb_le. lia.
Qed.

Lemma with_constraint_admits p now c k :
  admits (with_constraint p k) now c <-> admits p now c /\ satisfies now c k.
Proof.
  unfold admits. destruct k as [n|d|scopes|class]; cbn.
  - naive_solver.
  - destruct (time_window p) as [w|]; [|naive_solver].
    split.
    + intros (? & ? & ? & ? & Hw). specialize (Hw _ eq_refl). rewrite approved_within_min in Hw.
      apply andb_true_iff in Hw. naive_solver.
    + intros [(? & ? & ? & ? & Hw) Hd]. split_and!; [done..|]. intros ? [= <-].
      rewrite approved_within_min, Hw, Hd by done. done.
  - destruct (scope_whitelist p) as [wl|]; [|naive_solver].
    split.
    + intros (? & ? & Hw & ? & ?). specialize (Hw _ eq_refl). apply list_elem_of_filter in Hw. naive_solver.
    + intros [(? & ? & Hw & ? & ?) Hd]. split_and!; [done..| |done|done]. intros ? [= <-].
      apply list_elem_of_filter. naive_solver.
  - destruct (N.ltb_spec (rank class) (rank (sensitivity_ceiling p))); split;
      intros; destruct_and?; split_and?; try done; lia.
Qed.

Lemma with_constraints_admits p now c ks :
  admits (with_constraints p ks) now c <-> admits p now c /\ Forall (satisfies now c) ks.
Proof.
  revert p. induction ks as [|k ks IH]; intros p; cbn; [by split; [|intros []]|].
  unfold with_constraints in *. rewrite IH, with_constraint_admits, Forall_cons. tauto.
Qed.

Lemma with_constraints_cap p ks m :
  (m <= max_concepts (with_constraints p ks))%N <->
  (m <= max_concepts p)%N /\ forall n, MaxConcepts n ∈ ks -> (m <= n)%N.
Proof.
  revert p. induction ks as [|k ks IH]; intros p; cbn; [set_solver|].
  unfold with_constraints in *. rewrite IH. setoid_rewrite elem_of_cons.
  destruct k as [n|d|scopes|class]; cbn; [|naive_solver..]. split.
  - intros [Hm Hn]. split; [lia|]. intros n' [[= ->]|Hin]; [lia|by apply Hn].
  - intros [Hm Hn]. split; [|intros n' Hn'; apply Hn; by right]. pose proof (Hn n (or_introl eq_refl)). lia.
Qed.

Lemma with_constraints_rest p ks :
  allow_raw_evidence (with_constraints p ks) = allow_raw_evidence p /\
  max_summaries (with_constraints p ks) = max_summaries p /\
  require_provenance (with_constraints p ks) = require_provenance p.
Proof.
  revert p. induction ks as [|k ks IH]; intros p; [done|]. cbn. unfold with_constraints in *.
  destruct (IH (with_constraint p k)) as (-> & -> & ->). by destruct k.
Qed.

(** ** Lemmas on the registry and the simulator *)

Lemma allows_concept_spec r i profile scope now :
  allows_concept r i profile scope now = true <->
  exists c, reg_concepts r !! i = Some c /\ cc_exportable c = true /\
    (forall b, time_bound c = Some b -> (cc_created_at c <= now)%Z -> (now < cc_created_at c + b)%Z) /\
    (allowed_profiles c = [] \/ profile ∈ allowed_profiles c) /\
    (scope_bound c = [] \/ scope ∈ scope_bound c).
Proof.
  assert (Hec : forall l x, empty_or_contains l x = true <-> l = [] \/ x ∈ l).
  { intros [|y l] x; cbn -[elem_of]; [naive_solver|]. rewrite bool_decide_eq_true. naive_solver. }
  assert (Hact : forall c, is_active c now = true <-> cc_exportable c = true /\
    (forall b, time_bound c = Some b -> (cc_created_at c <= now)%Z -> (now < cc_created_at c + b)%Z)).
  { intros c. unfold is_active. destruct (cc_exportable c); cbn; [|naive_solver].
    destruct (time_bound c) as [b|]; [|naive_solver].
    destruct (Z.ltb_spec (now - cc_created_at c) 0).
    - split; [|done]. intros _. split; [done|]. intros; lia.
    - rewrite Z.ltb_lt. split; [intros ?; split; [done|]; intros ? [= <-] ?; lia|].
      intros [_ Hb]. specialize (Hb b eq_refl). lia. }
  unfold allows_concept. destruct (reg_concepts r !! i) as [c|]; [|naive_solver].
  specialize (Hact c). unfold allows_profile, allows_scope.
  pose proof (Hec (allowed_profiles c) profile). pose proof (Hec (scope_bound c) scope).
  repeat match goal with |- context [negb ?b] => destruct b; cbn end; naive_solver.
Qed.

Lemma registry_keyed r : rtc registry_step registry_new r -> summaries_keyed r.
Proof.
  intros H. eapply rtc_preserves; [|exact H|apply map_Forall_empty].
  assert (Hup : forall s c, summaries_keyed s -> summaries_keyed (upsert_summary c s)).
  { intros s c Hs. refine (map_Forall_insert_2 _ (reg_summaries s) _ _ _ Hs). done. }
  intros x y [k s] Hs. destruct k as [c|c|i|c|c|i|c|c|i]; cbn [run_registry];
    unfold insert_concept, remove_concept, insert_summary, remove_summary, insert_workflow, remove_workflow;
    repeat case_match; cbn [fst]; try done; try by apply Hup.
  by apply map_Forall_delete.
Qed.

Lemma elem_of_summaries `{HashOrder} r c :
  c ∈ summaries r <-> exists i, reg_summaries r !! i = Some c.
Proof.
  unfold summaries. rewrite elem_of_hash_order, list_elem_of_fmap. split.
  - intros ([i x] & -> & Hx%elem_of_map_to_list). by exists i.
  - intros [i Hi]. exists (i, c). split; [done|]. by apply elem_of_map_to_list.
Qed.

Lemma summaries_ids_NoDup `{HashOrder} r : summaries_keyed r -> NoDup (sc_summary_id <$> summaries r).
Proof.
  intros Hk. unfold summaries. rewrite hash_order_perm, <- list_fmap_compose.
  rewrite (list_fmap_ext _ fst (map_to_list (reg_summaries r))); [apply NoDup_fst_map_to_list|].
  intros j [i c] Hj. cbn. apply (Hk i c). apply elem_of_map_to_list. by eapply list_elem_of_lookup_2.
Qed.

#[local] Instance summary_le_total : Total summary_le.
Proof. intros x y. unfold summary_le. lia. Qed.
#[local] Instance summary_le_trans : Transitive summary_le.
Proof. intros x y z. unfold summary_le. lia. Qed.

(** A sorted bucket does not depend on the order of the table. *)
Lemma sorted_bucket_unique r l1 l2 :
  summaries_keyed r -> (forall c, c ∈ l1 -> exists i, reg_summaries r !! i = Some c) -> l1 ≡ₚ l2 ->
  sort_by_summary_id l1 = sort_by_summary_id l2.
Proof.
  intros Hk Hin Hp. unfold sort_by_summary_id.
  apply (StronglySorted_unique_strong summary_le); [|by apply (StronglySorted_merge_sort _)..|].
  - intros x y Hx Hy H1 H2. rewrite merge_sort_Permutation in Hx, Hy. rewrite <- Hp in Hy.
    destruct (Hin x Hx) as [i Hi], (Hin y Hy) as [j Hj]. pose proof (Hk i x Hi) as E1.
    pose proof (Hk j y Hj) as E2. cbn in E1, E2. unfold summary_le in *.
    assert (i = j) as <- by lia. congruence.
  - by rewrite !merge_sort_Permutation.
Qed.

Lemma bucket_order (H1 H2 : HashOrder) r (P : SummaryExportControl -> Prop) `{forall c, Decision (P c)} :
  summaries_keyed r ->
  sort_by_summary_id (base.filter P (@summaries H1 r)) = sort_by_summary_id (base.filter P (@summaries H2 r)).
Proof.
  intros Hk. apply (sorted_bucket_unique r); [done| |].
  - intros c [_ Hc]%list_elem_of_filter. by apply elem_of_summaries in Hc.
  - unfold summaries. by rewrite !hash_order_perm.
Qed.

Lemma prefilter_loop r profile now l :
  foldl (prefilter_step r profile now) ([], []) l =
  (exclude_concepts "deny-by-default: concept not authorised by export control registry"
     (base.filter (fun c => allows_concept r (concept_id c) profile (ac_scope_id c) now = false) l),
   base.filter (fun c => allows_concept r (concept_id c) profile (ac_scope_id c) now = true) l).
Proof.
  induction l as [|c l IH] using rev_ind; [done|].
  rewrite foldl_app, IH, !filter_app. cbn [foldl prefilter_step]. cbn [base.filter list_filter].
  unfold exclude_concepts. destruct (allows_concept _ _ _ _ _); cbn; by rewrite ?fmap_app, !app_nil_r.
Qed.

Lemma summary_loop cap l refused :
  foldl (summary_step cap) ([], refused, 0%N) l =
  (sc_summary_id <$> take (N.to_nat cap) l,
   refused ++ exclude_summaries "policy max_summaries cap reached" (drop (N.to_nat cap) l),
   N.of_nat (length (drop (N.to_nat cap) l))).
Proof.
  induction l as [|c l IH] using rev_ind; [destruct (N.to_nat cap); cbn; by rewrite app_nil_r|].
  rewrite foldl_app, IH. cbn [foldl summary_step]. rewrite length_fmap, length_take.
  destruct (N.ltb_spec (N.of_nat (N.to_nat cap `min` length l)) cap).
  - rewrite (take_ge l), (drop_ge l), take_ge, drop_ge by (rewrite ?length_app; cbn; lia).
    by rewrite fmap_app.
  - rewrite take_app_le, drop_app_le by lia. rewrite length_app. unfold exclude_summaries.
    rewrite fmap_app, app_assoc. cbn [length]. repeat f_equal. lia.
Qed.

(** The three buckets split the table. *)
Lemma buckets_partition `{HashOrder} r scope :
  cross_scope r scope ++ blocked r scope ++ exportable r scope ≡ₚ summaries r.
Proof.
  unfold cross_scope, blocked, exportable, sort_by_summary_id. rewrite !merge_sort_Permutation.
  induction (summaries r) as [|c l IH]; [done|]. rewrite !filter_cons.
  destruct (decide (sc_scope_id c = scope)) as [Hs|Hs], (sc_exportable c) eqn:He;
    repeat case_decide; try (exfalso; naive_solver);
    (etransitivity; [|apply perm_skip, IH]); solve_Permutation.
Qed.

Lemma elem_of_exportable `{HashOrder} r scope c :
  c ∈ exportable r scope <->
  sc_scope_id c = scope /\ sc_exportable c = true /\ exists i, reg_summaries r !! i = Some c.
Proof.
  unfold exportable, sort_by_summary_id. rewrite merge_sort_Permutation, list_elem_of_filter, elem_of_summaries.
  naive_solver.
Qed.

Lemma exportable_sorted `{HashOrder} r scope :
  summaries_keyed r -> StronglySorted N.lt (sc_summary_id <$> exportable r scope).
Proof.
  intros Hk. assert (Hnd : NoDup (sc_summary_id <$> exportable r scope)).
  { unfold exportable, sort_by_summary_id. rewrite merge_sort_Permutation.
    eapply sublist_NoDup; [apply summaries_ids_NoDup; exact Hk|]. apply fmap_sublist, sublist_filter. }
  revert Hnd. assert (Hs : StronglySorted summary_le (exportable r scope)) by apply (StronglySorted_merge_sort _).
  induction Hs as [|c l Hs IH Hc]; cbn; [constructor|]. intros [Hni Hnd]%NoDup_cons. constructor; [by apply IH|].
  rewrite Forall_fmap. eapply Forall_impl; [apply Forall_forall; intros x Hx; exact (conj Hx (proj1 (Forall_forall _ _) Hc x Hx))|].
  intros x [Hx Hle]. cbn in *. unfold summary_le in Hle.
  assert (sc_summary_id c <> sc_summary_id x) by (intros E; apply Hni; rewrite E; by apply list_elem_of_fmap_2). lia.
Qed.

(** In a sorted list everything past the cut is above everything before it. *)
Lemma sorted_cut (l : list N) n i j :
  StronglySorted N.lt l -> i ∈ take n l -> j ∈ drop n l -> (i < j)%N.
Proof.
  intros Hs. rewrite <- (take_drop n l) in Hs. intros Hi Hj.
  by eapply (StronglySorted_app_1_elem_of N.lt).
Qed.

Lemma existsb_critical l : existsb is_critical l = false <-> Forall (fun c => ac_sensitivity c <> Critical) l.
Proof.
  induction l as [|c l IH]; cbn; [by split; [constructor|]|].
  rewrite orb_false_iff, Forall_cons, IH. unfold is_critical. destruct (ac_sensitivity c); naive_solver.
Qed.

Lemma evaluate_unfold now p l :
  evaluate now p l =
  let acc := foldl (evaluate_step p now) ([], []) l in
  mk_decision acc.1 acc.2
    (if allow_raw_evidence p && existsb is_critical acc.1 then
       ["raw evidence requested but suppressed because the approved set contains a Critical concept"]
     else [])
    (allow_raw_evidence p && negb (existsb is_critical acc.1)).
Proof. unfold evaluate. by destruct (foldl _ _ l). Qed.

Lemma evaluate_raw now p l :
  decision_raw_evidence (evaluate now p l) = true <->
  allow_raw_evidence p = true /\ Forall (fun c => ac_sensitivity c <> Critical) (approved (evaluate now p l)).
Proof. rewrite evaluate_unfold. cbn. rewrite <- existsb_critical, andb_true_iff, negb_true_iff. done. Qed.

Lemma from_decision_ok fresh t d profile scope request v :
  from_decision fresh t d profile scope request = Ok v ->
  content_concepts (content v) = approved d /\
  (content_evidence_pack (content v) <> None -> decision_raw_evidence d = true).
Proof.
  unfold from_decision. destruct request as [|s|s pack]; cbn; [by intros [= <-]|by intros [= <-]|].
  destruct (decision_raw_evidence d) eqn:Hd; cbn; [by intros [= <-]|done].
Qed.

(** ** Properties *)

(** The engine approves, in order, the first [max_concepts] candidates the
    policy admits (not expired, within the sensitivity ceiling, in a
    whitelisted scope, with provenance, within the time window); every other
    candidate is rejected with the first rule it breaks, or with the cap once the
    cap is full; raw evidence is allowed exactly when the policy asks for it and
    no approved concept is critical, and a rendered view shows the approved
    concepts only, with an evidence pack only when raw evidence is allowed. *)
Theorem export_decision_exact now p candidates :
  let d := evaluate now p candidates in
  (forall c, admitted p now c = true <-> admits p now c) /\
  approved d = take (N.to_nat (max_concepts p)) (base.filter (fun c => admitted p now c = true) candidates) /\
  (concept_id <$> approved d) ++ (rejected_id <$> rejected d) ≡ₚ concept_id <$> candidates /\
  (forall r, r ∈ rejected d -> exists c, c ∈ candidates /\
     refusal_of p now (max_concepts p <= N.of_nat (length (approved d)))%N c r) /\
  (decision_raw_evidence d = true <->
     allow_raw_evidence p = true /\ Forall (fun c => ac_sensitivity c <> Critical) (approved d)) /\
  (forall fresh t profile scope request v, from_decision fresh t d profile scope request = Ok v ->
     content_concepts (content v) = approved d /\
     (content_evidence_pack (content v) <> None -> decision_raw_evidence d = true)).
Proof.
  cbv zeta. split; [apply admitted_spec|].
  repeat match goal with |- _ /\ _ => split end.
  - rewrite evaluate_unfold. apply evaluate_approved.
  - rewrite evaluate_unfold. apply evaluate_partition.
  - intros r. rewrite evaluate_unfold. apply evaluate_reasons.
  - apply evaluate_raw.
  - intros fresh t profile scope request v. apply from_decision_ok.
Qed.

(** The constraints of a profile only tighten a policy, and tighten it by
    exactly what they say: the folded policy admits a concept when the policy
    admits it and the concept satisfies every constraint, its cap is the
    smallest of the caps, and nothing else changes. *)
Theorem constraints_tighten p ks now :
  (forall c, admits (with_constraints p ks) now c <-> admits p now c /\ Forall (satisfies now c) ks) /\
  (forall m, (m <= max_concepts (with_constraints p ks))%N <->
     (m <= max_concepts p)%N /\ forall n, MaxConcepts n ∈ ks -> (m <= n)%N) /\
  allow_raw_evidence (with_constraints p ks) = allow_raw_evidence p /\
  max_summaries (with_constraints p ks) = max_summaries p /\
  require_provenance (with_constraints p ks) = require_provenance p.
Proof.
  split; [intros c; apply with_constraints_admits|]. split; [intros m; apply with_constraints_cap|].
  apply with_constraints_rest.
Qed.

(** ** The simulator *)

Section Simulation.
Context `{HO : HashOrder} {UT : UuidText} (now now' : instant) (policy : ExportPolicy)
  (controls : ExportControlRegistry) (profile : PortableConceptProfile).
Hypothesis Hreach : rtc registry_step registry_new controls.
Hypothesis Halive : profile_is_expired profile now = false.

#[local] Abbreviation effective := (with_constraints policy (constraints profile)).
#[local] Abbreviation result := (simulate now now' policy controls profile).
#[local] Abbreviation scope := (profile_scope_id profile).
#[local] Abbreviation cap := (N.to_nat (max_summaries effective)).

(** The registry authorises the concept in this profile. *)
Definition authorised (c : ApprovedConcept) : bool :=
  allows_concept controls (concept_id c) (profile_id profile) (ac_scope_id c) now.

Lemma simulate_unfold :
  let d := evaluate now' effective (base.filter (fun c => authorised c = true) (profile_concepts profile)) in
  included_concepts result = concept_id <$> approved d /\
  (excluded_id <$> excluded_concepts result) =
    (concept_id <$> base.filter (fun c => authorised c = false) (profile_concepts profile))
    ++ (rejected_id <$> rejected d) /\
  included_summaries result = take cap (sc_summary_id <$> exportable controls scope) /\
  (excluded_id <$> excluded_summaries result) =
    sc_summary_id <$> (cross_scope controls scope ++ blocked controls scope
                       ++ drop cap (exportable controls scope)) /\
  would_include_evidence result = decision_raw_evidence d.
Proof.
  cbv zeta. unfold simulate. rewrite Halive, prefilter_loop, summary_loop. cbn -[evaluate exportable].
  unfold exclude_concepts, exclude_summaries, authorised.
  rewrite !fmap_app, <- !list_fmap_compose, <- app_assoc. rewrite fmap_take. done.
Qed.

Lemma filter_split {A} (f : A -> bool) (l : list A) :
  base.filter (fun x => f x = false) l ++ base.filter (fun x => f x = true) l ≡ₚ l.
Proof.
  induction l as [|x l IH]; [done|]. rewrite !filter_cons.
  destruct (f x); repeat case_decide; try done; (etransitivity; [|apply perm_skip, IH]); solve_Permutation.
Qed.

Lemma simulate_partition :
  included_concepts result ++ (excluded_id <$> excluded_concepts result)
    ≡ₚ concept_id <$> profile_concepts profile /\
  included_summaries result ++ (excluded_id <$> excluded_summaries result)
    ≡ₚ (map_to_list (reg_summaries controls)).*1.
Proof.
  destruct simulate_unfold as (-> & -> & -> & -> & _). split.
  - etransitivity; [|apply fmap_Permutation, (filter_split authorised)]. rewrite fmap_app.
    etransitivity; [|apply Permutation_app_head, (evaluate_partition effective now')].
    rewrite evaluate_unfold. unfold outcome_ids. cbn. solve_Permutation.
  - assert (Hk : (map_to_list (reg_summaries controls)).*1 ≡ₚ sc_summary_id <$> summaries controls).
    { unfold summaries. rewrite hash_order_perm, <- list_fmap_compose.
      enough (E : (map_to_list (reg_summaries controls)).*1 = (sc_summary_id ∘ snd) <$> map_to_list (reg_summaries controls)) by by rewrite E.
      apply list_fmap_ext. intros j [i c] Hj. cbn. symmetry. apply (registry_keyed controls Hreach i c).
      apply elem_of_map_to_list. by eapply list_elem_of_lookup_2. }
    rewrite Hk, <- fmap_take, <- fmap_app. apply fmap_Permutation.
    rewrite <- (buckets_partition controls scope).
    assert (Hcut : exportable controls scope
                   ≡ₚ take cap (exportable controls scope) ++ drop cap (exportable controls scope))
      by by rewrite take_drop.
    etransitivity; [|do 2 apply Permutation_app_head; symmetry; exact Hcut]. solve_Permutation.
Qed.

Lemma simulate_summaries :
  (forall i, i ∈ included_summaries result ->
     exists c, reg_summaries controls !! i = Some c /\ sc_scope_id c = scope /\ sc_exportable c = true) /\
  StronglySorted N.lt (included_summaries result) /\
  (N.of_nat (length (included_summaries result)) <= max_summaries effective)%N /\
  (forall i c, reg_summaries controls !! i = Some c -> sc_scope_id c = scope -> sc_exportable c = true ->
     i ∈ included_summaries result \/
     (N.of_nat (length (included_summaries result)) = max_summaries effective /\
      forall k, k ∈ included_summaries result -> (k < i)%N)).
Proof.
  pose proof (registry_keyed controls Hreach) as Hk.
  pose proof (exportable_sorted controls scope Hk) as Hs.
  destruct simulate_unfold as (_ & _ & -> & _). split_and!.
  - intros i Hi. assert (Hi' : i ∈ sc_summary_id <$> exportable controls scope)
      by (eapply elem_of_sublist; [exact Hi|apply sublist_take]).
    apply list_elem_of_fmap in Hi' as (c & -> & (Hsc & He & j & Hj)%elem_of_exportable).
    pose proof (Hk j c Hj) as <-. by exists c.
  - rewrite <- (take_drop cap (_ <$> _)) in Hs. by apply (StronglySorted_app_1_l N.lt) in Hs.
  - rewrite length_take. lia.
  - intros i c Hi Hsc He. assert (Hin : i ∈ sc_summary_id <$> exportable controls scope).
    { apply list_elem_of_fmap. exists c. split; [symmetry; exact (Hk i c Hi)|].
      apply elem_of_exportable. eauto. }
    rewrite <- (take_drop cap (_ <$> _)) in Hin. apply elem_of_app in Hin as [?|Hd]; [by left|right].
    split; [|intros k Hk'; by eapply sorted_cut].
    rewrite length_take. apply list_elem_of_lookup in Hd as [n Hn]. rewrite lookup_drop in Hn.
    apply lookup_lt_Some in Hn. lia.
Qed.
End Simulation.

(** The preview does not depend on the order in which the tables iterate. *)
Lemma simulate_order (H1 H2 : HashOrder) {UT : UuidText} now now' policy controls profile :
  rtc registry_step registry_new controls ->
  @simulate H1 UT now now' policy controls profile = @simulate H2 UT now now' policy controls profile.
Proof.
  intros Hk%registry_keyed. unfold simulate, cross_scope, blocked, exportable.
  rewrite !(bucket_order H1 H2) by done. done.
Qed.

(** The preview of a live profile includes exactly the concepts the
    registry authorises, in their own scope, and the folded policy then
    approves; it includes the lowest-numbered exportable summaries of the
    profile's scope up to the cap, and accounts for every concept and every
    registered summary once; it promises evidence only when no included concept
    is critical; and it is the same whatever order the tables iterate in.  An
    expired profile previews as empty. *)
Theorem simulate_exact `{HashOrder} `{UuidText} now now' policy controls profile :
  rtc registry_step registry_new controls ->
  let r := simulate now now' policy controls profile in
  let eff := with_constraints policy (constraints profile) in
  let d := evaluate now' eff
             (base.filter (fun c => authorised now controls profile c = true) (profile_concepts profile)) in
  (profile_is_expired profile now = false ->
     included_concepts r = concept_id <$> approved d /\
     would_include_evidence r = decision_raw_evidence d /\
     (forall i, i ∈ included_summaries r -> exists c, reg_summaries controls !! i = Some c /\
        sc_scope_id c = profile_scope_id profile /\ sc_exportable c = true) /\
     StronglySorted N.lt (included_summaries r) /\
     (N.of_nat (length (included_summaries r)) <= max_summaries policy)%N /\
     (forall i c, reg_summaries controls !! i = Some c -> sc_scope_id c = profile_scope_id profile ->
        sc_exportable c = true -> i ∈ included_summaries r \/
        (N.of_nat (length (included_summaries r)) = max_summaries policy /\
         forall k, k ∈ included_summaries r -> (k < i)%N))) /\
  (profile_is_expired profile now = true ->
     included_concepts r = [] /\ included_summaries r = [] /\ would_include_evidence r = false) /\
  included_concepts r ++ (excluded_id <$> excluded_concepts r) ≡ₚ concept_id <$> profile_concepts profile /\
  (profile_is_expired profile now = false ->
     included_summaries r ++ (excluded_id <$> excluded_summaries r) ≡ₚ (map_to_list (reg_summaries controls)).*1) /\
  (forall H' : HashOrder, @simulate H' _ now now' policy controls profile = r).
Proof.
  intros Hr. cbv zeta. destruct (with_constraints_rest policy (constraints profile)) as (_ & <- & _).
  split; [|split; [|split; [|split]]].
  - intros Ha. destruct (simulate_unfold now now' policy controls profile Ha) as (E & _ & _ & _ & Ee).
    split; [exact E|]. split; [exact Ee|]. by apply simulate_summaries.
  - intros Hx. unfold simulate. by rewrite Hx.
  - destruct (profile_is_expired profile now) eqn:Hx.
    + unfold simulate. rewrite Hx. cbn. unfold exclude_concepts. by rewrite <- list_fmap_compose.
    + by apply simulate_partition.
  - intros Ha. by apply simulate_partition.
  - intros H'. by apply simulate_order.
Qed.

(** [approve_for_export] succeeds exactly for a canonical node whose control
    row is active for the profile and the scope and which is not approved yet;
    the record it stores and returns carries the node's text, a provenance
    bundle the default policy accepts, and the scope the caller named; a refused
    approval changes nothing, and a revoked one can be given again. *)
Theorem approval_spec {Json} run t1 t2 t3 i scope profile class
    (graph : ConceptGraph.ConceptGraph Json) controls w :
  let r := approve_for_export run t1 t2 t3 i scope profile class graph controls w in
  (forall a, r.2 = Ok a <->
     exists node, ConceptGraph.get_node graph i = Some node /\
       ConceptGraph.node_state node = ConceptGraph.Canonical /\
       allows_concept controls i profile scope t1 = true /\ w !! i = None /\
       concept_id a = i /\ ac_label a = ConceptGraph.node_label node /\
       ac_definition a = ConceptGraph.node_definition node /\ ac_scope_id a = scope /\
       ac_sensitivity a = class /\ approved_at a = t3 /\ ac_expires_at a = None /\
       provenance a = new_bundle t2 i
         (mk_activity "export_plane:approval_workflow" "export_plane@v1" "concept.approve.v1" run)
         (software "export_plane:approval_workflow") []) /\
  (forall a, r.2 = Ok a -> r.1 = <[i := a]> w /\
     is_provenance_populated (provenance a) = negb (i =? 0)%N /\
     (forall w', revoke_approval i r.1 = (w', Ok tt) <-> w' = w) /\
     is_ok (approve_for_export run t1 t2 t3 i scope profile class graph controls r.1).2 = false) /\
  (is_ok r.2 = false -> r.1 = w).
Proof.
  cbv zeta. unfold approve_for_export. destruct (ConceptGraph.get_node graph i) as [node|] eqn:Hg;
    [|naive_solver].
  case_bool_decide as Hc; cbn [negb]; [|naive_solver].
  destruct (allows_concept controls i profile scope t1) eqn:Ha; cbn [negb]; [|naive_solver].
  case_bool_decide as Hw; cbn [fst snd is_ok]; [destruct Hw; naive_solver|].
  apply eq_None_not_Some in Hw. split; [|split; [|done]].
  - intros a. split; [intros [= <-]; by exists node|].
    intros (node' & [= <-] & _ & _ & _ & Ha0). destruct a as []. cbn in *.
    destruct Ha0 as (-> & -> & -> & -> & -> & -> & -> & ->). done.
  - intros a [= <-]. split; [done|]. split;
      [unfold is_provenance_populated; cbn -[N.eqb]; by rewrite !andb_true_r|]. split.
    + intros w'. unfold revoke_approval, ConceptApprovalWorkflow in *. rewrite lookup_insert_eq.
      rewrite delete_insert_id by done. naive_solver.
    + unfold ConceptApprovalWorkflow in *. rewrite lookup_insert_eq. by rewrite bool_decide_eq_true_2 by done.
Qed.

(** A profile of two concepts under a registry that authorises both, and three
    summaries of which two belong to the profile's scope. *)
Definition demo_bundle : ProvenanceBundle :=
  new_bundle 0 1 (mk_activity "a" "m" "p" 9) (software "s") [].
Definition demo_concept (i : uuid) (class : SensitivityClass) : ApprovedConcept :=
  new_approved 10 i "label" "definition" 5 demo_bundle class.
Definition demo_registry : ExportControlRegistry :=
  run_registry (RInsertSummary (new_summary_control 33 6 RedactNone))
    (run_registry (RInsertSummary (new_summary_control 32 5 RedactPartial))
      (run_registry (RInsertSummary (new_summary_control 31 5 RedactNone))
        (run_registry (RInsertConcept (new_concept_control 0 2))
          (run_registry (RInsertConcept (new_concept_control 0 1)) registry_new)))).
Definition demo_profile : PortableConceptProfile :=
  push_constraint
    (push_concept (push_concept (new_profile 77 0 "p" "d" "tool" 5) (demo_concept 1 Noise)) (demo_concept 2 Critical))
    (MaxConcepts 5).
Definition demo_policy : ExportPolicy := mk_policy true 10 1 Critical None None true.

Lemma demo_registry_run : rtc registry_step registry_new demo_registry.
Proof. unfold demo_registry. do 5 (eapply rtc_r; [|apply registry_step_call]). apply rtc_refl. Qed.

Definition uuid_text_hex : UuidText := {| uuid_to_string := fun u => pretty u |}.

Lemma simulate_exact_witness :
  included_concepts (@simulate hash_order_rev uuid_text_hex 20 20 demo_policy demo_registry demo_profile) = [1; 2]%N /\
  @simulate hash_order_rev uuid_text_hex 20 20 demo_policy demo_registry demo_profile
  = @simulate hash_order_id uuid_text_hex 20 20 demo_policy demo_registry demo_profile.
Proof.
  split; [vm_compute; reflexivity|].
  apply (proj2 (proj2 (proj2 (proj2 (@simulate_exact hash_order_id uuid_text_hex 20 20 demo_policy
    demo_registry demo_profile demo_registry_run))))).
Defined.
