(* ===== verification/Election.v ===== *)
(** * The synthesizer election ([synthesis_pipeline/src/election.rs])

    Which member device of a small group runs the synthesis: registration,
    heartbeats, step-down, and the choice of the best eligible device.  The
    times the code reads are arguments; the pool iterates in an arbitrary
    order. *)

From S2P Require Import Prelude.

(** ** Data *)

(** [enum SynthesizerRole], [enum DeviceTier] with their tags and rank. *)
Inductive SynthesizerRole : Type := ElectedDevice | ManagedEndpoint | ConfidentialCompute.
Definition role_str (r : SynthesizerRole) : string :=
  match r with
  | ElectedDevice => "elected_device"
  | ManagedEndpoint => "managed_endpoint"
  | ConfidentialCompute => "confidential_compute"
  end.
Inductive DeviceTier : Type := Low | Medium | High.
Definition tier_rank (t : DeviceTier) : N := match t with Low => 0 | Medium => 1 | High => 2 end%N.

(** The constants; seconds are nanoseconds here. *)
Definition DEFAULT_BATTERY_FLOOR : N := 20.
Definition DEFAULT_BATTERY_DEFER_MEDIUM_FLOOR : N := 50.
Definition DEFAULT_HEARTBEAT_TTL_SECS : Z := 60 * 5.
Definition seconds (n : Z) : duration := (n * 1000000000)%Z.

(** The errors of the pipeline the election raises. *)
Inductive PipelineError : Type := CandidateNotFound (i : uuid) | NoEligibleSynthesizer.

(** [struct ElectionCandidate] with [new],
    [with_battery_defer_medium_floor], [defers_medium_importance],
    [is_eligible]. *)
Record ElectionCandidate : Type := mk_candidate {
  device_id : uuid;
  tier : DeviceTier;
  online : bool;
  battery_pct : N;
  last_heartbeat : instant;
  stepped_down : bool;
  battery_defer_medium_floor : N
}.
Definition new_candidate (now : instant) (device : uuid) (t : DeviceTier) (on : bool) (battery : N) :
    ElectionCandidate :=
  mk_candidate device t on battery now false DEFAULT_BATTERY_DEFER_MEDIUM_FLOOR.
Definition with_battery_defer_medium_floor (c : ElectionCandidate) (floor : N) : ElectionCandidate :=
  mk_candidate (device_id c) (tier c) (online c) (battery_pct c) (last_heartbeat c) (stepped_down c) floor.
Definition defers_medium_importance (c : ElectionCandidate) : bool :=
  (battery_pct c <? battery_defer_medium_floor c)%N.
Definition is_eligible (c : ElectionCandidate) (now : instant) (ttl : duration) (floor : N) : bool :=
  if stepped_down c || negb (online c) then false
  else if (battery_pct c <? floor)%N then false
  else if (tier_rank (tier c) <? tier_rank Medium)%N then false
  else (now - last_heartbeat c <? ttl)%Z.

(** [struct SynthesizerElection] with [new], [with_heartbeat_ttl],
    [with_battery_floor]. *)
Record SynthesizerElection : Type := mk_election {
  pool : gmap uuid ElectionCandidate;
  elected : option uuid;
  heartbeat_ttl : duration;
  battery_floor : N
}.
Definition new : SynthesizerElection :=
  mk_election ∅ None (seconds DEFAULT_HEARTBEAT_TTL_SECS) DEFAULT_BATTERY_FLOOR.
Definition with_heartbeat_ttl (e : SynthesizerElection) (ttl : duration) : SynthesizerElection :=
  mk_election (pool e) (elected e) ttl (battery_floor e).
Definition with_battery_floor (e : SynthesizerElection) (floor : N) : SynthesizerElection :=
  mk_election (pool e) (elected e) (heartbeat_ttl e) floor.
Definition with_pool (e : SynthesizerElection) (p : gmap uuid ElectionCandidate) : SynthesizerElection :=
  mk_election p (elected e) (heartbeat_ttl e) (battery_floor e).
Definition with_elected (e : SynthesizerElection) (o : option uuid) : SynthesizerElection :=
  mk_election (pool e) o (heartbeat_ttl e) (battery_floor e).

(** ** Operations *)

(** [register], [heartbeat], [step_down], [mark_offline]. *)
Definition register (c : ElectionCandidate) (e : SynthesizerElection) : SynthesizerElection :=
  with_pool e (<[device_id c := c]> (pool e)).
Definition heartbeat (now : instant) (i : uuid) : eff SynthesizerElection PipelineError unit := fun e =>
  match pool e !! i with
  | None => (e, Err (CandidateNotFound i))
  | Some c =>
      let c := mk_candidate (device_id c) (tier c) (online c) (battery_pct c) now false
                 (battery_defer_medium_floor c) in
      (with_pool e (<[i := c]> (pool e)), Ok tt)
  end.
(** [if self.elected == Some(device_id) { self.elected = None; }]. *)
Definition relinquish (i : uuid) (e : SynthesizerElection) : SynthesizerElection :=
  if bool_decide (elected e = Some i) then with_elected e None else e.
Definition step_down (i : uuid) : eff SynthesizerElection PipelineError unit := fun e =>
  match pool e !! i with
  | None => (e, Err (CandidateNotFound i))
  | Some c =>
      let c := mk_candidate (device_id c) (tier c) (online c) (battery_pct c) (last_heartbeat c) true
                 (battery_defer_medium_floor c) in
      (relinquish i (with_pool e (<[i := c]> (pool e))), Ok tt)
  end.
Definition mark_offline (i : uuid) : eff SynthesizerElection PipelineError unit := fun e =>
  match pool e !! i with
  | None => (e, Err (CandidateNotFound i))
  | Some c =>
      let c := mk_candidate (device_id c) (tier c) false (battery_pct c) (last_heartbeat c)
                 (stepped_down c) (battery_defer_medium_floor c) in
      (relinquish i (with_pool e (<[i := c]> (pool e))), Ok tt)
  end.

(** [is_synthesizer], [candidates]. *)
Definition is_synthesizer (e : SynthesizerElection) (i : uuid) : bool := bool_decide (elected e = Some i).
Definition candidates `{HashOrder} (e : SynthesizerElection) : list ElectionCandidate :=
  hash_order (snd <$> map_to_list (pool e)).

(** The comparison of [elect]: tier, then heartbeat, then battery, then the
    bytes of the id, most significant first. *)
Definition then_cmp (a b : comparison) : comparison := match a with Eq => b | _ => a end.
Definition candidate_cmp (a b : ElectionCandidate) : comparison :=
  then_cmp (tier_rank (tier a) ?= tier_rank (tier b))%N
    (then_cmp (last_heartbeat a ?= last_heartbeat b)%Z
       (then_cmp (battery_pct a ?= battery_pct b)%N (device_id a ?= device_id b)%N)).

(** [Iterator::max_by]: the last of the greatest elements. *)
Fixpoint max_by {A} (cmp : A -> A -> comparison) (best : A) (l : list A) : A :=
  match l with
  | [] => best
  | x :: l => max_by cmp (match cmp best x with Gt => best | _ => x end) l
  end.

(** [SynthesizerElection::elect]. *)
Definition elect `{HashOrder} (now : instant) : eff SynthesizerElection PipelineError uuid := fun e =>
  match base.filter (fun c => is_eligible c now (heartbeat_ttl e) (battery_floor e) = true)
          (candidates e) with
  | [] => (with_elected e None, Err NoEligibleSynthesizer)
  | c :: l =>
      let i := device_id (max_by candidate_cmp c l) in
      (with_elected e (Some i), Ok i)
  end.

(** ** Runs *)

Inductive call : Type :=
| CallRegister (c : ElectionCandidate)
| CallHeartbeat (now : instant) (i : uuid)
| CallStepDown (i : uuid)
| CallOffline (i : uuid)
| CallElect (now : instant).
Definition run `{HashOrder} (c : call) (e : SynthesizerElection) : SynthesizerElection :=
  match c with
  | CallRegister c => register c e
  | CallHeartbeat now i => (heartbeat now i e).1
  | CallStepDown i => (step_down i e).1
  | CallOffline i => (mark_offline i e).1
  | CallElect now => (elect now e).1
  end.
Inductive step `{HashOrder} : SynthesizerElection -> SynthesizerElection -> Prop :=
| step_call c e : step e (run c e).

(** The pool is keyed by device id and the elected device is registered. *)
Definition election_ok (e : SynthesizerElection) : Prop :=
  map_Forall (fun i c => device_id c = i) (pool e) /\
  (forall i, elected e = Some i -> is_Some (pool e !! i)).

(** A device the pool holds and [elect] may choose: online, not stepped down,
    charged, not of the lowest tier, and heard from within the TTL. *)
Definition fit (e : SynthesizerElection) (now : instant) (c : ElectionCandidate) : Prop :=
  online c = true /\ stepped_down c = false /\ (battery_floor e <= battery_pct c)%N /\
  (tier_rank Medium <= tier_rank (tier c))%N /\ (now - last_heartbeat c < heartbeat_ttl e)%Z.
Definition may_serve (e : SynthesizerElection) (now : instant) (i : uuid) (c : ElectionCandidate) : Prop :=
  pool e !! i = Some c /\ fit e now c.

Lemma is_eligible_fit e now c :
  is_eligible c now (heartbeat_ttl e) (battery_floor e) = true <-> fit e now c.
Proof.
  unfold is_eligible, fit. rewrite <- (N.ltb_ge (battery_pct c)), <- (N.ltb_ge (tier_rank (tier c))), <- Z.ltb_lt.
  destruct (stepped_down c), (online c), (battery_pct c <? battery_floor e)%N,
    (tier_rank (tier c) <? tier_rank Medium)%N; cbn [orb negb]; naive_solver.
Qed.

(** ** Lemmas *)

(** The lexicographic order [candidate_cmp] decides. *)
Definition preferred (a b : ElectionCandidate) : Prop :=
  (tier_rank (tier a) < tier_rank (tier b))%N \/
  (tier_rank (tier a) = tier_rank (tier b) /\
   ((last_heartbeat a < last_heartbeat b)%Z \/
    (last_heartbeat a = last_heartbeat b /\
     ((battery_pct a < battery_pct b)%N \/
      (battery_pct a = battery_pct b /\ (device_id a <= device_id b)%N))))).

Lemma candidate_cmp_preferred a b : candidate_cmp a b <> Gt <-> preferred a b.
Proof.
  unfold candidate_cmp, preferred, then_cmp.
  destruct (N.compare_spec (tier_rank (tier a)) (tier_rank (tier b))); [|split; [lia|done]|split; [done|lia]].
  destruct (Z.compare_spec (last_heartbeat a) (last_heartbeat b)); [|split; [lia|done]|split; [done|lia]].
  destruct (N.compare_spec (battery_pct a) (battery_pct b)); [|split; [lia|done]|split; [done|lia]].
  destruct (N.compare_spec (device_id a) (device_id b)); split; (done || lia).
Qed.

Lemma preferred_trans a b c : preferred a b -> preferred b c -> preferred a c.
Proof. unfold preferred. lia. Qed.

Lemma preferred_total a b : preferred a b \/ preferred b a.
Proof. unfold preferred. lia. Qed.

Lemma preferred_antisym a b : preferred a b -> preferred b a -> device_id a = device_id b.
Proof. unfold preferred. lia. Qed.

Lemma max_by_spec c l :
  max_by candidate_cmp c l ∈ c :: l /\ forall x, x ∈ c :: l -> preferred x (max_by candidate_cmp c l).
Proof.
  revert c. induction l as [|y l IH]; intros c; cbn [max_by].
  { split; [by left|]. intros x ->%list_elem_of_singleton. destruct (preferred_total c c); done. }
  assert (Hstep : exists m, m = match candidate_cmp c y with Gt => c | _ => y end /\ (m = c \/ m = y) /\
                  preferred c m /\ preferred y m).
  { eexists. split; [reflexivity|]. pose proof (candidate_cmp_preferred c y) as Hp.
    pose proof (preferred_total c c). pose proof (preferred_total y y). pose proof (preferred_total c y).
    destruct (candidate_cmp c y); (split; [auto|]); intuition congruence. }
  destruct Hstep as (m & <- & Hm & Hc & Hy). destruct (IH m) as [Hin Hmax]. split.
  - apply elem_of_cons in Hin as [->|Hin]; [set_solver|]. by do 2 right.
  - intros x Hx. assert (Hmm : preferred m (max_by candidate_cmp m l)) by (apply Hmax; by left).
    rewrite !elem_of_cons in Hx. destruct Hx as [->|[->|Hx]].
    + by eapply preferred_trans.
    + by eapply preferred_trans.
    + apply Hmax. by right.
Qed.

Lemma elem_of_eligible `{HashOrder} e now c :
  election_ok e ->
  c ∈ base.filter (fun c => is_eligible c now (heartbeat_ttl e) (battery_floor e) = true) (candidates e)
  <-> may_serve e now (device_id c) c.
Proof.
  intros [Hk _]. unfold may_serve, candidates. rewrite list_elem_of_filter, elem_of_hash_order, list_elem_of_fmap.
  rewrite is_eligible_fit. split.
  - intros [He ([i x] & -> & Hx%elem_of_map_to_list)]. cbn [snd] in *. by rewrite (Hk i x Hx).
  - intros [Hi He]. split; [done|]. exists (device_id c, c). split; [done|]. by apply elem_of_map_to_list.
Qed.

Lemma elect_ok `{HashOrder} now e i :
  election_ok e -> (elect now e).2 = Ok i ->
  exists c, may_serve e now i c /\ forall j d, may_serve e now j d -> preferred d c.
Proof.
  intros Hok. unfold elect. destruct (base.filter _ _) as [|c l] eqn:Hf; [done|]. intros [= <-].
  destruct (max_by_spec c l) as [Hin Hmax]. rewrite <- Hf in Hin, Hmax.
  exists (max_by candidate_cmp c l). split; [by apply elem_of_eligible|].
  intros j d [Hj Hd]. apply Hmax. apply elem_of_eligible; [done|]. split; [|done].
  by rewrite (proj1 Hok j d Hj).
Qed.

Lemma elect_err `{HashOrder} now e x :
  election_ok e -> (elect now e).2 = Err x <-> x = NoEligibleSynthesizer /\ forall i c, ~ may_serve e now i c.
Proof.
  intros Hok. unfold elect. destruct (base.filter _ _) as [|c l] eqn:Hf; cbn [snd]; split.
  - intros [= <-]. split; [done|]. intros i c [Hi Hc].
    assert (c ∈ []) as []%elem_of_nil. rewrite <- Hf. apply elem_of_eligible; [done|].
    split; [|done]. by rewrite (proj1 Hok i c Hi).
  - by intros [-> _].
  - done.
  - intros [_ Hno]. exfalso. apply (Hno (device_id c) c). apply elem_of_eligible; [done|]. rewrite Hf. by left.
Qed.

Lemma elect_state `{HashOrder} now e :
  (elect now e).1 = with_elected e (match (elect now e).2 with Ok i => Some i | Err _ => None end).
Proof. unfold elect. by destruct (base.filter _ _). Qed.

Lemma election_run_ok `{HashOrder} c e : election_ok e -> election_ok (run c e).
Proof.
  intros [Hk He].
  assert (Hins : forall i d, device_id d = i -> election_ok (with_pool e (<[i := d]> (pool e)))).
  { intros j d Hd. split; cbn; [by apply map_Forall_insert_2|]. intros i Hi. rewrite lookup_insert_is_Some'. auto. }
  assert (Hrel : forall i e', election_ok e' -> election_ok (relinquish i e')).
  { intros i e' [Hk' He']. unfold relinquish. case_bool_decide; [|done]. split; [done|]. cbn. done. }
  destruct c as [c|now i|i|i|now]; cbn [run]; [by apply Hins|..].
  - unfold heartbeat. destruct (pool e !! i) as [c|] eqn:Hi; [|done]. pose proof (Hk i c Hi) as <-. by apply Hins.
  - unfold step_down. destruct (pool e !! i) as [c|] eqn:Hi; [|done]. pose proof (Hk i c Hi) as <-.
    by apply Hrel, Hins.
  - unfold mark_offline. destruct (pool e !! i) as [c|] eqn:Hi; [|done]. pose proof (Hk i c Hi) as <-.
    by apply Hrel, Hins.
  - rewrite elect_state. split; [done|]. cbn. intros i Hi. destruct (elect now e).2 as [j|] eqn:Hj; [|done].
    simplify_eq. destruct (elect_ok now e i (conj Hk He) Hj) as (c & [Hc _] & _). by exists c.
Qed.

Lemma election_reachable `{HashOrder} e : rtc step new e -> election_ok e.
Proof.
  intros Hr. eapply rtc_preserves; [|exact Hr|by split; [apply map_Forall_empty|]].
  intros x y [c z]. apply election_run_ok.
Qed.

Lemma elect_order (H1 H2 : HashOrder) now e : election_ok e -> @elect H1 now e = @elect H2 now e.
Proof.
  intros Hok. rewrite (surjective_pairing (@elect H1 now e)), (surjective_pairing (@elect H2 now e)).
  rewrite (@elect_state H1), (@elect_state H2).
  assert ((@elect H1 now e).2 = (@elect H2 now e).2) as ->; [|done].
  destruct (@elect H1 now e).2 as [i|x] eqn:E1, (@elect H2 now e).2 as [j|y] eqn:E2.
  - destruct (@elect_ok H1 now e i Hok E1) as (c & Hc & Hmax), (@elect_ok H2 now e j Hok E2) as (d & Hd & Hmax').
    f_equal. pose proof (preferred_antisym c d (Hmax' i c Hc) (Hmax j d Hd)) as Hid.
    by rewrite (proj1 Hok i c (proj1 Hc)), (proj1 Hok j d (proj1 Hd)) in Hid.
  - destruct (@elect_ok H1 now e i Hok E1) as (c & Hc & _). apply (@elect_err H2) in E2 as [_ Hno]; [|done].
    by destruct (Hno i c).
  - destruct (@elect_ok H2 now e j Hok E2) as (c & Hc & _). apply (@elect_err H1) in E1 as [_ Hno]; [|done].
    by destruct (Hno j c).
  - apply (@elect_err H1) in E1 as [-> _]; [|done]. apply (@elect_err H2) in E2 as [-> _]; done.
Qed.

(** A device whose row is stepped down or offline is barred. *)
Lemma barred `{HashOrder} e e' i :
  election_ok e -> step_down i e = (e', Ok tt) \/ mark_offline i e = (e', Ok tt) ->
  is_synthesizer e' i = false /\ forall later, (elect later e').2 <> Ok i.
Proof.
  intros Hok Hstep.
  assert (Hrow : elected e' <> Some i /\
            exists c, pool e' !! i = Some c /\ (stepped_down c = true \/ online c = false)).
  { unfold step_down, mark_offline in Hstep. destruct (pool e !! i) as [c|]; [|naive_solver].
    destruct Hstep as [[= <-]|[= <-]]; unfold relinquish; case_bool_decide as He; cbn;
      rewrite lookup_insert_eq; (split; [done|eexists; split; [done|]; cbn; auto]). }
  assert (Hok' : election_ok e').
  { destruct Hstep as [E|E]; [pose proof (election_run_ok (CallStepDown i) e Hok) as Hr|
      pose proof (election_run_ok (CallOffline i) e Hok) as Hr]; cbn in Hr; by rewrite E in Hr. }
  destruct Hrow as (He & c & Hc & Hbar). split; [by apply bool_decide_eq_false|].
  intros later Hl. destruct (elect_ok later e' i Hok' Hl) as (d & [Hd Hel] & _). simplify_eq.
  destruct Hel as (Hon & Hsd & _). destruct Hbar; congruence.
Qed.

(** ** Properties *)

(** In every reachable election [elect] succeeds exactly when some
    registered device is eligible (online, not stepped down, charged, of a high
    enough tier, heard from within the TTL); it chooses the greatest one by
    tier, then heartbeat, then battery, then id, whatever order the pool
    iterates in, records it and leaves the pool alone; on failure nobody is
    elected.  A device that steps down or is marked offline loses the role at
    once, and no later election over the resulting pool chooses it. *)
Theorem elect_spec `{HashOrder} e now :
  rtc step new e ->
  (forall i, (elect now e).2 = Ok i <->
     exists c, may_serve e now i c /\ forall j d, may_serve e now j d -> preferred d c) /\
  (forall x, (elect now e).2 = Err x <-> x = NoEligibleSynthesizer /\ forall i c, ~ may_serve e now i c) /\
  (elect now e).1 = with_elected e (match (elect now e).2 with Ok i => Some i | Err _ => None end) /\
  (forall H' : HashOrder, @elect H' now e = elect now e) /\
  (forall i e', step_down i e = (e', Ok tt) \/ mark_offline i e = (e', Ok tt) ->
     is_synthesizer e' i = false /\ forall later, (elect later e').2 <> Ok i).
Proof.
  intros Hr. pose proof (election_reachable e Hr) as Hok. split; [|split; [|split; [|split]]].
  - intros i. split; [by apply elect_ok|]. intros (c & Hc & Hmax).
    destruct (elect now e).2 as [j|x] eqn:Hj.
    + destruct (elect_ok now e j Hok Hj) as (d & Hd & Hmax'). f_equal.
      pose proof (preferred_antisym c d (Hmax' i c Hc) (Hmax j d Hd)) as Hid.
      by rewrite (proj1 Hok i c (proj1 Hc)), (proj1 Hok j d (proj1 Hd)) in Hid.
    + apply elect_err in Hj as [_ Hno]; [|done]. by destruct (Hno i c).
  - intros x. by apply elect_err.
  - apply elect_state.
  - intros H'. by apply elect_order.
  - intros i e' Hstep. by eapply barred.
Qed.

(** Two eligible devices of the same tier: the later heartbeat wins; after it
    steps down the other one takes over. *)
Definition demo_election : SynthesizerElection :=
  (@run hash_order_id (CallElect 100)
    (@run hash_order_id (CallRegister (new_candidate 90 2 High true 80))
      (@run hash_order_id (CallRegister (new_candidate 60 1 High true 95)) new))).
Lemma demo_election_run : rtc (@step hash_order_id) new demo_election.
Proof. unfold demo_election. do 3 (eapply rtc_r; [|apply step_call]). apply rtc_refl. Qed.

Lemma elect_spec_witness :
  elected demo_election = Some 2%N /\
  (@elect hash_order_id 100 (step_down 2 demo_election).1).2 <> Ok 2%N.
Proof.
  split; [vm_compute; reflexivity|].
  refine (proj2 (proj2 (proj2 (proj2 (proj2 (@elect_spec hash_order_id demo_election 100 demo_election_run)))) 2%N _ _) 100%Z).
  left. vm_compute. reflexivity.
Defined.
