(* ===== verification/RateLimiter.v ===== *)
(** * The synthesis rate limiter ([synthesis_engine/src/rate_limiter.rs])

    A fixed-window counter.  [check] holds the mutex from the test of the window
    to the update of the counter, so concurrent callers are some sequence of
    [check] steps; the instant each of them read before taking the lock is an
    argument. *)

From stdpp Require Import sorting.
From S2P Require Import Prelude.

(** ** Data and operations *)

(** [WINDOW]: 60 seconds; [AtomicU64::fetch_add] and [fetch_sub] wrap. *)
Definition WINDOW : duration := 60000000000.
Definition u64_wrapping_add (a b : N) : N := ((a + b) mod (u64_max + 1))%N.
Definition u64_wrapping_sub (a b : N) : N := ((a + (u64_max + 1) - b) mod (u64_max + 1))%N.

(** [struct RateLimiter] with [new], [new_with_window_start],
    [max_per_window], [current_window_count]. *)
Record RateLimiter : Type := mk_limiter {
  max_requests_per_window : N;
  request_count : N;
  window_start : instant
}.
Definition new_with_window_start (max : N) (start : instant) : RateLimiter := mk_limiter max 0 start.
Definition new (now : instant) (max : N) : RateLimiter := mk_limiter max 0 now.
Definition max_per_window (l : RateLimiter) : N := max_requests_per_window l.
Definition current_window_count (l : RateLimiter) : N := request_count l.

(** [later.saturating_duration_since(earlier)]; [duration_since] saturates too. *)
Definition saturating_duration_since (later earlier : instant) : duration := Z.max 0 (later - earlier).

(** The rotation of the window, and [RateLimiter::check]. *)
Definition rotate (now : instant) (l : RateLimiter) : RateLimiter :=
  if (WINDOW <=? saturating_duration_since now (window_start l))%Z
  then mk_limiter (max_requests_per_window l) 0 now else l.
Definition check (now : instant) : eff RateLimiter duration unit := fun l =>
  let l := rotate now l in
  let prev := request_count l in
  let count := u64_wrapping_add prev 1 in
  if (prev <? max_requests_per_window l)%N
  then (mk_limiter (max_requests_per_window l) count (window_start l), Ok tt)
  else (mk_limiter (max_requests_per_window l) (u64_wrapping_sub count 1) (window_start l),
        Err (saturating_duration_since (window_start l + WINDOW) now)).

(** ** Runs: the instants of the calls and their outcomes *)

Fixpoint run (l : RateLimiter) (calls : list instant) : RateLimiter * list (instant * bool) :=
  match calls with
  | [] => (l, [])
  | now :: calls =>
      let '(l, r) := check now l in
      let '(l, trace) := run l calls in
      (l, (now, is_ok r) :: trace)
  end.

(** The calls admitted at instants of [[t, t + d)]. *)
Definition admitted_in (t : instant) (d : duration) (trace : list (instant * bool)) : nat :=
  length (base.filter (fun e => e.2 = true /\ t <= e.1 < t + d)%Z trace).

(** The trace with the window each call fell into. *)
Fixpoint windows (l : RateLimiter) (calls : list instant) : list (instant * instant * bool) :=
  match calls with
  | [] => []
  | now :: calls =>
      let '(l', r) := check now l in (now, window_start l', is_ok r) :: windows l' calls
  end.

(** ** Lemmas *)

Definition limiter_ok (l : RateLimiter) : Prop := (request_count l <= max_requests_per_window l <= u64_max)%N.

Lemma check_spec now l :
  limiter_ok l ->
  let l' := rotate now l in
  check now l =
    if (request_count l' <? max_requests_per_window l)%N
    then (mk_limiter (max_requests_per_window l) (request_count l' + 1) (window_start l'), Ok tt)
    else (l', Err (saturating_duration_since (window_start l' + WINDOW) now)).
Proof.
  intros Hok. cbv zeta. unfold check.
  assert (Hmax : max_requests_per_window (rotate now l) = max_requests_per_window l)
    by (unfold rotate; by case_match).
  assert (Hcount : (request_count (rotate now l) <= max_requests_per_window l)%N)
    by (unfold rotate, limiter_ok in *; case_match; cbn; lia).
  unfold limiter_ok in Hok. rewrite Hmax.
  destruct (N.ltb_spec (request_count (rotate now l)) (max_requests_per_window l)).
  - unfold u64_wrapping_add. rewrite N.mod_small by lia. done.
  - assert (Hwrap : u64_wrapping_sub (u64_wrapping_add (request_count (rotate now l)) 1) 1
                    = request_count (rotate now l)).
    { unfold u64_wrapping_sub, u64_wrapping_add.
      destruct (decide (request_count (rotate now l) = u64_max)) as [->|Hne]; [reflexivity|].
      rewrite (N.mod_small (_ + 1)) by lia.
      replace (request_count (rotate now l) + 1 + (u64_max + 1) - 1)%N
        with (request_count (rotate now l) + 1 * (u64_max + 1))%N by lia.
      rewrite N.Div0.mod_add, N.mod_small by lia. done. }
    rewrite Hwrap. destruct (rotate now l). cbn in *. by subst.
Qed.

(** What one check does to the window, when the clock has not gone back. *)
Lemma rotate_spec now l :
  (window_start l <= now)%Z ->
  (window_start (rotate now l) <= now < window_start (rotate now l) + WINDOW)%Z /\
  max_requests_per_window (rotate now l) = max_requests_per_window l /\
  ((rotate now l = l /\ (now < window_start l + WINDOW)%Z) \/
   (window_start (rotate now l) = now /\ request_count (rotate now l) = 0%N /\
    (window_start l + WINDOW <= now)%Z)).
Proof.
  intros Hle. unfold rotate, saturating_duration_since, WINDOW.
  destruct (Z.leb_spec 60000000000 (Z.max 0 (now - window_start l))); cbn; (split; [lia|]); (split; [done|]).
  - right. repeat split; lia.
  - left. split; [done|lia].
Qed.

Lemma rotate_ok now l :
  limiter_ok l -> (request_count (rotate now l) <= max_requests_per_window l)%N /\
  max_requests_per_window (rotate now l) = max_requests_per_window l.
Proof. unfold limiter_ok, rotate. case_match; cbn; intros; split; lia. Qed.

Lemma check_ok now l : limiter_ok l -> limiter_ok (check now l).1.
Proof.
  intros Hok. rewrite check_spec by done. destruct (rotate_ok now l Hok) as [Hc Hm]. unfold limiter_ok in *.
  destruct (N.ltb_spec (request_count (rotate now l)) (max_requests_per_window l)); cbn; lia.
Qed.

(** The call admitted into window [w]. *)
Definition into (w : instant) (e : instant * instant * bool) : Prop := e.2 = true /\ e.1.2 = w.
#[local] Instance into_dec w e : Decision (into w e).
Proof. unfold into. apply _. Defined.
Definition admitted_into (w : instant) (tr : list (instant * instant * bool)) : nat :=
  length (base.filter (into w) tr).

(** Room left in window [w] for a limiter. *)
Definition room (l : RateLimiter) (w : instant) : nat :=
  if decide (w = window_start l) then N.to_nat (max_requests_per_window l - request_count l)
  else N.to_nat (max_requests_per_window l).

Lemma admitted_before w tr :
  (forall e, e ∈ tr -> (w < e.1.2)%Z) -> admitted_into w tr = 0%nat.
Proof.
  intros Hlt. unfold admitted_into. apply length_zero_iff_nil.
  destruct (base.filter (into w) tr) as [|e l] eqn:Hf; [done|].
  assert (He : e ∈ base.filter (into w) tr) by (rewrite Hf; by left).
  apply list_elem_of_filter in He as [[_ Hw] He]. specialize (Hlt e He). lia.
Qed.

Lemma windows_room now l l' r w tr :
  limiter_ok l -> check now l = (l', r) -> (window_start l <= now)%Z ->
  (forall e, e ∈ tr -> (window_start l' <= e.1.2)%Z) ->
  (admitted_into w tr <= room l' w)%nat ->
  (admitted_into w ((now, window_start l', is_ok r) :: tr) <= room l w)%nat.
Proof.
  intros Hok Hc Hnow Hge Htr. destruct (rotate_spec now l Hnow) as (Hin & Hmax & Hrot).
  assert (Hold : (window_start l < window_start l')%Z -> admitted_into (window_start l) tr = 0%nat).
  { intros Hlt. apply admitted_before. intros e He. specialize (Hge e He). lia. }
  rewrite check_spec in Hc by done. unfold limiter_ok in Hok. unfold admitted_into in *.
  rewrite filter_cons. unfold room, WINDOW in *.
  destruct (N.ltb_spec (request_count (rotate now l)) (max_requests_per_window l)); simplify_eq;
    cbn [is_ok window_start max_requests_per_window request_count] in *.
  - assert (Hi : into w (now, window_start (rotate now l), true) <-> w = window_start (rotate now l))
      by (unfold into; cbn; naive_solver).
    destruct (decide (into w _)) as [Hw|Hw]; rewrite Hi in Hw; cbn [length];
      destruct Hrot as [[Hr ?]|(Hr & Hz & ?)]; rewrite ?Hr in *; repeat case_decide; subst; lia.
  - destruct (decide (into _ _)) as [[Ht _]|_]; [done|]. rewrite Hmax in Htr.
    destruct Hrot as [[Hr ?]|(Hr & Hz & ?)]; [by rewrite Hr in Htr|].
    rewrite Hr, Hz in *. repeat case_decide; subst; lia.
Qed.

Lemma windows_spec l calls :
  limiter_ok l -> StronglySorted Z.le (window_start l :: calls) ->
  (forall e, e ∈ windows l calls ->
     (e.1.2 <= e.1.1 < e.1.2 + WINDOW)%Z /\
     (e.1.2 = window_start l \/ (window_start l + WINDOW <= e.1.2)%Z)) /\
  (forall w, (admitted_into w (windows l calls) <= room l w)%nat) /\
  (forall e e', e ∈ windows l calls -> e' ∈ windows l calls ->
     e.1.2 = e'.1.2 \/ (e.1.2 + WINDOW <= e'.1.2)%Z \/ (e'.1.2 + WINDOW <= e.1.2)%Z).
Proof.
  revert l. induction calls as [|now calls IH]; intros l Hok Hs.
  { cbn. split_and!; [by intros e ?%elem_of_nil|lia|by intros e e' ?%elem_of_nil]. }
  apply StronglySorted_inv in Hs as [Hs Hall]. apply Forall_cons in Hall as [Hnow Hall].
  pose proof (check_ok now l Hok) as Hok'. destruct (rotate_spec now l Hnow) as (Hin & Hmax & Hrot).
  cbn [windows]. destruct (check now l) as [l' r] eqn:Hc. cbn [fst] in Hok'.
  assert (Hws : window_start l' = window_start (rotate now l)).
  { rewrite check_spec in Hc by done. by case_match; simplify_eq. }
  destruct (IH l' Hok') as (H1 & H2 & H3).
  { apply SSorted_cons; [by apply StronglySorted_inv in Hs as [? _]|].
    apply StronglySorted_inv in Hs as [_ Hs]. eapply Forall_impl; [exact Hs|]. cbn. intros x. lia. }
  split_and!.
  - intros e [->|He]%elem_of_cons; cbn; [rewrite Hws; destruct Hrot as [[-> ?]|(-> & _ & ?)]; split; lia|].
    destruct (H1 e He) as [Ha Hb]. split; [done|]. rewrite Hws in Hb. destruct Hrot as [[Hr ?]|(Hr & _ & ?)];
      rewrite Hr in Hb; unfold WINDOW in *; lia.
  - intros w. specialize (H2 w). apply (windows_room now l l' r w _ Hok Hc Hnow); [|done].
    intros e He. destruct (H1 e He) as [_ [->|?]]; unfold WINDOW in *; lia.
  - intros e e' He He'. apply elem_of_cons in He as [->|He], He' as [->|He']; cbn;
      [by left| |..|by apply H3].
    + destruct (H1 e' He') as [_ [->|?]]; auto.
    + destruct (H1 e He) as [_ [->|?]]; auto.
Qed.

(** ** The bound over any interval *)

Lemma run_windows l calls :
  (run l calls).2 = (fun e => (e.1.1, e.2)) <$> windows l calls.
Proof.
  revert l. induction calls as [|now calls IH]; intros l; [done|]. cbn.
  destruct (check now l) as [l' r]. specialize (IH l'). destruct (run l' calls) as [l'' tr]. cbn in *.
  by rewrite IH.
Qed.

(** The admitted calls of an interval. *)
Definition hit (t : instant) (d : duration) (e : instant * instant * bool) : Prop :=
  e.2 = true /\ (t <= e.1.1 < t + d)%Z.
#[local] Instance hit_dec t d e : Decision (hit t d e).
Proof. unfold hit. apply _. Defined.

Lemma admitted_in_windows t d l calls :
  admitted_in t d (run l calls).2 = length (base.filter (hit t d) (windows l calls)).
Proof.
  unfold admitted_in. rewrite run_windows. induction (windows l calls) as [|[[n w] b] tr IH]; [done|].
  rewrite fmap_cons, !filter_cons. unfold hit at 1. cbn. repeat case_decide; cbn; try tauto; by rewrite IH.
Qed.

Lemma filter_length_le {A} (P Q : A -> Prop) `{forall x, Decision (P x), forall x, Decision (Q x)} (l : list A) :
  (forall x, x ∈ l -> P x -> Q x) -> (length (base.filter P l) <= length (base.filter Q l))%nat.
Proof.
  induction l as [|x l IH]; intros Himp; [done|]. rewrite !filter_cons.
  assert (length (base.filter P l) <= length (base.filter Q l))%nat
    by (apply IH; intros y Hy; apply Himp; by right).
  pose proof (Himp x (list_elem_of_here x l)). repeat case_decide; cbn; try lia. tauto.
Qed.

(** Elements that fall into one of two windows are at most the sum. *)
Lemma two_windows (P : instant * instant * bool -> Prop) `{forall x, Decision (P x)} w1 w2 tr :
  (forall e, e ∈ tr -> P e -> into w1 e \/ into w2 e) ->
  (length (base.filter P tr) <= admitted_into w1 tr + admitted_into w2 tr)%nat.
Proof.
  unfold admitted_into. induction tr as [|e tr IH]; intros Himp; [done|]. rewrite !filter_cons.
  assert (length (base.filter P tr) <= length (base.filter (into w1) tr) + length (base.filter (into w2) tr))%nat
    by (apply IH; intros y Hy; apply Himp; by right).
  pose proof (Himp e (list_elem_of_here e tr)). repeat case_decide; cbn; try lia. tauto.
Qed.

Lemma room_le l w : (room l w <= N.to_nat (max_requests_per_window l))%nat.
Proof. unfold room. case_decide; lia. Qed.

Lemma interval_bound l calls t :
  limiter_ok l -> StronglySorted Z.le (window_start l :: calls) ->
  (admitted_in t WINDOW (run l calls).2 <= 2 * N.to_nat (max_requests_per_window l))%nat.
Proof.
  intros Hok Hs. rewrite admitted_in_windows. destruct (windows_spec l calls Hok Hs) as (H1 & H2 & H3).
  destruct (base.filter (hit t WINDOW) (windows l calls)) as [|e0 rest] eqn:Hf; [cbn; lia|]. rewrite <- Hf.
  assert (He0 : hit t WINDOW e0 /\ e0 ∈ windows l calls)
    by (apply (proj1 (list_elem_of_filter (hit t WINDOW) _ _)); rewrite Hf; by left).
  set (w1 := e0.1.2).
  assert (Hsum : exists w2, forall e, e ∈ windows l calls -> hit t WINDOW e -> into w1 e \/ into w2 e).
  { destruct (decide (Exists (fun e => hit t WINDOW e /\ e.1.2 <> w1) (windows l calls))) as [Hx|Hx].
    - apply Exists_exists in Hx as (e1 & He1 & Hh1 & Hw1). exists (e1.1.2). intros e He Hh.
      destruct (H3 e e0 He (proj2 He0)) as [Ha|Ha]; [left; by split; [apply Hh|]|].
      destruct (H3 e e1 He He1) as [Hb|Hb]; [right; by split; [apply Hh|]|]. exfalso.
      pose proof (H3 e1 e0 He1 (proj2 He0)). pose proof (proj1 (H1 e He)). pose proof (proj1 (H1 e1 He1)).
      pose proof (proj1 (H1 e0 (proj2 He0))). unfold hit, w1, WINDOW in *. lia.
    - exists w1. intros e He Hh. left. split; [apply Hh|]. destruct (decide (e.1.2 = w1)) as [|Hne]; [done|].
      exfalso. apply Hx, Exists_exists. by exists e. }
  destruct Hsum as [w2 Hsum]. pose proof (two_windows (hit t WINDOW) w1 w2 _ Hsum).
  pose proof (H2 w1). pose proof (H2 w2). pose proof (room_le l w1). pose proof (room_le l w2). lia.
Qed.

Lemma limiter_run_ok l calls :
  limiter_ok l -> StronglySorted Z.le (window_start l :: calls) ->
  limiter_ok (run l calls).1 /\ max_requests_per_window (run l calls).1 = max_requests_per_window l /\
  (forall later, Forall (fun n => n <= later)%Z (window_start l :: calls) ->
     (window_start (run l calls).1 <= later)%Z).
Proof.
  revert l. induction calls as [|now calls IH]; intros l Hok Hs.
  { split_and!; [done|done|]. intros later Hl. by apply Forall_cons in Hl as [? _]. }
  apply StronglySorted_inv in Hs as [Hs Hall]. apply Forall_cons in Hall as [Hnow Hall].
  pose proof (check_ok now l Hok) as Hok'. destruct (rotate_spec now l Hnow) as (Hin & Hmax & Hrot).
  cbn [run]. destruct (check now l) as [l' r] eqn:Hc. cbn [fst] in Hok'.
  assert (Hl' : window_start l' = window_start (rotate now l) /\
                max_requests_per_window l' = max_requests_per_window l).
  { rewrite check_spec in Hc by done. by case_match; simplify_eq. }
  destruct Hl' as [Hws Hm]. apply StronglySorted_inv in Hs as [Hs Hge].
  destruct (IH l' Hok') as (Ha & Hb & Hd).
  { apply SSorted_cons; [done|]. eapply Forall_impl; [exact Hge|]. cbn. intros x. lia. }
  destruct (run l' calls) as [l'' tr]. cbn [fst] in *. split_and!; [done|congruence|].
  intros later Hl. apply Hd. apply Forall_cons in Hl as [_ Hl]. apply Forall_cons in Hl as [Hn Hl].
  apply Forall_cons. split; [lia|done].
Qed.

(** One check, with the clock past the start of the window. *)
Lemma check_outcome now l :
  limiter_ok l -> (window_start l <= now)%Z ->
  ((check now l).2 = Ok tt <->
     (request_count l < max_requests_per_window l)%N \/
     ((0 < max_requests_per_window l)%N /\ (window_start l + WINDOW <= now)%Z)) /\
  (forall wait, (check now l).2 = Err wait -> (0 < wait <= WINDOW)%Z /\
     ((0 < max_requests_per_window l)%N -> (check (now + wait) (check now l).1).2 = Ok tt) /\
     (check now l).1 = rotate now l).
Proof.
  intros Hok Hle. destruct (rotate_spec now l Hle) as (Hin & Hmax & Hrot).
  pose proof (check_ok now l Hok) as Hok'. rewrite check_spec in * by done. unfold limiter_ok in Hok.
  destruct (N.ltb_spec (request_count (rotate now l)) (max_requests_per_window l)) as [Hlt|Hge]; cbn [snd fst] in *.
  - split; [|done]. split; [intros _|done]. destruct Hrot as [[Hr ?]|(Hr & Hz & ?)]; [rewrite Hr in Hlt; lia|lia].
  - split.
    + split; [done|]. intros Ho. exfalso. destruct Hrot as [[Hr ?]|(Hr & Hz & ?)]; [rewrite Hr in Hge|]; lia.
    + intros wait [= <-]. unfold saturating_duration_since. split; [lia|]. split; [|by destruct (rotate now l)]. intros Hpos.
      assert (Hnext : rotate (now + Z.max 0 (window_start (rotate now l) + WINDOW - now)) (rotate now l)
        = mk_limiter (max_requests_per_window l) 0 (window_start (rotate now l) + WINDOW)).
      { unfold rotate at 1. rewrite (proj2 (Z.leb_le _ _)) by (unfold saturating_duration_since; lia).
        rewrite Hmax. f_equal. lia. }
      rewrite check_spec by done. rewrite Hnext, Hmax. cbn [request_count].
      by rewrite (proj2 (N.ltb_lt _ _)) by done.
Qed.

(** ** Properties *)

(** Over any sequence of calls at nondecreasing instants a fresh limiter
    admits at most twice its cap in any interval of one window; a call is
    admitted exactly when its window has room; a refused call leaves the counter
    as it was, is told to wait a positive time of at most one window, and a retry
    after that wait is admitted. *)
Theorem limiter_bound start max calls :
  (max <= u64_max)%N -> StronglySorted Z.le (start :: calls) ->
  let l := (run (new start max) calls).1 in
  (forall t, (admitted_in t WINDOW (run (new start max) calls).2 <= 2 * N.to_nat max)%nat) /\
  (request_count l <= max)%N /\
  (forall now, Forall (fun n => n <= now)%Z (start :: calls) ->
     ((check now l).2 = Ok tt <->
        (request_count l < max)%N \/ ((0 < max)%N /\ (window_start l + WINDOW <= now)%Z)) /\
     (forall wait, (check now l).2 = Err wait ->
        (0 < wait <= WINDOW)%Z /\ request_count (check now l).1 = request_count (rotate now l) /\
        ((0 < max)%N -> (check (now + wait) (check now l).1).2 = Ok tt))).
Proof.
  intros Hmax Hs. cbv zeta. assert (Hok : limiter_ok (new start max)) by (unfold limiter_ok; cbn; lia).
  destruct (limiter_run_ok (new start max) calls Hok Hs) as (Hok' & Hm & Hlast). cbn in Hm.
  split; [intros t; by apply (interval_bound (new start max))|].
  split; [unfold limiter_ok in Hok'; lia|]. intros now Hnow.
  destruct (check_outcome now _ Hok' (Hlast now Hnow)) as [H1 H2]. rewrite Hm in H1, H2.
  split; [exact H1|]. intros wait Hw. destruct (H2 wait Hw) as (Ha & Hb & Hc).
  split; [exact Ha|]. split; [by rewrite Hc|exact Hb].
Qed.

(** Four calls of a limiter with cap two, all within a tenth of a second. *)
Definition burst : list instant := [59950000000; 59950000001; 60000000000; 60000000001]%Z.
Lemma limiter_bound_witness :
  admitted_in 59950000000 WINDOW (run (new 0 2) burst).2 = 4%nat /\
  (admitted_in 59950000000 WINDOW (run (new 0 2) burst).2 <= 2 * 2)%nat.
Proof.
  split; [vm_compute; reflexivity|].
  apply (proj1 (limiter_bound 0 2 burst ltac:(unfold u64_max; lia)
    ltac:(repeat (constructor; [|repeat (constructor; [lia|]); constructor]); constructor))).
Defined.
