(* ===== verification/Forgetting.v ===== *)
(** * Cryptographic forgetting ([crypto/src/forgetting.rs])

    The registry of data-encryption keys with its tombstones, the destruction of the
    keys of a scope or of an epoch, the hook through which tombstones become durable,
    and the epoch manager with its rotation policy.  The clock is an argument of the
    operations that read it. *)

From stdpp Require Import sorting.
From S2P Require Import Prelude.

(** ** Epochs and keys *)

(** [EpochId::zero], [EpochId::next]; the only error of the file that is not a
    failure of the tombstone store. *)
Inductive CryptoError : Type := EpochOverflow | TombstonePersistence (msg : string).
Definition epoch_zero : N := 0.
Definition epoch_next (e : N) : result N CryptoError :=
  if (e <? u64_max)%N then Ok (e + 1)%N else Err EpochOverflow.

(** [AeadKey], [Zeroize::zeroize] of it. *)
Abbreviation AeadKey := (list N) (only parsing).
Definition zeroized (k : AeadKey) : AeadKey := replicate (length k) 0%N.

(** [struct ScopeDek] with [new], [key], [is_destroyed], [destroy]. *)
Record ScopeDek : Type := mk_scope_dek {
  sd_scope_id : uuid;
  sd_created_at : instant;
  sd_epoch : N;
  sd_bytes : AeadKey;
  sd_destroyed : bool
}.
Definition new_scope_dek (now : instant) (scope : uuid) (epoch : N) (key : AeadKey) : ScopeDek :=
  mk_scope_dek scope now epoch key false.
Definition scope_dek_key (d : ScopeDek) : option AeadKey := if sd_destroyed d then None else Some (sd_bytes d).
Definition destroy_scope_key (d : ScopeDek) : ScopeDek :=
  if sd_destroyed d then d
  else mk_scope_dek (sd_scope_id d) (sd_created_at d) (sd_epoch d) (zeroized (sd_bytes d)) true.

(** [struct EpochDek] with [new], [key], [is_destroyed], [destroy]. *)
Record EpochDek : Type := mk_epoch_dek {
  ed_scope_id : uuid;
  ed_epoch_id : N;
  ed_rotation_time : instant;
  ed_bytes : AeadKey;
  ed_destroyed : bool
}.
Definition new_epoch_dek (now : instant) (scope : uuid) (epoch : N) (key : AeadKey) : EpochDek :=
  mk_epoch_dek scope epoch now key false.
Definition epoch_dek_key (d : EpochDek) : option AeadKey := if ed_destroyed d then None else Some (ed_bytes d).
Definition destroy_epoch_key (d : EpochDek) : EpochDek :=
  if ed_destroyed d then d
  else mk_epoch_dek (ed_scope_id d) (ed_epoch_id d) (ed_rotation_time d) (zeroized (ed_bytes d)) true.

(** [struct KeyDestructionEvent]. *)
Record KeyDestructionEvent : Type := mk_event {
  ev_scope_id : uuid;
  ev_epoch_id : N;
  scope_wide : bool;
  destroyed_at : instant
}.

(** ** The registry *)

(** [struct DekRegistry]; its maps are [BTreeMap]s, whose order shows in
    [epochs_of] and [tombstones_of]. *)
Record DekRegistry : Type := mk_registry {
  scope_deks : gmap uuid ScopeDek;
  epoch_deks : gmap (uuid * N) EpochDek;
  tombstones : gmap (uuid * N) instant;
  forgotten_scopes : gmap uuid instant
}.
Definition new_registry : DekRegistry := mk_registry ∅ ∅ ∅ ∅.
Definition with_scope_deks (r : DekRegistry) m := mk_registry m (epoch_deks r) (tombstones r) (forgotten_scopes r).
Definition with_epoch_deks (r : DekRegistry) m := mk_registry (scope_deks r) m (tombstones r) (forgotten_scopes r).
Definition with_tombstones (r : DekRegistry) m := mk_registry (scope_deks r) (epoch_deks r) m (forgotten_scopes r).
Definition with_forgotten (r : DekRegistry) m := mk_registry (scope_deks r) (epoch_deks r) (tombstones r) m.

(** [insert_scope_dek], [insert_epoch_dek], [get_scope_dek], [get_epoch_dek],
    [is_scope_forgotten], [is_epoch_forgotten], [epoch_count]. *)
Definition insert_scope_dek (dek : ScopeDek) (r : DekRegistry) : DekRegistry :=
  with_scope_deks r (<[sd_scope_id dek := dek]> (scope_deks r)).
Definition insert_epoch_dek (dek : EpochDek) (r : DekRegistry) : DekRegistry :=
  with_epoch_deks r (<[(ed_scope_id dek, ed_epoch_id dek) := dek]> (epoch_deks r)).
Definition get_scope_dek (r : DekRegistry) (scope : uuid) : option ScopeDek :=
  match scope_deks r !! scope with Some d => if sd_destroyed d then None else Some d | None => None end.
Definition get_epoch_dek (r : DekRegistry) (scope : uuid) (epoch : N) : option EpochDek :=
  match epoch_deks r !! (scope, epoch) with Some d => if ed_destroyed d then None else Some d | None => None end.
Definition is_scope_forgotten (r : DekRegistry) (scope : uuid) : bool :=
  bool_decide (is_Some (forgotten_scopes r !! scope)).
Definition is_epoch_forgotten (r : DekRegistry) (scope : uuid) (epoch : N) : bool :=
  bool_decide (is_Some (tombstones r !! (scope, epoch))).

(** The entries of a scope, in the order of a map keyed by (scope, epoch). *)
Definition by_epoch {A} (x y : N * A) : Prop := (x.1 <= y.1)%N.
#[export] Instance by_epoch_dec {A} : RelDecision (@by_epoch A).
Proof. intros x y. unfold by_epoch. apply _. Defined.
Definition entries_of {A} (scope : uuid) (m : gmap (uuid * N) A) : list (N * A) :=
  merge_sort by_epoch
    (omap (fun e => if bool_decide (e.1.1 = scope) then Some (e.1.2, e.2) else None) (map_to_list m)).
Definition epochs_of (scope : uuid) (r : DekRegistry) : list N := (entries_of scope (epoch_deks r)).*1.
Definition epoch_count (r : DekRegistry) (scope : uuid) : nat := length (epochs_of scope r).

(** ** The durable tombstones *)

(** [trait TombstoneStore], over the state of the host's store. *)
Class TombstoneStore (S : Type) := {
  persist_tombstone : uuid -> N -> instant -> eff S CryptoError unit;
  persist_forgotten_scope : uuid -> instant -> eff S CryptoError unit;
  load_tombstones : eff S CryptoError (list (uuid * N * instant));
  load_forgotten_scopes : eff S CryptoError (list (uuid * instant))
}.

(** What the trait's documentation promises of an implementation: a tombstone
    acknowledged is on record, a failure records nothing, and nothing is lost. *)
Class TombstoneLaws (S : Type) `{TombstoneStore S} := {
  epoch_recorded : S -> uuid * N -> Prop;
  scope_recorded : S -> uuid -> Prop;
  persist_tombstone_law : forall scope epoch at_ s s' r, persist_tombstone scope epoch at_ s = (s', r) ->
    (forall x, scope_recorded s' x <-> scope_recorded s x) /\
    (forall k, epoch_recorded s' k <-> epoch_recorded s k \/ (is_ok r = true /\ k = (scope, epoch)));
  persist_forgotten_scope_law : forall scope at_ s s' r, persist_forgotten_scope scope at_ s = (s', r) ->
    (forall k, epoch_recorded s' k <-> epoch_recorded s k) /\
    (forall x, scope_recorded s' x <-> scope_recorded s x \/ (is_ok r = true /\ x = scope))
}.

(** ** Destruction *)

(** What [destroy_scope_dek] does to one key it iterates over. *)
Definition destroy_one (scope : uuid) (now : instant) (acc : DekRegistry * list KeyDestructionEvent) (epoch : N) :
    DekRegistry * list KeyDestructionEvent :=
  let '(r, events) := acc in
  match epoch_deks r !! (scope, epoch) with
  | None => acc
  | Some dek =>
      let r := with_epoch_deks r (delete (scope, epoch) (epoch_deks r)) in
      if ed_destroyed dek then (r, events)
      else (with_tombstones r (<[(scope, epoch) := now]> (tombstones r)),
            events ++ [mk_event scope epoch true now])
  end.

(** The part of [destroy_scope_dek] in memory. *)
Definition destroy_scope_keys (scope : uuid) (now : instant) (r : DekRegistry) :
    DekRegistry * list KeyDestructionEvent :=
  let '(r, events) :=
    match scope_deks r !! scope with
    | None => (r, [])
    | Some dek =>
        let r := with_scope_deks r (delete scope (scope_deks r)) in
        if sd_destroyed dek then (r, [])
        else (with_tombstones r (<[(scope, sd_epoch dek) := now]> (tombstones r)),
              [mk_event scope (sd_epoch dek) true now])
    end in
  let '(r, events) := foldl (destroy_one scope now) (r, events) (epochs_of scope r) in
  (with_forgotten r (<[scope := now]> (forgotten_scopes r)), events).

(** Its loop over the tombstones of the scope; the first error ends it. *)
Fixpoint persist_all {S} `{TombstoneStore S} (scope : uuid) (ts : list (N * instant)) : eff S CryptoError unit :=
  match ts with
  | [] => ret tt
  | (epoch, at_) :: ts => do? _ := persist_tombstone scope epoch at_ in persist_all scope ts
  end.

(** [destroy_scope_dek], [destroy_epoch_dek]; the store is an [Option]. *)
Definition with_store {S} (store : option S) (m : eff S CryptoError unit) : option S * result unit CryptoError :=
  match store with
  | None => (None, Ok tt)
  | Some s => let '(s, res) := m s in (Some s, res)
  end.
Definition destroy_scope_dek {S} `{TombstoneStore S} (r : DekRegistry) (scope : uuid) (now : instant) (store : option S) :
    DekRegistry * option S * result (list KeyDestructionEvent) CryptoError :=
  if is_scope_forgotten r scope then (r, store, Ok [])
  else
    let '(r, events) := destroy_scope_keys scope now r in
    let '(store, res) := with_store store
      (do? _ := persist_all scope (entries_of scope (tombstones r)) in persist_forgotten_scope scope now) in
    (r, store, result_map (fun _ => events) res).

Definition destroy_epoch_dek {S} `{TombstoneStore S} (r : DekRegistry) (scope : uuid) (epoch : N) (now : instant)
    (store : option S) : DekRegistry * option S * result (list KeyDestructionEvent) CryptoError :=
  if is_epoch_forgotten r scope epoch then (r, store, Ok [])
  else
    let '(r, events) :=
      match epoch_deks r !! (scope, epoch) with
      | None => (r, [])
      | Some dek => (with_epoch_deks r (delete (scope, epoch) (epoch_deks r)),
                     if ed_destroyed dek then [] else [mk_event scope epoch false now])
      end in
    let events := match events with [] => [mk_event scope epoch false now] | _ :: _ => events end in
    let r := with_tombstones r (<[(scope, epoch) := now]> (tombstones r)) in
    let '(store, res) := with_store store (persist_tombstone scope epoch now) in
    (r, store, result_map (fun _ => events) res).

(** ** The epoch manager *)

(** [enum EpochRotationTrigger] with [as_str], [struct EpochRotationPolicy] with
    [default_policy], [struct EpochInfo]. *)
Inductive EpochRotationTrigger : Type := TimeElapsed | SizeExceeded | PolicyForced.
Definition trigger_str (t : EpochRotationTrigger) : string :=
  match t with TimeElapsed => "time_elapsed" | SizeExceeded => "size_exceeded" | PolicyForced => "policy_forced" end.
Record EpochRotationPolicy : Type := mk_policy { max_epoch_duration : duration; max_epoch_size_bytes : N }.
Definition default_policy : EpochRotationPolicy := mk_policy (24 * 3600 * 1000000000) (16 * 1024 * 1024 * 1024).
Record EpochInfo : Type := mk_info {
  epoch_id : N;
  started_at : instant;
  bytes_encrypted : N;
  cold : bool
}.

(** [trait EpochKeySource]: [derive] takes the source by mutable reference. *)
Class EpochKeySource (K : Type) := { derive : uuid -> N -> K -> K * AeadKey }.

Section Manager.
Context {K : Type} `{EpochKeySource K}.

(** [struct EpochManager]. *)
Record EpochManager : Type := mk_manager {
  policy : EpochRotationPolicy;
  epochs : gmap uuid (list EpochInfo);
  current : gmap uuid N;
  key_source : K
}.
Definition new_manager (p : EpochRotationPolicy) (k : K) : EpochManager := mk_manager p ∅ ∅ k.

(** [current_epoch], [list_epochs]. *)
Definition current_epoch (m : EpochManager) (scope : uuid) : option N := current m !! scope.
Definition list_epochs (m : EpochManager) (scope : uuid) : list EpochInfo := default [] (epochs m !! scope).

(** The end shared by [ensure_scope] and [rotate]: a key for the epoch is derived and
    registered and the epoch becomes the scope's last and current one. *)
Definition start_epoch (scope : uuid) (epoch : N) (now : instant) (m : EpochManager) (r : DekRegistry) :
    EpochManager * DekRegistry :=
  let '(source, key) := derive scope epoch (key_source m) in
  (mk_manager (policy m) (<[scope := list_epochs m scope ++ [mk_info epoch now 0 false]]> (epochs m))
     (<[scope := epoch]> (current m)) source,
   insert_epoch_dek (new_epoch_dek now scope epoch key) r).

Definition hot (e : EpochInfo) : bool := negb (cold e).

(** [ensure_scope]. *)
Definition ensure_scope (scope : uuid) (now : instant) (m : EpochManager) (r : DekRegistry) :
    EpochManager * DekRegistry * EpochInfo :=
  match List.find hot (list_epochs m scope) with
  | Some info => (m, r, info)
  | None => (start_epoch scope epoch_zero now m r, mk_info epoch_zero now 0 false)
  end.

(** [rotate]. *)
Definition chill (e : EpochInfo) : EpochInfo := mk_info (epoch_id e) (started_at e) (bytes_encrypted e) true.
Definition rotate (scope : uuid) (now : instant) (m : EpochManager) (r : DekRegistry) :
    EpochManager * DekRegistry * result N CryptoError :=
  match match current_epoch m scope with Some e => epoch_next e | None => Ok epoch_zero end with
  | Err e => (m, r, Err e)
  | Ok next =>
      let chilled := match epochs m !! scope with
                     | Some infos => <[scope := chill <$> infos]> (epochs m)
                     | None => epochs m
                     end in
      (start_epoch scope next now (mk_manager (policy m) chilled (current m) (key_source m)) r, Ok next)
  end.

(** [force_rotate]. *)
Definition force_rotate (scope : uuid) (now : instant) (m : EpochManager) (r : DekRegistry) :
    EpochManager * DekRegistry * result (N * EpochRotationTrigger) CryptoError :=
  let '(m, r, res) := rotate scope now m r in (m, r, result_map (fun e => (e, PolicyForced)) res).

(** The last epoch that is not cold ([iter_mut().rev().find(..)]), updated. *)
Fixpoint update_last_hot (f : EpochInfo -> EpochInfo) (l : list EpochInfo) : option (list EpochInfo) :=
  match l with
  | [] => None
  | e :: l =>
      match update_last_hot f l with
      | Some l => Some (e :: l)
      | None => if hot e then Some (f e :: l) else None
      end
  end.
Definition last_hot (l : list EpochInfo) : option EpochInfo := List.find hot (rev l).

(** When the policy wants a rotation. *)
Definition too_old (p : EpochRotationPolicy) (now : instant) (e : EpochInfo) : bool :=
  (max_epoch_duration p <=? now - started_at e)%Z.
Definition charge (bytes : N) (e : EpochInfo) : EpochInfo :=
  mk_info (epoch_id e) (started_at e) (u64_saturating_add (bytes_encrypted e) bytes) (cold e).

(** [record_bytes]; the rotation reads the clock again. *)
Definition record_bytes (scope : uuid) (bytes : N) (now now' : instant) (m : EpochManager) (r : DekRegistry) :
    EpochManager * DekRegistry * result (option EpochRotationTrigger) CryptoError :=
  match last_hot (list_epochs m scope) with
  | None => (m, r, Ok None)
  | Some latest =>
      let latest := charge bytes latest in
      let m := match update_last_hot (charge bytes) (list_epochs m scope) with
               | Some infos => mk_manager (policy m) (<[scope := infos]> (epochs m)) (current m) (key_source m)
               | None => m
               end in
      let should_rotate :=
        if (max_epoch_size_bytes (policy m) <=? bytes_encrypted latest)%N then Some SizeExceeded
        else if too_old (policy m) now latest then Some TimeElapsed else None in
      match should_rotate with
      | None => (m, r, Ok None)
      | Some trigger => let '(m, r, res) := rotate scope now' m r in (m, r, result_map (fun _ => Some trigger) res)
      end
  end.

(** [tick]. *)
Definition tick (scope : uuid) (now now' : instant) (m : EpochManager) (r : DekRegistry) :
    EpochManager * DekRegistry * result (option EpochRotationTrigger) CryptoError :=
  match last_hot (list_epochs m scope) with
  | Some latest =>
      if too_old (policy m) now latest then
        let '(m, r, res) := rotate scope now' m r in (m, r, result_map (fun _ => Some TimeElapsed) res)
      else (m, r, Ok None)
  | None => (m, r, Ok None)
  end.
End Manager.
Arguments EpochManager : clear implicits.

(** ** Facts about destruction *)

#[export] Instance by_epoch_trans {A} : Transitive (@by_epoch A).
Proof. intros x y z. unfold by_epoch. lia. Qed.
#[export] Instance by_epoch_total {A} : Total (@by_epoch A).
Proof. intros x y. unfold by_epoch. lia. Qed.

Lemma elem_of_entries_of {A} (scope : uuid) (m : gmap (uuid * N) A) e x :
  (e, x) ∈ entries_of scope m <-> m !! (scope, e) = Some x.
Proof.
  unfold entries_of. rewrite merge_sort_Permutation, list_elem_of_omap. split.
  - intros ([[s e'] x'] & Hin & Hs). apply elem_of_map_to_list in Hin. cbn in Hs.
    case_bool_decide; [|done]. by injection Hs as <- <-; subst.
  - intros Hm. exists ((scope, e), x). split; [by apply elem_of_map_to_list|]. cbn. by rewrite bool_decide_true.
Qed.

Lemma NoDup_entries_of {A} (scope : uuid) (m : gmap (uuid * N) A) : NoDup (entries_of scope m).*1.
Proof.
  unfold entries_of. rewrite merge_sort_Permutation. pose proof (NoDup_fst_map_to_list m) as Hnd.
  induction (map_to_list m) as [|[[s e] x] l IH]; [constructor|]. apply NoDup_cons in Hnd as [Hn Hnd].
  cbn. case_bool_decide as Hs; [|by apply IH]. cbn. subst. constructor; [|by apply IH].
  intros ([e' x'] & -> & Hin)%list_elem_of_fmap. apply list_elem_of_omap in Hin as ([[s e2] x2] & Hin & He).
  cbn in He. case_bool_decide; [|done]. injection He as -> ->. subst. apply Hn.
  apply list_elem_of_fmap. by exists (scope, e', x').
Qed.

Lemma elem_of_epochs_of (scope : uuid) r e : e ∈ epochs_of scope r <-> is_Some (epoch_deks r !! (scope, e)).
Proof.
  unfold epochs_of. rewrite list_elem_of_fmap. split.
  - intros ([e' x] & -> & Hin). apply elem_of_entries_of in Hin. by eexists.
  - intros [x Hx]. exists (e, x). by rewrite elem_of_entries_of.
Qed.

Definition live_epoch (r : DekRegistry) (scope : uuid) (e : N) : bool :=
  match get_epoch_dek r scope e with Some _ => true | None => false end.
Definition wide_event (scope : uuid) (now : instant) (e : N) : KeyDestructionEvent := mk_event scope e true now.

(** One key. *)
Lemma destroy_one_spec (scope : uuid) now r events e :
  let '(r1, events1) := destroy_one scope now (r, events) e in
  scope_deks r1 = scope_deks r /\ forgotten_scopes r1 = forgotten_scopes r /\
  epoch_deks r1 = delete (scope, e) (epoch_deks r) /\
  tombstones r1 = (if live_epoch r scope e then <[(scope, e) := now]> (tombstones r) else tombstones r) /\
  events1 = events ++ (if live_epoch r scope e then [wide_event scope now e] else []).
Proof.
  unfold destroy_one, live_epoch, get_epoch_dek.
  destruct (epoch_deks r !! (scope, e)) as [d|] eqn:Ed; [destruct (ed_destroyed d)|];
    cbn; rewrite ?(right_id_L [] (++)); [by split_and!..|]. split_and!; try done. by rewrite delete_id.
Qed.

(** The loop over the epochs of the scope. *)
Lemma destroy_loop (scope : uuid) now es r events :
  NoDup es ->
  let '(r', events') := foldl (destroy_one scope now) (r, events) es in
  events' = events ++ (wide_event scope now <$> List.filter (live_epoch r scope) es) /\
  scope_deks r' = scope_deks r /\ forgotten_scopes r' = forgotten_scopes r /\
  (forall k, epoch_deks r' !! k = if decide (k.1 = scope /\ k.2 ∈ es) then None else epoch_deks r !! k) /\
  (forall k, tombstones r' !! k = if decide (k.1 = scope /\ k.2 ∈ es /\ live_epoch r scope k.2 = true)
                                  then Some now else tombstones r !! k).
Proof.
  revert r events. induction es as [|e es IH]; intros r events Hnd; cbn [foldl].
  - cbn. rewrite (right_id_L [] (++)). split_and!; [done..| |]; intros k; rewrite decide_False; try done;
      [intros [_ Hin]|intros (_ & Hin & _)]; by apply elem_of_nil in Hin.
  - apply NoDup_cons in Hnd as [He Hnd]. cbn [List.filter]. pose proof (destroy_one_spec scope now r events e) as H1.
    destruct (destroy_one scope now (r, events) e) as [r1 events1]. destruct H1 as (Hs & Hf & Hd & Ht & ->).
    assert (Hsame : forall e', e' ∈ es -> live_epoch r1 scope e' = live_epoch r scope e').
    { intros e' He'. unfold live_epoch, get_epoch_dek. rewrite Hd, lookup_delete_ne; [done|]. intros [= ->]. by apply He. }
    specialize (IH r1 (events ++ (if live_epoch r scope e then [wide_event scope now e] else [])) Hnd).
    destruct (foldl _ _ es) as [r' events']. destruct IH as (-> & -> & -> & IHd & IHt). split_and!; [|done..| |].
    + rewrite <- (assoc_L (++)). f_equal. rewrite (filter_ext_in _ (live_epoch r scope)) by
        (intros a Ha; apply Hsame; by apply list_elem_of_In).
      by destruct (live_epoch r scope e).
    + intros [s e']. rewrite IHd, Hd. cbn [fst snd]. destruct (decide (s = scope /\ e' ∈ es)) as [[-> Hin]|Hn].
      * rewrite decide_True by (split; [done|by right]). done.
      * destruct (decide ((scope, e) = (s, e'))) as [[= <- <-]|Hne].
        -- rewrite lookup_delete_eq, decide_True; [done|]. split; [done|by left].
        -- rewrite lookup_delete_ne by done. rewrite decide_False; [done|].
           intros [-> [->|Hin]%elem_of_cons]; [done|by apply Hn].
    + intros [s e']. rewrite IHt, Ht. cbn [fst snd].
      destruct (decide (s = scope /\ e' ∈ es /\ live_epoch r1 scope e' = true)) as [(-> & Hin & Hl)|Hn].
      * rewrite Hsame in Hl by done. rewrite decide_True; [done|]. split_and!; [done|by right|done].
      * destruct (decide ((scope, e) = (s, e'))) as [[= <- <-]|Hne].
        -- destruct (live_epoch r scope e) eqn:El.
           ++ rewrite lookup_insert_eq, decide_True; [done|]. split_and!; [done|by left|done].
           ++ rewrite decide_False; [done|]. by intros (_ & _ & ?).
        -- rewrite decide_False.
           ++ destruct (live_epoch r scope e); [by rewrite lookup_insert_ne|done].
           ++ intros (-> & [->|Hin]%elem_of_cons & Hl); [done|]. apply Hn. by rewrite Hsame.
Qed.

(** The epochs whose keys the destruction of a scope wipes, in its order: that of the
    scope's key, then those of the live epoch keys. *)
Definition wiped_epochs (r : DekRegistry) (scope : uuid) : list N :=
  match get_scope_dek r scope with Some d => [sd_epoch d] | None => [] end
  ++ List.filter (live_epoch r scope) (epochs_of scope r).

Lemma destroy_scope_keys_spec (scope : uuid) now r :
  let '(r', events) := destroy_scope_keys scope now r in
  events = wide_event scope now <$> wiped_epochs r scope /\
  scope_deks r' = delete scope (scope_deks r) /\
  forgotten_scopes r' = <[scope := now]> (forgotten_scopes r) /\
  (forall k, epoch_deks r' !! k = if decide (k.1 = scope) then None else epoch_deks r !! k) /\
  (forall k, tombstones r' !! k = if decide (k.1 = scope /\ k.2 ∈ wiped_epochs r scope)
                                  then Some now else tombstones r !! k).
Proof.
  unfold destroy_scope_keys, wiped_epochs.
  set (st := match scope_deks r !! scope with Some _ => _ | None => _ end).
  assert (Hst : scope_deks st.1 = delete scope (scope_deks r) /\ forgotten_scopes st.1 = forgotten_scopes r /\
    epoch_deks st.1 = epoch_deks r /\
    st.2 = wide_event scope now <$> match get_scope_dek r scope with Some d => [sd_epoch d] | None => [] end /\
    tombstones st.1 = match get_scope_dek r scope with
                      | Some d => <[(scope, sd_epoch d) := now]> (tombstones r) | None => tombstones r end).
  { unfold st, get_scope_dek. destruct (scope_deks r !! scope) as [d|] eqn:Ed; [destruct (sd_destroyed d)|];
      split_and!; try done. cbn. by rewrite delete_id. }
  destruct st as [r1 events1]. cbn [fst snd] in Hst. destruct Hst as (Hs & Hf & Hd & -> & Ht).
  pose proof (destroy_loop scope now (epochs_of scope r) r1) as Hloop.
  specialize (Hloop (wide_event scope now <$> match get_scope_dek r scope with Some d => [sd_epoch d] | None => [] end)
                (NoDup_entries_of scope (epoch_deks r))).
  replace (epochs_of scope r1) with (epochs_of scope r) by (unfold epochs_of; by rewrite Hd).
  destruct (foldl _ _ _) as [r' events']. destruct Hloop as (-> & Hs' & Hf' & Hd' & Ht').
  assert (Hlive : forall e, live_epoch r1 scope e = live_epoch r scope e).
  { intros e. unfold live_epoch, get_epoch_dek. by rewrite Hd. }
  cbn. rewrite fmap_app, Hs', Hf', Hs, Hf, (List.filter_ext _ _ Hlive). split_and!; [done..| |].
  - intros [s e]. cbn [fst snd]. rewrite Hd', Hd. cbn [fst snd]. destruct (decide (s = scope)) as [->|Hn].
    + case_decide as Hin; [done|]. apply eq_None_not_Some. intros Hk. apply Hin. split; [done|]. by apply elem_of_epochs_of.
    + rewrite decide_False; [done|]. by intros [? _].
  - intros [s e]. cbn [fst snd]. rewrite Ht', Ht. cbn [fst snd]. rewrite Hlive.
    destruct (decide (s = scope /\ e ∈ epochs_of scope r /\ live_epoch r scope e = true)) as [(-> & Hin & Hl)|Hn].
    + rewrite decide_True; [done|]. split; [done|]. apply elem_of_app. right.
      apply list_elem_of_In, List.filter_In. by rewrite <- list_elem_of_In.
    + destruct (decide (s = scope /\ _)) as [[-> [Hin|Hin]%elem_of_app]|Hn'].
      * destruct (get_scope_dek r scope) as [d|]; [|by apply elem_of_nil in Hin].
        apply list_elem_of_singleton in Hin as ->. by rewrite lookup_insert_eq.
      * exfalso. apply list_elem_of_In, List.filter_In in Hin as [Hin Hl]. apply Hn. by rewrite list_elem_of_In.
      * destruct (get_scope_dek r scope) as [d|]; [|done]. rewrite lookup_insert_ne; [done|].
        intros [= <- <-]. apply Hn'. split; [done|]. apply elem_of_app. left. by left.
Qed.

Section Destruction.
Context {S : Type} `{TombstoneLaws S}.

Lemma persist_all_spec (scope : uuid) ts s :
  let '(s', res) := persist_all scope ts s in
  (forall x, scope_recorded s' x <-> scope_recorded s x) /\
  (forall k, epoch_recorded s k -> epoch_recorded s' k) /\
  (res = Ok tt -> forall e, e ∈ ts.*1 -> epoch_recorded s' (scope, e)).
Proof.
  revert s. induction ts as [|[e at_] ts IH]; intros s; cbn.
  - split_and!; [done..|]. by intros _ e ?%elem_of_nil.
  - unfold try_eff. destruct (persist_tombstone scope e at_ s) as [s1 r1] eqn:E1.
    apply persist_tombstone_law in E1 as [Hs1 He1]. destruct r1 as [[]|err].
    + specialize (IH s1). destruct (persist_all scope ts s1) as [s' res]. destruct IH as (Hs & Hmono & Hall).
      split; [intros x; by rewrite Hs, Hs1|]. split.
      * intros k Hk. apply Hmono, He1. by left.
      * intros Hres e' [->|Hin]%elem_of_cons; [apply Hmono, He1; by right|by apply Hall].
    + split; [done|]. split; [|done]. intros k Hk. apply He1. by left.
Qed.

(** What the store gains from the end of [destroy_scope_dek]. *)
Definition recorded_after (scope : uuid) (r : DekRegistry) (ok : bool) (store store' : option S) : Prop :=
  match store, store' with
  | None, None => ok = true
  | Some s, Some s' =>
      (forall x, scope_recorded s x -> scope_recorded s' x) /\
      (forall k, epoch_recorded s k -> epoch_recorded s' k) /\
      (ok = true -> scope_recorded s' scope /\
         forall e, is_epoch_forgotten r scope e = true -> epoch_recorded s' (scope, e))
  | _, _ => False
  end.

Lemma persist_scope_spec (scope : uuid) now r store :
  let '(store', res) := with_store store
    (do? _ := persist_all scope (entries_of scope (tombstones r)) in persist_forgotten_scope scope now) in
  recorded_after scope r (is_ok res) store store'.
Proof.
  unfold with_store. destruct store as [s|]; [|done]. unfold try_eff.
  pose proof (persist_all_spec scope (entries_of scope (tombstones r)) s) as Hp.
  destruct (persist_all _ _ s) as [s1 res1]. destruct Hp as (Hs1 & Hmono & Hall).
  destruct res1 as [[]|err]; [|split; [intros x; by apply Hs1|by split]].
  destruct (persist_forgotten_scope scope now s1) as [s2 res2] eqn:E2.
  apply persist_forgotten_scope_law in E2 as [He2 Hs2]. split; [|split].
  - intros x Hx. apply Hs2. left. by apply Hs1.
  - intros k Hk. by apply He2, Hmono.
  - intros Hok. split; [apply Hs2; by right|]. intros e Hfe. apply He2.
    apply Hall; [done|]. apply bool_decide_eq_true in Hfe as [at_ Hat]. apply list_elem_of_fmap.
    exists (e, at_). by rewrite elem_of_entries_of.
Qed.

(** Everything the registry holds of another scope. *)
Definition same_scope (r r' : DekRegistry) (scope : uuid) : Prop :=
  scope_deks r' !! scope = scope_deks r !! scope /\
  forgotten_scopes r' !! scope = forgotten_scopes r !! scope /\
  (forall e, epoch_deks r' !! (scope, e) = epoch_deks r !! (scope, e)) /\
  (forall e, tombstones r' !! (scope, e) = tombstones r !! (scope, e)).

(** Destroying a scope is final, complete and recorded.  Whatever the tombstone
    store does, no key of the scope is left in the registry, the scope is forgotten,
    every key that was live has its tombstone, older tombstones stay, and no other
    scope changes.  On success there is one event for each key that was live, the
    scope's first, and, with a store, the scope and all of its tombstones, those of
    earlier calls included, are on record.  A failure of the store is returned; it
    loses nothing on record.  And a second call does nothing whatsoever, so a failed
    write is not made up for by calling again. *)
Theorem scope_destroyed r (scope : uuid) now (store : option S) :
  is_scope_forgotten r scope = false ->
  let '(r', store', res) := destroy_scope_dek r scope now store in
  is_scope_forgotten r' scope = true /\
  get_scope_dek r' scope = None /\ (forall e, get_epoch_dek r' scope e = None) /\ epoch_count r' scope = 0%nat /\
  (forall e, is_epoch_forgotten r' scope e = is_epoch_forgotten r scope e || bool_decide (e ∈ wiped_epochs r scope)) /\
  (forall scope', scope' <> scope -> same_scope r r' scope') /\
  (forall events, res = Ok events -> events = wide_event scope now <$> wiped_epochs r scope) /\
  recorded_after scope r' (is_ok res) store store' /\
  (forall now' (again : option S), destroy_scope_dek r' scope now' again = (r', again, Ok [])).
Proof.
  intros Hnf. unfold destroy_scope_dek at 1. rewrite Hnf. pose proof (destroy_scope_keys_spec scope now r) as Hk.
  destruct (destroy_scope_keys scope now r) as [r' events]. destruct Hk as (-> & Hs & Hf & Hd & Ht).
  pose proof (persist_scope_spec scope now r' store) as Hrec. destruct (with_store store _) as [store' res].
  assert (Hforg : is_scope_forgotten r' scope = true).
  { unfold is_scope_forgotten. rewrite Hf, lookup_insert_eq. by apply bool_decide_true. }
  assert (Hnone : forall e, epoch_deks r' !! (scope, e) = None) by (intros e; by rewrite Hd, decide_True).
  split; [done|]. split; [unfold get_scope_dek; by rewrite Hs, lookup_delete_eq|].
  split; [intros e; unfold get_epoch_dek; by rewrite Hnone|].
  split; [|split; [|split; [|split; [|split]]]].
  - unfold epoch_count. destruct (epochs_of scope r') as [|e es] eqn:E; [done|].
    assert (Hin : e ∈ epochs_of scope r') by (rewrite E; by left). apply elem_of_epochs_of in Hin as [x Hx].
    by rewrite Hnone in Hx.
  - intros e. unfold is_epoch_forgotten. rewrite Ht. cbn [fst snd].
    destruct (decide (scope = scope /\ e ∈ wiped_epochs r scope)) as [[_ Hin]|Hn].
    + rewrite (bool_decide_true (e ∈ _)) by done. rewrite orb_true_r. by apply bool_decide_true.
    + rewrite (bool_decide_false (e ∈ _)) by tauto. by rewrite orb_false_r.
  - intros scope' Hne. unfold same_scope. rewrite Hs, Hf, lookup_delete_ne, lookup_insert_ne by done.
    split_and!; [done..| |]; intros e; [rewrite Hd|rewrite Ht]; rewrite decide_False; cbn; naive_solver.
  - intros events. destruct res; cbn; [|done]. by intros [= <-].
  - by destruct res.
  - intros now' again. unfold destroy_scope_dek. by rewrite Hforg.
Qed.
End Destruction.

(** ** Facts about the epoch manager *)

Section Epochs.
Context {K : Type} `{EpochKeySource K}.

(** One step of a process: a call on the manager or a destruction. *)
Inductive step : EpochManager K * DekRegistry -> EpochManager K * DekRegistry -> Prop :=
| step_ensure scope now m r : step (m, r) (ensure_scope scope now m r).1
| step_force scope now m r : step (m, r) (force_rotate scope now m r).1
| step_record scope bytes now now' m r : step (m, r) (record_bytes scope bytes now now' m r).1
| step_tick scope now now' m r : step (m, r) (tick scope now now' m r).1
| step_destroy_scope {S} `{TombstoneStore S} scope now (store : option S) m r :
    step (m, r) (m, (destroy_scope_dek r scope now store).1.1)
| step_destroy_epoch {S} `{TombstoneStore S} scope epoch now (store : option S) m r :
    step (m, r) (m, (destroy_epoch_dek r scope epoch now store).1.1).

(** The epochs of a scope: numbered from 0, the last one current and alone hot. *)
Definition epochs_ok (m : EpochManager K) (scope : uuid) : Prop :=
  (epochs m !! scope = None /\ current m !! scope = None) \/
  exists past last, epochs m !! scope = Some (past ++ [last]) /\
    epoch_id <$> past ++ [last] = N.of_nat <$> seq 0 (length past + 1) /\
    Forall (fun e => cold e = true) past /\ cold last = false /\
    current m !! scope = Some (epoch_id last) /\ (N.of_nat (length past) <= u64_max)%N.
(** Every epoch a manager knows has its key, or a tombstone. *)
Definition keys_ok (m : EpochManager K) (r : DekRegistry) : Prop :=
  forall scope e, e ∈ epoch_id <$> list_epochs m scope ->
    is_Some (get_epoch_dek r scope e) \/ is_epoch_forgotten r scope e = true.
Definition manager_ok (st : EpochManager K * DekRegistry) : Prop :=
  (forall scope, epochs_ok st.1 scope) /\ keys_ok st.1 st.2.

Lemma ids_last past (last : EpochInfo) :
  epoch_id <$> past ++ [last] = N.of_nat <$> seq 0 (length past + 1) -> epoch_id last = N.of_nat (length past).
Proof.
  rewrite seq_app, !fmap_app. intros Heq. apply app_inj_2 in Heq as [_ Hl]; [|done]. cbn in Hl. by injection Hl.
Qed.

Lemma last_hot_snoc past last : cold last = false -> last_hot (past ++ [last]) = Some last.
Proof. intros Hc. unfold last_hot. rewrite rev_app_distr. cbn. unfold hot at 1. by rewrite Hc. Qed.

Lemma update_last_hot_snoc f past last :
  cold last = false -> update_last_hot f (past ++ [last]) = Some (past ++ [f last]).
Proof. intros Hc. induction past as [|e past IH]; cbn; [unfold hot; by rewrite Hc|by rewrite IH]. Qed.

Lemma find_hot_snoc past last :
  Forall (fun e => cold e = true) past -> cold last = false -> List.find hot (past ++ [last]) = Some last.
Proof. intros Hp Hc. induction Hp as [|e past He _ IH]; cbn; [unfold hot; by rewrite Hc|unfold hot at 1; by rewrite He]. Qed.

Lemma epochs_ok_list (m : EpochManager K) scope : epochs_ok m scope ->
  (epochs m !! scope = None /\ list_epochs m scope = [] /\ current_epoch m scope = None) \/
  exists past last, epochs m !! scope = Some (past ++ [last]) /\ list_epochs m scope = past ++ [last] /\
    epoch_id <$> past ++ [last] = N.of_nat <$> seq 0 (length past + 1) /\
    Forall (fun e => cold e = true) past /\ cold last = false /\
    current_epoch m scope = Some (N.of_nat (length past)) /\ (N.of_nat (length past) <= u64_max)%N.
Proof.
  unfold list_epochs, current_epoch. intros [[-> ->]|(past & last & -> & Hids & Hp & Hl & -> & Hb)]; [by left|right].
  exists past, last. rewrite (ids_last past last Hids) in *. by split_and!.
Qed.

(** What a new epoch [e] of [scope] changes. *)
Definition started (scope : uuid) (e : N) (now : instant) (m m' : EpochManager K) (r r' : DekRegistry) : Prop :=
  epochs m' = <[scope := (chill <$> list_epochs m scope) ++ [mk_info e now 0 false]]> (epochs m) /\
  current m' = <[scope := e]> (current m) /\ policy m' = policy m /\
  r' = insert_epoch_dek (new_epoch_dek now scope e (derive scope e (key_source m)).2) r.

Lemma chill_cold l : Forall (fun e => cold e = true) l -> chill <$> l = l.
Proof. induction 1 as [|[e t b c] l Hc _ IH]; [done|]. cbn in *. by rewrite IH, Hc. Qed.

Lemma started_ok scope e now (m m' : EpochManager K) r r' :
  started scope e now m m' r r' -> (forall s, epochs_ok m s) ->
  e = N.of_nat (length (list_epochs m scope)) -> (e <= u64_max)%N -> forall s, epochs_ok m' s.
Proof.
  intros (He & Hc & _) Hok Hlen Hb s. unfold epochs_ok. rewrite He, Hc.
  destruct (decide (scope = s)) as [<-|Hne]; [|rewrite !lookup_insert_ne by done; apply Hok].
  rewrite !lookup_insert_eq. right. exists (chill <$> list_epochs m scope), (mk_info e now 0 false).
  rewrite length_fmap. split_and!; [done| |by apply Forall_fmap, Forall_true|done|done|lia].
  assert (Hids : epoch_id <$> list_epochs m scope = N.of_nat <$> seq 0 (length (list_epochs m scope))).
  { destruct (epochs_ok_list m scope (Hok scope)) as [(_ & Hl & _)|(past & last & _ & Hl & Hids & _)];
      rewrite Hl; [done|]. by rewrite Hids, length_app. }
  rewrite fmap_app, <- list_fmap_compose, seq_app, fmap_app. cbn. rewrite <- Hlen. f_equal. exact Hids.
Qed.

Lemma started_keys scope e now (m m' : EpochManager K) r r' :
  started scope e now m m' r r' -> keys_ok m r -> keys_ok m' r'.
Proof.
  intros (He & _ & _ & ->) Hk s e' Hin. unfold get_epoch_dek, is_epoch_forgotten. cbn.
  destruct (decide ((scope, e) = (s, e'))) as [[= <- <-]|Hne]; [left; rewrite lookup_insert_eq; by eexists|].
  rewrite lookup_insert_ne by done. apply Hk. unfold list_epochs in Hin. rewrite He in Hin.
  destruct (decide (scope = s)) as [<-|Hs]; [|by rewrite lookup_insert_ne in Hin].
  rewrite lookup_insert_eq in Hin. cbn in Hin. rewrite fmap_app, <- list_fmap_compose in Hin.
  apply elem_of_app in Hin as [Hin|Hin]; [exact Hin|]. by apply list_elem_of_singleton in Hin as ->.
Qed.

Lemma epoch_rotate_spec scope now (m : EpochManager K) r :
  (forall s, epochs_ok m s) ->
  let '(m', r', res) := rotate scope now m r in
  match res with
  | Ok e => e = N.of_nat (length (list_epochs m scope)) /\ (e <= u64_max)%N /\ started scope e now m m' r r'
  | Err err => err = EpochOverflow /\ m' = m /\ r' = r /\ current_epoch m scope = Some u64_max
  end.
Proof.
  intros Hok. unfold rotate.
  destruct (epochs_ok_list m scope (Hok scope)) as [(He & Hl & Hc)|(past & last & He & Hl & _ & _ & _ & Hc & Hb)];
    rewrite Hc, He.
  - unfold start_epoch, started. destruct (derive _ _ _) as [src key] eqn:Ed. cbn in *. rewrite Hl.
    unfold list_epochs at 1. cbn. rewrite He. by split_and!.
  - unfold epoch_next. destruct (N.ltb_spec (N.of_nat (length past)) u64_max) as [Hlt|Hge].
    + unfold start_epoch, started. destruct (derive _ _ _) as [src key] eqn:Ed. cbn in *.
      rewrite Hl, insert_insert_eq. unfold list_epochs. cbn. rewrite lookup_insert_eq, length_app. cbn.
      split_and!; [lia|lia|done..].
    + split_and!; [done..|]. f_equal. lia.
Qed.

Lemma ensure_scope_spec scope now (m : EpochManager K) r :
  (forall s, epochs_ok m s) ->
  let '(m', r', info) := ensure_scope scope now m r in
  last (list_epochs m' scope) = Some info /\
  if decide (list_epochs m scope = []) then started scope 0 now m m' r r' else m' = m /\ r' = r.
Proof.
  intros Hok. unfold ensure_scope.
  destruct (epochs_ok_list m scope (Hok scope)) as [(He & Hl & Hc)|(past & lst & He & Hl & _ & Hp & Hlast & _)]; rewrite Hl.
  - unfold start_epoch, started. destruct (derive _ _ _) as [src key] eqn:Ed. unfold epoch_zero in *. cbv beta iota. case_decide as Hn; [|done].
    unfold list_epochs. cbn. rewrite lookup_insert_eq, He. by split_and!.
  - rewrite find_hot_snoc by done. cbv beta iota. case_decide as Hn; [by destruct past|]. by rewrite Hl, last_snoc.
Qed.

(** The manager after [record_bytes] has counted the bytes. *)
Definition charged (scope : uuid) (bytes : N) (m : EpochManager K) : EpochManager K :=
  match update_last_hot (charge bytes) (list_epochs m scope) with
  | Some infos => mk_manager (policy m) (<[scope := infos]> (epochs m)) (current m) (key_source m)
  | None => m
  end.

Lemma charged_spec scope bytes m :
  (forall s, epochs_ok m s) ->
  (forall s, epochs_ok (charged scope bytes m) s) /\
  (forall s, epoch_id <$> list_epochs (charged scope bytes m) s = epoch_id <$> list_epochs m s) /\
  current (charged scope bytes m) = current m /\ policy (charged scope bytes m) = policy m /\
  last (list_epochs (charged scope bytes m) scope) = charge bytes <$> last (list_epochs m scope) /\
  last_hot (list_epochs m scope) = last (list_epochs m scope).
Proof.
  intros Hok. unfold charged.
  destruct (epochs_ok_list m scope (Hok scope)) as [(He & Hl & Hc)|(past & lst & He & Hl & Hids & Hp & Hlast & Hc & Hb)]; rewrite Hl.
  - cbn [update_last_hot]. rewrite Hl. by split_and!.
  - rewrite update_last_hot_snoc, last_hot_snoc by done. unfold list_epochs. cbn [epochs current policy].
    assert (Hids' : epoch_id <$> past ++ [charge bytes lst] = epoch_id <$> past ++ [lst]) by (by rewrite !fmap_app).
    split_and!; [| |done..| |by rewrite last_snoc].
    + intros s. destruct (decide (scope = s)) as [<-|Hne].
      * right. exists past, (charge bytes lst). cbn. rewrite lookup_insert_eq, Hids'. split_and!; try done.
        unfold current_epoch in Hc. by rewrite Hc, (ids_last past lst Hids).
      * destruct (Hok s) as [Hn|Hs]; [left|right]; cbn; by rewrite lookup_insert_ne.
    + intros s. destruct (decide (scope = s)) as [<-|Hne]; [|by rewrite lookup_insert_ne].
      rewrite lookup_insert_eq, He. cbn. done.
    + rewrite lookup_insert_eq. cbn. by rewrite !last_snoc.
Qed.

(** The rotation a call leads to. *)
Definition wants (p : EpochRotationPolicy) (now : instant) (e : EpochInfo) : option EpochRotationTrigger :=
  if (max_epoch_size_bytes p <=? bytes_encrypted e)%N then Some SizeExceeded
  else if too_old p now e then Some TimeElapsed else None.

Lemma record_bytes_unfold scope bytes now now' m r :
  (forall s, epochs_ok m s) ->
  record_bytes scope bytes now now' m r =
  match last (list_epochs m scope) with
  | None => (m, r, Ok None)
  | Some e =>
      match wants (policy m) now (charge bytes e) with
      | None => (charged scope bytes m, r, Ok None)
      | Some t => let '(m', r', res) := rotate scope now' (charged scope bytes m) r in
                  (m', r', result_map (fun _ => Some t) res)
      end
  end.
Proof.
  intros Hok. destruct (charged_spec scope bytes m Hok) as (_ & _ & _ & Hp & _ & Hlast).
  unfold record_bytes. rewrite Hlast. fold (charged scope bytes m). rewrite Hp.
  destruct (last (list_epochs m scope)) as [e|]; [|done]. reflexivity.
Qed.

(** The in-memory part of a destruction does not depend on the store. *)
Lemma destroy_scope_registry {S} `{TombstoneStore S} r (scope : uuid) now (store : option S) :
  (destroy_scope_dek r scope now store).1.1
  = if is_scope_forgotten r scope then r else (destroy_scope_keys scope now r).1.
Proof.
  unfold destroy_scope_dek. destruct (is_scope_forgotten r scope); [done|].
  destruct (destroy_scope_keys scope now r). by destruct (with_store store _).
Qed.
Lemma destroy_epoch_registry {S} `{TombstoneStore S} r (scope : uuid) epoch now (store : option S) :
  (destroy_epoch_dek r scope epoch now store).1.1
  = if is_epoch_forgotten r scope epoch then r
    else mk_registry (scope_deks r) (delete (scope, epoch) (epoch_deks r)) (<[(scope, epoch) := now]> (tombstones r))
           (forgotten_scopes r).
Proof.
  unfold destroy_epoch_dek. destruct (is_epoch_forgotten r scope epoch); [done|].
  destruct (epoch_deks r !! (scope, epoch)) eqn:Ed; destruct (with_store store _); [done|].
  cbn. by rewrite delete_id.
Qed.

Lemma epoch_rotate_ok scope now m r : manager_ok (m, r) -> manager_ok (rotate scope now m r).1.
Proof.
  intros [Hok Hk]. cbn in *. pose proof (epoch_rotate_spec scope now m r Hok) as Hr.
  destruct (rotate scope now m r) as [[m' r'] [e|err]]; [destruct Hr as (He & Hb & Hs)|by destruct Hr as (_ & -> & -> & _)].
  split; cbn; [by eapply started_ok|by eapply started_keys].
Qed.

(** A destruction leaves a tombstone for every key it takes away. *)
Lemma live_or_forgotten_scope r (scope : uuid) now s e :
  is_Some (get_epoch_dek r s e) \/ is_epoch_forgotten r s e = true ->
  is_Some (get_epoch_dek (destroy_scope_keys scope now r).1 s e) \/
  is_epoch_forgotten (destroy_scope_keys scope now r).1 s e = true.
Proof.
  pose proof (destroy_scope_keys_spec scope now r) as Hd. destruct (destroy_scope_keys scope now r) as [r' events].
  destruct Hd as (_ & _ & _ & Hd & Ht). cbn [fst]. unfold is_epoch_forgotten, get_epoch_dek at 2. rewrite Hd, Ht. cbn [fst snd].
  destruct (decide (s = scope)) as [->|Hne].
  - intros Hl. right. case_decide as Hw; [by apply bool_decide_true|].
    destruct Hl as [[d Hd']|Hf]; [|exact Hf]. exfalso. apply Hw. split; [done|]. apply elem_of_app. right.
    apply list_elem_of_In, List.filter_In. rewrite <- list_elem_of_In, elem_of_epochs_of. unfold live_epoch. rewrite Hd'.
    split; [|done]. unfold get_epoch_dek in Hd'. by destruct (epoch_deks r !! (scope, e)).
  - rewrite (decide_False (P := s = scope /\ _)) by tauto. done.
Qed.

Lemma step_ok x y : step x y -> manager_ok x -> manager_ok y.
Proof.
  intros Hst. destruct Hst as [scope now m r|scope now m r|scope bytes now now' m r|scope now now' m r
    |S TS scope now store m r|S TS scope epoch now store m r]; intros [Hok Hk]; cbn in *.
  - pose proof (ensure_scope_spec scope now m r Hok) as Hs. destruct (ensure_scope scope now m r) as [[m' r'] info].
    destruct Hs as [_ Hs]. case_decide as Hl; [|by destruct Hs as [-> ->]].
    split; cbn; [eapply started_ok; [exact Hs|done|by rewrite Hl|done]|by eapply started_keys].
  - unfold force_rotate. pose proof (epoch_rotate_ok scope now m r (conj Hok Hk)) as Hr. by destruct (rotate scope now m r) as [[m' r'] res].
  - rewrite record_bytes_unfold by done. destruct (charged_spec scope bytes m Hok) as (Hok' & Hids & _).
    assert (Hk' : keys_ok (charged scope bytes m) r) by (intros s e Hin; apply Hk; by rewrite <- Hids).
    destruct (last _) as [e|]; [|done]. destruct (wants _ _ _) as [t|]; [|done].
    pose proof (epoch_rotate_ok scope now' _ r (conj Hok' Hk')) as Hr. by destruct (rotate scope now' _ r) as [[m' r'] res].
  - unfold tick. destruct (last_hot _) as [e|]; [|done]. destruct (too_old _ _ _); [|done].
    pose proof (epoch_rotate_ok scope now' m r (conj Hok Hk)) as Hr. by destruct (rotate scope now' m r) as [[m' r'] res].
  - split; [done|]. intros s e Hin. cbn. rewrite destroy_scope_registry. destruct (is_scope_forgotten r scope); [by apply Hk|].
    by apply live_or_forgotten_scope, Hk.
  - split; [done|]. intros s e Hin. cbn. rewrite destroy_epoch_registry. destruct (is_epoch_forgotten r scope epoch); [by apply Hk|].
    unfold get_epoch_dek, is_epoch_forgotten. cbn. destruct (decide ((scope, epoch) = (s, e))) as [[= <- <-]|Hne].
    + right. rewrite lookup_insert_eq. by apply bool_decide_true.
    + rewrite lookup_delete_ne, lookup_insert_ne by done. by apply Hk.
Qed.

Lemma manager_ok_reachable p k st : rtc step (new_manager p k, new_registry) st -> manager_ok st.
Proof.
  intros Hr. eapply (rtc_preserves step manager_ok); [intros x y; apply step_ok|exact Hr|].
  split; [by left|]. intros s e Hin. unfold list_epochs in Hin. cbn in Hin. by apply elem_of_nil in Hin.
Qed.

Lemma epochs_shape m scope : epochs_ok m scope ->
  epoch_id <$> list_epochs m scope = N.of_nat <$> seq 0 (length (list_epochs m scope)) /\
  current_epoch m scope = epoch_id <$> last (list_epochs m scope) /\
  (forall i e, list_epochs m scope !! i = Some e -> cold e = negb (S i =? length (list_epochs m scope))%nat).
Proof.
  intros Hok. destruct (epochs_ok_list m scope Hok) as [(_ & -> & ->)|(past & lst & _ & -> & Hids & Hp & Hlast & -> & _)]; [done|].
  rewrite last_snoc, length_app. cbn [length]. split_and!; [done|cbn; by rewrite (ids_last past lst Hids)|].
  intros i e [Hi|[Hi Hx]]%lookup_app_Some.
  - rewrite Forall_lookup in Hp. rewrite (Hp i e Hi). apply lookup_lt_Some in Hi. symmetry.
    apply negb_true_iff, Nat.eqb_neq. lia.
  - apply list_lookup_singleton_Some in Hx as [Hx <-]. rewrite Hlast. symmetry. apply negb_false_iff, Nat.eqb_eq. lia.
Qed.

Lemma wants_none pol now e : wants pol now e = None ->
  (bytes_encrypted e < max_epoch_size_bytes pol)%N /\ (now - started_at e < max_epoch_duration pol)%Z.
Proof.
  unfold wants, too_old. destruct (N.leb_spec (max_epoch_size_bytes pol) (bytes_encrypted e)); [done|].
  by destruct (Z.leb_spec (max_epoch_duration pol) (now - started_at e)).
Qed.

(** Epoch numbers only grow and no key is overwritten.  In every state a process
    reaches by calls on the manager and destructions, the epochs of a scope are
    numbered from 0 without gaps, exactly the last one is hot and current, and each
    has its key in the registry or a tombstone.  A rotation opens the next number,
    never one that had a key, registers a fresh key for it, touches no other key and
    is refused exactly at [u64::MAX], changing nothing.  Bytes are accounted to the
    current epoch; when an answer is [Ok] the current epoch is within the policy's
    budget and age or the rotation it needed has happened; on overflow the bytes stay
    counted. *)
Theorem epochs_never_reused p k m r (scope : uuid) :
  rtc step (new_manager p k, new_registry) (m, r) ->
  epoch_id <$> list_epochs m scope = N.of_nat <$> seq 0 (length (list_epochs m scope)) /\
  current_epoch m scope = epoch_id <$> last (list_epochs m scope) /\
  (forall i e, list_epochs m scope !! i = Some e -> cold e = negb (S i =? length (list_epochs m scope))%nat) /\
  keys_ok m r /\
  (forall now, let '(m', r', res) := force_rotate scope now m r in
     match res with
     | Ok (e, t) => t = PolicyForced /\ e = N.of_nat (length (list_epochs m scope)) /\ (e <= u64_max)%N /\
                    started scope e now m m' r r' /\ (forall key, key <> (scope, e) -> epoch_deks r' !! key = epoch_deks r !! key)
     | Err err => err = EpochOverflow /\ m' = m /\ r' = r /\ current_epoch m scope = Some u64_max
     end) /\
  (forall bytes now now' e, last (list_epochs m scope) = Some e ->
     let '(m', r', res) := record_bytes scope bytes now now' m r in
     match res with
     | Ok None => r' = r /\ last (list_epochs m' scope) = Some (charge bytes e) /\
                  (bytes_encrypted (charge bytes e) < max_epoch_size_bytes (policy m))%N /\
                  (now - started_at e < max_epoch_duration (policy m))%Z
     | Ok (Some t) => wants (policy m) now (charge bytes e) = Some t /\
                      last (list_epochs m' scope) = Some (mk_info (epoch_id e + 1) now' 0 false)
     | Err err => err = EpochOverflow /\ r' = r /\ epoch_id e = u64_max /\
                  last (list_epochs m' scope) = Some (charge bytes e)
     end).
Proof.
  intros [Hok Hk]%manager_ok_reachable. cbn [fst snd] in *.
  destruct (epochs_shape m scope (Hok scope)) as (Hids & Hcur & Hcold). do 4 (split; [done|]). split.
  - intros now. unfold force_rotate. pose proof (epoch_rotate_spec scope now m r Hok) as Hr.
    destruct (rotate scope now m r) as [[m' r'] [e|err]]; cbn [result_map]; [|done].
    destruct Hr as (He & Hb & Hs). split_and!; try done; try apply Hs. intros key Hne. destruct Hs as (_ & _ & _ & ->).
    cbn. by rewrite lookup_insert_ne.
  - intros bytes now now' e Hlast. rewrite record_bytes_unfold, Hlast by done.
    destruct (charged_spec scope bytes m Hok) as (Hok' & Hids' & Hcur' & Hpol & Hlast' & _). rewrite Hlast in Hlast'.
    destruct (wants (policy m) now (charge bytes e)) as [t|] eqn:Ew.
    + pose proof (epoch_rotate_spec scope now' _ r Hok') as Hr. destruct (rotate scope now' _ r) as [[m' r'] [e'|err]]; cbn [result_map].
      * split; [done|]. destruct Hr as (He & _ & (Hep & _)). unfold list_epochs at 1. rewrite Hep, lookup_insert_eq. cbn [from_option].
        unfold id. rewrite last_snoc. do 2 f_equal. rewrite He. destruct (epochs_shape _ scope (Hok' scope)) as (Hids2 & _ & _).
        apply (f_equal last) in Hids2. rewrite !fmap_last, Hlast' in Hids2.
        destruct (length (list_epochs (charged scope bytes m) scope)) as [|n]; [done|].
        rewrite seq_S, last_snoc in Hids2. cbn in Hids2. injection Hids2 as ->. lia.
      * destruct Hr as (-> & -> & -> & Hc). split_and!; [done..| |exact Hlast'].
        unfold current_epoch in Hc, Hcur. rewrite Hcur', Hcur, Hlast in Hc. by injection Hc.
    + split_and!; [done|exact Hlast'|apply (wants_none _ _ _ Ew)..].
Qed.
End Epochs.

(** ** Instances to run *)

(** A tombstone store that keeps the two tables and may refuse to write. *)
Record Tables : Type := mk_tables { t_epochs : gset (uuid * N); t_scopes : gset uuid; t_broken : bool }.
#[export] Instance tables_store : TombstoneStore Tables := {
  persist_tombstone scope epoch _ t :=
    if t_broken t then (t, Err (TombstonePersistence "disk full"))
    else (mk_tables ({[(scope, epoch)]} ∪ t_epochs t) (t_scopes t) false, Ok tt);
  persist_forgotten_scope scope _ t :=
    if t_broken t then (t, Err (TombstonePersistence "disk full"))
    else (mk_tables (t_epochs t) ({[scope]} ∪ t_scopes t) false, Ok tt);
  load_tombstones t := (t, Ok ((fun k => (k, 0%Z)) <$> elements (t_epochs t)));
  load_forgotten_scopes t := (t, Ok ((fun s => (s, 0%Z)) <$> elements (t_scopes t)))
}.
#[export] Instance tables_laws : TombstoneLaws Tables.
Proof.
  refine {| epoch_recorded t k := k ∈ t_epochs t; scope_recorded t x := x ∈ t_scopes t |}.
  - intros scope epoch at_ s s' r. cbn. destruct (t_broken s); intros [= <- <-]; cbn; set_solver.
  - intros scope at_ s s' r. cbn. destruct (t_broken s); intros [= <- <-]; cbn; set_solver.
Defined.

(** Keys that name their scope and epoch. *)
#[export] Instance counter_source : EpochKeySource unit := { derive scope epoch s := (s, [scope; epoch]) }.

(** A scope with a key of its own and two epochs, one of them destroyed before. *)
Definition demo_keys : DekRegistry :=
  mk_registry {[7%N := new_scope_dek 0 7 3 [1%N]]} {[(7%N, 0%N) := new_epoch_dek 0 7 0 [2%N]; (8%N, 0%N) := new_epoch_dek 0 8 0 [3%N]]}
    {[(7%N, 5%N) := 1%Z]} ∅.

Lemma scope_destroyed_witness :
  let '(r', store', res) := destroy_scope_dek demo_keys 7 9 (Some (mk_tables ∅ ∅ false)) in
  get_scope_dek r' 7 = None /\ res = Ok [wide_event 7 9 3; wide_event 7 9 0] /\
  from_option (fun s => epoch_recorded s (7%N, 5%N)) False store' /\ destroy_scope_dek r' 7 10 store' = (r', store', Ok []).
Proof.
  pose proof (scope_destroyed demo_keys 7 9 (Some (mk_tables ∅ ∅ false)) eq_refl) as Hd.
  assert (Hres : (destroy_scope_dek demo_keys 7 9 (Some (mk_tables ∅ ∅ false))).2 = Ok [wide_event 7 9 3; wide_event 7 9 0])
    by (vm_compute; reflexivity).
  destruct (destroy_scope_dek demo_keys 7 9 (Some (mk_tables ∅ ∅ false))) as [[r' store'] res]. cbn [snd] in Hres. subst res.
  destruct Hd as (_ & Hs & _ & _ & Hf & _ & _ & Hrec & Hagain). split; [done|]. split; [done|]. split; [|apply Hagain].
  destruct store' as [s'|]; [|done]. cbn. apply Hrec; [done|]. rewrite Hf. vm_compute. reflexivity.
Defined.

(** A first epoch, then a rotation because of its size. *)
Lemma epochs_never_reused_witness :
  let p := mk_policy 1000 10 in
  let st := (ensure_scope 7 1 (new_manager p tt) new_registry).1 in
  epoch_id <$> list_epochs st.1 7 = [0%N] /\
  let '(m', r', res) := record_bytes 7 12 2 3 st.1 st.2 in
  res = Ok (Some SizeExceeded) /\ last (list_epochs m' 7) = Some (mk_info 1 3 0 false).
Proof.
  intros p st. assert (Hrun : rtc step (new_manager p tt, new_registry) (st.1, st.2)) by (apply rtc_once; rewrite <- surjective_pairing; apply step_ensure).
  pose proof (epochs_never_reused p tt st.1 st.2 7 Hrun) as (Hids & _ & _ & _ & _ & Hbytes).
  assert (Hl : list_epochs st.1 7 = [mk_info 0 1 0 false]) by (vm_compute; reflexivity).
  split; [by rewrite Hl|]. specialize (Hbytes 12%N 2%Z 3%Z (mk_info 0 1 0 false)). rewrite Hl in Hbytes. specialize (Hbytes eq_refl).
  assert (Hres : (record_bytes 7 12 2 3 st.1 st.2).2 = Ok (Some SizeExceeded)) by (vm_compute; reflexivity).
  destruct (record_bytes 7 12 2 3 st.1 st.2) as [[m' r'] res]. cbn [snd] in Hres. subst res. split; [done|]. by destruct Hbytes as [_ ->].
Defined.

(** Rotation gives a forgotten scope a live key again: neither the manager nor
    [insert_epoch_dek] looks at the tombstones. *)
Example rotation_revives_a_forgotten_scope :
  let '(m, r, _) := ensure_scope 7 1 (new_manager default_policy tt) new_registry in
  let '(r, _, _) := destroy_scope_dek (S := Tables) r 7 2 None in
  let '(_, r, _) := force_rotate 7 3 m r in
  is_scope_forgotten r 7 = true /\ get_epoch_dek r 7 1 = Some (new_epoch_dek 3 7 1 [7%N; 1%N]).
Proof. vm_compute. split; reflexivity. Qed.

(** The key of the epoch before stays live when an epoch is rotated out. *)
Example rotation_keeps_the_old_key :
  let '(m, r, _) := ensure_scope 7 1 (new_manager default_policy tt) new_registry in
  let '(_, r, _) := force_rotate 7 3 m r in
  get_epoch_dek r 7 0 = Some (new_epoch_dek 1 7 0 [7%N; 0%N]).
Proof. vm_compute. reflexivity. Qed.
