(* ===== verification/ForgetScope.v ===== *)
(** * Forgetting end to end ([evidence_store/src/store.rs], [ffi/src/runtime.rs],
    [ffi/src/lib.rs])

    The keys of the scopes as the evidence store wraps and caches them, its tombstone
    tables, and the runtime that joins them with the key registry of [Forgetting]:
    opening a store, registering a scope before it is written to, forgetting it.
    Every SQL statement may fail; a crash in the middle of a call leaves the database
    as if all later statements of the call had failed.  The plaintext-derived tables
    that forgetting also purges are not modelled, only that purging them may fail. *)

From S2P Require Import Prelude Forgetting.

(** ** The evidence store *)

(** [EvidenceError], as far as these operations raise it. *)
Inductive EvidenceError : Type := Sqlite | Schema (msg : string) | CryptoFailed (msg : string).

(** HKDF ([crypto::derive_key]). *)
Definition AEAD_KEY_LEN : nat := 32.
Class Hkdf := {
  derive_key : AeadKey -> list N -> result AeadKey string;
  derive_key_len : forall master label k, derive_key master label = Ok k -> length k = AEAD_KEY_LEN
}.

Definition scope_dek_aad (scope_id : uuid) : list N := string_bytes "scope-dek-wrap:v1" ++ be_bytes 16 scope_id.

Section Store.
Context {Nonce : Type} {AE : Aead (list N) Nonce (list N)} {KDF : Hkdf} {UT : UuidText}.

(** Rows of [scope_deks]; the tables [scope_deks], [forgotten_scopes] and
    [epoch_tombstones], and the scopes that own a row of [evidence]. *)
Record DekRow : Type := mk_dek_row { wrapped_dek : list N; dek_nonce : Nonce; dek_created_at : Z }.
Record Database : Type := mk_db {
  scope_dek_rows : gmap uuid DekRow;
  forgotten_rows : gmap uuid Z;
  epoch_rows : gmap (uuid * Z) Z;
  evidence_scopes : gset uuid
}.
Definition with_dek_rows (db : Database) m := mk_db m (forgotten_rows db) (epoch_rows db) (evidence_scopes db).
Definition with_forgotten_rows (db : Database) m := mk_db (scope_dek_rows db) m (epoch_rows db) (evidence_scopes db).
Definition with_epoch_rows (db : Database) m := mk_db (scope_dek_rows db) (forgotten_rows db) m (evidence_scopes db).
Definition with_evidence (db : Database) m := mk_db (scope_dek_rows db) (forgotten_rows db) (epoch_rows db) m.

(** [struct EvidenceStore]: the connection, the master key, the cache of scope keys.
    [faults] says of the statements to come whether they fail. *)
Record EvidenceStore : Type := mk_store {
  conn : Database;
  master_key : AeadKey;
  scope_keys : gmap uuid AeadKey;
  faults : list bool
}.
Definition with_conn (s : EvidenceStore) db := mk_store db (master_key s) (scope_keys s) (faults s).
Definition with_keys (s : EvidenceStore) m := mk_store (conn s) (master_key s) m (faults s).
Definition with_faults (s : EvidenceStore) f := mk_store (conn s) (master_key s) (scope_keys s) f.

(** One statement: it answers [answer] and changes the database by [change], or
    fails. *)
Definition statement {A} (answer : Database -> A) (change : Database -> Database) : eff EvidenceStore EvidenceError A :=
  fun s =>
    match faults s with
    | true :: fs => (with_faults s fs, Err Sqlite)
    | fs => (with_faults (with_conn s (change (conn s))) (tail fs), Ok (answer (conn s)))
    end.
Definition query {A} (answer : Database -> A) : eff EvidenceStore EvidenceError A := statement answer (fun db => db).
Definition execute (change : Database -> Database) : eff EvidenceStore EvidenceError unit := statement (fun _ => tt) change.
(** A call that touches the store in memory only. *)
Definition modify (f : EvidenceStore -> EvidenceStore) : eff EvidenceStore EvidenceError unit := fun s => (f s, Ok tt).
Definition get {A} (f : EvidenceStore -> A) : eff EvidenceStore EvidenceError A := fun s => (s, Ok (f s)).
Definition lift {A} (r : result A EvidenceError) : eff EvidenceStore EvidenceError A := fun s => (s, r).

(** [INSERT OR IGNORE]. *)
Definition insert_or_ignore `{Countable Q} {A} (k : Q) (v : A) (m : gmap Q A) : gmap Q A :=
  match m !! k with Some _ => m | None => <[k := v]> m end.

(** [record_forgotten_scope_at], [load_forgotten_scopes],
    [load_forgotten_scopes_with_timestamps]. *)
Definition record_forgotten_scope_at (scope_id : uuid) (at_ : Z) : eff EvidenceStore EvidenceError unit :=
  execute (fun db => with_forgotten_rows db (insert_or_ignore scope_id at_ (forgotten_rows db))).
Definition load_forgotten_scopes_with_timestamps : eff EvidenceStore EvidenceError (list (uuid * Z)) :=
  query (fun db => map_to_list (forgotten_rows db)).
Definition load_forgotten_scopes : eff EvidenceStore EvidenceError (list uuid) :=
  query (fun db => (map_to_list (forgotten_rows db)).*1).

(** [record_epoch_tombstone], [load_epoch_tombstones]. *)
Definition record_epoch_tombstone (scope_id : uuid) (epoch_id : N) (at_ : Z) : eff EvidenceStore EvidenceError unit :=
  if (i64_max <? epoch_id)%N then throw (Schema "epoch_id overflows i64 — refusing to persist tombstone")
  else execute (fun db => with_epoch_rows db (insert_or_ignore (scope_id, Z.of_N epoch_id) at_ (epoch_rows db))).
Fixpoint read_epoch_rows (rows : list (uuid * Z * Z)) : result (list (uuid * N * Z)) EvidenceError :=
  match rows with
  | [] => Ok []
  | (scope, e, ts) :: rows =>
      if (e <? 0)%Z then Err (Schema "epoch_tombstones.epoch_id is negative — database corruption")
      else let? out := read_epoch_rows rows in Ok ((scope, Z.to_N e, ts) :: out)
  end.
Definition load_epoch_tombstones : eff EvidenceStore EvidenceError (list (uuid * N * Z)) :=
  do? rows := query (fun db => map_to_list (epoch_rows db)) in lift (read_epoch_rows rows).

(** ** Scope keys *)

(** [dek_wrapping_key]. *)
Definition derived (master : AeadKey) (label : list N) : result AeadKey EvidenceError :=
  match derive_key master label with Ok k => Ok k | Err e => Err (CryptoFailed e) end.
Definition dek_wrapping_key : eff EvidenceStore EvidenceError AeadKey := fun s =>
  (s, derived (master_key s) (string_bytes "scope-dek-wrap:v1")).
Definition body_label (scope_id : uuid) : list N :=
  string_bytes (String.append "scope:" (String.append (uuid_to_string scope_id) ":body:v1")).

(** The random bytes and the time a call may draw. *)
Record Io : Type := mk_io {
  io_nonce : Nonce;
  io_key : AeadKey;
  io_key_len : length io_key = AEAD_KEY_LEN;
  io_now : instant
}.

(** [store_scope_dek]. *)
Definition cache_key (scope_id : uuid) (key : AeadKey) : eff EvidenceStore EvidenceError unit :=
  modify (fun s => with_keys s (<[scope_id := key]> (scope_keys s))).
Definition store_scope_dek (io : Io) (scope_id : uuid) (dek : AeadKey) : eff EvidenceStore EvidenceError unit :=
  do? wrap_key := dek_wrapping_key in
  do? wrapped := lift (ok_or (encrypt_aead wrap_key (io_nonce io) dek (scope_dek_aad scope_id)) (CryptoFailed "aead")) in
  let row := mk_dek_row wrapped (io_nonce io) (io_now io / 1000000000) in
  do? inserted := statement (fun db => bool_decide (scope_dek_rows db !! scope_id = None))
                    (fun db => with_dek_rows db (insert_or_ignore scope_id row (scope_dek_rows db))) in
  if inserted : bool then cache_key scope_id dek else ret tt.

(** One row unwrapped. *)
Definition unwrap_row (wrap_key : AeadKey) (scope : uuid) (row : DekRow) : result AeadKey EvidenceError :=
  match decrypt_aead wrap_key (dek_nonce row) (wrapped_dek row) (scope_dek_aad scope) with
  | None => Err (CryptoFailed "aead")
  | Some plain =>
      if (length plain =? AEAD_KEY_LEN)%nat then Ok plain else Err (Schema "unwrapped scope DEK has wrong length")
  end.

(** [load_scope_deks]. *)
Fixpoint unwrap_rows (wrap_key : AeadKey) (rows : list (uuid * DekRow)) (out : gmap uuid AeadKey) :
    result (gmap uuid AeadKey) EvidenceError :=
  match rows with
  | [] => Ok out
  | (scope, row) :: rows => let? key := unwrap_row wrap_key scope row in unwrap_rows wrap_key rows (<[scope := key]> out)
  end.
Definition load_scope_deks : eff EvidenceStore EvidenceError (gmap uuid AeadKey) :=
  do? wrap_key := dek_wrapping_key in
  do? rows := query (fun db => map_to_list (scope_dek_rows db)) in
  lift (unwrap_rows wrap_key rows ∅).

(** [delete_scope_dek_row], [evict_cached_scope_key], [delete_scope_dek]. *)
Definition delete_scope_dek_row (scope_id : uuid) : eff EvidenceStore EvidenceError unit :=
  execute (fun db => with_dek_rows db (delete scope_id (scope_dek_rows db))).
Definition evict_cached_scope_key (scope_id : uuid) : eff EvidenceStore EvidenceError unit :=
  modify (fun s => with_keys s (delete scope_id (scope_keys s))).
Definition delete_scope_dek (scope_id : uuid) : eff EvidenceStore EvidenceError unit :=
  do? _ := delete_scope_dek_row scope_id in evict_cached_scope_key scope_id.

(** [scope_key], [ensure_scope_dek]. *)
Definition scope_key (scope_id : uuid) : eff EvidenceStore EvidenceError AeadKey :=
  do? cached := get (fun s => scope_keys s !! scope_id) in
  match cached with
  | Some k => ret k
  | None =>
      do? key := (fun s => (s, derived (master_key s) (body_label scope_id))) in
      do? _ := cache_key scope_id key in ret key
  end.
Definition ensure_scope_dek (io : Io) (scope_id : uuid) : eff EvidenceStore EvidenceError AeadKey :=
  do? cached := get (fun s => scope_keys s !! scope_id) in
  match cached with
  | Some k => ret k
  | None =>
      do? wrap_key := dek_wrapping_key in
      do? db_row := query (fun db => scope_dek_rows db !! scope_id) in
      match db_row with
      | Some row =>
          do? key := lift (unwrap_row wrap_key scope_id row) in
          do? _ := cache_key scope_id key in ret key
      | None =>
          do? has_evidence := query (fun db => bool_decide (scope_id ∈ evidence_scopes db)) in
          if has_evidence : bool then
            do? key := (fun s => (s, derived (master_key s) (body_label scope_id))) in
            do? _ := store_scope_dek io scope_id key in ret key
          else
            do? _ := store_scope_dek io scope_id (io_key io) in ret (io_key io)
      end
  end.

(** [EvidenceStore::open], from the hydration of the cache on. *)
Definition open (db : Database) (master : AeadKey) (fs : list bool) : EvidenceStore * result unit EvidenceError :=
  (do? deks := load_scope_deks in modify (fun s => with_keys s (deks ∪ scope_keys s))) (mk_store db master ∅ fs).
End Store.
Arguments Database : clear implicits.
Arguments EvidenceStore : clear implicits.
Arguments Io : clear implicits.
Arguments DekRow : clear implicits.

(** ** The tombstone store of the runtime ([EvidenceStoreTombstoneStore]) *)

(** chrono's [Utc.timestamp_opt(unix, 0).single()]. *)
Class UnixTime := { timestamp_opt : Z -> option instant }.
Definition dt_to_unix (at_ : instant) : Z := at_ / 1000000000.
Definition unix_to_dt `{UnixTime} (now : instant) (unix : Z) : instant := default now (timestamp_opt unix).

Definition describe (e : EvidenceError) : string :=
  match e with Sqlite => "sqlite" | Schema m => m | CryptoFailed m => m end.
(** [.map_err(|e| CryptoError::TombstonePersistence(e.to_string()))]. *)
Definition persistence {S A} (m : eff S EvidenceError A) : eff S CryptoError A := fun s =>
  let '(s, r) := m s in (s, match r with Ok a => Ok a | Err e => Err (TombstonePersistence (describe e)) end).

#[export] Instance evidence_tombstones {Nonce} `{UnixTime} (now : instant) : TombstoneStore (EvidenceStore Nonce) := {
  persist_tombstone scope epoch destroyed_at :=
    persistence (record_epoch_tombstone scope epoch (dt_to_unix destroyed_at));
  persist_forgotten_scope scope destroyed_at :=
    persistence (record_forgotten_scope_at scope (dt_to_unix destroyed_at));
  load_tombstones :=
    do? rows := persistence load_epoch_tombstones in ret ((fun '(s, e, ts) => (s, e, unix_to_dt now ts)) <$> rows);
  load_forgotten_scopes :=
    do? rows := persistence load_forgotten_scopes_with_timestamps in ret ((fun '(s, ts) => (s, unix_to_dt now ts)) <$> rows)
}.

(** ** The runtime *)

(** [FfiError], as far as these calls raise it. *)
Inductive FfiError : Type := Evidence (message : string) | Crypto (message : string) | NotFoundScope | InvalidId (message : string).
Definition evidence_err {S A} (m : eff S EvidenceError A) : eff S FfiError A := fun s =>
  let '(s, r) := m s in (s, match r with Ok a => Ok a | Err e => Err (Evidence (describe e)) end).

Section Runtime.
Context {Nonce : Type} {AE : Aead (list N) Nonce (list N)} {KDF : Hkdf} {UT : UuidText} {UX : UnixTime} {HO : HashOrder}.

(** [struct FfiRuntime], the fields that matter here. *)
Record FfiRuntime : Type := mk_runtime { registry : DekRegistry; store : EvidenceStore Nonce }.
(** A call on the store alone. *)
Definition on_store {A} (m : eff (EvidenceStore Nonce) EvidenceError A) : eff FfiRuntime EvidenceError A := fun rt =>
  let '(s, r) := m (store rt) in (mk_runtime (registry rt) s, r).
(** A statement on tables that are not modelled. *)
Definition elsewhere : eff (EvidenceStore Nonce) EvidenceError unit := execute (fun db => db).

(** *** [open_store] *)

(** Replay of the tombstones into a fresh registry. *)
Definition replay_scopes (now : instant) (scopes : list uuid) : DekRegistry :=
  foldl (fun r scope => (@destroy_scope_dek (EvidenceStore Nonce) (evidence_tombstones now) r scope now None).1.1)
    new_registry scopes.
Definition replay_epochs (now : instant) (tombstones : gset uuid) (rows : list (uuid * N * Z)) (r : DekRegistry) : DekRegistry :=
  foldl (fun r '(scope, epoch, _) =>
           if bool_decide (scope ∈ tombstones) then r
           else (@destroy_epoch_dek (EvidenceStore Nonce) (evidence_tombstones now) r scope epoch now None).1.1) r rows.

(** The purges of the secondary tables, for every tombstone; the first failure ends
    the opening. *)
Fixpoint purge_scopes (scopes : list uuid) : eff (EvidenceStore Nonce) EvidenceError unit :=
  match scopes with
  | [] => ret tt
  | _ :: scopes => do? _ := elsewhere in do? _ := elsewhere in purge_scopes scopes
  end.

(** The keys of the cache enter the registry, except those of forgotten scopes, which
    are evicted and, if the statement works, deleted. *)
Definition adopt_key (now : instant) (acc : DekRegistry * EvidenceStore Nonce) (entry : uuid * AeadKey) :
    DekRegistry * EvidenceStore Nonce :=
  let '(r, s) := acc in
  let '(scope, key) := entry in
  if is_scope_forgotten r scope
  then (r, (delete_scope_dek_row scope (evict_cached_scope_key scope s).1).1)
  else (insert_scope_dek (new_scope_dek now scope epoch_zero key) r, s).

Definition open_store (db : Database Nonce) (master : AeadKey) (fs : list bool) (now : instant) :
    EvidenceStore Nonce * result FfiRuntime FfiError :=
  evidence_err
    (do? _ := (fun _ => open db master fs) in
     do? scopes := load_forgotten_scopes in
     let tombstones : gset uuid := list_to_set scopes in
     let r := replay_scopes now (hash_order (elements tombstones)) in
     do? rows := load_epoch_tombstones in
     let r := replay_epochs now tombstones rows r in
     do? _ := elsewhere in
     do? _ := purge_scopes (hash_order (elements tombstones)) in
     fun s =>
       let '(r, s) := foldl (adopt_key now) (r, s) (hash_order (map_to_list (scope_keys s))) in
       (s, Ok (mk_runtime r s)))
    (mk_store db master ∅ fs).

(** *** Writing to a scope *)

(** [ensure_scope_registered]. *)
Definition ensure_scope_registered (io : Io Nonce) (scope : uuid) : eff FfiRuntime FfiError unit := fun rt =>
  match get_scope_dek (registry rt) scope with
  | Some _ => (rt, Ok tt)
  | None =>
      (do? key := evidence_err (on_store (ensure_scope_dek io scope)) in
       fun rt => (mk_runtime (insert_scope_dek (new_scope_dek (io_now io) scope epoch_zero key) (registry rt)) (store rt),
                  Ok tt)) rt
  end.

(** The beginning of [ingest_message] and of every other call that writes to a scope,
    and the row it ends with. *)
Definition ingest_message (io : Io Nonce) (scope : uuid) : eff FfiRuntime FfiError unit := fun rt =>
  if is_scope_forgotten (registry rt) scope then (rt, Err NotFoundScope)
  else
    (do? _ := ensure_scope_registered io scope in
     evidence_err (on_store (execute (fun db => with_evidence db ({[scope]} ∪ evidence_scopes db))))) rt.

(** [scope_encrypt_key]. *)
Definition encrypt_label (scope : uuid) : list N :=
  string_bytes (String.append "scope:" (String.append (uuid_to_string scope) ":ffi-encrypt:v1")).
Definition scope_encrypt_key (rt : FfiRuntime) (scope : uuid) : result AeadKey FfiError :=
  match get_scope_dek (registry rt) scope with
  | Some dek => ok_or (scope_dek_key dek) (Crypto "scope DEK has been destroyed")
  | None => match derive_key (master_key (store rt)) (encrypt_label scope) with
            | Ok k => Ok k
            | Err e => Err (Crypto e)
            end
  end.

(** *** Forgetting *)

(** [FfiRuntime::forget_scope]. *)
Definition forget_scope (scope : uuid) (now : instant) : eff FfiRuntime FfiError unit := fun rt =>
  let '(r, s, res) :=
    @destroy_scope_dek (EvidenceStore Nonce) (evidence_tombstones now) (registry rt) scope now (Some (store rt)) in
  (mk_runtime r (default (store rt) s),
   match res with Ok _ => Ok tt | Err e => Err (Evidence match e with TombstonePersistence m => m | EpochOverflow => "" end) end).

(** The secondary cleanups: all are attempted, the first error is returned. *)
Fixpoint cleanups (n : nat) (first_error : option EvidenceError) : eff (EvidenceStore Nonce) EvidenceError unit := fun s =>
  match n with
  | O => (s, match first_error with Some e => Err e | None => Ok tt end)
  | S n =>
      let '(s, r) := elsewhere s in
      cleanups n (match first_error, r with Some e, _ => Some e | None, Err e => Some e | None, Ok _ => None end) s
  end.

(** [synthesis_windows_scope] is the nil UUID; [forget_scope_state], the common body
    of [forget] and [forget_scope]. *)
Definition synthesis_windows_scope : uuid := 0%N.
Definition forget_scope_state (scope : uuid) (now : instant) : eff FfiRuntime FfiError unit := fun rt =>
  if (scope =? synthesis_windows_scope)%N
  then (rt, Err (InvalidId "scope_id: nil UUID is reserved as the synthesis-windows sentinel"))
  else
    (do? _ := forget_scope scope now in
     fun rt =>
       let '(rt, _) := on_store (delete_scope_dek scope) rt in
       evidence_err (on_store (cleanups 7 None)) rt) rt.
End Runtime.

(** ** Sessions *)

Section Sessions.
Context {Nonce : Type} {AE : Aead (list N) Nonce (list N)} {KDF : Hkdf} {UT : UuidText} {UX : UnixTime} {HO : HashOrder}.
Context (master : AeadKey).

(** The database at rest, or a process that has it open. *)
Inductive session : Type := Down (db : Database Nonce) | Running (rt : @FfiRuntime Nonce).

(** The outcomes of the statements of the next call. *)
Definition refault (fs : list bool) (rt : @FfiRuntime Nonce) : @FfiRuntime Nonce :=
  mk_runtime (registry rt) (with_faults (store rt) fs).

(** One call, an opening, or the end of the process; [allowed] says which scopes may
    be forgotten. *)
Inductive session_step (allowed : uuid -> Prop) : session -> session -> Prop :=
| do_open db fs now :
    session_step allowed (Down db)
      match open_store db master fs now with (_, Ok rt) => Running rt | (s, Err _) => Down (conn s) end
| do_ingest rt io scope fs :
    session_step allowed (Running rt) (Running (ingest_message io scope (refault fs rt)).1)
| do_forget rt scope now fs :
    allowed scope -> session_step allowed (Running rt) (Running (forget_scope_state scope now (refault fs rt)).1)
| do_close rt : session_step allowed (Running rt) (Down (conn (store rt))).
End Sessions.

(** ** What calls preserve *)

Definition pres {S E A} (P : S -> Prop) (m : eff S E A) : Prop := forall s, P s -> P (m s).1.

Lemma pres_try {S E A B} (P : S -> Prop) (m : eff S E A) (k : A -> eff S E B) :
  pres P m -> (forall a, pres P (k a)) -> pres P (do? a := m in k a).
Proof.
  intros Hm Hk s Hs. unfold try_eff. specialize (Hm s Hs). destruct (m s) as [s' [a|e]]; [by apply Hk|done].
Qed.
Lemma pres_ret {S E A} (P : S -> Prop) (a : A) : pres P (ret a : eff S E A).
Proof. by intros s. Qed.
Lemma pres_throw {S E A} (P : S -> Prop) (e : E) : pres P (throw e : eff S E A).
Proof. by intros s. Qed.
Create HintDb pres.
#[export] Hint Resolve pres_try pres_ret pres_throw : pres.

Section Facts.
Context {Nonce : Type} {AE : Aead (list N) Nonce (list N)} {KDF : Hkdf} {UT : UuidText} {UX : UnixTime} {HO : HashOrder}.
#[local] Abbreviation Store := (EvidenceStore Nonce).
#[local] Abbreviation Db := (Database Nonce).

(** A property of the store that says nothing of the faults to come. *)
Definition about (I : Db -> AeadKey -> gmap uuid AeadKey -> Prop) (s : Store) : Prop :=
  I (conn s) (master_key s) (scope_keys s).

Section Preserved.
Context (I : Db -> AeadKey -> gmap uuid AeadKey -> Prop).

Lemma pres_statement {A} (answer : Db -> A) change :
  (forall db mk ks, I db mk ks -> I (change db) mk ks) -> pres (about I) (statement answer change).
Proof. intros Hc s Hs. unfold statement. by destruct (faults s) as [|[] fs]; [apply Hc| |apply Hc]. Qed.
Lemma pres_query {A} (answer : Db -> A) : pres (about I) (query answer).
Proof. by apply pres_statement. Qed.
Lemma pres_elsewhere : pres (about I) (@elsewhere Nonce).
Proof. by apply pres_statement. Qed.
Lemma pres_modify f : (forall s, about I s -> about I (f s)) -> pres (about I) (modify f).
Proof. intros Hf s. apply Hf. Qed.
Lemma pres_get {A} (f : Store -> A) : pres (about I) (get f).
Proof. by intros s. Qed.
Lemma pres_lift {A} (r : result A EvidenceError) : pres (about I) (@lift Nonce A r).
Proof. by intros s. Qed.
Lemma pres_cleanups n e : pres (about I) (@cleanups Nonce n e).
Proof.
  revert e. induction n as [|n IH]; intros e s Hs; [done|]. cbn [cleanups].
  pose proof (pres_elsewhere s Hs) as He. destruct (elsewhere s) as [s1 r]. by apply IH.
Qed.
Lemma pres_purges scopes : pres (about I) (@purge_scopes Nonce scopes).
Proof.
  induction scopes as [|x scopes IH]; [apply pres_ret|]. cbn [purge_scopes].
  apply pres_try; [apply pres_elsewhere|intros _; apply pres_try; [apply pres_elsewhere|intros _; exact IH]].
Qed.
End Preserved.

Lemma query_spec {A} (answer : Db -> A) (s s' : Store) (r : result A EvidenceError) : query answer s = (s', r) ->
  conn s' = conn s /\ master_key s' = master_key s /\ scope_keys s' = scope_keys s /\ (forall a, r = Ok a -> a = answer (conn s)).
Proof.
  unfold query, statement. destruct (faults s) as [|[] fs]; intros [= <- <-]; split_and!; try done; by intros a [= <-].
Qed.

Lemma derived_len mk label k : derived mk label = Ok k -> length k = AEAD_KEY_LEN.
Proof. unfold derived. destruct (derive_key mk label) eqn:E; [|done]. intros [= <-]. by eapply derive_key_len. Qed.

(** A new row, which unwraps to its key. *)
Definition new_row_ok (I : Db -> AeadKey -> gmap uuid AeadKey -> Prop) (scope : uuid) : Prop :=
  forall db mk ks k w row, I db mk ks -> scope_dek_rows db !! scope = None -> ks !! scope = None ->
    derived mk (string_bytes "scope-dek-wrap:v1") = Ok w -> unwrap_row w scope row = Ok k ->
    I (with_dek_rows db (<[scope := row]> (scope_dek_rows db))) mk (<[scope := k]> ks).

Lemma pres_store_scope_dek I (io : Io Nonce) scope k (s : Store) :
  length k = AEAD_KEY_LEN -> about I s -> scope_dek_rows (conn s) !! scope = None -> scope_keys s !! scope = None ->
  new_row_ok I scope -> about I (store_scope_dek io scope k s).1.
Proof.
  intros Hlen Hs Hr Hk Hrow. unfold store_scope_dek, try_eff at 1, dek_wrapping_key.
  destruct (derived (master_key s) _) as [w|e] eqn:Ew; [|done].
  unfold try_eff at 1, lift. destruct (encrypt_aead w (io_nonce io) k (scope_dek_aad scope)) as [ct|] eqn:Ec; [|done]. cbn [ok_or].
  unfold try_eff, statement. destruct (faults s) as [|[] fs]; [|done|];
    rewrite bool_decide_true by done; unfold insert_or_ignore; cbn; rewrite Hr; unfold about; cbn;
    (apply (Hrow _ _ _ k w _ Hs Hr Hk Ew); unfold unwrap_row; cbn [dek_nonce wrapped_dek]; rewrite (decrypt_encrypt _ _ _ _ _ Ec), Hlen; by rewrite Nat.eqb_refl).
Qed.

(** Registering a scope, for a property that a new row and a new cache entry of it
    keep. *)
Lemma pres_ensure_scope_dek I (io : Io Nonce) scope :
  (forall db mk ks k, I db mk ks -> forall w row, derived mk (string_bytes "scope-dek-wrap:v1") = Ok w ->
     scope_dek_rows db !! scope = Some row -> unwrap_row w scope row = Ok k -> I db mk (<[scope := k]> ks)) ->
  new_row_ok I scope ->
  pres (about I) (ensure_scope_dek io scope).
Proof.
  intros Hcache Hrow s Hs. unfold ensure_scope_dek, try_eff at 1, get.
  destruct (scope_keys s !! scope) as [k|] eqn:Ek; [done|].
  unfold try_eff at 1, dek_wrapping_key at 1. destruct (derived (master_key s) _) as [w|e] eqn:Ew; [|done].
  unfold try_eff at 1. match goal with |- context [query ?f s] => set (q := f) end.
  pose proof (pres_query I q s Hs) as Hs1. destruct (query q s) as [s1 [db_row|e]] eqn:E1; [|exact Hs1].
  destruct (query_spec _ _ _ _ E1) as (Hc1 & Hm1 & Hk1 & Ha1). cbn [fst] in Hs1.
  specialize (Ha1 _ eq_refl). subst db_row q. cbv beta. destruct (scope_dek_rows (conn s) !! scope) as [row|] eqn:Er.
  - unfold try_eff, lift, cache_key, modify. destruct (unwrap_row w scope row) as [k|e] eqn:Eu; [|done]. cbn.
    unfold about in *. cbn. rewrite Hc1, Hm1, Hk1. by eapply Hcache.
  - unfold try_eff at 1. match goal with |- context [query ?f s1] => set (q := f) end.
    pose proof (pres_query I q s1 Hs1) as Hs2. destruct (query q s1) as [s2 [has|e]] eqn:E2; [|exact Hs2].
    destruct (query_spec _ _ _ _ E2) as (Hc2 & Hm2 & Hk2 & _). cbn [fst] in Hs2.
    assert (Hstore : forall k, length k = AEAD_KEY_LEN -> about I (store_scope_dek io scope k s2).1).
    { intros k Hlen. apply pres_store_scope_dek; [exact Hlen|exact Hs2|by rewrite Hc2, Hc1|by rewrite Hk2, Hk1|exact Hrow]. }
    destruct has.
    + unfold try_eff. destruct (derived (master_key s2) (body_label scope)) as [k|e] eqn:Ed; [|done].
      specialize (Hstore k (derived_len _ _ _ Ed)). by destruct (store_scope_dek io scope k s2) as [s3 [[]|e]].
    + unfold try_eff at 1. specialize (Hstore (io_key io) (io_key_len io)). by destruct (store_scope_dek io scope (io_key io) s2) as [s3 [[]|e]].
Qed.

(** What recording a scope's tombstones, and forgetting it, may change of the store. *)
Record record_closed (I : Db -> AeadKey -> gmap uuid AeadKey -> Prop) (scope : uuid) : Prop := {
  rc_scope db mk ks at_ : I db mk ks -> I (with_forgotten_rows db (insert_or_ignore scope at_ (forgotten_rows db))) mk ks;
  rc_epoch db mk ks e at_ : I db mk ks -> I (with_epoch_rows db (insert_or_ignore (scope, e) at_ (epoch_rows db))) mk ks
}.
Record forget_closed (I : Db -> AeadKey -> gmap uuid AeadKey -> Prop) (scope : uuid) : Prop := {
  fc_record : record_closed I scope;
  fc_row db mk ks : I db mk ks -> I (with_dek_rows db (delete scope (scope_dek_rows db))) mk ks;
  fc_key db mk ks : I db mk ks -> I db mk (delete scope ks)
}.

Lemma pres_persistence {A} (P : Store -> Prop) (m : eff Store EvidenceError A) : pres P m -> pres P (persistence m).
Proof. intros Hm s Hs. unfold persistence. specialize (Hm s Hs). by destruct (m s) as [s' [a|e]]. Qed.

Lemma pres_delete_scope_dek I scope : forget_closed I scope -> pres (about I) (@delete_scope_dek Nonce scope).
Proof.
  intros Hc. apply pres_try.
  - apply pres_statement. intros db mk ks. apply (fc_row I scope Hc).
  - intros _ s Hs. unfold evict_cached_scope_key, modify, about in *. cbn. by apply (fc_key I scope Hc).
Qed.

Lemma pres_persist_all I scope now ts : record_closed I scope ->
  pres (about I) (@persist_all Store (evidence_tombstones now) scope ts).
Proof.
  intros Hc. induction ts as [|[e at_] ts IH]; [apply pres_ret|]. cbn [persist_all]. apply pres_try; [|intros _; exact IH].
  apply pres_persistence. unfold record_epoch_tombstone. destruct (i64_max <? e)%N; [apply pres_throw|].
  apply pres_statement. intros db mk ks. apply (rc_epoch I scope Hc).
Qed.

(** The two halves of [forget_scope]. *)
Definition record_forgotten (scope : uuid) (now : instant) (r : DekRegistry) : eff Store CryptoError unit :=
  do? _ := @persist_all Store (evidence_tombstones now) scope (entries_of scope (tombstones r)) in
  @persist_forgotten_scope Store (evidence_tombstones now) scope now.

Lemma forget_scope_eq scope now (rt : @FfiRuntime Nonce) :
  forget_scope scope now rt =
  if is_scope_forgotten (registry rt) scope then (rt, Ok tt)
  else let r := (destroy_scope_keys scope now (registry rt)).1 in
       let '(s, res) := record_forgotten scope now r (store rt) in
       (mk_runtime r s, match res with Ok _ => Ok tt
                        | Err e => Err (Evidence match e with TombstonePersistence m => m | EpochOverflow => "" end) end).
Proof.
  unfold forget_scope, destroy_scope_dek. destruct rt as [r s]. cbn [registry store].
  destruct (is_scope_forgotten r scope); [done|]. destruct (destroy_scope_keys scope now r) as [r' events]. cbn [fst].
  unfold with_store, record_forgotten. by destruct (try_eff _ _ s) as [s' [[]|e]].
Qed.

Lemma pres_record_forgotten I scope now r : record_closed I scope -> pres (about I) (record_forgotten scope now r).
Proof.
  intros Hc. apply pres_try; [by apply pres_persist_all|intros _]. apply pres_persistence, pres_statement.
  intros db mk ks. apply (rc_scope I scope Hc).
Qed.

(** The registry after forgetting, and the store. *)
Lemma forget_scope_state_frame I scope now (rt : @FfiRuntime Nonce) :
  forget_closed I scope -> about I (store rt) ->
  let rt' := (forget_scope_state scope now rt).1 in
  about I (store rt') /\
  (registry rt' = registry rt \/
   is_scope_forgotten (registry rt) scope = false /\ registry rt' = (destroy_scope_keys scope now (registry rt)).1).
Proof.
  intros Hc Hs. unfold forget_scope_state. destruct (scope =? _)%N; [by split; [|left]|].
  unfold try_eff. rewrite forget_scope_eq.
  assert (Htail : forall rt1 : @FfiRuntime Nonce, about I (store rt1) ->
    let rt' := (let '(rt, _) := on_store (delete_scope_dek scope) rt1 in evidence_err (on_store (cleanups 7 None)) rt).1 in
    about I (store rt') /\ registry rt' = registry rt1).
  { intros [r s] Hs1. unfold on_store. cbn [registry store] in *. pose proof (pres_delete_scope_dek I scope Hc s Hs1) as Hd.
    destruct (delete_scope_dek scope s) as [s1 r1]. cbn [registry store fst] in *. unfold evidence_err. cbn [registry store].
    pose proof (pres_cleanups I 7 None s1 Hd) as Hcl. by destruct (cleanups 7 None s1) as [s2 r2]. }
  destruct (is_scope_forgotten (registry rt) scope) eqn:Ef.
  - destruct (Htail rt Hs) as [H1 H2]. split; [exact H1|by left].
  - cbn zeta. set (r1 := (destroy_scope_keys scope now (registry rt)).1).
    pose proof (pres_record_forgotten I scope now r1 (fc_record I scope Hc) (store rt) Hs) as Hr.
    destruct (record_forgotten scope now r1 (store rt)) as [s1 [[]|e]]; [|by split; [|right]].
    destruct (Htail (mk_runtime r1 s1) Hr) as [H1 H2]. split; [exact H1|by right].
Qed.

(** A write to a scope, unfolded. *)
Definition add_evidence (scope : uuid) : eff Store EvidenceError unit :=
  execute (fun db => with_evidence db ({[scope]} ∪ evidence_scopes db)).
Definition described {A} (r : result A EvidenceError) : result A FfiError :=
  match r with Ok a => Ok a | Err e => Err (Evidence (describe e)) end.
Lemma ingest_eq (io : Io Nonce) scope r (s : Store) :
  ingest_message io scope (mk_runtime r s) =
  if is_scope_forgotten r scope then (mk_runtime r s, Err NotFoundScope)
  else match get_scope_dek r scope with
       | Some _ => (mk_runtime r (add_evidence scope s).1, described (add_evidence scope s).2)
       | None =>
           match ensure_scope_dek io scope s with
           | (s1, Err e) => (mk_runtime r s1, Err (Evidence (describe e)))
           | (s1, Ok key) =>
               (mk_runtime (insert_scope_dek (new_scope_dek (io_now io) scope epoch_zero key) r) (add_evidence scope s1).1,
                described (add_evidence scope s1).2)
           end
       end.
Proof.
  unfold ingest_message. cbn [registry]. destruct (is_scope_forgotten r scope); [done|].
  unfold try_eff, ensure_scope_registered, evidence_err, on_store, described, add_evidence. cbn [registry store].
  destruct (get_scope_dek r scope) as [d|]; [cbn [registry store]; by destruct (execute _ s) as [s' [[]|e]]|].
  unfold try_eff. cbn [registry store]. destruct (ensure_scope_dek io scope s) as [s1 [key|e]]; cbn [registry store]; [|done].
  cbn [registry store]. by destruct (execute _ s1) as [s2 [[]|e]].
Qed.

Lemma ingest_frame I (io : Io Nonce) scope (rt : @FfiRuntime Nonce) :
  pres (about I) (ensure_scope_dek io scope) ->
  (forall db mk ks, I db mk ks -> I (with_evidence db ({[scope]} ∪ evidence_scopes db)) mk ks) ->
  about I (store rt) ->
  let rt' := (ingest_message io scope rt).1 in
  about I (store rt') /\
  (registry rt' = registry rt \/
   is_scope_forgotten (registry rt) scope = false /\ exists key s1,
     registry rt' = insert_scope_dek (new_scope_dek (io_now io) scope epoch_zero key) (registry rt) /\
     ensure_scope_dek io scope (store rt) = (s1, Ok key) /\ scope_keys (store rt') = scope_keys s1).
Proof.
  intros Hp He Hs. destruct rt as [r s]. rewrite ingest_eq. cbn [registry store] in *.
  destruct (is_scope_forgotten r scope) eqn:Ef; [by split; [|left]|].
  assert (Hev : pres (about I) (add_evidence scope)) by (by apply pres_statement).
  destruct (get_scope_dek r scope) as [d|]; [split; [exact (Hev s Hs)|left; reflexivity]|].
  specialize (Hp s Hs). destruct (ensure_scope_dek io scope s) as [s1 [key|e]] eqn:E; cbn [fst store registry] in *;
    [|by split; [|left]]. split; [exact (Hev s1 Hp)|]. right. split; [done|]. exists key, s1. split_and!; [done..|].
  unfold add_evidence, execute, statement. cbn. by destruct (faults s1) as [|[] fs].
Qed.

(** What an opening does: nothing on the disk before its last loop, which starts from
    the keys of all rows and the tombstones replayed. *)
Definition tombstoned (db : Db) : gset uuid := list_to_set (map_to_list (forgotten_rows db)).*1.
Definition exactly (db : Db) (master : AeadKey) (keys : gmap uuid AeadKey) db' mk ks : Prop :=
  db' = db /\ mk = master /\ ks = keys.
Definition still (db : Db) (master : AeadKey) (keys : gmap uuid AeadKey) : Store -> Prop := about (exactly db master keys).

Lemma still_conn db master keys s : still db master keys s -> conn s = db /\ master_key s = master /\ scope_keys s = keys.
Proof. done. Qed.

Lemma load_scope_deks_spec db master (s : Store) : still db master ∅ s ->
  let '(s', r) := load_scope_deks s in
  still db master ∅ s' /\ forall deks, r = Ok deks -> exists w,
    derived master (string_bytes "scope-dek-wrap:v1") = Ok w /\ unwrap_rows w (map_to_list (scope_dek_rows db)) ∅ = Ok deks.
Proof.
  intros Hs. unfold load_scope_deks, dek_wrapping_key, try_eff, lift. destruct (still_conn _ _ _ _ Hs) as (Hc & -> & Hk).
  destruct (derived master _) as [w|e]; [|by split].
  match goal with |- context [query ?f s] => set (q := f) end.
  pose proof (pres_query (exactly db master ∅) q s Hs) as Hs1. destruct (query q s) as [s1 [rows|e]] eqn:E; [|by split].
  destruct (query_spec _ _ _ _ E) as (_ & _ & _ & Ha). rewrite (Ha _ eq_refl). unfold q. rewrite Hc.
  split; [exact Hs1|]. intros deks Hd. by exists w.
Qed.

Lemma open_store_spec db master fs now :
  let '(s, res) := open_store db master fs now in
  match res with
  | Err _ => conn s = db
  | Ok rt => s = store rt /\ exists s0 deks w rows,
      still db master deks s0 /\ derived master (string_bytes "scope-dek-wrap:v1") = Ok w /\
      unwrap_rows w (map_to_list (scope_dek_rows db)) ∅ = Ok deks /\
      (registry rt, store rt)
      = foldl (adopt_key now)
          (replay_epochs (Nonce := Nonce) now (tombstoned db) rows (replay_scopes (Nonce := Nonce) now (hash_order (elements (tombstoned db)))), s0)
          (hash_order (map_to_list deks))
  end.
Proof.
  unfold open_store, evidence_err, try_eff at 1, open, try_eff at 1.
  assert (H0 : still db master ∅ (mk_store db master ∅ fs)) by done.
  pose proof (load_scope_deks_spec db master _ H0) as Hl.
  destruct (load_scope_deks _) as [s1 [deks|e]]; destruct Hl as [H1 Hd]; [|apply H1].
  destruct (Hd deks eq_refl) as (w & Hw & Hu). unfold modify.
  assert (H2 : still db master deks (with_keys s1 (deks ∪ scope_keys s1))).
  { destruct (still_conn _ _ _ _ H1) as (Hc1 & Hm1 & Hk1). unfold still, about. cbn. rewrite Hk1, (right_id_L ∅ (∪)). done. }
  revert H2. generalize (with_keys s1 (deks ∪ scope_keys s1)). clear s1 H1 Hd. intros s2 H2.
  unfold load_forgotten_scopes, try_eff at 1. match goal with |- context [query ?f s2] => set (q := f) end.
  pose proof (pres_query (exactly db master deks) q s2 H2) as H3. destruct (query q s2) as [s3 [scopes|e]] eqn:E3; [|apply H3].
  destruct (query_spec _ _ _ _ E3) as (_ & _ & _ & Ha). specialize (Ha _ eq_refl). unfold q in Ha.
  rewrite (proj1 (still_conn _ _ _ _ H2)) in Ha. subst scopes. cbn [fst] in H3. fold (tombstoned db).
  unfold try_eff at 1. assert (Hload : pres (still db master deks) (@load_epoch_tombstones Nonce)).
  { apply pres_try; [apply pres_query|intros rows; apply pres_lift]. }
  specialize (Hload s3 H3). destruct (load_epoch_tombstones s3) as [s4 [rows|e]]; [|apply Hload].
  unfold try_eff at 1. pose proof (pres_elsewhere (exactly db master deks) s4 Hload) as H5. destruct (elsewhere s4) as [s5 [[]|e]]; [|apply H5].
  unfold try_eff at 1. pose proof (pres_purges (exactly db master deks) (hash_order (elements (tombstoned db))) s5 H5) as H6.
  destruct (purge_scopes _ s5) as [s6 [[]|e]]; [|apply H6]. cbn [fst] in H6.
  rewrite (proj2 (proj2 (still_conn _ _ _ _ H6))).
  destruct (foldl (adopt_key now) _ _) as [r s'] eqn:Ef. split; [done|]. exists s6, deks, w, rows. by split_and!.
Qed.

Lemma replay_scopes_spec now l :
  scope_deks (replay_scopes (Nonce := Nonce) now l) = ∅ /\
  forall x, is_scope_forgotten (replay_scopes (Nonce := Nonce) now l) x = bool_decide (x ∈ l).
Proof.
  induction l as [|x l [IHd IHf]] using rev_ind; [split; [done|]; intros x; by rewrite bool_decide_false by apply not_elem_of_nil|].
  unfold replay_scopes in *. rewrite foldl_app. cbn [foldl]. rewrite destroy_scope_registry.
  set (r := foldl _ _ l) in *. destruct (is_scope_forgotten r x) eqn:Ef.
  - split; [done|]. intros y. rewrite IHf. apply bool_decide_ext. rewrite IHf in Ef. apply bool_decide_eq_true in Ef.
    rewrite elem_of_app, list_elem_of_singleton. naive_solver.
  - pose proof (destroy_scope_keys_spec x now r) as Hd. destruct (destroy_scope_keys x now r) as [r' events].
    destruct Hd as (_ & Hs & Hf & _). cbn [fst]. split; [by rewrite Hs, IHd, delete_empty|]. intros y.
    unfold is_scope_forgotten in *. rewrite Hf. specialize (IHf y). destruct (decide (x = y)) as [<-|Hne].
    + rewrite lookup_insert_eq, !bool_decide_true; [done|set_solver|by eexists].
    + rewrite lookup_insert_ne, IHf by done. apply bool_decide_ext. set_solver.
Qed.

Lemma replay_epochs_spec now T rows r :
  scope_deks (replay_epochs (Nonce := Nonce) now T rows r) = scope_deks r /\
  forgotten_scopes (replay_epochs (Nonce := Nonce) now T rows r) = forgotten_scopes r.
Proof.
  unfold replay_epochs. apply (foldl_preserves (fun r' => scope_deks r' = scope_deks r /\ forgotten_scopes r' = forgotten_scopes r)); [|done].
  intros r' [[scope e] ts] [Hs Hf]. case_bool_decide; [done|]. rewrite destroy_epoch_registry.
  destruct (is_epoch_forgotten r' scope e); [done|]. by cbn.
Qed.

Lemma drop_key_spec (y : uuid) (s : Store) :
  let s1 := (delete_scope_dek_row y (evict_cached_scope_key y s).1).1 in
  master_key s1 = master_key s /\ forgotten_rows (conn s1) = forgotten_rows (conn s) /\
  scope_keys s1 = delete y (scope_keys s) /\
  (scope_dek_rows (conn s1) = scope_dek_rows (conn s) \/ scope_dek_rows (conn s1) = delete y (scope_dek_rows (conn s))).
Proof.
  unfold delete_scope_dek_row, execute, statement, evict_cached_scope_key, modify. cbn.
  destruct (faults s) as [|[] fs]; cbn; split_and!; try done; auto.
Qed.

(** The loop over the cached keys, seen from one scope. *)
Lemma adopt_spec now x l r (s : Store) :
  NoDup l.*1 ->
  let '(r', s') := foldl (adopt_key now) (r, s) l in
  forgotten_scopes r' = forgotten_scopes r /\ master_key s' = master_key s /\
  forgotten_rows (conn s') = forgotten_rows (conn s) /\
  if is_scope_forgotten r x then
    scope_deks r' !! x = scope_deks r !! x /\
    scope_keys s' !! x = (if decide (x ∈ l.*1) then None else scope_keys s !! x) /\
    (scope_dek_rows (conn s') !! x = scope_dek_rows (conn s) !! x \/ scope_dek_rows (conn s') !! x = None)
  else
    scope_keys s' !! x = scope_keys s !! x /\ scope_dek_rows (conn s') !! x = scope_dek_rows (conn s) !! x /\
    (forall k, (x, k) ∈ l -> scope_deks r' !! x = Some (new_scope_dek now x epoch_zero k)) /\
    (x ∉ l.*1 -> scope_deks r' !! x = scope_deks r !! x).
Proof.
  revert r s. induction l as [|[y k] l IH]; intros r s Hnd; cbn [foldl].
  - split_and!; [done..|]. cbn. destruct (is_scope_forgotten r x); [by split_and!; [| |left]|].
    split_and!; [done..| |done]. by intros k ?%elem_of_nil.
  - cbn [fmap list_fmap fst] in Hnd. apply NoDup_cons in Hnd as [Hy Hnd]. unfold adopt_key at 2.
    destruct (is_scope_forgotten r y) eqn:Ey.
    + set (s1 := (delete_scope_dek_row y (evict_cached_scope_key y s).1).1).
      pose proof (drop_key_spec y s) as H1. fold s1 in H1.
      destruct H1 as (Hm & Hf & Hk & Hr). specialize (IH r s1 Hnd). destruct (foldl _ _ l) as [r' s'].
      destruct IH as (-> & -> & -> & IH). split_and!; [done..|]. destruct (is_scope_forgotten r x) eqn:Ex.
      * destruct IH as (-> & -> & IH). split; [done|]. rewrite Hk. split.
        -- cbn [fmap list_fmap fst]. destruct (decide (x ∈ l.*1)); [by rewrite decide_True by by right|].
           destruct (decide (y = x)) as [<-|Hne]; [rewrite lookup_delete_eq; by rewrite decide_True by by left|].
           rewrite lookup_delete_ne by done. rewrite decide_False; [done|]. by intros [->|?]%elem_of_cons.
        -- destruct Hr as [Hr|Hr]; rewrite Hr in IH; [done|]. destruct (decide (y = x)) as [<-|Hne].
           ++ rewrite lookup_delete_eq in IH. right. by destruct IH.
           ++ by rewrite lookup_delete_ne in IH.
      * assert (Hne : y <> x) by (intros ->; congruence). destruct IH as (-> & -> & IHk & IHn). rewrite Hk, lookup_delete_ne by done.
        split; [done|]. split; [destruct Hr as [-> | ->]; by rewrite ?lookup_delete_ne|]. split.
        -- intros k' [[= -> ->]|Hin]%elem_of_cons; [done|by apply IHk].
        -- intros Hn. apply IHn. intros Hin. apply Hn. by right.
    + specialize (IH (insert_scope_dek (new_scope_dek now y epoch_zero k) r) s Hnd). destruct (foldl _ _ l) as [r' s'].
      destruct IH as (-> & -> & -> & IH). split_and!; [done..|].
      change (is_scope_forgotten (insert_scope_dek _ r) x) with (is_scope_forgotten r x) in IH.
      unfold insert_scope_dek in IH. cbn in IH. destruct (is_scope_forgotten r x) eqn:Ex.
      * assert (Hne : y <> x) by (intros ->; congruence). destruct IH as (-> & -> & IH). rewrite lookup_insert_ne by done.
        split; [done|]. split; [|done]. cbn [fmap list_fmap fst]. destruct (decide (x ∈ l.*1)); [by rewrite decide_True by by right|].
        rewrite decide_False; [done|]. intros [->|?]%elem_of_cons; done.
      * destruct IH as (-> & -> & IHk & IHn). split_and!; [done..| |].
        -- intros k' [[= -> ->]|Hin]%elem_of_cons; [|by apply IHk]. rewrite IHn by done. by rewrite lookup_insert_eq.
        -- intros Hn. rewrite IHn by (intros Hin; apply Hn; by right). rewrite lookup_insert_ne; [done|]. intros ->. apply Hn. by left.
Qed.

(** *** A forgotten scope *)

Definition gone_db (x : uuid) (row : option (DekRow Nonce)) (db : Db) : Prop :=
  is_Some (forgotten_rows db !! x) /\ (scope_dek_rows db !! x = row \/ scope_dek_rows db !! x = None).
Definition gone_store (x : uuid) (row : option (DekRow Nonce)) (db : Db) (mk : AeadKey) (ks : gmap uuid AeadKey) : Prop :=
  gone_db x row db /\ ks !! x = None.
Definition gone (x : uuid) (row : option (DekRow Nonce)) (st : session) : Prop :=
  match st with
  | Down db => gone_db x row db
  | Running rt => about (gone_store x row) (store rt) /\
                  is_scope_forgotten (registry rt) x = true /\ scope_deks (registry rt) !! x = None
  end.

Lemma lookup_insert_or_ignore `{Countable Q} {A} (k i : Q) (v : A) m :
  insert_or_ignore k v m !! i = match m !! i with Some w => Some w | None => if decide (k = i) then Some v else None end.
Proof.
  unfold insert_or_ignore. destruct (decide (k = i)) as [<-|Hne].
  - destruct (m !! k) eqn:E; [by rewrite E|by rewrite lookup_insert_eq].
  - destruct (m !! k); [by destruct (m !! i)|]. rewrite lookup_insert_ne by done. by destruct (m !! i).
Qed.

Lemma gone_forget_closed x row scope : forget_closed (gone_store x row) scope.
Proof.
  split; [split|..]; intros db mk ks; unfold gone_store, gone_db; cbn; intros; destruct_and!; split_and!; try done.
  - rewrite lookup_insert_or_ignore. by destruct (forgotten_rows db !! x).
  - destruct (decide (scope = x)) as [<-|Hne]; [right; by rewrite lookup_delete_eq|by rewrite lookup_delete_ne].
  - destruct (decide (scope = x)) as [<-|Hne]; [by rewrite lookup_delete_eq|by rewrite lookup_delete_ne].
Qed.

Lemma gone_ensure x row (io : Io Nonce) scope : scope <> x -> pres (about (gone_store x row)) (ensure_scope_dek io scope).
Proof.
  intros Hne. apply pres_ensure_scope_dek; unfold new_row_ok, gone_store, gone_db; cbn; intros; destruct_and!;
    split_and!; try done; by rewrite lookup_insert_ne.
Qed.

Lemma elem_of_tombstoned (db : Db) x : x ∈ tombstoned db <-> is_Some (forgotten_rows db !! x).
Proof.
  unfold tombstoned. rewrite elem_of_list_to_set, list_elem_of_fmap. split.
  - intros ([y ts] & -> & Hin). apply elem_of_map_to_list in Hin. by eexists.
  - intros [ts Hts]. exists (x, ts). by rewrite elem_of_map_to_list.
Qed.

Lemma NoDup_cache_order (deks : gmap uuid AeadKey) : NoDup (hash_order (map_to_list deks)).*1.
Proof. rewrite hash_order_perm. apply NoDup_fst_map_to_list. Qed.

(** The registry and the store of a process just opened, seen from one scope. *)
Lemma opened_spec master db fs now x rt s : open_store db master fs now = (s, Ok rt) ->
  s = store rt /\ master_key (store rt) = master /\
  forgotten_rows (conn (store rt)) = forgotten_rows db /\
  is_scope_forgotten (registry rt) x = bool_decide (is_Some (forgotten_rows db !! x)) /\
  exists deks w, derived master (string_bytes "scope-dek-wrap:v1") = Ok w /\
    unwrap_rows w (map_to_list (scope_dek_rows db)) ∅ = Ok deks /\
    if is_scope_forgotten (registry rt) x then
      scope_deks (registry rt) !! x = None /\ scope_keys (store rt) !! x = None /\
      (scope_dek_rows (conn (store rt)) !! x = scope_dek_rows db !! x \/ scope_dek_rows (conn (store rt)) !! x = None)
    else
      scope_keys (store rt) !! x = deks !! x /\ scope_dek_rows (conn (store rt)) !! x = scope_dek_rows db !! x /\
      scope_deks (registry rt) !! x = new_scope_dek now x epoch_zero <$> deks !! x.
Proof.
  intros Ho. pose proof (open_store_spec db master fs now) as Hs. rewrite Ho in Hs.
  destruct Hs as (-> & s0 & deks & w & rows & H0 & Hw & Hu & Heq). split; [done|].
  destruct (still_conn _ _ _ _ H0) as (Hc0 & Hm0 & Hk0).
  destruct (replay_scopes_spec now (hash_order (elements (tombstoned db)))) as [Hd Hf].
  destruct (replay_epochs_spec now (tombstoned db) rows (replay_scopes (Nonce := Nonce) now (hash_order (elements (tombstoned db))))) as [Hd' Hf'].
  set (r0 := replay_epochs _ _ _ _) in *. rewrite Hd in Hd'. clear Hd.
  assert (Hr0 : is_scope_forgotten r0 x = bool_decide (is_Some (forgotten_rows db !! x))).
  { unfold is_scope_forgotten at 1. rewrite Hf'. fold (is_scope_forgotten (replay_scopes (Nonce := Nonce) now (hash_order (elements (tombstoned db)))) x).
    rewrite Hf. apply bool_decide_ext. by rewrite elem_of_hash_order, elem_of_elements, elem_of_tombstoned. }
  pose proof (adopt_spec now x (hash_order (map_to_list deks)) r0 s0 (NoDup_cache_order deks)) as Ha.
  destruct (foldl _ _ _) as [r' s']. injection Heq as -> ->. destruct Ha as (Hfr & -> & -> & Ha).
  assert (Hfor : is_scope_forgotten r' x = is_scope_forgotten r0 x) by (unfold is_scope_forgotten; by rewrite Hfr).
  rewrite Hc0, Hm0 in *. rewrite Hfor. split_and!; [done..|]. exists deks, w. split_and!; [done..|]. rewrite Hk0 in Ha.
  destruct (is_scope_forgotten r0 x).
  - destruct Ha as (-> & -> & Hrow). rewrite Hd', lookup_empty. split_and!; [done| |done].
    case_decide as Hin; [done|]. apply eq_None_not_Some. intros [k Hk]. apply Hin. apply list_elem_of_fmap. exists (x, k).
    split; [done|]. by rewrite elem_of_hash_order, elem_of_map_to_list.
  - destruct Ha as (-> & -> & Hin & Hout). split_and!; [done..|]. destruct (deks !! x) as [k|] eqn:Ek.
    + apply Hin. by rewrite elem_of_hash_order, elem_of_map_to_list.
    + cbn. rewrite Hout, Hd'; [done|]. intros ([y k] & -> & Hk)%list_elem_of_fmap.
      rewrite elem_of_hash_order, elem_of_map_to_list in Hk. cbn in *. congruence.
Qed.

Lemma gone_forgotten x r (scope : uuid) now :
  is_scope_forgotten r x = true -> scope_deks r !! x = None ->
  is_scope_forgotten (destroy_scope_keys scope now r).1 x = true /\
  scope_deks (destroy_scope_keys scope now r).1 !! x = None.
Proof.
  intros Hf Hd. pose proof (destroy_scope_keys_spec scope now r) as Hk. destruct (destroy_scope_keys scope now r) as [r' ev].
  destruct Hk as (_ & Hs & Hfr & _). cbn [fst]. unfold is_scope_forgotten in *. rewrite Hs, Hfr.
  destruct (decide (scope = x)) as [<-|Hne].
  - rewrite lookup_insert_eq, lookup_delete_eq. split; [by apply bool_decide_true|done].
  - by rewrite lookup_insert_ne, lookup_delete_ne.
Qed.

Lemma gone_step master allowed x row st st' : session_step master allowed st st' -> gone x row st -> gone x row st'.
Proof.
  intros Hst. destruct Hst as [db fs now|rt io scope fs|rt scope now fs _|rt]; intros Hg.
  - pose proof (open_store_spec db master fs now) as Hs. destruct (open_store db master fs now) as [s [rt|e]] eqn:Ho; [|by rewrite <- Hs in Hg].
    destruct (opened_spec master db fs now x rt s Ho) as (_ & _ & Hfr & Hf & deks & w & _ & _ & Hx). destruct Hg as [Ht Hrow].
    rewrite bool_decide_true in Hf by done. rewrite Hf in Hx. destruct Hx as (Hd & Hk & Hr).
    split; [|done]. split; [|exact Hk]. split; [by rewrite Hfr|]. destruct Hr as [-> | ->]; auto.
  - destruct Hg as (Hs & Hf & Hd). destruct (decide (scope = x)) as [->|Hne].
    { unfold ingest_message, refault. cbn [registry]. rewrite Hf. by split. }
    destruct (ingest_frame (gone_store x row) io scope (refault fs rt)) as [Hs' Hr]; [by apply gone_ensure|done|exact Hs|].
    split; [exact Hs'|]. destruct Hr as [-> |(_ & key & s1 & -> & _)]; [done|]. split; [exact Hf|].
    cbn. by rewrite lookup_insert_ne.
  - destruct Hg as (Hs & Hf & Hd).
    destruct (forget_scope_state_frame (gone_store x row) scope now (refault fs rt) (gone_forget_closed x row scope) Hs) as [Hs' Hr].
    split; [exact Hs'|]. destruct Hr as [-> |[_ ->]]; [done|]. by apply gone_forgotten.
  - by destruct Hg as [[Hg _] _].
Qed.

(** C15: a forgotten scope stays forgotten.  From a database with a tombstone for the
    scope, whatever happens next (openings that fail or succeed, writes and
    forgettings of any scopes, failing statements, ends of the process in any order),
    the tombstone stays, the wrapped key on disk is the one that was left over or none
    at all, and every process that has the store open refuses to write to the scope
    and has no key for it, in the registry or in the store's cache. *)
Theorem forgotten_is_final master allowed db x st :
  is_Some (forgotten_rows db !! x) -> rtc (session_step master allowed) (Down db) st ->
  match st with
  | Down db' => is_Some (forgotten_rows db' !! x) /\
                (scope_dek_rows db' !! x = scope_dek_rows db !! x \/ scope_dek_rows db' !! x = None)
  | Running rt =>
      is_Some (forgotten_rows (conn (store rt)) !! x) /\
      (scope_dek_rows (conn (store rt)) !! x = scope_dek_rows db !! x \/ scope_dek_rows (conn (store rt)) !! x = None) /\
      is_scope_forgotten (registry rt) x = true /\ get_scope_dek (registry rt) x = None /\ scope_keys (store rt) !! x = None /\
      (forall io, ingest_message io x rt = (rt, Err NotFoundScope))
  end.
Proof.
  intros Ht Hr. assert (Hg : gone x (scope_dek_rows db !! x) st).
  { eapply (rtc_preserves _ (gone x _)); [intros st1 st2; apply gone_step|exact Hr|]. split; [done|by left]. }
  destruct st as [db'|rt]; [exact Hg|]. destruct Hg as ([[Ht' Hrow] Hk] & Hf & Hd).
  split_and!; try done; [unfold get_scope_dek; by rewrite Hd|]. intros io. unfold ingest_message. by rewrite Hf.
Qed.

(** *** One call of [forget] *)

(** The tables as a tombstone store keep the promises of the trait. *)
#[export] Instance evidence_tombstone_laws (now : instant) : @TombstoneLaws Store (evidence_tombstones now).
Proof.
  refine {| epoch_recorded s k := is_Some (epoch_rows (conn s) !! (k.1, Z.of_N k.2));
            scope_recorded s x := is_Some (forgotten_rows (conn s) !! x) |}.
  - intros scope epoch at_ s s' r. cbn. unfold persistence, record_epoch_tombstone.
    destruct (i64_max <? epoch)%N; [intros [= <- <-]; cbn; naive_solver|].
    unfold execute, statement. destruct (faults s) as [|[] fs]; intros [= <- <-]; cbn; try naive_solver;
      (split; [done|]; intros [x e]; cbn; rewrite lookup_insert_or_ignore; destruct (epoch_rows (conn s) !! (x, Z.of_N e)) eqn:E;
        [naive_solver|]; case_decide as Hd;
        [injection Hd as -> ->%N2Z.inj; naive_solver|split; [by intros [? ?]|intros [[? ?]|[_ [= -> ->]]]; congruence]]).
  - intros scope at_ s s' r. cbn. unfold persistence, record_forgotten_scope_at.
    unfold execute, statement. destruct (faults s) as [|[] fs]; intros [= <- <-]; cbn; try naive_solver;
      (split; [done|]; intros x; rewrite lookup_insert_or_ignore; destruct (forgotten_rows (conn s) !! x) eqn:E;
        [naive_solver|]; case_decide; [subst; naive_solver|split; [by intros [? ?]|intros [[? ?]|[_ ->]]; congruence]]).
Defined.

(** Statements that work. *)
Definition quiet {A E} (m : eff Store E A) : Prop := forall s, faults s = [] -> faults (m s).1 = [] /\ is_ok (m s).2 = true.
Lemma quiet_try {A B E} (m : eff Store E A) (k : A -> eff Store E B) :
  quiet m -> (forall a, quiet (k a)) -> quiet (do? a := m in k a).
Proof.
  intros Hm Hk s Hs. unfold try_eff. destruct (Hm s Hs) as [Hf Ho]. destruct (m s) as [s' [a|e]]; [by apply Hk|done].
Qed.
Lemma quiet_statement {A} (answer : Db -> A) change : quiet (statement answer change).
Proof. intros s Hs. unfold statement. by rewrite Hs. Qed.
Lemma quiet_persistence {A} (m : eff Store EvidenceError A) : quiet m -> quiet (persistence m).
Proof. intros Hm s Hs. unfold persistence. destruct (Hm s Hs) as [Hf Ho]. by destruct (m s) as [s' [a|e]]. Qed.
Lemma quiet_cleanups n : quiet (@cleanups Nonce n None).
Proof.
  induction n as [|n IH]; intros s Hs; [done|]. cbn [cleanups].
  destruct (quiet_statement (fun _ => tt) (fun db : Db => db) s Hs) as [Hf Ho].
  unfold elsewhere, execute. destruct (statement _ _ s) as [s1 [[]|e]]; [by apply IH|done].
Qed.

Lemma quiet_record_forgotten scope now r :
  (forall e, is_epoch_forgotten r scope e = true -> (e <= i64_max)%N) -> quiet (record_forgotten scope now r).
Proof.
  intros Hsmall. apply quiet_try; [|intros _; apply quiet_persistence, quiet_statement].
  assert (Hts : forall e at_, (e, at_) ∈ entries_of scope (tombstones r) -> (e <= i64_max)%N).
  { intros e at_ Hin%elem_of_entries_of. apply Hsmall, bool_decide_true. by eexists. }
  induction (entries_of scope (tombstones r)) as [|[e at_] ts IH]; [by intros s|]. cbn [persist_all].
  apply quiet_try; [|intros _; apply IH; intros e' at' Hin; eapply Hts; by right].
  apply quiet_persistence. unfold record_epoch_tombstone. specialize (Hts e at_ ltac:(by left)).
  destruct (N.ltb_spec i64_max e); [lia|]. apply quiet_statement.
Qed.

(** What the registry and the disk owe to each other about the other scopes. *)
Definition other_scope (y : uuid) (rt rt' : @FfiRuntime Nonce) : Prop :=
  scope_deks (registry rt') !! y = scope_deks (registry rt) !! y /\
  is_scope_forgotten (registry rt') y = is_scope_forgotten (registry rt) y /\
  scope_dek_rows (conn (store rt')) !! y = scope_dek_rows (conn (store rt)) !! y /\
  forgotten_rows (conn (store rt')) !! y = forgotten_rows (conn (store rt)) !! y /\
  scope_keys (store rt') !! y = scope_keys (store rt) !! y.

Lemma forget_others scope now (rt : @FfiRuntime Nonce) y :
  y <> scope -> other_scope y rt (forget_scope_state scope now rt).1.
Proof.
  intros Hne.
  set (I := fun (db : Db) (_ : AeadKey) (ks : gmap uuid AeadKey) =>
    scope_dek_rows db !! y = scope_dek_rows (conn (store rt)) !! y /\
    forgotten_rows db !! y = forgotten_rows (conn (store rt)) !! y /\ ks !! y = scope_keys (store rt) !! y).
  assert (Hc : forget_closed I scope).
  { split; [split|..]; intros db mk ks; unfold I; cbn; intros; destruct_and!; split_and!; try done; [|by rewrite lookup_delete_ne..].
    rewrite lookup_insert_or_ignore, decide_False by done. by destruct (forgotten_rows db !! y). }
  destruct (forget_scope_state_frame I scope now rt Hc ltac:(done)) as [(Hr & Hf & Hk) Hreg].
  unfold other_scope. rewrite Hr, Hf, Hk. destruct Hreg as [-> |[_ ->]]; [done|].
  pose proof (destroy_scope_keys_spec scope now (registry rt)) as Hd.
  destruct (destroy_scope_keys scope now (registry rt)) as [r' ev]. destruct Hd as (_ & Hs & Hfr & _). cbn [fst].
  unfold is_scope_forgotten. rewrite Hs, Hfr, lookup_delete_ne, lookup_insert_ne by done. done.
Qed.

Lemma record_forgotten_spec scope now r (s : Store) :
  let '(s', res) := record_forgotten scope now r s in
  scope_dek_rows (conn s') = scope_dek_rows (conn s) /\ scope_keys s' = scope_keys s /\
  (is_ok res = true -> is_Some (forgotten_rows (conn s') !! scope) /\
     forall e, is_epoch_forgotten r scope e = true -> is_Some (epoch_rows (conn s') !! (scope, Z.of_N e))).
Proof.
  pose proof (persist_scope_spec (H := evidence_tombstones now) (H0 := evidence_tombstone_laws now) scope now r (Some s)) as Hp.
  pose proof (pres_record_forgotten (fun db _ ks => scope_dek_rows db = scope_dek_rows (conn s) /\ ks = scope_keys s)
                scope now r ltac:(split; intros; done) s ltac:(done)) as Hk.
  unfold with_store in Hp. unfold record_forgotten in *. destruct (try_eff _ _ s) as [s' res]. cbn [fst] in Hk.
  destruct Hk as [Hk1 Hk2]. split; [exact Hk1|]. split; [exact Hk2|]. by destruct Hp as (_ & _ & Hp).
Qed.

(** The second half of [forget_scope_state]. *)
Lemma forget_tail_spec (scope : uuid) (rt : @FfiRuntime Nonce) :
  let '(rt', res) := (let '(rt1, _) := on_store (delete_scope_dek scope) rt in evidence_err (on_store (cleanups 7 None)) rt1) in
  registry rt' = registry rt /\
  forgotten_rows (conn (store rt')) = forgotten_rows (conn (store rt)) /\
  epoch_rows (conn (store rt')) = epoch_rows (conn (store rt)) /\
  (faults (store rt) = [] -> res = Ok tt /\ scope_dek_rows (conn (store rt')) !! scope = None /\ scope_keys (store rt') !! scope = None).
Proof.
  destruct rt as [r s]. unfold on_store, evidence_err. cbn [registry store].
  destruct (delete_scope_dek scope s) as [s1 r1] eqn:Ed. cbn [registry store].
  pose proof (pres_cleanups (fun db _ ks => db = conn s1 /\ ks = scope_keys s1) 7 None s1 ltac:(done)) as Hc.
  pose proof (quiet_cleanups 7 s1) as Hq. destruct (cleanups 7 None s1) as [s2 r2]. cbn [fst snd registry store] in *.
  destruct Hc as [-> ->]. split; [done|].
  unfold delete_scope_dek, delete_scope_dek_row, try_eff, execute, statement, evict_cached_scope_key, modify in Ed.
  destruct (faults s) as [|[] fs] eqn:Ef; injection Ed as <- <-; cbn; split_and!; try done.
  intros _. destruct (Hq eq_refl) as [_ Hok]. rewrite !lookup_delete_eq. by destruct r2 as [[]|e].
Qed.

(** A scope that is not forgotten yet. *)
Lemma first_forget scope now (rt : @FfiRuntime Nonce) :
  scope <> synthesis_windows_scope -> is_scope_forgotten (registry rt) scope = false ->
  let '(rt', res) := forget_scope_state scope now rt in
  is_scope_forgotten (registry rt') scope = true /\ get_scope_dek (registry rt') scope = None /\
  (forall y, y <> scope -> other_scope y rt rt') /\
  (is_Some (forgotten_rows (conn (store rt')) !! scope) \/
   is_ok res = false /\ scope_dek_rows (conn (store rt')) = scope_dek_rows (conn (store rt)) /\
   scope_keys (store rt') = scope_keys (store rt)) /\
  (is_ok res = true -> is_Some (forgotten_rows (conn (store rt')) !! scope) /\
     forall e, is_epoch_forgotten (registry rt') scope e = true -> is_Some (epoch_rows (conn (store rt')) !! (scope, Z.of_N e))) /\
  (faults (store rt) = [] -> (forall e, is_epoch_forgotten (registry rt') scope e = true -> (e <= i64_max)%N) ->
     res = Ok tt /\ scope_dek_rows (conn (store rt')) !! scope = None /\ scope_keys (store rt') !! scope = None).
Proof.
  intros Hz Hnf. pose proof (fun y => forget_others scope now rt y) as Hothers.
  unfold forget_scope_state in *. apply N.eqb_neq in Hz. rewrite Hz in *. unfold try_eff in *. rewrite forget_scope_eq, Hnf in *.
  cbn zeta in *. pose proof (destroy_scope_keys_spec scope now (registry rt)) as Hd.
  set (r1 := (destroy_scope_keys scope now (registry rt)).1) in *.
  assert (Hr1 : is_scope_forgotten r1 scope = true /\ get_scope_dek r1 scope = None).
  { unfold r1. destruct (destroy_scope_keys scope now (registry rt)) as [r' ev]. destruct Hd as (_ & Hs & Hf & _). cbn [fst].
    unfold is_scope_forgotten, get_scope_dek. rewrite Hs, Hf, lookup_delete_eq, lookup_insert_eq. split; [by apply bool_decide_true|done]. }
  pose proof (record_forgotten_spec scope now r1 (store rt)) as Hrec.
  pose proof (fun Hs => quiet_record_forgotten scope now r1 Hs (store rt)) as Hq.
  destruct (record_forgotten scope now r1 (store rt)) as [s1 [[]|e]]; destruct Hrec as (Hrows & Hkeys & Hok).
  - pose proof (forget_tail_spec scope (mk_runtime r1 s1)) as Ht.
    destruct (let '(rt1, _) := on_store (delete_scope_dek scope) (mk_runtime r1 s1) in _) as [rt' res].
    destruct Ht as (Hreg & Hfr & Hep & Hquiet). cbn [registry store fst] in *. rewrite Hreg, Hfr, Hep. destruct (Hok eq_refl) as [Ht Hte].
    destruct Hr1 as [Hr1 Hr2]. do 3 (split; [done|]). split; [by left|]. split; [done|]. intros Hf Hs. apply Hquiet. by apply Hq.
  - cbn [registry store fst is_ok] in *. destruct Hr1 as [Hr1 Hr2]. do 3 (split; [done|]). split; [right; by split_and!|]. split; [done|].
    intros Hf Hs. by destruct (Hq Hs Hf).
Qed.


(** *** The key of a scope that is not forgotten *)

Section Kept.
Context (master : AeadKey) (x : uuid).

(** The row of the scope unwraps to this key. *)
Definition row_key (k : AeadKey) (db : Db) : Prop :=
  exists w row, derived master (string_bytes "scope-dek-wrap:v1") = Ok w /\ scope_dek_rows db !! x = Some row /\
    unwrap_row w x row = Ok k.
Lemma row_key_unique k k' db : row_key k db -> row_key k' db -> k = k'.
Proof. intros (w & row & Hw & Hr & Hk) (w' & row' & Hw' & Hr' & Hk'). congruence. Qed.

(** What is cached is on disk; [ok], if given, is the key on disk. *)
Definition kept_store (ok : option AeadKey) (db : Db) (mk : AeadKey) (ks : gmap uuid AeadKey) : Prop :=
  mk = master /\ forgotten_rows db !! x = None /\ (forall k, ks !! x = Some k -> row_key k db) /\
  (forall k, ok = Some k -> row_key k db).
Definition kept_registry (ok : option AeadKey) (r : DekRegistry) (db : Db) : Prop :=
  is_scope_forgotten r x = false /\
  match scope_deks r !! x with Some d => sd_destroyed d = false /\ row_key (sd_bytes d) db | None => ok = None end.
Definition kept (ok : option AeadKey) (st : session) : Prop :=
  match st with
  | Down db => forgotten_rows db !! x = None /\ forall k, ok = Some k -> row_key k db
  | Running rt => about (kept_store ok) (store rt) /\ kept_registry ok (registry rt) (conn (store rt))
  end.

Lemma row_key_insert k y row db : y <> x \/ scope_dek_rows db !! y = None ->
  row_key k db -> row_key k (with_dek_rows db (<[y := row]> (scope_dek_rows db))).
Proof.
  intros Hy (w & row' & Hw & Hr & Hu). exists w, row'. split_and!; [done| |done]. cbn.
  rewrite lookup_insert_ne; [done|]. intros ->. destruct Hy; congruence.
Qed.

Lemma kept_ensure ok (io : Io Nonce) scope : pres (about (kept_store ok)) (ensure_scope_dek io scope).
Proof.
  apply pres_ensure_scope_dek; unfold new_row_ok, kept_store.
  - intros db mk ks k (-> & Hf & Hks & Hok) w row Hw Hr Hu. split_and!; [done..| |done].
    intros k'. destruct (decide (scope = x)) as [->|Hne]; [|rewrite lookup_insert_ne by done; apply Hks].
    rewrite lookup_insert_eq. intros [= <-]. by exists w, row.
  - intros db mk ks k w row (-> & Hf & Hks & Hok) Hr Hk Hw Hu. split_and!; [done..| |].
    + intros k'. destruct (decide (scope = x)) as [->|Hne].
      * rewrite lookup_insert_eq. intros [= <-]. exists w, row. cbn. by rewrite lookup_insert_eq.
      * rewrite lookup_insert_ne by done. intros Hk'. apply row_key_insert; [by left|by apply Hks].
    + intros k' Hk'. apply row_key_insert; [by right|by apply Hok].
Qed.

Lemma kept_forget_closed ok scope : scope <> x -> forget_closed (kept_store ok) scope.
Proof.
  intros Hne. split; [split|..]; intros db mk ks; unfold kept_store.
  - intros at_ (-> & Hf & Hks & Hok). split_and!; [done| |done..]. cbn.
    by rewrite lookup_insert_or_ignore, Hf, decide_False.
  - done.
  - assert (Hrow : forall k, row_key k db -> row_key k (with_dek_rows db (delete scope (scope_dek_rows db)))).
    { intros k (w & row & Hw & Hr & Hu). exists w, row. cbn. by rewrite lookup_delete_ne. }
    intros (-> & Hf & Hks & Hok). split_and!; [done..| |]; auto.
  - intros (-> & Hf & Hks & Hok). split_and!; try done. intros k. rewrite lookup_delete_ne by done. apply Hks.
Qed.

(** The key [ensure_scope_dek] answers is then cached. *)
Lemma ensure_cached (io : Io Nonce) scope s s' key :
  ensure_scope_dek io scope s = (s', Ok key) -> scope_keys s' !! scope = Some key.
Proof.
  unfold ensure_scope_dek, try_eff at 1, get. destruct (scope_keys s !! scope) as [k|] eqn:Ek; [intros [= <- <-]; exact Ek|].
  unfold try_eff at 1, dek_wrapping_key at 1. destruct (derived (master_key s) _) as [w|e]; [|done].
  unfold try_eff at 1. match goal with |- context [query ?f s] => set (q := f) end.
  destruct (query q s) as [s1 [db_row|e]] eqn:E1; [|done]. destruct (query_spec _ _ _ _ E1) as (Hc1 & _ & _ & Ha1).
  specialize (Ha1 _ eq_refl). subst db_row q. cbv beta. destruct (scope_dek_rows (conn s) !! scope) as [row|] eqn:Er.
  - unfold try_eff, lift, cache_key, modify. destruct (unwrap_row w scope row) as [k|e]; [|done]. intros [= <- <-]. cbn. by rewrite lookup_insert_eq.
  - assert (Hstore : forall k s2 s3 r, conn s2 = conn s -> store_scope_dek io scope k s2 = (s3, r) -> is_ok r = true ->
      scope_keys s3 !! scope = Some k).
    { intros k s2 s3 r Hc2. unfold store_scope_dek, try_eff, dek_wrapping_key, lift.
      destruct (derived (master_key s2) _) as [w'|e]; [|by intros [= <- <-]].
      destruct (encrypt_aead _ _ _ _) as [ct|]; [|by intros [= <- <-]]. cbn [ok_or]. unfold statement.
      destruct (faults s2) as [|[] fs]; [|by intros [= <- <-]|]; rewrite bool_decide_true by (by rewrite Hc2);
        intros [= <- <-] _; cbn; by rewrite lookup_insert_eq. }
    unfold try_eff at 1. match goal with |- context [query ?f s1] => set (q := f) end.
    destruct (query q s1) as [s2 [has|e]] eqn:E2; [|done]. destruct (query_spec _ _ _ _ E2) as (Hc2 & _ & _ & _).
    specialize (fun k s3 r => Hstore k s2 s3 r ltac:(congruence)). destruct has.
    + unfold try_eff. destruct (derived (master_key s2) (body_label scope)) as [k|e]; [|done].
      destruct (store_scope_dek io scope k s2) as [s3 [[]|e]] eqn:E3; [|done]. intros [= <- <-]. by apply (Hstore _ _ _ E3).
    + unfold try_eff. destruct (store_scope_dek io scope (io_key io) s2) as [s3 [[]|e]] eqn:E3; [|done].
      intros [= <- <-]. by apply (Hstore _ _ _ E3).
Qed.

Lemma unwrap_rows_spec w rows out deks :
  unwrap_rows w rows out = Ok deks -> NoDup rows.*1 ->
  match list_to_map (M := gmap uuid (DekRow Nonce)) rows !! x with
  | Some row => exists k, unwrap_row w x row = Ok k /\ deks !! x = Some k
  | None => deks !! x = out !! x
  end.
Proof.
  revert out. induction rows as [|[y row] rows IH]; intros out Hu Hnd; [cbn; by injection Hu as ->|].
  cbn [unwrap_rows] in Hu. destruct (unwrap_row w y row) as [k|e] eqn:Ek; [|done]. cbn [try_result] in Hu.
  cbn [fmap list_fmap fst] in Hnd. apply NoDup_cons in Hnd as [Hy Hnd]. specialize (IH _ Hu Hnd). cbn.
  destruct (decide (y = x)) as [->|Hne].
  - rewrite lookup_insert_eq. exists k. split; [done|].
    rewrite (not_elem_of_list_to_map_1 rows x Hy) in IH. by rewrite IH, lookup_insert_eq.
  - rewrite lookup_insert_ne by done. destruct (list_to_map rows !! x); [exact IH|]. by rewrite IH, lookup_insert_ne.
Qed.

Lemma kept_registry_insert ok r db d :
  kept_registry ok r db -> sd_scope_id d <> x -> kept_registry ok (insert_scope_dek d r) db.
Proof. intros [Hf Hd] Hne. split; [exact Hf|]. cbn. by rewrite lookup_insert_ne. Qed.

(** A change of the store that keeps every key keeps what the registry says. *)
Lemma kept_registry_store ok r (s s' : Store) :
  (forall ok', about (kept_store ok') s -> about (kept_store ok') s') ->
  about (kept_store ok) s -> kept_registry ok r (conn s) -> kept_registry ok r (conn s').
Proof.
  intros Hpres Hs [Hf Hd]. split; [done|]. destruct (scope_deks r !! x) as [d|]; [|done]. destruct Hd as [Hdd Hk].
  split; [done|]. assert (H1 : about (kept_store (Some (sd_bytes d))) s).
  { destruct Hs as (Hm & Hfr & Hks & _). split_and!; try done. by intros k [= <-]. }
  apply Hpres in H1 as (_ & _ & _ & H1). by apply H1.
Qed.

Lemma kept_open ok db fs now :
  kept ok (Down db) ->
  kept ok match open_store db master fs now with (_, Ok rt) => Running rt | (s, Err _) => Down (conn s) end.
Proof.
  intros Hk. pose proof (open_store_spec db master fs now) as Hs. destruct (open_store db master fs now) as [s [rt|e]] eqn:Ho;
    [|by rewrite <- Hs in Hk].
  destruct Hk as [Hfr Hok].
  destruct (opened_spec master db fs now x rt s Ho) as (_ & Hm & Hfr' & Hf & deks & w & Hw & Hu & Hx).
  rewrite bool_decide_false in Hf by (rewrite Hfr; by intros [? ?]). rewrite Hf in Hx. destruct Hx as (Hc & Hr & Hd).
  pose proof (unwrap_rows_spec w _ ∅ deks Hu (NoDup_fst_map_to_list _)) as Hsp. rewrite list_to_map_to_list, lookup_empty in Hsp.
  assert (Hrow : forall k, row_key k db <-> row_key k (conn (store rt))) by (intros k; unfold row_key; by rewrite Hr).
  assert (Hdk : forall k, deks !! x = Some k -> row_key k db).
  { intros k Hk. destruct (scope_dek_rows db !! x) as [row|] eqn:Er; [|congruence]. destruct Hsp as (k' & Hk' & Hk2).
    exists w, row. split_and!; [done..|]. congruence. }
  split; [split_and!|split; [done|]].
  - exact Hm.
  - by rewrite Hfr'.
  - intros k Hk. rewrite Hc in Hk. by apply Hrow, Hdk.
  - intros k Hk. by apply Hrow, Hok.
  - rewrite Hd. destruct (deks !! x) as [k|] eqn:Ek; cbn; [split; [done|]; by apply Hrow, Hdk|].
    destruct ok as [k|]; [|done]. destruct (Hok k eq_refl) as (w' & row & _ & Hr' & _). rewrite Hr' in Hsp.
    destruct Hsp as (? & _ & ?). congruence.
Qed.

Lemma kept_step ok st st' : session_step master (fun s => s <> x) st st' -> kept ok st -> kept ok st'.
Proof.
  intros Hst. destruct Hst as [db fs now|rt io scope fs|rt scope now fs Hne|rt]; intros Hk.
  - by apply kept_open.
  - destruct Hk as [Hs Hr].
    assert (Hpres : forall ok', about (kept_store ok') (store rt) ->
              about (kept_store ok') (store (ingest_message io scope (refault fs rt)).1)).
    { intros ok' Hs'. apply (ingest_frame (kept_store ok') io scope (refault fs rt)); [by apply kept_ensure|done|exact Hs']. }
    destruct (ingest_frame (kept_store ok) io scope (refault fs rt) (kept_ensure ok io scope) ltac:(done) Hs) as [Hs' Hreg].
    split; [exact Hs'|]. pose proof (kept_registry_store ok _ _ _ Hpres Hs Hr) as Hr'.
    destruct Hreg as [-> |(_ & key & s1 & -> & He & Hkeys)]; [exact Hr'|]. destruct (decide (scope = x)) as [->|Hne].
    + apply ensure_cached in He. rewrite <- Hkeys in He. destruct Hr' as [Hf _]. split; [exact Hf|]. cbn. rewrite lookup_insert_eq.
      split; [done|]. destruct Hs' as (_ & _ & Hks & _). by apply Hks.
    + by apply kept_registry_insert.
  - destruct Hk as [Hs Hr].
    assert (Hpres : forall ok', about (kept_store ok') (store rt) ->
              about (kept_store ok') (store (forget_scope_state scope now (refault fs rt)).1)).
    { intros ok' Hs'. apply (forget_scope_state_frame (kept_store ok') scope now (refault fs rt)); [by apply kept_forget_closed|exact Hs']. }
    destruct (forget_scope_state_frame (kept_store ok) scope now (refault fs rt) (kept_forget_closed ok scope Hne) Hs) as [Hs' Hreg].
    split; [exact Hs'|]. pose proof (kept_registry_store ok _ _ _ Hpres Hs Hr) as Hr'.
    destruct Hreg as [-> |[_ ->]]; [exact Hr'|]. destruct Hr' as [Hf Hd]. cbn [registry refault] in *.
    pose proof (destroy_scope_keys_spec scope now (registry rt)) as Hk. destruct (destroy_scope_keys scope now (registry rt)) as [r' ev].
    destruct Hk as (_ & Hsd & Hfs & _). cbn [fst]. unfold kept_registry, is_scope_forgotten in *.
    by rewrite Hsd, Hfs, lookup_insert_ne, lookup_delete_ne.
  - destruct Hk as [(_ & Hf & _ & Hok) _]. by split.
Qed.

(** What was written stays readable.  Take any run from a database without a
    tombstone for the scope in which the scope is not forgotten, and a write to it
    that succeeds.  It leaves a key for the scope in the registry, and through
    whatever follows (failing statements, restarts, other scopes' writes and
    forgettings) every process that has the store open has this very key for the
    scope wherever it has one, in the registry and in the cache, and so has the next
    process that opens the store. *)
Theorem key_survives (db : Db) rt (io : Io Nonce) rt' :
  forgotten_rows db !! x = None ->
  rtc (session_step master (fun s => s <> x)) (Down db) (Running rt) -> ingest_message io x rt = (rt', Ok tt) ->
  exists d, get_scope_dek (registry rt') x = Some d /\
    forall st, rtc (session_step master (fun s => s <> x)) (Running rt') st ->
      (forall rt2, st = Running rt2 -> is_scope_forgotten (registry rt2) x = false /\
         (exists d2, get_scope_dek (registry rt2) x = Some d2 /\ sd_bytes d2 = sd_bytes d) /\
         forall k, scope_keys (store rt2) !! x = Some k -> k = sd_bytes d) /\
      (forall db2 fs now s2 rt2, st = Down db2 -> open_store db2 master fs now = (s2, Ok rt2) ->
         exists d2, get_scope_dek (registry rt2) x = Some d2 /\ sd_bytes d2 = sd_bytes d).
Proof.
  intros Hdb Hrun Hin. assert (Hk : kept None (Running rt)).
  { eapply (rtc_preserves _ (kept None)); [intros st1 st2; apply kept_step|exact Hrun|by split]. }
  assert (Hrt' : Running rt' = Running (ingest_message io x (refault (faults (store rt)) rt)).1).
  { replace (refault (faults (store rt)) rt) with rt by (by destruct rt as [r []]). by rewrite Hin. }
  assert (Hk' : kept None (Running rt')) by (rewrite Hrt'; eapply kept_step, Hk; apply do_ingest).
  assert (Hdek : exists d, scope_deks (registry rt') !! x = Some d).
  { destruct Hk as (_ & Hf & Hd). destruct rt as [r s]. rewrite ingest_eq in Hin. cbn [registry] in *. rewrite Hf in Hin.
    unfold get_scope_dek in Hin. destruct (scope_deks r !! x) as [d|] eqn:Ed.
    - destruct Hd as [Hdd _]. rewrite Hdd in Hin. injection Hin as <- _. cbn. by exists d.
    - destruct (ensure_scope_dek io x s) as [s1 [key|e]]; [|done]. injection Hin as <- _. cbn. rewrite lookup_insert_eq. by eexists. }
  destruct Hdek as [d Hd]. destruct Hk' as [Hs Hr]. pose proof Hr as [Hf Hd']. rewrite Hd in Hd'. destruct Hd' as [Hdd Hrow].
  exists d. split; [unfold get_scope_dek; by rewrite Hd, Hdd|].
  assert (H0 : kept (Some (sd_bytes d)) (Running rt')).
  { destruct Hs as (Hm & Hfr & Hks & _). split; [split_and!; try done; by intros k [= <-]|]. split; [done|]. by rewrite Hd. }
  assert (Hsame : forall rt2, kept (Some (sd_bytes d)) (Running rt2) -> is_scope_forgotten (registry rt2) x = false /\
         (exists d2, get_scope_dek (registry rt2) x = Some d2 /\ sd_bytes d2 = sd_bytes d) /\
         forall k, scope_keys (store rt2) !! x = Some k -> k = sd_bytes d).
  { intros rt2 [(_ & _ & Hks & Hok) [Hf2 Hd2]]. specialize (Hok _ eq_refl). split; [done|]. split.
    - unfold get_scope_dek. destruct (scope_deks (registry rt2) !! x) as [d2|]; [|done]. destruct Hd2 as [Hdd2 Hrow2]. rewrite Hdd2.
      exists d2. split; [done|]. eapply row_key_unique; eassumption.
    - intros k Hk2. eapply row_key_unique; [by apply Hks|exact Hok]. }
  intros st Hst. assert (H1 : kept (Some (sd_bytes d)) st).
  { eapply (rtc_preserves _ (kept _)); [intros st1 st2; apply kept_step|exact Hst|exact H0]. }
  split; [intros rt2 ->; by apply Hsame|]. intros db2 fs now s2 rt2 -> Ho. apply (kept_open _ db2 fs now) in H1. rewrite Ho in H1.
  apply (Hsame rt2 H1).
Qed.
End Kept.
End Facts.

(** ** Runs *)

Module Concrete.
(** A cipher that writes the key in front of the text, a derivation that pads the
    label, and seconds since the epoch. *)
#[export] Instance prefix_aead : Aead (list N) unit (list N).
Proof.
  refine {| encrypt_aead k _ pt _ := Some (k ++ pt);
            decrypt_aead k _ ct _ := if bool_decide (take (length k) ct = k) then Some (drop (length k) ct) else None |}.
  intros k n pt aad ct [= <-]. by rewrite take_app_length, drop_app_length, bool_decide_true.
Defined.
#[export] Instance padding_hkdf : Hkdf.
Proof.
  refine {| derive_key _ label := Ok (take AEAD_KEY_LEN (label ++ replicate AEAD_KEY_LEN 0%N)) |}.
  intros _ label k Hk. assert (k = take AEAD_KEY_LEN (label ++ replicate AEAD_KEY_LEN 0%N)) as -> by congruence.
  rewrite length_take, length_app, length_replicate. lia.
Defined.
#[export] Instance letter_uuid : UuidText := { uuid_to_string u := String (Ascii.ascii_of_N u) EmptyString }.
#[export] Instance seconds : UnixTime := { timestamp_opt u := Some (u * 1000000000)%Z }.
#[export] Existing Instance hash_order_id.

Definition io : Io unit := mk_io tt (replicate 32 5%N) eq_refl 0.
Definition empty : Database unit := mk_db ∅ ∅ ∅ ∅.
Definition opened (db : Database unit) : @FfiRuntime unit :=
  match open_store db [] [] 0 with (_, Ok rt) => rt | (s, Err _) => mk_runtime new_registry s end.
Definition written : @FfiRuntime unit := (ingest_message io 7 (opened empty)).1.

(** The tombstone of the first call is never written, although the second call says
    that all is well; after a restart the scope is not forgotten and takes new rows,
    and the key of the old ones is gone. *)
Definition failed_once := forget_scope_state 7 1 (refault [true] written).
Definition tried_again := forget_scope_state 7 2 (refault [] failed_once.1).
Definition reopened := opened (conn (store tried_again.1)).
Example failed_forget_is_not_made_up_for :
  is_ok failed_once.2 = false /\ tried_again.2 = Ok tt /\
  bool_decide (forgotten_rows (conn (store tried_again.1)) !! 7%N = None) = true /\
  bool_decide (scope_dek_rows (conn (store tried_again.1)) !! 7%N = None) = true /\
  is_scope_forgotten (registry reopened) 7 = false /\ is_ok (ingest_message io 7 reopened).2 = true.
Proof. split_and!; vm_compute; reflexivity. Qed.

(** A call that succeeds may leave the key in the cache and its row on disk, until
    the store is opened again. *)
Definition half_forgotten := forget_scope_state 7 1 (refault [false; false; true] written).
Example forget_may_leave_the_key :
  half_forgotten.2 = Ok tt /\ bool_decide (is_Some (scope_keys (store half_forgotten.1) !! 7%N)) = true /\
  bool_decide (is_Some (scope_dek_rows (conn (store half_forgotten.1)) !! 7%N)) = true /\
  bool_decide (scope_dek_rows (conn (store (opened (conn (store half_forgotten.1))))) !! 7%N = None) = true.
Proof. split_and!; vm_compute; reflexivity. Qed.

Lemma opened_run allowed db : is_ok (open_store db [] [] 0).2 = true ->
  rtc (session_step [] allowed) (Down db) (Running (opened db)).
Proof.
  intros Hok. apply rtc_once. pose proof (do_open [] allowed db [] 0) as Hst. unfold opened.
  by destruct (open_store db [] [] 0) as [s [rt|e]].
Qed.
End Concrete.
Import Concrete.

Lemma forgotten_is_final_witness :
  let db := conn (store Concrete.half_forgotten.1) in
  get_scope_dek (registry (Concrete.opened db)) 7 = None /\
  ingest_message Concrete.io 7 (Concrete.opened db) = (Concrete.opened db, Err NotFoundScope).
Proof.
  intros db. assert (Ht : is_Some (forgotten_rows db !! 7%N)) by (apply (bool_decide_unpack _); vm_compute; reflexivity).
  pose proof (forgotten_is_final [] (fun _ => True) db 7 _ Ht (Concrete.opened_run _ db ltac:(vm_compute; reflexivity))) as Hf.
  destruct Hf as (_ & _ & _ & Hd & _ & Hin). split; [exact Hd|apply Hin].
Defined.


(** Written, closed and opened again: the same key. *)
Lemma key_survives_witness :
  exists d, get_scope_dek (registry Concrete.written) 7 = Some d /\
    exists d2, get_scope_dek (registry (Concrete.opened (conn (store Concrete.written)))) 7 = Some d2 /\ sd_bytes d2 = sd_bytes d.
Proof.
  destruct (key_survives [] 7 Concrete.empty (Concrete.opened Concrete.empty) Concrete.io Concrete.written) as (d & Hd & Hrun).
  - vm_compute. reflexivity.
  - apply Concrete.opened_run. vm_compute. reflexivity.
  - unfold Concrete.written. assert (Hok : is_ok (ingest_message Concrete.io 7 (Concrete.opened Concrete.empty)).2 = true) by (vm_compute; reflexivity).
    destruct (ingest_message Concrete.io 7 (Concrete.opened Concrete.empty)) as [rt' [[]|e]]; [done|discriminate Hok].
  - exists d. split; [exact Hd|]. destruct (Hrun _ (rtc_once _ _ (do_close [] _ Concrete.written))) as [_ Hopen].
    assert (Hok : is_ok (open_store (conn (store Concrete.written)) [] [] 0).2 = true) by (vm_compute; reflexivity).
    specialize (Hopen (conn (store Concrete.written)) [] 0%Z). unfold Concrete.opened.
    destruct (open_store (conn (store Concrete.written)) [] [] 0) as [s2 [rt2|e]]; [|discriminate Hok].
    by apply (Hopen s2 rt2).
Defined.
