(* ===== verification/Wal.v ===== *)
(** * Write-ahead-log shipping ([substrate_server/src/replication/mod.rs])

    The SQLite WAL format, parsed and written; the segments a primary ships; and
    the shipper that cuts the new committed frames out of successive snapshots of
    a WAL file. *)

From S2P Require Import Prelude.

(** ** Bytes *)

(** [&l[i..j]]. *)
Definition slice (i j : nat) (l : list N) : list N := take (j - i) (drop i l).
(** [u32::from_be_bytes], [u64::from_be_bytes]. *)
Definition from_be_bytes (l : list N) : N := foldl (fun a b => a * 256 + b)%N 0%N l.
(** [u32::from_le_bytes]. *)
Definition from_le_bytes (l : list N) : N := from_be_bytes (rev l).
Definition u32_at (l : list N) (i : nat) : N := from_be_bytes (slice i (i + 4) l).
Definition u64_at (l : list N) (i : nat) : N := from_be_bytes (slice i (i + 8) l).
Definition is_byte (b : N) : Prop := (b < 256)%N.
Definition is_u32 (n : N) : Prop := (n <= u32_max)%N.
Definition is_u64 (n : N) : Prop := (n <= u64_max)%N.

(** [u32::wrapping_add]. *)
Definition u32_wrapping_add (a b : N) : N := ((a + b) mod 4294967296)%N.
(** [u32::is_power_of_two]. *)
Definition is_power_of_two (n : N) : bool := (0 <? n)%N && (N.land n (n - 1) =? 0)%N.

(** [enum ReplError]; the messages leave out the numbers formatted into them. *)
Inductive ReplError : Type :=
| Malformed (what : string)
| BadMagic (magic : N)
| TransportFailed (what : string)
| BadRole (role : string)
| Misconfigured (what : string).

(** ** The WAL format *)

Definition WAL_HEADER_SIZE : nat := 32.
Definition FRAME_HEADER_SIZE : nat := 24.
Definition WAL_MAGIC_LE : N := 0x377f0682.
Definition WAL_MAGIC_BE : N := 0x377f0683.
(** The format version the encoder writes. *)
Definition WAL_VERSION : N := 3007000.

Inductive ChecksumOrder : Type := Little | Big.
Definition from_magic (magic : N) : result ChecksumOrder ReplError :=
  if (magic =? WAL_MAGIC_LE)%N then Ok Little
  else if (magic =? WAL_MAGIC_BE)%N then Ok Big
  else Err (BadMagic magic).
Definition magic (o : ChecksumOrder) : N := match o with Little => WAL_MAGIC_LE | Big => WAL_MAGIC_BE end.
Definition read_u32 (o : ChecksumOrder) (b : list N) : N :=
  match o with Little => from_le_bytes b | Big => from_be_bytes b end.

(** [wal_checksum]: eight bytes at a time. *)
Fixpoint wal_checksum (order : ChecksumOrder) (init : N * N) (data : list N) : N * N :=
  match data with
  | b0 :: b1 :: b2 :: b3 :: b4 :: b5 :: b6 :: b7 :: data =>
      let '(s0, s1) := init in
      let x0 := read_u32 order [b0; b1; b2; b3] in
      let x1 := read_u32 order [b4; b5; b6; b7] in
      let s0 := u32_wrapping_add (u32_wrapping_add s0 x0) s1 in
      let s1 := u32_wrapping_add (u32_wrapping_add s1 x1) s0 in
      wal_checksum order (s0, s1) data
  | _ => init
  end.

(** [struct WalHeader], [struct WalFrame], [struct ParsedWal]. *)
Record WalHeader : Type := mk_header {
  order : ChecksumOrder;
  page_size : N;
  checkpoint_seq : N;
  salt1 : N;
  salt2 : N;
  checksum : N * N
}.
Record WalFrame : Type := mk_frame {
  page_number : N;
  db_size_after_commit : N;
  page_data : list N
}.
Record ParsedWal : Type := mk_parsed { header : WalHeader; frames : list WalFrame }.

(** [WalFrame::is_commit]. *)
Definition is_commit (f : WalFrame) : bool := negb (db_size_after_commit f =? 0)%N.

(** The size test of [parse_wal] and [WalSegment::decode]. *)
Definition implausible (page_size : N) : bool := (page_size <? 512)%N || negb (is_power_of_two page_size).

(** The loop of [parse_wal] on the bytes from [offset] on; [None] when the fuel
    runs out. *)
Fixpoint parse_frames (fuel : nat) (h : WalHeader) (running : N * N) (bytes : list N) : option (list WalFrame) :=
  let frame_size := (FRAME_HEADER_SIZE + N.to_nat (page_size h))%nat in
  if (length bytes <? frame_size)%nat then Some []
  else
    match fuel with
    | O => None
    | S fuel =>
        let fh := slice 0 FRAME_HEADER_SIZE bytes in
        let stored_ck := (u32_at fh 16, u32_at fh 20) in
        if negb (u32_at fh 8 =? salt1 h)%N || negb (u32_at fh 12 =? salt2 h)%N then Some []
        else
          let page := slice FRAME_HEADER_SIZE frame_size bytes in
          let after_prefix := wal_checksum (order h) running (slice 0 8 fh) in
          let computed := wal_checksum (order h) after_prefix page in
          if negb (bool_decide (computed = stored_ck)) then Some []
          else
            fs ← parse_frames fuel h computed (drop frame_size bytes);
            Some ({| page_number := u32_at fh 0; db_size_after_commit := u32_at fh 4; page_data := page |} :: fs)
    end.

(** [parse_wal]. *)
Definition parse_wal (bytes : list N) : option (result ParsedWal ReplError) :=
  if (length bytes <? WAL_HEADER_SIZE)%nat then Some (Err (Malformed "WAL is shorter than the header"))
  else
    match from_magic (u32_at bytes 0) with
    | Err e => Some (Err e)
    | Ok order =>
        let raw_page_size := u32_at bytes 8 in
        let page_size := if (raw_page_size =? 1)%N then 65536%N else raw_page_size in
        if implausible page_size then Some (Err (Malformed "implausible WAL page size"))
        else
          let stored_hdr_ck := (u32_at bytes 24, u32_at bytes 28) in
          let computed_hdr_ck := wal_checksum order (0, 0)%N (slice 0 24 bytes) in
          if negb (bool_decide (computed_hdr_ck = stored_hdr_ck)) then
            Some (Err (Malformed "WAL header checksum mismatch"))
          else
            let header := {| order := order; page_size := page_size; checkpoint_seq := u32_at bytes 12;
                             salt1 := u32_at bytes 16; salt2 := u32_at bytes 20; checksum := stored_hdr_ck |} in
            fs ← parse_frames (length bytes) header stored_hdr_ck (drop WAL_HEADER_SIZE bytes);
            Some (Ok {| header := header; frames := fs |})
    end.

(** [encode_wal]: the header, and the loop over the frames. *)
Definition encode_header (h : WalHeader) : list N * (N * N) :=
  let stored_page_size := if (page_size h =? 65536)%N then 1%N else page_size h in
  let out := be_bytes 4 (magic (order h)) ++ be_bytes 4 WAL_VERSION ++ be_bytes 4 stored_page_size
             ++ be_bytes 4 (checkpoint_seq h) ++ be_bytes 4 (salt1 h) ++ be_bytes 4 (salt2 h) in
  let hdr_ck := wal_checksum (order h) (0, 0)%N out in
  (out ++ be_bytes 4 hdr_ck.1 ++ be_bytes 4 hdr_ck.2, hdr_ck).
Fixpoint encode_frames (h : WalHeader) (running : N * N) (fs : list WalFrame) : result (list N) ReplError :=
  match fs with
  | [] => Ok []
  | f :: fs =>
      if negb (length (page_data f) =? N.to_nat (page_size h))%nat then
        Err (Malformed "frame page is not of the page size")
      else
        let prefix := be_bytes 4 (page_number f) ++ be_bytes 4 (db_size_after_commit f) in
        let after_prefix := wal_checksum (order h) running prefix in
        let computed := wal_checksum (order h) after_prefix (page_data f) in
        let fh := prefix ++ be_bytes 4 (salt1 h) ++ be_bytes 4 (salt2 h)
                  ++ be_bytes 4 computed.1 ++ be_bytes 4 computed.2 in
        let? out := encode_frames h computed fs in
        Ok (fh ++ page_data f ++ out)
  end.
Definition encode_wal (h : WalHeader) (fs : list WalFrame) : result (list N) ReplError :=
  let '(out, hdr_ck) := encode_header h in
  let? body := encode_frames h hdr_ck fs in
  Ok (out ++ body).

(** ** Segments *)

(** [SEGMENT_MAGIC]. *)
Definition SEGMENT_MAGIC : list N := string_bytes "KWL1".

(** [struct WalSegment]. *)
Record WalSegment : Type := mk_segment {
  seq : N;
  cumulative_frames : N;
  seg_page_size : N;
  seg_salt1 : N;
  seg_salt2 : N;
  seg_frames : list WalFrame
}.
Definition frame_count (s : WalSegment) : N := N.of_nat (length (seg_frames s)).

(** [WalSegment::encode]; [None] is the panic of [expect] on a count above
    [u32::MAX]. *)
Definition encode_frame (f : WalFrame) : list N :=
  be_bytes 4 (page_number f) ++ be_bytes 4 (db_size_after_commit f) ++ page_data f.
Definition encode (s : WalSegment) : option (list N) :=
  if (u32_max <? frame_count s)%N then None
  else
    Some (SEGMENT_MAGIC ++ be_bytes 8 (seq s) ++ be_bytes 8 (cumulative_frames s) ++ be_bytes 4 (seg_page_size s)
          ++ be_bytes 4 (seg_salt1 s) ++ be_bytes 4 (seg_salt2 s) ++ be_bytes 4 (frame_count s)
          ++ (seg_frames s ≫= encode_frame)).

(** The loop of [WalSegment::decode] on the bytes from [offset] on. *)
Definition SEGMENT_FIXED : nat := 36.
Fixpoint decode_frames (fuel : nat) (page_size count : N) (bytes : list N) :
    option (result (list WalFrame) ReplError) :=
  if (count =? 0)%N then Some (Ok [])
  else
    let per_frame := (8 + N.to_nat page_size)%nat in
    if (length bytes <? per_frame)%nat then Some (Err (Malformed "segment truncated before declared frame count"))
    else
      match fuel with
      | O => None
      | S fuel =>
          let f := {| page_number := u32_at bytes 0; db_size_after_commit := u32_at bytes 4;
                      page_data := slice 8 per_frame bytes |} in
          r ← decode_frames fuel page_size (count - 1) (drop per_frame bytes);
          Some (result_map (fun fs => f :: fs) r)
      end.

(** [WalSegment::decode]. *)
Definition decode (bytes : list N) : option (result WalSegment ReplError) :=
  if (length bytes <? SEGMENT_FIXED)%nat then Some (Err (Malformed "segment is shorter than the header"))
  else if negb (bool_decide (slice 0 4 bytes = SEGMENT_MAGIC)) then Some (Err (Malformed "segment magic mismatch"))
  else
    let page_size := u32_at bytes 20 in
    if implausible page_size then Some (Err (Malformed "segment declares implausible page size"))
    else
      r ← decode_frames (length bytes) page_size (u32_at bytes 32) (drop SEGMENT_FIXED bytes);
      Some (result_map (fun fs =>
        {| seq := u64_at bytes 4; cumulative_frames := u64_at bytes 12; seg_page_size := page_size;
           seg_salt1 := u32_at bytes 24; seg_salt2 := u32_at bytes 28; seg_frames := fs |}) r).

(** ** The shipper *)

(** [struct WalShipper]. *)
Record WalShipper : Type := mk_shipper {
  shipped_frames : nat;
  sh_cumulative_frames : N;
  next_seq : N;
  last_salts : option (N * N)
}.
Definition new : WalShipper := mk_shipper 0 0 1 None.

(** [iter().rposition(WalFrame::is_commit)]. *)
Fixpoint rposition_commit (fs : list WalFrame) : option nat :=
  match fs with
  | [] => None
  | f :: fs =>
      match rposition_commit fs with
      | Some i => Some (S i)
      | None => if is_commit f then Some 0%nat else None
      end
  end.

(** [next_segment] on a parsed snapshot, and on its bytes. *)
Definition next_of (parsed : ParsedWal) (s : WalShipper) : WalShipper * option WalSegment :=
  let salts := (salt1 (header parsed), salt2 (header parsed)) in
  let s := if bool_decide (last_salts s = Some salts) then s
           else mk_shipper 0 (sh_cumulative_frames s) (next_seq s) (Some salts) in
  if (length (frames parsed) <=? shipped_frames s)%nat then (s, None)
  else
    let new_frames := drop (shipped_frames s) (frames parsed) in
    match rposition_commit new_frames with
    | None => (s, None)
    | Some last_commit =>
        let to_ship := take (S last_commit) new_frames in
        let shipped := length to_ship in
        let cumulative := (sh_cumulative_frames s + N.of_nat shipped)%N in
        (mk_shipper (shipped_frames s + shipped) cumulative (next_seq s + 1) (last_salts s),
         Some {| seq := next_seq s; cumulative_frames := cumulative; seg_page_size := page_size (header parsed);
                 seg_salt1 := salt1 (header parsed); seg_salt2 := salt2 (header parsed); seg_frames := to_ship |})
    end.
Definition next_segment (wal_bytes : list N) : eff WalShipper ReplError (option WalSegment) := fun s =>
  match parse_wal wal_bytes with
  | None => (s, Err (Malformed "out of fuel"))
  | Some (Err e) => (s, Err e)
  | Some (Ok parsed) => let '(s, r) := next_of parsed s in (s, Ok r)
  end.

(** ** Numbers and their bytes *)

Definition from_le (l : list N) : N := foldr (fun b a => a * 256 + b)%N 0%N l.
Lemma from_be_rev l : from_be_bytes (rev l) = from_le l.
Proof.
  unfold from_be_bytes, from_le. induction l as [|b l IH]; [done|]. cbn [rev foldr]. by rewrite foldl_app, IH.
Qed.

Lemma from_le_bytes_of n x : (x < 256 ^ N.of_nat n)%N -> from_le (le_bytes n x) = x.
Proof.
  revert x. induction n as [|n IH]; intros x Hx; cbn [le_bytes from_le foldr].
  { rewrite N.pow_0_r in Hx. lia. }
  rewrite Nat2N.inj_succ, N.pow_succ_r' in Hx. unfold from_le in IH.
  rewrite IH by (apply N.Div0.div_lt_upper_bound; lia). pose proof (N.div_mod x 256). lia.
Qed.
Lemma from_be_bytes_of n x : (x < 256 ^ N.of_nat n)%N -> from_be_bytes (be_bytes n x) = x.
Proof. intros Hx. unfold be_bytes. by rewrite from_be_rev, from_le_bytes_of. Qed.
Lemma from_be_u32 x : is_u32 x -> from_be_bytes (be_bytes 4 x) = x.
Proof. intros Hx. apply from_be_bytes_of. unfold is_u32, u32_max in Hx. cbn. lia. Qed.
Lemma from_be_u64 x : is_u64 x -> from_be_bytes (be_bytes 8 x) = x.
Proof. intros Hx. apply from_be_bytes_of. unfold is_u64, u64_max in Hx. cbn. lia. Qed.

Lemma le_bytes_from l : Forall is_byte l -> le_bytes (length l) (from_le l) = l.
Proof.
  induction 1 as [|b l Hb Hl IH]; cbn [length le_bytes from_le foldr]; [done|].
  unfold is_byte in Hb. fold (from_le l).
  rewrite (N.add_comm _ b), N.Div0.mod_add, N.mod_small, N.div_add, N.div_small by done.
  by rewrite N.add_0_l, IH.
Qed.
Lemma be_bytes_from l : Forall is_byte l -> be_bytes (length l) (from_be_bytes l) = l.
Proof.
  intros Hl. pose proof (le_bytes_from (rev l) (Forall_rev Hl)) as H.
  unfold be_bytes. rewrite <- from_be_rev, rev_involutive, length_rev in H. by rewrite H, rev_involutive.
Qed.
Lemma from_le_bound l : Forall is_byte l -> (from_le l < 256 ^ N.of_nat (length l))%N.
Proof.
  induction 1 as [|b l Hb Hl IH]; cbn [length from_le foldr]; [done|]. fold (from_le l).
  rewrite Nat2N.inj_succ, N.pow_succ_r'. unfold is_byte in Hb. nia.
Qed.
Lemma from_be_bound l : Forall is_byte l -> (from_be_bytes l < 256 ^ N.of_nat (length l))%N.
Proof.
  intros Hl. pose proof (from_le_bound (rev l) (Forall_rev Hl)) as H.
  by rewrite <- from_be_rev, rev_involutive, length_rev in H.
Qed.

Lemma byte_le_bytes n x : Forall is_byte (le_bytes n x).
Proof. revert x. induction n as [|n IH]; intros x; constructor; [unfold is_byte; by apply N.mod_lt|done]. Qed.
Lemma byte_be_bytes n x : Forall is_byte (be_bytes n x).
Proof. apply Forall_rev, byte_le_bytes. Qed.

(** ** Slices of blocks *)

Lemma slice_block b l i j : slice (length b + i) (length b + j) (b ++ l) = slice i j l.
Proof.
  unfold slice. replace (length b + j - (length b + i))%nat with (j - i)%nat by lia. f_equal.
  rewrite drop_app_add. done.
Qed.
Lemma slice_here b l : slice 0 (length b) (b ++ l) = b.
Proof. unfold slice. by rewrite Nat.sub_0_r, drop_0, take_app_length. Qed.

Lemma u32_at_skip4 b l i : length b = 4%nat -> u32_at (b ++ l) (S (S (S (S i)))) = u32_at l i.
Proof. intros Hb. unfold u32_at. f_equal. pose proof (slice_block b l i (i + 4)) as H. rewrite Hb in H. exact H. Qed.
Lemma u32_at_skip8 b l i : length b = 8%nat -> u32_at (b ++ l) (8 + i) = u32_at l i.
Proof. intros Hb. unfold u32_at. f_equal. pose proof (slice_block b l i (i + 4)) as H. rewrite Hb in H. exact H. Qed.
Lemma u64_at_skip4 b l i : length b = 4%nat -> u64_at (b ++ l) (S (S (S (S i)))) = u64_at l i.
Proof. intros Hb. unfold u64_at. f_equal. pose proof (slice_block b l i (i + 8)) as H. rewrite Hb in H. exact H. Qed.
Lemma u64_at_skip8 b l i : length b = 8%nat -> u64_at (b ++ l) (8 + i) = u64_at l i.
Proof. intros Hb. unfold u64_at. f_equal. pose proof (slice_block b l i (i + 8)) as H. rewrite Hb in H. exact H. Qed.
Lemma u32_at_here x l : is_u32 x -> u32_at (be_bytes 4 x ++ l) 0 = x.
Proof.
  intros Hx. unfold u32_at. pose proof (slice_here (be_bytes 4 x) l) as H. rewrite length_be_bytes in H.
  cbn [Nat.add]. rewrite H. by apply from_be_u32.
Qed.
Lemma u64_at_here x l : is_u64 x -> u64_at (be_bytes 8 x ++ l) 0 = x.
Proof.
  intros Hx. unfold u64_at. pose proof (slice_here (be_bytes 8 x) l) as H. rewrite length_be_bytes in H.
  cbn [Nat.add]. rewrite H. by apply from_be_u64.
Qed.

(** A block read as a number is that number's bytes. *)
Lemma u32_block l i : Forall is_byte l -> (i + 4 <= length l)%nat -> be_bytes 4 (u32_at l i) = slice i (i + 4) l.
Proof.
  intros Hl Hlen. unfold u32_at. set (b := slice i (i + 4) l).
  assert (Hb : length b = 4%nat) by (unfold b, slice; rewrite length_take, length_drop; lia).
  rewrite <- Hb at 1. apply be_bytes_from. by apply Forall_take, Forall_drop.
Qed.
Lemma u32_at_u32 l i : Forall is_byte l -> is_u32 (u32_at l i).
Proof.
  intros Hl. unfold u32_at, is_u32, u32_max. set (b := slice i (i + 4) l).
  assert (Hf : Forall is_byte b) by by apply Forall_take, Forall_drop. pose proof (from_be_bound b Hf) as H.
  assert (Hb : (length b <= 4)%nat) by (unfold b, slice; rewrite length_take; lia).
  assert ((256 ^ N.of_nat (length b) <= 256 ^ 4)%N) by (apply N.pow_le_mono_r; lia). cbn in *. lia.
Qed.

Lemma u64_block l i : Forall is_byte l -> (i + 8 <= length l)%nat -> be_bytes 8 (u64_at l i) = slice i (i + 8) l.
Proof.
  intros Hl Hlen. unfold u64_at. set (b := slice i (i + 8) l).
  assert (Hb : length b = 8%nat) by (unfold b, slice; rewrite length_take, length_drop; lia).
  rewrite <- Hb at 1. apply be_bytes_from. by apply Forall_take, Forall_drop.
Qed.
Lemma u64_at_u64 l i : Forall is_byte l -> is_u64 (u64_at l i).
Proof.
  intros Hl. unfold u64_at, is_u64, u64_max. set (b := slice i (i + 8) l).
  assert (Hf : Forall is_byte b) by by apply Forall_take, Forall_drop. pose proof (from_be_bound b Hf) as H.
  assert (Hb : (length b <= 8)%nat) by (unfold b, slice; rewrite length_take; lia).
  assert ((256 ^ N.of_nat (length b) <= 256 ^ 8)%N) by (apply N.pow_le_mono_r; lia). cbn in *. lia.
Qed.

(** ** The WAL, written and read back *)

Definition is_ck (ck : N * N) : Prop := is_u32 ck.1 /\ is_u32 ck.2.
Lemma wrapping_u32 a b : is_u32 (u32_wrapping_add a b).
Proof. unfold is_u32, u32_wrapping_add, u32_max. pose proof (N.mod_lt (a + b) 4294967296). lia. Qed.
Lemma wal_checksum_u32 o init data : is_ck init -> is_ck (wal_checksum o init data).
Proof.
  revert init. remember (length data) as n eqn:Hn. revert data Hn.
  induction n as [n IH] using lt_wf_ind. intros data Hn init Hi.
  do 8 (destruct data as [|? data]; [exact Hi|]). cbn [wal_checksum]. destruct init as [s0 s1].
  eapply IH; [|reflexivity|]; [cbn in Hn; lia|]. split; apply wrapping_u32.
Qed.

(** What the encoder is given: a page size SQLite allows and fields of 32 bits. *)
Record header_ok (h : WalHeader) : Prop := {
  ho_page : implausible (page_size h) = false;
  ho_page_u32 : is_u32 (page_size h);
  ho_seq : is_u32 (checkpoint_seq h);
  ho_salt1 : is_u32 (salt1 h);
  ho_salt2 : is_u32 (salt2 h)
}.
Record frame_ok (page_size : N) (f : WalFrame) : Prop := {
  fo_page : is_u32 (page_number f);
  fo_size : is_u32 (db_size_after_commit f);
  fo_data : length (page_data f) = N.to_nat page_size
}.

(** The frame that follows in the chain after [running]. *)
Definition frame_checksum (h : WalHeader) (running : N * N) (f : WalFrame) : N * N :=
  wal_checksum (order h)
    (wal_checksum (order h) running (be_bytes 4 (page_number f) ++ be_bytes 4 (db_size_after_commit f)))
    (page_data f).
Definition frame_header (h : WalHeader) (running : N * N) (f : WalFrame) : list N :=
  (be_bytes 4 (page_number f) ++ be_bytes 4 (db_size_after_commit f)) ++ be_bytes 4 (salt1 h) ++ be_bytes 4 (salt2 h)
  ++ be_bytes 4 (frame_checksum h running f).1 ++ be_bytes 4 (frame_checksum h running f).2.

Lemma encode_frames_cons h running f fs :
  length (page_data f) = N.to_nat (page_size h) ->
  encode_frames h running (f :: fs) =
  let? out := encode_frames h (frame_checksum h running f) fs in Ok (frame_header h running f ++ page_data f ++ out).
Proof. intros Hf. cbn [encode_frames]. by rewrite Hf, Nat.eqb_refl. Qed.
Lemma encode_frames_ok h running f fs enc :
  encode_frames h running (f :: fs) = Ok enc ->
  length (page_data f) = N.to_nat (page_size h) /\
  exists out, encode_frames h (frame_checksum h running f) fs = Ok out /\ enc = frame_header h running f ++ page_data f ++ out.
Proof.
  intros He. destruct (decide (length (page_data f) = N.to_nat (page_size h))) as [Hf|Hf].
  - rewrite encode_frames_cons in He by done. destruct (encode_frames h (frame_checksum h running f) fs) as [out|]; [|done].
    injection He as <-. eauto.
  - cbn [encode_frames] in He. by rewrite (proj2 (Nat.eqb_neq _ _) Hf) in He.
Qed.

Lemma length_frame_header h running f : length (frame_header h running f) = FRAME_HEADER_SIZE.
Proof. unfold frame_header. by rewrite !length_app, !length_be_bytes. Qed.

(** The fields of a frame header. *)
Lemma frame_header_fields h running f :
  header_ok h -> is_ck running -> frame_ok (page_size h) f ->
  let fh := frame_header h running f in
  u32_at fh 0 = page_number f /\ u32_at fh 4 = db_size_after_commit f /\ u32_at fh 8 = salt1 h /\
  u32_at fh 12 = salt2 h /\ (u32_at fh 16, u32_at fh 20) = frame_checksum h running f /\
  slice 0 8 fh = be_bytes 4 (page_number f) ++ be_bytes 4 (db_size_after_commit f).
Proof.
  intros [_ _ _ H1 H2] Hr [Hp Hs _]. cbv zeta. unfold frame_header.
  assert (Hck : is_ck (frame_checksum h running f)) by by apply wal_checksum_u32, wal_checksum_u32.
  destruct (frame_checksum h running f) as [c1 c2]. destruct Hck as [Hc1 Hc2]. cbn [fst snd] in *.
  pose proof (slice_here (be_bytes 4 (page_number f) ++ be_bytes 4 (db_size_after_commit f))
    (be_bytes 4 (salt1 h) ++ be_bytes 4 (salt2 h) ++ be_bytes 4 c1 ++ be_bytes 4 c2)) as Hpre.
  rewrite length_app, !length_be_bytes in Hpre.
  rewrite <- !app_assoc. rewrite <- !app_assoc in Hpre.
  pose proof (fun n x => length_be_bytes n x) as Hl.
  rewrite !u32_at_skip4 by apply Hl. rewrite <- (app_nil_r (be_bytes 4 c2)), !u32_at_here by done.
  rewrite (app_nil_r (be_bytes 4 c2)). split_and!; try done.
Qed.

Lemma parse_one fuel h running f tail :
  header_ok h -> is_ck running -> frame_ok (page_size h) f ->
  parse_frames (S fuel) h running (frame_header h running f ++ page_data f ++ tail)
  = (fs ← parse_frames fuel h (frame_checksum h running f) tail; Some (f :: fs)).
Proof.
  intros Hh Hr Hf. pose proof (fo_data _ _ Hf) as Hd. cbn [parse_frames].
  set (size := (FRAME_HEADER_SIZE + N.to_nat (page_size h))%nat).
  assert (Hlen : length (frame_header h running f ++ page_data f) = size).
  { by rewrite length_app, length_frame_header, Hd. }
  rewrite (proj2 (Nat.ltb_ge _ _)) by (rewrite app_assoc, length_app, Hlen; lia).
  pose proof (slice_here (frame_header h running f) (page_data f ++ tail)) as Hs. rewrite length_frame_header in Hs.
  rewrite Hs.
  assert (Hpage : slice FRAME_HEADER_SIZE size (frame_header h running f ++ page_data f ++ tail) = page_data f).
  { pose proof (slice_block (frame_header h running f) (page_data f ++ tail) 0 (length (page_data f))) as H.
    rewrite length_frame_header, Nat.add_0_r, Hd, <- Hd, slice_here in H. unfold size. by rewrite <- Hd. }
  rewrite Hpage, (app_assoc _ _ tail), <- Hlen, drop_app_length.
  destruct (frame_header_fields h running f Hh Hr Hf) as (-> & -> & -> & -> & -> & ->).
  rewrite !N.eqb_refl. cbn [negb orb]. fold (frame_checksum h running f).
  rewrite bool_decide_eq_true_2 by done. cbn [negb]. by destruct f.
Qed.

(** The checksum after a run of frames. *)
Definition end_checksum (h : WalHeader) (running : N * N) (fs : list WalFrame) : N * N :=
  foldl (frame_checksum h) running fs.

Lemma frame_checksum_u32 h running f : is_ck running -> is_ck (frame_checksum h running f).
Proof. intros Hr. by apply wal_checksum_u32, wal_checksum_u32. Qed.

Lemma parse_encoded fuel h running fs enc tail :
  header_ok h -> is_ck running -> Forall (frame_ok (page_size h)) fs -> encode_frames h running fs = Ok enc ->
  parse_frames (length fs + fuel) h running (enc ++ tail)
  = (r ← parse_frames fuel h (end_checksum h running fs) tail; Some (fs ++ r)).
Proof.
  intros Hh Hr Hfs. revert running Hr enc. induction Hfs as [|f fs Hf Hfs IH]; intros running Hr enc He.
  { injection He as <-. cbn. by destruct (parse_frames fuel h running tail). }
  apply encode_frames_ok in He as (_ & out & Ho & ->). cbn [length Nat.add end_checksum foldl].
  rewrite <- !app_assoc, parse_one, (IH _ (frame_checksum_u32 h running f Hr) _ Ho) by done.
  fold (end_checksum h (frame_checksum h running f) fs).
  by destruct (parse_frames fuel h _ tail).
Qed.

(** More fuel changes nothing, and the bytes are enough. *)
Lemma parse_frames_fuel fuel fuel' h running bytes fs :
  parse_frames fuel h running bytes = Some fs -> (fuel <= fuel')%nat -> parse_frames fuel' h running bytes = Some fs.
Proof.
  revert fuel' running bytes fs. induction fuel as [|fuel IH]; intros fuel' running bytes fs Hp Hle.
  - cbn [parse_frames] in Hp. destruct fuel'; cbn [parse_frames]; by destruct (_ <? _)%nat.
  - destruct fuel' as [|fuel']; [lia|]. cbn [parse_frames] in *. destruct (_ <? _)%nat; [done|].
    destruct (_ || _); [done|]. destruct (negb _); [done|].
    match type of Hp with context [parse_frames fuel h ?c ?b] => destruct (parse_frames fuel h c b) as [r|] eqn:Er; [|done] end.
    by rewrite (IH fuel' _ _ _ Er) by lia.
Qed.
Lemma parse_frames_total h running bytes fuel :
  (length bytes <= fuel)%nat -> exists fs, parse_frames fuel h running bytes = Some fs.
Proof.
  revert running bytes. induction fuel as [|fuel IH]; intros running bytes Hlen; cbn [parse_frames].
  - rewrite (proj2 (Nat.ltb_lt _ _)) by (unfold FRAME_HEADER_SIZE; lia). eauto.
  - destruct (_ <? _)%nat; [eauto|]. destruct (_ || _); [eauto|]. destruct (negb _); [eauto|].
    match goal with |- context [parse_frames fuel h ?c ?b] => destruct (IH c b) as [fs ->]; [|eauto] end.
    rewrite length_drop. unfold FRAME_HEADER_SIZE. lia.
Qed.

(** A frame that parses is the encoding of what it parses to. *)
Lemma frame_header_bytes h running bytes :
  Forall is_byte bytes -> (FRAME_HEADER_SIZE <= length bytes)%nat ->
  let fh := slice 0 FRAME_HEADER_SIZE bytes in
  u32_at fh 8 = salt1 h -> u32_at fh 12 = salt2 h -> running = (u32_at fh 16, u32_at fh 20) ->
  fh = (be_bytes 4 (u32_at fh 0) ++ be_bytes 4 (u32_at fh 4)) ++ be_bytes 4 (salt1 h) ++ be_bytes 4 (salt2 h)
       ++ be_bytes 4 running.1 ++ be_bytes 4 running.2.
Proof.
  intros Hb Hlen fh <- <- ->. cbn [fst snd].
  assert (Hf : Forall is_byte fh) by by apply Forall_take, Forall_drop.
  assert (Hl : length fh = 24%nat) by (unfold fh, slice; rewrite length_take, length_drop; unfold FRAME_HEADER_SIZE in *; lia).
  rewrite !u32_block by (done || lia). clearbody fh. clear Hf Hb Hlen.
  do 24 (destruct fh as [|? fh]; [done|]). destruct fh; [|done]. reflexivity.
Qed.

Lemma prefix_bytes fh :
  Forall is_byte fh -> length fh = FRAME_HEADER_SIZE ->
  slice 0 8 fh = be_bytes 4 (u32_at fh 0) ++ be_bytes 4 (u32_at fh 4).
Proof.
  unfold FRAME_HEADER_SIZE. intros Hf Hl. rewrite !u32_block by (done || lia).
  do 24 (destruct fh as [|? fh]; [done|]). destruct fh; [|done]. reflexivity.
Qed.
Lemma slice_split i j (l : list N) : (i <= j)%nat -> l = slice 0 i l ++ slice i j l ++ drop j l.
Proof.
  intros Hij. unfold slice. rewrite Nat.sub_0_r, drop_0.
  replace (drop j l) with (drop (j - i) (drop i l)) by (rewrite drop_drop; f_equal; lia).
  by rewrite take_drop, take_drop.
Qed.

(** A step of the parser that finds a frame. *)
Lemma parse_step_exact h running bytes :
  let size := (FRAME_HEADER_SIZE + N.to_nat (page_size h))%nat in
  let fh := slice 0 FRAME_HEADER_SIZE bytes in
  let f := mk_frame (u32_at fh 0) (u32_at fh 4) (slice FRAME_HEADER_SIZE size bytes) in
  Forall is_byte bytes -> (size <= length bytes)%nat -> u32_at fh 8 = salt1 h -> u32_at fh 12 = salt2 h ->
  wal_checksum (order h) (wal_checksum (order h) running (slice 0 8 fh)) (page_data f) = (u32_at fh 16, u32_at fh 20) ->
  frame_ok (page_size h) f /\ (u32_at fh 16, u32_at fh 20) = frame_checksum h running f /\
  bytes = frame_header h running f ++ page_data f ++ drop size bytes.
Proof.
  intros size fh f Hb Hlen H1 H2 Hck.
  assert (Hfb : Forall is_byte fh) by by apply Forall_take, Forall_drop.
  assert (Hfl : length fh = FRAME_HEADER_SIZE) by (unfold fh, slice; rewrite length_take, length_drop; unfold size in *; lia).
  assert (Hf : frame_ok (page_size h) f).
  { split; [apply u32_at_u32, Hfb|apply u32_at_u32, Hfb|]. cbn [page_data f]. unfold slice.
    rewrite length_take, length_drop. unfold size in *. lia. }
  assert (Hc : (u32_at fh 16, u32_at fh 20) = frame_checksum h running f).
  { rewrite <- Hck. unfold frame_checksum. by rewrite prefix_bytes. }
  split_and!; [done..|].
  rewrite (slice_split FRAME_HEADER_SIZE size bytes) at 1 by (unfold size; lia). f_equal.
  exact (frame_header_bytes h (frame_checksum h running f) bytes Hb ltac:(unfold size in *; lia) H1 H2 (eq_sym Hc)).
Qed.

Lemma parse_frames_S fuel h running bytes :
  parse_frames (S fuel) h running bytes =
  let frame_size := (FRAME_HEADER_SIZE + N.to_nat (page_size h))%nat in
  let fh := slice 0 FRAME_HEADER_SIZE bytes in
  let page := slice FRAME_HEADER_SIZE frame_size bytes in
  let computed := wal_checksum (order h) (wal_checksum (order h) running (slice 0 8 fh)) page in
  if (length bytes <? frame_size)%nat then Some []
  else if negb (u32_at fh 8 =? salt1 h)%N || negb (u32_at fh 12 =? salt2 h)%N then Some []
  else if negb (bool_decide (computed = (u32_at fh 16, u32_at fh 20))) then Some []
  else fs ← parse_frames fuel h computed (drop frame_size bytes);
       Some (mk_frame (u32_at fh 0) (u32_at fh 4) page :: fs).
Proof. done. Qed.

Lemma parse_frames_exact fuel h running bytes fs :
  Forall is_byte bytes -> header_ok h -> is_ck running -> parse_frames fuel h running bytes = Some fs ->
  Forall (frame_ok (page_size h)) fs /\ exists enc tail, encode_frames h running fs = Ok enc /\ bytes = enc ++ tail.
Proof.
  intros Hb Hh. revert running bytes fs Hb. induction fuel as [|fuel IH]; intros running bytes fs Hb Hr Hp.
  { cbn [parse_frames] in Hp. destruct (_ <? _)%nat; [|done]. injection Hp as <-. split; [done|]. by exists [], bytes. }
  rewrite parse_frames_S in Hp. cbv zeta in Hp.
  assert (Hnil : fs = [] -> Forall (frame_ok (page_size h)) fs /\ exists enc tail, encode_frames h running fs = Ok enc /\ bytes = enc ++ tail).
  { intros ->. split; [done|]. by exists [], bytes. }
  destruct (length bytes <? _)%nat eqn:Hlen; [apply Hnil; congruence|]. apply Nat.ltb_ge in Hlen.
  destruct (_ || _) eqn:Hsalt; [apply Hnil; congruence|]. bool_to_prop.
  match type of Hp with context [bool_decide (?c = _)] => destruct (bool_decide (c = _)) eqn:Hck end;
    [|apply Hnil; cbn in Hp; congruence]. bool_to_prop. cbn [negb] in Hp.
  destruct (parse_step_exact h running bytes Hb Hlen H H0 Hck) as (Hf & Hc & Hbytes). rewrite Hck, Hc in Hp.
  match type of Hp with context [parse_frames fuel h ?c ?b] => destruct (parse_frames fuel h c b) as [r|] eqn:Er; [|done] end.
  apply (inj Some) in Hp as <-.
  destruct (IH _ _ r (Forall_drop _ _ _ Hb) (frame_checksum_u32 _ _ _ Hr) Er) as (HF & enc & tail & Henc & Hdrop).
  split; [by constructor|]. eexists _, tail. rewrite encode_frames_cons by apply Hf.
  rewrite Henc. split; [reflexivity|]. rewrite <- !app_assoc. rewrite <- Hdrop. exact Hbytes.
Qed.

(** The header as the parser returns it, with the checksum its bytes carry. *)
Definition sealed (h : WalHeader) : WalHeader :=
  mk_header (order h) (page_size h) (checkpoint_seq h) (salt1 h) (salt2 h) (encode_header h).2.
Lemma header_ok_sealed h : header_ok h -> header_ok (sealed h).
Proof. intros []. by split. Qed.
Lemma encode_frames_sealed h running fs : encode_frames (sealed h) running fs = encode_frames h running fs.
Proof.
  revert running. induction fs as [|f fs IH]; intros running; [done|]. cbn [encode_frames].
  unfold sealed in *. cbn [order page_size salt1 salt2] in *. by rewrite IH.
Qed.
Lemma encode_wal_sealed h fs : encode_wal (sealed h) fs = encode_wal h fs.
Proof.
  unfold encode_wal. change (encode_header (sealed h)) with (encode_header h).
  destruct (encode_header h) as [out ck]. by rewrite encode_frames_sealed.
Qed.

(** The 24 bytes the header's checksum covers. *)
Definition header_fields (h : WalHeader) : list N :=
  be_bytes 4 (magic (order h)) ++ be_bytes 4 WAL_VERSION
  ++ be_bytes 4 (if (page_size h =? 65536)%N then 1%N else page_size h)
  ++ be_bytes 4 (checkpoint_seq h) ++ be_bytes 4 (salt1 h) ++ be_bytes 4 (salt2 h).
Lemma length_header_fields h : length (header_fields h) = 24%nat.
Proof. unfold header_fields. by rewrite !length_app, !length_be_bytes. Qed.
Lemma encode_header_eq h :
  let ck := wal_checksum (order h) (0, 0)%N (header_fields h) in
  encode_header h = (header_fields h ++ be_bytes 4 ck.1 ++ be_bytes 4 ck.2, ck).
Proof. done. Qed.
Lemma header_checksum_u32 h : is_ck (encode_header h).2.
Proof. rewrite encode_header_eq. by apply wal_checksum_u32. Qed.
Lemma length_encode_header h : length (encode_header h).1 = WAL_HEADER_SIZE.
Proof. rewrite encode_header_eq. cbn [fst]. by rewrite !length_app, length_header_fields, !length_be_bytes. Qed.

Lemma from_magic_magic o : from_magic (magic o) = Ok o.
Proof. by destruct o. Qed.
Lemma magic_from_magic m o : from_magic m = Ok o -> magic o = m.
Proof.
  unfold from_magic. destruct (N.eqb_spec m WAL_MAGIC_LE) as [->|]; [by intros [= <-]|].
  destruct (N.eqb_spec m WAL_MAGIC_BE) as [->|]; [by intros [= <-]|done].
Qed.

(** The encoded page size reads back. *)
Lemma page_size_code n : implausible n = false ->
  (if ((if (n =? 65536)%N then 1 else n) =? 1)%N then 65536%N else if (n =? 65536)%N then 1%N else n) = n.
Proof.
  unfold implausible. intros H. apply orb_false_iff in H as [H _]. bool_to_prop.
  destruct (N.eqb_spec n 65536) as [->|]; [done|]. destruct (N.eqb_spec n 1); [lia|done].
Qed.

Lemma parse_encoded_header h rest :
  header_ok h ->
  parse_wal ((encode_header h).1 ++ rest)
  = (fs ← parse_frames (WAL_HEADER_SIZE + length rest) (sealed h) (encode_header h).2 rest;
     Some (Ok (mk_parsed (sealed h) fs))).
Proof.
  intros Hh. pose proof (length_encode_header h) as Hlen. pose proof (header_checksum_u32 h) as [Hc1 Hc2].
  destruct Hh as [Hp Hpu Hs H1 H2]. unfold parse_wal. rewrite !length_app, Hlen.
  rewrite (proj2 (Nat.ltb_ge _ _)) by lia.
  assert (Hdrop : drop WAL_HEADER_SIZE ((encode_header h).1 ++ rest) = rest) by by rewrite <- Hlen, drop_app_length.
  rewrite Hdrop. clear Hdrop. unfold sealed. rewrite encode_header_eq in *. cbn [fst snd] in *.
  set (ck := wal_checksum (order h) (0, 0)%N (header_fields h)) in *.
  assert (Hslice : slice 0 24 ((header_fields h ++ be_bytes 4 ck.1 ++ be_bytes 4 ck.2) ++ rest) = header_fields h).
  { rewrite <- app_assoc. pose proof (slice_here (header_fields h) ((be_bytes 4 ck.1 ++ be_bytes 4 ck.2) ++ rest)) as H.
    by rewrite length_header_fields in H. }
  rewrite Hslice. fold ck. unfold header_fields. rewrite <- !app_assoc.
  rewrite !u32_at_skip4 by apply length_be_bytes.
  assert (Hmu : is_u32 (magic (order h))) by by destruct (order h).
  assert (Hpu' : is_u32 (if (page_size h =? 65536)%N then 1%N else page_size h)) by by destruct (_ =? _)%N.
  rewrite !u32_at_here by done. rewrite from_magic_magic, page_size_code, Hp by done.
  rewrite <- (surjective_pairing ck), bool_decide_eq_true_2 by (unfold ck; done). done.
Qed.

Lemma slice_cat i j k (l : list N) : (i <= j <= k)%nat -> slice i j l ++ slice j k l = slice i k l.
Proof.
  intros Hijk. unfold slice. replace (k - i)%nat with ((j - i) + (k - j))%nat by lia.
  rewrite <- take_take_drop, drop_drop. do 3 f_equal. lia.
Qed.

(** A header in the form the encoder writes: its version, and a page size of
    65536 written as 1. *)
Definition canonical (bytes : list N) : Prop := u32_at bytes 4 = WAL_VERSION /\ u32_at bytes 8 <> 65536%N.

Lemma header_bytes bytes h :
  Forall is_byte bytes -> (WAL_HEADER_SIZE <= length bytes)%nat -> canonical bytes ->
  magic (order h) = u32_at bytes 0 -> page_size h = (if (u32_at bytes 8 =? 1)%N then 65536%N else u32_at bytes 8) ->
  checkpoint_seq h = u32_at bytes 12 -> salt1 h = u32_at bytes 16 -> salt2 h = u32_at bytes 20 ->
  wal_checksum (order h) (0, 0)%N (slice 0 24 bytes) = (u32_at bytes 24, u32_at bytes 28) ->
  bytes = (encode_header h).1 ++ drop WAL_HEADER_SIZE bytes /\ (encode_header h).2 = (u32_at bytes 24, u32_at bytes 28).
Proof.
  intros Hb Hlen [Hv Hraw] Hm Hp Hs H1 H2 Hck. unfold WAL_HEADER_SIZE in *.
  assert (Hsize : (if (page_size h =? 65536)%N then 1%N else page_size h) = u32_at bytes 8).
  { rewrite Hp. destruct (N.eqb_spec (u32_at bytes 8) 1) as [->|Hne]; [done|].
    by destruct (N.eqb_spec (u32_at bytes 8) 65536). }
  assert (Hfields : header_fields h = slice 0 24 bytes).
  { unfold header_fields. rewrite Hsize, Hm, <- Hv, Hs, H1, H2, !u32_block by (done || lia).
    cbn [Nat.add]. by rewrite !slice_cat by lia. }
  rewrite encode_header_eq, Hfields, Hck. cbn [fst snd]. split; [|done].
  rewrite !u32_block by (done || lia). cbn [Nat.add]. rewrite !slice_cat by lia.
  unfold slice. by rewrite drop_0, Nat.sub_0_r, take_drop.
Qed.

(** A header that parses is the encoding of what it parses to. *)
Lemma parse_wal_cases bytes p :
  Forall is_byte bytes -> parse_wal bytes = Some (Ok p) ->
  header_ok (header p) /\ checksum (header p) = (u32_at bytes 24, u32_at bytes 28) /\ is_ck (checksum (header p)) /\
  parse_frames (length bytes) (header p) (checksum (header p)) (drop WAL_HEADER_SIZE bytes) = Some (frames p) /\
  (canonical bytes -> bytes = (encode_header (header p)).1 ++ drop WAL_HEADER_SIZE bytes /\
     (encode_header (header p)).2 = checksum (header p)).
Proof.
  intros Hb. unfold parse_wal. destruct (_ <? _)%nat eqn:Hlen; [done|]. apply Nat.ltb_ge in Hlen.
  destruct (from_magic (u32_at bytes 0)) as [o|] eqn:Ho; [|done]. apply magic_from_magic in Ho.
  set (raw := u32_at bytes 8). set (size := if (raw =? 1)%N then 65536%N else raw).
  destruct (implausible size) eqn:Hp; [done|].
  destruct (bool_decide _) eqn:Hck; [|done]. bool_to_prop. cbn [negb].
  set (h := mk_header _ _ _ _ _ _). destruct (parse_frames _ h _ _) as [fs|] eqn:Hf; [|done]. intros [= <-].
  cbn [header frames checksum h]. pose proof (fun i => u32_at_u32 bytes i Hb) as Hu.
  assert (Hh : header_ok h).
  { split; cbn [page_size checkpoint_seq salt1 salt2 h]; [done| |exact (Hu 12%nat)|exact (Hu 16%nat)|exact (Hu 20%nat)].
    unfold size. destruct (_ =? _)%N; [done|exact (Hu 8%nat)]. }
  split_and!; [done|done|exact (conj (Hu 24%nat) (Hu 28%nat))|done|]. intros Hcan. by apply header_bytes.
Qed.

(** ** Segments, written and read back *)

Record segment_ok (s : WalSegment) : Prop := {
  so_seq : is_u64 (seq s);
  so_cumulative : is_u64 (cumulative_frames s);
  so_page : implausible (seg_page_size s) = false;
  so_page_u32 : is_u32 (seg_page_size s);
  so_salt1 : is_u32 (seg_salt1 s);
  so_salt2 : is_u32 (seg_salt2 s);
  so_frames : Forall (frame_ok (seg_page_size s)) (seg_frames s);
  so_count : is_u32 (frame_count s)
}.

Lemma decode_frames_total fuel page count bytes :
  (length bytes <= fuel)%nat -> exists r, decode_frames fuel page count bytes = Some r.
Proof.
  revert count bytes. induction fuel as [|fuel IH]; intros count bytes Hlen; cbn [decode_frames].
  - destruct (_ =? _)%N; [eauto|]. destruct (_ <? _)%nat eqn:E; [eauto|]. apply Nat.ltb_ge in E. lia.
  - destruct (_ =? _)%N; [eauto|]. destruct (_ <? _)%nat; [eauto|].
    match goal with |- context [decode_frames fuel page ?c ?b] => destruct (IH c b) as [r ->]; [|eauto] end.
    rewrite length_drop. lia.
Qed.

Lemma decode_one page f tail :
  frame_ok page f ->
  let bytes := encode_frame f ++ tail in
  (length bytes <? 8 + N.to_nat page)%nat = false /\
  mk_frame (u32_at bytes 0) (u32_at bytes 4) (slice 8 (8 + N.to_nat page) bytes) = f /\
  drop (8 + N.to_nat page) bytes = tail.
Proof.
  intros [Hp Hs Hd] bytes. unfold bytes, encode_frame.
  set (pre := be_bytes 4 (page_number f) ++ be_bytes 4 (db_size_after_commit f)).
  assert (Hpre : length pre = 8%nat) by (unfold pre; by rewrite length_app, !length_be_bytes).
  assert (Hlen : length (pre ++ page_data f) = (8 + N.to_nat page)%nat) by (rewrite length_app; lia).
  replace ((be_bytes 4 (page_number f) ++ be_bytes 4 (db_size_after_commit f) ++ page_data f) ++ tail)
    with ((pre ++ page_data f) ++ tail) by (unfold pre; by rewrite <- !app_assoc).
  split_and!.
  - apply Nat.ltb_ge. rewrite length_app. lia.
  - assert (Hpage : slice 8 (8 + N.to_nat page) ((pre ++ page_data f) ++ tail) = page_data f).
    { rewrite <- app_assoc. pose proof (slice_block pre (page_data f ++ tail) 0 (N.to_nat page)) as H.
      rewrite Hpre, Nat.add_0_r in H. rewrite H, <- Hd. apply slice_here. }
    rewrite Hpage. unfold pre. rewrite <- !app_assoc, !u32_at_skip4 by apply length_be_bytes.
    rewrite !u32_at_here by done. by destruct f.
  - by rewrite <- Hlen, drop_app_length.
Qed.

Lemma decode_encoded page fs tail fuel :
  Forall (frame_ok page) fs -> (length fs <= fuel)%nat ->
  decode_frames fuel page (N.of_nat (length fs)) ((fs ≫= encode_frame) ++ tail) = Some (Ok fs).
Proof.
  intros Hfs. revert fuel. induction Hfs as [|f fs Hf Hfs IH]; intros fuel Hle; [by destruct fuel|].
  destruct fuel as [|fuel]; [cbn in Hle; lia|]. cbn [length mbind list_bind] in *. rewrite <- app_assoc.
  destruct (decode_one page f ((fs ≫= encode_frame) ++ tail) Hf) as (Hlen & Hfr & Hdrop).
  cbn [decode_frames]. rewrite (proj2 (N.eqb_neq _ _)) by lia. rewrite Hlen, Hfr, Hdrop.
  replace (N.of_nat (S (length fs)) - 1)%N with (N.of_nat (length fs)) by lia.
  rewrite IH by lia. done.
Qed.

Lemma encode_frame_bytes f bytes page :
  Forall is_byte bytes -> (8 + N.to_nat page <= length bytes)%nat ->
  f = mk_frame (u32_at bytes 0) (u32_at bytes 4) (slice 8 (8 + N.to_nat page) bytes) ->
  frame_ok page f /\ bytes = encode_frame f ++ drop (8 + N.to_nat page) bytes.
Proof.
  intros Hb Hlen ->. split.
  - split; cbn [page_number db_size_after_commit page_data]; [by apply u32_at_u32..|].
    unfold slice. rewrite length_take, length_drop. lia.
  - unfold encode_frame. cbn [page_number db_size_after_commit page_data]. rewrite !u32_block by (done || lia).
    cbn [Nat.add].
    rewrite <- app_assoc, (slice_split 8 (S (S (S (S (S (S (S (S (N.to_nat page)))))))))  bytes) at 1 by lia.
    rewrite <- (slice_cat 0 4 8) by lia. by rewrite <- !app_assoc.
Qed.

Lemma decode_frames_exact fuel page count bytes fs :
  Forall is_byte bytes -> decode_frames fuel page count bytes = Some (Ok fs) ->
  Forall (frame_ok page) fs /\ N.of_nat (length fs) = count /\ exists tail, bytes = (fs ≫= encode_frame) ++ tail.
Proof.
  revert count bytes fs. induction fuel as [|fuel IH]; intros count bytes fs Hb; cbn [decode_frames];
    (destruct (N.eqb_spec count 0) as [->|Hc]; [intros [= <-]; split_and!; [done|done|by exists bytes]|]);
    (destruct (length bytes <? 8 + N.to_nat page)%nat eqn:Hlen; [done|]); [done|]. apply Nat.ltb_ge in Hlen.
  match goal with |- context [decode_frames fuel page ?c ?b] => destruct (decode_frames fuel page c b) as [[r|]|] eqn:Er; [|done..] end.
  set (f := mk_frame _ _ _). intros Heq. apply (inj Some) in Heq. cbn [result_map] in Heq.
  assert (fs = f :: r) as -> by congruence.
  destruct (encode_frame_bytes f bytes page Hb Hlen eq_refl) as [Hf Hbytes].
  destruct (IH _ _ _ (Forall_drop _ _ _ Hb) Er) as (HF & Hn & tail & Htail).
  split_and!; [by constructor|cbn [length]; lia|]. exists tail. rewrite Hbytes, Htail. cbn [mbind list_bind]. by rewrite <- app_assoc.
Qed.

Lemma length_body fs : (length fs <= length (fs ≫= encode_frame))%nat.
Proof.
  induction fs as [|f fs IH]; [done|]. cbn [mbind list_bind length] in *. unfold encode_frame at 1.
  rewrite !length_app, !length_be_bytes. lia.
Qed.

Lemma decode_encode_tail s enc tail :
  segment_ok s -> encode s = Some enc -> decode (enc ++ tail) = Some (Ok s).
Proof.
  intros [Hseq Hcum Hp Hpu H1 H2 Hfs Hn]. unfold encode. rewrite (proj2 (N.ltb_ge _ _)) by done.
  intros Heq. apply (inj Some) in Heq as <-. set (body := seg_frames s ≫= encode_frame).
  set (fixed := SEGMENT_MAGIC ++ be_bytes 8 (seq s) ++ be_bytes 8 (cumulative_frames s) ++ be_bytes 4 (seg_page_size s)
          ++ be_bytes 4 (seg_salt1 s) ++ be_bytes 4 (seg_salt2 s) ++ be_bytes 4 (frame_count s)).
  assert (Hall : (SEGMENT_MAGIC ++ be_bytes 8 (seq s) ++ be_bytes 8 (cumulative_frames s) ++ be_bytes 4 (seg_page_size s)
          ++ be_bytes 4 (seg_salt1 s) ++ be_bytes 4 (seg_salt2 s) ++ be_bytes 4 (frame_count s) ++ body) ++ tail
          = fixed ++ body ++ tail) by (unfold fixed; by rewrite <- !app_assoc).
  rewrite Hall. assert (Hlen : length fixed = SEGMENT_FIXED) by (unfold fixed; by rewrite !length_app, !length_be_bytes).
  unfold decode. rewrite length_app, Hlen, (proj2 (Nat.ltb_ge _ _)) by lia.
  assert (Hdrop : drop SEGMENT_FIXED (fixed ++ body ++ tail) = body ++ tail) by by rewrite <- Hlen, drop_app_length.
  rewrite Hdrop.
  assert (Hmagic : slice 0 4 (fixed ++ body ++ tail) = SEGMENT_MAGIC).
  { unfold fixed. rewrite <- !app_assoc. exact (slice_here SEGMENT_MAGIC _). }
  rewrite Hmagic, bool_decide_eq_true_2 by done. cbn [negb]. unfold fixed. rewrite <- !app_assoc.
  pose proof length_be_bytes as Hl. pose proof (fun l i => u32_at_skip4 SEGMENT_MAGIC l i eq_refl) as Hm4.
  pose proof (fun l i => u64_at_skip4 SEGMENT_MAGIC l i eq_refl) as Hm8.
  rewrite !Hm4, !Hm8. cbn [Nat.add] in *.
  pose proof (fun x l i => u32_at_skip8 (be_bytes 8 x) l i (Hl 8%nat x)) as Hb. cbn [Nat.add] in Hb.
  pose proof (fun x l i => u64_at_skip8 (be_bytes 8 x) l i (Hl 8%nat x)) as Hb8. cbn [Nat.add] in Hb8.
  rewrite !Hb, (Hb8 _ _ 0%nat), !u32_at_skip4, !u32_at_here, !u64_at_here by done. rewrite Hp. unfold body, frame_count.
  rewrite decode_encoded; [by destruct s|done|]. rewrite length_app.
  pose proof (length_body (seg_frames s)). lia.
Qed.

Lemma segment_bytes bytes s :
  Forall is_byte bytes -> decode bytes = Some (Ok s) ->
  segment_ok s /\ exists enc tail, encode s = Some enc /\ bytes = enc ++ tail.
Proof.
  intros Hb. unfold decode. destruct (_ <? _)%nat eqn:Hlen; [done|]. apply Nat.ltb_ge in Hlen. unfold SEGMENT_FIXED in Hlen.
  destruct (bool_decide _) eqn:Hm; [|done]. bool_to_prop. cbn [negb].
  destruct (implausible _) eqn:Hp; [done|].
  destruct (decode_frames _ _ _ _) as [[fs|]|] eqn:Hf; [|done..]. intros Heq.
  cbn [mbind option_bind result_map] in Heq. set (s' := mk_segment _ _ _ _ _ _) in Heq. assert (s = s') as -> by congruence.
  destruct (decode_frames_exact _ _ _ _ _ (Forall_drop _ _ _ Hb) Hf) as (HF & Hn & tail & Htail).
  pose proof (fun i => u32_at_u32 bytes i Hb) as Hu.
  assert (Hs : segment_ok s').
  { split; cbn [seq cumulative_frames seg_page_size seg_salt1 seg_salt2 seg_frames s'];
      [by apply u64_at_u64..|done|apply Hu|apply Hu|apply Hu|done|]. unfold frame_count. cbn [seg_frames s']. rewrite Hn. apply Hu. }
  split; [done|]. unfold encode. rewrite (proj2 (N.ltb_ge _ _)) by apply Hs. eexists _, tail. split; [reflexivity|].
  unfold frame_count. cbn [seq cumulative_frames seg_page_size seg_salt1 seg_salt2 seg_frames s'].
  rewrite Hn, !u32_block, !u64_block, <- Hm by (done || lia). cbn [Nat.add]. rewrite <- !app_assoc, <- Htail.
  unfold SEGMENT_FIXED. rewrite (slice_split 4 36 bytes) at 1 by lia. f_equal.
  by rewrite !app_assoc, !slice_cat by lia.
Qed.

(** ** The shipper *)

(** The frames up to the last commit. *)
Definition committed (fs : list WalFrame) : list WalFrame :=
  match rposition_commit fs with Some i => take (S i) fs | None => [] end.

Lemma rposition_app a b :
  rposition_commit (a ++ b) = match rposition_commit b with Some i => Some (length a + i)%nat | None => rposition_commit a end.
Proof.
  induction a as [|f a IH]; cbn [rposition_commit app length Nat.add]; [by destruct (rposition_commit b)|].
  rewrite IH. by destruct (rposition_commit b).
Qed.
Lemma rposition_lt fs i : rposition_commit fs = Some i -> (i < length fs)%nat.
Proof.
  revert i. induction fs as [|f fs IH]; intros i; [done|]. cbn. destruct (rposition_commit fs) as [j|].
  - intros [= <-]. specialize (IH j eq_refl). lia.
  - destruct (is_commit f); [|done]. intros [= <-]. lia.
Qed.
Lemma rposition_commit_is fs i : rposition_commit fs = Some i -> exists f, fs !! i = Some f /\ is_commit f = true.
Proof.
  revert i. induction fs as [|f fs IH]; intros i; [done|]. cbn [rposition_commit].
  destruct (rposition_commit fs) as [j|]; [intros [= <-]; by apply IH|].
  destruct (is_commit f) eqn:Ef; [|done]. intros [= <-]. by exists f.
Qed.
Lemma committed_app a b :
  committed (a ++ b) = match rposition_commit b with Some i => a ++ take (S i) b | None => committed a end.
Proof.
  unfold committed. rewrite rposition_app. destruct (rposition_commit b) as [i|].
  - rewrite take_app_ge by lia. do 2 f_equal. lia.
  - destruct (rposition_commit a) as [i|] eqn:Ei; [|done]. apply rposition_lt in Ei. by rewrite take_app_le by lia.
Qed.
Lemma committed_prefix fs : exists tail, fs = committed fs ++ tail /\ rposition_commit tail = None.
Proof.
  unfold committed. destruct (rposition_commit fs) as [i|] eqn:Ei; [|by exists fs].
  exists (drop (S i) fs). split; [by rewrite take_drop|].
  pose proof (rposition_app (take (S i) fs) (drop (S i) fs)) as H. rewrite take_drop, Ei in H.
  destruct (rposition_commit (drop (S i) fs)) as [j|]; [|done]. apply (inj Some) in H.
  pose proof (rposition_lt _ _ Ei). rewrite length_take in H. lia.
Qed.

(** Whatever of the frames has been shipped ends on their last commit. *)
Lemma committed_committed fs : committed (committed fs) = committed fs.
Proof.
  destruct (committed_prefix fs) as (tail & Hfs & Ht). pose proof (committed_app (committed fs) tail) as H.
  by rewrite Ht, <- Hfs in H.
Qed.

(** One call on a snapshot that extends the one before it: [done] are the
    frames of the generation shipped so far. *)
Lemma next_of_spec p s s' r done :
  (if decide (last_salts s = Some (salt1 (header p), salt2 (header p))) then shipped_frames s = length done
   else done = []) ->
  committed done = done -> done `prefix_of` frames p -> next_of p s = (s', r) ->
  last_salts s' = Some (salt1 (header p), salt2 (header p)) /\ shipped_frames s' = length (committed (frames p)) /\
  match r with
  | None => committed (frames p) = done /\ next_seq s' = next_seq s /\ sh_cumulative_frames s' = sh_cumulative_frames s
  | Some seg => done ++ seg_frames seg = committed (frames p) /\ seq seg = next_seq s /\
      next_seq s' = (next_seq s + 1)%N /\ cumulative_frames seg = sh_cumulative_frames s' /\
      sh_cumulative_frames s' = (sh_cumulative_frames s + frame_count seg)%N /\
      (seg_page_size seg, seg_salt1 seg, seg_salt2 seg) = (page_size (header p), salt1 (header p), salt2 (header p)) /\
      exists f, last (seg_frames seg) = Some f /\ is_commit f = true
  end.
Proof.
  intros Hsalts Hcom [tail Htail] Hn. unfold next_of in Hn.
  cbv zeta in Hn. set (s1 := if bool_decide (last_salts s = _) then s else _) in Hn.
  assert (H1 : shipped_frames s1 = length done /\ last_salts s1 = Some (salt1 (header p), salt2 (header p)) /\
            next_seq s1 = next_seq s /\ sh_cumulative_frames s1 = sh_cumulative_frames s).
  { unfold s1. case_decide as Hd; [by rewrite bool_decide_eq_true_2|]. rewrite bool_decide_eq_false_2 by done. by subst done. }
  clearbody s1. destruct H1 as (Hsh & Hls & Hns & Hcu). rewrite Htail, committed_app in *.
  rewrite Hsh, drop_app_length, length_app in Hn.
  destruct (length done + length tail <=? length done)%nat eqn:Hle.
  { apply Nat.leb_le in Hle. assert (tail = []) as -> by (apply length_zero_iff_nil; lia).
    injection Hn as <- <-. cbn [rposition_commit]. rewrite Hcom. by split_and!. }
  destruct (rposition_commit tail) as [i|] eqn:Ei; injection Hn as <- <-; [|by rewrite Hcom; split_and!].
  pose proof (rposition_lt _ _ Ei) as Hlt. destruct (rposition_commit_is _ _ Ei) as (f & Hf & Hc).
  cbn [last_salts shipped_frames seg_frames seq next_seq cumulative_frames sh_cumulative_frames seg_page_size seg_salt1 seg_salt2].
  rewrite ?Hns, ?Hcu, ?length_app. split_and!; try done. exists f. split; [|done].
  rewrite last_lookup, length_take, Nat.min_l by lia. cbn [Nat.pred]. by rewrite lookup_take_lt by lia.
Qed.

(** What the primary ships while it looks at one snapshot after the other. *)
Definition ship (s : WalShipper) (bytes : list N) : WalShipper * list WalSegment :=
  match next_segment bytes s with
  | (s, Ok (Some seg)) => (s, [seg])
  | (s, _) => (s, [])
  end.
Fixpoint ship_all (s : WalShipper) (snapshots : list (list N)) : WalShipper * list WalSegment :=
  match snapshots with
  | [] => (s, [])
  | bytes :: snapshots =>
      let '(s, segs) := ship s bytes in
      let '(s, segs') := ship_all s snapshots in
      (s, segs ++ segs')
  end.

(** Segments numbered from [n] with the running total [c], each ending on a
    commit. *)
Fixpoint chained (n c : N) (segs : list WalSegment) : Prop :=
  match segs with
  | [] => True
  | seg :: segs =>
      seq seg = n /\ cumulative_frames seg = (c + frame_count seg)%N /\
      (exists f, last (seg_frames seg) = Some f /\ is_commit f = true) /\
      chained (n + 1) (cumulative_frames seg) segs
  end.

(** A generation of the WAL: its header, and the frames of its snapshots, each
    extending the one before. *)
Record Generation : Type := mk_generation { g_header : WalHeader; g_snapshots : list (list WalFrame) }.
Fixpoint growing (f : list WalFrame) (snaps : list (list WalFrame)) : Prop :=
  match snaps with [] => True | g :: snaps => f `prefix_of` g /\ growing g snaps end.
Definition final (g : Generation) : list WalFrame := default [] (last (g_snapshots g)).
Definition salts (h : WalHeader) : N * N := (salt1 h, salt2 h).
Definition parses (bytes : list N) (p : ParsedWal) : Prop := parse_wal bytes = Some (Ok p).
Definition snapshots (g : Generation) : list ParsedWal := mk_parsed (g_header g) <$> g_snapshots g.

(** Each generation has new salts and some snapshot. *)
Fixpoint generations_ok (before : option (N * N)) (gens : list Generation) : Prop :=
  match gens with
  | [] => True
  | g :: gens =>
      before <> Some (salts (g_header g)) /\ g_snapshots g <> [] /\ growing [] (g_snapshots g) /\
      generations_ok (Some (salts (g_header g))) gens
  end.

Definition state_of (s : WalShipper) (n c : N) : Prop := next_seq s = n /\ sh_cumulative_frames s = c.
Definition total (segs : list WalSegment) : N := N.of_nat (length (concat (seg_frames <$> segs))).

Lemma chained_app n c segs segs' :
  chained n c segs -> chained (n + N.of_nat (length segs)) (c + total segs) segs' -> chained n c (segs ++ segs').
Proof.
  revert n c. induction segs as [|seg segs IH]; intros n c; cbn [chained app length total fmap list_fmap concat].
  { intros _. unfold total. cbn. by rewrite !N.add_0_r. }
  intros (Hs & Hc & Hf & Hch) H. split_and!; [done..|]. apply IH; [done|]. rewrite Hc in *. unfold total, frame_count in *.
  cbn [fmap list_fmap concat] in H. rewrite length_app in H.
  replace (n + 1 + N.of_nat (length segs))%N with (n + N.of_nat (S (length segs)))%N by lia.
  by replace (c + N.of_nat (length (seg_frames seg)) + N.of_nat (length (concat (seg_frames <$> segs))))%N
    with (c + N.of_nat (length (seg_frames seg) + length (concat (seg_frames <$> segs))))%N by lia.
Qed.

Lemma ship_generation h bss snaps s s' segs done :
  (if decide (last_salts s = Some (salts h)) then shipped_frames s = length done else done = []) ->
  committed done = done -> growing done snaps -> Forall2 parses bss (mk_parsed h <$> snaps) ->
  ship_all s bss = (s', segs) ->
  done ++ concat (seg_frames <$> segs) = (match last snaps with Some f => committed f | None => done end) /\
  chained (next_seq s) (sh_cumulative_frames s) segs /\
  state_of s' (next_seq s + N.of_nat (length segs)) (sh_cumulative_frames s + total segs) /\
  (snaps <> [] -> last_salts s' = Some (salts h)).
Proof.
  revert bss s segs done. induction snaps as [|f snaps IH]; intros bss s segs done Hs Hcom Hgrow Hp Hship.
  { apply Forall2_nil_inv_r in Hp as ->. injection Hship as <- <-. unfold state_of, total. cbn.
    by rewrite (right_id_L [] (++)), !N.add_0_r. }
  rewrite fmap_cons in Hp. apply Forall2_cons_inv_r in Hp as (bytes & bss' & Hb & Hp & ->). cbn [ship_all] in Hship.
  destruct Hgrow as [Hpre Hgrow]. unfold ship, next_segment in Hship. rewrite Hb in Hship.
  destruct (next_of (mk_parsed h f) s) as [s1 r] eqn:E1.
  destruct (next_of_spec (mk_parsed h f) s s1 r done Hs Hcom Hpre E1) as (Hls & Hsh & Hr). cbn [header frames] in *.
  assert (Hnext : growing (committed f) snaps).
  { destruct snaps as [|g snaps]; [done|]. destruct Hgrow as [Hfg Hg]. split; [|done].
    destruct (committed_prefix f) as (tail & Hf & _). etransitivity; [|exact Hfg]. by exists tail. }
  assert (Hs1 : if decide (last_salts s1 = Some (salts h)) then shipped_frames s1 = length (committed f) else committed f = [])
    by (rewrite decide_True; done).
  assert (Hlast : match last (f :: snaps) with Some f => committed f | None => done end
            = match last snaps with Some f => committed f | None => committed f end).
  { destruct snaps as [|g snaps]; [done|]. rewrite last_cons. by destruct (last (g :: snaps)) eqn:El; [|apply last_None in El]. }
  rewrite Hlast. destruct r as [seg|].
  - destruct (ship_all s1 bss') as [s2 segs'] eqn:E2. injection Hship as <- <-.
    destruct Hr as (Hdone & Hseq & Hns & Hcum & Hcu & _ & Hcommit).
    destruct (IH _ _ _ _ Hs1 (committed_committed f) Hnext Hp E2) as (Hcat & Hch & [Hn Hc] & Hl).
    cbn [app fmap list_fmap concat]. rewrite app_assoc, Hdone, Hcat.
    split_and!; [by destruct (last snaps)| | |].
    + cbn [chained]. rewrite Hcum, <- Hns, <- Hcu. by split_and!.
    + unfold state_of, total, frame_count in *. cbn [length fmap list_fmap concat]. rewrite Hn, Hc, Hns, Hcu, length_app. split; lia.
    + intros _. destruct snaps; [|by apply Hl]. apply Forall2_nil_inv_r in Hp as ->. injection E2 as <- <-. done.
  - destruct (ship_all s1 bss') as [s2 segs'] eqn:E2. injection Hship as <- <-. destruct Hr as (Hdone & Hns & Hcu).
    destruct (IH _ _ _ _ Hs1 (committed_committed f) Hnext Hp E2) as (Hcat & Hch & [Hn Hc] & Hl).
    cbn [app]. rewrite <- Hdone, Hcat. rewrite Hns, Hcu in *. split_and!; [by destruct (last snaps)|done|done|].
    intros _. destruct snaps; [|by apply Hl]. apply Forall2_nil_inv_r in Hp as ->. injection E2 as <- <-. done.
Qed.

Lemma ship_all_app s bss bss' :
  ship_all s (bss ++ bss')
  = let '(s1, segs) := ship_all s bss in let '(s2, segs') := ship_all s1 bss' in (s2, segs ++ segs').
Proof.
  revert s. induction bss as [|b bss IH]; intros s; cbn [app ship_all]; [by destruct (ship_all s bss')|].
  destruct (ship s b) as [s1 segs1]. rewrite IH. destruct (ship_all s1 bss) as [s2 segs2].
  destruct (ship_all s2 bss') as [s3 segs3]. by rewrite app_assoc.
Qed.

Lemma ship_generations gens bss s s' segs :
  generations_ok (last_salts s) gens -> Forall2 parses bss (gens ≫= snapshots) -> ship_all s bss = (s', segs) ->
  concat (seg_frames <$> segs) = concat ((fun g => committed (final g)) <$> gens) /\
  chained (next_seq s) (sh_cumulative_frames s) segs /\
  state_of s' (next_seq s + N.of_nat (length segs)) (sh_cumulative_frames s + total segs).
Proof.
  revert bss s segs. induction gens as [|g gens IH]; intros bss s segs Hg Hp Hship.
  { apply Forall2_nil_inv_r in Hp as ->. injection Hship as <- <-. unfold state_of, total. cbn. by rewrite !N.add_0_r. }
  destruct Hg as (Hne & Hsome & Hgrow & Hg). cbn [mbind list_bind] in Hp.
  apply Forall2_app_inv_r in Hp as (bs & bss' & Hp & Hps & ->). rewrite ship_all_app in Hship.
  destruct (ship_all s bs) as [s1 segs1] eqn:E1. destruct (ship_all s1 bss') as [s2 segs2] eqn:E2. injection Hship as <- <-.
  destruct (ship_generation (g_header g) bs (g_snapshots g) s s1 segs1 []) as (Hcat & Hch & [Hn Hc] & Hl);
    [by rewrite decide_False|done|done|exact Hp|done|].
  rewrite <- (Hl Hsome) in Hg. destruct (IH _ _ _ Hg Hps E2) as (Hcat2 & Hch2 & [Hn2 Hc2]).
  assert (Hfin : concat (seg_frames <$> segs1) = committed (final g)).
  { cbn [app] in Hcat. rewrite Hcat. unfold final. destruct (last (g_snapshots g)) eqn:El; [done|]. by apply last_None in El. }
  rewrite fmap_app, concat_app, Hfin, Hcat2. split_and!; [done| |].
  - apply chained_app; [done|]. by rewrite <- Hn, <- Hc.
  - unfold state_of, total in *. rewrite fmap_app, concat_app, !length_app, Hn2, Hc2, Hn, Hc. split; lia.
Qed.

Lemma encode_wal_ok h fs enc :
  encode_wal h fs = Ok enc -> exists out, encode_frames h (encode_header h).2 fs = Ok out /\ enc = (encode_header h).1 ++ out.
Proof.
  unfold encode_wal. destruct (encode_header h) as [out ck]. cbn [fst snd].
  destruct (encode_frames h ck fs) as [body|]; [|done]. intros [= <-]. eauto.
Qed.

Lemma parse_wal_total bytes : exists r, parse_wal bytes = Some r.
Proof.
  unfold parse_wal. destruct (_ <? _)%nat; [eauto|]. destruct (from_magic _); [|eauto]. cbv zeta.
  destruct (implausible _); [eauto|]. destruct (negb _); [eauto|].
  match goal with |- context [parse_frames ?f ?h ?c ?b] => destruct (parse_frames_total h c b f) as [fs ->]; [|eauto] end.
  rewrite length_drop. lia.
Qed.

(** No longer run of frames is encoded where a parse stopped. *)
Lemma parse_frames_longest fuel h running bytes fs gs out rest :
  header_ok h -> is_ck running -> parse_frames fuel h running bytes = Some fs ->
  Forall (frame_ok (page_size h)) gs -> encode_frames h running gs = Ok out -> bytes = out ++ rest ->
  gs `prefix_of` fs.
Proof.
  intros Hh Hr Hf Hgs Hout ->.
  destruct (parse_frames_total h (end_checksum h running gs) rest (length (out ++ rest))) as [r Hrest];
    [rewrite length_app; lia|].
  pose proof (parse_encoded (length (out ++ rest)) h running gs out rest Hh Hr Hgs Hout) as Hp.
  rewrite Hrest in Hp. cbn [mbind option_bind] in Hp.
  set (big := (fuel + length gs + length (out ++ rest))%nat).
  assert (Hf1 := parse_frames_fuel _ big _ _ _ _ Hf ltac:(unfold big; lia)).
  assert (Hf2 := parse_frames_fuel _ big _ _ _ _ Hp ltac:(unfold big; lia)).
  rewrite Hf1 in Hf2. exists r. congruence.
Qed.

(** ** The claims *)

(** C26: The parser returns exactly the valid prefix of a WAL.  On any bytes it
    terminates; when it accepts, a file with a canonical header starts with the
    encoding of what it returned, checksums included, and no longer run of frames
    of that header is encoded there; when it refuses, the file is not the
    beginning of any encoding. *)
Theorem wal_exact bytes :
  Forall is_byte bytes ->
  exists r, parse_wal bytes = Some r /\
  match r with
  | Ok p => header_ok (header p) /\ Forall (frame_ok (page_size (header p))) (frames p) /\
      (canonical bytes -> exists enc tail, encode_wal (header p) (frames p) = Ok enc /\ bytes = enc ++ tail /\
         forall fs enc', Forall (frame_ok (page_size (header p))) fs -> encode_wal (header p) fs = Ok enc' ->
           enc' `prefix_of` bytes -> fs `prefix_of` frames p)
  | Err _ => forall h fs enc, header_ok h -> encode_wal h fs = Ok enc -> ~ enc `prefix_of` bytes
  end.
Proof.
  intros Hb. destruct (parse_wal_total bytes) as [r Hr]. exists r. split; [done|]. destruct r as [p|x].
  - destruct (parse_wal_cases bytes p Hb Hr) as (Hh & _ & Hck & Hf & Hcan).
    destruct (parse_frames_exact _ _ _ _ _ (Forall_drop _ _ _ Hb) Hh Hck Hf) as (HF & enc & tail & Henc & Hdrop).
    split_and!; [done..|]. intros Hc. destruct (Hcan Hc) as [Hbytes Hsum]. rewrite <- Hsum in Henc, Hf.
    exists ((encode_header (header p)).1 ++ enc), tail. split_and!.
    + unfold encode_wal. destruct (encode_header (header p)) as [out ck]. cbn [fst snd] in *. by rewrite Henc.
    + rewrite Hbytes at 1. by rewrite Hdrop, app_assoc.
    + intros fs enc' Hfs (out & Hout & ->)%encode_wal_ok [rest Hrest]. rewrite <- app_assoc in Hrest.
      rewrite Hbytes in Hrest at 1. apply app_inv_head in Hrest.
      by eapply parse_frames_longest; [exact Hh|apply header_checksum_u32|exact Hf|exact Hfs|exact Hout|].
  - intros h fs enc Hh (out & _ & ->)%encode_wal_ok [rest ->]. rewrite <- app_assoc, parse_encoded_header in Hr by done.
    match type of Hr with context [parse_frames ?f ?g ?c ?b] => destruct (parse_frames_total g c b f) as [gs Hgs] end.
    { unfold WAL_HEADER_SIZE. lia. } by rewrite Hgs in Hr.
Qed.

(** C27: Segments survive the wire.  Every segment the shipper can cut encodes
    and decodes back, whatever follows it in the buffer; decoding any bytes, a
    hostile peer's included, terminates without a panic, and accepts exactly the
    buffers that start with the encoding of what it returns. *)
Theorem segment_wire :
  (forall s, segment_ok s -> exists enc, encode s = Some enc /\ forall tail, decode (enc ++ tail) = Some (Ok s)) /\
  (forall bytes, Forall is_byte bytes -> exists r, decode bytes = Some r /\
     match r with
     | Ok s => segment_ok s /\ exists enc tail, encode s = Some enc /\ bytes = enc ++ tail
     | Err _ => forall s enc, segment_ok s -> encode s = Some enc -> ~ enc `prefix_of` bytes
     end).
Proof.
  split.
  - intros s Hs. assert (He : exists enc, encode s = Some enc).
    { unfold encode. rewrite (proj2 (N.ltb_ge _ _)) by apply Hs. eauto. }
    destruct He as [enc He]. exists enc. split; [done|]. intros tail. by apply decode_encode_tail.
  - intros bytes Hb. assert (Htot : exists r, decode bytes = Some r).
    { unfold decode. destruct (_ <? _)%nat; [eauto|]. destruct (negb _); [eauto|]. cbv zeta.
      destruct (implausible _); [eauto|].
      match goal with |- context [decode_frames ?f ?p ?c ?b] => destruct (decode_frames_total f p c b) as [r ->]; [|eauto] end.
      rewrite length_drop. lia. }
    destruct Htot as [[s|x] Hr]; eexists; (split; [exact Hr|]); [by apply segment_bytes|].
    intros s enc Hs He [tail ->]. by rewrite (decode_encode_tail s enc tail Hs He) in Hr.
Qed.

(** The shipper sends every committed frame once.  Through any number of
    WAL generations, each looked at any number of times while it grows, the
    segments contain, in order and without a gap or a repetition, exactly the
    frames up to the last commit seen of each generation; each segment ends on a
    commit, and the segments are numbered from one with the running total. *)
Theorem ship_exact gens bss s' segs :
  generations_ok None gens -> Forall2 parses bss (gens ≫= snapshots) -> ship_all new bss = (s', segs) ->
  concat (seg_frames <$> segs) = concat ((fun g => committed (final g)) <$> gens) /\
  chained 1 0 segs /\ sh_cumulative_frames s' = N.of_nat (length (concat (seg_frames <$> segs))).
Proof.
  intros Hg Hp Hs. destruct (ship_generations gens bss new s' segs Hg Hp Hs) as (Hcat & Hch & [_ Hc]).
  split_and!; [done|done|]. by rewrite Hc.
Qed.

#[export] Instance is_byte_dec b : Decision (is_byte b).
Proof. unfold is_byte. apply _. Defined.

(** ** Concrete runs *)

Module Concrete.
Definition fill (pn db fill : N) : WalFrame := mk_frame pn db (replicate 512 fill).
Definition hdr : WalHeader := sealed (mk_header Little 512 0 7 9 (0, 0)%N).
Definition hdr2 : WalHeader := sealed (mk_header Big 512 1 8 9 (0, 0)%N).
Definition bytes_of (h : WalHeader) (fs : list WalFrame) : list N :=
  match encode_wal h fs with Ok b => b | Err _ => [] end.

(** Two frames and a torn third one. *)
Definition torn : list N := bytes_of hdr [fill 1 0 161; fill 2 2 162] ++ take 200 (bytes_of hdr [fill 3 3 163]).
Lemma wal_exact_witness :
  Forall is_byte torn /\ parse_wal torn = Some (Ok (mk_parsed hdr [fill 1 0 161; fill 2 2 162])) /\
  exists enc tail, encode_wal hdr [fill 1 0 161; fill 2 2 162] = Ok enc /\ torn = enc ++ tail.
Proof.
  assert (Hb : Forall is_byte torn) by (apply (bool_decide_unpack (Forall is_byte torn)); by vm_compute).
  assert (Hp : parse_wal torn = Some (Ok (mk_parsed hdr [fill 1 0 161; fill 2 2 162]))) by by vm_compute.
  split; [exact Hb|]. split; [exact Hp|]. destruct (wal_exact torn Hb) as (r & Hr & H). rewrite Hp in Hr.
  apply (inj Some) in Hr as <-. destruct H as (_ & _ & H). destruct H as (enc & tail & He & Ht & _).
  { split; by vm_compute. } exists enc, tail. exact (conj He Ht).
Defined.

Definition one : WalSegment := mk_segment 1 2 512 7 9 [fill 1 0 161; fill 2 2 162].
Lemma one_ok : segment_ok one.
Proof.
  assert (Hf : Forall (frame_ok 512) [fill 1 0 161; fill 2 2 162]).
  { repeat constructor; by vm_compute. }
  by split; [..|exact Hf|]; vm_compute.
Qed.
Lemma segment_wire_witness :
  exists enc, encode one = Some enc /\ decode (enc ++ [1; 2; 3])%N = Some (Ok one).
Proof.
  destruct (proj1 segment_wire one one_ok) as (enc & He & Hd). exists enc. exact (conj He (Hd _)).
Defined.

(** Three looks at one generation, then the next one. *)
Definition gens : list Generation :=
  [mk_generation hdr [[fill 1 0 161]; [fill 1 0 161; fill 2 2 162; fill 3 0 163];
                      [fill 1 0 161; fill 2 2 162; fill 3 0 163; fill 1 3 164]];
   mk_generation hdr2 [[fill 2 3 165; fill 1 0 166]]].
Definition looks : list (list N) := gens ≫= fun g => bytes_of (g_header g) <$> g_snapshots g.
Lemma ship_exact_witness :
  let segs := (ship_all new looks).2 in
  length segs = 3%nat /\
  concat (seg_frames <$> segs) = [fill 1 0 161; fill 2 2 162; fill 3 0 163; fill 1 3 164; fill 2 3 165].
Proof.
  assert (Hp : Forall2 parses looks (gens ≫= snapshots)).
  { unfold parses, looks, gens, snapshots. cbn [mbind list_bind app fmap list_fmap g_header g_snapshots].
    repeat (constructor; [by vm_compute|]). constructor. }
  assert (Hg : generations_ok None gens).
  { unfold gens. cbn [generations_ok growing g_header g_snapshots].
    split_and!; try done; (by vm_compute) || (by eexists) || idtac. }
  pose proof (ship_exact gens looks _ _ Hg Hp (surjective_pairing _)) as (Hcat & _ & _).
  split; [by vm_compute|]. rewrite Hcat. by vm_compute.
Defined.
End Concrete.
