(* ===== verification/Replication.v ===== *)
(** * Primary and standby ([substrate_server/src/replication/primary.rs],
    [standby.rs], [memory.rs] and the shared state of [mod.rs])

    The primary drains its WAL, cuts segments with the shipper of [Wal] and
    publishes them; the standby splices the page images of the segments it
    receives into its database file.  The bus between them is an interface that
    may fail to publish, with the in-process bus as an implementation. *)

From S2P Require Import Prelude Wal.

(** ** The shared state *)

(** [enum Role]. *)
Inductive Role : Type := Primary | Standby | Disabled.
#[export] Instance Role_eq_dec : EqDecision Role.
Proof. solve_decision. Defined.

(** [struct ReplicationShared]. *)
Record ReplicationShared : Type := mk_shared {
  enabled : bool;
  role : Role;
  lag_frames : N;
  published_frames_total : N;
  applied_frames_total : N;
  epoch : N;
  last_applied_ms : Z
}.
Definition shared_disabled : ReplicationShared := mk_shared false Disabled 0 0 0 0 (-1).
Definition shared_enabled (r : Role) : ReplicationShared := mk_shared true r 0 0 0 0 (-1).
Definition is_writable (s : ReplicationShared) : bool :=
  match role s with Primary | Disabled => true | Standby => false end.
Definition set_role (r : Role) (s : ReplicationShared) : ReplicationShared :=
  mk_shared (enabled s) r (lag_frames s) (published_frames_total s) (applied_frames_total s) (epoch s) (last_applied_ms s).
Definition set_lag_frames (n : N) (s : ReplicationShared) : ReplicationShared :=
  mk_shared (enabled s) (role s) n (published_frames_total s) (applied_frames_total s) (epoch s) (last_applied_ms s).
Definition set_published_frames_total (n : N) (s : ReplicationShared) : ReplicationShared :=
  mk_shared (enabled s) (role s) (lag_frames s) n (applied_frames_total s) (epoch s) (last_applied_ms s).
Definition record_applied (now_ms : Z) (n : N) (s : ReplicationShared) : ReplicationShared :=
  mk_shared (enabled s) (role s) (lag_frames s) (published_frames_total s) n (epoch s) now_ms.
Definition set_epoch (n : N) (s : ReplicationShared) : ReplicationShared :=
  mk_shared (enabled s) (role s) (lag_frames s) (published_frames_total s) (applied_frames_total s) n (last_applied_ms s).

(** [struct ReplicationStatus] and [snapshot]; the time stays in milliseconds. *)
Record ReplicationStatus : Type := mk_status {
  status_enabled : bool;
  status_role : Role;
  status_lag_frames : N;
  status_published_frames_total : N;
  status_applied_frames_total : N;
  status_epoch : N;
  status_last_applied_at : option Z
}.
Definition snapshot (s : ReplicationShared) : ReplicationStatus :=
  {| status_enabled := enabled s; status_role := role s; status_lag_frames := lag_frames s;
     status_published_frames_total := published_frames_total s; status_applied_frames_total := applied_frames_total s;
     status_epoch := epoch s; status_last_applied_at := if (last_applied_ms s <? 0)%Z then None else Some (last_applied_ms s) |}.

(** ** The bus *)

(** [trait WalBus].  [retained] is the log a new subscription replays, in the
    order of publication; nothing is promised of a publication that reports an
    error (a lost acknowledgement). *)
Class WalBus (B : Type) := {
  publish : WalSegment -> eff B ReplError unit;
  latest_watermark : B -> result N ReplError;
  retained : B -> list WalSegment
}.
Class WalBusLaws (B : Type) `{WalBus B} := {
  publish_ok : forall seg b b' u, publish seg b = (b', Ok u) -> retained b' = retained b ++ [seg];
  watermark_law : forall b n, latest_watermark b = Ok n ->
    n = match last (retained b) with Some seg => cumulative_frames seg | None => 0%N end
}.

(** [InMemoryWalBus]: the log behind its mutex. *)
Definition InMemoryWalBus : Type := list WalSegment.
#[export] Instance in_memory_bus : WalBus InMemoryWalBus := {
  publish seg log := (log ++ [seg], Ok tt);
  latest_watermark log := Ok (match last log with Some s => cumulative_frames s | None => 0%N end);
  retained log := log
}.
#[export] Instance in_memory_bus_laws : WalBusLaws InMemoryWalBus.
Proof. split; [by intros seg b b' u [= <-]|by intros b n [= <-]]. Qed.

(** ** The primary *)

Section Primary.
Context {B : Type} {WB : WalBus B}.

(** [struct PrimaryReplicator], with the shared state and the bus. *)
Record PrimaryReplicator : Type := mk_primary { shipper : WalShipper; p_shared : ReplicationShared; bus : B }.
Definition new_primary (b : B) (s : ReplicationShared) : PrimaryReplicator := mk_primary new s b.

(** [ship_once]. *)
Definition ship_once (wal_bytes : list N) : eff PrimaryReplicator ReplError N := fun p =>
  match next_segment wal_bytes (shipper p) with
  | (sh, Err e) => (mk_primary sh (p_shared p) (bus p), Err e)
  | (sh, Ok None) => (mk_primary sh (p_shared p) (bus p), Ok 0%N)
  | (sh, Ok (Some segment)) =>
      match publish segment (bus p) with
      | (b, Err e) => (mk_primary sh (p_shared p) b, Err e)
      | (b, Ok _) =>
          (mk_primary sh (set_published_frames_total (sh_cumulative_frames sh) (p_shared p)) b,
           Ok (frame_count segment))
      end
  end.

(** The loop of [run]: what a tick drains from the WAL ([ffi::drain_wal], which
    empties it), or the shutdown. *)
Inductive primary_event : Type :=
| Drained (r : result (list N) ReplError)
| Stop.
Fixpoint run_primary (events : list primary_event) (p : PrimaryReplicator) : PrimaryReplicator :=
  match events with
  | [] => p
  | Stop :: _ => p
  | Drained (Err _) :: events => run_primary events p
  | Drained (Ok []) :: events => run_primary events p
  | Drained (Ok bytes) :: events => run_primary events (ship_once bytes p).1
  end.
End Primary.
Arguments PrimaryReplicator B : clear implicits.

(** ** The standby *)

(** A file operation that fails, after having written some bytes. *)
Record IoFault : Type := mk_fault { fault_message : string; bytes_written : nat }.

(** Writing at an offset, with zeros between the end of the file and the
    offset; and [set_len]. *)
Definition write_at (offset : nat) (data file : list N) : list N :=
  resize offset 0%N file ++ data ++ drop (offset + length data) file.
Definition set_len (n : nat) (file : list N) : list N := resize n 0%N file.

(** The loop and the rest of [write_segment_to_file]; [io n] is the failure of
    the n-th file operation: open, then a seek and a write per frame, then
    [set_len] and [fsync]. *)
Fixpoint write_pages (io : nat -> option IoFault) (n : nat) (page_size : N) (fs : list (N * list N)) (file : list N) :
    list N * result nat ReplError :=
  match fs with
  | [] => (file, Ok n)
  | (page_number, page_data) :: fs =>
      let offset := N.to_nat ((page_number - 1) * page_size) in
      match io n with
      | Some _ => (file, Err (TransportFailed "seek"))
      | None =>
          match io (S n) with
          | Some f => (write_at offset (take (bytes_written f) page_data) file, Err (TransportFailed "write page"))
          | None => write_pages io (S (S n)) page_size fs (write_at offset page_data file)
          end
      end
  end.
Definition write_segment_to_file (io : nat -> option IoFault) (page_size : N) (db_pages_after_commit : option N)
    (fs : list (N * list N)) (file : list N) : list N * result unit ReplError :=
  match io 0%nat with
  | Some _ => (file, Err (TransportFailed "opening standby db"))
  | None =>
      match write_pages io 1 page_size fs file with
      | (file, Err e) => (file, Err e)
      | (file, Ok n) =>
          match db_pages_after_commit with
          | Some pages =>
              match io n with
              | Some _ => (file, Err (TransportFailed "set_len"))
              | None =>
                  let file := set_len (N.to_nat (pages * page_size)) file in
                  match io (S n) with
                  | Some _ => (file, Err (TransportFailed "fsync"))
                  | None => (file, Ok tt)
                  end
              end
          | None =>
              match io n with
              | Some _ => (file, Err (TransportFailed "fsync"))
              | None => (file, Ok tt)
              end
          end
      end
  end.

(** [struct StandbyReplicator] with the database file; [has_handle] tells
    whether a store handle is attached. *)
Record StandbyReplicator : Type := mk_standby {
  s_shared : ReplicationShared;
  file : list N;
  has_handle : bool;
  s_last_salts : option (N * N);
  last_seq : N;
  applied_total : N;
  expected_page_size : option N
}.
Definition new_standby (s : ReplicationShared) (f : list N) (handle : bool) : StandbyReplicator :=
  mk_standby s f handle None 0 0 None.

(** What one application gets from outside: the clock, the store's page size,
    the file operations, and whether the store's lock was available and its
    connection reopened. *)
Inductive lock_outcome : Type := Locked | NotOpen | ReopenFailed.
Record ApplyIo : Type := mk_apply_io {
  now_ms : Z;
  store_page_size : result N string;
  file_io : nat -> option IoFault;
  lock : lock_outcome
}.

(** [ffi::with_store_file_locked]: the closure runs first, its answer is
    dropped when the connection does not reopen. *)
Definition with_store_file_locked (l : lock_outcome) (apply : list N -> list N * result unit ReplError) (f : list N) :
    list N * result unit ReplError :=
  match l with
  | NotOpen => (f, Err (TransportFailed "standby store handle unavailable"))
  | Locked => apply f
  | ReopenFailed => ((apply f).1, Err (TransportFailed "standby store handle unavailable"))
  end.

(** The last commit of the segment. *)
Definition db_pages_after_commit (fs : list WalFrame) : option N :=
  db_size_after_commit <$> List.find is_commit (rev fs).

(** The check of the page size against the store's. *)
Definition check_page_size (io : ApplyIo) (segment : WalSegment) : eff StandbyReplicator ReplError unit := fun s =>
  if has_handle s then
    match match expected_page_size s with
          | Some n => (s, Ok n)
          | None =>
              match store_page_size io with
              | Err e => (s, Err (TransportFailed e))
              | Ok n => (mk_standby (s_shared s) (file s) (has_handle s) (s_last_salts s) (last_seq s)
                           (applied_total s) (Some n), Ok n)
              end
          end with
    | (s, Err e) => (s, Err e)
    | (s, Ok expected) =>
        (s, if (seg_page_size segment =? expected)%N then Ok tt
            else Err (Misconfigured "WAL segment page_size does not match the local store"))
    end
  else (s, Ok tt).

(** [apply_segment]. *)
Definition apply_segment (io : ApplyIo) (segment : WalSegment) : eff StandbyReplicator ReplError N := fun s =>
  let salts := (seg_salt1 segment, seg_salt2 segment) in
  let s := if bool_decide (s_last_salts s = Some salts) then s
           else mk_standby (s_shared s) (file s) (has_handle s) (Some salts) 0 (applied_total s)
                  (expected_page_size s) in
  if (seq segment <=? last_seq s)%N then
    (mk_standby (record_applied (now_ms io) (applied_total s) (s_shared s)) (file s) (has_handle s)
       (s_last_salts s) (last_seq s) (applied_total s) (expected_page_size s), Ok 0%N)
  else if existsb (fun f => page_number f =? 0)%N (seg_frames segment) then
    (s, Err (Malformed "WAL frame has page_number 0 (pages are 1-based)"))
  else
    match check_page_size io segment s with
    | (s, Err e) => (s, Err e)
    | (s, Ok _) =>
        let pages := (fun f => (page_number f, page_data f)) <$> seg_frames segment in
        let apply := write_segment_to_file (file_io io) (seg_page_size segment)
                       (db_pages_after_commit (seg_frames segment)) pages in
        let '(f, r) := if has_handle s then with_store_file_locked (lock io) apply (file s) else apply (file s) in
        match r with
        | Err e => (mk_standby (s_shared s) f (has_handle s) (s_last_salts s) (last_seq s)
                      (applied_total s) (expected_page_size s), Err e)
        | Ok _ =>
            let total := cumulative_frames segment in
            (mk_standby (record_applied (now_ms io) total (s_shared s)) f (has_handle s) (s_last_salts s)
               (seq segment) total (expected_page_size s), Ok (frame_count segment))
        end
    end.

(** [refresh_lag], with what the bus answers. *)
Definition refresh_lag (watermark : result N ReplError) (s : StandbyReplicator) : StandbyReplicator :=
  match watermark with
  | Err _ => s
  | Ok w =>
      mk_standby (set_lag_frames (w - applied_total s) (s_shared s)) (file s) (has_handle s) (s_last_salts s)
        (last_seq s) (applied_total s) (expected_page_size s)
  end.

(** The loop of [run]: a segment with the watermark read after it, a tick of the
    lag timer, the end of the stream, or the shutdown. *)
Inductive standby_event : Type :=
| Received (io : ApplyIo) (segment : WalSegment) (watermark : result N ReplError)
| LagTick (watermark : result N ReplError)
| Closed
| StopStandby.
Fixpoint run_standby (events : list standby_event) (s : StandbyReplicator) : StandbyReplicator :=
  match events with
  | [] | Closed :: _ | StopStandby :: _ => s
  | Received io segment w :: events => run_standby events (refresh_lag w (apply_segment io segment s).1)
  | LagTick w :: events => run_standby events (refresh_lag w s)
  end.

(** ** Files as pages *)

(** The byte at a position, zero past the end, and a page of a file. *)
Definition byte_at (f : list N) (i : nat) : N := default 0%N (f !! i).
Definition page_at (ps n : N) (f : list N) : list N :=
  (fun i => byte_at f (N.to_nat ((n - 1) * ps) + i)) <$> List.seq 0 (N.to_nat ps).

Lemma byte_at_resize n f i : byte_at (resize n 0%N f) i = if decide (i < n)%nat then byte_at f i else 0%N.
Proof.
  unfold byte_at. case_decide as Hi; [|by rewrite lookup_resize_old by lia].
  destruct (decide (i < length f)%nat) as [Hl|Hl].
  - by rewrite lookup_resize.
  - rewrite lookup_resize_new, lookup_ge_None_2 by lia. done.
Qed.
Lemma byte_at_write off data f i :
  byte_at (write_at off data f) i
  = if decide (off <= i < off + length data)%nat then byte_at data (i - off) else byte_at f i.
Proof.
  unfold write_at. unfold byte_at at 1. destruct (decide (i < off)%nat) as [Hlt|Hge].
  - rewrite lookup_app_l by (rewrite length_resize; lia). fold (byte_at (resize off 0%N f) i).
    rewrite byte_at_resize, decide_True by done. by rewrite decide_False by lia.
  - rewrite lookup_app_r, length_resize by (rewrite length_resize; lia).
    destruct (decide (i < off + length data)%nat) as [Hin|Hout].
    + rewrite lookup_app_l by lia. by rewrite decide_True by lia.
    + rewrite lookup_app_r, lookup_drop by lia. rewrite decide_False by lia. unfold byte_at. do 2 f_equal. lia.
Qed.

(** Pages do not overlap. *)
Lemma page_write ps n m data f :
  (1 <= n)%N -> (1 <= m)%N -> length data = N.to_nat ps ->
  page_at ps m (write_at (N.to_nat ((n - 1) * ps)) data f) = if decide (m = n) then data else page_at ps m f.
Proof.
  intros Hn Hm Hd. unfold page_at. case_decide as Hmn.
  - subst m. apply list_eq_same_length with (N.to_nat ps); [done|by rewrite length_fmap, length_seq|].
    intros i x y Hi Hx Hy. rewrite list_lookup_fmap, lookup_seq_lt in Hx by done. injection Hx as <-.
    rewrite byte_at_write, decide_True by lia. unfold byte_at.
    match goal with |- default _ (_ !! ?k) = _ => replace k with i by lia end. by rewrite Hy.
  - apply list_fmap_ext. intros i j Hj. apply lookup_seq in Hj as [-> Hj].
    rewrite byte_at_write, decide_False; [done|].
    assert (m < n \/ n < m)%N as [Hlt|Hlt] by lia.
    + assert ((m - 1) * ps + ps <= (n - 1) * ps)%N by nia. lia.
    + assert ((n - 1) * ps + ps <= (m - 1) * ps)%N by nia. lia.
Qed.
Lemma page_set_len ps k m f :
  (1 <= m <= k)%N -> page_at ps m (set_len (N.to_nat (k * ps)) f) = page_at ps m f.
Proof.
  intros Hm. unfold page_at, set_len. apply list_fmap_ext. intros i j Hj. apply lookup_seq in Hj as [-> Hj].
  rewrite byte_at_resize, decide_True; [done|]. assert ((m - 1) * ps + ps <= k * ps)%N by nia. lia.
Qed.
Lemma page_cut ps k m f : (k < m)%N -> page_at ps m (set_len (N.to_nat (k * ps)) f) = replicate (N.to_nat ps) 0%N.
Proof.
  intros Hm. unfold page_at, set_len. apply list_eq_same_length with (N.to_nat ps); [by rewrite length_replicate|by rewrite length_fmap, length_seq|].
  intros i x y Hi Hx Hy. rewrite list_lookup_fmap, lookup_seq_lt in Hx by done. injection Hx as <-.
  apply lookup_replicate in Hy as [-> _]. rewrite byte_at_resize, decide_False; [done|].
  assert (k * ps <= (m - 1) * ps)%N by nia. lia.
Qed.

(** ** Splicing *)

Definition write_page (ps : N) (file : list N) (f : WalFrame) : list N :=
  write_at (N.to_nat ((page_number f - 1) * ps)) (page_data f) file.
Definition splice (file : list N) (seg : WalSegment) : list N :=
  let written := foldl (write_page (seg_page_size seg)) file (seg_frames seg) in
  match db_pages_after_commit (seg_frames seg) with
  | Some k => set_len (N.to_nat (k * seg_page_size seg)) written
  | None => written
  end.

(** The last image of a page among frames. *)
Definition last_image (n : N) (fs : list WalFrame) : option (list N) :=
  page_data <$> List.find (fun f => page_number f =? n)%N (rev fs).

Lemma find_app {A} (p : A -> bool) l l' :
  List.find p (l ++ l') = match List.find p l with Some x => Some x | None => List.find p l' end.
Proof. induction l as [|x l IH]; [done|]. cbn. by destruct (p x). Qed.

Lemma last_image_app n a b :
  last_image n (a ++ b) = match last_image n b with Some d => Some d | None => last_image n a end.
Proof.
  unfold last_image. rewrite rev_app_distr, find_app. by destruct (List.find _ (rev b)).
Qed.

(** A frame a standby accepts. *)
Definition applicable_frame (ps : N) (f : WalFrame) : Prop := page_number f <> 0%N /\ length (page_data f) = N.to_nat ps.

Lemma page_foldl ps m fs file :
  (1 <= m)%N -> Forall (applicable_frame ps) fs ->
  page_at ps m (foldl (write_page ps) file fs) = default (page_at ps m file) (last_image m fs).
Proof.
  intros Hm Hfs. induction fs as [|f fs IH] using rev_ind; [done|].
  apply Forall_app in Hfs as [Hfs [[Hp Hd] _]%Forall_cons]. specialize (IH Hfs).
  rewrite foldl_app. cbn [foldl]. unfold write_page at 1. rewrite page_write by (done || lia).
  rewrite last_image_app. unfold last_image at 1. cbn [rev app List.find].
  case_decide as Hmn.
  - by rewrite <- Hmn, N.eqb_refl.
  - rewrite (proj2 (N.eqb_neq _ _)) by congruence. exact IH.
Qed.

(** ** What a segment does to a byte *)

(** A function that leaves a byte alone or sets it to a constant. *)
Definition sets_or_keeps (i : nat) (g : list N -> list N) : Prop :=
  (forall f, byte_at (g f) i = byte_at f i) \/ (exists v, forall f, byte_at (g f) i = v).

Lemma sets_compose i g h : sets_or_keeps i g -> sets_or_keeps i h -> sets_or_keeps i (fun f => h (g f)).
Proof.
  intros Hg [Hh|[v Hh]]; [|right; exists v; intros f; apply Hh].
  destruct Hg as [Hg|[v Hg]]; [left|right; exists v]; intros f; by rewrite Hh, Hg.
Qed.
Lemma sets_write i off data : sets_or_keeps i (write_at off data).
Proof.
  destruct (decide (off <= i < off + length data)%nat) as [Hi|Hi].
  - right. exists (byte_at data (i - off)). intros f. by rewrite byte_at_write, decide_True.
  - left. intros f. by rewrite byte_at_write, decide_False.
Qed.
Lemma sets_set_len i n : sets_or_keeps i (set_len n).
Proof.
  destruct (decide (i < n)%nat) as [Hi|Hi].
  - left. intros f. unfold set_len. by rewrite byte_at_resize, decide_True.
  - right. exists 0%N. intros f. unfold set_len. by rewrite byte_at_resize, decide_False.
Qed.
Lemma sets_pages i ps fs : sets_or_keeps i (fun f => foldl (write_page ps) f fs).
Proof.
  induction fs as [|x fs IH]; [by left|]. cbn [foldl].
  apply (sets_compose i (fun f => write_page ps f x) (fun f => foldl (write_page ps) f fs)); [apply sets_write|done].
Qed.
Lemma sets_splice i seg : sets_or_keeps i (fun f => splice f seg).
Proof.
  unfold splice. destruct (db_pages_after_commit (seg_frames seg)) as [k|]; [|apply sets_pages].
  apply (sets_compose i (fun f => foldl (write_page (seg_page_size seg)) f (seg_frames seg))); [apply sets_pages|apply sets_set_len].
Qed.

(** Equal up to the length. *)
Definition same_bytes (f g : list N) : Prop := forall i, byte_at f i = byte_at g i.

Lemma same_bytes_eq f g : length f = length g -> same_bytes f g -> f = g.
Proof.
  intros Hl Hs. apply list_eq_same_length with (length f); [done|done|]. intros i x y Hi Hx Hy.
  specialize (Hs i). unfold byte_at in Hs. by rewrite Hx, Hy in Hs.
Qed.

(** Every segment of the shipper ends on a commit, so it fixes the length. *)
Definition commits (seg : WalSegment) : Prop := exists k, db_pages_after_commit (seg_frames seg) = Some k.

Lemma length_splice f g seg : commits seg -> length (splice f seg) = length (splice g seg).
Proof. intros [k Hk]. unfold splice. rewrite Hk. unfold set_len. by rewrite !length_resize. Qed.
Lemma length_splices f g segs :
  Forall commits segs -> segs <> [] -> length (foldl splice f segs) = length (foldl splice g segs).
Proof.
  intros Hc Hne. destruct segs as [|seg segs _] using rev_ind; [done|]. rewrite !foldl_app. cbn [foldl].
  apply Forall_app in Hc as [_ [Hc _]%Forall_cons]. by apply length_splice.
Qed.

Lemma byte_splices i f g segs :
  byte_at f i = byte_at g i -> byte_at (foldl splice f segs) i = byte_at (foldl splice g segs) i.
Proof.
  revert f g. induction segs as [|seg segs IH]; intros f g H; cbn [foldl]; [done|]. apply IH.
  destruct (sets_splice i seg) as [Hs|[v Hs]]; by rewrite !Hs.
Qed.

(** A segment that is spliced again later leaves no trace of the first time. *)
Lemma splice_absorb f seg segs :
  Forall commits segs -> seg ∈ segs -> foldl splice (splice f seg) segs = foldl splice f segs.
Proof.
  intros Hc Hin. apply same_bytes_eq; [apply length_splices; [done|by intros ->; apply not_elem_of_nil in Hin]|].
  intros i. destruct (sets_splice i seg) as [Hs|[v Hs]]; [by apply byte_splices|].
  apply list_elem_of_split in Hin as (l1 & l2 & ->). rewrite !foldl_app. cbn [foldl]. apply byte_splices. by rewrite !Hs.
Qed.

(** ** Deliveries *)

(** The standby receives a log at least once: it may be sent back to any
    earlier segment, any number of times, but never skips one, and in the end
    has received the last. *)
Fixpoint delivery (log : list WalSegment) (pos : nat) (ds : list WalSegment) : Prop :=
  match ds with
  | [] => pos = length log
  | seg :: ds => exists i, (i <= pos)%nat /\ log !! i = Some seg /\ delivery log (S i) ds
  end.

Definition salts_of (seg : WalSegment) : N * N := (seg_salt1 seg, seg_salt2 seg).

(** Numbers from one, which do not go back while the salts stay the same: the
    log of one shipper, or the logs of several primaries one after another. *)
Definition numbered (log : list WalSegment) : Prop :=
  (forall i a, log !! i = Some a -> (1 <= seq a)%N) /\
  (forall i j a b, log !! i = Some a -> log !! j = Some b -> salts_of a = salts_of b -> (seq a <= seq b)%N -> (i <= j)%nat).

Definition applicable (ps : N) (seg : WalSegment) : Prop :=
  seg_page_size seg = ps /\ Forall (applicable_frame ps) (seg_frames seg).

(** Nothing fails outside. *)
Definition quiet (ps : N) (io : ApplyIo) : Prop :=
  store_page_size io = Ok ps /\ (forall n, file_io io n = None) /\ lock io = Locked.

Lemma write_pages_quiet io n ps fs file :
  (forall n, io n = None) ->
  exists m, write_pages io n ps ((fun f => (page_number f, page_data f)) <$> fs) file
    = (foldl (write_page ps) file fs, Ok m).
Proof.
  intros Hio. revert n file. induction fs as [|f fs IH]; intros n file; cbn [fmap list_fmap write_pages foldl]; [eauto|].
  rewrite !Hio. apply IH.
Qed.
Lemma write_segment_quiet io seg file :
  (forall n, io n = None) ->
  write_segment_to_file io (seg_page_size seg) (db_pages_after_commit (seg_frames seg))
    ((fun f => (page_number f, page_data f)) <$> seg_frames seg) file = (splice file seg, Ok tt).
Proof.
  intros Hio. unfold write_segment_to_file, splice. rewrite Hio.
  destruct (write_pages_quiet io 1 (seg_page_size seg) (seg_frames seg) file Hio) as [m ->].
  destruct (db_pages_after_commit _); by rewrite !Hio.
Qed.

(** ** The standby follows the log *)

Definition page_size_known (ps : N) (s : StandbyReplicator) : Prop :=
  expected_page_size s = None \/ expected_page_size s = Some ps.

Lemma check_quiet ps io seg s :
  applicable ps seg -> quiet ps io -> page_size_known ps s ->
  exists s', check_page_size io seg s = (s', Ok tt) /\ page_size_known ps s' /\
    s_shared s' = s_shared s /\ file s' = file s /\ has_handle s' = has_handle s /\ s_last_salts s' = s_last_salts s /\
    last_seq s' = last_seq s /\ applied_total s' = applied_total s.
Proof.
  intros [Hps _] (Hstore & _ & _) Hk. unfold check_page_size.
  destruct (has_handle s) eqn:Eh; [|by exists s].
  assert (Heq : (seg_page_size seg =? ps)%N = true) by by apply N.eqb_eq.
  destruct (expected_page_size s) as [n|] eqn:En.
  - assert (n = ps) as -> by (destruct Hk; congruence).
    rewrite Heq. exists s. by split_and!.
  - rewrite Hstore, Heq. eexists. split; [done|]. split; [by right|done].
Qed.

(** One application when nothing fails. *)
Lemma apply_quiet ps io seg s :
  applicable ps seg -> quiet ps io -> page_size_known ps s -> (1 <= seq seg)%N ->
  let s' := (apply_segment io seg s).1 in
  page_size_known ps s' /\ s_shared s' = record_applied (now_ms io) (applied_total s') (s_shared s) /\
  ((s_last_salts s = Some (salts_of seg) /\ (seq seg <= last_seq s)%N /\
      file s' = file s /\ s_last_salts s' = s_last_salts s /\ last_seq s' = last_seq s /\ applied_total s' = applied_total s)
   \/ ((s_last_salts s = Some (salts_of seg) -> (last_seq s < seq seg)%N) /\
      file s' = splice (file s) seg /\ s_last_salts s' = Some (salts_of seg) /\ last_seq s' = seq seg /\
      applied_total s' = cumulative_frames seg)).
Proof.
  intros Ha Hq Hk H1 s'. unfold s', apply_segment. clear s'. cbv zeta. fold (salts_of seg).
  set (s0 := if bool_decide (s_last_salts s = Some (salts_of seg)) then s else _).
  assert (H0 : page_size_known ps s0 /\ s_shared s0 = s_shared s /\ file s0 = file s /\ s_last_salts s0 = Some (salts_of seg)).
  { unfold s0. case_bool_decide; done. }
  destruct H0 as (Hk0 & Hsh0 & Hf0 & Hsalts0).
  destruct (N.leb_spec (seq seg) (last_seq s0)) as [Hle|Hgt]; cbn [fst].
  - unfold s0 in *. case_bool_decide as Es; [|cbn in Hle; lia]. split; [done|]. split; [done|].
    left. by split_and!.
  - destruct (existsb _ _) eqn:Ez.
    { exfalso. apply existsb_exists in Ez as (f & Hf%list_elem_of_In & Hz%N.eqb_eq). destruct Ha as [_ Ha].
      rewrite Forall_forall in Ha. by destruct (Ha f Hf). }
    destruct (check_quiet ps io seg s0 Ha Hq Hk0) as (s1 & Hc & Hk1 & Hsh1 & Hf1 & _ & Hs1 & _). rewrite Hc.
    destruct Hq as (_ & Hio & Hlock). pose proof (write_segment_quiet (file_io io) seg (file s1) Hio) as Hw.
    unfold with_store_file_locked. rewrite Hlock, Hw.
    destruct (has_handle s1); cbn [fst]; (split; [done|]; split; [by cbn; rewrite Hsh1, Hsh0|]; right;
      split_and!; [intros Es; unfold s0 in Hgt; by rewrite bool_decide_eq_true_2 in Hgt|by cbn; rewrite Hf1, Hf0|cbn; congruence|done|done]).
Qed.

(** Where the standby stands: [p] segments of the log applied, of which it can
    be sent back to any without harm. *)
Record follows (ps : N) (log : list WalSegment) (f0 : list N) (pos : nat) (s : StandbyReplicator) : Prop := {
  fo_known : page_size_known ps s;
  fo_at : exists p, (pos <= p <= length log)%nat /\
    (forall q, (q <= p)%nat -> foldl splice (file s) (drop q log) = foldl splice f0 log) /\
    match p with
    | O => s_last_salts s = None /\ applied_total s = 0%N
    | S k => exists a, log !! k = Some a /\ s_last_salts s = Some (salts_of a) /\ last_seq s = seq a /\
        applied_total s = cumulative_frames a /\ applied_frames_total (s_shared s) = cumulative_frames a
    end
}.

Lemma follows_apply ps log f0 pos i io seg s :
  Forall commits log -> Forall (applicable ps) log -> numbered log -> quiet ps io ->
  follows ps log f0 pos s -> (i <= pos)%nat -> log !! i = Some seg ->
  follows ps log f0 (S i) (apply_segment io seg s).1.
Proof.
  intros Hc Ha [Hn1 Hn] Hq [Hk (p & Hp & Hf & Hlast)] Hi Hseg.
  assert (Has : applicable ps seg) by by apply (Forall_lookup_1 _ _ _ _ Ha Hseg).
  destruct (apply_quiet ps io seg s Has Hq Hk (Hn1 _ _ Hseg)) as (Hk' & Hsh & Hcase). set (s' := (apply_segment io seg s).1) in *.
  split; [done|]. destruct Hcase as [(Hs & Hle & Hfile & Hs' & Hl' & Ht')|(Hlt & Hfile & Hs' & Hl' & Ht')].
  - exists p. destruct p as [|k]; [destruct Hlast as [Hlast _]; congruence|].
    destruct Hlast as (a & Hk1 & Hsa & Hla & Hta & _). assert (salts_of seg = salts_of a) as Hsalts by congruence.
    rewrite Hla in Hle. pose proof (Hn _ _ _ _ Hseg Hk1 Hsalts Hle). split; [lia|].
    rewrite Hfile. split; [done|]. exists a. rewrite Hsh, Hs', Hl', Ht'. by split_and!.
  - pose proof (lookup_lt_Some _ _ _ Hseg). exists (S i). split; [lia|].
    split; [|exists seg; rewrite Hsh; cbn; by rewrite Ht'].
    intros q Hq'. rewrite Hfile, <- (Hf (q `min` i)%nat) by lia.
    destruct (decide (q = S i)) as [->|Hne].
    + rewrite Nat.min_r by lia. by rewrite (drop_S _ _ _ Hseg).
    + rewrite Nat.min_l by lia. apply splice_absorb; [by apply Forall_drop|].
      apply list_elem_of_lookup. exists (i - q)%nat. rewrite lookup_drop. by replace (q + (i - q))%nat with i by lia.
Qed.

Lemma follows_lag ps log f0 pos w s : follows ps log f0 pos s -> follows ps log f0 pos (refresh_lag w s).
Proof. intros [Hk Hp]. unfold refresh_lag. destruct w; [|done]. by split. Qed.

(** What a run receives. *)
Definition received (events : list standby_event) : list WalSegment :=
  omap (fun e => match e with Received _ seg _ => Some seg | _ => None end) events.
Definition quiet_event (ps : N) (e : standby_event) : Prop :=
  match e with Received io _ _ => quiet ps io | LagTick _ => True | Closed | StopStandby => False end.

Lemma follows_run ps log f0 pos events s :
  Forall commits log -> Forall (applicable ps) log -> numbered log -> Forall (quiet_event ps) events ->
  follows ps log f0 pos s -> delivery log pos (received events) ->
  follows ps log f0 (length log) (run_standby events s).
Proof.
  intros Hc Ha Hn He. revert pos s. induction He as [|e events Hq He IH]; intros pos s Hf Hd; cbn [run_standby].
  - cbn in Hd. by subst pos.
  - destruct e as [io seg w|w| |]; [|by eapply IH; [apply follows_lag|]|done..].
    cbn in Hd. destruct Hd as (i & Hi & Hseg & Hd). eapply IH; [|exact Hd]. apply follows_lag. by eapply follows_apply.
Qed.

Lemma follows_new ps log sh f0 handle : follows ps log f0 0 (new_standby sh f0 handle).
Proof.
  split; [by left|]. exists 0%nat. split; [lia|]. split; [|done]. intros q ?. by replace q with 0%nat by lia.
Qed.
Lemma follows_done ps log f0 s :
  follows ps log f0 (length log) s -> file s = foldl splice f0 log /\ applied_total s = default 0%N (cumulative_frames <$> last log) /\
  (log <> [] -> applied_frames_total (s_shared s) = applied_total s).
Proof.
  intros [_ (p & Hp & Hf & Hlast)]. assert (p = length log) as -> by lia. split.
  - rewrite <- (Hf (length log)) by done. by rewrite drop_all.
  - destruct log as [|x log _] using rev_ind; [by destruct Hlast|]. rewrite last_snoc. cbn.
    rewrite length_app, Nat.add_comm in Hlast. cbn in Hlast. destruct Hlast as (a & Ha & _ & _ & -> & ->).
    rewrite list_lookup_middle in Ha by done. split; [congruence|done].
Qed.

(** ** Pages after a replay *)

(** No commit of the log cuts the page off. *)
Definition in_all_sizes (n : N) (fs : list WalFrame) : Prop :=
  Forall (fun f => is_commit f = true -> (n <= db_size_after_commit f)%N) fs.

Lemma find_commit fs k :
  db_pages_after_commit fs = Some k -> exists f, f ∈ fs /\ is_commit f = true /\ db_size_after_commit f = k.
Proof.
  unfold db_pages_after_commit. destruct (List.find is_commit (rev fs)) as [f|] eqn:Ef; [|done]. intros [= <-].
  apply find_some in Ef as [Hin Hf]. exists f. split; [|done]. apply list_elem_of_In. by apply in_rev.
Qed.

Lemma last_commit_size fs f : last fs = Some f -> is_commit f = true -> db_pages_after_commit fs = Some (db_size_after_commit f).
Proof.
  intros Hl Hc. destruct fs as [|x fs _] using rev_ind; [done|]. rewrite last_snoc in Hl. injection Hl as ->.
  unfold db_pages_after_commit. rewrite rev_app_distr. cbn. by rewrite Hc.
Qed.

Lemma page_splice ps n seg f :
  (1 <= n)%N -> applicable ps seg -> in_all_sizes n (seg_frames seg) ->
  page_at ps n (splice f seg) = default (page_at ps n f) (last_image n (seg_frames seg)).
Proof.
  intros Hn [Hps Hfs] Hin. unfold splice. rewrite Hps.
  destruct (db_pages_after_commit (seg_frames seg)) as [k|] eqn:Ek; [|by apply page_foldl].
  apply find_commit in Ek as (x & Hx & Hc & <-). unfold in_all_sizes in Hin. rewrite Forall_forall in Hin.
  rewrite page_set_len; [by apply page_foldl|]. split; [done|by apply Hin].
Qed.

Lemma page_splices ps n log f :
  (1 <= n)%N -> Forall (applicable ps) log -> in_all_sizes n (concat (seg_frames <$> log)) ->
  page_at ps n (foldl splice f log) = default (page_at ps n f) (last_image n (concat (seg_frames <$> log))).
Proof.
  intros Hn Ha Hin. revert f. induction Ha as [|seg log Ha _ IH]; intros f; [done|].
  cbn [fmap list_fmap concat] in Hin. apply Forall_app in Hin as [Hs Hl]. cbn [foldl fmap list_fmap concat].
  rewrite IH by exact Hl. rewrite page_splice by done. rewrite last_image_app. by destruct (last_image n (concat _)).
Qed.

(** Of a page that a commit cuts off, zeros are left. *)
Lemma page_splice_either ps n seg f :
  (1 <= n)%N -> applicable ps seg ->
  page_at ps n (splice f seg) = default (page_at ps n f) (last_image n (seg_frames seg)) \/
  page_at ps n (splice f seg) = replicate (N.to_nat ps) 0%N.
Proof.
  intros Hn [Hps Hfs]. unfold splice. rewrite Hps. destruct (db_pages_after_commit (seg_frames seg)) as [k|]; [|left; by apply page_foldl].
  destruct (decide (n <= k)%N); [left; rewrite page_set_len by lia; by apply page_foldl|right; apply page_cut; lia].
Qed.
Lemma page_splices_either ps n log f :
  (1 <= n)%N -> Forall (applicable ps) log ->
  page_at ps n (foldl splice f log) = default (page_at ps n f) (last_image n (concat (seg_frames <$> log))) \/
  page_at ps n (foldl splice f log) = replicate (N.to_nat ps) 0%N.
Proof.
  intros Hn Ha. revert f. induction Ha as [|seg log Ha _ IH]; intros f; [by left|].
  cbn [foldl fmap list_fmap concat]. rewrite last_image_app. destruct (IH (splice f seg)) as [-> | ->]; [|by right].
  destruct (last_image n (concat _)); [by left|]. by apply page_splice_either.
Qed.

(** An image is there as long as no commit after it cuts the page off. *)
Definition ends_in_commit (seg : WalSegment) : Prop := exists f, last (seg_frames seg) = Some f /\ is_commit f = true.
Lemma page_splice_part ps n seg f a b d :
  (1 <= n)%N -> applicable ps seg -> ends_in_commit seg -> seg_frames seg = a ++ b -> in_all_sizes n b ->
  last_image n b = Some d -> page_at ps n (splice f seg) = d.
Proof.
  intros Hn [Hps Hfs] (x & Hl & Hc) Heq Hin Hd. unfold splice. rewrite Hps, (last_commit_size _ _ Hl Hc).
  assert (Hx : x ∈ b).
  { rewrite Heq, last_app in Hl. destruct (last b) as [y|] eqn:Ey; [|by apply last_None in Ey as ->].
    injection Hl as ->. by apply last_Some_elem_of. }
  unfold in_all_sizes in Hin. rewrite Forall_forall in Hin. rewrite page_set_len by (split; [done|by apply Hin]).
  rewrite page_foldl by done. by rewrite Heq, last_image_app, Hd.
Qed.
Lemma page_splices_since ps n log f a b d :
  (1 <= n)%N -> Forall (applicable ps) log -> Forall ends_in_commit log -> concat (seg_frames <$> log) = a ++ b ->
  in_all_sizes n b -> last_image n b = Some d -> page_at ps n (foldl splice f log) = d.
Proof.
  intros Hn Ha Hc Heq Hin Hd. revert f a Heq. induction log as [|seg log IH]; intros f a Heq.
  { cbn in Heq. symmetry in Heq. apply app_nil in Heq as [_ ->]. done. }
  apply Forall_cons in Ha as [Hseg Ha], Hc as [Hcs Hc]. cbn [fmap list_fmap concat foldl] in *.
  apply app_eq_inv in Heq as [(k & Hk & ->)|(k & -> & Hk)]; [|by eapply IH].
  unfold in_all_sizes in Hin. apply Forall_app in Hin as [Hin1 Hin2]. rewrite page_splices by done.
  rewrite last_image_app in Hd. destruct (last_image n (concat _)); [by injection Hd as ->|]. by eapply page_splice_part.
Qed.

Lemma length_replay ps log f x k :
  Forall (applicable ps) log -> last log = Some x -> db_pages_after_commit (seg_frames x) = Some k ->
  length (foldl splice f log) = N.to_nat (k * ps).
Proof.
  intros Ha Hl Hk. destruct log as [|y log _] using rev_ind; [done|]. rewrite last_snoc in Hl. injection Hl as ->.
  apply Forall_app in Ha as [_ [[Hps _] _]%Forall_cons]. rewrite foldl_app. cbn [foldl]. unfold splice. rewrite Hk, Hps.
  unfold set_len. by rewrite length_resize.
Qed.

(** ** The log of one primary *)

Lemma chained_lookup n c log i a : chained n c log -> log !! i = Some a -> seq a = (n + N.of_nat i)%N.
Proof.
  revert n c i. induction log as [|x log IH]; intros n c i Hch Hi; [done|]. destruct Hch as (Hs & _ & _ & Hch).
  destruct i as [|i]; [injection Hi as ->; lia|]. rewrite (IH _ _ i Hch Hi). lia.
Qed.
Lemma chained_numbered n c log : (1 <= n)%N -> chained n c log -> numbered log.
Proof.
  intros H1 Hch. split.
  - intros i a Ha. rewrite (chained_lookup _ _ _ _ _ Hch Ha). lia.
  - intros i j a b Ha Hb _. rewrite (chained_lookup _ _ _ _ _ Hch Ha), (chained_lookup _ _ _ _ _ Hch Hb). lia.
Qed.
Lemma chained_commits n c log : chained n c log -> Forall commits log.
Proof.
  revert n c. induction log as [|x log IH]; intros n c; [done|]. intros (_ & _ & (f & Hl & Hc) & Hch).
  constructor; [|by eapply IH]. eexists. by apply last_commit_size.
Qed.
Lemma chained_ends n c log : chained n c log -> Forall ends_in_commit log.
Proof. revert n c. induction log as [|x log IH]; intros n c; [done|]. intros (_ & _ & Hc & Hch). constructor; [done|by eapply IH]. Qed.
Lemma chained_total n c log : chained n c log -> log <> [] -> cumulative_frames <$> last log = Some (c + total log)%N.
Proof.
  revert n c. induction log as [|x log IH]; intros n c; [done|]. intros (_ & Hcum & _ & Hch) _.
  unfold total in *. cbn [fmap list_fmap concat]. rewrite length_app.
  destruct log as [|y log]; [cbn; rewrite Hcum; unfold frame_count; f_equal; lia|].
  rewrite last_cons_cons. specialize (IH _ _ Hch ltac:(done)). rewrite IH, Hcum. unfold frame_count. f_equal. lia.
Qed.

Lemma ship_page_size ps bss s :
  Forall (fun b => exists p, parse_wal b = Some (Ok p) /\ page_size (header p) = ps) bss ->
  Forall (fun seg => seg_page_size seg = ps) (ship_all s bss).2.
Proof.
  intros Hb. revert s. induction Hb as [|b bss (p & Hp & Hps) _ IH]; intros s; cbn [ship_all]; [by constructor|].
  unfold ship, next_segment. rewrite Hp. destruct (next_of p s) as [s1 r] eqn:E.
  assert (Hr : match r with Some seg => seg_page_size seg = ps | None => True end).
  { unfold next_of in E. cbv zeta in E. destruct (_ <=? _)%nat; [by simplify_eq|].
    destruct (rposition_commit _); simplify_eq; [done|done]. }
  specialize (IH s1). destruct r as [seg|]; destruct (ship_all s1 bss) as [s2 segs]; cbn [snd app] in *; [by constructor|done].
Qed.

Section EndToEnd.
Context {B : Type} {WB : WalBus B} {WL : WalBusLaws B}.

(** What a run of the primary drains. *)
Fixpoint drained (events : list primary_event) : list (list N) :=
  match events with
  | [] | Stop :: _ => []
  | Drained (Err _) :: events | Drained (Ok []) :: events => drained events
  | Drained (Ok bytes) :: events => bytes :: drained events
  end.

(** A bus whose publications go through. *)
Definition reliable : Prop := forall seg (b : B), exists b' u, publish seg b = (b', Ok u).

Lemma next_segment_none bytes s s' r :
  next_segment bytes s = (s', r) ->
  match r with Ok (Some _) => True | _ => sh_cumulative_frames s' = sh_cumulative_frames s end.
Proof.
  unfold next_segment. destruct (parse_wal bytes) as [[q|]|]; [|by intros [= <- <-]..].
  destruct (next_of q s) as [s1 r1] eqn:Eq. intros [= <- <-]. destruct r1 as [seg|]; [done|]. unfold next_of in Eq.
  cbv zeta in Eq. revert Eq. case_bool_decide; (destruct (_ <=? _)%nat; [by intros [= <-]|]);
    (destruct (rposition_commit _); [done|by intros [= <-]]).
Qed.

Lemma run_primary_ships events p :
  reliable ->
  let out := ship_all (shipper p) (drained events) in
  shipper (run_primary events p) = out.1 /\ retained (bus (run_primary events p)) = retained (bus p) ++ out.2 /\
  (published_frames_total (p_shared p) = sh_cumulative_frames (shipper p) ->
   published_frames_total (p_shared (run_primary events p)) = sh_cumulative_frames out.1).
Proof.
  intros Hrel. revert p. induction events as [|[[[|x bs]|e]|] events IH]; intros p;
    [by cbn; rewrite app_nil_r|apply IH| |apply IH|by cbn; rewrite app_nil_r].
  cbn [run_primary drained ship_all]. specialize (IH (ship_once (x :: bs) p).1). cbv zeta in *.
  unfold ship_once, ship in *. destruct (next_segment (x :: bs) (shipper p)) as [sh r] eqn:En.
  pose proof (next_segment_none _ _ _ _ En) as Hsame.
  destruct r as [[seg|]|e]; cbn [fst snd shipper bus p_shared] in *.
  - destruct (Hrel seg (bus p)) as (b' & u & Hpub). rewrite Hpub in *. cbn [fst snd shipper bus p_shared] in *.
    destruct (ship_all sh (drained events)) as [s2 segs] eqn:Es. cbn [fst snd] in *.
    destruct IH as (IH1 & IH2 & IH3). rewrite IH2, (publish_ok _ _ _ _ Hpub), <- app_assoc.
    split_and!; [done|done|]. intros _. by apply IH3.
  - destruct (ship_all sh (drained events)) as [s2 segs] eqn:Es. cbn [fst snd app] in *.
    destruct IH as (IH1 & IH2 & IH3). split_and!; [done|done|]. intros H. apply IH3. congruence.
  - destruct (ship_all sh (drained events)) as [s2 segs] eqn:Es. cbn [fst snd app] in *.
    destruct IH as (IH1 & IH2 & IH3). split_and!; [done|done|]. intros H. apply IH3. congruence.
Qed.

(** The frames a primary has committed, over its WAL generations. *)
Definition committed_frames (gens : list Generation) : list WalFrame :=
  concat ((fun g => Wal.committed (final g)) <$> gens).

Lemma applicable_segments ps gens bss log :
  Forall (applicable_frame ps) (concat (seg_frames <$> log)) ->
  Forall (fun g => page_size (g_header g) = ps) gens -> Forall2 parses bss (gens ≫= snapshots) ->
  log = (ship_all new bss).2 -> Forall (applicable ps) log.
Proof.
  intros Hfs Hg Hp ->.
  assert (Hps : Forall (fun seg => seg_page_size seg = ps) (ship_all new bss).2).
  { apply ship_page_size. apply Forall_forall. intros b Hb. apply list_elem_of_lookup in Hb as [i Hi].
    destruct (Forall2_lookup_l _ _ _ _ _ Hp Hi) as (p & Hpi & Hpp). exists p. split; [exact Hpp|].
    apply list_elem_of_lookup_2, list_elem_of_bind in Hpi as (g & Hpg & Hgin). unfold snapshots in Hpg.
    apply list_elem_of_fmap in Hpg as (f & -> & _). rewrite Forall_forall in Hg. by apply Hg. }
  apply Forall_forall. intros seg Hseg. rewrite !Forall_forall in *. split; [by apply Hps|].
  apply Forall_forall. intros f Hf. apply Hfs. apply list_elem_of_In, in_concat. exists (seg_frames seg).
  split; apply list_elem_of_In; [by apply list_elem_of_fmap_2|done].
Qed.

Lemma last_frame_of_log n c log x :
  chained n c log -> last (concat (seg_frames <$> log)) = Some x ->
  exists seg, last log = Some seg /\ db_pages_after_commit (seg_frames seg) = Some (db_size_after_commit x).
Proof.
  intros Hch Hx. destruct log as [|seg log _] using rev_ind; [done|]. exists seg. rewrite last_snoc. split; [done|].
  assert (Hs : exists f, last (seg_frames seg) = Some f /\ is_commit f = true).
  { clear Hx. revert n c Hch. induction log as [|y log IH]; intros n c; [by intros (_ & _ & ? & _)|].
    intros (_ & _ & _ & Hch). by eapply IH. }
  destruct Hs as (f & Hl & Hc). rewrite fmap_app, concat_app in Hx. cbn in Hx.
  rewrite app_nil_r, last_app, Hl in Hx. injection Hx as <-. by apply last_commit_size.
Qed.

Lemma run_standby_snoc ps events w s :
  Forall (quiet_event ps) events -> run_standby (events ++ [LagTick w]) s = refresh_lag w (run_standby events s).
Proof.
  intros He. revert s. induction He as [|e events Hq _ IH]; intros s; [done|].
  cbn [app run_standby]. destruct e; [apply IH..|done|done].
Qed.

(** C21: Replication is exact, end to end.  Let a primary drain its WAL through
    any number of generations, over a bus whose publications go through, and let
    a standby whose file operations succeed receive the bus's log at least once
    and in the end to its last segment.  Then the standby's file holds, for each
    page, the last image the primary committed, a page never written being as it
    was, when no commit has cut the page off since that image, in particular for
    the pages by which the file has grown; a page that was cut off and not
    written again may be zeros instead.  The file is as long as the last commit
    says; both sides count exactly the committed frames and the lag is zero. *)
Theorem replica_exact ps gens (b0 : B) sh_p events sh_s f0 handle sevents x :
  reliable -> retained b0 = [] ->
  generations_ok None gens -> Forall2 parses (drained events) (gens ≫= snapshots) ->
  Forall (fun g => page_size (g_header g) = ps) gens -> Forall (applicable_frame ps) (committed_frames gens) ->
  last (committed_frames gens) = Some x ->
  let p := run_primary events (new_primary b0 (set_published_frames_total 0 sh_p)) in
  Forall (quiet_event ps) sevents -> delivery (retained (bus p)) 0 (received sevents) ->
  forall w, latest_watermark (bus p) = Ok w ->
  let s := run_standby (sevents ++ [LagTick (Ok w)]) (new_standby sh_s f0 handle) in
  (forall n a b, (1 <= n)%N -> committed_frames gens = a ++ b -> in_all_sizes n b -> a = [] \/ is_Some (last_image n b) ->
     page_at ps n (file s) = default (page_at ps n f0) (last_image n (committed_frames gens))) /\
  (forall n, (1 <= n)%N ->
     page_at ps n (file s) = default (page_at ps n f0) (last_image n (committed_frames gens)) \/
     page_at ps n (file s) = replicate (N.to_nat ps) 0%N) /\
  length (file s) = N.to_nat (db_size_after_commit x * ps) /\
  published_frames_total (p_shared p) = N.of_nat (length (committed_frames gens)) /\
  applied_frames_total (s_shared s) = N.of_nat (length (committed_frames gens)) /\ lag_frames (s_shared s) = 0%N.
Proof.
  intros Hrel Hb0 Hg Hp Hps Happ Hx p Hq Hd w Hw s.
  destruct (run_primary_ships events (new_primary b0 (set_published_frames_total 0 sh_p)) Hrel) as (_ & Hlog & Hpub).
  specialize (Hpub eq_refl). cbn [shipper bus new_primary] in *. rewrite Hb0 in Hlog. cbn [app] in Hlog. fold p in Hlog, Hpub.
  destruct (ship_all new (drained events)) as [s' segs] eqn:Es. cbn [fst snd] in *.
  destruct (ship_generations gens (drained events) new s' segs Hg Hp Es) as (Hcat & Hch & [_ Hcum]).
  fold (committed_frames gens) in Hcat. set (log := retained (bus p)) in *. rewrite <- Hlog in *.
  assert (Ha : Forall (applicable ps) log).
  { apply (applicable_segments ps gens (drained events)); [by rewrite Hcat|done|done|]. by rewrite Es. }
  rewrite <- Hcat in *. destruct (last_frame_of_log _ _ _ _ Hch Hx) as (seg & Hseg & Hsize).
  assert (Hne : log <> []) by by intros Hnil; rewrite Hnil in Hseg.
  pose proof (follows_run ps log f0 0 sevents (new_standby sh_s f0 handle) (chained_commits _ _ _ Hch) Ha
    (chained_numbered _ _ _ ltac:(done) Hch) Hq (follows_new ps log sh_s f0 handle) Hd) as Hf.
  destruct (follows_done _ _ _ _ Hf) as (Hfile & Htot & Hshared). specialize (Hshared Hne).
  pose proof (chained_total _ _ _ Hch Hne) as Hlast. rewrite Hlast in Htot. cbn [default] in Htot.
  assert (Hw0 : w = total log) by (rewrite (watermark_law _ _ Hw); fold log; by destruct (last log); simplify_eq/=).
  unfold s. rewrite (run_standby_snoc ps) by done. set (s1 := run_standby sevents _) in *.
  cbn [refresh_lag file s_shared set_lag_frames applied_frames_total lag_frames].
  rewrite Hfile, Hshared, Htot, Hpub, Hcum, Hw0.
  split_and!; [|intros n Hn; by apply page_splices_either|by eapply length_replay|done|done|unfold id, new; cbn [sh_cumulative_frames]; lia].
  intros n a b Hn Hab Hin [-> |[d Himg]]; [apply page_splices; [done|done|by rewrite Hab]|]. pose proof (chained_ends _ _ _ Hch) as Hends.
  rewrite (page_splices_since ps n log f0 a b d) by done. by rewrite Hab, last_image_app, Himg.
Qed.

End EndToEnd.

(** C22: A standby mirrors the log.  Whatever log it is given, of one primary or
    of several one after another, if its file operations succeed and it receives
    the log at least once, sent back to earlier segments any number of times,
    then once it has received the last segment its file is the one obtained by
    splicing each segment once, in order; it reports the log's total as applied
    and no lag. *)
Theorem standby_mirrors ps log sh f0 handle events w :
  Forall commits log -> Forall (applicable ps) log -> numbered log -> log <> [] ->
  Forall (quiet_event ps) events -> delivery log 0 (received events) ->
  w = default 0%N (cumulative_frames <$> last log) ->
  let s := run_standby (events ++ [LagTick (Ok w)]) (new_standby sh f0 handle) in
  file s = foldl splice f0 log /\ applied_total s = w /\
  applied_frames_total (s_shared s) = w /\ lag_frames (s_shared s) = 0%N.
Proof.
  intros Hc Ha Hn Hne Hq Hd Hw s.
  pose proof (follows_run ps log f0 0 events _ Hc Ha Hn Hq (follows_new ps log sh f0 handle) Hd) as Hf.
  destruct (follows_done _ _ _ _ Hf) as (Hfile & Htot & Hshared). specialize (Hshared Hne). rewrite <- Hw in Htot.
  unfold s. rewrite (run_standby_snoc ps) by done. cbn [refresh_lag file s_shared set_lag_frames applied_frames_total
    applied_total lag_frames]. rewrite Hshared, Htot. split_and!; [done|done|done|lia].
Qed.

(** ** Applications that fail *)

(** The bytes the frames cover. *)
Definition touched (ps : N) (i : nat) (fs : list WalFrame) : Prop :=
  Exists (fun f => (N.to_nat ((page_number f - 1) * ps) <= i < N.to_nat ((page_number f - 1) * ps) + length (page_data f))%nat) fs.

Lemma pages_untouched io n ps i fs file :
  ~ touched ps i fs ->
  byte_at (write_pages io n ps ((fun f => (page_number f, page_data f)) <$> fs) file).1 i = byte_at file i.
Proof.
  revert n file. induction fs as [|f fs IH]; intros n file Hi; cbn [fmap list_fmap write_pages]; [done|].
  assert (Hno : ~ (N.to_nat ((page_number f - 1) * ps) <= i < N.to_nat ((page_number f - 1) * ps) + length (page_data f))%nat)
    by (intros H; apply Hi; by left).
  destruct (io n) as [x|]; [done|]. destruct (io (S n)) as [x|]; cbn [fst].
  - rewrite byte_at_write, decide_False; [done|]. rewrite length_take. lia.
  - rewrite IH by (intros H; apply Hi; by right). by rewrite byte_at_write, decide_False.
Qed.
Lemma pages_touched ps i fs : touched ps i fs -> exists v, forall f, byte_at (foldl (write_page ps) f fs) i = v.
Proof.
  induction 1 as [f fs Hf|f fs _ [v IH]]; [|exists v; intros g; cbn [foldl]; apply IH].
  destruct (sets_pages i ps fs) as [Hs|[v Hs]]; [|exists v; intros g; cbn [foldl]; apply Hs].
  eexists. intros g. cbn [foldl]. rewrite Hs. unfold write_page. by rewrite byte_at_write, decide_True.
Qed.
Lemma splice_touched ps i seg :
  seg_page_size seg = ps -> touched ps i (seg_frames seg) -> exists v, forall f, byte_at (splice f seg) i = v.
Proof.
  intros Hps Ht. destruct (pages_touched _ _ _ Ht) as [v Hv]. unfold splice. rewrite Hps.
  destruct (db_pages_after_commit _) as [k|]; [|by exists v].
  destruct (sets_set_len i (N.to_nat (k * ps))) as [Hs|[u Hs]]; [exists v|exists u]; intros f; by rewrite Hs, ?Hv.
Qed.

(** A splice over the leftovers of one that failed is a splice. *)
Lemma splice_over_torn ps io seg f g r :
  commits seg -> seg_page_size seg = ps ->
  write_segment_to_file io ps (db_pages_after_commit (seg_frames seg))
    ((fun f => (page_number f, page_data f)) <$> seg_frames seg) f = (g, r) ->
  splice g seg = splice f seg.
Proof.
  intros Hc Hps Hw. apply same_bytes_eq; [by apply length_splice|]. intros i.
  destruct (decide (touched ps i (seg_frames seg))) as [Ht|Ht].
  { destruct (splice_touched ps i seg Hps Ht) as [v Hv]. by rewrite !Hv. }
  unfold write_segment_to_file in Hw. destruct (io 0%nat); [by simplify_eq|].
  pose proof (pages_untouched io 1 ps i (seg_frames seg) f Ht) as Hu.
  destruct (write_pages _ _ _ _ _) as [f1 [m|e]]; cbn [fst] in Hu; [|simplify_eq; by apply (byte_splices i _ _ [seg])].
  assert (Hcase : g = f1 \/ exists k, db_pages_after_commit (seg_frames seg) = Some k /\ g = set_len (N.to_nat (k * ps)) f1).
  { destruct (db_pages_after_commit _) as [k|]; [|destruct (io m); simplify_eq; by left].
    destruct (io m); [simplify_eq; by left|]. right. exists k. split; [done|]. by destruct (io (S m)); simplify_eq. }
  destruct Hcase as [->|(k & Hk & ->)]; [by apply (byte_splices i _ _ [seg])|].
  destruct (sets_set_len i (N.to_nat (k * ps))) as [Hs|[v Hs]]; [apply (byte_splices i _ _ [seg]); by rewrite Hs|].
  unfold splice. by rewrite Hk, Hps, !Hs.
Qed.

(** An application that reports an error. *)
Lemma apply_failed ps io seg s s1 e :
  applicable ps seg -> (forall n, store_page_size io = Ok n -> n = ps) -> page_size_known ps s -> (1 <= seq seg)%N ->
  apply_segment io seg s = (s1, Err e) ->
  page_size_known ps s1 /\ applied_total s1 = applied_total s /\ s_shared s1 = s_shared s /\
  s_last_salts s1 = Some (salts_of seg) /\ (last_seq s1 < seq seg)%N /\
  (file s1 = file s \/ exists io' r, write_segment_to_file io' ps (db_pages_after_commit (seg_frames seg))
     ((fun f => (page_number f, page_data f)) <$> seg_frames seg) (file s) = (file s1, r)).
Proof.
  intros [Hps Hfs] Hstore Hk H1. unfold apply_segment. cbv zeta. fold (salts_of seg).
  set (s0 := if bool_decide (s_last_salts s = Some (salts_of seg)) then s else _).
  assert (H0 : page_size_known ps s0 /\ s_shared s0 = s_shared s /\ file s0 = file s /\ s_last_salts s0 = Some (salts_of seg)
    /\ applied_total s0 = applied_total s) by (unfold s0; case_bool_decide; done).
  clearbody s0. destruct H0 as (Hk0 & Hsh & Hf & Hs & Ht).
  destruct (N.leb_spec (seq seg) (last_seq s0)) as [|Hgt]; [done|].
  destruct (existsb _ _). { intros [= <- _]. rewrite Ht, Hsh. split_and!; try done. by left. }
  destruct (check_page_size io seg s0) as [s2 r2] eqn:Ec.
  assert (H2 : page_size_known ps s2 /\ s_shared s2 = s_shared s0 /\ file s2 = file s0 /\ s_last_salts s2 = s_last_salts s0
    /\ last_seq s2 = last_seq s0 /\ applied_total s2 = applied_total s0).
  { unfold check_page_size in Ec. destruct (has_handle s0); [|by simplify_eq].
    destruct (expected_page_size s0) eqn:Ee; [by simplify_eq|].
    destruct (store_page_size io) as [n|x]; simplify_eq; split_and!; try done. right. cbn. f_equal. by apply Hstore. }
  clear Ec. destruct H2 as (Hk2 & Hsh2 & Hf2 & Hs2 & Hl2 & Ht2).
  destruct r2 as [[]|x]; [|intros [= <- _]; rewrite Hsh2, Hl2, Ht2, Hs2; split_and!; try done; left; congruence].
  rewrite Hps. match goal with |- context [write_segment_to_file ?a ?b ?c ?d] => set (ap := write_segment_to_file a b c d) end.
  destruct (if has_handle s2 then _ else _) as [f r] eqn:Er.
  assert (Hw : f = file s \/ exists r, ap (file s) = (f, r)).
  { rewrite <- Hf, <- Hf2. destruct (ap (file s2)) as [g q] eqn:Eg. unfold with_store_file_locked in Er.
    destruct (has_handle s2), (lock io); try rewrite Eg in Er; simplify_eq/=; eauto. }
  destruct r as [u|x]; [done|]. intros [= <- _]. cbn [s_shared file has_handle s_last_salts last_seq applied_total].
  rewrite Hsh2, Hl2, Ht2, Hs2. split_and!; [exact Hk2|done..|]. destruct Hw as [Hw|[q Hw]]; [by left|right; eauto].
Qed.

(** A failed application can be repeated.  Wherever it fails (a torn page, a
    missing sync, the lock, the reopening of the connection), the totals it
    reports do not move and the segment is not taken for a duplicate; applied
    again without a failure it leaves the file as if the first attempt had not
    happened. *)
Theorem apply_heals ps io io' seg s s1 e :
  commits seg -> applicable ps seg -> (1 <= seq seg)%N -> page_size_known ps s ->
  (forall n, store_page_size io = Ok n -> n = ps) -> quiet ps io' ->
  apply_segment io seg s = (s1, Err e) ->
  applied_total s1 = applied_total s /\ s_shared s1 = s_shared s /\
  let s2 := (apply_segment io' seg s1).1 in
  file s2 = splice (file s) seg /\ last_seq s2 = seq seg /\ applied_total s2 = cumulative_frames seg.
Proof.
  intros Hc Ha H1 Hk Hstore Hq Hfail.
  destruct (apply_failed ps io seg s s1 e Ha Hstore Hk H1 Hfail) as (Hk1 & Ht & Hsh & Hs & Hl & Hf).
  split; [done|]. split; [done|]. intros s2.
  destruct (apply_quiet ps io' seg s1 Ha Hq Hk1 H1) as (_ & _ & [(_ & Hle & _)|(_ & Hfile & _ & Hseq & Htot)]); [lia|].
  fold s2 in Hfile, Hseq, Htot. split_and!; [|done|done]. rewrite Hfile. destruct Hf as [->|(io'' & r & Hw)]; [done|].
  by eapply splice_over_torn; [done|apply Ha|].
Qed.

(** ** Concrete runs *)

Module Concrete.
Import Wal.Concrete.

Definition io_ok : ApplyIo := mk_apply_io 5 (Ok 512%N) (fun _ => None) Locked.
Lemma io_ok_quiet : quiet 512 io_ok.
Proof. by split_and!. Qed.
Lemma fill_applicable pn db b : pn <> 0%N -> applicable_frame 512 (fill pn db b).
Proof. intros H. split; [done|]. unfold fill. cbn [page_data]. rewrite length_replicate. done. Qed.

Lemma fill_size n pn db b :
  (n <= 2)%N -> bool_decide (db = 0%N \/ (2 <= db)%N) = true -> is_commit (fill pn db b) = true ->
  (n <= db_size_after_commit (fill pn db b))%N.
Proof.
  intros Hn Hdb. bool_to_prop. unfold is_commit, fill. cbn [db_size_after_commit]. intros Hc.
  destruct (N.eqb_spec db 0); [subst db; done|]. lia.
Qed.

(** The generations of [Wal], with a drain that finds nothing and one that
    fails in between. *)
Definition drains : list primary_event :=
  Drained (Ok []) :: Drained (Err (TransportFailed "locked")) :: ((fun b => Drained (Ok b)) <$> looks) ++ [Stop].
Local Notation p_end :=
  (run_primary drains (new_primary ([] : InMemoryWalBus) (set_published_frames_total 0 (shared_enabled Primary)))).
(** The log's first segment comes twice, and after the second the replay starts
    over. *)
Definition replay : list standby_event :=
  (fun i => Received io_ok (nth i (bus p_end) one) (Ok 0%N)) <$> [0; 0; 1; 0; 1; 2]%nat.

Lemma drains_looks : drained drains = looks.
Proof. by vm_compute. Qed.
Lemma looks_parse : Forall2 parses looks (gens ≫= snapshots).
Proof.
  unfold parses, looks, gens, snapshots. cbn [mbind list_bind app fmap list_fmap g_header g_snapshots].
  repeat (constructor; [by vm_compute|]). constructor.
Qed.
Lemma gens_ok : generations_ok None gens.
Proof.
  unfold gens. cbn [generations_ok growing g_header g_snapshots].
  split_and!; try done; (by vm_compute) || (by eexists) || idtac.
Qed.
Lemma gens_frames :
  committed_frames gens = [fill 1 0 161; fill 2 2 162; fill 3 0 163; fill 1 3 164; fill 2 3 165].
Proof. by vm_compute. Qed.
Lemma replay_received : received replay = (fun i => nth i (bus p_end) one) <$> [0; 0; 1; 0; 1; 2]%nat.
Proof. done. Qed.
Lemma log_length : length (bus p_end) = 3%nat.
Proof. by vm_compute. Qed.
Lemma replay_delivery : delivery (retained (bus p_end)) 0 (received replay).
Proof.
  change (retained (bus p_end)) with (bus p_end). rewrite replay_received. pose proof log_length as Hl. destruct (bus p_end) as [|a [|b [|c [|]]]]; [done..| |done].
  cbn [fmap list_fmap nth delivery].
  exists 0%nat. split; [lia|]. split; [done|]. exists 0%nat. split; [lia|]. split; [done|].
  exists 1%nat. split; [lia|]. split; [done|]. exists 0%nat. split; [lia|]. split; [done|].
  exists 1%nat. split; [lia|]. split; [done|]. exists 2%nat. split; [lia|]. by split.
Qed.
Lemma replay_quiet : Forall (quiet_event 512) replay.
Proof. unfold replay. cbn [fmap list_fmap]. repeat (constructor; [exact io_ok_quiet|]). constructor. Qed.

Definition s_end : StandbyReplicator :=
  run_standby (replay ++ [LagTick (Ok 5%N)]) (new_standby (shared_enabled Standby) [] true).
Lemma replica_exact_witness :
  page_at 512 1 (file s_end) = replicate 512 164%N /\ page_at 512 2 (file s_end) = replicate 512 165%N /\
  page_at 512 3 (file s_end) = replicate 512 163%N /\ lag_frames (s_shared s_end) = 0%N.
Proof.
  assert (Hrel : @reliable InMemoryWalBus _) by (intros seg b; by exists (b ++ [seg]), tt).
  assert (Hps : Forall (fun g => page_size (g_header g) = 512%N) gens) by (repeat (constructor; [done|]); constructor).
  assert (Happ : Forall (applicable_frame 512) (committed_frames gens)).
  { rewrite gens_frames. repeat (constructor; [by apply fill_applicable|]). constructor. }
  assert (Hlast : last (committed_frames gens) = Some (fill 2 3 165)) by by rewrite gens_frames.
  assert (Hp : Forall2 parses (drained drains) (gens ≫= snapshots)) by (rewrite drains_looks; exact looks_parse).
  assert (Hw : @latest_watermark InMemoryWalBus _ (bus p_end) = Ok 5%N) by by vm_compute.
  destruct (replica_exact 512 gens ([] : InMemoryWalBus) (shared_enabled Primary) drains (shared_enabled Standby) [] true replay
    (fill 2 3 165) Hrel eq_refl gens_ok Hp Hps Happ Hlast replay_quiet replay_delivery 5%N Hw) as (Hpage & _ & _ & _ & _ & Hlag).
  assert (Hin : forall n, (n <= 2)%N -> in_all_sizes n (committed_frames gens)).
  { intros n Hn. rewrite gens_frames. unfold in_all_sizes. repeat (constructor; [by apply fill_size|]). constructor. }
  split; [|split; [|split]].
  - refine (eq_trans (Hpage 1%N [] _ _ eq_refl (Hin 1%N _) (or_introl eq_refl)) _); [done|done|]. rewrite gens_frames. by vm_compute.
  - refine (eq_trans (Hpage 2%N [] _ _ eq_refl (Hin 2%N _) (or_introl eq_refl)) _); [done|done|]. rewrite gens_frames. by vm_compute.
  - refine (eq_trans (Hpage 3%N [fill 1 0 161; fill 2 2 162] [fill 3 0 163; fill 1 3 164; fill 2 3 165] _ gens_frames _ _) _);
      [done|repeat (constructor; [by vm_compute|]); constructor|right; by eexists|]. rewrite gens_frames. by vm_compute.
  - exact Hlag.
Defined.

(** Two primaries, one after another: the second starts counting anew. *)
Definition log2 : list WalSegment :=
  [mk_segment 1 2 512 7 9 [fill 1 0 161; fill 2 2 162]; mk_segment 2 3 512 7 9 [fill 2 2 163];
   mk_segment 1 1 512 8 9 [fill 1 2 164]].
Definition from_log2 (i : nat) : standby_event := Received io_ok (nth i log2 one) (Ok 0%N).
Lemma log2_numbered : numbered log2.
Proof.
  split.
  - intros i a Ha. destruct i as [|[|[|]]]; [injection Ha as <-; done..|done].
  - intros i j a b Ha Hb. destruct i as [|[|[|]]]; [| | |done]; (destruct j as [|[|[|]]]; [| | |done]);
      injection Ha as <-; injection Hb as <-; unfold salts_of; cbn [seg_salt1 seg_salt2 seq]; intros Hs Hq; done || lia.
Qed.
Lemma standby_mirrors_witness :
  let s := run_standby ((from_log2 <$> [0; 1; 2; 0; 1; 1; 2]%nat) ++ [LagTick (Ok 1%N)])
             (new_standby (shared_enabled Standby) [1; 2; 3]%N true) in
  file s = foldl splice [1; 2; 3]%N log2 /\ lag_frames (s_shared s) = 0%N.
Proof.
  assert (Hc : Forall commits log2) by (repeat (constructor; [by eexists|]); constructor).
  assert (Ha : Forall (applicable 512) log2).
  { repeat (constructor; [split; [done|]; repeat (constructor; [by apply fill_applicable|]); constructor|]). constructor. }
  assert (Hq : Forall (quiet_event 512) (from_log2 <$> [0; 1; 2; 0; 1; 1; 2]%nat)).
  { unfold from_log2. cbn [fmap list_fmap]. repeat (constructor; [exact io_ok_quiet|]). constructor. }
  assert (Hd : delivery log2 0 (received (from_log2 <$> [0; 1; 2; 0; 1; 1; 2]%nat))).
  { unfold from_log2, received. cbn [fmap list_fmap omap list_omap nth log2 delivery length].
    exists 0%nat. split; [lia|]. split; [done|]. exists 1%nat. split; [lia|]. split; [done|].
    exists 2%nat. split; [lia|]. split; [done|]. exists 0%nat. split; [lia|]. split; [done|].
    exists 1%nat. split; [lia|]. split; [done|]. exists 1%nat. split; [lia|]. split; [done|].
    exists 2%nat. split; [lia|]. by split. }
  destruct (standby_mirrors 512 log2 (shared_enabled Standby) [1; 2; 3]%N true (from_log2 <$> [0; 1; 2; 0; 1; 1; 2]%nat) 1%N
    Hc Ha log2_numbered ltac:(done) Hq Hd eq_refl) as (Hf & _ & _ & Hl).
  exact (conj Hf Hl).
Defined.

(** The second page's write stops after 100 bytes; then again. *)
Definition io_torn : ApplyIo :=
  mk_apply_io 4 (Ok 512%N) (fun n => if (n =? 4)%nat then Some (mk_fault "no space" 100) else None) Locked.
Lemma apply_heals_witness :
  let s := new_standby (shared_enabled Standby) (replicate 700 3%N) true in
  let '(s1, r) := apply_segment io_torn one s in
  r = Err (TransportFailed "write page") /\ file s1 <> file s /\
  file (apply_segment io_ok one s1).1 = splice (file s) one.
Proof.
  assert (Hc : commits one) by by eexists.
  assert (Ha : applicable 512 one).
  { split; [done|]. repeat (constructor; [by apply fill_applicable|]). constructor. }
  assert (Hst : forall n, store_page_size io_torn = Ok n -> n = 512%N) by by intros n [= <-].
  set (s := new_standby _ _ _).
  assert (Hr : (apply_segment io_torn one s).2 = Err (TransportFailed "write page")) by by vm_compute.
  assert (Hne : bool_decide (file (apply_segment io_torn one s).1 = file s) = false) by by vm_compute.
  apply bool_decide_eq_false_1 in Hne. cbv zeta. destruct (apply_segment io_torn one s) as [s1 r] eqn:E. cbn [fst snd] in *.
  subst r. destruct (apply_heals 512 io_torn io_ok one s s1 (TransportFailed "write page") Hc Ha ltac:(done) (or_introl eq_refl)
    Hst io_ok_quiet E)
    as (_ & _ & Hf & _).
  exact (conj eq_refl (conj Hne Hf)).
Defined.

(** The standby does not apply it again by itself: the loop goes on to the next
    segment, which it accepts, and then reports that nothing is missing. *)
Example failed_apply_hidden :
  let s := run_standby [Received io_torn one (Ok 2%N);
                        Received io_ok (mk_segment 2 3 512 7 9 [fill 1 2 170]) (Ok 3%N)]
             (new_standby (shared_enabled Standby) [] true) in
  applied_frames_total (s_shared s) = 3%N /\ lag_frames (s_shared s) = 0%N /\
  bool_decide (page_at 512 2 (file s) = replicate 512 162%N) = false.
Proof. by vm_compute. Qed.

(** A bus whose next publication fails: the primary has drained the WAL and
    moved its shipper on, so the frames are published by no later tick. *)
Definition FlakyBus : Type := list bool * list WalSegment.
Instance flaky_bus : WalBus FlakyBus := {
  publish seg b := match b.1 with
    | false :: oks => ((oks, b.2), Err (TransportFailed "publishing WAL segment"))
    | oks => ((tail oks, b.2 ++ [seg]), Ok tt)
    end;
  latest_watermark b := Ok (match last b.2 with Some s => cumulative_frames s | None => 0%N end);
  retained b := b.2
}.
Example failed_publish_lost :
  let p := run_primary [Drained (Ok (bytes_of hdr [fill 1 0 161; fill 2 2 162]));
                        Drained (Ok (bytes_of hdr2 [fill 1 2 163]))]
             (new_primary (([false], []) : FlakyBus) (shared_enabled Primary)) in
  retained (bus p) = [mk_segment 2 3 512 8 9 [fill 1 2 163]] /\
  let s := run_standby ((fun seg => Received io_ok seg (latest_watermark (bus p))) <$> retained (bus p))
             (new_standby (shared_enabled Standby) [] true) in
  lag_frames (s_shared s) = 0%N /\ bool_decide (page_at 512 2 (file s) = replicate 512 162%N) = false.
Proof. by vm_compute. Qed.

(** After a change of primary the watermark starts over, below what the standby
    has applied, and the lag is zero although a segment is missing. *)
Example lag_after_failover :
  let s := run_standby [from_log2 0; from_log2 1; LagTick (Ok 1%N)] (new_standby (shared_enabled Standby) [] true) in
  lag_frames (s_shared s) = 0%N /\ applied_total s = 3%N.
Proof. by vm_compute. Qed.

(** A promoted standby keeps the totals it had as a standby. *)
Example totals_after_promotion :
  let s := run_standby [from_log2 0; LagTick (Ok 7%N)] (new_standby (shared_enabled Standby) [] true) in
  let status := snapshot (set_role Primary (s_shared s)) in
  status_lag_frames status = 5%N /\ status_applied_frames_total status = 2%N.
Proof. by vm_compute. Qed.
End Concrete.
