(* ===== verification/Failover.v ===== *)
(** * Leader election ([substrate_server/src/replication/failover.rs],
    [memory.rs], [nats.rs], and the modes, leases and start gate of [mod.rs])

    Nodes compete for one lease with an epoch; the holder runs as primary.  The
    lease is specified by a step relation on what a store shows; the in-process
    store and the compare-and-set store, whose reads and writes interleave with
    those of other nodes, are shown to follow it.  The coordinator is a state
    machine over election rounds; a cluster of coordinators over one store, whose
    loops interleave at every [await] and whose clocks differ by a bounded skew,
    has at most one primary whose lease is still valid. *)

From S2P Require Import Prelude Wal Replication.

(** ** Modes *)

(** [enum ReplicationMode]. *)
Inductive ReplicationMode : Type := ModeDisabled | ModePrimary | ModeStandby | ModeAuto.

(** [to_ascii_lowercase], and the text of some bytes. *)
Definition lowercase (l : list N) : list N := (fun b => if (65 <=? b) && (b <=? 90) then b + 32 else b)%N <$> l.
Definition text_of_bytes (l : list N) : string := foldr (fun b s => String (Ascii.ascii_of_N b) s) EmptyString l.

(** [ReplicationMode::parse]. *)
Definition mode_parse (s : string) : result ReplicationMode ReplError :=
  let t := text_of_bytes (lowercase (trim (string_bytes s))) in
  if String.eqb t "primary" then Ok ModePrimary
  else if String.eqb t "standby" then Ok ModeStandby
  else if String.eqb t "auto" then Ok ModeAuto
  else if String.eqb t "disabled" || String.eqb t "off" || String.eqb t "none" then Ok ModeDisabled
  else Err (BadRole t).

(** [non_empty]: a variable that is set and not blank. *)
Definition non_empty (var : option string) : option string :=
  match var with Some v => if trim_is_empty v then None else Some v | None => None end.

(** The mode of [ReplicationConfig::from_env]. *)
Definition resolve_mode (role_override env_role env_nats_url : option string) : result ReplicationMode ReplError :=
  match match role_override with Some s => Some s | None => non_empty env_role end with
  | Some s => mode_parse s
  | None => if non_empty env_nats_url then Ok ModeAuto else Ok ModeDisabled
  end.

(** [initial_role]. *)
Definition initial_role (m : ReplicationMode) : Role :=
  match m with
  | ModeDisabled => Disabled
  | ModePrimary => Primary
  | ModeStandby | ModeAuto => Standby
  end.

(** ** The start gate *)

Definition EXPECTED_CIPHER_PAGE_SIZE : N := 4096.

(** What [spawn] decides before it starts the coordinator's task: no
    replication, the cross-node transport, or the in-process one.
    [journal_mode] and [cipher_page_size] are what the store answers when a
    handle is attached; [nats] tells whether the feature is built and a URL
    configured, [connect] what connecting gives. *)
Inductive Started : Type := NotStarted | OverNats | InProcess.
Definition spawn (m : ReplicationMode) (store : option (result string string * result N string))
    (nats : bool) (connect : result unit ReplError) : result Started ReplError :=
  match m with
  | ModeDisabled => Ok NotStarted
  | _ =>
      let? _ := match m, store with
                | (ModeStandby | ModeAuto), Some (journal_mode, cipher_page_size) =>
                    match journal_mode with
                    | Err e => Err (TransportFailed e)
                    | Ok mode =>
                        if String.eqb mode "wal" then Err (Misconfigured "journal_mode")
                        else
                          match cipher_page_size with
                          | Err e => Err (TransportFailed e)
                          | Ok n => if (n =? EXPECTED_CIPHER_PAGE_SIZE)%N then Ok tt
                                    else Err (Misconfigured "cipher_page_size")
                          end
                    end
                | _, _ => Ok tt
                end in
      if nats then let? _ := connect in Ok OverNats
      else match m with
           | ModePrimary | ModeStandby => Err (Misconfigured "role needs a cross-node transport")
           | _ => Ok InProcess
           end
  end.

(** ** Leases *)

(** [struct Lease]; instants are Unix milliseconds. *)
Record Lease : Type := mk_lease { l_holder : string; l_epoch : N; expires_at_ms : Z }.

(** [lease_expiry_ms], saturating at [i64::MAX]. *)
Definition lease_expiry_ms (now_ms : Z) (ttl_ms : N) : Z :=
  let ttl := Z.of_N (if (ttl_ms <=? i64_max)%N then ttl_ms else i64_max) in
  Z.min (now_ms + ttl) (Z.of_N i64_max).

Lemma lease_expiry_near a b d ttl : (0 <= d)%Z -> (a <= b + d)%Z -> (lease_expiry_ms a ttl <= lease_expiry_ms b ttl + d)%Z.
Proof. unfold lease_expiry_ms. lia. Qed.
Lemma lease_expiry_mono a b ttl : (a <= b)%Z -> (lease_expiry_ms a ttl <= lease_expiry_ms b ttl)%Z.
Proof. unfold lease_expiry_ms. lia. Qed.

(** What a store shows: the highest epoch issued and the last lease that was not
    given back. *)
Record LeaseView : Type := mk_view { v_epoch : N; v_holder : option (string * Z) }.
Definition no_lease : LeaseView := mk_view 0 None.

(** One node acquires: it renews the valid lease it holds, or takes one that is
    vacant or expired, under the next epoch. *)
Inductive lease_step (node : string) (now expiry : Z) : LeaseView -> LeaseView -> Prop :=
| lease_renew e x : (now < x)%Z -> lease_step node now expiry (mk_view e (Some (node, x))) (mk_view e (Some (node, expiry)))
| lease_take e h : match h with None => True | Some (_, x) => (x <= now)%Z end ->
    lease_step node now expiry (mk_view e h) (mk_view (e + 1) (Some (node, expiry))).

(** The holder gives it back. *)
Inductive release_step (node : string) : LeaseView -> LeaseView -> Prop :=
| release_to e x h : h = None \/ h = Some (node, 0%Z) -> release_step node (mk_view e (Some (node, x))) (mk_view e h).

Definition lease_of (v : LeaseView) : option Lease :=
  match v_holder v with Some (n, x) => Some (mk_lease n (v_epoch v) x) | None => None end.

(** [trait LeaseStore], with the clock as an argument; [view] and [store_ok] are
    for the laws only. *)
Class LeaseStore (S : Type) := {
  acquire : string -> N -> Z -> eff S ReplError Lease;
  release : string -> eff S ReplError unit;
  current : Z -> S -> result (option Lease) ReplError;
  view : S -> LeaseView;
  store_ok : S -> Prop
}.
Class LeaseStoreLaws (S : Type) `{LeaseStore S} := {
  acquire_keeps node ttl now s : store_ok s -> store_ok (acquire node ttl now s).1;
  release_keeps node s : store_ok s -> store_ok (release node s).1;
  acquire_ok node ttl now s s' l : store_ok s -> acquire node ttl now s = (s', Ok l) ->
    (lease_step node now (lease_expiry_ms now ttl) (view s) (view s') /\ lease_of (view s') = Some l /\ l_holder l = node) \/
    (view s' = view s /\ lease_of (view s) = Some l /\ l_holder l <> node /\ (now < expires_at_ms l)%Z);
  acquire_err node ttl now s s' e : store_ok s -> acquire node ttl now s = (s', Err e) ->
    view s' = view s \/ lease_step node now (lease_expiry_ms now ttl) (view s) (view s');
  release_law node s : store_ok s ->
    let s' := (release node s).1 in view s' = view s \/ release_step node (view s) (view s');
  current_law now s r : store_ok s -> current now s = Ok r ->
    r = match lease_of (view s) with Some l => if (now <? expires_at_ms l)%Z then Some l else None | None => None end
}.

(** ** The in-process store *)

(** [struct LeaseInner], behind its mutex. *)
Record InMemoryLeaseStore : Type := mk_inner { lease : option Lease; last_epoch : N }.
Definition new_lease_store : InMemoryLeaseStore := mk_inner None 0.

Definition mem_acquire (node_id : string) (ttl : N) (now : Z) : eff InMemoryLeaseStore ReplError Lease := fun g =>
  let expires := lease_expiry_ms now ttl in
  let fresh :=
    let epoch := (last_epoch g + 1)%N in
    let l := mk_lease node_id epoch expires in (mk_inner (Some l) epoch, Ok l) in
  match lease g with
  | Some l =>
      if String.eqb (l_holder l) node_id && (now <? expires_at_ms l)%Z then
        let renewed := mk_lease node_id (l_epoch l) expires in (mk_inner (Some renewed) (last_epoch g), Ok renewed)
      else if (now <? expires_at_ms l)%Z then (g, Ok l)
      else fresh
  | None => fresh
  end.
Definition mem_release (node_id : string) : eff InMemoryLeaseStore ReplError unit := fun g =>
  (match lease g with
   | Some l => if String.eqb (l_holder l) node_id then mk_inner None (last_epoch g) else g
   | None => g
   end, Ok tt).
Definition mem_current (now : Z) (g : InMemoryLeaseStore) : result (option Lease) ReplError :=
  Ok (match lease g with Some l => if (now <? expires_at_ms l)%Z then Some l else None | None => None end).

(** Every lease carries the last epoch. *)
Definition inner_ok (g : InMemoryLeaseStore) : Prop :=
  match lease g with Some l => l_epoch l = last_epoch g | None => True end.

#[export] Instance mem_lease_store : LeaseStore InMemoryLeaseStore := {
  acquire := mem_acquire;
  release := mem_release;
  current := mem_current;
  view g := mk_view (last_epoch g) ((fun l => (l_holder l, expires_at_ms l)) <$> lease g);
  store_ok := inner_ok
}.
#[export] Instance mem_lease_laws : LeaseStoreLaws InMemoryLeaseStore.
Proof.
  split.
  - intros node ttl now [[[h e x]|] n] Hok; cbn in *; [|done]. unfold mem_acquire. cbn.
    destruct (String.eqb h node), (now <? x)%Z; cbn; done.
  - intros node [[[h e x]|] n] Hok; cbn in *; [|done]. by destruct (String.eqb h node).
  - intros node ttl now [[[h e x]|] n] s' l Hok; cbn in *; unfold mem_acquire; cbn.
    + unfold inner_ok in Hok. cbn in Hok. subst e.
      destruct (String.eqb_spec h node) as [->|Hne], (Z.ltb_spec now x); cbn; intros [= <- <-]; cbn.
      * left. split_and!; [by constructor|done|done].
      * left. split_and!; [by constructor|done|done].
      * right. by split_and!.
      * left. split_and!; [by constructor|done|done].
    + intros [= <- <-]. cbn. left. split_and!; [by constructor|done|done].
  - intros node ttl now [[[h e x]|] n] s' er _; cbn; unfold mem_acquire; cbn; [|done].
    by destruct (String.eqb h node), (now <? x)%Z.
  - intros node [[[h e x]|] n] _; cbn; [|by left].
    destruct (String.eqb_spec h node) as [->|]; [|by left]. right. cbn. constructor. by left.
  - intros now [[[h e x]|] n] r Hok; cbn; intros [= <-]; [|done]. unfold inner_ok in Hok. cbn in Hok. by subst e.
Qed.

(** ** Histories of a lease *)

(** An acquisition that took place. *)
Record Grant : Type := mk_grant { g_node : string; g_now : Z; g_epoch : N; g_expiry : Z }.

Inductive lease_history : list Grant -> LeaseView -> Prop :=
| history_start : lease_history [] no_lease
| history_acquire gs v v' node now x :
    lease_history gs v -> lease_step node now x v v' -> lease_history (gs ++ [mk_grant node now (v_epoch v') x]) v'
| history_release gs v v' node : lease_history gs v -> release_step node v v' -> lease_history gs v'.

Lemma lease_step_epoch node now x v v' : lease_step node now x v v' -> (v_epoch v <= v_epoch v')%N.
Proof. intros []; cbn; lia. Qed.

(** The grants are ordered by epoch, and one epoch has one holder. *)
Record history_ok (gs : list Grant) (v : LeaseView) : Prop := {
  ho_ordered : forall i j a b, gs !! i = Some a -> gs !! j = Some b -> (i <= j)%nat -> (g_epoch a <= g_epoch b)%N;
  ho_unique : forall a b, a ∈ gs -> b ∈ gs -> g_epoch a = g_epoch b -> g_node a = g_node b;
  ho_bound : forall a, a ∈ gs -> (1 <= g_epoch a <= v_epoch v)%N;
  ho_holder : forall a n x, a ∈ gs -> v_holder v = Some (n, x) -> g_epoch a = v_epoch v -> g_node a = n;
  ho_last : forall n x, v_holder v = Some (n, x) -> exists a, last gs = Some a /\ g_node a = n /\ g_epoch a = v_epoch v
}.

Lemma lookup_snoc_cases {A} (l : list A) x i y : (l ++ [x]) !! i = Some y -> l !! i = Some y \/ (i = length l /\ y = x).
Proof.
  intros H. apply lookup_app_Some in H as [H|[Hle H]]; [by left|]. apply list_lookup_singleton_Some in H as [Hi <-].
  right. split; [lia|done].
Qed.

Lemma history_invariant gs v : lease_history gs v -> history_ok gs v.
Proof.
  induction 1 as [|gs v v' node now x Hh [Hord Huni Hbnd Hhol Hlast] Hs|gs v v' node Hh [Hord Huni Hbnd Hhol Hlast] Hs].
  - split; [by intros i j a b Ha|by intros a b Ha%not_elem_of_nil|by intros a Ha%not_elem_of_nil|by intros a n x Ha%not_elem_of_nil|done].
  - pose proof (lease_step_epoch _ _ _ _ _ Hs) as Hle.
    assert (Hnew : v_holder v' = Some (node, x) /\ (forall a, a ∈ gs -> g_epoch a = v_epoch v' -> g_node a = node) /\ (1 <= v_epoch v')%N).
    { destruct Hs as [e x0 Hv|e h Hv]; cbn in *.
      - split; [done|]. split; [intros a Ha Hae; by eapply Hhol|].
        destruct (Hlast _ _ eq_refl) as (a & Ha & _ & <-). apply last_Some_elem_of in Ha. by apply Hbnd.
      - split; [done|]. split; [|lia]. intros a Ha Hae. specialize (Hbnd a Ha). lia. }
    destruct Hnew as (Hv' & Hsame & H1). split; cbn.
    + intros i j a b Ha Hb Hij. apply lookup_snoc_cases in Ha as [Ha|[-> ->]], Hb as [Hb|[-> ->]].
      * by apply (Hord i j).
      * apply list_elem_of_lookup_2 in Ha. specialize (Hbnd a Ha). cbn. lia.
      * apply lookup_lt_Some in Hb. lia.
      * done.
    + intros a b [Ha| ->%list_elem_of_singleton]%elem_of_app [Hb| ->%list_elem_of_singleton]%elem_of_app He; cbn in *;
        [by apply Huni|by apply Hsame|symmetry; by apply Hsame|done].
    + intros a [Ha| ->%list_elem_of_singleton]%elem_of_app; cbn; [specialize (Hbnd a Ha); lia|lia].
    + intros a n y [Ha| ->%list_elem_of_singleton]%elem_of_app Hn He; cbn in *; rewrite Hv' in Hn; injection Hn as <- <-; [by apply Hsame|done].
    + intros n y Hn. rewrite Hv' in Hn. injection Hn as <- <-. eexists. by rewrite last_snoc.
  - destruct Hs as [e x h [->| ->]]; cbn in *; split; cbn; eauto; try done.
    + intros a n y Ha [= <- <-] He. by eapply Hhol.
    + intros n y [= <- <-]. by eapply Hlast.
Qed.

(** Fencing.  In every history of the lease, whatever the clocks of the nodes
    say, later acquisitions never have a smaller epoch, and two nodes never hold
    it under the same epoch: each change of hands advances the token. *)
Theorem lease_fencing gs v i j a b :
  lease_history gs v -> (i < j)%nat -> gs !! i = Some a -> gs !! j = Some b ->
  (1 <= g_epoch a <= g_epoch b)%N /\ (g_node a <> g_node b -> (g_epoch a < g_epoch b)%N) /\ (g_epoch b <= v_epoch v)%N.
Proof.
  intros H%history_invariant Hij Ha Hb. destruct H as [Hord Huni Hbnd _ _].
  pose proof (Hord i j a b Ha Hb ltac:(lia)) as Hle.
  apply list_elem_of_lookup_2 in Ha, Hb. pose proof (Hbnd a Ha). pose proof (Hbnd b Hb). split_and!; [lia|lia| |lia].
  intros Hne. specialize (Huni a b Ha Hb). destruct (N.eq_dec (g_epoch a) (g_epoch b)); [by elim Hne; apply Huni|lia].
Qed.

(** ** The compare-and-set store *)

(** What the key-value bucket gives for the one key [leader]: reading its entry
    with its revision, and the two conditional writes.  A write that reports
    another failure may have taken place. *)
Inductive KvWrite : Type := Written | Conflict | WriteFailed (what : string).
Class KeyValue (K V : Type) := {
  kv_entry : K -> result (option (V * N)) string;
  kv_create : V -> K -> K * KvWrite;
  kv_update : V -> N -> K -> K * KvWrite;
  kv_view : K -> option (V * N)
}.
Definition created {K V} `{KeyValue K V} (v : V) (k k' : K) : Prop :=
  kv_view k = None /\ exists r, kv_view k' = Some (v, r).
Definition updated {K V} `{KeyValue K V} (v : V) (rev : N) (k k' : K) : Prop :=
  exists w r, kv_view k = Some (w, rev) /\ kv_view k' = Some (v, r) /\ (rev < r)%N.
Class KeyValueLaws (K V : Type) `{KeyValue K V} := {
  entry_law k e : kv_entry k = Ok e -> e = kv_view k;
  create_law v k k' w : kv_create v k = (k', w) ->
    match w with
    | Written => created v k k'
    | Conflict => kv_view k' = kv_view k /\ kv_view k <> None
    | WriteFailed _ => kv_view k' = kv_view k \/ created v k k'
    end;
  update_law v rev k k' w : kv_update v rev k = (k', w) ->
    match w with
    | Written => updated v rev k k'
    | Conflict => kv_view k' = kv_view k /\ ~ (exists w, kv_view k = Some (w, rev))
    | WriteFailed _ => kv_view k' = kv_view k \/ updated v rev k k'
    end
}.

Section Nats.
Context {K V : Type} {KV : KeyValue K V} {KL : KeyValueLaws K V} {SL : Serde V Lease}.
Hypothesis codec : forall l : Lease, serde_roundtrips (Bytes := V) l.

(** [acquire] up to its conditional write: an answer, or what to write. *)
Inductive Plan : Type :=
| Answer (r : result Lease ReplError)
| Create (record : Lease)
| Update (record : Lease) (revision : N).

Definition acquire_read (node_id : string) (ttl : N) (now : Z) (k : K) : Plan :=
  let expires := lease_expiry_ms now ttl in
  match kv_entry k with
  | Err _ => Answer (Err (TransportFailed "reading lease entry"))
  | Ok None => Create (mk_lease node_id 1 expires)
  | Ok (Some (value, revision)) =>
      match from_slice value with
      | None => Answer (Err (TransportFailed "decoding lease record"))
      | Some cur =>
          let held_by_us := String.eqb (l_holder cur) node_id in
          let expired := (expires_at_ms cur <=? now)%Z in
          if negb held_by_us && negb expired then Answer (Ok cur)
          else
            let epoch := if held_by_us && negb expired then l_epoch cur else (l_epoch cur + 1)%N in
            Update (mk_lease node_id epoch expires) revision
      end
  end.

(** [current]. *)
Definition nats_current (now : Z) (k : K) : result (option Lease) ReplError :=
  match kv_entry k with
  | Err _ => Err (TransportFailed "reading lease entry")
  | Ok None => Ok None
  | Ok (Some (value, _)) =>
      match from_slice value with
      | None => Err (TransportFailed "decoding lease record")
      | Some record => Ok (if (expires_at_ms record <=? now)%Z then None else Some record)
      end
  end.

(** The conditional write; [None] when a peer was faster and [current] has to
    tell who won. *)
Definition plan_write (p : Plan) (k : K) : K * option (result Lease ReplError) :=
  match p with
  | Answer r => (k, Some r)
  | Create record =>
      match to_vec record with
      | None => (k, Some (Err (TransportFailed "encoding lease record")))
      | Some v =>
          match kv_create v k with
          | (k, Written) => (k, Some (Ok record))
          | (k, Conflict) => (k, None)
          | (k, WriteFailed _) => (k, Some (Err (TransportFailed "creating lease")))
          end
      end
  | Update record revision =>
      match to_vec record with
      | None => (k, Some (Err (TransportFailed "encoding lease record")))
      | Some v =>
          match kv_update v revision k with
          | (k, Written) => (k, Some (Ok record))
          | (k, Conflict) => (k, None)
          | (k, WriteFailed _) => (k, Some (Err (TransportFailed "updating lease")))
          end
      end
  end.
Definition lost_race (now : Z) (k : K) : result Lease ReplError :=
  match nats_current now k with
  | Err e => Err e
  | Ok None => Err (TransportFailed "lease: vanished after race")
  | Ok (Some l) => Ok l
  end.

(** [acquire], with what the other nodes do to the bucket between its reads and
    its write. *)
Definition nats_acquire (others1 others2 : K -> K) (node_id : string) (ttl : N) (now now' : Z) :
    eff K ReplError Lease := fun k =>
  match plan_write (acquire_read node_id ttl now k) (others1 k) with
  | (k, Some r) => (k, r)
  | (k, None) => let k := others2 k in (k, lost_race now' k)
  end.

(** [release] up to its conditional write, and the write. *)
Definition release_read (node_id : string) (k : K) : result (option (Lease * N)) ReplError :=
  match kv_entry k with
  | Err _ => Err (TransportFailed "reading lease entry")
  | Ok None => Ok None
  | Ok (Some (value, revision)) =>
      match from_slice value with
      | None => Err (TransportFailed "decoding lease record")
      | Some cur =>
          if String.eqb (l_holder cur) node_id
          then Ok (Some (mk_lease (l_holder cur) (l_epoch cur) 0, revision)) else Ok None
      end
  end.
Definition release_write (record : Lease) (revision : N) (k : K) : K * result unit ReplError :=
  match to_vec record with
  | None => (k, Err (TransportFailed "encoding lease record"))
  | Some v =>
      match kv_update v revision k with
      | (k, Written) | (k, Conflict) => (k, Ok tt)
      | (k, WriteFailed _) => (k, Err (TransportFailed "releasing lease"))
      end
  end.

(** What the bucket shows of the lease. *)
Definition lease_view (k : K) : LeaseView :=
  match kv_view k with
  | Some (v, _) =>
      match from_slice v with
      | Some l => mk_view (l_epoch l) (Some (l_holder l, expires_at_ms l))
      | None => no_lease
      end
  | None => no_lease
  end.

(** Any number of nodes, their calls interleaved: a read leaves a request
    behind, which may reach the bucket at any later time, or several times, or
    never.  [ps] are the requests made so far, with who made them and when. *)
Inductive Request : Type :=
| Acquiring (node : string) (now : Z) (expiry : Z) (p : Plan)
| Releasing (node : string) (record : Lease) (revision : N).

Inductive bucket_run : K -> list Request -> list Grant -> Prop :=
| run_empty k : kv_view k = None -> bucket_run k [] []
| run_read k ps gs node ttl now :
    bucket_run k ps gs -> bucket_run k (Acquiring node now (lease_expiry_ms now ttl) (acquire_read node ttl now k) :: ps) gs
| run_release_read k ps gs node record revision :
    bucket_run k ps gs -> release_read node k = Ok (Some (record, revision)) ->
    bucket_run k (Releasing node record revision :: ps) gs
| run_write_stored k ps gs node now x p k' r :
    bucket_run k ps gs -> Acquiring node now x p ∈ ps -> plan_write p k = (k', r) -> kv_view k' <> kv_view k ->
    bucket_run k' ps (gs ++ [mk_grant node now (v_epoch (lease_view k')) x])
| run_write_refused k ps gs node now x p k' r :
    bucket_run k ps gs -> Acquiring node now x p ∈ ps -> plan_write p k = (k', r) -> kv_view k' = kv_view k ->
    bucket_run k' ps gs
| run_release k ps gs node record revision k' r :
    bucket_run k ps gs -> Releasing node record revision ∈ ps -> release_write record revision k = (k', r) ->
    bucket_run k' ps gs.

(** ** The bucket follows the specification *)

Lemma lease_view_stored k l v r : kv_view k = Some (v, r) -> to_vec l = Some v ->
  lease_view k = mk_view (l_epoch l) (Some (l_holder l, expires_at_ms l)).
Proof using codec. intros Hk Hv. unfold lease_view. rewrite Hk. by rewrite (codec l v Hv). Qed.
Lemma lease_view_same k k' : kv_view k' = kv_view k -> lease_view k' = lease_view k.
Proof. intros H. unfold lease_view. by rewrite H. Qed.

(** A write at a revision the bucket has left behind changes nothing. *)
Definition stale (k : K) (rev : N) : Prop := exists v r, kv_view k = Some (v, r) /\ (rev < r)%N.
Definition record_step (node : string) (now x : Z) (k : K) (record : Lease) : Prop :=
  lease_step node now x (lease_view k) (mk_view (l_epoch record) (Some (node, x))).

Definition request_ok (k : K) (req : Request) : Prop :=
  match req with
  | Acquiring node now x (Answer _) => True
  | Acquiring node now x (Create record) => record = mk_lease node 1 x
  | Acquiring node now x (Update record rev) =>
      l_holder record = node /\ expires_at_ms record = x /\
      (stale k rev \/ (exists v, kv_view k = Some (v, rev)) /\ record_step node now x k record)
  | Releasing node record rev =>
      stale k rev \/ (exists v, kv_view k = Some (v, rev)) /\
        release_step node (lease_view k) (mk_view (l_epoch record) (Some (l_holder record, expires_at_ms record)))
  end.

(** Requests stay in order when the bucket stays or moves to a later revision. *)
Definition later (k k' : K) : Prop :=
  kv_view k' = kv_view k \/ (exists v r, kv_view k' = Some (v, r) /\ forall w r0, kv_view k = Some (w, r0) -> (r0 < r)%N).
Lemma stale_later k k' rev : later k k' -> stale k rev -> stale k' rev.
Proof.
  intros [Heq|(v & r & Hk' & Hr)] (w & r0 & Hk & Hlt); [exists w, r0; by rewrite Heq|].
  exists v, r. split; [done|]. specialize (Hr _ _ Hk). lia.
Qed.
Lemma at_later k k' rev : later k k' -> (exists v, kv_view k = Some (v, rev)) -> kv_view k' = kv_view k \/ stale k' rev.
Proof. intros [Heq|(v & r & Hk' & Hr)] [w Hk]; [by left|right]. exists v, r. split; [done|]. by eapply Hr. Qed.
Lemma request_later k k' req : later k k' -> request_ok k req -> request_ok k' req.
Proof.
  intros Hl. destruct req as [node now x [r|rec|rec rev]|node rec rev]; cbn; [done|done| |].
  - intros (Hn & Hx & [Hs|[Hat Hst]]); (split; [done|]; split; [done|]); [left; by eapply stale_later|].
    destruct (at_later _ _ _ Hl Hat) as [He|Hs]; [right|by left]. unfold record_step. rewrite He, (lease_view_same _ _ He). done.
  - intros [Hs|[Hat Hst]]; [left; by eapply stale_later|].
    destruct (at_later _ _ _ Hl Hat) as [He|Hs]; [right|by left]. rewrite He, (lease_view_same _ _ He). done.
Qed.

Lemma acquire_read_ok node ttl now k :
  request_ok k (Acquiring node now (lease_expiry_ms now ttl) (acquire_read node ttl now k)).
Proof using KL.
  unfold acquire_read. destruct (kv_entry k) as [[[v rev]|]|] eqn:Ee; [|done|done]. apply entry_law in Ee.
  destruct (from_slice v) as [cur|] eqn:Ev; [|done].
  assert (Hv : lease_view k = mk_view (l_epoch cur) (Some (l_holder cur, expires_at_ms cur))).
  { unfold lease_view. by rewrite <- Ee, Ev. }
  destruct (String.eqb_spec (l_holder cur) node) as [Hh|Hh], (Z.leb_spec (expires_at_ms cur) now) as [Hx|Hx];
    cbn; [| | |done]; (split; [done|]; split; [done|]; right; split; [by exists v|]); unfold record_step; rewrite Hv; cbn.
  - by constructor.
  - rewrite Hh. by constructor.
  - by constructor.
Qed.
Lemma release_read_ok node k rec rev :
  release_read node k = Ok (Some (rec, rev)) -> request_ok k (Releasing node rec rev).
Proof using KL.
  unfold release_read. destruct (kv_entry k) as [[[v r]|]|] eqn:Ee; [|done|done]. apply entry_law in Ee.
  destruct (from_slice v) as [cur|] eqn:Ev; [|done]. destruct (String.eqb_spec (l_holder cur) node) as [Hh|]; [|done].
  intros [= <- <-]. cbn. right. split; [by exists v|]. unfold lease_view. rewrite <- Ee, Ev, Hh. constructor. by right.
Qed.

Lemma updated_later v rev k k' : updated v rev k k' -> later k k' /\ ~ stale k rev.
Proof using.
  intros (w & r & Hk & Hk' & Hr). split.
  - right. exists v, r. split; [done|]. intros w0 r0 H. rewrite Hk in H. injection H as <- <-. done.
  - intros (w0 & r0 & H & Hlt). rewrite Hk in H. injection H as <- <-. lia.
Qed.
Lemma created_later v k k' : created v k k' -> later k k'.
Proof using. intros (Hk & r & Hk'). right. exists v, r. split; [done|]. intros w r0 H. congruence. Qed.

Lemma plan_write_ok node now x p k k' r :
  request_ok k (Acquiring node now x p) -> plan_write p k = (k', r) ->
  kv_view k' = kv_view k \/ (later k k' /\ lease_step node now x (lease_view k) (lease_view k')).
Proof using KL codec.
  destruct p as [a|rec|rec rev]; cbn [plan_write request_ok]; [intros _ [= <- _]; by left|..].
  - intros ->. destruct (to_vec _) as [v|] eqn:Ev; [|intros [= <- _]; by left].
    destruct (kv_create v k) as [k1 w] eqn:Ew. pose proof (create_law _ _ _ _ Ew) as Hw.
    assert (Hc : created v k k1 -> later k k1 /\ lease_step node now x (lease_view k) (lease_view k1)).
    { intros Hcr. split; [by eapply created_later|]. destruct Hcr as (Hk & r0 & Hk1). rewrite (lease_view_stored _ _ _ _ Hk1 Ev).
      unfold lease_view at 1. rewrite Hk. cbn. change (mk_view 1 (Some (node, x))) with (mk_view (0 + 1) (Some (node, x))). by constructor. }
    destruct w; intros [= <- _]; [right; by apply Hc|left; apply Hw|]. destruct Hw; [by left|right; by apply Hc].
  - intros (Hn & Hx & Hreq). destruct (to_vec rec) as [v|] eqn:Ev; [|intros [= <- _]; by left].
    destruct (kv_update v rev k) as [k1 w] eqn:Ew. pose proof (update_law _ _ _ _ _ Ew) as Hw.
    assert (Hc : updated v rev k k1 -> later k k1 /\ lease_step node now x (lease_view k) (lease_view k1)).
    { intros Hup. destruct (updated_later _ _ _ _ Hup) as [Hl Hs]. split; [done|]. destruct Hreq as [|[_ Hst]]; [done|].
      destruct Hup as (_ & r0 & _ & Hk1 & _). rewrite (lease_view_stored _ _ _ _ Hk1 Ev), Hn, Hx. exact Hst. }
    destruct w; intros [= <- _]; [right; by apply Hc|left; apply Hw|]. destruct Hw; [by left|right; by apply Hc].
Qed.

Lemma release_write_ok node rec rev k k' r :
  request_ok k (Releasing node rec rev) -> release_write rec rev k = (k', r) ->
  kv_view k' = kv_view k \/ (later k k' /\ release_step node (lease_view k) (lease_view k')).
Proof using KL codec.
  cbn [request_ok]. unfold release_write. intros Hreq. destruct (to_vec rec) as [v|] eqn:Ev; [|intros [= <- _]; by left].
  destruct (kv_update v rev k) as [k1 w] eqn:Ew. pose proof (update_law _ _ _ _ _ Ew) as Hw.
  assert (Hc : updated v rev k k1 -> later k k1 /\ release_step node (lease_view k) (lease_view k1)).
  { intros Hup. destruct (updated_later _ _ _ _ Hup) as [Hl Hs]. split; [done|]. destruct Hreq as [|[_ Hst]]; [done|].
    destruct Hup as (_ & r0 & _ & Hk1 & _). by rewrite (lease_view_stored _ _ _ _ Hk1 Ev). }
  destruct w; intros [= <- _]; [right; by apply Hc|left; apply Hw|]. destruct Hw; [by left|right; by apply Hc].
Qed.

Lemma bucket_run_ok k ps gs :
  bucket_run k ps gs -> lease_history gs (lease_view k) /\ Forall (request_ok k) ps.
Proof using KL codec.
  induction 1 as [k Hk|k ps gs node ttl now _ [Hh Hp]|k ps gs node rec rev _ [Hh Hp] Hr|k ps gs node now x p k' r _ [Hh Hp] Hin Hw Hne
    |k ps gs node now x p k' r _ [Hh Hp] Hin Hw Heq|k ps gs node rec rev k' r _ [Hh Hp] Hin Hw].
  - split; [|done]. unfold lease_view. rewrite Hk. constructor.
  - split; [done|]. constructor; [apply acquire_read_ok|done].
  - split; [done|]. constructor; [by apply release_read_ok|done].
  - rewrite Forall_forall in Hp. destruct (plan_write_ok _ _ _ _ _ _ _ (Hp _ Hin) Hw) as [Heq|[Hl Hs]]; [done|].
    split; [by eapply history_acquire|]. apply Forall_forall. intros q Hq. by eapply request_later, Hp.
  - rewrite (lease_view_same _ _ Heq). split; [done|]. eapply Forall_impl; [exact Hp|]. intros q. apply request_later. by left.
  - rewrite Forall_forall in Hp. destruct (release_write_ok _ _ _ _ _ _ (Hp _ Hin) Hw) as [Heq|[Hl Hs]].
    + rewrite (lease_view_same _ _ Heq). split; [done|]. apply Forall_forall. intros q Hq. eapply request_later; [by left|by apply Hp].
    + split; [by eapply history_release|]. apply Forall_forall. intros q Hq. by eapply request_later, Hp.
Qed.

(** A write that went through has put the record there. *)
Lemma plan_written node now x p k k' l :
  request_ok k (Acquiring node now x p) -> plan_write p k = (k', Some (Ok l)) ->
  (p = Answer (Ok l) /\ k' = k) \/
  (l_holder l = node /\ expires_at_ms l = x /\ lease_view k' = mk_view (l_epoch l) (Some (node, x)) /\ kv_view k' <> kv_view k).
Proof using KL codec.
  destruct p as [a|rec|rec rev]; cbn [plan_write request_ok]; [intros _ [= <- ->]; by left|..].
  - intros ->. destruct (to_vec _) as [v|] eqn:Ev; [|done]. destruct (kv_create v k) as [k1 []] eqn:Ew; intros [= <- <-].
    destruct (create_law _ _ _ _ Ew) as (Hk & r0 & Hk1). right.
    rewrite (lease_view_stored _ _ _ _ Hk1 Ev). split_and!; [done|done|done|congruence].
  - intros (Hn & Hx & _). destruct (to_vec rec) as [v|] eqn:Ev; [|done].
    destruct (kv_update v rev k) as [k1 []] eqn:Ew; intros [= <- <-].
    destruct (update_law _ _ _ _ _ Ew) as (w & r0 & Hk & Hk1 & Hr). right.
    rewrite (lease_view_stored _ _ _ _ Hk1 Ev), Hn, Hx. split_and!; [done|done|done|].
    rewrite Hk, Hk1. intros [= _ ->]. lia.
Qed.

(** C24: The compare-and-set store implements the lease.  However the calls of
    any number of nodes interleave, their conditional writes delayed, repeated,
    lost or acknowledged wrongly, what happens in the bucket is a history of the
    lease: a write takes place only as a renewal of the writer's valid lease, or
    as the taking of one that was vacant or had expired when the writer looked,
    under the next epoch; and an acquisition that reports the caller as the
    holder because its own write went through has been entered last. *)
Theorem nats_refines k ps gs :
  bucket_run k ps gs ->
  lease_history gs (lease_view k) /\
  forall node now x p k' l, Acquiring node now x p ∈ ps -> plan_write p k = (k', Some (Ok l)) ->
    p = Answer (Ok l) \/
    (l_holder l = node /\ expires_at_ms l = x /\ lease_view k' = mk_view (l_epoch l) (Some (node, x)) /\
     bucket_run k' ps (gs ++ [mk_grant node now (l_epoch l) x])).
Proof using KL codec.
  intros Hrun. destruct (bucket_run_ok _ _ _ Hrun) as [Hh Hp]. split; [done|].
  intros node now x p k' l Hin Hw. rewrite Forall_forall in Hp.
  destruct (plan_written _ _ _ _ _ _ _ (Hp _ Hin) Hw) as [[-> _]|(Hn & Hx & Hv & Hne)]; [by left|right].
  split_and!; [done..|]. pose proof (run_write_stored _ _ _ _ _ _ _ _ _ Hrun Hin Hw Hne) as H. by rewrite Hv in H.
Qed.

(** ** One node at a time *)

Definition decodable (k : K) : Prop := forall v r, kv_view k = Some (v, r) -> from_slice v <> None.

#[export] Instance nats_lease_store : LeaseStore K := {
  acquire node ttl now := nats_acquire (fun k => k) (fun k => k) node ttl now now;
  release node := fun k =>
    match release_read node k with
    | Err e => (k, Err e)
    | Ok None => (k, Ok tt)
    | Ok (Some (record, revision)) => release_write record revision k
    end;
  current := nats_current;
  view := lease_view;
  store_ok := decodable
}.

Lemma plan_write_decodable p k : decodable k -> decodable (plan_write p k).1.
Proof using KL codec.
  intros Hd. destruct p as [r|rec|rec rev]; cbn; [done|..]; (destruct (to_vec rec) as [v|] eqn:Ev; [|done]).
  - destruct (kv_create v k) as [k1 w] eqn:Ew. pose proof (create_law _ _ _ _ Ew) as Hw.
    assert (Hc : created v k k1 -> decodable k1).
    { intros (_ & r & Hk) v1 r1 H. rewrite Hk in H. injection H as <- <-. by rewrite (codec _ _ Ev). }
    assert (Hs : kv_view k1 = kv_view k -> decodable k1) by (intros H v1 r1; rewrite H; apply Hd).
    destruct w; cbn; [by apply Hc|by apply Hs, Hw|destruct Hw; auto].
  - destruct (kv_update v rev k) as [k1 w] eqn:Ew. pose proof (update_law _ _ _ _ _ Ew) as Hw.
    assert (Hc : updated v rev k k1 -> decodable k1).
    { intros (w0 & r & _ & Hk & _) v1 r1 H. rewrite Hk in H. injection H as <- <-. by rewrite (codec _ _ Ev). }
    assert (Hs : kv_view k1 = kv_view k -> decodable k1) by (intros H v1 r1; rewrite H; apply Hd).
    destruct w; cbn; [by apply Hc|by apply Hs, Hw|destruct Hw; auto].
Qed.

Lemma release_is_update rec rev k : release_write rec rev k =
  match plan_write (Update rec rev) k with
  | (k, Some (Err (TransportFailed w))) =>
      (k, Err (TransportFailed (if String.eqb w "updating lease" then "releasing lease" else w)))
  | (k, Some (Err e)) => (k, Err e)
  | (k, _) => (k, Ok tt)
  end.
Proof using.
  unfold release_write, plan_write. destruct (to_vec rec) as [v|]; [|done]. by destruct (kv_update v rev k) as [k1 []].
Qed.
Lemma release_write_decodable rec rev k : decodable k -> decodable (release_write rec rev k).1.
Proof using KL codec.
  intros Hd. pose proof (plan_write_decodable (Update rec rev) k Hd) as H. rewrite release_is_update.
  destruct (plan_write (Update rec rev) k) as [k1 [[l|[]]|]]; exact H.
Qed.

(** Alone, a node does not lose a race. *)
Lemma no_race node ttl now k k' r :
  plan_write (acquire_read node ttl now k) k = (k', r) -> r <> None.
Proof using KL.
  unfold acquire_read. destruct (kv_entry k) as [[[v rev]|]|] eqn:Ee; [| |by intros [= _ <-]].
  - apply entry_law in Ee. destruct (from_slice v) as [cur|]; [|by intros [= _ <-]].
    cbv zeta. destruct (negb _ && negb _); [by intros [= _ <-]|]. unfold plan_write. destruct (to_vec _) as [w|]; [|by intros [= _ <-]].
    destruct (kv_update w rev k) as [k1 []] eqn:Ew; intros [= _ <-]; [done| |done].
    destruct (update_law _ _ _ _ _ Ew) as [_ Hn]. destruct Hn. by exists v.
  - apply entry_law in Ee. unfold plan_write. destruct (to_vec _) as [w|]; [|by intros [= _ <-]].
    destruct (kv_create w k) as [k1 []] eqn:Ew; intros [= _ <-]; [done| |done].
    by destruct (create_law _ _ _ _ Ew) as [_ Hn].
Qed.
Lemma acquire_alone node ttl now k :
  acquire node ttl now k = match plan_write (acquire_read node ttl now k) k with
    | (k', Some r) => (k', r) | (k', None) => (k', lost_race now k') end.
Proof using. done. Qed.

Lemma answer_law node ttl now k cur : acquire_read node ttl now k = Answer (Ok cur) ->
  lease_of (lease_view k) = Some cur /\ l_holder cur <> node /\ (now < expires_at_ms cur)%Z.
Proof using KL.
  unfold acquire_read. destruct (kv_entry k) as [[[v rev]|]|] eqn:Ee; [|done..]. apply entry_law in Ee.
  destruct (from_slice v) as [c|] eqn:Ev; [|done]. unfold lease_view. rewrite <- Ee, Ev. cbv zeta.
  destruct (String.eqb_spec (l_holder c) node) as [|Hn], (Z.leb_spec (expires_at_ms c) now); cbn; try done.
  intros [= <-]. by destruct c.
Qed.

#[export] Instance nats_lease_laws : LeaseStoreLaws K.
Proof using KL codec.
  split.
  - intros node ttl now k Hd. rewrite acquire_alone. pose proof (plan_write_decodable (acquire_read node ttl now k) k Hd) as H.
    by destruct (plan_write _ k) as [k' [r|]].
  - intros node k Hd. cbn. destruct (release_read node k) as [[[rec rev]|]|]; [|done..]. by apply release_write_decodable.
  - intros node ttl now k k' l _. rewrite acquire_alone. destruct (plan_write _ k) as [k1 r] eqn:Ep.
    pose proof (no_race _ _ _ _ _ _ Ep) as Hr. destruct r as [r|]; [|done]. intros [= <- ->].
    pose proof (acquire_read_ok node ttl now k) as Hreq.
    destruct (plan_written _ _ _ _ _ _ _ Hreq Ep) as [[Ha ->]|(Hn & Hx & Hv & Hne)].
    + right. destruct (answer_law _ _ _ _ _ Ha) as (H1 & H2 & H3). by split_and!.
    + left. destruct (plan_write_ok _ _ _ _ _ _ _ Hreq Ep) as [Heq|[_ Hs]]; [done|].
      split; [exact Hs|]. split; [|done]. cbn [view nats_lease_store]. rewrite Hv. unfold lease_of. cbn. by destruct l; simplify_eq/=.
  - intros node ttl now k k' e _. rewrite acquire_alone. destruct (plan_write _ k) as [k1 r] eqn:Ep. intros H.
    assert (k1 = k') as -> by (destruct r; by simplify_eq).
    destruct (plan_write_ok _ _ _ _ _ _ _ (acquire_read_ok node ttl now k) Ep) as [Heq|[_ Hs]]; [left|by right].
    by apply lease_view_same.
  - intros node k _. cbn. destruct (release_read node k) as [[[rec rev]|]|] eqn:Er; [|by left..].
    destruct (release_write rec rev k) as [k1 r] eqn:Ew. cbn.
    destruct (release_write_ok _ _ _ _ _ _ (release_read_ok _ _ _ _ Er) Ew) as [Heq|[_ Hs]]; [left|by right].
    by apply lease_view_same.
  - intros now k r _. cbn. unfold nats_current. destruct (kv_entry k) as [[[v rev]|]|] eqn:Ee; [| |done]; apply entry_law in Ee.
    + destruct (from_slice v) as [l|] eqn:Ev; [|done]. intros [= <-]. unfold lease_view. rewrite <- Ee, Ev. cbn.
      destruct l as [h e x]. cbn. destruct (Z.leb_spec x now), (Z.ltb_spec now x); (done || lia).
    + intros [= <-]. unfold lease_view. by rewrite <- Ee.
Qed.
End Nats.

(** ** The coordinator *)

(** Switching the journal mode ([ffi::store_set_journal_wal] and
    [ffi::store_set_journal_rollback]): what the call answers and the mode the
    connection is in afterwards. *)
Record JournalIo : Type := mk_journal_io { answer : result string string; mode_after : string }.
Definition honest (io : Role -> JournalIo) : Prop := forall r m, answer (io r) = Ok m -> mode_after (io r) = m.

(** [struct FailoverCoordinator] with what [run_auto] keeps: the task that runs,
    by its role, and the current role.  [journal] is the journal mode of the
    store, when there is a handle. *)
Record Coordinator : Type := mk_coordinator {
  node_id : string;
  lease_ttl : N;
  has_store : bool;
  c_shared : ReplicationShared;
  journal : string;
  task : option Role;
  current_role : Role
}.

(** [set_store_journal_for]. *)
Definition set_store_journal_for (r : Role) (io : Role -> JournalIo) : eff Coordinator ReplError unit := fun c =>
  if has_store c then
    match r with
    | Disabled => (c, Ok tt)
    | _ =>
        let c' := mk_coordinator (node_id c) (lease_ttl c) (has_store c) (c_shared c) (mode_after (io r)) (task c) (current_role c) in
        match answer (io r) with
        | Err e => (c', Err (Misconfigured e))
        | Ok mode =>
            if Bool.eqb (String.eqb mode "wal") (bool_decide (r = Primary)) then (c', Ok tt)
            else (c', Err (Misconfigured "journal mode"))
        end
    end
  else (c, Ok tt).

(** [spawn_role]: the role of the task it starts. *)
Definition spawn_role (r : Role) : option Role := match r with Disabled => None | _ => Some r end.

Definition with_shared (s : ReplicationShared) (c : Coordinator) : Coordinator :=
  mk_coordinator (node_id c) (lease_ttl c) (has_store c) s (journal c) (task c) (current_role c).
Definition with_task (t : option Role) (c : Coordinator) : Coordinator :=
  mk_coordinator (node_id c) (lease_ttl c) (has_store c) (c_shared c) (journal c) t (current_role c).
Definition with_role (r : Role) (c : Coordinator) : Coordinator :=
  mk_coordinator (node_id c) (lease_ttl c) (has_store c) (c_shared c) (journal c) (task c) r.

(** [elect_once], given what [acquire] answered. *)
Definition elect_once (acquired : result Lease ReplError) : eff Coordinator ReplError Role := fun c =>
  match acquired with
  | Err e => (c, Err e)
  | Ok l => (with_shared (set_epoch (l_epoch l) (c_shared c)) c,
             Ok (if String.eqb (l_holder l) (node_id c) then Primary else Standby))
  end.

(** The beginning of [run_auto]; its error is only logged. *)
Definition start_auto (io : Role -> JournalIo) (c : Coordinator) : Coordinator :=
  let c := with_shared (set_role Standby (c_shared c)) c in
  let c := (set_store_journal_for Standby io c).1 in
  with_role Standby (with_task (spawn_role Standby) c).

(** One tick of [run_auto] up to where it stops the task that runs: the new role,
    when it changes. *)
Definition tick_elected (acquired : result Lease ReplError) (c : Coordinator) : Coordinator * option Role :=
  match elect_once acquired c with
  | (c, Err _) => (c, None)
  | (c, Ok want) => if bool_decide (want = current_role c) then (c, None) else (with_task None c, Some want)
  end.
(** The rest of it, once that task has ended; [io2] answers the forced switch
    back. *)
Definition tick_switch (want : Role) (io io2 : Role -> JournalIo) (c : Coordinator) : Coordinator :=
  let '(c, effective) :=
    match set_store_journal_for want io c with
    | (c, Ok _) => (c, want)
    | (c, Err _) => ((set_store_journal_for Standby io2 c).1, Standby)
    end in
  let c := with_shared (set_role effective (c_shared c)) c in
  with_role effective (with_task (spawn_role effective) c).
(** The whole tick of one node. *)
Definition tick (acquired : result Lease ReplError) (io io2 : Role -> JournalIo) (c : Coordinator) : Coordinator :=
  match tick_elected acquired c with
  | (c, None) => c
  | (c, Some want) => tick_switch want io io2 c
  end.

(** The end of [run_auto]: the task is stopped, and whether the lease is then
    released. *)
Definition stop_auto (c : Coordinator) : Coordinator * bool :=
  (with_task None c, bool_decide (task c = Some Primary)).

(** [run_static] up to its wait for the shutdown, after [run] has set the role. *)
Definition run_static (r : Role) (io : Role -> JournalIo) (c : Coordinator) : Coordinator :=
  let c := with_shared (set_role r (c_shared c)) c in
  match set_store_journal_for r io c with
  | (c, Err _) => c
  | (c, Ok _) => with_task (spawn_role r) c
  end.

(** [ensure_writable]. *)
Definition ensure_writable (s : ReplicationShared) : result unit ReplError :=
  if is_writable s then Ok tt else Err (TransportFailed "not the primary; writes are rejected").

(** The rounds of [run_auto]. *)
Record Round : Type := mk_round { acquired : result Lease ReplError; io1 : Role -> JournalIo; io2 : Role -> JournalIo }.
Definition run_rounds (rounds : list Round) (c : Coordinator) : Coordinator :=
  foldl (fun c r => tick (acquired r) (io1 r) (io2 r) c) c rounds.
(** The lease of the last election that succeeded. *)
Definition last_elected (rounds : list Round) : option Lease :=
  foldl (fun o r => match acquired r with Ok l => Some l | Err _ => o end) None rounds.

(** The switch does what it was asked for. *)
Definition works (io : Role -> JournalIo) : Prop :=
  answer (io Primary) = Ok "wal" /\ exists m, answer (io Standby) = Ok m /\ m <> "wal".

Record coordinator_ok (c : Coordinator) (elected : option Lease) : Prop := {
  co_task : task c = Some (current_role c);
  co_shared : role (c_shared c) = current_role c;
  co_roles : current_role c = Primary \/ current_role c = Standby;
  co_primary : current_role c = Primary ->
    exists l, elected = Some l /\ l_holder l = node_id c /\ epoch (c_shared c) = l_epoch l;
  co_wal : current_role c = Primary -> has_store c = true -> journal c = "wal"
}.

Lemma set_journal_fields r io c :
  let c' := (set_store_journal_for r io c).1 in
  node_id c' = node_id c /\ lease_ttl c' = lease_ttl c /\ has_store c' = has_store c /\ c_shared c' = c_shared c /\
  task c' = task c /\ current_role c' = current_role c.
Proof.
  unfold set_store_journal_for. destruct (has_store c) eqn:Eh; [|done]. destruct r; cbn; [| |done];
    (destruct (answer _) as [m|]; [destruct (Bool.eqb _ _)|]; by rewrite ?Eh).
Qed.
Lemma set_journal_ok io c c' u :
  honest io -> set_store_journal_for Primary io c = (c', Ok u) -> has_store c = true -> journal c' = "wal".
Proof.
  intros Hio. unfold set_store_journal_for. intros H Hs. rewrite Hs in H. destruct (answer (io Primary)) as [m|] eqn:Ea; [|done].
  destruct (String.eqb_spec m "wal") as [->|]; [|done]. injection H as <- _. cbn. by apply Hio.
Qed.
Lemma set_journal_standby io c :
  honest io -> works io -> has_store c = true -> exists c', set_store_journal_for Standby io c = (c', Ok tt) /\ journal c' <> "wal".
Proof.
  intros Hio (_ & m & Hm & Hne) Hs. unfold set_store_journal_for. rewrite Hs, Hm.
  destruct (String.eqb_spec m "wal"); [done|]. cbn. eexists. split; [done|]. cbn. by rewrite (Hio _ _ Hm).
Qed.

Lemma tick_fields a io io2 c :
  node_id (tick a io io2 c) = node_id c /\ lease_ttl (tick a io io2 c) = lease_ttl c /\ has_store (tick a io io2 c) = has_store c.
Proof.
  unfold tick, tick_elected, tick_switch, elect_once. destruct a as [l|e]; [|done]. case_bool_decide; [done|].
  match goal with |- context [set_store_journal_for ?w ?i ?x] => pose proof (set_journal_fields w i x) as Hf;
    destruct (set_store_journal_for w i x) as [c1 [u|e]] end; cbv zeta in Hf; cbn [fst] in Hf.
  - destruct Hf as (H1 & H2 & H3 & _). by split_and!.
  - destruct Hf as (H1 & H2 & H3 & _). destruct (set_journal_fields Standby io2 c1) as (K1 & K2 & K3 & _).
    cbn [node_id lease_ttl has_store with_role with_task with_shared]. rewrite K1, K2, K3. by split_and!.
Qed.

Lemma tick_ok a io io2 c e :
  honest io -> coordinator_ok c e -> coordinator_ok (tick a io io2 c) (match a with Ok l => Some l | Err _ => e end).
Proof.
  intros Hio [Ht Hsh Hr Hp Hw]. unfold tick, tick_elected, tick_switch, elect_once. destruct a as [l|x]; [|by split].
  case_bool_decide as Hwant; unfold with_shared in Hwant; cbn [current_role] in Hwant.
  - split; cbn [task c_shared current_role node_id has_store journal with_shared set_epoch role epoch]; [done|done|done| |done].
    intros Hprim. exists l. split; [done|]. split; [|done]. rewrite Hprim in Hwant. by destruct (String.eqb_spec (l_holder l) (node_id c)).
  - match goal with |- context [set_store_journal_for ?w ?i ?x] => set (want := w) in *; set (c1 := x) end.
    pose proof (set_journal_fields want io c1) as Hf. destruct (set_store_journal_for want io c1) as [c2 [u|er]] eqn:E;
      cbn [fst] in Hf; destruct Hf as (F1 & _ & F3 & F4 & _).
    + assert (Hroles : want = Primary \/ want = Standby) by (unfold want; destruct (String.eqb _ _); auto).
      split; cbn [task c_shared current_role node_id has_store journal with_shared with_task with_role set_role role epoch].
      * by destruct Hroles as [-> | ->].
      * done.
      * done.
      * intros Hprim. exists l. split; [done|]. rewrite F1, F4. cbn. split; [|done]. unfold want in Hprim.
        by destruct (String.eqb_spec (l_holder l) (node_id c)).
      * intros Hprim Hs. rewrite Hprim in E. eapply set_journal_ok; [done|exact E|]. by rewrite <- F3.
    + split; cbn; [done|done|by right|done|done].
Qed.

Lemma start_ok io c : coordinator_ok (start_auto io c) None.
Proof.
  destruct (set_journal_fields Standby io (with_shared (set_role Standby (c_shared c)) c)) as (_ & _ & _ & H & _).
  split; cbn; [done|by rewrite H|by right|done|done].
Qed.

Lemma last_elected_app rounds r :
  last_elected (rounds ++ [r]) = match acquired r with Ok l => Some l | Err _ => last_elected rounds end.
Proof. unfold last_elected. by rewrite foldl_app. Qed.

Lemma tick_works l io io2 c :
  honest io -> works io -> has_store c = true ->
  let c' := tick (Ok l) io io2 c in
  current_role c' = (if String.eqb (l_holder l) (node_id c) then Primary else Standby) /\
  (current_role c = Primary -> current_role c' = Standby -> journal c' <> "wal").
Proof.
  intros Hio Hw Hs. unfold tick, tick_elected, tick_switch, elect_once. cbv zeta. set (want := if String.eqb _ _ then Primary else Standby).
  case_bool_decide as Hwant; [split; [by cbn|]; cbn; congruence|].
  assert (Hroles : want = Primary \/ want = Standby) by (unfold want; destruct (String.eqb _ _); auto).
  clearbody want. match goal with |- context [set_store_journal_for want io ?x] => set (c1 := x) in * end.
  assert (Hs1 : has_store c1 = true) by done. destruct Hroles as [-> | ->].
  - assert (E : exists c2, set_store_journal_for Primary io c1 = (c2, Ok tt)).
    { unfold set_store_journal_for. rewrite Hs1, (proj1 Hw). cbn. eauto. }
    destruct E as [c2 ->]. by split.
  - destruct (set_journal_standby io c1 Hio Hw Hs1) as (c2 & -> & Hj). by split.
Qed.

(** C25: A node's role, its task and its claim agree.  After any rounds of the
    election loop, whatever fails in them, the task that runs is the one of the
    current role, the role shown to the handlers is the current one, and it is
    primary or standby; a primary was named by the last election that succeeded,
    shows that lease's epoch and has its store in WAL mode; writes are accepted
    exactly on a primary.  When the last election succeeded and the switches of
    its round work, the role is exactly what the lease says, and a standby that
    was just demoted is out of WAL mode. *)
Theorem coordinator_roles rounds io0 c0 :
  Forall (fun r => honest (io1 r) /\ honest (io2 r)) rounds ->
  let c := run_rounds rounds (start_auto io0 c0) in
  task c = Some (current_role c) /\ role (c_shared c) = current_role c /\
  (current_role c = Primary \/ current_role c = Standby) /\
  (ensure_writable (c_shared c) = Ok tt <-> current_role c = Primary) /\
  (current_role c = Primary -> (has_store c = true -> journal c = "wal") /\
     exists l, last_elected rounds = Some l /\ l_holder l = node_id c0 /\ epoch (c_shared c) = l_epoch l) /\
  (forall r rs l, rounds = rs ++ [r] -> acquired r = Ok l -> works (io1 r) -> has_store c0 = true ->
     current_role c = (if String.eqb (l_holder l) (node_id c0) then Primary else Standby) /\
     (current_role (run_rounds rs (start_auto io0 c0)) = Primary -> current_role c = Standby -> journal c <> "wal")).
Proof.
  intros Hio c.
  assert (Hgen : forall rs, Forall (fun r => honest (io1 r) /\ honest (io2 r)) rs ->
    coordinator_ok (run_rounds rs (start_auto io0 c0)) (last_elected rs) /\
    node_id (run_rounds rs (start_auto io0 c0)) = node_id c0 /\ has_store (run_rounds rs (start_auto io0 c0)) = has_store c0).
  { clear c rounds Hio. intros rs Hrs. induction rs as [|r rs IH] using rev_ind.
    - split; [apply start_ok|]. cbn. destruct (set_journal_fields Standby io0 (with_shared (set_role Standby (c_shared c0)) c0)) as (H1 & _ & H3 & _).
      by rewrite H1, H3.
    - apply Forall_app in Hrs as [Hrs [[Hr _] _]%Forall_cons]. destruct (IH Hrs) as (Hok & Hn & Hs).
      unfold run_rounds in *. rewrite foldl_app, last_elected_app. cbn [foldl].
      set (c := foldl _ _ rs) in *. destruct (tick_fields (acquired r) (io1 r) (io2 r) c) as (T1 & _ & T3).
      rewrite T1, T3. split; [by apply tick_ok|done]. }
  destruct (Hgen rounds Hio) as ([Ht Hsh Hr Hp Hw] & Hn & Hs). fold c in Ht, Hsh, Hr, Hp, Hw, Hn, Hs.
  split; [done|]. split; [done|]. split; [done|]. split.
  { unfold ensure_writable, is_writable. rewrite Hsh. by destruct Hr as [-> | ->]. }
  split; [intros Hprim; split; [by apply Hw|]; rewrite <- Hn; by apply Hp|].
  intros r rs l -> Ha Hworks Hstore. apply Forall_app in Hio as [Hrs [[Hio _] _]%Forall_cons].
  destruct (Hgen rs Hrs) as (_ & Hn' & Hs'). subst c. unfold run_rounds in *. rewrite foldl_app. cbn [foldl]. rewrite Ha, <- Hn'.
  apply tick_works; [done|done|by rewrite Hs'].
Qed.

(** ** A cluster over one store *)

Section Cluster.
Context {S : Type} {LS : LeaseStore S} {LL : LeaseStoreLaws S}.

(** Where a node's loop is.  It can be held up at each [await]: between the store
    serving its request and the node having the answer, while the task of the
    old role ends, and while it stops. *)
Inductive Phase : Type :=
| Idle
| Answered (r : result Lease ReplError)
| Switching (want : Role)
| Stopping (was_primary : bool).
Record Member : Type := mk_member { member : Coordinator; phase : Phase }.

(** The nodes, what each last learned of a lease of its own, and the time.  [skew]
    bounds how far the instant a node uses in a request, read from its own
    clock, is from the time at which the store serves it. *)
Record Cluster : Type := mk_cluster {
  clock : Z;
  cstore : S;
  nodes : gmap string Member;
  beliefs : gmap string Lease
}.
Context (skew : Z).
Definition learn (n : string) (r : result Lease ReplError) (b : gmap string Lease) : gmap string Lease :=
  match r with Ok l => if String.eqb (l_holder l) n then <[n := l]> b else b | Err _ => b end.

(** The steps of [run_auto] of every node, in any order: a node starts, asks for
    the lease, has the answer, changes its role, stops in good order or dies. *)
Inductive cluster_step : Cluster -> Cluster -> Prop :=
| step_start cl c io :
    nodes cl !! node_id c = None ->
    cluster_step cl (mk_cluster (clock cl) (cstore cl) (<[node_id c := mk_member (start_auto io c) Idle]> (nodes cl))
                       (delete (node_id c) (beliefs cl)))
| step_ask cl n c now s r :
    nodes cl !! n = Some (mk_member c Idle) -> (clock cl - skew <= now <= clock cl + skew)%Z ->
    acquire n (lease_ttl c) now (cstore cl) = (s, r) ->
    cluster_step cl (mk_cluster (clock cl) s (<[n := mk_member c (Answered r)]> (nodes cl)) (beliefs cl))
| step_answer cl n c r :
    nodes cl !! n = Some (mk_member c (Answered r)) ->
    cluster_step cl (mk_cluster (clock cl) (cstore cl)
                       (<[n := mk_member (tick_elected r c).1
                                 (match (tick_elected r c).2 with Some want => Switching want | None => Idle end)]> (nodes cl))
                       (learn n r (beliefs cl)))
| step_switch cl n c want io io2 :
    nodes cl !! n = Some (mk_member c (Switching want)) ->
    cluster_step cl (mk_cluster (clock cl) (cstore cl) (<[n := mk_member (tick_switch want io io2 c) Idle]> (nodes cl)) (beliefs cl))
| step_stop cl n c :
    nodes cl !! n = Some (mk_member c Idle) ->
    cluster_step cl (mk_cluster (clock cl) (cstore cl)
                       (<[n := mk_member (stop_auto c).1 (Stopping (stop_auto c).2)]> (nodes cl)) (beliefs cl))
| step_release cl n c b :
    nodes cl !! n = Some (mk_member c (Stopping b)) ->
    cluster_step cl (mk_cluster (clock cl) (if b then (release n (cstore cl)).1 else cstore cl)
                       (delete n (nodes cl)) (delete n (beliefs cl)))
| step_crash cl n : cluster_step cl (mk_cluster (clock cl) (cstore cl) (delete n (nodes cl)) (delete n (beliefs cl)))
| step_time cl now : (clock cl <= now)%Z -> cluster_step cl (mk_cluster now (cstore cl) (nodes cl) (beliefs cl)).

Definition cluster_start (t : Z) (s : S) : Cluster := mk_cluster t s ∅ ∅.
Definition reachable (t : Z) (s : S) (cl : Cluster) : Prop := rtc cluster_step (cluster_start t s) cl.

(** A lease granted to a node: it knows of it, or the answer is on its way. *)
Definition granted (cl : Cluster) (n : string) (l : Lease) : Prop :=
  beliefs cl !! n = Some l \/ exists c, nodes cl !! n = Some (mk_member c (Answered (Ok l))) /\ l_holder l = n.
(** Its time is over. *)
Definition outlived (cl : Cluster) (l : Lease) : Prop := (expires_at_ms l <= clock cl + 3 * skew)%Z.

(** What is known of a lease granted to a node. *)
Record belief_ok (cl : Cluster) (n : string) (l : Lease) : Prop := {
  bo_holder : l_holder l = n;
  bo_node : exists mb, nodes cl !! n = Some mb /\ (expires_at_ms l <= lease_expiry_ms (clock cl + skew) (lease_ttl (member mb)))%Z;
  bo_epoch : (l_epoch l <= v_epoch (view (cstore cl)))%N;
  bo_now : l_epoch l = v_epoch (view (cstore cl)) ->
    exists x, v_holder (view (cstore cl)) = Some (n, x) /\ (expires_at_ms l <= x + 2 * skew)%Z;
  bo_past : (l_epoch l < v_epoch (view (cstore cl)))%N -> outlived cl l
}.
(** What a node shows, at each place of its loop. *)
Definition shows (cl : Cluster) (n : string) (c : Coordinator) : Prop :=
  exists l, beliefs cl !! n = Some l /\ epoch (c_shared c) = l_epoch l.
Definition member_ok (cl : Cluster) (n : string) (mb : Member) : Prop :=
  let c := member mb in
  node_id c = n /\ role (c_shared c) = current_role c /\
  match phase mb with
  | Switching Primary => current_role c <> Primary /\ shows cl n c
  | Switching Disabled => False
  | Switching Standby => current_role c = Primary ->
      exists l, beliefs cl !! n = Some l /\ (l_epoch l < epoch (c_shared c))%N /\ outlived cl l
  | Answered (Ok l) => (current_role c = Primary -> shows cl n c) /\
      (l_holder l <> n -> forall l1, beliefs cl !! n = Some l1 -> (l_epoch l1 < l_epoch l)%N /\ outlived cl l1)
  | _ => current_role c = Primary -> shows cl n c
  end.
Record cluster_ok (cl : Cluster) : Prop := {
  ck_store : store_ok (cstore cl);
  ck_granted : forall n l, granted cl n l -> belief_ok cl n l;
  ck_distinct : forall n m l1 l2, n <> m -> granted cl n l1 -> granted cl m l2 -> l_epoch l1 <> l_epoch l2;
  ck_member : forall n mb, nodes cl !! n = Some mb -> member_ok cl n mb
}.

Context (Hskew : (0 <= skew)%Z).

(** Only what the store and the nodes' names and [lease_ttl] say matters, and
    the time going on does not. *)
Lemma belief_move cl cl' n l mb mb' :
  belief_ok cl n l -> (clock cl <= clock cl')%Z -> view (cstore cl') = view (cstore cl) ->
  nodes cl !! n = Some mb -> nodes cl' !! n = Some mb' -> lease_ttl (member mb') = lease_ttl (member mb) -> belief_ok cl' n l.
Proof using.
  intros [Hh (m0 & Hm0 & Hx) Hle Hnow Hpast] Hclock Hs Hm Hm' Httl. rewrite Hm in Hm0. injection Hm0 as <-.
  pose proof (lease_expiry_mono (clock cl + skew) (clock cl' + skew) (lease_ttl (member mb)) ltac:(lia)) as Hmono.
  unfold outlived in *. split; unfold outlived; rewrite ?Hs; [done|exists mb'; rewrite Httl; split; [done|lia]|done|done|].
  intros Hlt. specialize (Hpast Hlt). lia.
Qed.

(** A step of the lease keeps what is known of the leases granted, and leaves
    those of other nodes behind. *)
Lemma belief_step cl s now n m l mbn mb cl' :
  belief_ok cl m l -> (clock cl - skew <= now <= clock cl + skew)%Z ->
  lease_step n now (lease_expiry_ms now (lease_ttl (member mbn))) (view (cstore cl)) (view s) ->
  nodes cl !! n = Some mbn -> nodes cl !! m = Some mb ->
  cstore cl' = s -> clock cl' = clock cl ->
  (exists mb', nodes cl' !! m = Some mb' /\ lease_ttl (member mb') = lease_ttl (member mb)) ->
  belief_ok cl' m l /\ (m <> n -> (l_epoch l < v_epoch (view s))%N).
Proof using Hskew.
  intros [Hh (m0 & Hm0 & Hx) Hle Hnow Hpast] Hclock Hs Hn Hm <- Ht (mb' & Hm' & Httl). rewrite Hm in Hm0. injection Hm0 as <-.
  pose proof (lease_expiry_near (clock cl + skew) now (2 * skew) (lease_ttl (member mb)) ltac:(lia) ltac:(lia)) as Hnear.
  unfold outlived in *.
  assert (Hcase : (l_epoch l < v_epoch (view (cstore cl')))%N /\ (expires_at_ms l <= clock cl + 3 * skew)%Z \/
    m = n /\ l_epoch l = v_epoch (view (cstore cl')) /\ v_holder (view (cstore cl')) = Some (n, lease_expiry_ms now (lease_ttl (member mbn)))).
  { inversion Hs as [e x0 Hv He1 He2|e h Hv He1 He2]; rewrite <- He1 in *; cbn in *.
    - destruct (N.eq_dec (l_epoch l) e) as [He|]; [|left; split; [lia|]; apply Hpast; lia].
      right. destruct (Hnow He) as (y & [= Hy _] & _). by split_and!.
    - left. split; [lia|]. destruct (N.eq_dec (l_epoch l) e) as [He|]; [|apply Hpast; lia].
      destruct (Hnow He) as (y & -> & Hy). lia. }
  split; [|intros Hne; destruct Hcase as [[? _]|(? & _)]; done].
  destruct Hcase as [[Hlt Hexp]|(-> & He & Hhold)].
  - split; unfold outlived; rewrite ?Ht; [done|exists mb'; rewrite Httl; by split|lia|lia|done].
  - split; unfold outlived; rewrite ?Ht; [done|exists mb'; rewrite Httl; by split|lia| |lia].
    intros _. rewrite Hn in Hm. injection Hm as <-. eexists. split; [done|]. lia.
Qed.

(** Another node gave it back. *)
Lemma belief_release cl cl' n m l mb :
  belief_ok cl m l -> m <> n -> release_step n (view (cstore cl)) (view (cstore cl')) -> clock cl' = clock cl ->
  nodes cl !! m = Some mb -> nodes cl' !! m = Some mb -> belief_ok cl' m l.
Proof using.
  intros [Hh (m0 & Hm0 & Hx) Hle Hnow Hpast] Hne Hs Ht Hm Hm'. rewrite Hm in Hm0. injection Hm0 as <-.
  assert (Hlt : v_epoch (view (cstore cl')) = v_epoch (view (cstore cl)) /\ l_epoch l <> v_epoch (view (cstore cl'))).
  { inversion Hs as [e x h Hh' He1 He2]. rewrite <- He1 in *. cbn in *. split; [done|]. intros He.
    destruct (Hnow He) as (y & [= Hy _] & _). congruence. }
  destruct Hlt as [Heq Hlt]. unfold outlived in *. split; unfold outlived; rewrite ?Heq, ?Ht in *; [done|by exists mb|done|done|done].
Qed.

(** What a node that was granted the lease knows. *)
Lemma belief_new cl' n now mb l :
  lease_of (view (cstore cl')) = Some l -> l_holder l = n -> expires_at_ms l = lease_expiry_ms now (lease_ttl (member mb)) ->
  (now <= clock cl' + skew)%Z -> nodes cl' !! n = Some mb -> belief_ok cl' n l /\ l_epoch l = v_epoch (view (cstore cl')).
Proof using Hskew.
  intros Hl Hn Hx Hclock Hm. unfold lease_of in Hl. destruct (v_holder (view (cstore cl'))) as [[h x]|] eqn:Ev; [|done].
  injection Hl as <-. cbn in *. subst. split; [|done].
  pose proof (lease_expiry_mono now (clock cl' + skew) (lease_ttl (member mb)) Hclock).
  split; cbn; [done|exists mb; by split|done| |by intros ?%N.lt_irrefl]. intros _. eexists. split; [exact Ev|]. lia.
Qed.

(** What a member shows is kept when what was granted to it is, as time goes on. *)
Lemma member_keep cl cl' n mb :
  member_ok cl n mb -> beliefs cl' !! n = beliefs cl !! n -> (clock cl <= clock cl')%Z -> member_ok cl' n mb.
Proof using.
  intros (Hi & Hr & Hp) Hb Hc. split; [done|]. split; [done|]. unfold shows, outlived in *. rewrite Hb.
  destruct (phase mb) as [|[l|e]|[]|b]; try done.
  - destruct Hp as [Hp1 Hp2]. split; [done|]. intros Hne l1 Hl1. destruct (Hp2 Hne l1 Hl1). split; [done|lia].
  - intros H. destruct (Hp H) as (l & ? & ? & ?). exists l. split_and!; [done|done|lia].
Qed.

(** The members other than the one that moves. *)
Lemma others_keep cl cl' n mb :
  (forall m mb', nodes cl !! m = Some mb' -> member_ok cl m mb') ->
  nodes cl' = <[n := mb]> (nodes cl) -> (forall m, m <> n -> beliefs cl' !! m = beliefs cl !! m) -> clock cl' = clock cl ->
  member_ok cl' n mb -> forall m mb', nodes cl' !! m = Some mb' -> member_ok cl' m mb'.
Proof using.
  intros Hp Hn Hb Hc Hmb m mb' Hm. rewrite Hn in Hm. apply lookup_insert_Some in Hm as [[<- <-]|[Hne Hm]]; [done|].
  apply (member_keep cl); [by apply Hp|apply Hb; congruence|lia].
Qed.

(** A step that leaves the store alone and grants nothing new. *)
Lemma granted_keep cl cl' :
  cluster_ok cl -> (clock cl <= clock cl')%Z -> store_ok (cstore cl') -> view (cstore cl') = view (cstore cl) ->
  (forall n mb, nodes cl !! n = Some mb -> (exists l, granted cl' n l) ->
     exists mb', nodes cl' !! n = Some mb' /\ lease_ttl (member mb') = lease_ttl (member mb)) ->
  (forall n l, granted cl' n l -> granted cl n l) ->
  (forall n mb, nodes cl' !! n = Some mb -> member_ok cl' n mb) -> cluster_ok cl'.
Proof using.
  intros [Hst Hg Hd Hp] Hc Hst' Hv Hn Hsub Hp'. split; [done| | |done].
  - intros n l Hl. pose proof (Hg n l (Hsub n l Hl)) as Hb. destruct (bo_node _ _ _ Hb) as (mb & Hmb & _).
    destruct (Hn n mb Hmb (ex_intro _ l Hl)) as (mb' & Hmb' & Httl). by eapply (belief_move cl).
  - intros n m l1 l2 Hne H1%Hsub H2%Hsub. by apply (Hd n m).
Qed.

Lemma start_fields io c : node_id (start_auto io c) = node_id c /\ current_role (start_auto io c) = Standby /\
  role (c_shared (start_auto io c)) = Standby.
Proof using.
  destruct (set_journal_fields Standby io (with_shared (set_role Standby (c_shared c)) c)) as (H & _ & _ & H2 & _).
  unfold start_auto. cbn [node_id current_role c_shared with_role with_task]. rewrite H, H2. by split_and!.
Qed.
Lemma start_node_ok cl c io :
  cluster_ok cl -> nodes cl !! node_id c = None ->
  cluster_ok (mk_cluster (clock cl) (cstore cl) (<[node_id c := mk_member (start_auto io c) Idle]> (nodes cl)) (delete (node_id c) (beliefs cl))).
Proof using.
  intros Hok Hn. destruct (start_fields io c) as (Hs1 & Hs2 & Hs3). apply (granted_keep cl); [done|cbn; lia|apply Hok|done|..].
  - cbn. intros n mb Hmb _. exists mb. rewrite lookup_insert_ne by congruence. done.
  - intros n l [Hl|(x & Hx & Hh)]; unfold granted; cbn in *.
    + apply lookup_delete_Some in Hl as [_ ?]. by left.
    + apply lookup_insert_Some in Hx as [[_ [=]]|[_ Hx]]. right. eauto.
  - eapply others_keep; [apply Hok|done|cbn; intros m Hm; by rewrite lookup_delete_ne|done|].
    split; [done|]. cbn [member phase]. rewrite Hs2, Hs3. by split.
Qed.

(** The store serves a request. *)
Lemma ask_granted cl n c now s r :
  cluster_ok cl -> nodes cl !! n = Some (mk_member c Idle) -> (clock cl - skew <= now <= clock cl + skew)%Z ->
  acquire n (lease_ttl c) now (cstore cl) = (s, r) ->
  let cl' := mk_cluster (clock cl) s (<[n := mk_member c (Answered r)]> (nodes cl)) (beliefs cl) in
  (forall m l, granted cl' m l -> belief_ok cl' m l) /\
  (forall m k l1 l2, m <> k -> granted cl' m l1 -> granted cl' k l2 -> l_epoch l1 <> l_epoch l2).
Proof using LL Hskew.
  intros [Hst Hg Hd Hp] Hn Hclock Ha cl'.
  assert (Hnode : forall m mb, nodes cl !! m = Some mb -> exists mb', nodes cl' !! m = Some mb' /\ lease_ttl (member mb') = lease_ttl (member mb)).
  { intros m mb Hm. cbn. destruct (decide (m = n)) as [->|Hne]; [|rewrite lookup_insert_ne by done; eauto].
    rewrite lookup_insert_eq. rewrite Hn in Hm. injection Hm as <-. by eexists. }
  assert (Hsub : forall m l, granted cl' m l -> granted cl m l \/ m = n /\ r = Ok l /\ l_holder l = n).
  { intros m l [Hl|(x & Hx & Hh)]; [by left; left|]. cbn in Hx. apply lookup_insert_Some in Hx as [[<- [= _ ->]]|[_ Hx]]; [by right|].
    left. right. eauto. }
  assert (Hkeep : view s = view (cstore cl) -> forall m l, granted cl m l -> belief_ok cl' m l).
  { intros Hv m l Hl. pose proof (Hg m l Hl) as Hb. destruct (bo_node _ _ _ Hb) as (mb & Hmb & _).
    destruct (Hnode m mb Hmb) as (mb' & Hmb' & Httl). eapply (belief_move cl); try done; cbn; lia. }
  assert (Hstep : lease_step n now (lease_expiry_ms now (lease_ttl c)) (view (cstore cl)) (view s) ->
    forall m l, granted cl m l -> belief_ok cl' m l /\ (m <> n -> (l_epoch l < v_epoch (view s))%N)).
  { intros Hs m l Hl. pose proof (Hg m l Hl) as Hb. destruct (bo_node _ _ _ Hb) as (mb & Hmb & _).
    eapply (belief_step cl s now n m l (mk_member c Idle) mb cl'); try done. by apply Hnode. }
  destruct r as [l|e].
  - destruct (acquire_ok _ _ _ _ _ _ Hst Ha) as [(Hs & Hl & Hh)|(Hv & _ & Hne & _)].
    + assert (Hx : expires_at_ms l = lease_expiry_ms now (lease_ttl c)).
      { unfold lease_of in Hl. inversion Hs as [e x Hx Hf He|e h Hx Hf He]; rewrite <- He in Hl; cbn in Hl; by injection Hl as <-. }
      destruct (belief_new cl' n now (mk_member c (Answered (Ok l))) l Hl Hh Hx ltac:(cbn; lia) (lookup_insert_eq _ _ _)) as [Hnew He]. split.
      * intros m l0 [Hm|(-> & [= <-] & _)]%Hsub; [by apply (Hstep Hs)|done].
      * intros m k l1 l2 Hmk [H1|(-> & [= <-] & _)]%Hsub [H2|(-> & [= <-] & _)]%Hsub; [by apply (Hd m k)| | |done]; cbn in He.
        -- destruct (Hstep Hs m l1 H1) as [_ Hlt]. specialize (Hlt Hmk). lia.
        -- destruct (Hstep Hs k l2 H2) as [_ Hlt]. specialize (Hlt (not_eq_sym Hmk)). lia.
    + split; [intros m l0 [Hm|(-> & [= <-] & ?)]%Hsub; [by apply Hkeep|done]|].
      intros m k l1 l2 Hmk [H1|(-> & [= <-] & ?)]%Hsub [H2|(-> & [= <-] & ?)]%Hsub; [by apply (Hd m k)|done..].
  - split; [intros m l0 [Hm|(-> & [=] & _)]%Hsub|intros m k l1 l2 Hmk [H1|(-> & [=] & _)]%Hsub [H2|(-> & [=] & _)]%Hsub; by apply (Hd m k)].
    destruct (acquire_err _ _ _ _ _ _ Hst Ha) as [Hs|Hs]; [by apply Hkeep|by apply Hstep].
Qed.
Lemma ask_ok cl n c now s r :
  cluster_ok cl -> nodes cl !! n = Some (mk_member c Idle) -> (clock cl - skew <= now <= clock cl + skew)%Z ->
  acquire n (lease_ttl c) now (cstore cl) = (s, r) ->
  cluster_ok (mk_cluster (clock cl) s (<[n := mk_member c (Answered r)]> (nodes cl)) (beliefs cl)).
Proof using LL Hskew.
  intros Hok Hn Hclock Ha. destruct (ask_granted cl n c now s r Hok Hn Hclock Ha) as [Hg Hd]. split; [|done|done|].
  - cbn. pose proof (acquire_keeps n (lease_ttl c) now (cstore cl) (ck_store _ Hok)) as H. by rewrite Ha in H.
  - eapply others_keep; [apply Hok|done|done|done|]. destruct (ck_member _ Hok n _ Hn) as (Hi & Hr & Hp). split; [done|]. split; [done|]. cbn in *.
    destruct r as [l|e]; [|done]. split; [done|]. intros Hne l1 Hl1.
    destruct (acquire_ok _ _ _ _ _ _ (ck_store _ Hok) Ha) as [(_ & _ & Hh)|(Hv & Hl & _ & _)]; [done|].
    destruct (ck_granted _ Hok n l1 (or_introl Hl1)) as [_ _ Hle Hnow Hpast]. unfold lease_of in Hl.
    destruct (v_holder (view (cstore cl))) as [[h x]|] eqn:Eh; [|done]. injection Hl as <-. cbn in *.
    assert (Hlt : (l_epoch l1 < v_epoch (view (cstore cl)))%N).
    { destruct (N.eq_dec (l_epoch l1) (v_epoch (view (cstore cl)))) as [He|]; [|lia]. destruct (Hnow He) as (y & [= Hy _] & _). done. }
    split; [done|]. by apply Hpast.
Qed.

(** A node has the answer. *)
Lemma elected_fields r c :
  node_id (tick_elected r c).1 = node_id c /\ lease_ttl (tick_elected r c).1 = lease_ttl c /\
  current_role (tick_elected r c).1 = current_role c /\ role (c_shared (tick_elected r c).1) = role (c_shared c) /\
  epoch (c_shared (tick_elected r c).1) = match r with Ok l => l_epoch l | Err _ => epoch (c_shared c) end.
Proof using. unfold tick_elected, elect_once. destruct r; cbn; [case_bool_decide|]; by split_and!. Qed.
Lemma learn_other n r b m : m <> n -> learn n r b !! m = b !! m.
Proof using. intros Hne. unfold learn. destruct r as [l|]; [|done]. destruct (String.eqb _ _); [by rewrite lookup_insert_ne|done]. Qed.
Lemma learn_own n l b : l_holder l = n -> learn n (Ok l) b !! n = Some l.
Proof using. intros <-. unfold learn. by rewrite String.eqb_refl, lookup_insert_eq. Qed.
Lemma learn_foreign n l b : l_holder l <> n -> learn n (Ok l) b = b.
Proof using. intros Hne. unfold learn. by rewrite (proj2 (String.eqb_neq _ _)). Qed.

Lemma answer_member cl n c r :
  cluster_ok cl -> nodes cl !! n = Some (mk_member c (Answered r)) ->
  let mb := mk_member (tick_elected r c).1 (match (tick_elected r c).2 with Some want => Switching want | None => Idle end) in
  forall cl', clock cl' = clock cl -> beliefs cl' = learn n r (beliefs cl) -> member_ok cl' n mb.
Proof using.
  intros Hok Hn mb cl' Ht Hb. destruct (ck_member _ Hok n _ Hn) as (Hi & Hr & Hp).
  destruct (elected_fields r c) as (F1 & _ & F3 & F4 & F5). subst mb. unfold member_ok, shows, outlived. cbn [member phase] in *.
  rewrite F1, F3, F4, F5, Hb, Ht. split; [done|]. split; [done|]. destruct r as [l|e]; [|exact Hp]. destruct Hp as [Hp1 Hp2].
  unfold tick_elected, elect_once. cbn -[learn]. destruct (String.eqb_spec (l_holder l) (node_id c)) as [Heq|Hne]; rewrite Hi in *.
  - pose proof (learn_own n l (beliefs cl) Heq) as Hl. case_bool_decide as Hw; cbn -[learn]; [|split; [by intros H; rewrite H in Hw|]]; eauto.
  - rewrite learn_foreign by done. case_bool_decide as Hw; cbn; [by rewrite <- Hw|]. intros Hprim.
    destruct (Hp1 Hprim) as (l1 & Hl1 & _). exists l1. split; [done|]. by apply Hp2.
Qed.
Lemma answer_ok cl n c r :
  cluster_ok cl -> nodes cl !! n = Some (mk_member c (Answered r)) ->
  cluster_ok (mk_cluster (clock cl) (cstore cl)
    (<[n := mk_member (tick_elected r c).1 (match (tick_elected r c).2 with Some want => Switching want | None => Idle end)]> (nodes cl))
    (learn n r (beliefs cl))).
Proof using.
  intros Hok Hn. destruct (elected_fields r c) as (_ & F2 & _).
  apply (granted_keep cl); [done|cbn; lia|apply Hok|done| | |].
  - cbn [nodes]. intros m mb Hm _. destruct (decide (m = n)) as [->|Hne]; [|rewrite lookup_insert_ne by done; eauto].
    rewrite lookup_insert_eq. rewrite Hn in Hm. injection Hm as <-. by eexists.
  - intros m l [Hl|(x & Hx & Hh)]; cbn [nodes beliefs] in *; unfold granted.
    + destruct (decide (m = n)) as [->|Hne]; [|rewrite learn_other in Hl by done; by left].
      destruct r as [l0|e]; [|by left]. destruct (decide (l_holder l0 = n)) as [Heq|Hne]; [|rewrite learn_foreign in Hl by done; by left].
      rewrite learn_own in Hl by done. injection Hl as <-. right. eauto.
    + apply lookup_insert_Some in Hx as [[_ Hx]|[_ Hx]]; [|right; eauto]. by destruct (tick_elected r c).2.
  - eapply others_keep; [apply Hok|done|cbn; intros m Hm; by apply learn_other|done|]. by apply (answer_member cl).
Qed.

(** A step of one node that touches neither the store nor what was granted. *)
Lemma quiet_ok cl n mb mb' :
  cluster_ok cl -> nodes cl !! n = Some mb -> lease_ttl (member mb') = lease_ttl (member mb) ->
  (forall l, phase mb' <> Answered (Ok l)) ->
  (forall cl', clock cl' = clock cl -> beliefs cl' = beliefs cl -> member_ok cl' n mb') ->
  cluster_ok (mk_cluster (clock cl) (cstore cl) (<[n := mb']> (nodes cl)) (beliefs cl)).
Proof using.
  intros Hok Hn Httl Hph Hmb. apply (granted_keep cl); [done|cbn; lia|apply Hok|done| | |].
  - cbn [nodes]. intros m x Hm _. destruct (decide (m = n)) as [->|Hne]; [|rewrite lookup_insert_ne by done; eauto].
    rewrite lookup_insert_eq. rewrite Hn in Hm. injection Hm as <-. by eexists.
  - intros m l [Hl|(x & Hx & Hh)]; [by left|right]. cbn in Hx. apply lookup_insert_Some in Hx as [[_ Hx]|[_ Hx]]; [|eauto].
    subst mb'. by elim (Hph l).
  - eapply others_keep; [apply Hok|done|done|done|]. by apply Hmb.
Qed.

(** The role changes: the epoch shown does not. *)
Lemma switch_fields want io io2 c :
  let c' := tick_switch want io io2 c in
  node_id c' = node_id c /\ lease_ttl c' = lease_ttl c /\ epoch (c_shared c') = epoch (c_shared c) /\
  role (c_shared c') = current_role c' /\ (current_role c' = want \/ current_role c' = Standby).
Proof using.
  unfold tick_switch. pose proof (set_journal_fields want io c) as Hf.
  destruct (set_store_journal_for want io c) as [c1 [u|e]]; cbv zeta in Hf; cbn [fst] in Hf; destruct Hf as (H1 & H2 & _ & H4 & _); cbn.
  - rewrite H1, H2, H4. split_and!; [done..|by left].
  - destruct (set_journal_fields Standby io2 c1) as (K1 & K2 & _ & K4 & _). rewrite K1, K2, K4, H1, H2, H4. split_and!; [done..|by right].
Qed.
Lemma switch_ok cl n c want io io2 :
  cluster_ok cl -> nodes cl !! n = Some (mk_member c (Switching want)) ->
  cluster_ok (mk_cluster (clock cl) (cstore cl) (<[n := mk_member (tick_switch want io io2 c) Idle]> (nodes cl)) (beliefs cl)).
Proof using.
  intros Hok Hn. destruct (switch_fields want io io2 c) as (F1 & F2 & F3 & F4 & F5). apply (quiet_ok cl n _ _ Hok Hn); [done|done|].
  intros cl' Ht Hb. destruct (ck_member _ Hok n _ Hn) as (Hi & Hr & Hp). unfold member_ok, shows. cbn [member phase] in *.
  rewrite F1, F3, F4, Hb. split; [done|]. split; [done|]. intros Hprim. rewrite Hprim in F5. destruct F5 as [<-|[=]]. apply Hp.
Qed.
Lemma stop_ok cl n c :
  cluster_ok cl -> nodes cl !! n = Some (mk_member c Idle) ->
  cluster_ok (mk_cluster (clock cl) (cstore cl) (<[n := mk_member (stop_auto c).1 (Stopping (stop_auto c).2)]> (nodes cl)) (beliefs cl)).
Proof using.
  intros Hok Hn. apply (quiet_ok cl n _ _ Hok Hn); [done|done|]. intros cl' Ht Hb.
  destruct (ck_member _ Hok n _ Hn) as (Hi & Hr & Hp). unfold member_ok, shows in *. cbn [member phase] in *. by rewrite Hb.
Qed.

(** A node leaves, with or without giving its lease back. *)
Lemma leave_ok cl n s :
  cluster_ok cl -> store_ok s -> (view s = view (cstore cl) \/ release_step n (view (cstore cl)) (view s)) ->
  cluster_ok (mk_cluster (clock cl) s (delete n (nodes cl)) (delete n (beliefs cl))).
Proof using.
  intros Hok Hst Hview. set (cl' := mk_cluster _ _ _ _).
  assert (Hsub : forall m l, granted cl' m l -> m <> n /\ granted cl m l).
  { intros m l [Hl|(x & Hx & Hh)]; cbn in *; [apply lookup_delete_Some in Hl as [? ?]|apply lookup_delete_Some in Hx as [? ?]];
      (split; [done|unfold granted; eauto]). }
  split; [done| | |].
  - intros m l [Hne Hl]%Hsub. pose proof (ck_granted _ Hok m l Hl) as Hb. destruct (bo_node _ _ _ Hb) as (mb & Hm & _).
    assert (Hm' : nodes cl' !! m = Some mb) by (cbn; by rewrite lookup_delete_ne).
    destruct Hview as [Hv|Hr]; [eapply (belief_move cl); try done; cbn; lia|by eapply (belief_release cl)].
  - intros m k l1 l2 Hmk [_ H1]%Hsub [_ H2]%Hsub. by apply (ck_distinct _ Hok m k).
  - intros m mb Hm. cbn in Hm. apply lookup_delete_Some in Hm as [Hne Hm]. apply (member_keep cl); [by apply Hok|cbn; by rewrite lookup_delete_ne|cbn; lia].
Qed.

Lemma cluster_step_ok cl cl' : cluster_step cl cl' -> cluster_ok cl -> cluster_ok cl'.
Proof using LL Hskew.
  intros Hs Hok. destruct Hs as [cl c io Hn|cl n c now s r Hn Hclock Ha|cl n c r Hn|cl n c want io io2 Hn|cl n c Hn|cl n c b Hn|cl n|cl now Hclock].
  - by apply start_node_ok.
  - by eapply ask_ok.
  - by apply answer_ok.
  - by apply (switch_ok cl n c want).
  - by apply stop_ok.
  - destruct b; (apply leave_ok; [done| |]); [apply release_keeps, Hok| |apply Hok|by left].
    apply (release_law n (cstore cl) (ck_store _ Hok)).
  - apply leave_ok; [done|apply Hok|by left].
  - apply (granted_keep cl); [done|done|apply Hok|done|by intros n mb Hmb _; exists mb|done|].
    intros n mb Hmb. apply (member_keep cl); [by apply Hok|done|done].
Qed.

Lemma reachable_ok t s cl : store_ok s -> reachable t s cl -> cluster_ok cl.
Proof using LL Hskew.
  intros Hs Hr. assert (H0 : cluster_ok (cluster_start t s)).
  { assert (Hno : forall n l, ~ granted (cluster_start t s) n l) by by intros n l [?|(x & ? & _)].
    split; [done|by intros n l ?%Hno|by intros n m l1 l2 _ ?%Hno|done]. }
  revert H0. unfold reachable in Hr. induction Hr as [|x y z Hxy _ IH]; [done|]. intros Hx. by eapply IH, cluster_step_ok.
Qed.

(** What a primary shows. *)
Lemma member_primary cl n mb :
  member_ok cl n mb -> role (c_shared (member mb)) = Primary ->
  exists l, beliefs cl !! n = Some l /\
    (epoch (c_shared (member mb)) = l_epoch l \/
     phase mb = Switching Standby /\ (l_epoch l < epoch (c_shared (member mb)))%N /\ outlived cl l).
Proof using.
  intros (_ & Hr & Hp) Hprim. rewrite Hr in Hprim. unfold shows in Hp. destruct (phase mb) as [|[l|e]|[]|b]; try done.
  all: try (destruct (Hp Hprim) as (l' & H); exists l'; intuition; fail).
  - destruct (proj1 Hp Hprim) as (l' & H). exists l'. intuition.
  - by destruct (proj1 Hp Hprim).
Qed.

End Cluster.

(** ** Concrete runs *)

Module Concrete.
Example parse_modes :
  mode_parse " Auto " = Ok ModeAuto /\ mode_parse "OFF" = Ok ModeDisabled /\ mode_parse "Leader" = Err (BadRole "leader") /\
  resolve_mode None None (Some "nats://x") = Ok ModeAuto /\ resolve_mode (Some "") None None = Err (BadRole "").
Proof. by vm_compute. Qed.
Example start_gate :
  spawn ModeAuto (Some (Ok "wal", Ok 4096%N)) false (Ok tt) = Err (Misconfigured "journal_mode") /\
  spawn ModePrimary None false (Ok tt) = Err (Misconfigured "role needs a cross-node transport") /\
  spawn ModeAuto (Some (Ok "delete", Ok 4096%N)) false (Ok tt) = Ok InProcess.
Proof. by vm_compute. Qed.

(** A renews, lets its lease lapse, and B takes it. *)
Definition story : list Grant := [mk_grant "a" 0 1 10; mk_grant "a" 6 1 16; mk_grant "b" 20 2 30].
Lemma story_history : lease_history story (mk_view 2 (Some ("b", 30%Z))).
Proof.
  assert (H1 : lease_history [mk_grant "a" 0 1 10] (mk_view 1 (Some ("a", 10%Z)))).
  { refine (history_acquire [] no_lease (mk_view (0 + 1) (Some ("a", 10%Z))) "a" 0 10 _ _); [constructor|by constructor]. }
  assert (H2 : lease_history [mk_grant "a" 0 1 10; mk_grant "a" 6 1 16] (mk_view 1 (Some ("a", 16%Z)))).
  { refine (history_acquire [_] _ (mk_view 1 (Some ("a", 16%Z))) "a" 6 16 H1 _). by constructor. }
  refine (history_acquire [_; _] _ (mk_view (1 + 1) (Some ("b", 30%Z))) "b" 20 30 H2 _). by constructor.
Qed.
Lemma lease_fencing_witness :
  let a := mk_grant "a" 6 1 16 in let b := mk_grant "b" 20 2 30 in
  story !! 1%nat = Some a /\ story !! 2%nat = Some b /\ (g_epoch a < g_epoch b)%N.
Proof.
  split; [done|]. split; [done|].
  exact (proj1 (proj2 (lease_fencing story _ 1 2 (mk_grant "a" 6 1 16) (mk_grant "b" 20 2 30) story_history
    ltac:(lia) eq_refl eq_refl)) ltac:(done)).
Defined.

(** A bucket that keeps the record itself, with its revision. *)
Instance keep_lease : Serde Lease Lease := { to_vec := Some; from_slice := Some }.
Instance bucket : KeyValue (option (Lease * N)) Lease := {
  kv_entry k := Ok k;
  kv_create v k := match k with None => (Some (v, 1%N), Written) | Some _ => (k, Conflict) end;
  kv_update v rev k := match k with
    | Some (_, r) => if (r =? rev)%N then (Some (v, (r + 1)%N), Written) else (k, Conflict)
    | None => (k, Conflict)
    end;
  kv_view k := k
}.
#[export] Instance bucket_laws : KeyValueLaws (option (Lease * N)) Lease.
Proof.
  split.
  - by intros k e [= <-].
  - intros v [[w r]|] k' x [= <- <-]; cbn; [by split|]. split; [done|]. by exists 1%N.
  - intros v rev [[w r]|] k' x; cbn.
    + destruct (N.eqb_spec r rev) as [->|Hne]; intros [= <- <-]; cbn; [exists w, (rev + 1)%N; split_and!; [done|done|lia]|].
      split; [done|]. intros (w' & [= _ ?]). done.
    + intros [= <- <-]. split; [done|]. by intros (w' & ?).
Qed.
Lemma keep_codec (l : Lease) : serde_roundtrips (Bytes := Lease) l.
Proof. by intros b [= <-]. Qed.

(** Both nodes look at the empty bucket; both write; one wins. *)
Notation plan_a := (acquire_read (K := option (Lease * N)) (V := Lease) "a" 10 0 None).
Notation plan_b := (acquire_read (K := option (Lease * N)) (V := Lease) "b" 10 1 None).
Lemma nats_refines_witness :
  let ps := [Acquiring "b" 1 11 plan_b; Acquiring "a" 0 10 plan_a] in
  let k := (plan_write plan_a (None : option (Lease * N))).1 in
  lease_history [mk_grant "a" 0 1 10] (lease_view k) /\ (plan_write plan_b k).2 = None /\ lost_race 1 k = Ok (mk_lease "a" 1 10).
Proof.
  assert (H0 : bucket_run (K := option (Lease * N)) (V := Lease) None [Acquiring "b" 1 11 plan_b; Acquiring "a" 0 10 plan_a] []).
  { apply (run_read _ _ _ "b" 10 1), (run_read _ _ _ "a" 10 0). by constructor. }
  pose proof (nats_refines keep_codec _ _ _ H0) as [_ Hw].
  destruct (Hw "a" 0%Z 10%Z plan_a (Some (mk_lease "a" 1 10, 1%N)) (mk_lease "a" 1 10)) as [Hno|(_ & _ & _ & H1)];
    [right; by left|done|done|].
  split; [exact (proj1 (nats_refines keep_codec _ _ _ H1))|]. by split.
Defined.

Definition io_good (r : Role) : JournalIo :=
  match r with Primary => mk_journal_io (Ok "wal") "wal" | _ => mk_journal_io (Ok "delete") "delete" end.
Definition io_bad (r : Role) : JournalIo := mk_journal_io (Err "database is locked") "wal".
Lemma io_good_honest : honest io_good.
Proof. by intros [] m [= <-]. Qed.
Lemma io_bad_honest : honest io_bad.
Proof. by intros r m [=]. Qed.
Definition node (id : string) : Coordinator :=
  mk_coordinator id 10 true (shared_enabled Standby) "delete" None Standby.
Definition rounds : list Round :=
  [mk_round (Ok (mk_lease "a" 1 10)) io_good io_good; mk_round (Err (TransportFailed "reading lease entry")) io_good io_good].

(** An election that fails leaves the node primary. *)
Lemma coordinator_roles_witness :
  let c := run_rounds rounds (start_auto io_good (node "a")) in
  current_role c = Primary /\ ensure_writable (c_shared c) = Ok tt /\ journal c = "wal".
Proof.
  assert (Hio : Forall (fun r => honest (io1 r) /\ honest (io2 r)) rounds).
  { repeat (constructor; [split; exact io_good_honest|]). constructor. }
  destruct (coordinator_roles rounds io_good (node "a") Hio) as (_ & _ & _ & Hw & Hp & _).
  assert (Hr : current_role (run_rounds rounds (start_auto io_good (node "a"))) = Primary) by by vm_compute.
  exact (conj Hr (conj (proj2 Hw Hr) (proj1 (Hp Hr) eq_refl))).
Defined.

(** A's lease ended at 10; at 20 B has taken it.  A's own request has been
    answered since, and it is stepping down. *)
Definition a_leads : Coordinator := tick_switch Primary io_good io_good (tick_elected (Ok (mk_lease "a" 1 10)) (start_auto io_good (node "a"))).1.
Definition b_leads : Coordinator := tick_switch Primary io_good io_good (tick_elected (Ok (mk_lease "b" 2 30)) (start_auto io_good (node "b"))).1.
Definition a_leaving : Member := mk_member (tick_elected (Ok (mk_lease "b" 2 30)) a_leads).1 (Switching Standby).
Definition cluster_end : Cluster (S := InMemoryLeaseStore) :=
  mk_cluster 20 (mk_inner (Some (mk_lease "b" 2 30)) 2) {["a" := a_leaving; "b" := mk_member b_leads Idle]}
    {["a" := mk_lease "a" 1 10; "b" := mk_lease "b" 2 30]}.
Lemma cluster_end_reachable : reachable 0 0 new_lease_store cluster_end.
Proof.
  unfold reachable, cluster_start.
  eapply rtc_l; [apply (step_start 0 _ (node "a") io_good); by vm_compute|].
  eapply rtc_l; [eapply (step_ask 0 _ "a" _ 0); [by vm_compute|by vm_compute|by vm_compute]|].
  eapply rtc_l; [eapply (step_answer 0 _ "a"); by vm_compute|].
  eapply rtc_l; [eapply (step_switch 0 _ "a" _ Primary io_good io_good); by vm_compute|].
  eapply rtc_l; [apply (step_start 0 _ (node "b") io_good); by vm_compute|].
  eapply rtc_l; [apply (step_time 0 _ 20); by vm_compute|].
  eapply rtc_l; [eapply (step_ask 0 _ "b" _ 20); [by vm_compute|by vm_compute|by vm_compute]|].
  eapply rtc_l; [eapply (step_answer 0 _ "b"); by vm_compute|].
  eapply rtc_l; [eapply (step_switch 0 _ "b" _ Primary io_good io_good); by vm_compute|].
  eapply rtc_l; [eapply (step_ask 0 _ "a" _ 20); [by vm_compute|by vm_compute|by vm_compute]|].
  eapply rtc_l; [eapply (step_answer 0 _ "a"); by vm_compute|].
  apply rtc_refl.
Qed.
(** The node that is stepping down is primary and shows its successor's epoch:
    two primaries with one epoch. *)
Example two_primaries_one_epoch :
  role (c_shared (member a_leaving)) = Primary /\ role (c_shared b_leads) = Primary /\
  epoch (c_shared (member a_leaving)) = 2%N /\ epoch (c_shared b_leads) = 2%N.
Proof. by vm_compute. Qed.

(** At startup a switch that fails is only logged: the standby's task runs
    although the connection is in WAL mode. *)
Example standby_over_wal :
  let c := start_auto io_bad (node "a") in task c = Some Standby /\ journal c = "wal".
Proof. by vm_compute. Qed.

(** A demotion whose switch fails, and fails again when forced, is not made up
    for: the role is already standby in every later round. *)
Example demotion_not_retried :
  let c := run_rounds [mk_round (Ok (mk_lease "a" 1 10)) io_good io_good; mk_round (Ok (mk_lease "b" 2 30)) io_bad io_bad;
                       mk_round (Ok (mk_lease "b" 2 40)) io_good io_good] (start_auto io_good (node "a")) in
  current_role c = Standby /\ journal c = "wal".
Proof. by vm_compute. Qed.
End Concrete.
