(* ===== verification/SynthesisWindow.v ===== *)
(** * Synthesis windows ([synthesis_pipeline/src/window.rs])

    The windows of server-side synthesis: each covers an interval of a scope and
    walks through [Pending], [InProgress], [Complete] and [Failed].  The manager
    keeps them in a table by identifier and in a list per scope; the theorems say
    that the two agree, which moves a window can make, and that every operation is
    one on the lists alone. *)

From S2P Require Import Prelude.

(** ** Data *)

Inductive WindowStatus : Type := Pending | InProgress | Complete | Failed.
Inductive WindowScopeTier : Type := Channel | Domain | Tenant.
Inductive SynthesisObjectType : Type := EpisodicSummary | ChannelRecap | DomainSummary | TenantSummary.
#[export] Instance WindowStatus_eq_dec : EqDecision WindowStatus. Proof. solve_decision. Defined.
#[export] Instance WindowScopeTier_eq_dec : EqDecision WindowScopeTier. Proof. solve_decision. Defined.
#[export] Instance SynthesisObjectType_eq_dec : EqDecision SynthesisObjectType. Proof. solve_decision. Defined.

(** [WindowStatus::as_str], [is_terminal]; [WindowScopeTier::as_str];
    [SynthesisObjectType::as_str]. *)
Definition status_str (s : WindowStatus) : string :=
  match s with Pending => "pending" | InProgress => "in_progress" | Complete => "complete" | Failed => "failed" end.
Definition is_terminal (s : WindowStatus) : bool := match s with Complete => true | _ => false end.
Definition tier_str (t : WindowScopeTier) : string :=
  match t with Channel => "channel" | Domain => "domain" | Tenant => "tenant" end.
Definition object_type_str (t : SynthesisObjectType) : string :=
  match t with
  | EpisodicSummary => "episodic_summary" | ChannelRecap => "channel_recap"
  | DomainSummary => "domain_summary" | TenantSummary => "tenant_summary"
  end.

(** The messages of [PipelineError::HierarchyViolation], with what they print. *)
Inductive Violation : Type :=
| ExpectedObject (expected got : SynthesisObjectType)
| ChannelNotRegistered (channel domain : uuid)
| RawChannelMemory
| DomainNotRegistered (domain tenant : uuid)
| DocumentNotAdmitted (document tenant : uuid)
| ChannelObjectAtTenant (got : SynthesisObjectType)
| WrongTier (tier : WindowScopeTier)
| WrongTarget (input window : uuid)
| WrongOwner (window owner claimed : uuid).
(** [PipelineError], as far as these modules raise it. *)
Inductive PipelineError : Type :=
| InvalidWindow
| InvalidWindowTransition
| WindowNotFound (id : uuid)
| HierarchyViolation (v : Violation).

(** [struct SynthesisWindow], [struct SynthesisWindowManager]. *)
Record SynthesisWindow : Type := mk_window {
  w_id : uuid;
  w_scope_id : uuid;
  window_start : instant;
  window_end : instant;
  w_status : WindowStatus;
  w_tier : option WindowScopeTier;
  w_created_at : option instant
}.
Record SynthesisWindowManager : Type := mk_manager {
  windows : gmap uuid SynthesisWindow;
  by_scope : gmap uuid (list uuid)
}.
#[export] Instance SynthesisWindow_eq_dec : EqDecision SynthesisWindow. Proof. solve_decision. Defined.
#[export] Instance SynthesisWindowManager_eq_dec : EqDecision SynthesisWindowManager. Proof. solve_decision. Defined.

Definition with_status (s : WindowStatus) (w : SynthesisWindow) : SynthesisWindow :=
  mk_window (w_id w) (w_scope_id w) (window_start w) (window_end w) s (w_tier w) (w_created_at w).
Definition with_tier (t : WindowScopeTier) (w : SynthesisWindow) : SynthesisWindow :=
  mk_window (w_id w) (w_scope_id w) (window_start w) (window_end w) (w_status w) (Some t) (w_created_at w).

(** [SynthesisWindow::new], [rolling], [duration]; [fresh] is the random identifier
    and [wall] the clock. *)
Definition new_window (fresh : uuid) (wall : instant) (scope : uuid) (start stop : instant) :
    result SynthesisWindow PipelineError :=
  if (stop <=? start)%Z then Err InvalidWindow
  else Ok (mk_window fresh scope start stop Pending None (Some wall)).
Definition rolling (fresh : uuid) (wall : instant) (scope : uuid) (now : instant) (len : duration) :
    result SynthesisWindow PipelineError := new_window fresh wall scope (now - len)%Z now.
Definition window_duration (w : SynthesisWindow) : duration := (window_end w - window_start w)%Z.

(** ** The manager *)

Section Manager.
Context {HO : HashOrder}.
Implicit Types (m : SynthesisWindowManager).

(** [new], [len], [is_empty], [get], [windows_for], [tracked_scopes]. *)
Definition empty_manager : SynthesisWindowManager := mk_manager ∅ ∅.
Definition len m : nat := size (windows m).
Definition is_empty m : bool := bool_decide (windows m = ∅).
Definition get (i : uuid) m : option SynthesisWindow := windows m !! i.
(** [get_mut], with what the caller does to the window. *)
Definition get_mut (i : uuid) (change : SynthesisWindow -> SynthesisWindow) m : SynthesisWindowManager :=
  mk_manager (alter change i (windows m)) (by_scope m).
Definition windows_for (scope : uuid) m : list SynthesisWindow :=
  match by_scope m !! scope with
  | None => []
  | Some ids => omap (fun i => windows m !! i) ids
  end.
Definition tracked_scopes m : list uuid := hash_order (map_to_list (by_scope m)).*1.

(** [open_window]: [by_scope.entry(scope).or_default().push(id)]. *)
Definition open_window (fresh : uuid) (wall : instant) (scope : uuid) (start stop : instant) :
    eff SynthesisWindowManager PipelineError uuid := fun m =>
  match new_window fresh wall scope start stop with
  | Err e => (m, Err e)
  | Ok w =>
      (mk_manager (<[w_id w := w]> (windows m))
         (<[scope := default [] (by_scope m !! scope) ++ [w_id w]]> (by_scope m)), Ok (w_id w))
  end.

(** [find_mut] and a mutation of what it finds. *)
Definition put (w : SynthesisWindow) (i : uuid) m : SynthesisWindowManager :=
  mk_manager (<[i := w]> (windows m)) (by_scope m).
Definition set_tier (i : uuid) (t : WindowScopeTier) : eff SynthesisWindowManager PipelineError unit := fun m =>
  match windows m !! i with
  | None => (m, Err (WindowNotFound i))
  | Some w => (put (with_tier t w) i m, Ok tt)
  end.
Definition mark_in_progress (i : uuid) : eff SynthesisWindowManager PipelineError unit := fun m =>
  match windows m !! i with
  | None => (m, Err (WindowNotFound i))
  | Some w =>
      match w_status w with
      | Pending | Failed => (put (with_status InProgress w) i m, Ok tt)
      | _ => (m, Err InvalidWindowTransition)
      end
  end.
Definition mark_complete (i : uuid) : eff SynthesisWindowManager PipelineError unit := fun m =>
  match windows m !! i with
  | None => (m, Err (WindowNotFound i))
  | Some w =>
      match w_status w with
      | InProgress => (put (with_status Complete w) i m, Ok tt)
      | _ => (m, Err InvalidWindowTransition)
      end
  end.
Definition mark_failed (i : uuid) : eff SynthesisWindowManager PipelineError unit := fun m =>
  match windows m !! i with
  | None => (m, Err (WindowNotFound i))
  | Some w =>
      match w_status w with
      | InProgress => (put (with_status Failed w) i m, Ok tt)
      | _ => (m, Err InvalidWindowTransition)
      end
  end.
Definition mark_replay_pending (i : uuid) : eff SynthesisWindowManager PipelineError unit := fun m =>
  match windows m !! i with
  | None => (m, Err (WindowNotFound i))
  | Some w =>
      match w_status w with
      | Complete => (put (with_status Pending w) i m, Ok tt)
      | _ => (m, Err InvalidWindowTransition)
      end
  end.

(** [sweep_stuck_pending]: the test of its loop, and the loop. *)
Definition stuck (now : instant) (threshold : duration) (w : SynthesisWindow) : bool :=
  match w_status w, w_created_at w with
  | Pending, Some created => (threshold <? now - created)%Z
  | _, _ => false
  end.
Definition swept (now : instant) (threshold : duration) (w : SynthesisWindow) : SynthesisWindow :=
  if stuck now threshold w then with_status Failed w else w.
Definition sweep_stuck_pending (now : instant) (threshold : duration) m : SynthesisWindowManager * list uuid :=
  (mk_manager (swept now threshold <$> windows m) (by_scope m),
   w_id <$> List.filter (stuck now threshold) (hash_order (map_to_list (windows m)).*2)).

(** [remove_windows_for_scope], [remove_windows]. *)
Definition remove_windows_for_scope (scope : uuid) m : SynthesisWindowManager :=
  match by_scope m !! scope with
  | None => m
  | Some ids => mk_manager (foldl (fun ws i => delete i ws) (windows m) ids) (delete scope (by_scope m))
  end.
Definition retained (removed : gset uuid) (ids : list uuid) : list uuid :=
  base.filter (fun i => i ∉ removed) ids.
Definition remove_windows (scope : uuid) (window_ids : list uuid) m : SynthesisWindowManager :=
  let removed : gset uuid := list_to_set window_ids in
  if bool_decide (removed = ∅) then m else
  let scopes :=
    match by_scope m !! scope with
    | None => by_scope m
    | Some ids =>
        match retained removed ids with
        | [] => delete scope (by_scope m)
        | ids' => <[scope := ids']> (by_scope m)
        end
    end in
  mk_manager (foldl (fun ws i => delete i ws) (windows m) (hash_order (elements removed))) scopes.

(** [open_tiered_window]: the handle of a window opened with its tier.  [set_tier]
    cannot fail there; an error would only trip a debug assertion. *)
Record TieredWindowHandle : Type := mk_handle { h_window_id : uuid; h_scope_id : uuid; h_tier : WindowScopeTier }.
Definition open_tiered_window (fresh : uuid) (wall : instant) (scope : uuid) (tier : WindowScopeTier)
    (start stop : instant) : eff SynthesisWindowManager PipelineError TieredWindowHandle :=
  do? i := open_window fresh wall scope start stop in
  fun m => ((set_tier i tier m).1, Ok (mk_handle i scope tier)).
End Manager.

(** ** Calls on the manager *)

Inductive call : Type :=
| OpenWindow (fresh : uuid) (wall : instant) (scope : uuid) (start stop : instant)
| OpenTiered (fresh : uuid) (wall : instant) (scope : uuid) (tier : WindowScopeTier) (start stop : instant)
| SetTier (i : uuid) (t : WindowScopeTier)
| MarkInProgress (i : uuid)
| MarkComplete (i : uuid)
| MarkFailed (i : uuid)
| MarkReplayPending (i : uuid)
| SweepStuck (now : instant) (threshold : duration)
| RemoveScope (scope : uuid)
| RemoveWindows (scope : uuid) (ids : list uuid).

Definition run_call `{HashOrder} (m : SynthesisWindowManager) (k : call) : SynthesisWindowManager :=
  match k with
  | OpenWindow f wall s a b => (open_window f wall s a b m).1
  | OpenTiered f wall s t a b => (open_tiered_window f wall s t a b m).1
  | SetTier i t => (set_tier i t m).1
  | MarkInProgress i => (mark_in_progress i m).1
  | MarkComplete i => (mark_complete i m).1
  | MarkFailed i => (mark_failed i m).1
  | MarkReplayPending i => (mark_replay_pending i m).1
  | SweepStuck now th => (sweep_stuck_pending now th m).1
  | RemoveScope s => remove_windows_for_scope s m
  | RemoveWindows s ids => remove_windows s ids m
  end.

(** What the callers grant: identifiers are fresh, and the windows removed from a
    scope are its own. *)
Definition granted (m : SynthesisWindowManager) (k : call) : Prop :=
  match k with
  | OpenWindow f _ _ _ _ | OpenTiered f _ _ _ _ _ => windows m !! f = None
  | RemoveWindows s ids => forall i w, i ∈ ids -> windows m !! i = Some w -> w_scope_id w = s
  | _ => True
  end.

(** The table and the lists agree. *)
Record wf (m : SynthesisWindowManager) : Prop := mk_wf {
  wf_listed : forall s ids, by_scope m !! s = Some ids ->
    ids <> [] /\ NoDup ids /\ forall i, i ∈ ids -> exists w, windows m !! i = Some w /\ w_scope_id w = s;
  wf_tracked : forall i w, windows m !! i = Some w ->
    w_id w = i /\ (window_start w < window_end w)%Z /\
    exists ids, by_scope m !! w_scope_id w = Some ids /\ i ∈ ids
}.

(** ** The manager as lists of windows *)

(** A window that is where [from] allows goes to [to]; the others stay. *)
Definition advance (i : uuid) (from : WindowStatus -> bool) (to : WindowStatus) (w : SynthesisWindow) : SynthesisWindow :=
  if (w_id w =? i)%N && from (w_status w) then with_status to w else w.
Definition claimable (s : WindowStatus) : bool := match s with Pending | Failed => true | _ => false end.
Definition is_status (s s' : WindowStatus) : bool := bool_decide (s' = s).

Definition spec_call (k : call) (v : uuid -> list SynthesisWindow) (s : uuid) : list SynthesisWindow :=
  match k with
  | OpenWindow f wall sc a b =>
      if (s =? sc)%N && (a <? b)%Z then v s ++ [mk_window f sc a b Pending None (Some wall)] else v s
  | OpenTiered f wall sc t a b =>
      if (s =? sc)%N && (a <? b)%Z then v s ++ [mk_window f sc a b Pending (Some t) (Some wall)] else v s
  | SetTier i t => (fun w => if (w_id w =? i)%N then with_tier t w else w) <$> v s
  | MarkInProgress i => advance i claimable InProgress <$> v s
  | MarkComplete i => advance i (is_status InProgress) Complete <$> v s
  | MarkFailed i => advance i (is_status InProgress) Failed <$> v s
  | MarkReplayPending i => advance i (is_status Complete) Pending <$> v s
  | SweepStuck now th => swept now th <$> v s
  | RemoveScope sc => if (s =? sc)%N then [] else v s
  | RemoveWindows sc ids => if (s =? sc)%N then base.filter (fun w => w_id w ∉ ids) (v s) else v s
  end.

(** The moves of a window, each with the call that makes it. *)
Inductive edge (i : uuid) : call -> WindowStatus -> WindowStatus -> Prop :=
| edge_claim : edge i (MarkInProgress i) Pending InProgress
| edge_retry : edge i (MarkInProgress i) Failed InProgress
| edge_complete : edge i (MarkComplete i) InProgress Complete
| edge_fail : edge i (MarkFailed i) InProgress Failed
| edge_replay : edge i (MarkReplayPending i) Complete Pending
| edge_sweep now threshold : edge i (SweepStuck now threshold) Pending Failed.
#[export] Hint Constructors edge : core.

Section Facts.
Context {HO : HashOrder}.
Implicit Types (m : SynthesisWindowManager) (w : SynthesisWindow).

Lemma lookup_foldl_delete {A} (ids : list uuid) (t : gmap uuid A) j :
  foldl (fun t i => delete i t) t ids !! j = if bool_decide (j ∈ ids) then None else t !! j.
Proof.
  revert t. induction ids as [|i ids IH]; intros t; cbn [foldl]; [by rewrite bool_decide_eq_false_2 by set_solver|].
  rewrite IH. destruct (decide (j = i)) as [->|Hne].
  - rewrite lookup_delete_eq, (bool_decide_eq_true_2 (i ∈ i :: ids)) by set_solver. by case_bool_decide.
  - rewrite lookup_delete_ne by congruence.
    by rewrite (bool_decide_ext (j ∈ i :: ids) (j ∈ ids)) by set_solver.
Qed.

Lemma omap_cons {A B} (f : A -> option B) x (l : list A) :
  omap f (x :: l) = match f x with Some y => y :: omap f l | None => omap f l end.
Proof. done. Qed.

Lemma omap_fmap_ext {A B C} (f : A -> option B) (g : A -> option C) (h : B -> C) (l : list A) :
  (forall x, x ∈ l -> g x = h <$> f x) -> omap g l = h <$> omap f l.
Proof.
  induction l as [|x l IH]; intros Hx; [done|]. rewrite !omap_cons.
  rewrite (Hx x) by set_solver. rewrite IH by (intros; apply Hx; set_solver). by destruct (f x).
Qed.

Lemma elem_of_windows_for m s w : wf m -> w ∈ windows_for s m <-> windows m !! w_id w = Some w /\ w_scope_id w = s.
Proof.
  intros [Hl Ht]. unfold windows_for. split.
  - destruct (by_scope m !! s) as [ids|] eqn:E; [|by intros H%not_elem_of_nil].
    rewrite list_elem_of_omap. intros (i & Hi & Hw). destruct (Hl s ids E) as (_ & _ & Hin).
    destruct (Hin i Hi) as (w' & Hw' & <-). rewrite Hw in Hw'. injection Hw' as <-.
    by destruct (Ht i w Hw) as (-> & _).
  - intros (Hw & <-). destruct (Ht _ _ Hw) as (_ & _ & ids & -> & Hi). apply list_elem_of_omap. eauto.
Qed.

Lemma lookup_windows_for m i w : wf m -> windows m !! i = Some w -> w ∈ windows_for (w_scope_id w) m.
Proof. intros Hwf Hw. apply elem_of_windows_for; [done|]. by destruct (wf_tracked m Hwf i w Hw) as (-> & _). Qed.

Lemma windows_for_ids m s ids : wf m -> by_scope m !! s = Some ids -> w_id <$> windows_for s m = ids.
Proof.
  intros [Hl Ht] E. unfold windows_for. rewrite E. destruct (Hl s ids E) as (_ & _ & Hin). clear E.
  induction ids as [|i ids IH]; [done|]. destruct (Hin i) as (w & Hw & _); [by left|].
  rewrite omap_cons, Hw, fmap_cons, IH by (intros; apply Hin; by right). by destruct (Ht i w Hw) as (-> & _).
Qed.

Lemma NoDup_windows_for m s : wf m -> NoDup (w_id <$> windows_for s m).
Proof.
  intros Hwf. destruct (by_scope m !! s) as [ids|] eqn:E.
  - rewrite (windows_for_ids m s ids) by done. by destruct (wf_listed m Hwf s ids E) as (_ & ? & _).
  - unfold windows_for. rewrite E. constructor.
Qed.
End Facts.

(** *** Updates in place *)

(** A change of windows that keeps what identifies them. *)
Definition in_place (h : SynthesisWindow -> SynthesisWindow) : Prop :=
  forall w, w_id (h w) = w_id w /\ w_scope_id (h w) = w_scope_id w /\
            window_start (h w) = window_start w /\ window_end (h w) = window_end w /\
            w_created_at (h w) = w_created_at w.

Section Updates.
Context {HO : HashOrder}.
Implicit Types (m : SynthesisWindowManager) (w : SynthesisWindow).

Lemma in_place_at (b : SynthesisWindow -> bool) g : in_place g -> in_place (fun w => if b w then g w else w).
Proof. intros Hg w. destruct (b w); [apply Hg|done]. Qed.
Lemma in_place_status s : in_place (with_status s). Proof. done. Qed.
Lemma in_place_tier t : in_place (with_tier t). Proof. done. Qed.
#[local] Hint Resolve in_place_at in_place_status in_place_tier : core.

Lemma update_view m m' h s :
  by_scope m' = by_scope m -> (forall i, windows m' !! i = h <$> windows m !! i) ->
  windows_for s m' = h <$> windows_for s m.
Proof.
  intros Hb Hw. unfold windows_for. rewrite Hb. destruct (by_scope m !! s) as [ids|]; [|done].
  apply omap_fmap_ext. auto.
Qed.

Lemma update_wf m m' h :
  in_place h -> wf m -> by_scope m' = by_scope m -> (forall i, windows m' !! i = h <$> windows m !! i) -> wf m'.
Proof.
  intros Hh [Hl Ht] Hb Hw. split.
  - intros s ids. rewrite Hb. intros E. destruct (Hl s ids E) as (Hne & Hnd & Hin).
    split; [done|]. split; [done|]. intros i Hi. destruct (Hin i Hi) as (w & Hiw & Hs).
    exists (h w). rewrite Hw, Hiw. split; [done|]. by destruct (Hh w) as (_ & -> & _).
  - intros i w'. rewrite Hw, Hb. destruct (windows m !! i) as [w|] eqn:E; [|done]. intros [= <-].
    destruct (Hh w) as (-> & -> & -> & -> & _). by apply Ht.
Qed.

Lemma put_lookup m i w g j :
  wf m -> windows m !! i = Some w ->
  windows (put (g w) i m) !! j = (fun x => if (w_id x =? i)%N then g x else x) <$> windows m !! j.
Proof.
  intros Hwf Hw. cbn [put windows]. destruct (decide (i = j)) as [<-|Hne].
  - rewrite lookup_insert_eq, Hw. cbn. by rewrite (proj1 (wf_tracked m Hwf i w Hw)), N.eqb_refl.
  - rewrite lookup_insert_ne by done. destruct (windows m !! j) as [x|] eqn:E; [|done]. cbn.
    rewrite (proj1 (wf_tracked m Hwf j x E)). by destruct (N.eqb_spec j i) as [->|].
Qed.

Lemma sweep_lookup m now th i :
  windows (sweep_stuck_pending now th m).1 !! i = swept now th <$> windows m !! i.
Proof. cbn. apply lookup_fmap. Qed.
Lemma in_place_swept now th : in_place (swept now th).
Proof. apply (in_place_at (stuck now th)), in_place_status. Qed.

(** A guarded move, as each [mark_*] performs it. *)
Definition moves (op : uuid -> eff SynthesisWindowManager PipelineError unit) (from : WindowStatus -> bool)
    (to : WindowStatus) : Prop :=
  forall m i, op i m =
    match windows m !! i with
    | None => (m, Err (WindowNotFound i))
    | Some w => if from (w_status w) then (put (with_status to w) i m, Ok tt) else (m, Err InvalidWindowTransition)
    end.
Lemma mark_in_progress_moves : moves mark_in_progress claimable InProgress.
Proof. intros m i. unfold mark_in_progress. destruct (windows m !! i) as [w|]; [|done]. by destruct (w_status w). Qed.
Lemma mark_complete_moves : moves mark_complete (is_status InProgress) Complete.
Proof. intros m i. unfold mark_complete. destruct (windows m !! i) as [w|]; [|done]. by destruct (w_status w). Qed.
Lemma mark_failed_moves : moves mark_failed (is_status InProgress) Failed.
Proof. intros m i. unfold mark_failed. destruct (windows m !! i) as [w|]; [|done]. by destruct (w_status w). Qed.
Lemma mark_replay_pending_moves : moves mark_replay_pending (is_status Complete) Pending.
Proof. intros m i. unfold mark_replay_pending. destruct (windows m !! i) as [w|]; [|done]. by destruct (w_status w). Qed.

(** What a guarded move leaves in the table. *)
Lemma moves_lookup op from to m i j :
  moves op from to -> wf m -> windows (op i m).1 !! j = advance i from to <$> windows m !! j.
Proof.
  intros Hop Hwf. rewrite Hop. destruct (windows m !! i) as [w|] eqn:E; cbn [fst].
  2:{ destruct (windows m !! j) as [x|] eqn:Ex; [|done]. cbn. unfold advance.
      rewrite (proj1 (wf_tracked m Hwf j x Ex)). by destruct (N.eqb_spec j i) as [->|]; [congruence|]. }
  assert (Hsame : forall x, windows m !! j = Some x -> (w_id x =? i)%N = true -> x = w).
  { intros x Ex. rewrite (proj1 (wf_tracked m Hwf j x Ex)). intros ->%N.eqb_eq. congruence. }
  destruct (from (w_status w)) eqn:Ef; cbn [fst].
  - rewrite (put_lookup m i w (with_status to)) by done. destruct (windows m !! j) as [x|] eqn:Ex; [|done].
    cbn. unfold advance. destruct (w_id x =? i)%N eqn:Ei; [|done]. by rewrite (Hsame x), Ef.
  - destruct (windows m !! j) as [x|] eqn:Ex; [|done]. cbn. unfold advance.
    destruct (w_id x =? i)%N eqn:Ei; [|done]. by rewrite (Hsame x), Ef.
Qed.
Lemma moves_by_scope op from to m i : moves op from to -> by_scope (op i m).1 = by_scope m.
Proof. intros Hop. rewrite Hop. by repeat case_match. Qed.
Lemma in_place_advance i from to : in_place (advance i from to).
Proof. by apply (in_place_at (fun w => (w_id w =? i)%N && from (w_status w))). Qed.

Lemma moves_wf op from to m i : moves op from to -> wf m -> wf (op i m).1.
Proof.
  intros Hop Hwf. eapply update_wf; [apply (in_place_advance i from to)|done|by eapply moves_by_scope|].
  intros j. by apply moves_lookup.
Qed.
Lemma moves_view op from to m i s :
  moves op from to -> wf m -> windows_for s (op i m).1 = advance i from to <$> windows_for s m.
Proof. intros Hop Hwf. apply update_view; [by eapply moves_by_scope|]. intros j. by apply moves_lookup. Qed.

Lemma set_tier_lookup m i t j :
  wf m -> windows (set_tier i t m).1 !! j = (fun x => if (w_id x =? i)%N then with_tier t x else x) <$> windows m !! j.
Proof.
  intros Hwf. unfold set_tier. destruct (windows m !! i) as [w|] eqn:E; cbn [fst].
  - by apply (put_lookup m i w (with_tier t)).
  - destruct (windows m !! j) as [x|] eqn:Ex; [|done]. cbn.
    rewrite (proj1 (wf_tracked m Hwf j x Ex)). by destruct (N.eqb_spec j i) as [->|]; [congruence|].
Qed.
Lemma set_tier_by_scope m i t : by_scope (set_tier i t m).1 = by_scope m.
Proof. unfold set_tier. by case_match. Qed.
End Updates.
#[export] Hint Resolve in_place_at in_place_status in_place_tier in_place_swept in_place_advance : core.
#[export] Hint Resolve mark_in_progress_moves mark_complete_moves mark_failed_moves mark_replay_pending_moves : core.

(** *** Opening and removing *)

Section Tables.
Context {HO : HashOrder}.
Implicit Types (m : SynthesisWindowManager) (w : SynthesisWindow).

Lemma omap_ext_in {A B} (f g : A -> option B) (l : list A) :
  (forall x, x ∈ l -> f x = g x) -> omap f l = omap g l.
Proof. intros Hx. rewrite (omap_fmap_ext g f id), list_fmap_id; [done|]. intros x Hin. rewrite Hx by done. by destruct (g x). Qed.

Lemma omap_app {A B} (f : A -> option B) (l k : list A) : omap f (l ++ k) = omap f l ++ omap f k.
Proof. induction l as [|x l IH]; [done|]. cbn [app]. rewrite !omap_cons, IH. by destruct (f x). Qed.

(** The table after [open_window] of [w]. *)
Definition opened w m : SynthesisWindowManager :=
  mk_manager (<[w_id w := w]> (windows m))
    (<[w_scope_id w := default [] (by_scope m !! w_scope_id w) ++ [w_id w]]> (by_scope m)).
Lemma open_window_eq f wall s a b m :
  open_window f wall s a b m =
  if (a <? b)%Z then (opened (mk_window f s a b Pending None (Some wall)) m, Ok f) else (m, Err InvalidWindow).
Proof. unfold open_window, new_window. rewrite <- Z.leb_antisym || rewrite Z.leb_antisym. by destruct (a <? b)%Z. Qed.

Lemma opened_wf w m :
  wf m -> windows m !! w_id w = None -> (window_start w < window_end w)%Z -> wf (opened w m).
Proof.
  intros [Hl Ht] Hnone Hlt. split; cbn.
  - intros s ids. destruct (decide (s = w_scope_id w)) as [->|Hne].
    + rewrite lookup_insert_eq. intros [= <-]. split; [by destruct (default _ _)|].
      destruct (by_scope m !! w_scope_id w) as [ids|] eqn:E; cbn.
      * destruct (Hl _ ids E) as (_ & Hnd & Hin). split.
        -- apply NoDup_app. split; [done|]. split; [|apply NoDup_singleton].
           intros i Hi ->%list_elem_of_singleton. destruct (Hin _ Hi) as (x & Hx & _). congruence.
        -- intros i [Hi| ->%list_elem_of_singleton]%elem_of_app.
           ++ destruct (Hin i Hi) as (x & Hx & Hs). exists x. split; [|done].
              rewrite lookup_insert_ne; [done|]. congruence.
           ++ exists w. by rewrite lookup_insert_eq.
      * split; [apply NoDup_singleton|]. intros i ->%list_elem_of_singleton. exists w. by rewrite lookup_insert_eq.
    + rewrite lookup_insert_ne by done. intros E. destruct (Hl s ids E) as (Hn & Hnd & Hin).
      split; [done|]. split; [done|]. intros i Hi. destruct (Hin i Hi) as (x & Hx & Hs).
      exists x. split; [|done]. rewrite lookup_insert_ne; [done|]. congruence.
  - intros i x. destruct (decide (i = w_id w)) as [->|Hne].
    + rewrite lookup_insert_eq. intros [= <-]. split; [done|]. split; [done|].
      eexists. rewrite lookup_insert_eq. split; [done|]. set_solver.
    + rewrite lookup_insert_ne by done. intros Hx. destruct (Ht i x Hx) as (Hid & Hb & ids & E & Hi).
      split; [done|]. split; [done|]. destruct (decide (w_scope_id w = w_scope_id x)) as [Heq|Hs].
      * eexists. rewrite Heq, lookup_insert_eq. split; [done|]. rewrite E. cbn. set_solver.
      * exists ids. by rewrite lookup_insert_ne.
Qed.

Lemma opened_view w m s :
  wf m -> windows m !! w_id w = None ->
  windows_for s (opened w m) = if (s =? w_scope_id w)%N then windows_for s m ++ [w] else windows_for s m.
Proof.
  intros [Hl _] Hnone. unfold windows_for, opened. cbn [by_scope windows].
  assert (Hold : forall ids, by_scope m !! s = Some ids ->
    omap (fun i => <[w_id w := w]> (windows m) !! i) ids = omap (fun i => windows m !! i) ids).
  { intros ids E. apply omap_ext_in. intros i Hi. destruct (Hl s ids E) as (_ & _ & Hin).
    destruct (Hin i Hi) as (x & Hx & _). rewrite lookup_insert_ne; [done|]. congruence. }
  destruct (N.eqb_spec s (w_scope_id w)) as [->|Hne].
  - rewrite lookup_insert_eq. cbn [default].
    assert (Hw : omap (fun i => <[w_id w := w]> (windows m) !! i) [w_id w] = [w]).
    { by rewrite omap_cons, lookup_insert_eq. }
    destruct (by_scope m !! w_scope_id w) as [ids|]; cbn [default].
    + unfold id. by rewrite omap_app, Hw, Hold.
    + exact Hw.
  - rewrite lookup_insert_ne by done. destruct (by_scope m !! s) as [ids|] eqn:E; [by apply Hold|done].
Qed.

(** Removing [gone] from the table and from the list of [scope]. *)
Record removal (scope : uuid) (gone : uuid -> bool) m m' : Prop := mk_removal {
  rm_windows : forall i, windows m' !! i = if gone i then None else windows m !! i;
  rm_scope : by_scope m' !! scope =
    match base.filter (fun i => gone i = false) (default [] (by_scope m !! scope)) with [] => None | l => Some l end;
  rm_others : forall s, s <> scope -> by_scope m' !! s = by_scope m !! s;
  rm_own : forall i w, gone i = true -> windows m !! i = Some w -> w_scope_id w = scope
}.

Lemma removal_wf scope gone m m' : removal scope gone m m' -> wf m -> wf m'.
Proof.
  intros [Hw Hs Ho Hown] [Hl Ht]. split.
  - intros s ids. destruct (decide (s = scope)) as [->|Hne].
    + rewrite Hs. destruct (by_scope m !! scope) as [ids0|] eqn:E; cbn [default]; [|done].
      destruct (Hl scope ids0 E) as (_ & Hnd & Hin). unfold id.
      destruct (base.filter _ ids0) as [|i0 l] eqn:Ef; [done|]. intros [= <-]. rewrite <- Ef.
      split; [congruence|]. split; [by apply NoDup_filter|]. intros i [Hg Hi]%list_elem_of_filter.
      destruct (Hin i Hi) as (x & Hx & Hxs). exists x. by rewrite Hw, Hg.
    + rewrite Ho by done. intros E. destruct (Hl s ids E) as (Hn & Hnd & Hin). split; [done|]. split; [done|].
      intros i Hi. destruct (Hin i Hi) as (x & Hx & Hxs). exists x. rewrite Hw.
      destruct (gone i) eqn:Hg; [|done]. by destruct Hne; rewrite <- (Hown i x Hg Hx).
  - intros i x. rewrite Hw. destruct (gone i) eqn:Hg; [done|]. intros Hx.
    destruct (Ht i x Hx) as (Hid & Hb & ids & E & Hi). split; [done|]. split; [done|].
    destruct (decide (w_scope_id x = scope)) as [Heq|Hne]; [|exists ids; by rewrite Ho].
    rewrite Heq, Hs. rewrite Heq in E. rewrite E. cbn [default]. unfold id.
    assert (Hin : i ∈ base.filter (fun i => gone i = false) ids) by by apply list_elem_of_filter.
    destruct (base.filter _ ids) as [|i0 l]; [by apply not_elem_of_nil in Hin|eauto].
Qed.

Lemma removal_view scope gone m m' s :
  removal scope gone m m' -> wf m ->
  windows_for s m' = if (s =? scope)%N then base.filter (fun w => gone (w_id w) = false) (windows_for s m)
                     else windows_for s m.
Proof.
  intros [Hw Hs Ho Hown] [Hl Ht]. unfold windows_for. destruct (N.eqb_spec s scope) as [->|Hne].
  - rewrite Hs. destruct (by_scope m !! scope) as [ids|] eqn:E; cbn [default]; [|done]. unfold id.
    destruct (Hl scope ids E) as (_ & _ & Hin). clear E Hs.
    transitivity (omap (fun i => windows m' !! i) (base.filter (fun i => gone i = false) ids)).
    { by destruct (base.filter _ ids). }
    induction ids as [|i ids IH]; [done|]. destruct (Hin i) as (x & Hx & _); [by left|].
    rewrite omap_cons, Hx, !filter_cons, (proj1 (Ht i x Hx)).
    destruct (decide (gone i = false)) as [Hg|Hg]; [rewrite omap_cons, Hw, Hg, Hx; f_equal|];
      apply IH; intros; apply Hin; by right.
  - rewrite Ho by done. destruct (by_scope m !! s) as [ids|] eqn:E; [|done]. apply omap_ext_in. intros i Hi.
    rewrite Hw. destruct (gone i) eqn:Hg; [|done]. destruct (Hl s ids E) as (_ & _ & Hin).
    destruct (Hin i Hi) as (x & Hx & <-). by destruct Hne; rewrite <- (Hown i x Hg Hx).
Qed.
End Tables.

(** *** Every call *)

Section Calls.
Context {HO : HashOrder}.
Implicit Types (m : SynthesisWindowManager) (w : SynthesisWindow).

Lemma list_filter_all {A} (P : A -> Prop) `{!forall x, Decision (P x)} (l : list A) :
  (forall x, x ∈ l -> P x) -> base.filter P l = l.
Proof.
  induction l as [|x l IH]; intros Hx; [done|].
  rewrite filter_cons_True by (apply Hx; by left). rewrite IH; [done|]. intros y Hy. apply Hx. by right.
Qed.
Lemma list_filter_none {A} (P : A -> Prop) `{!forall x, Decision (P x)} (l : list A) :
  (forall x, x ∈ l -> ~ P x) -> base.filter P l = [].
Proof.
  induction l as [|x l IH]; intros Hx; [done|].
  rewrite filter_cons_False by (apply Hx; by left). apply IH. intros y Hy. apply Hx. by right.
Qed.

Lemma remove_scope_removal scope m :
  wf m -> removal scope (fun i => bool_decide (i ∈ default [] (by_scope m !! scope))) m (remove_windows_for_scope scope m).
Proof.
  intros Hwf. unfold remove_windows_for_scope. destruct (by_scope m !! scope) as [ids|] eqn:E; cbn [default].
  - destruct (wf_listed m Hwf scope ids E) as (_ & _ & Hin). unfold id. split; cbn [windows by_scope].
    + intros i. apply lookup_foldl_delete.
    + rewrite lookup_delete_eq, E. cbn. unfold id.
      destruct (base.filter _ ids) as [|i l] eqn:Ef; [done|]. exfalso.
      assert (Hi : i ∈ i :: l) by by left. rewrite <- Ef in Hi.
      apply list_elem_of_filter in Hi as [Hb Hi]. by apply bool_decide_eq_false in Hb.
    + intros s Hs. by rewrite lookup_delete_ne.
    + intros i w Hi%bool_decide_eq_true Hw. destruct (Hin i Hi) as (x & Hx & Hs). congruence.
  - split; [|rewrite E; done|done|].
    + intros i. by rewrite bool_decide_eq_false_2 by apply not_elem_of_nil.
    + intros i w Hi%bool_decide_eq_true. by apply not_elem_of_nil in Hi.
Qed.

Lemma remove_windows_removal scope ids m :
  wf m -> (forall i w, i ∈ ids -> windows m !! i = Some w -> w_scope_id w = scope) ->
  removal scope (fun i => bool_decide (i ∈ ids)) m (remove_windows scope ids m).
Proof.
  intros Hwf Hown. unfold remove_windows.
  destruct (bool_decide (list_to_set ids = (∅ : gset uuid))) eqn:Ee.
  - apply bool_decide_eq_true in Ee. assert (ids = []) as -> by (destruct ids; set_solver).
    assert (Hf : forall i, bool_decide (i ∈ ([] : list uuid)) = false) by (intros; apply bool_decide_eq_false_2, not_elem_of_nil).
    split; [intros i; by rewrite Hf| |done|intros i w; by rewrite Hf].
    destruct (by_scope m !! scope) as [l|] eqn:E; cbn; [|done]. unfold id.
    rewrite (list_filter_all (fun i => bool_decide (i ∈ []) = false)) by auto.
    destruct (wf_listed m Hwf scope l E) as (Hne & _). by destruct l.
  - split; cbn [windows by_scope].
    + intros i. rewrite lookup_foldl_delete.
      by rewrite (bool_decide_ext _ (i ∈ ids)) by (rewrite elem_of_hash_order, elem_of_elements; set_solver).
    + destruct (by_scope m !! scope) as [l|] eqn:E; cbn [default]; [|done]. unfold id, retained.
      rewrite (list_filter_iff (fun i => i ∉ (list_to_set ids : gset uuid)) (fun i => bool_decide (i ∈ ids) = false)).
      2:{ intros x. rewrite bool_decide_eq_false. set_solver. }
      destruct (base.filter _ l) as [|i l'] eqn:Ef; [by rewrite lookup_delete_eq|by rewrite lookup_insert_eq].
    + intros s Hs. destruct (by_scope m !! scope) as [l|]; [|done].
      destruct (retained _ l); [by rewrite lookup_delete_ne|by rewrite lookup_insert_ne].
    + intros i w Hi%bool_decide_eq_true Hw. by apply (Hown i w).
Qed.

(** Opening with a tier is opening and stamping, which cannot fail. *)
Lemma open_tiered_window_eq f wall s t a b m :
  open_tiered_window f wall s t a b m =
  if (a <? b)%Z then ((set_tier f t (opened (mk_window f s a b Pending None (Some wall)) m)).1, Ok (mk_handle f s t))
  else (m, Err InvalidWindow).
Proof. unfold open_tiered_window, try_eff. rewrite open_window_eq. by destruct (a <? b)%Z. Qed.

(** Whatever callers do within what they grant, the table and the lists agree. *)
Lemma run_call_keeps_wf m k : granted m k -> wf m -> wf (run_call m k).
Proof.
  intros Hg Hwf. destruct k; cbn [run_call]; cbn [granted] in Hg; try (by eapply moves_wf; eauto).
  - rewrite open_window_eq. destruct (start <? stop)%Z eqn:E; [|done]. apply opened_wf; [done..|].
    cbn. by apply Z.ltb_lt.
  - rewrite open_tiered_window_eq. destruct (start <? stop)%Z eqn:E; [|done]. cbn [fst].
    assert (Ho : wf (opened (mk_window fresh scope start stop Pending None (Some wall)) m)).
    { apply opened_wf; [done..|]. cbn. by apply Z.ltb_lt. }
    eapply (update_wf _ _ (fun x => if (w_id x =? fresh)%N then with_tier tier x else x));
      [eauto|exact Ho|apply set_tier_by_scope|intros j; by apply set_tier_lookup].
  - eapply (update_wf m _ (fun x => if (w_id x =? i)%N then with_tier t x else x));
      [eauto|done|apply set_tier_by_scope|intros j; by apply set_tier_lookup].
  - eapply (update_wf m _ (swept now threshold)); [eauto|done|done|]. intros i. apply sweep_lookup.
  - eapply removal_wf; [by apply remove_scope_removal|done].
  - eapply removal_wf; [by apply remove_windows_removal|done].
Qed.

(** Each call does to the lists of windows what [spec_call] says. *)
Lemma run_call_view m k s :
  granted m k -> wf m -> windows_for s (run_call m k) = spec_call k (fun s => windows_for s m) s.
Proof.
  intros Hg Hwf. destruct k; cbn [run_call spec_call]; cbn [granted] in Hg; try (by apply moves_view).
  - rewrite open_window_eq. destruct (start <? stop)%Z; [|by rewrite andb_false_r].
    rewrite andb_true_r. by apply opened_view.
  - rewrite open_tiered_window_eq. destruct (start <? stop)%Z eqn:E; [|by rewrite andb_false_r].
    rewrite andb_true_r. cbn [fst]. set (w := mk_window fresh scope start stop Pending None (Some wall)).
    assert (Ho : wf (opened w m)) by (apply opened_wf; [done..|by apply Z.ltb_lt]).
    rewrite (update_view (opened w m) _ (fun x => if (w_id x =? fresh)%N then with_tier tier x else x));
      [|apply set_tier_by_scope|intros j; by apply set_tier_lookup].
    rewrite opened_view by done. cbn [w w_scope_id].
    assert (Hold : (fun x => if (w_id x =? fresh)%N then with_tier tier x else x) <$> windows_for s m = windows_for s m).
    { rewrite <- (list_fmap_id (windows_for s m)) at 2. apply list_fmap_ext. intros n x Hx%list_elem_of_lookup_2.
      apply elem_of_windows_for in Hx as [Hx _]; [|done]. destruct (N.eqb_spec (w_id x) fresh) as [Heq|]; [|done].
      rewrite Heq in Hx. congruence. }
    destruct (s =? scope)%N; [|exact Hold]. rewrite fmap_app, Hold. cbn. by rewrite N.eqb_refl.
  - apply update_view; [apply set_tier_by_scope|intros j; by apply set_tier_lookup].
  - apply update_view; [done|]. intros i. apply sweep_lookup.
  - rewrite (removal_view scope _ m) by (done || by apply remove_scope_removal).
    destruct (N.eqb_spec s scope) as [->|]; [|done]. apply list_filter_none.
    intros w Hw Hd%bool_decide_eq_false. destruct (by_scope m !! scope) as [ids|] eqn:E.
    + apply Hd. cbn. unfold id. rewrite <- (windows_for_ids m scope ids) by done. apply list_elem_of_fmap. eauto.
    + unfold windows_for in Hw. rewrite E in Hw. by apply not_elem_of_nil in Hw.
  - rewrite (removal_view scope _ m) by (done || by apply remove_windows_removal).
    destruct (s =? scope)%N; [|done]. apply list_filter_iff. intros w. by rewrite bool_decide_eq_false.
Qed.
End Calls.

(** ** Properties *)

Section Properties.
Context {HO : HashOrder}.
Implicit Types (m : SynthesisWindowManager) (w : SynthesisWindow).

(** A run of calls, each within what its caller grants. *)
Definition run (ks : list call) m : SynthesisWindowManager := foldl run_call m ks.
Fixpoint granted_run m (ks : list call) : Prop :=
  match ks with [] => True | k :: ks => granted m k /\ granted_run (run_call m k) ks end.
Definition spec_run (ks : list call) (v : uuid -> list SynthesisWindow) : uuid -> list SynthesisWindow :=
  foldl (fun v k => spec_call k v) v ks.

Lemma empty_wf : wf empty_manager.
Proof. split; intros ? ?; cbn; by rewrite lookup_empty. Qed.

Lemma spec_call_ext k v v' s : v s = v' s -> spec_call k v s = spec_call k v' s.
Proof. destruct k; cbn; by intros ->. Qed.
Lemma spec_run_ext ks v v' : (forall s, v s = v' s) -> forall s, spec_run ks v s = spec_run ks v' s.
Proof.
  revert v v'. induction ks as [|k ks IH]; intros v v' Hv s; [done|]. cbn. apply IH. intros s'. by apply spec_call_ext.
Qed.

(** What a call does to one window. *)
Definition call_on (k : call) w : option SynthesisWindow :=
  match k with
  | OpenWindow _ _ _ _ _ | OpenTiered _ _ _ _ _ _ => Some w
  | SetTier i t => Some (if (w_id w =? i)%N then with_tier t w else w)
  | MarkInProgress i => Some (advance i claimable InProgress w)
  | MarkComplete i => Some (advance i (is_status InProgress) Complete w)
  | MarkFailed i => Some (advance i (is_status InProgress) Failed w)
  | MarkReplayPending i => Some (advance i (is_status Complete) Pending w)
  | SweepStuck now th => Some (swept now th w)
  | RemoveScope s => if (w_scope_id w =? s)%N then None else Some w
  | RemoveWindows s ids => if bool_decide (w_id w ∈ ids) then None else Some w
  end.
Lemma run_call_window m k i w :
  wf m -> granted m k -> windows m !! i = Some w -> windows (run_call m k) !! i = call_on k w.
Proof.
  intros Hwf Hg Hw. assert (Hid := proj1 (wf_tracked m Hwf i w Hw)).
  destruct k; cbn [run_call call_on]; cbn [granted] in Hg.
  - rewrite open_window_eq. destruct (start <? stop)%Z; cbn; [|done]. rewrite lookup_insert_ne by congruence. done.
  - rewrite open_tiered_window_eq. destruct (start <? stop)%Z eqn:E; cbn [fst]; [|done].
    set (x := mk_window fresh scope start stop Pending None (Some wall)).
    assert (Ho : wf (opened x m)) by (apply opened_wf; [done..|by apply Z.ltb_lt]).
    rewrite set_tier_lookup by done. cbn. rewrite lookup_insert_ne by congruence. rewrite Hw. cbn.
    by destruct (N.eqb_spec (w_id w) fresh) as [Heq|]; [congruence|].
  - by rewrite set_tier_lookup, Hw.
  - by rewrite (moves_lookup _ _ _ _ _ _ mark_in_progress_moves), Hw.
  - by rewrite (moves_lookup _ _ _ _ _ _ mark_complete_moves), Hw.
  - by rewrite (moves_lookup _ _ _ _ _ _ mark_failed_moves), Hw.
  - by rewrite (moves_lookup _ _ _ _ _ _ mark_replay_pending_moves), Hw.
  - by rewrite sweep_lookup, Hw.
  - rewrite (rm_windows _ _ _ _ (remove_scope_removal scope m Hwf)), Hw.
    destruct (N.eqb_spec (w_scope_id w) scope) as [Heq|Hne].
    + destruct (wf_tracked m Hwf i w Hw) as (_ & _ & ids & E & Hi). rewrite Heq in E. rewrite E.
      by rewrite bool_decide_eq_true_2.
    + rewrite bool_decide_eq_false_2; [done|]. intros Hi. apply Hne.
      eapply (rm_own _ _ _ _ (remove_scope_removal scope m Hwf)); [by apply bool_decide_eq_true_2|done].
  - by rewrite (rm_windows _ _ _ _ (remove_windows_removal scope ids m Hwf Hg)), Hw, Hid.
Qed.

(** C31: The window manager is a list of windows per scope, oldest first: after any run
    of calls from the empty manager in which [remove_windows] is only given identifiers
    of its scope ([granted]; another's window would go out of one table only,
    [remove_windows_foreign]), each scope's list is the one the
    list-level operations build, lookup by identifier finds exactly the listed
    windows, identifiers are not repeated, and every window has a positive length. *)
Theorem windows_refine (ks : list call) :
  granted_run empty_manager ks ->
  let m := run ks empty_manager in
  (forall s, windows_for s m = spec_run ks (fun _ => []) s) /\
  (forall i w, get i m = Some w <-> w_id w = i /\ w ∈ windows_for (w_scope_id w) m) /\
  (forall s, NoDup (w_id <$> windows_for s m)) /\
  (forall i w, get i m = Some w -> (0 < window_duration w)%Z) /\
  (forall s, s ∈ tracked_scopes m <-> windows_for s m <> []).
Proof.
  intros Hg m. assert (H : wf m /\ forall s, windows_for s m = spec_run ks (fun s => windows_for s empty_manager) s).
  { subst m. assert (Hwf := empty_wf). revert Hg Hwf. generalize empty_manager.
    induction ks as [|k ks IH]; intros m [Hk Hks] Hwf || intros m Hg Hwf; [done|].
    destruct (IH (run_call m k)) as [Hw Hv]; [done|by apply run_call_keeps_wf|]. split; [done|].
    intros s. cbn. rewrite Hv. apply spec_run_ext. intros s'. by apply run_call_view. }
  destruct H as [Hwf Hv]. split; [|split; [|split; [|split]]].
  - intros s. by rewrite Hv.
  - intros i w. unfold get. split.
    + intros Hw. split; [by apply (wf_tracked m Hwf i w)|by eapply lookup_windows_for].
    + intros (<- & Hin). by apply elem_of_windows_for in Hin as [Hw _].
  - intros s. by apply NoDup_windows_for.
  - intros i w Hw. destruct (wf_tracked m Hwf i w Hw) as (_ & Hlt & _). unfold window_duration. lia.
  - intros s. unfold tracked_scopes. rewrite elem_of_hash_order, list_elem_of_fmap. split.
    + intros ([s' ids] & -> & E%elem_of_map_to_list). cbn. intros Hnil.
      apply (windows_for_ids m s' ids) in E as Hids; [|done]. rewrite Hnil in Hids.
      by destruct (wf_listed m Hwf s' ids E) as ([] & _).
    + destruct (by_scope m !! s) as [ids|] eqn:E.
      * intros _. exists (s, ids). split; [done|]. by apply elem_of_map_to_list.
      * unfold windows_for. by rewrite E.
Qed.

Ltac unchanged_window := cbn; repeat (split; [done|]); by left.

Lemma advance_edge k j from to i w :
  (w_id w = j -> forall s, from s = true -> edge i k s to) ->
  let w' := advance j from to w in
  w_id w' = w_id w /\ w_scope_id w' = w_scope_id w /\ window_start w' = window_start w /\
  window_end w' = window_end w /\ w_created_at w' = w_created_at w /\
  (w_status w' = w_status w \/ edge i k (w_status w) (w_status w')).
Proof.
  intros He. unfold advance. destruct (N.eqb_spec (w_id w) j) as [Hj|]; cbn; [|unchanged_window].
  destruct (from (w_status w)) eqn:Ef; repeat (split; [done|]); [right; by apply He|by left].
Qed.

(** A window changes its status only along an edge of the life cycle and only by the
    call of that edge: a complete window is reopened only by a replay, a failed one
    only claimed again; its identity, scope, interval and time of opening never
    change, and it disappears only when its scope or it itself is removed. *)
Theorem lifecycle_exact m k i w :
  wf m -> granted m k -> get i m = Some w ->
  match get i (run_call m k) with
  | Some w' =>
      w_id w' = w_id w /\ w_scope_id w' = w_scope_id w /\ window_start w' = window_start w /\
      window_end w' = window_end w /\ w_created_at w' = w_created_at w /\
      (w_status w' = w_status w \/ edge i k (w_status w) (w_status w'))
  | None => k = RemoveScope (w_scope_id w) \/ exists ids, k = RemoveWindows (w_scope_id w) ids /\ i ∈ ids
  end.
Proof.
  intros Hwf Hg Hw. assert (Hid := proj1 (wf_tracked m Hwf i w Hw)).
  unfold get in *. rewrite (run_call_window m k i w) by done.
  destruct k; cbn [call_on].
  1-2: unchanged_window.
  - destruct (w_id w =? i0)%N; unchanged_window.
  - apply advance_edge. rewrite Hid. intros <-. by intros [].
  - apply advance_edge. rewrite Hid. intros <-. intros s Hs%bool_decide_eq_true. by subst s.
  - apply advance_edge. rewrite Hid. intros <-. intros s Hs%bool_decide_eq_true. by subst s.
  - apply advance_edge. rewrite Hid. intros <-. intros s Hs%bool_decide_eq_true. by subst s.
  - unfold swept, stuck. destruct (w_status w) eqn:Es; try unchanged_window.
    destruct (w_created_at w) as [c|] eqn:Ec; [|unchanged_window].
    destruct (threshold <? now - c)%Z; cbn; repeat (split; [done|]); [by right|by left].
  - destruct (N.eqb_spec (w_scope_id w) scope) as [->|]; [by left|]. unchanged_window.
  - cbn [granted] in Hg. case_bool_decide as Hin; [|unchanged_window].
    right. exists ids. rewrite Hid in Hin. by rewrite (Hg i w).
Qed.

(** [remove_windows] given a window of another scope takes it out of the table all
    the same, and leaves its identifier in the list of its own scope. *)
Lemma remove_windows_foreign scope s ids i m :
  i ∈ ids -> s <> scope -> i ∈ default [] (by_scope m !! s) ->
  get i (remove_windows scope ids m) = None /\ i ∈ default [] (by_scope (remove_windows scope ids m) !! s).
Proof.
  intros Hi Hs Hin. unfold remove_windows, get. rewrite bool_decide_eq_false_2 by set_solver. cbn. split.
  - rewrite lookup_foldl_delete, bool_decide_eq_true_2; [done|].
    rewrite elem_of_hash_order, elem_of_elements. set_solver.
  - destruct (by_scope m !! scope) as [l|]; [|done].
    destruct (retained _ l); [by rewrite lookup_delete_ne|by rewrite lookup_insert_ne].
Qed.
End Properties.

(** A run: two windows in one scope, one in another, and what happens to them. *)
#[local] Existing Instance hash_order_id.
Definition demo_calls : list call :=
  [OpenTiered 11 100 1 Domain 0 10; OpenWindow 12 200 1 10 20; OpenTiered 21 300 2 Tenant 0 10; OpenWindow 13 400 1 5 5;
   MarkInProgress 11; MarkComplete 11; MarkComplete 12; SweepStuck 1000 750; MarkReplayPending 11; RemoveWindows 1 [11%N; 99%N]].
Lemma demo_granted : granted_run empty_manager demo_calls.
Proof.
  repeat split. intros i w Hi Hw. apply elem_of_cons in Hi as [-> | ->%list_elem_of_singleton].
  - revert Hw. set (o := _ !! _). assert (Hscope : fmap w_scope_id o = Some 1%N) by by vm_compute.
    intros Hw. rewrite Hw in Hscope. by injection Hscope.
  - revert Hw. set (o := _ !! _). assert (Hscope : fmap w_scope_id o = None) by by vm_compute.
    intros Hw. by rewrite Hw in Hscope.
Qed.
Lemma windows_refine_witness :
  windows_for 1 (run demo_calls empty_manager) = [mk_window 12 1 10 20 Failed None (Some 200%Z)].
Proof. rewrite (proj1 (windows_refine demo_calls demo_granted)). reflexivity. Defined.

Lemma demo_manager_wf : wf (run [OpenTiered 11 100 1 Domain 0 10] empty_manager).
Proof. apply run_call_keeps_wf; [done|apply empty_wf]. Qed.
Lemma lifecycle_exact_witness :
  let m := run [OpenTiered 11 100 1 Domain 0 10] empty_manager in
  w_status <$> get 11 (run_call m (MarkInProgress 11)) = Some InProgress.
Proof.
  intros m. assert (H := lifecycle_exact m (MarkInProgress 11) 11 (mk_window 11 1 0 10 Pending (Some Domain) (Some 100%Z))
    demo_manager_wf I eq_refl).
  change (get 11 (run_call m (MarkInProgress 11))) with (Some (mk_window 11 1 0 10 InProgress (Some Domain) (Some 100%Z))) in *.
  destruct H as (_ & _ & _ & _ & _ & [H|H]); [discriminate H|by inversion H].
Defined.
