(* ===== verification/SynthesisHierarchy.v ===== *)
(** * What synthesis may consume ([synthesis_pipeline/src/object.rs], [hierarchy.rs])

    Synthesis objects, and the inputs of a domain or a tenant run: channel recaps of
    the channels registered on the domain; domain summaries of the domains registered
    on the tenant and documents it approved.  An input and a window handle are
    checked against each other and against the manager before a run touches the
    window. *)

From S2P Require Import Prelude DomainMemory TenantMemory SynthesisWindow.

(** ** Synthesis objects *)

(** [struct SynthesisObject]. *)
Record SynthesisObject : Type := mk_object {
  o_id : uuid;
  o_scope_id : uuid;
  o_window_id : uuid;
  object_type : SynthesisObjectType;
  payload : list N;
  provenance_ref : uuid;
  o_created_at : instant;
  supersedes : option uuid;
  version : N
}.
#[export] Instance SynthesisObject_eq_dec : EqDecision SynthesisObject. Proof. solve_decision. Defined.

(** [default_synthesis_object_version], [with_version], [new], [with_supersedes]. *)
Definition default_synthesis_object_version : N := 1.
Definition with_version (fresh : uuid) (now : instant) (scope window : uuid) (t : SynthesisObjectType)
    (bytes : list N) (provenance : uuid) (v : N) : SynthesisObject :=
  mk_object fresh scope window t bytes provenance now None v.
Definition new_object (fresh : uuid) (now : instant) (scope window : uuid) (t : SynthesisObjectType)
    (bytes : list N) (provenance : uuid) : SynthesisObject :=
  with_version fresh now scope window t bytes provenance default_synthesis_object_version.
Definition with_supersedes (o : SynthesisObject) (predecessor : uuid) : SynthesisObject :=
  mk_object (o_id o) (o_scope_id o) (o_window_id o) (object_type o) (payload o) (provenance_ref o) (o_created_at o)
    (Some predecessor) (version o).
(** [object.version = v]. *)
Definition set_version (o : SynthesisObject) (v : N) : SynthesisObject :=
  mk_object (o_id o) (o_scope_id o) (o_window_id o) (object_type o) (payload o) (provenance_ref o) (o_created_at o)
    (supersedes o) v.

(** ** Inputs *)

Section Hierarchy.
Context {Json : Type}.

(** [struct ChannelOutput], [DomainOutput]: built only by the checked
    constructors. *)
Record ChannelOutput : Type := mk_channel_output { co_object : SynthesisObject; channel_scope : uuid }.
Record DomainOutput : Type := mk_domain_output { do_object : SynthesisObject; domain_scope : uuid }.
Definition from_channel_object (o : SynthesisObject) : result ChannelOutput PipelineError :=
  if negb (bool_decide (object_type o = ChannelRecap))
  then Err (HierarchyViolation (ExpectedObject ChannelRecap (object_type o)))
  else Ok (mk_channel_output o (o_scope_id o)).
Definition from_domain_object (o : SynthesisObject) : result DomainOutput PipelineError :=
  if negb (bool_decide (object_type o = DomainSummary))
  then Err (HierarchyViolation (ExpectedObject DomainSummary (object_type o)))
  else Ok (mk_domain_output o (o_scope_id o)).

(** [struct DomainSynthesisInput]; [new], [reject_raw_channel_memory]. *)
Record DomainSynthesisInput : Type := mk_domain_input {
  di_domain_scope : uuid;
  channel_outputs : list ChannelOutput;
  di_assembled_at : instant
}.
Fixpoint check_channels (domain : DomainMemoryObject (Json := Json)) (outputs : list ChannelOutput) :
    result unit PipelineError :=
  match outputs with
  | [] => Ok tt
  | o :: outputs =>
      if negb (bool_decide (channel_scope o ∈ channel_scopes domain))
      then Err (HierarchyViolation (ChannelNotRegistered (channel_scope o) (dm_scope_id domain)))
      else check_channels domain outputs
  end.
Definition new_domain_input (now : instant) (domain : DomainMemoryObject (Json := Json)) (outputs : list ChannelOutput) :
    result DomainSynthesisInput PipelineError :=
  let? _ := check_channels domain outputs in Ok (mk_domain_input (dm_scope_id domain) outputs now).
Definition reject_raw_channel_memory : result DomainSynthesisInput PipelineError :=
  Err (HierarchyViolation RawChannelMemory).

(** [struct ApprovedDocument], [struct TenantSynthesisInput]; [new],
    [reject_channel_object]. *)
Record ApprovedDocument : Type := mk_approved { reference : ApprovedDocumentRef; document_payload : list N }.
Record TenantSynthesisInput : Type := mk_tenant_input {
  ti_tenant_scope : uuid;
  domain_outputs : list DomainOutput;
  ti_approved_documents : list ApprovedDocument;
  ti_assembled_at : instant
}.
Fixpoint check_domains (tenant : TenantMemoryObject (Json := Json)) (outputs : list DomainOutput) :
    result unit PipelineError :=
  match outputs with
  | [] => Ok tt
  | o :: outputs =>
      if negb (bool_decide (domain_scope o ∈ domain_scopes tenant))
      then Err (HierarchyViolation (DomainNotRegistered (domain_scope o) (tm_scope_id tenant)))
      else check_domains tenant outputs
  end.
Fixpoint check_documents (tenant : TenantMemoryObject (Json := Json)) (docs : list ApprovedDocument) :
    result unit PipelineError :=
  match docs with
  | [] => Ok tt
  | d :: docs =>
      if negb (existsb (fun a => (doc_id a =? doc_id (reference d))%N) (approved_documents tenant))
      then Err (HierarchyViolation (DocumentNotAdmitted (doc_id (reference d)) (tm_scope_id tenant)))
      else check_documents tenant docs
  end.
Definition new_tenant_input (now : instant) (tenant : TenantMemoryObject (Json := Json)) (outputs : list DomainOutput)
    (docs : list ApprovedDocument) : result TenantSynthesisInput PipelineError :=
  let? _ := check_domains tenant outputs in
  let? _ := check_documents tenant docs in
  Ok (mk_tenant_input (tm_scope_id tenant) outputs docs now).
Definition reject_channel_object (o : SynthesisObject) : result TenantSynthesisInput PipelineError :=
  Err (HierarchyViolation (ChannelObjectAtTenant (object_type o))).

(** ** Handles against inputs *)

(** What both validators check after tier and target. *)
Definition validate_window (m : SynthesisWindowManager) (handle : TieredWindowHandle) : result unit PipelineError :=
  match get (h_window_id handle) m with
  | None => Err (WindowNotFound (h_window_id handle))
  | Some w =>
      if negb (w_scope_id w =? h_scope_id handle)%N
      then Err (HierarchyViolation (WrongOwner (h_window_id handle) (w_scope_id w) (h_scope_id handle)))
      else if bool_decide (w_status w = Complete) then Err InvalidWindowTransition
      else Ok tt
  end.
Definition validate_domain_input (m : SynthesisWindowManager) (handle : TieredWindowHandle)
    (input : DomainSynthesisInput) : result unit PipelineError :=
  if negb (bool_decide (h_tier handle = Domain)) then Err (HierarchyViolation (WrongTier (h_tier handle)))
  else if negb (h_scope_id handle =? di_domain_scope input)%N
  then Err (HierarchyViolation (WrongTarget (di_domain_scope input) (h_scope_id handle)))
  else validate_window m handle.
Definition validate_tenant_input (m : SynthesisWindowManager) (handle : TieredWindowHandle)
    (input : TenantSynthesisInput) : result unit PipelineError :=
  if negb (bool_decide (h_tier handle = Tenant)) then Err (HierarchyViolation (WrongTier (h_tier handle)))
  else if negb (h_scope_id handle =? ti_tenant_scope input)%N
  then Err (HierarchyViolation (WrongTarget (ti_tenant_scope input) (h_scope_id handle)))
  else validate_window m handle.

(** [build_domain_summary_object], [build_tenant_summary_object]. *)
Definition build_domain_summary_object (fresh : uuid) (now : instant) (scope window : uuid) (bytes : list N)
    (provenance : uuid) : SynthesisObject := new_object fresh now scope window DomainSummary bytes provenance.
Definition build_tenant_summary_object (fresh : uuid) (now : instant) (scope window : uuid) (bytes : list N)
    (provenance : uuid) : SynthesisObject := new_object fresh now scope window TenantSummary bytes provenance.

(** [open_domain_window], [open_tenant_window]: a window is built only to check the
    bounds; the one opened draws its own identifier. *)
Definition open_recent_window (fresh0 fresh : uuid) (wall now : instant) (scope : uuid) (tier : WindowScopeTier) (len : duration) :
    eff SynthesisWindowManager PipelineError TieredWindowHandle := fun m =>
  match new_window fresh0 wall scope (now - len)%Z now with
  | Err e => (m, Err e)
  | Ok w => open_tiered_window fresh wall scope tier (window_start w) (window_end w) m
  end.
Definition open_domain_window (fresh0 fresh : uuid) (wall now : instant) (domain : DomainMemoryObject (Json := Json)) (len : duration) :
    eff SynthesisWindowManager PipelineError TieredWindowHandle :=
  open_recent_window fresh0 fresh wall now (dm_scope_id domain) Domain len.
Definition open_tenant_window (fresh0 fresh : uuid) (wall now : instant) (tenant : TenantMemoryObject (Json := Json)) (len : duration) :
    eff SynthesisWindowManager PipelineError TieredWindowHandle :=
  open_recent_window fresh0 fresh wall now (tm_scope_id tenant) Tenant len.
End Hierarchy.
