(* ===== verification/SynthesisStore.v ===== *)
(** * The rows of synthesis in the evidence store ([evidence_store/src/store.rs])

    Memory blobs (one row per scope and kind) and archived versions of synthesis
    objects, each sealed under the key of its scope, and the transactions that group
    their writes.  Any statement may fail.  A transaction that does not commit is
    rolled back whole, as SQLite documents it.  How a scope comes by its key is
    modelled in [ForgetScope]; here the key function is a field of the store. *)

From stdpp Require Import sorting.
From S2P Require Import Prelude.

(** [EvidenceError], as far as the modelled operations of the store raise it. *)
Inductive EvidenceError : Type :=
| Sqlite | Schema (msg : string) | CryptoFailed (msg : string) | NotFound (what : string) (id : N) | DanglingBodyRef.

Section Store.
Context {Key Nonce Bytes : Type} {AE : Aead Key Nonce Bytes} {IN : Inhabited Nonce}.

(** Rows of [memory_objects] and of [synthesis_object_versions], less their keys
    (scope and kind; scope, window and version). *)
Record Row : Type := mk_row { row_nonce : Nonce; row_payload : Bytes; row_at : Z }.
Record Database : Type := mk_db {
  memory_objects : gmap (uuid * string) Row;
  object_versions : gmap (uuid * uuid) (gmap N Row)
}.
(** What one statement meets outside: whether it fails, the nonce drawn for it, the
    clock. *)
Record Tick : Type := mk_tick { fails : bool; tick_nonce : Nonce; tick_now : Z }.
Definition quiet : Tick := mk_tick false inhabitant 0.
Record EvidenceStore : Type := mk_store {
  conn : Database;
  scope_key : uuid -> result Key EvidenceError;
  tape : list Tick
}.
Definition with_conn (s : EvidenceStore) (db : Database) : EvidenceStore := mk_store db (scope_key s) (tape s).
Definition with_objects (db : Database) m : Database := mk_db m (object_versions db).
Definition with_versions (db : Database) m : Database := mk_db (memory_objects db) m.

Definition next (s : EvidenceStore) : Tick := default quiet (head (tape s)).
Definition advance_tape (s : EvidenceStore) : EvidenceStore := mk_store (conn s) (scope_key s) (tail (tape s)).
(** One statement on the database. *)
Definition statement {A} (answer : Database -> A) (change : Tick -> Database -> Database) :
    eff EvidenceStore EvidenceError A := fun s =>
  let s' := advance_tape s in
  if fails (next s) then (s', Err Sqlite)
  else (with_conn s' (change (next s) (conn s)), Ok (answer (conn s))).

(** [with_transaction]: BEGIN, the body on a working copy, COMMIT. *)
Definition with_transaction {A} (body : eff EvidenceStore EvidenceError A) : eff EvidenceStore EvidenceError A := fun s =>
  let s1 := advance_tape s in
  if fails (next s) then (s1, Err Sqlite)
  else match body s1 with
       | (s2, Err e) => (with_conn s2 (conn s), Err e)
       | (s2, Ok a) =>
           let s3 := advance_tape s2 in
           if fails (next s2) then (with_conn s3 (conn s), Err Sqlite) else (s3, Ok a)
       end.

(** The associated data of the two tables; the sealing of a row. *)
Definition memory_aad (kind : string) (scope : uuid) : list N :=
  string_bytes "memory:" ++ string_bytes kind ++ string_bytes ":" ++ be_bytes 16 scope.
Definition synthesis_object_version_aad (scope window : uuid) (version : N) : list N :=
  string_bytes "synthesis-object-version:v1:" ++ be_bytes 16 scope ++ be_bytes 16 window ++ be_bytes 4 version.
Definition sealed (scope : uuid) (aad : list N) (plaintext : Bytes) : eff EvidenceStore EvidenceError Bytes := fun s =>
  match scope_key s scope with
  | Err e => (s, Err e)
  | Ok key => (s, ok_or (encrypt_aead key (tick_nonce (next s)) plaintext aad) (CryptoFailed "aead"))
  end.

(** [save_memory_blob_in_tx], [save_memory_blob], [load_memory_blob]. *)
Definition save_memory_blob_in_tx (scope : uuid) (kind : string) (plaintext : Bytes) : eff EvidenceStore EvidenceError unit :=
  do? ciphertext := sealed scope (memory_aad kind scope) plaintext in
  statement (fun _ => tt) (fun t db =>
    with_objects db (<[(scope, kind) := mk_row (tick_nonce t) ciphertext (tick_now t)]> (memory_objects db))).
Definition save_memory_blob (scope : uuid) (kind : string) (plaintext : Bytes) : eff EvidenceStore EvidenceError unit :=
  with_transaction (save_memory_blob_in_tx scope kind plaintext).
Definition opened (s : EvidenceStore) (scope : uuid) (aad : list N) (row : Row) : result (option Bytes) EvidenceError :=
  match scope_key s scope with
  | Err e => Err e
  | Ok key =>
      match decrypt_aead key (row_nonce row) (row_payload row) aad with
      | None => Err (CryptoFailed "aead")
      | Some plaintext => Ok (Some plaintext)
      end
  end.
Definition load_memory_blob (scope : uuid) (kind : string) : eff EvidenceStore EvidenceError (option Bytes) :=
  do? row := statement (fun db => memory_objects db !! (scope, kind)) (fun _ db => db) in
  fun s =>
    match row with
    | None => (s, Ok None)
    | Some row => (s, opened s scope (memory_aad kind scope) row)
    end.
(** [list_memory_scopes], in the order of the table's index. *)
Definition list_memory_scopes (kind : string) : eff EvidenceStore EvidenceError (list uuid) :=
  statement (fun db => omap (fun k : uuid * string => if bool_decide (k.2 = kind) then Some k.1 else None)
                         (map_to_list (memory_objects db)).*1) (fun _ db => db).

(** [delete_memory_blobs_for_scope]. *)
Definition delete_memory_blobs_for_scope (scope : uuid) : eff EvidenceStore EvidenceError unit :=
  statement (fun _ => tt) (fun _ db => with_objects db (base.filter (fun kv => kv.1.1 <> scope) (memory_objects db))).

(** The archive of a window; writing back an empty one drops its key. *)
Definition archive (db : Database) (scope window : uuid) : gmap N Row := default ∅ (object_versions db !! (scope, window)).
Definition set_archive (scope window : uuid) (rows : gmap N Row) (db : Database) : Database :=
  with_versions db (if bool_decide (rows = ∅) then delete (scope, window) (object_versions db)
                    else <[(scope, window) := rows]> (object_versions db)).
(** The archived versions of a window in ascending order. *)
Definition version_list (rows : gmap N Row) : list N := merge_sort N.le (map_to_list rows).*1.

(** [save_synthesis_object_version_in_tx], [load_synthesis_object_version],
    [list_synthesis_object_versions]. *)
Definition save_synthesis_object_version_in_tx (scope window : uuid) (version : N) (plaintext : Bytes) :
    eff EvidenceStore EvidenceError unit :=
  do? ciphertext := sealed scope (synthesis_object_version_aad scope window version) plaintext in
  statement (fun _ => tt) (fun t db =>
    set_archive scope window (<[version := mk_row (tick_nonce t) ciphertext (tick_now t)]> (archive db scope window)) db).
Definition load_synthesis_object_version (scope window : uuid) (version : N) :
    eff EvidenceStore EvidenceError (option Bytes) :=
  do? row := statement (fun db => archive db scope window !! version) (fun _ db => db) in
  fun s =>
    match row with
    | None => (s, Ok None)
    | Some row => (s, opened s scope (synthesis_object_version_aad scope window version) row)
    end.
Definition list_synthesis_object_versions (scope window : uuid) : eff EvidenceStore EvidenceError (list (N * Z)) :=
  do? rows := statement (fun db => archive db scope window) (fun _ db => db) in
  let out := omap (fun v => (fun r => (v, row_at r)) <$> rows !! v) (version_list rows) in
  if existsb (fun vt : N * Z => (u32_max <? vt.1)%N) out
  then throw (Schema "synthesis_object_versions row has out-of-range version (>= 2^32)") else ret out.

(** [delete_oldest_synthesis_object_version_in_tx],
    [delete_synthesis_object_versions_for_window], [.._for_scope],
    [list_all_synthesis_object_version_window_keys]. *)
Definition delete_oldest_synthesis_object_version_in_tx (scope window : uuid) : eff EvidenceStore EvidenceError nat :=
  statement (fun db => length (take 1 (version_list (archive db scope window))))
    (fun _ db =>
       match version_list (archive db scope window) with
       | [] => db
       | v :: _ => set_archive scope window (delete v (archive db scope window)) db
       end).
Definition delete_synthesis_object_versions_for_window (scope window : uuid) : eff EvidenceStore EvidenceError nat :=
  statement (fun db => size (archive db scope window)) (fun _ db => set_archive scope window ∅ db).
Definition delete_synthesis_object_versions_for_scope (scope : uuid) : eff EvidenceStore EvidenceError nat :=
  statement (fun db => list_sum ((fun kv => size kv.2) <$>
                         List.filter (fun kv => (kv.1.1 =? scope)%N) (map_to_list (object_versions db))))
    (fun _ db => with_versions db (base.filter (fun kv => kv.1.1 <> scope) (object_versions db))).
Definition list_all_synthesis_object_version_window_keys : eff EvidenceStore EvidenceError (list (uuid * uuid)) :=
  statement (fun db => (map_to_list (object_versions db)).*1) (fun _ db => db).
End Store.

(** ** What the rows hold *)

Section Facts.
Context {Key Nonce Bytes : Type} {AE : Aead Key Nonce Bytes} {IN : Inhabited Nonce}.
Implicit Types (s : EvidenceStore (Key := Key) (Nonce := Nonce) (Bytes := Bytes)).

(** The plaintext of a memory blob and of an archived version. *)
Definition plain s (scope : uuid) (aad : list N) (row : option Row) : option Bytes :=
  match row with
  | None => None
  | Some row => match opened s scope aad row with Ok p => p | Err _ => None end
  end.
Definition blob_at s (scope : uuid) (kind : string) : option Bytes :=
  plain s scope (memory_aad kind scope) (memory_objects (conn s) !! (scope, kind)).
Definition versions_at s (scope window : uuid) : gset N := dom (archive (conn s) scope window).
Definition version_at s (scope window : uuid) (v : N) : option Bytes :=
  plain s scope (synthesis_object_version_aad scope window v) (archive (conn s) scope window !! v).

(** Two stores that hold the same rows under the same keys. *)
Definition same_rows s s' : Prop := conn s' = conn s /\ scope_key s' = scope_key s.
#[export] Instance same_rows_preorder : PreOrder same_rows.
Proof. split; [done|]. intros s1 s2 s3 [H1 H2] [H3 H4]. split; congruence. Qed.
Lemma same_rows_blob s s' scope kind : same_rows s s' -> blob_at s' scope kind = blob_at s scope kind.
Proof. intros [Hc Hk]. unfold blob_at, plain, opened. by rewrite Hc, Hk. Qed.
Lemma same_rows_version s s' scope window v : same_rows s s' -> version_at s' scope window v = version_at s scope window v.
Proof. intros [Hc Hk]. unfold version_at, plain, opened. by rewrite Hc, Hk. Qed.
Lemma same_rows_versions s s' scope window : same_rows s s' -> versions_at s' scope window = versions_at s scope window.
Proof. intros [Hc _]. unfold versions_at. by rewrite Hc. Qed.

(** A call that keeps the keys; one that changes nothing when it fails. *)
Definition keeps_keys {A} (m : eff (EvidenceStore (Key := Key) (Nonce := Nonce) (Bytes := Bytes)) EvidenceError A) : Prop :=
  forall s s' r, m s = (s', r) -> scope_key s' = scope_key s.
Definition atomic {A} (m : eff (EvidenceStore (Key := Key) (Nonce := Nonce) (Bytes := Bytes)) EvidenceError A) : Prop :=
  keeps_keys m /\ forall s s' e, m s = (s', Err e) -> conn s' = conn s.

Lemma statement_spec {A} (answer : Database -> A) change s s' r :
  statement answer change s = (s', r) ->
  scope_key s' = scope_key s /\
  match r with
  | Err e => e = Sqlite /\ conn s' = conn s
  | Ok a => a = answer (conn s) /\ conn s' = change (next s) (conn s)
  end.
Proof. unfold statement. destruct (fails (next s)); intros [= <- <-]; done. Qed.
Lemma statement_atomic {A} (answer : Database -> A) change : atomic (statement answer change).
Proof.
  split.
  - intros s s' r H. by apply statement_spec in H as [? _].
  - intros s s' e H. by apply statement_spec in H as (_ & _ & ?).
Qed.

Lemma with_transaction_spec {A} (body : eff (EvidenceStore (Key := Key) (Nonce := Nonce) (Bytes := Bytes)) EvidenceError A) s s' r :
  keeps_keys body -> with_transaction body s = (s', r) ->
  scope_key s' = scope_key s /\
  match r with
  | Err _ => conn s' = conn s
  | Ok a => exists s1 s2, same_rows s s1 /\ body s1 = (s2, Ok a) /\ same_rows s2 s'
  end.
Proof.
  intros Hk. unfold with_transaction. destruct (fails (next s)); [by intros [= <- <-]|].
  destruct (body (advance_tape s)) as [s2 [a|e]] eqn:Eb; apply Hk in Eb as Ek; cbn in Ek.
  - destruct (fails (next s2)); intros [= <- <-]; [by split|]. split; [done|].
    exists (advance_tape s), s2. by repeat split.
  - intros [= <- <-]. by split.
Qed.
Lemma with_transaction_atomic {A} (body : eff (EvidenceStore (Key := Key) (Nonce := Nonce) (Bytes := Bytes)) EvidenceError A) :
  keeps_keys body -> atomic (with_transaction body).
Proof.
  intros Hk. split.
  - intros s s' r H. by apply (with_transaction_spec body s s' r Hk) in H as [? _].
  - intros s s' e H. by apply (with_transaction_spec body s s' (Err e) Hk) in H as [_ ?].
Qed.

Lemma try_atomic_keys {A B} (m : eff (EvidenceStore (Key := Key) (Nonce := Nonce) (Bytes := Bytes)) EvidenceError A)
    (k : A -> eff (EvidenceStore (Key := Key) (Nonce := Nonce) (Bytes := Bytes)) EvidenceError B) :
  keeps_keys m -> (forall a, keeps_keys (k a)) -> keeps_keys (try_eff m k).
Proof.
  intros Hm Hk s s' r. unfold try_eff. destruct (m s) as [s1 [a|e]] eqn:E; apply Hm in E.
  - intros H%Hk. congruence.
  - intros [= <- <-]. done.
Qed.
Lemma sealed_spec scope aad p s s' r :
  sealed scope aad p s = (s', r) ->
  s' = s /\ forall c, r = Ok c -> plain s scope aad (Some (mk_row (tick_nonce (next s)) c (tick_now (next s)))) = Some p.
Proof.
  unfold sealed, plain, opened. destruct (scope_key s scope) as [key|e] eqn:Ek; intros [= <- <-]; split; try done.
  intros c. destruct (encrypt_aead key (tick_nonce (next s)) p aad) as [c'|] eqn:Ec; intros [= <-].
  cbn [row_nonce row_payload]. by rewrite (decrypt_encrypt _ _ _ _ _ Ec).
Qed.
Lemma sealed_keys scope aad p : keeps_keys (sealed scope aad p).
Proof. intros s s' r H. by apply sealed_spec in H as [-> _]. Qed.

(** *** Memory blobs *)

Lemma save_blob_in_tx_spec scope kind p s s' r :
  save_memory_blob_in_tx scope kind p s = (s', r) ->
  scope_key s' = scope_key s /\
  match r with
  | Err _ => conn s' = conn s
  | Ok _ => blob_at s' scope kind = Some p /\
            (forall sc k, (sc, k) <> (scope, kind) -> blob_at s' sc k = blob_at s sc k) /\
            object_versions (conn s') = object_versions (conn s)
  end.
Proof.
  unfold save_memory_blob_in_tx, try_eff. destruct (sealed _ _ _ s) as [s1 [c|e]] eqn:Ec;
    apply sealed_spec in Ec as [-> Hc].
  2:{ by intros [= <- <-]. }
  specialize (Hc c eq_refl). intros H. destruct r as [[]|e]; apply statement_spec in H as (Hk & Hr); split; try done.
  2:{ by destruct Hr. }
  destruct Hr as (_ & Hdb). unfold blob_at. rewrite Hdb. cbn [with_objects memory_objects object_versions].
  split; [|split; [|done]].
  - rewrite lookup_insert_eq. unfold plain, opened in *. by rewrite Hk.
  - intros sc k Hne. rewrite lookup_insert_ne by congruence. unfold plain, opened. by rewrite Hk.
Qed.
Lemma save_blob_in_tx_keys scope kind p : keeps_keys (save_memory_blob_in_tx scope kind p).
Proof. intros s s' r H. by apply save_blob_in_tx_spec in H as [? _]. Qed.

(** A saved blob is what loading gives back; a failed save changes no row. *)
Lemma save_blob_spec scope kind p s s' r :
  save_memory_blob scope kind p s = (s', r) ->
  scope_key s' = scope_key s /\
  match r with
  | Err _ => conn s' = conn s
  | Ok _ => blob_at s' scope kind = Some p /\
            (forall sc k, (sc, k) <> (scope, kind) -> blob_at s' sc k = blob_at s sc k) /\
            object_versions (conn s') = object_versions (conn s)
  end.
Proof.
  unfold save_memory_blob. intros H. apply with_transaction_spec in H as [Hk Hr]; [|apply save_blob_in_tx_keys].
  split; [done|]. destruct r as [[]|e]; [|done]. destruct Hr as (s1 & s2 & H1 & Hb & H2).
  apply save_blob_in_tx_spec in Hb as (_ & Hb & Ho & Hv).
  rewrite (same_rows_blob s2 s') by done. split; [done|]. split.
  - intros sc k Hne. rewrite (same_rows_blob s2 s'), Ho, (same_rows_blob s s1) by done. done.
  - destruct H1 as [H1 _], H2 as [H2 _]. by rewrite H2, Hv, H1.
Qed.
Lemma load_blob_spec scope kind s s' r :
  load_memory_blob scope kind s = (s', r) -> same_rows s s' /\ forall p, r = Ok p -> p = blob_at s scope kind.
Proof.
  unfold load_memory_blob, try_eff. destruct (statement _ _ s) as [s1 [row|e]] eqn:E;
    apply statement_spec in E as (Hk & Hr).
  - destruct Hr as (-> & Hc). unfold blob_at, plain, opened.
    destruct (memory_objects (conn s) !! (scope, kind)) as [row|]; intros [= <- <-]; (split; [by split|]); [|by intros p [= <-]].
    unfold opened. rewrite Hk. destruct (scope_key s scope); [|done].
    destruct (decrypt_aead _ _ _ _); [by intros p [= <-]|done].
  - intros [= <- <-]. destruct Hr. by split.
Qed.

(** *** Archived versions *)

Lemma archive_set scope window rows db sc w :
  archive (set_archive (Nonce := Nonce) (Bytes := Bytes) scope window rows db) sc w =
  if decide ((sc, w) = (scope, window)) then rows else archive db sc w.
Proof.
  unfold archive, set_archive. cbn [with_versions object_versions]. case_bool_decide as He.
  - subst rows. destruct (decide _) as [[= -> ->]|Hne]; [by rewrite lookup_delete_eq|by rewrite lookup_delete_ne by congruence].
  - destruct (decide _) as [[= -> ->]|Hne]; [by rewrite lookup_insert_eq|by rewrite lookup_insert_ne by congruence].
Qed.
Lemma set_archive_objects scope window rows db :
  memory_objects (set_archive (Nonce := Nonce) (Bytes := Bytes) scope window rows db) = memory_objects db.
Proof. done. Qed.

(** What a write to one archive leaves alone. *)
Record only_archive (scope window : uuid) s s' : Prop := mk_only_archive {
  oa_keys : scope_key s' = scope_key s;
  oa_blobs : forall sc kind, blob_at s' sc kind = blob_at s sc kind;
  oa_others : forall sc w, (sc, w) <> (scope, window) -> archive (conn s') sc w = archive (conn s) sc w
}.
#[export] Instance only_archive_preorder scope window : PreOrder (only_archive scope window).
Proof.
  split; [by split|]. intros s1 s2 s3 [K1 B1 O1] [K2 B2 O2]. split.
  - congruence.
  - intros. by rewrite B2, B1.
  - intros. by rewrite O2, O1.
Qed.
Lemma only_archive_set scope window rows s s' :
  scope_key s' = scope_key s -> conn s' = set_archive scope window rows (conn s) -> only_archive scope window s s'.
Proof.
  intros Hk Hc. split; [done| |].
  - intros sc kind. unfold blob_at, plain, opened. by rewrite Hc, Hk.
  - intros sc w Hne. rewrite Hc, archive_set. by destruct (decide _).
Qed.
Lemma only_archive_same scope window s s' : same_rows s s' -> only_archive scope window s s'.
Proof. intros H. split; [by destruct H|intros; by apply same_rows_blob|]. destruct H as [-> _]. done. Qed.

Lemma save_version_spec scope window v p s s' r :
  save_synthesis_object_version_in_tx scope window v p s = (s', r) ->
  scope_key s' = scope_key s /\
  match r with
  | Err _ => conn s' = conn s
  | Ok _ => only_archive scope window s s' /\ versions_at s' scope window = {[v]} ∪ versions_at s scope window /\
            version_at s' scope window v = Some p /\
            forall n, n <> v -> version_at s' scope window n = version_at s scope window n
  end.
Proof.
  unfold save_synthesis_object_version_in_tx, try_eff. destruct (sealed _ _ _ s) as [s1 [c|e]] eqn:Ec;
    apply sealed_spec in Ec as [-> Hc].
  2:{ by intros [= <- <-]. }
  specialize (Hc c eq_refl). intros H. destruct r as [[]|e]; apply statement_spec in H as (Hk & Hr); split; try done.
  2:{ by destruct Hr. }
  destruct Hr as (_ & Hdb). split; [by eapply only_archive_set|].
  unfold versions_at, version_at, plain, opened in *. rewrite Hdb, archive_set, decide_True by done.
  rewrite Hk. split; [apply dom_insert_L|]. split.
  - rewrite lookup_insert_eq. exact Hc.
  - intros n Hn. by rewrite lookup_insert_ne by done.
Qed.
Lemma save_version_keys scope window v p : keeps_keys (save_synthesis_object_version_in_tx scope window v p).
Proof. intros s s' r H. by apply save_version_spec in H as [? _]. Qed.

Lemma delete_oldest_spec scope window s s' r :
  delete_oldest_synthesis_object_version_in_tx scope window s = (s', r) ->
  scope_key s' = scope_key s /\
  match r with
  | Err _ => conn s' = conn s
  | Ok _ => only_archive scope window s s' /\
            versions_at s' scope window = versions_at s scope window ∖ list_to_set (take 1 (version_list (archive (conn s) scope window))) /\
            forall n, n ∈ versions_at s' scope window -> version_at s' scope window n = version_at s scope window n
  end.
Proof.
  unfold delete_oldest_synthesis_object_version_in_tx. intros H.
  destruct r as [n|e]; apply statement_spec in H as (Hk & Hr); split; try done; [|by destruct Hr].
  destruct Hr as (_ & Hdb). destruct (version_list (archive (conn s) scope window)) as [|v l] eqn:Ev.
  - split; [by apply only_archive_same|]. unfold versions_at, version_at, plain, opened. rewrite Hdb, Hk.
    split; [set_solver|done].
  - split; [by eapply only_archive_set|]. unfold versions_at, version_at, plain, opened.
    rewrite Hdb, archive_set, decide_True, Hk by done. split; [rewrite dom_delete_L; cbn; set_solver|].
    intros m Hm. rewrite lookup_delete_ne; [done|]. intros ->. set_solver.
Qed.
Lemma delete_oldest_keys scope window : keeps_keys (delete_oldest_synthesis_object_version_in_tx scope window).
Proof. intros s s' r H. by apply delete_oldest_spec in H as [? _]. Qed.

Lemma version_list_elem (rows : gmap N (Row (Nonce := Nonce) (Bytes := Bytes))) n : n ∈ version_list rows <-> n ∈ dom rows.
Proof.
  unfold version_list. rewrite merge_sort_Permutation, elem_of_dom, list_elem_of_fmap. split.
  - intros ([m row] & -> & H%elem_of_map_to_list). by eexists.
  - intros [row H]. exists (n, row). split; [done|]. by apply elem_of_map_to_list.
Qed.
Lemma version_list_sorted (rows : gmap N (Row (Nonce := Nonce) (Bytes := Bytes))) :
  StronglySorted N.le (version_list rows) /\ NoDup (version_list rows).
Proof.
  split.
  - apply (StronglySorted_merge_sort N.le).
  - unfold version_list. rewrite merge_sort_Permutation. apply NoDup_fst_map_to_list.
Qed.

(** The list read back names every archived version, in ascending order. *)
Lemma list_versions_spec scope window s s' r :
  list_synthesis_object_versions scope window s = (s', r) ->
  same_rows s s' /\ forall rows, r = Ok rows -> rows.*1 = version_list (archive (conn s) scope window).
Proof.
  unfold list_synthesis_object_versions, try_eff. destruct (statement _ _ s) as [s1 [rows|e]] eqn:E;
    apply statement_spec in E as (Hk & Hr); [|by intros [= <- <-]; destruct Hr].
  destruct Hr as (-> & Hc). set (out := omap _ _).
  assert (Hout : out.*1 = version_list (archive (conn s) scope window)).
  { subst out. assert (Hin : forall n, n ∈ version_list (archive (conn s) scope window) -> is_Some (archive (conn s) scope window !! n))
      by (intros n Hn; by apply elem_of_dom, version_list_elem).
    revert Hin. induction (version_list (archive (conn s) scope window)) as [|v l IH]; intros Hin; [done|].
    destruct (Hin v) as [row Hrow]; [by left|]. cbn. rewrite Hrow. cbn. f_equal. apply IH. intros n Hn. apply Hin. by right. }
  destruct (existsb _ out); intros [= <- <-]; (split; [by split|]); [done|]. by intros rows [= <-].
Qed.

(** The numbers of the last eight versions before the current one. *)
Definition history (keep : nat) (v : N) (old : gset N) : Prop := forall n, n ∈ old <-> (1 <= n < v)%N /\ (v <= n + N.of_nat keep)%N.
Definition span (keep : nat) (v : N) : list N :=
  let k := Nat.min keep (N.to_nat v - 1) in (fun i => v - N.of_nat k + N.of_nat i)%N <$> seq 0 k.
Lemma span_elem keep v n : n ∈ span keep v <-> (1 <= n < v)%N /\ (v <= n + N.of_nat keep)%N.
Proof.
  unfold span. rewrite list_elem_of_fmap. split.
  - intros (i & -> & Hi%elem_of_seq). lia.
  - intros [H1 H2]. exists (N.to_nat n - (N.to_nat v - Nat.min keep (N.to_nat v - 1)))%nat.
    split; [lia|]. apply elem_of_seq. lia.
Qed.
Lemma span_sorted keep v : StronglySorted N.le (span keep v) /\ NoDup (span keep v).
Proof.
  unfold span. set (k := Nat.min keep (N.to_nat v - 1)). split.
  - generalize (v - N.of_nat k)%N as c, 0%nat as i. intros c. induction k as [|k IH]; intros i; cbn; [constructor|]. constructor; [apply IH|].
    apply Forall_forall. intros x (j & -> & Hj%elem_of_seq)%list_elem_of_fmap. lia.
  - apply NoDup_fmap_2_strong; [|apply NoDup_seq]. intros x y _ _. lia.
Qed.
Lemma history_list keep v (rows : gmap N (Row (Nonce := Nonce) (Bytes := Bytes))) :
  history keep v (dom rows) -> version_list rows = span keep v.
Proof.
  intros Hh. destruct (version_list_sorted rows) as [Hs1 Hn1]. destruct (span_sorted keep v) as [Hs2 Hn2].
  apply (StronglySorted_unique N.le); [done|done|]. apply NoDup_Permutation; [done|done|].
  intros n. by rewrite version_list_elem, span_elem, (Hh n).
Qed.
Lemma length_span keep v : length (span keep v) = Nat.min keep (N.to_nat v - 1).
Proof. unfold span. by rewrite length_fmap, length_seq. Qed.
(** Archiving the current version, the oldest evicted if the archive is full, moves
    the history on by one. *)
Lemma history_step keep v (old new : gset N) :
  (0 < keep)%nat -> (1 <= v)%N -> history keep v old ->
  new = {[v]} ∪ (if (keep <? length (span keep v) + 1)%nat then old ∖ list_to_set (take 1 (span keep v)) else old) ->
  history keep (v + 1) new.
Proof.
  intros Hk Hv Hh -> n. rewrite elem_of_union, elem_of_singleton, length_span.
  destruct (Nat.ltb_spec keep (Nat.min keep (N.to_nat v - 1) + 1)) as [Hfull|Hroom].
  - rewrite elem_of_difference, (Hh n), elem_of_list_to_set.
    assert (Ht : take 1 (span keep v) = [(v - N.of_nat keep)%N]).
    { unfold span. assert (Nat.min keep (N.to_nat v - 1) = keep) as -> by lia. destruct keep; [lia|]. cbn. f_equal. lia. }
    rewrite Ht, list_elem_of_singleton. lia.
  - rewrite (Hh n). lia.
Qed.

(** *** Purging a scope *)

Lemma delete_blobs_spec scope s s' r :
  delete_memory_blobs_for_scope scope s = (s', r) ->
  scope_key s' = scope_key s /\ object_versions (conn s') = object_versions (conn s) /\
  forall sc k, sc <> scope -> blob_at s' sc k = blob_at s sc k.
Proof.
  intros H. destruct r as [[]|e]; apply statement_spec in H as (Hk & _ & Hdb); (split; [done|]).
  - unfold blob_at, plain, opened. rewrite Hdb, Hk. split; [done|]. intros sc k Hne. cbn.
    destruct (memory_objects (conn s) !! (sc, k)) as [row|] eqn:E.
    + by rewrite (map_lookup_filter_Some_2 _ _ _ _ E).
    + by rewrite (map_lookup_filter_None_2 _ _ _ (or_introl E)).
  - unfold blob_at, plain, opened. by rewrite Hdb, Hk.
Qed.
Lemma delete_versions_spec scope s s' r :
  delete_synthesis_object_versions_for_scope scope s = (s', r) ->
  scope_key s' = scope_key s /\ memory_objects (conn s') = memory_objects (conn s) /\
  forall sc w, sc <> scope -> archive (conn s') sc w = archive (conn s) sc w.
Proof.
  intros H. destruct r as [n|e]; apply statement_spec in H as (Hk & _ & Hdb); (split; [done|]).
  - unfold archive. rewrite Hdb. split; [done|]. intros sc w Hne. cbn.
    destruct (object_versions (conn s) !! (sc, w)) as [row|] eqn:E.
    + by rewrite (map_lookup_filter_Some_2 _ _ _ _ E).
    + by rewrite (map_lookup_filter_None_2 _ _ _ (or_introl E)).
  - unfold archive. by rewrite Hdb.
Qed.
End Facts.
