(* ===== verification/SynthesisRate.v ===== *)
(** * The token bucket of server synthesis ([ffi/src/synthesis_rate.rs])

    A continuous-refill bucket over binary64 numbers, and the reading of its
    configuration ([resolve_rate_limiter_config] of [ffi/src/synthesis.rs]). *)

From S2P Require Import Prelude.

Definition f64_one : f64 := f64_of_Z 1.
Definition f64_thousand : f64 := f64_of_Z 1000.

(** [x.ceil() as u64]: saturating, and 0 for a NaN. *)
Definition ceil_as_u64 (x : f64) : N :=
  match x with
  | S754_zero _ | S754_nan => 0%N
  | S754_infinity s => if s then 0%N else u64_max
  | S754_finite s m e =>
      let z := (if s then - Z.pos m else Z.pos m)%Z in
      let c := if (0 <=? e)%Z then (z * 2 ^ e)%Z else (- ((- z) / 2 ^ (- e)))%Z in
      N.min (Z.to_N c) u64_max
  end.

(** [struct TokenBucket]; [new], [reconfigure] (less its debug assertions). *)
Record TokenBucket : Type := mk_bucket {
  capacity : N;
  refill_per_sec : f64;
  tokens : f64;
  last_refill : instant
}.
Definition new_bucket (cap : N) (refill : f64) (now : instant) : TokenBucket := mk_bucket cap refill (f64_of_N cap) now.
Definition reconfigure (cap : N) (refill : f64) (b : TokenBucket) : TokenBucket :=
  mk_bucket cap refill (if f64_ltb (f64_of_N cap) (tokens b) then f64_of_N cap else tokens b) (last_refill b).

(** [refill]; [num_milliseconds] truncates. *)
Definition refill (now : instant) (b : TokenBucket) : TokenBucket :=
  let elapsed := (now - last_refill b)%Z in
  if (elapsed <=? 0)%Z then b
  else
    let elapsed_ms := f64_of_Z (Z.quot elapsed 1000000) in
    let added := f64_mul (f64_div elapsed_ms f64_thousand) (refill_per_sec b) in
    mk_bucket (capacity b) (refill_per_sec b) (f64_min (f64_add (tokens b) added) (f64_of_N (capacity b))) now.

(** [try_acquire]. *)
Definition try_acquire (now : instant) : eff TokenBucket N unit := fun b =>
  let b := refill now b in
  if f64_leb f64_one (tokens b)
  then (mk_bucket (capacity b) (refill_per_sec b) (f64_sub (tokens b) f64_one) (last_refill b), Ok tt)
  else
    let deficit := f64_sub f64_one (tokens b) in
    let wait_secs := f64_div deficit (refill_per_sec b) in
    (b, Err (N.max (ceil_as_u64 (f64_mul wait_secs f64_thousand)) 1)).

(** [resolve_rate_limiter_config]: zero stands for the default; [None] is the
    refusal. *)
Definition DEFAULT_TRIGGER_RATE_CAPACITY : N := 8.
Definition DEFAULT_TRIGGER_RATE_REFILL_PER_SEC : f64 := f64_of_Z 1.
Definition is_finite (x : f64) : bool := match x with S754_zero _ | S754_finite _ _ _ => true | _ => false end.
Definition resolve_rate_limiter_config (rate_capacity : N) (rate_refill_per_sec : f64) : option (N * f64) :=
  let cap := if (rate_capacity =? 0)%N then DEFAULT_TRIGGER_RATE_CAPACITY else rate_capacity in
  let refill := if f64_eqb rate_refill_per_sec (f64_of_Z 0) then DEFAULT_TRIGGER_RATE_REFILL_PER_SEC else rate_refill_per_sec in
  if negb (is_finite refill) || f64_leb refill (f64_of_Z 0) then None else Some (cap, refill).

(** ** Facts *)

(** The clock of the bucket never runs back, and time that does credits nothing. *)
Lemma refill_clock now b : (last_refill b <= last_refill (refill now b))%Z.
Proof. unfold refill. destruct (now - last_refill b <=? 0)%Z eqn:E; cbn; bool_to_prop; lia. Qed.
Lemma refill_back now b : (now <= last_refill b)%Z -> refill now b = b.
Proof. intros H. unfold refill. destruct (now - last_refill b <=? 0)%Z eqn:E; [done|]. bool_to_prop. lia. Qed.

(** A refusal names a wait of at least a millisecond and takes nothing. *)
Lemma try_acquire_refused now b b' wait : try_acquire now b = (b', Err wait) -> b' = refill now b /\ (1 <= wait)%N.
Proof. unfold try_acquire. destruct (f64_leb _ _); intros [= <- <-]. split; [done|lia]. Qed.
Lemma try_acquire_granted now b b' :
  try_acquire now b = (b', Ok tt) -> f64_leb f64_one (tokens (refill now b)) = true /\
  tokens b' = f64_sub (tokens (refill now b)) f64_one.
Proof. unfold try_acquire. destruct (f64_leb _ _) eqn:E; intros [= <-]. done. Qed.

(** The default bucket admits eight calls at once, then one a second. *)
Example default_burst :
  let b := new_bucket DEFAULT_TRIGGER_RATE_CAPACITY DEFAULT_TRIGGER_RATE_REFILL_PER_SEC 0 in
  let b8 := foldl (fun b _ => (try_acquire 0 b).1) b (seq 0 8) in
  (try_acquire 0 (foldl (fun b _ => (try_acquire 0 b).1) b (seq 0 7))).2 = Ok tt /\
  (try_acquire 0 b8).2 = Err 1000%N /\ (try_acquire 750000000 b8).2 = Err 250%N /\ (try_acquire 1000000000 b8).2 = Ok tt.
Proof. repeat split; vm_compute; reflexivity. Qed.
