(* ===== verification/ServerSynthesis.v ===== *)
(** * Server-side synthesis ([ffi/src/synthesis.rs], [ffi/src/runtime.rs])

    A synthesis run has three phases: under the lock of the runtime it gathers its
    input and opens (or, for a replay, reopens) a window; without the lock it asks
    the engine; under the lock again it applies the answer, in one transaction of the
    store and then in memory.  Other runs, replays and the forgetting of scopes may
    come between the phases; opening a store recovers from a crash between them.
    What the engine answers is arbitrary. *)

From stdpp Require Import sorting.
From S2P Require Import Prelude Http ChannelMemory DomainMemory.
From S2P Require Import TenantMemory SynthesisWindow SynthesisHierarchy SynthesisStore SynthesisRate.

(** ** Constants, errors *)

Definition PER_SCOPE_COOLDOWN_SECS : Z := 300.
Definition DEFAULT_WINDOW_DURATION_SECS : Z := 604800.
Definition WINDOW_RETENTION_CAP_PER_SCOPE : nat := 20.
Definition MAX_SYNTHESIS_OUTPUT_BYTES : N := 32768.
Definition LIST_RECENT_SYNTHESES_CAP : nat := 50.
Definition MAX_APPROVED_DOCUMENTS_PER_DISPATCH : nat := 16.
Definition MAX_SYNTHESIS_VERSIONS_PER_WINDOW : nat := 8.
Definition STUCK_PENDING_THRESHOLD_SECS : Z := 3600.
Definition seconds (n : Z) : duration := (n * 1000000000)%Z.
Definition DOMAIN_MEMORY_KIND : string := "domain_memory".
Definition TENANT_MEMORY_KIND : string := "tenant_memory".
Definition CHANNEL_MEMORY_KIND : string := "channel_memory".
Definition SYNTHESIS_WINDOWS_KIND : string := "synthesis_windows".
Definition SYNTHESIS_OBJECT_KIND : string := "synthesis_object".
(** [synthesis_windows_scope]: the nil UUID. *)
Definition synthesis_windows_scope : uuid := 0%N.

Inductive SynthesisTierKind : Type := KindDomain | KindTenant.
#[export] Instance SynthesisTierKind_eq_dec : EqDecision SynthesisTierKind. Proof. solve_decision. Defined.
#[export] Instance SynthesisTierKind_countable : Countable SynthesisTierKind.
Proof.
  refine (inj_countable' (fun k => match k with KindDomain => false | KindTenant => true end)
            (fun b : bool => if b then KindTenant else KindDomain) _). by intros [].
Defined.
Definition kind_str (k : SynthesisTierKind) : string := match k with KindDomain => "domain" | KindTenant => "tenant" end.
(** The object a run of a kind must emit; [window_scope_tier_to_synthesis_tier]. *)
Definition expected_object (k : SynthesisTierKind) : SynthesisObjectType :=
  match k with KindDomain => DomainSummary | KindTenant => TenantSummary end.
Definition window_scope_tier_to_synthesis_tier (t : WindowScopeTier) : SynthesisTierKind :=
  match t with Channel | Domain => KindDomain | Tenant => KindTenant end.

(** The messages of [FfiError::Synthesis], with what they print. *)
Inductive Failure : Type :=
| EngineFailed (err : string)
| OversizeOutput (len : N)
| ScopeWindowMismatch (scope window : uuid)
| ObjectTypeMismatch (got : SynthesisObjectType) (tier : SynthesisTierKind)
| InputRejected (e : PipelineError)
| OpenFailed (e : PipelineError)
| MarkFailedOn (e : PipelineError)
| NotComplete (window : uuid) (status : WindowStatus)
| NoTier (window : uuid).
Inductive FfiError : Type :=
| InvalidId (msg : string)
| NotFound (kind : string) (id : uuid)
| Unavailable (subsystem : string)
| NotBound (scope : uuid)
| Throttled (retry_after_ms : N)
| Synthesis (why : Failure)
| Memory (msg : string)
| Evidence (e : EvidenceError).

(** A string from its bytes; [String::from_utf8] with its lossy fallback. *)
Fixpoint bytes_string (l : list N) : string :=
  match l with [] => EmptyString | b :: l => String (Ascii.ascii_of_N b) (bytes_string l) end.
Definition recap_text (bytes : list N) : string := bytes_string (from_utf8_lossy bytes).

(** [sort_by_key(Reverse(key))] is stable; [max_by_key] takes the last of the
    greatest. *)
Definition newer {A} (key : A -> Z) (x y : A) : Prop := (key y <= key x)%Z.
#[export] Instance newer_dec {A} (key : A -> Z) : RelDecision (newer key).
Proof. intros x y. unfold newer. apply _. Defined.
Definition newest_first {A} (key : A -> Z) (l : list A) : list A := merge_sort (newer key) l.
Definition max_by_key {A} (key : A -> Z) (l : list A) : option A :=
  foldl (fun best x => match best with
                       | Some b => if (key x <? key b)%Z then best else Some x
                       | None => Some x
                       end) None l.

(** ** The runtime *)

Section Synthesis.
Context {Json Engine Key Nonce Bytes : Type}.
Context {AE : Aead Key Nonce Bytes} {IN : Inhabited Nonce} {HO : HashOrder}.
Context {SW : Serde Bytes SynthesisWindowManager} {SO : Serde Bytes SynthesisObject} {SL : Serde Bytes (list SynthesisObject)}.
Context {SD : Serde Bytes (DomainMemoryObject (Json := Json))} {ST : Serde Bytes (TenantMemoryObject (Json := Json))}.
Context {SC : Serde Bytes (ChannelMemoryObject (Json := Json))}.

(** [struct FfiRuntime], the fields synthesis uses; the tombstones stand for
    [is_scope_forgotten]. *)
Record FfiRuntime : Type := mk_runtime {
  store : EvidenceStore (Key := Key) (Nonce := Nonce) (Bytes := Bytes);
  tombstones : gset uuid;
  channel_memories : gmap uuid (ChannelMemoryObject (Json := Json));
  domain_memories : gmap uuid (DomainMemoryObject (Json := Json));
  tenant_memories : gmap uuid (TenantMemoryObject (Json := Json));
  synthesis_windows : SynthesisWindowManager;
  synthesis_engine : option Engine;
  synthesis_scope_bindings : option (list uuid);
  synthesis_cooldowns : gmap (uuid * SynthesisTierKind) instant;
  synthesis_objects : gmap uuid (gmap uuid SynthesisObject);
  synthesis_rate_limiter : TokenBucket
}.
Definition with_store (rt : FfiRuntime) s := mk_runtime s (tombstones rt) (channel_memories rt) (domain_memories rt)
  (tenant_memories rt) (synthesis_windows rt) (synthesis_engine rt) (synthesis_scope_bindings rt) (synthesis_cooldowns rt)
  (synthesis_objects rt) (synthesis_rate_limiter rt).
Definition with_windows (rt : FfiRuntime) m := mk_runtime (store rt) (tombstones rt) (channel_memories rt) (domain_memories rt)
  (tenant_memories rt) m (synthesis_engine rt) (synthesis_scope_bindings rt) (synthesis_cooldowns rt)
  (synthesis_objects rt) (synthesis_rate_limiter rt).
Definition with_limiter (rt : FfiRuntime) b := mk_runtime (store rt) (tombstones rt) (channel_memories rt) (domain_memories rt)
  (tenant_memories rt) (synthesis_windows rt) (synthesis_engine rt) (synthesis_scope_bindings rt) (synthesis_cooldowns rt)
  (synthesis_objects rt) b.
Definition with_engine (rt : FfiRuntime) e bs b := mk_runtime (store rt) (tombstones rt) (channel_memories rt) (domain_memories rt)
  (tenant_memories rt) (synthesis_windows rt) e bs (synthesis_cooldowns rt) (synthesis_objects rt) b.
(** What [apply_dispatch_outcome] swaps in after its commit. *)
Definition with_outcome (rt : FfiRuntime) windows objects domains tenants cooldowns := mk_runtime (store rt) (tombstones rt)
  (channel_memories rt) domains tenants windows (synthesis_engine rt) (synthesis_scope_bindings rt) cooldowns objects
  (synthesis_rate_limiter rt).

(** What a call reads outside: the successive readings of the clock and random
    identifiers, and the answers of the table of approved documents. *)
Record Env : Type := mk_env {
  now : nat -> instant;
  fresh : nat -> uuid;
  document : uuid -> uuid -> result (option (list N)) EvidenceError
}.

(** A call on the store or on the windows alone. *)
Definition on_store {A} (m : eff (EvidenceStore (Key := Key)) EvidenceError A) : eff FfiRuntime FfiError A := fun rt =>
  let '(s, r) := m (store rt) in
  (with_store rt s, match r with Ok a => Ok a | Err e => Err (Evidence e) end).
Definition on_windows {A} (wrap : PipelineError -> FfiError) (m : eff SynthesisWindowManager PipelineError A) :
    eff FfiRuntime FfiError A := fun rt =>
  let '(w, r) := m (synthesis_windows rt) in
  (with_windows rt w, match r with Ok a => Ok a | Err e => Err (wrap e) end).
Definition get {A} (f : FfiRuntime -> A) : eff FfiRuntime FfiError A := fun rt => (rt, Ok (f rt)).
Definition lift {A} (r : result A FfiError) : eff FfiRuntime FfiError A := fun rt => (rt, r).
(** [let _ = m], [if let Err(e) = m { warn }]. *)
Definition best_effort {A} (m : eff FfiRuntime FfiError A) : eff FfiRuntime FfiError unit := fun rt => ((m rt).1, Ok tt).

Definition is_scope_forgotten (rt : FfiRuntime) (scope : uuid) : bool := bool_decide (scope ∈ tombstones rt).
(** [synthesis_objects_for_scope], [synthesis_object_in]. *)
Definition synthesis_objects_for_scope (rt : FfiRuntime) (scope : uuid) : option (gmap uuid SynthesisObject) :=
  synthesis_objects rt !! scope.
Definition synthesis_object_in (rt : FfiRuntime) (scope window : uuid) : option SynthesisObject :=
  match synthesis_objects rt !! scope with Some inner => inner !! window | None => None end.

(** [flush_synthesis_windows]. *)
Definition flush_synthesis_windows : eff FfiRuntime FfiError unit :=
  do? windows := get synthesis_windows in
  do? json := lift (ok_or (to_vec windows) (Memory "failed to serialize synthesis windows")) in
  on_store (save_memory_blob synthesis_windows_scope SYNTHESIS_WINDOWS_KIND json).

(** [enforce_scope_binding]. *)
Definition enforce_scope_binding (scope : uuid) : eff FfiRuntime FfiError unit := fun rt =>
  match synthesis_scope_bindings rt with
  | None => (rt, Ok tt)
  | Some bindings => (rt, if existsb (fun u => (u =? scope)%N) bindings then Ok tt else Err (NotBound scope))
  end.

(** ** Gathering *)

(** [newest_object_for_scope_of_type]. *)
Definition newest_object_for_scope_of_type (rt : FfiRuntime) (scope : uuid) (kind : SynthesisObjectType) :
    option SynthesisObject :=
  match synthesis_objects_for_scope rt scope with
  | None => None
  | Some inner =>
      max_by_key o_created_at (List.filter (fun o => bool_decide (object_type o = kind)) (hash_order (map_to_list inner)).*2)
  end.

(** [gather_channel_outputs], [gather_domain_outputs]: one entry, then the loop.  An
    object made up on the fly takes the entry's identifiers and clock. *)
Definition ok_list {A E} (r : result A E) : list A := match r with Ok a => [a] | Err _ => [] end.
Definition gather_channel (env : Env) (rt : FfiRuntime) (n : nat) (channel : uuid) : list ChannelOutput :=
  match newest_object_for_scope_of_type rt channel ChannelRecap with
  | Some o => ok_list (from_channel_object o)
  | None =>
      match channel_memories rt !! channel with
      | None => []
      | Some cmo =>
          if bool_decide (ChannelMemory.recap cmo = EmptyString) then []
          else ok_list (from_channel_object
                 (new_object (fresh env (2 * n)) (now env n) channel (fresh env (2 * n + 1)) ChannelRecap
                    (string_bytes (ChannelMemory.recap cmo)) 0))
      end
  end.
Definition gather_channel_outputs (env : Env) (rt : FfiRuntime) (domain : DomainMemoryObject (Json := Json)) : list ChannelOutput :=
  concat (imap (fun n => gather_channel env rt (10 + n)) (channel_scopes domain)).
Definition gather_domain (env : Env) (rt : FfiRuntime) (n : nat) (domain : uuid) : list DomainOutput :=
  match newest_object_for_scope_of_type rt domain DomainSummary with
  | Some o => ok_list (from_domain_object o)
  | None =>
      match domain_memories rt !! domain with
      | None => []
      | Some dmo =>
          if bool_decide (DomainMemory.recap dmo = EmptyString) then []
          else ok_list (from_domain_object
                 (new_object (fresh env (2 * n)) (now env n) domain (fresh env (2 * n + 1)) DomainSummary
                    (string_bytes (DomainMemory.recap dmo)) 0))
      end
  end.
Definition gather_domain_outputs (env : Env) (rt : FfiRuntime) (tenant : TenantMemoryObject (Json := Json)) : list DomainOutput :=
  concat (imap (fun n => gather_domain env rt (10 + n)) (domain_scopes tenant)).

(** The references sent: the most recently approved ones up to the cap.
    [materialise_approved_documents]. *)
Definition sent_refs (tenant : TenantMemoryObject (Json := Json)) : list ApprovedDocumentRef :=
  take MAX_APPROVED_DOCUMENTS_PER_DISPATCH (newest_first approved_at (approved_documents tenant)).
Fixpoint materialise_approved_documents (env : Env) (scope : uuid) (refs : list ApprovedDocumentRef) :
    result (list ApprovedDocument) FfiError :=
  match refs with
  | [] => Ok []
  | r :: refs =>
      match document env scope (doc_id r) with
      | Err e => Err (Evidence e)
      | Ok None => materialise_approved_documents env scope refs
      | Ok (Some bytes) =>
          let? docs := materialise_approved_documents env scope refs in Ok (mk_approved r bytes :: docs)
      end
  end.

(** ** Planning a dispatch *)

(** [DomainDispatchPlan], [TenantDispatchPlan], [DispatchPlan], [ReplayPlan]. *)
Record Plan (Input : Type) : Type := mk_plan {
  plan_engine : Engine;
  window_handle : TieredWindowHandle;
  plan_input : Input;
  windows_clone : SynthesisWindowManager
}.
Inductive DispatchPlan : Type :=
| PlanDomain (p : Plan DomainSynthesisInput)
| PlanTenant (p : Plan TenantSynthesisInput)
| Cooldown (window : uuid).
Inductive ReplayPlan : Type :=
| ReplayDomain (p : Plan DomainSynthesisInput)
| ReplayTenant (p : Plan TenantSynthesisInput).

(** [newest_complete_window]. *)
Definition newest_complete_window (rt : FfiRuntime) (scope : uuid) (tier : SynthesisTierKind) : option uuid :=
  w_id <$> max_by_key window_end
    (List.filter (fun w => bool_decide (w_status w = Complete) &&
                           match synthesis_object_in rt scope (w_id w) with
                           | Some o => bool_decide (object_type o = expected_object tier)
                           | None => false
                           end)
       (windows_for scope (synthesis_windows rt))).
(** The cooldown short circuit. *)
Definition in_cooldown (env : Env) (rt : FfiRuntime) (scope : uuid) (tier : SynthesisTierKind) : option uuid :=
  match synthesis_cooldowns rt !! (scope, tier) with
  | None => None
  | Some last_completed =>
      if (now env 0 - last_completed <? seconds PER_SCOPE_COOLDOWN_SECS)%Z then newest_complete_window rt scope tier else None
  end.
(** [rt.synthesis_rate_limiter.try_acquire(..)] and what its refusal becomes. *)
Definition acquire_token (at_ : instant) : eff FfiRuntime FfiError unit := fun rt =>
  let '(b, r) := try_acquire at_ (synthesis_rate_limiter rt) in
  (with_limiter rt b, match r with Ok _ => Ok tt | Err wait => Err (Throttled wait) end).
Definition require_engine : eff FfiRuntime FfiError Engine := fun rt =>
  (rt, ok_or (synthesis_engine rt) (Unavailable "synthesis_engine")).

(** The input of a run: what both [build_dispatch_plan] and [build_replay_plan]
    gather. *)
Definition domain_input (env : Env) (scope : uuid) : eff FfiRuntime FfiError DomainSynthesisInput := fun rt =>
  (rt, match domain_memories rt !! scope with
       | None => Err (NotFound "domain_memory" scope)
       | Some domain =>
           match new_domain_input (now env 3) domain (gather_channel_outputs env rt domain) with
           | Err e => Err (Synthesis (InputRejected e))
           | Ok input => Ok input
           end
       end).
Definition tenant_input (env : Env) (scope : uuid) : eff FfiRuntime FfiError TenantSynthesisInput := fun rt =>
  (rt, match tenant_memories rt !! scope with
       | None => Err (NotFound "tenant_memory" scope)
       | Some tenant =>
           let? docs := materialise_approved_documents env scope (sent_refs tenant) in
           match new_tenant_input (now env 3) tenant (gather_domain_outputs env rt tenant) docs with
           | Err e => Err (Synthesis (InputRejected e))
           | Ok input => Ok input
           end
       end).

(** Opening the window of a run, persisting it and snapshotting the manager. *)
Definition open_for {Input} (env : Env) (scope : uuid) (tier : WindowScopeTier) (engine : Engine) (input : Input) :
    eff FfiRuntime FfiError (Plan Input) :=
  do? handle := on_windows (fun e => Synthesis (OpenFailed e))
                  (open_tiered_window (fresh env 0) (now env 4) scope tier
                     (now env 2 - seconds DEFAULT_WINDOW_DURATION_SECS) (now env 2)) in
  do? _ := flush_synthesis_windows in
  do? windows := get synthesis_windows in
  ret (mk_plan Input engine handle input windows).

(** [build_dispatch_plan]. *)
Definition build_dispatch_plan (env : Env) (scope : uuid) (tier : SynthesisTierKind) : eff FfiRuntime FfiError DispatchPlan :=
  do? forgotten := get (fun rt => is_scope_forgotten rt scope) in
  do? _ := ensure (negb forgotten) (NotFound "scope" scope) in
  do? engine := require_engine in
  do? _ := enforce_scope_binding scope in
  do? recent := get (fun rt => in_cooldown env rt scope tier) in
  match recent with
  | Some window => ret (Cooldown window)
  | None =>
      do? _ := acquire_token (now env 1) in
      match tier with
      | KindDomain =>
          do? input := domain_input env scope in
          do? plan := open_for env scope Domain engine input in
          ret (PlanDomain plan)
      | KindTenant =>
          do? input := tenant_input env scope in
          do? plan := open_for env scope Tenant engine input in
          ret (PlanTenant plan)
      end
  end.

(** [build_replay_plan]: the window is reopened and flushed before its input is
    gathered. *)
Definition find_window (rt : FfiRuntime) (scope window : uuid) : option SynthesisWindow :=
  List.find (fun w => (w_id w =? window)%N) (windows_for scope (synthesis_windows rt)).
Definition build_replay_plan (env : Env) (scope window : uuid) : eff FfiRuntime FfiError ReplayPlan :=
  do? forgotten := get (fun rt => is_scope_forgotten rt scope) in
  do? _ := ensure (negb forgotten) (NotFound "scope" scope) in
  do? _ := enforce_scope_binding scope in
  do? engine := require_engine in
  do? found := get (fun rt => find_window rt scope window) in
  do? w := lift (ok_or found (NotFound "synthesis_window" window)) in
  do? _ := ensure (bool_decide (w_status w = Complete)) (Synthesis (NotComplete window (w_status w))) in
  do? tier := lift (ok_or (w_tier w) (Synthesis (NoTier window))) in
  do? _ := acquire_token (now env 1) in
  let handle := mk_handle window scope tier in
  do? _ := on_windows (fun e => Synthesis (MarkFailedOn e)) (mark_replay_pending window) in
  do? _ := flush_synthesis_windows in
  match window_scope_tier_to_synthesis_tier tier with
  | KindDomain =>
      do? input := domain_input env scope in
      do? windows := get synthesis_windows in
      ret (ReplayDomain (mk_plan _ engine handle input windows))
  | KindTenant =>
      do? input := tenant_input env scope in
      do? windows := get synthesis_windows in
      ret (ReplayTenant (mk_plan _ engine handle input windows))
  end.

(** ** Applying what the engine answered *)

(** [fail_window_on_live_manager]. *)
Definition fail_window_on_live_manager (window : uuid) : eff FfiRuntime FfiError unit := fun rt =>
  let m := (mark_in_progress window (synthesis_windows rt)).1 in
  (with_windows rt (mark_failed window m).1, Ok tt).
(** The failure paths: mark, flush as well as may be, and report. *)
Definition fail_with {A} (window : uuid) (e : FfiError) : eff FfiRuntime FfiError A :=
  do? _ := fail_window_on_live_manager window in
  do? _ := best_effort flush_synthesis_windows in
  throw e.

(** [prune_completed_windows_on]: the identifiers pruned, the windows and the
    objects left. *)
Definition prune_ids (windows : SynthesisWindowManager) (scope : uuid) (max_per_scope : nat) : list uuid :=
  let completed := List.filter (fun w => bool_decide (w_status w = Complete)) (windows_for scope windows) in
  if (length completed <=? max_per_scope)%nat then []
  else w_id <$> drop max_per_scope (newest_first window_end completed).
Definition prune_completed_windows_on (windows : SynthesisWindowManager) (objects : gmap uuid SynthesisObject)
    (scope : uuid) (max_per_scope : nat) : SynthesisWindowManager * gmap uuid SynthesisObject * list uuid :=
  let prune := prune_ids windows scope max_per_scope in
  match prune with
  | [] => (windows, objects, [])
  | _ => (remove_windows scope prune windows, foldl (fun o i => delete i o) objects prune, prune)
  end.

(** The archive entry of the object the new one replaces: its version, its JSON and
    whether the oldest archived row must go. *)
Definition plan_archive (scope window : uuid) : eff FfiRuntime FfiError (option (N * Bytes * bool)) :=
  do? prior := get (fun rt => synthesis_object_in rt scope window) in
  match prior with
  | None => ret None
  | Some prior =>
      do? json := lift (ok_or (to_vec prior) (Memory "failed to serialize prior synthesis object for archive")) in
      do? rows := on_store (list_synthesis_object_versions scope window) in
      ret (Some (version prior, json, (MAX_SYNTHESIS_VERSIONS_PER_WINDOW <? length rows + 1)%nat))
  end.

(** What the transaction writes. *)
Record Outcome : Type := mk_outcome {
  windows_after : SynthesisWindowManager;
  scope_objects_after : gmap uuid SynthesisObject;
  memory_after : DomainMemoryObject (Json := Json) + TenantMemoryObject (Json := Json)
}.
Definition write_archive (scope window : uuid) (prior_archive : option (N * Bytes * bool)) :
    eff (EvidenceStore (Key := Key)) EvidenceError unit :=
  match prior_archive with
  | None => ret tt
  | Some (prior_version, prior_json, should_evict_oldest) =>
      do? _ := (if should_evict_oldest : bool
                then do? _ := delete_oldest_synthesis_object_version_in_tx scope window in ret tt
                else ret tt) in
      save_synthesis_object_version_in_tx scope window prior_version prior_json
  end.
Definition apply_transaction (scope window : uuid) (memory_kind : string) (objects_json memory_json windows_json : Bytes)
    (prior_archive : option (N * Bytes * bool)) : eff (EvidenceStore (Key := Key)) EvidenceError unit :=
  with_transaction
    (do? _ := save_memory_blob_in_tx scope SYNTHESIS_OBJECT_KIND objects_json in
     do? _ := save_memory_blob_in_tx scope memory_kind memory_json in
     do? _ := save_memory_blob_in_tx synthesis_windows_scope SYNTHESIS_WINDOWS_KIND windows_json in
     write_archive scope window prior_archive).

(** The memory with the new recap. *)
Definition recapped (env : Env) (rt : FfiRuntime) (scope window : uuid) (tier : SynthesisTierKind) (bytes : list N) :
    DomainMemoryObject (Json := Json) + TenantMemoryObject (Json := Json) :=
  match tier with
  | KindDomain =>
      inl (DomainMemory.update_recap (now env 5) (recap_text bytes) (Some window)
             (default (DomainMemory.new (fresh env 1) (now env 4) scope) (domain_memories rt !! scope)))
  | KindTenant =>
      inr (update_summary (now env 5) (recap_text bytes) (Some window)
             (default (TenantMemory.new (fresh env 1) (now env 4) scope) (tenant_memories rt !! scope)))
  end.
Definition memory_json (m : DomainMemoryObject (Json := Json) + TenantMemoryObject (Json := Json)) : option Bytes :=
  match m with inl d => to_vec d | inr t => to_vec t end.
Definition memory_kind (m : DomainMemoryObject (Json := Json) + TenantMemoryObject (Json := Json)) : string :=
  match m with inl _ => DOMAIN_MEMORY_KIND | inr _ => TENANT_MEMORY_KIND end.

(** The checks an object must pass, with the errors in their order. *)
Definition check_object (scope window : uuid) (tier : SynthesisTierKind) (o : SynthesisObject) : option Failure :=
  if (MAX_SYNTHESIS_OUTPUT_BYTES <? N.of_nat (length (payload o)))%N then Some (OversizeOutput (N.of_nat (length (payload o))))
  else if negb (o_scope_id o =? scope)%N || negb (o_window_id o =? window)%N
  then Some (ScopeWindowMismatch (o_scope_id o) (o_window_id o))
  else if negb (bool_decide (object_type o = expected_object tier)) then Some (ObjectTypeMismatch (object_type o) tier)
  else None.

(** The state after the commit. *)
Definition swap_in (env : Env) (scope : uuid) (tier : SynthesisTierKind) (out : Outcome) (rt : FfiRuntime) : FfiRuntime :=
  with_outcome rt (windows_after out)
    (if bool_decide (scope_objects_after out = ∅) then delete scope (synthesis_objects rt)
     else <[scope := scope_objects_after out]> (synthesis_objects rt))
    (match memory_after out with inl d => <[scope := d]> (domain_memories rt) | inr _ => domain_memories rt end)
    (match memory_after out with inl _ => tenant_memories rt | inr t => <[scope := t]> (tenant_memories rt) end)
    (<[(scope, tier) := now env 6]> (synthesis_cooldowns rt)).

(** [apply_dispatch_outcome]: the part after the checks. *)
Definition land (env : Env) (scope : uuid) (tier : SynthesisTierKind) (handle : TieredWindowHandle) (o : SynthesisObject) :
    eff FfiRuntime FfiError uuid :=
  let window := o_window_id o in
  do? prior_archive := plan_archive scope window in
  let o := match prior_archive with Some (v, _, _) => set_version o (u32_saturating_add v 1) | None => o end in
  do? rt := get (fun rt => rt) in
  do? claimed := lift (match mark_in_progress (h_window_id handle) (synthesis_windows rt) with
                       | (m, Ok _) => Ok m | (_, Err e) => Err (Synthesis (MarkFailedOn e)) end) in
  do? completed := lift (match mark_complete (h_window_id handle) claimed with
                         | (m, Ok _) => Ok m | (_, Err e) => Err (Synthesis (MarkFailedOn e)) end) in
  let inserted := <[window := o]> (default ∅ (synthesis_objects_for_scope rt scope)) in
  let '(windows, objects, pruned) := prune_completed_windows_on completed inserted scope WINDOW_RETENTION_CAP_PER_SCOPE in
  let out := mk_outcome windows objects (recapped env rt scope window tier (payload o)) in
  do? objects_json := lift (ok_or (to_vec (hash_order (map_to_list objects)).*2) (Memory "failed to serialize synthesis objects")) in
  do? memory_json := lift (ok_or (memory_json (memory_after out)) (Memory "failed to serialize memory")) in
  do? windows_json := lift (ok_or (to_vec windows) (Memory "failed to serialize synthesis windows")) in
  fun rt =>
    match on_store (apply_transaction scope window (memory_kind (memory_after out)) objects_json memory_json windows_json
                      prior_archive) rt with
    | (rt, Err e) => fail_with (h_window_id handle) e rt
    | (rt, Ok _) => (swap_in env scope tier out rt, Ok window)
    end.

Definition apply_dispatch_outcome (env : Env) (scope : uuid) (tier : SynthesisTierKind) (handle : TieredWindowHandle)
    (dispatch_result : result SynthesisObject string) : eff FfiRuntime FfiError uuid :=
  do? forgotten := get (fun rt => is_scope_forgotten rt scope) in
  do? _ := ensure (negb forgotten) (Unavailable "scope_forgotten") in
  do? present := get (fun rt => SynthesisWindow.get (h_window_id handle) (synthesis_windows rt)) in
  do? _ := lift (ok_or present (Unavailable "synthesis_window")) in
  match dispatch_result with
  | Err e => fail_with (h_window_id handle) (Synthesis (EngineFailed e))
  | Ok o =>
      match check_object scope (h_window_id handle) tier o with
      | Some why => fail_with (h_window_id handle) (Synthesis why)
      | None => land env scope tier handle o
      end
  end.

(** ** Reading *)

(** [struct SynthesisStatusRecord] and [window_to_record]; times in seconds. *)
Record SynthesisStatusRecord : Type := mk_record {
  synthesis_id : uuid;
  r_scope_id : uuid;
  r_tier : string;
  r_status : string;
  window_start_unix : Z;
  window_end_unix : Z;
  r_object_id : option uuid;
  r_object_version : option N
}.
Definition timestamp (t : instant) : Z := (t / 1000000000)%Z.
Definition window_to_record (rt : FfiRuntime) (w : SynthesisWindow) : SynthesisStatusRecord :=
  let o := synthesis_object_in rt (w_scope_id w) (w_id w) in
  let tier := match w_tier w with
              | Some t => tier_str t
              | None =>
                  match object_type <$> o with
                  | None => "unknown"
                  | Some ChannelRecap => "channel" | Some DomainSummary => "domain"
                  | Some TenantSummary => "tenant" | Some EpisodicSummary => "episodic"
                  end
              end in
  mk_record (w_id w) (w_scope_id w) tier (status_str (w_status w)) (timestamp (window_start w)) (timestamp (window_end w))
    (o_id <$> o) (version <$> o).

(** [synthesis_status], [list_recent_syntheses]. *)
Definition synthesis_status (window : uuid) : eff FfiRuntime FfiError SynthesisStatusRecord := fun rt =>
  (rt, match SynthesisWindow.get window (synthesis_windows rt) with
       | None => Err (NotFound "synthesis_window" window)
       | Some w => Ok (window_to_record rt w)
       end).
Definition list_recent_syntheses (scope : uuid) : eff FfiRuntime FfiError (list SynthesisStatusRecord) := fun rt =>
  (rt, Ok (if is_scope_forgotten rt scope then []
           else take LIST_RECENT_SYNTHESES_CAP
                  (newest_first window_end_unix (window_to_record rt <$> windows_for scope (synthesis_windows rt))))).

(** [list_synthesis_versions]: the scope that owns an object of the window, in the
    order of the table, then the latest version and the archived ones. *)
Record SynthesisVersionSummary : Type := mk_version {
  v_version : N; v_created_at_unix : Z; v_object_type : string; v_is_latest : bool
}.
Definition owner_of (rt : FfiRuntime) (window : uuid) : option (uuid * SynthesisObject) :=
  head (omap (fun kv : uuid * gmap uuid SynthesisObject => (fun o => (kv.1, o)) <$> kv.2 !! window)
          (hash_order (map_to_list (synthesis_objects rt)))).
Definition list_synthesis_versions (window : uuid) : eff FfiRuntime FfiError (list SynthesisVersionSummary) :=
  do? found := get (fun rt => owner_of rt window) in
  match found with
  | None => ret []
  | Some (scope, latest) =>
      do? rows := on_store (list_synthesis_object_versions scope window) in
      let sorted := newest_first (fun vt : N * Z => Z.of_N vt.1) rows in
      ret (mk_version (version latest) (timestamp (o_created_at latest)) (object_type_str (object_type latest)) true
           :: ((fun vt : N * Z => mk_version vt.1 vt.2 (object_type_str (object_type latest)) false) <$>
               List.filter (fun vt : N * Z => negb (vt.1 =? version latest)%N) sorted))
  end.

(** ** Forgetting a scope *)

(** [forget_scope_state], the part of synthesis: what follows the destruction of the
    scope's key ([ForgetScope]), which leaves the keys [keys].  The steps that follow
    are tried whatever fails; the first failure of a deletion is reported. *)
Definition with_tombstone (rt : FfiRuntime) (scope : uuid) keys := mk_runtime
  (mk_store (conn (store rt)) keys (tape (store rt))) ({[scope]} ∪ tombstones rt) (channel_memories rt) (domain_memories rt)
  (tenant_memories rt) (synthesis_windows rt) (synthesis_engine rt) (synthesis_scope_bindings rt) (synthesis_cooldowns rt)
  (synthesis_objects rt) (synthesis_rate_limiter rt).
Definition without_scope (rt : FfiRuntime) (scope : uuid) := mk_runtime (store rt) (tombstones rt)
  (delete scope (channel_memories rt)) (delete scope (domain_memories rt)) (delete scope (tenant_memories rt))
  (remove_windows_for_scope scope (synthesis_windows rt)) (synthesis_engine rt) (synthesis_scope_bindings rt)
  (base.filter (fun kv => kv.1.1 <> scope) (synthesis_cooldowns rt)) (delete scope (synthesis_objects rt))
  (synthesis_rate_limiter rt).
Definition first_error {A B} (r : result A FfiError) (r' : result B FfiError) : result unit FfiError :=
  match r, r' with Err e, _ => Err e | _, Err e => Err e | Ok _, Ok _ => Ok tt end.
Definition forget_scope_state (keys : uuid -> result Key EvidenceError) (scope : uuid) : eff FfiRuntime FfiError unit := fun rt =>
  if (scope =? synthesis_windows_scope)%N
  then (rt, Err (InvalidId "scope_id: nil UUID is reserved as the synthesis-windows sentinel"))
  else
    let rt1 := with_tombstone rt scope keys in
    let '(rt2, r2) := on_store (delete_memory_blobs_for_scope scope) rt1 in
    let '(rt3, r3) := on_store (delete_synthesis_object_versions_for_scope scope) rt2 in
    let rt4 := without_scope rt3 scope in
    ((flush_synthesis_windows rt4).1, first_error r2 r3).

(** ** Opening a store *)

#[local] Abbreviation store_call A := (eff (EvidenceStore (Key := Key) (Nonce := Nonce) (Bytes := Bytes)) EvidenceError A).
#[local] Abbreviation evidence_store := (EvidenceStore (Key := Key) (Nonce := Nonce) (Bytes := Bytes)).

(** A blob loaded and decoded; a row that cannot be read or decoded is skipped. *)
Definition load_decoded {A} `{Serde Bytes A} (scope : uuid) (kind : string) : evidence_store -> evidence_store * option A := fun s =>
  let '(s, r) := load_memory_blob scope kind s in
  (s, match r with Ok (Some blob) => from_slice blob | _ => None end).
(** The rehydration loops over the scopes that have a blob of the kind. *)
Fixpoint rehydrate_each {A B} `{Serde Bytes A} (kind : string) (forgotten : gset uuid) (keep : uuid -> A -> B)
    (scopes : list uuid) (out : gmap uuid B) : evidence_store -> evidence_store * gmap uuid B := fun s =>
  match scopes with
  | [] => (s, out)
  | scope :: scopes =>
      if bool_decide (scope ∈ forgotten) then rehydrate_each kind forgotten keep scopes out s
      else
        let '(s, a) := load_decoded (A := A) scope kind s in
        rehydrate_each kind forgotten keep scopes (match a with Some a => <[scope := keep scope a]> out | None => out end) s
  end.
Definition rehydrate {A B} `{Serde Bytes A} (kind : string) (forgotten : gset uuid) (keep : uuid -> A -> B) : store_call (gmap uuid B) :=
  do? scopes := list_memory_scopes kind in
  fun s => let '(s, out) := rehydrate_each kind forgotten keep scopes ∅ s in (s, Ok out).

(** Saving without minding a failure of encoding or writing. *)
Definition try_save {A} `{Serde Bytes A} (scope : uuid) (kind : string) (a : A) : evidence_store -> evidence_store := fun s =>
  match to_vec a with None => s | Some json => (save_memory_blob scope kind json s).1 end.

(** The windows: loaded, the forgotten scopes dropped, the stuck windows failed, the
    blob rewritten after either when it changed something. *)
Definition purge_tombstoned (forgotten : gset uuid) (m : SynthesisWindowManager) : SynthesisWindowManager * bool :=
  let tombstoned := List.filter (fun s => bool_decide (s ∈ forgotten)) (tracked_scopes m) in
  (foldl (fun m s => remove_windows_for_scope s m) m tombstoned, match tombstoned with [] => false | _ => true end).
Definition recover_windows (at_ : instant) (forgotten : gset uuid) : evidence_store -> evidence_store * SynthesisWindowManager := fun s =>
  let '(s, loaded) := load_decoded (A := SynthesisWindowManager) synthesis_windows_scope SYNTHESIS_WINDOWS_KIND s in
  let '(m, purged) := purge_tombstoned forgotten (default empty_manager loaded) in
  let s := if (purged : bool) then try_save synthesis_windows_scope SYNTHESIS_WINDOWS_KIND m s else s in
  let '(m, swept) := sweep_stuck_pending at_ (seconds STUCK_PENDING_THRESHOLD_SECS) m in
  (match swept with [] => s | _ => try_save synthesis_windows_scope SYNTHESIS_WINDOWS_KIND m s end, m).

(** The objects of a scope's row that belong to the scope. *)
Definition own_objects (scope : uuid) (objs : list SynthesisObject) : gmap uuid SynthesisObject :=
  foldl (fun inner o => if (o_scope_id o =? scope)%N then <[o_window_id o := o]> inner else inner) ∅ objs.
(** The orphan sweep: objects whose window is not tracked go, and the rows that
    lost some are rewritten. *)
Definition tracked_objects (m : SynthesisWindowManager) (inner : gmap uuid SynthesisObject) : gmap uuid SynthesisObject :=
  base.filter (fun kv : uuid * SynthesisObject => is_Some (SynthesisWindow.get kv.1 m)) inner.
Definition rewrite_orphaned (m : SynthesisWindowManager) (objects : gmap uuid (gmap uuid SynthesisObject)) : evidence_store -> evidence_store := fun s =>
  foldl (fun s (kv : uuid * gmap uuid SynthesisObject) =>
           if bool_decide (tracked_objects m kv.2 = kv.2) then s
           else try_save (A := list SynthesisObject) kv.1 SYNTHESIS_OBJECT_KIND (hash_order (map_to_list (tracked_objects m kv.2))).*2 s)
    s (hash_order (map_to_list objects)).
Definition swept_objects (m : SynthesisWindowManager) (objects : gmap uuid (gmap uuid SynthesisObject)) :
    gmap uuid (gmap uuid SynthesisObject) :=
  base.filter (fun kv : uuid * gmap uuid SynthesisObject => kv.2 <> ∅) (tracked_objects m <$> objects).

(** The version sweep: the archives of windows without an object go. *)
Definition sweep_versions (objects : gmap uuid (gmap uuid SynthesisObject)) : evidence_store -> evidence_store := fun s =>
  match list_all_synthesis_object_version_window_keys s with
  | (s, Err _) => s
  | (s, Ok keys) =>
      foldl (fun s (k : uuid * uuid) => (delete_synthesis_object_versions_for_window k.1 k.2 s).1) s
        (List.filter (fun k : uuid * uuid => bool_decide (objects !! k.1 ≫= (fun inner => inner !! k.2) = None)) keys)
  end.

(** [open_store_inner], the part of synthesis; [forgotten] are the tombstones it
    loaded before. *)
Definition open_synthesis (env : Env) (forgotten : gset uuid) : evidence_store -> evidence_store * result FfiRuntime FfiError := fun s =>
  match rehydrate (A := ChannelMemoryObject (Json := Json)) CHANNEL_MEMORY_KIND forgotten (fun _ a => a) s with
  | (s, Err e) => (s, Err (Evidence e))
  | (s, Ok channels) =>
  match rehydrate (A := DomainMemoryObject (Json := Json)) DOMAIN_MEMORY_KIND forgotten (fun _ a => a) s with
  | (s, Err e) => (s, Err (Evidence e))
  | (s, Ok domains) =>
  match rehydrate (A := TenantMemoryObject (Json := Json)) TENANT_MEMORY_KIND forgotten (fun _ a => a) s with
  | (s, Err e) => (s, Err (Evidence e))
  | (s, Ok tenants) =>
  let '(s, m) := recover_windows (now env 0) forgotten s in
  match rehydrate (A := list SynthesisObject) SYNTHESIS_OBJECT_KIND forgotten own_objects s with
  | (s, Err e) => (s, Err (Evidence e))
  | (s, Ok loaded) =>
      let s := rewrite_orphaned m loaded s in
      let objects := swept_objects m loaded in
      let s := sweep_versions objects s in
      (s, Ok (mk_runtime s forgotten channels domains tenants m None None ∅ objects
                (new_bucket DEFAULT_TRIGGER_RATE_CAPACITY DEFAULT_TRIGGER_RATE_REFILL_PER_SEC (now env 1))))
  end end end end.

(** ** The whole calls, when nothing comes between their phases *)

(** [configure_synthesis_engine] once the transport is built. *)
Definition configure_synthesis_engine (engine : Engine) (bindings : option (list uuid)) (rate_capacity : N)
    (rate_refill_per_sec : f64) : eff FfiRuntime FfiError unit := fun rt =>
  match resolve_rate_limiter_config rate_capacity rate_refill_per_sec with
  | None => (rt, Err (Unavailable "synthesis_engine (rate_refill_per_sec must be finite and positive)"))
  | Some (cap, refill) =>
      (with_engine rt (Some engine) bindings (reconfigure cap refill (synthesis_rate_limiter rt)), Ok tt)
  end.

Context (synthesize_domain : Engine -> SynthesisWindowManager -> TieredWindowHandle -> DomainSynthesisInput -> result SynthesisObject string)
        (synthesize_tenant : Engine -> SynthesisWindowManager -> TieredWindowHandle -> TenantSynthesisInput -> result SynthesisObject string).

(** [dispatch_server_synthesis]; [env'] is what the third phase reads. *)
Definition dispatch_server_synthesis (env env' : Env) (scope : uuid) (tier : SynthesisTierKind) : eff FfiRuntime FfiError uuid :=
  do? plan := build_dispatch_plan env scope tier in
  match plan with
  | Cooldown window => ret window
  | PlanDomain p =>
      apply_dispatch_outcome env' scope tier (window_handle _ p)
        (synthesize_domain (plan_engine _ p) (windows_clone _ p) (window_handle _ p) (plan_input _ p))
  | PlanTenant p =>
      apply_dispatch_outcome env' scope tier (window_handle _ p)
        (synthesize_tenant (plan_engine _ p) (windows_clone _ p) (window_handle _ p) (plan_input _ p))
  end.
(** [replay_synthesis_inner]. *)
Definition report_replayed (scope window : uuid) : eff FfiRuntime FfiError SynthesisStatusRecord := fun rt =>
  (rt, match find_window rt scope window with
       | None => Err (NotFound "synthesis_window" window)
       | Some w => Ok (window_to_record rt w)
       end).
Definition replay_synthesis_inner (env env' : Env) (scope window : uuid) : eff FfiRuntime FfiError SynthesisStatusRecord :=
  do? plan := build_replay_plan env scope window in
  do? _ := match plan with
           | ReplayDomain p =>
               apply_dispatch_outcome env' scope KindDomain (window_handle _ p)
                 (synthesize_domain (plan_engine _ p) (windows_clone _ p) (window_handle _ p) (plan_input _ p))
           | ReplayTenant p =>
               apply_dispatch_outcome env' scope KindTenant (window_handle _ p)
                 (synthesize_tenant (plan_engine _ p) (windows_clone _ p) (window_handle _ p) (plan_input _ p))
           end in
  report_replayed scope window.
End Synthesis.

(** ** A concrete runtime *)

(** Blobs that carry what they encode, under the cipher of [Prelude]; one domain, on
    scope 1, and an engine. *)
Module Concrete.
Inductive Blob : Type :=
| ManagerBlob (m : SynthesisWindowManager) | ObjectBlob (o : SynthesisObject) | ObjectsBlob (l : list SynthesisObject)
| ChannelBlob (c : ChannelMemoryObject (Json := unit)) | DomainBlob (d : DomainMemoryObject (Json := unit))
| TenantBlob (t : TenantMemoryObject (Json := unit)).
Definition carrying {A} (wrap : A -> Blob) (unwrap : Blob -> option A) : Serde (list N * Blob) A :=
  {| to_vec a := Some ([], wrap a); from_slice b := unwrap b.2 |}.
Definition manager_serde := carrying ManagerBlob (fun b => match b with ManagerBlob m => Some m | _ => None end).
Definition object_serde := carrying ObjectBlob (fun b => match b with ObjectBlob o => Some o | _ => None end).
Definition objects_serde := carrying ObjectsBlob (fun b => match b with ObjectsBlob l => Some l | _ => None end).
Definition channel_serde := carrying ChannelBlob (fun b => match b with ChannelBlob c => Some c | _ => None end).
Definition domain_serde := carrying DomainBlob (fun b => match b with DomainBlob d => Some d | _ => None end).
Definition tenant_serde := carrying TenantBlob (fun b => match b with TenantBlob t => Some t | _ => None end).
Definition cipher : Aead N unit (list N * Blob) := keyed_aead Blob.
#[export] Existing Instances manager_serde object_serde objects_serde channel_serde domain_serde tenant_serde cipher hash_order_id.

#[global] Notation demo_runtime := (FfiRuntime (Json := unit) (Engine := unit) (Key := N) (Nonce := unit) (Bytes := list N * Blob)).
Definition start : demo_runtime :=
  mk_runtime (mk_store (mk_db ∅ ∅) (fun s => Ok s) []) ∅ ∅ {[1%N := DomainMemory.new 500 0 1]} ∅ empty_manager (Some tt) None
    ∅ ∅ (new_bucket DEFAULT_TRIGGER_RATE_CAPACITY DEFAULT_TRIGGER_RATE_REFILL_PER_SEC 0).
Definition at_time (t : Z) (first : uuid) : Env :=
  mk_env (fun n => seconds t + Z.of_nat n)%Z (fun n => first + N.of_nat n)%N (fun _ _ => Ok None).
Definition answer (text : string) : SynthesisObject := new_object 900 60 1 7 DomainSummary (string_bytes text) 0.
Definition handle : TieredWindowHandle := mk_handle 7 1 Domain.
(** A dispatch whose engine is at work, its landing, a replay of its window and the
    landing of that. *)
Definition planned : demo_runtime := (build_dispatch_plan (at_time 100 7) 1 KindDomain start).1.
Definition landed : demo_runtime := (apply_dispatch_outcome (at_time 160 7) 1 KindDomain handle (Ok (answer "All is well.")) planned).1.
Definition replaying : demo_runtime := (build_replay_plan (at_time 500 7) 1 7 landed).1.
Definition relanded : demo_runtime := (apply_dispatch_outcome (at_time 560 7) 1 KindDomain handle (Ok (answer "All is better.")) replaying).1.

Example landed_recap : (fun d => (DomainMemory.recap d, DomainMemory.last_synthesis_window d)) <$> domain_memories landed !! 1%N = Some ("All is well."%string, Some 7%N).
Proof. vm_compute. reflexivity. Qed.
Example relanded_version : version <$> synthesis_object_in relanded 1 7 = Some 2%N.
Proof. vm_compute. reflexivity. Qed.
End Concrete.
