(* ===== verification/SynthesisApply.v ===== *)
(** * Applying the outcome of a synthesis run ([ffi/src/synthesis.rs])

    The third phase of a run, [apply_dispatch_outcome]: that it is all or nothing in
    memory and on disk, which versions it archives, and which windows it keeps. *)

From stdpp Require Import sorting.
From S2P Require Import Prelude Http ChannelMemory DomainMemory TenantMemory.
From S2P Require Import SynthesisWindow SynthesisHierarchy SynthesisStore SynthesisRate ServerSynthesis.

(** ** The transaction *)

Section Transaction.
Context {Key Nonce Bytes : Type} {AE : Aead Key Nonce Bytes} {IN : Inhabited Nonce}.
Implicit Types (s : EvidenceStore (Key := Key) (Nonce := Nonce) (Bytes := Bytes)).

Lemma write_archive_keys scope window pa : keeps_keys (write_archive (Key := Key) (Nonce := Nonce) (Bytes := Bytes) scope window pa).
Proof.
  unfold write_archive. destruct pa as [[[v json] []]|]; [| |by intros s s' r [= <- <-]].
  - apply try_atomic_keys; [|intros; apply save_version_keys].
    apply try_atomic_keys; [apply delete_oldest_keys|]. by intros a s s' r [= <- <-].
  - apply try_atomic_keys; [|intros; apply save_version_keys]. by intros s s' r [= <- <-].
Qed.

(** What the archive is after a write: the prior version added, the oldest gone if
    it was to be evicted, the other rows as they were. *)
Definition archived (scope window : uuid) (pa : option (N * Bytes * bool)) s s' : Prop :=
  match pa with
  | None => archive (conn s') scope window = archive (conn s) scope window
  | Some (v, json, evict) =>
      versions_at s' scope window =
        {[v]} ∪ (if (evict : bool) then versions_at s scope window ∖ list_to_set (take 1 (version_list (archive (conn s) scope window)))
                 else versions_at s scope window) /\
      version_at s' scope window v = Some json /\
      forall n, n ∈ versions_at s' scope window -> n <> v -> version_at s' scope window n = version_at s scope window n
  end.
Lemma write_archive_spec scope window pa s s' u :
  write_archive scope window pa s = (s', Ok u) -> only_archive scope window s s' /\ archived scope window pa s s'.
Proof.
  unfold write_archive, archived. destruct pa as [[[v json] evict]|]; [|by intros [= <- _]].
  unfold try_eff at 1. destruct evict.
  - unfold try_eff at 1. destruct (delete_oldest_synthesis_object_version_in_tx scope window s) as [s1 [n|e]] eqn:E1; [|done].
    cbn. destruct (delete_oldest_spec _ _ _ _ _ E1) as (Hk1 & Ho1 & Hd1 & Hv1). intros E2.
    destruct u. destruct (save_version_spec _ _ _ _ _ _ _ E2) as (_ & Ho2 & Hd2 & Hj & Hv2).
    split; [by transitivity s1|]. split; [by rewrite Hd2, Hd1|]. split; [done|].
    intros m Hm Hne. rewrite Hv2 by done. apply Hv1. rewrite Hd2 in Hm. set_solver.
  - cbn. intros E2. destruct u. destruct (save_version_spec _ _ _ _ _ _ _ E2) as (_ & Ho2 & Hd2 & Hj & Hv2).
    split; [done|]. split; [done|]. split; [done|]. intros m Hm Hne. by apply Hv2.
Qed.

(** What the transaction may change, beside the archive of the window. *)
Lemma apply_transaction_spec scope window kind oj mj wj pa s s' r :
  kind <> SYNTHESIS_OBJECT_KIND -> kind <> SYNTHESIS_WINDOWS_KIND ->
  apply_transaction scope window kind oj mj wj pa s = (s', r) ->
  scope_key s' = scope_key s /\
  match r with
  | Err _ => conn s' = conn s
  | Ok _ =>
      blob_at s' scope SYNTHESIS_OBJECT_KIND = Some oj /\ blob_at s' scope kind = Some mj /\
      blob_at s' synthesis_windows_scope SYNTHESIS_WINDOWS_KIND = Some wj /\
      (forall sc k, (sc, k) <> (scope, SYNTHESIS_OBJECT_KIND) -> (sc, k) <> (scope, kind) ->
         (sc, k) <> (synthesis_windows_scope, SYNTHESIS_WINDOWS_KIND) -> blob_at s' sc k = blob_at s sc k) /\
      (forall sc w, (sc, w) <> (scope, window) -> archive (conn s') sc w = archive (conn s) sc w) /\
      archived scope window pa s s'
  end.
Proof.
  intros Ho Hw H. unfold apply_transaction in H. apply with_transaction_spec in H as [Hk Hr].
  2:{ repeat (apply try_atomic_keys; [apply save_blob_in_tx_keys|intros _]). apply write_archive_keys. }
  split; [done|]. destruct r as [u|e]; [|done]. destruct Hr as (s1 & s5 & H1 & Hb & H5).
  unfold try_eff in Hb. destruct (save_memory_blob_in_tx scope SYNTHESIS_OBJECT_KIND oj s1) as [s2 [[]|]] eqn:E2; [|done].
  destruct (save_memory_blob_in_tx scope kind mj s2) as [s3 [[]|]] eqn:E3; [|done].
  destruct (save_memory_blob_in_tx synthesis_windows_scope SYNTHESIS_WINDOWS_KIND wj s3) as [s4 [[]|]] eqn:E4; [|done].
  apply save_blob_in_tx_spec in E2 as (K2 & B2 & O2 & V2), E3 as (K3 & B3 & O3 & V3), E4 as (K4 & B4 & O4 & V4).
  apply write_archive_spec in Hb as [Ha Harch]. destruct H1 as [C1 K1].
  assert (Ever : object_versions (conn s4) = object_versions (conn s)) by (rewrite V4, V3, V2, C1; done).
  assert (Earc : forall sc w, archive (conn s4) sc w = archive (conn s) sc w) by (intros; unfold archive; by rewrite Ever).
  assert (Hs : forall sc k, blob_at s' sc k = blob_at s4 sc k).
  { intros sc k. rewrite (same_rows_blob s5 s') by done. by apply (oa_blobs _ _ _ _ Ha). }
  rewrite !Hs. split; [|split; [|split; [|split; [|split]]]].
  - assert (Hd : SYNTHESIS_OBJECT_KIND <> SYNTHESIS_WINDOWS_KIND) by done. rewrite O4, O3 by congruence. exact B2.
  - rewrite O4 by congruence. exact B3.
  - exact B4.
  - intros sc k N1 N2 N3. rewrite Hs, O4, O3, O2 by done. by rewrite (same_rows_blob s s1).
  - intros sc w Hne. destruct H5 as [-> _]. by rewrite (oa_others _ _ _ _ Ha), Earc.
  - destruct H5 as [C5 K5]. assert (Hkeys : scope_key s4 = scope_key s) by congruence.
    revert Harch. unfold archived, versions_at, version_at, plain, opened. rewrite !C5, !K5, !Earc.
    by rewrite (oa_keys _ _ _ _ Ha), Hkeys.
Qed.
End Transaction.

(** ** One application *)

Section Apply.
Context {Json Engine Key Nonce Bytes : Type}.
Context {AE : Aead Key Nonce Bytes} {IN : Inhabited Nonce} {HO : HashOrder}.
Context {SW : Serde Bytes SynthesisWindowManager} {SO : Serde Bytes SynthesisObject} {SL : Serde Bytes (list SynthesisObject)}.
Context {SD : Serde Bytes (DomainMemoryObject (Json := Json))} {ST : Serde Bytes (TenantMemoryObject (Json := Json))}.
#[local] Abbreviation runtime := (FfiRuntime (Json := Json) (Engine := Engine) (Key := Key) (Nonce := Nonce) (Bytes := Bytes)).
Implicit Types (rt : runtime).

(** Everything but the windows, in memory and on disk, is as before. *)
Record untouched rt rt' : Prop := mk_untouched {
  ut_tombstones : tombstones rt' = tombstones rt;
  ut_channels : channel_memories rt' = channel_memories rt;
  ut_domains : domain_memories rt' = domain_memories rt;
  ut_tenants : tenant_memories rt' = tenant_memories rt;
  ut_objects : synthesis_objects rt' = synthesis_objects rt;
  ut_cooldowns : synthesis_cooldowns rt' = synthesis_cooldowns rt;
  ut_engine : synthesis_engine rt' = synthesis_engine rt;
  ut_bindings : synthesis_scope_bindings rt' = synthesis_scope_bindings rt;
  ut_keys : scope_key (store rt') = scope_key (store rt);
  ut_archives : object_versions (conn (store rt')) = object_versions (conn (store rt));
  ut_blobs : forall sc k, (sc, k) <> (synthesis_windows_scope, SYNTHESIS_WINDOWS_KIND) ->
    blob_at (store rt') sc k = blob_at (store rt) sc k
}.
#[export] Instance untouched_preorder : PreOrder untouched.
Proof.
  split; [by split|]. intros r1 r2 r3 [] []. split; try congruence. intros sc k Hne. rewrite ut_blobs1, ut_blobs0 by done. done.
Qed.
Lemma untouched_rows rt rt' :
  untouched rt rt' -> forall sc w, archive (conn (store rt')) sc w = archive (conn (store rt)) sc w.
Proof. intros H sc w. unfold archive. by rewrite (ut_archives _ _ H). Qed.

Lemma on_store_eq {A} (m : eff (EvidenceStore (Key := Key) (Nonce := Nonce) (Bytes := Bytes)) EvidenceError A) rt :
  on_store m rt = (with_store rt (m (store rt)).1,
                   match (m (store rt)).2 with Ok a => Ok a | Err e => Err (Evidence e) end).
Proof. unfold on_store. by destruct (m (store rt)). Qed.
Lemma untouched_store rt s :
  scope_key s = scope_key (store rt) -> object_versions (conn s) = object_versions (conn (store rt)) ->
  (forall sc k, (sc, k) <> (synthesis_windows_scope, SYNTHESIS_WINDOWS_KIND) -> blob_at s sc k = blob_at (store rt) sc k) ->
  untouched rt (with_store rt s).
Proof. by split. Qed.
Lemma untouched_same_rows rt s : same_rows (store rt) s -> untouched rt (with_store rt s).
Proof.
  intros H. apply untouched_store; [by destruct H|by destruct H as [-> _]|]. intros. by apply same_rows_blob.
Qed.

(** The windows on disk are the ones in memory. *)
Definition windows_mirrored rt : Prop := exists json,
  to_vec (synthesis_windows rt) = Some json /\
  blob_at (store rt) synthesis_windows_scope SYNTHESIS_WINDOWS_KIND = Some json.

(** The row of the windows after a call: the windows in memory, or what it was. *)
Definition row_follows rt rt' : Prop :=
  windows_mirrored rt' \/
  blob_at (store rt') synthesis_windows_scope SYNTHESIS_WINDOWS_KIND = blob_at (store rt) synthesis_windows_scope SYNTHESIS_WINDOWS_KIND.
Lemma row_follows_refl rt : row_follows rt rt. Proof. by right. Qed.
Lemma row_follows_store rt s : same_rows (store rt) s -> row_follows rt (with_store rt s).
Proof. intros H. right. by apply same_rows_blob. Qed.
Lemma row_follows_after rt rt0 rt' :
  blob_at (store rt0) synthesis_windows_scope SYNTHESIS_WINDOWS_KIND = blob_at (store rt) synthesis_windows_scope SYNTHESIS_WINDOWS_KIND ->
  row_follows rt0 rt' -> row_follows rt rt'.
Proof. intros E [H|H]; [by left|right; by rewrite H]. Qed.

Lemma flush_spec rt rt' r :
  flush_synthesis_windows rt = (rt', r) ->
  untouched rt rt' /\ synthesis_windows rt' = synthesis_windows rt /\
  synthesis_rate_limiter rt' = synthesis_rate_limiter rt /\
  match r with Ok _ => windows_mirrored rt' | Err _ => conn (store rt') = conn (store rt) end.
Proof.
  unfold flush_synthesis_windows, try_eff, get, lift. destruct (to_vec (synthesis_windows rt)) as [json|] eqn:Ej; cbn [ok_or].
  2:{ by intros [= <- <-]. }
  rewrite on_store_eq. destruct (save_memory_blob _ _ json (store rt)) as [s' r0] eqn:Es. cbn [fst snd].
  destruct (save_blob_spec _ _ _ _ _ _ Es) as [Hk Hr]. intros [= <- <-]. destruct r0 as [[]|e].
  - destruct Hr as (Hb & Ho & Hv). split; [apply untouched_store; auto|]. split; [done|]. split; [done|].
    exists json. split; [exact Ej|exact Hb].
  - split; [by apply untouched_same_rows|]. done.
Qed.

Lemma flush_row rt rt' r : flush_synthesis_windows rt = (rt', r) -> row_follows rt rt'.
Proof.
  intros H. destruct (flush_spec _ _ _ H) as (Hu & _ & _ & Hr). destruct r; [by left|right].
  apply same_rows_blob. split; [done|apply (ut_keys _ _ Hu)].
Qed.

(** The window taken to [Failed], as far as the life cycle allows. *)
Definition failed_windows (window : uuid) (m : SynthesisWindowManager) : SynthesisWindowManager :=
  (mark_failed window (mark_in_progress window m).1).1.
Lemma fail_with_spec {A} window e rt rt' (r : result A FfiError) :
  fail_with window e rt = (rt', r) ->
  r = Err e /\ untouched rt rt' /\ synthesis_windows rt' = failed_windows window (synthesis_windows rt) /\ row_follows rt rt'.
Proof.
  unfold fail_with, try_eff, fail_window_on_live_manager, best_effort, throw.
  set (rt1 := with_windows rt _). destruct (flush_synthesis_windows rt1) as [rt2 r2] eqn:E. cbn [fst].
  intros [= <- <-]. destruct (flush_spec _ _ _ E) as (Hu & Hw & _). split; [done|]. split.
  - etransitivity; [|exact Hu]. by split.
  - split; [by rewrite Hw|]. by apply (row_follows_after _ rt1), (flush_row _ _ _ E).
Qed.

(** *** Landing *)

Lemma plan_archive_spec scope window rt rt' r :
  plan_archive scope window rt = (rt', r) ->
  exists s, rt' = with_store rt s /\ same_rows (store rt) s /\
  forall pa, r = Ok pa ->
    match synthesis_object_in rt scope window with
    | None => pa = None
    | Some prior => exists json,
        to_vec prior = Some json /\
        pa = Some (version prior, json,
                   (MAX_SYNTHESIS_VERSIONS_PER_WINDOW <? length (version_list (archive (conn (store rt)) scope window)) + 1)%nat)
    end.
Proof.
  unfold plan_archive, try_eff at 1, get at 1. destruct (synthesis_object_in rt scope window) as [prior|].
  2:{ intros [= <- <-]. exists (store rt). split; [by destruct rt|]. split; [done|]. by intros pa [= <-]. }
  unfold try_eff at 1, lift at 1. destruct (to_vec prior) as [json|]; cbn [ok_or].
  2:{ intros [= <- <-]. exists (store rt). split; [by destruct rt|]. done. }
  unfold try_eff. rewrite on_store_eq. destruct (list_synthesis_object_versions scope window (store rt)) as [s r0] eqn:Es.
  destruct (list_versions_spec _ _ _ _ _ Es) as [Hs Hr]. cbn [fst snd]. destruct r0 as [rows|e]; intros [= <- <-]; exists s;
    (split; [done|]); (split; [done|]); [|done].
  intros pa [= <-]. exists json. split; [done|]. by rewrite <- (Hr rows), length_fmap.
Qed.

(** The windows after the two marks, before the prune. *)
Definition completed_windows (window : uuid) (m : SynthesisWindowManager) : SynthesisWindowManager :=
  (mark_complete window (mark_in_progress window m).1).1.

(** The object that lands: its version follows the prior one's. *)
Definition landing rt (scope : uuid) (o : SynthesisObject) : SynthesisObject :=
  match synthesis_object_in rt scope (o_window_id o) with
  | Some prior => set_version o (u32_saturating_add (version prior) 1)
  | None => o
  end.
Definition pruned rt (scope : uuid) (o : SynthesisObject) : SynthesisWindowManager * gmap uuid SynthesisObject * list uuid :=
  prune_completed_windows_on (completed_windows (o_window_id o) (synthesis_windows rt))
    (<[o_window_id o := landing rt scope o]> (default ∅ (synthesis_objects_for_scope rt scope))) scope
    WINDOW_RETENTION_CAP_PER_SCOPE.
Definition outcome (env : Env) rt (scope : uuid) (tier : SynthesisTierKind) (o : SynthesisObject) : Outcome :=
  mk_outcome (pruned rt scope o).1.1 (pruned rt scope o).1.2 (recapped env rt scope (o_window_id o) tier (payload o)).

(** What of an outcome is on disk. *)
Definition outcome_stored (out : Outcome (Json := Json)) scope window pa (s s' : EvidenceStore (Key := Key) (Nonce := Nonce) (Bytes := Bytes)) : Prop :=
  scope_key s' = scope_key s /\
  is_Some (to_vec (Bytes := Bytes) (windows_after out)) /\
  is_Some (to_vec (Bytes := Bytes) (hash_order (map_to_list (scope_objects_after out))).*2) /\
  blob_at s' scope SYNTHESIS_OBJECT_KIND = to_vec (hash_order (map_to_list (scope_objects_after out))).*2 /\
  blob_at s' scope (memory_kind (memory_after out)) = memory_json (memory_after out) /\
  blob_at s' synthesis_windows_scope SYNTHESIS_WINDOWS_KIND = to_vec (windows_after out) /\
  (forall sc k, (sc, k) <> (scope, SYNTHESIS_OBJECT_KIND) -> (sc, k) <> (scope, memory_kind (memory_after out)) ->
     (sc, k) <> (synthesis_windows_scope, SYNTHESIS_WINDOWS_KIND) -> blob_at s' sc k = blob_at s sc k) /\
  (forall sc w, (sc, w) <> (scope, window) -> archive (conn s') sc w = archive (conn s) sc w) /\
  archived scope window pa s s'.

Lemma memory_kind_ne (m : DomainMemoryObject (Json := Json) + TenantMemoryObject (Json := Json)) :
  memory_kind m <> SYNTHESIS_OBJECT_KIND /\ memory_kind m <> SYNTHESIS_WINDOWS_KIND.
Proof. by destruct m. Qed.

(** The archive entry of what the landing object replaces. *)
Definition archive_entry rt (scope window : uuid) (pa : option (N * Bytes * bool)) : Prop :=
  match synthesis_object_in rt scope window with
  | None => pa = None
  | Some prior => exists json,
      to_vec prior = Some json /\
      pa = Some (version prior, json,
                 (MAX_SYNTHESIS_VERSIONS_PER_WINDOW <? length (version_list (archive (conn (store rt)) scope window)) + 1)%nat)
  end.
Lemma outcome_stored_from out scope window pa s0 s s' :
  same_rows s0 s -> outcome_stored out scope window pa s s' -> outcome_stored out scope window pa s0 s'.
Proof.
  intros [Hc Hk] (H1 & H2 & H2' & H3 & H4 & H5 & H6 & H7 & H8). split; [by rewrite H1|].
  repeat (split; [done|]). split; [intros; rewrite H6 by done; by apply same_rows_blob|]. split.
  - intros. by rewrite H7, Hc.
  - revert H8. unfold archived, versions_at, version_at, plain, opened. by rewrite Hc, Hk.
Qed.

Lemma land_spec env scope tier handle o rt rt' r :
  o_window_id o = h_window_id handle -> land env scope tier handle o rt = (rt', r) ->
  match r with
  | Ok w =>
      w = h_window_id handle /\
      (exists x, windows (synthesis_windows rt) !! w = Some x /\ claimable (w_status x) = true) /\
      exists s pa, archive_entry rt scope w pa /\ outcome_stored (outcome env rt scope tier o) scope w pa (store rt) s /\
                   rt' = swap_in env scope tier (outcome env rt scope tier o) (with_store rt s)
  | Err _ =>
      untouched rt rt' /\
      (synthesis_windows rt' = synthesis_windows rt \/
       synthesis_windows rt' = failed_windows (h_window_id handle) (synthesis_windows rt)) /\
      row_follows rt rt'
  end.
Proof.
  intros Ho. unfold land, try_eff at 1. destruct (plan_archive scope (o_window_id o) rt) as [rt0 r0] eqn:E0.
  destruct (plan_archive_spec _ _ _ _ _ E0) as (s0 & -> & Hs0 & Hpa).
  assert (Hstop : forall rt', rt' = with_store rt s0 -> untouched rt rt' /\ (synthesis_windows rt' = synthesis_windows rt \/ synthesis_windows rt' = failed_windows (h_window_id handle) (synthesis_windows rt)) /\ row_follows rt rt').
  { intros ? ->. split; [by apply untouched_same_rows|]. split; [by left|by apply row_follows_store]. }
  destruct r0 as [pa|e]; [|intros [= <- <-]; by apply Hstop]. specialize (Hpa pa eq_refl).
  unfold try_eff at 1, get at 1, try_eff at 1, lift at 1. cbn [synthesis_windows with_store].
  rewrite <- Ho. rewrite (mark_in_progress_moves (synthesis_windows rt) (o_window_id o)) at 1.
  destruct (windows (synthesis_windows rt) !! o_window_id o) as [x|] eqn:Ex.
  2:{ intros [= <- <-]. rewrite Ho. by apply Hstop. }
  destruct (claimable (w_status x)) eqn:Ecl.
  2:{ intros [= <- <-]. rewrite Ho. by apply Hstop. }
  unfold try_eff at 1, lift at 1.
  assert (Emc : mark_complete (o_window_id o) (put (with_status InProgress x) (o_window_id o) (synthesis_windows rt)) =
                (completed_windows (o_window_id o) (synthesis_windows rt), Ok tt)).
  { unfold completed_windows. rewrite mark_in_progress_moves, Ex, Ecl. cbn [fst].
    rewrite mark_complete_moves. cbn [put windows]. by rewrite lookup_insert_eq. }
  rewrite Emc. clear Emc.
  assert (Epr : prune_completed_windows_on (completed_windows (o_window_id o) (synthesis_windows rt))
     (<[o_window_id o := match pa with Some (v, _, _) => set_version o (u32_saturating_add v 1) | None => o end]>
        (default ∅ (synthesis_objects_for_scope (with_store rt s0) scope))) scope WINDOW_RETENTION_CAP_PER_SCOPE = pruned rt scope o).
  { unfold pruned, landing. destruct (synthesis_object_in rt scope (o_window_id o)) as [prior|]; [|by rewrite Hpa].
    by destruct Hpa as (json & _ & ->). }
  rewrite Epr. clear Epr.
  assert (Erc : recapped env (with_store rt s0) scope (o_window_id o) tier
     (payload (match pa with Some (v, _, _) => set_version o (u32_saturating_add v 1) | None => o end)) =
     recapped env rt scope (o_window_id o) tier (payload o)).
  { destruct pa as [[[v json] ev]|]; reflexivity. }
  rewrite Erc. clear Erc. destruct (pruned rt scope o) as [[ws objs] gone] eqn:Ep.
  unfold try_eff, lift. cbn [scope_objects_after memory_after].
  destruct (to_vec (hash_order (map_to_list objs)).*2) as [oj|] eqn:Eoj; cbn [ok_or]; [|intros [= <- <-]; rewrite Ho; by apply Hstop].
  destruct (memory_json (recapped env rt scope (o_window_id o) tier (payload o))) as [mj|] eqn:Emj; cbn [ok_or];
    [|intros [= <- <-]; rewrite Ho; by apply Hstop].
  destruct (to_vec ws) as [wj|] eqn:Ewj; cbn [ok_or]; [|intros [= <- <-]; rewrite Ho; by apply Hstop].
  rewrite on_store_eq. cbn [store with_store].
  set (kind := memory_kind (recapped env rt scope (o_window_id o) tier (payload o))).
  destruct (memory_kind_ne (recapped env rt scope (o_window_id o) tier (payload o))) as [Hk1 Hk2].
  destruct (apply_transaction scope (o_window_id o) kind oj mj wj pa s0) as [s1 r1] eqn:Et.
  destruct (apply_transaction_spec _ _ _ _ _ _ _ _ _ _ Hk1 Hk2 Et) as [Hkeys Hr1]. cbn [fst snd].
  assert (Eout : outcome env rt scope tier o = mk_outcome ws objs (recapped env rt scope (o_window_id o) tier (payload o)))
    by (unfold outcome; by rewrite Ep).
  destruct r1 as [u|e].
  - intros [= <- <-]. split; [done|]. split; [by exists x|]. exists s1, pa. split; [exact Hpa|]. split.
    2:{ rewrite Eout. by destruct rt. }
    apply (outcome_stored_from _ _ _ _ _ s0); [done|]. rewrite Eout. unfold outcome_stored.
    cbn [windows_after scope_objects_after memory_after]. rewrite Eoj, Emj, Ewj. fold kind.
    destruct Hr1 as (B1 & B2 & B3 & B4 & B5 & B6). repeat (split; [done|]). done.
  - intros Hf. apply fail_with_spec in Hf as (-> & Hu & Hw & Hrow).
    assert (Hs1 : same_rows (store rt) s1) by (etransitivity; [exact Hs0|by split]). split; [|split].
    + etransitivity; [exact (untouched_same_rows rt s1 Hs1)|exact Hu].
    + right. by rewrite Hw, Ho.
    + eapply row_follows_after; [|exact Hrow]. cbn [store with_store]. by apply same_rows_blob.
Qed.

(** *** The prune *)

Definition complete_in (scope : uuid) (m : SynthesisWindowManager) : list SynthesisWindow :=
  List.filter (fun w => bool_decide (w_status w = Complete)) (windows_for scope m).
(** The complete windows beyond the cap, oldest intervals last. *)
Definition expired (scope : uuid) (m : SynthesisWindowManager) : list SynthesisWindow :=
  drop WINDOW_RETENTION_CAP_PER_SCOPE (newest_first window_end (complete_in scope m)).

Lemma length_newest_first {A} (key : A -> Z) l : length (newest_first key l) = length l.
Proof. unfold newest_first. by rewrite merge_sort_Permutation. Qed.
Lemma elem_of_newest_first {A} (key : A -> Z) l x : x ∈ newest_first key l <-> x ∈ l.
Proof. unfold newest_first. by rewrite merge_sort_Permutation. Qed.
#[export] Instance newer_total {A} (key : A -> Z) : Total (newer key).
Proof. intros x y. unfold newer. lia. Qed.
#[export] Instance newer_trans {A} (key : A -> Z) : Transitive (newer key).
Proof. intros x y z. unfold newer. lia. Qed.
Lemma newest_first_sorted {A} (key : A -> Z) l : StronglySorted (newer key) (newest_first key l).
Proof. apply (StronglySorted_merge_sort (newer key)). Qed.

Lemma prune_ids_eq m scope : prune_ids m scope WINDOW_RETENTION_CAP_PER_SCOPE = w_id <$> expired scope m.
Proof.
  unfold prune_ids, expired. fold (complete_in scope m). destruct (Nat.leb_spec (length (complete_in scope m)) WINDOW_RETENTION_CAP_PER_SCOPE); [|done].
  by rewrite drop_ge by by rewrite length_newest_first.
Qed.
Lemma remove_none scope m : remove_windows scope [] m = m.
Proof. done. Qed.
Lemma prune_eq m objects scope :
  prune_completed_windows_on m objects scope WINDOW_RETENTION_CAP_PER_SCOPE =
  (remove_windows scope (w_id <$> expired scope m) m, foldl (fun o i => delete i o) objects (w_id <$> expired scope m),
   w_id <$> expired scope m).
Proof. unfold prune_completed_windows_on. rewrite prune_ids_eq. by destruct (w_id <$> expired scope m). Qed.

Lemma elem_of_complete_in scope m x : x ∈ complete_in scope m <-> x ∈ windows_for scope m /\ w_status x = Complete.
Proof. unfold complete_in. rewrite !list_elem_of_In, List.filter_In, <- list_elem_of_In. by rewrite bool_decide_eq_true. Qed.
Lemma expired_complete scope m x : x ∈ expired scope m -> x ∈ complete_in scope m.
Proof. unfold expired. intros Hx. apply (elem_of_newest_first window_end). by eapply subseteq_drop. Qed.

(** The windows after a prune. *)
Lemma expired_own scope m i w :
  wf m -> i ∈ w_id <$> expired scope m -> windows m !! i = Some w -> w_scope_id w = scope /\ w ∈ expired scope m.
Proof.
  intros Hwf (x & -> & Hx)%list_elem_of_fmap Hw.
  assert (Hc := expired_complete _ _ _ Hx). apply elem_of_complete_in in Hc as [Hc _].
  apply elem_of_windows_for in Hc as [Hc Hs]; [|done]. rewrite Hw in Hc. injection Hc as ->. done.
Qed.
Lemma expired_removal scope m :
  wf m -> removal scope (fun i => bool_decide (i ∈ w_id <$> expired scope m)) m
            (remove_windows scope (w_id <$> expired scope m) m).
Proof. intros Hwf. apply remove_windows_removal; [done|]. intros i w Hi Hw. by destruct (expired_own scope m i w). Qed.
Lemma expired_windows scope m s x :
  wf m -> x ∈ windows_for s (remove_windows scope (w_id <$> expired scope m) m) <->
          x ∈ windows_for s m /\ x ∉ expired scope m.
Proof.
  intros Hwf. assert (Hrm := expired_removal scope m Hwf). rewrite (removal_view _ _ _ _ s Hrm Hwf).
  assert (Hiff : forall s, x ∈ windows_for s m -> x ∈ expired scope m <-> w_id x ∈ w_id <$> expired scope m).
  { intros s' [Hx _]%elem_of_windows_for; [|done]. split; [intros; apply list_elem_of_fmap; eauto|].
    intros Hi. by destruct (expired_own scope m (w_id x) x). }
  destruct (N.eqb_spec s scope) as [->|Hne].
  - rewrite list_elem_of_filter, bool_decide_eq_false. split.
    + intros [Hn Hx]. split; [done|]. by rewrite (Hiff scope).
    + intros [Hx Hn]. split; [by rewrite <- (Hiff scope)|done].
  - split; [|by intros [? _]]. intros Hx. split; [done|]. intros Hc%expired_complete.
    apply elem_of_complete_in in Hc as [Hc _]. apply elem_of_windows_for in Hc as [_ Hs]; [|done].
    apply elem_of_windows_for in Hx as [_ Hs']; [|done]. congruence.
Qed.
Lemma expired_wf scope m : wf m -> wf (remove_windows scope (w_id <$> expired scope m) m).
Proof. intros Hwf. eapply removal_wf; [by apply expired_removal|done]. Qed.
Lemma completed_wf window m : wf m -> wf (completed_windows window m).
Proof. intros Hwf. apply (moves_wf mark_complete _ _ _ _ mark_complete_moves), (moves_wf mark_in_progress _ _ _ _ mark_in_progress_moves), Hwf. Qed.
Lemma failed_wf window m : wf m -> wf (failed_windows window m).
Proof. intros Hwf. apply (moves_wf mark_failed _ _ _ _ mark_failed_moves), (moves_wf mark_in_progress _ _ _ _ mark_in_progress_moves), Hwf. Qed.

Lemma foldl_delete_lookup (objects : gmap uuid SynthesisObject) ids i :
  foldl (fun o i => delete i o) objects ids !! i = if bool_decide (i ∈ ids) then None else objects !! i.
Proof. apply lookup_foldl_delete. Qed.

(** *** The properties *)

Lemma apply_split env scope tier handle res rt rt' r :
  apply_dispatch_outcome env scope tier handle res rt = (rt', r) ->
  (exists e, r = Err e /\ rt' = rt /\ (scope ∈ tombstones rt \/ SynthesisWindow.get (h_window_id handle) (synthesis_windows rt) = None)) \/
  (scope ∉ tombstones rt /\ is_Some (SynthesisWindow.get (h_window_id handle) (synthesis_windows rt)) /\
   ((exists e, r = Err e /\ untouched rt rt' /\
       synthesis_windows rt' = failed_windows (h_window_id handle) (synthesis_windows rt) /\ row_follows rt rt' /\
       (forall o, res = Ok o -> check_object scope (h_window_id handle) tier o <> None)) \/
    (exists o, res = Ok o /\ check_object scope (h_window_id handle) tier o = None /\ land env scope tier handle o rt = (rt', r)))).
Proof.
  unfold apply_dispatch_outcome, try_eff, ServerSynthesis.get, ensure, lift, is_scope_forgotten. case_bool_decide as Hf; cbn [negb].
  { intros [= <- <-]. left. eauto. }
  destruct (SynthesisWindow.get (h_window_id handle) (synthesis_windows rt)) as [w|] eqn:Ew; cbn [ok_or].
  2:{ intros [= <- <-]. left. eauto. }
  intros H. right. split; [done|]. split; [done|]. destruct res as [o|e].
  - destruct (check_object scope (h_window_id handle) tier o) as [why|] eqn:Ec.
    + left. apply fail_with_spec in H as (-> & Hu & Hw & Hrow). eexists. repeat (split; [done|]). intros o' [= <-]. by rewrite Ec.
    + right. eauto.
  - left. apply fail_with_spec in H as (-> & Hu & Hw & Hrow). eexists. repeat (split; [done|]). done.
Qed.
Lemma check_object_window scope window tier o : check_object scope window tier o = None ->
  o_scope_id o = scope /\ o_window_id o = window /\ object_type o = expected_object tier /\
  (N.of_nat (length (payload o)) <= MAX_SYNTHESIS_OUTPUT_BYTES)%N.
Proof.
  unfold check_object. destruct (_ <? _)%N eqn:E1; [done|]. destruct (_ || _) eqn:E2; [done|].
  destruct (negb (bool_decide _)) eqn:E3; [done|]. intros _. bool_to_prop. by split_and!.
Qed.

(** What memory and disk hold for a scope and a tier agree. *)
Definition disk_mirrors rt (scope : uuid) (tier : SynthesisTierKind) : Prop :=
  windows_mirrored rt /\
  blob_at (store rt) scope SYNTHESIS_OBJECT_KIND =
    to_vec (hash_order (map_to_list (default ∅ (synthesis_objects_for_scope rt scope)))).*2 /\
  match tier with
  | KindDomain => blob_at (store rt) scope DOMAIN_MEMORY_KIND = domain_memories rt !! scope ≫= to_vec
  | KindTenant => blob_at (store rt) scope TENANT_MEMORY_KIND = tenant_memories rt !! scope ≫= to_vec
  end.
(** The recap of a scope at a tier, and the window it came from. *)
Definition recap_at rt (scope : uuid) (tier : SynthesisTierKind) : option (string * option uuid) :=
  match tier with
  | KindDomain => (fun d => (DomainMemory.recap d, DomainMemory.last_synthesis_window d)) <$> domain_memories rt !! scope
  | KindTenant => (fun t => (summary t, TenantMemory.last_synthesis_window t)) <$> tenant_memories rt !! scope
  end.
(** Nothing of another scope has changed, on disk or in memory. *)
Definition others_kept rt rt' (scope : uuid) : Prop :=
  (forall s, s <> scope -> synthesis_objects rt' !! s = synthesis_objects rt !! s /\
     domain_memories rt' !! s = domain_memories rt !! s /\ tenant_memories rt' !! s = tenant_memories rt !! s /\
     (forall k, synthesis_cooldowns rt' !! (s, k) = synthesis_cooldowns rt !! (s, k)) /\
     (forall w, archive (conn (store rt')) s w = archive (conn (store rt)) s w) /\
     forall k, (s, k) <> (synthesis_windows_scope, SYNTHESIS_WINDOWS_KIND) -> blob_at (store rt') s k = blob_at (store rt) s k).

Lemma swap_in_objects env scope tier (out : Outcome (Json := Json)) rt s :
  default ∅ (synthesis_objects_for_scope (swap_in env scope tier out rt) s) =
  if decide (s = scope) then scope_objects_after out else default ∅ (synthesis_objects_for_scope rt s).
Proof.
  unfold swap_in, synthesis_objects_for_scope, with_outcome. cbn [synthesis_objects]. case_bool_decide as He; destruct (decide (s = scope)) as [->|Hne].
  - by rewrite lookup_delete_eq, He.
  - by rewrite lookup_delete_ne by congruence.
  - by rewrite lookup_insert_eq.
  - by rewrite lookup_insert_ne by congruence.
Qed.
Lemma outcome_memory env rt scope tier o :
  match tier with
  | KindDomain => exists d, memory_after (outcome env rt scope tier o) = inl d /\
      DomainMemory.recap d = recap_text (payload o) /\ DomainMemory.last_synthesis_window d = Some (o_window_id o)
  | KindTenant => exists t, memory_after (outcome env rt scope tier o) = inr t /\
      summary t = recap_text (payload o) /\ TenantMemory.last_synthesis_window t = Some (o_window_id o)
  end.
Proof. unfold outcome, recapped. destruct tier; eexists; repeat split. Qed.

Lemma landed_mirrors env rt scope tier o pa s :
  outcome_stored (outcome env rt scope tier o) scope (o_window_id o) pa (store rt) s ->
  let rt' := swap_in env scope tier (outcome env rt scope tier o) (with_store rt s) in
  disk_mirrors rt' scope tier /\ recap_at rt' scope tier = Some (recap_text (payload o), Some (o_window_id o)).
Proof.
  intros (_ & [wj Ewj] & _ & Bo & Bm & Bw & _) rt'. assert (Hm := outcome_memory env rt scope tier o).
  assert (Hwm : windows_mirrored rt') by (exists wj; split; [exact Ewj|by etransitivity]).
  enough (H : blob_at (store rt') scope SYNTHESIS_OBJECT_KIND = to_vec (hash_order (map_to_list (default ∅ (synthesis_objects_for_scope rt' scope)))).*2 /\
      match tier with KindDomain => blob_at (store rt') scope DOMAIN_MEMORY_KIND = domain_memories rt' !! scope ≫= to_vec
                    | KindTenant => blob_at (store rt') scope TENANT_MEMORY_KIND = tenant_memories rt' !! scope ≫= to_vec end /\
      recap_at rt' scope tier = Some (recap_text (payload o), Some (o_window_id o))) by (unfold disk_mirrors; tauto).
  clear Hwm. subst rt'. rewrite swap_in_objects, decide_True by done.
  unfold swap_in. cbn [store synthesis_windows with_outcome with_store]. rewrite Bo.
  destruct tier; destruct Hm as (m & Em & Hr & Hl); rewrite Em in *; cbn [memory_kind memory_json] in Bm;
    cbn; rewrite lookup_insert_eq; cbn; rewrite Hr, Hl; done.
Qed.
Lemma landed_others env rt scope tier o pa s :
  outcome_stored (outcome env rt scope tier o) scope (o_window_id o) pa (store rt) s ->
  others_kept rt (swap_in env scope tier (outcome env rt scope tier o) (with_store rt s)) scope.
Proof.
  intros (_ & _ & _ & _ & _ & _ & Bo & Ao & _) sc Hne. unfold swap_in. cbn [synthesis_objects domain_memories tenant_memories synthesis_cooldowns store with_outcome with_store].
  split; [by case_bool_decide; rewrite ?lookup_delete_ne, ?lookup_insert_ne by congruence|].
  split; [by destruct (memory_after _); rewrite ?lookup_insert_ne by congruence|].
  split; [by destruct (memory_after _); rewrite ?lookup_insert_ne by congruence|].
  split; [intros k; by rewrite lookup_insert_ne by congruence|].
  split; [intros w; apply Ao; congruence|]. intros k Hk. apply Bo; congruence.
Qed.

Lemma outcome_refused env scope tier handle res rt rt' e :
  apply_dispatch_outcome env scope tier handle res rt = (rt', Err e) ->
  untouched rt rt' /\
  (synthesis_windows rt' = synthesis_windows rt \/
   synthesis_windows rt' = failed_windows (h_window_id handle) (synthesis_windows rt)) /\
  row_follows rt rt'.
Proof.
  intros H. apply apply_split in H as [(e' & _ & -> & _)|(_ & _ & [(e' & _ & Hu & Hw & Hrow & _)|(o & -> & Hc & Hl)])].
  - split; [done|]. split; [by left|apply row_follows_refl].
  - split; [done|]. split; [by right|done].
  - destruct (check_object_window _ _ _ _ Hc) as (_ & Hwd & _). by apply land_spec in Hl.
Qed.
Lemma apply_checked env scope tier handle res rt rt' w :
  apply_dispatch_outcome env scope tier handle res rt = (rt', Ok w) ->
  w = h_window_id handle /\ scope ∉ tombstones rt /\
  exists o, res = Ok o /\ o_scope_id o = scope /\ o_window_id o = w /\ object_type o = expected_object tier /\
            (N.of_nat (length (payload o)) <= MAX_SYNTHESIS_OUTPUT_BYTES)%N.
Proof.
  intros H. apply apply_split in H as [(e & [=] & _)|(Hf & _ & [(e & [=] & _)|(o & -> & Hc & Hl)])].
  destruct (check_object_window _ _ _ _ Hc) as (Hs & Hwd & Ht & Hlen). apply land_spec in Hl as (-> & _); [|done].
  split; [done|]. split; [done|]. by exists o.
Qed.
Lemma apply_landed env scope tier handle res rt rt' w :
  apply_dispatch_outcome env scope tier handle res rt = (rt', Ok w) ->
  exists o s pa, res = Ok o /\ o_window_id o = w /\ h_window_id handle = w /\
    (exists x, windows (synthesis_windows rt) !! w = Some x /\ claimable (w_status x) = true) /\
    archive_entry rt scope w pa /\ outcome_stored (outcome env rt scope tier o) scope w pa (store rt) s /\
    rt' = swap_in env scope tier (outcome env rt scope tier o) (with_store rt s).
Proof.
  intros H. apply apply_split in H as [(e & [=] & _)|(_ & _ & [(e & [=] & _)|(o & -> & Hc & Hl)])].
  destruct (check_object_window _ _ _ _ Hc) as (_ & Hwd & _). apply land_spec in Hl as (-> & Hx & s & pa & Ha & Hst & ->); [|done].
  by exists o, s, pa.
Qed.
Lemma outcome_eq env rt scope tier o :
  let m := completed_windows (o_window_id o) (synthesis_windows rt) in
  windows_after (outcome env rt scope tier o) = remove_windows scope (w_id <$> expired scope m) m /\
  scope_objects_after (outcome env rt scope tier o) =
    foldl (fun o i => delete i o) (<[o_window_id o := landing rt scope o]> (default ∅ (synthesis_objects_for_scope rt scope)))
      (w_id <$> expired scope m).
Proof. intros m. unfold outcome, pruned. rewrite prune_eq. done. Qed.
Lemma object_in_default rt scope w :
  synthesis_object_in rt scope w = default ∅ (synthesis_objects_for_scope rt scope) !! w.
Proof. unfold synthesis_object_in, synthesis_objects_for_scope. by destruct (synthesis_objects rt !! scope). Qed.
Lemma landed_object env rt scope tier o i s :
  synthesis_object_in (swap_in env scope tier (outcome env rt scope tier o) (with_store rt s)) scope i =
  if bool_decide (i ∈ w_id <$> expired scope (completed_windows (o_window_id o) (synthesis_windows rt))) then None
  else if decide (i = o_window_id o) then Some (landing rt scope o) else synthesis_object_in rt scope i.
Proof.
  rewrite object_in_default, swap_in_objects, decide_True by done. rewrite (proj2 (outcome_eq env rt scope tier o)).
  rewrite foldl_delete_lookup. case_bool_decide; [done|]. rewrite object_in_default. destruct (decide _) as [->|Hne].
  - apply lookup_insert_eq.
  - by rewrite lookup_insert_ne.
Qed.

(** What landing does to the objects of the scope: the object goes in with the version
    after that of the one it replaces, and the objects of the expired windows go. *)
Definition objects_landed rt rt' scope w o : Prop := forall i,
  synthesis_object_in rt' scope i =
  if bool_decide (i ∈ w_id <$> expired scope (completed_windows w (synthesis_windows rt))) then None
  else if decide (i = w) then
    Some (match synthesis_object_in rt scope w with
          | Some prior => set_version o (u32_saturating_add (version prior) 1)
          | None => o
          end)
  else synthesis_object_in rt scope i.
(** And to the archive: the object replaced is added byte for byte under its version,
    the oldest entry goes if there are eight, the others stay. *)
Definition archive_landed rt rt' scope w : Prop :=
  (forall sc i, (sc, i) <> (scope, w) -> archive (conn (store rt')) sc i = archive (conn (store rt)) sc i) /\
  match synthesis_object_in rt scope w with
  | None => archive (conn (store rt')) scope w = archive (conn (store rt)) scope w
  | Some prior =>
      let had := version_list (archive (conn (store rt)) scope w) in
      versions_at (store rt') scope w =
        {[version prior]} ∪ (versions_at (store rt) scope w ∖
          list_to_set (if (MAX_SYNTHESIS_VERSIONS_PER_WINDOW <? length had + 1)%nat then take 1 had else [])) /\
      (exists json, to_vec prior = Some json /\ version_at (store rt') scope w (version prior) = Some json) /\
      forall n, n ∈ versions_at (store rt') scope w -> n <> version prior -> version_at (store rt') scope w n = version_at (store rt) scope w n
  end.
Lemma landed_archive env rt scope tier o pa s :
  archive_entry rt scope (o_window_id o) pa ->
  outcome_stored (outcome env rt scope tier o) scope (o_window_id o) pa (store rt) s ->
  archive_landed rt (swap_in env scope tier (outcome env rt scope tier o) (with_store rt s)) scope (o_window_id o).
Proof.
  intros Ha (_ & _ & _ & _ & _ & _ & _ & Ho & Harch). unfold archive_landed, archive_entry in *. cbn [store swap_in with_outcome with_store].
  split; [exact Ho|]. destruct (synthesis_object_in rt scope (o_window_id o)) as [prior|]; [|by subst pa].
  destruct Ha as (json & Ej & ->). cbn zeta. destruct Harch as (Hd & Hp & Hrest). split; [|split; [by exists json|exact Hrest]].
  rewrite Hd. destruct (_ <? _)%nat; [done|]. f_equal. set_solver.
Qed.
(** C5: Applying what an engine answered is all or nothing, whatever the engine answers
    and whichever statement of the store fails.  If it succeeds, the scope was not
    forgotten, the object passed every check, it is the object of its window (unless
    the window itself is beyond the retention cap) under the version after its
    predecessor's, and the recap of the scope; its predecessor is archived byte for
    byte, and the archive keeps at most eight versions; the window is complete and the
    windows beyond the cap are gone with their objects; memory and disk agree on
    windows, objects and memory; the cooldown starts; nothing of another scope has
    changed.  If it fails, nothing has changed in memory or on disk but at most the
    window itself, which may have gone to [Failed]. *)
Theorem apply_all_or_nothing env scope tier handle res rt rt' r :
  apply_dispatch_outcome env scope tier handle res rt = (rt', r) ->
  match r with
  | Ok w =>
      w = h_window_id handle /\ scope ∉ tombstones rt /\
      (exists o, res = Ok o /\ o_scope_id o = scope /\ o_window_id o = w /\ object_type o = expected_object tier /\
                 (N.of_nat (length (payload o)) <= MAX_SYNTHESIS_OUTPUT_BYTES)%N /\
                 recap_at rt' scope tier = Some (recap_text (payload o), Some w) /\ objects_landed rt rt' scope w o) /\
      (let m := completed_windows w (synthesis_windows rt) in
       synthesis_windows rt' = remove_windows scope (w_id <$> expired scope m) m) /\
      archive_landed rt rt' scope w /\
      disk_mirrors rt' scope tier /\ synthesis_cooldowns rt' !! (scope, tier) = Some (now env 6) /\
      others_kept rt rt' scope
  | Err _ =>
      untouched rt rt' /\
      (synthesis_windows rt' = synthesis_windows rt \/
       synthesis_windows rt' = failed_windows (h_window_id handle) (synthesis_windows rt)) /\
      row_follows rt rt'
  end.
Proof.
  intros H. destruct r as [w|e]; [|by apply (outcome_refused _ _ _ _ _ _ _ _ H)].
  destruct (apply_checked _ _ _ _ _ _ _ _ H) as (Ew & Hf & o & Hres & Hchk).
  apply apply_landed in H as (o' & s & pa & Hres' & How & _ & _ & Hpa & Hst & ->). assert (o' = o) as -> by congruence.
  rewrite <- How in Hst, Hpa. destruct (landed_mirrors _ _ _ _ _ _ _ Hst) as [Hm Hr].
  split; [done|]. split; [done|]. split; [|split; [|split; [|split; [done|split]]]].
  - exists o. rewrite Hr, How. do 2 (split; [tauto|]). do 3 (split; [tauto|]). split; [done|]. intros i.
    rewrite landed_object, How. unfold landing. by rewrite How.
  - unfold swap_in. cbn [synthesis_windows with_outcome]. rewrite (proj1 (outcome_eq env rt scope tier o)), How. done.
  - rewrite <- How. by apply (landed_archive env rt scope tier o pa s).
  - unfold swap_in. cbn [synthesis_cooldowns with_outcome]. by rewrite lookup_insert_eq.
  - by eapply landed_others.
Qed.

(** The versions of a window: when a run lands on a window that has an object of
    version [v], the new object gets version [v + 1], the old one is archived under
    its version, byte for byte as it was, and the archive goes on holding exactly the
    last eight versions before the current one, the others as they were; a window
    without an object keeps its archive. *)
Lemma versions_spec env scope tier handle res rt rt' w :
  apply_dispatch_outcome env scope tier handle res rt = (rt', Ok w) ->
  match synthesis_object_in rt scope w with
  | None => archive (conn (store rt')) scope w = archive (conn (store rt)) scope w
  | Some prior =>
      (1 <= version prior < u32_max)%N ->
      history MAX_SYNTHESIS_VERSIONS_PER_WINDOW (version prior) (versions_at (store rt) scope w) ->
      history MAX_SYNTHESIS_VERSIONS_PER_WINDOW (version prior + 1) (versions_at (store rt') scope w) /\
      (exists json, to_vec prior = Some json /\ version_at (store rt') scope w (version prior) = Some json) /\
      (forall n, n ∈ versions_at (store rt') scope w -> n <> version prior ->
         version_at (store rt') scope w n = version_at (store rt) scope w n) /\
      (forall o, synthesis_object_in rt' scope w = Some o -> version o = (version prior + 1)%N)
  end.
Proof.
  intros H. apply apply_landed in H as (o & s & pa & -> & <- & _ & _ & Ha & Hst & ->).
  destruct Hst as (_ & _ & _ & _ & _ & _ & _ & _ & Harch). unfold archive_entry in Ha.
  assert (Hland : forall p, synthesis_object_in rt scope (o_window_id o) = Some p -> (version p < u32_max)%N ->
            version (landing rt scope o) = (version p + 1)%N).
  { intros p Hp Hlt. unfold landing. rewrite Hp. cbn. unfold u32_saturating_add. lia. }
  assert (Hobj := landed_object env rt scope tier o (o_window_id o) s).
  destruct (synthesis_object_in rt scope (o_window_id o)) as [prior|] eqn:Ep; [|by subst pa].
  destruct Ha as (json & Ej & ->). intros Hv Hh. destruct Harch as (Hd & Hp & Hrest). cbn [store swap_in with_outcome with_store].
  rewrite (history_list _ _ _ Hh) in Hd. split; [|split; [by exists json|split; [exact Hrest|]]].
  - refine (history_step _ _ _ _ _ _ Hh Hd); [unfold MAX_SYNTHESIS_VERSIONS_PER_WINDOW; lia|lia].
  - intros o'. rewrite Hobj. case_bool_decide; [done|]. rewrite decide_True by done. intros [= <-]. apply Hland; [done|lia].
Qed.

Lemma completed_lookup w m x :
  windows m !! w = Some x -> claimable (w_status x) = true ->
  windows (completed_windows w m) !! w = Some (with_status Complete x).
Proof.
  intros Hx Hcl. unfold completed_windows. rewrite mark_in_progress_moves, Hx, Hcl. cbn [fst].
  rewrite mark_complete_moves. cbn [put windows]. rewrite lookup_insert_eq.
  change (is_status InProgress (w_status (with_status InProgress x))) with true. cbn. apply lookup_insert_eq.
Qed.
Lemma NoDup_complete_in scope m : wf m -> NoDup (complete_in scope m).
Proof.
  intros Hwf. apply NoDup_ListNoDup, List.NoDup_filter, NoDup_ListNoDup.
  apply (NoDup_fmap_1 w_id). by apply NoDup_windows_for.
Qed.
(** The complete windows divide into the newest and the expired. *)
Lemma kept_spec scope m :
  wf m ->
  let kept := take WINDOW_RETENTION_CAP_PER_SCOPE (newest_first window_end (complete_in scope m)) in
  (forall x, x ∈ kept <-> x ∈ complete_in scope m /\ x ∉ expired scope m) /\
  length (expired scope m) = (length (complete_in scope m) - WINDOW_RETENTION_CAP_PER_SCOPE)%nat /\
  (forall x y, x ∈ expired scope m -> y ∈ kept -> (window_end x <= window_end y)%Z).
Proof.
  intros Hwf kept. assert (Hs := newest_first_sorted window_end (complete_in scope m)).
  assert (Hn : NoDup (newest_first window_end (complete_in scope m))).
  { unfold newest_first. rewrite merge_sort_Permutation. by apply NoDup_complete_in. }
  assert (Hsplit := take_drop WINDOW_RETENTION_CAP_PER_SCOPE (newest_first window_end (complete_in scope m))).
  fold kept in Hsplit. fold (expired scope m) in Hsplit. rewrite <- Hsplit in Hs, Hn.
  apply NoDup_app in Hn as (_ & Hd & _). split; [|split].
  - intros x. rewrite <- (elem_of_newest_first window_end (complete_in scope m)), <- Hsplit, elem_of_app.
    specialize (Hd x). tauto.
  - unfold expired. by rewrite length_drop, length_newest_first.
  - intros x y Hx Hy. exact (StronglySorted_app_1_elem_of (newer window_end) _ _ y x Hs Hy Hx).
Qed.

Lemma landed_wf env scope tier handle res rt rt' w :
  wf (synthesis_windows rt) -> apply_dispatch_outcome env scope tier handle res rt = (rt', Ok w) -> wf (synthesis_windows rt').
Proof.
  intros Hwf H. apply apply_landed in H as (o & s & pa & -> & Ho & _ & _ & _ & _ & ->).
  unfold swap_in. cbn [synthesis_windows with_outcome]. rewrite (proj1 (outcome_eq env rt scope tier o)).
  by apply expired_wf, completed_wf.
Qed.

(** C30: Retention: when a run lands, its window becomes complete, and of the complete
    windows of the scope exactly the twenty with the latest ends stay, with their
    objects; the others go from the manager and from the objects.  Windows that are
    not complete, and all windows of other scopes, stay as they were. *)
Theorem retention_exact env scope tier handle res rt rt' w :
  wf (synthesis_windows rt) -> apply_dispatch_outcome env scope tier handle res rt = (rt', Ok w) ->
  let m := completed_windows w (synthesis_windows rt) in
  let gone := expired scope m in
  wf (synthesis_windows rt') /\
  (exists x, windows (synthesis_windows rt) !! w = Some x /\ windows m !! w = Some (with_status Complete x)) /\
  (forall s x, x ∈ windows_for s (synthesis_windows rt') <-> x ∈ windows_for s m /\ x ∉ gone) /\
  (length (complete_in scope (synthesis_windows rt')) <= WINDOW_RETENTION_CAP_PER_SCOPE)%nat /\
  length gone = (length (complete_in scope m) - WINDOW_RETENTION_CAP_PER_SCOPE)%nat /\
  (forall x y, x ∈ gone -> y ∈ complete_in scope (synthesis_windows rt') -> (window_end x <= window_end y)%Z) /\
  (forall i, is_Some (synthesis_object_in rt' scope i) <->
             (i = w \/ is_Some (synthesis_object_in rt scope i)) /\ i ∉ w_id <$> gone).
Proof.
  intros Hwf H m gone. apply apply_landed in H as (o & s & pa & -> & Ho & _ & (x & Hx & Hcl) & _ & _ & ->).
  assert (Hm : wf m) by by apply completed_wf.
  assert (Hw : synthesis_windows (swap_in env scope tier (outcome env rt scope tier o) (with_store rt s)) =
               remove_windows scope (w_id <$> gone) m).
  { unfold swap_in. cbn [synthesis_windows with_outcome]. rewrite (proj1 (outcome_eq env rt scope tier o)), Ho. done. }
  rewrite Hw. assert (Hin : forall s x, x ∈ windows_for s (remove_windows scope (w_id <$> gone) m) <-> x ∈ windows_for s m /\ x ∉ gone)
    by (intros; by apply expired_windows).
  split; [by apply expired_wf|]. split; [|split; [done|]].
  { exists x. split; [done|]. by apply completed_lookup. }
  destruct (kept_spec scope m) as (Hkept & Hlen & Hsort); [done|]. fold gone in Hkept, Hlen, Hsort.
  assert (Hc : forall x, x ∈ complete_in scope (remove_windows scope (w_id <$> gone) m) <->
                         x ∈ take WINDOW_RETENTION_CAP_PER_SCOPE (newest_first window_end (complete_in scope m))).
  { intros y. rewrite Hkept, !elem_of_complete_in, Hin. tauto. }
  split; [|split; [done|split]].
  - rewrite <- (firstn_le_length WINDOW_RETENTION_CAP_PER_SCOPE (newest_first window_end (complete_in scope m))).
    apply NoDup_incl_length; [by apply NoDup_ListNoDup, NoDup_complete_in, expired_wf|].
    intros y. rewrite <- !list_elem_of_In. apply Hc.
  - intros y z Hy Hz%Hc. by apply Hsort.
  - intros i. rewrite landed_object, Ho. fold m. fold gone. case_bool_decide as Hi.
    + split; [by intros []|by intros [_ ?]].
    + destruct (decide (i = w)) as [->|Hne]; [split; [auto|by eexists]|]. split; [auto|]. by intros [[?|?] _].
Qed.
End Apply.

(** ** Witnesses *)

Module Demo.
Import ServerSynthesis.Concrete.
Lemma landing_lands :
  apply_dispatch_outcome (at_time 160 7) 1 KindDomain handle (Ok (answer "All is well.")) planned = (landed, Ok 7%N).
Proof.
  assert (E : (apply_dispatch_outcome (at_time 160 7) 1 KindDomain handle (Ok (answer "All is well.")) planned).2 = Ok 7%N)
    by (vm_compute; reflexivity).
  rewrite <- E. apply surjective_pairing.
Qed.
Lemma apply_all_or_nothing_witness :
  exists o, recap_at landed 1 KindDomain = Some (recap_text (payload o), Some 7%N) /\ disk_mirrors landed 1 KindDomain.
Proof.
  destruct (apply_all_or_nothing _ _ _ _ _ _ _ _ landing_lands) as (_ & _ & (o & _ & _ & _ & _ & _ & Hr & _) & _ & _ & Hd & _).
  exists o. split; [exact Hr|exact Hd].
Defined.
Lemma planned_wf : wf (synthesis_windows planned).
Proof.
  assert (E : synthesis_windows planned = run_call empty_manager (OpenTiered 7 (seconds 100 + 4) 1 Domain (seconds 100 + 2 - seconds DEFAULT_WINDOW_DURATION_SECS) (seconds 100 + 2))%Z)
    by (vm_compute; reflexivity).
  rewrite E. apply run_call_keeps_wf; [done|apply empty_wf].
Qed.
Lemma retention_exact_witness :
  (length (complete_in 1 (synthesis_windows landed)) <= WINDOW_RETENTION_CAP_PER_SCOPE)%nat.
Proof.
  apply (retention_exact _ _ _ _ _ _ _ _ planned_wf landing_lands).
Defined.
End Demo.
