(* ===== verification/SynthesisRuns.v ===== *)
(** * Synthesis runs that interleave ([ffi/src/synthesis.rs])

    Planning a dispatch or a replay; the steps by which dispatches, replays, their
    completions and the forgetting of scopes interleave on one runtime; the invariant
    of every reachable state. *)

From stdpp Require Import sorting.
From S2P Require Import Prelude Http ChannelMemory DomainMemory TenantMemory.
From S2P Require Import SynthesisWindow SynthesisHierarchy SynthesisStore SynthesisRate ServerSynthesis SynthesisApply.

Section Runs.
Context {Json Engine Key Nonce Bytes : Type}.
Context {AE : Aead Key Nonce Bytes} {IN : Inhabited Nonce} {HO : HashOrder}.
Context {SW : Serde Bytes SynthesisWindowManager} {SO : Serde Bytes SynthesisObject} {SL : Serde Bytes (list SynthesisObject)}.
Context {SD : Serde Bytes (DomainMemoryObject (Json := Json))} {ST : Serde Bytes (TenantMemoryObject (Json := Json))}.
#[local] Abbreviation runtime := (FfiRuntime (Json := Json) (Engine := Engine) (Key := Key) (Nonce := Nonce) (Bytes := Bytes)).
Implicit Types (rt : runtime).

(** ** Planning *)

(** The call that opens the window of a run. *)
Definition opening (env : Env) (scope : uuid) (t : WindowScopeTier) : call :=
  OpenTiered (fresh env 0) (now env 4) scope t (now env 2 - seconds DEFAULT_WINDOW_DURATION_SECS)%Z (now env 2).
Definition tier_of (k : SynthesisTierKind) : WindowScopeTier := match k with KindDomain => Domain | KindTenant => Tenant end.

Lemma open_for_spec {Input} env scope t engine (input : Input) rt rt' r :
  open_for env scope t engine input rt = (rt', r) ->
  untouched rt rt' /\ synthesis_windows rt' = run_call (synthesis_windows rt) (opening env scope t) /\ row_follows rt rt' /\
  match r with
  | Ok p => p = mk_plan Input engine (mk_handle (fresh env 0) scope t) input (synthesis_windows rt') /\ windows_mirrored rt'
  | Err _ => conn (store rt') = conn (store rt)
  end.
Proof.
  unfold open_for, try_eff at 1, on_windows. cbn [run_call opening]. rewrite open_tiered_window_eq.
  assert ((now env 2 - seconds DEFAULT_WINDOW_DURATION_SECS <? now env 2)%Z = true) as -> by (apply Z.ltb_lt; unfold seconds, DEFAULT_WINDOW_DURATION_SECS; lia).
  set (m := (set_tier _ _ _).1). unfold try_eff, ServerSynthesis.get, ret. destruct (flush_synthesis_windows (with_windows rt m)) as [rt1 r1] eqn:E.
  destruct (flush_spec _ _ _ E) as (Hu & Hw & _ & Hr). assert (untouched rt rt1) by (etransitivity; [|exact Hu]; by split).
  assert (row_follows rt rt1) by by apply (row_follows_after _ (with_windows rt m)), (flush_row _ _ _ E).
  destruct r1 as [u|e]; intros [= <- <-]; by rewrite Hw.
Qed.

Lemma acquire_spec at_ rt rt' r :
  acquire_token at_ rt = (rt', r) -> exists b, rt' = with_limiter rt b.
Proof. unfold acquire_token. destruct (try_acquire _ _) as [b q]. intros [= <- <-]. eauto. Qed.
Lemma untouched_limiter rt b : untouched rt (with_limiter rt b). Proof. by split. Qed.

(** The run a plan starts: its scope, kind and handle. *)
Record Flight : Type := mk_flight { f_scope : uuid; f_kind : SynthesisTierKind; f_handle : TieredWindowHandle }.
Definition dispatch_flight (scope : uuid) (r : result (DispatchPlan (Engine := Engine)) FfiError) : list Flight :=
  match r with
  | Ok (PlanDomain p) => [mk_flight scope KindDomain (window_handle _ p)]
  | Ok (PlanTenant p) => [mk_flight scope KindTenant (window_handle _ p)]
  | _ => []
  end.
Definition replay_flight (scope : uuid) (r : result (ReplayPlan (Engine := Engine)) FfiError) : list Flight :=
  match r with
  | Ok (ReplayDomain p) => [mk_flight scope KindDomain (window_handle _ p)]
  | Ok (ReplayTenant p) => [mk_flight scope KindTenant (window_handle _ p)]
  | Err _ => []
  end.

(** A dispatch leaves the windows as they are, and then starts nothing, or opens its
    window. *)
Lemma dispatch_plan_spec env scope kind rt rt' r :
  build_dispatch_plan env scope kind rt = (rt', r) ->
  untouched rt rt' /\ row_follows rt rt' /\
  ((synthesis_windows rt' = synthesis_windows rt /\ dispatch_flight scope r = []) \/
   (scope ∉ tombstones rt /\ synthesis_windows rt' = run_call (synthesis_windows rt) (opening env scope (tier_of kind)) /\
    (dispatch_flight scope r = [] \/
     dispatch_flight scope r = [mk_flight scope kind (mk_handle (fresh env 0) scope (tier_of kind))]))).
Proof.
  unfold build_dispatch_plan, try_eff at 1, ServerSynthesis.get at 1, try_eff at 1, ensure, is_scope_forgotten.
  case_bool_decide as Hf; cbn [negb]; [by intros [= <- <-]; split; [|split; [apply row_follows_refl|left]]|].
  unfold try_eff at 1, require_engine. destruct (synthesis_engine rt) as [e|]; cbn [ok_or]; [|by intros [= <- <-]; split; [|split; [apply row_follows_refl|left]]].
  unfold try_eff at 1. destruct (enforce_scope_binding scope rt) as [rt0 r0] eqn:Eb.
  assert (rt0 = rt) as -> by (unfold enforce_scope_binding in Eb; by destruct (synthesis_scope_bindings rt); injection Eb as <- _).
  destruct r0 as [u|err]; [|by intros [= <- <-]; split; [|split; [apply row_follows_refl|left]]].
  unfold try_eff at 1, ServerSynthesis.get at 1. destruct (in_cooldown env rt scope kind) as [w|].
  { unfold ret. by intros [= <- <-]; split; [|split; [apply row_follows_refl|left]]. }
  unfold try_eff at 1. destruct (acquire_token (now env 1) rt) as [rt1 r1] eqn:Ea. apply acquire_spec in Ea as [b ->].
  assert (Hb := untouched_limiter rt b). assert (Hrb : row_follows rt (with_limiter rt b)) by by right. destruct r1 as [u1|err]; [|by intros [= <- <-]; split; [|split; [|left]]].
  destruct kind; unfold try_eff at 1.
  - unfold domain_input. destruct (match domain_memories (with_limiter rt b) !! scope with Some _ => _ | None => _ end) as [input|err];
      [|by intros [= <- <-]; split; [|split; [|left]]].
    unfold try_eff, ret. destruct (open_for env scope Domain e input (with_limiter rt b)) as [rt2 r2] eqn:Eo.
    destruct (open_for_spec _ _ _ _ _ _ _ _ Eo) as (Hu & Hw & Hrow & Hr). assert (Hu' : untouched rt rt2) by by etransitivity.
    assert (row_follows rt rt2) by by apply (row_follows_after _ (with_limiter rt b)).
    destruct r2 as [p|err]; intros [= <- <-]; (split; [done|]); (split; [done|]); right; (split; [done|]); (split; [done|]); [right|by left].
    destruct Hr as [-> _]. done.
  - unfold tenant_input. destruct (match tenant_memories (with_limiter rt b) !! scope with Some _ => _ | None => _ end) as [input|err];
      [|by intros [= <- <-]; split; [|split; [|left]]].
    unfold try_eff, ret. destruct (open_for env scope Tenant e input (with_limiter rt b)) as [rt2 r2] eqn:Eo.
    destruct (open_for_spec _ _ _ _ _ _ _ _ Eo) as (Hu & Hw & Hrow & Hr). assert (Hu' : untouched rt rt2) by by etransitivity.
    assert (row_follows rt rt2) by by apply (row_follows_after _ (with_limiter rt b)).
    destruct r2 as [p|err]; intros [= <- <-]; (split; [done|]); (split; [done|]); right; (split; [done|]); (split; [done|]); [right|by left].
    destruct Hr as [-> _]. done.
Qed.

Lemma find_window_spec rt scope window x :
  find_window rt scope window = Some x -> x ∈ windows_for scope (synthesis_windows rt) /\ w_id x = window.
Proof. unfold find_window. intros [H1 H2]%List.find_some. split; [by apply list_elem_of_In|by apply N.eqb_eq]. Qed.

(** Both inputs are gathered without a change of state. *)
Lemma input_state {A} (m : eff runtime FfiError A) :
  (forall rt, (m rt).1 = rt) -> forall rt, m rt = (rt, (m rt).2).
Proof. intros Hm rt. rewrite <- (Hm rt) at 2. by destruct (m rt). Qed.

(** A replay leaves the windows as they are, and then starts nothing, or reopens a
    complete window of the scope. *)
Lemma replay_plan_spec env scope window rt rt' r :
  build_replay_plan env scope window rt = (rt', r) ->
  untouched rt rt' /\ row_follows rt rt' /\
  ((synthesis_windows rt' = synthesis_windows rt /\ replay_flight scope r = []) \/
   exists x t, scope ∉ tombstones rt /\ find_window rt scope window = Some x /\ w_status x = Complete /\ w_tier x = Some t /\
     synthesis_windows rt' = run_call (synthesis_windows rt) (MarkReplayPending window) /\
     (replay_flight scope r = [] \/
      replay_flight scope r = [mk_flight scope (window_scope_tier_to_synthesis_tier t) (mk_handle window scope t)])).
Proof.
  unfold build_replay_plan, try_eff at 1, ServerSynthesis.get at 1, try_eff at 1, ensure at 1, is_scope_forgotten.
  case_bool_decide as Hf; cbn [negb]; [by intros [= <- <-]; split; [|split; [by right|left]]|].
  unfold try_eff at 1. destruct (enforce_scope_binding scope rt) as [rt0 r0] eqn:Eb.
  assert (rt0 = rt) as -> by (unfold enforce_scope_binding in Eb; by destruct (synthesis_scope_bindings rt); injection Eb as <- _).
  destruct r0 as [u|err]; [|by intros [= <- <-]; split; [|split; [by right|left]]].
  unfold try_eff at 1, require_engine. destruct (synthesis_engine rt) as [e|]; cbn [ok_or]; [|by intros [= <- <-]; split; [|split; [by right|left]]].
  unfold try_eff at 1, ServerSynthesis.get at 1, try_eff at 1, lift at 1.
  destruct (find_window rt scope window) as [x|] eqn:Ex; cbn [ok_or]; [|by intros [= <- <-]; split; [|split; [by right|left]]].
  unfold try_eff at 1, ensure at 1. case_bool_decide as Hc; [|by intros [= <- <-]; split; [|split; [by right|left]]].
  unfold try_eff at 1, lift at 1. destruct (w_tier x) as [t|] eqn:Et; cbn [ok_or]; [|by intros [= <- <-]; split; [|split; [by right|left]]].
  unfold try_eff at 1. destruct (acquire_token (now env 1) rt) as [rt1 r1] eqn:Ea. apply acquire_spec in Ea as [b ->].
  assert (Hb := untouched_limiter rt b). destruct r1 as [u1|err]; [|by intros [= <- <-]; split; [|split; [by right|left]]].
  unfold try_eff at 1, on_windows. cbn [synthesis_windows with_limiter].
  assert (Hmr := mark_replay_pending_moves (synthesis_windows rt) window).
  destruct (mark_replay_pending window (synthesis_windows rt)) as [m rm] eqn:Em. destruct rm as [um|err].
  2:{ intros [= <- <-]. split; [by etransitivity|]. split; [by right|left]. split; [|done]. cbn. by repeat case_match; simplify_eq/=. }
  unfold try_eff at 1. destruct (flush_synthesis_windows (with_windows (with_limiter rt b) m)) as [rt2 r2] eqn:E.
  destruct (flush_spec _ _ _ E) as (Hu & Hw & _ & _). assert (Hu' : untouched rt rt2) by (etransitivity; [|exact Hu]; by split).
  assert (Hrow : row_follows rt rt2) by by apply (row_follows_after _ (with_windows (with_limiter rt b) m)), (flush_row _ _ _ E).
  assert (Hm : synthesis_windows rt2 = run_call (synthesis_windows rt) (MarkReplayPending window)) by (rewrite Hw; cbn; by rewrite Em).
  destruct r2 as [u2|err]; [|intros [= <- <-]; split; [done|split; [done|right]]; exists x, t; auto 10].
  destruct (window_scope_tier_to_synthesis_tier t) eqn:Ek; unfold try_eff at 1.
  - rewrite (input_state (domain_input env scope)) by done. destruct (domain_input env scope rt2).2 as [input|err];
      unfold try_eff, ServerSynthesis.get, ret; intros [= <- <-]; (split; [done|split; [done|right]]); exists x, t; rewrite Ek; auto 10.
  - rewrite (input_state (tenant_input env scope)) by done. destruct (tenant_input env scope rt2).2 as [input|err];
      unfold try_eff, ServerSynthesis.get, ret; intros [= <- <-]; (split; [done|split; [done|right]]); exists x, t; rewrite Ek; auto 10.
Qed.

(** *** Forgetting *)

Lemma forget_spec keys scope rt rt' r :
  (forall s, s <> scope -> keys s = scope_key (store rt) s) ->
  forget_scope_state keys scope rt = (rt', r) ->
  rt' = rt \/
  (scope <> synthesis_windows_scope /\ tombstones rt' = {[scope]} ∪ tombstones rt /\
   synthesis_windows rt' = run_call (synthesis_windows rt) (RemoveScope scope) /\
   synthesis_objects rt' = delete scope (synthesis_objects rt) /\
   channel_memories rt' = delete scope (channel_memories rt) /\
   domain_memories rt' = delete scope (domain_memories rt) /\ tenant_memories rt' = delete scope (tenant_memories rt) /\
   (forall s k, synthesis_cooldowns rt' !! (s, k) = if decide (s = scope) then None else synthesis_cooldowns rt !! (s, k)) /\
   (forall s w, s <> scope -> archive (conn (store rt')) s w = archive (conn (store rt)) s w) /\
   (forall s k, s <> scope -> (s, k) <> (synthesis_windows_scope, SYNTHESIS_WINDOWS_KIND) ->
      blob_at (store rt') s k = blob_at (store rt) s k) /\
   row_follows rt rt').
Proof.
  intros Hkeys. unfold forget_scope_state. destruct (N.eqb_spec scope synthesis_windows_scope) as [|Hne]; [intros [= <- _]; by left|].
  rewrite on_store_eq. set (rt1 := with_tombstone rt scope keys).
  destruct (delete_memory_blobs_for_scope scope (store rt1)) as [s2 r2] eqn:E2.
  destruct (delete_blobs_spec _ _ _ _ E2) as (K2 & V2 & B2). cbn [fst snd].
  rewrite on_store_eq. cbn [store with_store].
  destruct (delete_synthesis_object_versions_for_scope scope s2) as [s3 r3] eqn:E3.
  destruct (delete_versions_spec _ _ _ _ E3) as (K3 & M3 & V3). cbn [fst snd].
  set (rt4 := without_scope _ scope). destruct (flush_synthesis_windows rt4) as [rt5 r5] eqn:E5.
  destruct (flush_spec _ _ _ E5) as (Hu & Hw & _). intros [= <- _]. right. split; [done|].
  rewrite (ut_tombstones _ _ Hu), Hw, (ut_objects _ _ Hu), (ut_channels _ _ Hu), (ut_domains _ _ Hu), (ut_tenants _ _ Hu), (ut_cooldowns _ _ Hu).
  do 6 (split; [done|]). split; [|split; [|split]].
  - intros s k. cbn [rt4 without_scope synthesis_cooldowns with_store rt1 with_tombstone].
    destruct (decide (s = scope)) as [->|Hs].
    + apply map_lookup_filter_None_2. right. intros c _ H. by apply H.
    + destruct (synthesis_cooldowns rt !! (s, k)) as [c|] eqn:E.
      * by rewrite (map_lookup_filter_Some_2 _ _ _ _ E).
      * by rewrite (map_lookup_filter_None_2 _ _ _ (or_introl E)).
  - intros s w Hs. rewrite (untouched_rows _ _ Hu). cbn [rt4 without_scope store with_store]. rewrite V3 by done.
    unfold archive. by rewrite V2.
  - intros s k Hs Hk. rewrite (ut_blobs _ _ Hu) by done. cbn [rt4 without_scope store with_store].
    assert (E : blob_at s3 s k = blob_at s2 s k) by (unfold blob_at, plain, opened; by rewrite M3, K3).
    rewrite E, B2 by done. unfold blob_at, plain, opened. cbn [rt1 with_tombstone store conn scope_key]. by rewrite Hkeys.
  - apply (row_follows_after _ rt4), (flush_row _ _ _ E5). cbn [rt4 without_scope store with_store].
    assert (E : forall s k, blob_at s3 s k = blob_at s2 s k) by (intros; unfold blob_at, plain, opened; by rewrite M3, K3).
    rewrite E, B2 by congruence. unfold blob_at, plain, opened. cbn [rt1 with_tombstone store conn scope_key]. by rewrite Hkeys by congruence.
Qed.

(** ** Steps *)

Definition f_window (f : Flight) : uuid := h_window_id (f_handle f).
Definition state : Type := runtime * list Flight.
(** An identifier never drawn before. *)
Definition unused (i : uuid) (st : state) : Prop :=
  windows (synthesis_windows st.1) !! i = None /\ i ∉ f_window <$> st.2 /\
  forall s, archive (conn (store st.1)) s i = ∅.
(** An engine builds its objects with the first version stamp. *)
Definition fresh_answer (res : result SynthesisObject string) : Prop :=
  forall o, res = Ok o -> version o = default_synthesis_object_version.
(** The window has not been replayed four billion times. *)
Definition below_cap rt (scope window : uuid) : Prop :=
  forall o, synthesis_object_in rt scope window = Some o -> (version o < u32_max)%N.

(** One locked phase of one call; the flights are the runs whose engine is still
    at work. *)
Inductive step : state -> state -> Prop :=
| step_dispatch env scope kind rt fs rt' r :
    unused (fresh env 0) (rt, fs) -> build_dispatch_plan env scope kind rt = (rt', r) ->
    step (rt, fs) (rt', dispatch_flight scope r ++ fs)
| step_replay env scope window rt fs rt' r :
    build_replay_plan env scope window rt = (rt', r) ->
    step (rt, fs) (rt', replay_flight scope r ++ fs)
| step_finish env res rt fs1 f fs2 rt' r :
    fresh_answer res -> below_cap rt (f_scope f) (f_window f) ->
    apply_dispatch_outcome env (f_scope f) (f_kind f) (f_handle f) res rt = (rt', r) ->
    step (rt, fs1 ++ f :: fs2) (rt', fs1 ++ fs2)
| step_forget keys scope rt fs rt' r :
    (forall s, s <> scope -> keys s = scope_key (store rt) s) -> forget_scope_state keys scope rt = (rt', r) ->
    step (rt, fs) (rt', fs)
| step_configure engine bindings cap refill rt fs rt' r :
    configure_synthesis_engine engine bindings cap refill rt = (rt', r) -> step (rt, fs) (rt', fs).

(** ** The invariant *)

Record inv (st : state) : Prop := mk_inv {
  inv_wf : wf (synthesis_windows st.1);
  inv_ids : NoDup (f_window <$> st.2);
  inv_flight : forall f, f ∈ st.2 ->
    match windows (synthesis_windows st.1) !! f_window f with
    | None => f_scope f ∈ tombstones st.1
    | Some x => w_status x = Pending /\ w_scope_id x = f_scope f /\
                exists t, w_tier x = Some t /\ window_scope_tier_to_synthesis_tier t = f_kind f
    end;
  inv_object : forall s i o, synthesis_object_in st.1 s i = Some o ->
    o_scope_id o = s /\ o_window_id o = i /\ (1 <= version o)%N /\
    history MAX_SYNTHESIS_VERSIONS_PER_WINDOW (version o) (versions_at (store st.1) s i) /\
    exists x t, windows (synthesis_windows st.1) !! i = Some x /\ w_scope_id x = s /\ w_tier x = Some t /\
                object_type o = expected_object (window_scope_tier_to_synthesis_tier t);
  inv_complete : forall i x, windows (synthesis_windows st.1) !! i = Some x -> w_status x = Complete ->
    is_Some (synthesis_object_in st.1 (w_scope_id x) i);
  inv_archive : forall i x, windows (synthesis_windows st.1) !! i = Some x ->
    synthesis_object_in st.1 (w_scope_id x) i = None -> archive (conn (store st.1)) (w_scope_id x) i = ∅;
  inv_forgotten : forall i x, windows (synthesis_windows st.1) !! i = Some x -> w_scope_id x ∉ tombstones st.1;
  inv_live : forall i x, windows (synthesis_windows st.1) !! i = Some x -> w_status x <> InProgress
}.

(** A change of the windows alone, in place, that keeps tiers and gives no new
    complete window and none in progress; [fs] are the flights after it. *)
Lemma inv_restatus rt rt' fs fs' (h : SynthesisWindow -> SynthesisWindow) :
  untouched rt rt' -> in_place h -> (forall x, w_tier (h x) = w_tier x) ->
  (forall i x, windows (synthesis_windows rt) !! i = Some x -> w_status x <> InProgress -> w_status (h x) <> InProgress) ->
  (forall i x, windows (synthesis_windows rt) !! i = Some x -> w_status (h x) = Complete -> w_status x = Complete) ->
  by_scope (synthesis_windows rt') = by_scope (synthesis_windows rt) ->
  (forall i, windows (synthesis_windows rt') !! i = h <$> windows (synthesis_windows rt) !! i) ->
  inv (rt, fs) -> NoDup (f_window <$> fs') ->
  (forall f, f ∈ fs' -> match windows (synthesis_windows rt) !! f_window f with
    | None => f_scope f ∈ tombstones rt
    | Some x => w_status (h x) = Pending /\ w_scope_id x = f_scope f /\
                exists t, w_tier x = Some t /\ window_scope_tier_to_synthesis_tier t = f_kind f end) ->
  inv (rt', fs').
Proof.
  intros Hu Hh Ht Hip Hco Hb Hw [Iwf _ _ Iob Ico Iar Ifo Ili] Hnd Hfl. cbn in *.
  assert (Hobj : forall s i, synthesis_object_in rt' s i = synthesis_object_in rt s i)
    by (intros; unfold synthesis_object_in; by rewrite (ut_objects _ _ Hu)).
  assert (Har := untouched_rows _ _ Hu). split; cbn [fst snd].
  - by eapply update_wf.
  - done.
  - intros f Hf. specialize (Hfl f Hf). rewrite Hw, (ut_tombstones _ _ Hu).
    destruct (windows (synthesis_windows rt) !! f_window f) as [x|]; [|done]. cbn.
    destruct (Hh x) as (_ & -> & _). by rewrite Ht.
  - intros s i o. rewrite Hobj. intros Ho. destruct (Iob s i o Ho) as (H1 & H2 & H3 & H4 & x & t & Hx & Hs & Htx & Hty).
    repeat (split; [done|]). split; [unfold versions_at; by rewrite Har|].
    exists (h x), t. rewrite Hw, Hx, Ht. split; [done|]. split; [|done]. by destruct (Hh x) as (_ & -> & _).
  - intros i y. rewrite Hw. destruct (windows (synthesis_windows rt) !! i) as [x|] eqn:Ex; [|done]. intros [= <-] Hc.
    rewrite Hobj. destruct (Hh x) as (_ & -> & _). eapply Ico; [done|]. by eapply Hco.
  - intros i y. rewrite Hw. destruct (windows (synthesis_windows rt) !! i) as [x|] eqn:Ex; [|done]. intros [= <-].
    destruct (Hh x) as (_ & -> & _). rewrite Hobj, Har. by apply Iar.
  - intros i y. rewrite Hw, (ut_tombstones _ _ Hu). destruct (windows (synthesis_windows rt) !! i) as [x|] eqn:Ex; [|done].
    intros [= <-]. destruct (Hh x) as (_ & -> & _). by eapply Ifo.
  - intros i y. rewrite Hw. destruct (windows (synthesis_windows rt) !! i) as [x|] eqn:Ex; [|done]. intros [= <-].
    eapply Hip; [done|]. by eapply Ili.
Qed.

Lemma inv_same rt rt' fs : untouched rt rt' -> synthesis_windows rt' = synthesis_windows rt -> inv (rt, fs) -> inv (rt', fs).
Proof.
  intros Hu Hw Hi. eapply (inv_restatus rt rt' fs fs (fun x => x)); try done.
  - by rewrite Hw.
  - intros i. rewrite Hw. by destruct (_ !! i).
  - apply Hi.
  - apply Hi.
Qed.

(** *** Dispatching *)

Definition opened_window (env : Env) (scope : uuid) (t : WindowScopeTier) : SynthesisWindow :=
  mk_window (fresh env 0) scope (now env 2 - seconds DEFAULT_WINDOW_DURATION_SECS)%Z (now env 2) Pending (Some t) (Some (now env 4)).
Lemma opening_lookup m env scope t i :
  wf m -> windows m !! fresh env 0 = None ->
  windows (run_call m (opening env scope t)) !! i =
  if decide (i = fresh env 0) then Some (opened_window env scope t) else windows m !! i.
Proof.
  intros Hwf Hn. cbn [run_call opening]. rewrite open_tiered_window_eq.
  assert (Hlt : (now env 2 - seconds DEFAULT_WINDOW_DURATION_SECS <? now env 2)%Z = true)
    by (apply Z.ltb_lt; unfold seconds, DEFAULT_WINDOW_DURATION_SECS; lia).
  rewrite Hlt. cbn [fst]. rewrite set_tier_lookup by (apply opened_wf; [done..|by apply Z.ltb_lt]).
  cbn [SynthesisWindow.opened windows w_id]. destruct (decide (i = fresh env 0)) as [->|Hne].
  - rewrite lookup_insert_eq. cbn. by rewrite N.eqb_refl.
  - rewrite lookup_insert_ne by done. destruct (windows m !! i) as [x|] eqn:Ex; [|done]. cbn.
    rewrite (proj1 (wf_tracked m Hwf i x Ex)). by destruct (N.eqb_spec i (fresh env 0)).
Qed.

Lemma inv_opening env scope kind rt rt' fs fs' :
  inv (rt, fs) -> unused (fresh env 0) (rt, fs) -> untouched rt rt' -> scope ∉ tombstones rt ->
  synthesis_windows rt' = run_call (synthesis_windows rt) (opening env scope (tier_of kind)) ->
  fs' = [] \/ fs' = [mk_flight scope kind (mk_handle (fresh env 0) scope (tier_of kind))] ->
  inv (rt', fs' ++ fs).
Proof.
  intros [Iwf Iid Ifl Iob Ico Iar Ifo Ili] (Un & Uf & Ua) Hu Hs Hw Hfs. cbn in *.
  assert (Hlk : forall i, windows (synthesis_windows rt') !! i =
    if decide (i = fresh env 0) then Some (opened_window env scope (tier_of kind)) else windows (synthesis_windows rt) !! i)
    by (intros i; rewrite Hw; exact (opening_lookup _ env scope (tier_of kind) i Iwf Un)).
  assert (Hobj : forall s i, synthesis_object_in rt' s i = synthesis_object_in rt s i)
    by (intros; unfold synthesis_object_in; by rewrite (ut_objects _ _ Hu)).
  assert (Har := untouched_rows _ _ Hu). split; cbn [fst snd].
  - rewrite Hw. exact (run_call_keeps_wf _ (opening env scope (tier_of kind)) Un Iwf).
  - rewrite fmap_app. destruct Hfs as [->| ->]; [done|]. cbn. by constructor.
  - intros f. rewrite elem_of_app, Hlk, (ut_tombstones _ _ Hu). intros [Hf|Hf].
    + destruct Hfs as [->| ->]; [by apply not_elem_of_nil in Hf|]. apply list_elem_of_singleton in Hf as ->.
      cbn. rewrite decide_True by done. cbn. split; [done|]. split; [done|]. exists (tier_of kind). by destruct kind.
    + rewrite decide_False; [by apply Ifl|]. intros E. apply Uf. rewrite <- E. by apply list_elem_of_fmap_2.
  - intros s i o. rewrite Hobj. intros Ho. destruct (Iob s i o Ho) as (H1 & H2 & H3 & H4 & x & t & Hx & Hrest).
    repeat (split; [done|]). split; [unfold versions_at; by rewrite Har|]. exists x, t. rewrite Hlk, decide_False by congruence. done.
  - intros i x. rewrite Hlk, Hobj. destruct (decide _) as [->|]; [by intros [= <-]|]. apply Ico.
  - intros i x. rewrite Hlk, Hobj, Har. destruct (decide _) as [->|]; [intros _ _; apply Ua|]. apply Iar.
  - intros i x. rewrite Hlk, (ut_tombstones _ _ Hu). destruct (decide _) as [->|]; [by intros [= <-]|]. apply Ifo.
  - intros i x. rewrite Hlk. destruct (decide _) as [->|]; [by intros [= <-]|]. apply Ili.
Qed.

(** *** Replaying *)

Lemma inv_reopen scope window x t rt rt' fs fs' :
  inv (rt, fs) -> untouched rt rt' -> find_window rt scope window = Some x -> w_status x = Complete -> w_tier x = Some t ->
  synthesis_windows rt' = run_call (synthesis_windows rt) (MarkReplayPending window) ->
  fs' = [] \/ fs' = [mk_flight scope (window_scope_tier_to_synthesis_tier t) (mk_handle window scope t)] ->
  inv (rt', fs' ++ fs).
Proof.
  intros Hi Hu Hx Hc Ht Hw Hfs. destruct (find_window_spec _ _ _ _ Hx) as [Hin Hid].
  apply elem_of_windows_for in Hin as [Hlk Hsc]; [|apply Hi]. rewrite Hid in Hlk.
  assert (Hnew : forall f, f ∈ fs -> f_window f <> window).
  { intros f Hf E. assert (Hfl := inv_flight _ Hi f Hf). cbn in Hfl. rewrite E, Hlk in Hfl. destruct Hfl as [Hp _]. congruence. }
  eapply (inv_restatus rt rt' fs _ (advance window (is_status Complete) Pending)); [done|done| | | | | |done| |].
  - intros y. unfold advance. by destruct (_ && _).
  - intros i y Hy. unfold advance. by destruct (_ && _).
  - intros i y Hy. unfold advance. by destruct (_ && _).
  - rewrite Hw. by apply (moves_by_scope mark_replay_pending _ _ _ _ mark_replay_pending_moves).
  - intros i. rewrite Hw. apply (moves_lookup _ _ _ _ _ _ mark_replay_pending_moves), Hi.
  - rewrite fmap_app. destruct Hfs as [->| ->]; [apply Hi|]. cbn. constructor; [|apply Hi].
    intros (f & E & Hf)%list_elem_of_fmap. by destruct (Hnew f Hf).
  - intros f [Hf|Hf]%elem_of_app.
    + destruct Hfs as [->| ->]; [by apply not_elem_of_nil in Hf|]. apply list_elem_of_singleton in Hf as ->.
      cbn. rewrite Hlk. unfold advance. rewrite Hid, N.eqb_refl, Hc. cbn. eauto.
    + assert (Hfl := inv_flight _ Hi f Hf). cbn in Hfl. destruct (windows _ !! f_window f) as [y|] eqn:Ey; [|done].
      assert (w_id y = f_window f) as Ey' by by apply (wf_tracked _ (inv_wf _ Hi) _ _ Ey).
      unfold advance. rewrite Ey'. destruct (N.eqb_spec (f_window f) window) as [E|]; [by destruct (Hnew f Hf)|done].
Qed.

(** Without one of its flights the invariant still holds, and the others fly
    elsewhere. *)
Lemma inv_without rt fs1 f fs2 :
  inv (rt, fs1 ++ f :: fs2) ->
  inv (rt, fs1 ++ fs2) /\ forall g, g ∈ fs1 ++ fs2 -> f_window g <> f_window f.
Proof.
  intros Hi. split.
  - destruct Hi as [Iwf Iid Ifl]. split; cbn in *; try done.
    + rewrite fmap_app in *. cbn in Iid. apply NoDup_app in Iid as (N1 & N2 & N3). apply NoDup_app.
      split; [done|]. split; [set_solver|]. by apply NoDup_cons in N3 as [_ ?].
    + intros g Hg. apply Ifl. set_solver.
  - intros g Hg E. assert (Hn := inv_ids _ Hi). cbn in Hn. rewrite fmap_app in Hn. cbn in Hn.
    apply NoDup_app in Hn as (_ & N2 & N3). apply NoDup_cons in N3 as [N3 _]. apply elem_of_app in Hg as [Hg|Hg].
    + apply (N2 (f_window f)); [rewrite <- E; by apply list_elem_of_fmap_2|by left].
    + apply N3. rewrite <- E. by apply list_elem_of_fmap_2.
Qed.

(** *** Failing *)

Lemma inv_fail rt rt' fs1 f fs2 :
  inv (rt, fs1 ++ f :: fs2) -> untouched rt rt' ->
  synthesis_windows rt' = synthesis_windows rt \/ synthesis_windows rt' = failed_windows (f_window f) (synthesis_windows rt) ->
  inv (rt', fs1 ++ fs2).
Proof.
  intros Hi Hu Hw.
  destruct (inv_without _ _ _ _ Hi) as [Hrest Hne].
  destruct Hw as [Hw|Hw]; [by eapply inv_same|].
  set (h := fun x => advance (f_window f) (is_status InProgress) Failed (advance (f_window f) claimable InProgress x)).
  assert (Hlk : forall i, windows (synthesis_windows rt') !! i = h <$> windows (synthesis_windows rt) !! i).
  { intros i. rewrite Hw. unfold failed_windows. rewrite (moves_lookup _ _ _ _ _ _ mark_failed_moves).
    - rewrite (moves_lookup _ _ _ _ _ _ mark_in_progress_moves) by apply Hi. by destruct (_ !! i).
    - apply (moves_wf _ _ _ _ _ mark_in_progress_moves), Hi. }
  assert (Hst : forall x, w_status (h x) = w_status x \/ w_status (h x) = Failed).
  { intros x. unfold h, advance. destruct (w_id x =? f_window f)%N eqn:E; cbn; [|rewrite E; by left].
    destruct (w_status x) eqn:Es; cbn; rewrite ?E, ?Es; cbn; auto. }
  eapply (inv_restatus rt rt' (fs1 ++ fs2) _ h); [done| | | | | |done|done|apply Hrest|].
  - intros x. unfold h. destruct (in_place_advance (f_window f) (is_status InProgress) Failed (advance (f_window f) claimable InProgress x)) as (-> & -> & -> & -> & ->).
    apply in_place_advance.
  - intros x. unfold h, advance. repeat (destruct (_ && _); cbn); done.
  - intros i x Hx. destruct (Hst x) as [-> | ->]; done.
  - intros i x Hx. destruct (Hst x) as [-> | ->]; done.
  - rewrite Hw. unfold failed_windows. rewrite (moves_by_scope mark_failed _ _ _ _ mark_failed_moves).
    apply (moves_by_scope mark_in_progress _ _ _ _ mark_in_progress_moves).
  - intros g Hg. assert (Hfl := inv_flight _ Hrest g Hg). cbn in Hfl. destruct (windows _ !! f_window g) as [y|] eqn:Ey; [|done].
    assert (w_id y = f_window g) as Ey' by by apply (wf_tracked _ (inv_wf _ Hi) _ _ Ey).
    assert (h y = y) as ->; [|done]. unfold h, advance.
    assert ((w_id y =? f_window f)%N = false) as En by (apply N.eqb_neq; rewrite Ey'; by apply Hne).
    rewrite En. cbn. by rewrite En.
Qed.

(** *** Landing *)

Lemma others_objects env scope tier o rt s sc i :
  sc <> scope ->
  synthesis_object_in (swap_in env scope tier (outcome env rt scope tier o) (with_store rt s)) sc i = synthesis_object_in rt sc i.
Proof. intros Hne. rewrite !object_in_default, swap_in_objects, decide_False by done. done. Qed.

(** What a landing leaves in the tables. *)
Record landing_tables rt rt' (scope w : uuid) (x : SynthesisWindow) (o : SynthesisObject) (ids : list uuid) : Prop := mk_landing {
  lt_windows : forall i, windows (synthesis_windows rt') !! i =
    if bool_decide (i ∈ ids) then None else if decide (i = w) then Some (with_status Complete x) else windows (synthesis_windows rt) !! i;
  lt_objects : forall s i, synthesis_object_in rt' s i =
    if decide (s = scope) then if bool_decide (i ∈ ids) then None else if decide (i = w) then Some o else synthesis_object_in rt s i
    else synthesis_object_in rt s i;
  lt_archives : forall s i, (s, i) <> (scope, w) -> archive (conn (store rt')) s i = archive (conn (store rt)) s i;
  lt_tombstones : tombstones rt' = tombstones rt;
  lt_ids : forall i y, i ∈ ids -> i <> w -> windows (synthesis_windows rt) !! i = Some y -> w_scope_id y = scope /\ w_status y = Complete
}.
Lemma completed_other w m x i :
  wf m -> windows m !! w = Some x -> claimable (w_status x) = true ->
  windows (completed_windows w m) !! i = if decide (i = w) then Some (with_status Complete x) else windows m !! i.
Proof.
  intros Hwf Hx Hcl. destruct (decide (i = w)) as [->|Hne]; [by apply completed_lookup|].
  unfold completed_windows. rewrite (moves_lookup _ _ _ _ _ _ mark_complete_moves), (moves_lookup _ _ _ _ _ _ mark_in_progress_moves);
    [|done|by apply (moves_wf _ _ _ _ _ mark_in_progress_moves)].
  destruct (windows m !! i) as [y|] eqn:Ey; [|done]. cbn. assert (w_id y = i) as Ei by by apply (wf_tracked m Hwf i y).
  unfold advance. destruct (N.eqb_spec (w_id y) w) as [|Hn]; [congruence|]. cbn. by destruct (N.eqb_spec (w_id y) w).
Qed.

Lemma landed_tables env scope tier handle res rt rt' w :
  wf (synthesis_windows rt) -> apply_dispatch_outcome env scope tier handle res rt = (rt', Ok w) ->
  exists o x ids, res = Ok o /\ o_window_id o = w /\ h_window_id handle = w /\
    windows (synthesis_windows rt) !! w = Some x /\ landing_tables rt rt' scope w x (landing rt scope o) ids.
Proof.
  intros Hwf H. apply apply_landed in H as (o & s & pa & -> & Ho & Hh & (x & Hx & Hcl) & _ & Hst & ->).
  exists o, x, (w_id <$> expired scope (completed_windows w (synthesis_windows rt))).
  do 4 (split; [done|]). assert (Hm := completed_wf w _ Hwf).
  assert (Hoth := fun i => completed_other w _ x i Hwf Hx Hcl). split.
  - intros i. unfold swap_in at 1. cbn [synthesis_windows with_outcome].
    rewrite (proj1 (outcome_eq env rt scope tier o)), Ho, (rm_windows _ _ _ _ (expired_removal scope _ Hm)). by rewrite Hoth.
  - intros sc i. destruct (decide (sc = scope)) as [->|Hne]; [by rewrite landed_object, Ho|by apply others_objects].
  - intros sc i Hne. cbn. by apply Hst.
  - done.
  - intros i y (z & -> & Hz)%list_elem_of_fmap Hne Hy. apply expired_complete, elem_of_complete_in in Hz as [Hz Hc].
    apply elem_of_windows_for in Hz as [Hz Hs]; [|done]. rewrite Hoth, decide_False in Hz by done. split; congruence.
Qed.

(** The versions and the archive of the window that landed. *)
Lemma landed_history env scope tier handle res rt rt' fs w o :
  inv (rt, fs) -> apply_dispatch_outcome env scope tier handle res rt = (rt', Ok w) -> res = Ok o -> o_window_id o = w ->
  version o = default_synthesis_object_version -> below_cap rt scope w ->
  (exists x, windows (synthesis_windows rt) !! w = Some x /\ w_scope_id x = scope) ->
  (1 <= version (landing rt scope o))%N /\
  history MAX_SYNTHESIS_VERSIONS_PER_WINDOW (version (landing rt scope o)) (versions_at (store rt') scope w).
Proof.
  intros Hi H -> Ho Hv Hcap (x & Hx & Hs). assert (Hve := versions_spec _ _ _ _ _ _ _ _ H).
  unfold landing. rewrite Ho. destruct (synthesis_object_in rt scope w) as [prior|] eqn:Ep.
  - destruct (inv_object _ Hi _ _ _ Ep) as (_ & _ & H1 & Hh & _). cbn in H1, Hh. specialize (Hcap _ Ep).
    destruct Hve as (Hh' & _); [lia|done|]. cbn [set_version version].
    assert (u32_saturating_add (version prior) 1 = version prior + 1)%N as -> by (unfold u32_saturating_add; lia). split; [lia|done].
  - rewrite Hv. split; [unfold default_synthesis_object_version; lia|]. unfold versions_at. rewrite Hve.
    rewrite <- Hs in Ep |- *. assert (Ha := inv_archive _ Hi w x Hx Ep). cbn in Ha. rewrite Ha. intros n. rewrite dom_empty_L.
    unfold default_synthesis_object_version. split; [set_solver|lia].
Qed.

(** A landing keeps the invariant. *)
Lemma landing_inv rt rt' fs scope w x t o ids :
  inv (rt, fs) -> (forall g, g ∈ fs -> f_window g <> w) -> landing_tables rt rt' scope w x o ids ->
  wf (synthesis_windows rt') ->
  windows (synthesis_windows rt) !! w = Some x -> w_scope_id x = scope -> w_tier x = Some t ->
  o_scope_id o = scope -> o_window_id o = w -> object_type o = expected_object (window_scope_tier_to_synthesis_tier t) ->
  (1 <= version o)%N -> history MAX_SYNTHESIS_VERSIONS_PER_WINDOW (version o) (versions_at (store rt') scope w) ->
  inv (rt', fs).
Proof.
  intros [Iwf Iid Ifl Iob Ico Iar Ifo Ili] Hne [Lw Lo La Lt Lg] Hwf Hx Hs Ht Hos How Hot Hv Hh. cbn in *.
  (* A window that stays and is not the one that landed is as it was. *)
  assert (Hold : forall i y, windows (synthesis_windows rt') !! i = Some y -> i <> w ->
            windows (synthesis_windows rt) !! i = Some y /\ i ∉ ids).
  { intros i y. rewrite Lw. case_bool_decide; [done|]. intros Hy Hn. by rewrite decide_False in Hy. }
  assert (Hkeep : forall i y, windows (synthesis_windows rt) !! i = Some y -> i <> w -> w_scope_id y <> scope -> windows (synthesis_windows rt') !! i = Some y).
  { intros i y Hy Hn Hsc. rewrite Lw, bool_decide_eq_false_2, decide_False; [done|done|]. intros Hi. by destruct (Lg i y Hi Hn Hy). }
  split; cbn [fst snd]; [done|done| | | | | |].
  - intros g Hg. rewrite Lt. specialize (Ifl g Hg). specialize (Hne g Hg). rewrite Lw, (decide_False (P := f_window g = w)) by done.
    destruct (windows (synthesis_windows rt) !! f_window g) as [y|] eqn:Ey; [|by case_bool_decide].
    case_bool_decide as Hi; [|done]. destruct (Lg _ y Hi Hne Ey) as [_ Hc]. destruct Ifl as [Hp _]. congruence.
  - intros s i o'. rewrite Lo. destruct (decide (s = scope)) as [->|Hsc].
    + case_bool_decide as Hi; [done|]. destruct (decide (i = w)) as [->|Hn].
      * intros [= <-]. repeat (split; [done|]). exists (with_status Complete x), t. rewrite Lw, bool_decide_eq_false_2, decide_True by done. done.
      * intros Ho. destruct (Iob _ _ _ Ho) as (H1 & H2 & H3 & H4 & y & t' & Hy & Hrest). repeat (split; [done|]).
        split; [unfold versions_at; by rewrite La by congruence|]. exists y, t'. by rewrite Lw, bool_decide_eq_false_2, decide_False.
    + intros Ho. destruct (Iob _ _ _ Ho) as (H1 & H2 & H3 & H4 & y & t' & Hy & Hsy & Hrest). repeat (split; [done|]).
      assert (i <> w) by congruence. split; [unfold versions_at; by rewrite La by congruence|]. exists y, t'. by rewrite (Hkeep i y) by congruence.
  - intros i y Hy Hc. destruct (decide (i = w)) as [->|Hn].
    + rewrite Lw in Hy. case_bool_decide; [done|]. rewrite decide_True in Hy by done. injection Hy as <-. cbn. rewrite Hs.
      rewrite Lo, decide_True, bool_decide_eq_false_2, decide_True by done. by eexists.
    + destruct (Hold i y Hy Hn) as [Hy' Hi]. rewrite Lo. specialize (Ico i y Hy' Hc).
      destruct (decide (w_scope_id y = scope)); [|done]. by rewrite bool_decide_eq_false_2, decide_False.
  - intros i y Hy. destruct (decide (i = w)) as [->|Hn].
    + rewrite Lw in Hy. case_bool_decide; [done|]. rewrite decide_True in Hy by done. injection Hy as <-. cbn. rewrite Hs.
      by rewrite Lo, decide_True, bool_decide_eq_false_2, decide_True by done.
    + destruct (Hold i y Hy Hn) as [Hy' Hi]. rewrite La by congruence. intros Ho. apply Iar; [done|]. rewrite Lo in Ho.
      destruct (decide (w_scope_id y = scope)); [|done]. by rewrite bool_decide_eq_false_2, decide_False in Ho.
  - intros i y Hy. rewrite Lt. destruct (decide (i = w)) as [->|Hn]; [|destruct (Hold i y Hy Hn) as [Hy' _]; by apply (Ifo i y)].
    rewrite Lw in Hy. case_bool_decide; [done|]. rewrite decide_True in Hy by done. injection Hy as <-. by apply (Ifo w x).
  - intros i y Hy. destruct (decide (i = w)) as [->|Hn]; [|destruct (Hold i y Hy Hn) as [Hy' _]; by apply (Ili i y)].
    rewrite Lw in Hy. case_bool_decide; [done|]. rewrite decide_True in Hy by done. by injection Hy as <-.
Qed.

Lemma inv_finish env res rt fs1 f fs2 rt' r :
  inv (rt, fs1 ++ f :: fs2) -> fresh_answer res -> below_cap rt (f_scope f) (f_window f) ->
  apply_dispatch_outcome env (f_scope f) (f_kind f) (f_handle f) res rt = (rt', r) -> inv (rt', fs1 ++ fs2).
Proof.
  intros Hi Hfr Hcap H. assert (Hwf : wf (synthesis_windows rt)) by apply Hi.
  destruct (inv_without _ _ _ _ Hi) as [Hw Hne].
  destruct r as [w|e]; [|destruct (outcome_refused _ _ _ _ _ _ _ _ H) as (Hu & Hst & _); by eapply inv_fail].
  destruct (apply_checked _ _ _ _ _ _ _ _ H) as (Ew & Hnf & o & Hres & Hos & How & Hot & _).
  destruct (landed_tables _ _ _ _ _ _ _ _ Hwf H) as (o' & x & ids & Hres' & _ & _ & Hx & Hlt).
  assert (o' = o) as -> by congruence. clear Hres'.
  assert (Hfl := inv_flight _ Hi f). cbn in Hfl. fold (f_window f) in Ew. rewrite <- Ew, Hx in Hfl.
  destruct Hfl as (Hp & Hsx & t & Ht & Hk); [set_solver|]. rewrite <- Ew in *.
  destruct (landed_history _ _ _ _ _ _ _ _ _ _ Hi H Hres How (Hfr o Hres) Hcap) as [Hv Hh]; [by exists x|].
  assert (Hland : o_scope_id (landing rt (f_scope f) o) = f_scope f /\ o_window_id (landing rt (f_scope f) o) = w /\
                  object_type (landing rt (f_scope f) o) = object_type o).
  { unfold landing. by destruct (synthesis_object_in rt (f_scope f) (o_window_id o)). }
  destruct Hland as (L1 & L2 & L3). eapply (landing_inv rt rt' _ (f_scope f) w x t); try done.
  - by eapply landed_wf.
  - by rewrite L3, Hot, Hk.
Qed.

(** *** Forgetting and configuring *)

Lemma removed_scope_lookup m scope i :
  wf m -> windows (remove_windows_for_scope scope m) !! i =
          windows m !! i ≫= (fun x => if (w_scope_id x =? scope)%N then None else Some x).
Proof.
  intros Hwf. destruct (windows m !! i) as [x|] eqn:Ex; cbn.
  - exact (run_call_window m (RemoveScope scope) i x Hwf I Ex).
  - rewrite (rm_windows _ _ _ _ (remove_scope_removal scope m Hwf)), Ex. by case_bool_decide.
Qed.

Lemma inv_forget keys scope rt fs rt' r :
  inv (rt, fs) -> (forall s, s <> scope -> keys s = scope_key (store rt) s) -> forget_scope_state keys scope rt = (rt', r) ->
  inv (rt', fs).
Proof.
  intros Hi Hk H. destruct (forget_spec _ _ _ _ _ Hk H) as [->|(_ & Ft & Fw & Fo & _ & _ & _ & _ & Fa & _ & _)]; [done|].
  destruct Hi as [Iwf Iid Ifl Iob Ico Iar Ifo Ili]. cbn in *.
  assert (Hlk := fun i => removed_scope_lookup _ scope i Iwf).
  assert (Hsome : forall i x, windows (synthesis_windows rt') !! i = Some x -> windows (synthesis_windows rt) !! i = Some x /\ w_scope_id x <> scope).
  { intros i x. rewrite Fw, Hlk. destruct (windows (synthesis_windows rt) !! i) as [y|]; [|done]. cbn.
    destruct (N.eqb_spec (w_scope_id y) scope); [done|]. by intros [= <-]. }
  assert (Hobj : forall s i, synthesis_object_in rt' s i = if decide (s = scope) then None else synthesis_object_in rt s i).
  { intros s i. unfold synthesis_object_in. rewrite Fo. destruct (decide (s = scope)) as [->|]; [by rewrite lookup_delete_eq|by rewrite lookup_delete_ne]. }
  split; cbn [fst snd]; [|done| | | | | |].
  - rewrite Fw. exact (run_call_keeps_wf _ (RemoveScope scope) I Iwf).
  - intros f Hf. specialize (Ifl f Hf). rewrite Fw, Hlk, Ft. destruct (windows (synthesis_windows rt) !! f_window f) as [x|]; cbn; [|set_solver].
    destruct (N.eqb_spec (w_scope_id x) scope) as [E|]; [|done]. destruct Ifl as (_ & <- & _). set_solver.
  - intros s i o. rewrite Hobj. destruct (decide (s = scope)); [done|]. intros Ho.
    destruct (Iob _ _ _ Ho) as (H1 & H2 & H3 & H4 & x & t & Hx & Hs & Hrest). repeat (split; [done|]).
    split; [unfold versions_at; by rewrite Fa|]. exists x, t. rewrite Fw, Hlk, Hx. cbn. by destruct (N.eqb_spec (w_scope_id x) scope); [congruence|].
  - intros i x [Hx Hs]%Hsome Hc. rewrite Hobj, decide_False by done. by apply Ico.
  - intros i x [Hx Hs]%Hsome. rewrite Hobj, decide_False by done. intros Ho. rewrite Fa by done. by apply Iar.
  - intros i x [Hx Hs]%Hsome. rewrite Ft. specialize (Ifo i x Hx). set_solver.
  - intros i x [Hx Hs]%Hsome. by apply (Ili i x).
Qed.

Lemma inv_step st st' : step st st' -> inv st -> inv st'.
Proof.
  destruct 1 as [env scope kind rt fs rt' r Hun H|env scope window rt fs rt' r H|env res rt fs1 f fs2 rt' r Hf Hb H
                |keys scope rt fs rt' r Hk H|engine bindings cap refill rt fs rt' r H]; intros Hi.
  - destruct (dispatch_plan_spec _ _ _ _ _ _ H) as (Hu & _ & [[Hw ->]|(Hnf & Hw & Hfl)]); [by eapply inv_same|].
    by eapply inv_opening.
  - destruct (replay_plan_spec _ _ _ _ _ _ H) as (Hu & _ & [[Hw ->]|(x & t & _ & Hx & Hc & Ht & Hw & Hfl)]); [by eapply inv_same|].
    by eapply inv_reopen.
  - by eapply inv_finish.
  - by eapply inv_forget.
  - unfold configure_synthesis_engine in H. destruct (resolve_rate_limiter_config cap refill) as [[c f]|]; injection H as <- _; [|done].
    destruct Hi as [Iwf Iid Ifl Iob Ico Iar Ifo Ili]. by split.
Qed.

(** A landing on a window that can be claimed is never refused by the life cycle. *)
Lemma land_claimable env scope tier handle o rt rt' e x :
  o_window_id o = h_window_id handle -> windows (synthesis_windows rt) !! h_window_id handle = Some x ->
  claimable (w_status x) = true -> land env scope tier handle o rt = (rt', Err e) ->
  (exists msg, e = Memory msg) \/ (exists err, e = Evidence err).
Proof.
  intros Ho Hx Hcl. unfold land, try_eff at 1. destruct (plan_archive scope (o_window_id o) rt) as [rt0 r0] eqn:E0.
  destruct (plan_archive_spec _ _ _ _ _ E0) as (s0 & -> & _).
  destruct r0 as [pa|e0].
  2:{ intros [= _ <-]. revert E0. unfold plan_archive, try_eff, ServerSynthesis.get, lift.
      destruct (synthesis_object_in rt scope (o_window_id o)) as [p|]; [|done]. destruct (to_vec p); cbn [ok_or]; [|intros [= _ <-]; eauto].
      rewrite on_store_eq. destruct ((list_synthesis_object_versions scope (o_window_id o) (store rt)).2); [done|]. intros [= _ <-]. eauto. }
  unfold try_eff at 1, ServerSynthesis.get at 1, try_eff at 1, lift at 1. cbn [synthesis_windows with_store].
  rewrite (mark_in_progress_moves (synthesis_windows rt) (h_window_id handle)), Hx, Hcl.
  unfold try_eff at 1, lift at 1. rewrite mark_complete_moves. cbn [put windows]. rewrite lookup_insert_eq.
  change (is_status InProgress (w_status (with_status InProgress x))) with true. cbn iota.
  destruct (prune_completed_windows_on _ _ _ _) as [[ws objs] gone]. unfold try_eff, lift.
  destruct (to_vec (hash_order (map_to_list _)).*2); cbn [ok_or]; [|intros [= _ <-]; eauto].
  destruct (memory_json _); cbn [ok_or]; [|intros [= _ <-]; eauto].
  destruct (to_vec ws); cbn [ok_or]; [|intros [= _ <-]; eauto].
  rewrite on_store_eq. destruct (apply_transaction _ _ _ _ _ _ _ _) as [s1 [u|err]]; cbn [fst snd]; [done|].
  intros [Hf _]%fail_with_spec. injection Hf as ->. eauto.
Qed.

(** ** Properties *)

Lemma inv_rtc st st' : rtc step st st' -> inv st -> inv st'.
Proof. apply (rtc_preserves step inv). intros x y. apply inv_step. Qed.

(** A runtime without windows and objects satisfies the invariant. *)
Lemma inv_start rt : synthesis_windows rt = empty_manager -> synthesis_objects rt = ∅ -> inv (rt, []).
Proof.
  intros Hw Ho. assert (Hn : forall i, windows (synthesis_windows rt) !! i = None) by (intros; rewrite Hw; apply lookup_empty).
  split; cbn.
  - rewrite Hw. apply empty_wf.
  - constructor.
  - intros f Hf. by apply not_elem_of_nil in Hf.
  - intros s i o. unfold synthesis_object_in. by rewrite Ho, lookup_empty.
  - intros i x. by rewrite Hn.
  - intros i x. by rewrite Hn.
  - intros i x. by rewrite Hn.
  - intros i x. by rewrite Hn.
Qed.

(** C28: However dispatches, replays, their completions and the forgetting of scopes
    interleave, no two runs are ever under way on one window, and each finds its
    window as it left it when it comes back: it fails only because the engine failed,
    its object does not pass the checks, or the store or a codec failed.  A run whose
    scope was forgotten meanwhile changes nothing at all. *)
Theorem runs_exclusive st0 rt fs :
  inv st0 -> rtc step st0 (rt, fs) ->
  NoDup (f_window <$> fs) /\
  forall f, f ∈ fs ->
    (f_scope f ∉ tombstones rt ->
       (exists x, SynthesisWindow.get (f_window f) (synthesis_windows rt) = Some x /\ w_status x = Pending /\ w_scope_id x = f_scope f) /\
       forall env res rt' e, apply_dispatch_outcome env (f_scope f) (f_kind f) (f_handle f) res rt = (rt', Err e) ->
         (exists msg, res = Err msg /\ e = Synthesis (EngineFailed msg)) \/
         (exists o why, res = Ok o /\ check_object (f_scope f) (f_window f) (f_kind f) o = Some why /\ e = Synthesis why) \/
         (exists msg, e = Memory msg) \/ (exists err, e = Evidence err)) /\
    (f_scope f ∈ tombstones rt ->
       forall env res, apply_dispatch_outcome env (f_scope f) (f_kind f) (f_handle f) res rt = (rt, Err (Unavailable "scope_forgotten"))).
Proof.
  intros H0 Hr. assert (Hi := inv_rtc _ _ Hr H0). split; [apply Hi|]. intros f Hf. split.
  - intros Hn. assert (Hfl := inv_flight _ Hi f Hf). cbn in Hfl. unfold SynthesisWindow.get.
    destruct (windows (synthesis_windows rt) !! f_window f) as [x|] eqn:Ex; [|done]. destruct Hfl as (Hp & Hs & _).
    split; [by exists x|]. intros env res rt' e. unfold apply_dispatch_outcome, try_eff, ServerSynthesis.get, ensure, lift, is_scope_forgotten.
    rewrite bool_decide_eq_false_2 by done. cbn [negb]. unfold SynthesisWindow.get. fold (f_window f). rewrite Ex. cbn [ok_or].
    destruct res as [o|msg].
    + destruct (check_object (f_scope f) (f_window f) (f_kind f) o) as [why|] eqn:Ec.
      * intros [He _]%fail_with_spec. injection He as ->. right; left. by exists o, why.
      * intros Hl. right; right. destruct (check_object_window _ _ _ _ Ec) as (_ & Hwd & _).
        apply (land_claimable _ _ _ _ _ _ _ _ x) in Hl; [done|done|done|by rewrite Hp].
    + intros [He _]%fail_with_spec. injection He as ->. left. by exists msg.
  - intros Ht env res. unfold apply_dispatch_outcome, try_eff, ServerSynthesis.get, ensure, is_scope_forgotten.
    by rewrite bool_decide_eq_true_2.
Qed.


(** ** Gathering *)

Lemma max_by_key_in {A} (key : A -> Z) l x : max_by_key key l = Some x -> x ∈ l.
Proof.
  unfold max_by_key. assert (H : forall b, foldl (fun best y => match best with Some b => if (key y <? key b)%Z then best else Some y | None => Some y end) b l = Some x ->
    x ∈ l \/ b = Some x).
  { induction l as [|y l IH]; intros b; cbn; [by right|]. intros [Hx|Hb]%IH; [left; by right|].
    destruct b as [b|]; [|injection Hb as ->; left; by left]. destruct (key y <? key b)%Z; [by right|injection Hb as ->; left; by left]. }
  intros [Hx|?]%H; done.
Qed.
Lemma newest_object_in rt scope kind o :
  newest_object_for_scope_of_type rt scope kind = Some o ->
  object_type o = kind /\ exists i, synthesis_object_in rt scope i = Some o.
Proof.
  unfold newest_object_for_scope_of_type, synthesis_objects_for_scope, synthesis_object_in.
  destruct (synthesis_objects rt !! scope) as [inner|]; [|done]. intros H%max_by_key_in.
  rewrite list_elem_of_In, List.filter_In, <- list_elem_of_In in H. destruct H as [H Ht%bool_decide_eq_true]. split; [done|].
  apply list_elem_of_fmap in H as ([i o'] & -> & H). rewrite elem_of_hash_order in H. exists i. by apply elem_of_map_to_list.
Qed.

(** Where a gathered output comes from. *)
Lemma gather_channel_from env rt fs n c o :
  inv (rt, fs) -> o ∈ gather_channel env rt n c ->
  channel_scope o = c /\ object_type (co_object o) = ChannelRecap /\
  ((exists i, synthesis_object_in rt c i = Some (co_object o)) \/
   exists cmo, channel_memories rt !! c = Some cmo /\ payload (co_object o) = string_bytes (ChannelMemory.recap cmo)).
Proof.
  intros Hi. unfold gather_channel. destruct (newest_object_for_scope_of_type rt c ChannelRecap) as [ob|] eqn:En.
  - destruct (newest_object_in _ _ _ _ En) as (Ht & i & Ho). unfold from_channel_object. rewrite Ht. cbn.
    intros ->%list_elem_of_singleton. cbn. destruct (inv_object _ Hi _ _ _ Ho) as (Hs & _). eauto 6.
  - destruct (channel_memories rt !! c) as [cmo|] eqn:Ec; [|by intros H%not_elem_of_nil].
    case_bool_decide; [by intros H'%not_elem_of_nil|]. cbn. intros ->%list_elem_of_singleton. cbn. eauto 6.
Qed.
Lemma gather_domain_from env rt fs n d o :
  inv (rt, fs) -> o ∈ gather_domain env rt n d ->
  domain_scope o = d /\ object_type (do_object o) = DomainSummary /\
  ((exists i, synthesis_object_in rt d i = Some (do_object o)) \/
   exists dmo, domain_memories rt !! d = Some dmo /\ payload (do_object o) = string_bytes (DomainMemory.recap dmo)).
Proof.
  intros Hi. unfold gather_domain. destruct (newest_object_for_scope_of_type rt d DomainSummary) as [ob|] eqn:En.
  - destruct (newest_object_in _ _ _ _ En) as (Ht & i & Ho). unfold from_domain_object. rewrite Ht. cbn.
    intros ->%list_elem_of_singleton. cbn. destruct (inv_object _ Hi _ _ _ Ho) as (Hs & _). eauto 6.
  - destruct (domain_memories rt !! d) as [dmo|] eqn:Ec; [|by intros H%not_elem_of_nil].
    case_bool_decide; [by intros H'%not_elem_of_nil|]. cbn. intros ->%list_elem_of_singleton. cbn. eauto 6.
Qed.

Lemma elem_of_concat_imap {A B} (f : nat -> A -> list B) (l : list A) y :
  y ∈ concat (imap f l) -> exists n x, x ∈ l /\ y ∈ f n x.
Proof.
  rewrite list_elem_of_In, in_concat. intros (k & Hk & Hy). rewrite <- list_elem_of_In in Hk. rewrite <- list_elem_of_In in Hy.
  apply list_elem_of_lookup_1 in Hk as [n Hn]. rewrite list_lookup_imap in Hn.
  destruct (l !! n) as [x|] eqn:Ex; [|done]. injection Hn as <-. exists n, x. split; [by eapply list_elem_of_lookup_2|done].
Qed.
Lemma check_channels_ok (d : DomainMemoryObject (Json := Json)) outs :
  (forall o, o ∈ outs -> channel_scope o ∈ channel_scopes d) -> check_channels d outs = Ok tt.
Proof.
  induction outs as [|o outs IH]; intros H; [done|]. cbn. rewrite bool_decide_eq_true_2 by (apply H; by left).
  apply IH. intros o' Ho'. apply H. by right.
Qed.
Lemma check_domains_ok (t : TenantMemoryObject (Json := Json)) outs :
  (forall o, o ∈ outs -> domain_scope o ∈ domain_scopes t) -> check_domains t outs = Ok tt.
Proof.
  induction outs as [|o outs IH]; intros H; [done|]. cbn. rewrite bool_decide_eq_true_2 by (apply H; by left).
  apply IH. intros o' Ho'. apply H. by right.
Qed.
Lemma check_documents_ok (t : TenantMemoryObject (Json := Json)) docs :
  (forall d, d ∈ docs -> reference d ∈ approved_documents t) -> check_documents t docs = Ok tt.
Proof.
  induction docs as [|d docs IH]; intros H; [done|]. cbn.
  assert (existsb (fun a => (doc_id a =? doc_id (reference d))%N) (approved_documents t) = true) as ->.
  { apply List.existsb_exists. exists (reference d). split; [apply list_elem_of_In, H; by left|by apply N.eqb_eq]. }
  apply IH. intros d' Hd'. apply H. by right.
Qed.
(** The documents attached: those of the references the store has bytes for. *)
Lemma materialise_spec env scope refs :
  match materialise_approved_documents env scope refs with
  | Ok docs => sublist (reference <$> docs) refs /\ forall d, d ∈ docs -> document env scope (doc_id (reference d)) = Ok (Some (document_payload d))
  | Err e => exists r err, r ∈ refs /\ document env scope (doc_id r) = Err err /\ e = Evidence err
  end.
Proof.
  induction refs as [|r refs IH]; cbn; [split; [constructor|by intros d ?%not_elem_of_nil]|].
  destruct (document env scope (doc_id r)) as [[bytes|]|err] eqn:Ed; [| |by exists r, err; split; [by left|]].
  - destruct (materialise_approved_documents env scope refs) as [docs|e]; cbn.
    + destruct IH as [Hs Hd]. split; [by constructor|]. intros d [->|Hin]%elem_of_cons; [done|by apply Hd].
    + destruct IH as (r' & err & Hr' & H'). exists r', err. split; [by right|done].
  - destruct (materialise_approved_documents env scope refs) as [docs|e]; cbn.
    + destruct IH as [Hs Hd]. split; [by constructor|done].
    + destruct IH as (r' & err & Hr' & H'). exists r', err. split; [by right|done].
Qed.

(** What is sent to the engine: in every reachable state the runtime gathers an input
    that the hierarchy admits.  A domain run gets recaps of channels registered on the
    domain only, each the channel's synthesis object or its current recap; a tenant
    run gets summaries of registered domains and at most sixteen approved documents,
    each with the bytes stored for it, and is refused only if a document cannot be
    read. *)
Theorem gathered_admitted st0 rt fs env scope :
  inv st0 -> rtc step st0 (rt, fs) ->
  (forall d, domain_memories rt !! scope = Some d -> exists input,
     domain_input env scope rt = (rt, Ok input) /\ di_domain_scope input = dm_scope_id d /\
     forall o, o ∈ channel_outputs input ->
       channel_scope o ∈ channel_scopes d /\ object_type (co_object o) = ChannelRecap /\
       ((exists i, synthesis_object_in rt (channel_scope o) i = Some (co_object o)) \/
        exists cmo, channel_memories rt !! channel_scope o = Some cmo /\ payload (co_object o) = string_bytes (ChannelMemory.recap cmo))) /\
  (forall t, tenant_memories rt !! scope = Some t ->
     (exists r err, r ∈ approved_documents t /\ document env scope (doc_id r) = Err err /\ tenant_input env scope rt = (rt, Err (Evidence err))) \/
     exists input, tenant_input env scope rt = (rt, Ok input) /\ ti_tenant_scope input = tm_scope_id t /\
       (forall o, o ∈ domain_outputs input ->
          domain_scope o ∈ domain_scopes t /\ object_type (do_object o) = DomainSummary /\
          ((exists i, synthesis_object_in rt (domain_scope o) i = Some (do_object o)) \/
           exists dmo, domain_memories rt !! domain_scope o = Some dmo /\ payload (do_object o) = string_bytes (DomainMemory.recap dmo))) /\
       (length (ti_approved_documents input) <= MAX_APPROVED_DOCUMENTS_PER_DISPATCH)%nat /\
       forall d, d ∈ ti_approved_documents input ->
         reference d ∈ approved_documents t /\ document env scope (doc_id (reference d)) = Ok (Some (document_payload d))).
Proof.
  intros H0 Hr. assert (Hi := inv_rtc _ _ Hr H0). split.
  - intros d Hd. unfold domain_input. rewrite Hd. unfold new_domain_input.
    assert (Hout : forall o, o ∈ gather_channel_outputs env rt d -> exists n c, c ∈ channel_scopes d /\ o ∈ gather_channel env rt n c).
    { intros o (n & c & Hc & Ho)%elem_of_concat_imap. by exists (10 + n)%nat, c. }
    rewrite check_channels_ok by (intros o (n & c & Hc & Ho)%Hout; by destruct (gather_channel_from _ _ _ _ _ _ Hi Ho) as (-> & _)).
    cbn. eexists. split; [done|]. split; [done|]. cbn. intros o (n & c & Hc & Ho)%Hout.
    by destruct (gather_channel_from _ _ _ _ _ _ Hi Ho) as (-> & ? & ?).
  - intros t Ht. unfold tenant_input. rewrite Ht. assert (Hm := materialise_spec env scope (sent_refs t)).
    assert (Hsub : forall r, r ∈ sent_refs t -> r ∈ approved_documents t).
    { intros r Hin. apply (elem_of_newest_first approved_at). by eapply subseteq_take. }
    destruct (materialise_approved_documents env scope (sent_refs t)) as [docs|e]; cbn.
    2:{ left. destruct Hm as (r & err & Hin & Hd & ->). exists r, err. auto. }
    right. destruct Hm as [Hs Hd].
    assert (Hrefs : forall d, d ∈ docs -> reference d ∈ approved_documents t).
    { intros d Hin. apply Hsub. eapply elem_of_submseteq; [by apply list_elem_of_fmap_2|by apply sublist_submseteq]. }
    assert (Hout : forall o, o ∈ gather_domain_outputs env rt t -> exists n c, c ∈ domain_scopes t /\ o ∈ gather_domain env rt n c).
    { intros o (n & c & Hc & Ho)%elem_of_concat_imap. by exists (10 + n)%nat, c. }
    unfold new_tenant_input.
    rewrite check_domains_ok by (intros o (n & c & Hc & Ho)%Hout; by destruct (gather_domain_from _ _ _ _ _ _ Hi Ho) as (-> & _)).
    cbn. rewrite check_documents_ok by done. cbn. eexists. split; [done|]. split; [done|]. cbn. split; [|split].
    + intros o (n & c & Hc & Ho)%Hout. by destruct (gather_domain_from _ _ _ _ _ _ Hi Ho) as (-> & ? & ?).
    + apply sublist_length in Hs. rewrite length_fmap in Hs. unfold sent_refs in Hs. rewrite length_take in Hs. lia.
    + intros d Hin. split; [by apply Hrefs|by apply Hd].
Qed.

(** A replay that fails after it reopened its window leaves the window pending, with
    no run under way on it; every later replay of the window is then refused. *)
Theorem failed_replay_strands env scope window rt rt' e :
  wf (synthesis_windows rt) -> build_replay_plan env scope window rt = (rt', Err e) ->
  synthesis_windows rt' = synthesis_windows rt \/
  (exists x, SynthesisWindow.get window (synthesis_windows rt) = Some x /\ w_status x = Complete /\
             SynthesisWindow.get window (synthesis_windows rt') = Some (with_status Pending x)) /\
  forall env', exists e', build_replay_plan env' scope window rt' = (rt', Err e').
Proof.
  intros Hwf H. destruct (replay_plan_spec _ _ _ _ _ _ H) as (_ & _ & [[Hw _]|(x & t & _ & Hx & Hc & _ & Hw & _)]); [by left|right].
  destruct (find_window_spec _ _ _ _ Hx) as [[Hlk Hsc]%elem_of_windows_for Hid]; [|done]. rewrite Hid in Hlk.
  assert (Hnew : windows (synthesis_windows rt') !! window = Some (with_status Pending x)).
  { rewrite Hw. cbn [run_call]. rewrite (moves_lookup _ _ _ _ _ _ mark_replay_pending_moves), Hlk by done. cbn.
    unfold advance. by rewrite Hid, N.eqb_refl, Hc. }
  split; [by exists x|]. intros env'. destruct (build_replay_plan env' scope window rt') as [rt2 r2] eqn:E.
  assert (Hno : forall y, find_window rt' scope window = Some y -> w_status y = Pending).
  { intros y [Hy Hidy]%find_window_spec. apply elem_of_windows_for in Hy as [Hy _].
    - rewrite Hidy, Hnew in Hy. by injection Hy as <-.
    - rewrite Hw. by apply (moves_wf _ _ _ _ _ mark_replay_pending_moves). }
  revert E. unfold build_replay_plan, try_eff, ServerSynthesis.get, ensure, lift, require_engine, throw.
  destruct (negb _); [|intros [= <- <-]; eauto]. unfold enforce_scope_binding.
  destruct (synthesis_scope_bindings rt') as [bs|]; [destruct (existsb _ bs); [|intros [= <- <-]; eauto]|];
    (destruct (synthesis_engine rt') as [en|]; cbn [ok_or]; [|intros [= <- <-]; eauto]);
    (destruct (find_window rt' scope window) as [y|]; cbn [ok_or]; [|intros [= <- <-]; eauto]);
    rewrite (Hno y eq_refl), bool_decide_eq_false_2 by done; intros [= <- <-]; eauto.
Qed.
End Runs.

(** ** Witnesses *)

Module Demo.
Import ServerSynthesis.Concrete.
Definition flight : Flight := mk_flight 1 KindDomain handle.
Lemma start_inv : inv (start, []).
Proof. by apply inv_start. Qed.
(** The engine of the first dispatch is at work; its run has landed. *)
Lemma reach_planned : rtc step (start, []) (planned, [flight]).
Proof.
  assert (E : dispatch_flight 1 (build_dispatch_plan (at_time 100 7) 1 KindDomain start).2 ++ [] = [flight]) by (vm_compute; reflexivity).
  apply rtc_once. rewrite <- E. apply step_dispatch with (env := at_time 100 7) (kind := KindDomain).
  - split; [|split]; [vm_compute; reflexivity|apply not_elem_of_nil|]. intros s. unfold archive. cbn. by rewrite lookup_empty.
  - apply surjective_pairing.
Qed.
Lemma reach_landed : rtc step (start, []) (landed, []).
Proof.
  eapply rtc_r; [apply reach_planned|].
  apply (step_finish (at_time 160 7) (Ok (answer "All is well.")) planned [] flight [] landed (Ok 7%N)).
  - intros o Ho. assert (o = answer "All is well.") as -> by congruence. reflexivity.
  - intros o. assert (E : synthesis_object_in planned 1 7 = None) by (vm_compute; reflexivity). cbn [flight f_scope f_window f_handle handle h_window_id].
    by rewrite E.
  - apply SynthesisApply.Demo.landing_lands.
Qed.
Lemma runs_exclusive_witness :
  exists x, SynthesisWindow.get 7 (synthesis_windows planned) = Some x /\ w_status x = Pending.
Proof.
  destruct (runs_exclusive _ _ _ start_inv reach_planned) as [_ H].
  destruct (H flight) as [Hlive _]; [by left|]. destruct Hlive as [(x & Hx & Hp & _) _]; [by apply not_elem_of_empty|].
  exists x. split; [exact Hx|exact Hp].
Defined.
Lemma gathered_admitted_witness :
  exists input, domain_input (at_time 200 40) 1 landed = (landed, Ok input) /\ forall o, o ∈ channel_outputs input -> object_type (co_object o) = ChannelRecap.
Proof.
  assert (Hd : is_Some (domain_memories landed !! 1%N)) by (vm_compute; by eexists).
  destruct (domain_memories landed !! 1%N) as [d|] eqn:Ed; [|by destruct Hd].
  destruct (proj1 (gathered_admitted _ _ _ (at_time 200 40) 1 start_inv reach_landed) d Ed) as (input & Hi & _ & Ho).
  exists input. split; [exact Hi|]. intros o Hin. apply (Ho o Hin).
Defined.

(** A replay of the landed window whose domain memory is gone: refused, and the
    window stays pending. *)
Definition bereft : demo_runtime := with_outcome landed (synthesis_windows landed) (synthesis_objects landed) ∅ ∅ ∅.
Lemma failed_replay_strands_witness :
  let rt' := (build_replay_plan (at_time 500 7) 1 7 bereft).1 in
  (build_replay_plan (at_time 500 7) 1 7 bereft).2 = Err (NotFound "domain_memory" 1) /\
  forall env', exists e', build_replay_plan env' 1 7 rt' = (rt', Err e').
Proof.
  assert (E : (build_replay_plan (at_time 500 7) 1 7 bereft).2 = Err (NotFound "domain_memory" 1)) by (vm_compute; reflexivity).
  intros rt'. split; [exact E|].
  assert (Hwf : wf (synthesis_windows bereft)) by exact (inv_wf _ (inv_rtc _ _ reach_landed start_inv)).
  destruct (failed_replay_strands (at_time 500 7) 1 7 bereft rt' (NotFound "domain_memory" 1) Hwf) as [Hsame|[_ H]]; [|exfalso|exact H].
  - subst rt'. rewrite <- E. apply surjective_pairing.
  - assert (Hc : fmap w_status (SynthesisWindow.get 7 (synthesis_windows rt')) = Some Pending) by (vm_compute; reflexivity).
    rewrite Hsame in Hc. vm_compute in Hc. discriminate Hc.
Defined.
End Demo.
