(* ===== verification/SynthesisRecovery.v ===== *)
(** * Opening a store after a crash ([ffi/src/runtime.rs], [open_store_inner])

    What the rows of a store say about windows and objects at any moment of the steps
    of [SynthesisRuns], and what opening the store anew makes of them: the runs that
    were under way are gone, and nothing that had been applied is lost, if no statement
    of the opening fails; what one failing read costs is shown too. *)

From S2P Require Import Prelude Http ChannelMemory DomainMemory TenantMemory SynthesisWindow.
From S2P Require Import SynthesisHierarchy SynthesisStore SynthesisRate ServerSynthesis SynthesisApply SynthesisRuns.

Section Recovery.
Context {Json Engine Key Nonce Bytes : Type}.
Context {AE : Aead Key Nonce Bytes} {IN : Inhabited Nonce} {HO : HashOrder}.
Context {SW : Serde Bytes SynthesisWindowManager} {SO : Serde Bytes SynthesisObject} {SL : Serde Bytes (list SynthesisObject)}.
Context {SD : Serde Bytes (DomainMemoryObject (Json := Json))} {ST : Serde Bytes (TenantMemoryObject (Json := Json))}.
Context {SC : Serde Bytes (ChannelMemoryObject (Json := Json))}.
#[local] Abbreviation runtime := (FfiRuntime (Json := Json) (Engine := Engine) (Key := Key) (Nonce := Nonce) (Bytes := Bytes)).
#[local] Abbreviation evidence := (EvidenceStore (Key := Key) (Nonce := Nonce) (Bytes := Bytes)).
Implicit Types (rt : runtime) (s : evidence).

(** ** Reading rows *)

(** A row decoded; a row that is absent, sealed under a lost key or undecodable gives
    nothing. *)
Definition decoded_at {A} `{Serde Bytes A} s (scope : uuid) (kind : string) : option A :=
  blob_at s scope kind ≫= from_slice.
(** A store none of whose statements fails. *)
Definition quiet_store s : Prop := tape s = [].
Lemma statement_quiet {A} (answer : Database -> A) change s :
  quiet_store s -> statement answer change s = (with_conn s (change quiet (conn s)), Ok (answer (conn s))).
Proof. unfold quiet_store, statement, next, advance_tape, with_conn. destruct s as [c k t]. by intros ->. Qed.
Lemma with_conn_same s : with_conn s (conn s) = s.
Proof. by destruct s. Qed.
Lemma load_decoded_quiet {A} `{Serde Bytes A} scope kind s :
  quiet_store s -> load_decoded (A := A) scope kind s = (s, decoded_at s scope kind).
Proof.
  intros Hq. unfold load_decoded, load_memory_blob, try_eff. rewrite statement_quiet by done. rewrite with_conn_same.
  unfold decoded_at, blob_at, plain. destruct (memory_objects (conn s) !! (scope, kind)) as [row|]; [|done].
  by destruct (opened s scope (memory_aad kind scope) row) as [[p|]|].
Qed.

(** The rehydration loop, over whatever list of scopes. *)
Lemma rehydrate_each_quiet {A B} `{Serde Bytes A} kind forgotten (keep : uuid -> A -> B) scopes out s :
  quiet_store s -> exists out', rehydrate_each kind forgotten keep scopes out s = (s, out') /\
    forall x, out' !! x = if bool_decide (x ∈ scopes /\ x ∉ forgotten)
                          then match decoded_at s x kind with Some a => Some (keep x a) | None => out !! x end else out !! x.
Proof.
  intros Hq. revert out. induction scopes as [|y scopes IH]; intros out; cbn [rehydrate_each].
  - exists out. split; [done|]. intros x. by rewrite bool_decide_eq_false_2 by (by intros [?%not_elem_of_nil _]).
  - case_bool_decide as Hy.
    + destruct (IH out) as (out' & -> & Hout). exists out'. split; [done|]. intros x. rewrite Hout.
      do 2 case_bool_decide; try done; set_solver.
    + rewrite load_decoded_quiet by done. destruct (IH (match decoded_at s y kind with Some a => <[y := keep y a]> out | None => out end)) as (out' & -> & Hout).
      exists out'. split; [done|]. intros x. rewrite Hout. destruct (decide (x = y)) as [->|Hne].
      * rewrite (bool_decide_eq_true_2 (y ∈ y :: scopes /\ y ∉ forgotten)) by set_solver.
        case_bool_decide; destruct (decoded_at s y kind); rewrite ?lookup_insert_eq; done.
      * assert (E : match decoded_at s y kind with Some a => <[y := keep y a]> out | None => out end !! x = out !! x)
          by (destruct (decoded_at s y kind); by rewrite ?lookup_insert_ne by done).
        rewrite E. do 2 case_bool_decide; try done; set_solver.
Qed.
Lemma rehydrate_quiet {A B} `{Serde Bytes A} kind forgotten (keep : uuid -> A -> B) s :
  quiet_store s -> exists out, rehydrate kind forgotten keep s = (s, Ok out) /\
    forall x, out !! x = if bool_decide (x ∈ forgotten) then None else keep x <$> decoded_at s x kind.
Proof.
  intros Hq. unfold rehydrate, try_eff, list_memory_scopes. rewrite statement_quiet by done. rewrite with_conn_same.
  set (scopes := omap _ _). destruct (rehydrate_each_quiet kind forgotten keep scopes ∅ s Hq) as (out & -> & Hout).
  exists out. split; [done|]. intros x. rewrite Hout, lookup_empty.
  assert (Hin : is_Some (decoded_at (A := A) s x kind) -> x ∈ scopes).
  { intros [a Ha]. unfold decoded_at, blob_at, plain in Ha. subst scopes. apply list_elem_of_omap.
    destruct (memory_objects (conn s) !! (x, kind)) as [row|] eqn:E; [|done].
    exists (x, kind). cbn. rewrite bool_decide_eq_true_2 by done. split; [|done].
    apply list_elem_of_fmap. exists ((x, kind), row). split; [done|]. by apply elem_of_map_to_list. }
  destruct (decoded_at (A := A) s x kind) as [a|] eqn:E; do 2 case_bool_decide; try done; try tauto.
  specialize (Hin ltac:(by eexists)). tauto.
Qed.

(** Saving as well as may be. *)
Lemma try_save_quiet {A} `{Serde Bytes A} scope kind (a : A) s :
  quiet_store s -> let s' := try_save scope kind a s in
  quiet_store s' /\ scope_key s' = scope_key s /\ object_versions (conn s') = object_versions (conn s) /\
  (forall sc k, (sc, k) <> (scope, kind) -> blob_at s' sc k = blob_at s sc k) /\
  (blob_at s' scope kind = blob_at s scope kind \/ exists json, to_vec a = Some json /\ blob_at s' scope kind = Some json).
Proof.
  intros Hq. unfold try_save. destruct (to_vec a) as [json|] eqn:Ej; [|cbn; auto 6].
  destruct (save_memory_blob scope kind json s) as [s' r] eqn:Es. cbn [fst]. cbv zeta.
  assert (Hq' : quiet_store s').
  { revert Es. unfold save_memory_blob, with_transaction, save_memory_blob_in_tx, try_eff, sealed, statement, quiet_store in *.
    destruct s as [c k t]. cbn in Hq. subst t. cbn. destruct (k scope) as [key|e]; cbn; [|by intros [= <- _]].
    destruct (encrypt_aead _ _ _ _); cbn; by intros [= <- _]. }
  destruct (save_blob_spec _ _ _ _ _ _ Es) as [Hk Hr]. split; [done|]. split; [done|]. destruct r as [[]|e].
  - destruct Hr as (Hb & Ho & Hv). split; [done|]. split; [done|]. right. by exists json.
  - assert (Hs : same_rows s s') by done. split; [by rewrite Hr|]. split; [intros; by apply same_rows_blob|left; by apply same_rows_blob].
Qed.

(** ** Recovering the windows *)

(** The manager after the purge of forgotten scopes and after the sweep. *)
Lemma purge_lookup forgotten m i :
  wf m -> wf (purge_tombstoned forgotten m).1 /\
  windows (purge_tombstoned forgotten m).1 !! i =
    windows m !! i ≫= (fun x => if bool_decide (w_scope_id x ∈ forgotten) then None else Some x).
Proof.
  intros Hwf. unfold purge_tombstoned. cbn [fst]. set (l := List.filter _ (tracked_scopes m)).
  assert (Hl : forall l m, wf m -> wf (foldl (fun m sc => remove_windows_for_scope sc m) m l) /\
    windows (foldl (fun m sc => remove_windows_for_scope sc m) m l) !! i =
    windows m !! i ≫= (fun x => if bool_decide (w_scope_id x ∈ l) then None else Some x)).
  { clear -HO. induction l as [|sc l IH]; intros m Hwf; cbn [foldl].
    - split; [done|]. destruct (windows m !! i); [|done]. cbn. by rewrite bool_decide_eq_false_2 by apply not_elem_of_nil.
    - assert (Hwf' : wf (remove_windows_for_scope sc m)) by (eapply removal_wf; [by apply remove_scope_removal|done]).
      destruct (IH _ Hwf') as [H1 H2]. split; [done|]. rewrite H2, removed_scope_lookup by done.
      destruct (windows m !! i) as [x|]; [|done]. cbn. destruct (N.eqb_spec (w_scope_id x) sc) as [->|Hne]; cbn.
      + by rewrite bool_decide_eq_true_2 by by left.
      + do 2 case_bool_decide; try done; set_solver. }
  destruct (Hl l m Hwf) as [H1 H2]. split; [done|]. rewrite H2. destruct (windows m !! i) as [x|] eqn:Ex; [|done]. cbn.
  destruct (wf_tracked m Hwf i x Ex) as (_ & _ & ids & Hids & _).
  assert (Hin : w_scope_id x ∈ tracked_scopes m).
  { unfold tracked_scopes. rewrite elem_of_hash_order. apply list_elem_of_fmap. exists (w_scope_id x, ids). split; [done|].
    by apply elem_of_map_to_list. }
  assert (Hiff : w_scope_id x ∈ l <-> w_scope_id x ∈ forgotten).
  { subst l. rewrite list_elem_of_In, List.filter_In, <- list_elem_of_In, bool_decide_eq_true. tauto. }
  by rewrite (bool_decide_ext _ _ Hiff).
Qed.
(** What is recovered of a manager. *)
Definition recovered (at_ : instant) (forgotten : gset uuid) (m : SynthesisWindowManager) : SynthesisWindowManager :=
  (sweep_stuck_pending at_ (seconds STUCK_PENDING_THRESHOLD_SECS) (purge_tombstoned forgotten m).1).1.
Definition sweeping (at_ : instant) : SynthesisWindow -> SynthesisWindow := swept at_ (seconds STUCK_PENDING_THRESHOLD_SECS).
Lemma recovered_lookup at_ forgotten m i :
  wf m -> wf (recovered at_ forgotten m) /\
  windows (recovered at_ forgotten m) !! i =
    windows m !! i ≫= (fun x => if bool_decide (w_scope_id x ∈ forgotten) then None else Some (sweeping at_ x)).
Proof.
  intros Hwf. destruct (purge_lookup forgotten m i Hwf) as [Hp Hl]. unfold recovered.
  assert (E : forall j, windows (sweep_stuck_pending at_ (seconds STUCK_PENDING_THRESHOLD_SECS) (purge_tombstoned forgotten m).1).1 !! j =
              sweeping at_ <$> windows (purge_tombstoned forgotten m).1 !! j) by (intros; apply sweep_lookup).
  split.
  - by apply (update_wf (purge_tombstoned forgotten m).1 _ (sweeping at_)); [apply in_place_swept| | |].
  - rewrite E, Hl. destruct (windows m !! i) as [x|]; [|done]. cbn. by case_bool_decide.
Qed.

(** The row of the windows may be rewritten with what is recovered so far. *)
Lemma recover_windows_quiet at_ forgotten s :
  quiet_store s -> let m := default empty_manager (decoded_at s synthesis_windows_scope SYNTHESIS_WINDOWS_KIND) in
  let s' := (recover_windows at_ forgotten s).1 in
  (recover_windows at_ forgotten s).2 = recovered at_ forgotten m /\
  quiet_store s' /\ scope_key s' = scope_key s /\ object_versions (conn s') = object_versions (conn s) /\
  (forall sc k, (sc, k) <> (synthesis_windows_scope, SYNTHESIS_WINDOWS_KIND) -> blob_at s' sc k = blob_at s sc k) /\
  (blob_at s' synthesis_windows_scope SYNTHESIS_WINDOWS_KIND = blob_at s synthesis_windows_scope SYNTHESIS_WINDOWS_KIND \/
   exists m' json, (m' = (purge_tombstoned forgotten m).1 \/ m' = recovered at_ forgotten m) /\ to_vec m' = Some json /\
     blob_at s' synthesis_windows_scope SYNTHESIS_WINDOWS_KIND = Some json).
Proof.
  intros Hq. unfold recover_windows. rewrite load_decoded_quiet by done.
  set (m := default empty_manager _). cbv zeta. unfold recovered. destruct (purge_tombstoned forgotten m) as [m1 b] eqn:Ep. cbn [fst].
  set (s1 := if b then _ else s).
  assert (H1 : quiet_store s1 /\ scope_key s1 = scope_key s /\ object_versions (conn s1) = object_versions (conn s) /\
    (forall sc k, (sc, k) <> (synthesis_windows_scope, SYNTHESIS_WINDOWS_KIND) -> blob_at s1 sc k = blob_at s sc k) /\
    (blob_at s1 synthesis_windows_scope SYNTHESIS_WINDOWS_KIND = blob_at s synthesis_windows_scope SYNTHESIS_WINDOWS_KIND \/
     exists json, to_vec m1 = Some json /\ blob_at s1 synthesis_windows_scope SYNTHESIS_WINDOWS_KIND = Some json)).
  { subst s1. destruct b; [by apply try_save_quiet|]. auto 6. }
  clearbody s1. destruct H1 as (Q1 & K1 & V1 & B1 & R1).
  destruct (sweep_stuck_pending at_ _ m1) as [m2 ids] eqn:Es. cbn [fst]. destruct ids as [|i ids]; cbn [fst snd].
  - split; [done|]. do 4 (split; [done|]). destruct R1 as [R1|(json & E1 & R1)]; [by left|]. right. exists m1, json. auto.
  - destruct (try_save_quiet synthesis_windows_scope SYNTHESIS_WINDOWS_KIND m2 s1 Q1) as (Q2 & K2 & V2 & B2 & R2).
    split; [done|]. split; [done|]. split; [congruence|]. split; [congruence|]. split; [intros; by rewrite B2, B1|].
    destruct R2 as [R2|(json & E2 & R2)]; [|right; exists m2, json; auto]. rewrite R2.
    destruct R1 as [R1|(json & E1 & R1)]; [by left|]. right. exists m1, json. auto.
Qed.

(** ** Recovering objects and versions *)

(** A row of objects holds its scope's table. *)
Lemma foldl_own scope (kvs : list (uuid * SynthesisObject)) (acc : gmap uuid SynthesisObject) i :
  (forall kv, kv ∈ kvs -> o_scope_id kv.2 = scope /\ o_window_id kv.2 = kv.1) -> NoDup kvs.*1 ->
  foldl (fun inner o => if (o_scope_id o =? scope)%N then <[o_window_id o := o]> inner else inner) acc kvs.*2 !! i =
  match (list_to_map kvs : gmap uuid SynthesisObject) !! i with Some o => Some o | None => acc !! i end.
Proof.
  revert acc. induction kvs as [|[j o] kvs IH]; intros acc H Hnd; cbn; [done|].
  apply NoDup_cons in Hnd as [Hj Hnd]. destruct (H (j, o)) as [Hs Hw]; [by left|]. cbn in Hs, Hw.
  rewrite Hs, N.eqb_refl, Hw, IH by (done || (intros kv Hkv; apply H; by right)).
  destruct (decide (i = j)) as [->|Hne].
  - rewrite lookup_insert_eq. rewrite not_elem_of_list_to_map_1 by done. by rewrite lookup_insert_eq.
  - by rewrite !lookup_insert_ne by done.
Qed.
Lemma own_objects_table scope (inner : gmap uuid SynthesisObject) :
  (forall i o, inner !! i = Some o -> o_scope_id o = scope /\ o_window_id o = i) ->
  own_objects scope (hash_order (map_to_list inner)).*2 = inner.
Proof.
  intros H. apply map_eq. intros i. unfold own_objects.
  assert (Hp : hash_order (map_to_list inner) ≡ₚ map_to_list inner) by apply hash_order_perm.
  assert (Hnd : NoDup (hash_order (map_to_list inner)).*1) by (rewrite Hp; apply NoDup_fst_map_to_list).
  rewrite foldl_own; [|intros [j o] Hin; rewrite Hp in Hin; by apply H, elem_of_map_to_list|done].
  rewrite (list_to_map_proper _ _ Hnd Hp), list_to_map_to_list, lookup_empty. by destruct (inner !! i).
Qed.

(** The orphan sweep has nothing to do when every window is tracked. *)
Lemma tracked_all m (inner : gmap uuid SynthesisObject) :
  (forall i, is_Some (inner !! i) -> is_Some (windows m !! i)) -> tracked_objects m inner = inner.
Proof.
  intros H. apply map_eq. intros i. unfold tracked_objects. destruct (inner !! i) as [o|] eqn:E.
  - apply map_lookup_filter_Some_2; [done|]. by apply H.
  - by apply map_lookup_filter_None_2; left.
Qed.
Lemma rewrite_orphaned_none m (objects : gmap uuid (gmap uuid SynthesisObject)) s :
  (forall sc inner, objects !! sc = Some inner -> tracked_objects m inner = inner) -> rewrite_orphaned m objects s = s.
Proof.
  intros H. unfold rewrite_orphaned.
  assert (Hl : forall kv, kv ∈ hash_order (map_to_list objects) -> tracked_objects m kv.2 = kv.2).
  { intros [sc inner] Hin. rewrite elem_of_hash_order in Hin. by apply elem_of_map_to_list, H in Hin. }
  induction (hash_order (map_to_list objects)) as [|kv l IH]; cbn; [done|].
  rewrite bool_decide_eq_true_2 by (apply Hl; by left). apply IH. intros kv' Hin. apply Hl. by right.
Qed.
Lemma swept_lookup m (objects : gmap uuid (gmap uuid SynthesisObject)) sc i :
  swept_objects m objects !! sc ≫= (fun inner => inner !! i) =
  objects !! sc ≫= (fun inner => tracked_objects m inner !! i).
Proof.
  unfold swept_objects. destruct (objects !! sc) as [inner|] eqn:E.
  - cbn. destruct (decide (tracked_objects m inner = ∅)) as [He|He].
    + rewrite (proj2 (map_lookup_filter_None (fun kv : uuid * gmap uuid SynthesisObject => kv.2 <> ∅) _ sc)); cbn; [by rewrite He, lookup_empty|].
      right. rewrite lookup_fmap, E. cbn. intros x [= <-] Hx. by apply Hx.
    + erewrite (map_lookup_filter_Some_2 _ _ sc (tracked_objects m inner)); cbn; [done|by rewrite lookup_fmap, E|done].
  - rewrite (proj2 (map_lookup_filter_None (fun kv : uuid * gmap uuid SynthesisObject => kv.2 <> ∅) _ sc)); [done|].
    left. by rewrite lookup_fmap, E.
Qed.

(** The version sweep: exactly the archives without an object go. *)
Lemma delete_window_versions_quiet sc w s :
  quiet_store s -> let s' := (delete_synthesis_object_versions_for_window sc w s).1 in
  quiet_store s' /\ only_archive sc w s s' /\ archive (conn s') sc w = ∅.
Proof.
  intros Hq. unfold delete_synthesis_object_versions_for_window. rewrite statement_quiet by done. cbn [fst].
  split; [done|]. split; [by eapply only_archive_set|]. cbn [with_conn conn]. by rewrite archive_set, decide_True.
Qed.
Lemma sweep_versions_quiet (objects : gmap uuid (gmap uuid SynthesisObject)) s :
  quiet_store s -> let s' := sweep_versions objects s in
  quiet_store s' /\ scope_key s' = scope_key s /\ (forall sc k, blob_at s' sc k = blob_at s sc k) /\
  forall sc w, archive (conn s') sc w =
    if bool_decide (objects !! sc ≫= (fun inner => inner !! w) = None) then ∅ else archive (conn s) sc w.
Proof.
  intros Hq. unfold sweep_versions, list_all_synthesis_object_version_window_keys. rewrite statement_quiet by done. rewrite with_conn_same.
  set (ks := List.filter _ _). cbv zeta.
  assert (H : forall (l : list (uuid * uuid)) s, quiet_store s ->
    let s' := foldl (fun s (k : uuid * uuid) => (delete_synthesis_object_versions_for_window k.1 k.2 s).1) s l in
    quiet_store s' /\ scope_key s' = scope_key s /\ (forall sc k, blob_at s' sc k = blob_at s sc k) /\
    forall sc w, archive (conn s') sc w = if bool_decide ((sc, w) ∈ l) then ∅ else archive (conn s) sc w).
  { clear. induction l as [|[x y] l IH]; intros s Hq; cbn [foldl].
    - do 3 (split; [done|]). intros sc w. by rewrite bool_decide_eq_false_2 by apply not_elem_of_nil.
    - destruct (delete_window_versions_quiet x y s Hq) as (Q1 & O1 & A1). cbn [fst snd].
      destruct (IH _ Q1) as (Q2 & K2 & B2 & A2). split; [done|]. split; [rewrite K2; apply (oa_keys _ _ _ _ O1)|].
      split; [intros; rewrite B2; apply (oa_blobs _ _ _ _ O1)|]. intros sc w. rewrite A2.
      destruct (decide ((sc, w) = (x, y))) as [[= -> ->]|Hne].
      + rewrite (bool_decide_eq_true_2 ((x, y) ∈ (x, y) :: l)) by by left. rewrite A1. by case_bool_decide.
      + rewrite (oa_others _ _ _ _ O1) by done. do 2 case_bool_decide; try done; set_solver. }
  destruct (H ks s Hq) as (Q & K & B & A). do 3 (split; [done|]). intros sc w. rewrite A.
  assert (Hks : (sc, w) ∈ ks <-> is_Some (object_versions (conn s) !! (sc, w)) /\ objects !! sc ≫= (fun inner => inner !! w) = None).
  { subst ks. rewrite list_elem_of_In, List.filter_In, <- list_elem_of_In, bool_decide_eq_true, list_elem_of_fmap. cbn. split; intros [H1 H2]; (split; [|done]).
    - destruct H1 as ([k row] & -> & Hin%elem_of_map_to_list). by eexists.
    - destruct H1 as [row Hrow]. exists ((sc, w), row). split; [done|]. by apply elem_of_map_to_list. }
  do 2 case_bool_decide; try done; try tauto.
  unfold archive. destruct (object_versions (conn s) !! (sc, w)) eqn:E; [|done]. exfalso. apply H0, Hks. by split; [eexists|].
Qed.

(** ** What the rows say at any moment *)

Definition disk_windows s : SynthesisWindowManager :=
  default empty_manager (decoded_at s synthesis_windows_scope SYNTHESIS_WINDOWS_KIND).
Definition disk_objects s (scope : uuid) : gmap uuid SynthesisObject :=
  own_objects scope (default [] (decoded_at s scope SYNTHESIS_OBJECT_KIND)).
(** The rows hold every object; their windows may lag behind memory, but they track
    every object, and a complete one has its object. *)
Record persisted rt : Prop := mk_persisted {
  pe_reserved : synthesis_windows_scope ∉ tombstones rt;
  pe_wf : wf (disk_windows (store rt));
  pe_objects : forall sc, sc ∉ tombstones rt -> disk_objects (store rt) sc = default ∅ (synthesis_objects_for_scope rt sc);
  pe_tracked : forall sc i o, synthesis_object_in rt sc i = Some o ->
    exists x t, windows (disk_windows (store rt)) !! i = Some x /\ w_scope_id x = sc /\ w_tier x = Some t /\
                object_type o = expected_object (window_scope_tier_to_synthesis_tier t);
  pe_window : forall i x, windows (disk_windows (store rt)) !! i = Some x -> w_scope_id x ∉ tombstones rt ->
    w_status x <> InProgress /\
    (w_status x = Complete -> is_Some (synthesis_object_in rt (w_scope_id x) i)) /\
    (synthesis_object_in rt (w_scope_id x) i = None -> archive (conn (store rt)) (w_scope_id x) i = ∅);
  pe_complete : forall i x, windows (synthesis_windows rt) !! i = Some x -> w_status x = Complete ->
    windows (disk_windows (store rt)) !! i = Some x
}.
(** No window becomes complete. *)
Definition no_new_complete m m' : Prop := forall i x,
  windows m' !! i = Some x -> w_status x = Complete -> windows m !! i = Some x.
(** The codecs give back what they encoded. *)
Context (Hwindows : forall m : SynthesisWindowManager, serde_roundtrips (Bytes := Bytes) m).
Context (Hobjects : forall l : list SynthesisObject, serde_roundtrips (Bytes := Bytes) l).

Lemma disk_windows_mirrored rt : windows_mirrored rt -> disk_windows (store rt) = synthesis_windows rt.
Proof. intros (json & Ej & Hb). unfold disk_windows, decoded_at. rewrite Hb. cbn. by rewrite (Hwindows _ _ Ej). Qed.
(** Windows written as they are in memory. *)
Lemma persisted_mirrored rt fs :
  inv (rt, fs) -> windows_mirrored rt -> synthesis_windows_scope ∉ tombstones rt ->
  (forall sc, sc ∉ tombstones rt -> disk_objects (store rt) sc = default ∅ (synthesis_objects_for_scope rt sc)) ->
  persisted rt.
Proof.
  intros Hi Hm Hr Ho. assert (E := disk_windows_mirrored _ Hm). split; [done|rewrite E; apply Hi|done|rewrite E|rewrite E|by rewrite E].
  - intros sc i o H. destruct (inv_object _ Hi _ _ _ H) as (_ & _ & _ & _ & x & t & Hx & Hrest). by exists x, t.
  - intros i x Hx _. split; [by apply (inv_live _ Hi i x)|]. split; [by apply (inv_complete _ Hi i x)|by apply (inv_archive _ Hi i x)].
Qed.
(** The row of the windows as before, and nothing lost from what it is about. *)
Lemma persisted_kept rt rt' :
  persisted rt -> tombstones rt ⊆ tombstones rt' -> synthesis_windows_scope ∉ tombstones rt' ->
  blob_at (store rt') synthesis_windows_scope SYNTHESIS_WINDOWS_KIND = blob_at (store rt) synthesis_windows_scope SYNTHESIS_WINDOWS_KIND ->
  no_new_complete (synthesis_windows rt) (synthesis_windows rt') ->
  (forall sc i, sc ∈ tombstones rt' -> synthesis_object_in rt' sc i = None) ->
  (forall sc, sc ∉ tombstones rt' -> synthesis_objects rt' !! sc = synthesis_objects rt !! sc /\
     blob_at (store rt') sc SYNTHESIS_OBJECT_KIND = blob_at (store rt) sc SYNTHESIS_OBJECT_KIND /\
     forall w, archive (conn (store rt')) sc w = archive (conn (store rt)) sc w) ->
  persisted rt'.
Proof.
  intros [_ Pwf Pob Ptr Pwi Pco] Ht Hr Hb Hnc Hgone Hs.
  assert (E : disk_windows (store rt') = disk_windows (store rt)) by (unfold disk_windows, decoded_at; by rewrite Hb).
  split; [done|by rewrite E| | | |]; try rewrite E.
  - intros sc Hsc. destruct (Hs sc Hsc) as (Ho & Hbo & _). unfold disk_objects, decoded_at, synthesis_objects_for_scope.
    rewrite Hbo, Ho. apply Pob. set_solver.
  - intros sc i o Hob. destruct (decide (sc ∈ tombstones rt')) as [Hin|Hin]; [by rewrite Hgone in Hob|].
    apply Ptr. unfold synthesis_object_in in *. by rewrite (proj1 (Hs sc Hin)) in Hob.
  - intros i x Hx Hsc. destruct (Hs _ Hsc) as (Ho & _ & Ha). rewrite Ha. unfold synthesis_object_in. rewrite Ho.
    apply Pwi; [done|set_solver].
  - intros i x Hx Hc. apply Pco; [by apply Hnc|done].
Qed.
Lemma forgotten_objects rt fs : inv (rt, fs) -> forall sc i, sc ∈ tombstones rt -> synthesis_object_in rt sc i = None.
Proof.
  intros Hi sc i Hsc. destruct (synthesis_object_in rt sc i) as [o|] eqn:E; [|done]. exfalso.
  destruct (inv_object _ Hi _ _ _ E) as (_ & _ & _ & _ & x & t & Hx & Hs & _). subst sc. by apply (inv_forgotten _ Hi i x Hx).
Qed.

Lemma object_kind_blob sc : (sc, SYNTHESIS_OBJECT_KIND) <> (synthesis_windows_scope, SYNTHESIS_WINDOWS_KIND).
Proof. intros H. by injection H. Qed.
(** *** Steps *)

Lemma persisted_untouched rt rt' fs' :
  inv (rt', fs') -> untouched rt rt' -> row_follows rt rt' -> no_new_complete (synthesis_windows rt) (synthesis_windows rt') ->
  persisted rt -> persisted rt'.
Proof.
  intros Hi Hu Hrow Hnc Hp. assert (Hd : forall sc, disk_objects (store rt') sc = disk_objects (store rt) sc).
  { intros sc. unfold disk_objects, decoded_at. by rewrite (ut_blobs _ _ Hu) by apply object_kind_blob. }
  destruct Hrow as [Hm|Hk].
  - eapply persisted_mirrored; [done|done|rewrite (ut_tombstones _ _ Hu); apply Hp|].
    intros sc. rewrite (ut_tombstones _ _ Hu), Hd. unfold synthesis_objects_for_scope. rewrite (ut_objects _ _ Hu). apply Hp.
  - eapply persisted_kept; [exact Hp|by rewrite (ut_tombstones _ _ Hu)|rewrite (ut_tombstones _ _ Hu); apply Hp|done|done| |].
    + intros sc i. by apply (forgotten_objects _ _ Hi).
    + intros sc _. rewrite (ut_objects _ _ Hu), (ut_blobs _ _ Hu) by apply object_kind_blob.
      repeat (split; [done|]). apply (untouched_rows _ _ Hu).
Qed.
Lemma persisted_landed env scope tier handle res rt rt' w fs' :
  inv (rt', fs') -> apply_dispatch_outcome env scope tier handle res rt = (rt', Ok w) -> persisted rt -> persisted rt'.
Proof.
  intros Hi H Hp. apply apply_landed in H as (o & s & pa & -> & How & _ & _ & _ & Hst & ->). subst w.
  destruct (landed_mirrors _ _ _ _ _ _ _ Hst) as [[Hm _] _].
  destruct Hst as (_ & _ & [lj Elj] & Bo & _ & _ & Bt & _).
  eapply persisted_mirrored; [exact Hi|exact Hm|apply Hp|]. intros sc Hsc. unfold disk_objects, decoded_at.
  rewrite swap_in_objects. destruct (decide (sc = scope)) as [->|Hne].
  - cbn [store swap_in with_outcome with_store]. rewrite Bo, Elj. cbn. rewrite (Hobjects _ _ Elj). cbn.
    apply own_objects_table. intros i ob Hob. destruct (inv_object _ Hi scope i ob) as (H1 & H2 & _); [|done].
    cbn [fst]. by rewrite object_in_default, swap_in_objects, decide_True.
  - cbn [store swap_in with_outcome with_store]. rewrite Bt; [by apply (pe_objects _ Hp)|congruence| |apply object_kind_blob].
    intros [= -> _]. done.
Qed.
Lemma moves_no_new op from to m i :
  moves op from to -> to <> Complete -> wf m -> no_new_complete m (op i m).1.
Proof.
  intros Hop Hto Hwf j y. rewrite (moves_lookup _ _ _ _ _ _ Hop) by done. destruct (windows m !! j) as [x|]; [|done].
  intros [= <-]. unfold advance. destruct (_ && _); [|done]. cbn. congruence.
Qed.
Lemma failed_no_new w m : wf m -> no_new_complete m (failed_windows w m).
Proof.
  intros Hwf i x Hx Hc. assert (Hwf' := moves_wf _ _ _ _ w mark_in_progress_moves Hwf).
  apply (moves_no_new _ _ _ _ w mark_in_progress_moves); [done|done| |done].
  by apply (moves_no_new _ _ _ _ w mark_failed_moves).
Qed.
Lemma opening_no_new m env scope t :
  wf m -> windows m !! fresh env 0 = None -> no_new_complete m (run_call m (opening env scope t)).
Proof. intros Hwf Hn i x. rewrite opening_lookup by done. destruct (decide _); [by intros [= <-]|done]. Qed.

Lemma persisted_step st st' : inv st -> step st st' -> persisted st.1 -> persisted st'.1.
Proof.
  intros Hi Hstep. assert (Hi' := inv_step _ _ Hstep Hi). assert (Hwf : wf (synthesis_windows st.1)) by apply Hi.
  destruct Hstep as [env scope kind rt fs rt' r Hun H|env scope window rt fs rt' r H|env res rt fs1 f fs2 rt' r Hf Hb H
                    |keys scope rt fs rt' r Hk H|engine bindings cap refill rt fs rt' r H]; cbn [fst] in *.
  - destruct (dispatch_plan_spec _ _ _ _ _ _ H) as (Hu & Hrow & Hw). eapply persisted_untouched; [done..|].
    destruct Hw as [[-> _]|(_ & -> & _)]; [by intros ?|]. apply opening_no_new; [done|apply Hun].
  - destruct (replay_plan_spec _ _ _ _ _ _ H) as (Hu & Hrow & Hw). eapply persisted_untouched; [done..|].
    destruct Hw as [[-> _]|(x & t & _ & _ & _ & _ & -> & _)]; [by intros ?|]. by apply (moves_no_new _ _ _ _ _ mark_replay_pending_moves).
  - destruct r as [w|e]; [by eapply persisted_landed|].
    destruct (outcome_refused _ _ _ _ _ _ _ _ H) as (Hu & Hw & Hrow). eapply persisted_untouched; [done..|].
    destruct Hw as [-> | ->]; [by intros ?|]. by apply failed_no_new.
  - apply forget_spec in H as [->|(Hne & Et & Ew & Eo & _ & _ & _ & _ & Ea & Eb & Hrow)]; [done| |done].
    intros Hp. assert (Hr : synthesis_windows_scope ∉ tombstones rt') by (rewrite Et; pose proof (pe_reserved _ Hp); set_solver).
    assert (Hkp : forall sc, sc ∉ tombstones rt' -> sc <> scope) by (intros sc; rewrite Et; set_solver).
    destruct Hrow as [Hm|Hb].
    + eapply persisted_mirrored; [done|done|done|]. intros sc Hsc. unfold disk_objects, decoded_at, synthesis_objects_for_scope.
      rewrite Eb, Eo, lookup_delete_ne by (auto using object_kind_blob; symmetry; auto).
      apply (pe_objects _ Hp). rewrite Et in Hsc. set_solver.
    + eapply persisted_kept; [exact Hp|rewrite Et; set_solver|done|done| | |].
      * intros i x. rewrite Ew. cbn [run_call]. rewrite removed_scope_lookup by done. destruct (_ !! i) as [y|]; [|done]. cbn.
        by destruct (_ =? _)%N; [|intros [= ->]].
      * intros sc i. by apply (forgotten_objects _ _ Hi').
      * intros sc Hsc. rewrite Eo, lookup_delete_ne by (symmetry; auto). split; [done|]. split; [|intros; by auto].
        apply Eb; [auto|apply object_kind_blob].
  - revert H. unfold configure_synthesis_engine.
    destruct (resolve_rate_limiter_config cap refill) as [[c r']|]; intros [= <- _] Hp; [|done]. destruct Hp. by split.
Qed.

(** ** Opening *)

Lemma rewrite_orphaned_quiet m (objects : gmap uuid (gmap uuid SynthesisObject)) s :
  quiet_store s -> let s' := rewrite_orphaned m objects s in
  quiet_store s' /\ scope_key s' = scope_key s /\ object_versions (conn s') = object_versions (conn s) /\
  forall sc k, k <> SYNTHESIS_OBJECT_KIND -> blob_at s' sc k = blob_at s sc k.
Proof.
  unfold rewrite_orphaned. generalize (hash_order (map_to_list objects)). intros l. revert s.
  induction l as [|[sc inner] l IH]; intros s Hq; cbn [foldl]; [done|]. cbn [fst snd]. case_bool_decide.
  - by apply IH.
  - destruct (try_save_quiet sc SYNTHESIS_OBJECT_KIND (hash_order (map_to_list (tracked_objects m inner))).*2 s Hq) as (Q & K & V & B & _).
    destruct (IH _ Q) as (Q' & K' & V' & B'). split; [done|]. split; [congruence|]. split; [congruence|].
    intros sc' k Hk. by rewrite B', B by congruence.
Qed.
(** What opening makes of a store. *)
Record opening_of (env : Env) (forgotten : gset uuid) s rt' : Prop := mk_opening {
  op_quiet : quiet_store (store rt');
  op_keys : scope_key (store rt') = scope_key s;
  op_tombstones : tombstones rt' = forgotten;
  op_windows : synthesis_windows rt' = recovered (now env 0) forgotten (disk_windows s);
  op_objects : forall sc i, synthesis_object_in rt' sc i =
    if bool_decide (sc ∈ forgotten) then None else tracked_objects (synthesis_windows rt') (disk_objects s sc) !! i;
  op_archives : forall sc i, archive (conn (store rt')) sc i =
    if bool_decide (synthesis_object_in rt' sc i = None) then ∅ else archive (conn s) sc i;
  op_rows : forall sc, sc ∉ forgotten ->
    (forall sc i, sc ∉ forgotten -> is_Some (disk_objects s sc !! i) -> is_Some (windows (synthesis_windows rt') !! i)) ->
    blob_at (store rt') sc SYNTHESIS_OBJECT_KIND = blob_at s sc SYNTHESIS_OBJECT_KIND;
  op_windows_row : let row := blob_at (store rt') synthesis_windows_scope SYNTHESIS_WINDOWS_KIND in
    row = blob_at s synthesis_windows_scope SYNTHESIS_WINDOWS_KIND \/
    exists m' json, (m' = (purge_tombstoned forgotten (disk_windows s)).1 \/ m' = synthesis_windows rt') /\
      to_vec m' = Some json /\ row = Some json
}.
Lemma open_quiet env forgotten s :
  quiet_store s -> exists rt', open_synthesis (Engine := Engine) env forgotten s = (store rt', Ok rt') /\ opening_of env forgotten s rt'.
Proof.
  intros Hq. unfold open_synthesis.
  destruct (rehydrate_quiet CHANNEL_MEMORY_KIND forgotten (fun (_ : uuid) (a : ChannelMemoryObject (Json := Json)) => a) s Hq) as (channels & -> & _).
  destruct (rehydrate_quiet DOMAIN_MEMORY_KIND forgotten (fun (_ : uuid) (a : DomainMemoryObject (Json := Json)) => a) s Hq) as (domains & -> & _).
  destruct (rehydrate_quiet TENANT_MEMORY_KIND forgotten (fun (_ : uuid) (a : TenantMemoryObject (Json := Json)) => a) s Hq) as (tenants & -> & _).
  destruct (recover_windows_quiet (now env 0) forgotten s Hq) as (Hm & Q1 & K1 & V1 & B1 & R1).
  destruct (recover_windows (now env 0) forgotten s) as [s1 m]. cbn [fst snd] in *.
  destruct (rehydrate_quiet SYNTHESIS_OBJECT_KIND forgotten own_objects s1 Q1) as (loaded & -> & Hl).
  destruct (rewrite_orphaned_quiet m loaded s1 Q1) as (Q2 & K2 & V2 & B2).
  destruct (sweep_versions_quiet (swept_objects m loaded) (rewrite_orphaned m loaded s1) Q2) as (Q3 & K3 & B3 & A3).
  assert (Hload : forall sc, loaded !! sc = if bool_decide (sc ∈ forgotten) then None else own_objects sc <$> decoded_at s sc SYNTHESIS_OBJECT_KIND).
  { intros sc. rewrite Hl. unfold decoded_at. by rewrite B1 by apply object_kind_blob. }
  assert (Hobj : forall sc i, swept_objects m loaded !! sc ≫= (fun inner => inner !! i) =
            if bool_decide (sc ∈ forgotten) then None else tracked_objects m (disk_objects s sc) !! i).
  { intros sc i. rewrite swept_lookup, Hload. case_bool_decide; [done|]. unfold disk_objects.
    destruct (decoded_at s sc SYNTHESIS_OBJECT_KIND) as [l|]; cbn; [done|]. unfold own_objects, tracked_objects. cbn.
    by rewrite map_filter_empty, lookup_empty. }
  match goal with |- exists rt', (_, Ok ?r) = _ /\ _ => exists r end. split; [done|]. split; cbn [store tombstones synthesis_windows].
  - exact Q3.
  - by rewrite K3, K2, K1.
  - done.
  - exact Hm.
  - exact Hobj.
  - intros sc i. rewrite A3. unfold archive. by rewrite V2, V1.
  - intros sc Hsc Htr. rewrite B3, rewrite_orphaned_none; [apply B1, object_kind_blob|]. intros sc' inner Hin.
    rewrite Hload in Hin. case_bool_decide as Hf; [done|]. apply tracked_all. intros i Hi. apply (Htr sc' i Hf).
    unfold disk_objects. destruct (decoded_at s sc' SYNTHESIS_OBJECT_KIND); [|done]. injection Hin as <-. exact Hi.
  - cbv zeta. rewrite B3, B2 by done. rewrite Hm. exact R1.
Qed.

(** *** A crash *)

(** What recovery does to a window. *)
Record restating (h : SynthesisWindow -> SynthesisWindow) : Prop := mk_restating {
  rs_scope : forall x, w_scope_id (h x) = w_scope_id x;
  rs_tier : forall x, w_tier (h x) = w_tier x;
  rs_complete : forall x, w_status (h x) = Complete \/ w_status x = Complete -> h x = x;
  rs_live : forall x, w_status (h x) = InProgress -> w_status x = InProgress
}.
Lemma restating_id : restating (fun x => x). Proof. by split. Qed.
Lemma restating_sweeping at_ : restating (sweeping at_).
Proof.
  assert (Hst : forall x, sweeping at_ x = x \/ w_status x = Pending /\ sweeping at_ x = with_status Failed x).
  { intros x. unfold sweeping, swept. destruct (stuck at_ _ x) eqn:E; [right|by left]. split; [|done].
    unfold stuck in E. by destruct (w_status x). }
  split; intros x; destruct (Hst x) as [-> |[Hx ->]]; try done; cbn; rewrite Hx; by intros [|].
Qed.
(** The row of the windows after opening: nothing but forgotten scopes and stuck
    windows tells it from the row before. *)
Lemma opened_row env forgotten s rt' :
  opening_of env forgotten s rt' -> wf (disk_windows s) ->
  wf (disk_windows (store rt')) /\ exists (b : bool) h, restating h /\
    forall i, windows (disk_windows (store rt')) !! i =
      windows (disk_windows s) !! i ≫= (fun x => if b && bool_decide (w_scope_id x ∈ forgotten) then None else Some (h x)).
Proof.
  intros Hop Hwf. assert (Hrow := op_windows_row _ _ _ _ Hop). cbn in Hrow. destruct Hrow as [Hrow|(m' & json & Hm & Ej & Hrow)].
  - assert (disk_windows (store rt') = disk_windows s) as -> by (unfold disk_windows, decoded_at; by rewrite Hrow).
    split; [done|]. exists false, (fun x => x). split; [apply restating_id|]. intros i. by destruct (_ !! i).
  - assert (disk_windows (store rt') = m') as -> by (unfold disk_windows, decoded_at; rewrite Hrow; cbn; by rewrite (Hwindows _ _ Ej)).
    destruct Hm as [-> | ->].
    + split; [by apply (purge_lookup _ _ 0%N)|]. exists true, (fun x => x). split; [apply restating_id|]. intros i. by apply purge_lookup.
    + rewrite (op_windows _ _ _ _ Hop). split; [by apply (recovered_lookup _ _ _ 0%N)|]. exists true, (sweeping (now env 0)).
      split; [apply restating_sweeping|]. intros i. by apply recovered_lookup.
Qed.

(** The rows a process leaves, under keys of which only those of forgotten scopes may
    differ. *)
Record left_by rt s : Prop := mk_left {
  lb_conn : conn s = conn (store rt);
  lb_keys : forall sc, sc ∉ tombstones rt -> scope_key s sc = scope_key (store rt) sc;
  lb_quiet : quiet_store s
}.
Lemma left_blob rt s sc k : left_by rt s -> sc ∉ tombstones rt -> blob_at s sc k = blob_at (store rt) sc k.
Proof. intros [Hc Hk _] Hsc. unfold blob_at, plain, opened. by rewrite Hc, Hk. Qed.
Lemma left_windows rt s : left_by rt s -> persisted rt -> disk_windows s = disk_windows (store rt).
Proof. intros Hl Hp. unfold disk_windows, decoded_at. by rewrite (left_blob _ _ _ _ Hl (pe_reserved _ Hp)). Qed.

Section Crash.
Context (rt rt' : runtime) (fs : list Flight) (env : Env) (s : evidence).
Context (Hi : inv (rt, fs)) (Hp : persisted rt) (Hl : left_by rt s) (Hop : opening_of env (tombstones rt) s rt').

Lemma opened_windows i : windows (synthesis_windows rt') !! i =
  windows (disk_windows (store rt)) !! i ≫= (fun x => if bool_decide (w_scope_id x ∈ tombstones rt) then None else Some (sweeping (now env 0) x)).
Proof. rewrite (op_windows _ _ _ _ Hop), (left_windows _ _ Hl Hp). by apply recovered_lookup, Hp. Qed.
Lemma left_objects sc i : sc ∉ tombstones rt -> disk_objects s sc !! i = synthesis_object_in rt sc i.
Proof.
  intros Hsc. rewrite object_in_default, <- (pe_objects _ Hp) by done. unfold disk_objects, decoded_at. by rewrite (left_blob _ _ _ _ Hl Hsc).
Qed.
Lemma opened_tracked sc i : sc ∉ tombstones rt -> is_Some (disk_objects s sc !! i) -> is_Some (windows (synthesis_windows rt') !! i).
Proof.
  intros Hsc [o Ho]. rewrite left_objects in Ho by done. destruct (pe_tracked _ Hp _ _ _ Ho) as (x & t & Hx & Hs & _).
  rewrite opened_windows, Hx. cbn. rewrite bool_decide_eq_false_2 by by rewrite Hs. by eexists.
Qed.
(** No object is lost. *)
Lemma opened_objects sc i : synthesis_object_in rt' sc i = synthesis_object_in rt sc i.
Proof.
  rewrite (op_objects _ _ _ _ Hop). case_bool_decide as Hsc; [by rewrite (forgotten_objects _ _ Hi)|].
  rewrite tracked_all by (intros j; by apply opened_tracked). by apply left_objects.
Qed.
Lemma opened_archives sc i : archive (conn (store rt')) sc i =
  if bool_decide (synthesis_object_in rt sc i = None) then ∅ else archive (conn (store rt)) sc i.
Proof. rewrite (op_archives _ _ _ _ Hop), opened_objects. by rewrite (lb_conn _ _ Hl). Qed.

Lemma opened_inv : inv (rt', []).
Proof.
  assert (Hsw := restating_sweeping (now env 0)).
  assert (Hwin : forall i y, windows (synthesis_windows rt') !! i = Some y -> exists x, windows (disk_windows (store rt)) !! i = Some x /\
            w_scope_id x ∉ tombstones rt /\ y = sweeping (now env 0) x).
  { intros i y. rewrite opened_windows. destruct (_ !! i) as [x|]; [|done]. cbn. case_bool_decide; [done|]. intros [= <-]. by exists x. }
  split; cbn [fst snd].
  - rewrite (op_windows _ _ _ _ Hop), (left_windows _ _ Hl Hp). by apply (recovered_lookup _ _ _ 0%N), Hp.
  - constructor.
  - intros f Hf. by apply not_elem_of_nil in Hf.
  - intros sc i o. rewrite opened_objects. intros Ho. destruct (inv_object _ Hi _ _ _ Ho) as (H1 & H2 & H3 & H4 & _).
    repeat (split; [done|]). split.
    + unfold versions_at. rewrite opened_archives. cbn in Ho. by rewrite Ho.
    + destruct (pe_tracked _ Hp _ _ _ Ho) as (x & t & Hx & Hs & Ht & Hty). exists (sweeping (now env 0) x), t.
      rewrite opened_windows, Hx. cbn. rewrite (rs_scope _ Hsw), (rs_tier _ Hsw). split; [|done].
      rewrite bool_decide_eq_false_2; [done|]. rewrite Hs. intros Hin. cbn in Ho. by rewrite (forgotten_objects _ _ Hi) in Ho.
  - intros i y (x & Hx & Hsc & ->)%Hwin Hc. rewrite opened_objects. assert (E := rs_complete _ Hsw x (or_introl Hc)). rewrite E in *.
    by apply (pe_window _ Hp i x Hx Hsc).
  - intros i y _. rewrite opened_archives, opened_objects. intros ->. done.
  - intros i y (x & Hx & Hsc & ->)%Hwin. by rewrite (rs_scope _ Hsw), (op_tombstones _ _ _ _ Hop).
  - intros i y (x & Hx & Hsc & ->)%Hwin Hc%(rs_live _ Hsw). by destruct (pe_window _ Hp i x Hx Hsc).
Qed.
Lemma opened_complete i x :
  windows (synthesis_windows rt') !! i = Some x -> w_status x = Complete -> windows (disk_windows (store rt)) !! i = Some x.
Proof.
  rewrite opened_windows. destruct (_ !! i) as [y|]; [|done]. cbn. case_bool_decide; [done|]. intros [= <-] Hc.
  by rewrite (rs_complete _ (restating_sweeping _) y) by auto.
Qed.
Lemma opened_persisted : persisted rt'.
Proof.
  destruct (opened_row _ _ _ _ Hop) as (Hwf & b & h & Hh & Hrow); [rewrite (left_windows _ _ Hl Hp); apply Hp|].
  rewrite (left_windows _ _ Hl Hp) in Hrow.
  assert (Hin : forall i x, windows (disk_windows (store rt)) !! i = Some x -> w_scope_id x ∉ tombstones rt ->
            windows (disk_windows (store rt')) !! i = Some (h x)).
  { intros i x Hx Hsc. rewrite Hrow, Hx. cbn. by rewrite bool_decide_eq_false_2, andb_false_r. }
  split; [rewrite (op_tombstones _ _ _ _ Hop); apply Hp|done| | | |]; rewrite ?(op_tombstones _ _ _ _ Hop).
  - intros sc Hsc. apply map_eq. intros i. rewrite <- object_in_default, opened_objects, <- left_objects by done.
    unfold disk_objects, decoded_at. by rewrite (op_rows _ _ _ _ Hop sc Hsc opened_tracked).
  - intros sc i o. rewrite opened_objects. intros Ho. destruct (pe_tracked _ Hp _ _ _ Ho) as (x & t & Hx & Hs & Ht & Hty).
    exists (h x), t. rewrite (rs_scope _ Hh), (rs_tier _ Hh). split; [|done]. apply Hin; [done|]. rewrite Hs. intros Hsc.
    by rewrite (forgotten_objects _ _ Hi) in Ho.
  - intros i y. rewrite Hrow. destruct (windows (disk_windows (store rt)) !! i) as [x|] eqn:Ex; [|done]. cbn. destruct (b && _); [done|].
    intros [= <-]. rewrite (rs_scope _ Hh). intros Hsc. destruct (pe_window _ Hp i x Ex Hsc) as (H1 & H2 & H3).
    rewrite opened_objects, opened_archives. split; [by intros ?%(rs_live _ Hh)|]. split.
    + intros Hc. rewrite (rs_complete _ Hh x) in Hc by auto. by apply H2.
    + intros ->. done.
  - intros i y Hy Hc. assert (Hx := opened_complete _ _ Hy Hc). assert (Hsc := inv_forgotten _ opened_inv i y Hy).
    cbn in Hsc. rewrite (op_tombstones _ _ _ _ Hop) in Hsc. rewrite (Hin i y Hx Hsc). by rewrite (rs_complete _ Hh y) by auto.
Qed.
End Crash.

(** ** Histories with crashes *)

(** The store a new process finds. *)
Definition reopened (keys : uuid -> result Key EvidenceError) rt : evidence := mk_store (conn (store rt)) keys [].
Definition same_keys rt (keys : uuid -> result Key EvidenceError) : Prop :=
  forall sc, sc ∉ tombstones rt -> keys sc = scope_key (store rt) sc.
(** A step, or a crash: the process ends at any moment, its runs with it, and another
    opens the store, without a statement of that opening failing; from then on
    statements may fail again. *)
Inductive life : state (Json := Json) (Engine := Engine) (Key := Key) (Nonce := Nonce) (Bytes := Bytes) -> state -> Prop :=
| life_step st st' : step st st' -> life st st'
| life_crash env keys rt fs rt' faults :
    same_keys rt keys -> open_synthesis env (tombstones rt) (reopened keys rt) = (store rt', Ok rt') ->
    life (rt, fs) (with_store rt' (mk_store (conn (store rt')) (scope_key (store rt')) faults), []).

Lemma reopened_left rt keys : same_keys rt keys -> left_by rt (reopened keys rt).
Proof. by split. Qed.
Lemma open_reopened env rt keys : exists rt',
  open_synthesis (Engine := Engine) env (tombstones rt) (reopened keys rt) = (store rt', Ok rt') /\
  opening_of env (tombstones rt) (reopened keys rt) rt'.
Proof. by apply open_quiet. Qed.
Lemma life_inv st st' : life st st' -> inv st -> persisted st.1 -> inv st' /\ persisted st'.1.
Proof.
  intros [st0 st0' H|env keys rt fs rt' faults Hk H] Hi Hp; [split; [by eapply inv_step|by eapply persisted_step]|].
  destruct (open_reopened env rt keys) as (rt0 & H0 & Hop). rewrite H0 in H. injection H as _ ->.
  assert (Hi' := opened_inv _ _ _ _ _ Hi Hp (reopened_left _ _ Hk) Hop).
  assert (Hp' := opened_persisted _ _ _ _ _ Hi Hp (reopened_left _ _ Hk) Hop).
  assert (Hs : same_rows (store rt') (mk_store (conn (store rt')) (scope_key (store rt')) faults)) by done.
  assert (Hu := untouched_same_rows rt' _ Hs).
  assert (Hi'' : inv (with_store rt' (mk_store (conn (store rt')) (scope_key (store rt')) faults), [])) by by apply (inv_same rt').
  split; [done|]. cbn [fst]. apply (persisted_untouched rt' _ [] Hi'' Hu (row_follows_store _ _ Hs)); [by intros ?|done].
Qed.
Lemma life_rtc st st' : rtc life st st' -> inv st -> persisted st.1 -> inv st' /\ persisted st'.1.
Proof. induction 1 as [|x y z Hl _ IH]; [done|]. intros Hi Hp. destruct (life_inv _ _ Hl Hi Hp). by apply IH. Qed.

(** A runtime without windows and objects on a database without rows. *)
Lemma persisted_start rt :
  synthesis_windows rt = empty_manager -> synthesis_objects rt = ∅ -> memory_objects (conn (store rt)) = ∅ ->
  synthesis_windows_scope ∉ tombstones rt -> persisted rt.
Proof.
  intros Hw Ho Hm Hr. assert (Hd : forall A (SA : Serde Bytes A) sc k, decoded_at (A := A) (store rt) sc k = None).
  { intros. unfold decoded_at, blob_at. by rewrite Hm, lookup_empty. }
  assert (E : disk_windows (store rt) = empty_manager) by (unfold disk_windows; by rewrite Hd).
  split; rewrite ?E; [done|apply empty_wf| | | |].
  - intros sc _. unfold disk_objects, synthesis_objects_for_scope. by rewrite Hd, Ho, lookup_empty.
  - intros sc i o. unfold synthesis_object_in. by rewrite Ho, lookup_empty.
  - intros i x. cbn. by rewrite lookup_empty.
  - intros i x. rewrite Hw. cbn. by rewrite lookup_empty.
Qed.


(** If the row of the windows cannot be read, opening drops every synthesis object
    and every archived version. *)
Theorem unreadable_windows_lose_objects env forgotten s :
  quiet_store s -> decoded_at (A := SynthesisWindowManager) s synthesis_windows_scope SYNTHESIS_WINDOWS_KIND = None ->
  exists rt', open_synthesis (Engine := Engine) env forgotten s = (store rt', Ok rt') /\
    forall sc i, synthesis_object_in rt' sc i = None /\ archive (conn (store rt')) sc i = ∅.
Proof using SC.
  intros Hq Hd. destruct (open_quiet env forgotten s Hq) as (rt' & Ho & Hop). exists rt'. split; [done|].
  assert (Hn : forall sc i, synthesis_object_in rt' sc i = None).
  { intros sc i. rewrite (op_objects _ _ _ _ Hop). case_bool_decide; [done|]. unfold tracked_objects.
    apply map_lookup_filter_None_2. right. intros o _. cbn. unfold SynthesisWindow.get. rewrite (op_windows _ _ _ _ Hop).
    assert (disk_windows s = empty_manager) as -> by (unfold disk_windows; by rewrite Hd).
    rewrite (proj2 (recovered_lookup _ _ _ i empty_wf)). cbn. rewrite lookup_empty. by intros []. }
  intros sc i. split; [done|]. rewrite (op_archives _ _ _ _ Hop), Hn. done.
Qed.
End Recovery.

(** ** Witnesses *)

Module Demo.
Import ServerSynthesis.Concrete.
Lemma windows_codec (m : SynthesisWindowManager) : serde_roundtrips (Bytes := list N * Blob) m.
Proof. intros b [= <-]. reflexivity. Defined.
Lemma objects_codec (l : list SynthesisObject) : serde_roundtrips (Bytes := list N * Blob) l.
Proof. intros b [= <-]. reflexivity. Defined.
Definition demo_keys (sc : uuid) : result N EvidenceError := Ok sc.
Lemma demo_same_keys : same_keys landed demo_keys.
Proof.
  assert (E : scope_key (store landed) = demo_keys) by (vm_compute; reflexivity). intros sc _. by rewrite E.
Qed.
Lemma start_persisted : persisted start.
Proof. by apply persisted_start; [| | |apply not_elem_of_empty]. Qed.
Lemma step_life (st st' : state (Json := unit) (Engine := unit) (Key := N) (Nonce := unit) (Bytes := list N * Blob)) :
  rtc step st st' -> rtc life st st'.
Proof. induction 1 as [|x y z H _ IH]; [done|]. eapply rtc_l; [by apply life_step|done]. Qed.
(** The same rows, but for a row of windows sealed under another key. *)
Definition spoiled := mk_store (with_objects (conn (store landed))
  (<[(synthesis_windows_scope, SYNTHESIS_WINDOWS_KIND) := mk_row tt ([99%N], ObjectsBlob []) 0%Z]> (memory_objects (conn (store landed))))) demo_keys [].
Lemma unreadable_windows_lose_objects_witness :
  is_Some (decoded_at (A := list SynthesisObject) spoiled 1 SYNTHESIS_OBJECT_KIND) /\
  exists rt', open_synthesis (Json := unit) (Engine := unit) (at_time 9000 50) ∅ spoiled = (store rt', Ok rt') /\ synthesis_object_in rt' 1 7 = None.
Proof.
  assert (Hd : decoded_at (A := SynthesisWindowManager) spoiled synthesis_windows_scope SYNTHESIS_WINDOWS_KIND = None) by (vm_compute; reflexivity).
  split; [vm_compute; by eexists|].
  destruct (unreadable_windows_lose_objects (Json := unit) (Engine := unit) (at_time 9000 50) ∅ spoiled eq_refl Hd) as (rt' & Ho & H).
  exists rt'. split; [exact Ho|]. apply H.
Defined.
End Demo.
