(* ===== verification/EvidenceTables.v ===== *)
(** * The tables of evidence bodies ([evidence_store/src/store.rs],
    [importance.rs], [routing.rs])

    The rows that hold bodies: evidence, the deduplicated bodies with their wrapped
    keys, the metadata of approved documents, the ring buffer of noise and the
    overrides of importance.  What a statement and a transaction do to them, how bodies
    and keys are sealed, and where a body is routed.  Any statement may fail; the keys
    of the scopes and the faults to come are those of [SynthesisStore]. *)

From S2P Require Import Prelude SynthesisStore.

(** ** Importance and routing *)

Inductive ImportanceClass : Type := Critical | Important | Useful | Noise.
#[export] Instance ImportanceClass_eq_dec : EqDecision ImportanceClass. Proof. solve_decision. Defined.
Definition as_tag (c : ImportanceClass) : Z :=
  match c with Noise => 0 | Useful => 1 | Important => 2 | Critical => 3 end.
Definition from_tag (tag : Z) : option ImportanceClass :=
  match tag with
  | 0%Z => Some Noise | 1%Z => Some Useful | 2%Z => Some Important | 3%Z => Some Critical
  | _ => None
  end.
Lemma from_as_tag c : from_tag (as_tag c) = Some c.
Proof. by destruct c. Qed.

Inductive StoragePath : Type := Inline | BodyTable | RingBuffer.
#[export] Instance StoragePath_eq_dec : EqDecision StoragePath. Proof. solve_decision. Defined.
Definition DEFAULT_INLINE_THRESHOLD_BYTES : nat := 512.
Definition route_storage_with_threshold (body_len : nat) (importance : ImportanceClass) (inline_threshold : nat) : StoragePath :=
  if bool_decide (importance = Noise) then RingBuffer
  else if (body_len <=? inline_threshold)%nat then Inline else BodyTable.
Definition route_storage (body_len : nat) (importance : ImportanceClass) : StoragePath :=
  route_storage_with_threshold body_len importance DEFAULT_INLINE_THRESHOLD_BYTES.

(** ** What the code uses of [crypto] *)

Definition AEAD_NONCE_LEN : nat := 24.
(** The content hash (BLAKE3) and its bytes; a key as bytes, and bytes of the right
    length as a key. *)
Class ContentHashing (Hash : Type) := { content_hash : list N -> Hash; hash_bytes : Hash -> list N }.
Class KeyBytes (Key : Type) := {
  key_bytes : Key -> list N;
  key_of : list N -> option Key;
  key_of_bytes : forall k, key_of (key_bytes k) = Some k
}.

Section Tables.
Context {Key Nonce Bytes Hash : Type} `{Countable Hash}.
Context {BE : Aead Key Nonce (list N)} {IN : Inhabited Nonce}.
Context {CH : ContentHashing Hash} {KB : KeyBytes Key}.

(** ** Rows and tables *)

Record BodyRow : Type := mk_body { b_ciphertext : list N; b_nonce : Nonce; ref_count : Z }.
Record WrapRow : Type := mk_wrap { wrapped_cek : list N; w_nonce : Nonce }.
Record EvidenceRecord : Type := mk_evidence {
  e_scope : uuid;
  e_hash : Hash;
  e_body : option (list N);
  body_ref : option Hash;
  e_nonce : option Nonce;
  source_ref : option string;
  acl_pointer : option string;
  importance : Z;
  storage_path : StoragePath;
  e_created_at : Z;
  language_tag : option string
}.
Record PayloadRow : Type := mk_payload { p_hash : Hash; size_bytes : Z; p_updated_at : Z }.
Record RingRow : Type := mk_ring {
  r_scope : uuid;
  r_body : list N;
  r_nonce : Nonce;
  payload_size : Z;
  r_created_at : Z;
  last_accessed_at : Z;
  priority : Z
}.
Record OverrideRow : Type := mk_override { new_importance : Z; override_reason : option string; overridden_at : Z }.

(** [ring_seq] is the largest rowid given out so far (AUTOINCREMENT). *)
Record Tables : Type := mk_tables {
  body_store : gmap Hash BodyRow;
  body_store_key_wraps : gmap (Hash * uuid) WrapRow;
  evidence : gmap uuid EvidenceRecord;
  approved_document_payloads : gmap (uuid * uuid) PayloadRow;
  ring_buffer : gmap N RingRow;
  ring_seq : N;
  reclassification_overrides : gmap uuid OverrideRow
}.
Definition with_bodies (t : Tables) m : Tables := mk_tables m (body_store_key_wraps t) (evidence t)
  (approved_document_payloads t) (ring_buffer t) (ring_seq t) (reclassification_overrides t).
Definition with_wraps (t : Tables) m : Tables := mk_tables (body_store t) m (evidence t)
  (approved_document_payloads t) (ring_buffer t) (ring_seq t) (reclassification_overrides t).
Definition with_evidence (t : Tables) m : Tables := mk_tables (body_store t) (body_store_key_wraps t) m
  (approved_document_payloads t) (ring_buffer t) (ring_seq t) (reclassification_overrides t).
Definition with_payloads (t : Tables) m : Tables := mk_tables (body_store t) (body_store_key_wraps t) (evidence t)
  m (ring_buffer t) (ring_seq t) (reclassification_overrides t).
Definition with_ring (t : Tables) m seq : Tables := mk_tables (body_store t) (body_store_key_wraps t) (evidence t)
  (approved_document_payloads t) m seq (reclassification_overrides t).
Definition with_overrides (t : Tables) m : Tables := mk_tables (body_store t) (body_store_key_wraps t) (evidence t)
  (approved_document_payloads t) (ring_buffer t) (ring_seq t) m.
Definition no_tables : Tables := mk_tables ∅ ∅ ∅ ∅ ∅ 0 ∅.

(** [struct EvidenceStore]: its configuration and these tables beside the rows, keys
    and faults of [SynthesisStore]. *)
Record Store : Type := mk_store {
  inline_threshold_bytes : nat;
  ring_buffer_max_bytes : N;
  tables : Tables;
  rows : EvidenceStore (Key := Key) (Nonce := Nonce) (Bytes := Bytes)
}.
Definition with_tables (s : Store) t : Store := mk_store (inline_threshold_bytes s) (ring_buffer_max_bytes s) t (rows s).
Definition with_rows (s : Store) r : Store := mk_store (inline_threshold_bytes s) (ring_buffer_max_bytes s) (tables s) r.
Definition keys (s : Store) : uuid -> result Key EvidenceError := SynthesisStore.scope_key (rows s).

(** ** Statements and transactions *)

Definition upcoming (s : Store) : Tick := next (rows s).
Definition advance (s : Store) : Store := with_rows s (advance_tape (rows s)).
(** One statement; [None] is a violated constraint. *)
Definition execute {A} (run : Tables -> option (Tables * A)) : eff Store EvidenceError A := fun s =>
  let s' := advance s in
  if fails (upcoming s) then (s', Err Sqlite)
  else match run (tables s) with
       | None => (s', Err Sqlite)
       | Some (t, a) => (with_tables s' t, Ok a)
       end.
Definition query {A} (f : Tables -> A) : eff Store EvidenceError A := execute (fun t => Some (t, f t)).
Definition update (f : Tables -> Tables) : eff Store EvidenceError unit := execute (fun t => Some (f t, tt)).
Definition lift {A} (r : result A EvidenceError) : eff Store EvidenceError A := fun s => (s, r).
Definition fetch_key (scope : uuid) : eff Store EvidenceError Key := fun s => (s, keys s scope).
(** The random bytes and the time the next statement goes with. *)
Definition draw : eff Store EvidenceError Tick := fun s => (s, Ok (upcoming s)).
(** A transaction over all tables. *)
Definition transaction {A} (body : eff Store EvidenceError A) : eff Store EvidenceError A := fun s =>
  let s1 := advance s in
  if fails (upcoming s) then (s1, Err Sqlite)
  else
    let back s' := mk_store (inline_threshold_bytes s) (ring_buffer_max_bytes s) (tables s)
                     (with_conn (rows s') (conn (rows s))) in
    match body s1 with
    | (s2, Err e) => (back s2, Err e)
    | (s2, Ok a) => let s3 := advance s2 in if fails (upcoming s2) then (back s3, Err Sqlite) else (s3, Ok a)
    end.
(** A call on the rows of [SynthesisStore]. *)
Definition on_rows {A} (m : eff (EvidenceStore (Key := Key) (Nonce := Nonce) (Bytes := Bytes)) EvidenceError A) :
    eff Store EvidenceError A := fun s =>
  let '(r, a) := m (rows s) in (with_rows s r, a).

(** ** Sealing *)

Definition cek_wrap_aad (h : Hash) : list N := string_bytes "cek_wrap:v1:" ++ hash_bytes h.
Definition ingest_aad (scope id : uuid) (h : Hash) : list N := be_bytes 16 scope ++ be_bytes 16 id ++ hash_bytes h.
Definition body_table_aad (h : Hash) : list N := string_bytes "body_store:v1" ++ hash_bytes h.
Definition ring_buffer_aad (scope : uuid) : list N := string_bytes "ring_buffer:v1" ++ be_bytes 16 scope.
Definition seal (k : Key) (n : Nonce) (plaintext aad : list N) : result (list N) EvidenceError :=
  ok_or (encrypt_aead k n plaintext aad) (CryptoFailed "aead").
Definition unseal (k : Key) (n : Nonce) (ciphertext aad : list N) : result (list N) EvidenceError :=
  ok_or (decrypt_aead k n ciphertext aad) (CryptoFailed "aead").
Definition wrap_cek (wrapper cek : Key) (n : Nonce) (h : Hash) : result (list N) EvidenceError :=
  seal wrapper n (key_bytes cek) (cek_wrap_aad h).
Definition unwrap_cek (wrapper : Key) (wrapped : list N) (n : Nonce) (h : Hash) : result Key EvidenceError :=
  let? plaintext := unseal wrapper n wrapped (cek_wrap_aad h) in
  ok_or (key_of plaintext) (Schema "unwrapped CEK has wrong length").
End Tables.

(** ** Reasoning about statements *)

Section Facts.
Context {Key Nonce Bytes Hash : Type} `{Countable Hash}.
Context {BE : Aead Key Nonce (list N)} {IN : Inhabited Nonce}.
Context {CH : ContentHashing Hash} {KB : KeyBytes Key}.
#[local] Notation Store := (@Store Key Nonce Bytes Hash _ _).
#[local] Notation Tables := (@Tables Nonce Hash _ _).
Implicit Types (s : Store) (t : Tables).

(** No statement to come fails. *)
Definition quiet s : Prop := Forall (fun tk => fails tk = false) (tape (rows s)).
(** What every call keeps: the keys, the configuration, and quiet. *)
Record moved s s' : Prop := mk_moved {
  mv_keys : keys s' = keys s;
  mv_inline : inline_threshold_bytes s' = inline_threshold_bytes s;
  mv_ring : ring_buffer_max_bytes s' = ring_buffer_max_bytes s;
  mv_quiet : quiet s -> quiet s'
}.
#[export] Instance moved_preorder : PreOrder moved.
Proof. split; [by split|]. intros s1 s2 s3 [] []. split; [congruence..|auto]. Qed.
(** From [s] to a store with the tables [t] and the same rows of [SynthesisStore]. *)
Record goes s t s' : Prop := mk_goes {
  go_moved : moved s s';
  go_tables : tables s' = t;
  go_conn : conn (rows s') = conn (rows s)
}.
Lemma goes_trans s1 t s2 t' s3 : goes s1 t s2 -> goes s2 t' s3 -> goes s1 t' s3.
Proof. intros [] []. split; [by etrans|done|congruence]. Qed.
Lemma goes_refl s : goes s (tables s) s.
Proof. by split. Qed.

Lemma quiet_tick s : quiet s -> fails (upcoming s) = false.
Proof. unfold quiet, upcoming, next. destruct (tape (rows s)); [done|]. by inv 1. Qed.
Lemma goes_advance s : goes s (tables s) (advance s).
Proof.
  split; [|done..]. split; try done. unfold quiet, advance. cbn. destruct (tape (rows s)); [done|]. by inv 1.
Qed.
Lemma goes_with_tables s t : goes s t (with_tables (advance s) t).
Proof. destruct (goes_advance s) as [[] _ _]. by split. Qed.

(** The weakest precondition of a call, and what it is for each construct. *)
Definition wp {A} (m : eff Store EvidenceError A) s (Q : result A EvidenceError -> Store -> Prop) : Prop :=
  Q (m s).2 (m s).1.
Lemma wp_elim {A} (m : eff Store EvidenceError A) s Q s' r : wp m s Q -> m s = (s', r) -> Q r s'.
Proof. unfold wp. by intros Hq E; rewrite E in Hq. Qed.
Lemma wp_mono {A} (m : eff Store EvidenceError A) s (P Q : result A EvidenceError -> Store -> Prop) :
  wp m s P -> (forall r s', P r s' -> Q r s') -> wp m s Q.
Proof. unfold wp. auto. Qed.
Lemma wp_try {A B} (m : eff Store EvidenceError A) (k : A -> eff Store EvidenceError B) s Q :
  wp m s (fun r s' => match r with Ok a => wp (k a) s' Q | Err e => Q (Err e) s' end) -> wp (try_eff m k) s Q.
Proof. unfold wp, try_eff. by destruct (m s) as [s' [a|e]]. Qed.
Lemma wp_bind {A B} (m : eff Store EvidenceError A) (k : A -> eff Store EvidenceError B) s (P : result A EvidenceError -> Store -> Prop) Q :
  wp m s P -> (forall s' e, P (Err e) s' -> Q (Err e) s') -> (forall s' a, P (Ok a) s' -> wp (k a) s' Q) -> wp (try_eff m k) s Q.
Proof. intros Hm He Ho. apply wp_try. eapply wp_mono; [exact Hm|]. intros [a|e] s' HP; auto. Qed.
Lemma wp_ret {A} (a : A) s Q : Q (Ok a) s -> wp (ret a) s Q.
Proof. done. Qed.
Lemma wp_lift {A} (r : result A EvidenceError) s Q : Q r s -> wp (lift r) s Q.
Proof. done. Qed.
Lemma wp_execute {A} (run : Tables -> option (Tables * A)) s (Q : result A EvidenceError -> Store -> Prop) :
  (forall s', goes s (tables s) s' -> ~ quiet s \/ run (tables s) = None -> Q (Err Sqlite) s') ->
  (forall t a s', run (tables s) = Some (t, a) -> goes s t s' -> Q (Ok a) s') -> wp (execute run) s Q.
Proof.
  intros He Ho. unfold wp, execute. destruct (fails (upcoming s)) eqn:Ef.
  - apply He; [apply goes_advance|]. left. intros Hq%quiet_tick. congruence.
  - destruct (run (tables s)) as [[t a]|] eqn:Er; cbn.
    + eapply Ho; [done|apply goes_with_tables].
    + apply He; [apply goes_advance|by right].
Qed.
Lemma wp_query {A} (f : Tables -> A) s (Q : result A EvidenceError -> Store -> Prop) :
  (forall s', goes s (tables s) s' -> ~ quiet s -> Q (Err Sqlite) s') ->
  (forall s', goes s (tables s) s' -> Q (Ok (f (tables s))) s') -> wp (query f) s Q.
Proof.
  intros He Ho. apply wp_execute; [|intros t a s' [= <- <-]; apply Ho]. intros s' Hs [Hq|Hn]; [by apply He|done].
Qed.
Lemma wp_update (f : Tables -> Tables) s (Q : result unit EvidenceError -> Store -> Prop) :
  (forall s', goes s (tables s) s' -> ~ quiet s -> Q (Err Sqlite) s') ->
  (forall s', goes s (f (tables s)) s' -> Q (Ok tt) s') -> wp (update f) s Q.
Proof.
  intros He Ho. apply wp_execute; [|intros t a s' [= <- <-]; apply Ho]. intros s' Hs [Hq|Hn]; [by apply He|done].
Qed.
Lemma wp_draw s Q : (forall tk, Q (Ok tk) s) -> wp draw s Q.
Proof. intros Hq. apply Hq. Qed.
Lemma wp_fetch_key scope s Q : Q (keys s scope) s -> wp (fetch_key scope) s Q.
Proof. done. Qed.
(** A transaction that fails leaves the tables as they were. *)
Lemma wp_transaction {A} (body : eff Store EvidenceError A) s (Q : result A EvidenceError -> Store -> Prop) :
  (forall s', goes s (tables s) s' -> ~ quiet s -> Q (Err Sqlite) s') ->
  (forall s1, goes s (tables s) s1 ->
     wp body s1 (fun r s2 => moved s s2 /\
       match r with
       | Err e => forall s', goes s (tables s) s' -> Q (Err e) s'
       | Ok a => forall s', goes s2 (tables s2) s' -> Q (Ok a) s'
       end)) ->
  wp (transaction body) s Q.
Proof.
  intros He Hb. unfold wp, transaction. specialize (Hb (advance s) (goes_advance s)). unfold wp in Hb.
  destruct (fails (upcoming s)) eqn:Ef; cbn.
  { apply He; [apply goes_advance|]. intros Hq%quiet_tick. congruence. }
  destruct (body (advance s)) as [s2 [a|e]]; cbn in Hb |- *; destruct Hb as [[Hk Hi Hr Hq] Hb].
  - destruct (fails (upcoming s2)) eqn:Ef2; cbn; [|apply Hb, goes_advance].
    destruct (goes_advance s2) as [[Hk' Hi' Hr' Hq'] _ _].
    apply He; [|intros Hs; apply Hq, quiet_tick in Hs; congruence]. split; [|done..].
    split; [by rewrite <- Hk, <- Hk'|done..|]. intros Hs. by apply Hq', Hq.
  - apply Hb. split; [|done..]. split; [by rewrite <- Hk|done..].
Qed.
End Facts.

(** One step of a call's weakest precondition. *)
Ltac wp_step :=
  match goal with
  | |- wp (try_eff _ _) _ _ => apply wp_try
  | |- wp (query _) _ _ => apply wp_query; [intros ? ? ?|intros ? ?]
  | |- wp (update _) _ _ => apply wp_update; [intros ? ? ?|intros ? ?]
  | |- wp (execute _) _ _ => apply wp_execute; [intros ? ? ?|intros ? ? ? ? ?]
  | |- wp draw _ _ => apply wp_draw; intros ?
  | |- wp (ret _) _ _ => apply wp_ret
  | |- wp (lift _) _ _ => apply wp_lift
  | |- wp (fetch_key _) _ _ => apply wp_fetch_key
  end.

(** ** A concrete store *)

(** Keys and bytes are numbers; sealing writes the key in front; a text is its own
    hash.  Bodies of up to two bytes are inline; the ring buffer holds 100 bytes. *)
Module Concrete.
Definition plain_cipher : Aead N unit (list N).
Proof.
  refine {| encrypt_aead k _ pt _ := Some (k :: pt);
            decrypt_aead k _ ct _ := match ct with k' :: pt => if (k' =? k)%N then Some pt else None | [] => None end |}.
  intros k n pt aad ct [= <-]. cbn. by rewrite N.eqb_refl.
Defined.
Definition own_hash : ContentHashing (list N) := {| content_hash p := p; hash_bytes h := h |}.
Definition byte_keys : KeyBytes N.
Proof. refine {| key_bytes k := [k]; key_of l := match l with [k] => Some k | _ => None end |}. done. Defined.
#[export] Existing Instances plain_cipher own_hash byte_keys hash_order_id.
#[global] Notation demo_store := (Store (Key := N) (Nonce := unit) (Bytes := list N) (Hash := list N)).
(** Scope [n] has the key [n]. *)
Definition empty_store : demo_store := mk_store 2 100 no_tables (SynthesisStore.mk_store (mk_db ∅ ∅) (fun sc => Ok sc) []).
End Concrete.
