(* ===== verification/RingBuffer.v ===== *)
(** * The ring buffer of noise ([evidence_store/src/store.rs])

    Noise is kept for a while, sealed under the key of its scope, in a table capped by
    the bytes of its payloads.  An insertion evicts the rows that come first by
    priority, then by last access, then by rowid, until the rest fits. *)

From stdpp Require Import sorting.
From S2P Require Import Prelude SynthesisStore EvidenceTables.

(** The key of the eviction order, compared lexicographically. *)
Definition rank : Type := Z * Z * N.
Definition rank_le (x y : rank) : Prop :=
  (x.1.1 < y.1.1)%Z \/ x.1.1 = y.1.1 /\ ((x.1.2 < y.1.2)%Z \/ x.1.2 = y.1.2 /\ (x.2 <= y.2)%N).
#[export] Instance rank_le_dec : RelDecision rank_le.
Proof. intros x y. unfold rank_le. apply _. Defined.
#[export] Instance rank_le_total : Total rank_le.
Proof. intros [[a b] c] [[a' b'] c']. unfold rank_le; cbn. lia. Qed.
#[export] Instance rank_le_trans : Transitive rank_le.
Proof. intros [[a b] c] [[a' b'] c'] [[a'' b''] c'']. unfold rank_le; cbn. lia. Qed.

Section Ring.
Context {Key Nonce Bytes Hash : Type} `{Countable Hash}.
Context {BE : Aead Key Nonce (list N)} {IN : Inhabited Nonce}.
Context {CH : ContentHashing Hash} {KB : KeyBytes Key}.
#[local] Notation Store := (@Store Key Nonce Bytes Hash _ _).
#[local] Notation Tables := (@Tables Nonce Hash _ _).
#[local] Notation RingRow := (@RingRow Nonce).

(** ** Eviction *)

(** ORDER BY priority ASC, last_accessed_at ASC, id ASC. *)
Definition ring_rank (kv : N * RingRow) : rank := (priority kv.2, last_accessed_at kv.2, kv.1).
Definition ring_before (x y : N * RingRow) : Prop := rank_le (ring_rank x) (ring_rank y).
#[export] Instance ring_before_dec : RelDecision ring_before.
Proof. intros x y. unfold ring_before. apply _. Defined.
Definition eviction_order (m : gmap N RingRow) : list (N * RingRow) := merge_sort ring_before (map_to_list m).
Definition payload_total (l : list (N * RingRow)) : Z := foldr (fun kv n => payload_size kv.2 + n)%Z 0%Z l.
(** SELECT COALESCE(SUM(payload_size), 0): a sum beyond [i64] is an error. *)
Definition select_total : eff Store EvidenceError Z :=
  execute (fun t => let total := payload_total (map_to_list (ring_buffer t)) in
                    if (Z.of_N i64_max <? total)%Z then None else Some (t, total)).
(** DELETE .. WHERE id = (SELECT id .. LIMIT 1), with the number of rows changed. *)
Definition delete_first : eff Store EvidenceError nat :=
  execute (fun t => match eviction_order (ring_buffer t) with
                    | [] => Some (t, O)
                    | kv :: _ => Some (with_ring t (delete kv.1 (ring_buffer t)) (ring_seq t), 1%nat)
                    end).
Fixpoint evict_fuel (fuel : nat) (cap : Z) : eff Store EvidenceError unit :=
  match fuel with
  | O => ret tt
  | S fuel =>
      do? total := select_total in
      if (total <=? cap)%Z then ret tt
      else do? rows_changed := delete_first in
           if (rows_changed =? 0)%nat then ret tt else evict_fuel fuel cap
  end.
(** Every turn but the last deletes a row. *)
Definition evict (cap : Z) : eff Store EvidenceError unit := fun s =>
  evict_fuel (S (size (ring_buffer (tables s)))) cap s.
Definition ring_cap (s : Store) : Z := Z.of_N (N.min (ring_buffer_max_bytes s) i64_max).

(** ** Operations *)

Definition insert_ring (row : RingRow) : eff Store EvidenceError unit :=
  execute (fun t => let id := (ring_seq t + 1)%N in
                    if (i64_max <? id)%N then None else Some (with_ring t (<[id := row]> (ring_buffer t)) id, tt)).
Definition ring_payload (ciphertext : list N) : Z :=
  Z.min (Z.of_nat (length ciphertext + AEAD_NONCE_LEN)) (Z.of_N i64_max).
Definition insert_capped (cap : Z) (scope : uuid) (body : list N) (prio : Z) : eff Store EvidenceError unit :=
  do? key := fetch_key scope in
  do? tk := draw in
  do? ciphertext := lift (seal key (tick_nonce tk) body (ring_buffer_aad scope)) in
  let row := mk_ring scope ciphertext (tick_nonce tk) (ring_payload ciphertext) (tick_now tk) (tick_now tk) prio in
  transaction (do? _ := insert_ring row in evict cap).
Definition ring_buffer_insert_with_priority (scope : uuid) (body : list N) (prio : Z) : eff Store EvidenceError unit := fun s =>
  insert_capped (ring_cap s) scope body prio s.
Definition ring_buffer_insert (scope : uuid) (body : list N) : eff Store EvidenceError unit :=
  ring_buffer_insert_with_priority scope body 0.

(** [RingBufferEntry]. *)
Record RingBufferEntry : Type := mk_entry { re_id : N; re_scope : uuid; re_body : list N; re_created_at : Z }.
(** ORDER BY created_at ASC, id ASC. *)
Definition window_rank (kv : N * RingRow) : rank := (r_created_at kv.2, 0%Z, kv.1).
Definition window_before (x y : N * RingRow) : Prop := rank_le (window_rank x) (window_rank y).
#[export] Instance window_before_dec : RelDecision window_before.
Proof. intros x y. unfold window_before. apply _. Defined.
Definition scope_window (scope : uuid) (m : gmap N RingRow) : list (N * RingRow) :=
  merge_sort window_before (List.filter (fun kv => (r_scope kv.2 =? scope)%N) (map_to_list m)).
Fixpoint open_entries (key : Key) (scope : uuid) (l : list (N * RingRow)) : result (list RingBufferEntry) EvidenceError :=
  match l with
  | [] => Ok []
  | (id, row) :: l =>
      let? pt := unseal key (r_nonce row) (r_body row) (ring_buffer_aad scope) in
      let? out := open_entries key scope l in
      Ok (mk_entry id scope pt (r_created_at row) :: out)
  end.
Definition accessed (now : Z) (r : RingRow) : RingRow :=
  mk_ring (r_scope r) (r_body r) (r_nonce r) (payload_size r) (r_created_at r) now (priority r).
Definition with_priority (p : Z) (r : RingRow) : RingRow :=
  mk_ring (r_scope r) (r_body r) (r_nonce r) (payload_size r) (r_created_at r) (last_accessed_at r) p.
Definition touch_ids (now : Z) (ids : list N) (m : gmap N RingRow) : gmap N RingRow :=
  foldr (alter (accessed now)) m ids.

(** SQLite's limit on the parameters of a statement. *)
Context (max_variables : nat).
Definition ring_buffer_read_window (scope : uuid) : eff Store EvidenceError (list RingBufferEntry) :=
  do? key := fetch_key scope in
  do? rows := query (fun t => scope_window scope (ring_buffer t)) in
  do? out := lift (open_entries key scope rows) in
  match out with
  | [] => ret []
  | _ =>
      do? tk := draw in
      do? _ := execute (fun t =>
        if (max_variables <? S (length out))%nat then None
        else Some (with_ring t (touch_ids (tick_now tk) (re_id <$> out) (ring_buffer t)) (ring_seq t), tt)) in
      ret out
  end.
Definition ring_buffer_current_size : eff Store EvidenceError N := do? total := select_total in ret (Z.to_N total).
Definition ring_buffer_len : eff Store EvidenceError nat := query (fun t => size (ring_buffer t)).
Definition ring_buffer_clear : eff Store EvidenceError unit := update (fun t => with_ring t ∅ (ring_seq t)).
Definition delete_ring_buffer_entry (id : N) : eff Store EvidenceError unit :=
  update (fun t => with_ring t (delete id (ring_buffer t)) (ring_seq t)).
(** An UPDATE of one row that must exist. *)
Definition alter_entry (f : RingRow -> RingRow) (id : N) : eff Store EvidenceError unit :=
  do? changed := execute (fun t => Some (with_ring t (alter f id (ring_buffer t)) (ring_seq t),
                                         bool_decide (is_Some (ring_buffer t !! id)))) in
  ensure changed (NotFound "ring_buffer entry" id).
Definition ring_buffer_touch (id : N) : eff Store EvidenceError unit :=
  do? tk := draw in alter_entry (accessed (tick_now tk)) id.
Definition ring_buffer_set_priority (id : N) (p : Z) : eff Store EvidenceError unit := alter_entry (with_priority p) id.
End Ring.

(** ** What the operations do *)

Section Facts.
Context {Key Nonce Bytes Hash : Type} `{Countable Hash}.
Context {BE : Aead Key Nonce (list N)} {IN : Inhabited Nonce}.
Context {CH : ContentHashing Hash} {KB : KeyBytes Key}.
#[local] Notation Store := (@Store Key Nonce Bytes Hash _ _).
#[local] Notation RingRow := (@RingRow Nonce).
Implicit Types (s : Store) (m : gmap N RingRow) (l : list (N * RingRow)).

(** The longest end of the eviction order that fits: what eviction is to keep. *)
Fixpoint kept (cap : Z) l : list (N * RingRow) :=
  match l with
  | [] => []
  | _ :: l' => if (payload_total l <=? cap)%Z then l else kept cap l'
  end.

#[export] Instance payload_total_perm : Proper ((≡ₚ) ==> (=)) (payload_total (Nonce := Nonce)).
Proof. intros l l' Hp. unfold payload_total. induction Hp; cbn [foldr]; lia. Qed.
#[export] Instance ring_before_total : Total (ring_before (Nonce := Nonce)).
Proof. intros x y. apply rank_le_total. Qed.
#[export] Instance ring_before_trans : Transitive (ring_before (Nonce := Nonce)).
Proof. intros x y z. apply rank_le_trans. Qed.
#[export] Instance window_before_total : Total (window_before (Nonce := Nonce)).
Proof. intros x y. apply rank_le_total. Qed.
#[export] Instance window_before_trans : Transitive (window_before (Nonce := Nonce)).
Proof. intros x y z. apply rank_le_trans. Qed.

Lemma order_perm m : eviction_order m ≡ₚ map_to_list m.
Proof. apply merge_sort_Permutation. Qed.
Lemma order_sorted m : StronglySorted ring_before (eviction_order m).
Proof. apply (StronglySorted_merge_sort ring_before). Qed.
Lemma order_nodup m : NoDup (eviction_order m).*1.
Proof. rewrite order_perm. apply NoDup_fst_map_to_list. Qed.
Lemma order_elem m id row : (id, row) ∈ eviction_order m <-> m !! id = Some row.
Proof. by rewrite order_perm, elem_of_map_to_list. Qed.
Lemma order_map m : list_to_map (eviction_order m) = m.
Proof.
  rewrite (list_to_map_proper _ (map_to_list m)); [apply list_to_map_to_list|apply order_nodup|apply order_perm].
Qed.
(** The order has one listing: ranks differ by the rowid at least. *)
Lemma order_unique m l : l ≡ₚ map_to_list m -> StronglySorted ring_before l -> eviction_order m = l.
Proof.
  intros Hp Hs. apply (StronglySorted_unique_strong ring_before); [|apply order_sorted|done|by rewrite order_perm].
  intros [i x] [j y] Hx Hy Hxy Hyx. rewrite order_elem in Hx. rewrite Hp, elem_of_map_to_list in Hy.
  assert (i = j) as ->. { unfold ring_before, rank_le, ring_rank in *. cbn in *. lia. } congruence.
Qed.
Lemma order_delete m kv l : eviction_order m = kv :: l -> eviction_order (delete kv.1 m) = l.
Proof.
  intros E. assert (Hs := order_sorted m). rewrite E in Hs. apply order_unique; [|by inv Hs].
  apply (Permutation_cons_inv (a := kv)). rewrite <- E, order_perm. destruct kv as [i x]. symmetry.
  apply map_to_list_delete. apply order_elem. rewrite E. by left.
Qed.

Lemma kept_suffix cap l : exists gone, l = gone ++ kept cap l.
Proof.
  induction l as [|x l [gone IH]]; [by exists []|]. cbn [kept]. case_match; [by exists []|].
  exists (x :: gone). cbn. by rewrite <- IH.
Qed.
Lemma kept_fits cap l : (0 <= cap)%Z -> (payload_total (kept cap l) <= cap)%Z.
Proof. intros Hc. induction l as [|x l IH]; [done|]. cbn [kept]. case_match; [lia|done]. Qed.
Lemma kept_longest cap l gone x rest : l = gone ++ x :: rest -> (payload_total (x :: rest) <= cap)%Z ->
  exists more, kept cap l = more ++ x :: rest.
Proof.
  intros -> Hc. induction gone as [|y gone IH]; cbn [app kept].
  - exists []. cbn in *. destruct (_ <=? _)%Z eqn:E; [done|]. bool_to_prop. lia.
  - case_match; [by exists (y :: gone)|done].
Qed.

Definition nonneg l : Prop := Forall (fun kv => 0 <= payload_size kv.2)%Z l.
Lemma nonneg_total l : nonneg l -> (0 <= payload_total l)%Z.
Proof. induction 1; [done|]. unfold payload_total in *. cbn [foldr]. lia. Qed.
Lemma payload_total_app l l' : payload_total (l ++ l') = (payload_total l + payload_total l')%Z.
Proof. unfold payload_total. induction l; cbn [app foldr]; lia. Qed.
Lemma nonneg_member l kv : nonneg l -> kv ∈ l -> (payload_size kv.2 <= payload_total l)%Z.
Proof.
  induction 1 as [|x l Hx Hl IH]; [by intros ?%not_elem_of_nil|]. apply nonneg_total in Hl.
  unfold payload_total in *. cbn [foldr]. intros [->|Hin]%elem_of_cons; [lia|]. specialize (IH Hin). lia.
Qed.

Lemma with_ring_id (t : Tables (Nonce := Nonce) (Hash := Hash)) : with_ring t (ring_buffer t) (ring_seq t) = t.
Proof. by destruct t. Qed.

(** Eviction keeps the longest end that fits; its fuel is enough, and it ends well
    unless a statement fails or the sum does not fit [i64]. *)
Lemma evict_fuel_spec cap fuel l s :
  eviction_order (ring_buffer (tables s)) = l -> (length l < fuel)%nat -> nonneg l ->
  wp (evict_fuel fuel cap) s (fun r s' =>
    moved s s' /\ match r with
                  | Err e => e = Sqlite /\ (~ quiet s \/ (Z.of_N i64_max < payload_total l)%Z)
                  | Ok _ => goes s (with_ring (tables s) (list_to_map (kept cap l)) (ring_seq (tables s))) s'
                  end).
Proof.
  revert l s. induction fuel as [|fuel IH]; intros l s El Hf Hn; [lia|]. cbn [evict_fuel].
  assert (Hkeep : list_to_map l = ring_buffer (tables s)) by (rewrite <- El; apply order_map).
  assert (Htot : payload_total (map_to_list (ring_buffer (tables s))) = payload_total l) by (by rewrite <- order_perm, El).
  apply wp_try. unfold select_total. apply wp_execute; cbn zeta; rewrite Htot.
  { intros s1 [] [Hq|Hq]; (split; [done|]); (split; [done|]); [by left|]. right. destruct (_ <? _)%Z eqn:E; [by bool_to_prop|done]. }
  intros t total s1 Ht Hs1. destruct (_ <? _)%Z; [done|]. injection Ht as <- <-.
  destruct (payload_total l <=? cap)%Z eqn:Ec.
  - apply wp_ret. split; [apply Hs1|]. destruct Hs1 as [Hm Ht Hc]. split; [done| |done].
    assert (kept cap l = l) as ->. { destruct l; [done|]. cbn [kept]. by rewrite Ec. }
    by rewrite Hkeep, with_ring_id.
  - apply wp_try. unfold delete_first. apply wp_execute.
    { intros s2 Hs2 Hq. split; [etrans; [apply Hs1|apply Hs2]|]. split; [done|]. left. destruct Hq as [Hq|Hq].
      - intros Hs. by apply Hq, (mv_quiet _ _ (go_moved _ _ _ Hs1)).
      - exfalso. by destruct (eviction_order (ring_buffer (tables s1))). }
    intros t changed s2 Ht Hs2. rewrite (go_tables _ _ _ Hs1), El in Ht. destruct l as [|kv l]; injection Ht as <- <-.
    + apply wp_ret. split; [etrans; [apply Hs1|apply Hs2]|]. cbn [kept]. rewrite Hkeep.
      rewrite with_ring_id. by eapply goes_trans.
    + cbn [Nat.eqb]. apply order_delete in El. cbn [length] in Hf. apply Forall_cons in Hn as [Hk Hl].
      assert (Hs := goes_trans _ _ _ _ _ Hs1 Hs2).
      eapply wp_mono; [apply (IH l s2); [by rewrite (go_tables _ _ _ Hs)|lia|done]|].
      intros r s3 [H3 Hr]. split; [etrans; [apply Hs|exact H3]|]. destruct r as [[]|].
      * cbn [kept]. rewrite Ec. rewrite (go_tables _ _ _ Hs) in Hr. apply (goes_trans _ _ _ _ _ Hs Hr).
      * destruct Hr as [-> [Hq|Hq]]; (split; [done|]).
        -- left. intros Hq'. by apply Hq, (mv_quiet _ _ (go_moved _ _ _ Hs)).
        -- right. unfold payload_total in *. cbn [foldr]. lia.
Qed.

Lemma wp_evict cap s Q : wp (evict_fuel (S (size (ring_buffer (tables s)))) cap) s Q -> wp (evict cap) s Q.
Proof. done. Qed.

(** The table is well formed: no rowid beyond the sequence, no negative size. *)
Definition ring_wf (t : Tables (Nonce := Nonce) (Hash := Hash)) : Prop :=
  forall id row, ring_buffer t !! id = Some row -> (id <= ring_seq t)%N /\ (0 <= payload_size row)%Z.
Lemma order_nonneg m : (forall id row, m !! id = Some row -> (0 <= payload_size row)%Z) -> nonneg (eviction_order m).
Proof. intros Hm. apply Forall_forall. intros [id row] Hin. apply order_elem in Hin. by eapply Hm. Qed.
Lemma kept_lookup cap m id row :
  (list_to_map (kept cap (eviction_order m)) : gmap N RingRow) !! id = Some row -> (id, row) ∈ kept cap (eviction_order m) /\ m !! id = Some row.
Proof.
  intros Hl%elem_of_list_to_map_2. split; [done|]. destruct (kept_suffix cap (eviction_order m)) as [gone E].
  apply order_elem. rewrite E. apply elem_of_app. by right.
Qed.
Lemma kept_before cap m x y : x ∈ eviction_order m -> x ∉ kept cap (eviction_order m) -> y ∈ kept cap (eviction_order m) -> ring_before x y.
Proof.
  intros Hx Hnx Hy. destruct (kept_suffix cap (eviction_order m)) as [gone E]. assert (Hs := order_sorted m).
  rewrite E in Hx, Hs. apply elem_of_app in Hx as [Hx|Hx]; [|done]. clear E. induction gone as [|z gone IH]; [by apply not_elem_of_nil in Hx|].
  cbn in Hs. apply StronglySorted_inv in Hs as [Hss Hf]. apply elem_of_cons in Hx as [->|Hx]; [|by apply IH].
  rewrite Forall_forall in Hf. apply Hf, elem_of_app. by right.
Qed.

(** A row that holds [body] for [scope], just written. *)
Definition holds s (scope : uuid) (body : list N) (prio : Z) (row : RingRow) : Prop :=
  r_scope row = scope /\ priority row = prio /\ last_accessed_at row = r_created_at row /\
  payload_size row = ring_payload (r_body row) /\
  exists key, keys s scope = Ok key /\ unseal key (r_nonce row) (r_body row) (ring_buffer_aad scope) = Ok body.
Definition next_id s : N := (ring_seq (tables s) + 1)%N.

Lemma ring_insert_spec scope body prio s : ring_wf (tables s) ->
  wp (ring_buffer_insert_with_priority scope body prio) s (fun r s' =>
    moved s s' /\ conn (rows s') = conn (rows s) /\
    match r with
    | Err e => tables s' = tables s /\
        (keys s scope = Err e \/
         (exists key n, keys s scope = Ok key /\ encrypt_aead key n body (ring_buffer_aad scope) = None) \/
         ~ quiet s \/ (i64_max < next_id s)%N \/
         exists row, holds s scope body prio row /\
           (Z.of_N i64_max < payload_total (map_to_list (<[next_id s := row]> (ring_buffer (tables s)))))%Z)
    | Ok _ => exists row, holds s scope body prio row /\
        tables s' = with_ring (tables s)
          (list_to_map (kept (ring_cap s) (eviction_order (<[next_id s := row]> (ring_buffer (tables s)))))) (next_id s)
    end).
Proof.
  intros Hwf. change (wp (ring_buffer_insert_with_priority scope body prio) s) with (wp (insert_capped (ring_cap s) scope body prio) s).
  unfold insert_capped. apply wp_try, wp_fetch_key. destruct (keys s scope) as [key|e] eqn:Ek; [|do 3 (split; [done|]); by left].
  apply wp_try, wp_draw. intros tk. apply wp_try, wp_lift. unfold seal.
  destruct (encrypt_aead key _ body _) as [c|] eqn:Ec; cbn [ok_or]; [|do 3 (split; [done|]); right; left; by exists key, (tick_nonce tk)].
  set (row := mk_ring _ _ _ _ _ _ _).
  assert (Hrow : holds s scope body prio row).
  { repeat split; try done. exists key. split; [done|]. unfold unseal, row. cbn [r_nonce r_body]. by rewrite (decrypt_encrypt _ _ _ _ _ Ec). }
  apply wp_transaction; [intros s' [Hm Ht Hc] Hq; do 3 (split; [done|]); right; right; by left|]. intros s1 Hs1.
  assert (Et := go_tables _ _ _ Hs1). apply wp_try. unfold insert_ring. cbn zeta. apply wp_execute.
  - intros s2 Hs2 Hq. split; [etrans; [apply Hs1|apply Hs2]|]. intros s' [Hm Ht Hc]. do 3 (split; [done|]). do 2 right.
    destruct Hq as [Hq|Hq]; [left; intros Hs; by apply Hq, (mv_quiet _ _ (go_moved _ _ _ Hs1))|]. right; left.
    rewrite Et in Hq. unfold next_id. destruct (_ <? _)%N eqn:E; [by bool_to_prop|done].
  - intros t [] s2 Ht Hs2. rewrite Et in Ht. destruct (_ <? _)%N; [done|]. injection Ht as <-. fold (next_id s) in *.
    assert (Hs := goes_trans _ _ _ _ _ Hs1 Hs2). assert (Et2 := go_tables _ _ _ Hs2).
    apply wp_evict.
    eapply wp_mono; [apply (evict_fuel_spec _ _ _ s2 eq_refl)|].
    + rewrite (Permutation_length (order_perm _)), length_map_to_list. lia.
    + apply order_nonneg. intros id r. rewrite Et2. cbn [with_ring ring_buffer].
      rewrite lookup_insert. case_decide; [intros [= <-]; unfold row, ring_payload; cbn; lia|intros Hr; by apply Hwf in Hr as [_ ?]].
    + intros r s3 [H3 Hr]. split; [etrans; [apply Hs|done]|]. destruct r as [[]|e].
      * intros s' Hs'. rewrite Et2 in Hr. cbn [with_ring ring_buffer ring_seq] in Hr.
        assert (Hg := goes_trans _ _ _ _ _ Hs (goes_trans _ _ _ _ _ Hr Hs')). destruct Hg as [Hm Ht Hc].
        split; [done|]. split; [done|]. exists row. split; [done|]. rewrite Ht, (go_tables _ _ _ Hr). done.
      * intros s' [Hm Ht Hc]. do 3 (split; [done|]). do 2 right. destruct Hr as [_ [Hq|Hq]].
        -- left. intros Hq'. by apply Hq, (mv_quiet _ _ (go_moved _ _ _ Hs)).
        -- right; right. exists row. split; [done|]. rewrite Et2, order_perm in Hq. exact Hq.
Qed.

Lemma kept_elem cap gone x rest : NoDup (gone ++ x :: rest) -> nonneg (gone ++ x :: rest) ->
  x ∈ kept cap (gone ++ x :: rest) <-> (payload_total (x :: rest) <= cap)%Z.
Proof.
  intros Hnd Hno. split.
  - induction gone as [|y gone IH]; cbn [app kept] in *; destruct (_ <=? _)%Z eqn:Ec; bool_to_prop; try done.
    + intros Hin. exfalso. apply NoDup_cons in Hnd as [Hx _]. apply Hx. destruct (kept_suffix cap rest) as [g E].
      rewrite E. apply elem_of_app. by right.
    + intros _. rewrite app_comm_cons in Ec, Hno. apply Forall_app in Hno as [Hg _]. apply nonneg_total in Hg.
      rewrite payload_total_app in Ec. lia.
    + apply NoDup_cons in Hnd as [_ Hnd]. apply Forall_cons in Hno as [_ Hno]. by apply IH.
  - intros Hc. destruct (kept_longest cap _ gone x rest eq_refl Hc) as [more ->]. apply elem_of_app. right. by left.
Qed.

Lemma ring_before_antisym m x y : x ∈ eviction_order m -> y ∈ eviction_order m -> ring_before x y -> ring_before y x -> x = y.
Proof.
  destruct x as [i x], y as [j y]. rewrite !order_elem. intros Hx Hy Hxy Hyx.
  assert (i = j) as -> by (unfold ring_before, rank_le, ring_rank in *; cbn in *; lia). congruence.
Qed.
Lemma kept_exact cap m : (forall id row, m !! id = Some row -> (0 <= payload_size row)%Z) ->
  let m' : gmap N RingRow := list_to_map (kept cap (eviction_order m)) in
  m' ⊆ m /\
  (forall gone x rest, eviction_order m = gone ++ x :: rest -> m' !! x.1 = Some x.2 <-> (payload_total (x :: rest) <= cap)%Z) /\
  ((0 <= cap)%Z -> (payload_total (map_to_list m') <= cap)%Z) /\
  forall i row, m !! i = Some row -> (cap < payload_size row)%Z -> forall id old, m' !! id = Some old -> ~ ring_before (id, old) (i, row).
Proof.
  intros Hm m'. assert (Hno : nonneg (eviction_order m)) by by apply order_nonneg.
  assert (Hnd := order_nodup m). destruct (kept_suffix cap (eviction_order m)) as [g Eg].
  assert (Hnk : NoDup (kept cap (eviction_order m)).*1).
  { rewrite Eg, fmap_app in Hnd. by apply NoDup_app in Hnd as (_ & _ & ?). }
  assert (Hin : forall x, m' !! x.1 = Some x.2 <-> x ∈ kept cap (eviction_order m)).
  { intros [i x]. cbn. split; [apply elem_of_list_to_map_2|by apply elem_of_list_to_map_1]. }
  assert (Hex : forall gone x rest, eviction_order m = gone ++ x :: rest -> m' !! x.1 = Some x.2 <-> (payload_total (x :: rest) <= cap)%Z).
  { intros gone x rest E. rewrite Hin, E. rewrite E in Hnd, Hno. apply kept_elem; [by eapply NoDup_fmap_1|done]. }
  split; [|split; [done|split]].
  - apply map_subseteq_spec. intros id row E. by apply kept_lookup in E as [_ ?].
  - intros Hc. unfold m'. rewrite map_to_list_to_map by done. by apply kept_fits.
  - intros i row Hi Hc id old Ho Hb. apply order_elem in Hi as Hi'. apply (Hin (id, old)) in Ho as Hk.
    assert (Hio : (id, old) ∈ eviction_order m) by (rewrite Eg; apply elem_of_app; by right).
    assert (Hsort := order_sorted m). apply list_elem_of_split in Hio as (gone & rest & E).
    apply (Hex _ _ _ E) in Ho. assert (Hn2 := Hno). rewrite E in Hi', Hsort, Hn2. apply Forall_app in Hn2 as [_ Hn2].
    assert (Hout : (i, row) ∉ (id, old) :: rest) by (intros Hr; apply (nonneg_member _ _ Hn2) in Hr; cbn [snd] in Hr; lia).
    apply elem_of_app in Hi' as [Hg|]; [|done]. apply Hout, elem_of_cons. left. symmetry.
    apply (ring_before_antisym m); [rewrite E; set_solver|by apply order_elem|done|].
    clear -Hg Hsort. induction gone as [|z gone IH]; [by apply not_elem_of_nil in Hg|]. cbn in Hsort.
    apply StronglySorted_inv in Hsort as [Hs Hf]. apply elem_of_cons in Hg as [->|Hg]; [|by apply IH].
    rewrite Forall_forall in Hf. apply Hf. set_solver.
Qed.

Lemma inserted_wf s scope body prio row : ring_wf (tables s) -> holds s scope body prio row ->
  forall id r, <[next_id s := row]> (ring_buffer (tables s)) !! id = Some r -> (id <= next_id s)%N /\ (0 <= payload_size r)%Z.
Proof.
  intros Hwf (_ & _ & _ & Hp & _) id r. rewrite lookup_insert. case_decide; subst.
  - intros [= <-]. split; [done|]. rewrite Hp. unfold ring_payload. lia.
  - intros E. apply Hwf in E. unfold next_id. lia.
Qed.

(** C18: An insertion of noise is all or nothing, and what it evicts is exact: of the
    old rows and the new one, in the order of priority, last access and age, those are
    kept from which on all fit under the cap.  A row that alone exceeds the cap takes
    with it every row that comes before it.  (Several documents call the buffer
    first-in first-out; the statement of [store.rs] orders as said here, and only rows
    of one priority and one last access leave in the order they came.)  No rowid is
    used twice, and the insertion succeeds unless a statement fails, sealing fails, or a number leaves [i64]. *)
Theorem ring_insert_exact scope body prio s s' r :
  ring_wf (tables s) -> ring_buffer_insert_with_priority scope body prio s = (s', r) ->
  ring_wf (tables s') /\
  match r with
  | Err _ => tables s' = tables s
  | Ok _ => exists row, holds s scope body prio row /\ ring_buffer (tables s) !! next_id s = None /\
      let m := <[next_id s := row]> (ring_buffer (tables s)) in
      let m' := ring_buffer (tables s') in
      m' ⊆ m /\
      (forall gone x rest, eviction_order m = gone ++ x :: rest ->
         m' !! x.1 = Some x.2 <-> (payload_total (x :: rest) <= ring_cap s)%Z) /\
      (payload_total (map_to_list m') <= ring_cap s)%Z /\
      ((ring_cap s < payload_size row)%Z -> forall id old, m' !! id = Some old -> ~ ring_before (id, old) (next_id s, row))
  end /\
  ((exists key, keys s scope = Ok key /\ forall n, is_Some (encrypt_aead key n body (ring_buffer_aad scope))) -> quiet s ->
   (next_id s <= i64_max)%N ->
   (forall row, holds s scope body prio row ->
      (payload_size row + payload_total (map_to_list (ring_buffer (tables s))) <= Z.of_N i64_max)%Z) -> r = Ok tt).
Proof.
  intros Hwf Hr. apply (wp_elim _ _ _ _ _ (ring_insert_spec scope body prio s Hwf)) in Hr as (_ & _ & Hr).
  assert (Hnew : ring_buffer (tables s) !! next_id s = None).
  { destruct (_ !! _) as [old|] eqn:E; [|done]. apply Hwf in E as [E _]. unfold next_id in E. lia. }
  destruct r as [[]|e].
  - destruct Hr as (row & Hrow & Ht). set (m := <[_ := row]> _) in *.
    assert (Hm := inserted_wf s scope body prio row Hwf Hrow). fold m in Hm.
    destruct (kept_exact (ring_cap s) m) as (H1 & H2 & H3 & H4); [intros id r E; by apply (Hm id r)|].
    rewrite Ht. cbn [with_ring ring_buffer ring_seq]. split; [|split; [|done]].
    + intros id r E. apply Hm. by eapply lookup_weaken.
    + exists row. do 2 (split; [done|]). do 2 (split; [done|]). split; [apply H3; unfold ring_cap; lia|].
      apply H4. apply lookup_insert_eq.
  - destruct Hr as [Ht Hr]. rewrite Ht. split; [done|]. split; [done|]. intros (key & Ek & Hs) Hq Hid Hfit. exfalso.
    destruct Hr as [E|[(k & n & E & En)|[E|[E|(row & Hrow & E)]]]]; [congruence| |done|lia|].
    + assert (k = key) as -> by congruence. destruct (Hs n). congruence.
    + rewrite map_to_list_insert in E by done. unfold payload_total in *. cbn [foldr snd] in E. specialize (Hfit row Hrow). lia.
Qed.

(** *** Reading *)

Lemma lookup_touch now ids m id :
  touch_ids now ids m !! id = (fun r => if bool_decide (id ∈ ids) then accessed now r else r) <$> m !! id.
Proof.
  unfold touch_ids. induction ids as [|i ids IH]; cbn [foldr].
  - rewrite bool_decide_eq_false_2 by apply not_elem_of_nil. by destruct (m !! id).
  - destruct (decide (id = i)) as [->|Hne].
    + rewrite lookup_alter_eq, IH, (bool_decide_eq_true_2 (i ∈ i :: ids)) by (apply elem_of_cons; by left).
      destruct (m !! i); [|done]. cbn. by case_bool_decide.
    + rewrite lookup_alter_ne, IH by done. destruct (m !! id); [|done]. cbn. f_equal.
      rewrite (bool_decide_ext _ (id ∈ i :: ids)); [done|]. rewrite elem_of_cons. naive_solver.
Qed.
Lemma open_entries_spec key scope l out : open_entries key scope l = Ok out ->
  Forall2 (fun kv en => re_id en = kv.1 /\ re_scope en = scope /\ re_created_at en = r_created_at kv.2 /\
             unseal key (r_nonce kv.2) (r_body kv.2) (ring_buffer_aad scope) = Ok (re_body en)) l out.
Proof.
  revert out. induction l as [|[id row] l IH]; intros out; cbn [open_entries].
  - intros [= <-]. constructor.
  - unfold unseal at 1. destruct (decrypt_aead _ _ _ _) as [pt|] eqn:E; cbn [ok_or]; [|done].
    destruct (open_entries key scope l) as [out'|]; [|done]. intros [= <-]. constructor; [|by apply IH].
    do 3 (split; [done|]). unfold unseal. cbn [fst snd re_body]. by rewrite E.
Qed.
Lemma scope_window_elem scope m id row : (id, row) ∈ scope_window scope m <-> m !! id = Some row /\ r_scope row = scope.
Proof.
  unfold scope_window. rewrite merge_sort_Permutation, list_elem_of_In, filter_In, <- list_elem_of_In, elem_of_map_to_list.
  cbn. by rewrite N.eqb_eq.
Qed.

(** An entry as its row says, with the text that was sealed. *)
Definition opens_as s (scope : uuid) (kv : N * RingRow) (en : RingBufferEntry) : Prop :=
  re_id en = kv.1 /\ re_scope en = scope /\ re_created_at en = r_created_at kv.2 /\
  exists key, keys s scope = Ok key /\ unseal key (r_nonce kv.2) (r_body kv.2) (ring_buffer_aad scope) = Ok (re_body en).

(** Reading the window of a scope gives all its rows, oldest first, each with the text
    that was sealed, and marks exactly these as just accessed; a failed read changes
    nothing.  A scope with as many rows as a statement may have parameters cannot be
    read at all. *)
Theorem ring_window_exact max_variables scope s :
  let m := ring_buffer (tables s) in
  wp (ring_buffer_read_window max_variables scope) s (fun r s' =>
    match r with
    | Err _ => goes s (tables s) s'
    | Ok out =>
        Forall2 (opens_as s scope) (scope_window scope m) out /\
        (forall id row, m !! id = Some row -> r_scope row = scope -> (id, row) ∈ scope_window scope m) /\
        StronglySorted window_before (scope_window scope m) /\
        exists now m', goes s (with_ring (tables s) m' (ring_seq (tables s))) s' /\
          forall id, m' !! id = (fun row => if (r_scope row =? scope)%N then accessed now row else row) <$> m !! id
    end /\
    (scope_window scope m <> [] -> (max_variables <= length (scope_window scope m))%nat -> exists e, r = Err e)).
Proof.
  intros m. unfold ring_buffer_read_window.
  apply wp_try, wp_fetch_key. destruct (keys s scope) as [key|e] eqn:Ek; [|split; [apply goes_refl|intros; eexists; done]].
  apply wp_try, wp_query; [intros s1 Hs1 _; by split; [|intros; eexists]|]. intros s1 Hs1.
  apply wp_try, wp_lift. fold m. destruct (open_entries key scope (scope_window scope m)) as [out|e] eqn:Eo.
  2:{ by split; [|intros; eexists]. }
  apply open_entries_spec in Eo as Hout. assert (Hlen := Forall2_length _ _ _ Hout).
  assert (Hread : Forall2 (opens_as s scope) (scope_window scope m) out).
  { eapply Forall2_impl; [exact Hout|]. cbn. intros ? ? (? & ? & ? & ?). do 3 (split; [done|]). by exists key. }
  assert (Hall : forall id row, m !! id = Some row -> r_scope row = scope -> (id, row) ∈ scope_window scope m)
    by (intros id row ? ?; by apply scope_window_elem).
  assert (Hsort : StronglySorted window_before (scope_window scope m)) by apply (StronglySorted_merge_sort window_before).
  destruct out as [|en out].
  - apply wp_ret. destruct (scope_window scope m) as [|kv l] eqn:Ew; [|by cbn in Hlen]. split; [|done].
    do 3 (split; [done|]). exists 0%Z, m. split; [unfold m; by rewrite with_ring_id|].
    intros id. destruct (m !! id) as [row|] eqn:E; [|done]. cbn. destruct (_ =? _)%N eqn:Es; [|done]. bool_to_prop.
    specialize (Hall id row E Es). by apply not_elem_of_nil in Hall.
  - set (all := en :: out) in *. apply wp_try, wp_draw. intros tk. apply wp_try, wp_execute.
    + intros s2 Hs2 _. rewrite (go_tables _ _ _ Hs1) in Hs2. split; [exact (goes_trans _ _ _ _ _ Hs1 Hs2)|intros; by eexists].
    + intros t [] s2 Ht Hs2. destruct (_ <? _)%nat eqn:El; [done|]. injection Ht as <-. apply wp_ret. bool_to_prop.
      split; [|intros _ Hmax; lia]. split; [exact Hread|]; split; [exact Hall|]; split; [exact Hsort|].
      rewrite (go_tables _ _ _ Hs1) in Hs2. exists (tick_now tk). eexists. split; [exact (goes_trans _ _ _ _ _ Hs1 Hs2)|]. fold m.
      change (alter _ _ _) with (touch_ids (tick_now tk) (re_id <$> all) m). intros id. rewrite lookup_touch.
      destruct (m !! id) as [row|] eqn:E; [|done]. cbn. f_equal. case_bool_decide as Hin.
      * change (id ∈ re_id <$> all) in Hin. apply list_elem_of_fmap in Hin as (en' & -> & Hin). apply list_elem_of_lookup in Hin as [k Hk].
        destruct (Forall2_lookup_r _ _ _ _ _ Hout Hk) as ([id' row'] & Hkv & Eid & _). cbn in Eid.
        apply list_elem_of_lookup_2, scope_window_elem in Hkv as [Hm Hsc]. rewrite Eid in E.
        assert (row' = row) as -> by congruence. by rewrite Hsc, N.eqb_refl.
      * destruct (_ =? _)%N eqn:Es; [|done]. bool_to_prop. exfalso. apply Hin.
        specialize (Hall id row E Es). apply list_elem_of_lookup in Hall as [k Hk].
        destruct (Forall2_lookup_l _ _ _ _ _ Hout Hk) as (en' & Hen & Eid & _). cbn in Eid. rewrite <- Eid.
        change (re_id en' ∈ re_id <$> all). apply list_elem_of_fmap_2. by eapply list_elem_of_lookup_2.
Qed.

(** *** What noise leaves alone *)

(** A call that changes the ring buffer only. *)
Definition ring_only s s' : Prop := exists m n, goes s (with_ring (tables s) m n) s'.
Lemma ring_only_same s s' : goes s (tables s) s' -> ring_only s s'.
Proof. intros Hs. exists (ring_buffer (tables s)), (ring_seq (tables s)). by rewrite with_ring_id. Qed.
Lemma ring_only_trans s1 s2 s3 : ring_only s1 s2 -> ring_only s2 s3 -> ring_only s1 s3.
Proof.
  intros (m & n & H1) (m' & n' & H2). exists m', n'. rewrite (go_tables _ _ _ H1) in H2.
  exact (goes_trans _ _ _ _ _ H1 H2).
Qed.
Lemma ring_only_evict cap fuel s : wp (evict_fuel fuel cap) s (fun _ s' => ring_only s s').
Proof.
  revert s. induction fuel as [|fuel IH]; intros s; cbn [evict_fuel]; [by apply wp_ret, ring_only_same|].
  apply wp_try. unfold select_total. apply wp_execute; [intros s1 Hs1 _; by apply ring_only_same|]. cbn zeta.
  intros t total s1 Ht Hs1. destruct (_ <? _)%Z; [done|]. injection Ht as <- <-. apply ring_only_same in Hs1.
  destruct (_ <=? _)%Z; [done|]. apply wp_try. unfold delete_first. apply wp_execute.
  { intros s2 Hs2 _. eapply ring_only_trans; [done|by apply ring_only_same]. }
  intros t changed s2 Ht Hs2. assert (ring_only s1 s2) as H2.
  { destruct (eviction_order _); injection Ht as <- <-; [by apply ring_only_same|by do 2 eexists]. }
  destruct (_ =? _)%nat; [by eapply ring_only_trans|]. eapply wp_mono; [apply IH|]. intros r s3 H3.
  do 2 (eapply ring_only_trans; [done|]). done.
Qed.
Lemma ring_only_insert scope body prio s : wp (ring_buffer_insert_with_priority scope body prio) s (fun _ s' => ring_only s s').
Proof.
  change (wp (ring_buffer_insert_with_priority scope body prio) s) with (wp (insert_capped (ring_cap s) scope body prio) s).
  unfold insert_capped. apply wp_try, wp_fetch_key. destruct (keys s scope) as [key|e]; [|by apply ring_only_same].
  apply wp_try, wp_draw. intros tk. apply wp_try, wp_lift. destruct (seal _ _ _ _) as [c|e]; [|by apply ring_only_same].
  apply wp_transaction; [intros s' Hs' _; by apply ring_only_same|]. intros s1 Hs1. apply wp_try. unfold insert_ring. cbn zeta.
  apply wp_execute; [intros s2 Hs2 _; split; [etrans; [apply Hs1|apply Hs2]|]; intros s' Hs'; by apply ring_only_same|].
  intros t [] s2 Ht Hs2. destruct (_ <? _)%N; [done|]. injection Ht as <-.
  assert (H2 : ring_only s s2) by (eapply ring_only_trans; [by apply ring_only_same|]; by do 2 eexists).
  apply wp_evict. eapply wp_mono; [apply ring_only_evict|].
  intros r s3 H3. assert (H4 := ring_only_trans _ _ _ H2 H3). split; [by destruct H4 as (m & n & [? _ _])|].
  destruct r as [[]|e]; intros s' Hs'; [|by apply ring_only_same]. eapply ring_only_trans; [done|by apply ring_only_same].
Qed.

(** *** Every sequence of operations *)

Inductive RingOp : Type :=
| Insert (scope : uuid) (body : list N) (prio : Z)
| ReadWindow (scope : uuid)
| Touch (id : N)
| SetPriority (id : N) (prio : Z)
| DeleteEntry (id : N)
| Clear.
Definition ignore {A} (m : eff Store EvidenceError A) : Store -> Store := fun s => (m s).1.
Definition run_op (max_variables : nat) (s : Store) (op : RingOp) : Store :=
  match op with
  | Insert scope body prio => ignore (ring_buffer_insert_with_priority scope body prio) s
  | ReadWindow scope => ignore (ring_buffer_read_window max_variables scope) s
  | Touch id => ignore (ring_buffer_touch id) s
  | SetPriority id prio => ignore (ring_buffer_set_priority id prio) s
  | DeleteEntry id => ignore (delete_ring_buffer_entry id) s
  | Clear => ignore ring_buffer_clear s
  end.
Definition ring_ok s : Prop :=
  ring_wf (tables s) /\ (payload_total (map_to_list (ring_buffer (tables s))) <= ring_cap s)%Z.

Lemma payload_total_sizes m m' : payload_size <$> m' = payload_size <$> m ->
  payload_total (map_to_list m') = payload_total (map_to_list m).
Proof.
  assert (Hs : forall m : gmap N RingRow, payload_total (map_to_list m)
                 = foldr (fun kv n => kv.2 + n)%Z 0%Z (map_to_list (payload_size <$> m))).
  { intros m0. rewrite map_to_list_fmap. unfold payload_total. induction (map_to_list m0) as [|[i r] l IH]; [done|]. cbn. by f_equal. }
  intros E. by rewrite !Hs, E.
Qed.
(** A change that keeps rowids and sizes. *)
Lemma ring_ok_sizes s s' m : goes s (with_ring (tables s) m (ring_seq (tables s))) s' ->
  payload_size <$> m = payload_size <$> ring_buffer (tables s) -> ring_ok s -> ring_ok s'.
Proof.
  intros [Hm Ht _] E [Hwf Hc]. unfold ring_ok, ring_wf, ring_cap. rewrite Ht, (mv_ring _ _ Hm). cbn [with_ring ring_buffer ring_seq]. split.
  - intros id row Hr. assert (E' := f_equal (lookup id) E). rewrite !lookup_fmap, Hr in E'.
    destruct (ring_buffer (tables s) !! id) as [old|] eqn:Eo; [|done]. injection E' as ->. by apply Hwf in Eo.
  - by rewrite (payload_total_sizes _ _ E).
Qed.
Lemma sizes_alter f id m : (forall r, payload_size (f r) = payload_size r) -> payload_size <$> alter f id m = payload_size <$> m.
Proof.
  intros Hf. apply map_eq. intros i. rewrite !lookup_fmap. destruct (decide (i = id)) as [->|Hne].
  - rewrite lookup_alter_eq. destruct (m !! id); [|done]. cbn. by rewrite Hf.
  - by rewrite lookup_alter_ne.
Qed.
Lemma ring_ok_same s s' : goes s (tables s) s' -> ring_ok s -> ring_ok s'.
Proof. intros [Hm Ht _] Hs. unfold ring_ok, ring_cap in *. by rewrite Ht, (mv_ring _ _ Hm). Qed.
Lemma alter_entry_ok f id s : (forall r, payload_size (f r) = payload_size r) -> ring_ok s ->
  wp (alter_entry f id) s (fun _ s' => ring_ok s').
Proof.
  intros Hf Hs. unfold alter_entry. apply wp_try, wp_execute; [intros s' Hs' _; by eapply ring_ok_same|].
  intros t b s' [= <- <-] Hs'. unfold wp, ensure. cbn. eapply ring_ok_sizes; [exact Hs'|by apply sizes_alter|done].
Qed.
Lemma ring_ok_shrinks s s' m : goes s (with_ring (tables s) m (ring_seq (tables s))) s' -> m ⊆ ring_buffer (tables s) ->
  (payload_total (map_to_list m) <= payload_total (map_to_list (ring_buffer (tables s))))%Z -> ring_ok s -> ring_ok s'.
Proof.
  intros [Hm Ht _] Hsub Hle [Hwf Hc]. unfold ring_ok, ring_wf, ring_cap in *. rewrite Ht, (mv_ring _ _ Hm). cbn [with_ring ring_buffer ring_seq].
  split; [|lia]. intros id row Hr. apply Hwf. by eapply lookup_weaken.
Qed.

(** Whatever is inserted, read, touched, ranked, deleted or cleared, in any order
    and with any statements failing, the ring buffer never exceeds its cap and its rows
    keep distinct rowids that were given out. *)
Theorem ring_never_exceeds max_variables ops s : ring_ok s -> ring_ok (foldl (run_op max_variables) s ops).
Proof.
  revert s. induction ops as [|op ops IH]; intros s Hs; [done|]. cbn [foldl]. apply IH. clear IH.
  destruct op as [scope body prio|scope|id|id prio|id|]; cbn [run_op]; unfold ignore.
  - refine (wp_mono _ s _ (fun _ s' => ring_ok s') (ring_insert_spec scope body prio s (proj1 Hs)) _).
    intros r s' (Hm & _ & Hr). unfold ring_ok, ring_cap. rewrite (mv_ring _ _ Hm). destruct r as [[]|e]; [|by destruct Hr as [-> _]].
    destruct Hr as (row & Hrow & Ht). assert (Hw := inserted_wf _ _ _ _ _ (proj1 Hs) Hrow).
    edestruct (kept_exact (ring_cap s)) as (H1 & _ & H3 & _); [intros id r E; by apply (Hw id r)|].
    unfold ring_wf. rewrite Ht. cbn [with_ring ring_buffer ring_seq]. split; [|apply H3; unfold ring_cap; lia].
    intros id r E. apply Hw. by eapply lookup_weaken.
  - assert (Hw := ring_window_exact max_variables scope s). cbv zeta in Hw. refine (wp_mono _ s _ (fun _ s' => ring_ok s') Hw _).
    intros [out|e] s' [Hr _]; [|by eapply ring_ok_same]. destruct Hr as (_ & _ & _ & now & m' & Hg & Hm).
    eapply ring_ok_sizes; [exact Hg| |done]. apply map_eq. intros i. rewrite !lookup_fmap, Hm.
    destruct (_ !! i); [|done]. cbn. by case_match.
  - by apply (alter_entry_ok (accessed (tick_now (upcoming s)))).
  - by apply (alter_entry_ok (with_priority prio)).
  - refine (wp_update _ s (fun _ s' => ring_ok s') _ _); [intros s' Hs' _; by eapply ring_ok_same|]. intros s' Hs'.
    eapply ring_ok_shrinks; [exact Hs'|apply delete_subseteq| |done].
    destruct (ring_buffer (tables s) !! id) as [row|] eqn:E; [|rewrite delete_id by done; lia].
    rewrite <- (map_to_list_delete _ _ _ E). apply Hs in E as [_ E]. unfold payload_total. cbn [foldr snd]. lia.
  - refine (wp_update _ s (fun _ s' => ring_ok s') _ _); [intros s' Hs' _; by eapply ring_ok_same|]. intros s' Hs'.
    eapply ring_ok_shrinks; [exact Hs'|apply map_empty_subseteq| |done]. rewrite map_to_list_empty.
    apply (nonneg_total (map_to_list (ring_buffer (tables s)))), Forall_forall. intros [id row] Hr%elem_of_map_to_list. apply Hs in Hr as [_ Hr]. exact Hr.
Qed.
End Facts.

(** ** Examples *)

Module Demo.
Import EvidenceTables.Concrete.
Lemma empty_ring_wf : ring_wf (tables empty_store).
Proof. intros id row E. cbn in E. by rewrite lookup_empty in E. Qed.
(** Two rows fit; the third evicts the first. *)
Definition filled : demo_store :=
  foldl (run_op 100) empty_store [Insert 1 (repeat 7%N 20) 0; Insert 1 (repeat 8%N 20) 0; Insert 2 (repeat 9%N 20) 0].
Example filled_ids : (map_to_list (ring_buffer (tables filled))).*1 = [3; 2]%N \/ (map_to_list (ring_buffer (tables filled))).*1 = [2; 3]%N.
Proof. vm_compute. by auto. Qed.
Lemma ring_insert_exact_witness :
  exists row, holds empty_store 1 [7; 7; 7]%N 0 row /\ ring_buffer (tables empty_store) !! next_id empty_store = None.
Proof.
  destruct (ring_insert_exact 1 [7; 7; 7]%N 0 empty_store (ring_buffer_insert_with_priority 1 [7; 7; 7]%N 0 empty_store).1 (Ok tt) empty_ring_wf)
    as (_ & (row & Hrow & Hnew & _) & _).
  - rewrite (surjective_pairing (ring_buffer_insert_with_priority _ _ _ _)). f_equal.
  - exists row. split; [exact Hrow|exact Hnew].
Defined.
Lemma empty_ring_ok : ring_ok empty_store.
Proof. split; [apply empty_ring_wf|]. vm_compute. discriminate. Qed.
Lemma ring_never_exceeds_witness : ring_ok filled.
Proof. apply ring_never_exceeds. apply empty_ring_ok. Defined.
End Demo.
