(* ===== verification/BodyStore.v ===== *)
(** * Evidence bodies and approved payloads ([evidence_store/src/store.rs])

    Ingesting and reading evidence, and storing the payloads of approved documents.
    A body above the inline threshold, and every approved payload, is stored once per
    content: sealed under a key of its own (its CEK), which is wrapped under the key of
    each scope that holds the content.  Forgetting a scope drops its wraps, and a body
    whose last wrap goes is deleted with it.  The full-text and vector indexes that
    ingestion also fills are not modelled, only that writing the former may fail. *)

From S2P Require Import Prelude SynthesisStore EvidenceTables RingBuffer.

Definition DELETE_BATCH : nat := 256.
(** [slice::chunks]; the fuel is the length of the slice. *)
Fixpoint chunks_fuel {A} (fuel n : nat) (l : list A) : list (list A) :=
  match fuel, l with
  | _, [] | O, _ => []
  | S fuel, _ => take n l :: chunks_fuel fuel n (drop n l)
  end.
Definition chunks {A} (n : nat) (l : list A) : list (list A) := chunks_fuel (length l) n l.

Section Bodies.
Context {Key Nonce Bytes Hash : Type} `{Countable Hash}.
Context {AE : Aead Key Nonce Bytes} {BE : Aead Key Nonce (list N)} {IN : Inhabited Nonce} {HO : HashOrder}.
Context {CH : ContentHashing Hash} {KB : KeyBytes Key}.
#[local] Notation Store := (@Store Key Nonce Bytes Hash _ _).
#[local] Notation Tables := (@Tables Nonce Hash _ _).

(** ** Statements on bodies and their wraps *)

(** A plain INSERT fails on a row that exists. *)
Definition insert_body (h : Hash) (ciphertext : list N) (n : Nonce) : eff Store EvidenceError unit :=
  execute (fun t => match body_store t !! h with
                    | Some _ => None
                    | None => Some (with_bodies t (<[h := mk_body ciphertext n 1]> (body_store t)), tt)
                    end).
Definition set_wrap (t : Tables) (h : Hash) (scope : uuid) (wrapped : list N) (n : Nonce) : Tables :=
  with_wraps t (<[(h, scope) := mk_wrap wrapped n]> (body_store_key_wraps t)).
Definition insert_wrap (h : Hash) (scope : uuid) (wrapped : list N) (n : Nonce) : eff Store EvidenceError unit :=
  execute (fun t => match body_store_key_wraps t !! (h, scope) with
                    | Some _ => None
                    | None => Some (set_wrap t h scope wrapped n, tt)
                    end).
Definition insert_or_ignore_wrap (h : Hash) (scope : uuid) (wrapped : list N) (n : Nonce) : eff Store EvidenceError unit :=
  update (fun t => match body_store_key_wraps t !! (h, scope) with
                   | Some _ => t
                   | None => set_wrap t h scope wrapped n
                   end).
Definition delete_body (h : Hash) : eff Store EvidenceError unit :=
  update (fun t => with_bodies t (delete h (body_store t))).
Definition bumped (b : BodyRow (Nonce := Nonce)) : BodyRow := mk_body (b_ciphertext b) (b_nonce b) (ref_count b + 1).
Definition bump_ref_count (h : Hash) : eff Store EvidenceError unit :=
  update (fun t => with_bodies t (alter bumped h (body_store t))).
Definition has_body (h : Hash) : eff Store EvidenceError bool := query (fun t => bool_decide (is_Some (body_store t !! h))).
Definition has_wrap (h : Hash) (scope : uuid) : eff Store EvidenceError bool :=
  query (fun t => bool_decide (is_Some (body_store_key_wraps t !! (h, scope)))).
(** A wrap of another scope, whichever the query finds first (LIMIT 1). *)
Definition donors (t : Tables) (h : Hash) (scope : uuid) : list (uuid * WrapRow (Nonce := Nonce)) :=
  omap (fun kv : Hash * uuid * WrapRow =>
          if bool_decide (kv.1.1 = h) && negb (kv.1.2 =? scope)%N then Some (kv.1.2, kv.2) else None)
    (hash_order (map_to_list (body_store_key_wraps t))).
Definition find_donor (h : Hash) (scope : uuid) : eff Store EvidenceError (option (uuid * WrapRow (Nonce := Nonce))) :=
  query (fun t => head (donors t h scope)).

(** A fresh body under the random key [cek], wrapped for one scope:
    [insert_new_approved_doc_body_in_tx], and the same statements in
    [ingest_body_table]. *)
Definition insert_new_approved_doc_body_in_tx (cek : Key) (scope : uuid) (key : Key) (plaintext : list N) (h : Hash) :
    eff Store EvidenceError unit :=
  do? tk := draw in
  do? ciphertext := lift (seal cek (tick_nonce tk) plaintext (body_table_aad h)) in
  do? _ := insert_body h ciphertext (tick_nonce tk) in
  do? tk := draw in
  do? wrapped := lift (wrap_cek key cek (tick_nonce tk) h) in
  insert_wrap h scope wrapped (tick_nonce tk).
(** The key of a donor's wrap, rewrapped for the scope. *)
Definition rewrap (donor_key key : Key) (w : WrapRow (Nonce := Nonce)) (h : Hash) : eff Store EvidenceError (list N * Nonce) :=
  do? cek := lift (unwrap_cek donor_key (wrapped_cek w) (w_nonce w) h) in
  do? tk := draw in
  do? wrapped := lift (wrap_cek key cek (tick_nonce tk) h) in
  ret (wrapped, tick_nonce tk).

(** ** Ingestion *)

(** [IngestResult]; the random identifier and key of a call. *)
Record IngestResult : Type := mk_ingest { evidence_id : uuid; taken_path : StoragePath; ingest_hash : Hash }.
Record Io : Type := mk_io { io_id : uuid; io_cek : Key }.

Definition insert_evidence (id : uuid) (row : EvidenceRecord (Nonce := Nonce) (Hash := Hash)) : eff Store EvidenceError unit :=
  execute (fun t => match evidence t !! id with
                    | Some _ => None
                    | None => Some (with_evidence t (<[id := row]> (evidence t)), tt)
                    end).
(** [index_fts]: its statements, as far as they may fail. *)
Definition index_fts : eff Store EvidenceError unit := query (fun _ => tt).

Definition ingest_inline (io : Io) (scope : uuid) (body : list N) (source : option string) (imp : ImportanceClass) (h : Hash)
    (language : option string) : eff Store EvidenceError IngestResult :=
  do? key := fetch_key scope in
  do? tk := draw in
  do? ciphertext := lift (seal key (tick_nonce tk) body (ingest_aad scope (io_id io) h)) in
  let row := mk_evidence scope h (Some ciphertext) None (Some (tick_nonce tk)) source None (as_tag imp) Inline
               (tick_now tk) language in
  do? _ := transaction (do? _ := insert_evidence (io_id io) row in index_fts) in
  ret (mk_ingest (io_id io) Inline h).

(** [ingest_body_table]: the donor is read before the transaction. *)
Definition dedup_donor (h : Hash) (scope : uuid) : eff Store EvidenceError (option (WrapRow (Nonce := Nonce) * Key)) :=
  do? existing_wrap := find_donor h scope in
  match existing_wrap with
  | Some (donor_scope, w) => do? donor_key := fetch_key donor_scope in ret (Some (w, donor_key))
  | None => ret None
  end.
Definition admit_ingested_body (cek : Key) (scope : uuid) (key : Key) (body : list N) (h : Hash)
    (donor : option (WrapRow (Nonce := Nonce) * Key)) : eff Store EvidenceError unit :=
  do? existing := has_body h in
  if existing : bool then
    do? _ := bump_ref_count h in
    do? already_has_wrap := has_wrap h scope in
    if already_has_wrap : bool then ret tt
    else match donor with
         | Some (w, donor_key) =>
             do? wn := rewrap donor_key key w h in
             insert_or_ignore_wrap h scope wn.1 wn.2
         | None =>
             do? _ := delete_body h in
             insert_new_approved_doc_body_in_tx cek scope key body h
         end
  else insert_new_approved_doc_body_in_tx cek scope key body h.
Definition ingest_body_table (io : Io) (scope : uuid) (body : list N) (source : option string) (imp : ImportanceClass) (h : Hash)
    (language : option string) : eff Store EvidenceError IngestResult :=
  do? key := fetch_key scope in
  do? donor := dedup_donor h scope in
  do? _ := transaction (
    do? _ := admit_ingested_body (io_cek io) scope key body h donor in
    do? tk := draw in
    let row := mk_evidence scope h None (Some h) None source None (as_tag imp) BodyTable (tick_now tk) language in
    do? _ := insert_evidence (io_id io) row in
    index_fts) in
  ret (mk_ingest (io_id io) BodyTable h).

Definition ingest_with_language (io : Io) (scope : uuid) (body : list N) (source : option string) (imp : ImportanceClass)
    (language : option string) : eff Store EvidenceError IngestResult := fun s =>
  let h := content_hash body in
  match route_storage_with_threshold (length body) imp (inline_threshold_bytes s) with
  | RingBuffer => (do? _ := ring_buffer_insert scope body in ret (mk_ingest (io_id io) RingBuffer h)) s
  | Inline => ingest_inline io scope body source imp h language s
  | BodyTable => ingest_body_table io scope body source imp h language s
  end.
Definition ingest (io : Io) (scope : uuid) (body : list N) (source : option string) (imp : ImportanceClass) :
    eff Store EvidenceError IngestResult := ingest_with_language io scope body source imp None.
Definition promote_from_ring_buffer (io : Io) (ring_buffer_id : N) (scope : uuid) (imp : ImportanceClass) :
    eff Store EvidenceError (option IngestResult) :=
  do? key := fetch_key scope in
  do? row := query (fun t => match ring_buffer t !! ring_buffer_id with
                             | Some r => if (r_scope r =? scope)%N then Some r else None
                             | None => None
                             end) in
  match row with
  | None => ret None
  | Some r =>
      do? plaintext := lift (unseal key (r_nonce r) (r_body r) (ring_buffer_aad scope)) in
      do? out := ingest io scope plaintext None imp in
      do? _ := delete_ring_buffer_entry ring_buffer_id in
      ret (Some out)
  end.

(** ** Reading *)

(** [read_body].  A row of the ring buffer is never in [evidence]. *)
Definition read_body (id : uuid) : eff Store EvidenceError (list N) :=
  do? row := query (fun t => evidence t !! id) in
  do? e := lift (ok_or row (NotFound "evidence_id" id)) in
  match storage_path e with
  | Inline =>
      do? key := fetch_key (e_scope e) in
      do? body := lift (ok_or (e_body e) (Schema "inline row missing body column")) in
      do? n := lift (ok_or (e_nonce e) (Schema "inline row has malformed nonce")) in
      lift (unseal key n body (ingest_aad (e_scope e) id (e_hash e)))
  | BodyTable =>
      do? r := lift (ok_or (body_ref e) (Schema "body-table row missing body_ref")) in
      do? found := query (fun t => body_store t !! r) in
      do? b := lift (ok_or found DanglingBodyRef) in
      do? key := fetch_key (e_scope e) in
      do? found := query (fun t => body_store_key_wraps t !! (r, e_scope e)) in
      do? w := lift (ok_or found DanglingBodyRef) in
      do? cek := lift (unwrap_cek key (wrapped_cek w) (w_nonce w) (e_hash e)) in
      lift (unseal cek (b_nonce b) (b_ciphertext b) (body_table_aad (e_hash e)))
  | RingBuffer => throw (Schema "evidence row has unknown storage_path tag")
  end.
(** The metadata [get] returns: the row less its body, and its class. *)
Definition get (id : uuid) : eff Store EvidenceError (option (EvidenceRecord (Nonce := Nonce) (Hash := Hash) * ImportanceClass)) :=
  do? row := query (fun t => evidence t !! id) in
  match row with
  | None => ret None
  | Some e =>
      do? imp := lift (ok_or (from_tag (importance e)) (Schema "evidence row has unknown importance tag")) in
      match storage_path e with
      | RingBuffer => throw (Schema "evidence row has unknown storage_path tag")
      | _ => ret (Some (e, imp))
      end
  end.
Definition reclassify (id : uuid) (imp : ImportanceClass) (why : option string) : eff Store EvidenceError unit :=
  do? tk := draw in
  update (fun t => with_overrides t (<[id := mk_override (as_tag imp) why (tick_now tk)]> (reclassification_overrides t))).
Definition get_reclassification_override (id : uuid) : eff Store EvidenceError (option (ImportanceClass * option string)) :=
  do? row := query (fun t => reclassification_overrides t !! id) in
  match row with
  | Some o =>
      do? imp := lift (ok_or (from_tag (new_importance o)) (Schema "reclassification_overrides row has unknown importance tag")) in
      ret (Some (imp, override_reason o))
  | None => ret None
  end.
Definition effective_importance (id : uuid) : eff Store EvidenceError ImportanceClass :=
  do? o := get_reclassification_override id in
  match o with
  | Some (imp, _) => ret imp
  | None =>
      do? row := get id in
      match row with Some (_, imp) => ret imp | None => throw (NotFound "evidence_id" id) end
  end.
Definition body_store_count : eff Store EvidenceError nat := query (fun t => size (body_store t)).
Definition body_ref_count (h : Hash) : eff Store EvidenceError (option Z) := query (fun t => ref_count <$> body_store t !! h).
Definition evidence_count : eff Store EvidenceError nat := query (fun t => size (evidence t)).
Definition evidence_count_for_scope (scope : uuid) : eff Store EvidenceError nat :=
  query (fun t => size (base.filter (fun kv : uuid * EvidenceRecord => e_scope kv.2 = scope) (evidence t))).

(** ** Payloads of approved documents *)

(** [admit_approved_doc_body_in_tx]. *)
Definition admit_approved_doc_body_in_tx (cek : Key) (scope : uuid) (plaintext : list N) (h : Hash) : eff Store EvidenceError unit :=
  do? key := fetch_key scope in
  do? existing := has_body h in
  if existing : bool then
    do? already_has_wrap := has_wrap h scope in
    if already_has_wrap : bool then ret tt
    else
      do? donor := find_donor h scope in
      match donor with
      | Some (donor_scope, w) =>
          do? donor_key := fetch_key donor_scope in
          do? wn := rewrap donor_key key w h in
          do? _ := insert_wrap h scope wn.1 wn.2 in
          bump_ref_count h
      | None =>
          do? _ := delete_body h in
          insert_new_approved_doc_body_in_tx cek scope key plaintext h
      end
  else insert_new_approved_doc_body_in_tx cek scope key plaintext h.
Definition save_approved_document_payload_in_tx (cek : Key) (scope document : uuid) (plaintext : list N) (h : Hash) :
    eff Store EvidenceError unit :=
  do? _ := admit_approved_doc_body_in_tx cek scope plaintext h in
  do? tk := draw in
  let row := mk_payload h (Z.min (Z.of_nat (length plaintext)) (Z.of_N i64_max)) (tick_now tk) in
  update (fun t => with_payloads t (<[(scope, document) := row]> (approved_document_payloads t))).
Definition save_approved_document_payload (cek : Key) (scope document : uuid) (plaintext : list N) (h : Hash) :
    eff Store EvidenceError unit :=
  transaction (save_approved_document_payload_in_tx cek scope document plaintext h).

Definition load_approved_doc_body (scope : uuid) (h : Hash) : eff Store EvidenceError (option (list N)) :=
  do? wrap_row := query (fun t => body_store_key_wraps t !! (h, scope)) in
  match wrap_row with
  | None => ret None
  | Some w =>
      do? key := fetch_key scope in
      do? cek := lift (unwrap_cek key (wrapped_cek w) (w_nonce w) h) in
      do? body_row := query (fun t => body_store t !! h) in
      match body_row with
      | None => ret None
      | Some b => do? plaintext := lift (unseal cek (b_nonce b) (b_ciphertext b) (body_table_aad h)) in ret (Some plaintext)
      end
  end.
Definition no_longer_wrapped : EvidenceError :=
  Schema "approved_document_payloads row references a body that is no longer wrapped for this scope (body_store row gone, or wrap purged before metadata)".
Definition load_approved_document_payload (scope document : uuid) : eff Store EvidenceError (option (list N)) :=
  do? row := query (fun t => approved_document_payloads t !! (scope, document)) in
  match row with
  | None => ret None
  | Some p =>
      do? found := load_approved_doc_body scope (p_hash p) in
      do? plaintext := lift (ok_or found no_longer_wrapped) in
      ret (Some plaintext)
  end.
(** [ApprovedDocumentPayloadMeta]: the document and its row; a negative size reads as
    zero. *)
Record PayloadMeta : Type := mk_meta { document_id : uuid; meta_hash : Hash; meta_size : N; meta_updated_at : Z }.
Definition meta_of (document : uuid) (p : PayloadRow (Hash := Hash)) : PayloadMeta :=
  mk_meta document (p_hash p) (Z.to_N (size_bytes p)) (p_updated_at p).
Definition list_approved_document_payload_meta_for_scope (scope : uuid) : eff Store EvidenceError (list PayloadMeta) :=
  query (fun t => omap (fun kv : uuid * uuid * PayloadRow => if (kv.1.1 =? scope)%N then Some (meta_of kv.1.2 kv.2) else None)
                    (hash_order (map_to_list (approved_document_payloads t)))).
Definition delete_approved_document_payload (scope document : uuid) : eff Store EvidenceError nat :=
  execute (fun t => Some (with_payloads t (delete (scope, document) (approved_document_payloads t)),
                          if bool_decide (is_Some (approved_document_payloads t !! (scope, document))) then 1%nat else 0%nat)).
Definition delete_approved_document_payloads_for_scope (scope : uuid) : eff Store EvidenceError nat :=
  execute (fun t => Some (with_payloads t (base.filter (fun kv => kv.1.1 <> scope) (approved_document_payloads t)),
                          size (base.filter (fun kv => kv.1.1 = scope) (approved_document_payloads t)))).
Definition list_all_approved_document_payload_keys : eff Store EvidenceError (list (uuid * uuid)) :=
  query (fun t => (hash_order (map_to_list (approved_document_payloads t))).*1).

(** ** Forgetting *)

(** NOT EXISTS (SELECT 1 FROM body_store_key_wraps w WHERE w.content_hash = ..). *)
Definition wrapped (t : Tables) (h : Hash) : bool :=
  existsb (fun k : Hash * uuid => bool_decide (k.1 = h)) (map_to_list (body_store_key_wraps t)).*1.
Definition delete_unwrapped (among : Hash -> bool) (t : Tables) : Tables :=
  with_bodies t (base.filter (fun kv : Hash * BodyRow => negb (among kv.1) || wrapped t kv.1 = true) (body_store t)).
Fixpoint collect_garbage (batches : list (list Hash)) : eff Store EvidenceError unit :=
  match batches with
  | [] => ret tt
  | chunk :: batches =>
      do? _ := update (delete_unwrapped (fun h => existsb (fun h' => bool_decide (h' = h)) chunk)) in
      collect_garbage batches
  end.
Definition scope_hashes (t : Tables) (scope : uuid) : list Hash :=
  omap (fun k : Hash * uuid => if (k.2 =? scope)%N then Some k.1 else None)
    (hash_order (map_to_list (body_store_key_wraps t))).*1.
Definition purge_body_key_wraps_for_scope (scope : uuid) : eff Store EvidenceError unit :=
  transaction (
    do? hashes := query (fun t => scope_hashes t scope) in
    do? _ := update (fun t => with_wraps t (base.filter (fun kv : Hash * uuid * WrapRow => kv.1.2 <> scope) (body_store_key_wraps t))) in
    collect_garbage (chunks DELETE_BATCH hashes)).
Definition unwrapped_bodies (t : Tables) : nat :=
  size (base.filter (fun kv : Hash * BodyRow (Nonce := Nonce) => wrapped t kv.1 = false) (body_store t)).
Definition count_orphaned_bodies : eff Store EvidenceError nat := query unwrapped_bodies.
Definition purge_orphaned_bodies : eff Store EvidenceError nat :=
  transaction (execute (fun t => Some (delete_unwrapped (fun _ => true) t, unwrapped_bodies t))).
End Bodies.
