(* ===== verification/BodyInvariant.v ===== *)
(** * What the body tables keep ([evidence_store/src/store.rs])

    Every wrap that opens, opens a body with the content it is stored under; a live
    scope can open all its wraps; no body is without a wrap and no wrap without a body.
    Hence a live scope reads exactly what it stored, whatever other scopes store,
    drop or forget and whatever statements fail. *)

From S2P Require Import Prelude SynthesisStore EvidenceTables RingBuffer BodyStore.

Section Invariant.
Context {Key Nonce Bytes Hash : Type} `{Countable Hash}.
Context {BE : Aead Key Nonce (list N)} {IN : Inhabited Nonce} {HO : HashOrder}.
Context {CH : ContentHashing Hash} {KB : KeyBytes Key}.
#[local] Notation Store := (@Store Key Nonce Bytes Hash _ _).
#[local] Notation Tables := (@Tables Nonce Hash _ _).
Implicit Types (s : Store) (t : Tables) (h : Hash) (sc id : uuid) (p : list N) (dead : gset uuid).

(** The contents ever stored. *)
Context (genuine : list N -> Prop).

(** ** The invariant *)

(** The key a scope unwraps for a body; what a body opens to. *)
Definition cek_at (ks : uuid -> result Key EvidenceError) t h sc : option Key :=
  match body_store_key_wraps t !! (h, sc), ks sc with
  | Some w, Ok key => match unwrap_cek key (wrapped_cek w) (w_nonce w) h with Ok c => Some c | Err _ => None end
  | _, _ => None
  end.
Definition opens_to t h (c : Key) p : Prop :=
  exists b, body_store t !! h = Some b /\ unseal c (b_nonce b) (b_ciphertext b) (body_table_aad h) = Ok p.
Definition wrapped_for t h sc : Prop := is_Some (body_store_key_wraps t !! (h, sc)).

Definition readable (ks : uuid -> result Key EvidenceError) t id (e : EvidenceRecord (Nonce := Nonce) (Hash := Hash)) : Prop :=
  match storage_path e with
  | Inline => exists key c n p, ks (e_scope e) = Ok key /\ e_body e = Some c /\ e_nonce e = Some n /\
                unseal key n c (ingest_aad (e_scope e) id (e_hash e)) = Ok p /\ genuine p /\ content_hash p = e_hash e
  | BodyTable => body_ref e = Some (e_hash e) /\ wrapped_for t (e_hash e) (e_scope e)
  | RingBuffer => False
  end.
Record sound (ks : uuid -> result Key EvidenceError) dead t : Prop := mk_sound {
  so_body : forall h sc, wrapped_for t h sc -> is_Some (body_store t !! h);
  so_wrapped : forall h, is_Some (body_store t !! h) -> exists sc, wrapped_for t h sc;
  so_opens : forall h sc c, cek_at ks t h sc = Some c -> exists p, genuine p /\ content_hash p = h /\ opens_to t h c p;
  so_live : forall h sc, sc ∉ dead -> wrapped_for t h sc -> is_Some (cek_at ks t h sc);
  so_evidence : forall id e, evidence t !! id = Some e -> e_scope e ∉ dead -> readable ks t id e;
  so_payload : forall sc d r, approved_document_payloads t !! (sc, d) = Some r -> sc ∉ dead -> wrapped_for t (p_hash r) sc
}.

(** ** Changes that keep it *)

(** Tables with the same rows of evidence, payloads and noise. *)
Definition same_rest t t' : Prop :=
  evidence t' = evidence t /\ approved_document_payloads t' = approved_document_payloads t.
#[export] Instance same_rest_preorder : PreOrder same_rest.
Proof. split; [done|]. intros t1 t2 t3 [] []. split; congruence. Qed.

Lemma wrap_opens (wrapper cek : Key) n h c : wrap_cek wrapper cek n h = Ok c -> unwrap_cek wrapper c n h = Ok cek.
Proof.
  unfold wrap_cek, unwrap_cek, seal, unseal. destruct (encrypt_aead _ _ _ _) as [c'|] eqn:E; [|done]. intros [= <-].
  rewrite (decrypt_encrypt _ _ _ _ _ E). cbn. by rewrite key_of_bytes.
Qed.
Lemma seal_opens (k : Key) n p a c : seal k n p a = Ok c -> unseal k n c a = Ok p.
Proof.
  unfold seal, unseal. destruct (encrypt_aead _ _ _ _) as [c'|] eqn:E; [|done]. intros [= <-].
  by rewrite (decrypt_encrypt _ _ _ _ _ E).
Qed.
Lemma lookup_set_wrap t h sc c n h' sc' :
  body_store_key_wraps (set_wrap t h sc c n) !! (h', sc') =
  if decide (h' = h /\ sc' = sc) then Some (mk_wrap c n) else body_store_key_wraps t !! (h', sc').
Proof.
  unfold set_wrap. cbn [with_wraps body_store_key_wraps]. rewrite lookup_insert.
  destruct (decide (h' = h /\ sc' = sc)) as [[-> ->]|Hne]; case_decide; naive_solver.
Qed.
Lemma cek_set_wrap ks t h sc c n h' sc' : (h', sc') <> (h, sc) -> cek_at ks (set_wrap t h sc c n) h' sc' = cek_at ks t h' sc'.
Proof. intros Hne. unfold cek_at. rewrite lookup_set_wrap, decide_False by naive_solver. done. Qed.
Lemma wrapped_set_wrap t h sc c n h' sc' : wrapped_for (set_wrap t h sc c n) h' sc' <-> (h' = h /\ sc' = sc) \/ wrapped_for t h' sc'.
Proof. unfold wrapped_for. rewrite lookup_set_wrap. case_decide; naive_solver. Qed.
Lemma readable_mono ks t t' id e : (forall h sc, wrapped_for t h sc -> wrapped_for t' h sc) -> readable ks t id e -> readable ks t' id e.
Proof. intros Hw. unfold readable. destruct (storage_path e); naive_solver. Qed.

(** A new wrap of a body whose key another wrap gave. *)
Lemma sound_new_wrap ks dead t h sc key c n cek :
  sound ks dead t -> ks sc = Ok key -> unwrap_cek key c n h = Ok cek ->
  (exists p, genuine p /\ content_hash p = h /\ opens_to t h cek p) -> sound ks dead (set_wrap t h sc c n).
Proof.
  intros [Hb Hw Ho Hl He Hp] Hk Hu Hop.
  assert (Hnew : cek_at ks (set_wrap t h sc c n) h sc = Some cek).
  { unfold cek_at. rewrite lookup_set_wrap, decide_True by done. rewrite Hk. cbn [wrapped_cek w_nonce]. by rewrite Hu. }
  split.
  - intros h' sc' [[-> ->]|Hw']%wrapped_set_wrap; [|by apply (Hb h' sc')]. destruct Hop as (p & _ & _ & b & E & _). by exists b.
  - intros h' [sc' Hw']%Hw. exists sc'. apply wrapped_set_wrap. by right.
  - intros h' sc' c'. destruct (decide ((h', sc') = (h, sc))) as [[= -> ->]|Hne].
    + rewrite Hnew. intros [= <-]. exact Hop.
    + rewrite cek_set_wrap by done. apply Ho.
  - intros h' sc' Hd Hw'. destruct (decide ((h', sc') = (h, sc))) as [[= -> ->]|Hne]; [by rewrite Hnew|].
    rewrite cek_set_wrap by done. apply wrapped_set_wrap in Hw' as [[-> ->]|Hw']; [done|by apply Hl].
  - intros id e E Hd. eapply readable_mono; [|by apply He]. intros h' sc' Hw'. apply wrapped_set_wrap. by right.
  - intros sc' d r E Hd. apply wrapped_set_wrap. right. by eapply Hp.
Qed.
(** A new body with the first wrap of it. *)
Definition with_new_body t h (ct : list N) (n : Nonce) sc (c : list N) (n' : Nonce) : Tables :=
  set_wrap (with_bodies t (<[h := mk_body ct n 1]> (body_store t))) h sc c n'.
Lemma sound_new_body ks dead t h sc key p ct n c n' cek :
  sound ks dead t -> body_store t !! h = None -> ks sc = Ok key -> unwrap_cek key c n' h = Ok cek ->
  unseal cek n ct (body_table_aad h) = Ok p -> genuine p -> content_hash p = h ->
  sound ks dead (with_new_body t h ct n sc c n').
Proof.
  intros Hs Hno Hk Hu Hd Hg Hh. destruct Hs as [Hb Hw Ho Hl He Hp].
  set (t1 := with_bodies t (<[h := mk_body ct n 1]> (body_store t))).
  assert (Hfresh : forall sc', ~ wrapped_for t h sc') by (intros sc' [b E]%Hb; congruence).
  assert (Hnew : cek_at ks (set_wrap t1 h sc c n') h sc = Some cek).
  { unfold cek_at. rewrite lookup_set_wrap, decide_True by done. rewrite Hk. cbn [wrapped_cek w_nonce]. by rewrite Hu. }
  assert (Hlook : forall h', body_store (set_wrap t1 h sc c n') !! h' = if decide (h' = h) then Some (mk_body ct n 1) else body_store t !! h').
  { intros h'. cbn. rewrite lookup_insert. do 2 case_decide; naive_solver. }
  unfold with_new_body. fold t1. split.
  - intros h' sc' Hw'. rewrite Hlook. case_decide; [done|]. apply wrapped_set_wrap in Hw' as [[-> _]|Hw']; [done|by apply (Hb h' sc')].
  - intros h'. rewrite Hlook. case_decide as Eh.
    + subst h'. intros _. exists sc. apply wrapped_set_wrap. by left.
    + intros [sc' Hw']%Hw. exists sc'. apply wrapped_set_wrap. by right.
  - intros h' sc' c'. destruct (decide ((h', sc') = (h, sc))) as [[= -> ->]|Hne].
    + rewrite Hnew. intros [= <-]. exists p. do 2 (split; [done|]). exists (mk_body ct n 1). by rewrite Hlook, decide_True.
    + rewrite cek_set_wrap by done. change (cek_at ks t1 h' sc') with (cek_at ks t h' sc'). intros Hc.
      destruct (Ho _ _ _ Hc) as (q & Hq & Eq & b & Eb & Hop). exists q. do 2 (split; [done|]). exists b. split; [|done].
      rewrite Hlook, decide_False; [done|]. intros ->. apply (Hfresh sc'). unfold cek_at, wrapped_for in *. by destruct (_ !! _).
  - intros h' sc' Hdd Hw'. destruct (decide ((h', sc') = (h, sc))) as [[= -> ->]|Hne]; [by rewrite Hnew|].
    rewrite cek_set_wrap by done. apply wrapped_set_wrap in Hw' as [[-> ->]|Hw']; [done|by apply Hl].
  - intros id e E Hdd. eapply readable_mono; [|by apply He]. intros h' sc' Hw'. apply wrapped_set_wrap. by right.
  - intros sc' d r E Hdd. apply wrapped_set_wrap. right. by eapply Hp.
Qed.
(** The counter of references means nothing to it. *)
Lemma sound_bump ks dead t h : sound ks dead t -> sound ks dead (with_bodies t (alter bumped h (body_store t))).
Proof.
  intros [Hb Hw Ho Hl He Hp].
  assert (Hsome : forall h', is_Some (alter bumped h (body_store t) !! h') <-> is_Some (body_store t !! h')).
  { intros h'. destruct (decide (h' = h)) as [->|Hne]; [rewrite lookup_alter_eq; apply fmap_is_Some|by rewrite lookup_alter_ne]. }
  split; try done.
  - intros h' sc' Hw'. apply Hsome. by eapply Hb.
  - intros h' Hs%Hsome. by apply Hw.
  - intros h' sc' c Hc. destruct (Ho _ _ _ Hc) as (q & Hq & Eq & b & Eb & Hop). exists q. do 2 (split; [done|]).
    unfold opens_to. cbn [with_bodies body_store]. destruct (decide (h' = h)) as [->|Hne].
    + exists (bumped b). by rewrite lookup_alter_eq, Eb.
    + exists b. by rewrite lookup_alter_ne.
Qed.

(** ** Admitting a body *)

Definition sealing_total : Prop := forall (k : Key) n (q a : list N), is_Some (encrypt_aead k n q a).
Definition openable (ks : uuid -> result Key EvidenceError) t h : Prop := forall sc, wrapped_for t h sc -> is_Some (cek_at ks t h sc).
(** What an admission needs to succeed. *)
Definition smooth s sc h : Prop :=
  quiet s /\ (exists key, keys s sc = Ok key) /\ sealing_total /\ openable (keys s) (tables s) h.
Definition admitted dead s sc h s' : Prop :=
  conn (rows s') = conn (rows s) /\ sound (keys s) dead (tables s') /\ wrapped_for (tables s') h sc /\ same_rest (tables s) (tables s').

Definition admit_post dead s sc h (r : result unit EvidenceError) s' : Prop :=
  moved s s' /\ match r with Err _ => ~ smooth s sc h | Ok _ => admitted dead s sc h s' end.
(** A statement that changed nothing does not matter. *)
Lemma smooth_goes s s1 sc h : goes s (tables s) s1 -> smooth s sc h -> smooth s1 sc h.
Proof. intros [Hm Ht _] (Hq & Hk & Hst & Ho). unfold smooth. rewrite (mv_keys _ _ Hm), Ht. split; [by apply Hm|done]. Qed.
Lemma admit_post_goes dead s s1 sc h r s' : goes s (tables s) s1 -> admit_post dead s1 sc h r s' -> admit_post dead s sc h r s'.
Proof.
  intros Hg [Hm Hr]. split; [etrans; [apply Hg|done]|]. destruct r as [[]|e].
  - destruct Hr as (Hc & Hs & Hw & Hsr). destruct Hg as [Hm1 Ht Hc1]. rewrite Ht in Hsr. rewrite (mv_keys _ _ Hm1) in Hs.
    split; [congruence|done].
  - intros Hsm. by apply Hr, (smooth_goes _ _ _ _ Hg).
Qed.
Lemma sound_goes dead s s1 : goes s (tables s) s1 -> sound (keys s) dead (tables s) -> sound (keys s1) dead (tables s1).
Proof. intros [Hm Ht _]. by rewrite Ht, (mv_keys _ _ Hm). Qed.

Lemma donors_elem t h sc dsc w : (dsc, w) ∈ donors t h sc <-> body_store_key_wraps t !! (h, dsc) = Some w /\ dsc <> sc.
Proof.
  unfold donors. rewrite list_elem_of_omap. split.
  - intros ([[h' sc'] w'] & Hin & E). cbn in E. destruct (_ && _) eqn:Eb; [|done]. bool_to_prop. injection E as <- <-. subst h'.
    rewrite elem_of_hash_order, elem_of_map_to_list in Hin. done.
  - intros [E Hne]. exists ((h, dsc), w). rewrite elem_of_hash_order, elem_of_map_to_list. split; [done|]. cbn.
    rewrite bool_decide_eq_true_2 by done. destruct (dsc =? sc)%N eqn:Es; [bool_to_prop; done|done].
Qed.
Lemma donor_found t h sc dsc w : head (donors t h sc) = Some (dsc, w) -> body_store_key_wraps t !! (h, dsc) = Some w /\ dsc <> sc.
Proof. intros E. apply donors_elem. destruct (donors t h sc); [done|]. injection E as ->. by left. Qed.
Lemma donor_none t h sc : head (donors t h sc) = None -> forall sc', wrapped_for t h sc' -> sc' = sc.
Proof.
  intros E sc' [w Hw]. destruct (decide (sc' = sc)) as [|Hne]; [done|]. assert (Hin : (sc', w) ∈ donors t h sc) by by apply donors_elem.
  destruct (donors t h sc); [by apply not_elem_of_nil in Hin|done].
Qed.

Lemma insert_new_spec cek sc key p h s : body_store (tables s) !! h = None -> ~ wrapped_for (tables s) h sc ->
  wp (insert_new_approved_doc_body_in_tx cek sc key p h) s (fun r s' =>
    moved s s' /\
    match r with
    | Err _ => quiet s -> sealing_total -> False
    | Ok _ => exists ct n c n', unseal cek n ct (body_table_aad h) = Ok p /\ unwrap_cek key c n' h = Ok cek /\
                goes s (with_new_body (tables s) h ct n sc c n') s'
    end).
Proof.
  intros Hno Hnw. unfold insert_new_approved_doc_body_in_tx. apply wp_try, wp_draw. intros tk. apply wp_try, wp_lift.
  destruct (seal cek _ p _) as [ct|e] eqn:Es.
  2:{ split; [done|]. intros _ Ht. unfold seal in Es. destruct (Ht cek (tick_nonce tk) p (body_table_aad h)) as [c E]. by rewrite E in Es. }
  apply wp_try. unfold insert_body. apply wp_execute.
  { intros s1 [Hm _ _] Hq. split; [done|]. intros Hq' _. rewrite Hno in Hq. by destruct Hq. }
  intros t [] s1 Ht Hs1. rewrite Hno in Ht. injection Ht as <-. apply wp_try, wp_draw. intros tk'. apply wp_try, wp_lift.
  destruct (wrap_cek key cek _ h) as [c|e] eqn:Ew.
  2:{ split; [apply Hs1|]. intros _ Ht. unfold wrap_cek, seal in Ew.
      destruct (Ht key (tick_nonce tk') (key_bytes cek) (cek_wrap_aad h)) as [c E]. by rewrite E in Ew. }
  assert (Hnw1 : body_store_key_wraps (tables s1) !! (h, sc) = None).
  { rewrite (go_tables _ _ _ Hs1). destruct (body_store_key_wraps (tables s) !! (h, sc)) as [w|] eqn:E; [|exact E]. destruct Hnw. by exists w. }
  unfold insert_wrap. apply wp_execute.
  - intros s2 [Hm _ _] Hq. split; [etrans; [apply Hs1|done]|]. intros Hq' _. rewrite Hnw1 in Hq. destruct Hq as [Hq|]; [|done].
    by apply Hq, (mv_quiet _ _ (go_moved _ _ _ Hs1)).
  - intros t [] s2 Ht Hs2. rewrite Hnw1 in Ht. injection Ht as <-. rewrite (go_tables _ _ _ Hs1) in Hs2.
    assert (Hs := goes_trans _ _ _ _ _ Hs1 Hs2). split; [apply Hs|]. exists ct, (tick_nonce tk), c, (tick_nonce tk').
    split; [by eapply seal_opens|]. split; [by eapply wrap_opens|]. exact Hs.
Qed.
Lemma insert_new_sound dead cek sc key p h s : sound (keys s) dead (tables s) -> body_store (tables s) !! h = None ->
  keys s sc = Ok key -> genuine p -> content_hash p = h ->
  wp (insert_new_approved_doc_body_in_tx cek sc key p h) s (admit_post dead s sc h).
Proof.
  intros Hs Hno Hk Hg Hh. eapply wp_mono; [apply insert_new_spec; [done|]|].
  - intros [b E]%(so_body _ _ _ Hs). congruence.
  - intros [[]|e] s' [Hm Hr]; (split; [done|]).
    + destruct Hr as (ct & n & c & n' & Hct & Hc & [_ Ht Hcn]). split; [done|]. rewrite Ht. split; [by eapply sound_new_body|].
      split; [|done]. apply wrapped_set_wrap. by left.
    + intros (Hq & _ & Hst & _). by apply Hr.
Qed.
Lemma rewrap_spec donor_key key w h s :
  wp (rewrap donor_key key w h) s (fun r s' => s' = s /\
    match r with
    | Ok cn => exists cek, unwrap_cek donor_key (wrapped_cek w) (w_nonce w) h = Ok cek /\ unwrap_cek key cn.1 cn.2 h = Ok cek
    | Err _ => sealing_total -> exists e, unwrap_cek donor_key (wrapped_cek w) (w_nonce w) h = Err e
    end).
Proof.
  unfold rewrap. apply wp_try, wp_lift. destruct (unwrap_cek donor_key _ _ h) as [cek|e]; [|by split; [|intros; eexists]].
  apply wp_try, wp_draw. intros tk. apply wp_try, wp_lift. destruct (wrap_cek key cek _ h) as [c|e] eqn:Ew.
  - split; [done|]. exists cek. split; [done|]. by eapply wrap_opens.
  - split; [done|]. intros Ht. unfold wrap_cek, seal in Ew. destruct (Ht key (tick_nonce tk) (key_bytes cek) (cek_wrap_aad h)) as [c E]. by rewrite E in Ew.
Qed.
Lemma cek_of_wrap ks t h sc w key cek : body_store_key_wraps t !! (h, sc) = Some w -> ks sc = Ok key ->
  unwrap_cek key (wrapped_cek w) (w_nonce w) h = Ok cek -> cek_at ks t h sc = Some cek.
Proof. intros Ew Hk Hu. unfold cek_at. by rewrite Ew, Hk, Hu. Qed.
Lemma cek_parts ks t h sc w : body_store_key_wraps t !! (h, sc) = Some w -> is_Some (cek_at ks t h sc) ->
  exists key cek, ks sc = Ok key /\ unwrap_cek key (wrapped_cek w) (w_nonce w) h = Ok cek.
Proof.
  intros Ew [c Hc]. unfold cek_at in Hc. rewrite Ew in Hc. destruct (ks sc) as [key|]; [|done].
  destruct (unwrap_cek key _ _ h) as [cek|] eqn:E; [|done]. by exists key, cek.
Qed.

(** A body that is there already is wrapped for the scope, with a donor's key. *)
Lemma rewrapped_sound dead s h sc dsc w key dkey cn cek :
  sound (keys s) dead (tables s) -> body_store_key_wraps (tables s) !! (h, dsc) = Some w -> keys s dsc = Ok dkey -> keys s sc = Ok key ->
  unwrap_cek dkey (wrapped_cek w) (w_nonce w) h = Ok cek -> unwrap_cek key cn.1 cn.2 h = Ok cek ->
  sound (keys s) dead (set_wrap (tables s) h sc cn.1 cn.2).
Proof.
  intros Hs Ew Hdk Hk Hu Hu'. eapply sound_new_wrap; [done|exact Hk|exact Hu'|].
  apply (so_opens _ _ _ Hs h dsc). by eapply cek_of_wrap.
Qed.
(** No donor means no body: every body has a wrap. *)
Lemma no_donor_no_body ks dead t h sc : sound ks dead t -> head (donors t h sc) = None -> ~ wrapped_for t h sc -> body_store t !! h = None.
Proof.
  intros Hs Hd Hnw. destruct (body_store t !! h) as [b|] eqn:E; [|done]. destruct (so_wrapped _ _ _ Hs h) as [sc' Hw]; [by eexists|].
  by assert (sc' = sc) as -> by (eapply donor_none; done).
Qed.

(** A read in front of an admission. *)
Lemma admit_read {A} dead s sc h (f : Tables -> A) (k : A -> eff Store EvidenceError unit) :
  sound (keys s) dead (tables s) ->
  (forall s1, sound (keys s1) dead (tables s1) -> keys s1 = keys s -> tables s1 = tables s ->
     wp (k (f (tables s1))) s1 (admit_post dead s1 sc h)) ->
  wp (try_eff (query f) k) s (admit_post dead s sc h).
Proof.
  intros Hs Hk. apply wp_try, wp_query; [intros s1 [Hm _ _] Hq; split; [done|]; by intros (? & _)|]. intros s1 Hs1.
  refine (wp_mono _ s1 _ _ _ (fun r s' => admit_post_goes dead s s1 sc h r s' Hs1)).
  rewrite <- (go_tables _ _ _ Hs1). apply Hk; [by eapply sound_goes|apply Hs1..].
Qed.
Lemma admit_approved_spec dead cek sc p h s : sound (keys s) dead (tables s) -> genuine p -> content_hash p = h ->
  wp (admit_approved_doc_body_in_tx cek sc p h) s (admit_post dead s sc h).
Proof.
  intros Hs Hg Hh. unfold admit_approved_doc_body_in_tx. apply wp_try, wp_fetch_key.
  destruct (keys s sc) as [key|e] eqn:Ek; [|split; [done|]; intros (_ & [k E] & _); congruence].
  apply admit_read; [done|]. intros s1 Hs1 Ek1 Et1. rewrite <- Ek1 in Ek. clear Et1 Ek1 Hs s. rename s1 into s. case_bool_decide as Hb.
  2:{ apply insert_new_sound; try done. by apply eq_None_not_Some. }
  apply admit_read; [done|]. intros s1 Hs Ek1 Et1. rewrite <- Ek1 in Ek. rewrite <- Et1 in Hb. clear Et1 Ek1 Hs1 s. rename s1 into s.
  case_bool_decide as Hw; [apply wp_ret; by split|].
  apply admit_read; [done|]. intros s1 Hs1 Ek1 Et1. rewrite <- Ek1 in Ek. rewrite <- Et1 in Hb, Hw. clear Et1 Ek1 Hs s. rename s1 into s.
  destruct (head (donors (tables s) h sc)) as [[dsc w]|] eqn:Ed.
  2:{ exfalso. assert (E := no_donor_no_body _ _ _ _ _ Hs1 Ed Hw). rewrite E in Hb. by destruct Hb. }
  apply donor_found in Ed as [Ew Hne]. apply wp_try, wp_fetch_key. destruct (keys s dsc) as [dkey|e] eqn:Edk.
  2:{ split; [done|]. intros (_ & _ & _ & Ho). destruct (cek_parts _ _ _ _ _ Ew (Ho dsc (ex_intro _ w Ew))) as (k & _ & E & _). congruence. }
  eapply wp_bind; [apply rewrap_spec|..].
  { intros s' e [-> He]. split; [done|]. intros (_ & _ & Hst & Ho). destruct (He Hst) as [e' He'].
    destruct (cek_parts _ _ _ _ _ Ew (Ho dsc (ex_intro _ w Ew))) as (k & c & E & Hc). congruence. }
  intros s' cn [-> (ck & Hu & Hu')].
  assert (Hnew := rewrapped_sound dead s h sc dsc w key dkey cn ck Hs1 Ew Edk Ek Hu Hu').
  apply wp_try. unfold insert_wrap. assert (Hno : body_store_key_wraps (tables s) !! (h, sc) = None) by by apply eq_None_not_Some.
  apply wp_execute; [intros s' [Hm _ _] Hq; split; [done|]; rewrite Hno in Hq; destruct Hq as [Hq|]; [by intros (? & _)|done]|].
  intros t [] s' Ht Hs'. rewrite Hno in Ht. injection Ht as <-. unfold bump_ref_count. apply wp_update.
  - intros s2 Hs2 Hq. split; [etrans; [apply Hs'|apply Hs2]|]. intros (Hq' & _). by apply Hq, (mv_quiet _ _ (go_moved _ _ _ Hs')).
  - intros s2 Hs2. assert (Hgo := goes_trans _ _ _ _ _ Hs' Hs2). destruct Hgo as [Hm Ht Hc]. split; [done|]. split; [done|].
    rewrite Ht, (go_tables _ _ _ Hs'). split; [by apply sound_bump|]. split; [|done]. apply wrapped_set_wrap. by left.
Qed.

(** What [dedup_donor] read, before the transaction. *)
Definition donor_of s h sc (donor : option (WrapRow (Nonce := Nonce) * Key)) : Prop :=
  match donor with
  | Some (w, dkey) => exists dsc, body_store_key_wraps (tables s) !! (h, dsc) = Some w /\ keys s dsc = Ok dkey
  | None => head (donors (tables s) h sc) = None
  end.
Lemma admit_post_bump dead s s1 sc h r s' : goes s (with_bodies (tables s) (alter bumped h (body_store (tables s)))) s1 ->
  admit_post dead s1 sc h r s' -> admit_post dead s sc h r s'.
Proof.
  intros [Hm Ht Hc] [Hm' Hr]. split; [by etrans|]. destruct r as [[]|e].
  - destruct Hr as (Hc1 & Hs & Hw & Hsr). rewrite (mv_keys _ _ Hm) in Hs. rewrite Ht in Hsr. split; [congruence|]. by split.
  - intros (Hq & Hk & Hst & Ho). apply Hr. unfold smooth. rewrite (mv_keys _ _ Hm), Ht. split; [by apply Hm|]. by split.
Qed.
Lemma admit_ingested_spec dead cek sc key p h donor s : sound (keys s) dead (tables s) -> genuine p -> content_hash p = h ->
  keys s sc = Ok key -> donor_of s h sc donor ->
  wp (admit_ingested_body cek sc key p h donor) s (admit_post dead s sc h).
Proof.
  intros Hs Hg Hh Ek Hd. unfold admit_ingested_body.
  apply admit_read; [done|]. intros s1 Hs1 Ek1 Et1. unfold donor_of in Hd. rewrite <- Ek1, <- Et1 in Hd. rewrite <- Ek1 in Ek.
  clear Et1 Ek1 Hs s. rename s1 into s. case_bool_decide as Hb.
  2:{ apply insert_new_sound; try done. by apply eq_None_not_Some. }
  apply wp_try. unfold bump_ref_count. apply wp_update; [intros s1 [Hm _ _] Hq; split; [done|]; by intros (? & _)|].
  intros s1 Hb1. refine (wp_mono _ s1 _ _ _ (fun r s' => admit_post_bump dead s s1 sc h r s' Hb1)).
  assert (Hs : sound (keys s1) dead (tables s1)).
  { rewrite (mv_keys _ _ (go_moved _ _ _ Hb1)), (go_tables _ _ _ Hb1). by apply sound_bump. }
  assert (Hd1 : donor_of s1 h sc donor).
  { unfold donor_of. by rewrite (mv_keys _ _ (go_moved _ _ _ Hb1)), (go_tables _ _ _ Hb1). }
  assert (Hbb : is_Some (body_store (tables s1) !! h)).
  { rewrite (go_tables _ _ _ Hb1). cbn [with_bodies body_store]. rewrite lookup_alter_eq. by apply fmap_is_Some. }
  rewrite <- (mv_keys _ _ (go_moved _ _ _ Hb1)) in Ek. clear Hs1 Hd Hb1 Hb.
  apply admit_read; [done|]. intros s2 Hs2 Ek2 Et2. unfold donor_of in Hd1. rewrite <- Ek2, <- Et2 in Hd1. rewrite <- Ek2 in Ek. rewrite <- Et2 in Hbb.
  clear Et2 Ek2 Hs s1. case_bool_decide as Hw; [apply wp_ret; by split|]. destruct donor as [[w dkey]|].
  2:{ assert (E := no_donor_no_body _ _ _ _ _ Hs2 Hd1 Hw).
      rewrite E in Hbb. by destruct Hbb. }
  destruct Hd1 as (dsc & Ew & Edk). eapply wp_bind; [apply rewrap_spec|..].
  { intros s' e [-> He]. split; [done|]. intros (_ & _ & Hst & Ho). destruct (He Hst) as [e' He'].
    destruct (cek_parts _ _ _ _ _ Ew (Ho dsc (ex_intro _ w Ew))) as (k & c & E & Hc). congruence. }
  intros s' cn [-> (ck & Hu & Hu')].
  assert (Hnew := rewrapped_sound dead s2 h sc dsc w key dkey cn ck Hs2 Ew Edk Ek Hu Hu').
  unfold insert_or_ignore_wrap. rewrite <- eq_None_not_Some in Hw.
  apply wp_update; [intros s' [Hm _ _] Hq; split; [done|]; by intros (? & _)|]. rewrite Hw.
  intros s' [Hm Ht Hc]. split; [done|]. split; [done|]. rewrite Ht. split; [done|]. split; [|done]. apply wrapped_set_wrap. by left.
Qed.

(** ** Storing evidence *)

(** A row for [p] in [sc] has been added, or nothing changed. *)
Definition ingested dead id sc p s s' : Prop :=
  moved s s' /\ conn (rows s') = conn (rows s) /\ sound (keys s) dead (tables s') /\ evidence (tables s) !! id = None /\
  approved_document_payloads (tables s') = approved_document_payloads (tables s) /\
  exists e, evidence (tables s') = <[id := e]> (evidence (tables s)) /\ e_scope e = sc /\ e_hash e = content_hash p.
Definition ingest_post dead id sc p path s (r : result IngestResult EvidenceError) s' : Prop :=
  match r with
  | Err _ => goes s (tables s) s' /\ ~ (smooth s sc (content_hash p) /\ evidence (tables s) !! id = None)
  | Ok res => res = mk_ingest id path (content_hash p) /\ ingested dead id sc p s s'
  end.

Lemma sound_evidence ks dead t id e : sound ks dead t -> readable ks t id e -> evidence t !! id = None ->
  sound ks dead (with_evidence t (<[id := e]> (evidence t))).
Proof.
  intros [Hb Hw Ho Hl He Hp] Hr Hno. split; try done. intros id' e'. cbn [with_evidence evidence]. rewrite lookup_insert.
  case_decide; subst; [intros [= <-] _; exact Hr|apply He].
Qed.
Lemma ingested_goes dead id sc p s s1 s2 : ingested dead id sc p s s1 -> goes s1 (tables s1) s2 -> ingested dead id sc p s s2.
Proof.
  intros (Hm & Hc & Hs & Hno & Hp & e & He) [Hm2 Ht Hc2]. split; [by etrans|]. rewrite Ht. split; [congruence|].
  do 3 (split; [done|]). by exists e.
Qed.
Lemma ingested_from dead id sc p s s1 s2 : goes s (tables s) s1 -> ingested dead id sc p s1 s2 -> ingested dead id sc p s s2.
Proof.
  intros [Hm Ht Hc] (Hm2 & Hc2 & Hs & Hno & Hp & e & He). unfold ingested. rewrite Ht in *. rewrite (mv_keys _ _ Hm) in Hs.
  split; [by etrans|]. split; [congruence|]. do 3 (split; [done|]). by exists e.
Qed.
(** The last statements of an ingestion: the row, then the index. *)
Lemma insert_evidence_spec dead id sc p e s0 s : conn (rows s) = conn (rows s0) -> sound (keys s0) dead (tables s) ->
  same_rest (tables s0) (tables s) -> moved s0 s ->
  readable (keys s0) (tables s) id e -> e_scope e = sc -> e_hash e = content_hash p ->
  wp (do? _ := insert_evidence id e in index_fts) s (fun r s' =>
    moved s0 s' /\ match r with
                   | Err _ => ~ quiet s0 \/ evidence (tables s0) !! id <> None
                   | Ok _ => ingested dead id sc p s0 s'
                   end) .
Proof.
  intros Hc Hs [He Hp] Hm Hr Hsc Hh. apply wp_try. unfold insert_evidence. apply wp_execute.
  - intros s1 [Hm1 _ _] Hq. split; [by etrans|]. destruct Hq as [Hq|Hq]; [left; intros Hq'; by apply Hq, Hm|right].
    rewrite <- He. by destruct (evidence (tables s) !! id).
  - intros t [] s1 Ht Hs1. destruct (evidence (tables s) !! id) eqn:Eid; [done|]. injection Ht as <-.
    unfold index_fts. apply wp_query; intros s2 Hs2.
    + intros Hq. split; [etrans; [done|]; etrans; [apply Hs1|apply Hs2]|]. left. intros Hq'. by apply Hq, Hs1, Hm.
    + assert (Hg := goes_trans _ _ _ _ _ Hs1 Hs2). destruct Hg as [Hm2 Ht Hc2].
      assert (Hm' : moved s0 s2) by by etrans. split; [done|]. split; [done|]. split; [congruence|].
      rewrite Ht, (go_tables _ _ _ Hs1). cbn [with_evidence evidence approved_document_payloads].
      split; [by apply sound_evidence|]. split; [congruence|]. split; [done|]. exists e. by rewrite He.
Qed.

Lemma ingest_inline_spec dead io sc p source imp language s : sound (keys s) dead (tables s) -> genuine p ->
  wp (ingest_inline io sc p source imp (content_hash p) language) s (ingest_post dead (io_id io) sc p Inline s).
Proof.
  intros Hs Hg. unfold ingest_inline. apply wp_try, wp_fetch_key. destruct (keys s sc) as [key|e] eqn:Ek.
  2:{ split; [apply goes_refl|]. intros [(_ & [k E] & _) _]. congruence. }
  apply wp_try, wp_draw. intros tk. apply wp_try, wp_lift. destruct (seal key _ p _) as [c|e] eqn:Es.
  2:{ split; [apply goes_refl|]. intros [(_ & _ & Hst & _) _]. unfold seal in Es.
      destruct (Hst key (tick_nonce tk) p (ingest_aad sc (io_id io) (content_hash p))) as [c E]. by rewrite E in Es. }
  cbn zeta. apply wp_try, wp_transaction; [intros s' Hs' Hq; split; [done|]; by intros [(? & _) _]|]. intros s1 Hs1.
  eapply wp_mono; [apply (insert_evidence_spec dead (io_id io) sc p _ s s1)|].
  - apply Hs1.
  - by rewrite (go_tables _ _ _ Hs1).
  - by rewrite (go_tables _ _ _ Hs1).
  - apply Hs1.
  - unfold readable. cbn [storage_path]. exists key, c, (tick_nonce tk), p. do 3 (split; [done|]). split; [by eapply seal_opens|done].
  - done.
  - done.
  - intros [[]|e] s2 [Hm Hr]; (split; [done|]); intros s' Hs'.
    + apply wp_ret. split; [done|]. by eapply ingested_goes.
    + split; [done|]. intros [(Hq & _) Hno]. by destruct Hr.
Qed.
Lemma dedup_donor_spec h sc s :
  wp (dedup_donor h sc) s (fun r s' => goes s (tables s) s' /\
    match r with
    | Ok donor => donor_of s h sc donor
    | Err _ => quiet s -> openable (keys s) (tables s) h -> False
    end).
Proof.
  unfold dedup_donor. apply wp_try. unfold find_donor. apply wp_query; [intros s1 Hs1 Hq; by split|]. intros s1 Hs1.
  destruct (head (donors (tables s) h sc)) as [[dsc w]|] eqn:Ed; [|by apply wp_ret]. apply donor_found in Ed as [Ew _].
  apply wp_try, wp_fetch_key. rewrite (mv_keys _ _ (go_moved _ _ _ Hs1)). destruct (keys s dsc) as [dkey|e] eqn:Ek.
  - apply wp_ret. split; [done|]. by exists dsc.
  - split; [done|]. intros _ Ho. destruct (cek_parts _ _ _ _ _ Ew (Ho dsc (ex_intro _ w Ew))) as (k & _ & E & _). congruence.
Qed.
Lemma ingest_body_table_spec dead io sc p source imp language s : sound (keys s) dead (tables s) -> genuine p ->
  wp (ingest_body_table io sc p source imp (content_hash p) language) s (ingest_post dead (io_id io) sc p BodyTable s).
Proof.
  intros Hs Hg. unfold ingest_body_table. apply wp_try, wp_fetch_key. destruct (keys s sc) as [key|e] eqn:Ek.
  2:{ split; [apply goes_refl|]. intros [(_ & [k E] & _) _]. congruence. }
  eapply wp_bind; [apply dedup_donor_spec|..].
  { intros s1 e [Hs1 Hr]. split; [done|]. intros [(Hq & _ & _ & Ho) _]. by apply Hr. }
  intros s1 donor [Hs1 Hd]. apply wp_try, wp_transaction.
  { intros s' Hs' Hq. split; [rewrite (go_tables _ _ _ Hs1) in Hs'; by eapply goes_trans|]. intros [(Hq' & _) _]. by apply Hq, Hs1. }
  intros s2 Hs2. assert (Hg2 := goes_trans _ _ _ _ _ Hs1 Hs2). rewrite (go_tables _ _ _ Hs1) in Hg2.
  eapply wp_bind; [apply (admit_ingested_spec dead (io_cek io) sc key p (content_hash p) donor s2)|..]; try done.
  - by eapply sound_goes.
  - by rewrite (mv_keys _ _ (go_moved _ _ _ Hg2)).
  - unfold donor_of. by rewrite (mv_keys _ _ (go_moved _ _ _ Hg2)), (go_tables _ _ _ Hg2).
  - intros s3 e [Hm Hr]. split; [etrans; [apply Hs2|done]|]. intros s' Hs'. rewrite (go_tables _ _ _ Hs1) in Hs'.
    split; [exact (goes_trans _ _ _ _ _ Hs1 Hs')|]. intros [Hsm _]. by apply Hr, (smooth_goes _ _ _ _ Hg2).
  - intros s3 [] [Hm (Hc3 & Hs3 & Hw3 & Hsr3)]. apply wp_try, wp_draw. intros tk. cbn zeta.
    eapply wp_mono; [apply (insert_evidence_spec dead (io_id io) sc p _ s1 s3)|].
    + by rewrite Hc3, (go_conn _ _ _ Hs2).
    + by rewrite <- (mv_keys _ _ (go_moved _ _ _ Hs2)).
    + by rewrite <- (go_tables _ _ _ Hs2).
    + etrans; [apply Hs2|done].
    + by split.
    + done.
    + done.
    + intros [[]|e] s4 [Hm4 Hr]; (split; [done|]); intros s' Hs'.
      * apply wp_ret. split; [done|]. eapply ingested_from; [exact Hs1|]. by eapply ingested_goes.
      * rewrite (go_tables _ _ _ Hs1) in Hs', Hr. split; [exact (goes_trans _ _ _ _ _ Hs1 Hs')|]. intros [(Hq & _) Hno].
        destruct Hr as [Hr|Hr]; [|done]. by apply Hr, Hs1.
Qed.

Lemma sound_ring ks dead t m n : sound ks dead t -> sound ks dead (with_ring t m n).
Proof. intros []. by split. Qed.
(** Noise goes to the ring buffer; anything else becomes a row of evidence. *)
Definition stored_post dead id sc p path s (r : result IngestResult EvidenceError) s' : Prop :=
  match path with
  | RingBuffer => ring_only s s' /\ forall res, r = Ok res -> res = mk_ingest id RingBuffer (content_hash p)
  | _ => ingest_post dead id sc p path s r s'
  end.
Lemma stored_spec dead io sc p source imp language s : sound (keys s) dead (tables s) -> genuine p ->
  wp (ingest_with_language io sc p source imp language) s
    (stored_post dead (io_id io) sc p (route_storage_with_threshold (length p) imp (inline_threshold_bytes s)) s).
Proof.
  intros Hs Hg. unfold wp, ingest_with_language. destruct (route_storage_with_threshold _ _ _).
  - by apply ingest_inline_spec.
  - by apply ingest_body_table_spec.
  - change (wp (do? _ := ring_buffer_insert sc p in ret (mk_ingest (io_id io) RingBuffer (content_hash p))) s
              (fun r s' => ring_only s s' /\ forall res, r = Ok res -> res = mk_ingest (io_id io) RingBuffer (content_hash p))).
    apply wp_try. eapply wp_mono; [apply ring_only_insert|]. intros [[]|e] s' Hr; [apply wp_ret|]; (split; [done|]); by intros ? [= <-].
Qed.

(** ** Storing approved payloads *)

Definition payload_size_of p : Z := Z.min (Z.of_nat (length p)) (Z.of_N i64_max).
Definition saved dead sc d p s s' : Prop :=
  conn (rows s') = conn (rows s) /\ sound (keys s) dead (tables s') /\ evidence (tables s') = evidence (tables s) /\
  exists r, approved_document_payloads (tables s') = <[(sc, d) := r]> (approved_document_payloads (tables s)) /\
    p_hash r = content_hash p /\ size_bytes r = payload_size_of p.
Lemma sound_payload ks dead t sc d r : sound ks dead t -> wrapped_for t (p_hash r) sc ->
  sound ks dead (with_payloads t (<[(sc, d) := r]> (approved_document_payloads t))).
Proof.
  intros [Hb Hw Ho Hl He Hp] Hr. split; try done. intros sc' d' r'. cbn [with_payloads approved_document_payloads].
  rewrite lookup_insert. case_decide; [intros [= <-] _; simplify_eq; exact Hr|apply Hp].
Qed.
Lemma save_in_tx_spec dead cek sc d p s : sound (keys s) dead (tables s) -> genuine p ->
  wp (save_approved_document_payload_in_tx cek sc d p (content_hash p)) s (fun r s' =>
    moved s s' /\ match r with Err _ => ~ smooth s sc (content_hash p) | Ok _ => saved dead sc d p s s' end).
Proof.
  intros Hs Hg. unfold save_approved_document_payload_in_tx.
  eapply wp_bind; [by apply (admit_approved_spec dead cek sc p _ s Hs Hg)|by intros s1 e H1|].
  intros s1 [] [Hm (Hc & Hs1 & Hw & He & Hp)]. apply wp_try, wp_draw. intros tk. cbn zeta. apply wp_update; intros s2 Hs2.
  - intros Hq. split; [etrans; [done|apply Hs2]|]. intros (Hq' & _). by apply Hq, Hm.
  - destruct Hs2 as [Hm2 Ht Hc2]. split; [by etrans|]. split; [congruence|]. rewrite Ht.
    cbn [with_payloads evidence approved_document_payloads]. split; [by apply sound_payload|]. split; [done|].
    eexists. rewrite Hp. by split.
Qed.
Lemma save_payload_spec dead cek sc d p s : sound (keys s) dead (tables s) -> genuine p ->
  wp (save_approved_document_payload cek sc d p (content_hash p)) s (fun r s' =>
    moved s s' /\ match r with
                  | Err _ => goes s (tables s) s' /\ ~ smooth s sc (content_hash p)
                  | Ok _ => saved dead sc d p s s'
                  end).
Proof.
  intros Hs Hg. unfold save_approved_document_payload. apply wp_transaction.
  - intros s' Hs' Hq. split; [apply Hs'|]. split; [done|]. by intros (? & _).
  - intros s1 Hs1. eapply wp_mono; [apply (save_in_tx_spec dead cek sc d p s1); [by eapply sound_goes|done]|].
    intros [[]|e] s2 [Hm Hr]; (split; [etrans; [apply Hs1|done]|]); intros s' Hs'.
    + split; [etrans; [apply Hs1|]; etrans; [done|apply Hs']|]. destruct Hr as (Hc & Hs2 & He & r & Hp & Hh).
      destruct Hs1 as [Hm1 Ht1 Hc1], Hs' as [Hm' Ht' Hc']. rewrite (mv_keys _ _ Hm1) in Hs2. rewrite Ht1 in He, Hp.
      split; [congruence|]. rewrite Ht'. do 2 (split; [done|]). by exists r.
    + split; [apply Hs'|]. split; [done|]. intros Hsm. by apply Hr, (smooth_goes _ _ _ _ Hs1).
Qed.
Lemma sound_fewer_payloads ks dead t m : m ⊆ approved_document_payloads t -> sound ks dead t -> sound ks dead (with_payloads t m).
Proof. intros Hm [Hb Hw Ho Hl He Hp]. split; try done. intros sc d r Hr. eapply Hp. by eapply lookup_weaken. Qed.

(** ** Reading *)

Lemma read_wrapped dead s h sc : sound (keys s) dead (tables s) -> sc ∉ dead -> wrapped_for (tables s) h sc ->
  exists key w cek b p, keys s sc = Ok key /\ body_store_key_wraps (tables s) !! (h, sc) = Some w /\
    unwrap_cek key (wrapped_cek w) (w_nonce w) h = Ok cek /\ body_store (tables s) !! h = Some b /\
    unseal cek (b_nonce b) (b_ciphertext b) (body_table_aad h) = Ok p /\ genuine p /\ content_hash p = h.
Proof.
  intros Hs Hd Hw. destruct (so_live _ _ _ Hs h sc Hd Hw) as [c Hc]. destruct Hw as [w Ew].
  destruct (cek_parts _ _ _ _ _ Ew (ex_intro _ c Hc)) as (key & cek & Hk & Hu).
  assert (c = cek) as -> by (rewrite (cek_of_wrap _ _ _ _ _ _ _ Ew Hk Hu) in Hc; congruence).
  destruct (so_opens _ _ _ Hs h sc cek Hc) as (p & Hp & Eh & b & Eb & Hb). by exists key, w, cek, b, p.
Qed.
(** A read that answers, unless a statement fails. *)
Definition answers {A} s (a : result A EvidenceError) (r : result A EvidenceError) s' : Prop :=
  goes s (tables s) s' /\ (r = a \/ r = Err Sqlite /\ ~ quiet s).
Lemma answers_query {A B} (f : Tables -> B) (k : B -> eff Store EvidenceError A) s a :
  (forall s1, keys s1 = keys s -> tables s1 = tables s -> wp (k (f (tables s1))) s1 (answers s1 a)) ->
  wp (try_eff (query f) k) s (answers s a).
Proof.
  intros Hk. apply wp_try, wp_query; [intros s1 Hs1 Hq; split; [done|by right]|]. intros s1 Hs1. rewrite <- (go_tables _ _ _ Hs1).
  eapply wp_mono; [apply Hk; apply Hs1|]. intros r s2 [Hs2 Hr]. rewrite (go_tables _ _ _ Hs1) in Hs2.
  split; [by eapply goes_trans|]. destruct Hr as [->|[-> Hq]]; [by left|right]. split; [done|]. intros Hq'. by apply Hq, Hs1.
Qed.
Lemma answers_now {A} s (a : result A EvidenceError) : answers s a a s.
Proof. split; [apply goes_refl|by left]. Qed.
Lemma answers_lift {A B} (b : B) (k : B -> eff Store EvidenceError A) s a : wp (k b) s (answers s a) -> wp (try_eff (lift (Ok b)) k) s (answers s a).
Proof. done. Qed.

Lemma read_body_spec dead id s : sound (keys s) dead (tables s) ->
  match evidence (tables s) !! id with
  | None => wp (read_body id) s (answers s (Err (NotFound "evidence_id" id)))
  | Some e => e_scope e ∉ dead -> exists p, genuine p /\ content_hash p = e_hash e /\ wp (read_body id) s (answers s (Ok p))
  end.
Proof.
  intros Hs. destruct (evidence (tables s) !! id) as [e|] eqn:Ee.
  - intros Hd. assert (Hr := so_evidence _ _ _ Hs id e Ee Hd). unfold readable in Hr.
    unfold read_body. destruct (storage_path e) eqn:Ep; [..|done].
    + destruct Hr as (key & c & n & p & Hk & Hb & Hn & Hu & Hg & Hh). exists p. do 2 (split; [done|]).
      apply answers_query. intros s1 Ek Et. rewrite Et, Ee. apply answers_lift. rewrite Ep.
      apply wp_try, wp_fetch_key. rewrite Ek, Hk, Hb, Hn. do 2 apply answers_lift. rewrite Hu. apply answers_now.
    + destruct Hr as [Hr Hw]. destruct (read_wrapped dead s _ _ Hs Hd Hw) as (key & w & cek & b & p & Hk & Ew & Hu & Eb & Ho & Hg & Hh).
      exists p. do 2 (split; [done|]).
      apply answers_query. intros s1 Ek Et. rewrite Et, Ee. apply answers_lift. rewrite Ep, Hr. apply answers_lift.
      apply answers_query. intros s2 Ek2 Et2. rewrite Et2, Et, Eb. apply answers_lift. apply wp_try, wp_fetch_key.
      rewrite Ek2, Ek, Hk. apply answers_query. intros s3 Ek3 Et3. rewrite Et3, Et2, Et, Ew. apply answers_lift.
      rewrite Hu. apply answers_lift. rewrite Ho. apply answers_now.
  - unfold read_body. apply answers_query. intros s1 _ Et. rewrite Et, Ee. apply answers_now.
Qed.
Lemma load_payload_spec dead sc d s : sound (keys s) dead (tables s) ->
  match approved_document_payloads (tables s) !! (sc, d) with
  | None => wp (load_approved_document_payload sc d) s (answers s (Ok None))
  | Some r => sc ∉ dead -> exists p, genuine p /\ content_hash p = p_hash r /\
                wp (load_approved_document_payload sc d) s (answers s (Ok (Some p)))
  end.
Proof.
  intros Hs. destruct (approved_document_payloads (tables s) !! (sc, d)) as [row|] eqn:Er.
  - intros Hd. assert (Hw := so_payload _ _ _ Hs sc d row Er Hd).
    destruct (read_wrapped dead s _ _ Hs Hd Hw) as (key & w & cek & b & p & Hk & Ew & Hu & Eb & Ho & Hg & Hh).
    exists p. do 2 (split; [done|]). unfold load_approved_document_payload.
    apply answers_query. intros s1 Ek Et. rewrite Et, Er. unfold load_approved_doc_body.
    assert (Hbody : wp (load_approved_doc_body sc (p_hash row)) s1 (answers s1 (Ok (Some p)))).
    { unfold load_approved_doc_body. apply answers_query. intros s2 Ek2 Et2. rewrite Et2, Et, Ew.
      apply wp_try, wp_fetch_key. rewrite Ek2, Ek, Hk, Hu. apply answers_lift.
      apply answers_query. intros s3 Ek3 Et3. rewrite Et3, Et2, Et, Eb, Ho. apply answers_lift, answers_now. }
    eapply wp_bind; [exact Hbody|..].
    + intros s2 e [Hs2 [[=]|[[= ->] Hq]]]. split; [done|by right].
    + intros s2 a [Hs2 [[= ->]|[[=] _]]]. apply wp_try, wp_lift, wp_ret. split; [done|by left].
  - unfold load_approved_document_payload. apply answers_query. intros s1 _ Et. rewrite Et, Er. apply answers_now.
Qed.
End Invariant.
