(* ===== verification/BodyLife.v ===== *)
(** * The life of evidence bodies ([evidence_store/src/store.rs])

    What forgetting a scope does to the body tables, and the theorems on every
    sequence of ingestions, payload writes, deletions and forgettings: what a live
    scope reads, that no ciphertext is left without a key, what forgetting erases, and
    what a leftover wrap of a forgotten scope prevents. *)

From S2P Require Import Prelude SynthesisStore EvidenceTables RingBuffer BodyStore BodyInvariant.

Lemma concat_chunks_fuel {A} fuel n (l : list A) : (0 < n)%nat -> (length l <= fuel)%nat -> concat (chunks_fuel fuel n l) = l.
Proof.
  intros Hn. revert l. induction fuel as [|fuel IH]; intros [|x l] Hf; cbn [chunks_fuel concat length] in *; [done|lia|done|].
  rewrite IH; [apply take_drop|]. rewrite length_drop. cbn [length]. lia.
Qed.
(** Cutting a list in pieces loses nothing. *)
Lemma concat_chunks {A} n (l : list A) : (0 < n)%nat -> concat (chunks n l) = l.
Proof. intros Hn. by apply concat_chunks_fuel. Qed.

Section Life.
Context {Key Nonce Bytes Hash : Type} `{Countable Hash}.
Context {BE : Aead Key Nonce (list N)} {IN : Inhabited Nonce} {HO : HashOrder}.
Context {CH : ContentHashing Hash} {KB : KeyBytes Key}.
#[local] Notation Store := (@Store Key Nonce Bytes Hash _ _).
#[local] Notation Tables := (@Tables Nonce Hash _ _).
Implicit Types (s : Store) (t : Tables) (h : Hash) (sc id d : uuid) (p : list N) (dead : gset uuid).
Context (genuine : list N -> Prop).
#[local] Notation sound := (sound genuine).

(** ** Forgetting *)

Lemma wrapped_exists t h : wrapped t h = true <-> exists sc, wrapped_for t h sc.
Proof.
  unfold wrapped, wrapped_for. rewrite existsb_exists. split.
  - intros ([h' sc] & Hin & Eb). cbn in Eb. bool_to_prop. subst h'. exists sc.
    apply list_elem_of_In, list_elem_of_fmap in Hin as ([k w] & Ek & Hin). cbn in Ek. subst k.
    apply elem_of_map_to_list in Hin. by eexists.
  - intros [sc [w Hw]]. exists (h, sc). split; [|by apply bool_decide_eq_true_2].
    apply list_elem_of_In, list_elem_of_fmap. exists ((h, sc), w). split; [done|]. by apply elem_of_map_to_list.
Qed.
(** The tables once the wraps of a scope, and the bodies only it held, are gone. *)
Definition without_wraps t sc : Tables :=
  with_wraps t (base.filter (fun kv : Hash * uuid * WrapRow (Nonce := Nonce) => kv.1.2 <> sc) (body_store_key_wraps t)).
Definition forgotten_tables t sc : Tables := delete_unwrapped (fun _ => true) (without_wraps t sc).

Lemma wrapped_without t sc h sc' : wrapped_for (without_wraps t sc) h sc' <-> wrapped_for t h sc' /\ sc' <> sc.
Proof.
  unfold wrapped_for, without_wraps. cbn [with_wraps body_store_key_wraps]. split.
  - intros [w Hw]. apply map_lookup_filter_Some in Hw as [Hw Hne]. by split; [eexists|].
  - intros [[w Hw] Hne]. exists w. by apply map_lookup_filter_Some.
Qed.
Lemma lookup_delete_unwrapped among t h b :
  body_store (delete_unwrapped among t) !! h = Some b <-> body_store t !! h = Some b /\ (among h = false \/ exists sc, wrapped_for t h sc).
Proof.
  unfold delete_unwrapped. cbn [with_bodies body_store]. rewrite map_lookup_filter_Some. cbn [fst].
  rewrite <- wrapped_exists. destruct (among h), (wrapped t h); cbn; naive_solver.
Qed.
Lemma delete_unwrapped_compose f g t : delete_unwrapped f (delete_unwrapped g t) = delete_unwrapped (fun h => f h || g h) t.
Proof.
  unfold delete_unwrapped. cbn [with_bodies body_store body_store_key_wraps evidence approved_document_payloads ring_buffer ring_seq reclassification_overrides].
  unfold with_bodies. cbn. f_equal. apply map_eq. intros h. apply option_eq. intros b.
  rewrite !map_lookup_filter_Some. cbn [fst]. unfold wrapped. cbn [body_store_key_wraps].
  destruct (f h), (g h), (existsb _ _); cbn; naive_solver.
Qed.
Lemma delete_unwrapped_ext f g t : (forall h, is_Some (body_store t !! h) -> wrapped t h = false -> f h = g h) ->
  delete_unwrapped f t = delete_unwrapped g t.
Proof.
  intros Hfg. unfold delete_unwrapped. f_equal. apply map_eq. intros h. apply option_eq. intros b.
  rewrite !map_lookup_filter_Some. cbn [fst]. split; intros [Hb Hw]; (split; [done|]);
    destruct (wrapped t h) eqn:Ew; try (by apply orb_true_r); rewrite (Hfg h) in * by (done || by eexists); done.
Qed.
Lemma delete_unwrapped_none t : delete_unwrapped (fun _ => false) t = t.
Proof.
  unfold delete_unwrapped. destruct t as [bs ws ev pl rb rs ov]. unfold with_bodies. cbn. f_equal.
  apply map_filter_id. intros h b _. done.
Qed.

Definition among_all (batches : list (list Hash)) h : bool := existsb (fun h' => bool_decide (h' = h)) (concat batches).
Lemma collect_garbage_spec batches s :
  wp (collect_garbage batches) s (fun r s' => moved s s' /\
    match r with Err _ => ~ quiet s | Ok _ => goes s (delete_unwrapped (among_all batches) (tables s)) s' end).
Proof.
  revert s. induction batches as [|chunk batches IH]; intros s; cbn [collect_garbage].
  - apply wp_ret. split; [done|]. rewrite delete_unwrapped_none. apply goes_refl.
  - apply wp_try, wp_update; intros s1 Hs1; [by split; [apply Hs1|]|]. eapply wp_mono; [apply IH|].
    intros [[]|e] s2 [Hm Hr]; (split; [etrans; [apply Hs1|done]|]); [|intros Hq; by apply Hr, Hs1].
    rewrite (go_tables _ _ _ Hs1), delete_unwrapped_compose in Hr.
    assert (Hg := goes_trans _ _ _ _ _ Hs1 Hr). erewrite delete_unwrapped_ext; [exact Hg|].
    intros h _ _. unfold among_all. cbn [concat]. by rewrite existsb_app, orb_comm.
Qed.
Lemma scope_hashes_elem t sc h : h ∈ scope_hashes t sc <-> wrapped_for t h sc.
Proof.
  unfold scope_hashes, wrapped_for. rewrite list_elem_of_omap. split.
  - intros ([h' sc'] & Hin & E). cbn in E. destruct (_ =? _)%N eqn:Es; [|done]. bool_to_prop. injection E as ->. subst sc'.
    apply list_elem_of_fmap in Hin as ([k w] & Ek & Hin). cbn in Ek. subst k.
    rewrite elem_of_hash_order, elem_of_map_to_list in Hin. by eexists.
  - intros [w Hw]. exists (h, sc). cbn. rewrite N.eqb_refl. split; [|done]. apply list_elem_of_fmap. exists ((h, sc), w).
    split; [done|]. by rewrite elem_of_hash_order, elem_of_map_to_list.
Qed.
(** The batches amount to one deletion of every body without a wrap. *)
Lemma purge_spec dead sc s : sound (keys s) dead (tables s) ->
  wp (purge_body_key_wraps_for_scope sc) s (fun r s' => moved s s' /\
    match r with Err _ => goes s (tables s) s' /\ ~ quiet s | Ok _ => goes s (forgotten_tables (tables s) sc) s' end).
Proof.
  intros Hs. unfold purge_body_key_wraps_for_scope. apply wp_transaction; [intros s' Hs' Hq; by split; [apply Hs'|]|]. intros s1 Hs1.
  apply wp_try, wp_query; intros s2 Hs2.
  { intros Hq. split; [etrans; [apply Hs1|apply Hs2]|]. intros s' Hs'. split; [apply Hs'|]. split; [done|]. intros Hq'. by apply Hq, Hs1. }
  assert (Hg2 := goes_trans _ _ _ _ _ Hs1 Hs2). rewrite (go_tables _ _ _ Hs1) in Hg2. rewrite (go_tables _ _ _ Hs1). clear Hs1 Hs2 s1.
  apply wp_try, wp_update; intros s3 Hs3.
  { intros Hq. split; [etrans; [apply Hg2|apply Hs3]|]. intros s' Hs'. split; [apply Hs'|]. split; [done|]. intros Hq'. by apply Hq, Hg2. }
  assert (Hg3 := goes_trans _ _ _ _ _ Hg2 Hs3). rewrite (go_tables _ _ _ Hg2) in Hg3. fold (without_wraps (tables s) sc) in Hg3.
  eapply wp_mono; [apply collect_garbage_spec|]. intros [[]|e] s4 [Hm Hr]; (split; [etrans; [apply Hg3|done]|]); intros s' Hs'.
  - rewrite (go_tables _ _ _ Hg3) in Hr. assert (Hg4 := goes_trans _ _ _ _ _ Hg3 Hr). rewrite (go_tables _ _ _ Hr) in Hs'.
    assert (Hg := goes_trans _ _ _ _ _ Hg4 Hs'). split; [apply Hg|]. unfold forgotten_tables.
    erewrite delete_unwrapped_ext; [exact Hg|]. intros h Hb Hnw. unfold among_all. rewrite concat_chunks by (unfold DELETE_BATCH; lia).
    symmetry. apply existsb_exists. exists h. split; [|by apply bool_decide_eq_true_2]. apply list_elem_of_In, scope_hashes_elem.
    destruct (so_wrapped _ _ _ _ Hs h Hb) as [sc' Hw]. destruct (decide (sc' = sc)) as [->|Hne]; [done|].
    exfalso. assert (Ht : wrapped (without_wraps (tables s) sc) h = true); [|congruence]. apply wrapped_exists. exists sc'. by apply wrapped_without.
  - split; [apply Hs'|]. split; [done|]. intros Hq. by apply Hr, Hg3.
Qed.

Lemma wrapped_forgotten t sc h sc' : wrapped_for (forgotten_tables t sc) h sc' <-> wrapped_for t h sc' /\ sc' <> sc.
Proof. apply wrapped_without. Qed.
Lemma cek_forgotten ks t sc h sc' : sc' <> sc -> cek_at ks (forgotten_tables t sc) h sc' = cek_at ks t h sc'.
Proof.
  intros Hne. unfold cek_at.
  assert (body_store_key_wraps (forgotten_tables t sc) !! (h, sc') = body_store_key_wraps t !! (h, sc')) as ->; [|done].
  apply option_eq. intros w. unfold forgotten_tables, delete_unwrapped, without_wraps. cbn [with_bodies with_wraps body_store_key_wraps].
  rewrite map_lookup_filter_Some. naive_solver.
Qed.
Lemma sound_forgotten ks dead t sc : sc ∈ dead -> sound ks dead t -> sound ks dead (forgotten_tables t sc).
Proof.
  intros Hd [Hb Hw Ho Hl He Hp].
  assert (Hkeep : forall h b, (exists sc', wrapped_for (forgotten_tables t sc) h sc') -> body_store t !! h = Some b ->
                    body_store (forgotten_tables t sc) !! h = Some b).
  { intros h b Hx Eb. apply lookup_delete_unwrapped. split; [done|right]. exact Hx. }
  split.
  - intros h sc' Hw'. assert (Hw0 := Hw'). apply wrapped_forgotten in Hw0 as [Hw0 _]. destruct (Hb h sc' Hw0) as [b Eb]. exists b.
    apply Hkeep; [by exists sc'|done].
  - intros h [b Eb]. apply lookup_delete_unwrapped in Eb as [_ [|Hx]]; [done|exact Hx].
  - intros h sc' c Hc. assert (Hw' : wrapped_for (forgotten_tables t sc) h sc').
    { unfold cek_at in Hc. unfold wrapped_for. by destruct (_ !! _). }
    assert (Hw0 := Hw'). apply wrapped_forgotten in Hw0 as [_ Hne]. rewrite cek_forgotten in Hc by done.
    destruct (Ho _ _ _ Hc) as (p & Hg & Eh & b & Eb & Hop). exists p. do 2 (split; [done|]). exists b. split; [|done].
    apply Hkeep; [by exists sc'|done].
  - intros h sc' Hnd Hw'%wrapped_forgotten. rewrite cek_forgotten by apply Hw'. apply Hl; [done|apply Hw'].
  - intros id e Ee Hnd. assert (Hr := He id e Ee Hnd). unfold readable in *. destruct (storage_path e); try done.
    destruct Hr as [Hr Hw']. split; [done|]. apply wrapped_forgotten. split; [done|]. by intros <-.
  - intros sc' d r Er Hnd. apply wrapped_forgotten. split; [by eapply Hp|]. by intros ->.
Qed.

(** The key of a scope as it is once its own is destroyed. *)
Definition rekey sc (r : result Key EvidenceError) s : Store :=
  with_rows s (SynthesisStore.mk_store (conn (rows s)) (fun x => if (x =? sc)%N then r else keys s x) (tape (rows s))).
(** The new key opens no wrap of the scope (or it is the old one, if it could not be
    destroyed). *)
Definition locks_out sc (r : result Key EvidenceError) s : Prop :=
  r = keys s sc \/
  forall h w key, body_store_key_wraps (tables s) !! (h, sc) = Some w -> r = Ok key ->
    exists e, unwrap_cek key (wrapped_cek w) (w_nonce w) h = Err e.
Lemma sound_rekey dead sc r s : locks_out sc r s -> sound (keys s) dead (tables s) ->
  sound (keys (rekey sc r s)) ({[sc]} ∪ dead) (tables (rekey sc r s)).
Proof.
  intros Hlock [Hb Hw Ho Hl He Hp]. change (tables (rekey sc r s)) with (tables s).
  assert (Hcek : forall h sc', cek_at (keys (rekey sc r s)) (tables s) h sc' = cek_at (keys s) (tables s) h sc' \/
                               sc' = sc /\ cek_at (keys (rekey sc r s)) (tables s) h sc' = None).
  { intros h sc'. unfold cek_at, rekey, keys. cbn [with_rows rows SynthesisStore.scope_key].
    destruct (_ !! _) as [w|] eqn:Ew; [|by left]. destruct (sc' =? sc)%N eqn:Es; [|by left]. bool_to_prop. subst sc'.
    destruct Hlock as [->|Hlock]; [by left|]. right. split; [done|]. destruct r as [key|]; [|done].
    destruct (Hlock h w key Ew eq_refl) as [e Heq]. by rewrite Heq. }
  assert (Hother : forall x, x <> sc -> keys (rekey sc r s) x = keys s x).
  { intros x Hne. unfold rekey, keys. cbn. destruct (x =? sc)%N eqn:Es; [bool_to_prop; done|done]. }
  split; [done|done|..].
  - intros h sc' c Hc. destruct (Hcek h sc') as [E|[_ E]]; rewrite E in Hc; [by eapply Ho|done].
  - intros h sc' Hnd Hw'. destruct (Hcek h sc') as [E|[-> _]]; [|set_solver]. rewrite E. apply Hl; [set_solver|done].
  - intros id e Ee Hnd. assert (Hr := He id e Ee ltac:(set_solver)). unfold readable in *.
    destruct (storage_path e); try done. rewrite Hother; [done|]. set_solver.
  - intros sc' d row Er Hnd. eapply Hp; [done|set_solver].
Qed.

(** ** Every sequence of calls *)

(** The store beside what it should hold: the forgotten scopes, the scope and text of
    each row of evidence, the payload of each approved document. *)
Record World : Type := mk_world {
  st : Store;
  dead : gset uuid;
  bodies : gmap uuid (uuid * list N);
  docs : gmap (uuid * uuid) (list N)
}.
Definition recorded sc p (r : result (IngestResult (Hash := Hash)) EvidenceError) (m : gmap uuid (uuid * list N)) : gmap uuid (uuid * list N) :=
  match r with
  | Ok res => if bool_decide (taken_path res = RingBuffer) then m else <[evidence_id res := (sc, p)]> m
  | Err _ => m
  end.
Definition if_ok {A B} (r : result A EvidenceError) (done old : B) : B := match r with Ok _ => done | Err _ => old end.
(** Calls on other tables, on noise, and reads. *)
Definition elsewhere s s' : Prop := moved s s' /\ exists m n, tables s' = with_ring (tables s) m n.

Inductive step : World -> World -> Prop :=
| step_ingest W io sc p source imp language s' r :
    sc ∉ dead W -> genuine p -> ingest_with_language io sc p source imp language (st W) = (s', r) ->
    step W (mk_world s' (dead W) (recorded sc p r (bodies W)) (docs W))
| step_save W cek sc d p s' r :
    sc ∉ dead W -> genuine p -> save_approved_document_payload cek sc d p (content_hash p) (st W) = (s', r) ->
    step W (mk_world s' (dead W) (bodies W) (if_ok r (<[(sc, d) := p]> (docs W)) (docs W)))
| step_delete W sc d s' r :
    delete_approved_document_payload sc d (st W) = (s', r) ->
    step W (mk_world s' (dead W) (bodies W) (if_ok r (delete (sc, d) (docs W)) (docs W)))
| step_rekey W sc key :
    locks_out sc key (st W) -> step W (mk_world (rekey sc key (st W)) ({[sc]} ∪ dead W) (bodies W) (docs W))
| step_purge W sc s' r :
    sc ∈ dead W -> purge_body_key_wraps_for_scope sc (st W) = (s', r) -> step W (mk_world s' (dead W) (bodies W) (docs W))
| step_drop W sc s' r :
    sc ∈ dead W -> delete_approved_document_payloads_for_scope sc (st W) = (s', r) ->
    step W (mk_world s' (dead W) (bodies W) (if_ok r (base.filter (fun kv => kv.1.1 <> sc) (docs W)) (docs W)))
| step_sweep W s' r :
    purge_orphaned_bodies (st W) = (s', r) -> step W (mk_world s' (dead W) (bodies W) (docs W))
| step_elsewhere W s' :
    elsewhere (st W) s' -> step W (mk_world s' (dead W) (bodies W) (docs W)).

Definition row_agrees (e : option (EvidenceRecord (Nonce := Nonce) (Hash := Hash))) (b : option (uuid * list N)) : Prop :=
  match e, b with
  | Some e, Some (sc, p) => e_scope e = sc /\ e_hash e = content_hash p /\ genuine p
  | None, None => True
  | _, _ => False
  end.
Definition payload_agrees (r : option (PayloadRow (Hash := Hash))) (b : option (list N)) : Prop :=
  match r, b with
  | Some r, Some p => p_hash r = content_hash p /\ genuine p /\ size_bytes r = payload_size_of p
  | None, None => True
  | _, _ => False
  end.
Record inv (W : World) : Prop := mk_inv {
  inv_sound : sound (keys (st W)) (dead W) (tables (st W));
  inv_rows : forall id, row_agrees (evidence (tables (st W)) !! id) (bodies W !! id);
  inv_payloads : forall k, payload_agrees (approved_document_payloads (tables (st W)) !! k) (docs W !! k)
}.
Definition fresh_world (W : World) : Prop := tables (st W) = no_tables /\ dead W = ∅ /\ bodies W = ∅ /\ docs W = ∅.

Lemma inv_fresh W : fresh_world W -> inv W.
Proof.
  intros (Ht & Hd & Hb & Hc). split.
  - rewrite Ht. assert (Hno : forall h sc, ~ wrapped_for (no_tables : Tables) h sc) by (intros h sc [w E]; cbn in E; by rewrite lookup_empty in E).
    split.
    + intros h sc Hw. by apply Hno in Hw.
    + intros h [b E]. cbn in E; by rewrite lookup_empty in E.
    + intros h sc c. unfold cek_at. cbn. by rewrite lookup_empty.
    + intros h sc _ Hw. by apply Hno in Hw.
    + intros id e E. cbn in E; by rewrite lookup_empty in E.
    + intros sc d r E. cbn in E; by rewrite lookup_empty in E.
  - intros id. rewrite Ht, Hb. cbn. by rewrite !lookup_empty.
  - intros k. rewrite Ht, Hc. cbn. by rewrite !lookup_empty.
Qed.
(** Steps that leave the rows alone. *)
Lemma inv_tables W s' : inv W -> moved (st W) s' -> evidence (tables s') = evidence (tables (st W)) ->
  approved_document_payloads (tables s') = approved_document_payloads (tables (st W)) ->
  sound (keys (st W)) (dead W) (tables s') -> inv (mk_world s' (dead W) (bodies W) (docs W)).
Proof.
  intros [Hs Hr Hp] Hm He Hpl Hs'. split; cbn [st dead bodies docs].
  - by rewrite (mv_keys _ _ Hm).
  - intros id. by rewrite He.
  - intros k. by rewrite Hpl.
Qed.
Lemma bodies_same W s' : inv W -> goes (st W) (tables (st W)) s' -> inv (mk_world s' (dead W) (bodies W) (docs W)).
Proof. intros Hi [Hm Ht _]. apply inv_tables; [done|done|by rewrite Ht..|rewrite Ht; apply Hi]. Qed.
Lemma inv_elsewhere W s' : inv W -> elsewhere (st W) s' -> inv (mk_world s' (dead W) (bodies W) (docs W)).
Proof. intros Hi (Hm & m & n & Ht). apply inv_tables; [done|done|by rewrite Ht..|]. rewrite Ht. apply sound_ring, Hi. Qed.
Lemma inv_ingest W io sc p source imp language s' r :
  inv W -> genuine p -> ingest_with_language io sc p source imp language (st W) = (s', r) ->
  inv (mk_world s' (dead W) (recorded sc p r (bodies W)) (docs W)).
Proof.
  intros Hi Hg E. assert (Hw := stored_spec genuine (dead W) io sc p source imp language (st W) (inv_sound _ Hi) Hg).
  apply (wp_elim _ _ _ _ _ Hw) in E. clear Hw. unfold stored_post, ingest_post in E.
  assert (Hing : forall path, path <> RingBuffer -> r = Ok (mk_ingest (io_id io) path (content_hash p)) ->
                   ingested genuine (dead W) (io_id io) sc p (st W) s' -> inv (mk_world s' (dead W) (recorded sc p r (bodies W)) (docs W))).
  { intros path Hpath -> (Hm & _ & Hs & _ & Hp & e & He & Hsc & Hh). split; cbn [st dead bodies docs recorded taken_path evidence_id].
    - by rewrite (mv_keys _ _ Hm).
    - intros id. rewrite bool_decide_eq_false_2 by done. rewrite He, !lookup_insert. case_decide; [by subst|apply Hi].
    - intros k. rewrite Hp. apply Hi. }
  destruct (route_storage_with_threshold _ _ _).
  - destruct r as [res|e]; [destruct E as [-> E]; by apply (Hing Inline)|]. by apply bodies_same, E.
  - destruct r as [res|e]; [destruct E as [-> E]; by apply (Hing BodyTable)|]. by apply bodies_same, E.
  - destruct E as [(m & n & [Hm Ht _]) Hr]. assert (recorded sc p r (bodies W) = bodies W) as ->.
    { destruct r as [res|e]; [|done]. by rewrite (Hr res). }
    apply inv_elsewhere; [done|]. split; [done|]. by exists m, n.
Qed.

Lemma inv_saved W sc d p s' : inv W -> genuine p -> moved (st W) s' -> saved genuine (dead W) sc d p (st W) s' ->
  inv (mk_world s' (dead W) (bodies W) (<[(sc, d) := p]> (docs W))).
Proof.
  intros Hi Hg Hm (_ & Hs & He & row & Hp & Hh & Hz). split; cbn [st dead bodies docs].
  - by rewrite (mv_keys _ _ Hm).
  - intros id. rewrite He. apply Hi.
  - intros k. rewrite Hp, !lookup_insert. case_decide; [by subst|apply Hi].
Qed.
Lemma inv_save W cek sc d p s' r :
  inv W -> genuine p -> save_approved_document_payload cek sc d p (content_hash p) (st W) = (s', r) ->
  inv (mk_world s' (dead W) (bodies W) (if_ok r (<[(sc, d) := p]> (docs W)) (docs W))).
Proof.
  intros Hi Hg E. assert (Hw := save_payload_spec genuine (dead W) cek sc d p (st W) (inv_sound _ Hi) Hg).
  apply (wp_elim _ _ _ _ _ Hw) in E as [Hm E]. destruct r as [[]|e]; [by apply inv_saved|by apply bodies_same, E].
Qed.
(** Fewer payload rows, on both sides. *)
Lemma inv_fewer W s' m docs' : inv W -> goes (st W) (with_payloads (tables (st W)) m) s' -> m ⊆ approved_document_payloads (tables (st W)) ->
  (forall k, payload_agrees (m !! k) (docs' !! k)) -> inv (mk_world s' (dead W) (bodies W) docs').
Proof.
  intros [Hs Hr Hp] [Hm Ht _] Hsub Hag. split; cbn [st dead bodies docs]; rewrite Ht; [|apply Hr|exact Hag].
  rewrite (mv_keys _ _ Hm). by apply sound_fewer_payloads.
Qed.
Lemma bodies_step W W' : step W W' -> inv W -> inv W'.
Proof.
  intros Hst Hi. destruct Hst as [W io sc p src imp l s' r _ Hg E|W cek sc d p s' r _ Hg E|W sc d s' r E|W sc key Hl|W sc s' r Hd E|W sc s' r Hd E|W s' r E|W s' E].
  - by eapply inv_ingest.
  - by eapply inv_save.
  - refine (wp_elim _ (st W) (fun r s' => inv (mk_world s' (dead W) (bodies W) (if_ok r (delete (sc, d) (docs W)) (docs W)))) s' r _ E).
    unfold delete_approved_document_payload. apply wp_execute; [intros s1 Hs1 _; by apply bodies_same|].
    intros t n s1 [= <- <-] Hs1. eapply inv_fewer; [done|exact Hs1|apply delete_subseteq|].
    intros k. cbn [if_ok]. rewrite !lookup_delete. case_decide; [done|apply Hi].
  - split; cbn [st dead bodies docs]; [by apply sound_rekey, Hi|apply Hi..].
  - apply (wp_elim _ _ _ _ _ (purge_spec (dead W) sc (st W) (inv_sound _ Hi))) in E as [Hm Hr].
    destruct r as [[]|e]; [|by apply bodies_same, Hr]. destruct Hr as [_ Ht _]. apply inv_tables; [done|done|by rewrite Ht..|].
    rewrite Ht. by apply sound_forgotten, Hi.
  - refine (wp_elim _ (st W) (fun r s' => inv (mk_world s' (dead W) (bodies W) (if_ok r (base.filter (fun kv => kv.1.1 <> sc) (docs W)) (docs W)))) s' r _ E).
    unfold delete_approved_document_payloads_for_scope. apply wp_execute; [intros s1 Hs1 _; by apply bodies_same|].
    intros t n s1 [= <- <-] Hs1. eapply inv_fewer; [done|exact Hs1|apply map_filter_subseteq|].
    intros [sc' d]. cbn [if_ok]. rewrite !map_lookup_filter. assert (Hk := inv_payloads _ Hi (sc', d)).
    destruct (_ !! (sc', d)), (docs W !! (sc', d)); try done; cbn in *; repeat case_guard; done.
  - refine (wp_elim _ (st W) (fun _ s' => inv (mk_world s' (dead W) (bodies W) (docs W))) s' r _ E).
    unfold purge_orphaned_bodies. apply wp_transaction; [intros s1 Hs1 _; by apply bodies_same|]. intros s1 Hs1.
    assert (Hd : delete_unwrapped (fun _ => true) (tables s1) = tables s1).
    { rewrite (go_tables _ _ _ Hs1). etrans; [|apply delete_unwrapped_none]. apply delete_unwrapped_ext.
      intros h Hb Hnw. destruct (so_wrapped _ _ _ _ (inv_sound _ Hi) h Hb) as [sc Hsc].
      assert (wrapped (tables (st W)) h = true); [|congruence]. apply wrapped_exists. by exists sc. }
    apply wp_execute; [intros s2 Hs2 _; split; [etrans; [apply Hs1|apply Hs2]|]; intros s3 Hs3; by apply bodies_same|].
    intros t n s2 [= <- <-] Hs2. rewrite Hd, (go_tables _ _ _ Hs1) in Hs2. assert (Hg := goes_trans _ _ _ _ _ Hs1 Hs2).
    split; [apply Hg|]. intros s3 Hs3. rewrite (go_tables _ _ _ Hs2) in Hs3. apply bodies_same; [done|]. by eapply goes_trans.
  - by apply inv_elsewhere.
Qed.
Lemma bodies_rtc W0 W : rtc step W0 W -> inv W0 -> inv W.
Proof. induction 1; [done|]. intros Hi. by apply IHrtc, (bodies_step x). Qed.

Lemma answers_elim {A} (m : eff Store EvidenceError A) s a s' r : wp m s (answers s a) -> m s = (s', r) ->
  tables s' = tables s /\ (r = a \/ r = Err Sqlite /\ ~ quiet s).
Proof. intros Hw E. apply (wp_elim _ _ _ _ _ Hw) in E as [Hg Hr]. split; [apply Hg|done]. Qed.

(** Reading never writes. *)
Lemma read_body_keeps id s s' (r : result (list N) EvidenceError) : read_body id s = (s', r) -> tables s' = tables s.
Proof.
  intros E. refine (wp_elim _ s (fun _ s' => tables s' = tables s) s' r _ E). unfold read_body.
  apply wp_try, wp_query; intros s1 [_ Ht1 _]; [done|]. rewrite <- Ht1. clear Ht1.
  destruct (evidence (tables s1) !! id) as [e|]; [|done]. apply wp_try, wp_lift. cbn [ok_or]. destruct (storage_path e); [| |done].
  - apply wp_try, wp_fetch_key. destruct (keys s1 _); [|done]. apply wp_try, wp_lift. destruct (ok_or (e_body e) _); [|done].
    apply wp_try, wp_lift. by destruct (ok_or (e_nonce e) _).
  - apply wp_try, wp_lift. destruct (ok_or (body_ref e) _) as [h|]; [|done].
    apply wp_try, wp_query; intros s2 [_ Ht2 _]; [done|]. apply wp_try, wp_lift. destruct (ok_or _ _) as [b|]; [|done].
    apply wp_try, wp_fetch_key. destruct (keys s2 _); [|done].
    apply wp_try, wp_query; intros s3 [_ Ht3 _]; [by rewrite Ht3|]. apply wp_try, wp_lift. destruct (ok_or _ _) as [w|]; [|by rewrite Ht3].
    apply wp_try, wp_lift. destruct (unwrap_cek _ _ _ _) as [c|]; apply wp_lift || idtac; by rewrite Ht3.
Qed.

(** C7: From empty tables on, through every sequence of ingestions, payload writes and
    deletions, forgettings, purges and sweeps by any scopes, with any statements
    failing: reading a row of evidence of a live scope gives the text ingested under
    that identifier, and loading an approved payload the one saved last, though equal
    texts of all scopes share one ciphertext; only a failing statement prevents it
    (as long as no two of the texts have the same hash).
    What was not stored, or was deleted, is reported as missing. *)
Theorem bodies_exact W0 W id sc d s' (r : result (list N) EvidenceError) s'' (r' : result (option (list N)) EvidenceError) :
  (forall p q, genuine p -> genuine q -> content_hash p = content_hash q -> p = q) ->
  fresh_world W0 -> rtc step W0 W -> sc ∉ dead W ->
  read_body id (st W) = (s', r) -> load_approved_document_payload sc d (st W) = (s'', r') ->
  (forall owner p, bodies W !! id = Some (owner, p) -> owner ∉ dead W -> r = Ok p \/ r = Err Sqlite /\ ~ quiet (st W)) /\
  (bodies W !! id = None -> r = Err (NotFound "evidence_id" id) \/ r = Err Sqlite /\ ~ quiet (st W)) /\
  (r' = Ok (docs W !! (sc, d)) \/ r' = Err Sqlite /\ ~ quiet (st W)) /\
  tables s' = tables (st W) /\ tables s'' = tables (st W).
Proof.
  intros no_collision Hf Hst Hlive Er Er'. assert (Hi := bodies_rtc _ _ Hst (inv_fresh _ Hf)). assert (Hs := inv_sound _ Hi).
  assert (Hread := read_body_spec _ _ id _ Hs). assert (Hrow := inv_rows _ Hi id).
  assert (Hload := load_payload_spec _ _ sc d _ Hs). assert (Hpay := inv_payloads _ Hi (sc, d)).
  assert (Hdocs : tables s'' = tables (st W) /\ (r' = Ok (docs W !! (sc, d)) \/ r' = Err Sqlite /\ ~ quiet (st W))).
  { destruct (approved_document_payloads _ !! _) as [row|], (docs W !! (sc, d)) as [p|]; try done; [|by eapply answers_elim].
    destruct Hpay as (Hh & Hg & _). destruct (Hload Hlive) as (q & Hq & Eq & Hw).
    assert (q = p) as -> by (apply no_collision; congruence). by eapply answers_elim. }
  destruct Hdocs as [Ht Hr']. clear Hload Hpay Er'.
  assert (Hown : forall owner p, bodies W !! id = Some (owner, p) -> owner ∉ dead W -> wp (read_body id) (st W) (answers (st W) (Ok p))).
  { intros owner p Hb Ho. rewrite Hb in Hrow. destruct (evidence _ !! id) as [e|]; [|done]. destruct Hrow as (<- & Hh & Hg).
    destruct (Hread Ho) as (q & Hq & Eq & Hw). assert (q = p) as -> by (apply no_collision; congruence). done. }
  assert (Hnone : bodies W !! id = None -> wp (read_body id) (st W) (answers (st W) (Err (NotFound "evidence_id" id)))).
  { intros Hb. rewrite Hb in Hrow. by destruct (evidence _ !! id). }
  split; [intros owner p Hb Ho; by eapply answers_elim; [eapply Hown|]|].
  split; [intros Hb; by eapply answers_elim; [apply Hnone|]|]. split; [exact Hr'|]. split; [|done].
  exact (read_body_keeps id (st W) s' r Er).
Qed.

(** Without a wrap a row of the body table is unreadable. *)
Lemma read_unwrapped id e s : evidence (tables s) !! id = Some e -> storage_path e = BodyTable ->
  (forall h, body_store_key_wraps (tables s) !! (h, e_scope e) = None) -> wp (read_body id) s (fun r _ => exists err, r = Err err).
Proof.
  intros Ee Ep Hw. unfold read_body. apply wp_try, wp_query; intros s1 [_ Ht1 _]; [by eexists|]. rewrite Ee. apply wp_try, wp_lift.
  cbn [ok_or]. rewrite Ep. apply wp_try, wp_lift. destruct (ok_or (body_ref e) _) as [h|]; [|by eexists].
  apply wp_try, wp_query; intros s2 [_ Ht2 _]; [by eexists|]. apply wp_try, wp_lift. destruct (ok_or _ _) as [b|]; [|by eexists].
  apply wp_try, wp_fetch_key. destruct (keys s2 _); [|by eexists]. apply wp_try, wp_query; intros s3 _; [by eexists|].
  rewrite Ht2, Ht1, Hw. by eexists.
Qed.

(** C16: After the wraps of a forgotten scope are purged, no wrap of it is left and none of
    its rows in the body table can be read; the wraps of every other scope are as they
    were, a body is stored just if some other scope holds it, and rows of evidence and
    payloads are untouched; a purge that fails changes nothing.  At no time is there a ciphertext nobody holds a key for, and the sweep
    for such rows finds none. *)
Theorem forgetting_erases W0 W sc s' (r : result unit EvidenceError) :
  fresh_world W0 -> rtc step W0 W -> purge_body_key_wraps_for_scope sc (st W) = (s', r) ->
  match r with
  | Ok _ =>
      (forall h, body_store_key_wraps (tables s') !! (h, sc) = None) /\
      (forall h sc', sc' <> sc -> body_store_key_wraps (tables s') !! (h, sc') = body_store_key_wraps (tables (st W)) !! (h, sc')) /\
      (forall h, body_store (tables s') !! h = None \/ body_store (tables s') !! h = body_store (tables (st W)) !! h) /\
      (forall h, is_Some (body_store (tables s') !! h) <-> exists sc', sc' <> sc /\ wrapped_for (tables (st W)) h sc') /\
      same_rest (tables (st W)) (tables s') /\
      (forall id e s'' r'', evidence (tables s') !! id = Some e -> e_scope e = sc -> storage_path e = BodyTable ->
         read_body id s' = (s'', r'') -> exists err, r'' = Err err)
  | Err _ => tables s' = tables (st W) /\ ~ quiet (st W)
  end /\
  (forall h, is_Some (body_store (tables (st W)) !! h) <-> exists sc', wrapped_for (tables (st W)) h sc') /\
  unwrapped_bodies (tables (st W)) = 0%nat.
Proof.
  intros Hf Hst E. assert (Hi := bodies_rtc _ _ Hst (inv_fresh _ Hf)). assert (Hs := inv_sound _ Hi).
  assert (Hheld : forall h, is_Some (body_store (tables (st W)) !! h) <-> exists sc', wrapped_for (tables (st W)) h sc').
  { intros h. split; [apply Hs|]. intros [sc' Hw]. by apply (so_body _ _ _ _ Hs h sc'). }
  split; [|split; [done|]].
  - apply (wp_elim _ _ _ _ _ (purge_spec (dead W) sc (st W) Hs)) in E as [_ Hr].
    destruct r as [[]|e]; [|destruct Hr as [[_ Ht _] Hq]; done]. destruct Hr as [_ Ht _].
    assert (Hgone : forall h, body_store_key_wraps (tables s') !! (h, sc) = None).
    { intros h. rewrite Ht. apply eq_None_not_Some. intros Hx. by apply (wrapped_forgotten _ sc h sc) in Hx as [_ ?]. }
    assert (Hun : forall id e s'' r'', evidence (tables s') !! id = Some e -> e_scope e = sc -> storage_path e = BodyTable ->
         read_body id s' = (s'', r'') -> exists err, r'' = Err err).
    { intros id e s'' r'' Ee <- Ep E. exact (wp_elim _ _ _ _ _ (read_unwrapped id e s' Ee Ep Hgone) E). }
    rewrite Ht in Hun, Hgone |- *. clear Ht.
    assert (Hwr : forall h sc', sc' <> sc -> body_store_key_wraps (forgotten_tables (tables (st W)) sc) !! (h, sc')
                                  = body_store_key_wraps (tables (st W)) !! (h, sc')).
    { intros h sc' Hne. apply option_eq. intros w. unfold forgotten_tables, delete_unwrapped, without_wraps.
      cbn [with_bodies with_wraps body_store_key_wraps]. rewrite map_lookup_filter_Some. naive_solver. }
    assert (Hbody : forall h b, body_store (forgotten_tables (tables (st W)) sc) !! h = Some b <->
                      body_store (tables (st W)) !! h = Some b /\ exists sc', sc' <> sc /\ wrapped_for (tables (st W)) h sc').
    { intros h b. unfold forgotten_tables. rewrite lookup_delete_unwrapped. setoid_rewrite wrapped_without. naive_solver. }
    split; [exact Hgone|split; [exact Hwr|split; [|split; [|by split]]]].
    + intros h. destruct (body_store (forgotten_tables _ _) !! h) as [b|] eqn:Eb; [right|by left].
      apply Hbody in Eb as [Eb _]. by rewrite Eb.
    + intros h. split; [intros [b Eb]; apply Hbody in Eb as [_ Hx]; exact Hx|]. intros (sc' & Hne & Hw).
      destruct (so_body _ _ _ _ Hs h sc' Hw) as [b Eb]. exists b. apply Hbody. split; [done|]. by exists sc'.
  - unfold unwrapped_bodies. apply map_size_empty_iff, map_empty. intros h. apply map_lookup_filter_None. right.
    intros b Eb Hw. cbn in Hw. assert (Hx : wrapped (tables (st W)) h = true); [|congruence]. apply wrapped_exists, Hheld. by exists b.
Qed.

(** C19: A live scope can store: nothing but a failing statement, a failing cipher, or
    a wrap of the same content that its forgotten scope left behind prevents it from
    ingesting or from saving a payload.  A failed call changes no table. *)
Theorem storing_succeeds W0 W io cek sc d p source imp language s' r s'' r' :
  fresh_world W0 -> rtc step W0 W -> sc ∉ dead W -> genuine p ->
  route_storage_with_threshold (length p) imp (inline_threshold_bytes (st W)) <> RingBuffer ->
  ingest_with_language io sc p source imp language (st W) = (s', r) ->
  save_approved_document_payload cek sc d p (content_hash p) (st W) = (s'', r') ->
  (forall e, r = Err e -> tables s' = tables (st W)) /\ (forall e, r' = Err e -> tables s'' = tables (st W)) /\
  (quiet (st W) -> sealing_total (Key := Key) (Nonce := Nonce) -> (exists key, keys (st W) sc = Ok key) ->
   (forall sc', wrapped_for (tables (st W)) (content_hash p) sc' -> sc' ∉ dead W) ->
   r' = Ok tt /\ (evidence (tables (st W)) !! io_id io = None -> exists res, r = Ok res)).
Proof.
  intros Hf Hst Hlive Hg Hroute Er Er'. assert (Hi := bodies_rtc _ _ Hst (inv_fresh _ Hf)). assert (Hs := inv_sound _ Hi).
  assert (Hw := stored_spec genuine (dead W) io sc p source imp language (st W) Hs Hg).
  apply (wp_elim _ _ _ _ _ Hw) in Er. clear Hw.
  assert (Hw := save_payload_spec genuine (dead W) cek sc d p (st W) Hs Hg). apply (wp_elim _ _ _ _ _ Hw) in Er' as [_ Er']. clear Hw.
  assert (Hing : match r with
                 | Err _ => tables s' = tables (st W) /\ ~ (smooth (st W) sc (content_hash p) /\ evidence (tables (st W)) !! io_id io = None)
                 | Ok _ => True
                 end).
  { unfold stored_post, ingest_post in Er. destruct r; [done|]. destruct (route_storage_with_threshold _ _ _); try done;
      destruct Er as [[_ Ht _] Hn]; done. }
  split; [intros e ->; apply Hing|]. split; [intros e ->; apply Er'|]. intros Hq Hst' Hk Hnone.
  assert (Hsm : smooth (st W) sc (content_hash p)).
  { do 3 (split; [done|]). intros sc' Hw. apply (so_live _ _ _ _ Hs _ _ (Hnone sc' Hw) Hw). }
  split.
  - destruct r' as [[]|e]; [done|]. by destruct Er' as [_ []].
  - intros Hno. destruct r as [res|e]; [by exists res|]. by destruct Hing as [_ []].
Qed.

(** *** A wrap that a forgotten scope left behind *)

(** The content is stored, the scope has no wrap of it, and the first one that is found
    does not open. *)
Definition locked t ks h sc : Prop :=
  is_Some (body_store t !! h) /\ ~ wrapped_for t h sc /\
  exists dsc w, head (donors t h sc) = Some (dsc, w) /\ cek_at ks t h dsc = None.
Lemma locked_donor t ks h sc : locked t ks h sc -> exists dsc w, head (donors t h sc) = Some (dsc, w) /\
  body_store_key_wraps t !! (h, dsc) = Some w /\ forall key cek, ks dsc = Ok key -> unwrap_cek key (wrapped_cek w) (w_nonce w) h <> Ok cek.
Proof.
  intros (_ & Hno & dsc & w & Ed & Hlock). exists dsc, w. split; [done|]. apply donor_found in Ed as [Ew _]. split; [done|].
  intros key cek Hk Hu. assert (Hc := cek_of_wrap _ _ _ _ _ _ _ Ew Hk Hu). by rewrite Hlock in Hc.
Qed.
Lemma rewrap_locked donor_key key w h s : (forall cek, unwrap_cek donor_key (wrapped_cek w) (w_nonce w) h <> Ok cek) ->
  wp (rewrap donor_key key w h) s (fun r s' => s' = s /\ exists e, r = Err e).
Proof.
  intros Hu. unfold rewrap. apply wp_try, wp_lift. destruct (unwrap_cek _ _ _ _) as [cek|e]; [by destruct (Hu cek)|]. split; [done|by eexists].
Qed.
Lemma admit_locked cek sc p h s : locked (tables s) (keys s) h sc ->
  wp (admit_approved_doc_body_in_tx cek sc p h) s (fun r s' => moved s s' /\ exists e, r = Err e).
Proof.
  intros Hl. unfold admit_approved_doc_body_in_tx. apply wp_try, wp_fetch_key. destruct (keys s sc) as [key|e]; [|by split; [|eexists]].
  apply wp_try, wp_query; intros s1 Hs1; [by split; [apply Hs1|eexists]|]. rewrite bool_decide_eq_true_2 by apply Hl.
  assert (Hm1 := go_moved _ _ _ Hs1). assert (Ht1 := go_tables _ _ _ Hs1).
  apply wp_try, wp_query; intros s2 Hs2; [split; [etrans; [done|apply Hs2]|by eexists]|]. rewrite Ht1, bool_decide_eq_false_2 by apply Hl.
  assert (Hm2 : moved s s2) by (etrans; [done|apply Hs2]). assert (Ht2 : tables s2 = tables s) by by rewrite (go_tables _ _ _ Hs2).
  apply wp_try, wp_query; intros s3 Hs3; [split; [etrans; [done|apply Hs3]|by eexists]|]. rewrite Ht2.
  assert (Hm3 : moved s s3) by (etrans; [done|apply Hs3]).
  destruct (locked_donor _ _ _ _ Hl) as (dsc & w & -> & _ & Hu). apply wp_try, wp_fetch_key.
  rewrite (mv_keys _ _ Hm3). destruct (keys s dsc) as [dkey|e] eqn:Ek; [|by split; [|eexists]].
  eapply wp_bind; [apply rewrap_locked; intros c; by apply Hu|intros s4 e [-> _]; by split; [|eexists]|by intros s4 a [_ [e He]]].
Qed.
Lemma admit_ingested_locked cek sc key p h s w dkey : is_Some (body_store (tables s) !! h) -> ~ wrapped_for (tables s) h sc ->
  (forall c, unwrap_cek dkey (wrapped_cek w) (w_nonce w) h <> Ok c) ->
  wp (admit_ingested_body cek sc key p h (Some (w, dkey))) s (fun r s' => moved s s' /\ exists e, r = Err e).
Proof.
  intros Hb Hno Hu. unfold admit_ingested_body.
  apply wp_try, wp_query; intros s1 Hs1; [split; [apply Hs1|by eexists]|]. rewrite bool_decide_eq_true_2 by done.
  apply wp_try, wp_update; intros s2 Hs2; [split; [etrans; [apply Hs1|apply Hs2]|by eexists]|].
  assert (H2 : moved s s2) by (etrans; [apply Hs1|apply Hs2]).
  apply wp_try, wp_query; intros s3 Hs3; [split; [etrans; [done|apply Hs3]|by eexists]|].
  rewrite (go_tables _ _ _ Hs2), (go_tables _ _ _ Hs1), bool_decide_eq_false_2 by done.
  eapply wp_bind; [by apply rewrap_locked|..]; [intros s4 e [-> _]|by intros s4 a [_ [e He]]].
  split; [etrans; [done|apply Hs3]|by eexists].
Qed.

(** When the first wrap of some content that is found is one a forgotten scope left
    behind, a scope that does not hold the content yet cannot store it, even if live
    scopes hold it: both ingestion and the saving of a payload fail on the wrap they
    cannot open, and change no table. *)
Theorem leftover_wrap_blocks io cek sc d p source imp language s s' r s'' r' :
  locked (tables s) (keys s) (content_hash p) sc ->
  route_storage_with_threshold (length p) imp (inline_threshold_bytes s) = BodyTable ->
  ingest_with_language io sc p source imp language s = (s', r) ->
  save_approved_document_payload cek sc d p (content_hash p) s = (s'', r') ->
  (exists e, r = Err e) /\ tables s' = tables s /\ (exists e, r' = Err e) /\ tables s'' = tables s.
Proof.
  intros Hl Hroute Er Er'. set (failed := fun {A} (r : result A EvidenceError) s' => (exists e, r = Err e) /\ tables s' = tables s).
  enough (failed _ r s' /\ failed _ r' s'') as [[? ?] [? ?]] by done. split.
  - unfold ingest_with_language in Er. rewrite Hroute in Er. refine (wp_elim _ _ (failed _) _ _ _ Er). unfold ingest_body_table.
    apply wp_try, wp_fetch_key. destruct (keys s sc) as [key|e]; [|split; [by eexists|done]].
    apply wp_try. unfold dedup_donor. apply wp_try, wp_query; intros s1 Hs1; [split; [by eexists|apply Hs1]|].
    destruct (locked_donor _ _ _ _ Hl) as (dsc & w & -> & _ & Hu). apply wp_try, wp_fetch_key. rewrite (mv_keys _ _ (go_moved _ _ _ Hs1)).
    destruct (keys s dsc) as [dkey|e] eqn:Ek; [|split; [by eexists|apply Hs1]]. apply wp_ret, wp_try, wp_transaction.
    + intros s2 Hs2 _. split; [by eexists|]. by rewrite (go_tables _ _ _ Hs2), (go_tables _ _ _ Hs1).
    + intros s2 Hs2. assert (Et : tables s2 = tables s) by by rewrite (go_tables _ _ _ Hs2), (go_tables _ _ _ Hs1).
      eapply wp_bind; [apply (admit_ingested_locked (io_cek io) sc key p (content_hash p) s2 w dkey)|..].
      * rewrite Et. apply Hl.
      * rewrite Et. apply Hl.
      * intros c. by apply Hu.
      * intros s3 e [Hm He]. split; [etrans; [apply Hs2|done]|]. intros s4 Hs4. split; [by eexists|].
        by rewrite (go_tables _ _ _ Hs4), (go_tables _ _ _ Hs1).
      * by intros s3 a [_ [e He]].
  - refine (wp_elim _ _ (failed _) _ _ _ Er'). unfold save_approved_document_payload. apply wp_transaction.
    + intros s1 Hs1 _. split; [by eexists|apply Hs1].
    + intros s1 Hs1. unfold save_approved_document_payload_in_tx.
      eapply wp_bind; [apply (admit_locked cek sc p (content_hash p) s1)|..].
      * by rewrite (go_tables _ _ _ Hs1), (mv_keys _ _ (go_moved _ _ _ Hs1)).
      * intros s2 e [Hm He]. split; [etrans; [apply Hs1|done]|]. intros s3 Hs3. split; [by eexists|apply Hs3].
      * by intros s2 a [_ [e He]].
Qed.
End Life.

(** ** Examples *)

Module Demo.
Import EvidenceTables.Concrete.
#[local] Notation demo_world := (World (Key := N) (Nonce := unit) (Bytes := list N) (Hash := list N)).
Definition anything (p : list N) : Prop := True.
Lemma own_hashes (p q : list N) : anything p -> anything q -> content_hash p = content_hash q -> p = q.
Proof. done. Qed.
Definition text : list N := [5; 6; 7; 8]%N.
Definition empty_world : demo_world := mk_world empty_store ∅ ∅ ∅.
Lemma empty_fresh : fresh_world empty_world.
Proof. done. Qed.
(** Scopes 1 and 2 ingest the same text, scope 2 saves it as its document 5, scope 1 is
    forgotten, and its wraps are purged. *)
Definition after_ingest (io : Io (Key := N)) (sc : uuid) (w : demo_world) : demo_world :=
  let '(s', r) := ingest_with_language io sc text None Useful None (st w) in
  mk_world s' (dead w) (recorded sc text r (bodies w)) (docs w).
Definition both : demo_world := after_ingest (mk_io 11 60%N) 2 (after_ingest (mk_io 10 50%N) 1 empty_world).
Definition after_save : demo_world :=
  let '(s', r) := save_approved_document_payload 70%N 2 5 text (content_hash text) (st both) in
  mk_world s' (dead both) (bodies both) (if_ok r (<[(2, 5)%N := text]> (docs both)) (docs both)).
Definition forgotten : demo_world := mk_world (rekey 1 (Ok 101%N) (st after_save)) ({[1%N]} ∪ dead after_save) (bodies after_save) (docs after_save).
Definition purged : demo_world := mk_world (purge_body_key_wraps_for_scope 1 (st forgotten)).1 (dead forgotten) (bodies forgotten) (docs forgotten).

Lemma ingest_steps (w : demo_world) io sc : sc ∉ dead w -> rtc (step anything) w (after_ingest io sc w).
Proof.
  intros Hl. apply rtc_once. unfold after_ingest. destruct (ingest_with_language _ _ _ _ _ _ _) as [s' r] eqn:E.
  by apply step_ingest with (io := io) (source := None) (imp := Useful) (language := None).
Qed.
Lemma not_forgotten (sc x : uuid) : sc <> x -> sc ∉ ({[x]} ∪ ∅ : gset uuid).
Proof. set_solver. Qed.
Lemma reach_both : rtc (step anything) empty_world both.
Proof. etrans; apply ingest_steps; vm_compute; by intros ?. Qed.
Lemma reach_saved : rtc (step anything) empty_world after_save.
Proof.
  etrans; [apply reach_both|]. apply rtc_once. unfold after_save.
  destruct (save_approved_document_payload _ _ _ _ _ _) as [s' r] eqn:E. apply step_save with (cek := 70%N); [|done|exact E].
  vm_compute. by intros ?.
Qed.
Lemma check_lock (s : demo_store) :
  forallb (fun kv : list N * uuid * WrapRow => negb (kv.1.2 =? 1)%N ||
             match unwrap_cek 101%N (wrapped_cek kv.2) (w_nonce kv.2) kv.1.1 with Err _ => true | Ok _ => false end)
    (map_to_list (body_store_key_wraps (tables s))) = true -> locks_out 1 (Ok 101%N) s.
Proof.
  intros Hall. right. intros h w key Hw [= <-]. rewrite forallb_forall in Hall. specialize (Hall ((h, 1%N), w)). cbn [fst snd] in Hall.
  destruct (unwrap_cek 101%N (wrapped_cek w) (w_nonce w) h) as [c|e]; [|by exists e].
  discriminate Hall. by apply list_elem_of_In, elem_of_map_to_list.
Qed.
Lemma lock_1 : locks_out 1 (Ok 101%N) (st after_save).
Proof. apply check_lock. vm_compute. reflexivity. Qed.
Lemma reach_forgotten : rtc (step anything) empty_world forgotten.
Proof. etrans; [apply reach_saved|]. apply rtc_once, step_rekey, lock_1. Qed.
Lemma reach_purged : rtc (step anything) empty_world purged.
Proof.
  etrans; [apply reach_forgotten|]. apply rtc_once. apply step_purge with (sc := 1%N) (r := (purge_body_key_wraps_for_scope 1 (st forgotten)).2).
  - apply elem_of_union_l. set_solver.
  - apply surjective_pairing.
Qed.
Lemma quiet_tape (s : demo_store) : tape (rows s) = [] -> quiet s.
Proof. unfold quiet. intros ->. constructor. Qed.
Lemma purged_quiet : quiet (st purged).
Proof. apply quiet_tape. vm_compute. reflexivity. Qed.
Lemma only_one (sc : uuid) : sc ∈ dead purged -> sc = 1%N.
Proof. assert (E : dead purged = {[1%N]}) by (vm_compute; reflexivity). rewrite E. by intros ?%elem_of_singleton. Qed.
Lemma purged_live : 2%N ∉ dead purged.
Proof. apply not_forgotten. lia. Qed.
Lemma bodies_exact_witness :
  (read_body 11 (st purged)).2 = Ok text /\ (load_approved_document_payload 2 5 (st purged)).2 = Ok (Some text).
Proof.
  destruct (bodies_exact anything empty_world purged 11 2 5 _ _ _ _ own_hashes empty_fresh reach_purged purged_live
              (surjective_pairing (read_body 11 (st purged))) (surjective_pairing (load_approved_document_payload 2 5 (st purged))))
    as (H & _ & H' & _).
  assert (E : bodies purged !! 11%N = Some (2%N, text)) by (vm_compute; reflexivity).
  assert (E' : docs purged !! (2, 5)%N = Some text) by (vm_compute; reflexivity).
  split.
  - destruct (H 2%N text E purged_live) as [Hr|[_ Hq]]; [exact Hr|destruct (Hq purged_quiet)].
  - rewrite E' in H'. destruct H' as [Hr|[_ Hq]]; [exact Hr|destruct (Hq purged_quiet)].
Defined.
Lemma forgetting_erases_witness :
  (forall h, body_store_key_wraps (tables (st purged)) !! (h, 1%N) = None) /\ is_Some (body_store (tables (st purged)) !! text).
Proof.
  assert (E : purge_body_key_wraps_for_scope 1 (st forgotten) = (st purged, Ok tt)).
  { assert (Hr : (purge_body_key_wraps_for_scope 1 (st forgotten)).2 = Ok tt) by (vm_compute; reflexivity).
    rewrite (surjective_pairing (purge_body_key_wraps_for_scope 1 (st forgotten))), Hr. reflexivity. }
  destruct (forgetting_erases anything empty_world forgotten 1 (st purged) (Ok tt) empty_fresh reach_forgotten E) as ((Hw & _ & _ & Hb & _) & _).
  split; [exact Hw|]. apply Hb. exists 2%N. split; [discriminate|]. vm_compute. by eexists.
Defined.
(** Scope 3 may store what scope 2 holds once the wraps of scope 1 are gone; with scope
    1 forgotten before anyone else stored the text, and its wrap left, it may not. *)
Lemma storing_succeeds_witness : (save_approved_document_payload 80%N 3 6 text (content_hash text) (st purged)).2 = Ok tt.
Proof.
  destruct (storing_succeeds anything empty_world purged (mk_io 12 90%N) 80%N 3 6 text None Useful None _ _ _ _ empty_fresh reach_purged
              (not_forgotten 3 1 ltac:(lia)) I ltac:(vm_compute; discriminate)
              (surjective_pairing (ingest_with_language (mk_io 12 90%N) 3 text None Useful None (st purged)))
              (surjective_pairing (save_approved_document_payload 80%N 3 6 text (content_hash text) (st purged)))) as (_ & _ & H).
  apply H; [exact purged_quiet|intros k n q a; by eexists|exists 3%N; vm_compute; reflexivity|].
  intros sc Hw Hd. apply only_one in Hd as ->.
  assert (Hnone : body_store_key_wraps (tables (st purged)) !! (text, 1%N) = None) by (vm_compute; reflexivity).
  destruct Hw as [w Hw]. change (content_hash text) with text in Hw. congruence.
Defined.
Definition abandoned : demo_world :=
  let w := after_ingest (mk_io 10 50%N) 1 empty_world in mk_world (rekey 1 (Ok 101%N) (st w)) {[1%N]} (bodies w) (docs w).
Lemma leftover_wrap_blocks_witness :
  (exists e, (save_approved_document_payload 80%N 3 6 text (content_hash text) (st abandoned)).2 = Err e) /\
  (exists e, (ingest_with_language (mk_io 12 90%N) 3 text None Useful None (st abandoned)).2 = Err e).
Proof.
  assert (Hl : locked (tables (st abandoned)) (keys (st abandoned)) text 3).
  { split; [vm_compute; by eexists|]. split.
    - intros [w Hw]. assert (Hnone : body_store_key_wraps (tables (st abandoned)) !! (text, 3%N) = None) by (vm_compute; reflexivity). congruence.
    - assert (Hd : is_Some (head (donors (tables (st abandoned)) text 3))) by (vm_compute; by eexists). destruct Hd as [[dsc w] Hd].
      exists dsc, w. split; [exact Hd|].
      assert (Hx : fst <$> head (donors (tables (st abandoned)) text 3) = Some 1%N) by (vm_compute; reflexivity).
      rewrite Hd in Hx. injection Hx as ->. vm_compute. reflexivity. }
  destruct (leftover_wrap_blocks (mk_io 12 90%N) 80%N 3 6 text None Useful None (st abandoned) _ _ _ _ Hl ltac:(vm_compute; reflexivity)
              (surjective_pairing _) (surjective_pairing _)) as (H & _ & H' & _). split; [exact H'|exact H].
Defined.
End Demo.
