(* ===== verification/ApprovedDocuments.v ===== *)
(** * Approved documents of a tenant ([ffi/src/synthesis.rs], [ffi/src/runtime.rs])

    A tenant's memory lists the documents approved for its synthesis; their payloads
    are deduplicated bodies of the evidence store.  Admission writes the payload before
    the list, revocation the list before the payload row, replacement both in one
    transaction.  Opening a store reads the lists back and sweeps rows none of them
    names.  Registering a scope is modelled in [ForgetScope]; here it only may fail. *)

From S2P Require Import Prelude TenantMemory SynthesisStore ServerSynthesis.
From S2P Require Import EvidenceTables RingBuffer BodyStore BodyInvariant BodyLife.

Definition MAX_APPROVED_DOCUMENT_BYTES : Z := 16 * 1024 * 1024.
Definition MAX_APPROVED_DOCUMENT_METADATA_BYTES : nat := 1024.

(** [FfiError], as far as these calls raise it, with what its messages print. *)
Inductive Refusal : Type :=
| EmptyField (field : string) | LongField (field : string) (len : nat)
| EmptyPayload | LargePayload (len : nat) | NotSerialisable.
Inductive FfiError : Type :=
| NotFound (kind : string) (id : uuid)
| Memory (why : Refusal)
| Evidence (e : EvidenceError).

(** [encode_content_hash_hex]. *)
Definition hex_digit (n : N) : string :=
  match String.get (N.to_nat n) "0123456789abcdef" with Some c => String c EmptyString | None => EmptyString end.
Definition encode_content_hash_hex `{ContentHashing Hash} (h : Hash) : string :=
  String.concat EmptyString (flat_map (fun b => [hex_digit (N.shiftr b 4); hex_digit (N.land b 15)]) (hash_bytes h)).

Section Documents.
Context {Json Key Nonce Bytes Hash : Type} `{Countable Hash}.
Context {AE : Aead Key Nonce Bytes} {BE : Aead Key Nonce (list N)} {IN : Inhabited Nonce} {HO : HashOrder}.
Context {CH : ContentHashing Hash} {KB : KeyBytes Key}.
Context {TS : Serde Bytes (TenantMemoryObject (Json := Json))}.
#[local] Notation Store := (@EvidenceTables.Store Key Nonce Bytes Hash _ _).
#[local] Notation Tenant := (TenantMemoryObject (Json := Json)).

(** ** The runtime *)

(** [struct FfiRuntime], the fields these calls use. *)
Record Runtime : Type := mk_rt {
  store : Store;
  tombstones : gset uuid;
  tenant_memories : gmap uuid Tenant
}.
Definition with_store (rt : Runtime) s : Runtime := mk_rt s (tombstones rt) (tenant_memories rt).
Definition with_tenant (rt : Runtime) scope t : Runtime := mk_rt (store rt) (tombstones rt) (<[scope := t]> (tenant_memories rt)).
(** What a call reads outside: the clock, random identifiers and keys, and whether the
    scope could be registered. *)
Record Env : Type := mk_env {
  now : nat -> instant;
  fresh : nat -> uuid;
  random_cek : Key;
  registered : result unit FfiError
}.
Definition on_store {A} (m : eff Store EvidenceError A) : eff Runtime FfiError A := fun rt =>
  let '(s, r) := m (store rt) in (with_store rt s, match r with Ok a => Ok a | Err e => Err (Evidence e) end).
Definition lift {A} (r : result A FfiError) : eff Runtime FfiError A := fun rt => (rt, r).
(** [rt.tenant_memories.insert(..)]. *)
Definition install (scope : uuid) (t : Tenant) : eff Runtime FfiError unit := fun rt => (with_tenant rt scope t, Ok tt).
Definition refuse_forgotten (scope : uuid) : eff Runtime FfiError unit := fun rt =>
  (rt, if bool_decide (scope ∈ tombstones rt) then Err (NotFound "scope" scope) else Ok tt).
Definition tenant_memory (scope : uuid) : eff Runtime FfiError (option Tenant) := fun rt => (rt, Ok (tenant_memories rt !! scope)).
Definition require_tenant (scope : uuid) : eff Runtime FfiError Tenant := fun rt =>
  (rt, ok_or (tenant_memories rt !! scope) (NotFound "tenant_memory" scope)).
Definition serialise (t : Tenant) : result Bytes FfiError := ok_or (to_vec t) (Memory NotSerialisable).

(** [save_tenant_memory]. *)
Definition save_tenant_memory (scope : uuid) (t : Tenant) : eff Runtime FfiError unit :=
  do? json := lift (serialise t) in
  do? _ := on_store (on_rows (save_memory_blob scope TENANT_MEMORY_KIND json)) in
  install scope t.

(** ** The calls *)

(** [ApprovedDocumentSummary]. *)
Record ApprovedDocumentSummary : Type := mk_summary {
  sum_id : uuid;
  sum_scope : uuid;
  sum_label : string;
  sum_approver : string;
  approved_at_ms : Z;
  payload_bytes : N;
  content_hash_hex : string
}.
Definition summary_of (scope : uuid) (r : ApprovedDocumentRef) (bytes : N) (hex : string) : ApprovedDocumentSummary :=
  mk_summary (doc_id r) scope (doc_label r) (approver r) (approved_at r / 1000000) bytes hex.

Definition validate_approved_document_metadata (field value : string) : result unit FfiError :=
  if bool_decide (value = EmptyString) then Err (Memory (EmptyField field))
  else if (MAX_APPROVED_DOCUMENT_METADATA_BYTES <? String.length value)%nat
  then Err (Memory (LongField field (String.length value))) else Ok tt.
(** What both [admit_approved_document] and [replace_approved_document] check first. *)
Definition validate (label who : string) (payload : list N) : result unit FfiError :=
  let? _ := validate_approved_document_metadata "label" label in
  let? _ := validate_approved_document_metadata "approver" who in
  if (length payload =? 0)%nat then Err (Memory EmptyPayload)
  else if (MAX_APPROVED_DOCUMENT_BYTES <? Z.of_nat (length payload))%Z then Err (Memory (LargePayload (length payload))) else Ok tt.

Definition admit_approved_document (env : Env) (scope : uuid) (label who : string) (payload : list N) :
    eff Runtime FfiError ApprovedDocumentSummary :=
  do? _ := lift (validate label who payload) in
  let h := content_hash payload in
  let reference := new_document (fresh env 0) (now env 0) label who in
  do? _ := refuse_forgotten scope in
  do? _ := lift (registered env) in
  do? _ := on_store (save_approved_document_payload (random_cek env) scope (doc_id reference) payload h) in
  do? current := tenant_memory scope in
  let t := default (TenantMemory.new (fresh env 1) (now env 1) scope) current in
  do? _ := save_tenant_memory scope (TenantMemory.admit_approved_document (now env 2) reference t) in
  ret (summary_of scope reference (N.of_nat (length payload)) (encode_content_hash_hex h)).

Definition revoke_approved_document (env : Env) (scope document : uuid) : eff Runtime FfiError unit :=
  do? _ := refuse_forgotten scope in
  do? t := require_tenant scope in
  match TenantMemory.revoke_approved_document (now env 0) document t with
  | (_, Err _) => throw (NotFound "approved_document" document)
  | (t, Ok _) =>
      do? _ := save_tenant_memory scope t in
      do? _ := on_store (delete_approved_document_payload scope document) in
      ret tt
  end.

(** The reference at [position], rewritten; the loop of [iter().position(..)]. *)
Fixpoint replace_ref (document : uuid) (f : ApprovedDocumentRef -> ApprovedDocumentRef) (l : list ApprovedDocumentRef) :
    option (list ApprovedDocumentRef * ApprovedDocumentRef) :=
  match l with
  | [] => None
  | d :: l =>
      if (doc_id d =? document)%N then Some (f d :: l, f d)
      else match replace_ref document f l with Some (l', d') => Some (d :: l', d') | None => None end
  end.
Definition replace_approved_document (env : Env) (scope document : uuid) (label who : string) (payload : list N) :
    eff Runtime FfiError ApprovedDocumentSummary :=
  do? _ := lift (validate label who payload) in
  let h := content_hash payload in
  do? _ := refuse_forgotten scope in
  do? t := require_tenant scope in
  do? found := lift (ok_or (replace_ref document (fun d => mk_document (doc_id d) label (now env 0) who) (approved_documents t))
                           (NotFound "approved_document" document)) in
  let after := with_sources t (domain_scopes t) found.1 (now env 1) in
  let summary := summary_of scope found.2 (N.of_nat (length payload)) (encode_content_hash_hex h) in
  do? json := lift (serialise after) in
  do? _ := on_store (transaction (
    do? _ := save_approved_document_payload_in_tx (random_cek env) scope document payload h in
    on_rows (save_memory_blob_in_tx scope TENANT_MEMORY_KIND json))) in
  do? _ := install scope after in
  ret summary.

(** The metadata rows by document. *)
Definition meta_by_id (rows : list (PayloadMeta (Hash := Hash))) : gmap uuid PayloadMeta :=
  foldl (fun m row => <[document_id row := row]> m) ∅ rows.
Definition joined (scope : uuid) (rows : gmap uuid (PayloadMeta (Hash := Hash))) (r : ApprovedDocumentRef) : ApprovedDocumentSummary :=
  match rows !! doc_id r with
  | Some row => summary_of scope r (meta_size row) (encode_content_hash_hex (meta_hash row))
  | None => summary_of scope r 0 EmptyString
  end.
Definition list_approved_documents (scope : uuid) : eff Runtime FfiError (list ApprovedDocumentSummary) := fun rt =>
  if bool_decide (scope ∈ tombstones rt) then (rt, Ok [])
  else match tenant_memories rt !! scope with
       | None => (rt, Ok [])
       | Some t =>
           (do? rows := on_store (list_approved_document_payload_meta_for_scope scope) in
            ret (joined scope (meta_by_id rows) <$> approved_documents t)) rt
       end.
(** [materialise_approved_documents], over these tables: the payload of each reference
    that has one. *)
Fixpoint materialise (scope : uuid) (refs : list ApprovedDocumentRef) : eff Runtime FfiError (list (ApprovedDocumentRef * list N)) :=
  match refs with
  | [] => ret []
  | r :: refs =>
      do? payload := on_store (load_approved_document_payload scope (doc_id r)) in
      do? rest := materialise scope refs in
      ret (match payload with Some p => (r, p) :: rest | None => rest end)
  end.

(** ** Opening *)

(** The sweep of payload rows no list names; its failures are logged. *)
Definition valid_keys (tenants : gmap uuid Tenant) : list (uuid * uuid) :=
  flat_map (fun kv : uuid * Tenant => (fun d => (tm_scope_id kv.2, doc_id d)) <$> approved_documents kv.2) (map_to_list tenants).
Definition sweep_payloads (tenants : gmap uuid Tenant) : Store -> Store := fun s =>
  match list_all_approved_document_payload_keys s with
  | (s, Err _) => s
  | (s, Ok all_keys) =>
      foldl (fun s (k : uuid * uuid) => (delete_approved_document_payload k.1 k.2 s).1) s
        (List.filter (fun k => negb (bool_decide (k ∈ valid_keys tenants))) all_keys)
  end.
(** What [open_store] does with documents: the lists of scopes not forgotten are read
    back, then the sweep.  What it does in between, to windows and objects
    ([ServerSynthesis.open_synthesis]), touches neither the lists nor these tables. *)
Definition open_documents (forgotten : gset uuid) : Store -> Store * result Runtime FfiError := fun s =>
  match rehydrate (A := Tenant) TENANT_MEMORY_KIND forgotten (fun _ a => a) (rows s) with
  | (r, Err e) => (with_rows s r, Err (Evidence e))
  | (r, Ok tenants) =>
      let s := sweep_payloads tenants (with_rows s r) in
      (s, Ok (mk_rt s forgotten tenants))
  end.
End Documents.
