(* ===== verification/DocumentShelf.v ===== *)
(** * What the calls on approved documents do to a tenant's shelf
    ([ffi/src/synthesis.rs])

    The shelf of a scope is the list of its documents with their payloads, as synthesis
    would be given them.  Admission, revocation and replacement implement its append,
    removal and update, whatever statements fail; other calls leave it alone; and it
    survives a restart that meets no failing statement. *)

From S2P Require Import Prelude TenantMemory SynthesisStore ServerSynthesis SynthesisRecovery.
From S2P Require Import EvidenceTables RingBuffer BodyStore BodyInvariant BodyLife ApprovedDocuments.

(** ** The sweep, and what a failed read costs *)

Section Sweep.
Context {Json Key Nonce Bytes Hash : Type} `{Countable Hash}.
Context {AE : Aead Key Nonce Bytes} {BE : Aead Key Nonce (list N)} {IN : Inhabited Nonce} {HO : HashOrder}.
Context {CH : ContentHashing Hash} {KB : KeyBytes Key}.
Context {TS : Serde Bytes (TenantMemoryObject (Json := Json))}.
#[local] Notation Store := (@EvidenceTables.Store Key Nonce Bytes Hash _ _).
#[local] Notation Tenant := (TenantMemoryObject (Json := Json)).
#[local] Notation Runtime := (@Runtime Json Key Nonce Bytes Hash _ _).
#[local] Notation Env := (@ApprovedDocuments.Env Key).
Implicit Types (rt : Runtime) (s : Store) (sc d : uuid) (p : list N).


Lemma with_payloads_id (t : @EvidenceTables.Tables Nonce Hash _ _) : with_payloads t (approved_document_payloads t) = t.
Proof. by destruct t. Qed.
Lemma with_tables_id s : with_tables s (tables s) = s.
Proof. by destruct s. Qed.
Lemma sweep_each (ks : list (uuid * uuid)) s : quiet s ->
  goes s (with_payloads (tables s) (base.filter (fun kv => kv.1 ∉ ks) (approved_document_payloads (tables s))))
    (foldl (fun s (k : uuid * uuid) => (delete_approved_document_payload k.1 k.2 s).1) s ks).
Proof.
  revert s. induction ks as [|[sc d] ks IH]; intros s Hq; cbn [foldl].
  - rewrite map_filter_id by (intros ? ? _; apply not_elem_of_nil). rewrite with_payloads_id. apply goes_refl.
  - cbn [fst snd]. unfold delete_approved_document_payload at 2. unfold execute at 1. rewrite (quiet_tick _ Hq). cbn [fst].
    set (t := with_payloads (tables s) (delete (sc, d) (approved_document_payloads (tables s)))). assert (Hg := goes_with_tables s t). eapply goes_trans; [exact Hg|].
    assert (E : with_payloads (tables s) (base.filter (fun kv => kv.1 ∉ (sc, d) :: ks) (approved_document_payloads (tables s))) =
                with_payloads t (base.filter (fun kv => kv.1 ∉ ks) (approved_document_payloads t))).
    { change (approved_document_payloads t) with (delete (sc, d) (approved_document_payloads (tables s))). unfold t, with_payloads. f_equal.
      apply map_eq. intros k. apply option_eq. intros row. rewrite !map_lookup_filter_Some.
      rewrite (lookup_delete_Some (approved_document_payloads (tables s)) (sc, d)). cbn [fst]. set_solver. }
    rewrite E. apply (IH (with_tables (advance s) t)). by apply Hg.
Qed.
(** The sweep leaves the rows some list names. *)
Lemma sweep_spec tenants s : quiet s -> goes s
  (with_payloads (tables s) (base.filter (fun kv => kv.1 ∈ valid_keys tenants) (approved_document_payloads (tables s))))
  (sweep_payloads (Json := Json) tenants s).
Proof.
  intros Hq. unfold sweep_payloads, list_all_approved_document_payload_keys, query, execute. rewrite (quiet_tick _ Hq).
  assert (Hg := goes_advance s). change (with_tables (advance s) (tables s)) with (with_tables (advance s) (tables (advance s))).
  rewrite with_tables_id.
  set (ks := List.filter _ _). eapply goes_trans; [exact Hg|].
  assert (E : base.filter (fun kv => kv.1 ∈ valid_keys tenants) (approved_document_payloads (tables s)) =
              base.filter (fun kv => kv.1 ∉ ks) (approved_document_payloads (tables s))).
  { apply map_filter_ext. intros k row Hk. cbn [fst]. assert (Hks : k ∈ ks <-> k ∉ valid_keys tenants).
    { unfold ks. rewrite (list_elem_of_In _ k), filter_In, <- list_elem_of_In, negb_true_iff, bool_decide_eq_false. split; [tauto|]. intros Hn.
      split; [|done]. apply list_elem_of_fmap. exists (k, row). split; [done|]. by rewrite elem_of_hash_order, elem_of_map_to_list. }
    rewrite Hks. destruct (decide (k ∈ valid_keys tenants)); tauto. }
  rewrite E. apply (sweep_each ks (advance s)). by apply Hg.
Qed.
Lemma valid_keys_elem (tenants : gmap uuid Tenant) k :
  k ∈ valid_keys tenants <-> exists sc t r, tenants !! sc = Some t /\ r ∈ approved_documents t /\ k = (tm_scope_id t, doc_id r).
Proof.
  unfold valid_keys. rewrite list_elem_of_In, in_flat_map. split.
  - intros ([sc t] & Hin & Hk). rewrite <- list_elem_of_In in Hin. apply elem_of_map_to_list in Hin.
    rewrite <- list_elem_of_In in Hk. apply list_elem_of_fmap in Hk as (r & -> & Hr). by exists sc, t, r.
  - intros (sc & t & r & Ht & Hr & ->). exists (sc, t). split; [apply list_elem_of_In; by apply elem_of_map_to_list|].
    apply list_elem_of_In. cbn. apply list_elem_of_fmap. by exists r.
Qed.
Lemma load_decoded_conn {A} `{Serde Bytes A} scope kind (r r' : EvidenceStore (Key := Key) (Nonce := Nonce) (Bytes := Bytes)) (a : option A) :
  load_decoded scope kind r = (r', a) -> conn r' = conn r.
Proof.
  unfold load_decoded, load_memory_blob, try_eff, statement. destruct (fails (next r)); [by intros [= <- _]|].
  destruct (memory_objects _ !! _); by intros [= <- _].
Qed.
Lemma rehydrate_conn {A B} `{Serde Bytes A} kind forgotten (keep : uuid -> A -> B)
    (r r' : EvidenceStore (Key := Key) (Nonce := Nonce) (Bytes := Bytes)) res : rehydrate kind forgotten keep r = (r', res) -> conn r' = conn r.
Proof.
  assert (Heach : forall scopes out r r' out', rehydrate_each kind forgotten keep scopes out r = (r', out') -> conn r' = conn r).
  { clear. induction scopes as [|x scopes IH]; intros out r r' out' E; cbn [rehydrate_each] in E; [by injection E as <- _|].
    case_bool_decide; [by eapply IH|]. destruct (load_decoded x kind r) as [r1 a] eqn:E1. apply load_decoded_conn in E1.
    apply IH in E. congruence. }
  unfold rehydrate, try_eff, list_memory_scopes, statement. destruct (fails (next r)); [by intros [= <- _]|].
  destruct (rehydrate_each _ _ _ _ _ _) as [r1 out] eqn:E. apply Heach in E. by intros [= <- _].
Qed.
(** When opening a store does not get to read the list of a scope, once, because a
    statement fails or the row does not decode, while the sweep's own statements
    succeed, the payload row of every document of the scope is deleted, although the
    list itself stays on disk. *)
Theorem unread_list_loses_payloads forgotten s s' rt' sc :
  open_documents forgotten s = (s', Ok rt') -> tenant_memories rt' !! sc = None ->
  (forall x t, tenant_memories rt' !! x = Some t -> tm_scope_id t = x) -> 
  quiet (with_rows s (rehydrate (A := TenantMemoryObject (Json := Json)) TENANT_MEMORY_KIND forgotten (fun _ a => a) (rows s)).1) ->
  conn (rows s') = conn (rows s) /\ forall d, approved_document_payloads (tables s') !! (sc, d) = None.
Proof.
  intros E Hn Hid Hq. unfold open_documents in E. destruct (rehydrate _ _ _ _) as [r [tenants|e]] eqn:Er; [|done].
  apply rehydrate_conn in Er. injection E as <- <-. cbn [fst tenant_memories] in *. destruct (sweep_spec tenants _ Hq) as [_ -> ->].
  split; [exact Er|]. intros d.
  cbn [with_payloads approved_document_payloads]. apply map_lookup_filter_None. right. intros row _ Hin. cbn [fst] in Hin.
  apply valid_keys_elem in Hin as (x & t & ref & Ht & _ & [= Ex _]). rewrite (Hid x t Ht) in Ex. congruence.
Qed.
End Sweep.

Section Shelf.
Context {Json Key Nonce Bytes Hash : Type} `{Countable Hash}.
Context {AE : Aead Key Nonce Bytes} {BE : Aead Key Nonce (list N)} {IN : Inhabited Nonce} {HO : HashOrder}.
Context {CH : ContentHashing Hash} {KB : KeyBytes Key}.
Context {TS : Serde Bytes (TenantMemoryObject (Json := Json))}.
#[local] Notation Store := (@EvidenceTables.Store Key Nonce Bytes Hash _ _).
#[local] Notation Tenant := (TenantMemoryObject (Json := Json)).
#[local] Notation Runtime := (@Runtime Json Key Nonce Bytes Hash _ _).
#[local] Notation Env := (@ApprovedDocuments.Env Key).
Implicit Types (rt : Runtime) (s : Store) (sc d : uuid) (p : list N).

(** The texts ever stored have distinct hashes; what is serialised reads back. *)
Context (genuine : list N -> Prop).
Context (codec : forall (t : Tenant) json, to_vec t = Some json -> from_slice json = Some t).

(** ** The shelf *)

(** The store with another future; with no failing statement to come; and the payload
    it then gives. *)
Definition taped tp s : Store := with_rows s (SynthesisStore.mk_store (conn (rows s)) (keys s) tp).
Definition hushed : Store -> Store := taped [].
Definition payload_at s sc d : option (list N) :=
  match (load_approved_document_payload sc d (hushed s)).2 with Ok found => found | Err _ => None end.
Definition shelf rt sc : list (ApprovedDocumentRef * option (list N)) :=
  if bool_decide (sc ∈ tombstones rt) then []
  else match tenant_memories rt !! sc with
       | Some t => (fun r => (r, payload_at (store rt) sc (doc_id r))) <$> approved_documents t
       | None => []
       end.

(** ** The invariant *)

Definition listed_on_disk s sc : option Tenant := decoded_at (rows s) sc TENANT_MEMORY_KIND.
Record documented rt (bm : gmap uuid (uuid * list N)) (dm : gmap (uuid * uuid) (list N)) : Prop := mk_documented {
  dc_inv : inv genuine (mk_world (store rt) (tombstones rt) bm dm);
  dc_refs : forall sc t r, tenant_memories rt !! sc = Some t -> sc ∉ tombstones rt -> r ∈ approved_documents t ->
              is_Some (dm !! (sc, doc_id r));
  dc_wf : forall sc t, tenant_memories rt !! sc = Some t -> tm_scope_id t = sc /\ NoDup (doc_id <$> approved_documents t);
  dc_disk : forall sc, sc ∉ tombstones rt -> tenant_memories rt !! sc = listed_on_disk (store rt) sc
}.

Lemma load_docs (W : @World Key Nonce Bytes Hash _ _) s sc d : inv genuine W -> keys s = keys (st W) -> tables s = tables (st W) -> sc ∉ dead W ->
  (forall p q, genuine p -> genuine q -> content_hash p = content_hash q -> p = q) ->
  wp (load_approved_document_payload sc d) s (answers s (Ok (docs W !! (sc, d)))).
Proof.
  intros Hi Ek Et Hd Hnc. assert (Hs := inv_sound _ _ Hi). rewrite <- Ek, <- Et in Hs.
  assert (Hl := load_payload_spec genuine (dead W) sc d s Hs). rewrite Et in Hl.
  assert (Hp := inv_payloads _ _ Hi (sc, d)).
  destruct (approved_document_payloads (tables (st W)) !! (sc, d)) as [row|], (docs W !! (sc, d)) as [p|]; try done.
  destruct Hp as (Hh & Hg & _). destruct (Hl Hd) as (q & Hgq & Eq & Hw). assert (q = p) as -> by (apply Hnc; congruence). exact Hw.
Qed.
Lemma answers_quiet {A} (m : eff Store EvidenceError A) s a : wp m s (answers s (Ok a)) -> quiet s ->
  exists s', m s = (s', Ok a) /\ goes s (tables s) s'.
Proof. intros Hw Hq. destruct (m s) as [s' r] eqn:E. apply (wp_elim _ _ _ _ _ Hw) in E as [Hg [->|[_ Hn]]]; [by exists s'|done]. Qed.
Lemma payload_at_docs rt bm dm sc d : inv genuine (mk_world (store rt) (tombstones rt) bm dm) -> sc ∉ tombstones rt ->
  (forall p q, genuine p -> genuine q -> content_hash p = content_hash q -> p = q) ->
  payload_at (store rt) sc d = dm !! (sc, d).
Proof.
  intros Hi Hd Hnc. assert (Hq : quiet (hushed (store rt))) by constructor.
  destruct (answers_quiet _ _ _ (load_docs _ (hushed (store rt)) sc d Hi eq_refl eq_refl Hd Hnc) Hq) as (s' & E & _).
  unfold payload_at. by rewrite E.
Qed.

(** ** Writing the list *)

Definition later (r r' : EvidenceStore (Key := Key) (Nonce := Nonce) (Bytes := Bytes)) : Prop :=
  SynthesisStore.scope_key r' = SynthesisStore.scope_key r /\ exists n, tape r' = drop n (tape r).
Lemma later_moved s r : later (rows s) r -> moved s (with_rows s r).
Proof.
  intros [Hk [n Hn]]. split; [exact Hk|done|done|]. unfold quiet. cbn. rewrite Hn. apply Forall_drop.
Qed.
Lemma tail_drop {A} (l : list A) : tail l = drop 1 l.
Proof. by destruct l. Qed.
Lemma save_in_tx_later sc kind json r r' res : save_memory_blob_in_tx sc kind json r = (r', res) -> later r r'.
Proof.
  intros E. split; [by apply save_blob_in_tx_spec in E as [? _]|]. unfold save_memory_blob_in_tx, try_eff in E.
  destruct (sealed sc _ json r) as [r1 [c|e]] eqn:Es; apply sealed_spec in Es as [-> _]; [|exists 0%nat; by injection E as <- _].
  unfold statement in E. exists 1%nat. rewrite <- tail_drop. destruct (fails _); by injection E as <- _.
Qed.
Lemma save_later sc kind json r r' res : save_memory_blob sc kind json r = (r', res) -> later r r'.
Proof.
  intros E. split; [by apply save_blob_spec in E as [? _]|]. unfold save_memory_blob, with_transaction in E.
  destruct (fails (next r)); [exists 1%nat; rewrite <- tail_drop; by injection E as <- _|].
  destruct (save_memory_blob_in_tx sc kind json (advance_tape r)) as [r2 [[]|e]] eqn:E2; apply save_in_tx_later in E2 as [_ [n Hn]];
    cbn [advance_tape tape] in Hn; rewrite tail_drop, drop_drop in Hn.
  - exists (1 + n + 1)%nat. rewrite <- drop_drop, <- Hn, <- tail_drop. destruct (fails (next r2)); by injection E as <- _.
  - exists (1 + n)%nat. by injection E as <- _.
Qed.

(** Both ways of writing a list: the tables stay, and the row is written or not. *)
Definition list_written s sc json s' : Prop :=
  moved s s' /\ tables s' = tables s /\ blob_at (rows s') sc TENANT_MEMORY_KIND = Some json /\
  forall x, x <> sc -> listed_on_disk s' x = listed_on_disk s x.
Lemma listed_same s s' x : keys s' = keys s -> conn (rows s') = conn (rows s) -> listed_on_disk s' x = listed_on_disk s x.
Proof. intros Hk Hc. unfold listed_on_disk, decoded_at. by rewrite (same_rows_blob (rows s) (rows s')). Qed.
Lemma write_spec sc json (m : eff (EvidenceStore (Key := Key) (Nonce := Nonce) (Bytes := Bytes)) EvidenceError unit) s s' (r : result unit EvidenceError) :
  m = save_memory_blob sc TENANT_MEMORY_KIND json \/ m = save_memory_blob_in_tx sc TENANT_MEMORY_KIND json ->
  on_rows m s = (s', r) ->
  match r with
  | Ok _ => list_written s sc json s'
  | Err _ => moved s s' /\ tables s' = tables s /\ conn (rows s') = conn (rows s)
  end.
Proof.
  intros Hm E. unfold on_rows in E. destruct (m (rows s)) as [r' res] eqn:Em. injection E as <- <-.
  assert (Hl : later (rows s) r') by (destruct Hm as [-> | ->]; [by eapply save_later|by eapply save_in_tx_later]).
  assert (Hb : match res with
               | Ok _ => blob_at r' sc TENANT_MEMORY_KIND = Some json /\
                         forall x k, (x, k) <> (sc, TENANT_MEMORY_KIND) -> blob_at r' x k = blob_at (rows s) x k
               | Err _ => conn r' = conn (rows s)
               end).
  { destruct Hm as [-> | ->]; [apply save_blob_spec in Em as [_ Em]|apply save_blob_in_tx_spec in Em as [_ Em]];
      (destruct res as [[]|]; [|done]); by destruct Em as (? & ? & _). }
  apply later_moved in Hl. destruct res as [[]|e]; [|done]. destruct Hb as [Hb Ho]. do 3 (split; [done|]).
  intros x Hne. unfold listed_on_disk, decoded_at. cbn [with_rows rows]. rewrite Ho; [done|]. congruence.
Qed.
(** Installing the list that was written. *)
Lemma documented_list rt bm dm sc t json s' :
  documented rt bm dm -> to_vec t = Some json -> list_written (store rt) sc json s' -> tm_scope_id t = sc ->
  NoDup (doc_id <$> approved_documents t) -> (forall r, r ∈ approved_documents t -> is_Some (dm !! (sc, doc_id r))) ->
  documented (with_tenant (with_store rt s') sc t) bm dm.
Proof.
  intros [Hi Hr Hw Hd] Hj (Hm & Ht & Hb & Ho) Hsc Hnd Hin. split; cbn [with_tenant with_store store tombstones tenant_memories].
  - apply (inv_elsewhere genuine (mk_world (store rt) (tombstones rt) bm dm)); [done|]. split; [done|].
    exists (ring_buffer (tables (store rt))), (ring_seq (tables (store rt))). cbn [st]. by rewrite with_ring_id.
  - intros x t' r. rewrite lookup_insert. case_decide as Ex; [intros [= <-] _ Hr'; subst; by apply Hin|apply Hr].
  - intros x t'. rewrite lookup_insert. case_decide as Ex; [intros [= <-]; by subst|apply Hw].
  - intros x Hx. destruct (decide (x = sc)) as [->|Hne].
    + rewrite lookup_insert_eq. unfold listed_on_disk, decoded_at. rewrite Hb. cbn. by rewrite (codec _ _ Hj).
    + rewrite lookup_insert_ne, Ho by done. by apply Hd.
Qed.

(** ** What each call does *)

(** The store changed under the same lists. *)
Lemma documented_store rt bm dm s' bm' dm' : documented rt bm dm -> inv genuine (mk_world s' (tombstones rt) bm' dm') ->
  (forall sc t r, tenant_memories rt !! sc = Some t -> sc ∉ tombstones rt -> r ∈ approved_documents t -> is_Some (dm' !! (sc, doc_id r))) ->
  (forall x, x ∉ tombstones rt -> listed_on_disk s' x = listed_on_disk (store rt) x) -> documented (with_store rt s') bm' dm'.
Proof.
  intros [Hi Hr Hw Hd] Hi' Hr' Hl. split; cbn [with_store store tombstones tenant_memories]; [done|done|done|].
  intros x Hx. rewrite Hl by done. by apply Hd.
Qed.
Context (no_collision : forall p q, genuine p -> genuine q -> content_hash p = content_hash q -> p = q).
Lemma shelf_docs rt bm dm sc : documented rt bm dm -> sc ∉ tombstones rt ->
  shelf rt sc = match tenant_memories rt !! sc with
                | Some t => (fun r => (r, dm !! (sc, doc_id r))) <$> approved_documents t
                | None => []
                end.
Proof.
  intros Hd Hx. unfold shelf. rewrite bool_decide_eq_false_2 by done. destruct (tenant_memories rt !! sc) as [t|]; [|done].
  apply list_fmap_ext. intros i r _. by rewrite (payload_at_docs rt bm dm) by (try apply Hd; done).
Qed.
(** Runtimes with the same lists and, for what is listed, the same payloads. *)
Lemma shelf_same rt rt' bm bm' dm dm' : documented rt bm dm -> documented rt' bm' dm' -> tombstones rt' = tombstones rt ->
  tenant_memories rt' = tenant_memories rt ->
  (forall sc t r, tenant_memories rt !! sc = Some t -> sc ∉ tombstones rt -> r ∈ approved_documents t ->
     dm' !! (sc, doc_id r) = dm !! (sc, doc_id r)) -> forall sc, shelf rt' sc = shelf rt sc.
Proof.
  intros Hd Hd' Et Em Hdm sc. destruct (decide (sc ∈ tombstones rt)) as [Hin|Hn].
  { unfold shelf. by rewrite Et, !bool_decide_eq_true_2. }
  rewrite (shelf_docs rt bm dm), (shelf_docs rt' bm' dm') by (rewrite ?Et; done). rewrite Em.
  destruct (tenant_memories rt !! sc) as [t|] eqn:E; [|done]. apply list_fmap_ext. intros i r Hr. f_equal.
  eapply Hdm; [done|done|]. by eapply list_elem_of_lookup_2.
Qed.

(** One list changed. *)
Lemma shelf_updated rt rt' bm bm' dm dm' sc t : documented rt bm dm -> documented rt' bm' dm' -> tombstones rt' = tombstones rt ->
  tenant_memories rt' = <[sc := t]> (tenant_memories rt) -> sc ∉ tombstones rt ->
  (forall x ref, x <> sc -> dm' !! (x, ref) = dm !! (x, ref) \/ dm !! (x, ref) = None) ->
  forall x, shelf rt' x = if decide (x = sc) then (fun r => (r, dm' !! (sc, doc_id r))) <$> approved_documents t else shelf rt x.
Proof.
  intros Hd Hd' Et Em Hsc Hdm x. destruct (decide (x ∈ tombstones rt)) as [Hin|Hn].
  { rewrite decide_False by congruence. unfold shelf. by rewrite Et, !bool_decide_eq_true_2. }
  rewrite (shelf_docs rt' bm' dm') by (rewrite ?Et; done). rewrite Em, lookup_insert. case_decide as E1; case_decide as E2; [by subst|congruence..|].
  rewrite (shelf_docs rt bm dm) by done. destruct (tenant_memories rt !! x) as [t'|] eqn:E; [|done].
  apply list_fmap_ext. intros i r Hr. apply list_elem_of_lookup_2 in Hr. destruct (dc_refs _ _ _ Hd x t' r E Hn Hr) as [q Hq].
  destruct (Hdm x (doc_id r) E2); congruence.
Qed.
(** A scope's list, made when it has none. *)
Lemma list_default rt bm dm sc (t0 : Tenant) : documented rt bm dm -> sc ∉ tombstones rt -> approved_documents t0 = [] -> tm_scope_id t0 = sc ->
  let t := default t0 (tenant_memories rt !! sc) in
  tm_scope_id t = sc /\ NoDup (doc_id <$> approved_documents t) /\
  (forall ref, ref ∈ approved_documents t -> is_Some (dm !! (sc, doc_id ref))) /\
  shelf rt sc = (fun r => (r, dm !! (sc, doc_id r))) <$> approved_documents t.
Proof.
  intros Hd Hx Hl Hid t. rewrite (shelf_docs rt bm dm) by done. unfold t. destruct (tenant_memories rt !! sc) as [t1|] eqn:E; cbn [default].
  - destruct (dc_wf _ _ _ Hd sc t1 E). do 2 (split; [done|]). split; [|done]. intros ref Hr. by eapply dc_refs.
  - rewrite Hl. split; [done|]. split; [constructor|]. split; [|done]. intros ref Hr. by apply not_elem_of_nil in Hr.
Qed.

Lemma payload_written rt bm dm cek sc d p s' r : documented rt bm dm -> genuine p ->
  save_approved_document_payload cek sc d p (content_hash p) (store rt) = (s', r) ->
  documented (with_store rt s') bm (if_ok r (<[(sc, d) := p]> dm) dm).
Proof.
  intros Hd Hg E. eapply documented_store; [exact Hd| | |].
  - exact (inv_save genuine (mk_world (store rt) (tombstones rt) bm dm) cek sc d p s' r (dc_inv _ _ _ Hd) Hg E).
  - intros x t ref Ht Hx Hr. assert (Hs := dc_refs _ _ _ Hd x t ref Ht Hx Hr). destruct r; [|done]. cbn [if_ok].
    rewrite lookup_insert. by case_decide.
  - intros x _. assert (Hw := save_payload_spec genuine (tombstones rt) cek sc d p (store rt) (inv_sound _ _ (dc_inv _ _ _ Hd)) Hg).
    apply (wp_elim _ _ _ _ _ Hw) in E as [Hm E]. apply listed_same; [apply Hm|]. destruct r; [apply E|apply E].
Qed.
(** The new list, once written, as part of what a call does. *)
Lemma save_tenant_spec rt bm dm sc t rt' (r : result unit FfiError) : documented rt bm dm -> tm_scope_id t = sc ->
  NoDup (doc_id <$> approved_documents t) -> (forall ref, ref ∈ approved_documents t -> is_Some (dm !! (sc, doc_id ref))) ->
  save_tenant_memory sc t rt = (rt', r) ->
  documented rt' bm dm /\ tombstones rt' = tombstones rt /\
  tenant_memories rt' = match r with Ok _ => <[sc := t]> (tenant_memories rt) | Err _ => tenant_memories rt end.
Proof.
  intros Hd Hsc Hnd Hin E. unfold save_tenant_memory, try_eff, lift, serialise, install in E.
  destruct (to_vec t) as [json|] eqn:Ej; cbn [ok_or] in E; [|by injection E as <- <-].
  unfold on_store in E. destruct (on_rows _ (store rt)) as [s1 r1] eqn:Ew.
  apply (write_spec sc json) in Ew; [|by left]. destruct r1 as [[]|e]; injection E as <- <-.
  - split; [|done]. by apply documented_list with (json := json).
  - destruct Ew as (Hm & Ht & Hc). split; [|done]. eapply documented_store; [exact Hd| |apply Hd|].
    + apply (bodies_same genuine (mk_world (store rt) (tombstones rt) bm dm)); [apply Hd|by split].
    + intros x _. apply listed_same; [apply Hm|done].
Qed.

Definition new_ref (env : Env) (label who : string) : ApprovedDocumentRef := new_document (fresh env 0) (now env 0) label who.
(** The list of a scope after admission. *)
Lemma admitted_list (t : Tenant) env label who : doc_id (new_ref env label who) ∉ (doc_id <$> approved_documents t) ->
  approved_documents (TenantMemory.admit_approved_document (now env 2) (new_ref env label who) t) = approved_documents t ++ [new_ref env label who].
Proof.
  intros Hn. unfold TenantMemory.admit_approved_document. pose proof (existsb_doc (doc_id (new_ref env label who)) (approved_documents t)) as He.
  destruct (existsb _ _); [|done]. destruct Hn. by apply He.
Qed.
Lemma admit_spec rt bm dm env sc label who p rt' (r : result ApprovedDocumentSummary FfiError) :
  documented rt bm dm -> genuine p -> dm !! (sc, fresh env 0) = None ->
  ApprovedDocuments.admit_approved_document env sc label who p rt = (rt', r) ->
  exists dm', documented rt' bm dm' /\ tombstones rt' = tombstones rt /\
    forall x, shelf rt' x = match r with
                            | Ok _ => if decide (x = sc) then shelf rt x ++ [(new_ref env label who, Some p)] else shelf rt x
                            | Err _ => shelf rt x
                            end.
Proof.
  intros Hd Hg Hfresh E. unfold ApprovedDocuments.admit_approved_document, try_eff, lift, ret in E.
  destruct (validate label who p) as [[]|e]; [|injection E as <- <-; by exists dm].
  unfold refuse_forgotten in E. case_bool_decide as Htomb; [injection E as <- <-; by exists dm|].
  destruct (registered env) as [[]|e]; [|injection E as <- <-; by exists dm]. fold (new_ref env label who) in E.
  change (doc_id (new_ref env label who)) with (fresh env 0) in E.
  unfold on_store at 1 in E. destruct (save_approved_document_payload _ _ _ _ _ _) as [s1 r1] eqn:Es.
  apply (payload_written rt bm dm) in Es as Hd1; [|done..]. set (dm1 := if_ok r1 _ dm) in Hd1.
  assert (Hold : forall x t ref, tenant_memories rt !! x = Some t -> x ∉ tombstones rt -> ref ∈ approved_documents t ->
                   dm1 !! (x, doc_id ref) = dm !! (x, doc_id ref)).
  { intros x t ref Ht Hx Hr. destruct (dc_refs _ _ _ Hd x t ref Ht Hx Hr) as [q Hq]. unfold dm1. destruct r1; [|done]. cbn [if_ok].
    rewrite lookup_insert. case_decide as Ek; [|done]. congruence. }
  destruct r1 as [[]|e].
  2:{ injection E as <- <-. exists dm1. split; [done|]. split; [done|]. by apply (shelf_same rt _ bm bm dm dm1). }
  unfold tenant_memory in E. cbn [with_store tenant_memories] in E. destruct (list_default rt bm dm sc (TenantMemory.new (fresh env 1) (now env 1) sc) Hd Htomb eq_refl eq_refl) as (Hsc & Hnd & Hin & Hsh).
  set (t := default _ (tenant_memories rt !! sc)) in *. clearbody t.
  assert (Hnew : doc_id (new_ref env label who) ∉ (doc_id <$> approved_documents t)).
  { intros (ref & Eid & Hr)%list_elem_of_fmap. destruct (Hin ref Hr) as [q Hq]. cbn in Eid. congruence. }
  assert (El := admitted_list t env label who Hnew). set (t' := TenantMemory.admit_approved_document _ _ t) in *.
  destruct (save_tenant_memory sc t' (with_store rt s1)) as [rt2 r2] eqn:E2.
  apply (save_tenant_spec (with_store rt s1) bm dm1) in E2 as (Hd2 & Et2 & Em2); [|done|..].
  - assert (Hdm : forall x ref, dm1 !! (x, ref) = dm !! (x, ref) \/ dm !! (x, ref) = None).
    { intros x ref. unfold dm1. cbn [if_ok]. rewrite lookup_insert. case_decide as Ek; [|by left]. right. congruence. }
    destruct r2 as [[]|e]; injection E as <- <-; exists dm1; (split; [done|]); (split; [done|]).
    + intros x. rewrite (shelf_updated rt rt2 bm bm dm dm1 sc t') by (intros; auto). case_decide as Ex; [|done]. subst x.
      rewrite Hsh, El, fmap_app. f_equal.
      * apply list_fmap_ext. intros i ref Hr. apply list_elem_of_lookup_2 in Hr. destruct (Hin ref Hr) as [q Hq].
        destruct (Hdm sc (doc_id ref)); congruence.
      * cbn. unfold dm1. cbn [if_ok]. by rewrite lookup_insert_eq.
    + intros x. by apply (shelf_same rt rt2 bm bm dm dm1).
  - unfold t', TenantMemory.admit_approved_document. by destruct (existsb _ _).
  - rewrite El, fmap_app. apply NoDup_app. split_and!; [done| |apply NoDup_singleton].
    intros x Hx Hx'%list_elem_of_singleton. by subst.
  - intros ref. rewrite El. unfold dm1. cbn [if_ok]. rewrite lookup_insert. intros [Hr| ->%list_elem_of_singleton]%elem_of_app; case_decide; try done.
    by apply Hin.
Qed.

(** Revocation. *)
Lemma payload_deleted rt bm dm sc d s' (r : result nat EvidenceError) : documented rt bm dm ->
  (forall t, tenant_memories rt !! sc = Some t -> d ∉ doc_id <$> approved_documents t) ->
  delete_approved_document_payload sc d (store rt) = (s', r) ->
  documented (with_store rt s') bm (if_ok r (delete (sc, d) dm) dm).
Proof.
  intros Hd Hn E. eapply documented_store; [exact Hd| | |].
  - exact (bodies_step genuine _ _ (step_delete genuine (mk_world (store rt) (tombstones rt) bm dm) sc d s' r E) (dc_inv _ _ _ Hd)).
  - intros x t ref Ht Hx Hr. assert (Hs := dc_refs _ _ _ Hd x t ref Ht Hx Hr). destruct r; [|done]. cbn [if_ok].
    rewrite lookup_delete. case_decide as Ek; [|done]. injection Ek as <- ->. destruct (Hn t Ht). by apply list_elem_of_fmap_2.
  - intros x _. refine (wp_elim _ (store rt) (fun _ s' => listed_on_disk s' x = listed_on_disk (store rt) x) s' r _ E).
    unfold delete_approved_document_payload. apply wp_execute; [intros s1 Hs1 _|intros t n s1 _ Hs1]; apply listed_same; apply Hs1.
Qed.
Definition removed (d : uuid) (l : list (ApprovedDocumentRef * option (list N))) := base.filter (fun x => doc_id x.1 <> d) l.
Lemma filter_removed (f : ApprovedDocumentRef -> option (list N)) d l :
  (fun r => (r, f r)) <$> List.filter (fun r => negb (doc_id r =? d)%N) l = removed d ((fun r => (r, f r)) <$> l).
Proof.
  induction l as [|r l IH]; [done|]. rewrite fmap_cons. unfold removed in *. rewrite filter_cons, <- IH. cbn [List.filter fst].
  destruct (N.eqb_spec (doc_id r) d); cbn [negb]; [by rewrite decide_False by tauto|by rewrite decide_True].
Qed.
Lemma elem_filter_doc d (l : list ApprovedDocumentRef) r : r ∈ List.filter (fun r => negb (doc_id r =? d)%N) l <-> r ∈ l /\ doc_id r <> d.
Proof. rewrite !list_elem_of_In, filter_In. split; intros [? Hn]; (split; [done|]); destruct (N.eqb_spec (doc_id r) d); done. Qed.
Lemma revoke_spec rt bm dm env sc d rt' (r : result unit FfiError) :
  documented rt bm dm -> ApprovedDocuments.revoke_approved_document env sc d rt = (rt', r) ->
  exists dm', documented rt' bm dm' /\ tombstones rt' = tombstones rt /\
    ((forall x, shelf rt' x = if decide (x = sc) then removed d (shelf rt x) else shelf rt x) \/
     r <> Ok tt /\ forall x, shelf rt' x = shelf rt x).
Proof.
  intros Hd E. unfold ApprovedDocuments.revoke_approved_document, try_eff, refuse_forgotten, require_tenant in E.
  case_bool_decide as Htomb; [injection E as <- <-; exists dm; naive_solver|].
  destruct (tenant_memories rt !! sc) as [t|] eqn:Et; cbn [ok_or] in E; [|injection E as <- <-; exists dm; naive_solver].
  destruct (dc_wf _ _ _ Hd sc t Et) as [Hsc Hnd]. assert (Hin := fun ref => dc_refs _ _ _ Hd sc t ref Et Htomb).
  unfold TenantMemory.revoke_approved_document in E. set (kept := List.filter _ (approved_documents t)) in E.
  destruct (_ =? _)%nat; [injection E as <- <-; exists dm; naive_solver|].
  destruct (save_tenant_memory sc _ rt) as [rt1 r1] eqn:E1.
  apply (save_tenant_spec rt bm dm) in E1 as (Hd1 & Et1 & Em1); [|done..| |].
  2:{ by apply NoDup_filter_doc. }
  2:{ intros ref. cbn. intros [Hr _]%elem_filter_doc. by apply Hin. }
  destruct r1 as [[]|e].
  2:{ injection E as <- <-. exists dm. split; [done|]. split; [done|]. right. split; [done|]. by apply (shelf_same rt rt1 bm bm dm dm). }
  destruct (on_store _ rt1) as [rt2 r2] eqn:E2. assert (E' : rt' = rt2 /\ tombstones rt2 = tombstones rt1 /\ tenant_memories rt2 = tenant_memories rt1 /\
    exists dm', documented rt2 bm dm' /\ forall k, dm' !! k = dm !! k \/ k = (sc, d)).
  { unfold on_store in E2. destruct (delete_approved_document_payload sc d (store rt1)) as [s2 r3] eqn:E3.
    apply (payload_deleted rt1 bm dm) in E3; [|done|].
    - injection E2 as <- <-. destruct r3; injection E as <- <-; (do 3 (split; [done|])); (eexists; split; [exact E3|]); intros k; cbn [if_ok]; [|by left].
      rewrite lookup_delete. case_decide; [by right|by left].
    - intros t1. rewrite Em1, lookup_insert_eq. intros [= <-]. cbn. intros (ref & -> & [_ Hr]%elem_filter_doc)%list_elem_of_fmap. done. }
  destruct E' as (-> & Et2 & Em2 & dm' & Hd2 & Hdm). exists dm'. split; [done|]. split; [congruence|]. left. intros x.
  rewrite (shelf_updated rt rt2 bm bm dm dm' sc (with_sources t (domain_scopes t) kept (now env 0))); [|done..|congruence|congruence|done|].
  - case_decide; [|done]. subst x. rewrite (shelf_docs rt bm dm sc), Et by done. cbn [approved_documents with_sources]. rewrite <- filter_removed.
    apply list_fmap_ext. intros i ref Hr%list_elem_of_lookup_2. apply elem_filter_doc in Hr as [_ Hr]. f_equal.
    destruct (Hdm (sc, doc_id ref)); congruence.
  - intros y ref Hne. destruct (Hdm (y, ref)); [by left|congruence].
Qed.

(** Replacement. *)
Lemma replace_ref_spec d (f : ApprovedDocumentRef -> ApprovedDocumentRef) l l' r : (forall x, doc_id (f x) = doc_id x) ->
  NoDup (doc_id <$> l) -> replace_ref d f l = Some (l', r) ->
  l' = (fun x => if decide (doc_id x = d) then f x else x) <$> l /\ doc_id <$> l' = doc_id <$> l /\ d ∈ (doc_id <$> l).
Proof.
  intros Hf. revert l' r. induction l as [|x l IH]; intros l' r Hnd E; [done|]. cbn [replace_ref] in E. rewrite fmap_cons in Hnd.
  apply NoDup_cons in Hnd as [Hn Hnd]. rewrite !fmap_cons. destruct (N.eqb_spec (doc_id x) d) as [Ex|Ex].
  - injection E as <- <-. rewrite decide_True by done. assert (El : (fun x => if decide (doc_id x = d) then f x else x) <$> l = l).
    { etrans; [|apply list_fmap_id]. apply list_fmap_ext. intros i y Hy%list_elem_of_lookup_2. rewrite decide_False; [done|].
      intros Ey. apply Hn. rewrite Ex, <- Ey. by apply list_elem_of_fmap_2. }
    rewrite El. split; [done|]. rewrite fmap_cons, Hf. split; [done|]. rewrite Ex. apply list_elem_of_here.
  - destruct (replace_ref d f l) as [[l1 r1]|] eqn:E1; [|done]. injection E as <- <-. destruct (IH l1 r1 Hnd eq_refl) as (-> & Hi & Hin).
    rewrite decide_False by done. split; [done|]. rewrite fmap_cons, Hi. split; [done|]. by apply list_elem_of_further.
Qed.
Definition renewed (new : ApprovedDocumentRef) p (l : list (ApprovedDocumentRef * option (list N))) :=
  (fun x => if decide (doc_id x.1 = doc_id new) then (new, Some p) else x) <$> l.

(** The transaction that writes a payload and a list. *)
Lemma both_written rt bm dm cek sc d p json s' (r : result unit EvidenceError) : documented rt bm dm -> genuine p ->
  transaction (do? _ := save_approved_document_payload_in_tx cek sc d p (content_hash p) in
               on_rows (save_memory_blob_in_tx sc TENANT_MEMORY_KIND json)) (store rt) = (s', r) ->
  match r with
  | Ok _ => exists s1, documented (with_store rt s1) bm (<[(sc, d) := p]> dm) /\ list_written s1 sc json s'
  | Err _ => documented (with_store rt s') bm dm
  end.
Proof.
  intros Hd Hg. assert (Hi := dc_inv _ _ _ Hd). refine (wp_elim _ (store rt) (fun r s' => match r with Ok _ => _ | Err _ => _ end) s' r _).
  assert (Hsame : forall s1, goes (store rt) (tables (store rt)) s1 -> documented (with_store rt s1) bm dm).
  { intros s1 Hs1. eapply documented_store; [exact Hd|by apply (bodies_same genuine (mk_world (store rt) (tombstones rt) bm dm))|apply Hd|].
    intros x _. apply listed_same; apply Hs1. }
  apply wp_transaction; [intros s1 Hs1 _; by apply Hsame|]. intros s1 Hs1. assert (Hd1 := Hsame s1 Hs1).
  eapply wp_bind; [apply (save_in_tx_spec genuine (tombstones rt) cek sc d p s1); [apply (inv_sound _ _ (dc_inv _ _ _ Hd1))|done]| |].
  { intros s2 e [Hm _]. split; [etrans; [apply Hs1|done]|]. intros s3 Hs3. by apply Hsame. }
  intros s2 [] [Hm2 Hs2]. unfold wp. destruct (on_rows _ s2) as [s3 r3] eqn:E3. cbn [fst snd].
  apply (write_spec sc json) in E3; [|by right]. destruct r3 as [[]|e].
  2:{ split; [etrans; [apply Hs1|]; etrans; [exact Hm2|]; apply E3|]. intros s4 Hs4. by apply Hsame. }
  split; [etrans; [apply Hs1|]; etrans; [exact Hm2|]; apply E3|]. intros s4 [Hm4 Ht4 Hc4]. exists s2. split.
  - eapply documented_store; [exact Hd| | |].
    + pose proof (inv_saved genuine (mk_world s1 (tombstones rt) bm dm) sc d p s2 (dc_inv _ _ _ Hd1) Hg Hm2 Hs2) as Hv. exact Hv.
    + intros x t ref Ht Hx Hr. assert (Hin := dc_refs _ _ _ Hd x t ref Ht Hx Hr). rewrite lookup_insert. by case_decide.
    + intros x _. etrans; [apply listed_same; [apply Hm2|apply Hs2]|]. apply listed_same; apply Hs1.
  - destruct E3 as (Hm3 & Ht3 & Hb & Ho). split; [by etrans|]. split; [congruence|].
    assert (Hk : forall x, blob_at (rows s4) x TENANT_MEMORY_KIND = blob_at (rows s3) x TENANT_MEMORY_KIND).
    { intros x. apply same_rows_blob. split; [done|apply Hm4]. }
    split; [by rewrite Hk|]. intros x Hx. rewrite <- (Ho x Hx). unfold listed_on_disk, decoded_at. by rewrite Hk.
Qed.
Definition renewed_ref (env : Env) d label who : ApprovedDocumentRef := mk_document d label (now env 0) who.
Lemma replace_spec rt bm dm env sc d label who p rt' (r : result ApprovedDocumentSummary FfiError) :
  documented rt bm dm -> genuine p -> ApprovedDocuments.replace_approved_document env sc d label who p rt = (rt', r) ->
  exists dm', documented rt' bm dm' /\ tombstones rt' = tombstones rt /\
    forall x, shelf rt' x = match r with
                            | Ok _ => if decide (x = sc) then renewed (renewed_ref env d label who) p (shelf rt x) else shelf rt x
                            | Err _ => shelf rt x
                            end.
Proof.
  intros Hd Hg E. unfold ApprovedDocuments.replace_approved_document, try_eff, ApprovedDocuments.lift, install, refuse_forgotten, require_tenant, serialise, ret in E.
  destruct (validate label who p) as [[]|e]; [|injection E as <- <-; by exists dm].
  case_bool_decide as Htomb; [injection E as <- <-; by exists dm|].
  destruct (tenant_memories rt !! sc) as [t|] eqn:Et; cbn [ok_or] in E; [|injection E as <- <-; by exists dm].
  destruct (dc_wf _ _ _ Hd sc t Et) as [Hsc Hnd]. assert (Hin := fun ref => dc_refs _ _ _ Hd sc t ref Et Htomb).
  destruct (replace_ref d _ (approved_documents t)) as [[l' ref']|] eqn:Er; cbn [ok_or] in E; [|injection E as <- <-; by exists dm].
  apply replace_ref_spec in Er as (El & Hids & Hmem); [|done|done]. cbn [fst snd] in E. set (t' := with_sources _ _ l' _) in E.
  destruct (to_vec t') as [json|] eqn:Ej; cbn [ok_or] in E; [|injection E as <- <-; by exists dm].
  unfold on_store in E. destruct (transaction _ (store rt)) as [s2 r2] eqn:E2.
  apply (both_written rt bm dm) in E2; [|done|done]. destruct r2 as [[]|e]; injection E as <- <-.
  2:{ exists dm. split; [done|]. split; [done|]. by apply (shelf_same rt (with_store rt s2) bm bm dm dm). }
  destruct E2 as (s1 & Hd1 & Hw). exists (<[(sc, d) := p]> dm).
  assert (Hd2 : documented (with_tenant (with_store rt s2) sc t') bm (<[(sc, d) := p]> dm)).
  { apply (documented_list (with_store rt s1) bm _ sc t' json s2 Hd1 Ej Hw Hsc); cbn [approved_documents t' with_sources]; [by rewrite Hids|].
    intros ref Hr. rewrite lookup_insert. case_decide; [done|]. assert (Hi : doc_id ref ∈ (doc_id <$> approved_documents t)).
    { rewrite <- Hids. by apply list_elem_of_fmap_2. }
    apply list_elem_of_fmap in Hi as (old & -> & Ho). by apply Hin. }
  split; [done|]. split; [done|]. intros x. rewrite (shelf_updated rt _ bm bm dm (<[(sc, d) := p]> dm) sc t'); [|done..|].
  - case_decide; [|done]. subst x. rewrite (shelf_docs rt bm dm sc), Et by done. cbn [approved_documents t' with_sources]. rewrite El.
    unfold renewed. rewrite <- !list_fmap_compose. apply list_fmap_ext. intros i ref _. cbn. case_decide as Eid; cbn.
    + rewrite Eid, lookup_insert_eq. unfold renewed_ref. done.
    + by rewrite lookup_insert_ne by congruence.
  - intros y ref Hne. left. apply lookup_insert_ne. congruence.
Qed.

(** ** Opening again *)

Lemma documented_tape rt bm dm tp : documented rt bm dm -> documented (with_store rt (taped tp (store rt))) bm dm.
Proof.
  intros Hd. eapply documented_store; [exact Hd| |apply Hd|].
  - destruct (dc_inv _ _ _ Hd) as [Hs Hr Hp]. by split.
  - intros x _. by apply listed_same.
Qed.
(** A restart during which no statement fails. *)
Lemma reopen_spec rt bm dm : documented rt bm dm -> exists rt' dm',
  open_documents (tombstones rt) (hushed (store rt)) = (store rt', Ok rt') /\ documented rt' bm dm' /\ tombstones rt' = tombstones rt /\
  (forall x, x ∉ tombstones rt -> tenant_memories rt' !! x = tenant_memories rt !! x) /\
  (forall sc d, dm' !! (sc, d) = if decide ((sc, d) ∈ valid_keys (tenant_memories rt')) then dm !! (sc, d) else None) /\
  (forall sc d, (sc, d) ∈ valid_keys (tenant_memories rt') <->
     sc ∉ tombstones rt /\ exists t, tenant_memories rt !! sc = Some t /\ d ∈ (doc_id <$> approved_documents t)).
Proof.
  intros Hd. unfold open_documents.
  destruct (rehydrate_quiet TENANT_MEMORY_KIND (tombstones rt) (fun (_ : uuid) (a : Tenant) => a) (rows (hushed (store rt))) eq_refl) as (tenants & -> & Hl).
  assert (Ht : forall x, tenants !! x = if bool_decide (x ∈ tombstones rt) then None else tenant_memories rt !! x).
  { intros x. rewrite Hl. case_bool_decide as Hx; [done|]. rewrite (dc_disk _ _ _ Hd x Hx). apply option_fmap_id. }
  change (with_rows (hushed (store rt)) (rows (hushed (store rt)))) with (hushed (store rt)).
  assert (Hs := sweep_spec tenants (hushed (store rt)) (Forall_nil_2 _)). set (s' := sweep_payloads tenants (hushed (store rt))) in *.
  assert (Hv : forall sc d, (sc, d) ∈ valid_keys tenants <->
     sc ∉ tombstones rt /\ exists t, tenant_memories rt !! sc = Some t /\ d ∈ (doc_id <$> approved_documents t)).
  { intros sc d. rewrite valid_keys_elem. split.
    - intros (x & t & r & Htx & Hr & [= -> ->]). rewrite Ht in Htx. case_bool_decide as Hx; [done|].
      destruct (dc_wf _ _ _ Hd x t Htx) as [-> _]. split; [done|]. exists t. split; [done|]. by apply list_elem_of_fmap_2.
    - intros (Hx & t & Htx & (r & -> & Hr)%list_elem_of_fmap). exists sc, t, r. rewrite Ht, bool_decide_eq_false_2 by done.
      destruct (dc_wf _ _ _ Hd sc t Htx) as [-> _]. done. }
  exists (mk_rt s' (tombstones rt) tenants), (base.filter (fun kv => kv.1 ∈ valid_keys tenants) dm).
  split; [done|]. cbn [store tombstones tenant_memories].
  assert (Hdm : forall sc d, base.filter (fun kv => kv.1 ∈ valid_keys tenants) dm !! (sc, d) = if decide ((sc, d) ∈ valid_keys tenants) then dm !! (sc, d) else None).
  { intros sc d. rewrite map_lookup_filter. destruct (dm !! (sc, d)); cbn; [|by case_decide]. case_decide; [by rewrite option_guard_True|by rewrite option_guard_False]. }
  split; [|split; [done|]; split; [|done]]; [|intros x Hx; by rewrite Ht, bool_decide_eq_false_2].
  split; cbn [store tombstones tenant_memories].
  - apply (inv_fewer genuine (mk_world (hushed (store rt)) (tombstones rt) bm dm) _ _ _ (dc_inv _ _ _ (documented_tape _ _ _ [] Hd)) Hs (map_filter_subseteq _ _)).
    intros k. assert (Hk := inv_payloads _ _ (dc_inv _ _ _ Hd) k). cbn [st docs] in Hk. change (tables (hushed (store rt))) with (tables (store rt)).
    rewrite !map_lookup_filter. destruct (_ !! k), (dm !! k); try done; cbn in *. destruct (decide (k ∈ valid_keys tenants)); [by rewrite !option_guard_True|by rewrite !option_guard_False].
  - intros sc t r Htx Hx Hr. rewrite Ht, bool_decide_eq_false_2 in Htx by done. rewrite Hdm, decide_True; [by eapply dc_refs|].
    apply Hv. split; [done|]. exists t. split; [done|]. by apply list_elem_of_fmap_2.
  - intros sc t. rewrite Ht. case_bool_decide; [done|]. apply Hd.
  - intros x Hx. rewrite Ht, bool_decide_eq_false_2 by done. rewrite (dc_disk _ _ _ Hd x Hx). symmetry. apply listed_same; apply Hs.
Qed.

(** ** Every sequence of calls *)

Inductive call : Type :=
| Admit (env : Env) (sc : uuid) (label who : string) (p : list N)
| Revoke (env : Env) (sc d : uuid)
| Replace (env : Env) (sc d : uuid) (label who : string) (p : list N).
Definition plainly {A} (m : Runtime * result A FfiError) : Runtime * result unit FfiError :=
  (m.1, match m.2 with Ok _ => Ok tt | Err e => Err e end).
Definition run_call (c : call) rt : Runtime * result unit FfiError :=
  match c with
  | Admit env sc label who p => plainly (ApprovedDocuments.admit_approved_document env sc label who p rt)
  | Revoke env sc d => ApprovedDocuments.revoke_approved_document env sc d rt
  | Replace env sc d label who p => plainly (ApprovedDocuments.replace_approved_document env sc d label who p rt)
  end.
Definition target (c : call) : uuid := match c with Admit _ sc _ _ _ | Revoke _ sc _ | Replace _ sc _ _ _ _ => sc end.
Definition is_revocation (c : call) : Prop := match c with Revoke _ _ _ => True | _ => False end.
(** The specification: what a call does to its scope's shelf. *)
Definition effect (c : call) (l : list (ApprovedDocumentRef * option (list N))) : list (ApprovedDocumentRef * option (list N)) :=
  match c with
  | Admit env sc label who p => l ++ [(new_ref env label who, Some p)]
  | Revoke _ _ d => removed d l
  | Replace env _ d label who p => renewed (renewed_ref env d label who) p l
  end.
(** A payload whose hash is its own, and a random identifier not met before. *)
Definition proper (c : call) rt : Prop :=
  match c with
  | Admit env sc _ _ p => genuine p /\ approved_document_payloads (tables (store rt)) !! (sc, fresh env 0) = None
  | Revoke _ _ _ => True
  | Replace _ _ _ _ _ p => genuine p
  end.

(** What else happens to the store: evidence comes in, scopes are forgotten. *)
Inductive background s (F : gset uuid) : Store -> gset uuid -> Prop :=
| bg_ingest io sc p source imp language s' r :
    sc ∉ F -> genuine p -> ingest_with_language io sc p source imp language s = (s', r) -> background s F s' F
| bg_forget sc key : locks_out sc key s -> background s F (rekey sc key s) ({[sc]} ∪ F)
| bg_purge sc s' r : sc ∈ F -> purge_body_key_wraps_for_scope sc s = (s', r) -> background s F s' F
| bg_drop sc s' r : sc ∈ F -> delete_approved_document_payloads_for_scope sc s = (s', r) -> background s F s' F
| bg_collect s' r : purge_orphaned_bodies s = (s', r) -> background s F s' F.
Inductive moves : Runtime -> Runtime -> Prop :=
| move_call c rt rt' r : proper c rt -> run_call c rt = (rt', r) -> moves rt rt'
| move_background rt s' F' : background (store rt) (tombstones rt) s' F' -> moves rt (mk_rt s' F' (tenant_memories rt))
| move_reopen rt rt' tp : open_documents (tombstones rt) (hushed (store rt)) = (store rt', Ok rt') ->
    moves rt (with_store rt' (taped tp (store rt'))).
Definition fresh_runtime rt : Prop :=
  tables (store rt) = no_tables /\ memory_objects (conn (rows (store rt))) = ∅ /\ tombstones rt = ∅ /\ tenant_memories rt = ∅.

Lemma background_step s F s' F' bm dm : background s F s' F' -> exists bm' dm', step genuine (mk_world s F bm dm) (mk_world s' F' bm' dm') /\
  forall sc d, sc ∉ F' -> dm' !! (sc, d) = dm !! (sc, d).
Proof.
  destruct 1 as [io sc p source imp language s' r Hn Hg E|sc key Hl|sc s' r Hin E|sc s' r Hin E|s' r E].
  - eexists _, dm. split; [exact (step_ingest genuine (mk_world s F bm dm) io sc p source imp language s' r Hn Hg E)|done].
  - exists bm, dm. split; [exact (step_rekey genuine (mk_world s F bm dm) sc key Hl)|done].
  - exists bm, dm. split; [exact (step_purge genuine (mk_world s F bm dm) sc s' r Hin E)|done].
  - eexists bm, _. split; [exact (step_drop genuine (mk_world s F bm dm) sc s' r Hin E)|]. intros x d Hx. cbn [docs].
    destruct r; [|done]. cbn [if_ok]. rewrite map_lookup_filter. destruct (dm !! (x, d)); [|done]. cbn. rewrite option_guard_True; [done|]. cbn. by intros ->.
  - exists bm, dm. split; [exact (step_sweep genuine (mk_world s F bm dm) s' r E)|done].
Qed.
Lemma listed_other s s' x : keys s' x = keys s x -> conn (rows s') = conn (rows s) -> listed_on_disk s' x = listed_on_disk s x.
Proof. intros Hk Hc. unfold listed_on_disk, decoded_at, blob_at, plain, opened. unfold keys in Hk. by rewrite Hc, Hk. Qed.
Lemma background_rows s F s' F' : background s F s' F' -> sound genuine (keys s) F (tables s) ->
  F ⊆ F' /\ forall x, x ∉ F' -> listed_on_disk s' x = listed_on_disk s x.
Proof.
  intros Hb Hs. assert (Hk : forall s1, moved s s1 -> conn (rows s1) = conn (rows s) -> F ⊆ F /\ forall x, x ∉ F -> listed_on_disk s1 x = listed_on_disk s x).
  { intros s1 Hm Hc. split; [done|]. intros x _. by apply listed_same; [apply Hm|]. }
  destruct Hb as [io sc p source imp language s' r Hn Hg E|sc key Hl|sc s' r Hin E|sc s' r Hin E|s' r E].
  - apply (wp_elim _ _ _ _ _ (stored_spec genuine F io sc p source imp language s Hs Hg)) in E. unfold stored_post, ingest_post in E.
    destruct (route_storage_with_threshold _ _ _), r as [res|e]; apply Hk; try apply E; destruct E as [(m & n & Hgo) _]; apply Hgo.
  - split; [set_solver|]. intros x Hx. apply listed_other; [|done]. unfold keys, rekey. cbn. rewrite (proj2 (N.eqb_neq x sc)); [done|set_solver].
  - apply (wp_elim _ _ _ _ _ (purge_spec genuine F sc s Hs)) in E as [Hm E]. destruct r; apply Hk; try done; apply E.
  - revert E. refine (wp_elim _ s (fun _ s' => _) s' r _). apply wp_execute; [intros s1 Hs1 _|intros t n s1 _ Hs1]; apply Hk; apply Hs1.
  - revert E. refine (wp_elim _ s (fun _ s' => _) s' r _). apply wp_transaction; [intros s1 Hs1 _; apply Hk; apply Hs1|]. intros s1 Hs1.
    apply wp_execute; [intros s2 Hs2 _|intros t n s2 _ Hs2]; (split; [etrans; [apply Hs1|apply Hs2]|]); intros s3 Hs3; apply Hk; try apply Hs3.
    + etrans; [apply Hs1|]. etrans; [apply Hs2|apply Hs3].
    + etrans; [apply Hs3|]. etrans; [apply Hs2|apply Hs1].
Qed.

Lemma documented_fresh rt : fresh_runtime rt -> documented rt ∅ ∅.
Proof.
  intros (Ht & Hm & Hf & Hl). split.
  - by apply inv_fresh.
  - intros sc t r. by rewrite Hl, lookup_empty.
  - intros sc t. by rewrite Hl, lookup_empty.
  - intros sc _. unfold listed_on_disk, decoded_at, blob_at. by rewrite Hl, Hm, !lookup_empty.
Qed.
Lemma proper_unused rt bm dm sc d : documented rt bm dm -> approved_document_payloads (tables (store rt)) !! (sc, d) = None ->
  dm !! (sc, d) = None.
Proof. intros Hd Hn. assert (Hp := inv_payloads _ _ (dc_inv _ _ _ Hd) (sc, d)). cbn [st docs] in Hp. rewrite Hn in Hp. by destruct (dm !! _). Qed.
Definition call_does c rt rt' (r : result unit FfiError) : Prop :=
  tombstones rt' = tombstones rt /\
  ((forall x, shelf rt' x = if decide (x = target c) then effect c (shelf rt x) else shelf rt x) /\ (r = Ok tt \/ is_revocation c) \/
   r <> Ok tt /\ forall x, shelf rt' x = shelf rt x).
Lemma call_spec c rt bm dm rt' r : documented rt bm dm -> proper c rt -> run_call c rt = (rt', r) ->
  exists dm', documented rt' bm dm' /\ call_does c rt rt' r.
Proof.
  intros Hd Hp E. unfold call_does. destruct c as [env sc label who p|env sc d|env sc d label who p]; cbn [run_call target effect is_revocation] in *.
  - destruct (ApprovedDocuments.admit_approved_document env sc label who p rt) as [rt1 r1] eqn:E1. injection E as <- <-. destruct Hp as [Hg Hn].
    apply (admit_spec rt bm dm) in E1 as (dm' & Hd' & Ht & Hs); [|done|done|by eapply proper_unused]. exists dm'. split; [done|]. split; [done|].
    destruct r1; [left; split; [exact Hs|by left]|by right].
  - apply (revoke_spec rt bm dm) in E as (dm' & Hd' & Ht & Hs); [|done]. exists dm'. split; [done|]. split; [done|].
    destruct Hs as [Hs|[Hr Hs]]; [left; split; [exact Hs|by right]|by right].
  - destruct (ApprovedDocuments.replace_approved_document env sc d label who p rt) as [rt1 r1] eqn:E1. injection E as <- <-.
    apply (replace_spec rt bm dm) in E1 as (dm' & Hd' & Ht & Hs); [|done|done]. exists dm'. split; [done|]. split; [done|].
    destruct r1; [left; split; [exact Hs|by left]|by right].
Qed.
Lemma documented_background rt bm dm s' F' : documented rt bm dm -> background (store rt) (tombstones rt) s' F' ->
  exists bm' dm', documented (mk_rt s' F' (tenant_memories rt)) bm' dm' /\ forall sc d, sc ∉ F' -> dm' !! (sc, d) = dm !! (sc, d).
Proof.
  intros Hd Hb. destruct (background_step _ _ _ _ bm dm Hb) as (bm' & dm' & Hst & Hdm).
  destruct (background_rows _ _ _ _ Hb (inv_sound _ _ (dc_inv _ _ _ Hd))) as [Hsub Hl].
  exists bm', dm'. split; [|done]. split; cbn [store tombstones tenant_memories].
  - exact (bodies_step genuine _ _ Hst (dc_inv _ _ _ Hd)).
  - intros sc t r Ht Hx Hr. rewrite Hdm by done. apply (dc_refs _ _ _ Hd sc t r Ht); [set_solver|done].
  - apply Hd.
  - intros sc Hx. rewrite Hl by done. apply (dc_disk _ _ _ Hd). set_solver.
Qed.
Lemma documented_rtc rt0 rt : fresh_runtime rt0 -> rtc moves rt0 rt -> exists bm dm, documented rt bm dm.
Proof.
  intros Hf Hr. assert (H0 : exists bm dm, documented rt0 bm dm) by (do 2 eexists; by apply documented_fresh). clear Hf.
  induction Hr as [|rt0 rt1 rt2 Hm _ IH]; [done|]. apply IH. clear IH. destruct H0 as (bm & dm & Hd).
  destruct Hm as [c rt rt' r Hp E|rt s' F' Hb|rt rt' tp E].
  - destruct (call_spec c rt bm dm rt' r Hd Hp E) as (dm' & Hd' & _). by exists bm, dm'.
  - destruct (documented_background rt bm dm s' F' Hd Hb) as (bm' & dm' & Hd' & _). by exists bm', dm'.
  - destruct (reopen_spec rt bm dm Hd) as (rt3 & dm' & E' & Hd' & _). assert (rt3 = rt') as -> by congruence.
    exists bm, dm'. by apply documented_tape.
Qed.

(** When a call is accepted. *)
Definition accepted c rt : Prop :=
  target c ∉ tombstones rt /\
  match c with
  | Admit _ _ label who p => validate label who p = Ok tt
  | Revoke _ sc d => d ∈ (fun x => doc_id x.1) <$> shelf rt sc
  | Replace _ sc d label who p => validate label who p = Ok tt /\ d ∈ (fun x => doc_id x.1) <$> shelf rt sc
  end.
Lemma shelf_ids rt sc t : sc ∉ tombstones rt -> tenant_memories rt !! sc = Some t ->
  (fun x => doc_id x.1) <$> shelf rt sc = doc_id <$> approved_documents t.
Proof. intros Hx Ht. unfold shelf. rewrite bool_decide_eq_false_2, Ht by done. by rewrite <- list_fmap_compose. Qed.
Lemma filter_shorter d (l : list ApprovedDocumentRef) : length (List.filter (fun r => negb (doc_id r =? d)%N) l) <> length l -> d ∈ (doc_id <$> l).
Proof.
  induction l as [|r l IH]; [done|]. cbn [List.filter]. rewrite fmap_cons. destruct (N.eqb_spec (doc_id r) d) as [->|]; cbn; [by left|].
  intros Hn. right. apply IH. lia.
Qed.
Lemma replace_ref_in d f l x : replace_ref d f l = Some x -> d ∈ (doc_id <$> l).
Proof.
  revert x. induction l as [|r l IH]; [done|]. cbn [replace_ref]. intros x E. rewrite fmap_cons. destruct (N.eqb_spec (doc_id r) d) as [->|]; [by left|].
  right. destruct (replace_ref d f l) as [[]|] eqn:El; [by eapply IH|done].
Qed.
Lemma accepts c rt rt' : run_call c rt = (rt', Ok tt) -> accepted c rt.
Proof.
  destruct c as [env sc label who p|env sc d|env sc d label who p]; unfold accepted; cbn [run_call target]; intros E.
  - destruct (ApprovedDocuments.admit_approved_document env sc label who p rt) as [rt1 [a|e]] eqn:E1; [|done]. clear E.
    unfold ApprovedDocuments.admit_approved_document, try_eff, ApprovedDocuments.lift, refuse_forgotten in E1.
    destruct (validate label who p) as [[]|e]; [|done]. case_bool_decide; done.
  - unfold ApprovedDocuments.revoke_approved_document, try_eff, refuse_forgotten, require_tenant in E. case_bool_decide as Hx; [done|].
    destruct (tenant_memories rt !! sc) as [t|] eqn:Et; cbn [ok_or] in E; [|done]. split; [done|]. rewrite (shelf_ids rt sc t) by done.
    unfold TenantMemory.revoke_approved_document in E. destruct (_ =? _)%nat eqn:El; [done|]. apply filter_shorter. by apply Nat.eqb_neq.
  - destruct (ApprovedDocuments.replace_approved_document env sc d label who p rt) as [rt1 [a|e]] eqn:E1; [|done]. clear E.
    unfold ApprovedDocuments.replace_approved_document, try_eff, ApprovedDocuments.lift, refuse_forgotten, require_tenant in E1.
    destruct (validate label who p) as [[]|e]; [|done]. case_bool_decide as Hx; [done|]. destruct (tenant_memories rt !! sc) as [t|] eqn:Et; cbn [ok_or] in E1; [|done].
    destruct (replace_ref d _ _) as [found|] eqn:Er; [|done]. split; [done|]. split; [done|]. rewrite (shelf_ids rt sc t) by done. by eapply replace_ref_in.
Qed.

(** C6: After any sequence of admissions, revocations and replacements, with evidence
    coming in, scopes being forgotten and purged and the store reopened in between, and
    any statement of those calls failing (the reopenings meeting no failure), a
    call that succeeds was made on a scope not forgotten, with a valid payload, and for
    a document on the scope's shelf if it names one; it appends the document, removes
    it, or updates it with its new payload, and does nothing to another scope.  A call
    that fails leaves every shelf as it was, except that a revocation may have taken the
    document off already. *)
Theorem documents_refine rt0 rt c rt' r : fresh_runtime rt0 -> rtc moves rt0 rt -> proper c rt -> run_call c rt = (rt', r) ->
  call_does c rt rt' r /\ (r = Ok tt -> accepted c rt).
Proof.
  intros Hf Hr Hp E. destruct (documented_rtc rt0 rt Hf Hr) as (bm & dm & Hd).
  destruct (call_spec c rt bm dm rt' r Hd Hp E) as (dm' & _ & Hc). split; [done|]. intros ->. by eapply accepts.
Qed.
(** What else happens leaves the shelves of the scopes not forgotten alone. *)
Lemma background_shelf rt0 rt s' F' sc : fresh_runtime rt0 -> rtc moves rt0 rt -> background (store rt) (tombstones rt) s' F' ->
  shelf (mk_rt s' F' (tenant_memories rt)) sc = if decide (sc ∈ F') then [] else shelf rt sc.
Proof.
  intros Hf Hr Hb. destruct (documented_rtc rt0 rt Hf Hr) as (bm & dm & Hd). destruct (documented_background rt bm dm s' F' Hd Hb) as (bm' & dm' & Hd' & Hdm).
  destruct (background_rows _ _ _ _ Hb (inv_sound _ _ (dc_inv _ _ _ Hd))) as [Hsub _].
  case_decide as Hx; [unfold shelf; by rewrite bool_decide_eq_true_2|].
  rewrite (shelf_docs _ bm' dm'), (shelf_docs rt bm dm) by (try done; set_solver). cbn [tenant_memories].
  destruct (tenant_memories rt !! sc); [|done]. apply list_fmap_ext. intros i ref _. by rewrite Hdm.
Qed.

(** ** What is reported *)

Lemma documented_reads rt bm dm s' : documented rt bm dm -> goes (store rt) (tables (store rt)) s' -> documented (with_store rt s') bm dm.
Proof.
  intros Hd Hs. eapply documented_store; [exact Hd|apply (bodies_same genuine (mk_world (store rt) (tombstones rt) bm dm)); [apply Hd|done]|apply Hd|].
  intros x _. apply listed_same; apply Hs.
Qed.
Lemma meta_lookup (ms : list (PayloadMeta (Hash := Hash))) (m0 : gmap uuid (PayloadMeta (Hash := Hash))) d v : (forall m, m ∈ ms -> document_id m = d -> m = v) ->
  (m0 !! d = Some v \/ v ∈ ms /\ document_id v = d) -> foldl (fun m row => <[document_id row := row]> m) m0 ms !! d = Some v.
Proof.
  revert m0. induction ms as [|m ms IH]; intros m0 Hu Hin; cbn [foldl]; [by destruct Hin as [|[?%not_elem_of_nil _]]|].
  apply IH; [intros m' Hm'; apply Hu; by apply list_elem_of_further|]. destruct (decide (document_id m = d)) as [E|E].
  - left. rewrite E, lookup_insert_eq. f_equal. apply Hu; [apply list_elem_of_here|done].
  - rewrite lookup_insert_ne by done. destruct Hin as [?|[[->|Hin]%elem_of_cons Hv]]; [by left|done|by right].
Qed.
Lemma meta_rows (t : @EvidenceTables.Tables Nonce Hash _ _) sc (m : PayloadMeta (Hash := Hash)) :
  m ∈ omap (fun kv : uuid * uuid * PayloadRow (Hash := Hash) => if (kv.1.1 =? sc)%N then Some (meta_of kv.1.2 kv.2) else None)
    (hash_order (map_to_list (approved_document_payloads t))) <->
  exists row, approved_document_payloads t !! (sc, document_id m) = Some row /\ m = meta_of (document_id m) row.
Proof.
  rewrite list_elem_of_omap. split.
  - intros ([[sc' d] row] & Hin & E). rewrite elem_of_hash_order, elem_of_map_to_list in Hin. cbn in E.
    destruct (N.eqb_spec sc' sc) as [->|]; [|done]. injection E as <-. by exists row.
  - intros (row & Hl & Em). exists ((sc, document_id m), row). rewrite elem_of_hash_order, elem_of_map_to_list. split; [done|].
    cbn. rewrite N.eqb_refl. by rewrite Em.
Qed.
(** What a listing shows of a document with its payload. *)
Definition shown sc (rp : ApprovedDocumentRef * list N) : ApprovedDocumentSummary :=
  summary_of sc rp.1 (Z.to_N (payload_size_of rp.2)) (encode_content_hash_hex (content_hash rp.2)).
Lemma joined_shown rt bm dm sc r p ms : documented rt bm dm -> dm !! (sc, doc_id r) = Some p ->
  (forall m, m ∈ ms <-> exists row, approved_document_payloads (tables (store rt)) !! (sc, document_id m) = Some row /\ m = meta_of (document_id m) row) ->
  joined sc (meta_by_id ms) r = shown sc (r, p).
Proof.
  intros Hd Hp Hms. assert (Hrow := inv_payloads _ _ (dc_inv _ _ _ Hd) (sc, doc_id r)). cbn [st docs] in Hrow. rewrite Hp in Hrow.
  destruct (approved_document_payloads _ !! _) as [row|] eqn:Er; [|done]. destruct Hrow as (Hh & _ & Hz).
  unfold joined, meta_by_id. rewrite (meta_lookup ms ∅ (doc_id r) (meta_of (doc_id r) row)).
  - unfold shown. cbn [meta_of meta_size meta_hash fst snd]. by rewrite Hh, Hz.
  - intros m (row' & El & ->)%Hms Eid. cbn in *. congruence.
  - right. split; [|done]. apply Hms. by exists row.
Qed.
Lemma materialise_docs sc refs (full : list (list N)) rt bm dm : documented rt bm dm -> quiet (store rt) -> sc ∉ tombstones rt ->
  Forall2 (fun r p => dm !! (sc, doc_id r) = Some p) refs full -> (materialise sc refs rt).2 = Ok (zip refs full).
Proof.
  intros Hd Hq Hx Hf. revert rt Hd Hq Hx. induction Hf as [|r p refs full Hp Hf IH]; intros rt Hd Hq Hx; [done|]. cbn [materialise]. unfold try_eff, on_store.
  destruct (answers_quiet _ _ _ (load_docs _ (store rt) sc (doc_id r) (dc_inv _ _ _ Hd) eq_refl eq_refl Hx no_collision) Hq) as (s' & -> & Hs).
  cbn [docs]. rewrite Hp. specialize (IH (with_store rt s') (documented_reads _ _ _ _ Hd Hs) (mv_quiet _ _ (go_moved _ _ _ Hs) Hq) Hx).
  destruct (materialise sc refs (with_store rt s')) as [rt2 rest]. cbn [snd] in IH. by rewrite IH.
Qed.
Lemma listed_payloads sc (dm : gmap (uuid * uuid) (list N)) (l : list ApprovedDocumentRef) :
  (forall r, r ∈ l -> is_Some (dm !! (sc, doc_id r))) -> exists full, Forall2 (fun r p => dm !! (sc, doc_id r) = Some p) l full.
Proof.
  induction l as [|r l IH]; intros Hl; [by exists []|]. destruct (Hl r (list_elem_of_here _ _)) as [p Hp].
  destruct IH as [full Hf]; [intros r' Hr'; by apply Hl, list_elem_of_further|]. exists (p :: full). by constructor.
Qed.
Lemma listed_shown rt bm dm sc l full ms : documented rt bm dm -> Forall2 (fun r p => dm !! (sc, doc_id r) = Some p) l full ->
  (forall m, m ∈ ms <-> exists row, approved_document_payloads (tables (store rt)) !! (sc, document_id m) = Some row /\ m = meta_of (document_id m) row) ->
  joined sc (meta_by_id ms) <$> l = shown sc <$> zip l full.
Proof.
  intros Hd Hf Hms. induction Hf as [|r p l full Hp _ IH]; [done|]. cbn [zip zip_with]. rewrite !fmap_cons. f_equal; [|exact IH].
  by apply (joined_shown rt bm dm).
Qed.
(** In any state those calls reach, as long as no statement fails, every document on
    a scope's shelf has its payload; the listing shows exactly these documents in the
    order of the shelf, each with the size and the hash of its own payload; and reading
    them for synthesis gives exactly the documents with their payloads. *)
Theorem listing_exact rt0 rt sc : fresh_runtime rt0 -> rtc moves rt0 rt -> quiet (store rt) ->
  exists full, shelf rt sc = (fun rp => (rp.1, Some rp.2)) <$> full /\
    (list_approved_documents sc rt).2 = Ok (shown sc <$> full) /\ (materialise sc full.*1 rt).2 = Ok full.
Proof.
  intros Hf Hr Hq. destruct (documented_rtc rt0 rt Hf Hr) as (bm & dm & Hd). unfold list_approved_documents.
  case_bool_decide as Hx; [exists []; split; [unfold shelf; by rewrite bool_decide_eq_true_2|done]|]. rewrite (shelf_docs rt bm dm) by done.
  destruct (tenant_memories rt !! sc) as [t|] eqn:Et; [|by exists []].
  destruct (listed_payloads sc dm (approved_documents t)) as [full Hfull]; [intros r Hr'; by eapply dc_refs|].
  exists (zip (approved_documents t) full). assert (Hlen := Forall2_length _ _ _ Hfull). rewrite fst_zip by lia. split; [|split].
  - clear -Hfull. induction Hfull as [|r p l full Hp _ IH]; [done|]. cbn. rewrite Hp. f_equal. exact IH.
  - unfold try_eff, on_store, list_approved_document_payload_meta_for_scope, query, execute. rewrite (quiet_tick _ Hq). cbn. f_equal.
    by apply (listed_shown rt bm dm sc _ full), meta_rows.
  - by apply (materialise_docs sc _ full rt bm dm).
Qed.


(** C17: Reopening the store after any of that, with no statement failing in it nor in
    the reopenings before it (a list that cannot be read while opening loses its
    payloads, [unread_list_loses_payloads]), gives every scope the shelf it had, documents and payloads, and leaves the payload rows of
    exactly the documents on a shelf: the rows that revocations and forgetting left
    behind are gone. *)
Theorem reopen_exact rt0 rt : fresh_runtime rt0 -> rtc moves rt0 rt ->
  exists rt', open_documents (tombstones rt) (hushed (store rt)) = (store rt', Ok rt') /\
    (forall sc, shelf rt' sc = shelf rt sc) /\
    (forall sc d, is_Some (approved_document_payloads (tables (store rt')) !! (sc, d)) <-> d ∈ (fun x => doc_id x.1) <$> shelf rt sc).
Proof.
  intros Hf Hr. destruct (documented_rtc rt0 rt Hf Hr) as (bm & dm & Hd).
  destruct (reopen_spec rt bm dm Hd) as (rt' & dm' & E & Hd' & Ht & Hm & Hdm & Hv). exists rt'. split; [exact E|]. split.
  - intros sc. destruct (decide (sc ∈ tombstones rt)) as [Hx|Hx]; [unfold shelf; by rewrite Ht, !bool_decide_eq_true_2|].
    rewrite (shelf_docs rt' bm dm'), (shelf_docs rt bm dm) by (rewrite ?Ht; done). rewrite Hm by done.
    destruct (tenant_memories rt !! sc) as [t|] eqn:Et; [|done]. apply list_fmap_ext. intros i r Hin%list_elem_of_lookup_2. f_equal.
    rewrite Hdm, decide_True; [done|]. apply Hv. split; [done|]. exists t. split; [done|]. by apply list_elem_of_fmap_2.
  - intros sc d. assert (Hp := inv_payloads _ _ (dc_inv _ _ _ Hd') (sc, d)). cbn [st docs] in Hp. rewrite Hdm in Hp.
    destruct (decide (sc ∈ tombstones rt)) as [Hx|Hx].
    { unfold shelf. rewrite bool_decide_eq_true_2 by done. rewrite decide_False in Hp by (by intros [? _]%Hv).
      destruct (_ !! (sc, d)); [done|]. split; [by intros []|by intros ?%not_elem_of_nil]. }
    assert (Hids : d ∈ (fun x => doc_id x.1) <$> shelf rt sc <-> (sc, d) ∈ valid_keys (tenant_memories rt')).
    { rewrite Hv. destruct (tenant_memories rt !! sc) as [t|] eqn:Et; [rewrite (shelf_ids rt sc t) by done; naive_solver|].
      unfold shelf. rewrite bool_decide_eq_false_2, Et by done. split; [by intros ?%not_elem_of_nil|naive_solver]. }
    rewrite Hids. destruct (decide _) as [Hin|Hn].
    + apply Hv in Hin as Hin'. destruct Hin' as (_ & t & Et & (r & -> & Hr')%list_elem_of_fmap). destruct (dc_refs _ _ _ Hd sc t r Et Hx Hr') as [p Ep].
      rewrite Ep in Hp. destruct (_ !! (sc, doc_id r)); [|done]. split; [done|by eexists].
    + destruct (_ !! (sc, d)); [done|]. split; [by intros []|done].
Qed.
End Shelf.


(** ** Concrete runs *)

Module Demo.
Import ServerSynthesis.Concrete EvidenceTables.Concrete.
#[local] Notation demo_runtime := (@ApprovedDocuments.Runtime unit N unit (list N * Blob) (list N) _ _).
Definition anything (p : list N) : Prop := True.
Lemma own_codec (t : TenantMemoryObject (Json := unit)) (json : list N * Blob) : to_vec t = Some json -> from_slice json = Some t.
Proof. by intros [= <-]. Qed.
Lemma hash_is_text (p q : list N) : anything p -> anything q -> content_hash p = content_hash q -> p = q.
Proof. done. Qed.
Definition text : list N := [5; 6; 7; 8]%N.
Definition at_call (first : uuid) : Env (Key := N) := mk_env (fun n => Z.of_nat n) (fun n => (first + N.of_nat n)%N) 70%N (Ok tt).
Definition begun : demo_runtime := mk_rt (EvidenceTables.mk_store 2 100 no_tables (SynthesisStore.mk_store (mk_db ∅ ∅) (fun sc => Ok sc) [])) ∅ ∅.
(** Two scopes approve the same text; one of them replaces it. *)
Definition one : demo_runtime := (run_call (Admit (at_call 10) 1 "handbook" "ann" text) begun).1.
Definition two : demo_runtime := (run_call (Admit (at_call 20) 2 "handbook" "bob" text) one).1.
Definition three : demo_runtime := (run_call (Replace (at_call 30) 2 20 "manual" "bob" [9; 9; 9]%N) two).1.
Definition revoked : call (Key := N) := Revoke (at_call 40) 1 10.

Lemma begun_fresh : fresh_runtime begun.
Proof. done. Qed.
Lemma call_moves (c : call (Key := N)) (rt : demo_runtime) : proper anything c rt -> rtc (moves anything) rt (run_call c rt).1.
Proof. intros Hp. apply rtc_once. eapply move_call; [exact Hp|]. apply surjective_pairing. Qed.
Lemma reach_three : rtc (moves anything) begun three.
Proof.
  etrans; [apply (call_moves (Admit (at_call 10) 1 "handbook" "ann" text)); split; [done|vm_compute; reflexivity]|].
  etrans; [apply (call_moves (Admit (at_call 20) 2 "handbook" "bob" text)); split; [done|vm_compute; reflexivity]|].
  by apply (call_moves (Replace (at_call 30) 2 20 "manual" "bob" [9; 9; 9]%N)).
Qed.
Lemma three_shelves : (fun x => (doc_label x.1, x.2)) <$> shelf three 1 = [("handbook"%string, Some text)] /\
  (fun x => (doc_label x.1, x.2)) <$> shelf three 2 = [("manual"%string, Some [9; 9; 9]%N)].
Proof. vm_compute. split; reflexivity. Qed.
Lemma revoked_ok : (run_call revoked three).2 = Ok tt.
Proof. vm_compute. reflexivity. Qed.
Lemma documents_refine_witness : (run_call revoked three).2 = Ok tt /\
  forall x, shelf (run_call revoked three).1 x = if decide (x = 1%N) then removed 10 (shelf three x) else shelf three x.
Proof.
  split; [exact revoked_ok|].
  destruct (documents_refine anything own_codec hash_is_text begun three revoked (run_call revoked three).1 (run_call revoked three).2
    begun_fresh reach_three I (surjective_pairing _)) as [[_ [[Hs _]|[Hr _]]] _]; [exact Hs|]. by rewrite revoked_ok in Hr.
Defined.
Lemma three_quiet : EvidenceTables.quiet (store three).
Proof. assert (E : tape (rows (store three)) = []) by (vm_compute; reflexivity). unfold EvidenceTables.quiet. rewrite E. constructor. Qed.
Lemma listing_exact_witness : exists full, shelf three 2 = (fun rp => (rp.1, Some rp.2)) <$> full /\
  (list_approved_documents 2 three).2 = Ok (shown 2 <$> full) /\ (materialise 2 full.*1 three).2 = Ok full.
Proof. exact (listing_exact anything own_codec hash_is_text begun three 2 begun_fresh reach_three three_quiet). Defined.
Example three_listed : (list_approved_documents 2 three).2 = Ok [mk_summary 20 2 "manual" "bob" 0 3 "090909"].
Proof. vm_compute. reflexivity. Qed.

(** The first scope is revoked, but its payload row is not deleted: that statement fails.
    Opening again collects it. *)
Definition fourth_fails : list (Tick (Nonce := unit)) := [SynthesisStore.quiet; SynthesisStore.quiet; SynthesisStore.quiet; mk_tick true tt 0].
Definition faulty : demo_runtime := with_store three (taped fourth_fails (store three)).
Definition half_revoked : demo_runtime := (run_call revoked faulty).1.
Lemma row_left_behind : (run_call revoked faulty).2 = Err (Evidence Sqlite) /\ shelf half_revoked 1 = [] /\
  bool_decide (is_Some (approved_document_payloads (tables (store half_revoked)) !! (1, 10)%N)) = true.
Proof. vm_compute. repeat split. Qed.
Lemma reopens_to (rt rt' : demo_runtime) tp : open_documents (tombstones rt) (hushed (store rt)) = (store rt', Ok rt') ->
  with_store rt' (store rt) = rt -> store rt' = hushed (store rt) -> rtc (moves anything) rt (with_store rt (taped tp (store rt))).
Proof.
  intros E Er Es. apply rtc_once. rewrite <- Er at 2. assert (Et : taped tp (store rt) = taped tp (store rt')) by (by rewrite Es).
  rewrite Et. exact (move_reopen anything rt rt' tp E).
Qed.
Definition three_again : demo_runtime := match (open_documents (tombstones three) (hushed (store three))).2 with Ok rt => rt | Err _ => begun end.
Lemma opens_three : open_documents (tombstones three) (hushed (store three)) = (store three_again, Ok three_again).
Proof. vm_compute. reflexivity. Qed.
Lemma three_as_before : with_store three_again (store three) = three.
Proof. vm_compute. reflexivity. Qed.
Lemma three_store : store three_again = hushed (store three).
Proof. vm_compute. reflexivity. Qed.
Lemma reach_half : rtc (moves anything) begun half_revoked.
Proof.
  etrans; [exact reach_three|]. etrans; [|by apply (call_moves revoked faulty)].
  exact (reopens_to three three_again fourth_fails opens_three three_as_before three_store).
Qed.
Lemma reopen_exact_witness : exists rt', open_documents (tombstones half_revoked) (hushed (store half_revoked)) = (store rt', Ok rt') /\
  shelf rt' 2 = shelf half_revoked 2 /\ ~ is_Some (approved_document_payloads (tables (store rt')) !! (1, 10)%N).
Proof.
  destruct (reopen_exact anything own_codec hash_is_text begun half_revoked begun_fresh reach_half) as (rt' & E & Hs & Hp).
  exists rt'. split; [exact E|]. split; [apply Hs|]. rewrite Hp. destruct row_left_behind as (_ & -> & _). apply not_elem_of_nil.
Defined.

(** The list of the first scope read is not read, once. *)
Definition unlucky := taped [SynthesisStore.quiet; SynthesisStore.quiet; mk_tick true tt 0] (store three).
Definition opened_once : demo_runtime := match (open_documents ∅ unlucky).2 with Ok rt => rt | Err _ => begun end.
Lemma opened_once_store : open_documents (Json := unit) ∅ unlucky = (store opened_once, Ok opened_once).
Proof. vm_compute. reflexivity. Qed.
Definition reopened_again : demo_runtime := match (open_documents ∅ (hushed (store opened_once))).2 with Ok rt => rt | Err _ => begun end.
Example documents_without_payload : bool_decide (is_Some (tenant_memories opened_once !! 1%N)) = false /\
  shelf reopened_again 1 = (fun x => (x.1, None)) <$> shelf three 1.
Proof. vm_compute. split; reflexivity. Qed.
Lemma unread_list_loses_payloads_witness :
  payload_at (store three) 1 10 = Some text /\ approved_document_payloads (tables (store opened_once)) !! (1, 10)%N = None /\
  conn (rows (store opened_once)) = conn (rows unlucky).
Proof.
  assert (Hn : tenant_memories opened_once !! 1%N = None) by (vm_compute; reflexivity).
  assert (Hid : bool_decide (map_Forall (fun x t => tm_scope_id t = x) (tenant_memories opened_once)) = true) by (vm_compute; reflexivity).
  apply bool_decide_eq_true in Hid.
  assert (Hq : tape (rehydrate (A := TenantMemoryObject (Json := unit)) TENANT_MEMORY_KIND ∅ (fun _ a => a) (rows unlucky)).1 = []) by (vm_compute; reflexivity).
  split; [vm_compute; reflexivity|].
  destruct (unread_list_loses_payloads ∅ unlucky (store opened_once) opened_once 1 opened_once_store Hn Hid) as [Hc Hl].
  - unfold EvidenceTables.quiet. cbn [with_rows rows]. rewrite Hq. constructor.
  - split; [apply Hl|exact Hc].
Defined.
End Demo.
